(* ===== verification/_CoqProject ===== *)
-Q . S2P
Prelude.v
Utf8.v
Text.v
Ordered.v
LowerTypes.v
Dof.v
Dif.v
Action.v
Ecb.v
Session.v
Merge.v
AggSnapshot.v
Wire.v
FailStop.v
SelfTrace.v
FieldReloc.v
LoadProg.v
Hello.v
Bfr7.v
Envelope.v
Shm.v
Ring.v
ControlShm.v
CliShm.v
Conduit.v
DataShm.v
Emit.v
Bpf.v
Schema.v
Verify.v
CodeFrag.v
HostDof.v
LowerState.v
LowerDif.v
LowerAction.v
LowerAgg.v
LowerProg.v
LowerOk.v
LowerSafe.v
LowerAggOk.v
LowerProgOk.v
LowerSem.v
DifSem.v
DifOk.v
SchemaPick.v
CoreReloc.v
AggDecl.v
LinuxCompile.v
LinuxCompileOk.v
LowerSample.v
CompileSample.v
ElfFile.v
Btf.v
BtfOk.v
BtfLookup.v
ElfSyms.v
ElfSymsOk.v
ElfNotes.v
Vdso.v
FileSample.v
DParse.v
DParseOk.v
DParseRt.v
SourceRewrite.v
SourceRewriteOk.v
Translators.v
TranslatorsOk.v
SourceSample.v
Backend.v
Plan.v
MiniYaml.v
MiniYamlOk.v
PlanFile.v
PlanSample.v
CapabilityFanout.v
DirectLoad.v
Wrapper.v
Printa.v
Xstack.v
Xagg.v
