(* ===== verification/Prelude.v ===== *)
(** * Project Bifrost: a verification development

    Bifrost runs one D program over several kernels at once.  The host
    compiles the program with libdtrace, lowers the resulting DIF to eBPF for
    Linux guests (or ships the DOF to native DTrace guests), sends it through
    a control region shared with each virtual machine, and reads the records
    the probes emit from per-CPU rings of a second region.  The records of all
    guests are merged in time order and their aggregations are reduced to one
    table.  This library models those paths in Rocq, from the Rust sources
    under src/, and proves what makes them correct.

    ** Parts and files

    Shared: Prelude.v (outcomes, the state-and-error monad, machine integers,
    little-endian fields, checked slices), Utf8.v, Ordered.v ([Ord], the stable
    sort, [BTreeMap]).

    The lowering crate (crates/bifrost-dtrace-lower): LowerTypes.v, Dof.v,
    Dif.v, Action.v and Ecb.v parse DOF; Session.v has the adapter interface,
    a class, and the driver [drive] that hands every ECB to it.

    The wire crate (host/bifrost-wire): Wire.v (constants, errors, the sink
    interface), FailStop.v (the iterator its decoders share), SelfTrace.v,
    FieldReloc.v, LoadProg.v, Hello.v, Bfr7.v, Envelope.v: one file per codec.

    The shared regions: Shm.v is a language of shared-memory programs with a
    two-party interleaving semantics and a rely-guarantee precondition.  Ring.v
    is the control ring; ControlShm.v and Conduit.v the VMM's side
    (host/virtio-conduit); CliShm.v and DataShm.v the client's side
    (host/bifrost/src/control_shmem.rs).

    The compiler (host/bifrost/src): HostDof.v (lib.rs), Emit.v (emit.rs),
    Schema.v (host/bifrost-support, schema.rs), Verify.v (verify.rs),
    LowerState.v, LowerDif.v, LowerAction.v, LowerAgg.v, LowerProg.v
    (state.rs, branch.rs, dif.rs, category.rs, action.rs, agg.rs, mod.rs).
    Bpf.v is the eBPF machine, a reference semantics and not a translation;
    DifSem.v is the DIF machine for integer code, likewise a reference;
    DifOk.v proves the lowering of that code correct between the two machines;
    CodeFrag.v, LowerOk.v, LowerSafe.v, LowerAggOk.v, LowerProgOk.v prove the
    lowering safe, LowerSem.v relates emitted code to the machine, and
    LowerSample.v lowers a whole clause and holds the witnesses.

    Around the lowering (host/bifrost/src/cli): SchemaPick.v (schema_pick.rs)
    chooses a program's record schema, AggDecl.v (agg_decl.rs) scans a clause
    for its aggregations, CoreReloc.v (source_rewrite.rs) resolves CO-RE
    constants in lowered code, and LinuxCompile.v (linux_compile.rs) compiles
    clauses from their DOF to their programs, maps and counters;
    LinuxCompileOk.v has its theorems and CompileSample.v concrete clauses.
    Text.v is about strings as sequences of characters and the byte classes
    and white space the scanners share. Before it, DParse.v (parse.rs) splits
    a D source into its clauses; DParseOk.v shows what is kept of the source,
    DParseRt.v that a printed script is split into its clauses.
    SourceRewrite.v (source_rewrite.rs) and Translators.v (translators.rs)
    rewrite a clause from text to text on its way to libdtrace;
    SourceRewriteOk.v and TranslatorsOk.v have their theorems, SourceSample.v
    a small scheduler's structs and the sources they treat otherwise than
    their comments say.

    Sessions (host/bifrost/src): Backend.v (backend.rs) is the guests, the
    session a native DTrace guest is given for a DOF, and the routes of
    probes; Plan.v (plan.rs) the targets of a session and the clauses each
    gets; MiniYaml.v and PlanFile.v the files plans are written in.
    MiniYamlOk.v has the theorems of MiniYaml.v, the other three their own,
    and PlanSample.v has plans, some not treated as the comments say. What a
    Linux guest is sent: Wrapper.v (cli/wrapper.rs) puts compiled programs in
    the BFR7 format, DirectLoad.v (cli/direct_load.rs) makes the session
    command with the SHA-256 of its DOF, and CapabilityFanout.v
    (cli/capability_fanout.rs) an envelope per guest; each has its theorems.
    Printa.v (cli/printa.rs) is the report at the end of a session, the
    formats of a source applied to the rows Merge.v keeps, and Xstack.v
    (cli/xstack.rs) pairs the fires a guest announces with the stacks the host
    captures for them.  Xagg.v (cli/xagg.rs) is the aggregations both sides
    take part in: what is put into the source for them, the lines that carry
    their values, shared with the stitcher by the dispatcher of runtime.rs,
    and their tables.

    Kernel and program files: Btf.v is the BTF reader (btf.rs), BtfOk.v its
    round trip against the format, BtfLookup.v its lookups against C's rule
    for members.  ElfFile.v holds what the readers of ELF files share;
    ElfSyms.v is a file's symbol table and the search for a uprobe's binary
    (elf_syms.rs), ElfSymsOk.v its theorems, ElfNotes.v the USDT notes with
    theirs, Vdso.v the vDSO inside a kernel image (vdso.rs), and FileSample.v
    a small kernel's blob and a small program.

    The merge layer (host/bifrost/src): Merge.v (merge.rs) and AggSnapshot.v
    (the snapshot decoder of cli/orchestrate.rs).

    ** What the theorems show

    - Sessions: [drive] keeps the probe-attachment discipline on every path,
      reports every ECB in order, refines an abstract session, and does not
      panic; the ECB walk visits exactly the rows the DOF describes.
    - Parsing: section payloads stay inside the blob, parsing inverts the
      image of a well-formed DOF, and the host's reader agrees with the
      lowering crate's wherever the latter accepts.
    - Codecs: encoding then decoding is the identity for wrappers, self-trace
      events, statuses, envelopes and schemas; decoders of hostile bytes return
      an error and never read out of range.
    - Rings: under every interleaving of a producer and a consumer the ring
      delivers exactly what was pushed, in order.  Above it, a request makes
      the round trip from client to guest and back, the worker forwards and
      acknowledges as far as the ring has room, and the control queue loses
      and invents nothing.
    - Data records: the reader's walk returns exactly the committed records
      and never reads outside the sub-ring.
    - Compiler: lowering a well-formed DOF never panics, and what it returns
      passes the static verifier with its relocations exact; the verifier
      accepts exactly the well-formed programs and names a fault of any other;
      an integer DIF program computes on the eBPF machine what it computes on
      the DIF machine;
      run on the eBPF machine, a histogram counts every 64-bit value in its
      bucket and each counting aggregation computes its aggregation.
    - Clauses: compiling clauses never panics, ships only verified programs
      with exact relocations, gives one map to each fake descriptor, and fans
      a clause out along the chains of its actions; the schema picked for an
      action has the slots its lowering stores to; declared aggregations are
      scanned back as they were written.
    - Sources: splitting a D source ends, loses only white space, and inverts
      a printer of scripts; an identifier is replaced as a word; each macro
      of an offset is replaced by its own sentinel, marked with the field's
      offset; the typed-argument chains of a body are those of its grammar,
      and each becomes macros that are marked step by step.
    - Sessions: a source is routed to exactly the targets that take its
      clauses; a plan comes back from its YAML text, and parsing one ends; a
      native session reads back to its request, with a schema for each record;
      verified programs are wrapped and read back whole; a session command
      and the envelopes of a fan-out say what they carry and ask for no
      capability a source does not use.
    - Reports: the calls of a body are found as they were written, a format
      puts every element of a row's key and its value in place, and no row of
      the session is left out; every stack captured is shown with the next
      fire of its thread, and folded stacks are counted; the tables hold what
      the marker lines say, stubs declare what the host refers to, and the
      labels of a linear histogram are the bounds of its steps.
    - Files: any bytes parse as BTF or are refused, a blob laid out by the
      format parses to its types and names, and a field is found at the sum of
      the offsets C gives it; a file's functions and USDT notes are read as
      they were written, and an address is given to the last symbol below it.
    - Merge: the merged output is in time order, a drain is the stable sort of
      its input, and a row of the reducer is the fold of its values whatever
      the order they came in.

    ** Reading the models

    An [outcome] is what a call does: return, return an error, or panic.
    Integers are [Z] with their width written out: [add64] and its like panic
    on overflow, as a checked build does, and [as_i32] and its like wrap.
    Strings are their bytes.  A loop the code bounds by its data carries fuel
    computed from that data, and running out is [Panic]; so every theorem that
    excludes [Panic] also shows the loop ends with the fuel given.  Functions
    on shared memory are access-by-access programs, and a theorem about two
    parties quantifies over their interleavings.

    ** Assumptions

    Memory is sequentially consistent.  Operating-system calls (mapping,
    event descriptors, FIFOs) are taken to succeed or are arguments carrying
    their result, and mutexes are not poisoned.  The eBPF machine of Bpf.v
    takes helpers and kernel functions as parameters; where a theorem needs a
    helper to return, its hypothesis says what the kernel documents: it
    answers in r0 and preserves r6 to r10.

    ** Not modelled

    Display code ([disasm_ebpf], [ProbeDescTuple::render]).  The attach and
    orchestrate runtimes, the launchers and the trace renderer of cli/, which
    are threads, processes, signals and terminal I/O around the modelled
    parts; argument parsing, which is clap's; libdtrace and its bindings,
    whose behaviour the sources do not say; the vhost-user process, which is
    sockets and memory mappings of the vhost crates.  Lowered DIF that loads
    memory, calls subroutines or uses strings is modelled and shown safe, but
    not shown to agree with DIF, for want of a reference semantics of the
    guest's memory. *)

From Stdlib Require Export ZArith Lia.
From Stdlib Require Import Strings.Byte.
From stdpp Require Export base list numbers tactics.
From coqutil Require Export Byte Word.LittleEndianList.

Local Open Scope Z_scope.

(** ** Results and outcomes

    [result E A] is Rust's [Result<A, E>], a value a function may store or
    match on.  [outcome E A] is what running a Rust function of return type
    [Result<A, E>] does: it returns [Ok], returns [Err], or panics (an
    out-of-range index or slice, or an arithmetic overflow of a checked
    build).  A function that cannot return an error is polymorphic in [E]. *)

Inductive result (E A : Type) : Type :=
| Ok (a : A)
| Err (e : E).
Arguments Ok {_ _} _.
Arguments Err {_ _} _.

Inductive outcome (E A : Type) : Type :=
| Ret (a : A)
| Throw (e : E)
| Panic.
Arguments Ret {_ _} _.
Arguments Throw {_ _} _.
Arguments Panic {_ _}.

#[export] Instance outcome_ret E : MRet (outcome E) := fun _ a => Ret a.
#[export] Instance outcome_bind E : MBind (outcome E) := fun _ _ k m =>
  match m with
  | Ret a => k a
  | Throw e => Throw e
  | Panic => Panic
  end.

Lemma bind_Ret {E A B} (a : A) (k : A -> outcome E B) : (Ret a ≫= k) = k a.
Proof. reflexivity. Qed.
Lemma bind_Throw {E A B} (e : E) (k : A -> outcome E B) : (Throw e ≫= k) = Throw e.
Proof. reflexivity. Qed.

(** [?] on an [Option] followed by [ok_or]. *)
Definition ok_or {E A} (o : option A) (e : E) : outcome E A :=
  match o with Some a => Ret a | None => Throw e end.

(** Running a fallible call and matching on its [Result]. *)
Definition catch {E F A} (m : outcome E A) : outcome F (result E A) :=
  match m with
  | Ret a => Ret (Ok a)
  | Throw e => Ret (Err e)
  | Panic => Panic
  end.

Definition lift_result {E A} (r : result E A) : outcome E A :=
  match r with Ok a => Ret a | Err e => Throw e end.

(** ** The state-passing version, for code that mutates through [&mut]. *)

Definition st (S E A : Type) : Type := S -> outcome E A * S.

#[export] Instance st_ret S E : MRet (st S E) := fun _ a s => (Ret a, s).
#[export] Instance st_bind S E : MBind (st S E) := fun _ _ k m s =>
  match m s with
  | (Ret a, s') => k a s'
  | (Throw e, s') => (Throw e, s')
  | (Panic, s') => (Panic, s')
  end.

Definition st_lift {S E A} (m : outcome E A) : st S E A := fun s => (m, s).
Definition st_throw {S E A} (e : E) : st S E A := fun s => (Throw e, s).
Definition st_gets {S E A} (f : S -> A) : st S E A := fun s => (Ret (f s), s).
Definition st_modify {S E} (f : S -> S) : st S E unit := fun s => (Ret tt, f s).

Fixpoint st_forM {S E A} (l : list A) (f : A -> st S E unit) : st S E unit :=
  match l with
  | [] => mret tt
  | x :: l' => f x ;; st_forM l' f
  end.

(** A loop whose first part ended normally goes on with the rest. *)
Lemma st_forM_Ret {S E A} (f : A -> st S E unit) l1 l2 s s' :
  st_forM l1 f s = (Ret tt, s') -> st_forM (l1 ++ l2) f s = st_forM l2 f s'.
Proof.
  revert s. induction l1 as [|x l1 IH]; intros s; simpl.
  - by intros [= ->].
  - unfold mbind, st_bind. destruct (f x s) as [[[]|?|] s1]; [apply IH|done..].
Qed.

(** ** Machine integers

    Unsigned [w]-bit integers are [Z] values in [0 .. 2^w); [usize] is 64
    bits wide, as on every target the repository builds for. *)

Definition in_u (w v : Z) : Prop := 0 <= v < 2 ^ w.

Definition U16_MAX : Z := 65535.
Definition U32_MAX : Z := 4294967295.
Definition U64_MAX : Z := 18446744073709551615.

Definition checked_add64 (a b : Z) : option Z :=
  if a + b <=? U64_MAX then Some (a + b) else None.
Definition checked_mul64 (a b : Z) : option Z :=
  if a * b <=? U64_MAX then Some (a * b) else None.

(** Plain [+] on [usize]: an overflow is a panic of a checked build. *)
Definition add64 {E} (a b : Z) : outcome E Z :=
  if a + b <=? U64_MAX then Ret (a + b) else Panic.
Definition wrapping_add64 (a b : Z) : Z := (a + b) mod 2 ^ 64.
Definition wrapping_sub64 (a b : Z) : Z := (a - b) mod 2 ^ 64.
Definition saturating_sub (a b : Z) : Z := Z.max 0 (a - b).
Definition saturating_add64 (a b : Z) : Z := Z.min U64_MAX (a + b).

(** The two's-complement reading of a [w]-bit pattern. *)
Definition to_signed (w v : Z) : Z :=
  if v <? 2 ^ (w - 1) then v else v - 2 ^ w.

(** [v as i16], [v as i32]: truncation. *)
Definition as_i16 (v : Z) : Z := to_signed 16 (v mod 2 ^ 16).
Definition as_i32 (v : Z) : Z := to_signed 32 (v mod 2 ^ 32).

Lemma to_signed_range w v : 0 < w -> - 2 ^ (w - 1) <= to_signed w (v mod 2 ^ w) < 2 ^ (w - 1).
Proof.
  intros Hw. unfold to_signed. pose proof (Z.mod_pos_bound v (2 ^ w) ltac:(lia)).
  assert (2 ^ w = 2 * 2 ^ (w - 1)) by (rewrite <- Z.pow_succ_r by lia; f_equal; lia).
  destruct (Z.ltb_spec (v mod 2 ^ w) (2 ^ (w - 1))); lia.
Qed.

Lemma to_signed_mod w v :
  0 < w -> - 2 ^ (w - 1) <= v < 2 ^ (w - 1) -> to_signed w (v mod 2 ^ w) = v.
Proof.
  intros Hw Hv. unfold to_signed.
  assert (E : 2 ^ w = 2 * 2 ^ (w - 1)) by (rewrite <- Z.pow_succ_r; [f_equal; lia|lia]).
  destruct (decide (0 <= v)).
  - rewrite Z.mod_small by lia. destruct (Z.ltb_spec v (2 ^ (w - 1))); lia.
  - replace (v mod 2 ^ w) with (v + 2 ^ w) by (apply (Z.mod_unique _ _ (-1)); lia).
    destruct (Z.ltb_spec (v + 2 ^ w) (2 ^ (w - 1))); lia.
Qed.

(** ** Byte slices *)

Abbreviation bytes := (list Init.Byte.byte).

#[export] Instance byte_eq_dec : EqDecision Init.Byte.byte := Strings.Byte.byte_eq_dec.

Definition len {A} (b : list A) : Z := Z.of_nat (length b).

(** A slice of a Rust program holds at most [isize::MAX] bytes. *)
Definition slice_len_ok (b : bytes) : Prop := len b < 2 ^ 63.

(** [b.get(lo..hi)] *)
Definition slice_get {A} (b : list A) (lo hi : Z) : option (list A) :=
  if (0 <=? lo) && (lo <=? hi) && (hi <=? len b)
  then Some (take (Z.to_nat (hi - lo)) (drop (Z.to_nat lo) b))
  else None.

(** [&b[lo..hi]] *)
Definition slice {E A} (b : list A) (lo hi : Z) : outcome E (list A) :=
  match slice_get b lo hi with Some s => Ret s | None => Panic end.

(** [b[i]], a byte read as a number. *)
Definition byte_at {E} (b : bytes) (i : Z) : outcome E Z :=
  if 0 <=? i then
    match b !! Z.to_nat i with
    | Some x => Ret (byte.unsigned x)
    | None => Panic
    end
  else Panic.

(** [uN::from_le_bytes(b[off..off+n].try_into().unwrap())] *)
Definition le_at {E} (n : nat) (b : bytes) (off : Z) : outcome E Z :=
  s ← slice b off (off + Z.of_nat n); Ret (le_combine s).

(** [v.to_le_bytes()] of an [n]-byte integer. *)
Definition to_le (n : nat) (v : Z) : bytes := le_split n v.

Definition u8b (v : Z) : Init.Byte.byte := byte.of_Z v.

Arguments to_le : simpl never.
Arguments u8b : simpl never.
Arguments le_at : simpl never.
Arguments byte_at : simpl never.

(** [b[off..off+s.len()].copy_from_slice(s)] and
    [ptr::copy_nonoverlapping] into a region of known size. *)
Definition write {E} (b : bytes) (off : Z) (s : bytes) : outcome E bytes :=
  if (0 <=? off) && (off + len s <=? len b)
  then Ret (take (Z.to_nat off) b ++ s ++ drop (Z.to_nat off + length s) b)
  else Panic.

(** ** Iterators

    A Rust [Iterator] is a state and a [next] that may panic; [collect]
    drains it.  The fuel is one more than a measure that every yielded item
    decreases, see [collect_total]. *)

Section Iterators.
Context {S I : Type}.
Variable next : S -> outcome Empty_set (option I * S).

Fixpoint collect (fuel : nat) (s : S) : option (list I * S) :=
  match fuel with
  | O => None
  | Datatypes.S f =>
      match next s with
      | Ret (None, s') => Some ([], s')
      | Ret (Some i, s') =>
          '(items, s'') ← collect f s'; Some (i :: items, s'')
      | _ => None
      end
  end.

Lemma collect_some f s i s' :
  next s = Ret (Some i, s') ->
  collect (Datatypes.S f) s = '(items, s'') ← collect f s'; Some (i :: items, s'').
Proof. intros H. cbn [collect]. by rewrite H. Qed.

Lemma collect_none f s s' :
  next s = Ret (None, s') -> collect (Datatypes.S f) s = Some ([], s').
Proof. intros H. cbn [collect]. by rewrite H. Qed.

Lemma collect_mono f g s r :
  (f <= g)%nat -> collect f s = Some r -> collect g s = Some r.
Proof.
  revert g s r. induction f as [|f IH]; intros g s r Hg; [done|].
  destruct g as [|g]; [lia|]. cbn [collect].
  destruct (next s) as [[[i|] s']|?|]; try done.
  destruct (collect f s') as [[l s'']|] eqn:E; [|done].
  rewrite (IH g s' (l, s'')) by (done || lia). done.
Qed.

Lemma collect_total (inv : S -> Prop) (m : S -> nat) :
  (forall s, inv s -> next s <> Panic) ->
  (forall s i s', inv s -> next s = Ret (Some i, s') ->
    inv s' /\ (m s' < m s)%nat) ->
  forall s, inv s -> is_Some (collect (Datatypes.S (m s)) s).
Proof.
  intros Hsafe Hdec s. remember (m s) as n eqn:Hn.
  assert (Hle : (m s <= n)%nat) by lia. clear Hn. revert s Hle.
  induction n as [|n IH]; intros s Hle Hi;
    specialize (Hsafe s Hi); destruct (next s) as [[[i|] s']|[]|] eqn:E;
    try congruence; try (rewrite (collect_none _ _ _ E); eexists; reflexivity).
  - destruct (Hdec _ _ _ Hi E). lia.
  - destruct (Hdec _ _ _ Hi E) as [Hi' Hlt].
    destruct (IH s' ltac:(lia) Hi') as [[items s''] Hc].
    rewrite (collect_some _ _ _ _ E), Hc. eexists; reflexivity.
Qed.
End Iterators.

(** ** Lemmas on lengths, slices and writes *)

Lemma len_nonneg {A} (b : list A) : 0 <= len b.
Proof. unfold len. lia. Qed.

Lemma len_app {A} (a b : list A) : len (a ++ b) = len a + len b.
Proof. unfold len. rewrite length_app. lia. Qed.

Lemma len_cons {A} (x : A) b : len (x :: b) = 1 + len b.
Proof. unfold len. simpl. lia. Qed.

Lemma len_nil {A} : len (@nil A) = 0.
Proof. reflexivity. Qed.

Lemma len_to_le n v : len (to_le n v) = Z.of_nat n.
Proof. unfold len, to_le. by rewrite length_le_split. Qed.

Lemma len_take {A} (n : nat) (b : list A) : len (take n b) = Z.min (Z.of_nat n) (len b).
Proof. unfold len. rewrite length_take. lia. Qed.

Lemma len_drop {A} (n : nat) (b : list A) : len (drop n b) = Z.max 0 (len b - Z.of_nat n).
Proof. unfold len. rewrite length_drop. lia. Qed.

Lemma len_replicate {A} n (x : A) : len (replicate n x) = Z.of_nat n.
Proof. unfold len. by rewrite length_replicate. Qed.

Lemma length_len {A} (b : list A) : length b = Z.to_nat (len b).
Proof. unfold len. lia. Qed.

Create Rewrite HintDb len.
#[export] Hint Rewrite @len_app @len_cons @len_nil len_to_le @len_take
  @len_drop @len_replicate : len.

(** Normalise the lengths in the goal and the hypotheses, then [lia]. *)
Ltac len_simpl := autorewrite with len in *.
Ltac pose_lens :=
  repeat match goal with
  | |- context [len ?b] =>
      lazymatch goal with H : 0 <= len b |- _ => fail | _ => pose proof (len_nonneg b) end
  | _ : context [len ?b] |- _ =>
      lazymatch goal with H : 0 <= len b |- _ => fail | _ => pose proof (len_nonneg b) end
  end.
Ltac len_lia := len_simpl; pose_lens; lia.

(** Boolean comparisons on [Z], reflected. *)
Ltac zbool :=
  repeat match goal with
  | H : (_ && _) = true |- _ => apply andb_true_iff in H; destruct H
  | H : (_ || _) = false |- _ => apply orb_false_iff in H; destruct H
  | H : (_ <=? _) = true |- _ => apply Z.leb_le in H
  | H : (_ <=? _) = false |- _ => apply Z.leb_gt in H
  | H : (_ <? _) = true |- _ => apply Z.ltb_lt in H
  | H : (_ <? _) = false |- _ => apply Z.ltb_ge in H
  | H : (_ =? _) = true |- _ => apply Z.eqb_eq in H
  | H : (_ =? _) = false |- _ => apply Z.eqb_neq in H
  end.

Lemma slice_get_spec {A} (b : list A) lo hi :
  0 <= lo <= hi -> hi <= len b ->
  slice_get b lo hi = Some (take (Z.to_nat (hi - lo)) (drop (Z.to_nat lo) b)).
Proof.
  intros. unfold slice_get.
  destruct (0 <=? lo) eqn:?, (lo <=? hi) eqn:?, (hi <=? len b) eqn:?;
    zbool; try lia; reflexivity.
Qed.

Lemma slice_get_Some {A} (b : list A) lo hi s :
  slice_get b lo hi = Some s -> 0 <= lo <= hi /\ hi <= len b /\ len s = hi - lo.
Proof.
  unfold slice_get. destruct (_ && _) eqn:E; [|done]. intros [= <-]. zbool.
  split; [lia|]. split; [lia|]. len_lia.
Qed.

Lemma slice_ok {E A} (b : list A) lo hi :
  0 <= lo <= hi -> hi <= len b -> exists s, slice (E:=E) b lo hi = Ret s /\ len s = hi - lo.
Proof.
  intros H1 H2. unfold slice. rewrite slice_get_spec by done.
  eexists; split; [reflexivity|]. len_lia.
Qed.

Lemma slice_Ret {E A} (b : list A) lo hi s :
  slice (E:=E) b lo hi = Ret s -> 0 <= lo <= hi /\ hi <= len b /\ len s = hi - lo.
Proof.
  unfold slice. destruct (slice_get b lo hi) eqn:G; intros [= <-]. by eapply slice_get_Some.
Qed.

(** The whole slice, in the middle of an append. *)
Lemma slice_mid {E A} (pre mid post : list A) lo hi :
  lo = len pre -> hi = len pre + len mid ->
  slice (E:=E) (pre ++ mid ++ post) lo hi = Ret mid.
Proof.
  intros -> ->. unfold slice. rewrite slice_get_spec by len_lia.
  replace (Z.to_nat (len pre)) with (length pre) by (unfold len; lia).
  rewrite drop_app_length.
  replace (Z.to_nat _) with (length mid) by (unfold len; lia).
  by rewrite take_app_length.
Qed.

Lemma le_at_ok {E} n b off :
  0 <= off -> off + Z.of_nat n <= len b ->
  exists v, le_at (E:=E) n b off = Ret v /\ in_u (8 * Z.of_nat n) v.
Proof.
  intros H1 H2. unfold le_at.
  destruct (slice_ok (E:=E) b off (off + Z.of_nat n)) as (s & -> & Hs); [lia..|].
  eexists; split; [reflexivity|]. pose proof (le_combine_bound s) as Hb.
  unfold in_u. replace (Z.of_nat n) with (len s) by lia. exact Hb.
Qed.

Lemma byte_at_ok {E} b i :
  0 <= i < len b -> exists v, byte_at (E:=E) b i = Ret v /\ in_u 8 v.
Proof.
  intros [H1 H2]. unfold byte_at. destruct (0 <=? i) eqn:?; zbool; [|lia].
  destruct (lookup_lt_is_Some_2 b (Z.to_nat i)) as [x ->]; [unfold len in *; lia|].
  eexists; split; [reflexivity|]. apply byte.unsigned_range.
Qed.

Lemma le_combine_to_le n v :
  in_u (8 * Z.of_nat n) v -> le_combine (to_le n v) = v.
Proof.
  intros [H1 H2]. unfold to_le. rewrite le_combine_split.
  apply Z.mod_small. by rewrite Z.mul_comm.
Qed.

Lemma unsigned_u8b v : in_u 8 v -> byte.unsigned (u8b v) = v.
Proof.
  intros [H1 H2]. unfold u8b. rewrite byte.unsigned_of_Z.
  unfold byte.wrap. by apply Z.mod_small.
Qed.

(** *** Writes into a region *)

Lemma write_ok {E} (b s : bytes) off :
  0 <= off -> off + len s <= len b ->
  write (E:=E) b off s =
    Ret (take (Z.to_nat off) b ++ s ++ drop (Z.to_nat off + length s) b).
Proof.
  intros. unfold write.
  destruct (0 <=? off) eqn:?, (off + len s <=? len b) eqn:?; zbool; try lia; done.
Qed.

Lemma write_Ret {E} (b s b' : bytes) off :
  write (E:=E) b off s = Ret b' ->
  0 <= off /\ off + len s <= len b /\
  b' = take (Z.to_nat off) b ++ s ++ drop (Z.to_nat off + length s) b.
Proof.
  unfold write. destruct (_ && _) eqn:E1; intros [= <-]. zbool. auto.
Qed.

Lemma len_write {E} (b s b' : bytes) off :
  write (E:=E) b off s = Ret b' -> len b' = len b.
Proof.
  intros (H1 & H2 & ->)%write_Ret. unfold len in *.
  rewrite !length_app, length_take, length_drop. lia.
Qed.

(** The contents of a region, byte by byte: what [slice] reads. *)
Lemma slice_lookup {E} (b s : bytes) lo hi :
  slice (E:=E) b lo hi = Ret s <->
  0 <= lo <= hi /\ hi <= len b /\ len s = hi - lo /\
  (forall i, 0 <= i < hi - lo -> s !! Z.to_nat i = b !! Z.to_nat (lo + i)).
Proof.
  split.
  - intros H. pose proof (slice_Ret _ _ _ _ H) as (H1 & H2 & H3).
    split_and!; [lia..|]. intros i Hi.
    unfold slice in H. rewrite slice_get_spec in H by lia. injection H as <-.
    rewrite lookup_take_lt by lia. rewrite lookup_drop. f_equal. lia.
  - intros (H1 & H2 & H3 & H). unfold slice. rewrite slice_get_spec by lia.
    f_equal. apply list_eq. intros i.
    destruct (decide (i < Z.to_nat (hi - lo))%nat) as [Hi|Hi].
    + rewrite lookup_take_lt by lia. rewrite lookup_drop.
      specialize (H (Z.of_nat i) ltac:(lia)). rewrite Nat2Z.id in H. rewrite H.
      f_equal. lia.
    + rewrite !lookup_ge_None_2; [done| unfold len in *; lia |].
      rewrite length_take, length_drop. lia.
Qed.

Lemma write_lookup_in {E} (b s b' : bytes) off i :
  write (E:=E) b off s = Ret b' -> off <= i < off + len s ->
  b' !! Z.to_nat i = s !! Z.to_nat (i - off).
Proof.
  intros (H1 & H2 & ->)%write_Ret Hi. unfold len in *.
  rewrite lookup_app_r by (rewrite length_take; lia).
  rewrite lookup_app_l by (rewrite length_take; lia).
  f_equal. rewrite length_take. lia.
Qed.

Lemma write_lookup_out {E} (b s b' : bytes) off i :
  write (E:=E) b off s = Ret b' -> 0 <= i -> i < off \/ off + len s <= i ->
  b' !! Z.to_nat i = b !! Z.to_nat i.
Proof.
  intros (H1 & H2 & ->)%write_Ret H0 Hi. unfold len in *. destruct Hi.
  - rewrite lookup_app_l by (rewrite length_take; lia).
    by rewrite lookup_take_lt by lia.
  - rewrite lookup_app_r by (rewrite length_take; lia).
    rewrite lookup_app_r by (rewrite length_take; lia).
    rewrite lookup_drop. f_equal. rewrite length_take. lia.
Qed.

(** Reading back what was written, and framing a disjoint read. *)
Lemma slice_write_same {E F} (b s b' : bytes) off hi :
  write (E:=E) b off s = Ret b' -> hi = off + len s ->
  slice (E:=F) b' off hi = Ret s.
Proof.
  intros H ->. pose proof (len_write _ _ _ _ H). pose proof (write_Ret _ _ _ _ H) as (?&?&_).
  apply slice_lookup. pose_lens. split_and!; [lia..|]. intros i Hi.
  rewrite (write_lookup_in _ _ _ _ _ H) by lia. f_equal. lia.
Qed.

Lemma slice_write_other {E F} (b s b' r : bytes) off lo hi :
  write (E:=E) b off s = Ret b' -> hi <= off \/ off + len s <= lo ->
  slice (E:=F) b lo hi = Ret r -> slice (E:=F) b' lo hi = Ret r.
Proof.
  intros H Hd (H1 & H2 & H3 & H4)%slice_lookup.
  pose proof (len_write _ _ _ _ H). apply slice_lookup.
  split_and!; [lia..|]. intros i Hi. rewrite H4 by done.
  symmetry. eapply write_lookup_out; [exact H|lia|lia].
Qed.

Lemma le_at_write_same {E F} n (b b' : bytes) off v :
  write (E:=E) b off (to_le n v) = Ret b' -> in_u (8 * Z.of_nat n) v ->
  le_at (E:=F) n b' off = Ret v.
Proof.
  intros H Hv. unfold le_at. erewrite slice_write_same by (try exact H; len_lia).
  simpl. by rewrite le_combine_to_le.
Qed.

Lemma le_at_write_other {E F} n (b s b' : bytes) off lo v :
  write (E:=E) b off s = Ret b' -> lo + Z.of_nat n <= off \/ off + len s <= lo ->
  le_at (E:=F) n b lo = Ret v -> le_at (E:=F) n b' lo = Ret v.
Proof.
  intros H Hd. unfold le_at. destruct (slice b lo _) as [r|?|] eqn:G; [|done..].
  intros Hv. by rewrite (slice_write_other _ _ _ _ _ _ _ H Hd G).
Qed.

(** A little-endian read as a slice, and two slices as one. *)

Lemma le_at_slice {E F} n b off v :
  le_at (E:=E) n b off = Ret v -> slice (E:=F) b off (off + Z.of_nat n) = Ret (to_le n v).
Proof.
  unfold le_at, slice. destruct (slice_get b off (off + Z.of_nat n)) as [s|] eqn:G; [|done].
  intros [= <-]. apply slice_get_Some in G as (_ & _ & Hl). f_equal. unfold to_le.
  replace n with (length s) by (unfold len in Hl; lia). by rewrite split_le_combine.
Qed.

Lemma slice_join {E} b lo mid hi (x y : bytes) :
  slice (E:=E) b lo mid = Ret x -> slice (E:=E) b mid hi = Ret y ->
  slice (E:=E) b lo hi = Ret (x ++ y).
Proof.
  intros Hx Hy. apply slice_Ret in Hx as Hx'. apply slice_Ret in Hy as Hy'.
  apply slice_lookup in Hx as (_ & _ & _ & Hx). apply slice_lookup in Hy as (_ & _ & _ & Hy).
  apply slice_lookup. rewrite len_app. split_and!; [lia..|]. intros i Hi.
  destruct (decide (i < mid - lo)).
  - rewrite lookup_app_l by (unfold len in *; lia). apply Hx. lia.
  - rewrite lookup_app_r by (unfold len in *; lia).
    replace (Z.to_nat i - length x)%nat with (Z.to_nat (i - (mid - lo)))
      by (unfold len in *; lia).
    rewrite Hy by lia. f_equal. lia.
Qed.

(** A part of a slice. *)
Lemma slice_part {E F} m a b (x y z : bytes) lo hi :
  slice (E:=E) m a b = Ret (x ++ y ++ z) -> lo = a + len x -> hi = lo + len y ->
  slice (E:=F) m lo hi = Ret y.
Proof.
  intros (H1 & H2 & H3 & H4)%slice_lookup -> ->. len_simpl. pose_lens.
  apply slice_lookup. split_and!; [lia..|]. intros i Hi.
  specialize (H4 (len x + i) ltac:(lia)).
  rewrite lookup_app_r in H4 by (unfold len in *; lia).
  rewrite lookup_app_l in H4 by (unfold len in *; lia).
  replace (Z.to_nat (len x + i) - length x)%nat with (Z.to_nat i) in H4 by (unfold len in *; lia).
  rewrite H4. f_equal. lia.
Qed.

(** *** A cursor into a buffer

    [suffix_at b c s]: the bytes of [b] from offset [c] on are [s].  The
    decoders advance a cursor over a buffer; the round-trip proofs follow
    them with this predicate. *)

Definition suffix_at (b : bytes) (c : Z) (s : bytes) : Prop :=
  exists pre, b = pre ++ s /\ c = len pre.

Lemma suffix_at_0 b : suffix_at b 0 b.
Proof. by exists []. Qed.

Lemma suffix_at_pre pre s : suffix_at (pre ++ s) (len pre) s.
Proof. by exists pre. Qed.

Lemma suffix_at_len b c s : suffix_at b c s -> 0 <= c /\ len b = c + len s.
Proof. intros (pre & -> & ->). len_lia. Qed.

Lemma suffix_at_adv b c x s c' :
  suffix_at b c (x ++ s) -> c' = c + len x -> suffix_at b c' s.
Proof.
  intros (pre & -> & ->) ->. exists (pre ++ x). split; [by rewrite <- app_assoc|len_lia].
Qed.

Lemma suffix_at_slice {E} b c x s hi :
  suffix_at b c (x ++ s) -> hi = c + len x -> slice (E:=E) b c hi = Ret x.
Proof. intros (pre & -> & ->) ->. by apply slice_mid. Qed.

Lemma suffix_at_le {E} n b c v s :
  suffix_at b c (to_le n v ++ s) -> in_u (8 * Z.of_nat n) v ->
  le_at (E:=E) n b c = Ret v.
Proof.
  intros H Hv. unfold le_at. erewrite suffix_at_slice by (try exact H; len_lia).
  simpl. by rewrite le_combine_to_le.
Qed.

Lemma suffix_at_byte {E} b c v s :
  suffix_at b c (u8b v :: s) -> in_u 8 v -> byte_at (E:=E) b c = Ret v.
Proof.
  intros (pre & -> & ->) Hv. unfold byte_at. pose_lens.
  destruct (0 <=? len pre) eqn:?; zbool; [|lia].
  rewrite lookup_app_r by (unfold len; lia).
  replace (_ - _)%nat with 0%nat by (unfold len; lia). simpl.
  by rewrite unsigned_u8b.
Qed.

(** Move the cursor of a [suffix_at] hypothesis to the offset [c']. *)
Ltac adv S c' := apply (suffix_at_adv _ _ _ _ c') in S; [|len_lia].

Lemma in_u16 v : 0 <= v -> v <= U16_MAX -> in_u (8 * Z.of_nat 2) v.
Proof. unfold in_u, U16_MAX. simpl. lia. Qed.

Lemma in_u_lor w a b : 0 < w -> in_u w a -> in_u w b -> in_u w (Z.lor a b).
Proof.
  unfold in_u. intros Hw [A1 A2] [B1 B2].
  assert (0 <= Z.lor a b) by (apply Z.lor_nonneg; lia). split; [done|].
  destruct (decide (Z.lor a b = 0)) as [->|]; [lia|].
  apply Z.log2_lt_pow2; [lia|]. rewrite Z.log2_lor by lia.
  apply Z.max_lub_lt; [destruct (decide (a = 0)) as [->|]|destruct (decide (b = 0)) as [->|]];
    try (simpl; lia); apply Z.log2_lt_pow2; lia.
Qed.

Lemma le_at_0 {E} n v : in_u (8 * Z.of_nat n) v -> le_at (E:=E) n (to_le n v) 0 = Ret v.
Proof.
  intros Hv. apply (suffix_at_le _ _ _ _ []); [|done]. rewrite app_nil_r. apply suffix_at_0.
Qed.

(** ** Absence of panics *)

Definition safe {E A} (m : outcome E A) : Prop := m <> Panic.

Lemma safe_Ret {E A} (a : A) : safe (E:=E) (Ret a).
Proof. done. Qed.
Lemma safe_Throw {E A} (e : E) : safe (A:=A) (Throw e).
Proof. done. Qed.
Lemma safe_ok_or {E A} (o : option A) (e : E) : safe (ok_or o e).
Proof. by destruct o. Qed.

Lemma safe_bind {E A B} (m : outcome E A) (k : A -> outcome E B) :
  safe m -> (forall a, m = Ret a -> safe (k a)) -> safe (m ≫= k).
Proof. destruct m; intros H1 H2; [by apply H2|done..]. Qed.

Lemma safe_catch {E F A} (m : outcome E A) : safe m -> safe (E:=F) (catch m).
Proof. by destruct m. Qed.

Lemma safe_slice {E A} (b : list A) lo hi :
  0 <= lo <= hi -> hi <= len b -> safe (E:=E) (slice b lo hi).
Proof. intros H1 H2. by destruct (slice_ok (E:=E) b lo hi H1 H2) as (s & -> & _). Qed.

Lemma safe_le_at {E} n b off :
  0 <= off -> off + Z.of_nat n <= len b -> safe (le_at (E:=E) n b off).
Proof. intros H1 H2. by destruct (le_at_ok (E:=E) n b off H1 H2) as (v & -> & _). Qed.

Lemma safe_byte_at {E} b i : 0 <= i < len b -> safe (byte_at (E:=E) b i).
Proof. intros H. by destruct (byte_at_ok (E:=E) b i H) as (v & -> & _). Qed.

Lemma safe_write {E} b off s :
  0 <= off -> off + len s <= len b -> safe (write (E:=E) b off s).
Proof. intros. by rewrite write_ok. Qed.

Lemma le_at_Ret {E} n b off v :
  le_at (E:=E) n b off = Ret v ->
  0 <= off /\ off + Z.of_nat n <= len b /\ in_u (8 * Z.of_nat n) v.
Proof.
  unfold le_at. destruct (slice b off _) as [s|?|] eqn:G; intros [= <-].
  pose proof (slice_Ret _ _ _ _ G) as (?&?&?).
  split_and!; [lia..|]. replace (Z.of_nat n) with (len s) by lia. apply le_combine_bound.
Qed.

Lemma byte_at_Ret {E} b i v :
  byte_at (E:=E) b i = Ret v -> 0 <= i < len b /\ in_u 8 v.
Proof.
  unfold byte_at. destruct (0 <=? i) eqn:?; [|done].
  destruct (b !! Z.to_nat i) as [x|] eqn:G; intros [= <-]. zbool.
  apply lookup_lt_Some in G. split; [unfold len; lia|]. apply byte.unsigned_range.
Qed.

Create HintDb safe.
#[export] Hint Resolve safe_Ret safe_Throw safe_ok_or : safe.

(** [safe_go] walks a monadic body: it splits binds, case-splits the tests
    it meets, keeps the bounds each read established, and leaves the index
    side conditions to [lia]. *)
Ltac know_bounds :=
  repeat match goal with
  | H : le_at _ _ _ = Ret _ |- _ => apply le_at_Ret in H; unfold in_u in H; simpl in H
  | H : byte_at _ _ = Ret _ |- _ => apply byte_at_Ret in H; unfold in_u in H; simpl in H
  | H : slice _ _ _ = Ret _ |- _ => apply slice_Ret in H
  end.
Ltac safe_side := know_bounds; zbool; len_simpl; simpl Z.of_nat in *; lia.
Ltac safe_step :=
  match goal with
  | |- safe (Ret _) => apply safe_Ret
  | |- safe (Throw _) => apply safe_Throw
  | |- safe (mret _) => apply safe_Ret
  | |- safe (ok_or _ _) => apply safe_ok_or
  | |- safe (le_at _ _ _) => apply safe_le_at; safe_side
  | |- safe (byte_at _ _) => apply safe_byte_at; safe_side
  | |- safe (slice _ _ _) => apply safe_slice; safe_side
  | |- safe (mbind _ _) => apply safe_bind; [|intros ? ?]
  | |- safe (if ?c then _ else _) => destruct c eqn:?
  | |- safe (match ?o with Some _ => _ | None => _ end) => destruct o eqn:?
  | |- safe (let '(_, _) := ?p in _) => destruct p
  end.
Ltac safe_go := repeat (cbv beta zeta; safe_step).

(** The results of the steps of a monadic body that returned. *)
Ltac split_ret H :=
  repeat match type of H with
  | mbind _ ?m = _ => let E := fresh "R" in destruct m eqn:E; [|discriminate H..];
      rewrite bind_Ret in H; cbv beta zeta in H
  end.

(** ** Reasoning about state-passing code

    [st_post m s P Q]: run from [s], [m] does not panic, ends normally in a
    state and value satisfying [P], or with an error in a state satisfying
    [Q]. *)

Definition st_post {S E A} (m : st S E A) (s : S) (P : A -> S -> Prop) (Q : E -> S -> Prop)
  : Prop :=
  match m s with
  | (Ret a, s') => P a s'
  | (Throw e, s') => Q e s'
  | (Panic, _) => False
  end.

Lemma st_post_ret {S E A} (a : A) (s : S) (P : A -> S -> Prop) (Q : E -> S -> Prop) :
  P a s -> st_post (mret a) s P Q.
Proof. done. Qed.

Lemma st_post_throw {S E A} (e : E) (s : S) (P : A -> S -> Prop) (Q : E -> S -> Prop) :
  Q e s -> st_post (st_throw e) s P Q.
Proof. done. Qed.

Lemma st_post_lift {S E A} (m : outcome E A) (s : S) (P : A -> S -> Prop) (Q : E -> S -> Prop) :
  safe m -> (forall a, m = Ret a -> P a s) -> (forall e, m = Throw e -> Q e s) ->
  st_post (st_lift m) s P Q.
Proof. unfold st_post, st_lift. destruct m; intros H1 H2 H3; auto. Qed.

Lemma st_post_bind {S E A B} (m : st S E A) (k : A -> st S E B) s P Q :
  st_post m s (fun a s' => st_post (k a) s' P Q) Q -> st_post (m ≫= k) s P Q.
Proof.
  unfold st_post, mbind, st_bind. destruct (m s) as [[a|e|] s']; done.
Qed.

Lemma st_post_mono {S E A} (m : st S E A) s (P P' : A -> S -> Prop) (Q Q' : E -> S -> Prop) :
  st_post m s P Q -> (forall a s', P a s' -> P' a s') -> (forall e s', Q e s' -> Q' e s') ->
  st_post m s P' Q'.
Proof. unfold st_post. destruct (m s) as [[a|e|] s']; auto. Qed.
