(* ===== verification/Utf8.v ===== *)
(** UTF-8 validation as Rust's standard library does it: [str::from_utf8]
    and [String::from_utf8_lossy].  A [&str] is the list of its bytes. *)

From S2P Require Import Prelude.

Local Open Scope Z_scope.

Definition in_range (lo hi v : Z) : bool := (lo <=? v) && (v <=? hi).
Definition is_cont (v : Z) : bool := in_range 0x80 0xbf v.

(** The byte at position [i], 0 past the end (never a continuation byte). *)
Definition nth_byte (b : bytes) (i : nat) : Z :=
  match b !! i with Some x => byte.unsigned x | None => 0 end.

(** Decode one step at the front of a non-empty buffer: [(true, n)] when the
    first [n] bytes are a character, [(false, n)] when they are a maximal
    invalid prefix. *)
Definition utf8_step (b : bytes) : bool * nat :=
  let b0 := nth_byte b 0 in
  let b1 := nth_byte b 1 in
  let b2 := nth_byte b 2 in
  let b3 := nth_byte b 3 in
  if b0 <? 0x80 then (true, 1%nat)
  else if in_range 0xc2 0xdf b0 then
    if is_cont b1 then (true, 2%nat) else (false, 1%nat)
  else if in_range 0xe0 0xef b0 then
    let ok1 :=
      if b0 =? 0xe0 then in_range 0xa0 0xbf b1
      else if b0 =? 0xed then in_range 0x80 0x9f b1
      else is_cont b1 in
    if negb ok1 then (false, 1%nat)
    else if is_cont b2 then (true, 3%nat) else (false, 2%nat)
  else if in_range 0xf0 0xf4 b0 then
    let ok1 :=
      if b0 =? 0xf0 then in_range 0x90 0xbf b1
      else if b0 =? 0xf4 then in_range 0x80 0x8f b1
      else is_cont b1 in
    if negb ok1 then (false, 1%nat)
    else if negb (is_cont b2) then (false, 2%nat)
    else if is_cont b3 then (true, 4%nat) else (false, 3%nat)
  else (false, 1%nat).

Fixpoint utf8_valid_fuel (fuel : nat) (b : bytes) : bool :=
  match fuel, b with
  | _, [] => true
  | O, _ => false
  | S f, _ => let '(ok, n) := utf8_step b in ok && utf8_valid_fuel f (drop n b)
  end.
Definition utf8_valid (b : bytes) : bool := utf8_valid_fuel (length b) b.

Definition from_utf8 (b : bytes) : option bytes :=
  if utf8_valid b then Some b else None.

(** U+FFFD *)
Definition replacement : bytes := map u8b [0xef; 0xbf; 0xbd].

Fixpoint lossy_fuel (fuel : nat) (b : bytes) : bytes :=
  match fuel, b with
  | _, [] => []
  | O, _ => []
  | S f, _ =>
      let '(ok, n) := utf8_step b in
      (if ok then take n b else replacement) ++ lossy_fuel f (drop n b)
  end.
Definition from_utf8_lossy (b : bytes) : bytes := lossy_fuel (length b) b.

Lemma lossy_fuel_valid f : forall b, utf8_valid_fuel f b = true -> lossy_fuel f b = b.
Proof.
  induction f as [|f IH]; intros [|x b] H; try done. cbn [utf8_valid_fuel lossy_fuel] in *.
  destruct (utf8_step (x :: b)) as [ok n]. apply andb_true_iff in H as [-> H].
  by rewrite IH, take_drop.
Qed.

(** Lossy decoding keeps a valid string. *)
Lemma from_utf8_lossy_valid b : utf8_valid b = true -> from_utf8_lossy b = b.
Proof. apply lossy_fuel_valid. Qed.
