(* ===== verification/Text.v ===== *)
(** Text as the scanners of the CLI see it (host/bifrost, src/parse.rs and
    src/cli): valid UTF-8 as a sequence of characters, which a scanner that
    copies, blanks or drops parts of a string at ASCII boundaries relies on;
    ASCII classes of bytes, the longest prefix in a class, and the white space
    Rust's [str::trim] takes off. *)

From Stdlib Require Import Strings.String.
From stdpp Require Import list countable.
From S2P Require Import Utf8.
From S2P Require Import Prelude.

Local Open Scope Z_scope.
Local Open Scope list_scope.

Definition ascii_byte (x : Init.Byte.byte) : Prop := byte.unsigned x < 0x80.
Definition high_byte (x : Init.Byte.byte) : Prop := 0x80 <= byte.unsigned x.

(** The bytes of a character outside ASCII. *)
Definition wide_char (c : bytes) : Prop :=
  c <> [] /\ Forall high_byte c /\ forall s, utf8_step (c ++ s) = (true, length c).

Inductive utf8 : bytes -> Prop :=
| utf8_nil : utf8 []
| utf8_ascii x l : ascii_byte x -> utf8 l -> utf8 (x :: l)
| utf8_wide c l : wide_char c -> utf8 l -> utf8 (c ++ l).

Lemma is_cont_high v : is_cont v = true -> 0x80 <= v.
Proof. unfold is_cont, in_range. intros [? ?]%andb_true_iff. lia. Qed.

Lemma in_range_high lo hi v : 0x80 <= lo -> in_range lo hi v = true -> 0x80 <= v.
Proof. unfold in_range. intros ? [? ?]%andb_true_iff. lia. Qed.

Lemma nth_byte_high b i : 0x80 <= nth_byte b i -> exists x, b !! i = Some x /\ high_byte x.
Proof. unfold nth_byte. destruct (b !! i) as [x|]; [|lia]. by exists x. Qed.

Lemma nth_byte_take b n s i : (i < n <= length b)%nat -> nth_byte (take n b ++ s) i = nth_byte b i.
Proof.
  intros Hi. unfold nth_byte. rewrite lookup_app_l by (rewrite length_take; lia).
  by rewrite lookup_take_lt by lia.
Qed.

Lemma prefix_high b n :
  (forall i, (i < n)%nat -> 0x80 <= nth_byte b i) -> (n <= length b)%nat /\ Forall high_byte (take n b).
Proof.
  intros H. split.
  - destruct n as [|n]; [lia|]. destruct (nth_byte_high b n (H n ltac:(lia))) as (x & Hx & _).
    apply lookup_lt_Some in Hx. lia.
  - apply list.Forall_lookup. intros i x Hx. apply lookup_take_Some in Hx as [Hx Hi].
    destruct (nth_byte_high b i (H i Hi)) as (y & Hy & Hh). congruence.
Qed.

(** The step at a byte outside ASCII: the character is all high bytes, and the
    step does not look past it. *)
Lemma utf8_step_wide b n :
  0x80 <= nth_byte b 0 -> utf8_step b = (true, n) ->
  (1 < n <= length b)%nat /\ wide_char (take n b).
Proof.
  intros H0 Hs.
  assert (Hn : (1 < n)%nat /\ (forall i, (i < n)%nat -> 0x80 <= nth_byte b i) /\
    forall b', (forall i, (i < n)%nat -> nth_byte b' i = nth_byte b i) -> utf8_step b' = (true, n)).
  { unfold utf8_step in *. cbv zeta in *.
    set (x0 := nth_byte b 0) in *. set (x1 := nth_byte b 1) in *.
    set (x2 := nth_byte b 2) in *. set (x3 := nth_byte b 3) in *.
    destruct (x0 <? 0x80) eqn:E0; [lia|].
    destruct (in_range 0xc2 0xdf x0) eqn:E1.
    { destruct (is_cont x1) eqn:C1; [|done]. injection Hs as <-. split_and!; [lia| |].
      - intros [|[|i]] Hi; [done|by apply is_cont_high|lia].
      - intros b' Hb. rewrite (Hb 0%nat), (Hb 1%nat) by lia. fold x0 x1. by rewrite E0, E1, C1. }
    destruct (in_range 0xe0 0xef x0) eqn:E2.
    { destruct (if x0 =? 0xe0 then _ else _) eqn:C1; cbn [negb] in Hs; [|done].
      destruct (is_cont x2) eqn:C2; [|done]. injection Hs as <-. split_and!; [lia| |].
      - intros [|[|[|i]]] Hi; [done| |by apply is_cont_high|lia].
        destruct (x0 =? 0xe0); [by eapply in_range_high, C1|].
        destruct (x0 =? 0xed); [by eapply in_range_high, C1|]. by apply is_cont_high.
      - intros b' Hb. rewrite (Hb 0%nat), (Hb 1%nat), (Hb 2%nat) by lia. fold x0 x1 x2.
        by rewrite E0, E1, E2, C1, C2. }
    destruct (in_range 0xf0 0xf4 x0) eqn:E3; [|done].
    destruct (if x0 =? 0xf0 then _ else _) eqn:C1; cbn [negb] in Hs; [|done].
    destruct (is_cont x2) eqn:C2; cbn [negb] in Hs; [|done].
    destruct (is_cont x3) eqn:C3; [|done]. injection Hs as <-. split_and!; [lia| |].
    - intros [|[|[|[|i]]]] Hi; [done| |by apply is_cont_high|by apply is_cont_high|lia].
      destruct (x0 =? 0xf0); [by eapply in_range_high, C1|].
      destruct (x0 =? 0xf4); [by eapply in_range_high, C1|]. by apply is_cont_high.
    - intros b' Hb. rewrite (Hb 0%nat), (Hb 1%nat), (Hb 2%nat), (Hb 3%nat) by lia.
      fold x0 x1 x2 x3. by rewrite E0, E1, E2, E3, C1, C2, C3. }
  destruct Hn as (H1 & Hh & Hl). apply prefix_high in Hh as [Hle Hf]. split; [lia|].
  split; [intros E; apply (f_equal length) in E; rewrite length_take in E; simpl in E; lia|].
  split; [done|].
  intros s. rewrite length_take, Nat.min_l by lia. apply Hl. intros i Hi.
  apply nth_byte_take. lia.
Qed.

Lemma utf8_step_ascii x l : ascii_byte x -> utf8_step (x :: l) = (true, 1%nat).
Proof.
  intros Hx. unfold utf8_step. change (nth_byte (x :: l) 0) with (byte.unsigned x).
  destruct (Z.ltb_spec (byte.unsigned x) 0x80); [done|]. unfold ascii_byte in Hx. lia.
Qed.

Lemma utf8_of_valid b : utf8_valid b = true -> utf8 b.
Proof.
  unfold utf8_valid. generalize (length b) as f. intros f. revert b.
  induction f as [|f IH]; intros [|x l]; cbn [utf8_valid_fuel]; try done; [intros; constructor..|].
  destruct (decide (0x80 <= byte.unsigned x)) as [Hx|Hx].
  - destruct (utf8_step (x :: l)) as [ok n] eqn:Es. intros [-> H]%andb_true_iff.
    destruct (utf8_step_wide (x :: l) n Hx Es) as [_ Hw].
    rewrite <- (take_drop n (x :: l)). constructor; [done|by apply IH].
  - rewrite utf8_step_ascii by (unfold ascii_byte; lia). cbn [andb drop]. intros H.
    apply utf8_ascii; [unfold ascii_byte; lia|by apply IH].
Qed.

Lemma valid_of_utf8 b : utf8 b -> utf8_valid b = true.
Proof.
  intros H. unfold utf8_valid. generalize (Nat.le_refl (length b)). generalize (length b) at 2 3 as f.
  induction H as [|x l Hx Hl IH|c l Hc Hl IH]; intros f Hf; [by destruct f|..].
  - destruct f as [|f]; simpl in Hf; [lia|]. cbn [utf8_valid_fuel].
    rewrite utf8_step_ascii by done. apply IH. simpl. lia.
  - destruct Hc as (Hne & _ & Hs). rewrite length_app in Hf.
    destruct f as [|f]; [destruct c; [done|simpl in Hf; lia]|].
    specialize (Hs l). destruct c as [|y c]; [done|]. cbn [app utf8_valid_fuel].
    cbn [app] in Hs. rewrite Hs. cbn [andb length drop]. rewrite drop_app_length.
    apply IH. simpl in Hf. lia.
Qed.

(** What is left of a valid string after bytes were dropped at its front. *)
Definition utf8_suffix (l : bytes) : Prop :=
  exists c r, l = c ++ r /\ Forall high_byte c /\ utf8 r.

Lemma utf8_is_suffix l : utf8 l -> utf8_suffix l.
Proof. intros H. by exists [], l. Qed.

Lemma utf8_suffix_tail x l : utf8_suffix (x :: l) -> utf8_suffix l.
Proof.
  intros ([|y c] & r & E & Hc & Hr); cbn [app] in E.
  - destruct Hr as [|y r Hy Hr|c r (Hne & Hc' & _) Hr]; [done| |].
    + injection E as -> ->. by apply utf8_is_suffix.
    + destruct c as [|y c]; [done|]. injection E as -> ->. apply list.Forall_cons in Hc' as [_ Hc'].
      by exists c, r.
  - injection E as -> ->. apply list.Forall_cons in Hc as [_ Hc]. by exists c, r.
Qed.

(** After an ASCII byte the string is whole again. *)
Lemma utf8_after_ascii x l : ascii_byte x -> utf8_suffix (x :: l) -> utf8 l.
Proof.
  unfold ascii_byte. intros Hx ([|y c] & r & E & Hc & Hr); cbn [app] in E.
  - destruct Hr as [|y r Hy Hr|c r (Hne & Hc' & _) Hr]; [done|by injection E as -> ->|].
    destruct c as [|y c]; [done|]. injection E as -> ->. apply list.Forall_cons in Hc' as [Hh _].
    unfold high_byte in Hh. lia.
  - injection E as -> ->. apply list.Forall_cons in Hc as [Hh _]. unfold high_byte in Hh. lia.
Qed.

Lemma utf8_app a b : utf8 a -> utf8 b -> utf8 (a ++ b).
Proof.
  intros Ha Hb. induction Ha as [|x l Hx Hl IH|c l Hc Hl IH]; [done| |].
  - by apply utf8_ascii.
  - rewrite <- app_assoc. by apply utf8_wide.
Qed.

Lemma utf8_ascii_list l : Forall ascii_byte l -> utf8 l.
Proof. induction 1; [constructor|by apply utf8_ascii]. Qed.

(** ** Bytes *)

#[export] Instance byte_countable : Countable Init.Byte.byte.
Proof.
  refine (inj_countable' (fun x => byte.unsigned x) byte.of_Z _).
  intros x. apply byte.of_Z_unsigned.
Defined.

Definition byte_is (x : Init.Byte.byte) (c : Z) : bool := byte.unsigned x =? c.

Definition in_span (lo hi v : Z) : bool := (lo <=? v) && (v <=? hi).

Definition is_ascii_digit (x : Init.Byte.byte) : bool := in_span 0x30 0x39 (byte.unsigned x).
Definition is_ascii_alphabetic (x : Init.Byte.byte) : bool :=
  in_span 0x41 0x5a (byte.unsigned x) || in_span 0x61 0x7a (byte.unsigned x).
Definition is_ascii_alphanumeric (x : Init.Byte.byte) : bool := is_ascii_alphabetic x || is_ascii_digit x.

(** Rust's ASCII white space: tab, line feed, form feed, carriage return and
    the blank, not the vertical tab. *)
Definition is_ascii_whitespace (x : Init.Byte.byte) : bool :=
  existsb (byte_is x) [0x09; 0x0a; 0x0c; 0x0d; 0x20].

Definition is_ident_byte (x : Init.Byte.byte) : bool := is_ascii_alphanumeric x || byte_is x 0x5f.

Definition SP : Init.Byte.byte := u8b 0x20.
Definition NL : Init.Byte.byte := u8b 0x0a.

(** The longest prefix of bytes that satisfy [f], and the rest: the loops
    [while i < bytes.len() && f(bytes[i]) { i += 1 }]. *)
Fixpoint span (f : Init.Byte.byte -> bool) (l : bytes) : bytes * bytes :=
  match l with
  | [] => ([], [])
  | x :: l' => if f x then let '(a, b) := span f l' in (x :: a, b) else ([], l)
  end.

Definition take_ident (l : bytes) : bytes * bytes := span is_ident_byte l.
Definition skip_whitespace (l : bytes) : bytes := (span is_ascii_whitespace l).2.

(** ** [str::trim]

    The encodings of the characters of Unicode's [White_Space]. *)
Definition white_chars : list bytes :=
  map (map u8b)
    [[0x09]; [0x0a]; [0x0b]; [0x0c]; [0x0d]; [0x20]; [0xc2; 0x85]; [0xc2; 0xa0]; [0xe1; 0x9a; 0x80];
     [0xe2; 0x80; 0x80]; [0xe2; 0x80; 0x81]; [0xe2; 0x80; 0x82]; [0xe2; 0x80; 0x83]; [0xe2; 0x80; 0x84];
     [0xe2; 0x80; 0x85]; [0xe2; 0x80; 0x86]; [0xe2; 0x80; 0x87]; [0xe2; 0x80; 0x88]; [0xe2; 0x80; 0x89];
     [0xe2; 0x80; 0x8a]; [0xe2; 0x80; 0xa8]; [0xe2; 0x80; 0xa9]; [0xe2; 0x80; 0xaf]; [0xe2; 0x81; 0x9f];
     [0xe3; 0x80; 0x80]].

Fixpoint drop_prefix (p l : bytes) : option bytes :=
  match p, l with
  | [], _ => Some l
  | x :: p, y :: l => if bool_decide (x = y) then drop_prefix p l else None
  | _ :: _, [] => None
  end.

(** [str::find]: the text before the first occurrence, and the text behind it. *)
Fixpoint find_str (needle l : bytes) : option (bytes * bytes) :=
  match drop_prefix needle l with
  | Some rest => Some ([], rest)
  | None =>
      match l with
      | [] => None
      | x :: l => match find_str needle l with Some (a, rest) => Some (x :: a, rest) | None => None end
      end
  end.

(** [str::rfind] of one byte. *)
Definition rfind_byte (c : Z) (l : bytes) : option (bytes * bytes) :=
  match span (fun x => negb (byte_is x c)) (rev l) with
  | (after, _ :: before) => Some (rev before, rev after)
  | _ => None
  end.

(** Up to the parenthesis that closes [depth] open ones, and behind it. *)
Fixpoint close_paren (depth : Z) (l : bytes) : option (bytes * bytes) :=
  match l with
  | [] => None
  | x :: l' =>
      let next d := match close_paren d l' with Some (a, rest) => Some (x :: a, rest) | None => None end in
      if byte_is x 0x28 then next (depth + 1)
      else if byte_is x 0x29 then if depth - 1 =? 0 then Some ([], l') else next (depth - 1)
      else next depth
  end.

(** What is left after one of the characters, if one is in front. *)
Fixpoint strip_one (cs : list bytes) (l : bytes) : option bytes :=
  match cs with
  | [] => None
  | c :: cs => match drop_prefix c l with Some l' => Some l' | None => strip_one cs l end
  end.

Fixpoint trim_with (fuel : nat) (cs : list bytes) (l : bytes) : bytes :=
  match fuel with
  | O => l
  | S fuel => match strip_one cs l with Some l' => trim_with fuel cs l' | None => l end
  end.

Definition trim_start (l : bytes) : bytes := trim_with (length l) white_chars l.
Definition trim_end (l : bytes) : bytes :=
  rev (trim_with (length l) (map (@rev _) white_chars) (rev l)).
Definition trim (l : bytes) : bytes := trim_end (trim_start l).

(** ** Lemmas *)

Lemma byte_is_eq x c : byte_is x c = true -> byte.unsigned x = c.
Proof. unfold byte_is. lia. Qed.

Lemma byte_is_ascii x c : byte_is x c = true -> c < 0x80 -> ascii_byte x.
Proof. unfold ascii_byte. by intros ->%byte_is_eq. Qed.

(** Induction on a string by one or two bytes at a time. *)
Lemma bytes_ind2 (P : bytes -> Prop) :
  P [] -> (forall a, P [] -> P [a]) ->
  (forall a b l, P l -> P (b :: l) -> P (a :: b :: l)) -> forall l, P l.
Proof.
  intros H0 H1 H2 l. enough (H : P l /\ forall a, P (a :: l)) by apply H.
  induction l as [|b l [IH1 IH2]]; [by auto|]. split; [done|]. intros a. by apply H2.
Qed.

Lemma span_spec f l : (span f l).1 ++ (span f l).2 = l /\ Forall (fun x => f x = true) (span f l).1.
Proof.
  induction l as [|x l [IH1 IH2]]; [done|]. cbn [span]. destruct (f x) eqn:E; [|by split].
  destruct (span f l) as [a b]. cbn [fst snd app] in *. split; [by rewrite IH1|by constructor].
Qed.

(** The span of a string that starts with bytes of the class and goes on with
    another. *)
Lemma span_app f a b :
  Forall (fun x => f x = true) a -> match b with x :: _ => f x = false | [] => True end ->
  span f (a ++ b) = (a, b).
Proof.
  intros Ha Hb. induction Ha as [|x a Hx Ha IH]; cbn [app span].
  - destruct b as [|x b]; [done|]. cbn [span]. by rewrite Hb.
  - by rewrite Hx, IH.
Qed.

Lemma span_length f l : (length (span f l).2 <= length l)%nat.
Proof. destruct (span_spec f l) as [H _]. rewrite <- H at 2. rewrite length_app. lia. Qed.

Lemma skip_length l : (length (skip_whitespace l) <= length l)%nat.
Proof. apply span_length. Qed.

Lemma drop_prefix_Some p l after : drop_prefix p l = Some after -> l = p ++ after.
Proof.
  revert l. induction p as [|x p IH]; intros l; [by intros [= ->]|]. destruct l as [|y l]; [done|].
  cbn [drop_prefix]. case_bool_decide as E; [|done]. subst y. intros H%IH. by rewrite H.
Qed.

Lemma drop_prefix_whole p l : drop_prefix p (p ++ l) = Some l.
Proof. induction p as [|x p IH]; [done|]. cbn [app drop_prefix]. by rewrite bool_decide_eq_true_2. Qed.

(** A needle is found behind text that lacks its first byte. *)
Lemma find_str_app x needle a rest : x ∉ a -> find_str (x :: needle) (a ++ (x :: needle) ++ rest) = Some (a, rest).
Proof.
  induction a as [|y a IH]; intros H.
  - change ([] ++ ?l) with l. pose proof (drop_prefix_whole (x :: needle) rest) as E.
    cbn [app find_str] in *. by rewrite E.
  - apply not_elem_of_cons in H as [Hy Ha]. specialize (IH Ha). cbn [app find_str drop_prefix].
    rewrite bool_decide_eq_false_2 by done. cbn [app] in IH. by rewrite IH.
Qed.

(** And not in text without that byte. *)
Lemma find_str_none x needle a : x ∉ a -> find_str (x :: needle) a = None.
Proof.
  induction a as [|y a IH]; intros H; [done|]. apply not_elem_of_cons in H as [Hy Ha].
  cbn [find_str drop_prefix]. rewrite bool_decide_eq_false_2 by done. by rewrite (IH Ha).
Qed.

Lemma rfind_byte_app c x a b : byte_is x c = true -> Forall (fun y => byte_is y c = false) b ->
  rfind_byte c (a ++ x :: b) = Some (a, b).
Proof.
  intros Hx Hb. unfold rfind_byte. rewrite rev_app_distr. cbn [rev]. rewrite <- app_assoc. cbn [app].
  rewrite span_app.
  - by rewrite !rev_involutive.
  - apply Forall_rev. refine (list.Forall_impl _ _ _ Hb _). intros y Hy. by rewrite Hy.
  - by rewrite Hx.
Qed.

Lemma rfind_byte_none c b : Forall (fun y => byte_is y c = false) b -> rfind_byte c b = None.
Proof.
  intros Hb. unfold rfind_byte. rewrite <- (app_nil_r (rev b)), span_app; [done| |done].
  apply Forall_rev. refine (list.Forall_impl _ _ _ Hb _). intros y Hy. by rewrite Hy.
Qed.

Lemma find_str_skip x needle a l : x ∉ a ->
  find_str (x :: needle) (a ++ l) =
  match find_str (x :: needle) l with Some (b, rest) => Some (a ++ b, rest) | None => None end.
Proof.
  induction a as [|y a IH]; intros H; [cbn [app]; by destruct (find_str (x :: needle) l) as [[b rest]|]|].
  apply not_elem_of_cons in H as [Hy Ha]. cbn [app find_str drop_prefix]. rewrite bool_decide_eq_false_2 by done.
  rewrite (IH Ha). by destruct (find_str (x :: needle) l) as [[b rest]|].
Qed.

Lemma find_str_step n x l : drop_prefix n (x :: l) = None -> find_str n l = None -> find_str n (x :: l) = None.
Proof. intros H E. cbn [find_str]. by rewrite H, E. Qed.

(** A text in which every position differs from the needle within the text. *)
Fixpoint clash (n w : bytes) : bool :=
  match n, w with x :: n, y :: w => negb (bool_decide (x = y)) || clash n w | _, _ => false end.
Fixpoint passes (n w : bytes) : bool := match w with [] => true | _ :: w' => clash n w && passes n w' end.

Lemma clash_prefix n w l : clash n w = true -> drop_prefix n (w ++ l) = None.
Proof.
  revert w. induction n as [|x n IH]; intros [|y w] H; try done. cbn [clash app drop_prefix] in *.
  case_bool_decide; [|done]. by apply IH.
Qed.

Lemma find_str_passes n w l : passes n w = true -> find_str n l = None -> find_str n (w ++ l) = None.
Proof.
  induction w as [|x w IH]; intros H Hl; [done|]. cbn [passes] in H. apply andb_prop in H as [C H].
  cbn [app]. apply find_str_step; [|by apply IH]. by apply (clash_prefix n (x :: w)).
Qed.
