(* ===== verification/Ordered.v ===== *)
(** Ordered keys, the stable sort and the ordered map of Rust's standard
    library, as the host's merge layer uses them: [Ord] on integers, strings
    and pairs, [sort_by] and [sort_by_key], [BTreeMap].

    A [BTreeMap] is the list of its entries in key order; [bt_ok] is its
    invariant. *)

From Stdlib Require Export Sorting.Sorted.
From S2P Require Import Prelude.

Local Open Scope Z_scope.

(** ** Total orders *)

Class Ordered (K : Type) : Type := cmp : K -> K -> comparison.

Class OrderedLaws (K : Type) `{Ordered K} : Prop := {
  cmp_refl (x : K) : cmp x x = Eq;
  cmp_eq (x y : K) : cmp x y = Eq -> x = y;
  cmp_flip (x y : K) : cmp y x = CompOpp (cmp x y);
  cmp_lt_trans (x y z : K) : cmp x y = Lt -> cmp y z = Lt -> cmp x z = Lt
}.

Definition key_le `{Ordered K} (x y : K) : Prop := cmp x y <> Gt.

#[export] Instance ordered_Z : Ordered Z := Z.compare.
#[export] Instance ordered_Z_laws : OrderedLaws Z.
Proof.
  split; unfold cmp, ordered_Z.
  - apply Z.compare_refl.
  - apply Z.compare_eq.
  - intros x y. apply Z.compare_antisym.
  - intros x y z. rewrite !Z.compare_lt_iff. lia.
Qed.

Definition then_with (c d : comparison) : comparison :=
  match c with Eq => d | _ => c end.

#[export] Instance ordered_prod {A B} `{Ordered A} `{Ordered B} : Ordered (A * B) :=
  fun x y => then_with (cmp (fst x) (fst y)) (cmp (snd x) (snd y)).

(** Strings compare as the lists of their bytes. *)
Fixpoint cmp_list {A} `{Ordered A} (x y : list A) : comparison :=
  match x, y with
  | [], [] => Eq
  | [], _ :: _ => Lt
  | _ :: _, [] => Gt
  | a :: x, b :: y => then_with (cmp a b) (cmp_list x y)
  end.
#[export] Instance ordered_list {A} `{Ordered A} : Ordered (list A) := cmp_list.

#[export] Instance ordered_byte : Ordered Init.Byte.byte :=
  fun x y => Z.compare (byte.unsigned x) (byte.unsigned y).

Section Orders.
Context {A B : Type} `{OA : Ordered A} `{OB : Ordered B} `{LA : !OrderedLaws A} `{LB : !OrderedLaws B}.

Lemma cmp_lt_gt (x y : A) : cmp x y = Lt <-> cmp y x = Gt.
Proof. rewrite (cmp_flip x y). by destruct (cmp x y). Qed.

Lemma key_le_refl (x : A) : key_le x x.
Proof. unfold key_le. by rewrite cmp_refl. Qed.

Lemma key_le_cases (x y : A) : key_le x y <-> cmp x y = Lt \/ x = y.
Proof.
  unfold key_le. split.
  - intros H. destruct (cmp x y) eqn:E; [right; by apply cmp_eq|by left|done].
  - intros [-> | ->]; [done|by rewrite cmp_refl].
Qed.

Lemma key_le_trans (x y z : A) : key_le x y -> key_le y z -> key_le x z.
Proof.
  rewrite !key_le_cases. intros [Hxy | ->] [Hyz | <-]; auto. left. by eapply cmp_lt_trans.
Qed.

Lemma key_le_total (x y : A) : key_le x y \/ cmp y x = Lt.
Proof. unfold key_le. rewrite (cmp_flip x y). destruct (cmp x y); auto. Qed.

Lemma lt_key_le (x y : A) : cmp x y = Lt -> key_le x y.
Proof. unfold key_le. by intros ->. Qed.

Lemma lt_le_trans (x y z : A) : cmp x y = Lt -> key_le y z -> cmp x z = Lt.
Proof. rewrite key_le_cases. intros Hxy [Hyz | <-]; [by eapply cmp_lt_trans|done]. Qed.

Lemma key_le_not_lt (x y : A) : key_le x y -> cmp y x <> Lt.
Proof. unfold key_le. rewrite cmp_lt_gt. done. Qed.

#[export] Instance ordered_prod_laws : OrderedLaws (A * B).
Proof.
  split; unfold cmp, ordered_prod.
  - intros [a b]. simpl. by rewrite !cmp_refl.
  - intros [a b] [a' b']. simpl. destruct (cmp a a') eqn:E; try done. simpl.
    intros ->%cmp_eq. by rewrite (cmp_eq _ _ E).
  - intros [a b] [a' b']. simpl. rewrite (cmp_flip a a'), (cmp_flip b b').
    by destruct (cmp a a').
  - intros [a b] [a' b'] [a2 b2]. simpl.
    destruct (cmp a a') eqn:E1; try done; destruct (cmp a' a2) eqn:E2; try done; simpl; intros H1 H2.
    + apply cmp_eq in E1 as ->. rewrite E2. simpl. by eapply cmp_lt_trans.
    + apply cmp_eq in E1 as ->. by rewrite E2.
    + apply cmp_eq in E2 as <-. by rewrite E1.
    + by rewrite (cmp_lt_trans _ _ _ E1 E2).
Qed.

#[export] Instance ordered_list_laws : OrderedLaws (list A).
Proof.
  split; unfold cmp, ordered_list.
  - intros x. induction x as [|a x IH]; [done|]. simpl. by rewrite cmp_refl.
  - intros x. induction x as [|a x IH]; intros [|b y]; try done. simpl.
    destruct (cmp a b) eqn:E; try done. simpl. intros ->%IH. by rewrite (cmp_eq _ _ E).
  - intros x. induction x as [|a x IH]; intros [|b y]; try done. simpl.
    rewrite (cmp_flip a b), IH. by destruct (cmp a b).
  - intros x. induction x as [|a x IH]; intros [|b y] [|c z]; try done. simpl.
    destruct (cmp a b) eqn:E1; try done; destruct (cmp b c) eqn:E2; try done; simpl; intros H1 H2.
    + apply cmp_eq in E1 as ->. rewrite E2. simpl. by eapply IH.
    + apply cmp_eq in E1 as ->. by rewrite E2.
    + apply cmp_eq in E2 as <-. by rewrite E1.
    + by rewrite (cmp_lt_trans _ _ _ E1 E2).
Qed.
End Orders.

#[export] Instance ordered_byte_laws : OrderedLaws Init.Byte.byte.
Proof.
  split; unfold cmp, ordered_byte.
  - intros x. apply Z.compare_refl.
  - intros x y H%Z.compare_eq. apply (f_equal byte.of_Z) in H. by rewrite !byte.of_Z_unsigned in H.
  - intros x y. apply Z.compare_antisym.
  - intros x y z. rewrite !Z.compare_lt_iff. lia.
Qed.

(** ** The stable sort *)

Section Sort.
Context {A K : Type} `{OK : Ordered K} `{LK : !OrderedLaws K} (key : A -> K).

Fixpoint insert_by (x : A) (l : list A) : list A :=
  match l with
  | [] => [x]
  | y :: l' => match cmp (key y) (key x) with
               | Lt => y :: insert_by x l'
               | _ => x :: l
               end
  end.

(** [sort_by_key]; [sort_by] with a lexicographic comparison is the same on
    the pair of the keys. *)
Definition sort_by_key (l : list A) : list A := foldr insert_by [] l.

Definition sorted_by (l : list A) : Prop := StronglySorted (fun x y => key_le (key x) (key y)) l.

Lemma insert_by_perm x l : insert_by x l ≡ₚ x :: l.
Proof.
  induction l as [|y l IH]; [done|]. simpl. destruct (cmp _ _); try done.
  rewrite IH. apply Permutation_swap.
Qed.

Lemma sort_by_key_perm l : sort_by_key l ≡ₚ l.
Proof. induction l as [|x l IH]; [done|]. simpl. by rewrite insert_by_perm, IH. Qed.

Lemma insert_by_sorted x l : sorted_by l -> sorted_by (insert_by x l).
Proof.
  induction 1 as [|y l Hs IH Hy]; simpl; [repeat constructor|].
  destruct (cmp (key y) (key x)) eqn:E.
  1, 3: assert (Hxy : key_le (key x) (key y))
          by (unfold key_le; rewrite (cmp_flip (key y) (key x)), E; done);
    constructor; [by constructor|]; constructor; [done|];
    eapply list.Forall_impl; [exact Hy|]; intros z Hz; by eapply key_le_trans.
  constructor; [done|]. rewrite insert_by_perm. constructor; [by apply lt_key_le|done].
Qed.

Lemma sort_by_key_sorted l : sorted_by (sort_by_key l).
Proof. induction l as [|x l IH]; [constructor|]. by apply insert_by_sorted. Qed.

Lemma insert_by_head x l :
  Forall (fun y => key_le (key x) (key y)) l -> insert_by x l = x :: l.
Proof.
  intros H. destruct H as [|y l Hy _]; [done|]. simpl. unfold key_le in Hy.
  rewrite (cmp_flip (key x) (key y)). by destruct (cmp (key x) (key y)).
Qed.

Lemma sort_by_key_id l : sorted_by l -> sort_by_key l = l.
Proof.
  induction 1 as [|x l Hs IH Hx]; [done|]. simpl. rewrite IH. by apply insert_by_head.
Qed.

(** The first of the least elements comes out first. *)
Lemma sort_by_key_min l1 x l2 :
  Forall (fun y => cmp (key x) (key y) = Lt) l1 ->
  Forall (fun y => key_le (key x) (key y)) l2 ->
  sort_by_key (l1 ++ x :: l2) = x :: sort_by_key (l1 ++ l2).
Proof.
  intros H1 H2. induction H1 as [|y l1 Hy _ IH]; simpl.
  - rewrite insert_by_head; [done|]. by rewrite sort_by_key_perm.
  - rewrite IH. simpl. by rewrite Hy.
Qed.

Lemma sorted_by_app l1 l2 :
  sorted_by l1 -> sorted_by l2 ->
  Forall (fun x => Forall (fun y => key_le (key x) (key y)) l2) l1 -> sorted_by (l1 ++ l2).
Proof.
  induction 1 as [|x l1 Hs IH Hx]; intros H2 Hc; [done|]. apply list.Forall_cons in Hc as [Hc1 Hc].
  simpl. constructor; [by apply IH|]. by apply Forall_app.
Qed.

Lemma sorted_by_app_inv l1 l2 : sorted_by (l1 ++ l2) -> sorted_by l1 /\ sorted_by l2.
Proof.
  induction l1 as [|x l1 IH]; simpl; [split; [constructor|done]|].
  intros H. inversion H as [|? ? Hs Hx]; subst. apply IH in Hs as [H1 H2].
  apply Forall_app in Hx as [Hx _]. split; [by constructor|done].
Qed.
End Sort.

(** ** The ordered map *)

Section BTree.
Context {K V : Type} `{OK : Ordered K} `{LK : !OrderedLaws K}.

Definition btree : Type := list (K * V).

Fixpoint bt_get (k : K) (m : btree) : option V :=
  match m with
  | [] => None
  | (k', v) :: m => match cmp k k' with Eq => Some v | Lt => None | Gt => bt_get k m end
  end.

Fixpoint bt_insert (k : K) (v : V) (m : btree) : btree :=
  match m with
  | [] => [(k, v)]
  | (k', v') :: m' =>
      match cmp k k' with
      | Lt => (k, v) :: m
      | Eq => (k, v) :: m'
      | Gt => (k', v') :: bt_insert k v m'
      end
  end.

(** [collect] of an iterator of pairs: the last value of a key stays. *)
Definition bt_collect (l : list (K * V)) : btree :=
  fold_left (fun m kv => bt_insert (fst kv) (snd kv) m) l [].

Definition key_lt (x y : K * V) : Prop := cmp (fst x) (fst y) = Lt.
Definition bt_ok (m : btree) : Prop := StronglySorted key_lt m.

Lemma bt_insert_keys (P : K -> Prop) k v m :
  P k -> Forall (fun kv => P (fst kv)) m -> Forall (fun kv => P (fst kv)) (bt_insert k v m).
Proof.
  intros Hk. induction 1 as [|[k' v'] m Hk' Hm IH]; simpl; [by constructor|].
  destruct (cmp k k'); repeat constructor; auto.
Qed.

Lemma bt_insert_ok k v m : bt_ok m -> bt_ok (bt_insert k v m).
Proof.
  induction 1 as [|[k' v'] m Hs IH Hx]; simpl; [repeat constructor|].
  destruct (cmp k k') eqn:E.
  - apply cmp_eq in E as ->. by constructor.
  - constructor; [by constructor|]. constructor; [done|].
    eapply list.Forall_impl; [exact Hx|]. unfold key_lt. simpl. intros y. by apply cmp_lt_trans.
  - constructor; [done|]. apply (bt_insert_keys (fun x => cmp k' x = Lt)); [|done].
    by apply cmp_lt_gt.
Qed.

Lemma bt_get_insert k v m : bt_get k (bt_insert k v m) = Some v.
Proof.
  induction m as [|[k' v'] m IH]; simpl; [by rewrite cmp_refl|].
  destruct (cmp k k') eqn:E; simpl; [by rewrite cmp_refl..|by rewrite E].
Qed.

Lemma bt_get_insert_ne k k' v m : bt_ok m -> k' <> k -> bt_get k' (bt_insert k v m) = bt_get k' m.
Proof.
  intros Hm Hne. induction Hm as [|[k2 v2] m Hs IH Hx]; simpl.
  - destruct (cmp k' k) eqn:E; try done. by apply cmp_eq in E.
  - destruct (cmp k k2) eqn:E; simpl.
    + apply cmp_eq in E as ->. destruct (cmp k' k2) eqn:E'; try done. by apply cmp_eq in E'.
    + destruct (cmp k' k) eqn:E'; try done; [by apply cmp_eq in E'|].
      by rewrite (cmp_lt_trans _ _ _ E' E).
    + by rewrite IH.
Qed.

(** A map is determined by its lookups. *)
Lemma bt_get_below k m : Forall (fun kv => cmp k (fst kv) = Lt) m -> bt_get k m = None.
Proof. by destruct 1 as [|[k' v'] m Hk]; [|simpl in *; rewrite Hk]. Qed.

Lemma bt_ext m1 m2 : bt_ok m1 -> bt_ok m2 -> (forall k, bt_get k m1 = bt_get k m2) -> m1 = m2.
Proof.
  intros H1. revert m2. induction H1 as [|[k1 v1] m1 Hs1 IH Hx1]; intros m2 H2 He.
  - destruct m2 as [|[k2 v2] m2]; [done|]. specialize (He k2). simpl in He. by rewrite cmp_refl in He.
  - destruct H2 as [|[k2 v2] m2 Hs2 Hx2].
    { specialize (He k1). simpl in He. by rewrite cmp_refl in He. }
    assert (k1 = k2) as <-.
    { pose proof (He k1) as He1. pose proof (He k2) as He2. simpl in He1, He2.
      rewrite cmp_refl in He1, He2. destruct (cmp k1 k2) eqn:E; [by apply cmp_eq|done|].
      apply cmp_lt_gt in E. by rewrite E in He2. }
    pose proof (He k1) as Hv. simpl in Hv. rewrite cmp_refl in Hv. injection Hv as <-.
    f_equal. apply IH; [done|]. intros k. specialize (He k). simpl in He.
    destruct (cmp k k1) eqn:E; [| |done].
    + apply cmp_eq in E as ->. by rewrite (bt_get_below k1 m1 Hx1), (bt_get_below k1 m2 Hx2).
    + rewrite !bt_get_below; [done| |]; (eapply list.Forall_impl; [eassumption|]);
        intros y; by apply cmp_lt_trans.
Qed.

Lemma bt_insert_comm k1 v1 k2 v2 m :
  bt_ok m -> k1 <> k2 ->
  bt_insert k1 v1 (bt_insert k2 v2 m) = bt_insert k2 v2 (bt_insert k1 v1 m).
Proof.
  intros Hm Hne. apply bt_ext; [by do 2 apply bt_insert_ok..|]. intros k.
  destruct (cmp k k1) eqn:E1.
  1: apply cmp_eq in E1 as ->; rewrite bt_get_insert, bt_get_insert_ne, bt_get_insert;
     [done|by apply bt_insert_ok|done].
  all: assert (k <> k1) by (intros ->; by rewrite cmp_refl in E1).
  all: destruct (cmp k k2) eqn:E2.
  all: try (apply cmp_eq in E2 as ->; rewrite bt_get_insert_ne, !bt_get_insert; [done|by apply bt_insert_ok|done]).
  all: assert (k <> k2) by (intros ->; by rewrite cmp_refl in E2).
  all: rewrite !bt_get_insert_ne; try done; by apply bt_insert_ok.
Qed.
End BTree.
Arguments btree : clear implicits.
