(* ===== verification/LowerTypes.v ===== *)
(** Shared vocabulary of the lowering crate
    (crates/bifrost-dtrace-lower/src/lib.rs and the reject reasons of
    adapter.rs): the error enumeration every DOF-driven path returns and the
    target-OS discriminator. *)

From S2P Require Import Prelude.

Local Open Scope Z_scope.

(** adapter.rs: why an adapter refused to materialise an ECB or action. *)
Inductive RejectReason : Type :=
| RejZeroMatch
| NoProvider
| NotImplemented
| DestructiveDisabled
| AggKindUnsupported
| ResourceExhausted
| LoweringFailed.

(** The [#[repr(u16)]] discriminants. *)
Definition reject_code (r : RejectReason) : Z :=
  match r with
  | RejZeroMatch => 1
  | NoProvider => 2
  | NotImplemented => 3
  | DestructiveDisabled => 4
  | AggKindUnsupported => 5
  | ResourceExhausted => 6
  | LoweringFailed => 7
  end.

Inductive LowerError : Type :=
| BadMagic
| ShortHeader
| SectionOutOfBounds (section_index section_offset section_size blob_len : Z)
| SectionEntsizeMismatch (section_index entsize size : Z)
| SectionIndexOutOfRange (referenced section_count : Z)
| TruncatedDif
| UnknownDifOp (op : Z)
| UnknownActionKind (kind : Z)
| UnknownAggKind (kind : Z)
| AdapterRejected (r : RejectReason)
| CapacityExceeded (limit : Z).

Inductive TargetOs : Type :=
| Any | Linux | FreeBsd | Illumos | Macos.

Module TargetOs.
Definition from_u16 (v : Z) : option TargetOs :=
  match v with
  | 0 => Some Any
  | 1 => Some Linux
  | 2 => Some FreeBsd
  | 3 => Some Illumos
  | 4 => Some Macos
  | _ => None
  end.

Definition as_u16 (t : TargetOs) : Z :=
  match t with
  | Any => 0
  | Linux => 1
  | FreeBsd => 2
  | Illumos => 3
  | Macos => 4
  end.

Lemma from_as t : from_u16 (as_u16 t) = Some t.
Proof. by destruct t. Qed.

Lemma as_from v t : from_u16 v = Some t -> as_u16 t = v.
Proof.
  destruct v as [|[[p|p|]|[[p|p|]|[p|p|]|]|]|]; simpl; try done;
    intros [= <-]; reflexivity.
Qed.
End TargetOs.

#[export] Instance RejectReason_eq_dec : EqDecision RejectReason.
Proof. solve_decision. Defined.
#[export] Instance LowerError_eq_dec : EqDecision LowerError.
Proof. solve_decision. Defined.
#[export] Instance TargetOs_eq_dec : EqDecision TargetOs.
Proof. solve_decision. Defined.
