(* ===== verification/Dof.v ===== *)
(** The DOF container parser (crates/bifrost-dtrace-lower/src/dof.rs):
    header, section table, bounds-checked section payloads. *)

From S2P Require Import Prelude LowerTypes.

Local Open Scope Z_scope.

Definition DOF_MAG_BYTES : bytes := map u8b [0x7f; 0x44; 0x4f; 0x46].
Definition DOF_HDR_SIZE : Z := 64.
Definition DOF_SEC_SIZE : Z := 32.

(** [dof_hdr_t], [#[repr(C, packed)]]. *)
Record DofHeaderRaw : Type := {
  ident : bytes;
  hdr_flags : Z;
  hdrsize : Z;
  secsize : Z;
  secnum : Z;
  secoff : Z;
  loadsz : Z;
  filesz : Z;
  hdr_pad : Z
}.

(** [dof_sec_t], [#[repr(C, packed)]]. *)
Record DofSectionRaw : Type := {
  raw_kind : Z;
  raw_align : Z;
  raw_flags : Z;
  raw_entsize : Z;
  raw_offset : Z;
  raw_size : Z
}.

Inductive SectKind : Type :=
| SectNone | Comments | Source | EcbDesc | ProbeDesc | ActDesc | DifoHdr
| Dif | StrTab | VarTab | RelTab | TypTab | UrelHdr | KrelHdr | OptDesc
| Provider | Probes | PrArgs | PrOffs | IntTab | UtsName | XlTab
| XlMembers | XlImport | XlExport | Prexport | PrenOffs | SectOther.

#[export] Instance SectKind_eq_dec : EqDecision SectKind.
Proof. solve_decision. Defined.

Definition sect_kind_from_u32 (v : Z) : SectKind :=
  match v with
  | 0 => SectNone
  | 1 => Comments
  | 2 => Source
  | 3 => EcbDesc
  | 4 => ProbeDesc
  | 5 => ActDesc
  | 6 => DifoHdr
  | 7 => Dif
  | 8 => StrTab
  | 9 => VarTab
  | 10 => RelTab
  | 11 => TypTab
  | 12 => UrelHdr
  | 13 => KrelHdr
  | 14 => OptDesc
  | 15 => Provider
  | 16 => Probes
  | 17 => PrArgs
  | 18 => PrOffs
  | 19 => IntTab
  | 20 => UtsName
  | 21 => XlTab
  | 22 => XlMembers
  | 23 => XlImport
  | 24 => XlExport
  | 25 => Prexport
  | 26 => PrenOffs
  | _ => SectOther
  end.

Record SectionHeader : Type := {
  kind : SectKind;
  kind_raw : Z;
  flags : Z;
  align : Z;
  entsize : Z;
  offset : Z;
  size : Z
}.

Record DofView : Type := {
  blob : bytes;
  sections_bytes : bytes;
  section_count : Z
}.

(** [b.get(off..off + n).map(uN::from_le_bytes)] *)
Definition read_le_opt (n : nat) (b : bytes) (off : Z) : option Z :=
  le_combine <$> slice_get b off (off + Z.of_nat n).
Definition read_u32_le (b : bytes) (off : Z) : option Z := read_le_opt 4 b off.
Definition read_u64_le (b : bytes) (off : Z) : option Z := read_le_opt 8 b off.

Definition unwrap_or (o : option Z) (d : Z) : Z :=
  match o with Some v => v | None => d end.

Definition parse_section_header (raw : bytes) : SectionHeader :=
  let kind_raw := unwrap_or (read_u32_le raw 0) 0 in
  {| kind := sect_kind_from_u32 kind_raw;
     kind_raw := kind_raw;
     flags := unwrap_or (read_u32_le raw 8) 0;
     align := unwrap_or (read_u32_le raw 4) 0;
     entsize := unwrap_or (read_u32_le raw 12) 0;
     offset := unwrap_or (read_u64_le raw 16) 0;
     size := unwrap_or (read_u64_le raw 24) 0 |}.

(** [DofView::section_at] *)
Definition section_at (view : DofView) (index : Z) : option SectionHeader :=
  if section_count view <=? index then None
  else
    let base := index * DOF_SEC_SIZE in
    raw ← slice_get (sections_bytes view) base (base + DOF_SEC_SIZE);
    Some (parse_section_header raw).

(** [DofView::section_bytes] *)
Definition section_bytes (view : DofView) (index : Z) : outcome LowerError bytes :=
  hdr ← ok_or (section_at view index)
              (SectionIndexOutOfRange index (section_count view));
  let off := offset hdr in
  let sz := size hdr in
  match (fun e => len (blob view) <? e) <$> checked_add64 off sz with
  | Some false =>
      if negb (entsize hdr =? 0) && negb (sz mod entsize hdr =? 0)
      then Throw (SectionEntsizeMismatch index (entsize hdr) sz)
      else slice (blob view) off (off + sz)
  | _ => Throw (SectionOutOfBounds index off sz (len (blob view)))
  end.

(** [SectionIter] *)
Record SectionIter : Type := {
  si_blob : bytes;
  si_remaining : Z;
  si_index : Z
}.

Definition sections (view : DofView) : SectionIter :=
  {| si_blob := sections_bytes view;
     si_remaining := section_count view;
     si_index := 0 |}.

Definition section_iter_next {E} (it : SectionIter)
  : outcome E (option (Z * SectionHeader) * SectionIter) :=
  if si_remaining it =? 0 then Ret (None, it)
  else
    let base := si_index it * DOF_SEC_SIZE in
    match slice_get (si_blob it) base (base + DOF_SEC_SIZE) with
    | None => Ret (None, it)
    | Some raw =>
        Ret (Some (si_index it, parse_section_header raw),
             {| si_blob := si_blob it;
                si_remaining := si_remaining it - 1;
                si_index := si_index it + 1 |})
    end.

(** [read_header]: [read_unaligned] of the packed struct on a little-endian
    target. *)
Definition read_header {E} (b : bytes) : outcome E (option DofHeaderRaw) :=
  if len b <? DOF_HDR_SIZE then Ret None
  else
    id ← slice b 0 16;
    fl ← le_at 4 b 16;
    hs ← le_at 4 b 20;
    ss ← le_at 4 b 24;
    sn ← le_at 4 b 28;
    so ← le_at 8 b 32;
    lo ← le_at 8 b 40;
    fi ← le_at 8 b 48;
    pa ← le_at 8 b 56;
    Ret (Some {| ident := id; hdr_flags := fl; hdrsize := hs; secsize := ss;
                 secnum := sn; secoff := so; loadsz := lo; filesz := fi;
                 hdr_pad := pa |}).

Definition read_section {E} (b : bytes) (off : Z) : outcome E (option DofSectionRaw) :=
  match checked_add64 off DOF_SEC_SIZE with
  | None => Ret None
  | Some e =>
      if len b <? e then Ret None
      else
        k ← le_at 4 b off;
        a ← le_at 4 b (off + 4);
        f ← le_at 4 b (off + 8);
        en ← le_at 4 b (off + 12);
        o ← le_at 8 b (off + 16);
        s ← le_at 8 b (off + 24);
        Ret (Some {| raw_kind := k; raw_align := a; raw_flags := f;
                     raw_entsize := en; raw_offset := o; raw_size := s |})
  end.

Definition parse_blob (b : bytes) : outcome LowerError DofView :=
  if len b <? DOF_HDR_SIZE then Throw ShortHeader
  else
    h ← read_header b;
    hdr ← ok_or h ShortHeader;
    magic ← slice (ident hdr) 0 4;
    if negb (bool_decide (magic = DOF_MAG_BYTES)) then Throw BadMagic
    else
      let sec_off := secoff hdr in
      if negb (secsize hdr =? DOF_SEC_SIZE) then Throw ShortHeader
      else
        table_bytes ← ok_or (checked_mul64 (secnum hdr) DOF_SEC_SIZE) ShortHeader;
        e ← ok_or (checked_add64 sec_off table_bytes) ShortHeader;
        if len b <? e then Throw ShortHeader
        else
          secs ← slice b sec_off e;
          Ret {| blob := b; sections_bytes := secs; section_count := secnum hdr |}.

(** ** Bounds of the decoded fields *)

Lemma read_le_opt_bound n b off v :
  read_le_opt n b off = Some v -> in_u (8 * Z.of_nat n) v.
Proof.
  unfold read_le_opt. destruct (slice_get b off _) as [s|] eqn:G; intros [= <-].
  apply slice_get_Some in G as (_ & _ & G).
  replace (Z.of_nat n) with (len s) by lia. apply le_combine_bound.
Qed.

Lemma unwrap_or_bound n b off :
  in_u (8 * Z.of_nat n) (unwrap_or (read_le_opt n b off) 0).
Proof.
  destruct (read_le_opt n b off) eqn:G; simpl; [by eapply read_le_opt_bound|].
  unfold in_u. split; [lia|]. apply Z.pow_pos_nonneg; lia.
Qed.

(** A section header read from bytes has fields of their wire width. *)
Definition header_ok (h : SectionHeader) : Prop :=
  in_u 32 (kind_raw h) /\ in_u 32 (flags h) /\ in_u 32 (align h) /\
  in_u 32 (entsize h) /\ in_u 64 (offset h) /\ in_u 64 (size h) /\
  kind h = sect_kind_from_u32 (kind_raw h).

Lemma parse_section_header_ok raw : header_ok (parse_section_header raw).
Proof.
  unfold header_ok, parse_section_header; simpl.
  split_and!; try done;
    first [exact (unwrap_or_bound 4 _ _) | exact (unwrap_or_bound 8 _ _)].
Qed.

Lemma section_at_ok view i h : section_at view i = Some h -> header_ok h.
Proof.
  unfold section_at. destruct (_ <=? _); [done|].
  destruct (slice_get _ _ _); intros [= <-]. apply parse_section_header_ok.
Qed.

Lemma section_at_lt view i h : section_at view i = Some h -> 0 <= i < section_count view.
Proof.
  unfold section_at. destruct (_ <=? _) eqn:E; [done|]. zbool.
  destruct (slice_get _ _ _) eqn:G; [|done]. intros _.
  apply slice_get_Some in G. unfold DOF_SEC_SIZE in *. lia.
Qed.

(** ** The view invariant: the table holds exactly [section_count] rows. *)

Definition view_wf (view : DofView) : Prop :=
  in_u 32 (section_count view) /\
  len (sections_bytes view) = section_count view * DOF_SEC_SIZE.

Lemma section_at_total view i :
  view_wf view -> 0 <= i < section_count view -> is_Some (section_at view i).
Proof.
  intros [_ Hl] Hi. unfold section_at, DOF_SEC_SIZE in *.
  destruct (_ <=? _) eqn:E; zbool; [lia|].
  rewrite slice_get_spec by lia. by eexists.
Qed.

Lemma checked_add64_Some a b c : checked_add64 a b = Some c -> c = a + b /\ c <= U64_MAX.
Proof. unfold checked_add64. destruct (_ <=? _) eqn:E; intros [= <-]; zbool; lia. Qed.

Lemma checked_mul64_Some a b c : checked_mul64 a b = Some c -> c = a * b /\ c <= U64_MAX.
Proof. unfold checked_mul64. destruct (_ <=? _) eqn:E; intros [= <-]; zbool; lia. Qed.

(** What a successful [section_bytes] returns: the bytes of the blob at the
    header's offset and size, whatever the table says. *)
Lemma section_bytes_Ret view i s :
  section_bytes view i = Ret s ->
  exists h, section_at view i = Some h /\
    offset h + size h <= len (blob view) /\
    slice (E:=LowerError) (blob view) (offset h) (offset h + size h) = Ret s /\
    (entsize h = 0 \/ size h mod entsize h = 0).
Proof.
  unfold section_bytes. destruct (section_at view i) as [h|] eqn:G; [|done]. simpl.
  destruct (checked_add64 _ _) as [e|] eqn:A; [|done]. simpl.
  apply checked_add64_Some in A as [-> _].
  destruct (_ <? _) eqn:L; [done|]. zbool. destruct (_ && _) eqn:M; [done|].
  intros Hs. exists h. split_and!; [done|done|done|].
  destruct (entsize h =? 0) eqn:?, (size h mod entsize h =? 0) eqn:?; simpl in M;
    zbool; auto; done.
Qed.

Lemma section_bytes_safe view i : safe (section_bytes view i).
Proof.
  unfold section_bytes. apply safe_bind; [apply safe_ok_or|]. intros h Hh.
  destruct (section_at view i) as [h'|] eqn:G; simpl in Hh; [|done].
  injection Hh as ->. pose proof (section_at_ok _ _ _ G) as (_&_&_&_&[? ?]&[? ?]&_).
  destruct (checked_add64 _ _) as [e|] eqn:A; simpl; [|done].
  apply checked_add64_Some in A as [-> _].
  destruct (_ <? _) eqn:L; [done|]. zbool. destruct (_ && _); [done|].
  apply safe_slice; lia.
Qed.

Lemma section_bytes_len view i s h :
  section_bytes view i = Ret s -> section_at view i = Some h -> len s = size h.
Proof.
  intros (h' & G & _ & Hs & _)%section_bytes_Ret G'. simplify_eq.
  apply slice_Ret in Hs. lia.
Qed.

(** ** [parse_blob] *)

Lemma read_header_safe {E} b : safe (read_header (E:=E) b).
Proof. unfold read_header, DOF_HDR_SIZE. safe_go. Qed.

Lemma read_section_safe {E} b off : 0 <= off -> safe (read_section (E:=E) b off).
Proof.
  intros H. unfold read_section. destruct (checked_add64 _ _) eqn:A; [|done].
  apply checked_add64_Some in A as [-> _]. unfold DOF_SEC_SIZE. safe_go.
Qed.

Lemma read_header_Ret {E} b h :
  read_header (E:=E) b = Ret (Some h) ->
  DOF_HDR_SIZE <= len b /\ len (ident h) = 16 /\
  in_u 32 (secnum h) /\ in_u 64 (secoff h) /\ in_u 32 (secsize h).
Proof.
  unfold read_header, DOF_HDR_SIZE. destruct (_ <? _) eqn:L; [done|].
  intros H.
  repeat (match type of H with
    | mbind _ ?m = _ => destruct m eqn:?; simpl in H; try discriminate
    end).
  injection H as <-. simpl. know_bounds. zbool. unfold in_u; split_and!; simpl; lia.
Qed.

(** The acceptance condition of [parse_blob], and the view it builds. *)
Lemma parse_blob_Ret b view :
  parse_blob b = Ret view ->
  exists h, read_header (E:=LowerError) b = Ret (Some h) /\
    take 4 (ident h) = DOF_MAG_BYTES /\
    secsize h = DOF_SEC_SIZE /\
    secoff h + secnum h * DOF_SEC_SIZE <= len b /\
    blob view = b /\ section_count view = secnum h /\
    slice (E:=LowerError) b (secoff h) (secoff h + secnum h * DOF_SEC_SIZE)
      = Ret (sections_bytes view).
Proof.
  unfold parse_blob. destruct (_ <? _) eqn:L; [done|].
  destruct (read_header b) as [[h|]|?|] eqn:R; simpl; try done.
  destruct (slice (ident h) 0 4) as [magic|?|] eqn:M; simpl; try done.
  destruct (bool_decide _) eqn:B; simpl; [|done]. apply bool_decide_eq_true in B.
  destruct (secsize h =? _) eqn:S; simpl; [|done]. zbool.
  destruct (checked_mul64 _ _) as [t|] eqn:T; simpl; [|done].
  apply checked_mul64_Some in T as [-> _].
  destruct (checked_add64 _ _) as [e|] eqn:A; simpl; [|done].
  apply checked_add64_Some in A as [-> _].
  destruct (_ <? _) eqn:L2; [done|]. zbool.
  destruct (slice b _ _) as [secs|?|] eqn:G; simpl; try done.
  intros [= <-]. simpl. exists h. split_and!; try done.
  unfold slice in M. destruct (slice_get (ident h) 0 4) eqn:G4; simplify_eq.
  revert G4. unfold slice_get. destruct (_ && _); [|done].
  change (Z.to_nat 0) with 0%nat. rewrite drop_0. by intros [= <-].
Qed.

Lemma parse_blob_wf b view : parse_blob b = Ret view -> view_wf view /\ blob view = b.
Proof.
  intros (h & R & _ & _ & Hle & Hb & Hc & Hs)%parse_blob_Ret.
  apply read_header_Ret in R as (_ & _ & Hn & _ & _).
  apply slice_Ret in Hs. split; [|done]. unfold view_wf. rewrite Hc. split; [done|lia].
Qed.

Lemma parse_blob_safe b : safe (parse_blob b).
Proof.
  unfold parse_blob. destruct (_ <? _); [done|].
  apply safe_bind; [apply read_header_safe|]. intros [h|] Hh; [simpl|done].
  apply read_header_Ret in Hh as (_ & Hid & [? ?] & [? ?] & _).
  apply safe_bind; [apply safe_slice; lia|]. intros magic _.
  destruct (negb _); [done|]. destruct (negb _); [done|].
  apply safe_bind; [apply safe_ok_or|]. intros t Ht.
  apply safe_bind; [apply safe_ok_or|]. intros e He.
  destruct (checked_mul64 _ _) eqn:T; simplify_eq/=.
  apply checked_mul64_Some in T as [-> _].
  destruct (checked_add64 _ _) eqn:A; simplify_eq/=.
  apply checked_add64_Some in A as [-> _]. unfold DOF_SEC_SIZE in *.
  destruct (_ <? _) eqn:L; [done|]. zbool.
  apply safe_bind; [apply safe_slice; lia|]. by intros.
Qed.

(** ** The iterator enumerates the whole table *)

Lemma section_iter_run view n i :
  view_wf view -> 0 <= i -> i + Z.of_nat n = section_count view ->
  exists l it, collect (section_iter_next (E:=Empty_set)) (S n)
      {| si_blob := sections_bytes view; si_remaining := Z.of_nat n; si_index := i |}
      = Some (l, it) /\ length l = n /\
    forall k h, section_at view (i + Z.of_nat k) = Some h ->
      l !! k = Some (i + Z.of_nat k, h).
Proof.
  intros Hwf. revert i. induction n as [|n IH]; intros i H0 Hn.
  - exists [], {| si_blob := sections_bytes view; si_remaining := 0; si_index := i |}.
    split_and!; [done|done|]. intros k h Hk%section_at_lt. lia.
  - destruct (section_at_total view i Hwf ltac:(lia)) as [h0 Hh0].
    destruct (IH (i + 1) ltac:(lia) ltac:(lia)) as (l & it & Hc & Hl & Hlk).
    exists ((i, h0) :: l), it. split_and!; [|by simpl; f_equal|].
    + erewrite collect_some; [rewrite Hc; done|].
      unfold section_iter_next. cbn [si_remaining si_blob si_index].
      destruct (Z.of_nat (S n) =? 0) eqn:?; zbool; [lia|].
      pose proof Hh0 as Hh1. unfold section_at in Hh1. destruct (_ <=? i); [done|].
      destruct (slice_get _ _ _) as [raw|]; [|done]. injection Hh1 as <-.
      by replace (Z.of_nat (S n) - 1) with (Z.of_nat n) by lia.
    + intros [|k] h Hk; [rewrite Z.add_0_r in *; simpl in *; congruence|].
      simpl. replace (i + Z.of_nat (S k)) with (i + 1 + Z.of_nat k) in * by lia. auto.
Qed.

(** ** A reference encoder, the layout of [sys/dtrace.h] *)

Definition enc_section (h : SectionHeader) : bytes :=
  to_le 4 (kind_raw h) ++ to_le 4 (align h) ++ to_le 4 (flags h) ++
  to_le 4 (entsize h) ++ to_le 8 (offset h) ++ to_le 8 (size h).

Definition enc_header (n : Z) : bytes :=
  (DOF_MAG_BYTES ++ replicate 12 (u8b 0)) ++ to_le 4 0 ++ to_le 4 DOF_HDR_SIZE ++
  to_le 4 DOF_SEC_SIZE ++ to_le 4 n ++ to_le 8 DOF_HDR_SIZE ++ to_le 8 0 ++
  to_le 8 0 ++ to_le 8 0.

Definition dof_image (hs : list SectionHeader) (payload : bytes) : bytes :=
  enc_header (len hs) ++ concat (map enc_section hs) ++ payload.

Lemma len_enc_section h : len (enc_section h) = DOF_SEC_SIZE.
Proof. unfold enc_section, DOF_SEC_SIZE. len_lia. Qed.

Lemma len_ident : len (DOF_MAG_BYTES ++ replicate 12 (u8b 0)) = 16.
Proof. reflexivity. Qed.

Lemma len_enc_header n : len (enc_header n) = DOF_HDR_SIZE.
Proof.
  unfold enc_header, DOF_HDR_SIZE. rewrite len_app, len_ident, !len_app, !len_to_le. lia.
Qed.

Lemma len_enc_table hs : len (concat (map enc_section hs)) = len hs * DOF_SEC_SIZE.
Proof.
  induction hs as [|h hs IH]; [done|]. cbn [map concat].
  rewrite len_app, len_cons, len_enc_section, IH. unfold DOF_SEC_SIZE. lia.
Qed.

Lemma slice_get_of_slice {A} (b : list A) lo hi s :
  slice (E:=Empty_set) b lo hi = Ret s -> slice_get b lo hi = Some s.
Proof. unfold slice. by destruct (slice_get b lo hi); intros [= <-]. Qed.

Lemma read_le_opt_suffix n b c v s :
  suffix_at b c (to_le n v ++ s) -> in_u (8 * Z.of_nat n) v ->
  read_le_opt n b c = Some v.
Proof.
  intros H Hv. unfold read_le_opt.
  rewrite (slice_get_of_slice b c _ (to_le n v)).
  - simpl. by rewrite le_combine_to_le.
  - eapply suffix_at_slice; [exact H|len_lia].
Qed.

Lemma parse_enc_section h : header_ok h -> parse_section_header (enc_section h) = h.
Proof.
  intros (H1 & H2 & H3 & H4 & H5 & H6 & H7).
  pose proof (suffix_at_0 (enc_section h)) as S0. unfold enc_section at 2 in S0.
  pose proof (suffix_at_adv _ _ _ _ 4 S0 ltac:(len_lia)) as S1.
  pose proof (suffix_at_adv _ _ _ _ 8 S1 ltac:(len_lia)) as S2.
  pose proof (suffix_at_adv _ _ _ _ 12 S2 ltac:(len_lia)) as S3.
  pose proof (suffix_at_adv _ _ _ _ 16 S3 ltac:(len_lia)) as S4.
  pose proof (suffix_at_adv _ _ _ _ 24 S4 ltac:(len_lia)) as S5.
  rewrite <- (app_nil_r (to_le 8 (size h))) in S5.
  unfold parse_section_header, read_u32_le, read_u64_le.
  erewrite !read_le_opt_suffix by eassumption. simpl.
  rewrite <- H7. by destruct h.
Qed.

Lemma section_slice hs i h :
  hs !! i = Some h ->
  slice (E:=Empty_set) (concat (map enc_section hs))
    (Z.of_nat i * DOF_SEC_SIZE) (Z.of_nat i * DOF_SEC_SIZE + DOF_SEC_SIZE)
  = Ret (enc_section h).
Proof.
  intros (l1 & l2 & -> & ->)%list_elem_of_split_length.
  rewrite map_app, concat_app. cbn [map concat].
  apply slice_mid; rewrite ?len_enc_table, ?len_enc_section; unfold len, DOF_SEC_SIZE; lia.
Qed.

Lemma read_enc_header n rest :
  in_u 32 n ->
  read_header (E:=LowerError) (enc_header n ++ rest) =
  Ret (Some {| ident := DOF_MAG_BYTES ++ replicate 12 (u8b 0); hdr_flags := 0;
               hdrsize := DOF_HDR_SIZE; secsize := DOF_SEC_SIZE; secnum := n;
               secoff := DOF_HDR_SIZE; loadsz := 0; filesz := 0; hdr_pad := 0 |}).
Proof.
  intros Hn. unfold read_header.
  rewrite len_app, len_enc_header. pose proof (len_nonneg rest).
  destruct (_ <? _) eqn:L; zbool; [unfold DOF_HDR_SIZE in *; lia|]. clear L.
  pose proof (suffix_at_0 (enc_header n ++ rest)) as S0.
  unfold enc_header at 2 in S0. rewrite <- !app_assoc in S0.
  rewrite (app_assoc DOF_MAG_BYTES) in S0.
  pose proof (suffix_at_adv _ _ _ _ 16 S0 ltac:(rewrite ?len_ident, ?len_to_le; lia)) as S1.
  pose proof (suffix_at_adv _ _ _ _ 20 S1 ltac:(rewrite ?len_ident, ?len_to_le; lia)) as S2.
  pose proof (suffix_at_adv _ _ _ _ 24 S2 ltac:(rewrite ?len_ident, ?len_to_le; lia)) as S3.
  pose proof (suffix_at_adv _ _ _ _ 28 S3 ltac:(rewrite ?len_ident, ?len_to_le; lia)) as S4.
  pose proof (suffix_at_adv _ _ _ _ 32 S4 ltac:(rewrite ?len_ident, ?len_to_le; lia)) as S5.
  pose proof (suffix_at_adv _ _ _ _ 40 S5 ltac:(rewrite ?len_ident, ?len_to_le; lia)) as S6.
  pose proof (suffix_at_adv _ _ _ _ 48 S6 ltac:(rewrite ?len_ident, ?len_to_le; lia)) as S7.
  pose proof (suffix_at_adv _ _ _ _ 56 S7 ltac:(rewrite ?len_ident, ?len_to_le; lia)) as S8.
  rewrite (suffix_at_slice _ _ _ _ _ S0) by (by rewrite len_ident).
  rewrite bind_Ret, (suffix_at_le _ _ _ _ _ S1) by (unfold in_u; lia).
  rewrite bind_Ret, (suffix_at_le _ _ _ _ _ S2) by (unfold in_u, DOF_HDR_SIZE; lia).
  rewrite bind_Ret, (suffix_at_le _ _ _ _ _ S3) by (unfold in_u, DOF_SEC_SIZE; lia).
  rewrite bind_Ret, (suffix_at_le _ _ _ _ _ S4) by exact Hn.
  rewrite bind_Ret, (suffix_at_le _ _ _ _ _ S5) by (unfold in_u, DOF_HDR_SIZE; lia).
  rewrite bind_Ret, (suffix_at_le _ _ _ _ _ S6) by (unfold in_u; lia).
  rewrite bind_Ret, (suffix_at_le _ _ _ _ _ S7) by (unfold in_u; lia).
  rewrite bind_Ret, (suffix_at_le _ _ _ _ _ S8) by (unfold in_u; lia).
  reflexivity.
Qed.

Lemma slice_get_mag :
  slice (E:=LowerError) (DOF_MAG_BYTES ++ replicate 12 (u8b 0)) 0 4 = Ret DOF_MAG_BYTES.
Proof. reflexivity. Qed.

Lemma dof_image_table hs payload :
  slice (E:=LowerError) (dof_image hs payload) 64 (64 + len hs * 32)
  = Ret (concat (map enc_section hs)).
Proof.
  unfold dof_image. apply slice_mid; rewrite len_enc_header; [done|].
  rewrite len_enc_table. unfold DOF_HDR_SIZE, DOF_SEC_SIZE. lia.
Qed.

(** A table read back row by row, whatever surrounds it. *)
Lemma section_at_table view hs i h :
  sections_bytes view = concat (map enc_section hs) -> section_count view = len hs ->
  hs !! i = Some h -> header_ok h -> section_at view (Z.of_nat i) = Some h.
Proof.
  intros Hb Hc Hi Hok. unfold section_at. rewrite Hc.
  pose proof (lookup_lt_Some _ _ _ Hi). destruct (_ <=? _) eqn:E; zbool; [unfold len in *; lia|].
  rewrite Hb, (slice_get_of_slice _ _ _ _ (section_slice hs i h Hi)). simpl.
  by rewrite parse_enc_section.
Qed.

(** ** Properties *)

(** no byte string makes the DOF parser panic, and on every view it
    returns no section index makes [section_bytes] panic: all offsets, sizes
    and counts of the blob are checked before they are used. *)
Theorem parse_blob_no_panic (b : bytes) :
  parse_blob b <> Panic /\
  forall view i, parse_blob b = Ret view -> section_bytes view i <> Panic.
Proof. split; [apply parse_blob_safe|]. intros. apply section_bytes_safe. Qed.

Definition zero_section : SectionHeader :=
  {| kind := SectNone; kind_raw := 0; flags := 0; align := 0; entsize := 0;
     offset := 0; size := 0 |}.

Definition strtab_section : SectionHeader :=
  {| kind := StrTab; kind_raw := 8; flags := 1; align := 1; entsize := 0;
     offset := 128; size := 3 |}.

Lemma parse_blob_no_panic_witness :
  exists view, parse_blob (dof_image [zero_section] []) = Ret view /\
    section_bytes view 0 <> Panic.
Proof.
  eexists. split; [vm_compute; reflexivity|].
  eapply (proj2 (parse_blob_no_panic (dof_image [zero_section] []))).
  vm_compute. reflexivity.
Defined.

(** A successful [section_bytes] is exactly the range of the blob the row's
    offset and size name, and that range lies inside the blob. *)
Theorem section_bytes_in_bounds (b : bytes) view i s :
  parse_blob b = Ret view -> section_bytes view i = Ret s ->
  exists h pre post, section_at view i = Some h /\ b = pre ++ s ++ post /\
    len pre = offset h /\ len s = size h /\ (entsize h = 0 \/ (entsize h | size h)).
Proof.
  intros [_ Hb]%parse_blob_wf (h & Hh & Hle & Hs & He)%section_bytes_Ret.
  subst b. exists h.
  exists (take (Z.to_nat (offset h)) (blob view)).
  exists (drop (Z.to_nat (offset h + size h)) (blob view)).
  pose proof (section_at_ok _ _ _ Hh) as (_&_&_&[? ?]&[? ?]&[? ?]&_).
  unfold slice in Hs. rewrite slice_get_spec in Hs by lia. injection Hs as <-.
  split_and!; [done| |len_lia|len_lia|].
  - replace (drop (Z.to_nat (offset h + size h)) (blob view)) with
      (drop (Z.to_nat (size h)) (drop (Z.to_nat (offset h)) (blob view)))
      by (rewrite drop_drop; f_equal; lia).
    replace (offset h + size h - offset h) with (size h) by lia.
    by rewrite take_drop, take_drop.
  - destruct He as [|He]; [by left|right].
    destruct (decide (entsize h = 0)) as [E0|]; [rewrite E0, Z.mod_0_r in He; by rewrite E0, He|].
    by apply Z.mod_divide.
Qed.

(** [DofView::sections] yields every row of the table exactly once, in
    declaration order, paired with its index, and then stops. *)
Theorem sections_enumerates_table (b : bytes) view :
  parse_blob b = Ret view ->
  exists l it, collect (section_iter_next (E:=Empty_set))
      (S (Z.to_nat (section_count view))) (sections view) = Some (l, it) /\
    len l = section_count view /\
    (forall k, section_at view (Z.of_nat k) = snd <$> l !! k) /\
    fst <$> l = Z.of_nat <$> seq 0 (length l).
Proof.
  intros [Hwf _]%parse_blob_wf. pose proof (proj1 (proj1 Hwf)).
  destruct (section_iter_run view (Z.to_nat (section_count view)) 0 Hwf)
    as (l & it & Hc & Hl & Hk); [lia..|].
  exists l, it. rewrite Z2Nat.id in Hc by done.
  assert (Hall : forall k, section_at view (Z.of_nat k) = snd <$> l !! k).
  { intros k. destruct (section_at view (Z.of_nat k)) as [h|] eqn:E.
    - by rewrite (Hk k h).
    - rewrite lookup_ge_None_2; [done|]. rewrite Hl.
      destruct (decide (Z.of_nat k < section_count view)); [|lia].
      destruct (section_at_total view (Z.of_nat k) Hwf) as [? ?]; [lia|congruence]. }
  split_and!; [done|unfold len; lia|done|].
  apply list_eq. intros k. rewrite !list_lookup_fmap.
  destruct (l !! k) as [[i h]|] eqn:E.
  - pose proof (lookup_lt_Some _ _ _ E) as Hlt. pose proof (Hall k) as Hs.
    rewrite E in Hs. rewrite (Hk k _ Hs) in E. rewrite lookup_seq_lt by done. by simplify_eq/=.
  - apply lookup_ge_None_1 in E. by rewrite lookup_seq_ge by done.
Qed.

(** Round trip of the container: the image of a section table followed by any
    payload parses back to that table, row for row. *)
Theorem parse_blob_image (hs : list SectionHeader) (payload : bytes) :
  Forall header_ok hs -> len hs <= U32_MAX ->
  exists view, parse_blob (dof_image hs payload) = Ret view /\
    section_count view = len hs /\ blob view = dof_image hs payload /\
    forall i h, hs !! i = Some h -> section_at view (Z.of_nat i) = Some h.
Proof.
  intros Hok Hn. unfold U32_MAX in Hn. pose proof (len_nonneg hs) as H0.
  set (n := len hs) in *.
  assert (Hlen : len (dof_image hs payload) = 64 + n * 32 + len payload).
  { unfold dof_image. rewrite !len_app, len_enc_header, len_enc_table.
    unfold DOF_HDR_SIZE, DOF_SEC_SIZE. lia. }
  pose proof (len_nonneg payload).
  exists {| blob := dof_image hs payload;
            sections_bytes := concat (map enc_section hs); section_count := n |}.
  split_and!; [|done|done|].
  - unfold parse_blob. rewrite Hlen.
    destruct (_ <? _) eqn:E; zbool; [unfold DOF_HDR_SIZE in *; lia|]. clear E.
    pose proof (read_enc_header n (concat (map enc_section hs) ++ payload)
      ltac:(unfold in_u; lia)) as HR.
    change (enc_header n ++ _) with (dof_image hs payload) in HR.
    rewrite HR, bind_Ret. cbn [ok_or]. rewrite bind_Ret. cbn [ident secsize secnum secoff].
    rewrite slice_get_mag, bind_Ret. rewrite bool_decide_true by done. cbn [negb].
    rewrite Z.eqb_refl. cbn [negb]. unfold checked_mul64.
    destruct (_ <=? _) eqn:E; zbool; [|unfold DOF_SEC_SIZE, U64_MAX in *; lia]. clear E.
    cbn [ok_or]. rewrite bind_Ret. unfold checked_add64, DOF_HDR_SIZE, DOF_SEC_SIZE.
    destruct (_ <=? _) eqn:E; zbool; [|unfold U64_MAX in *; lia]. clear E.
    cbn [ok_or]. rewrite bind_Ret. destruct (_ <? _) eqn:E; zbool; [lia|]. clear E.
    by rewrite dof_image_table.
  - intros i h Hi. eapply section_at_table; [done|done|exact Hi|].
    by eapply Forall_lookup_1.
Qed.

Lemma parse_blob_image_witness :
  exists view, parse_blob (dof_image [zero_section; strtab_section] (map u8b [1; 2; 3]))
    = Ret view /\ section_at view 1 = Some strtab_section.
Proof.
  destruct (parse_blob_image [zero_section; strtab_section] (map u8b [1; 2; 3]))
    as (view & H1 & _ & _ & H2).
  - repeat constructor; done.
  - done.
  - exists view. split; [exact H1|]. exact (H2 1%nat strtab_section eq_refl).
Defined.

Lemma section_bytes_in_bounds_witness :
  exists view, section_bytes view 1 = Ret (map u8b [1; 2; 3]) /\
    exists h pre post, section_at view 1 = Some h /\
      dof_image [zero_section; strtab_section] (map u8b [1; 2; 3])
        = pre ++ map u8b [1; 2; 3] ++ post /\
      len pre = offset h /\ len (map u8b [1; 2; 3]) = size h /\
      (entsize h = 0 \/ (entsize h | size h)).
Proof.
  eexists. split; cycle 1.
  - eapply section_bytes_in_bounds; [vm_compute; reflexivity|vm_compute; reflexivity].
  - vm_compute. reflexivity.
Defined.

Lemma sections_enumerates_table_witness :
  exists view, parse_blob (dof_image [zero_section; strtab_section] []) = Ret view /\
    exists l it, collect (section_iter_next (E:=Empty_set))
        (S (Z.to_nat (section_count view))) (sections view) = Some (l, it) /\
      len l = section_count view /\
      (forall k, section_at view (Z.of_nat k) = snd <$> l !! k) /\
      fst <$> l = Z.of_nat <$> seq 0 (length l).
Proof.
  eexists. split; [vm_compute; reflexivity|].
  eapply (sections_enumerates_table (dof_image [zero_section; strtab_section] [])).
  vm_compute. reflexivity.
Defined.
