(* ===== verification/Dif.v ===== *)
(** The DIF instruction decoder (crates/bifrost-dtrace-lower/src/dif.rs):
    opcodes, the 4-byte instruction, the decoding iterator. *)

From S2P Require Import Prelude LowerTypes.

Local Open Scope Z_scope.

(** [DifOp], in declaration order. *)
Inductive DifOp : Type :=
| OpOr | OpXor | OpAnd | OpSll | OpSrl | OpSub | OpAdd | OpMul
| OpSdiv | OpUdiv | OpSrem | OpUrem | OpNot | OpMov | OpCmp | OpTst
| OpBa | OpBe | OpBne | OpBg | OpBgu | OpBge | OpBgeu | OpBl
| OpBlu | OpBle | OpBleu | OpLdsb | OpLdsh | OpLdsw | OpLdub | OpLduh
| OpLduw | OpLdx | OpRet | OpNop | OpSetx | OpSets | OpScmp | OpLdga
| OpLdgs | OpStgs | OpLdta | OpLdts | OpStts | OpSra | OpCall | OpPushtr
| OpPushtv | OpPopts | OpFlushts | OpLdgaa | OpLdtaa | OpStgaa | OpSttaa | OpLdls
| OpStls | OpAllocs | OpCopys | OpStb | OpSth | OpStw | OpStx | OpUldsb
| OpUldsh | OpUldsw | OpUldub | OpUlduh | OpUlduw | OpUldx | OpRldsb | OpRldsh
| OpRldsw | OpRldub | OpRlduh | OpRlduw | OpRldx | OpXlate | OpXlarg.

#[export] Instance DifOp_eq_dec : EqDecision DifOp.
Proof. solve_decision. Defined.

(** The [#[repr(u8)]] discriminants. *)
Definition dif_op_code (op : DifOp) : Z :=
  match op with
| OpOr => 1 | OpXor => 2 | OpAnd => 3 | OpSll => 4 | OpSrl => 5
| OpSub => 6 | OpAdd => 7 | OpMul => 8 | OpSdiv => 9 | OpUdiv => 10
| OpSrem => 11 | OpUrem => 12 | OpNot => 13 | OpMov => 14 | OpCmp => 15
| OpTst => 16 | OpBa => 17 | OpBe => 18 | OpBne => 19 | OpBg => 20
| OpBgu => 21 | OpBge => 22 | OpBgeu => 23 | OpBl => 24 | OpBlu => 25
| OpBle => 26 | OpBleu => 27 | OpLdsb => 28 | OpLdsh => 29 | OpLdsw => 30
| OpLdub => 31 | OpLduh => 32 | OpLduw => 33 | OpLdx => 34 | OpRet => 35
| OpNop => 36 | OpSetx => 37 | OpSets => 38 | OpScmp => 39 | OpLdga => 40
| OpLdgs => 41 | OpStgs => 42 | OpLdta => 43 | OpLdts => 44 | OpStts => 45
| OpSra => 46 | OpCall => 47 | OpPushtr => 48 | OpPushtv => 49 | OpPopts => 50
| OpFlushts => 51 | OpLdgaa => 52 | OpLdtaa => 53 | OpStgaa => 54 | OpSttaa => 55
| OpLdls => 56 | OpStls => 57 | OpAllocs => 58 | OpCopys => 59 | OpStb => 60
| OpSth => 61 | OpStw => 62 | OpStx => 63 | OpUldsb => 64 | OpUldsh => 65
| OpUldsw => 66 | OpUldub => 67 | OpUlduh => 68 | OpUlduw => 69 | OpUldx => 70
| OpRldsb => 71 | OpRldsh => 72 | OpRldsw => 73 | OpRldub => 74 | OpRlduh => 75
| OpRlduw => 76 | OpRldx => 77 | OpXlate => 78 | OpXlarg => 79
  end.

(** [DifOp::from_u8] *)
Definition dif_op_from_u8 (v : Z) : outcome LowerError DifOp :=
  match v with
| 1 => Ret OpOr | 2 => Ret OpXor | 3 => Ret OpAnd | 4 => Ret OpSll
| 5 => Ret OpSrl | 6 => Ret OpSub | 7 => Ret OpAdd | 8 => Ret OpMul
| 9 => Ret OpSdiv | 10 => Ret OpUdiv | 11 => Ret OpSrem | 12 => Ret OpUrem
| 13 => Ret OpNot | 14 => Ret OpMov | 15 => Ret OpCmp | 16 => Ret OpTst
| 17 => Ret OpBa | 18 => Ret OpBe | 19 => Ret OpBne | 20 => Ret OpBg
| 21 => Ret OpBgu | 22 => Ret OpBge | 23 => Ret OpBgeu | 24 => Ret OpBl
| 25 => Ret OpBlu | 26 => Ret OpBle | 27 => Ret OpBleu | 28 => Ret OpLdsb
| 29 => Ret OpLdsh | 30 => Ret OpLdsw | 31 => Ret OpLdub | 32 => Ret OpLduh
| 33 => Ret OpLduw | 34 => Ret OpLdx | 35 => Ret OpRet | 36 => Ret OpNop
| 37 => Ret OpSetx | 38 => Ret OpSets | 39 => Ret OpScmp | 40 => Ret OpLdga
| 41 => Ret OpLdgs | 42 => Ret OpStgs | 43 => Ret OpLdta | 44 => Ret OpLdts
| 45 => Ret OpStts | 46 => Ret OpSra | 47 => Ret OpCall | 48 => Ret OpPushtr
| 49 => Ret OpPushtv | 50 => Ret OpPopts | 51 => Ret OpFlushts | 52 => Ret OpLdgaa
| 53 => Ret OpLdtaa | 54 => Ret OpStgaa | 55 => Ret OpSttaa | 56 => Ret OpLdls
| 57 => Ret OpStls | 58 => Ret OpAllocs | 59 => Ret OpCopys | 60 => Ret OpStb
| 61 => Ret OpSth | 62 => Ret OpStw | 63 => Ret OpStx | 64 => Ret OpUldsb
| 65 => Ret OpUldsh | 66 => Ret OpUldsw | 67 => Ret OpUldub | 68 => Ret OpUlduh
| 69 => Ret OpUlduw | 70 => Ret OpUldx | 71 => Ret OpRldsb | 72 => Ret OpRldsh
| 73 => Ret OpRldsw | 74 => Ret OpRldub | 75 => Ret OpRlduh | 76 => Ret OpRlduw
| 77 => Ret OpRldx | 78 => Ret OpXlate | 79 => Ret OpXlarg
  | other => Throw (UnknownDifOp other)
  end.

Record Insn : Type := { op : DifOp; r1 : Z; r2 : Z; rd : Z }.

(** [InsnIter]; [pos] is a [usize] cursor into [bytes]. *)
Record InsnIter : Type := { ii_bytes : bytes; ii_pos : Z }.

Definition decode (bytecode : bytes) : outcome LowerError InsnIter :=
  if negb (len bytecode mod 4 =? 0) then Throw TruncatedDif
  else Ret {| ii_bytes := bytecode; ii_pos := 0 |}.

Definition insn_next {E} (it : InsnIter)
  : outcome E (option (result LowerError Insn) * InsnIter) :=
  if len (ii_bytes it) <=? ii_pos it then Ret (None, it)
  else if len (ii_bytes it) <? ii_pos it + 4 then Ret (Some (Err TruncatedDif), it)
  else
    raw ← slice (ii_bytes it) (ii_pos it) (ii_pos it + 4);
    let it' := {| ii_bytes := ii_bytes it; ii_pos := ii_pos it + 4 |} in
    b0 ← byte_at raw 0;
    r ← catch (dif_op_from_u8 b0);
    match r with
    | Ok o =>
        b1 ← byte_at raw 1;
        b2 ← byte_at raw 2;
        b3 ← byte_at raw 3;
        Ret (Some (Ok {| op := o; r1 := b1; r2 := b2; rd := b3 |}), it')
    | Err e => Ret (Some (Err e), it')
    end.

(** ** Opcodes *)

Lemma dif_op_from_code o : dif_op_from_u8 (dif_op_code o) = Ret o.
Proof. by destruct o. Qed.

Lemma dif_op_code_range o : 1 <= dif_op_code o <= 79.
Proof. destruct o; simpl; lia. Qed.

(** The byte is accepted exactly when it is one of the 79 opcodes. *)
Lemma dif_op_from_u8_spec v :
  in_u 8 v ->
  if (1 <=? v) && (v <=? 79)
  then exists o, dif_op_from_u8 v = Ret o /\ dif_op_code o = v
  else dif_op_from_u8 v = Throw (UnknownDifOp v).
Proof.
  intros [H1 H2].
  assert (Hall : forallb (fun n =>
    let v := Z.of_nat n in
    match dif_op_from_u8 v with
    | Ret o => (1 <=? v) && (v <=? 79) && (dif_op_code o =? v)
    | Throw (UnknownDifOp w) => negb ((1 <=? v) && (v <=? 79)) && (w =? v)
    | _ => false
    end) (seq 0 256) = true) by (vm_compute; reflexivity).
  rewrite forallb_forall in Hall. specialize (Hall (Z.to_nat v)).
  rewrite in_seq in Hall. specialize (Hall ltac:(lia)). cbv beta zeta in Hall.
  rewrite Z2Nat.id in Hall by done.
  destruct ((1 <=? v) && (v <=? 79)) eqn:E;
    destruct (dif_op_from_u8 v) as [o|[]|]; simpl in Hall; try done; zbool.
  - by exists o.
  - by subst.
Qed.

Lemma dif_op_from_u8_safe v : safe (dif_op_from_u8 v).
Proof.
  unfold dif_op_from_u8.
  destruct v as [|p|p]; [done| |done].
  do 7 (destruct p as [p|p|]; try done).
Qed.

(** ** Reference assembler *)

Definition insn_ok (i : Insn) : Prop := in_u 8 (r1 i) /\ in_u 8 (r2 i) /\ in_u 8 (rd i).

Definition assemble1 (i : Insn) : bytes :=
  [u8b (dif_op_code (op i)); u8b (r1 i); u8b (r2 i); u8b (rd i)].
Definition assemble (l : list Insn) : bytes := concat (map assemble1 l).

Lemma len_assemble l : len (assemble l) = 4 * len l.
Proof.
  unfold assemble. induction l as [|i l IH]; [done|]. cbn [map concat].
  rewrite len_app, IH, len_cons. unfold assemble1. len_lia.
Qed.

(** One call of [next] on a buffer that holds an encoded instruction. *)
Lemma insn_next_assemble {E} b c i s :
  insn_ok i -> suffix_at b c (assemble1 i ++ s) ->
  insn_next (E:=E) {| ii_bytes := b; ii_pos := c |} =
  Ret (Some (Ok i), {| ii_bytes := b; ii_pos := c + 4 |}).
Proof.
  intros (H1 & H2 & H3) S. pose proof (suffix_at_len _ _ _ S) as [Hc Hl].
  rewrite len_app in Hl. change (len (assemble1 i)) with 4 in Hl. pose_lens.
  unfold insn_next. cbn [ii_bytes ii_pos].
  destruct (_ <=? _) eqn:E1; zbool; [lia|]. destruct (_ <? _) eqn:E2; zbool; [lia|].
  rewrite (suffix_at_slice _ _ _ _ _ S) by done. rewrite bind_Ret.
  pose proof (suffix_at_0 (assemble1 i)) as T0.
  assert (T1 : suffix_at (assemble1 i) 1 [u8b (r1 i); u8b (r2 i); u8b (rd i)])
    by by exists [u8b (dif_op_code (op i))].
  assert (T2 : suffix_at (assemble1 i) 2 [u8b (r2 i); u8b (rd i)])
    by by exists [u8b (dif_op_code (op i)); u8b (r1 i)].
  assert (T3 : suffix_at (assemble1 i) 3 [u8b (rd i)])
    by by exists [u8b (dif_op_code (op i)); u8b (r1 i); u8b (r2 i)].
  pose proof (dif_op_code_range (op i)).
  rewrite (suffix_at_byte _ _ _ _ T0) by (unfold in_u; lia).
  rewrite bind_Ret, dif_op_from_code. cbn [catch]. rewrite bind_Ret.
  rewrite (suffix_at_byte _ _ _ _ T1) by done. rewrite bind_Ret.
  rewrite (suffix_at_byte _ _ _ _ T2) by done. rewrite bind_Ret.
  rewrite (suffix_at_byte _ _ _ _ T3) by done. rewrite bind_Ret.
  by destruct i.
Qed.

Lemma insn_run_assemble l : forall b c,
  Forall insn_ok l -> suffix_at b c (assemble l) ->
  collect (insn_next (E:=Empty_set)) (S (length l)) {| ii_bytes := b; ii_pos := c |}
  = Some (map Ok l, {| ii_bytes := b; ii_pos := c + 4 * len l |}).
Proof.
  induction l as [|i l IH]; intros b c Hok S.
  - apply suffix_at_len in S as [Hc Hl]. rewrite len_assemble in Hl.
    change (len (@nil Insn)) with 0 in *. rewrite Z.mul_0_r, Z.add_0_r in *.
    apply collect_none. unfold insn_next. cbn [ii_bytes ii_pos]. rewrite Hl.
    destruct (_ <=? _) eqn:E1; zbool; [done|lia].
  - inversion Hok as [|? ? Hi Hl]; subst.
    erewrite collect_some by by apply (insn_next_assemble b c i (assemble l)).
    rewrite IH; [|done|eapply suffix_at_adv; [exact S|reflexivity]].
    simpl. do 3 f_equal. rewrite len_cons. lia.
Qed.

(** ** Any buffer of whole instructions *)

(** What the item decoded from opcode byte [v] is. *)
Definition item_of (v : Z) (r : result LowerError Insn) : Prop :=
  match r with
  | Ok i => dif_op_code (op i) = v
  | Err e => e = UnknownDifOp v /\ ~ (1 <= v <= 79)
  end.

Lemma insn_next_any b c :
  0 <= c -> c + 4 <= len b ->
  exists r v, insn_next (E:=Empty_set) {| ii_bytes := b; ii_pos := c |} =
      Ret (Some r, {| ii_bytes := b; ii_pos := c + 4 |}) /\
    byte_at (E:=Empty_set) b c = Ret v /\ item_of v r.
Proof.
  intros H0 H4. unfold insn_next. cbn [ii_bytes ii_pos].
  destruct (_ <=? _) eqn:E1; zbool; [lia|]. destruct (_ <? _) eqn:E2; zbool; [lia|].
  destruct (slice_ok (E:=Empty_set) b c (c + 4)) as (raw & Hs & Hr); [lia..|].
  rewrite Hs, bind_Ret. pose proof (proj1 (slice_lookup _ _ _ _) Hs) as (_&_&_&Hlk).
  destruct (byte_at_ok (E:=Empty_set) raw 0) as (v & Hv & Hv8); [lia|].
  destruct (byte_at_ok (E:=Empty_set) raw 1) as (? & -> & _); [lia|].
  destruct (byte_at_ok (E:=Empty_set) raw 2) as (? & -> & _); [lia|].
  destruct (byte_at_ok (E:=Empty_set) raw 3) as (? & -> & _); [lia|].
  rewrite Hv, bind_Ret.
  assert (Hb : byte_at (E:=Empty_set) b c = Ret v).
  { revert Hv. unfold byte_at. destruct (0 <=? c) eqn:?; zbool; [|lia].
    change (0 <=? 0) with true. rewrite (Hlk 0) by lia. by rewrite Z.add_0_r. }
  pose proof (dif_op_from_u8_spec v Hv8) as Ho.
  destruct ((1 <=? v) && (v <=? 79)) eqn:E.
  - destruct Ho as (o & -> & Hc). do 2 eexists. split_and!; [reflexivity|done|done].
  - rewrite Ho. do 2 eexists. split_and!; [reflexivity|done|]. split; [done|].
    intros [? ?]. apply andb_false_iff in E as [E|E]; zbool; lia.
Qed.

Lemma insn_run_total b n : forall c,
  0 <= c -> c + 4 * Z.of_nat n = len b ->
  exists l it', collect (insn_next (E:=Empty_set)) (S n) {| ii_bytes := b; ii_pos := c |}
      = Some (l, it') /\ length l = n /\
    forall k r, l !! k = Some r -> exists v,
      byte_at (E:=Empty_set) b (c + 4 * Z.of_nat k) = Ret v /\ item_of v r.
Proof.
  induction n as [|n IH]; intros c H0 Hn.
  - eexists [], _. split_and!; [|done|done]. eapply collect_none.
    unfold insn_next. cbn [ii_bytes ii_pos].
    destruct (_ <=? _) eqn:E1; zbool; [reflexivity|lia].
  - destruct (insn_next_any b c) as (r & v & Hr & Hv & Hi); [lia..|].
    destruct (IH (c + 4)) as (l & it' & Hc & Hl & Hk); [lia..|].
    exists (r :: l), it'. split_and!; [|simpl; lia|].
    + rewrite (collect_some _ _ _ _ _ Hr), Hc. done.
    + intros [|k] r' Hr'.
      * simplify_eq/=. exists v. rewrite Z.add_0_r. done.
      * simpl in Hr'. destruct (Hk k r' Hr') as (w & Hw & Hiw). exists w.
        split; [rewrite <- Hw; f_equal; lia|done].
Qed.

(** ** Properties *)

(** Assembling a DIF program and decoding it gives the program back: every
    opcode and register byte, in order, and then the iterator stops. *)
Theorem dif_round_trip (l : list Insn) :
  Forall insn_ok l ->
  exists it it', decode (assemble l) = Ret it /\
    collect (insn_next (E:=Empty_set)) (S (length l)) it = Some (map Ok l, it').
Proof.
  intros Hok. eexists; eexists. split.
  - unfold decode. rewrite len_assemble, Z.mul_comm, Z_mod_mult. reflexivity.
  - by apply insn_run_assemble, suffix_at_0.
Qed.

Lemma dif_round_trip_witness :
  exists it it', decode (map u8b [0x24; 0; 0; 0; 0x23; 0; 0; 1]) = Ret it /\
    collect (insn_next (E:=Empty_set)) 3 it
    = Some (map Ok [{| op := OpNop; r1 := 0; r2 := 0; rd := 0 |};
                    {| op := OpRet; r1 := 0; r2 := 0; rd := 1 |}], it').
Proof.
  apply (dif_round_trip [{| op := OpNop; r1 := 0; r2 := 0; rd := 0 |};
                         {| op := OpRet; r1 := 0; r2 := 0; rd := 1 |}]).
  repeat constructor; simpl; lia.
Defined.

(** The iterator is safe and terminates on every byte string [decode]
    accepts: it yields exactly one item per four bytes, and the item is an
    instruction exactly when the opcode byte is in [0x01..0x4f], otherwise
    the error that carries the byte. *)
Theorem dif_decode_total (b : bytes) it :
  decode b = Ret it ->
  exists l it', collect (insn_next (E:=Empty_set)) (S (length b)) it = Some (l, it') /\
    4 * len l = len b /\
    forall k r, l !! k = Some r -> exists v,
      byte_at (E:=Empty_set) b (4 * Z.of_nat k) = Ret v /\
      match r with
      | Ok i => dif_op_code (op i) = v
      | Err e => e = UnknownDifOp v /\ ~ (1 <= v <= 79)
      end.
Proof.
  unfold decode. destruct (negb _) eqn:E; [done|]. intros [= <-].
  apply negb_false_iff in E. zbool.
  apply Z.mod_divide in E as [q Hq]; [|done]. pose proof (len_nonneg b).
  destruct (insn_run_total b (Z.to_nat q) 0) as (l & it' & Hc & Hl & Hk); [lia..|].
  exists l, it'. split_and!; [|unfold len in *; lia|].
  - eapply collect_mono; [|exact Hc]. unfold len in *. lia.
  - intros k r Hr. destruct (Hk k r Hr) as (v & Hv & Hm). by exists v.
Qed.

Lemma dif_decode_total_witness :
  exists it l it', decode (map u8b [0x24; 0; 0; 0; 0xfe; 1; 2; 3]) = Ret it /\
    collect (insn_next (E:=Empty_set)) 9 it = Some (l, it') /\ 4 * len l = 8.
Proof.
  destruct (dif_decode_total (map u8b [0x24; 0; 0; 0; 0xfe; 1; 2; 3]) _ eq_refl)
    as (l & it' & H1 & H2 & _).
  eexists; exists l, it'. split; [reflexivity|]. split; [exact H1|exact H2].
Defined.
