(* ===== verification/Action.v ===== *)
(** Action kinds and rows (crates/bifrost-dtrace-lower/src/action.rs) and
    aggregation kinds (crates/bifrost-dtrace-lower/src/agg.rs). *)

From S2P Require Import Prelude LowerTypes.

Local Open Scope Z_scope.

(** ** action.rs *)

Inductive ActionKind : Type :=
| ActNone | DifExpr | Printf | Printa | Stack | UStack | TraceMem | PrintfArg
| Discard | Commit | Speculate | Exit | Raise | Stop | Chill | ActPanic
| Breakpoint | USym | Sym | AggSentinel | ActOther.

#[export] Instance ActionKind_eq_dec : EqDecision ActionKind.
Proof. solve_decision. Defined.

Definition action_kind_from_u32 (v : Z) : outcome LowerError ActionKind :=
  match v with
  | 0x00 => Ret ActNone
  | 0x01 => Ret DifExpr
  | 0x02 => Ret Printf
  | 0x03 => Ret Printa
  | 0x04 => Ret Stack
  | 0x05 => Ret UStack
  | 0x06 => Ret TraceMem
  | 0x07 => Ret PrintfArg
  | 0x20 => Ret Discard
  | 0x21 => Ret Commit
  | 0x22 => Ret Speculate
  | 0x30 => Ret Exit
  | 0x31 => Ret Raise
  | 0x32 => Ret Stop
  | 0x33 => Ret Chill
  | 0x34 => Ret ActPanic
  | 0x35 => Ret Breakpoint
  | 0x0600 => Ret USym
  | 0x0601 => Ret Sym
  | _ =>
      if (0x0700 <=? v) && (v <=? 0x07ff) then Ret AggSentinel
      else Throw (UnknownActionKind v)
  end.

Definition is_destructive (k : ActionKind) : bool :=
  match k with
  | Raise | Stop | Chill | ActPanic | Breakpoint => true
  | _ => false
  end.

Record ActionDescriptor : Type := {
  act_kind : ActionKind;
  act_kind_raw : Z;
  difo_section : Z;
  arg : Z;
  uarg : Z
}.

Definition parse_action (raw : bytes) : outcome LowerError ActionDescriptor :=
  if len raw <? 32 then Throw TruncatedDif
  else
    difo ← le_at 4 raw 0;
    kind_raw_lo ← le_at 4 raw 8;
    k ← action_kind_from_u32 kind_raw_lo;
    a ← le_at 8 raw 16;
    u ← le_at 8 raw 24;
    Ret {| act_kind := k; act_kind_raw := kind_raw_lo; difo_section := difo;
           arg := a; uarg := u |}.

(** ** agg.rs *)

Definition DTRACEAGG_BASE : Z := 0x0100.

Inductive AggKind : Type :=
| Count | Min | Max | Avg | Sum | StdDev | Quantize | LQuantize | LLQuantize.

#[export] Instance AggKind_eq_dec : EqDecision AggKind.
Proof. solve_decision. Defined.

Definition agg_kind_from_u32 (v : Z) : outcome LowerError AggKind :=
  match v with
  | 0x0101 => Ret Count
  | 0x0102 => Ret Min
  | 0x0103 => Ret Max
  | 0x0104 => Ret Avg
  | 0x0105 => Ret Sum
  | 0x0106 => Ret StdDev
  | 0x0107 => Ret Quantize
  | 0x0108 => Ret LQuantize
  | 0x0109 => Ret LLQuantize
  | _ => Throw (UnknownAggKind v)
  end.

Definition default_bucket_count (k : AggKind) : Z :=
  match k with
  | Count | Min | Max | Avg | Sum | StdDev => 0
  | Quantize => 129
  | LQuantize => 0
  | LLQuantize => 0
  end.

Definition is_histogram (k : AggKind) : bool :=
  match k with
  | Quantize | LQuantize | LLQuantize => true
  | _ => false
  end.

Record AggPlan : Type := {
  plan_var_id : Z;
  key_difo : Z;
  value_difo : Z;
  plan_kind : AggKind;
  bucket_count : Z
}.

(** ** Lemmas *)

Lemma action_kind_from_u32_agg v k :
  action_kind_from_u32 v = Ret k -> k = AggSentinel <-> 0x0700 <= v <= 0x07ff.
Proof.
  intros H.
  destruct (decide (0 <= v < 0x0700)) as [Hlt|Hge].
  - assert (Hall : forallb (fun n =>
      match action_kind_from_u32 (Z.of_nat n) with
      | Ret AggSentinel => false | _ => true end) (seq 0 0x700) = true)
      by (vm_compute; reflexivity).
    rewrite forallb_forall in Hall. specialize (Hall (Z.to_nat v)).
    rewrite in_seq, Z2Nat.id, H in Hall by lia. specialize (Hall ltac:(lia)).
    split; [by intros ->|lia].
  - unfold action_kind_from_u32 in H.
    assert (Hd : (if (0x0700 <=? v) && (v <=? 0x07ff) then Ret AggSentinel
                  else Throw (UnknownActionKind v)) = Ret k).
    { destruct v as [|p|p]; [lia| |done].
      do 11 (destruct p as [p|p|]; try (exact H); try lia). }
    destruct (_ && _) eqn:E; [|done]. injection Hd as <-. zbool. split; [lia|done].
Qed.

Lemma action_kind_from_u32_safe v : safe (action_kind_from_u32 v).
Proof.
  unfold action_kind_from_u32.
  assert (Hd : safe (if (0x0700 <=? v) && (v <=? 0x07ff) then Ret AggSentinel
                  else Throw (UnknownActionKind v))) by by destruct (_ && _).
  destruct v as [|p|p]; [done| |done].
  do 11 (destruct p as [p|p|]; try exact Hd; try done).
Qed.

Lemma parse_action_safe raw : safe (parse_action raw).
Proof.
  unfold parse_action. safe_go. apply action_kind_from_u32_safe.
Qed.

Lemma parse_action_Ret raw d :
  parse_action raw = Ret d ->
  32 <= len raw /\ action_kind_from_u32 (act_kind_raw d) = Ret (act_kind d) /\
  in_u 32 (act_kind_raw d) /\ in_u 32 (difo_section d) /\ in_u 64 (arg d) /\ in_u 64 (uarg d).
Proof.
  unfold parse_action. destruct (_ <? _) eqn:E; [done|]. zbool. intros H.
  repeat (match type of H with
    | mbind _ ?m = _ => destruct m eqn:?; simpl in H; try discriminate
    end).
  injection H as <-. simpl. know_bounds. unfold in_u. split_and!; simpl; lia || done.
Qed.

Lemma agg_kind_from_u32_range v k :
  agg_kind_from_u32 v = Ret k -> 0x0101 <= v <= 0x0109.
Proof.
  unfold agg_kind_from_u32. destruct v as [|p|p]; [done| |done].
  do 9 (destruct p as [p|p|]; try (intros [= <-]; lia); try done).
Qed.
