(* ===== verification/Ecb.v ===== *)
(** ECB descriptors and the action-chain walker
    (crates/bifrost-dtrace-lower/src/ecb.rs).

    Loops that the code bounds by the data carry fuel; running out of fuel is
    [Panic], so the absence-of-panic lemmas also show that the loops end. *)

From S2P Require Import Prelude LowerTypes Dof Action.

Local Open Scope Z_scope.

Record EcbDescriptor : Type := {
  probe_section : Z;
  probe_index : Z;
  pred_section : Z;
  action_section : Z;
  action_first : Z;
  action_count : Z
}.

Definition parse_ecb (raw : bytes) : outcome LowerError EcbDescriptor :=
  if len raw <? 24 then Throw TruncatedDif
  else
    probe ← le_at 4 raw 0;
    pred ← le_at 4 raw 4;
    actions ← le_at 4 raw 8;
    first ← le_at 4 raw 16;
    count ← le_at 4 raw 20;
    Ret {| probe_section := probe; probe_index := 0; pred_section := pred;
           action_section := actions; action_first := first; action_count := count |}.

(** ** [EcbIter] *)

Record EcbIter : Type := {
  ei_view : DofView;
  next_section : Z;
  current_payload : option bytes;
  cursor : Z;
  ei_entsize : Z
}.

Definition iter_ecbs (view : DofView) : EcbIter :=
  {| ei_view := view; next_section := 0; current_payload := None;
     cursor := 0; ei_entsize := 0 |}.

(** The inner [while self.next_section < count]; [n] is the number of
    sections left.  [Some e] is its early [return Some(Err(e))]. *)
Fixpoint ecb_scan {E} (n : nat) (it : EcbIter) : outcome E (option LowerError * EcbIter) :=
  match n with
  | O => Ret (None, it)
  | S n' =>
      let idx := next_section it in
      let it' := {| ei_view := ei_view it; next_section := idx + 1;
                    current_payload := current_payload it; cursor := cursor it;
                    ei_entsize := ei_entsize it |} in
      match section_at (ei_view it) idx with
      | None => ecb_scan n' it'
      | Some hdr =>
          if negb (bool_decide (kind hdr = EcbDesc)) then ecb_scan n' it'
          else
            r ← catch (section_bytes (ei_view it) idx);
            match r with
            | Err e => Ret (Some e, it')
            | Ok payload =>
                if entsize hdr =? 0 then ecb_scan n' it'
                else Ret (None, {| ei_view := ei_view it; next_section := idx + 1;
                                   current_payload := Some payload; cursor := 0;
                                   ei_entsize := entsize hdr |})
            end
      end
  end.

(** The outer [loop] of [next]. *)
Fixpoint ecb_loop {E} (fuel : nat) (it : EcbIter)
  : outcome E (option (result LowerError EcbDescriptor) * EcbIter) :=
  match fuel with
  | O => Panic
  | S fuel' =>
      let scan_on it :=
        s ← ecb_scan (Z.to_nat (section_count (ei_view it) - next_section it)) it;
        match s with
        | (Some e, it2) => Ret (Some (Err e), it2)
        | (None, it2) =>
            match current_payload it2 with
            | None => Ret (None, it2)
            | Some _ => ecb_loop fuel' it2
            end
        end in
      match current_payload it with
      | Some payload =>
          if cursor it + ei_entsize it <=? len payload then
            row ← slice payload (cursor it) (cursor it + ei_entsize it);
            r ← catch (parse_ecb row);
            Ret (Some r, {| ei_view := ei_view it; next_section := next_section it;
                            current_payload := Some payload;
                            cursor := cursor it + ei_entsize it;
                            ei_entsize := ei_entsize it |})
          else
            scan_on {| ei_view := ei_view it; next_section := next_section it;
                       current_payload := None; cursor := cursor it;
                       ei_entsize := ei_entsize it |}
      | None => scan_on it
      end
  end.

Definition ecb_next {E} (it : EcbIter)
  : outcome E (option (result LowerError EcbDescriptor) * EcbIter) :=
  ecb_loop (2 + Z.to_nat (section_count (ei_view it) - next_section it)) it.

(** ** [walk_actions] *)

Section WalkActions.
Context {A : Type}.
Variable on_action : Z -> ActionDescriptor -> st A LowerError unit.

(** [for i in 0..ecb.action_count].  Every iteration that continues has a
    row inside the section, so [S (length section)] iterations suffice. *)
Fixpoint walk_rows (fuel : nat) (ecb : EcbDescriptor) (section : bytes)
    (entsize : Z) (i : Z) : st A LowerError unit :=
  match fuel with
  | O => st_lift Panic
  | S fuel' =>
      if i <? action_count ecb then
        row_index ← st_lift (add64 (action_first ecb) i);
        start ← st_lift (ok_or (checked_mul64 row_index entsize)
                               (CapacityExceeded U32_MAX));
        e ← st_lift (add64 start entsize);
        if len section <? e then
          st_throw (SectionOutOfBounds (action_section ecb) start entsize (len section))
        else
          row ← st_lift (slice section start e);
          desc ← st_lift (parse_action row);
          on_action i desc ;;
          walk_rows fuel' ecb section entsize (i + 1)
      else mret tt
  end.

Definition walk_actions (view : DofView) (ecb : EcbDescriptor) : st A LowerError unit :=
  if action_count ecb =? 0 then mret tt
  else
    section ← st_lift (section_bytes view (action_section ecb));
    hdr ← st_lift (ok_or (section_at view (action_section ecb))
             (SectionIndexOutOfRange (action_section ecb) (section_count view)));
    if entsize hdr =? 0 then
      st_throw (SectionEntsizeMismatch (action_section ecb) 0 (size hdr))
    else walk_rows (S (length section)) ecb section (entsize hdr) 0.
End WalkActions.

(** ** Reference reading: the rows of a section, the ECBs of a view *)

Definition rows (entsize : Z) (payload : bytes) : list bytes :=
  map (fun k => take (Z.to_nat entsize) (drop (k * Z.to_nat entsize) payload))
      (seq 0 (Z.to_nat (len payload / entsize))).

Definition result_of {E A} (d : E) (m : outcome E A) : result E A :=
  match m with Ret a => Ok a | Throw e => Err e | Panic => Err d end.

Definition ecb_of_row (row : bytes) : result LowerError EcbDescriptor :=
  result_of TruncatedDif (parse_ecb row).

Definition section_ecbs (view : DofView) (idx : Z) : list (result LowerError EcbDescriptor) :=
  match section_at view idx with
  | None => []
  | Some hdr =>
      if bool_decide (kind hdr = EcbDesc) then
        match section_bytes view idx with
        | Throw e => [Err e]
        | Panic => []
        | Ret payload =>
            if entsize hdr =? 0 then [] else map ecb_of_row (rows (entsize hdr) payload)
        end
      else []
  end.

(** All ECBs of sections [from .. from + n). *)
Fixpoint ecbs_from (view : DofView) (n : nat) (from : Z)
  : list (result LowerError EcbDescriptor) :=
  match n with
  | O => []
  | S n' => section_ecbs view from ++ ecbs_from view n' (from + 1)
  end.

Definition ecbs (view : DofView) : list (result LowerError EcbDescriptor) :=
  ecbs_from view (Z.to_nat (section_count view)) 0.

(** ** Rows *)

Lemma parse_ecb_safe raw : safe (parse_ecb raw).
Proof. unfold parse_ecb. safe_go. Qed.

Lemma parse_ecb_Ret raw e :
  parse_ecb raw = Ret e ->
  probe_index e = 0 /\ in_u 32 (probe_section e) /\ in_u 32 (pred_section e) /\
  in_u 32 (action_section e) /\ in_u 32 (action_first e) /\ in_u 32 (action_count e).
Proof.
  unfold parse_ecb. destruct (_ <? _) eqn:E; [done|]. zbool. intros H.
  repeat (match type of H with
    | mbind _ ?m = _ => destruct m eqn:?; simpl in H; try discriminate
    end).
  injection H as <-. simpl. know_bounds. unfold in_u. split_and!; simpl; lia || done.
Qed.

Lemma catch_parse_ecb {E} row : catch (F:=E) (parse_ecb row) = Ret (ecb_of_row row).
Proof.
  pose proof (parse_ecb_safe row). unfold ecb_of_row. by destruct (parse_ecb row).
Qed.

(** The rows still to be emitted from a payload. *)
Definition rows_from (entsize c : Z) (payload : bytes) : list bytes :=
  rows entsize (drop (Z.to_nat c) payload).

Lemma rows_cons e p :
  0 < e -> e <= len p ->
  rows e p = take (Z.to_nat e) p :: rows e (drop (Z.to_nat e) p).
Proof.
  intros H0 Hle. unfold rows.
  assert (Hd : len p / e = len (drop (Z.to_nat e) p) / e + 1).
  { rewrite len_drop. replace (Z.max 0 _) with (len p - e) by lia.
    replace (len p) with (len p - e + 1 * e) at 1 by lia.
    rewrite Z.div_add by lia. done. }
  assert (0 <= len (drop (Z.to_nat e) p) / e) by (apply Z_div_nonneg_nonneg; pose_lens; lia).
  rewrite Hd, Z2Nat.inj_add by lia. change (Z.to_nat 1) with 1%nat.
  rewrite Nat.add_1_r. cbn [seq map]. f_equal.
  rewrite <- seq_shift, map_map. apply map_ext. intros k.
  rewrite drop_drop. do 2 f_equal.
Qed.

Lemma rows_nil e p : 0 < e -> len p < e -> rows e p = [].
Proof.
  intros. unfold rows. rewrite Z.div_small by (pose_lens; lia). reflexivity.
Qed.

(** ** The iterator emits exactly [ecbs view] *)

Definition pending (it : EcbIter) : list (result LowerError EcbDescriptor) :=
  match current_payload it with
  | Some p => map ecb_of_row (rows_from (ei_entsize it) (cursor it) p)
  | None => []
  end ++
  ecbs_from (ei_view it) (Z.to_nat (section_count (ei_view it) - next_section it))
    (next_section it).

Definition iter_inv (it : EcbIter) : Prop :=
  0 <= next_section it <= section_count (ei_view it) /\
  match current_payload it with
  | Some p => 0 < ei_entsize it /\ 0 <= cursor it <= len p
  | None => True
  end.

Lemma ecb_scan_spec {E} n : forall it,
  iter_inv it -> current_payload it = None ->
  n = Z.to_nat (section_count (ei_view it) - next_section it) ->
  exists r it2, ecb_scan (E:=E) n it = Ret (r, it2) /\
    ei_view it2 = ei_view it /\ iter_inv it2 /\ next_section it <= next_section it2 /\
    match r with
    | Some e => pending it = Err e :: pending it2
    | None => pending it = pending it2 /\
        (if current_payload it2 is Some _ then next_section it < next_section it2
         else pending it2 = [])
    end.
Proof.
  induction n as [|n IH]; intros it [Hn _] Hp Hlen.
  - exists None, it. unfold pending, iter_inv. rewrite Hp, <- Hlen. split_and!; done || lia.
  - cbn [ecb_scan].
    set (it' := {| ei_view := ei_view it; next_section := next_section it + 1;
      current_payload := current_payload it; cursor := cursor it;
      ei_entsize := ei_entsize it |}).
    assert (Hlen' : n = Z.to_nat (section_count (ei_view it') - next_section it'))
      by (simpl; lia).
    assert (Hpend : pending it = section_ecbs (ei_view it) (next_section it) ++ pending it').
    { unfold pending, it'. simpl. rewrite Hp, <- Hlen. cbn [ecbs_from app].
      do 2 f_equal. exact Hlen'. }
    assert (Hskip : section_ecbs (ei_view it) (next_section it) = [] ->
      exists r it2, ecb_scan (E:=E) n it' = Ret (r, it2) /\
      ei_view it2 = ei_view it /\ iter_inv it2 /\ next_section it <= next_section it2 /\
      match r with
      | Some e => pending it = Err e :: pending it2
      | None => pending it = pending it2 /\
          (if current_payload it2 is Some _ then next_section it < next_section it2
           else pending it2 = [])
      end).
    { intros He. rewrite He in Hpend. simpl in Hpend. rewrite Hpend.
      destruct (IH it') as (r & it2 & H1 & H2 & H3 & H4 & H5); [|done|exact Hlen'|].
      { unfold iter_inv. simpl. rewrite Hp. split; [lia|done]. }
      exists r, it2. simpl in H4. split_and!; try done; [lia|].
      destruct r; [done|]. destruct H5 as [H5 H6]. split; [done|].
      destruct (current_payload it2); [simpl in H6; lia|done]. }
    unfold section_ecbs in Hskip, Hpend.
    destruct (section_at (ei_view it) (next_section it)) as [hdr|] eqn:G; [|by apply Hskip].
    destruct (bool_decide (kind hdr = EcbDesc)); cbn [negb]; [|by apply Hskip].
    destruct (section_bytes (ei_view it) (next_section it)) as [p|e|] eqn:B.
    + cbn [catch]. rewrite bind_Ret. destruct (entsize hdr =? 0) eqn:E0; [by apply Hskip|].
      pose proof (section_at_ok _ _ _ G) as (_&_&_&[? _]&_). zbool.
      eexists None, _. split; [reflexivity|]. unfold iter_inv. cbn.
      split_and!; try done; try lia; [pose_lens; lia|].
      rewrite Hpend. unfold it', pending. simpl. rewrite Hp. done.
    + cbn [catch]. rewrite bind_Ret. exists (Some e), it'. unfold iter_inv. simpl.
      rewrite Hp. split_and!; done || lia.
    + exfalso. by eapply section_bytes_safe.
Qed.

Lemma ecb_loop_spec {E} fuel : forall it,
  iter_inv it ->
  (Z.to_nat (section_count (ei_view it) - next_section it) + 1 <= fuel)%nat ->
  exists o it2, ecb_loop (E:=E) fuel it = Ret (o, it2) /\
    ei_view it2 = ei_view it /\ iter_inv it2 /\
    match o with
    | Some r => pending it = r :: pending it2
    | None => pending it = [] /\ pending it2 = []
    end.
Proof.
  induction fuel as [|fuel IH]; intros it Hi Hf; [lia|].
  assert (Hscan : forall it0, iter_inv it0 -> current_payload it0 = None ->
    ei_view it0 = ei_view it -> next_section it0 = next_section it ->
    exists o it2,
      (s ← ecb_scan (E:=E) (Z.to_nat (section_count (ei_view it0) - next_section it0)) it0;
       match s with
       | (Some e, it2) => Ret (Some (Err e), it2)
       | (None, it2) =>
           match current_payload it2 with
           | None => Ret (None, it2)
           | Some _ => ecb_loop fuel it2
           end
       end) = Ret (o, it2) /\ ei_view it2 = ei_view it /\ iter_inv it2 /\
      match o with
      | Some r => pending it0 = r :: pending it2
      | None => pending it0 = [] /\ pending it2 = []
      end).
  { intros it0 Hi0 Hp0 Hv0 Hn0.
    destruct (ecb_scan_spec (E:=E) _ it0 Hi0 Hp0 eq_refl)
      as (r & it2 & -> & H2 & H3 & H4 & H5). rewrite bind_Ret.
    destruct r as [e|].
    - exists (Some (Err e)), it2. split_and!; try done. by rewrite H2.
    - destruct H5 as [H5 H6]. destruct (current_payload it2) as [p|] eqn:P.
      + destruct (IH it2 H3) as (o & it3 & -> & K2 & K3 & K4).
        { destruct H3 as [H3 _]. rewrite H2, Hv0 in *. lia. }
        exists o, it3. rewrite H5. split_and!; try done. congruence.
      + exists None, it2. rewrite H5, H6. split_and!; try done. congruence. }
  cbn [ecb_loop]. destruct (current_payload it) as [p|] eqn:P.
  - destruct Hi as [Hn Hpi]. rewrite P in Hpi. destruct Hpi as [He Hc].
    destruct (_ <=? _) eqn:L; zbool.
    + destruct (slice_ok (E:=E) p (cursor it) (cursor it + ei_entsize it))
        as (row & Hrow & Hlrow); [lia..|].
      rewrite Hrow, bind_Ret, catch_parse_ecb, bind_Ret.
      do 2 eexists. split; [reflexivity|]. unfold iter_inv, pending. simpl.
      rewrite P. split_and!; try done; try lia.
      unfold rows_from. rewrite rows_cons by len_lia. simpl.
      unfold slice in Hrow. rewrite slice_get_spec in Hrow by lia. injection Hrow as <-.
      f_equal; [do 3 f_equal; lia|]. do 3 f_equal. rewrite drop_drop. f_equal. lia.
    + destruct (Hscan {| ei_view := ei_view it; next_section := next_section it;
                         current_payload := None; cursor := cursor it;
                         ei_entsize := ei_entsize it |})
        as (o & it2 & Ho & H2 & H3 & H4); try done.
      exists o, it2. split_and!; try done.
      assert (Hp : pending it = pending {| ei_view := ei_view it;
        next_section := next_section it; current_payload := None; cursor := cursor it;
        ei_entsize := ei_entsize it |}).
      { unfold pending. rewrite P. simpl. unfold rows_from.
        by rewrite rows_nil by len_lia. }
      by rewrite Hp.
  - by apply Hscan.
Qed.

Lemma ecb_next_spec {E} it :
  iter_inv it ->
  exists o it2, ecb_next (E:=E) it = Ret (o, it2) /\
    ei_view it2 = ei_view it /\ iter_inv it2 /\
    match o with
    | Some r => pending it = r :: pending it2
    | None => pending it = [] /\ pending it2 = []
    end.
Proof. intros Hi. apply ecb_loop_spec; [done|lia]. Qed.

Lemma iter_ecbs_inv view : view_wf view -> iter_inv (iter_ecbs view).
Proof. intros [[? ?] _]. unfold iter_inv. simpl. lia. Qed.

Lemma pending_iter_ecbs view : pending (iter_ecbs view) = ecbs view.
Proof. unfold pending, ecbs. simpl. by rewrite Z.sub_0_r. Qed.

Lemma ecb_collect n : forall it,
  iter_inv it -> n = length (pending it) ->
  exists it', collect (ecb_next (E:=Empty_set)) (S n) it = Some (pending it, it').
Proof.
  induction n as [|n IH]; intros it Hi Hn;
    destruct (ecb_next_spec (E:=Empty_set) it Hi) as ([r|] & it2 & H1 & H2 & H3 & H4).
  - rewrite H4 in Hn. done.
  - exists it2. rewrite (collect_none _ _ _ _ H1). by rewrite (proj1 H4).
  - rewrite H4 in Hn. destruct (IH it2 H3) as [it' Hc]; [simpl in Hn; lia|].
    exists it'. by rewrite (collect_some _ _ _ _ _ H1), Hc, H4.
  - rewrite (proj1 H4) in Hn. done.
Qed.

(** ** The action walk

    [walk_actions_rule]: whatever invariant the callback keeps on rows that
    parse, the walk keeps; and the walk itself never panics. *)

Section WalkRule.
Context {A : Type}.
Variable on_action : Z -> ActionDescriptor -> st A LowerError unit.
Variable P : A -> Prop.
Variable Q : LowerError -> A -> Prop.
Hypothesis HQ : forall e a, P a -> Q e a.
Hypothesis Hact : forall i d a row, parse_action row = Ret d -> P a ->
  st_post (on_action i d) a (fun _ => P) Q.

Lemma walk_rows_rule ecb section e : forall fuel i a,
  in_u 32 (action_first ecb) -> in_u 32 (action_count ecb) ->
  0 < e -> in_u 32 e -> slice_len_ok section ->
  0 <= i -> (i = 0 \/ (action_first ecb + i) * e <= len section) ->
  len section - i < Z.of_nat fuel ->
  P a -> st_post (walk_rows on_action fuel ecb section e i) a (fun _ => P) Q.
Proof.
  unfold in_u, slice_len_ok.
  intros fuel. induction fuel as [|fuel IH]; intros i a Hf Hc He0 He Hs Hi Hb Hfu HP;
    pose proof (len_nonneg section).
  { exfalso. destruct Hb as [->|Hb]; [lia|]. nia. }
  cbn [walk_rows]. destruct (_ <? _) eqn:L; zbool; [|by apply st_post_ret].
  assert (Hprod : (action_first ecb + i) * e + e <= U64_MAX).
  { unfold U64_MAX. destruct Hb as [->|Hb]; [|lia]. nia. }
  apply st_post_bind. apply st_post_lift.
  { unfold add64. destruct (_ <=? _) eqn:?; zbool; [done|]. unfold U64_MAX in *. lia. }
  2:{ unfold add64. by destruct (_ <=? _). }
  intros ri Hri. unfold add64 in Hri. destruct (_ <=? _); [|done]. injection Hri as <-.
  apply st_post_bind. apply st_post_lift; [apply safe_ok_or| |auto].
  intros start Hst. destruct (checked_mul64 _ _) eqn:M; [|done]. simpl in Hst.
  injection Hst as <-. apply checked_mul64_Some in M as [-> _].
  apply st_post_bind. apply st_post_lift.
  { unfold add64. destruct (_ <=? _) eqn:?; zbool; [done|lia]. }
  2:{ unfold add64. by destruct (_ <=? _). }
  intros en Hen. unfold add64 in Hen. destruct (_ <=? _); [|done]. injection Hen as <-.
  destruct (_ <? _) eqn:O; zbool; [apply st_post_throw; auto|].
  apply st_post_bind. apply st_post_lift; [apply safe_slice; nia| |auto].
  intros row Hrow. apply st_post_bind.
  apply st_post_lift; [apply parse_action_safe| |auto].
  intros d Hd. apply st_post_bind. eapply st_post_mono; [by eapply Hact| |auto].
  intros ? a' HP'. apply IH; try done; [lia|right; nia|].
  assert (1 * e <= e) by lia. nia.
Qed.

Lemma walk_actions_rule view ecb a :
  view_wf view -> slice_len_ok (blob view) ->
  in_u 32 (action_first ecb) -> in_u 32 (action_count ecb) ->
  P a -> st_post (walk_actions on_action view ecb) a (fun _ => P) Q.
Proof.
  intros Hwf Hl Hf Hc HP. unfold walk_actions.
  destruct (_ =? 0); [by apply st_post_ret|].
  apply st_post_bind. apply st_post_lift; [apply section_bytes_safe| |auto].
  intros section Hsec. apply st_post_bind. apply st_post_lift; [apply safe_ok_or| |auto].
  intros hdr Hh. destruct (section_at _ _) as [h|] eqn:G; [|done]. simpl in Hh.
  injection Hh as ->. pose proof (section_at_ok _ _ _ G) as (_&_&_&He&_&_&_).
  destruct (entsize hdr =? 0) eqn:E; zbool; [apply st_post_throw; auto|].
  apply section_bytes_Ret in Hsec as (h' & _ & _ & Hs & _). apply slice_Ret in Hs.
  apply walk_rows_rule; try done; unfold slice_len_ok, in_u in *; try lia.
  unfold len. lia.
Qed.
End WalkRule.

(** A callback that only records what it is called with. *)
Definition log_action (i : Z) (d : ActionDescriptor)
  : st (list (Z * ActionDescriptor)) LowerError unit := fun l => (Ret tt, l ++ [(i, d)]).

Definition visited (ecb : EcbDescriptor) (section : bytes) (e : Z)
    (from : Z) (l : list (Z * ActionDescriptor)) : Prop :=
  forall k j d, l !! k = Some (j, d) ->
    j = from + Z.of_nat k /\
    exists row, slice (E:=LowerError) section ((action_first ecb + j) * e)
        ((action_first ecb + j) * e + e) = Ret row /\
      parse_action row = Ret d.

Lemma walk_rows_visits ecb section e fuel : forall i l l',
  i <= action_count ecb ->
  walk_rows log_action fuel ecb section e i l = (Ret tt, l') ->
  exists v, l' = l ++ v /\ len v = action_count ecb - i /\ visited ecb section e i v.
Proof.
  induction fuel as [|fuel IH]; intros i l l' Hi H; [done|].
  cbn [walk_rows] in H. destruct (_ <? _) eqn:L; zbool.
  - unfold mbind, st_bind, st_lift, add64 in H.
    destruct (_ <=? _); [|done].
    destruct (ok_or _ _) as [start|?|] eqn:M; try done.
    destruct (start + e <=? _); [|done]. destruct (_ <? _); [done|].
    destruct (slice _ _ _) as [row|?|] eqn:R; try done.
    destruct (parse_action row) as [d|?|] eqn:Hp; try done. cbn [log_action] in H.
    apply IH in H as (v & -> & Hlv & Hv); [|lia].
    exists ((i, d) :: v). rewrite <- app_assoc. split_and!; [done|rewrite len_cons; lia|].
    destruct (checked_mul64 _ _) eqn:Hm; [|done]. simplify_eq/=.
    apply checked_mul64_Some in Hm as [-> _].
    intros [|k] j d' Hk; simplify_eq/=.
    + split; [lia|]. by exists row.
    + apply Hv in Hk as [-> Hk]. split; [lia|done].
  - injection H as <-. exists []. rewrite app_nil_r, len_nil. split_and!; [done|lia|].
    intros k j d Hk. done.
Qed.

(** A walk that succeeds is its callback run over the rows it visits. *)
Lemma walk_rows_forM {A} (f : Z -> ActionDescriptor -> st A LowerError unit)
    ecb section e fuel : forall i a a' l0,
  walk_rows f fuel ecb section e i a = (Ret tt, a') ->
  exists v, walk_rows log_action fuel ecb section e i l0 = (Ret tt, l0 ++ v) /\
    st_forM v (fun '(j, d) => f j d) a = (Ret tt, a').
Proof.
  induction fuel as [|fuel IH]; intros i a a' l0 H; [done|].
  cbn [walk_rows] in H |- *. destruct (_ <? _).
  2:{ exists []. by rewrite app_nil_r. }
  unfold mbind, st_bind, st_lift in H |- *.
  destruct (add64 _ i) as [ri|?|]; try done.
  destruct (ok_or _ _) as [start|?|]; try done.
  destruct (add64 start e) as [en|?|]; try done.
  destruct (_ <? _); [done|]. destruct (slice _ _ _) as [row|?|]; try done.
  destruct (parse_action row) as [d|?|]; try done.
  destruct (f i d a) as [[[]|?|] a1] eqn:Hf; try done.
  apply (IH _ _ _ (l0 ++ [(i, d)])) in H as (v & H1 & H2).
  exists ((i, d) :: v). cbn [log_action]. rewrite H1, <- app_assoc. split; [done|].
  cbn [st_forM]. unfold mbind, st_bind. by rewrite Hf.
Qed.

Lemma walk_actions_forM {A} (f : Z -> ActionDescriptor -> st A LowerError unit)
    view ecb a a' :
  walk_actions f view ecb a = (Ret tt, a') ->
  exists l, walk_actions log_action view ecb [] = (Ret tt, l) /\
    st_forM l (fun '(j, d) => f j d) a = (Ret tt, a').
Proof.
  unfold walk_actions. destruct (_ =? 0); [by exists []|].
  unfold mbind, st_bind, st_lift.
  destruct (section_bytes _ _) as [section|?|]; try done.
  destruct (ok_or _ _) as [hdr|?|]; try done. destruct (_ =? 0); [done|].
  intros (v & H1 & H2)%(fun H => walk_rows_forM _ _ _ _ _ _ _ _ [] H). by exists v.
Qed.

(** ** Properties *)

(** On every parsed blob the ECB iterator neither panics nor loops: draining
    it yields, in declaration order, one verdict per row of every [EcbDesc]
    section with a non-zero entry size (and one error for each such section
    whose payload is out of bounds), exactly the reference list [ecbs]. *)
Theorem iter_ecbs_complete (b : bytes) view :
  parse_blob b = Ret view ->
  exists it, collect (ecb_next (E:=Empty_set)) (S (length (ecbs view))) (iter_ecbs view)
    = Some (ecbs view, it).
Proof.
  intros [Hwf _]%parse_blob_wf. rewrite <- pending_iter_ecbs.
  apply ecb_collect; [by apply iter_ecbs_inv|done].
Qed.

(** C36: A walk that succeeds has visited every action row of the chain exactly
    once, in order, each parsed from its own [entsize] bytes of the action
    section. *)
Theorem walk_actions_visits view ecb l :
  0 <= action_count ecb ->
  walk_actions log_action view ecb [] = (Ret tt, l) ->
  len l = action_count ecb /\
  (action_count ecb = 0 \/ exists section hdr,
    section_bytes view (action_section ecb) = Ret section /\
    section_at view (action_section ecb) = Some hdr /\
    visited ecb section (entsize hdr) 0 l).
Proof.
  intros Hc H. unfold walk_actions in H.
  destruct (_ =? 0) eqn:E; zbool; [injection H as <-; rewrite E; auto|].
  unfold mbind, st_bind, st_lift in H.
  destruct (section_bytes _ _) as [section|?|] eqn:Hs; try done.
  destruct (section_at _ _) as [hdr|] eqn:G; [|done]. cbn [ok_or] in H.
  destruct (entsize hdr =? 0); [done|].
  apply walk_rows_visits in H as (v & -> & Hl & Hv); [|lia].
  simpl. split; [lia|]. right. by exists section, hdr.
Qed.

(** ** A sample blob: one ECB, the layout of the crate's own test

    Sections: 0 string table, 1 one 20-byte probe row, 2 one 32-byte action
    row, 3 one 24-byte ECB row. *)

Definition sample_strtab : bytes :=
  map u8b ([0] ++ [98; 105; 102; 114; 111; 115; 116; 0] ++ [103; 117; 101; 115; 116; 0]
           ++ [116; 101; 115; 116; 0] ++ [101; 110; 116; 114; 121; 0]).
Definition sample_probe : bytes :=
  to_le 4 0 ++ to_le 4 1 ++ to_le 4 9 ++ to_le 4 15 ++ to_le 4 20.
Definition sample_action (kind_raw difo arg : Z) : bytes :=
  to_le 4 difo ++ to_le 4 0 ++ to_le 8 kind_raw ++ to_le 8 arg ++ to_le 8 0.
Definition sample_ecb (probe pred actions first count : Z) : bytes :=
  to_le 4 probe ++ to_le 4 pred ++ to_le 4 actions ++ to_le 4 0 ++ to_le 4 first ++
  to_le 4 count.

Definition sample_section (k off sz ent : Z) : SectionHeader :=
  {| kind := sect_kind_from_u32 k; kind_raw := k; flags := 0; align := 0;
     entsize := ent; offset := off; size := sz |}.

Definition sample_dof (action ecb : bytes) : bytes :=
  dof_image
    [sample_section 8 192 26 0; sample_section 4 218 20 20;
     sample_section 5 238 32 32; sample_section 3 270 24 24]
    (sample_strtab ++ sample_probe ++ action ++ ecb).

Definition trace_dof : bytes := sample_dof (sample_action 1 0 7) (sample_ecb 1 0 2 0 1).

Lemma iter_ecbs_complete_witness :
  exists view it, parse_blob trace_dof = Ret view /\
    collect (ecb_next (E:=Empty_set)) (S (length (ecbs view))) (iter_ecbs view)
      = Some (ecbs view, it) /\
    ecbs view = [Ok {| probe_section := 1; probe_index := 0; pred_section := 0;
                       action_section := 2; action_first := 0; action_count := 1 |}].
Proof.
  destruct (parse_blob trace_dof) as [view|e|] eqn:E;
    [|exfalso; vm_compute in E; discriminate..].
  destruct (iter_ecbs_complete trace_dof view E) as [it Hit].
  exists view, it. split; [reflexivity|]. split; [exact Hit|].
  vm_compute in E. injection E as <-. vm_compute. reflexivity.
Defined.

Lemma walk_actions_visits_witness :
  exists view ecb l, walk_actions log_action view ecb [] = (Ret tt, l) /\ len l = 1.
Proof.
  destruct (parse_blob trace_dof) as [view|e|] eqn:E;
    [|exfalso; vm_compute in E; discriminate..].
  set (ecb := {| probe_section := 1; probe_index := 0; pred_section := 0;
                 action_section := 2; action_first := 0; action_count := 1 |}).
  set (l := [(0, {| act_kind := DifExpr; act_kind_raw := 1; difo_section := 0;
                    arg := 7; uarg := 0 |})]).
  assert (H : walk_actions log_action view ecb [] = (Ret tt, l)).
  { vm_compute in E. injection E as <-. vm_compute. reflexivity. }
  exists view, ecb, l. split; [exact H|].
  apply (walk_actions_visits view ecb l); [vm_compute; discriminate|exact H].
Defined.
