(* ===== verification/Session.v ===== *)
(** The kernel-adapter interface
    (crates/bifrost-dtrace-lower/src/adapter.rs) and the session driver
    (crates/bifrost-dtrace-lower/src/session.rs). *)

From S2P Require Import Prelude Utf8 LowerTypes Dof Action Ecb.

Local Open Scope Z_scope.

(** ** adapter.rs *)

Record ProbeTarget : Type := {
  provider : bytes;
  module : bytes;
  function : bytes;
  name : bytes
}.

Inductive EcbStatus : Type :=
| Accepted (attached_id : Z)
| Rejected (r : RejectReason)
| ZeroMatch.

Inductive SessionEvent : Type := Begin | End_.

(** The trait every guest kernel module implements.  A method that takes
    [&mut self] returns the adapter it leaves behind. *)
Class KernelAdapter (A : Type) : Type := {
  provider_supports : A -> bytes -> bool;
  attach_probe : A -> ProbeTarget -> result RejectReason Z * A;
  bind_predicate : A -> Z -> bytes -> result RejectReason unit * A;
  record_action : A -> Z -> ActionDescriptor -> bytes -> result RejectReason unit * A;
  declare_aggregation : A -> Z -> AggKind -> Z -> result RejectReason unit * A;
  detach_probe : A -> Z -> A;
  on_session_event : A -> SessionEvent -> result LowerError unit * A
}.

(** The default method bodies. *)
Definition default_bind_predicate {A} (a : A) (_ : Z) (_ : bytes)
  : result RejectReason unit * A := (Err NotImplemented, a).
Definition default_record_action {A} (a : A) (_ : Z) (_ : ActionDescriptor) (_ : bytes)
  : result RejectReason unit * A := (Err NotImplemented, a).
Definition default_declare_aggregation {A} (a : A) (_ : Z) (_ : AggKind) (_ : Z)
  : result RejectReason unit * A := (Err AggKindUnsupported, a).
Definition default_detach_probe {A} (a : A) (_ : Z) : A := a.
Definition default_on_session_event {A} (a : A) (_ : SessionEvent)
  : result LowerError unit * A := (Ok tt, a).

(** [StubAdapter], the crate's own adapter: it accepts everything and
    counts; predicate, detach and session events are the trait's defaults. *)
Record StubAdapter : Type := { attached : Z; records : Z; aggs : Z }.

Definition stub_new : StubAdapter := {| attached := 0; records := 0; aggs := 0 |}.

#[export] Instance stub_adapter : KernelAdapter StubAdapter := {|
  provider_supports := fun _ _ => true;
  attach_probe := fun s _ =>
    (Ok (attached s + 1),
     {| attached := attached s + 1; records := records s; aggs := aggs s |});
  bind_predicate := default_bind_predicate;
  record_action := fun s _ _ _ =>
    (Ok tt, {| attached := attached s; records := records s + 1; aggs := aggs s |});
  declare_aggregation := fun s _ _ _ =>
    (Ok tt, {| attached := attached s; records := records s; aggs := aggs s + 1 |});
  detach_probe := default_detach_probe;
  on_session_event := default_on_session_event
|}.

(** ** session.rs *)

(** [read_cstr]: the NUL-terminated string at [off], empty when out of range
    or not UTF-8. *)
Definition position_zero (b : bytes) : option nat :=
  fst <$> list_find (fun x => byte.unsigned x = 0) b.

Definition read_cstr (buf : bytes) (off : Z) : bytes :=
  if len buf <=? off then []
  else
    let tail := drop (Z.to_nat off) buf in
    let e := match position_zero tail with Some i => i | None => length tail end in
    match from_utf8 (take e tail) with Some s => s | None => [] end.

Definition resolve_probe_target (view : DofView) (probe_section probe_index : Z)
  : outcome LowerError (option ProbeTarget) :=
  hdr ← ok_or (section_at view probe_section)
              (SectionIndexOutOfRange probe_section (section_count view));
  if negb (bool_decide (kind hdr = ProbeDesc))
  then Throw (SectionIndexOutOfRange probe_section (section_count view))
  else
    section ← section_bytes view probe_section;
    let es := entsize hdr in
    if es <? 16 then Ret None
    else
      off ← ok_or (checked_mul64 probe_index es) (CapacityExceeded U32_MAX);
      e ← add64 off es;
      if len section <? e then Ret None
      else
        row ← slice section off e;
        strtab_section ← le_at 4 row 0;
        provider_off ← le_at 4 row 4;
        mod_off ← le_at 4 row 8;
        func_off ← le_at 4 row 12;
        name_off ← (if 20 <=? es then le_at 4 row 16 else Ret 0);
        strtab ← section_bytes view strtab_section;
        Ret (Some {| provider := read_cstr strtab provider_off;
                     module := read_cstr strtab mod_off;
                     function := read_cstr strtab func_off;
                     name := read_cstr strtab name_off |}).

(** [Option::get_or_insert] *)
Definition get_or_insert (o : option RejectReason) (r : RejectReason) : option RejectReason :=
  match o with Some x => Some x | None => Some r end.

(** An adapter call whose [Result] the driver matches on. *)
Definition call {S E F A} (f : S -> result F A * S) : st S E (result F A) :=
  fun s => let '(r, s') := f s in (Ret r, s').

(** A local variable captured by a closure next to the adapter. *)
Definition with_local {A L E} (l : L) (m : st (A * L) E unit) : st A E L :=
  fun a => match m (a, l) with
           | (Ret _, (a', l')) => (Ret l', a')
           | (Throw e, (a', _)) => (Throw e, a')
           | (Panic, (a', _)) => (Panic, a')
           end.

Section Driver.
Context {A : Type} `{KernelAdapter A}.

(** The closure [drive_one] hands to [walk_actions]; its state is the
    adapter and the captured [action_err]. *)
Definition session_on_action (view : DofView) (attached_id : Z)
    (_idx : Z) (action : ActionDescriptor)
  : st (A * option RejectReason) LowerError unit := fun '(a, action_err) =>
  match action_err with
  | Some _ => (Ret tt, (a, action_err))
  | None =>
      if is_destructive (act_kind action)
      then (Ret tt, (a, Some DestructiveDisabled))
      else
        match (if difo_section action =? 0 then Ret []
               else section_bytes view (difo_section action)) with
        | Throw e => (Throw e, (a, action_err))
        | Panic => (Panic, (a, action_err))
        | Ret difo_bytes =>
            let '(r, a1) := record_action a attached_id action difo_bytes in
            let err1 := match r with Ok _ => action_err | Err x => Some x end in
            if bool_decide (act_kind action = AggSentinel) then
              let var_id := Z.land (arg action) 0xffffffff in
              let kind_raw := Z.shiftr (act_kind_raw action) 8 in
              match agg_kind_from_u32 kind_raw with
              | Ret agg_kind =>
                  let buckets := default_bucket_count agg_kind in
                  let '(r2, a2) := declare_aggregation a1 var_id agg_kind buckets in
                  (Ret tt, (a2, match r2 with
                                | Ok _ => err1
                                | Err x => get_or_insert err1 x
                                end))
              | _ => (Ret tt, (a1, get_or_insert err1 AggKindUnsupported))
              end
            else (Ret tt, (a1, err1))
        end
  end.

Definition drive_one (view : DofView) (ecb : EcbDescriptor) : st A LowerError EcbStatus :=
  t ← st_lift (resolve_probe_target view (probe_section ecb) (probe_index ecb));
  match t with
  | None => mret ZeroMatch
  | Some target =>
      supports ← st_gets (fun a => provider_supports a (provider target));
      match supports with
      | false => mret (Rejected NoProvider)
      | true =>
          r ← call (fun a => attach_probe a target);
          match r with
          | Err r => mret (Rejected r)
          | Ok attached_id =>
              pred_err ←
                (if pred_section ecb =? 0 then mret None
                 else
                   bs ← st_lift (section_bytes view (pred_section ecb));
                   r ← call (fun a => bind_predicate a attached_id bs);
                   match r with
                   | Ok _ => mret None
                   | Err r =>
                       st_modify (fun a => detach_probe a attached_id) ;;
                       mret (Some r)
                   end);
              match pred_err with
              | Some r => mret (Rejected r)
              | None =>
                  action_err ← with_local None
                    (walk_actions (session_on_action view attached_id) view ecb);
                  match action_err with
                  | Some r =>
                      st_modify (fun a => detach_probe a attached_id) ;;
                      mret (Rejected r)
                  | None => mret (Accepted attached_id)
                  end
              end
          end
      end
  end.

Context {W : Type}.
Variable on_status : Z -> EcbStatus -> W -> W.

(** The adapter next to the caller's closure state. *)
Definition on_adapter {E B} (m : st A E B) : st (A * W) E B :=
  fun '(a, w) => let '(o, a') := m a in (o, (a', w)).

Definition add32 {E} (a b : Z) : outcome E Z :=
  if a + b <=? U32_MAX then Ret (a + b) else Panic.

(** [for ecb in iter_ecbs(view)] *)
Fixpoint drive_loop (fuel : nat) (view : DofView) (it : EcbIter)
    (accepted ecb_index : Z) : st (A * W) LowerError Z :=
  match fuel with
  | O => st_lift Panic
  | S fuel' =>
      n ← st_lift (ecb_next it);
      match n with
      | (None, _) => mret accepted
      | (Some (Err e), _) => st_throw e
      | (Some (Ok ecb), it') =>
          status ← on_adapter (drive_one view ecb);
          accepted' ← st_lift (match status with
                               | Accepted _ => add32 accepted 1
                               | _ => Ret accepted
                               end);
          st_modify (fun '(a, w) => (a, on_status ecb_index status w)) ;;
          ecb_index' ← st_lift (add32 ecb_index 1);
          drive_loop fuel' view it' accepted' ecb_index'
      end
  end.

(** An adapter event and [?] on its [Result]. *)
Definition session_event (ev : SessionEvent) : st A LowerError unit :=
  r ← call (fun a => on_session_event a ev);
  match r with Ok _ => mret tt | Err e => st_throw e end.

Definition drive (view : DofView) : st (A * W) LowerError Z :=
  on_adapter (session_event Begin) ;;
  accepted ← drive_loop (S (length (ecbs view))) view (iter_ecbs view) 0 0;
  on_adapter (session_event End_) ;;
  mret accepted.
End Driver.

(** The call of the crate's own test: statuses pushed onto a vector. *)
Definition push_status (i : Z) (s : EcbStatus) (l : list (Z * EcbStatus)) := l ++ [(i, s)].

Example drives_one_ecb_through_stub_adapter :
  match parse_blob trace_dof with
  | Ret view => drive push_status view (stub_new, [])
  | _ => (Panic, (stub_new, []))
  end = (Ret 1, ({| attached := 1; records := 1; aggs := 0 |}, [(0, Accepted 1)])).
Proof. vm_compute. reflexivity. Qed.

(** ** Safety *)

Lemma resolve_probe_target_safe view ps :
  safe (resolve_probe_target view ps 0).
Proof.
  unfold resolve_probe_target. apply safe_bind; [apply safe_ok_or|]. intros hdr Hh.
  destruct (section_at view ps) as [h|] eqn:G; [|done]. simpl in Hh. injection Hh as ->.
  pose proof (section_at_ok _ _ _ G) as (_&_&_&[E1 E2]&_&_&_).
  destruct (negb _); [done|]. apply safe_bind; [apply section_bytes_safe|].
  intros section _. cbv zeta. destruct (_ <? 16) eqn:E16; [done|]. zbool.
  unfold checked_mul64. change (0 * entsize hdr <=? U64_MAX) with true.
  cbn [ok_or]. rewrite bind_Ret. apply safe_bind.
  { unfold add64. destruct (_ <=? _) eqn:?; zbool; [done|]. unfold U64_MAX in *. lia. }
  intros e He. unfold add64 in He. destruct (_ <=? _); [|done]. injection He as <-.
  destruct (_ <? _) eqn:L; [done|]. zbool.
  apply safe_bind; [apply safe_slice; lia|]. intros row Hrow. apply slice_Ret in Hrow.
  repeat (apply safe_bind; [apply safe_le_at; simpl; lia|intros ? ?]).
  apply safe_bind.
  { destruct (20 <=? _) eqn:E20; zbool; [apply safe_le_at; simpl; lia|done]. }
  intros ? _. apply safe_bind; [apply section_bytes_safe|]. by intros.
Qed.

Lemma st_post_call {S E F A} (f : S -> result F A * S) s
    (P : result F A -> S -> Prop) (Q : E -> S -> Prop) :
  (forall r s', f s = (r, s') -> P r s') -> st_post (call f) s P Q.
Proof. unfold st_post, call. destruct (f s) as [r s']. auto. Qed.

Lemma st_post_with_local {A L E} (l : L) (m : st (A * L) E unit) a
    (P : L -> A -> Prop) (Q : E -> A -> Prop) :
  st_post m (a, l) (fun _ s => P (snd s) (fst s)) (fun e s => Q e (fst s)) ->
  st_post (with_local l m) a P Q.
Proof.
  unfold st_post, with_local. destruct (m (a, l)) as [[[]|e|] [a' l']]; done.
Qed.

Lemma st_post_on_adapter {A W E B} (m : st A E B) (a : A) (w : W)
    (P : B -> A * W -> Prop) (Q : E -> A * W -> Prop) :
  st_post m a (fun b a' => P b (a', w)) (fun e a' => Q e (a', w)) ->
  st_post (on_adapter m) (a, w) P Q.
Proof. unfold st_post, on_adapter. by destruct (m a) as [[b|e|] a']. Qed.

(** An ECB row of a parsed blob. *)
Definition ecb_ok (ecb : EcbDescriptor) : Prop :=
  probe_index ecb = 0 /\ in_u 32 (action_first ecb) /\ in_u 32 (action_count ecb).

Lemma ecbs_from_ok view n : forall from ecb,
  Ok ecb ∈ ecbs_from view n from -> ecb_ok ecb.
Proof.
  induction n as [|n IH]; intros from ecb Hin; [by apply not_elem_of_nil in Hin|].
  cbn [ecbs_from] in Hin. apply elem_of_app in Hin as [Hin|Hin]; [|by eapply IH].
  unfold section_ecbs in Hin.
  destruct (section_at view from) as [h|]; [|by apply not_elem_of_nil in Hin].
  destruct (bool_decide _); [|by apply not_elem_of_nil in Hin].
  destruct (section_bytes view from) as [p|e|]; [| |by apply not_elem_of_nil in Hin].
  2:{ by apply list_elem_of_singleton in Hin. }
  destruct (_ =? 0); [by apply not_elem_of_nil in Hin|].
  apply list_elem_of_fmap in Hin as (row & Hr & _). unfold ecb_of_row, result_of in Hr.
  destruct (parse_ecb row) as [e|?|] eqn:Hp; try done. injection Hr as ->.
  apply parse_ecb_Ret in Hp as (?&?&?&?&?&?). done.
Qed.

(** ** The driver against a list of ECBs

    [run_ecbs] reads the reference list [ecbs view] instead of the iterator
    and has neither counters nor callback: it stops at the first error and
    returns the statuses produced so far. *)

Section DriverSpec.
Context {A : Type} `{KernelAdapter A}.

Fixpoint run_ecbs (view : DofView) (l : list (result LowerError EcbDescriptor)) (a : A)
  : outcome LowerError unit * list EcbStatus * A :=
  match l with
  | [] => (Ret tt, [], a)
  | Err e :: _ => (Throw e, [], a)
  | Ok ecb :: l' =>
      match drive_one view ecb a with
      | (Ret s, a') => let '(o, ss, a'') := run_ecbs view l' a' in (o, s :: ss, a'')
      | (Throw e, a') => (Throw e, [], a')
      | (Panic, a') => (Panic, [], a')
      end
  end.

Definition is_accepted (s : EcbStatus) : bool :=
  match s with Accepted _ => true | _ => false end.

Definition count_accepted (ss : list EcbStatus) : Z :=
  len (List.filter is_accepted ss).

Context {W : Type}.
Variable on_status : Z -> EcbStatus -> W -> W.

(** The callback applied to the statuses, numbered from [i]. *)
Fixpoint deliver (i : Z) (ss : list EcbStatus) (w : W) : W :=
  match ss with
  | [] => w
  | s :: ss' => deliver (i + 1) ss' (on_status i s w)
  end.

Definition drive_spec (view : DofView) : st (A * W) LowerError Z := fun '(a, w) =>
  match on_session_event a Begin with
  | (Err e, a1) => (Throw e, (a1, w))
  | (Ok _, a1) =>
      let '(o, ss, a2) := run_ecbs view (ecbs view) a1 in
      let w2 := deliver 0 ss w in
      match o with
      | Throw e => (Throw e, (a2, w2))
      | Panic => (Panic, (a2, w2))
      | Ret _ =>
          match on_session_event a2 End_ with
          | (Err e, a3) => (Throw e, (a3, w2))
          | (Ok _, a3) => (Ret (count_accepted ss), (a3, w2))
          end
      end
  end.

Lemma run_ecbs_length view l : forall a o ss a',
  run_ecbs view l a = (o, ss, a') ->
  (length ss <= length l)%nat /\ (o = Ret tt -> length ss = length l).
Proof.
  induction l as [|[ecb|e] l IH]; intros a o ss a' Hr; cbn [run_ecbs] in Hr;
    [by simplify_eq|..|by simplify_eq/=; split; [lia|]].
  destruct (drive_one view ecb a) as [[s|e|] a1]; simplify_eq/=; try (split; [lia|done]).
  destruct (run_ecbs view l a1) as [[o1 ss1] a2] eqn:R. simplify_eq/=.
  apply IH in R as [R1 R2]. split; [lia|]. intros ->. rewrite R2; done.
Qed.

Lemma count_accepted_cons s ss :
  count_accepted (s :: ss) = (if is_accepted s then 1 else 0) + count_accepted ss.
Proof. unfold count_accepted. simpl. destruct (is_accepted s); by rewrite ?len_cons. Qed.

Lemma add32_ok {E} a b : a + b <= U32_MAX -> add32 (E:=E) a b = Ret (a + b).
Proof. intros. unfold add32. by destruct (Z.leb_spec (a + b) U32_MAX); [|lia]. Qed.

(** The loop from any state of the iterator. *)
Lemma drive_loop_run view fuel : forall it acc idx a w o ss a',
  iter_inv it -> (length (pending it) < fuel)%nat ->
  0 <= acc <= idx -> idx + len (pending it) <= U32_MAX ->
  run_ecbs view (pending it) a = (o, ss, a') ->
  drive_loop on_status fuel view it acc idx (a, w) =
    (match o with
     | Ret _ => Ret (acc + count_accepted ss)
     | Throw e => Throw e
     | Panic => Panic
     end, (a', deliver idx ss w)).
Proof.
  induction fuel as [|fuel IH]; intros it acc idx a w o ss a' Hi Hf Ha Hb Hr; [lia|].
  cbn [drive_loop]. unfold mbind at 1, st_bind, st_lift at 1.
  destruct (ecb_next_spec (E:=LowerError) it Hi) as (r & it2 & -> & _ & Hi2 & Hp).
  destruct r as [[ecb|e]|]; cbv iota.
  2:{ rewrite Hp in Hr. by simplify_eq/=. }
  2:{ destruct Hp as [Hp _]. rewrite Hp in Hr. simplify_eq/=.
      unfold mret, st_ret. by rewrite Z.add_0_r. }
  rewrite Hp in Hr, Hf, Hb. rewrite len_cons in Hb. cbn [run_ecbs] in Hr.
  pose proof (len_nonneg (pending it2)).
  unfold mbind, st_bind, st_lift, on_adapter, st_modify.
  destruct (drive_one view ecb a) as [[s|e|] a1] eqn:D; [|by simplify_eq/=..].
  destruct (run_ecbs view (pending it2) a1) as [[o1 ss1] a2] eqn:R. simplify_eq/=.
  rewrite (add32_ok idx 1) by lia.
  destruct s as [id|r|]; rewrite ?add32_ok by lia; cbv iota beta;
    (erewrite (IH it2 _ _ a1 _ _ _ _ Hi2); [|simpl in Hf; lia|lia|lia|exact R]);
    destruct o; rewrite ?count_accepted_cons; simpl; try done; do 2 f_equal; lia.
Qed.

Lemma drive_spec_eq view a w :
  view_wf view -> len (ecbs view) <= U32_MAX ->
  drive on_status view (a, w) = drive_spec view (a, w).
Proof.
  intros Hwf Hl. unfold drive, drive_spec, session_event.
  unfold mbind, st_bind, on_adapter, call.
  destruct (on_session_event a Begin) as [[[]|e] a1]; [|done]. cbv beta iota delta [mret st_ret].
  destruct (run_ecbs view (ecbs view) a1) as [[o ss] a2] eqn:R.
  erewrite (drive_loop_run view _ (iter_ecbs view) 0 0 a1 w _ _ _
    (iter_ecbs_inv view Hwf)); rewrite ?pending_iter_ecbs; [|lia..|exact R].
  destruct o as [[]|e|]; [|done..].
  destruct (on_session_event a2 End_) as [[[]|e] a3]; done.
Qed.
End DriverSpec.

(** ** The calls an adapter sees

    [logged_adapter] wraps any adapter and records every call that changes
    its state, with its result. *)

Inductive call_rec : Type :=
| CAttach (t : ProbeTarget) (r : result RejectReason Z)
| CBind (id : Z) (r : result RejectReason unit)
| CRecord (id : Z) (d : ActionDescriptor) (r : result RejectReason unit)
| CDeclare (var : Z) (k : AggKind) (r : result RejectReason unit)
| CDetach (id : Z)
| CEvent (ev : SessionEvent).

Definition logged {A R} (c : R -> call_rec) (lg : list call_rec) (p : R * A)
  : R * (A * list call_rec) := let '(r, a) := p in (r, (a, lg ++ [c r])).

#[export] Instance logged_adapter {A} `{KernelAdapter A}
  : KernelAdapter (A * list call_rec) := {|
  provider_supports := fun '(a, _) p => provider_supports a p;
  attach_probe := fun '(a, lg) t => logged (CAttach t) lg (attach_probe a t);
  bind_predicate := fun '(a, lg) id b => logged (CBind id) lg (bind_predicate a id b);
  record_action := fun '(a, lg) id d b =>
    logged (CRecord id d) lg (record_action a id d b);
  declare_aggregation := fun '(a, lg) v k n =>
    logged (CDeclare v k) lg (declare_aggregation a v k n);
  detach_probe := fun '(a, lg) id => (detach_probe a id, lg ++ [CDetach id]);
  on_session_event := fun '(a, lg) ev =>
    logged (fun _ => CEvent ev) lg (on_session_event a ev)
|}.

(** What happens to probe [id] between its attach and its verdict: binding
    and recording only, no destructive action, no detach, and no aggregation
    declaration. *)
Definition quiet (id : Z) (c : call_rec) : Prop :=
  match c with
  | CBind i _ => i = id
  | CRecord i d _ => i = id /\ is_destructive (act_kind d) = false
  | _ => False
  end.

(** A call that leaves the ECB acceptable. *)
Definition succeeded (c : call_rec) : Prop :=
  match c with
  | CBind _ r => r = Ok tt
  | CRecord _ d r => r = Ok tt /\ act_kind d <> AggSentinel
  | _ => False
  end.

(** The calls that lead to each verdict. *)
Definition ecb_trace (s : EcbStatus) (l : list call_rec) : Prop :=
  match s with
  | ZeroMatch => l = []
  | Accepted id => exists t mid, l = CAttach t (Ok id) :: mid /\
      Forall (quiet id) mid /\ Forall succeeded mid
  | Rejected r =>
      (r = NoProvider /\ l = []) \/
      (exists t, l = [CAttach t (Err r)]) \/
      (exists t id mid, l = CAttach t (Ok id) :: mid ++ [CDetach id] /\
         Forall (quiet id) mid /\ (~ Forall succeeded mid \/ r = DestructiveDisabled))
  end.

(** The calls of an ECB that aborts the session: the probe, once attached,
    is never detached. *)
Definition ecb_abort (l : list call_rec) : Prop :=
  l = [] \/ exists t id mid, l = CAttach t (Ok id) :: mid /\ Forall (quiet id) mid.

Section Trace.
Context {A : Type} `{KernelAdapter A}.

(** The invariant of the action walk on the log. *)
Definition walk_inv (id : Z) (lg0 : list call_rec)
    (s : (A * list call_rec) * option RejectReason) : Prop :=
  exists mid, snd (fst s) = lg0 ++ mid /\ Forall (quiet id) mid /\
    match snd s with
    | None => Forall succeeded mid
    | Some r => ~ Forall succeeded mid \/ r = DestructiveDisabled
    end.

Lemma agg_sentinel_kind d :
  action_kind_from_u32 (act_kind_raw d) = Ret (act_kind d) ->
  act_kind d = AggSentinel ->
  exists e, agg_kind_from_u32 (Z.shiftr (act_kind_raw d) 8) = Throw e.
Proof.
  intros Hk Ha. apply (action_kind_from_u32_agg _ _ Hk) in Ha.
  assert (Z.shiftr (act_kind_raw d) 8 = 7) as ->; [|by eexists].
  rewrite Z.shiftr_div_pow2 by lia. change (2 ^ 8) with 256.
  symmetry. apply (Z.div_unique _ _ _ (act_kind_raw d - 0x700)); lia.
Qed.

Lemma session_on_action_inv view id lg0 i d row s :
  parse_action row = Ret d -> walk_inv id lg0 s ->
  st_post (session_on_action view id i d) s
    (fun _ => walk_inv id lg0) (fun _ => walk_inv id lg0).
Proof.
  intros (_ & Hk & _)%parse_action_Ret Hinv. destruct s as [[a lg] err].
  unfold st_post, session_on_action. destruct err as [r|]; [done|].
  destruct (is_destructive _) eqn:D.
  { destruct Hinv as (mid & H1 & H2 & H3). exists mid. simpl in *. split_and!; auto. }
  destruct (if difo_section d =? 0 then _ else _) as [bs|e|] eqn:B; [|done|].
  2:{ destruct (difo_section d =? 0); [done|]. by eapply section_bytes_safe. }
  destruct Hinv as (mid & H1 & H2 & H3). simpl in H1, H3. subst lg.
  cbn [record_action logged_adapter]. destruct (record_action a id d bs) as [r a1].
  cbn [logged].
  assert (HP : forall o : option RejectReason,
    match o with
    | None => r = Ok tt /\ act_kind d <> AggSentinel
    | Some _ => ~ (r = Ok tt /\ act_kind d <> AggSentinel)
    end -> walk_inv id lg0 ((a1, (lg0 ++ mid) ++ [CRecord id d r]), o)).
  { intros o Ho. exists (mid ++ [CRecord id d r]). simpl. rewrite <- app_assoc.
    split_and!; [done|by apply Forall_app_2; [|constructor]|].
    destruct o as [x|]; [left; intros [_ Hf]%Forall_app;
      by apply Ho, (Forall_inv Hf)|].
    apply Forall_app_2; [done|by constructor]. }
  case_bool_decide as Hs.
  - destruct (agg_sentinel_kind _ Hk Hs) as [e ->].
    destruct r as [[]|x]; apply HP; simpl; intuition congruence.
  - destruct r as [[]|x]; apply HP; [done|]. intuition congruence.
Qed.

Lemma drive_one_trace view ecb (a : A) lg :
  view_wf view -> slice_len_ok (blob view) -> ecb_ok ecb ->
  st_post (drive_one view ecb) (a, lg)
    (fun s s' => exists l, snd s' = lg ++ l /\ ecb_trace s l)
    (fun _ s' => exists l, snd s' = lg ++ l /\ ecb_abort l).
Proof.
  intros Hwf Hl (Hp & Hf & Hc). unfold drive_one.
  assert (Hnil : exists l, lg = lg ++ l /\ ecb_abort l)
    by (exists []; rewrite app_nil_r; split; [done|by left]).
  rewrite Hp. apply st_post_bind, st_post_lift;
    [apply resolve_probe_target_safe| |done].
  intros [t|] _; [|apply st_post_ret; exists []; by rewrite app_nil_r].
  apply st_post_bind. unfold st_post at 1, st_gets. cbn [snd fst].
  destruct (provider_supports (a, lg) (provider t)).
  2:{ apply st_post_ret. exists []. rewrite app_nil_r. split; [done|by left]. }
  apply st_post_bind, st_post_call. cbn [attach_probe logged_adapter].
  destruct (attach_probe a t) as [r a1]. intros r' s' [= <- <-].
  destruct r as [id|r].
  2:{ apply st_post_ret. eexists. split; [done|]. right; left. by exists t. }
  assert (Hab : forall lg' mid, lg' = (lg ++ [CAttach t (Ok id)]) ++ mid ->
    Forall (quiet id) mid -> exists l, lg' = lg ++ l /\ ecb_abort l).
  { intros lg' mid -> Hq. exists (CAttach t (Ok id) :: mid).
    rewrite <- app_assoc. split; [done|]. right. by exists t, id, mid. }
  assert (Hrej : forall lg' mid r, lg' = (lg ++ [CAttach t (Ok id)]) ++ mid ->
    Forall (quiet id) mid -> ~ Forall succeeded mid \/ r = DestructiveDisabled ->
    exists l, lg' ++ [CDetach id] = lg ++ l /\ ecb_trace (Rejected r) l).
  { intros lg' mid r -> Hq Hr. exists (CAttach t (Ok id) :: mid ++ [CDetach id]).
    rewrite <- !app_assoc. split; [done|]. right; right.
    by exists t, id, mid. }
  apply st_post_bind.
  apply (st_post_mono _ _
    (fun (o : option RejectReason) s' => match o with
      | Some r => exists l, snd s' = lg ++ l /\ ecb_trace (Rejected r) l
      | None => exists mid, snd s' = (lg ++ [CAttach t (Ok id)]) ++ mid /\
          Forall (quiet id) mid /\ Forall succeeded mid
      end) _ (fun _ s' => exists l, snd s' = lg ++ l /\ ecb_abort l)); [| |done].
  - destruct (_ =? 0).
    { apply st_post_ret. exists []. rewrite app_nil_r. by repeat constructor. }
    apply st_post_bind, st_post_lift; [apply section_bytes_safe| |].
    2:{ intros e _. apply (Hab _ []); [by rewrite app_nil_r|done]. }
    intros bs _. apply st_post_bind, st_post_call.
    cbn [bind_predicate logged_adapter]. destruct (bind_predicate a1 id bs) as [r a2].
    intros r' s' [= <- <-]. destruct r as [[]|r].
    + apply st_post_ret. eexists. split; [done|]. by repeat constructor.
    + apply st_post_bind. unfold st_post at 1, st_modify. apply st_post_ret.
      eapply Hrej; [done|by repeat constructor|].
      left. intros Hs. pose proof (Forall_inv Hs) as Hx; done.
  - intros [r|] [a2 lg2] Hpe; [by apply st_post_ret|].
    destruct Hpe as (mid & Hm & Hq & Hs). cbn [snd fst] in Hm. subst lg2.
    apply st_post_bind, st_post_with_local.
    set (I := walk_inv id (lg ++ [CAttach t (Ok id)])).
    eapply st_post_mono.
    { apply (walk_actions_rule _ I (fun _ => I)); [done| |done..|].
      - intros i d s row Hrow HI. by eapply session_on_action_inv.
      - by exists mid. }
    + intros [] [[a3 lg3] err] (mid' & Hm' & Hq' & Hs'). simpl in *.
      destruct err as [r|].
      * apply st_post_bind. unfold st_post at 1, st_modify. apply st_post_ret.
        by eapply Hrej.
      * apply st_post_ret. exists (CAttach t (Ok id) :: mid'). simpl.
        rewrite Hm', <- app_assoc. split; [done|]. by exists t, mid'.
    + intros e [[a3 lg3] err] (mid' & Hm' & Hq' & _). by eapply Hab.
Qed.
End Trace.

Section Accepted.
Context {A : Type} `{KernelAdapter A}.

Lemma st_forM_err view id l : forall (a : A * list call_rec) r s,
  st_forM l (fun '(i, d) => session_on_action view id i d) (a, Some r) = s ->
  s = (Ret tt, (a, Some r)).
Proof.
  induction l as [|[i d] l IH]; intros [a lg] r s <-; [done|].
  cbn [st_forM]. unfold mbind, st_bind. cbn [session_on_action].
  by eapply IH.
Qed.

(** One action that leaves the chain acceptable. *)
Lemma session_on_action_ok view id i d (a : A) lg row s' :
  parse_action row = Ret d ->
  session_on_action view id i d ((a, lg), None) = (Ret tt, (s', None)) ->
  snd s' = lg ++ [CRecord id d (Ok tt)] /\
  act_kind d <> AggSentinel /\ is_destructive (act_kind d) = false.
Proof.
  intros (_ & Hk & _)%parse_action_Ret. unfold session_on_action.
  destruct (is_destructive _) eqn:D; [done|].
  destruct (if difo_section d =? 0 then _ else _) as [bs|e|]; [|done..].
  cbn [record_action logged_adapter]. destruct (record_action a id d bs) as [r a1].
  cbn [logged]. case_bool_decide as Hs.
  - destruct (agg_sentinel_kind _ Hk Hs) as [e ->]. by destruct r.
  - destruct r as [[]|x]; intros [= <-]. done.
Qed.

Lemma st_forM_accepted view id l : forall (a : A) lg s',
  Forall (fun '(_, d) => exists row, parse_action row = Ret d) l ->
  st_forM l (fun '(i, d) => session_on_action view id i d) ((a, lg), None)
    = (Ret tt, (s', None)) ->
  snd s' = lg ++ map (fun '(_, d) => CRecord id d (Ok tt)) l /\
  Forall (fun '(_, d) => act_kind d <> AggSentinel /\
                         is_destructive (act_kind d) = false) l.
Proof.
  induction l as [|[i d] l IH]; intros a lg s' Hl Hs.
  { cbn [st_forM] in Hs. unfold mret, st_ret in Hs. simplify_eq/=.
    by rewrite app_nil_r. }
  pose proof (Forall_inv Hl) as [row Hrow]. apply Forall_inv_tail in Hl.
  cbn [st_forM] in Hs. unfold mbind, st_bind in Hs.
  destruct (session_on_action view id i d ((a, lg), None)) as [[[]|e|] [s1 err]] eqn:E;
    [|done..].
  destruct err as [r|].
  { apply st_forM_err in Hs. done. }
  destruct (session_on_action_ok _ _ _ _ _ _ _ _ Hrow E) as (H1 & H2 & H3).
  destruct s1 as [a1 lg1]. simpl in H1. subst lg1.
  apply IH in Hs as [-> Hs]; [|done]. rewrite <- app_assoc. split; [done|].
  constructor; done.
Qed.
End Accepted.

(** No panic, for any adapter. *)
Section DriveOneSafe.
Context {A : Type} `{KernelAdapter A}.

Lemma session_on_action_safe view id i d s :
  st_post (session_on_action (A:=A) view id i d) s (fun _ _ => True) (fun _ _ => True).
Proof.
  destruct s as [a err]. unfold st_post, session_on_action. destruct err; [done|].
  destruct (is_destructive _); [done|].
  destruct (if difo_section d =? 0 then _ else _) as [bs|e|] eqn:B; [|done|].
  2:{ destruct (difo_section d =? 0); [done|]. by eapply section_bytes_safe. }
  destruct (record_action a id d bs) as [r a1]. case_bool_decide; [|done].
  destruct (agg_kind_from_u32 _) as [k|?|]; [|done..].
  by destruct (declare_aggregation _ _ _ _) as [r2 a2].
Qed.

Lemma drive_one_safe view ecb (a : A) :
  view_wf view -> slice_len_ok (blob view) -> ecb_ok ecb ->
  st_post (drive_one view ecb) a (fun _ _ => True) (fun _ _ => True).
Proof.
  intros Hwf Hl (Hp & Hf & Hc). unfold drive_one. rewrite Hp.
  apply st_post_bind, st_post_lift; [apply resolve_probe_target_safe| |done].
  intros [t|] _; [|done]. apply st_post_bind. unfold st_post at 1, st_gets.
  destruct (provider_supports a (provider t)); [|done].
  apply st_post_bind, st_post_call. intros [id|r] a1 _; [|done].
  apply st_post_bind, (st_post_mono _ _ (fun _ _ => True) _ (fun _ _ => True)); [| |done].
  - destruct (_ =? 0); [done|]. apply st_post_bind, st_post_lift;
      [apply section_bytes_safe| |done].
    intros bs _. apply st_post_bind, st_post_call. by intros [[]|r] a2 _.
  - intros [r|] a2 _; [done|]. apply st_post_bind, st_post_with_local.
    apply (st_post_mono _ _ (fun _ _ => True) _ (fun _ _ => True)).
    + by apply (walk_actions_rule _ (fun _ => True) (fun _ _ => True));
        [|intros; apply session_on_action_safe|..].
    + intros [] [a3 [r|]] _; done.
    + done.
Qed.
End DriveOneSafe.

(** The actions the walk visits come from rows that parse. *)
Lemma walk_actions_parsed view ecb l :
  0 <= action_count ecb ->
  walk_actions log_action view ecb [] = (Ret tt, l) ->
  Forall (fun '(_, d) => exists row, parse_action row = Ret d) l.
Proof.
  intros Hc Hw. unfold walk_actions in Hw. destruct (action_count ecb =? 0).
  { injection Hw as <-. constructor. }
  unfold mbind, st_bind, st_lift in Hw.
  destruct (section_bytes _ _) as [section|?|]; try done.
  destruct (ok_or _ _) as [hdr|?|]; try done. destruct (entsize hdr =? 0); [done|].
  apply walk_rows_visits in Hw as (v & -> & _ & Hv); [|done].
  apply list.Forall_forall. intros [j d] [k Hk]%list_elem_of_lookup.
  apply Hv in Hk as (_ & row & _ & Hrow). by exists row.
Qed.

(** The [record_action] calls of a log. *)
Definition record_calls (lg : list call_rec) : list (Z * ActionDescriptor) :=
  omap (fun c => match c with CRecord id d _ => Some (id, d) | _ => None end) lg.

Lemma record_calls_app a b : record_calls (a ++ b) = record_calls a ++ record_calls b.
Proof. apply omap_app. Qed.

Lemma record_calls_map id (l : list (Z * ActionDescriptor)) :
  record_calls (map (fun '(_, d) => CRecord id d (Ok tt)) l)
    = map (fun '(_, d) => (id, d)) l.
Proof. unfold record_calls. induction l as [|[i d] l IH]; simpl; by f_equal. Qed.

(** The chain of an accepted ECB. *)
Lemma drive_one_chain {A} `{KernelAdapter A} view ecb (a a' : A) lg id :
  in_u 32 (action_count ecb) ->
  drive_one view ecb (a, []) = (Ret (Accepted id), (a', lg)) ->
  exists l pre, walk_actions log_action view ecb [] = (Ret tt, l) /\
    lg = pre ++ map (fun '(_, d) => CRecord id d (Ok tt)) l /\ record_calls pre = [] /\
    Forall (fun '(_, d) => act_kind d <> AggSentinel /\
                           is_destructive (act_kind d) = false) l.
Proof.
  intros Hc. unfold drive_one, mbind, st_bind, st_lift, st_gets, call, mret, st_ret.
  destruct (resolve_probe_target _ _ _) as [[t|]|?|]; [|done..].
  destruct (provider_supports (a, []) (provider t)); [|done].
  cbn [attach_probe logged_adapter]. destruct (attach_probe a t) as [[id0|r] a1];
    cbn [logged]; [|done].
  assert (Hwalk : forall a2 pre, id0 = id -> record_calls pre = [] ->
    with_local None (walk_actions (session_on_action view id0) view ecb) (a2, pre)
      = (Ret None, (a', lg)) ->
    exists l pre, walk_actions log_action view ecb [] = (Ret tt, l) /\
      lg = pre ++ map (fun '(_, d) => CRecord id d (Ok tt)) l /\ record_calls pre = [] /\
      Forall (fun '(_, d) => act_kind d <> AggSentinel /\
                             is_destructive (act_kind d) = false) l).
  { intros a2 pre <- Hpre. unfold with_local.
    destruct (walk_actions _ _ _ _) as [[[]|?|] [s' err]] eqn:W; [|done..].
    intros [= -> ->].
    apply walk_actions_forM in W as (l & Hl & Hf).
    pose proof (walk_actions_parsed _ _ _ (proj1 Hc) Hl) as Hp.
    apply st_forM_accepted in Hf as [Hlg Hk]; [|done]. simpl in Hlg.
    exists l, pre. done. }
  destruct (pred_section ecb =? 0); [|destruct (section_bytes _ _) as [bs|?|]; [|done..];
    cbn [bind_predicate logged_adapter]; destruct (bind_predicate a1 id0 bs) as [[[]|r] a2];
    cbn [logged]; [|done]].
  all: destruct (with_local _ _ _) as [[[?|]|?|] [??]] eqn:W; intros [=]; subst;
    by eapply Hwalk; [| |exact W].
Qed.

Section RunTrace.
Context {A : Type} `{KernelAdapter A}.

Definition ecb_item_ok (r : result LowerError EcbDescriptor) : Prop :=
  match r with Ok ecb => ecb_ok ecb | Err _ => True end.

Lemma ecbs_item_ok view : Forall ecb_item_ok (ecbs view).
Proof.
  apply list.Forall_forall. intros [ecb|e] Hin; [|done]. by eapply ecbs_from_ok.
Qed.

(** The whole run on the log: one trace per verdict, and at most one more
    for the ECB that aborted it. *)
Lemma run_ecbs_trace view l : forall (a : A) lg o ss s',
  view_wf view -> slice_len_ok (blob view) -> Forall ecb_item_ok l ->
  run_ecbs view l (a, lg) = (o, ss, s') ->
  o <> Panic /\ exists traces tail,
    snd s' = lg ++ concat traces ++ tail /\ Forall2 ecb_trace ss traces /\
    match o with Ret _ => tail = [] | _ => ecb_abort tail end.
Proof.
  induction l as [|[ecb|e] l IH]; intros a lg o ss s' Hwf Hl Hok Hr; cbn [run_ecbs] in Hr.
  - simplify_eq/=. split; [done|]. exists [], []. by rewrite app_nil_r.
  - pose proof (Forall_inv Hok) as Hecb. apply Forall_inv_tail in Hok.
    pose proof (drive_one_trace view ecb a lg Hwf Hl Hecb) as Ht. unfold st_post in Ht.
    destruct (drive_one view ecb (a, lg)) as [[s|e|] [a1 lg1]]; [| |done].
    + destruct Ht as (t & Ht & Htr). simpl in Ht. subst lg1.
      destruct (run_ecbs view l (a1, lg ++ t)) as [[o1 ss1] s1] eqn:R. simplify_eq/=.
      apply IH in R as (Hp & traces & tail & Hs & Hf & Ho); [|done..].
      split; [done|]. exists (t :: traces), tail. rewrite Hs. simpl.
      rewrite <- !app_assoc. by repeat constructor.
    + destruct Ht as (t & Ht & Htr). simplify_eq/=. split; [done|].
      by exists [], t.
  - simplify_eq/=. split; [done|]. exists [], []. rewrite app_nil_r.
    split_and!; [done|constructor|by left].
Qed.
End RunTrace.

(** Probe ids attached and detached in a log, and accepted by verdicts. *)
Definition attach_ids (lg : list call_rec) : list Z :=
  omap (fun c => match c with CAttach _ (Ok id) => Some id | _ => None end) lg.
Definition detach_ids (lg : list call_rec) : list Z :=
  omap (fun c => match c with CDetach id => Some id | _ => None end) lg.
Definition accepted_ids (ss : list EcbStatus) : list Z :=
  omap (fun s => match s with Accepted id => Some id | _ => None end) ss.

Lemma quiet_ids id mid : Forall (quiet id) mid -> attach_ids mid = [] /\ detach_ids mid = [].
Proof.
  unfold attach_ids, detach_ids.
  induction 1 as [|[] mid Hq _ [IH1 IH2]]; simpl in *; by rewrite ?IH1, ?IH2.
Qed.

Lemma attach_ids_app a b : attach_ids (a ++ b) = attach_ids a ++ attach_ids b.
Proof. apply omap_app. Qed.
Lemma detach_ids_app a b : detach_ids (a ++ b) = detach_ids a ++ detach_ids b.
Proof. apply omap_app. Qed.
Lemma accepted_ids_app a b : accepted_ids (a ++ b) = accepted_ids a ++ accepted_ids b.
Proof. apply omap_app. Qed.

Lemma ecb_trace_balance s t :
  ecb_trace s t -> attach_ids t = detach_ids t ++ accepted_ids [s].
Proof.
  destruct s as [id|r|]; simpl.
  - intros (p & mid & -> & Hq & _). destruct (quiet_ids _ _ Hq) as [H1 H2].
    change (CAttach p (Ok id) :: mid) with ([CAttach p (Ok id)] ++ mid).
    by rewrite attach_ids_app, detach_ids_app, H1, H2.
  - intros [[_ ->]|[[p ->]|(p & id & mid & -> & Hq & _)]]; [done..|].
    destruct (quiet_ids _ _ Hq) as [H1 H2].
    change (CAttach p (Ok id) :: mid ++ [CDetach id])
      with ([CAttach p (Ok id)] ++ mid ++ [CDetach id]).
    by rewrite !attach_ids_app, !detach_ids_app, H1, H2.
  - by intros ->.
Qed.

Lemma traces_balance ss traces :
  Forall2 ecb_trace ss traces ->
  attach_ids (concat traces) ≡ₚ detach_ids (concat traces) ++ accepted_ids ss.
Proof.
  induction 1 as [|s t ss traces Ht _ IH]; [done|]. cbn [concat].
  rewrite attach_ids_app, detach_ids_app, IH, (ecb_trace_balance _ _ Ht).
  change (accepted_ids (s :: ss)) with (accepted_ids ([s] ++ ss)).
  rewrite accepted_ids_app. solve_Permutation.
Qed.

Lemma deliver_push_snd ss : forall i l,
  map snd (deliver push_status i ss l) = map snd l ++ ss.
Proof.
  induction ss as [|s ss IH]; intros i l; cbn [deliver]; [by rewrite app_nil_r|].
  rewrite IH. unfold push_status. rewrite map_app. by rewrite <- app_assoc.
Qed.

Lemma deliver_push_fst ss : forall k l,
  map fst (deliver push_status (Z.of_nat k) ss l) =
    map fst l ++ map Z.of_nat (seq k (length ss)).
Proof.
  induction ss as [|s ss IH]; intros k l; cbn [deliver]; [by rewrite app_nil_r|].
  replace (Z.of_nat k + 1) with (Z.of_nat (S k)) by lia. rewrite IH. unfold push_status.
  rewrite map_app, <- app_assoc. done.
Qed.

(** ** Properties *)

(** Parsing a blob and driving any adapter over it never panics: no index of
    the walk is out of range and no address arithmetic overflows, whatever
    the blob holds and whatever the adapter answers. *)
Theorem drive_no_panic {A W} `{KernelAdapter A} (on_status : Z -> EcbStatus -> W -> W)
    (b : bytes) view (a : A) (w : W) :
  slice_len_ok b -> parse_blob b = Ret view -> len (ecbs view) <= U32_MAX ->
  fst (drive on_status view (a, w)) <> Panic.
Proof.
  intros Hb [Hwf Hv]%parse_blob_wf Hl. subst b.
  rewrite drive_spec_eq by done. unfold drive_spec.
  destruct (on_session_event a Begin) as [[?|e] a1]; [|done].
  destruct (run_ecbs view (ecbs view) a1) as [[o ss] a2] eqn:R.
  assert (Ho : o <> Panic).
  { clear -Hwf Hb R. pose proof (ecbs_item_ok view) as Hok. revert a1 o ss a2 R Hok.
    induction (ecbs view) as [|[ecb|e] l IH]; intros a1 o ss a2 R Hok; cbn [run_ecbs] in R;
      [by simplify_eq| |by simplify_eq].
    pose proof (drive_one_safe view ecb a1 Hwf Hb (Forall_inv Hok)) as Hs. unfold st_post in Hs.
    destruct (drive_one view ecb a1) as [[s|e|] a3]; [|by simplify_eq/=|done].
    destruct (run_ecbs view l a3) as [[o1 ss1] a4] eqn:R1. simplify_eq/=.
    eapply IH; [exact R1|]. by apply Forall_inv_tail in Hok. }
  destruct o as [?|e|]; [|done|done]. by destruct (on_session_event a2 End_) as [[?|e] ?].
Qed.

(** C9: [drive] is the list-based specification: an adapter [Begin] event, the
    ECBs of the reference list in order until the first error, the callback
    called once per verdict with consecutive indexes from 0, an [End] event
    on success only, and the number of accepted ECBs as the result. *)
Theorem drive_refines_spec {A W} `{KernelAdapter A} (on_status : Z -> EcbStatus -> W -> W)
    (b : bytes) view (a : A) (w : W) :
  parse_blob b = Ret view -> len (ecbs view) <= U32_MAX ->
  drive on_status view (a, w) = drive_spec on_status view (a, w).
Proof. intros [Hwf _]%parse_blob_wf Hl. by apply drive_spec_eq. Qed.

(** A session that succeeds reports exactly one verdict per ECB, numbered
    from 0 in declaration order, and returns how many were accepted. *)
Theorem drive_reports_every_ecb {A} `{KernelAdapter A} (b : bytes) view (a a' : A)
    statuses n :
  parse_blob b = Ret view -> len (ecbs view) <= U32_MAX ->
  drive push_status view (a, []) = (Ret n, (a', statuses)) ->
  map fst statuses = map Z.of_nat (seq 0 (length (ecbs view))) /\
  n = count_accepted (map snd statuses).
Proof.
  intros [Hwf _]%parse_blob_wf Hl. rewrite drive_spec_eq by done. unfold drive_spec.
  destruct (on_session_event a Begin) as [[?|e] a1]; [|done].
  destruct (run_ecbs view (ecbs view) a1) as [[o ss] a2] eqn:R.
  destruct (run_ecbs_length _ _ _ _ _ _ R) as [_ Hlen].
  destruct o as [[]|e|]; [|done..].
  destruct (on_session_event a2 End_) as [[?|e] a3]; [|done]. intros [= <- <- <-].
  rewrite <- (Hlen eq_refl), deliver_push_snd. split; [|done].
  by rewrite (deliver_push_fst ss 0).
Qed.

(** C1: Probe discipline.  For every adapter, the calls of a successful session
    are one group per verdict, in order: an accepted ECB attaches once and is
    never detached, with every bind and record in between successful; a
    rejected one either never attached or is detached last, exactly once; and
    no destructive action is ever handed to the adapter.  In sum, the probes
    left attached are exactly those of the accepted verdicts. *)
Theorem drive_probe_discipline {A} `{KernelAdapter A} (b : bytes) view (a a' : A)
    statuses lg n :
  slice_len_ok b -> parse_blob b = Ret view -> len (ecbs view) <= U32_MAX ->
  drive push_status view ((a, []), []) = (Ret n, ((a', lg), statuses)) ->
  exists traces,
    lg = CEvent Begin :: concat traces ++ [CEvent End_] /\
    Forall2 ecb_trace (map snd statuses) traces /\
    attach_ids lg ≡ₚ detach_ids lg ++ accepted_ids (map snd statuses).
Proof.
  intros Hb [Hwf Hv]%parse_blob_wf Hl. subst b.
  rewrite drive_spec_eq by done. unfold drive_spec. cbn [on_session_event logged_adapter].
  destruct (on_session_event a Begin) as [[?|e] a1]; [|done]. cbn [logged app].
  destruct (run_ecbs view (ecbs view) (a1, [CEvent Begin])) as [[o ss] [a2 lg2]] eqn:R.
  apply run_ecbs_trace in R as (_ & traces & tail & Hs & Hf & Ho);
    [|done|done|apply ecbs_item_ok].
  destruct o as [[]|e|]; [|done..]. subst tail. cbn in Hs. subst lg2.
  cbn [on_session_event logged_adapter].
  destruct (on_session_event a2 End_) as [[?|e] a3]; [|done]. cbn [logged].
  intros [= <- <- <- <-]. rewrite app_nil_r.
  rewrite deliver_push_snd. exists traces. split_and!; [done..|].
  pose proof (traces_balance _ _ Hf) as Hbal.
  change (CEvent Begin :: concat traces ++ [CEvent End_])
    with ([CEvent Begin] ++ concat traces ++ [CEvent End_]).
  rewrite !attach_ids_app, !detach_ids_app. cbn. by rewrite !app_nil_r.
Qed.

(** An accepted ECB had every action of its chain recorded, once each, in
    chain order, under its own probe id. *)
Theorem accepted_chain_recorded {A} `{KernelAdapter A} (b : bytes) view ecb (a a' : A)
    lg id :
  slice_len_ok b -> parse_blob b = Ret view -> ecb_ok ecb ->
  drive_one view ecb (a, []) = (Ret (Accepted id), (a', lg)) ->
  exists l, walk_actions log_action view ecb [] = (Ret tt, l) /\
    len l = action_count ecb /\
    record_calls lg = map (fun '(_, d) => (id, d)) l.
Proof.
  intros Hb [Hwf Hv]%parse_blob_wf (_ & _ & Hc) Hd. subst b.
  destruct (drive_one_chain _ _ _ _ _ _ Hc Hd) as (l & pre & Hw & -> & Hn & _).
  exists l. split_and!; [done| |].
  - apply walk_actions_visits in Hw as [? _]; [done|]. destruct Hc; lia.
  - by rewrite record_calls_app, Hn, record_calls_map.
Qed.

(** No ECB whose chain holds an aggregation action is ever accepted: the
    driver looks for the aggregation kind in bits 8 and up of a word that
    the action kind has already fixed to 0x700..0x7ff. *)
Theorem aggregation_chain_never_accepted {A} `{KernelAdapter A} (b : bytes) view ecb
    (a : A) l i d :
  slice_len_ok b -> parse_blob b = Ret view -> ecb_ok ecb ->
  walk_actions log_action view ecb [] = (Ret tt, l) ->
  (i, d) ∈ l -> act_kind d = AggSentinel ->
  forall id, fst (drive_one view ecb (a, [])) <> Ret (Accepted id).
Proof.
  intros Hb [Hwf Hv]%parse_blob_wf (_ & _ & Hc) Hw Hin Hk id Hd. subst b.
  destruct (drive_one view ecb (a, [])) as [o [a' lg]] eqn:D. simpl in Hd. subst o.
  destruct (drive_one_chain _ _ _ _ _ _ Hc D) as (l' & pre & Hw' & _ & _ & Hf).
  rewrite Hw in Hw'. simplify_eq. rewrite list.Forall_forall in Hf.
  by destruct (Hf _ Hin).
Qed.

(** ** Concrete sessions *)

Definition agg_dof : bytes :=
  sample_dof (sample_action 0x0703 0 7) (sample_ecb 1 0 2 0 1).

(** An action row of an unknown kind ends the session with an error: the
    ECB gets no verdict, no [End] event is sent, and its probe is left
    attached. *)
Theorem unknown_action_leaves_probe_attached :
  match parse_blob (sample_dof (sample_action 0x99 0 7) (sample_ecb 1 0 2 0 1)) with
  | Ret view =>
      let '(o, ((_, lg), statuses)) := drive push_status view ((stub_new, []), []) in
      o = Throw (UnknownActionKind 0x99) /\ statuses = [] /\
      attach_ids lg = [1] /\ detach_ids lg = [] /\ ~ In (CEvent End_) lg
  | _ => False
  end.
Proof. vm_compute. intuition congruence. Qed.

Definition sample_descriptor : EcbDescriptor :=
  {| probe_section := 1; probe_index := 0; pred_section := 0;
     action_section := 2; action_first := 0; action_count := 1 |}.

Lemma sample_descriptor_ok : ecb_ok sample_descriptor.
Proof. unfold ecb_ok, in_u. simpl. lia. Qed.

(** The sample blob parsed, by evaluation. *)
Ltac sample_view b view E :=
  destruct (parse_blob b) as [view|?|] eqn:E;
  [|exfalso; vm_compute in E; discriminate..].
Ltac by_eval E :=
  let Hv := fresh in pose proof E as Hv; vm_compute in Hv; injection Hv as <-;
  vm_compute; try reflexivity.

Lemma drive_no_panic_witness :
  exists view, parse_blob trace_dof = Ret view /\
    fst (drive push_status view (stub_new, [])) <> Panic.
Proof.
  sample_view trace_dof view E. exists view. split; [reflexivity|].
  apply (drive_no_panic push_status trace_dof view stub_new []); [|exact E|].
  - vm_compute. reflexivity.
  - by_eval E. discriminate.
Defined.

Lemma drive_refines_spec_witness :
  exists view, parse_blob trace_dof = Ret view /\
    drive push_status view (stub_new, []) = drive_spec push_status view (stub_new, []).
Proof.
  sample_view trace_dof view E. exists view. split; [reflexivity|].
  apply (drive_refines_spec push_status trace_dof view stub_new []); [exact E|].
  by_eval E. discriminate.
Defined.

Lemma drive_reports_every_ecb_witness :
  exists view a statuses n, drive push_status view (stub_new, []) = (Ret n, (a, statuses)) /\
    map fst statuses = map Z.of_nat (seq 0 (length (ecbs view))) /\
    n = count_accepted (map snd statuses) /\ n = 1.
Proof.
  sample_view trace_dof view E.
  set (a := {| attached := 1; records := 1; aggs := 0 |}).
  assert (D : drive push_status view (stub_new, []) = (Ret 1, (a, [(0, Accepted 1)])))
    by by_eval E.
  exists view, a, [(0, Accepted 1)], 1. split; [exact D|].
  destruct (drive_reports_every_ecb trace_dof view stub_new a [(0, Accepted 1)] 1 E) as [H1 H2];
    [by_eval E; discriminate|exact D|].
  split_and!; [exact H1|exact H2|reflexivity].
Defined.

Lemma drive_probe_discipline_witness :
  exists view a lg statuses n,
    drive push_status view ((stub_new, []), []) = (Ret n, ((a, lg), statuses)) /\
    attach_ids lg ≡ₚ detach_ids lg ++ accepted_ids (map snd statuses) /\
    attach_ids lg = [1].
Proof.
  sample_view agg_dof view E.
  destruct (drive push_status view ((stub_new, @nil call_rec), @nil (Z * EcbStatus))) as [o [[a lg] statuses]] eqn:D.
  assert (Hn : o = Ret 0) by (revert D; by_eval E; congruence). subst o.
  exists view, a, lg, statuses, 0. split; [exact D|].
  destruct (drive_probe_discipline agg_dof view stub_new a statuses lg 0)
    as (traces & H1 & H2 & H3); [vm_compute; reflexivity|exact E| |exact D|].
  - by_eval E. discriminate.
  - split; [exact H3|]. clear H1 H2 H3. revert D. by_eval E. by intros [= <- <- <-].
Defined.

Lemma accepted_chain_recorded_witness :
  exists view (a : StubAdapter) (lg : list call_rec) (l : list (Z * ActionDescriptor)),
    drive_one view sample_descriptor (stub_new, []) = (Ret (Accepted 1), (a, lg)) /\
    len l = 1 /\ record_calls lg = map (fun '(_, d) => (1, d)) l.
Proof.
  sample_view trace_dof view E.
  destruct (drive_one view sample_descriptor (stub_new, @nil call_rec)) as [o [a lg]] eqn:D.
  assert (Hn : o = Ret (Accepted 1)) by (revert D; by_eval E; congruence). subst o.
  destruct (accepted_chain_recorded trace_dof view sample_descriptor stub_new a lg 1)
    as (l & _ & H1 & H2); [vm_compute; reflexivity|exact E|apply sample_descriptor_ok
    |exact D|].
  exists view, a, lg, l. auto.
Defined.

Lemma aggregation_chain_never_accepted_witness :
  exists view (l : list (Z * ActionDescriptor)) d, walk_actions log_action view sample_descriptor [] = (Ret tt, l) /\
    (0, d) ∈ l /\
    forall id, fst (drive_one view sample_descriptor (stub_new, @nil call_rec)) <> Ret (Accepted id).
Proof.
  sample_view agg_dof view E.
  set (d := {| act_kind := AggSentinel; act_kind_raw := 0x703; difo_section := 0;
               arg := 7; uarg := 0 |}).
  assert (W : walk_actions log_action view sample_descriptor [] = (Ret tt, [(0, d)]))
    by by_eval E.
  exists view, [(0, d)], d. split; [exact W|].
  assert (Hin : (0, d) ∈ [(0, d)]) by by left. split; [exact Hin|].
  apply (aggregation_chain_never_accepted agg_dof view sample_descriptor stub_new
    [(0, d)] 0 d); [vm_compute; reflexivity|exact E|apply sample_descriptor_ok|exact W
    |exact Hin|reflexivity].
Defined.
