(* ===== verification/Merge.v ===== *)
(** The cross-target merge layer (host/bifrost/src/merge.rs): the N-ring
    merger that releases records of several guests in one order, and the
    reducer that folds their aggregation snapshots.

    Strings are their bytes.  [push] panics out of range; an overflowing
    [+=] of a checked build panics. *)

From stdpp Require Import relations.
From S2P Require Import Ordered Prelude.

Local Open Scope Z_scope.

(** ** The N-ring merger *)

Record TaggedRecord : Type := {
  target_id : bytes;
  gns : Z;
  source_seq : Z;
  payload : bytes
}.

Definition DEFAULT_LOOKBACK_NS : Z := 50000000.

Record SourceState : Type := {
  source_id : bytes;
  queue : list TaggedRecord
}.

Record MergedRing : Type := {
  sources : list SourceState;
  lookback_ns : Z
}.

Definition new (target_ids : list bytes) (lookback : Z) : MergedRing :=
  {| sources := map (fun id => {| source_id := id; queue := [] |}) target_ids;
     lookback_ns := lookback |}.
Definition with_default_lookback (target_ids : list bytes) : MergedRing :=
  new target_ids DEFAULT_LOOKBACK_NS.

Definition target_ids (m : MergedRing) : list bytes := map source_id (sources m).

Definition push {E} (source_idx : nat) (gns source_seq : Z) (payload : bytes) (m : MergedRing)
  : outcome E MergedRing :=
  match sources m !! source_idx with
  | None => Panic
  | Some src =>
      let r := {| target_id := source_id src; gns := gns; source_seq := source_seq;
                  payload := payload |} in
      Ret {| sources := <[source_idx := {| source_id := source_id src; queue := queue src ++ [r] |}]>
                          (sources m);
             lookback_ns := lookback_ns m |}
  end.

(** [iter().position(...)]. *)
Fixpoint position {A} (f : A -> bool) (l : list A) : option nat :=
  match l with
  | [] => None
  | x :: l => if f x then Some O else option_map S (position f l)
  end.

Definition push_by_id {E} (id : bytes) (gns source_seq : Z) (payload : bytes) (m : MergedRing)
  : outcome E (bool * MergedRing) :=
  match position (fun s => bool_decide (source_id s = id)) (sources m) with
  | None => Ret (false, m)
  | Some idx => m ← push idx gns source_seq payload m; Ret (true, m)
  end.

(** The tuple records are ordered by. *)
Definition record_key (r : TaggedRecord) : Z * (bytes * Z) :=
  (gns r, (target_id r, source_seq r)).

(** The scan for the source whose head is the least, the first one of equal
    heads: its index and its head. *)
Fixpoint best_head (i : nat) (l : list SourceState) (best : option (nat * TaggedRecord))
  : option (nat * TaggedRecord) :=
  match l with
  | [] => best
  | src :: l =>
      best_head (S i) l
        (match queue src, best with
         | [], _ => best
         | head :: _, None => Some (i, head)
         | head :: _, Some (b, bhead) =>
             match cmp (record_key head) (record_key bhead) with
             | Lt => Some (i, head)
             | _ => best
             end
         end)
  end.

Definition pop_front (s : SourceState) : SourceState :=
  {| source_id := source_id s; queue := tail (queue s) |}.

(** The loop of [drain_eligible]; every pass that goes on takes a record.
    [None]: still running after [fuel] passes. *)
Fixpoint drain_loop (fuel : nat) (cutoff : Z) (l : list SourceState)
  : option (list TaggedRecord * list SourceState) :=
  match fuel with
  | O => None
  | S fuel =>
      match best_head 0 l None with
      | None => Some ([], l)
      | Some (i, head) =>
          if cutoff <? gns head then Some ([], l)
          else
            match drain_loop fuel cutoff (alter pop_front i l) with
            | Some (out, l) => Some (head :: out, l)
            | None => None
            end
      end
  end.

Definition pending (m : MergedRing) : nat := sum_list (map (fun s => length (queue s)) (sources m)).

Definition drain_eligible (now_ns : Z) (m : MergedRing) : option (list TaggedRecord * MergedRing) :=
  let cutoff := saturating_sub now_ns (lookback_ns m) in
  match drain_loop (S (pending m)) cutoff (sources m) with
  | Some (out, l) => Some (out, {| sources := l; lookback_ns := lookback_ns m |})
  | None => None
  end.

Definition buffered (l : list SourceState) : list TaggedRecord := flat_map queue l.

Definition drain_all (m : MergedRing) : list TaggedRecord * MergedRing :=
  (sort_by_key record_key (buffered (sources m)),
   {| sources := map (fun s => {| source_id := source_id s; queue := [] |}) (sources m);
      lookback_ns := lookback_ns m |}).

(** *** The scan *)

(** [best_head] with the sources before [i] already seen. *)
Definition least_of (l1 : list TaggedRecord) (h : TaggedRecord) (l2 : list TaggedRecord) : Prop :=
  Forall (fun r => cmp (record_key h) (record_key r) = Lt) l1 /\
  Forall (fun r => key_le (record_key h) (record_key r)) l2.

Definition heads (l : list SourceState) : list TaggedRecord :=
  omap (fun s => head (queue s)) l.

Lemma heads_app l1 l2 : heads (l1 ++ l2) = heads l1 ++ heads l2.
Proof. apply omap_app. Qed.

(** What the scan holds: the first least head among those seen. *)
Definition best_ok (seen : list SourceState) (best : option (nat * TaggedRecord)) : Prop :=
  match best with
  | None => heads seen = []
  | Some (i, h) =>
      exists l1 s l2 q, seen = l1 ++ s :: l2 /\ length l1 = i /\ queue s = h :: q /\
        least_of (heads l1) h (heads l2)
  end.

Lemma best_head_ok l : forall seen best,
  best_ok seen best -> best_ok (seen ++ l) (best_head (length seen) l best).
Proof.
  induction l as [|s l IH]; intros seen best H; simpl; [by rewrite app_nil_r|].
  replace (seen ++ s :: l) with ((seen ++ [s]) ++ l) by (by rewrite <- app_assoc).
  replace (S (length seen)) with (length (seen ++ [s])) by (rewrite length_app; simpl; lia).
  apply IH. destruct (queue s) as [|h q] eqn:Hq.
  - destruct best as [[i h]|]; simpl in *.
    + destruct H as (l1 & s1 & l2 & q & -> & Hi & Hs & H1 & H2).
      exists l1, s1, (l2 ++ [s]), q. rewrite <- app_assoc. split; [done|]. split; [done|].
      split; [done|]. split; [done|]. rewrite heads_app. simpl. rewrite Hq. simpl. by rewrite app_nil_r.
    + rewrite heads_app, H. simpl. by rewrite Hq.
  - destruct best as [[i b]|]; simpl in H.
    + destruct H as (l1 & s1 & l2 & q1 & -> & Hi & Hs & H1 & H2).
      destruct (cmp (record_key h) (record_key b)) eqn:Hc; simpl.
      2: { exists (l1 ++ s1 :: l2), s, [], q. split; [done|]. split; [done|]. split; [done|].
           split; [|constructor]. rewrite heads_app. simpl. rewrite Hs. simpl.
           apply Forall_app. split; [|constructor; [done|]];
             (eapply list.Forall_impl; [eassumption|]); intros r Hr; cbv beta in *;
             [by eapply cmp_lt_trans|by eapply lt_le_trans]. }
      all: exists l1, s1, (l2 ++ [s]), q1; rewrite <- app_assoc; split; [done|]; split; [done|];
           split; [done|]; split; [done|]; rewrite heads_app; simpl; rewrite Hq; simpl;
           apply Forall_app; split; [done|]; constructor; [|done]; unfold key_le;
           rewrite (cmp_flip (record_key h) (record_key b)), Hc; done.
    + exists seen, s, [], q. split; [done|]. split; [done|]. split; [done|]. split; [|constructor].
      by rewrite H.
Qed.

(** What the whole scan finds. *)
Lemma best_head_spec l :
  match best_head 0 l None with
  | None => buffered l = []
  | Some (i, h) =>
      exists l1 s l2 q, l = l1 ++ s :: l2 /\ length l1 = i /\ queue s = h :: q /\
        least_of (heads l1) h (heads l2)
  end.
Proof.
  pose proof (best_head_ok l [] None eq_refl) as H. simpl in H.
  destruct (best_head 0 l None) as [[i h]|]; [exact H|].
  simpl in H. induction l as [|s l IH]; [done|]. simpl in *.
  unfold heads in H. simpl in H. destruct (queue s); [by apply IH|done].
Qed.

Lemma pending_pop l1 s l2 h q lb : queue s = h :: q ->
  pending {| sources := l1 ++ s :: l2; lookback_ns := lb |}
    = S (pending {| sources := l1 ++ pop_front s :: l2; lookback_ns := lb |}).
Proof.
  intros Hq. unfold pending, pop_front. simpl. rewrite !map_app. simpl. rewrite Hq. simpl.
  induction (map (fun s => length (queue s)) l1) as [|n l IH]; simpl; lia.
Qed.

(** *** The loop *)

(** What a drain does to one source: the records it takes are a prefix of
    its queue. *)
Definition took (out : list TaggedRecord) (s s' : SourceState) : Prop :=
  source_id s' = source_id s /\
  queue s = filter (fun r => target_id r = source_id s) out ++ queue s'.

(** Records carry the id of the source they were pushed on, and the ids are
    distinct: what [push] and a plan's target list give. *)
Definition stamped (l : list SourceState) : Prop :=
  NoDup (map source_id l) /\
  Forall (fun s => Forall (fun r => target_id r = source_id s) (queue s)) l.

(** No record of the queues' fronts is eligible. *)
Definition all_wait (cutoff : Z) (l : list SourceState) : Prop :=
  Forall (fun s => Forall (fun r => cutoff < gns r) (take 1 (queue s))) l.

Lemma alter_middle {A} (f : A -> A) l1 x l2 :
  alter f (length l1) (l1 ++ x :: l2) = l1 ++ f x :: l2.
Proof.
  rewrite list_alter_app_r || rewrite alter_app_r_alt by lia. by rewrite Nat.sub_diag.
Qed.

Lemma stamped_pop l1 s l2 : stamped (l1 ++ s :: l2) -> stamped (l1 ++ pop_front s :: l2).
Proof.
  unfold stamped. rewrite !map_app. simpl. intros [Hn Hf]. split; [done|].
  apply Forall_app in Hf as [H1 H2]. apply list.Forall_cons in H2 as [Hs H2].
  apply Forall_app. split; [done|]. constructor; [|done]. simpl.
  destruct (queue s); [done|]. by apply list.Forall_cons in Hs as [_ Hs].
Qed.

Lemma min_gns_waits cutoff l h :
  cutoff < gns h -> Forall (fun r => key_le (record_key h) (record_key r)) (heads l) ->
  all_wait cutoff l.
Proof.
  intros Hc H. induction l as [|s l IH]; [constructor|]. unfold heads in H. simpl in H.
  constructor; [|apply IH; destruct (queue s); [done|]; by apply list.Forall_cons in H as [_ H]].
  destruct (queue s) as [|r q]; [constructor|]. apply list.Forall_cons in H as [H _].
  constructor; [|constructor]. apply key_le_cases in H as [H|H].
  - unfold cmp, ordered_prod, record_key in H. simpl in H.
    unfold cmp at 1, ordered_Z in H. destruct (Z.compare_spec (gns h) (gns r)); simpl in H; lia || done.
  - injection H as H _ _. lia.
Qed.

Lemma least_waits cutoff l1 s l2 h q :
  cutoff < gns h -> queue s = h :: q -> least_of (heads l1) h (heads l2) ->
  all_wait cutoff (l1 ++ s :: l2).
Proof.
  intros Hc Hq [H1 H2]. eapply min_gns_waits; [exact Hc|]. rewrite heads_app.
  apply Forall_app. split.
  - eapply list.Forall_impl; [exact H1|]. intros r. apply lt_key_le.
  - unfold heads at 1. simpl. rewrite Hq. simpl. constructor; [apply key_le_refl|done].
Qed.

(** Fuel: one pass more than there are records. *)
Lemma drain_loop_total cutoff fuel : forall l,
  (pending {| sources := l; lookback_ns := 0 |} < fuel)%nat -> drain_loop fuel cutoff l <> None.
Proof.
  induction fuel as [|fuel IH]; intros l Hf; [lia|]. simpl.
  pose proof (best_head_spec l) as H. destruct (best_head 0 l None) as [[i h]|]; [|done].
  destruct H as (l1 & s & l2 & q & -> & <- & Hq & _). destruct (cutoff <? gns h); [done|].
  rewrite alter_middle. rewrite (pending_pop _ _ _ _ _ _ Hq) in Hf.
  specialize (IH (l1 ++ pop_front s :: l2) ltac:(lia)).
  by destruct (drain_loop fuel cutoff _) as [[out l']|].
Qed.

Lemma Forall2_impl_in {A B} (P Q : A -> B -> Prop) l l' :
  Forall2 P l l' -> (forall x y, In x l -> P x y -> Q x y) -> Forall2 Q l l'.
Proof. induction 1 as [|x y l l' Hxy _ IH]; intros H; constructor; [apply H; [by left|done]|auto using in_cons]. Qed.

Lemma drain_loop_took cutoff fuel : forall l out l',
  stamped l -> drain_loop fuel cutoff l = Some (out, l') ->
  Forall2 (took out) l l' /\ Forall (fun r => gns r <= cutoff) out /\ all_wait cutoff l' /\
  Forall (fun r => In (target_id r) (map source_id l)) out.
Proof.
  induction fuel as [|fuel IH]; intros l out l' Hst H; [done|]. simpl in H.
  pose proof (best_head_spec l) as Hb. destruct (best_head 0 l None) as [[i h]|].
  2: { injection H as <- <-. split; [|split; [constructor|split; [|constructor]]].
       - clear. induction l; constructor; auto. by split.
       - clear -Hb. induction l as [|s l IHl]; [constructor|]. simpl in Hb.
         apply app_eq_nil in Hb as [Hs Hl]. constructor; [by rewrite Hs|by apply IHl]. }
  destruct Hb as (l1 & s & l2 & q & -> & <- & Hq & Hl).
  destruct (Z.ltb_spec cutoff (gns h)) as [Hc|Hc].
  { injection H as <- <-. split; [|split; [constructor|split; [by eapply least_waits|constructor]]].
    clear. induction (l1 ++ s :: l2); constructor; auto. by split. }
  rewrite alter_middle in H. destruct (drain_loop fuel cutoff _) as [[out' l2']|] eqn:Hr; [|done].
  injection H as <- <-. destruct (IH _ _ _ (stamped_pop _ _ _ Hst) Hr) as (Ht & Hle & Hw & Hin).
  assert (Hids : map source_id (l1 ++ pop_front s :: l2) = map source_id (l1 ++ s :: l2))
    by (rewrite !map_app; done).
  rewrite Hids in Hin. destruct Hst as [Hn Hst].
  pose proof Hst as Hst'. apply Forall_app in Hst' as [Hs1 Hs2]. apply list.Forall_cons in Hs2 as [Hs Hs2].
  rewrite Hq in Hs. apply list.Forall_cons in Hs as [Hh _].
  split; [|split; [by constructor|split; [done|]]].
  2: { constructor; [|done]. rewrite map_app. apply in_or_app. right. left. done. }
  apply Forall2_app_inv_l in Ht as (m1 & m2 & Ht1 & Ht2 & ->).
  inversion Ht2 as [|? s' ? m2' Hts Ht2' ]; subst. rewrite map_app in Hn. simpl in Hn.
  apply list.NoDup_app in Hn as (Hn1 & Hn12 & Hn2). apply list.NoDup_cons in Hn2 as [Hn2 _].
  assert (Hother : forall x x', source_id x <> source_id s -> took out' x x' -> took (h :: out') x x').
  { intros x x' Hne [Hi Hx]. split; [done|]. rewrite filter_cons_False; [done|].
    rewrite Hh. intros He. by apply Hne. }
  apply Forall2_app; [|constructor].
  - eapply Forall2_impl_in; [exact Ht1|]. intros x x' Hx. apply Hother. intros He.
    apply (Hn12 (source_id s)); [rewrite <- He; by apply list_elem_of_In, in_map|by left].
  - destruct Hts as [Hi Hx]. simpl in Hi, Hx. split; [done|]. rewrite Hq in *. simpl in Hx.
    rewrite filter_cons_True by done. simpl. by rewrite <- Hx.
  - eapply Forall2_impl_in; [exact Ht2'|]. intros x x' Hx. apply Hother. intros He.
    apply Hn2. rewrite <- He. by apply list_elem_of_In, in_map.
Qed.

(** *** Sources in order *)

(** Every source's queue is in key order: what monotone producers give. *)
Definition in_order (l : list SourceState) : Prop :=
  Forall (fun s => sorted_by record_key (queue s)) l.

Lemma in_order_pop l1 s l2 : in_order (l1 ++ s :: l2) -> in_order (l1 ++ pop_front s :: l2).
Proof.
  unfold in_order. rewrite !Forall_app, !list.Forall_cons. intros (H1 & Hs & H2).
  split; [done|]. split; [|done]. simpl. destruct (queue s); [done|]. by inversion Hs.
Qed.

Lemma buffered_app l1 l2 : buffered (l1 ++ l2) = buffered l1 ++ buffered l2.
Proof. apply flat_map_app. Qed.

(** A bound on the heads bounds the queues. *)
Lemma heads_bound (P : TaggedRecord -> Prop) l :
  (forall x y, P x -> key_le (record_key x) (record_key y) -> P y) ->
  in_order l -> Forall P (heads l) -> Forall P (buffered l).
Proof.
  intros HP. induction 1 as [|s l Hs Hl IH]; intros H; [constructor|].
  unfold heads in H. unfold buffered. simpl in *. apply Forall_app.
  destruct Hs as [|h q Hs Hq]; simpl in *; [by split; [|apply IH]|].
  apply list.Forall_cons in H as [Hh H]. split; [|by apply IH].
  constructor; [done|]. eapply list.Forall_impl; [exact Hq|]. eauto.
Qed.

Lemma sort_pop l1 s l2 h q :
  in_order (l1 ++ s :: l2) -> queue s = h :: q -> least_of (heads l1) h (heads l2) ->
  sort_by_key record_key (buffered (l1 ++ s :: l2))
    = h :: sort_by_key record_key (buffered (l1 ++ pop_front s :: l2)).
Proof.
  intros Ho Hq [H1 H2]. unfold in_order in Ho. rewrite Forall_app, list.Forall_cons in Ho.
  destruct Ho as (Ho1 & Hs & Ho2). rewrite !buffered_app. simpl. rewrite Hq in *.
  apply sort_by_key_min.
  - apply (heads_bound _ l1); [|done|done]. intros x y. apply lt_le_trans.
  - inversion Hs as [|? ? _ Hx]; subst. apply Forall_app. split; [done|].
    apply (heads_bound _ l2); [|done|done]. intros x y. apply key_le_trans.
Qed.

Lemma waits_in_order cutoff l :
  in_order l -> all_wait cutoff l -> Forall (fun r => cutoff < gns r) (buffered l).
Proof.
  intros Ho Hw. apply heads_bound; [|done|].
  - intros x y Hx Hk. apply key_le_cases in Hk as [H|H].
    + unfold cmp, ordered_prod, record_key in H. simpl in H. unfold cmp at 1, ordered_Z in H.
      destruct (Z.compare_spec (gns x) (gns y)); simpl in H; lia || done.
    + injection H as H _ _. lia.
  - clear Ho. induction Hw as [|s l Hs Hw IH]; [constructor|]. unfold heads. simpl.
    destruct (queue s); [done|]. simpl in *. apply list.Forall_cons in Hs as [Hs _]. by constructor.
Qed.

Lemma drain_loop_sorted cutoff fuel : forall l out l',
  in_order l -> drain_loop fuel cutoff l = Some (out, l') ->
  sort_by_key record_key (buffered l) = out ++ sort_by_key record_key (buffered l') /\
  in_order l' /\ Forall (fun r => gns r <= cutoff) out /\ all_wait cutoff l'.
Proof.
  induction fuel as [|fuel IH]; intros l out l' Ho H; [done|]. simpl in H.
  pose proof (best_head_spec l) as Hb. destruct (best_head 0 l None) as [[i h]|].
  2: { injection H as <- <-. split; [done|]. split; [done|]. split; [constructor|].
       clear -Hb. induction l as [|s l IHl]; [constructor|]. simpl in Hb.
       apply app_eq_nil in Hb as [Hs Hl]. constructor; [by rewrite Hs|by apply IHl]. }
  destruct Hb as (l1 & s & l2 & q & -> & <- & Hq & Hl).
  destruct (Z.ltb_spec cutoff (gns h)) as [Hc|Hc].
  { injection H as <- <-. split; [done|]. split; [done|]. split; [constructor|by eapply least_waits]. }
  rewrite alter_middle in H. destruct (drain_loop fuel cutoff _) as [[out' l2']|] eqn:Hr; [|done].
  injection H as <- <-. destruct (IH _ _ _ (in_order_pop _ _ _ Ho) Hr) as (Hs & Ho' & Hle & Hw).
  rewrite (sort_pop _ _ _ _ _ Ho Hq Hl), Hs. split; [done|]. split; [done|]. split; [by constructor|done].
Qed.

Lemma pending_lookback l a b :
  pending {| sources := l; lookback_ns := a |} = pending {| sources := l; lookback_ns := b |}.
Proof. done. Qed.

(** [drain_eligible] ends. *)
Lemma drain_total now m : exists out l,
  drain_eligible now m = Some (out, {| sources := l; lookback_ns := lookback_ns m |}) /\
  drain_loop (S (pending m)) (saturating_sub now (lookback_ns m)) (sources m) = Some (out, l).
Proof.
  unfold drain_eligible.
  destruct (drain_loop (S (pending m)) _ (sources m)) as [[out l]|] eqn:H; [by exists out, l|].
  exfalso. eapply drain_loop_total; [|exact H]. rewrite (pending_lookback _ 0 (lookback_ns m)).
  destruct m; simpl. lia.
Qed.

(** draining ends, and whatever the timestamps are it loses, invents and
    reorders nothing within a source: the records of a source among those
    released, in order, followed by what is left of its queue, are its queue;
    every released record is outside the lookback window, and no queue is
    left with such a record at its front. *)
Theorem drain_keeps_sources now m :
  stamped (sources m) ->
  exists out m', drain_eligible now m = Some (out, m') /\
    Forall2 (took out) (sources m) (sources m') /\
    Forall (fun r => In (target_id r) (target_ids m)) out /\
    Forall (fun r => gns r <= saturating_sub now (lookback_ns m)) out /\
    all_wait (saturating_sub now (lookback_ns m)) (sources m').
Proof.
  intros Hst. destruct (drain_total now m) as (out & l & Hd & Hl).
  destruct (drain_loop_took _ _ _ _ _ Hst Hl) as (Ht & Hle & Hw & Hin).
  eexists out, _. split; [exact Hd|]. simpl. auto.
Qed.

(** C32: with each source in order, the head-picking loop is the stable sort:
    what [drain_eligible] releases, followed by what [drain_all] would then
    flush, is what [drain_all] would have flushed at once; the split is at
    the cutoff. *)
Theorem drain_is_stable_sort now m :
  in_order (sources m) ->
  exists out m', drain_eligible now m = Some (out, m') /\
    fst (drain_all m) = out ++ fst (drain_all m') /\
    out = filter (fun r => gns r <= saturating_sub now (lookback_ns m)) (fst (drain_all m)) /\
    in_order (sources m') /\
    Forall (fun r => saturating_sub now (lookback_ns m) < gns r) (buffered (sources m')).
Proof.
  intros Ho. destruct (drain_total now m) as (out & l & Hd & Hl).
  destruct (drain_loop_sorted _ _ _ _ _ Ho Hl) as (Hs & Ho' & Hle & Hw).
  pose proof (waits_in_order _ _ Ho' Hw) as Hgt.
  eexists out, _. split; [exact Hd|]. simpl. split; [done|]. split; [|done].
  rewrite Hs, list.filter_app. symmetry. rewrite <- (app_nil_r out) at 2. f_equal.
  - clear -Hle. induction Hle as [|r out Hr _ IH]; [done|]. by rewrite filter_cons_True, IH.
  - rewrite <- (sort_by_key_perm record_key) in Hgt. clear -Hgt.
    induction Hgt as [|r q Hr _ IH]; [done|]. rewrite filter_cons_False; [done|lia].
Qed.

(** *** A session of pushes and drains *)

(** The merger with what was released so far, what was pushed, and the
    latest cutoff. *)
Record MergeSession : Type := {
  ring : MergedRing;
  released : list TaggedRecord;
  pushed : list TaggedRecord;
  horizon : Z
}.

(** A source pushes in its own key order, and no later than the lookback
    allows: a record is not older than a cutoff already used.  Drains come
    at any time. *)
Inductive merge_step : MergeSession -> MergeSession -> Prop :=
| step_push s idx src g q p r ring' :
    sources (ring s) !! idx = Some src ->
    r = {| target_id := source_id src; gns := g; source_seq := q; payload := p |} ->
    horizon s < g ->
    Forall (fun x => key_le (record_key x) (record_key r)) (queue src) ->
    push (E:=Empty_set) idx g q p (ring s) = Ret ring' ->
    merge_step s {| ring := ring'; released := released s; pushed := pushed s ++ [r];
                    horizon := horizon s |}
| step_drain s now out ring' :
    drain_eligible now (ring s) = Some (out, ring') ->
    merge_step s {| ring := ring'; released := released s ++ out; pushed := pushed s;
                    horizon := Z.max (horizon s) (saturating_sub now (lookback_ns (ring s))) |}.

Definition merge_start (ids : list bytes) (lookback : Z) : MergeSession :=
  {| ring := new ids lookback; released := []; pushed := []; horizon := -1 |}.

Record merge_inv (s : MergeSession) : Prop := {
  mi_order : in_order (sources (ring s));
  mi_sorted : sorted_by record_key (released s);
  mi_out : Forall (fun r => gns r <= horizon s) (released s);
  mi_in : Forall (fun r => horizon s < gns r) (buffered (sources (ring s)));
  mi_all : released s ++ buffered (sources (ring s)) ≡ₚ pushed s
}.

Lemma gns_lt_key x y : gns x < gns y -> key_le (record_key x) (record_key y).
Proof.
  intros H. apply lt_key_le. unfold cmp, ordered_prod, record_key. simpl.
  unfold cmp at 1, ordered_Z. by rewrite (proj2 (Z.compare_lt_iff _ _) H).
Qed.

Lemma split_horizon h l1 l2 :
  sorted_by record_key l1 -> sorted_by record_key l2 ->
  Forall (fun r => gns r <= h) l1 -> Forall (fun r => h < gns r) l2 ->
  sorted_by record_key (l1 ++ l2).
Proof.
  intros H1 H2 Hl Hr. apply sorted_by_app; [done..|].
  eapply list.Forall_impl; [exact Hl|]. intros x Hx. eapply list.Forall_impl; [exact Hr|].
  intros y Hy. apply gns_lt_key. simpl in *. lia.
Qed.

Lemma buffered_push l1 src l2 r :
  buffered (l1 ++ {| source_id := source_id src; queue := queue src ++ [r] |} :: l2)
    ≡ₚ buffered (l1 ++ src :: l2) ++ [r].
Proof.
  rewrite !buffered_app. simpl. rewrite <- !app_assoc. apply Permutation_app_head, Permutation_app_head.
  apply Permutation_app_comm.
Qed.

Lemma merge_inv_step s s' : merge_inv s -> merge_step s s' -> merge_inv s'.
Proof.
  intros [Ho Hs Hout Hin Hall] H.
  destruct H as [s idx src g q p r ring' Hsrc Hr Hg Hq Hp|s now out ring' Hd].
  - unfold push in Hp. rewrite Hsrc in Hp. injection Hp as <-. rewrite <- Hr.
    apply list_elem_of_split_length in Hsrc as (l1 & l2 & Hl & Hi). subst idx.
    rewrite Hl in *. split; cbn [ring sources released pushed horizon]; try done;
      rewrite insert_app_r_alt, Nat.sub_diag by lia; cbn [insert list_insert].
    + unfold in_order in *. rewrite !Forall_app, !list.Forall_cons in *. destruct Ho as (H1 & H2 & H3).
      split; [done|]. split; [|done]. simpl. apply sorted_by_app; [done|repeat constructor|].
      eapply list.Forall_impl; [exact Hq|]. intros x Hx. by constructor.
    + rewrite buffered_push. apply Forall_app. split; [done|]. constructor; [by rewrite Hr|done].
    + by rewrite buffered_push, app_assoc, Hall.
  - destruct (drain_is_stable_sort now (ring s) Ho) as (out' & m' & Hd' & Hsp & Hf & Ho' & Hgt).
    rewrite Hd in Hd'. injection Hd' as <- <-. cbn [fst drain_all] in Hsp, Hf.
    set (c := saturating_sub now (lookback_ns (ring s))) in *.
    assert (Hperm : buffered (sources (ring s)) ≡ₚ out ++ buffered (sources ring')).
    { rewrite <- (sort_by_key_perm record_key (buffered (sources (ring s)))), Hsp.
      by rewrite sort_by_key_perm. }
    rewrite Hperm in Hin. apply Forall_app in Hin as [Hin1 Hin2].
    split; cbn [ring sources released pushed horizon]; [done| | | |].
    + apply (split_horizon (horizon s)); try done.
      pose proof (sort_by_key_sorted record_key (buffered (sources (ring s)))) as Hss.
      rewrite Hsp in Hss. by apply sorted_by_app_inv in Hss as [Hss _].
    + apply Forall_app. rewrite !list.Forall_forall in *. split; intros x Hx.
      * specialize (Hout x Hx). simpl in *. lia.
      * rewrite Hf in Hx. apply list_elem_of_filter in Hx as [Hx _]. lia.
    + rewrite list.Forall_forall in *. intros x Hx. specialize (Hin2 x Hx). specialize (Hgt x Hx).
      simpl in *. lia.
    + by rewrite <- app_assoc, <- Hperm.
Qed.

(** C31: in every session whose sources push in order and within the
    lookback, however pushes and drains interleave, what was released so far
    followed by a final flush is in (gns, target, sequence) order, and is
    exactly what was pushed. *)
Theorem merged_output_ordered ids lookback s :
  rtc merge_step (merge_start ids lookback) s ->
  sorted_by record_key (released s ++ fst (drain_all (ring s))) /\
  released s ++ fst (drain_all (ring s)) ≡ₚ pushed s.
Proof.
  intros H. assert (Hi : merge_inv s).
  { revert s H. apply rtc_ind_r; [|intros x y _ Hxy Hx; by apply (merge_inv_step x)].
    assert (Hb : buffered (sources (ring (merge_start ids lookback))) = []).
    { simpl. induction ids; [done|]. simpl. done. }
    split; rewrite ?Hb; simpl; try constructor.
    clear. induction ids; simpl; constructor; [constructor|done]. }
  destruct Hi as [Ho Hs Hout Hin Hall]. cbn [fst drain_all].
  split; [|by rewrite sort_by_key_perm].
  apply (split_horizon (horizon s)); [done|apply sort_by_key_sorted|done|].
  by rewrite sort_by_key_perm.
Qed.

(** ** The cross-target aggregation reducer *)

Inductive CrossTargetAggKind : Type := Count | Sum | Min | Max | Quantize | Lquantize.

#[export] Instance agg_kind_eq_dec : EqDecision CrossTargetAggKind.
Proof. solve_decision. Defined.

Inductive CrossTargetAggValue : Type :=
| Scalar (v : Z)
| Histogram (buckets : list (Z * Z)).

Record CrossTargetAggCell : Type := {
  kind : CrossTargetAggKind;
  value : CrossTargetAggValue;
  contributors : btree bytes CrossTargetAggValue
}.

(** The rows, by aggregation name and key tuple. *)
Definition CrossTargetAggReducer : Type := btree (bytes * bytes) CrossTargetAggCell.

Definition I64_MIN : Z := - 2 ^ 63.
Definition I64_MAX : Z := 2 ^ 63 - 1.
Definition add_i64 {E} (a b : Z) : outcome E Z :=
  if (I64_MIN <=? a + b) && (a + b <=? I64_MAX) then Ret (a + b) else Panic.

Definition empty_value (k : CrossTargetAggKind) : CrossTargetAggValue :=
  match k with
  | Count | Sum => Scalar 0
  | Min => Scalar I64_MAX
  | Max => Scalar I64_MIN
  | Quantize | Lquantize => Histogram []
  end.

Definition is_hist (k : CrossTargetAggKind) : bool :=
  match k with Quantize | Lquantize => true | _ => false end.

(** [*merged.entry(bucket).or_insert(0) += count] over the new buckets. *)
Fixpoint add_buckets {E} (v : list (Z * Z)) (merged : btree Z Z) : outcome E (btree Z Z) :=
  match v with
  | [] => Ret merged
  | (bucket, count) :: v =>
      n ← add64 (default 0 (bt_get bucket merged)) count;
      add_buckets v (bt_insert bucket n merged)
  end.

(** The row's value after one contribution of its kind; a value of the
    other shape leaves it. *)
Definition fold_value {E} (k : CrossTargetAggKind) (acc v : CrossTargetAggValue)
  : outcome E CrossTargetAggValue :=
  match k, acc, v with
  | (Count | Sum), Scalar acc, Scalar v => n ← add_i64 acc v; Ret (Scalar n)
  | Min, Scalar acc, Scalar v => Ret (Scalar (Z.min acc v))
  | Max, Scalar acc, Scalar v => Ret (Scalar (Z.max acc v))
  | (Quantize | Lquantize), Histogram acc, Histogram v =>
      merged ← add_buckets v (bt_collect acc); Ret (Histogram merged)
  | _, _, _ => Ret acc
  end.

Definition merge {E} (target_id agg_name key_tuple : bytes) (k : CrossTargetAggKind)
    (v : CrossTargetAggValue) (rows : CrossTargetAggReducer) : outcome E CrossTargetAggReducer :=
  let cell := default {| kind := k; value := empty_value k; contributors := [] |}
                (bt_get (agg_name, key_tuple) rows) in
  let given := bt_insert target_id v (contributors cell) in
  if negb (bool_decide (kind cell = k)) then
    let cell :=
      if is_hist k && negb (is_hist (kind cell))
      then {| kind := k; value := v; contributors := given |}
      else {| kind := kind cell; value := value cell; contributors := given |} in
    Ret (bt_insert (agg_name, key_tuple) cell rows)
  else
    x ← fold_value k (value cell) v;
    Ret (bt_insert (agg_name, key_tuple)
           {| kind := kind cell; value := x; contributors := given |} rows).

Definition is_empty (rows : CrossTargetAggReducer) : bool :=
  match rows with [] => true | _ => false end.

(** *** What a row holds *)

(** The shape a kind's values have. *)
Definition shaped (k : CrossTargetAggKind) (v : CrossTargetAggValue) : Prop :=
  match v with
  | Scalar _ => is_hist k = false
  | Histogram b => is_hist k = true /\ bt_ok b
  end.

(** A value read as a function of the bucket; a scalar has one bucket. *)
Definition reads (v : CrossTargetAggValue) (b : Z) : Z :=
  match v with
  | Scalar n => n
  | Histogram h => default 0 (bt_get b h)
  end.

(** How a kind combines two readings, and what it combines from. *)
Definition combine (k : CrossTargetAggKind) : Z -> Z -> Z :=
  match k with Min => Z.min | Max => Z.max | _ => Z.add end.
Definition neutral (k : CrossTargetAggKind) : Z :=
  match k with Min => I64_MAX | Max => I64_MIN | _ => 0 end.

(** One target's contribution to a row. *)
Definition Contribution : Type := bytes * CrossTargetAggValue.

Fixpoint merge_row {E} (name key : bytes) (k : CrossTargetAggKind) (cs : list Contribution)
    (rows : CrossTargetAggReducer) : outcome E CrossTargetAggReducer :=
  match cs with
  | [] => Ret rows
  | (target, v) :: cs => rows ← merge target name key k v rows; merge_row name key k cs rows
  end.

Lemma bt_collect_ok {V} (l : list (Z * V)) : bt_ok (bt_collect l).
Proof.
  unfold bt_collect. assert (H : bt_ok (K:=Z) (V:=V) []) by constructor. revert H.
  generalize (@nil (Z * V)). induction l as [|[k v] l IH]; intros m H; [done|]. simpl.
  by apply IH, bt_insert_ok.
Qed.

Lemma bt_collect_id {V} (l : list (Z * V)) : bt_ok l -> bt_collect l = l.
Proof.
  intros Hl. unfold bt_collect.
  assert (H : forall m, (forall x y, x ∈ m -> y ∈ l -> key_lt x y) ->
    bt_ok m -> fold_left (fun m kv => bt_insert (fst kv) (snd kv) m) l m = m ++ l).
  { induction Hl as [|[k v] l Hs IH Hx]; intros m Hm Hok; [by rewrite app_nil_r|]. simpl.
    assert (Hi : bt_insert k v m = m ++ [(k, v)]).
    { clear IH. induction Hok as [|[k' v'] m Hs' IH' Hx']; [done|]. simpl.
      assert (Hlt : cmp k' k = Lt) by (apply (Hm (k', v') (k, v)); left).
      rewrite cmp_lt_gt in Hlt. rewrite Hlt. f_equal. apply IH'.
      intros x y Hxm Hy. apply Hm; [by right|done]. }
    rewrite Hi, IH, <- app_assoc; [done| |].
    - intros x y [Hxm|Hxm%list_elem_of_singleton]%elem_of_app Hy; [apply Hm; [done|by right]|].
      subst x. rewrite list.Forall_forall in Hx. by apply Hx.
    - rewrite <- Hi. by apply bt_insert_ok. }
  apply (H []); [|constructor]. intros x y Hx. by apply not_elem_of_nil in Hx.
Qed.

Lemma add_buckets_reads {E} v : forall m,
  bt_ok v -> bt_ok m ->
  (forall b, default 0 (bt_get b m) + default 0 (bt_get b v) <= U64_MAX) ->
  exists m', add_buckets (E:=E) v m = Ret m' /\ bt_ok m' /\
  forall b, default 0 (bt_get b m') = default 0 (bt_get b m) + default 0 (bt_get b v).
Proof.
  induction v as [|[k n] v IH]; intros m Hv Hm Hle; simpl add_buckets.
  - exists m. split; [done|]. split; [done|]. intros b. simpl. lia.
  - inversion Hv as [|? ? Hvs Hx]; subst. unfold add64.
    pose proof (Hle k) as Hk. simpl in Hk. rewrite cmp_refl in Hk. simpl in Hk.
    rewrite (proj2 (Z.leb_le _ _) Hk), bind_Ret.
    assert (Hcons : forall b, default 0 (bt_get b (bt_insert k (default 0 (bt_get k m) + n) m))
                      + default 0 (bt_get b v)
                    = default 0 (bt_get b m) + default 0 (bt_get b ((k, n) :: v))).
    { intros b. destruct (decide (b = k)) as [->|Hne].
      - rewrite bt_get_insert. simpl. rewrite cmp_refl. simpl. rewrite (bt_get_below k v Hx). simpl. lia.
      - rewrite bt_get_insert_ne by done. f_equal. simpl. destruct (cmp b k) eqn:Hc.
        + by apply cmp_eq in Hc.
        + rewrite bt_get_below; [done|]. eapply list.Forall_impl; [exact Hx|].
          intros y. unfold key_lt. simpl. by apply cmp_lt_trans.
        + done. }
    destruct (IH (bt_insert k (default 0 (bt_get k m) + n) m) Hvs (bt_insert_ok k _ m Hm))
      as (m' & Hr & Hok & Hb); [intros b; by rewrite Hcons|].
    exists m'. split; [done|]. split; [done|]. intros b. by rewrite Hb, Hcons.
Qed.

(** No overflow: what the additions of a kind must stay within. *)
Definition in_range (k : CrossTargetAggKind) (n : Z) : Prop :=
  match k with
  | Count | Sum => I64_MIN <= n <= I64_MAX
  | Min | Max => True
  | Quantize | Lquantize => n <= U64_MAX
  end.

Lemma fold_value_reads {E} k acc v :
  shaped k acc -> shaped k v -> (forall b, in_range k (combine k (reads acc b) (reads v b))) ->
  exists x, fold_value (E:=E) k acc v = Ret x /\
    shaped k x /\ forall b, reads x b = combine k (reads acc b) (reads v b).
Proof.
  destruct acc as [a|a], v as [n|h]; intros Ha Hv Hr; simpl in Ha, Hv.
  - exists (Scalar (combine k a n)). split; [|by destruct k].
    specialize (Hr 0). simpl in Hr. destruct k; try discriminate; simpl in *; try done;
      unfold add_i64; rewrite (proj2 (Z.leb_le _ _) (proj1 Hr)), (proj2 (Z.leb_le _ _) (proj2 Hr)); done.
  - destruct Hv as [Hv _]. by rewrite Ha in Hv.
  - destruct Ha as [Ha _]. by rewrite Hv in Ha.
  - destruct Ha as [Hk Ha], Hv as [_ Hv].
    destruct (add_buckets_reads (E:=E) h a Hv Ha) as (m & Hm & Hok & Hb);
      [intros b; specialize (Hr b); by destruct k|].
    exists (Histogram m). destruct k; try discriminate; simpl;
      rewrite bt_collect_id by done; rewrite Hm; done.
Qed.

Lemma empty_value_reads k : shaped k (empty_value k) /\ forall b, reads (empty_value k) b = neutral k.
Proof. destruct k; split; try done; split; done || constructor. Qed.

(** The reading of a bucket after contributions to a row that read [n]. *)
Definition total_from (k : CrossTargetAggKind) (n : Z) (cs : list Contribution) (b : Z) : Z :=
  fold_left (fun acc c => combine k acc (reads (snd c) b)) cs n.

(** What merging contributions to one row does to a cell of its kind. *)
Lemma merge_row_spec {E} name key k cs : forall rows cell,
  bt_ok rows -> Forall (fun c => shaped k (snd c)) cs ->
  default {| kind := k; value := empty_value k; contributors := [] |} (bt_get (name, key) rows) = cell ->
  kind cell = k -> shaped k (value cell) ->
  (forall i b, in_range k (total_from k (reads (value cell) b) (take i cs) b)) -> cs <> [] ->
  exists rows', merge_row (E:=E) name key k cs rows = Ret rows' /\ bt_ok rows' /\
  (forall row, row <> (name, key) -> bt_get row rows' = bt_get row rows) /\
  exists cell', bt_get (name, key) rows' = Some cell' /\ kind cell' = k /\ shaped k (value cell') /\
    (forall b, reads (value cell') b = total_from k (reads (value cell) b) cs b) /\
    contributors cell' = fold_left (fun m c => bt_insert (fst c) (snd c) m) cs (contributors cell).
Proof.
  induction cs as [|[target v] cs IH]; intros rows cell Hok Hcs Hc Hk Hsh Hin Hne; [done|].
  apply list.Forall_cons in Hcs as [Hv Hcs]. simpl in Hv. simpl merge_row. unfold merge.
  rewrite Hc, bool_decide_true by done. cbn [negb].
  destruct (fold_value_reads (E:=E) k (value cell) v Hsh Hv) as (x & Hf & Hx & Hr);
    [intros b; apply (Hin 1%nat b)|].
  rewrite Hf, bind_Ret. cbv beta. rewrite bind_Ret.
  set (cell1 := {| kind := kind cell; value := x;
                   contributors := bt_insert target v (contributors cell) |}) in *.
  set (rows1 := bt_insert (name, key) cell1 rows) in *.
  assert (Hok1 : bt_ok rows1) by by apply bt_insert_ok.
  assert (Hother : forall row, row <> (name, key) -> bt_get row rows1 = bt_get row rows)
    by (intros row Hr'; by apply bt_get_insert_ne).
  assert (Hget : bt_get (name, key) rows1 = Some cell1) by apply bt_get_insert.
  destruct cs as [|c2 cs].
  - exists rows1. split; [done|]. split; [done|]. split; [done|]. exists cell1. simpl. auto.
  - destruct (IH rows1 cell1 Hok1 Hcs ltac:(by rewrite Hget) Hk Hx) as (rows' & H0 & H1 & H2 & cell' & H3 & H4 & H5 & H6 & H7);
      [|done|].
    { intros i b. specialize (Hin (S i) b). simpl in Hin. unfold total_from in *. simpl in Hin.
      simpl value. by rewrite Hr. }
    exists rows'. split; [done|]. split; [done|]. split; [intros row Hne'; by rewrite H2, Hother|].
    exists cell'. split; [done|]. split; [done|]. split; [done|]. split; [|done].
    intros b. rewrite H6. unfold total_from. simpl. by rewrite Hr.
Qed.

(** The reference: fold the readings of a bucket, from the kind's neutral
    element. *)
Definition total (k : CrossTargetAggKind) (cs : list Contribution) (b : Z) : Z :=
  total_from k (neutral k) cs b.

(** unless an addition overflows, folding the contributions of any
    targets into a fresh row gives a well-formed row whose every bucket (the
    one bucket of a scalar) is the sum, least or greatest of the
    contributions, according to the kind; the contributors are the last
    contribution of each target and no other row changes. *)
Theorem row_is_total name key k cs rows :
  bt_ok rows -> bt_get (name, key) rows = None -> cs <> [] ->
  Forall (fun c => shaped k (snd c)) cs ->
  (forall i b, in_range k (total k (take i cs) b)) ->
  exists rows', merge_row (E:=Empty_set) name key k cs rows = Ret rows' /\ bt_ok rows' /\
  (forall row, row <> (name, key) -> bt_get row rows' = bt_get row rows) /\
  exists cell, bt_get (name, key) rows' = Some cell /\ kind cell = k /\ shaped k (value cell) /\
    (forall b, reads (value cell) b = total k cs b) /\
    contributors cell = bt_collect cs.
Proof.
  intros Hok Hnone Hne Hcs Hin. destruct (empty_value_reads k) as [He Hn].
  destruct (merge_row_spec (E:=Empty_set) name key k cs rows
    {| kind := k; value := empty_value k; contributors := [] |} Hok Hcs)
    as (rows' & H0 & H1 & H2 & cell & H3 & H4 & H5 & H6 & H7);
    [by rewrite Hnone|done|done|intros i b; simpl value; rewrite Hn; apply Hin|done|].
  exists rows'. split; [done|]. split; [done|]. split; [done|]. exists cell.
  split; [done|]. split; [done|]. split; [done|]. split; [|done].
  intros b. rewrite H6. simpl value. by rewrite Hn.
Qed.

Lemma total_from_perm k cs cs' b : cs ≡ₚ cs' -> forall n, total_from k n cs b = total_from k n cs' b.
Proof.
  unfold total_from. induction 1 as [|c cs cs' _ IH|c d cs|cs1 cs2 cs3 _ IH1 _ IH2]; intros n; simpl.
  - done.
  - apply IH.
  - f_equal. destruct k; simpl; lia.
  - by rewrite IH1.
Qed.

(** the order in which targets contribute does not change a row: two
    arrival orders of the same contributions read the same in every bucket,
    as long as neither overflows on the way. *)
Theorem row_order_irrelevant name key k cs cs' rows :
  bt_ok rows -> bt_get (name, key) rows = None -> cs <> [] -> cs ≡ₚ cs' ->
  Forall (fun c => shaped k (snd c)) cs ->
  (forall i b, in_range k (total k (take i cs) b)) ->
  (forall i b, in_range k (total k (take i cs') b)) ->
  exists rows1 rows2 cell1 cell2,
    merge_row (E:=Empty_set) name key k cs rows = Ret rows1 /\
    merge_row (E:=Empty_set) name key k cs' rows = Ret rows2 /\
    bt_get (name, key) rows1 = Some cell1 /\ bt_get (name, key) rows2 = Some cell2 /\
    kind cell1 = kind cell2 /\ forall b, reads (value cell1) b = reads (value cell2) b.
Proof.
  intros Hok Hnone Hne Hp Hcs Hin Hin'.
  assert (Hne' : cs' <> []) by (intros ->; by apply Permutation_nil_r in Hp).
  destruct (merge_row_spec (E:=Empty_set) name key k cs rows
    {| kind := k; value := empty_value k; contributors := [] |} Hok Hcs)
    as (rows1 & H0 & _ & _ & cell1 & H3 & H4 & _ & H6 & _);
    [by rewrite Hnone|done|apply empty_value_reads
    |intros i b; simpl value; rewrite (proj2 (empty_value_reads k)); apply Hin|done|].
  destruct (merge_row_spec (E:=Empty_set) name key k cs' rows
    {| kind := k; value := empty_value k; contributors := [] |} Hok)
    as (rows2 & J0 & _ & _ & cell2 & J3 & J4 & _ & J6 & _);
    [by rewrite <- Hp|by rewrite Hnone|done|apply empty_value_reads
    |intros i b; simpl value; rewrite (proj2 (empty_value_reads k)); apply Hin'|done|].
  exists rows1, rows2, cell1, cell2. split; [done|]. split; [done|]. split; [done|]. split; [done|].
  split; [congruence|]. intros b. rewrite H6, J6. by apply total_from_perm.
Qed.

(** *** Witnesses *)

Module SampleMerge.
Definition linux : bytes := map u8b [108].
Definition freebsd : bytes := map u8b [102].
Definition rec (id : bytes) (g q : Z) : TaggedRecord :=
  {| target_id := id; gns := g; source_seq := q; payload := [] |}.
(** Lookback 100: two sources, one record still inside the window at 210. *)
Definition ring : MergedRing :=
  {| sources := [{| source_id := linux; queue := [rec linux 30 1; rec linux 200 2] |};
                 {| source_id := freebsd; queue := [rec freebsd 20 1; rec freebsd 30 2] |}];
     lookback_ns := 100 |}.
Definition names : bytes * bytes := (map u8b [114; 120], []).
Definition counts : list Contribution :=
  [(linux, Histogram [(0, 5); (4, 1)]); (freebsd, Histogram [(4, 2)])].

Lemma merge_ring_ok : stamped (sources ring) /\ in_order (sources ring).
Proof.
  split; [split|].
  - apply (bool_decide_unpack _). vm_compute. exact I.
  - repeat constructor.
  - repeat (constructor || (unfold key_le; vm_compute; discriminate)).
Qed.

Lemma counts_ok k : is_hist k = true -> Forall (fun c => shaped k (snd c)) counts.
Proof. intros H. repeat constructor; done. Qed.

Lemma counts_range i b : in_range Quantize (total Quantize (take i counts) b).
Proof.
  destruct i as [|[|i]]; simpl; [done|..];
    unfold total, total_from; simpl; unfold cmp, ordered_Z;
    destruct (Z.compare_spec b 0); destruct (Z.compare_spec b 4); unfold U64_MAX; simpl;
    rewrite ?firstn_nil; simpl; lia.
Qed.
End SampleMerge.

Lemma drain_keeps_sources_witness :
  exists out m', drain_eligible 210 SampleMerge.ring = Some (out, m') /\
    Forall (fun r => gns r <= 110) out /\ length out = 3%nat.
Proof.
  destruct (drain_keeps_sources 210 SampleMerge.ring (proj1 SampleMerge.merge_ring_ok))
    as (out & m' & Hd & _ & _ & Hle & _).
  exists out, m'. split; [exact Hd|]. split; [exact Hle|].
  vm_compute in Hd. injection Hd as <- _. reflexivity.
Defined.

Lemma drain_is_stable_sort_witness :
  exists out m', drain_eligible 210 SampleMerge.ring = Some (out, m') /\
    out = [SampleMerge.rec SampleMerge.freebsd 20 1; SampleMerge.rec SampleMerge.freebsd 30 2;
           SampleMerge.rec SampleMerge.linux 30 1] /\
    fst (drain_all SampleMerge.ring) = out ++ fst (drain_all m').
Proof.
  destruct (drain_is_stable_sort 210 SampleMerge.ring (proj2 SampleMerge.merge_ring_ok))
    as (out & m' & Hd & Hs & _).
  exists out, m'. split; [exact Hd|]. split; [|exact Hs].
  vm_compute in Hd. injection Hd as <- _. reflexivity.
Defined.

Lemma merged_output_ordered_witness :
  exists s, pushed s = [SampleMerge.rec SampleMerge.linux 30 1] /\
    sorted_by record_key (released s ++ fst (drain_all (ring s))) /\
    released s ++ fst (drain_all (ring s)) ≡ₚ pushed s.
Proof.
  eexists. split; [|apply (merged_output_ordered [SampleMerge.linux; SampleMerge.freebsd] 100)].
  2: { eapply rtc_l; [eapply (step_push _ 0 {| source_id := SampleMerge.linux; queue := [] |} 30 1 []);
         [reflexivity|reflexivity|reflexivity|apply list.Forall_nil_2|reflexivity]|].
       eapply rtc_l; [apply (step_drain _ 210); vm_compute; reflexivity|apply rtc_refl]. }
  reflexivity.
Defined.

Lemma row_is_total_witness :
  exists rows', merge_row (E:=Empty_set) (fst SampleMerge.names) (snd SampleMerge.names) Quantize
      SampleMerge.counts [] = Ret rows' /\
    exists cell, bt_get SampleMerge.names rows' = Some cell /\
      reads (value cell) 4 = total Quantize SampleMerge.counts 4.
Proof.
  destruct (row_is_total (fst SampleMerge.names) (snd SampleMerge.names) Quantize SampleMerge.counts [])
    as (rows' & H0 & _ & _ & cell & H1 & _ & _ & H2 & _);
    [constructor|reflexivity|discriminate|by apply SampleMerge.counts_ok|apply SampleMerge.counts_range|].
  exists rows'. split; [exact H0|]. exists cell. split; [exact H1|apply H2].
Defined.

Lemma row_order_irrelevant_witness :
  exists rows1 rows2 cell1 cell2,
    merge_row (E:=Empty_set) (fst SampleMerge.names) (snd SampleMerge.names) Min
      [(SampleMerge.linux, Scalar 7); (SampleMerge.freebsd, Scalar 3)] [] = Ret rows1 /\
    merge_row (E:=Empty_set) (fst SampleMerge.names) (snd SampleMerge.names) Min
      [(SampleMerge.freebsd, Scalar 3); (SampleMerge.linux, Scalar 7)] [] = Ret rows2 /\
    bt_get SampleMerge.names rows1 = Some cell1 /\ bt_get SampleMerge.names rows2 = Some cell2 /\
    kind cell1 = kind cell2 /\ forall b, reads (value cell1) b = reads (value cell2) b.
Proof.
  apply (row_order_irrelevant _ _ Min); try done; [constructor|apply Permutation_swap|repeat constructor].
Defined.

(** A target that reports twice is counted twice, although its contributor
    entry keeps the last report only. *)
Lemma second_snapshot_double_counts :
  exists rows cell,
    merge_row (E:=Empty_set) (fst SampleMerge.names) (snd SampleMerge.names) Count
      [(SampleMerge.linux, Scalar 10); (SampleMerge.linux, Scalar 12)] [] = Ret rows /\
    bt_get SampleMerge.names rows = Some cell /\
    value cell = Scalar 22 /\ contributors cell = [(SampleMerge.linux, Scalar 12)].
Proof. eexists _, _. split; [vm_compute; reflexivity|]. repeat split. Qed.
