(* ===== verification/AggSnapshot.v ===== *)
(** Aggregation snapshots (host/bifrost/src/cli/orchestrate.rs): decoding one
    AGG_SNAPSHOT record of a target and folding its rows into the
    cross-target reducer.

    [agg_names], a [HashMap], is a [gmap]; strings are their bytes.  Offsets
    are plain sums: the preceding length checks bound them. *)

From stdpp Require Import gmap.
From Stdlib Require Import Strings.String.
From S2P Require Import Ordered Prelude Utf8 Merge.

Local Open Scope Z_scope.

(** ** Code *)

Definition AGG_SNAPSHOT_SCHEMA_V0 : Z := 0.
Definition AGG_SNAPSHOT_SCHEMA_V1 : Z := 1.
Definition AGG_SNAPSHOT_ROW_KIND_UNKNOWN : Z := 0.
Definition AGG_SNAPSHOT_ROW_KIND_COUNT : Z := 1.
Definition AGG_SNAPSHOT_ROW_KIND_SUM : Z := 2.
Definition AGG_SNAPSHOT_ROW_KIND_MIN : Z := 3.
Definition AGG_SNAPSHOT_ROW_KIND_MAX : Z := 4.
Definition AGG_SNAPSHOT_ROW_KIND_AVG : Z := 5.
Definition AGG_SNAPSHOT_ROW_KIND_STDDEV : Z := 6.
Definition AGG_SNAPSHOT_ROW_KIND_QUANTIZE : Z := 7.
Definition AGG_SNAPSHOT_ROW_KIND_LQUANTIZE : Z := 8.
Definition AGG_SNAPSHOT_ROW_KIND_LLQUANTIZE : Z := 9.

(** [chunks_exact(8)], each read as a [u64]. *)
Fixpoint u64_chunks_fuel (fuel : nat) (b : bytes) : list Z :=
  match fuel with
  | O => []
  | S fuel => if len b <? 8 then []
              else LittleEndianList.le_combine (take 8 b) :: u64_chunks_fuel fuel (drop 8 b)
  end.
Definition u64_chunks (b : bytes) : list Z := u64_chunks_fuel (length b) b.

(** [1i64 << n]: a shift by 64 or more panics. *)
Definition shl_one {E} (n : Z) : outcome E Z :=
  if (0 <=? n) && (n <? 64) then Ret (to_signed 64 (2 ^ n)) else Panic.
Definition neg_i64 {E} (n : Z) : outcome E Z := if n =? I64_MIN then Panic else Ret (- n).

(** The bucket value of slot [idx] of a [quantize] array. *)
Definition quantize_bucket {E} (idx : Z) : outcome E Z :=
  if idx <? 63 then n ← shl_one (63 - 1 - idx); neg_i64 n
  else if idx =? 63 then Ret 0
  else shl_one (idx - 63 - 1).

Fixpoint quantize_loop {E} (idx : Z) (chunks : list Z) : outcome E (list (Z * Z)) :=
  match chunks with
  | [] => Ret []
  | count :: chunks =>
      if count =? 0 then quantize_loop (idx + 1) chunks
      else
        bucket ← quantize_bucket idx;
        rest ← quantize_loop (idx + 1) chunks;
        Ret ((bucket, count) :: rest)
  end.

Definition decode_quantize_buckets {E} (v_bytes : bytes) : outcome E CrossTargetAggValue :=
  buckets ← quantize_loop 0 (u64_chunks v_bytes);
  Ret (Histogram (sort_by_key fst buckets)).

(** [iter().enumerate().skip(1)] with the zero counts left out: the slots
    of [chunks], the first of which is [slot]. *)
Fixpoint counted_slots (slot : Z) (chunks : list Z) : list (Z * Z) :=
  match chunks with
  | [] => []
  | count :: chunks =>
      if count =? 0 then counted_slots (slot + 1) chunks
      else (slot, count) :: counted_slots (slot + 1) chunks
  end.

Definition saturating_i64 (n : Z) : Z := Z.max I64_MIN (Z.min I64_MAX n).

(** The unique bucket indices of one magnitude. *)
Fixpoint magnitude_buckets (by_idx : btree Z Z) (base last step sub : Z) (n : nat)
  : list (Z * Z) :=
  match n with
  | O => []
  | S n =>
      let rest := magnitude_buckets by_idx base last step (sub + 1) n in
      match bt_get (base + sub) by_idx with
      | Some c => (saturating_i64 (last + saturating_i64 (step * sub)), c) :: rest
      | None => rest
      end
  end.

(** The loop over the magnitudes; it returns the buckets and the final
    [base] and [last]. *)
Fixpoint magnitudes (by_idx : btree Z Z) (factor nsteps : Z) (n : nat) (base last this : Z)
  : list (Z * Z) * Z * Z :=
  match n with
  | O => ([], base, last)
  | S n =>
      let nbuckets := Z.min this nsteps in
      if nbuckets <=? 0 then ([], base, last)
      else
        let step := this / nbuckets in
        let owned := nbuckets - nbuckets / factor in
        let here := magnitude_buckets by_idx base last step 0 (Z.to_nat owned) in
        let '(rest, base', last') :=
          magnitudes by_idx factor nsteps n (saturating_i64 (base + owned)) this
            (saturating_i64 (this * factor)) in
        (here ++ rest, base', last')
  end.

Definition decode_llquantize_buckets (v_bytes : bytes) : CrossTargetAggValue :=
  match u64_chunks v_bytes with
  | [] => Histogram []
  | params :: slots =>
      let factor := Z.land (Z.shiftr params 48) 0xFFFF in
      let low := Z.land (Z.shiftr params 32) 0xFFFF in
      let high := Z.land (Z.shiftr params 16) 0xFFFF in
      let nsteps := Z.land params 0xFFFF in
      if (factor <? 2) || (nsteps <? factor) || negb (nsteps mod factor =? 0) || (high <? low)
      then Histogram (counted_slots 1 slots)
      else
        let pow_low := Nat.iter (Z.to_nat low) (fun p => saturating_i64 (p * factor)) 1 in
        let by_idx := bt_collect (counted_slots 1 slots) in
        let zero := match bt_get 0 by_idx with Some c => [(0, c)] | None => [] end in
        let '(buckets, base, last) :=
          magnitudes by_idx factor nsteps (Z.to_nat (high - low + 1)) 1 pow_low
            (saturating_i64 (pow_low * factor)) in
        let over := match bt_get base by_idx with Some c => [(last, c)] | None => [] end in
        Histogram (sort_by_key fst (zero ++ buckets ++ over))
  end.

Definition lquantize_key (base levels step s : Z) : Z :=
  if s =? 1 then base - Z.max step 1
  else if (2 <=? s) && (s <=? levels + 1) then base + step * (s - 2)
  else base + step * levels.

Definition decode_lquantize_buckets (v_bytes : bytes) : CrossTargetAggValue :=
  match u64_chunks v_bytes with
  | [] => Histogram []
  | params :: slots =>
      let base := to_signed 32 (Z.land params 0xFFFFFFFF) in
      let levels := Z.land (Z.shiftr params 32) 0xFFFF in
      let step := Z.land (Z.shiftr params 48) 0xFFFF in
      Histogram (sort_by_key fst
        (map (fun sc => (lquantize_key base levels step (fst sc), snd sc)) (counted_slots 1 slots)))
  end.

(** [u64::to_string]. *)
Fixpoint decimal_fuel (fuel : nat) (n : Z) (acc : bytes) : bytes :=
  match fuel with
  | O => acc
  | S fuel =>
      let acc := u8b (48 + n mod 10) :: acc in
      if n / 10 =? 0 then acc else decimal_fuel fuel (n / 10) acc
  end.
Definition decimal (n : Z) : bytes := decimal_fuel 20 n [].

Definition is_zero (b : Init.Byte.byte) : bool := byte.unsigned b =? 0.

(** The loop that drops trailing all-zero 8-byte slots. *)
Fixpoint trim_slots (fuel : nat) (kb : bytes) : bytes :=
  match fuel with
  | O => kb
  | S fuel =>
      let n := (length kb - 8)%nat in
      if (8 <=? len kb) && forallb is_zero (drop n kb) then trim_slots fuel (take n kb) else kb
  end.

(** The loop that drops trailing zero bytes. *)
Fixpoint trim_zeros (b : bytes) : bytes :=
  match b with
  | [] => []
  | x :: b => match trim_zeros b with
              | [] => if is_zero x then [] else [x]
              | b => x :: b
              end
  end.

Definition quote : Init.Byte.byte := u8b 34.

Definition render_slot (c : bytes) : bytes :=
  let buf := c ++ replicate (8 - length c) (u8b 0) in
  let trimmed := trim_zeros buf in
  let looks_ascii :=
    match trimmed with [] => false | _ => true end
    && forallb (fun b => (0x20 <=? byte.unsigned b) && (byte.unsigned b <=? 0x7e)) trimmed in
  if looks_ascii then [quote] ++ from_utf8_lossy trimmed ++ [quote]
  else decimal (LittleEndianList.le_combine buf).

(** [chunks(8)]. *)
Fixpoint slots_fuel (fuel : nat) (b : bytes) : list bytes :=
  match fuel with
  | O => []
  | S fuel => match b with [] => [] | _ => take 8 b :: slots_fuel fuel (drop 8 b) end
  end.

Fixpoint join (sep : bytes) (l : list bytes) : bytes :=
  match l with
  | [] => []
  | [x] => x
  | x :: l => x ++ sep ++ join sep l
  end.

Definition render_agg_key (kb : bytes) : bytes :=
  let kb := trim_slots (length kb) kb in
  join [u8b 44] (map render_slot (slots_fuel (length kb) kb)).

(** The kind a row is merged under, and whether it is an [llquantize]. *)
Definition str (s : string) : bytes := list_byte_of_string s.

Definition row_kind (schema wire_kind : Z) (kind_str : bytes) : option (CrossTargetAggKind * bool) :=
  if (schema =? AGG_SNAPSHOT_SCHEMA_V1) && negb (wire_kind =? AGG_SNAPSHOT_ROW_KIND_UNKNOWN) then
    if wire_kind =? AGG_SNAPSHOT_ROW_KIND_COUNT then Some (Count, false)
    else if wire_kind =? AGG_SNAPSHOT_ROW_KIND_SUM then Some (Sum, false)
    else if wire_kind =? AGG_SNAPSHOT_ROW_KIND_MIN then Some (Min, false)
    else if wire_kind =? AGG_SNAPSHOT_ROW_KIND_MAX then Some (Max, false)
    else if wire_kind =? AGG_SNAPSHOT_ROW_KIND_QUANTIZE then Some (Quantize, false)
    else if wire_kind =? AGG_SNAPSHOT_ROW_KIND_LQUANTIZE then Some (Lquantize, false)
    else if wire_kind =? AGG_SNAPSHOT_ROW_KIND_LLQUANTIZE then Some (Lquantize, true)
    else None
  else
    if bool_decide (kind_str = str "count") then Some (Count, false)
    else if bool_decide (kind_str = str "sum") then Some (Sum, false)
    else if bool_decide (kind_str = str "min") then Some (Min, false)
    else if bool_decide (kind_str = str "max") then Some (Max, false)
    else if bool_decide (kind_str = str "quantize") then Some (Quantize, false)
    else if bool_decide (kind_str = str "lquantize") then Some (Lquantize, false)
    else if bool_decide (kind_str = str "llquantize") then Some (Lquantize, true)
    else None.

Definition row_value {E} (k : CrossTargetAggKind) (is_llquantize : bool) (v_bytes : bytes)
  : outcome E CrossTargetAggValue :=
  match k, is_llquantize with
  | Quantize, _ => decode_quantize_buckets v_bytes
  | Lquantize, true => Ret (decode_llquantize_buckets v_bytes)
  | Lquantize, false => Ret (decode_lquantize_buckets v_bytes)
  | _, _ =>
      let buf := take 8 v_bytes ++ replicate (8 - length v_bytes) (u8b 0) in
      Ret (Scalar (to_signed 64 (LittleEndianList.le_combine buf)))
  end.

Definition AggNames : Type := gmap Z (bytes * bytes).

Definition MAX_KEY_BYTES : Z := 32.
Definition MAX_VAL_BYTES : Z := 4096.

(** The tail of the loop body: what is done with a row once it is read. *)
Definition ingest_row {E} (target : bytes) (agg_names : AggNames) (schema fd wire_kind : Z)
    (k_bytes v_bytes : bytes) (reducer : CrossTargetAggReducer) : outcome E CrossTargetAggReducer :=
  match agg_names !! fd with
  | None => Ret reducer
  | Some (kind_str, name) =>
      match name with
      | [] => Ret reducer
      | _ =>
          match row_kind schema wire_kind kind_str with
          | None => Ret reducer
          | Some (k, is_llquantize) =>
              v ← row_value k is_llquantize v_bytes;
              merge target name (render_agg_key k_bytes) k v reducer
          end
      end
  end.

(** The loop over the announced rows; it stops at the first that does not
    fit. *)
Fixpoint ingest_rows {E} (target : bytes) (agg_names : AggNames) (schema : Z) (payload : bytes)
    (n : nat) (p : Z) (reducer : CrossTargetAggReducer) : outcome E CrossTargetAggReducer :=
  match n with
  | O => Ret reducer
  | S n =>
      let prefix := if schema =? AGG_SNAPSHOT_SCHEMA_V1 then 8 else 4 in
      if len payload <? p + prefix + 4 then Ret reducer
      else
        fd ← le_at 4 payload p;
        wire_kind ← (if schema =? AGG_SNAPSHOT_SCHEMA_V1 then byte_at payload (p + 4)
                     else Ret AGG_SNAPSHOT_ROW_KIND_UNKNOWN);
        let k_size_off := p + prefix in
        k_size ← le_at 4 payload k_size_off;
        if MAX_KEY_BYTES <? k_size then Ret reducer
        else
          let v_size_off := k_size_off + 4 + k_size in
          if len payload <? v_size_off + 4 then Ret reducer
          else
            v_size ← le_at 4 payload v_size_off;
            if (v_size =? 0) || (MAX_VAL_BYTES <? v_size) then Ret reducer
            else
              let entry_bytes := prefix + 4 + k_size + 4 + v_size in
              if len payload <? p + entry_bytes then Ret reducer
              else
                k_bytes ← slice payload (k_size_off + 4) (k_size_off + 4 + k_size);
                v_bytes ← slice payload (v_size_off + 4) (v_size_off + 4 + v_size);
                reducer ← ingest_row target agg_names schema (to_signed 32 fd) wire_kind
                            k_bytes v_bytes reducer;
                ingest_rows target agg_names schema payload n (p + entry_bytes) reducer
  end.

Definition ingest_agg_snapshot {E} (target payload : bytes) (agg_names : AggNames)
    (reducer : CrossTargetAggReducer) : outcome E CrossTargetAggReducer :=
  if (len payload <? 28) || bool_decide (agg_names = ∅) then Ret reducer
  else
    schema ← le_at 8 payload 16;
    if negb (schema =? AGG_SNAPSHOT_SCHEMA_V0) && negb (schema =? AGG_SNAPSHOT_SCHEMA_V1)
    then Ret reducer
    else
      n ← le_at 4 payload 24;
      ingest_rows target agg_names schema payload (Z.to_nat n) 28 reducer.

(** ** Histograms *)

(** The counted slots under a key that grows with the slot. *)
Section Keyed.
Context (key : Z -> Z) (lo hi : Z).
Context (key_mono : forall i j, lo <= i -> i < j -> j < hi -> key i < key j).

Definition keyed (slot : Z) (chunks : list Z) : list (Z * Z) :=
  map (fun sc => (key (fst sc), snd sc)) (counted_slots slot chunks).

Lemma keyed_above s chunks : forall slot,
  lo <= s -> s < slot -> slot + len chunks <= hi ->
  Forall (fun kv => cmp (key s) (fst kv) = Lt) (keyed slot chunks).
Proof.
  induction chunks as [|c chunks IH]; intros slot H1 H2 H3; [constructor|].
  len_simpl. pose_lens. unfold keyed in *. simpl. destruct (c =? 0); simpl; [apply IH; lia|].
  constructor; [|apply IH; lia]. simpl. unfold cmp, ordered_Z. apply Z.compare_lt_iff.
  apply key_mono; lia.
Qed.

Lemma keyed_ok chunks : forall slot, lo <= slot -> slot + len chunks <= hi -> bt_ok (keyed slot chunks).
Proof.
  induction chunks as [|c chunks IH]; intros slot H1 H2; [constructor|].
  len_simpl. pose_lens. unfold keyed. simpl. destruct (c =? 0); simpl; [apply IH; lia|].
  constructor; [apply IH; lia|]. apply (keyed_above slot); lia.
Qed.

(** Every slot is read back under its key. *)
Lemma keyed_reads chunks : forall slot s, lo <= slot -> slot + len chunks <= hi ->
  slot <= s < slot + len chunks ->
  default 0 (bt_get (key s) (keyed slot chunks)) = default 0 (chunks !! Z.to_nat (s - slot)).
Proof.
  induction chunks as [|c chunks IH]; intros slot s H1 H2 H3; [unfold len in H3; simpl in H3; lia|].
  len_simpl. pose_lens. unfold keyed. simpl counted_slots.
  destruct (decide (s = slot)) as [->|Hne].
  - rewrite Z.sub_diag. simpl. destruct (Z.eqb_spec c 0) as [->|Hc].
    + rewrite bt_get_below; [done|]. apply (keyed_above slot); lia.
    + simpl. by rewrite cmp_refl.
  - replace (Z.to_nat (s - slot)) with (S (Z.to_nat (s - (slot + 1)))) by lia. simpl.
    rewrite <- IH by lia. destruct (c =? 0); [done|]. simpl.
    assert (Hgt : cmp (key s) (key slot) = Gt)
      by (unfold cmp, ordered_Z; apply Z.compare_gt_iff; apply key_mono; lia).
    by rewrite Hgt.
Qed.

(** Nothing else is. *)
Lemma keyed_only chunks : forall slot b,
  default 0 (bt_get b (keyed slot chunks)) <> 0 ->
  exists s, slot <= s < slot + len chunks /\ b = key s.
Proof.
  induction chunks as [|c chunks IH]; intros slot b H; [done|]. unfold keyed in H. simpl in H.
  len_simpl. pose_lens. destruct (c =? 0); [apply IH in H as (s & Hs & ->); exists s; lia|].
  simpl in H. destruct (cmp b (key slot)) eqn:Hc.
  - apply cmp_eq in Hc as ->. exists slot. lia.
  - done.
  - apply IH in H as (s & Hs & ->). exists s. lia.
Qed.
End Keyed.

Lemma bt_sorted_id {V} (m : btree Z V) : bt_ok m -> sort_by_key fst m = m.
Proof.
  intros H. apply sort_by_key_id. unfold sorted_by. induction H as [|x m Hs IH Hx]; constructor; [done|].
  eapply list.Forall_impl; [exact Hx|]. intros y. apply lt_key_le.
Qed.

(** The value DTrace gives slot [i] of a [quantize] array:
    minus a power of two, zero, or a power of two. *)
Definition quantize_bucketval (i : Z) : Z :=
  if i <? 63 then - 2 ^ (62 - i) else if i =? 63 then 0 else 2 ^ (i - 64).

Lemma quantize_mono i j : 0 <= i -> i < j -> j < 127 -> quantize_bucketval i < quantize_bucketval j.
Proof.
  intros H1 H2 H3. unfold quantize_bucketval.
  assert (P : forall x, 0 <= x -> 0 < 2 ^ x) by (intros x Hx; by apply Z.pow_pos_nonneg).
  assert (M : forall x y, 0 <= x -> x < y -> 2 ^ x < 2 ^ y) by (intros x y Hx Hy; apply Z.pow_lt_mono_r; lia).
  destruct (Z.ltb_spec i 63) as [Hi|Hi]; [specialize (P (62 - i) ltac:(lia)) as Pi|];
    destruct (Z.ltb_spec j 63) as [Hj|Hj]; try lia.
  - specialize (M (62 - j) (62 - i)). lia.
  - destruct (Z.eqb_spec j 63); [lia|]. specialize (P (j - 64)). lia.
  - destruct (Z.eqb_spec j 63); [lia|]. destruct (Z.eqb_spec i 63).
    + specialize (P (j - 64)). lia.
    + specialize (M (i - 64) (j - 64)). lia.
Qed.

Lemma shl_one_ok {E} n : 0 <= n < 63 -> shl_one (E:=E) n = Ret (2 ^ n).
Proof.
  intros H. unfold shl_one. rewrite (proj2 (Z.leb_le _ _) (proj1 H)).
  destruct (Z.ltb_spec n 64); [|lia]. cbn [andb]. f_equal. unfold to_signed.
  pose proof (Z.pow_le_mono_r 2 n 62). change (2 ^ (64 - 1)) with (2 * 2 ^ 62).
  destruct (Z.ltb_spec (2 ^ n) (2 * 2 ^ 62)); [done|]. change (2 ^ 62) with 4611686018427387904 in *. lia.
Qed.

Lemma quantize_bucket_ok {E} i : 0 <= i < 127 -> quantize_bucket (E:=E) i = Ret (quantize_bucketval i).
Proof.
  intros H. unfold quantize_bucket, quantize_bucketval. destruct (Z.ltb_spec i 63).
  - rewrite shl_one_ok, bind_Ret by lia. replace (63 - 1 - i) with (62 - i) by lia.
    unfold neg_i64, I64_MIN. pose proof (Z.pow_pos_nonneg 2 (62 - i)).
    destruct (Z.eqb_spec (2 ^ (62 - i)) (- 2 ^ 63)); [lia|done].
  - destruct (Z.eqb_spec i 63); [done|]. rewrite shl_one_ok by lia. do 2 f_equal. lia.
Qed.

Lemma quantize_loop_ok {E} chunks : forall i, 0 <= i -> i + len chunks <= 127 ->
  quantize_loop (E:=E) i chunks = Ret (keyed quantize_bucketval i chunks).
Proof.
  induction chunks as [|c chunks IH]; intros i H1 H2; [done|]. len_simpl. pose_lens. unfold keyed. simpl.
  destruct (c =? 0); [apply IH; lia|]. rewrite quantize_bucket_ok, bind_Ret, IH by lia. done.
Qed.

Lemma u64_chunks_len b : 8 * len (u64_chunks b) <= len b.
Proof.
  unfold u64_chunks. generalize (length b) as fuel. intros fuel. revert b.
  induction fuel as [|fuel IH]; intros b; simpl; [pose proof (len_nonneg b); unfold len; simpl; lia|].
  destruct (Z.ltb_spec (len b) 8); [pose proof (len_nonneg b); unfold len at 1; simpl; lia|].
  rewrite len_cons. specialize (IH (drop 8 b)). rewrite len_drop in IH. simpl in IH. lia.
Qed.

(** a [quantize] array of the kernel's size (127 slots, or shorter)
    decodes to a histogram that gives every slot's count under the bucket
    value DTrace assigns to the slot, gives nothing else, and is in
    canonical order. *)
Theorem quantize_faithful v :
  len v <= 127 * 8 ->
  exists h, decode_quantize_buckets (E:=Empty_set) v = Ret (Histogram h) /\ bt_ok h /\
    (forall i, 0 <= i < len (u64_chunks v) ->
       reads (Histogram h) (quantize_bucketval i) = default 0 (u64_chunks v !! Z.to_nat i)) /\
    (forall b, reads (Histogram h) b <> 0 ->
       exists i, 0 <= i < len (u64_chunks v) /\ b = quantize_bucketval i).
Proof.
  intros Hv. pose proof (u64_chunks_len v). unfold decode_quantize_buckets.
  rewrite quantize_loop_ok, bind_Ret by lia.
  assert (Hok : bt_ok (keyed quantize_bucketval 0 (u64_chunks v)))
    by (apply (keyed_ok _ 0 127 quantize_mono); lia).
  exists (keyed quantize_bucketval 0 (u64_chunks v)). rewrite bt_sorted_id by done.
  split; [done|]. split; [done|]. split.
  - intros i Hi. simpl. rewrite (keyed_reads _ 0 127 quantize_mono) by lia. by rewrite Z.sub_0_r.
  - intros b Hb. by apply keyed_only in Hb.
Qed.

(** A longer array is accepted by the row's size check and panics. *)
Definition overlong : bytes := replicate (128 * 8) (u8b 0) ++ to_le 8 1.
Lemma quantize_overlong_panics :
  len overlong <= MAX_VAL_BYTES /\ decode_quantize_buckets (E:=Empty_set) overlong = Panic.
Proof. split; [vm_compute; discriminate|vm_compute; reflexivity]. Qed.

Lemma u64_chunks_enough f1 : forall f2 b, (length b <= f1)%nat -> (length b <= f2)%nat ->
  u64_chunks_fuel f1 b = u64_chunks_fuel f2 b.
Proof.
  induction f1 as [|f1 IH]; intros [|f2] b H1 H2; simpl; try done.
  - destruct (Z.ltb_spec (len b) 8); [done|unfold len in *; lia].
  - destruct (Z.ltb_spec (len b) 8); [done|unfold len in *; lia].
  - destruct (Z.ltb_spec (len b) 8); [done|]. unfold len in *. f_equal.
    apply IH; rewrite length_drop; lia.
Qed.

Lemma u64_chunks_cons x b : in_u 64 x -> u64_chunks (to_le 8 x ++ b) = x :: u64_chunks b.
Proof.
  intros Hx. unfold u64_chunks.
  assert (Hl : length (to_le 8 x) = 8%nat) by (rewrite length_len, len_to_le; done).
  rewrite length_app, Hl. change (8 + length b)%nat with (S (7 + length b)).
  change (u64_chunks_fuel (S (7 + length b)) (to_le 8 x ++ b)) with
    (if len (to_le 8 x ++ b) <? 8 then []
     else LittleEndianList.le_combine (take 8 (to_le 8 x ++ b))
          :: u64_chunks_fuel (7 + length b) (drop 8 (to_le 8 x ++ b))).
  destruct (Z.ltb_spec (len (to_le 8 x ++ b)) 8) as [H|_];
    [rewrite len_app, len_to_le in H; pose proof (len_nonneg b); lia|].
  rewrite take_app_length', drop_app_length' by done.
  rewrite le_combine_to_le by done. f_equal. apply u64_chunks_enough; lia.
Qed.

(** The packed parameters of an [lquantize] array. *)
Definition lquantize_params (base levels step : Z) : Z :=
  base mod 2 ^ 32 + 2 ^ 32 * levels + 2 ^ 48 * step.

Lemma land_ones_mod a n : 0 <= n -> Z.land a (2 ^ n - 1) = a mod 2 ^ n.
Proof. intros H. rewrite <- Z.land_ones by done. by rewrite Z.ones_equiv, Z.sub_1_r. Qed.

Lemma lquantize_unpack base levels step :
  - 2 ^ 31 <= base < 2 ^ 31 -> in_u 16 levels -> in_u 16 step ->
  let p := lquantize_params base levels step in
  in_u 64 p /\ to_signed 32 (Z.land p 0xFFFFFFFF) = base /\
  Z.land (Z.shiftr p 32) 0xFFFF = levels /\ Z.land (Z.shiftr p 48) 0xFFFF = step.
Proof.
  intros Hb [Hl1 Hl2] [Hs1 Hs2] p. unfold p, lquantize_params.
  change 0xFFFFFFFF with (2 ^ 32 - 1). change 0xFFFF with (2 ^ 16 - 1).
  rewrite !land_ones_mod, !Z.shiftr_div_pow2 by lia.
  set (u := base mod 2 ^ 32). assert (Hu : 0 <= u < 2 ^ 32) by (apply Z.mod_pos_bound; lia).
  change (2 ^ 48) with (2 ^ 32 * 2 ^ 16). change (2 ^ 32) with 4294967296 in *.
  change (2 ^ 16) with 65536 in *. change (2 ^ 31) with 2147483648 in *.
  split; [unfold in_u; change (2 ^ 64) with 18446744073709551616; lia|].
  split.
  - replace ((u + 4294967296 * levels + 4294967296 * 65536 * step) mod 4294967296) with u.
    2: { replace (u + 4294967296 * levels + 4294967296 * 65536 * step)
           with (u + (levels + 65536 * step) * 4294967296) by lia.
         rewrite Z.mod_add, Z.mod_small by lia. done. }
    unfold to_signed. change (2 ^ (32 - 1)) with 2147483648. change (2 ^ 32) with 4294967296.
    unfold u. destruct (Z.le_gt_cases 0 base).
    + rewrite Z.mod_small by lia. destruct (Z.ltb_spec base 2147483648); lia.
    + replace (base mod 4294967296) with (base + 4294967296)
        by (rewrite <- (Z.mod_add base 1), Z.mod_small; lia).
      destruct (Z.ltb_spec (base + 4294967296) 2147483648); lia.
  - split.
    + replace (u + 4294967296 * levels + 4294967296 * 65536 * step)
        with (u + (levels + 65536 * step) * 4294967296) by lia.
      rewrite Z.div_add, (Z.div_small u) by lia. rewrite Z.add_0_l, (Z.mul_comm 65536), Z.mod_add by lia.
      by apply Z.mod_small.
    + replace (u + 4294967296 * levels + 4294967296 * 65536 * step)
        with ((u + 4294967296 * levels) + step * (4294967296 * 65536)) by lia.
      rewrite Z.div_add, (Z.div_small (u + 4294967296 * levels)) by lia.
      rewrite Z.add_0_l. by apply Z.mod_small.
Qed.

Lemma lquantize_key_linear base levels step s :
  1 <= step -> 1 <= s <= levels + 2 -> lquantize_key base levels step s = base + step * (s - 2).
Proof.
  intros H1 H2. unfold lquantize_key. destruct (Z.eqb_spec s 1) as [->|]; [lia|].
  destruct (Z.leb_spec 2 s), (Z.leb_spec s (levels + 1)); cbn [andb]; try lia.
  replace s with (levels + 2) by lia. lia.
Qed.

(** The words of a bucket array. *)
Definition words (l : list Z) : bytes := concat (map (to_le 8) l).

Lemma u64_chunks_words l : Forall (in_u 64) l -> u64_chunks (words l) = l.
Proof.
  induction 1 as [|x l Hx _ IH]; [done|]. change (words (x :: l)) with (to_le 8 x ++ words l).
  by rewrite u64_chunks_cons, IH.
Qed.

(** an [lquantize] array of the kernel's layout (packed parameters, an
    underflow slot, the levels, an overflow slot) decodes to a histogram that
    gives each slot's count under [base + step * (slot - 2)]: the underflow
    one step below the base, the overflow at the upper bound. *)
Theorem lquantize_faithful base levels step slots :
  - 2 ^ 31 <= base < 2 ^ 31 -> in_u 16 levels -> in_u 16 step -> 1 <= step ->
  Forall (in_u 64) slots -> len slots <= levels + 2 ->
  exists h, decode_lquantize_buckets (words (lquantize_params base levels step :: slots)) = Histogram h /\
    bt_ok h /\
    (forall s, 1 <= s <= len slots ->
       reads (Histogram h) (base + step * (s - 2)) = default 0 (slots !! Z.to_nat (s - 1))) /\
    (forall b, reads (Histogram h) b <> 0 ->
       exists s, 1 <= s <= len slots /\ b = base + step * (s - 2)).
Proof.
  intros Hb Hl Hs H1 Hsl Hn. destruct (lquantize_unpack base levels step Hb Hl Hs) as (Hp & Eb & El & Es).
  unfold decode_lquantize_buckets. rewrite u64_chunks_words by by constructor.
  rewrite Eb, El, Es. fold (keyed (lquantize_key base levels step) 1 slots).
  assert (Hmono : forall i j, 1 <= i -> i < j -> j < levels + 3 ->
    lquantize_key base levels step i < lquantize_key base levels step j)
    by (intros i j Hi Hij Hj; rewrite !lquantize_key_linear by lia; nia).
  assert (Hok : bt_ok (keyed (lquantize_key base levels step) 1 slots))
    by (apply (keyed_ok _ 1 (levels + 3) Hmono); lia).
  exists (keyed (lquantize_key base levels step) 1 slots). rewrite bt_sorted_id by done.
  split; [done|]. split; [done|]. split.
  - intros s Hss. rewrite <- (lquantize_key_linear base levels step s) by lia.
    simpl. by rewrite (keyed_reads _ 1 (levels + 3) Hmono) by lia.
  - intros b Hnz. apply keyed_only in Hnz as (s & Hss & ->). exists s.
    split; [lia|]. apply lquantize_key_linear; lia.
Qed.

(** The first bucket of an [llquantize] array (values below
    [factor^low]) is read as the second: here the count of zeros is reported
    under 1 and the count of ones under 2. *)
Definition llquantize_params (factor low high nsteps : Z) : Z :=
  nsteps + 2 ^ 16 * high + 2 ^ 32 * low + 2 ^ 48 * factor.
Lemma llquantize_first_bucket_shifted :
  decode_llquantize_buckets (words [llquantize_params 10 0 1 10; 7; 5]) = Histogram [(1, 7); (2, 5)].
Proof. vm_compute. reflexivity. Qed.

(** ** Keys *)

Lemma trim_slots_step fuel kb :
  trim_slots (S fuel) (kb ++ replicate 8 (u8b 0)) = trim_slots fuel kb.
Proof.
  assert (Hl : length (replicate 8 (u8b 0)) = 8%nat) by done.
  assert (H8 : (8 <=? len (kb ++ replicate 8 (u8b 0))) = true).
  { apply Z.leb_le. rewrite len_app, len_replicate. pose proof (len_nonneg kb). lia. }
  cbn [trim_slots]. rewrite H8. rewrite length_app, Hl, Nat.add_sub.
  by rewrite drop_app_length, take_app_length.
Qed.

Lemma trim_slots_enough f1 : forall f2 kb, (length kb <= f1)%nat -> (length kb <= f2)%nat ->
  trim_slots f1 kb = trim_slots f2 kb.
Proof.
  induction f1 as [|f1 IH]; intros [|f2] kb H1 H2; cbn [trim_slots]; try done.
  1, 2: destruct (Z.leb_spec 8 (len kb)); [unfold len in *; lia|done].
  destruct (Z.leb_spec 8 (len kb)); [|done]. destruct (forallb _ _); [|done]. simpl.
  unfold len in *. apply IH; rewrite length_take; lia.
Qed.

(** a key is rendered without regard to how far it is padded with
    all-zero slots, so targets that pad keys to different widths name the
    same row. *)
Theorem key_padding_ignored n kb :
  render_agg_key (kb ++ replicate (8 * n) (u8b 0)) = render_agg_key kb.
Proof.
  unfold render_agg_key.
  enough (H : trim_slots (length (kb ++ replicate (8 * n) (u8b 0))) (kb ++ replicate (8 * n) (u8b 0))
              = trim_slots (length kb) kb) by by rewrite H.
  induction n as [|n IH]; [by rewrite app_nil_r|].
  replace (8 * S n)%nat with (8 * n + 8)%nat by lia.
  rewrite replicate_add, app_assoc, length_app.
  change (length (replicate 8 (u8b 0))) with 8%nat.
  replace (length (kb ++ replicate (8 * n) (u8b 0)) + 8)%nat
    with (S (7 + length (kb ++ replicate (8 * n) (u8b 0)))) by lia.
  rewrite trim_slots_step. rewrite <- IH. apply trim_slots_enough; lia.
Qed.

(** ** Snapshots *)

(** A row as the guest sends it. *)
Record SnapRow : Type := {
  row_fd : Z;
  row_kind_byte : Z;
  row_key : bytes;
  row_val : bytes
}.

Definition row_ok (r : SnapRow) : Prop :=
  - 2 ^ 31 <= row_fd r < 2 ^ 31 /\ in_u 8 (row_kind_byte r) /\
  len (row_key r) <= MAX_KEY_BYTES /\ 0 < len (row_val r) <= MAX_VAL_BYTES.

Definition encode_row (schema : Z) (r : SnapRow) : bytes :=
  to_le 4 (row_fd r mod 2 ^ 32) ++
  (if schema =? AGG_SNAPSHOT_SCHEMA_V1 then [u8b (row_kind_byte r); u8b 0; u8b 0; u8b 0] else []) ++
  to_le 4 (len (row_key r)) ++ row_key r ++ to_le 4 (len (row_val r)) ++ row_val r.

Definition encode_snapshot (head : bytes) (schema : Z) (rows : list SnapRow) : bytes :=
  head ++ to_le 8 schema ++ to_le 4 (Z.of_nat (length rows)) ++ concat (map (encode_row schema) rows).

(** Folding rows: the reference. *)
Fixpoint fold_rows {E} (target : bytes) (agg_names : AggNames) (schema : Z) (rows : list SnapRow)
    (reducer : CrossTargetAggReducer) : outcome E CrossTargetAggReducer :=
  match rows with
  | [] => Ret reducer
  | r :: rows =>
      reducer ← ingest_row target agg_names schema (row_fd r)
                  (if schema =? AGG_SNAPSHOT_SCHEMA_V1 then row_kind_byte r
                   else AGG_SNAPSHOT_ROW_KIND_UNKNOWN) (row_key r) (row_val r) reducer;
      fold_rows target agg_names schema rows reducer
  end.

Lemma ingest_rows_exact {E} target agg_names schema b rows : forall p rest reducer,
  Forall row_ok rows -> suffix_at b p (concat (map (encode_row schema) rows) ++ rest) ->
  ingest_rows (E:=E) target agg_names schema b (length rows) p reducer
    = fold_rows target agg_names schema rows reducer.
Proof.
  induction rows as [|r rows IH]; intros p rest reducer Hok S; [done|].
  apply list.Forall_cons in Hok as [(Hfd & Hkb & Hk & Hv) Hok].
  cbn [map concat] in S. unfold encode_row at 1 in S. rewrite <- !app_assoc in S.
  destruct (suffix_at_len _ _ _ S) as [Hp Hlen]. pose proof (len_nonneg (row_key r)).
  cbn [length ingest_rows fold_rows]. unfold MAX_KEY_BYTES, MAX_VAL_BYTES in *.
  pose proof (suffix_at_le (E:=E) 4 b p (row_fd r mod 2 ^ 32) _ S
    ltac:(unfold in_u; change (8 * Z.of_nat 4) with 32; apply Z.mod_pos_bound; lia)) as Hrfd.
  pose proof S as S1. adv S1 (p + 4).
  assert (Hkind : exists kb, (if schema =? AGG_SNAPSHOT_SCHEMA_V1 then byte_at (E:=E) b (p + 4)
            else Ret AGG_SNAPSHOT_ROW_KIND_UNKNOWN) = Ret kb /\
          kb = (if schema =? AGG_SNAPSHOT_SCHEMA_V1 then row_kind_byte r
                else AGG_SNAPSHOT_ROW_KIND_UNKNOWN)).
  { destruct (schema =? _); [|by eexists]. eexists. split; [|reflexivity].
    eapply suffix_at_byte; [exact S1|done]. }
  destruct Hkind as (kb & Hkr & ->).
  set (prefix := if schema =? AGG_SNAPSHOT_SCHEMA_V1 then 8 else 4) in *.
  assert (S2 : suffix_at b (p + prefix) (to_le 4 (len (row_key r)) ++ row_key r ++
            to_le 4 (len (row_val r)) ++ row_val r ++ concat (map (encode_row schema) rows) ++ rest)).
  { unfold prefix. destruct (schema =? _).
    - adv S1 (p + 8). exact S1.
    - exact S1. }
  destruct (suffix_at_len _ _ _ S2) as [Hp2 Hlen2]. clear Hlen. len_simpl. pose_lens.
  simpl Z.of_nat in *.
  pose proof (suffix_at_le (E:=E) 4 b _ (len (row_key r)) _ S2
    ltac:(unfold in_u; simpl; lia)) as Hks.
  pose proof S2 as S3. adv S3 (p + prefix + 4).
  pose proof (suffix_at_slice (E:=E) b _ (row_key r) _ (p + prefix + 4 + len (row_key r)) S3 ltac:(lia)) as Hkey.
  pose proof S3 as S4. adv S4 (p + prefix + 4 + len (row_key r)).
  pose proof (suffix_at_le (E:=E) 4 b _ (len (row_val r)) _ S4
    ltac:(unfold in_u; simpl; lia)) as Hvs.
  pose proof S4 as S5. adv S5 (p + prefix + 4 + len (row_key r) + 4).
  pose proof (suffix_at_slice (E:=E) b _ (row_val r) _
    (p + prefix + 4 + len (row_key r) + 4 + len (row_val r)) S5 ltac:(lia)) as Hval.
  pose proof S5 as S6. adv S6 (p + prefix + 4 + len (row_key r) + 4 + len (row_val r)).
  destruct (Z.ltb_spec (len b) (p + prefix + 4)); [lia|].
  rewrite Hrfd, bind_Ret, Hkr, bind_Ret, Hks, bind_Ret.
  destruct (Z.ltb_spec 32 (len (row_key r))); [lia|].
  destruct (Z.ltb_spec (len b) (p + prefix + 4 + len (row_key r) + 4)); [lia|].
  rewrite Hvs, bind_Ret. destruct (Z.eqb_spec (len (row_val r)) 0); [lia|].
  destruct (Z.ltb_spec 4096 (len (row_val r))); [lia|]. cbn [orb].
  destruct (Z.ltb_spec (len b) (p + (prefix + 4 + len (row_key r) + 4 + len (row_val r)))); [lia|].
  rewrite Hkey, bind_Ret, Hval, bind_Ret, (to_signed_mod 32) by done.
  destruct (ingest_row _ _ _ _ _ _ _ reducer) as [reducer'| |]; [|done|done].
  rewrite !bind_Ret. apply (IH _ rest); [done|].
  replace (p + (prefix + 4 + len (row_key r) + 4 + len (row_val r)))
    with (p + prefix + 4 + len (row_key r) + 4 + len (row_val r)) by lia. exact S6.
Qed.

(** C34: ingesting a snapshot that a guest encoded, in either schema, folds
    exactly its rows into the reducer, in order. *)
Theorem snapshot_round_trip target head schema rows rest agg_names reducer :
  len head = 16 -> agg_names <> ∅ -> Forall row_ok rows -> Z.of_nat (length rows) < 2 ^ 32 ->
  schema = AGG_SNAPSHOT_SCHEMA_V0 \/ schema = AGG_SNAPSHOT_SCHEMA_V1 ->
  ingest_agg_snapshot (E:=Empty_set) target (encode_snapshot head schema rows ++ rest) agg_names reducer
    = fold_rows target agg_names schema rows reducer.
Proof.
  intros Hh Hne Hok Hn Hs. set (b := encode_snapshot head schema rows ++ rest).
  assert (S : suffix_at b 0 (head ++ to_le 8 schema ++ to_le 4 (Z.of_nat (length rows)) ++
            concat (map (encode_row schema) rows) ++ rest)).
  { unfold b, encode_snapshot. rewrite <- !app_assoc. apply suffix_at_0. }
  destruct (suffix_at_len _ _ _ S) as [_ Hlen]. len_simpl. pose_lens. simpl Z.of_nat in *.
  unfold ingest_agg_snapshot. destruct (Z.ltb_spec (len b) 28); [lia|].
  rewrite bool_decide_false by done. cbn [orb].
  pose proof S as S1. adv S1 16.
  rewrite (suffix_at_le (E:=Empty_set) 8 b 16 schema _ S1), bind_Ret
    by (destruct Hs as [-> | ->]; vm_compute; split; congruence).
  assert (Hneg : negb (schema =? AGG_SNAPSHOT_SCHEMA_V0) && negb (schema =? AGG_SNAPSHOT_SCHEMA_V1) = false)
    by (destruct Hs as [-> | ->]; reflexivity).
  rewrite Hneg. adv S1 24.
  rewrite (suffix_at_le (E:=Empty_set) 4 b 24 (Z.of_nat (length rows)) _ S1), bind_Ret
    by (unfold in_u; simpl Z.mul; lia).
  rewrite Nat2Z.id. adv S1 28. by apply (ingest_rows_exact _ _ _ _ _ _ rest).
Qed.

Lemma to_signed_bounds v : in_u 32 v -> - 2 ^ 31 <= to_signed 32 v < 2 ^ 31.
Proof.
  unfold in_u, to_signed. change (2 ^ (32 - 1)) with 2147483648. change (2 ^ 32) with 4294967296.
  change (2 ^ 31) with 2147483648. intros H. destruct (Z.ltb_spec v 2147483648); lia.
Qed.

Lemma ingest_rows_total {E} target agg_names schema b n : forall p, 0 <= p ->
  exists rows, Forall row_ok rows /\
    forall reducer, ingest_rows (E:=E) target agg_names schema b n p reducer
      = fold_rows target agg_names schema rows reducer.
Proof.
  induction n as [|n IH]; intros p Hp; [by exists []|]. cbn [ingest_rows].
  set (prefix := if schema =? AGG_SNAPSHOT_SCHEMA_V1 then 8 else 4).
  assert (Hpre : 4 <= prefix /\ ((schema =? AGG_SNAPSHOT_SCHEMA_V1) = true -> prefix = 8))
    by (unfold prefix; destruct (schema =? _); split; [lia|done|lia|done]).
  destruct (Z.ltb_spec (len b) (p + prefix + 4)) as [|H1]; [by exists []|].
  destruct (le_at_ok (E:=E) 4 b p) as (fd & Hfd & Ufd); [lia|simpl; lia|].
  destruct (le_at_ok (E:=E) 4 b (p + prefix)) as (ks & Hks & Uks); [lia|simpl; lia|].
  assert (Hkb : exists kb, (if schema =? AGG_SNAPSHOT_SCHEMA_V1 then byte_at (E:=E) b (p + 4)
            else Ret AGG_SNAPSHOT_ROW_KIND_UNKNOWN) = Ret kb /\ in_u 8 kb /\
          (if schema =? AGG_SNAPSHOT_SCHEMA_V1 then kb else AGG_SNAPSHOT_ROW_KIND_UNKNOWN) = kb).
  { destruct (schema =? _); [|exists 0; split; [done|split; [split; done|done]]].
    destruct (byte_at_ok (E:=E) b (p + 4)) as (kb & Hkb & Ukb); [lia|by exists kb]. }
  destruct Hkb as (kb & Hkb & Ukb & Ekb). rewrite Hfd. setoid_rewrite bind_Ret.
  rewrite Hkb. setoid_rewrite bind_Ret. rewrite Hks. setoid_rewrite bind_Ret.
  unfold MAX_KEY_BYTES, MAX_VAL_BYTES. destruct Uks as [Uks _].
  destruct (Z.ltb_spec 32 ks) as [|H2]; [by exists []|].
  destruct (Z.ltb_spec (len b) (p + prefix + 4 + ks + 4)) as [|H3]; [by exists []|].
  destruct (le_at_ok (E:=E) 4 b (p + prefix + 4 + ks)) as (vs & Hvs & Uvs); [lia|simpl; lia|].
  rewrite Hvs. setoid_rewrite bind_Ret. destruct Uvs as [Uvs _].
  destruct (Z.eqb_spec vs 0) as [|H4]; [by exists []|].
  destruct (Z.ltb_spec 4096 vs) as [|H5]; [by exists []|]. cbn [orb].
  destruct (Z.ltb_spec (len b) (p + (prefix + 4 + ks + 4 + vs))) as [|H6]; [by exists []|].
  destruct (slice_ok (E:=E) b (p + prefix + 4) (p + prefix + 4 + ks)) as (key & Hk & Lk); [lia|lia|].
  destruct (slice_ok (E:=E) b (p + prefix + 4 + ks + 4) (p + prefix + 4 + ks + 4 + vs))
    as (val & Hv & Lv); [lia|lia|].
  destruct (IH (p + (prefix + 4 + ks + 4 + vs)) ltac:(lia)) as (rows & Hok & Hrows).
  exists ({| row_fd := to_signed 32 fd; row_kind_byte := kb; row_key := key; row_val := val |} :: rows).
  split.
  - constructor; [|done]. split; [by apply to_signed_bounds|]. split; [done|]. simpl.
    unfold MAX_KEY_BYTES, MAX_VAL_BYTES. lia.
  - intros reducer. rewrite Hk, bind_Ret, Hv, bind_Ret. cbn [fold_rows row_fd row_kind_byte row_key row_val].
    rewrite Ekb. destruct (ingest_row _ _ _ _ _ _ _ reducer) as [reducer'| |]; [|done|done].
    rewrite !bind_Ret. apply Hrows.
Qed.

(** whatever bytes a guest sends, reading a snapshot does not go out of
    bounds: it folds the rows of some well-formed list, the same for every
    reducer, so nothing but the decoding of a value or an overflowing merge
    can fail. *)
Theorem hostile_snapshot target payload agg_names :
  exists schema rows, Forall row_ok rows /\
    forall reducer, ingest_agg_snapshot (E:=Empty_set) target payload agg_names reducer
      = fold_rows target agg_names schema rows reducer.
Proof.
  unfold ingest_agg_snapshot. destruct (Z.ltb_spec (len payload) 28) as [|H28]; [by exists 0, []|].
  destruct (bool_decide (agg_names = ∅)); [by exists 0, []|]. cbn [orb].
  destruct (le_at_ok (E:=Empty_set) 8 payload 16) as (schema & -> & _); [lia|simpl; lia|].
  setoid_rewrite bind_Ret. destruct (negb _ && negb _); [by exists 0, []|].
  destruct (le_at_ok (E:=Empty_set) 4 payload 24) as (n & -> & _); [lia|simpl; lia|].
  setoid_rewrite bind_Ret. exists schema. apply (ingest_rows_total (E:=Empty_set)). lia.
Qed.

(** *** Witnesses *)

Module SampleSnapshot.
Definition names : AggNames := {[ 200 := (str "count", str "rx") ]}.
Definition row : SnapRow :=
  {| row_fd := 200; row_kind_byte := 1; row_key := str "linux" ++ replicate 3 (u8b 0);
     row_val := to_le 8 42 |}.
Lemma row_fine : Forall row_ok [row].
Proof. repeat constructor; vm_compute; congruence. Qed.
End SampleSnapshot.

Lemma snapshot_round_trip_witness :
  ingest_agg_snapshot (E:=Empty_set) (str "vm")
    (encode_snapshot (replicate 16 (u8b 0)) 1 [SampleSnapshot.row] ++ []) SampleSnapshot.names []
  = Ret [((str "rx", [quote] ++ str "linux" ++ [quote]),
          {| kind := Count; value := Scalar 42; contributors := [(str "vm", Scalar 42)] |})].
Proof.
  rewrite snapshot_round_trip;
    [vm_compute; reflexivity|reflexivity|vm_compute; discriminate|apply SampleSnapshot.row_fine
    |reflexivity|by right].
Defined.

Lemma quantize_faithful_witness :
  exists h, decode_quantize_buckets (E:=Empty_set) (words (replicate 63 0 ++ [5; 7; 0; 3]))
      = Ret (Histogram h) /\ h = [(0, 5); (1, 7); (4, 3)] /\ bt_ok h.
Proof.
  destruct (quantize_faithful (words (replicate 63 0 ++ [5; 7; 0; 3]))) as (h & H1 & H2 & _);
    [vm_compute; discriminate|].
  exists h. split; [exact H1|]. split; [|exact H2]. vm_compute in H1. injection H1 as <-. reflexivity.
Defined.

Lemma lquantize_faithful_witness :
  exists h, decode_lquantize_buckets (words (lquantize_params 0 10 10 :: [0; 0; 4; 0; 8]))
      = Histogram h /\ h = [(10, 4); (30, 8)] /\ bt_ok h.
Proof.
  destruct (lquantize_faithful 0 10 10 [0; 0; 4; 0; 8]) as (h & H1 & H2 & _);
    [split; vm_compute; congruence|split; vm_compute; congruence|split; vm_compute; congruence
    |vm_compute; discriminate|repeat constructor; vm_compute; congruence|vm_compute; discriminate|].
  exists h. split; [exact H1|]. split; [|exact H2]. vm_compute in H1. injection H1 as <-. reflexivity.
Defined.
