(* ===== verification/Wire.v ===== *)
(** The wire crate's constants, errors and byte sinks (host/bifrost-wire,
    lib.rs and the shared parts of codec.rs).

    Encoders are written against the sink interface [WireSink]; [sink_sim]
    relates the growable sink to the fixed-size one once and for all. *)

From Stdlib Require Import Strings.String.
From S2P Require Import Prelude.

Local Open Scope Z_scope.

(** ** Constants *)

Definition BFR7_MAGIC : bytes := map u8b [0x42; 0x46; 0x52; 0x37].

Definition PROBE_TYPE_UPROBE : Z := 2.
Definition PROBE_TYPE_URETPROBE : Z := 3.
Definition PROBE_TYPE_UPROBE_BY_SYM : Z := 4.
Definition PROBE_TYPE_URETPROBE_BY_SYM : Z := 5.
Definition PROBE_TYPE_FENTRY : Z := 6.
Definition PROBE_TYPE_FEXIT : Z := 7.
Definition PROBE_TYPE_TRACEPOINT : Z := 8.
Definition PROBE_TYPE_USDT : Z := 9.
Definition PROBE_TYPE_PROFILE_TIMER : Z := 10.
Definition SELF_TRACE_DRIVER_PROBE_ID : Z := 0xFFFFFFFB.
Definition SELF_TRACE_LIBKRUN_PROBE_ID : Z := 0xFFFFFFFA.
Definition SELF_TRACE_CLI_PROBE_ID : Z := 0xFFFFFFF9.
Definition SELF_SUBSYS_LOADPROG : Z := 1.
Definition SELF_SUBSYS_SLOT : Z := 2.
Definition SELF_SUBSYS_UPROBE : Z := 3.
Definition SELF_SUBSYS_FBT : Z := 4.
Definition SELF_SUBSYS_TRACEPT : Z := 5.
Definition SELF_SUBSYS_USDT : Z := 6.
Definition SELF_SUBSYS_AGG : Z := 7.
Definition SELF_SUBSYS_RECORD : Z := 8.
Definition SELF_SUBSYS_OBSERVER : Z := 9.
Definition SELF_SUBSYS_CONTROL : Z := 10.
Definition SELF_SUBSYS_PARSE : Z := 11.
Definition SELF_SUBSYS_LOWER : Z := 12.
Definition SELF_SUBSYS_RENDER : Z := 13.
Definition SELF_LEVEL_TRACE : Z := 0.
Definition SELF_LEVEL_DEBUG : Z := 1.
Definition SELF_LEVEL_INFO : Z := 2.
Definition SELF_LEVEL_WARN : Z := 3.
Definition SELF_LEVEL_ERROR : Z := 4.
Definition SELF_FIELD_U64 : Z := 0.
Definition SELF_FIELD_I64 : Z := 1.
Definition SELF_FIELD_BYTES : Z := 2.
Definition SELF_FIELD_BOOL : Z := 3.
Definition SELF_TRACE_MAX_BODY : Z := 4096.
Definition PROFILE_SAMPLE_FLAG_KERNEL_CONTEXT : Z := 1.
Definition PROFILE_SAMPLE_FLAG_STACK_TRUNCATED : Z := Z.shiftl 1 1.
Definition PROFILE_SAMPLE_FLAG_STACK_INCOMPLETE : Z := Z.shiftl 1 2.
Definition FIELD_RELOC_OFFSET : Z := 0.
Definition FIELD_RELOC_SIZE : Z := 1.
Definition FIELD_RELOC_EXISTS : Z := 2.
Definition FIELD_RELOC_NAME_MAX : Z := 255.
Definition PROGRAM_FLAG_FIELD_RELOCS_PRESENT : Z := Z.shiftl 1 8.
Definition MAX_PROFILE_FRAMES : Z := 256.
Definition D4_KIND_LOAD_PROG : Z := 1.
Definition D4_KIND_OBSERVER_ATTACH : Z := 2.
Definition D4_KIND_OBSERVER_DETACH : Z := 3.
Definition D4_KIND_OBSERVER_HELLO : Z := 4.
Definition D4_KIND_RSP_OK : Z := 100.
Definition D4_KIND_RSP_ERR : Z := 101.
Definition RSP_LOADPROG_STATUS_OK : Z := 0.
Definition RSP_LOADPROG_STATUS_SLOT_EXHAUSTED : Z := 1.
Definition RSP_LOADPROG_STATUS_JIT_FAIL : Z := 2.
Definition RSP_LOADPROG_STATUS_BTF_RESOLVE_FAIL : Z := 3.
Definition RSP_LOADPROG_STATUS_VERIFIER_FAIL : Z := 4.
Definition RSP_LOADPROG_STATUS_TARGET_NOT_FOUND : Z := 5.
Definition RSP_LOADPROG_STATUS_OTHER : Z := 99.
Definition D4_KIND_AGG_PUSH : Z := 102.
Definition D4_KIND_RECORD_PUSH : Z := 103.
Definition D4_KIND_LOAD_PROG_STATUS : Z := 104.
Definition D4_KIND_SELF_TRACE_PUSH : Z := 105.
Definition D4_KIND_OBSERVER_HELLO_ACK : Z := 106.
Definition D4_KIND_PROFILE_SAMPLE : Z := 107.
Definition D4_KIND_PAD : Z := 255.
Definition BIFROST_WIRE_MAJOR : Z := 1.
Definition BIFROST_WIRE_MINOR : Z := 0.
Definition FEATURE_HANDSHAKE_V1 : Z := 1.
Definition FEATURE_EXTENSIBLE_RECORDS : Z := Z.shiftl 1 1.
Definition FEATURE_LOADPROG_STATUS : Z := Z.shiftl 1 16.
Definition FEATURE_SELF_TRACE_EMIT : Z := Z.shiftl 1 17.
Definition FEATURE_USDT : Z := Z.shiftl 1 18.
Definition FEATURE_FBT : Z := Z.shiftl 1 19.
Definition FEATURE_RAWTP : Z := Z.shiftl 1 20.
Definition FEATURE_UPROBE_BY_SYM : Z := Z.shiftl 1 21.
Definition FEATURE_MULTI_OBSERVER : Z := Z.shiftl 1 22.
Definition FEATURE_PROFILE_N : Z := Z.shiftl 1 32.
Definition FEATURE_BTF_FIELD_RELOC : Z := Z.shiftl 1 33.
Definition FEATURE_BASELINE : Z :=
  fold_left Z.lor [FEATURE_EXTENSIBLE_RECORDS; FEATURE_LOADPROG_STATUS;
    FEATURE_SELF_TRACE_EMIT; FEATURE_USDT; FEATURE_FBT; FEATURE_RAWTP;
    FEATURE_UPROBE_BY_SYM] FEATURE_HANDSHAKE_V1.
Definition HELLO_REJECT_WIRE_MAJOR_MISMATCH : Z := 1.
Definition HELLO_REJECT_MISSING_REQUIRED_FEATURE : Z := 2.
Definition HELLO_REJECT_OBSERVER_BUSY : Z := 3.
Definition HELLO_REJECT_OTHER : Z := 99.
Definition SHMEM_MAGIC : Z := 0x48534642.
Definition SHMEM_VERSION : Z := 5.
Definition SHMEM_NUM_CPUS_MAX : Z := 16.
Definition SHMEM_PER_CPU_STATE_OFF : Z := 128.
Definition SHMEM_PER_CPU_STATE_STRIDE : Z := 128.
Definition SHMEM_DROP_CLASS_PRINCIPAL : Z := 0.
Definition SHMEM_DROP_CLASS_AGG : Z := 1.
Definition SHMEM_DROP_CLASS_STKSTR : Z := 2.
Definition SHMEM_DROP_CLASS_DBLERR : Z := 3.
Definition SHMEM_DROP_CLASS_MAX : Z := 4.
Definition SHMEM_RECORD_HDR_SIZE : Z := 8.
Definition SHMEM_RECORD_FLAG_READY : Z := 1.
Definition SHMEM_RECORD_FLAG_PADDING : Z := Z.shiftl 1 1.
Definition SHMEM_RECORD_MAX_PAYLOAD : Z := 65536.

(** ** [WireError] *)

Inductive WireError : Type :=
| Truncated (need have : Z) (field : string)
| UnsupportedMagic (magic : bytes)
| PathTooLong (l : Z)
| BasenameOutOfRange (l : Z)
| SymbolOutOfRange (l : Z)
| ProviderOutOfRange (l : Z)
| ProbeOutOfRange (l : Z)
| KfuncNameOutOfRange (l : Z)
| BadProbeType (ty : Z)
| TooLarge (limit got : Z) (field : string).

(** [need], and the length checks written out at the head of each decoder:
    at least [n] bytes from offset [at_]. *)
Definition need (b : bytes) (at_ n : Z) (field : string) : outcome WireError unit :=
  e ← add64 at_ n;
  if len b <? e then Throw (Truncated e (len b) field) else Ret tt.

(** ** Fixed headers ([typed]) *)

(** [name32[..n].copy_from_slice(&nb[..n])] with [n = nb.len().min(31)]. *)
Definition name32 (nb : bytes) : bytes :=
  let n := Nat.min (length nb) 31 in
  take n nb ++ replicate (32 - n) (u8b 0).

Record BifrostWrapperHeader : Type := { wh_magic : bytes; num_progs : Z }.

Definition wrapper_header_new (n : Z) : BifrostWrapperHeader :=
  {| wh_magic := BFR7_MAGIC; num_progs := n |}.

Definition wrapper_header_bytes (h : BifrostWrapperHeader) : bytes :=
  wh_magic h ++ to_le 4 (num_progs h).

Record BifrostProgramHeader : Type := { hdr_target_name : bytes; hdr_flags : Z }.

Definition program_header_new (target_name : bytes) (probe_type : Z)
  : BifrostProgramHeader :=
  {| hdr_target_name := name32 target_name; hdr_flags := probe_type |}.

Definition program_header_bytes (h : BifrostProgramHeader) : bytes :=
  hdr_target_name h ++ to_le 4 (hdr_flags h).

(** ** Sinks *)

Class WireSink (S : Type) : Type := sink_write : bytes -> st S WireError unit.

(** [Vec<u8>] *)
#[export] Instance vec_sink : WireSink bytes := fun b v => (Ret tt, v ++ b).

Record SliceSink : Type := { sink_buf : bytes; sink_cursor : Z }.

Definition slice_sink_new (buf : bytes) : SliceSink :=
  {| sink_buf := buf; sink_cursor := 0 |}.

Definition written (s : SliceSink) : Z := sink_cursor s.

Definition slice_sink_put (b : bytes) (s : SliceSink) : outcome WireError SliceSink :=
  need ← add64 (sink_cursor s) (len b);
  if len (sink_buf s) <? need
  then Throw (Truncated need (len (sink_buf s)) "slice-sink")
  else
    buf' ← write (sink_buf s) (sink_cursor s) b;
    Ret {| sink_buf := buf'; sink_cursor := sink_cursor s + len b |}.

#[export] Instance slice_sink : WireSink SliceSink := fun b s =>
  match slice_sink_put b s with
  | Ret s' => (Ret tt, s')
  | Throw e => (Throw e, s)
  | Panic => (Panic, s)
  end.

(** ** A fixed-size sink behaves as the growable one, or reports truncation

    [fits buf0 s v]: the sink [s], opened on [buf0], holds exactly [v] and
    has left the rest of [buf0] alone. *)

Definition fits (buf0 : bytes) (s : SliceSink) (v : bytes) : Prop :=
  len v <= len buf0 /\ sink_cursor s = len v /\
  sink_buf s = v ++ drop (length v) buf0.

(** A run on the growable sink only appends, and never panics. *)
Definition grows {A} (m : st bytes WireError A) : Prop :=
  forall v, (exists x, snd (m v) = v ++ x) /\ fst (m v) <> Panic.

(** From sinks holding [v], [m1] on the fixed sink follows [m2] on the
    growable one as long as the bytes fit; otherwise it stops with
    [Truncated] at some prefix of them. *)
Definition follows {A} (m1 : st SliceSink WireError A) (m2 : st bytes WireError A)
    (buf0 : bytes) (s : SliceSink) (v : bytes) : Prop :=
  if len (snd (m2 v)) <=? len buf0
  then exists s', m1 s = (fst (m2 v), s') /\ fits buf0 s' (snd (m2 v))
  else exists s' n v', m1 s = (Throw (Truncated n (len buf0) "slice-sink"), s') /\
       len buf0 < n /\ fits buf0 s' v' /\ exists x, snd (m2 v) = v' ++ x.

Definition sink_sim {A} (m1 : st SliceSink WireError A) (m2 : st bytes WireError A) : Prop :=
  grows m2 /\
  forall buf0 s v, slice_len_ok buf0 -> fits buf0 s v -> follows m1 m2 buf0 s v.

Lemma fits_new buf : fits buf (slice_sink_new buf) [].
Proof. unfold fits. simpl. split_and!; [apply len_nonneg|done|by rewrite drop_0]. Qed.

(** A run that leaves the sink alone. *)
Lemma sim_still {A} (o : outcome WireError A) :
  o <> Panic -> sink_sim (fun s => (o, s)) (fun v => (o, v)).
Proof.
  intros Ho. split.
  - intros v. split; [|done]. exists []. by rewrite app_nil_r.
  - intros buf0 s v _ Hf. unfold follows. simpl.
    destruct (Z.leb_spec (len v) (len buf0)); [by exists s|]. destruct Hf as [? _]. lia.
Qed.

Lemma sim_ret {A} (a : A) : sink_sim (mret a) (mret a).
Proof. by apply (sim_still (Ret a)). Qed.

Lemma sim_throw {A} (e : WireError) : sink_sim (A:=A) (st_throw e) (st_throw e).
Proof. by apply (sim_still (Throw e)). Qed.

Lemma fits_len buf0 s v : fits buf0 s v -> len (sink_buf s) = len buf0.
Proof.
  intros (H1 & H2 & ->). unfold len in *. rewrite length_app, length_drop. lia.
Qed.

Lemma sim_write b : slice_len_ok b -> sink_sim (sink_write b) (sink_write b).
Proof.
  unfold slice_len_ok. intros Hb. split; [intros v; split; [by exists b|done]|].
  intros buf0 s v Hl Hf. unfold slice_len_ok in Hl. unfold follows. cbn.
  pose proof (fits_len _ _ _ Hf) as Hlen. pose proof Hf as (H1 & H2 & H3).
  unfold sink_write, slice_sink, slice_sink_put. rewrite H2, Hlen, len_app.
  unfold add64. destruct (Z.leb_spec (len v + len b) U64_MAX); [|unfold U64_MAX in *; lia].
  rewrite bind_Ret.
  destruct (Z.leb_spec (len v + len b) (len buf0)) as [Hle|Hgt].
  - destruct (Z.ltb_spec (len buf0) (len v + len b)); [lia|].
    rewrite write_ok by (rewrite ?Hlen; pose_lens; lia). rewrite bind_Ret.
    eexists. split; [reflexivity|]. unfold fits. simpl.
    split_and!; [rewrite len_app; lia|rewrite len_app; lia|].
    rewrite H3. replace (Z.to_nat (len v)) with (length v) by (unfold len; lia).
    rewrite take_app_length, <- app_assoc. do 2 f_equal.
    rewrite drop_app_ge by lia. rewrite drop_drop, length_app. f_equal. lia.
  - destruct (Z.ltb_spec (len buf0) (len v + len b)); [|lia].
    exists s, (len v + len b), v. split_and!; [done|lia|done|by exists b].
Qed.

Lemma sim_bind {A B} (m1 : st SliceSink WireError A) m2
    (k1 : A -> st SliceSink WireError B) k2 :
  sink_sim m1 m2 -> (forall a, sink_sim (k1 a) (k2 a)) ->
  sink_sim (m1 ≫= k1) (m2 ≫= k2).
Proof.
  intros [Hg Hm] Hk. split.
  - intros v. specialize (Hg v). unfold mbind, st_bind.
    destruct (m2 v) as [[a|e|] v1]; [|by destruct Hg|by destruct Hg].
    destruct Hg as [[x Hx] _]. simpl in Hx.
    destruct (Hk a) as [Hg2 _]. destruct (Hg2 v1) as [[y ->] Hp]. split; [|done].
    exists (x ++ y). by rewrite Hx, <- app_assoc.
  - intros buf0 s v Hl Hf. specialize (Hg v). specialize (Hm buf0 s v Hl Hf).
    revert Hg Hm. unfold follows, mbind, st_bind.
    destruct (m2 v) as [o v1]; cbn [fst snd]. intros [[x Hx] Hp] Hm.
    destruct o as [a|e|]; [|cbn [fst snd]; destruct (_ <=? _)|done].
    2:{ destruct Hm as (s1 & -> & Hf1). by exists s1. }
    2:{ destruct Hm as (s1 & n & v'' & -> & ?). by exists s1, n, v''. }
    destruct (Hk a) as [Hg2 Hk2]. destruct (Hg2 v1) as [[y Hy] _].
    destruct (Z.leb_spec (len v1) (len buf0)) as [Hle|Hgt].
    + destruct Hm as (s1 & -> & Hf1). exact (Hk2 buf0 s1 v1 Hl Hf1).
    + destruct Hm as (s1 & n & v'' & -> & Hn & Hf1 & [z Hz]).
      assert (Hgt2 : len buf0 < len (snd (k2 a v1))) by (rewrite Hy; len_lia).
      destruct (Z.leb_spec (len (snd (k2 a v1))) (len buf0)); [lia|].
      exists s1, n, v''. split_and!; [done..|]. exists (z ++ y). by rewrite Hy, Hz, <- app_assoc.
Qed.

Lemma sim_forM {A} (l : list A) (f1 : A -> st SliceSink WireError unit) f2 :
  Forall (fun x => sink_sim (f1 x) (f2 x)) l -> sink_sim (st_forM l f1) (st_forM l f2).
Proof.
  induction 1 as [|x l Hx _ IH]; [apply sim_ret|]. cbn [st_forM].
  by apply sim_bind.
Qed.

Lemma sim_if {A} (c : bool) (a1 b1 : st SliceSink WireError A) a2 b2 :
  (c = true -> sink_sim a1 a2) -> (c = false -> sink_sim b1 b2) ->
  sink_sim (if c then a1 else b1) (if c then a2 else b2).
Proof. destruct c; auto. Qed.

(** [sink_go] walks an encoder's body; what is left are the lengths of the
    chunks it writes. *)
Create HintDb sink.
#[export] Hint Resolve sim_ret sim_throw : sink.
Ltac sink_step :=
  match goal with
  | |- sink_sim (_ ≫= _) _ => apply sim_bind; [|intros ?]
  | |- sink_sim (if _ then _ else _) _ => apply sim_if; intros ?
  | |- sink_sim (sink_write _) _ => apply sim_write
  | |- sink_sim _ _ => solve [auto with sink]
  end.
Ltac sink_go := repeat sink_step.

(** What the two kinds of sinks do, from an empty start. *)
Lemma sink_sim_run {A} (m1 : st SliceSink WireError A) m2 buf :
  sink_sim m1 m2 -> slice_len_ok buf -> follows m1 m2 buf (slice_sink_new buf) [].
Proof. intros [_ H] Hb. apply H; [done|]. apply fits_new. Qed.

(** *** Encoding into a [Vec] *)

(** [emits m x]: on the growable sink, [m] succeeds and appends [x]. *)
Definition emits {A} (m : st bytes WireError A) (a : A) (x : bytes) : Prop :=
  forall v, m v = (Ret a, v ++ x).

Lemma emits_ret {A} (a : A) : emits (mret a) a [].
Proof. intros v. by rewrite app_nil_r. Qed.

Lemma emits_write b : emits (sink_write b) tt b.
Proof. done. Qed.

Lemma emits_bind {A B} (m : st bytes WireError A) (k : A -> st bytes WireError B) a b x y :
  emits m a x -> emits (k a) b y -> emits (m ≫= k) b (x ++ y).
Proof.
  intros Hm Hk v. unfold mbind, st_bind. rewrite Hm, Hk. by rewrite <- app_assoc.
Qed.

Lemma emits_forM {A} (l : list A) (f : A -> st bytes WireError unit) (g : A -> bytes) :
  Forall (fun x => emits (f x) tt (g x)) l -> emits (st_forM l f) tt (concat (map g l)).
Proof.
  induction 1 as [|x l Hx _ IH]; [apply emits_ret|]. cbn [st_forM map concat].
  by eapply emits_bind.
Qed.

Ltac emits_step :=
  match goal with
  | |- emits (_ ≫= _) _ _ => eapply emits_bind
  | |- emits (sink_write _) _ _ => apply emits_write
  | |- emits (mret _) _ _ => apply emits_ret
  end.

(** *** Fixed headers *)

Lemma len_name32 nb : len (name32 nb) = 32.
Proof.
  unfold name32, len. rewrite length_app, length_take, length_replicate. lia.
Qed.

#[export] Hint Rewrite len_name32 : len.

(** *** [need] *)

Lemma need_ok b at_ n f :
  0 <= at_ -> at_ + n <= len b -> slice_len_ok b -> need b at_ n f = Ret tt.
Proof.
  unfold slice_len_ok, need, add64, U64_MAX. intros.
  destruct (Z.leb_spec (at_ + n) 18446744073709551615); [|lia]. rewrite bind_Ret.
  destruct (Z.ltb_spec (len b) (at_ + n)); [lia|done].
Qed.

Lemma need_safe b at_ n f :
  at_ + n <= U64_MAX -> safe (need b at_ n f).
Proof.
  intros H. unfold need, add64. destruct (Z.leb_spec (at_ + n) U64_MAX); [|lia].
  rewrite bind_Ret. by destruct (_ <? _).
Qed.

Lemma need_Ret b at_ n f u : need b at_ n f = Ret u -> at_ + n <= len b.
Proof.
  unfold need, add64. destruct (_ <=? _); [|done]. rewrite bind_Ret.
  destruct (Z.ltb_spec (len b) (at_ + n)); [done|lia].
Qed.
