(* ===== verification/FailStop.v ===== *)
(** The fail-stop iterator that [ProgramIter], [SelfFieldIter] and
    [FieldRelocIter] share (host/bifrost-wire, codec.rs, codec_self_trace.rs,
    codec_field_reloc.rs): a cursor, a count of items left and a failure
    flag, over a decoder of one item.  An error is yielded once; after it, and
    after the last item, the iterator yields nothing. *)

From Stdlib Require Import Strings.String.
From S2P Require Import Prelude Wire.

Local Open Scope Z_scope.

Record FsIter : Type := {
  it_bytes : bytes;
  it_cursor : Z;
  it_remaining : Z;
  it_failed : bool
}.

Section FailStop.
Context {V : Type}.
Variable dec : bytes -> Z -> outcome WireError (Z * V).

Definition fs_next (it : FsIter) : outcome Empty_set (option (result WireError V) * FsIter) :=
  if it_failed it || (it_remaining it =? 0) then Ret (None, it)
  else
    r ← catch (dec (it_bytes it) (it_cursor it));
    match r with
    | Ok (next_cursor, view) =>
        Ret (Some (Ok view), {| it_bytes := it_bytes it; it_cursor := next_cursor;
                                it_remaining := it_remaining it - 1; it_failed := false |})
    | Err e =>
        Ret (Some (Err e), {| it_bytes := it_bytes it; it_cursor := it_cursor it;
                              it_remaining := it_remaining it; it_failed := true |})
    end.

(** ** Reading back what an encoder wrote *)

Section Exact.
Context {X : Type}.
Variables (enc : X -> bytes) (view : X -> V) (ok : X -> Prop) (b : bytes).
Hypothesis dec_enc : forall c x s, ok x -> suffix_at b c (enc x ++ s) ->
  dec b c = Ret (c + len (enc x), view x).

Lemma fs_exact l : forall c rest, Forall ok l ->
  suffix_at b c (concat (map enc l) ++ rest) ->
  collect fs_next (S (length l))
    {| it_bytes := b; it_cursor := c; it_remaining := len l; it_failed := false |}
  = Some (map (fun x => Ok (view x)) l,
          {| it_bytes := b; it_cursor := c + len (concat (map enc l));
             it_remaining := 0; it_failed := false |}).
Proof.
  induction l as [|x l IH]; intros c rest Hok Hs.
  - cbn [map concat]. rewrite len_nil, Z.add_0_r. by apply collect_none.
  - pose proof (Forall_inv Hok) as Hx. apply Forall_inv_tail in Hok.
    cbn [map concat] in Hs |- *. rewrite <- app_assoc in Hs.
    rewrite (collect_some _ _ _ (Ok (view x))
      {| it_bytes := b; it_cursor := c + len (enc x); it_remaining := len l;
         it_failed := false |}).
    + rewrite (IH _ rest Hok) by (eapply suffix_at_adv; [exact Hs|done]).
      simpl. do 3 f_equal. rewrite len_app. lia.
    + unfold fs_next. cbn [it_failed it_remaining it_bytes it_cursor orb].
      rewrite len_cons. pose_lens. destruct (Z.eqb_spec (1 + len l) 0); [lia|].
      rewrite (dec_enc _ _ _ Hx Hs). cbn. do 3 f_equal. lia.
Qed.
End Exact.

(** ** Any input: no panic, and the shape of what is yielded *)

Section Total.
Variable b : bytes.
Hypothesis dec_safe : forall c, 0 <= c <= len b -> safe (dec b c).
Hypothesis dec_adv : forall c c' v, 0 <= c <= len b -> dec b c = Ret (c', v) -> c < c' <= len b.

Definition fs_inv (it : FsIter) : Prop :=
  it_bytes it = b /\ 0 <= it_cursor it <= len b /\ 0 <= it_remaining it.

(** Items until the count runs out or the first error, which is the last
    item; the iterator then stays silent. *)
Definition fs_shape (n : Z) (items : list (result WireError V)) : Prop :=
  exists vs, (items = map Ok vs /\ len vs = n) \/
             (exists e, items = map Ok vs ++ [Err e] /\ len vs < n).

Lemma fs_silent it :
  it_failed it = true \/ it_remaining it = 0 -> fs_next it = Ret (None, it).
Proof. unfold fs_next. intros [->| ->]; [done|]. by rewrite orb_true_r. Qed.

Lemma fs_total fuel : forall it,
  fs_inv it -> it_failed it = false -> len b - it_cursor it + 1 < Z.of_nat fuel ->
  exists items it', collect fs_next fuel it = Some (items, it') /\
    fs_shape (it_remaining it) items /\ fs_next it' = Ret (None, it').
Proof.
  induction fuel as [|fuel IH]; intros it (Hb & Hc & Hr) Hf Hfu; [lia|].
  destruct (Z.eqb_spec (it_remaining it) 0) as [H0|H0].
  { assert (Hn : fs_next it = Ret (None, it)) by (apply fs_silent; by right).
    exists [], it. rewrite (collect_none _ _ _ _ Hn). split_and!; [done| |done].
    exists []. left. by rewrite H0. }
  pose proof (dec_safe _ Hc) as Hs. pose proof (dec_adv (it_cursor it)) as Ha.
  destruct (dec b (it_cursor it)) as [[c' v]|e|] eqn:D; [| |done].
  - destruct (Ha c' v Hc eq_refl) as [Ha1 Ha2].
    set (it1 := {| it_bytes := it_bytes it; it_cursor := c';
                   it_remaining := it_remaining it - 1; it_failed := false |}).
    assert (Hn : fs_next it = Ret (Some (Ok v), it1)).
    { unfold fs_next. rewrite Hf, Hb, D. destruct (Z.eqb_spec (it_remaining it) 0); [lia|].
      simpl. by rewrite <- Hb. }
    destruct (IH it1) as (items & it' & H1 & H2 & H3);
      [unfold fs_inv; simpl; split_and!; [done|lia..]|done|simpl; lia|].
    exists (Ok v :: items), it'. rewrite (collect_some _ _ _ _ _ Hn), H1.
    split_and!; [done| |done].
    destruct H2 as (vs & [[-> Hl]|(e & -> & Hl)]); simpl in Hl; exists (v :: vs);
      [left|right; exists e]; (split; [done|]); rewrite len_cons; lia.
  - set (it1 := {| it_bytes := it_bytes it; it_cursor := it_cursor it;
                   it_remaining := it_remaining it; it_failed := true |}).
    assert (Hn : fs_next it = Ret (Some (Err e), it1)).
    { unfold fs_next. rewrite Hf, Hb, D. destruct (Z.eqb_spec (it_remaining it) 0); [lia|].
      simpl. by rewrite <- Hb. }
    assert (Hn1 : fs_next it1 = Ret (None, it1)) by (apply fs_silent; by left).
    destruct fuel as [|fuel]; [pose_lens; lia|].
    exists [Err e], it1.
    rewrite (collect_some _ _ _ _ _ Hn), (collect_none _ _ _ _ Hn1).
    split_and!; [done| |done]. exists []. right. exists e. split; [done|].
    rewrite len_nil. lia.
Qed.
End Total.
End FailStop.
