(* ===== verification/SelfTrace.v ===== *)
(** The self-trace event codec and the key/value field primitive it shares
    with the HELLO handshake (host/bifrost-wire/src/codec_self_trace.rs, and
    encode_one_field_owned of codec_hello.rs).

    Offsets are plain sums where a preceding length check bounds them; the
    checks themselves use the overflow-checked [need]. *)

From Stdlib Require Import Strings.String.
From S2P Require Import Prelude Wire FailStop.

Local Open Scope Z_scope.

Inductive SelfFieldValue : Type :=
| ValU64 (v : Z) | ValI64 (v : Z) | ValBytes (b : bytes) | ValBool (v : bool).

Record SelfFieldView : Type := { key : bytes; value : SelfFieldValue }.

Record SelfEventView : Type := {
  ev_level : Z;
  ev_subsystem : Z;
  ev_msg : bytes;
  ev_fields_bytes : bytes;
  ev_num_fields : Z
}.

(** [SelfFieldIter], opened by the views' [fields()]. *)
Definition field_iter (fields_bytes : bytes) (num_fields : Z) : FsIter :=
  {| it_bytes := fields_bytes; it_cursor := 0; it_remaining := num_fields;
     it_failed := false |}.

Inductive SelfFieldOwned : Type :=
| OwnU64 (v : Z) | OwnI64 (v : Z) | OwnBytes (b : bytes) | OwnBool (v : bool).

(** [v.to_le_bytes()] of an [i64]. *)
Definition i64_to_le (v : Z) : bytes := to_le 8 (v mod 2 ^ 64).

Definition bool_byte (v : bool) : bytes := [u8b (if v then 1 else 0)].

Section Encode.
Context {S : Type} `{WireSink S}.

(** One field; [key_at] and [bytes_at] name the caller's context in errors. *)
Definition encode_field (key_at bytes_at : string) (k : bytes) (value : SelfFieldOwned)
  : st S WireError unit :=
  if U16_MAX <? len k then st_throw (Truncated U16_MAX (len k) key_at)
  else
    sink_write (to_le 2 (len k)) ;;
    sink_write k ;;
    match value with
    | OwnU64 v =>
        sink_write [u8b SELF_FIELD_U64] ;; sink_write (to_le 2 8) ;; sink_write (to_le 8 v)
    | OwnI64 v =>
        sink_write [u8b SELF_FIELD_I64] ;; sink_write (to_le 2 8) ;;
        sink_write (i64_to_le v)
    | OwnBytes b =>
        if U16_MAX <? len b then st_throw (Truncated U16_MAX (len b) bytes_at)
        else
          sink_write [u8b SELF_FIELD_BYTES] ;; sink_write (to_le 2 (len b)) ;;
          sink_write b
    | OwnBool v =>
        sink_write [u8b SELF_FIELD_BOOL] ;; sink_write (to_le 2 1) ;;
        sink_write (bool_byte v)
    end.

Definition encode_one_field_owned (k : bytes) (value : SelfFieldOwned) (at_ : string)
  : st S WireError unit :=
  encode_field
    (if String.eqb at_ "hello" then "hello-field-key-len"
     else if String.eqb at_ "hello-ack" then "hello-ack-field-key-len"
     else "field-key-len")
    (if String.eqb at_ "hello" then "hello-field-bytes-len"
     else if String.eqb at_ "hello-ack" then "hello-ack-field-bytes-len"
     else "field-bytes-len") k value.

Definition encode_event (level subsystem : Z) (msg : bytes)
    (fields : list (bytes * SelfFieldOwned)) : st S WireError unit :=
  if U16_MAX <? len msg
  then st_throw (Truncated U16_MAX (len msg) "self-event-msg-len")
  else if U16_MAX <? len fields
  then st_throw (Truncated U16_MAX (len fields) "self-event-num-fields")
  else
    sink_write [u8b level] ;;
    sink_write [u8b subsystem] ;;
    sink_write (to_le 2 (len fields)) ;;
    sink_write (to_le 2 (len msg)) ;;
    sink_write msg ;;
    st_forM fields (fun '(k, value) =>
      encode_field "self-event-field-key-len" "self-event-field-bytes-len" k value).
End Encode.

Definition decode_one_field (b : bytes) (off : Z) : outcome WireError (Z * SelfFieldView) :=
  need b off 2 "self-field-key-len" ;;
  key_len ← le_at 2 b off;
  let cursor := off + 2 in
  need b cursor (key_len + 3) "self-field-key" ;;
  k ← slice b cursor (cursor + key_len);
  let cursor := cursor + key_len in
  value_type ← byte_at b cursor;
  let cursor := cursor + 1 in
  value_len ← le_at 2 b cursor;
  let cursor := cursor + 2 in
  need b cursor value_len "self-field-value" ;;
  value_slice ← slice b cursor (cursor + value_len);
  let cursor := cursor + value_len in
  v ← (if value_type =? SELF_FIELD_U64 then
         if negb (value_len =? 8) then Throw (Truncated 8 value_len "self-field-u64-len")
         else v ← le_at 8 value_slice 0; Ret (ValU64 v)
       else if value_type =? SELF_FIELD_I64 then
         if negb (value_len =? 8) then Throw (Truncated 8 value_len "self-field-i64-len")
         else v ← le_at 8 value_slice 0; Ret (ValI64 (to_signed 64 v))
       else if value_type =? SELF_FIELD_BYTES then Ret (ValBytes value_slice)
       else if value_type =? SELF_FIELD_BOOL then
         if negb (value_len =? 1) then Throw (Truncated 1 value_len "self-field-bool-len")
         else v ← byte_at value_slice 0; Ret (ValBool (negb (v =? 0)))
       else Ret (ValBytes value_slice));
  Ret (cursor, {| key := k; value := v |}).

Definition self_field_next := fs_next decode_one_field.

Definition decode_event (b : bytes) : outcome WireError SelfEventView :=
  if len b <? 6 then Throw (Truncated 6 (len b) "self-event-header")
  else
    level ← byte_at b 0;
    subsystem ← byte_at b 1;
    num_fields ← le_at 2 b 2;
    msg_len ← le_at 2 b 4;
    if len b <? 6 + msg_len then Throw (Truncated (6 + msg_len) (len b) "self-event-msg")
    else
      msg ← slice b 6 (6 + msg_len);
      fields_bytes ← slice b (6 + msg_len) (len b);
      Ret {| ev_level := level; ev_subsystem := subsystem; ev_msg := msg;
             ev_fields_bytes := fields_bytes; ev_num_fields := num_fields |}.

Definition self_level_label (level : Z) : string :=
  if level =? SELF_LEVEL_TRACE then "trace"
  else if level =? SELF_LEVEL_DEBUG then "debug"
  else if level =? SELF_LEVEL_INFO then "info"
  else if level =? SELF_LEVEL_WARN then "warn"
  else if level =? SELF_LEVEL_ERROR then "error"
  else "???".

Definition self_subsystem_label (subsys : Z) : string :=
  if subsys =? SELF_SUBSYS_LOADPROG then "loadprog"
  else if subsys =? SELF_SUBSYS_SLOT then "slot"
  else if subsys =? SELF_SUBSYS_UPROBE then "uprobe"
  else if subsys =? SELF_SUBSYS_FBT then "fbt"
  else if subsys =? SELF_SUBSYS_TRACEPT then "tracept"
  else if subsys =? SELF_SUBSYS_USDT then "usdt"
  else if subsys =? SELF_SUBSYS_AGG then "agg"
  else if subsys =? SELF_SUBSYS_RECORD then "record"
  else if subsys =? SELF_SUBSYS_OBSERVER then "observer"
  else if subsys =? SELF_SUBSYS_CONTROL then "control"
  else if subsys =? SELF_SUBSYS_PARSE then "parse"
  else if subsys =? SELF_SUBSYS_LOWER then "lower"
  else if subsys =? SELF_SUBSYS_RENDER then "render"
  else "???".

(** ** The layout of a field *)

Definition value_bytes (v : SelfFieldOwned) : bytes :=
  match v with
  | OwnU64 v => u8b SELF_FIELD_U64 :: to_le 2 8 ++ to_le 8 v
  | OwnI64 v => u8b SELF_FIELD_I64 :: to_le 2 8 ++ i64_to_le v
  | OwnBytes b => u8b SELF_FIELD_BYTES :: to_le 2 (len b) ++ b
  | OwnBool v => u8b SELF_FIELD_BOOL :: to_le 2 1 ++ bool_byte v
  end.

Definition field_bytes (f : bytes * SelfFieldOwned) : bytes :=
  to_le 2 (len (fst f)) ++ fst f ++ value_bytes (snd f).

Definition value_ok (v : SelfFieldOwned) : Prop :=
  match v with
  | OwnU64 v => in_u 64 v
  | OwnI64 v => - 2 ^ 63 <= v < 2 ^ 63
  | OwnBytes b => len b <= U16_MAX
  | OwnBool _ => True
  end.

Definition field_ok (f : bytes * SelfFieldOwned) : Prop :=
  len (fst f) <= U16_MAX /\ value_ok (snd f).

Definition field_view (f : bytes * SelfFieldOwned) : SelfFieldView :=
  {| key := fst f;
     value := match snd f with
              | OwnU64 v => ValU64 v
              | OwnI64 v => ValI64 v
              | OwnBytes b => ValBytes b
              | OwnBool v => ValBool v
              end |}.

Lemma encode_field_emits ka ba f :
  field_ok f -> emits (encode_field ka ba (fst f) (snd f)) tt (field_bytes f).
Proof.
  intros [Hk Hv]. unfold encode_field, field_bytes.
  destruct (Z.ltb_spec U16_MAX (len (fst f))); [lia|].
  eapply emits_bind; [apply emits_write|]. eapply emits_bind; [apply emits_write|].
  destruct (snd f) as [v|v|b|v]; cbn [value_bytes value_ok] in *.
  3: destruct (Z.ltb_spec U16_MAX (len b)); [lia|].
  all: change (?a :: ?x ++ ?y) with ([a] ++ x ++ y); repeat emits_step.
Qed.


(** ** Decoding what was encoded *)

Definition value_code (v : SelfFieldOwned) : Z :=
  match v with
  | OwnU64 _ => SELF_FIELD_U64
  | OwnI64 _ => SELF_FIELD_I64
  | OwnBytes _ => SELF_FIELD_BYTES
  | OwnBool _ => SELF_FIELD_BOOL
  end.

Definition value_payload (v : SelfFieldOwned) : bytes :=
  match v with
  | OwnU64 v => to_le 8 v
  | OwnI64 v => i64_to_le v
  | OwnBytes b => b
  | OwnBool v => bool_byte v
  end.

Lemma value_bytes_shape v :
  value_bytes v = u8b (value_code v) :: to_le 2 (len (value_payload v)) ++ value_payload v.
Proof. destruct v; unfold value_bytes, value_payload, i64_to_le; by rewrite ?len_to_le. Qed.

Lemma value_payload_len v : value_ok v -> len (value_payload v) <= U16_MAX.
Proof.
  destruct v; cbn [value_ok value_payload]; unfold i64_to_le, bool_byte, U16_MAX;
    len_simpl; lia.
Qed.

Lemma decode_one_field_enc b : slice_len_ok b -> forall c f s,
  field_ok f -> suffix_at b c (field_bytes f ++ s) ->
  decode_one_field b c = Ret (c + len (field_bytes f), field_view f).
Proof.
  intros Hb c f s [Hk Hv] S. pose proof (value_payload_len _ Hv) as Hp.
  assert (Hlen : len (field_bytes f) = 2 + len (fst f) + 3 + len (value_payload (snd f))).
  { unfold field_bytes. rewrite value_bytes_shape. len_lia. }
  pose proof (suffix_at_len _ _ _ S) as [Hc Hl]. rewrite len_app, Hlen in Hl.
  unfold field_bytes in S. rewrite value_bytes_shape in S.
  rewrite <- !app_assoc, <- app_comm_cons, <- app_assoc in S.
  unfold decode_one_field. cbv zeta. pose_lens.
  rewrite need_ok, bind_Ret by (done || lia).
  rewrite (suffix_at_le _ _ _ _ _ S), bind_Ret by (apply in_u16; lia).
  adv S (c + 2). rewrite need_ok, bind_Ret by (done || lia).
  rewrite (suffix_at_slice _ _ _ _ _ S eq_refl), bind_Ret.
  adv S (c + 2 + len (fst f)).
  rewrite (suffix_at_byte _ _ _ _ S), bind_Ret by (destruct (snd f); done).
  change (u8b ?a :: ?x) with ([u8b a] ++ x) in S. adv S (c + 2 + len (fst f) + 1).
  rewrite (suffix_at_le _ _ _ _ _ S), bind_Ret by (apply in_u16; lia).
  adv S (c + 2 + len (fst f) + 1 + 2). rewrite need_ok, bind_Ret by (done || lia).
  rewrite (suffix_at_slice _ _ _ _ _ S eq_refl), bind_Ret.
  unfold field_view. destruct f as [k v]. cbn [fst snd] in *.
  replace (c + len _) with (c + 2 + len k + 1 + 2 + len (value_payload v)) by lia.
  destruct v as [v|v|x|v]; cbn [value_code value_payload value_ok] in *; unfold i64_to_le in *.
  - rewrite len_to_le. cbn [Z.eqb]. simpl Z.eqb. cbn [negb].
    by rewrite le_at_0 by done.
  - rewrite len_to_le. simpl Z.eqb. cbn [negb].
    rewrite le_at_0 by (apply Z.mod_pos_bound; lia). rewrite bind_Ret.
    by rewrite (to_signed_mod 64).
  - done.
  - by destruct v.
Qed.

(** ** Any input *)

Lemma decode_one_field_safe b c :
  slice_len_ok b -> 0 <= c <= len b -> safe (decode_one_field b c).
Proof.
  unfold slice_len_ok. intros Hb Hc. unfold decode_one_field.
  apply safe_bind; [apply need_safe; unfold U64_MAX; lia|]. intros ? H1%need_Ret.
  apply safe_bind; [apply safe_le_at; simpl; lia|]. intros kl Hkl%le_at_Ret. cbv zeta.
  unfold in_u in Hkl. simpl in Hkl.
  apply safe_bind; [apply need_safe; unfold U64_MAX; lia|]. intros ? H2%need_Ret.
  apply safe_bind; [apply safe_slice; lia|]. intros k _.
  apply safe_bind; [apply safe_byte_at; lia|]. intros vt _.
  apply safe_bind; [apply safe_le_at; simpl; lia|]. intros vl Hvl%le_at_Ret.
  unfold in_u in Hvl. simpl in Hvl.
  apply safe_bind; [apply need_safe; unfold U64_MAX; lia|]. intros ? H3%need_Ret.
  apply safe_bind; [apply safe_slice; lia|]. intros vs Hvs%slice_Ret.
  apply safe_bind; [|intros; apply safe_Ret].
  destruct (vt =? SELF_FIELD_U64), (vt =? SELF_FIELD_I64), (vt =? SELF_FIELD_BYTES),
    (vt =? SELF_FIELD_BOOL); try apply safe_Ret.
  all: match goal with |- context [negb (?x =? ?n)] => destruct (Z.eqb_spec x n) end;
    cbn [negb];
    try apply safe_Throw; (apply safe_bind; [|intros; apply safe_Ret]).
  all: first [apply safe_le_at; simpl; lia|apply safe_byte_at; lia].
Qed.

Lemma decode_one_field_adv b c c' v :
  0 <= c <= len b -> decode_one_field b c = Ret (c', v) -> c < c' <= len b.
Proof.
  intros Hc H. unfold decode_one_field in H. split_ret H. injection H as <- _.
  know_bounds. repeat match goal with H : need _ _ _ _ = Ret _ |- _ => apply need_Ret in H end.
  lia.
Qed.

Lemma decode_event_safe b : slice_len_ok b -> safe (decode_event b).
Proof. intros _. unfold decode_event. safe_go. Qed.

Lemma decode_event_Ret b v :
  decode_event b = Ret v ->
  in_u 16 (ev_num_fields v) /\ len (ev_fields_bytes v) <= len b /\
  len b = 6 + len (ev_msg v) + len (ev_fields_bytes v).
Proof.
  unfold decode_event. destruct (_ <? _) eqn:E; [done|]. zbool. intros H. split_ret H.
  destruct (_ <? _) eqn:E2; [done|]. split_ret H.
  injection H as <-. simpl. zbool.
  know_bounds. unfold in_u. simpl. pose_lens. lia.
Qed.

(** ** Encoders over either sink *)

Lemma encode_field_sim ka ba k v :
  sink_sim (encode_field ka ba k v) (encode_field ka ba k v).
Proof.
  unfold encode_field. sink_go; try (unfold slice_len_ok, bool_byte, i64_to_le;
    len_simpl; simpl; zbool; unfold U16_MAX in *; lia).
  destruct v; sink_go; unfold slice_len_ok, bool_byte, i64_to_le;
    len_simpl; simpl; zbool; unfold U16_MAX in *; lia.
Qed.

Lemma encode_event_sim level subsystem msg fields :
  sink_sim (encode_event level subsystem msg fields)
           (encode_event level subsystem msg fields).
Proof.
  unfold encode_event. sink_go;
    try (unfold slice_len_ok; len_simpl; simpl; zbool; unfold U16_MAX in *; lia).
  apply sim_forM. apply list.Forall_forall. intros [k v] _. apply encode_field_sim.
Qed.

Definition event_bytes (level subsystem : Z) (msg : bytes)
    (fields : list (bytes * SelfFieldOwned)) : bytes :=
  [u8b level] ++ [u8b subsystem] ++ to_le 2 (len fields) ++ to_le 2 (len msg) ++ msg ++
  concat (map field_bytes fields).

Definition event_ok (level subsystem : Z) (msg : bytes)
    (fields : list (bytes * SelfFieldOwned)) : Prop :=
  in_u 8 level /\ in_u 8 subsystem /\ len msg <= U16_MAX /\ len fields <= U16_MAX /\
  Forall field_ok fields.

Lemma encode_fields_emits ka ba fields :
  Forall field_ok fields ->
  emits (st_forM fields (fun '(k, value) => encode_field ka ba k value)) tt
    (concat (map field_bytes fields)).
Proof.
  intros H. apply emits_forM. eapply list.Forall_impl; [exact H|].
  intros [k v] Hf. by apply (encode_field_emits ka ba (k, v)).
Qed.

Lemma encode_event_emits level subsystem msg fields :
  event_ok level subsystem msg fields ->
  emits (encode_event level subsystem msg fields) tt (event_bytes level subsystem msg fields).
Proof.
  intros (_ & _ & Hm & Hn & Hf). unfold encode_event, event_bytes.
  destruct (Z.ltb_spec U16_MAX (len msg)); [lia|].
  destruct (Z.ltb_spec U16_MAX (len fields)); [lia|].
  do 5 (eapply emits_bind; [apply emits_write|]). by apply encode_fields_emits.
Qed.

Lemma fields_exact fields fb rest :
  slice_len_ok fb -> fb = concat (map field_bytes fields) ++ rest ->
  Forall field_ok fields ->
  exists it, collect self_field_next (S (length fields)) (field_iter fb (len fields))
    = Some (map (fun f => Ok (field_view f)) fields, it).
Proof.
  intros Hl -> Hf. eexists.
  apply (fs_exact _ field_bytes field_view field_ok _ (decode_one_field_enc _ Hl) _ _ rest);
    [done|]. apply suffix_at_0.
Qed.

(** ** Properties *)

(** Every event whose parts fit their length prefixes encodes, and decoding
    the bytes (with anything after them) gives back its level, subsystem,
    message and, in order, every field with its typed value. *)
Theorem event_round_trip level subsystem msg fields rest :
  event_ok level subsystem msg fields ->
  slice_len_ok (event_bytes level subsystem msg fields ++ rest) ->
  exists body view it,
    encode_event level subsystem msg fields [] = (Ret tt, body) /\
    decode_event (body ++ rest) = Ret view /\
    ev_level view = level /\ ev_subsystem view = subsystem /\ ev_msg view = msg /\
    collect self_field_next (S (length fields))
      (field_iter (ev_fields_bytes view) (ev_num_fields view))
    = Some (map (fun f => Ok (field_view f)) fields, it).
Proof.
  intros Hok Hl. pose proof (encode_event_emits _ _ _ _ Hok []) as He.
  destruct Hok as (H1 & H2 & H3 & H4 & H5). set (b := event_bytes _ _ _ _ ++ rest) in *.
  assert (Hb : suffix_at b 0 b) by apply suffix_at_0.
  pose proof Hb as S. unfold b at 2, event_bytes in S. rewrite <- !app_assoc in S.
  set (fb := concat (map field_bytes fields) ++ rest) in *.
  assert (Hlb : len b = 6 + len msg + len fb).
  { unfold b, event_bytes, fb. len_lia. }
  destruct (fields_exact fields fb rest) as [it Hit]; [|done|done|].
  { unfold slice_len_ok in *. pose_lens. lia. }
  eexists _, {| ev_level := level; ev_subsystem := subsystem; ev_msg := msg;
    ev_fields_bytes := fb; ev_num_fields := len fields |}, it.
  split; [exact He|]. split; [|done]. cbn [app]. fold b.
  unfold decode_event. pose_lens. destruct (Z.ltb_spec (len b) 6); [lia|].
  rewrite (suffix_at_byte _ _ level _ S), bind_Ret by done. adv S 1.
  rewrite (suffix_at_byte _ _ subsystem _ S), bind_Ret by done. adv S 2.
  rewrite (suffix_at_le _ _ _ _ _ S), bind_Ret by (apply in_u16; lia). adv S 4.
  rewrite (suffix_at_le _ _ _ _ _ S), bind_Ret by (apply in_u16; lia). adv S 6.
  destruct (Z.ltb_spec (len b) (6 + len msg)); [lia|].
  rewrite (suffix_at_slice _ _ _ _ (6 + len msg) S), bind_Ret by done.
  adv S (6 + len msg). rewrite <- (app_nil_r fb) in S.
  by rewrite (suffix_at_slice _ _ _ _ (len b) S), bind_Ret by lia.
Qed.

(** Any record body of the address space decodes or is rejected, without a
    panic; and draining the fields of a decoded event terminates, yielding
    either as many fields as announced or some of them and one error. *)
Theorem event_decode_total (b : bytes) :
  slice_len_ok b ->
  decode_event b <> Panic /\
  forall view, decode_event b = Ret view ->
    exists items it,
      collect self_field_next (2 + length b)
        (field_iter (ev_fields_bytes view) (ev_num_fields view)) = Some (items, it) /\
      fs_shape (ev_num_fields view) items /\ self_field_next it = Ret (None, it).
Proof.
  intros Hb. split; [by apply decode_event_safe|]. intros view Hv.
  pose proof (decode_event_Ret _ _ Hv) as (Hn & Hl & _).
  assert (Hfb : slice_len_ok (ev_fields_bytes view)) by (unfold slice_len_ok in *; lia).
  apply (fs_total decode_one_field (ev_fields_bytes view)).
  - intros c Hc. by apply decode_one_field_safe.
  - intros c c' v Hc. by apply decode_one_field_adv.
  - unfold fs_inv, field_iter, in_u in *. simpl. pose_lens. split_and!; [done|lia..].
  - done.
  - simpl. unfold len in *. lia.
Qed.

(** Encoding an event into a fixed buffer writes the bytes the growable sink
    would get, leaving the rest of the buffer alone, exactly when they fit;
    when they do not, it stops with a truncation error and the buffer holds a
    prefix of them. *)
Theorem event_into_buffer level subsystem msg fields buf :
  slice_len_ok buf ->
  follows (encode_event level subsystem msg fields) (encode_event level subsystem msg fields)
    buf (slice_sink_new buf) [].
Proof. apply sink_sim_run, encode_event_sim. Qed.

(** ** A sample event *)

Definition sample_msg : bytes := map u8b [104; 105].
Definition sample_fields : list (bytes * SelfFieldOwned) :=
  [(map u8b [107], OwnU64 7); (map u8b [115], OwnI64 (-2));
   (map u8b [98], OwnBytes sample_msg); (map u8b [111], OwnBool true)].

Lemma sample_event_ok : event_ok SELF_LEVEL_INFO SELF_SUBSYS_AGG sample_msg sample_fields.
Proof.
  unfold event_ok, in_u, SELF_LEVEL_INFO, SELF_SUBSYS_AGG.
  split; [lia|]. split; [lia|]. split; [vm_compute; discriminate|].
  split; [vm_compute; discriminate|]. unfold sample_fields.
  repeat (apply list.Forall_cons; split);
    [..|by apply list.Forall_nil]; split; try (vm_compute; discriminate);
    unfold value_ok, in_u; cbn [fst snd]; try lia; done.
Qed.

Lemma event_round_trip_witness :
  exists body view,
    encode_event SELF_LEVEL_INFO SELF_SUBSYS_AGG sample_msg sample_fields [] = (Ret tt, body) /\
    decode_event body = Ret view /\ ev_msg view = sample_msg /\ len body = 51.
Proof.
  destruct (event_round_trip SELF_LEVEL_INFO SELF_SUBSYS_AGG sample_msg sample_fields [])
    as (body & view & it & H1 & H2 & _ & _ & H3 & _);
    [apply sample_event_ok|vm_compute; reflexivity|].
  rewrite app_nil_r in H2. exists body, view. split; [exact H1|]. split; [exact H2|].
  split; [exact H3|]. vm_compute in H1. injection H1 as <-. vm_compute. reflexivity.
Defined.

Lemma event_decode_total_witness :
  decode_event (map u8b [2; 7; 1; 0; 0; 0; 9]) <> Panic.
Proof. apply event_decode_total. vm_compute. reflexivity. Defined.

Lemma event_into_buffer_witness :
  follows (encode_event 2 7 sample_msg sample_fields) (encode_event 2 7 sample_msg sample_fields)
    (replicate 20 (u8b 0)) (slice_sink_new (replicate 20 (u8b 0))) [].
Proof. apply event_into_buffer. vm_compute. reflexivity. Defined.
