(* ===== verification/FieldReloc.v ===== *)
(** BTF field relocations (host/bifrost-wire/src/codec_field_reloc.rs). *)

From Stdlib Require Import Strings.String.
From S2P Require Import Prelude Wire FailStop.

Local Open Scope Z_scope.

Record FieldRelocView : Type := {
  fr_insn_idx : Z;
  fr_access_kind : Z;
  fr_byte_off_in_insn : Z;
  fr_struct_name : bytes;
  fr_field_name : bytes
}.

(** [FieldRelocInput]: the encoder's input has the same fields, with the
    names as strings. *)
Definition FieldRelocInput : Type := FieldRelocView.

Section Encode.
Context {S : Type} `{WireSink S}.

Definition encode_one_field_reloc (r : FieldRelocInput) : st S WireError unit :=
  let s := fr_struct_name r in
  let f := fr_field_name r in
  if (len s =? 0) || (FIELD_RELOC_NAME_MAX <? len s)
  then st_throw (Truncated FIELD_RELOC_NAME_MAX (len s) "field-reloc-struct-name-len")
  else if (len f =? 0) || (FIELD_RELOC_NAME_MAX <? len f)
  then st_throw (Truncated FIELD_RELOC_NAME_MAX (len f) "field-reloc-field-name-len")
  else
    sink_write (to_le 4 (fr_insn_idx r)) ;;
    sink_write [u8b (fr_access_kind r)] ;;
    sink_write [u8b (fr_byte_off_in_insn r)] ;;
    sink_write [u8b (len s)] ;;
    sink_write [u8b (len f)] ;;
    sink_write s ;;
    sink_write f.

Definition encode_field_relocs (relocs : list FieldRelocInput) : st S WireError unit :=
  sink_write (to_le 4 (len relocs)) ;;
  st_forM relocs encode_one_field_reloc.
End Encode.

Definition decode_one_field_reloc (b : bytes) (off : Z)
  : outcome WireError (Z * FieldRelocView) :=
  need b off 7 "field-reloc-record-header" ;;
  insn_idx ← le_at 4 b off;
  access_kind ← byte_at b (off + 4);
  byte_off_in_insn ← byte_at b (off + 5);
  struct_name_len ← byte_at b (off + 6);
  field_name_len ← byte_at b (off + 7);
  let cursor := off + 8 in
  let end_ := cursor + struct_name_len + field_name_len in
  if len b <? end_ then Throw (Truncated end_ (len b) "field-reloc-names")
  else
    struct_name ← slice b cursor (cursor + struct_name_len);
    field_name ← slice b (cursor + struct_name_len) (cursor + struct_name_len + field_name_len);
    Ret (end_, {| fr_insn_idx := insn_idx; fr_access_kind := access_kind;
                  fr_byte_off_in_insn := byte_off_in_insn;
                  fr_struct_name := struct_name; fr_field_name := field_name |}).

Definition field_reloc_next := fs_next decode_one_field_reloc.

Definition decode_field_relocs (b : bytes) : outcome WireError FsIter :=
  if len b <? 4 then Throw (Truncated 4 (len b) "field-relocs-count")
  else
    n ← le_at 4 b 0;
    Ret {| it_bytes := b; it_cursor := 4; it_remaining := n; it_failed := false |}.

Definition field_reloc_kind_label (kind : Z) : string :=
  if kind =? FIELD_RELOC_OFFSET then "offset"
  else if kind =? FIELD_RELOC_SIZE then "size"
  else if kind =? FIELD_RELOC_EXISTS then "exists"
  else "???".

(** ** The layout of a record *)

Definition reloc_bytes (r : FieldRelocInput) : bytes :=
  to_le 4 (fr_insn_idx r) ++ [u8b (fr_access_kind r)] ++ [u8b (fr_byte_off_in_insn r)] ++
  [u8b (len (fr_struct_name r))] ++ [u8b (len (fr_field_name r))] ++
  fr_struct_name r ++ fr_field_name r.

Definition relocs_bytes (l : list FieldRelocInput) : bytes :=
  to_le 4 (len l) ++ concat (map reloc_bytes l).

Definition reloc_ok (r : FieldRelocInput) : Prop :=
  in_u 32 (fr_insn_idx r) /\ in_u 8 (fr_access_kind r) /\ in_u 8 (fr_byte_off_in_insn r) /\
  1 <= len (fr_struct_name r) <= FIELD_RELOC_NAME_MAX /\
  1 <= len (fr_field_name r) <= FIELD_RELOC_NAME_MAX.

Lemma len_reloc_bytes r :
  len (reloc_bytes r) = 8 + len (fr_struct_name r) + len (fr_field_name r).
Proof. unfold reloc_bytes. len_lia. Qed.

Lemma encode_one_field_reloc_emits r :
  reloc_ok r -> emits (encode_one_field_reloc r) tt (reloc_bytes r).
Proof.
  intros (_ & _ & _ & Hs & Hf). unfold encode_one_field_reloc, reloc_bytes. cbv zeta.
  destruct (Z.eqb_spec (len (fr_struct_name r)) 0),
    (Z.ltb_spec FIELD_RELOC_NAME_MAX (len (fr_struct_name r))); try lia. cbn [orb].
  destruct (Z.eqb_spec (len (fr_field_name r)) 0),
    (Z.ltb_spec FIELD_RELOC_NAME_MAX (len (fr_field_name r))); try lia. cbn [orb].
  repeat emits_step.
Qed.

Lemma encode_field_relocs_emits l :
  Forall reloc_ok l -> emits (encode_field_relocs l) tt (relocs_bytes l).
Proof.
  intros H. eapply emits_bind; [apply emits_write|]. apply emits_forM.
  eapply list.Forall_impl; [exact H|]. apply encode_one_field_reloc_emits.
Qed.

Lemma encode_one_field_reloc_sim r :
  sink_sim (encode_one_field_reloc r) (encode_one_field_reloc r).
Proof.
  unfold encode_one_field_reloc. cbv zeta. sink_go;
    unfold slice_len_ok, FIELD_RELOC_NAME_MAX in *; zbool; len_simpl; lia.
Qed.

Lemma encode_field_relocs_sim l : sink_sim (encode_field_relocs l) (encode_field_relocs l).
Proof.
  unfold encode_field_relocs. sink_go.
  - unfold slice_len_ok. len_simpl. lia.
  - apply sim_forM, list.Forall_forall. intros r _. apply encode_one_field_reloc_sim.
Qed.

(** ** Decoding *)

Lemma decode_one_field_reloc_enc b : slice_len_ok b -> forall c r s,
  reloc_ok r -> suffix_at b c (reloc_bytes r ++ s) ->
  decode_one_field_reloc b c = Ret (c + len (reloc_bytes r), r).
Proof.
  intros Hb c r s (H1 & H2 & H3 & H4 & H5) S. unfold FIELD_RELOC_NAME_MAX in *.
  pose proof (suffix_at_len _ _ _ S) as [Hc Hl].
  rewrite len_app, len_reloc_bytes in Hl. rewrite len_reloc_bytes. pose_lens.
  unfold reloc_bytes in S. rewrite <- !app_assoc in S.
  unfold decode_one_field_reloc. cbv zeta.
  rewrite need_ok, bind_Ret by (done || lia).
  rewrite (suffix_at_le _ _ _ _ _ S), bind_Ret by done. adv S (c + 4).
  rewrite (suffix_at_byte _ _ _ _ S), bind_Ret by done. adv S (c + 5).
  rewrite (suffix_at_byte _ _ _ _ S), bind_Ret by done. adv S (c + 6).
  rewrite (suffix_at_byte _ _ _ _ S), bind_Ret by (unfold in_u; lia). adv S (c + 7).
  rewrite (suffix_at_byte _ _ _ _ S), bind_Ret by (unfold in_u; lia). adv S (c + 8).
  destruct (Z.ltb_spec (len b) (c + 8 + len (fr_struct_name r) + len (fr_field_name r)));
    [lia|].
  rewrite (suffix_at_slice _ _ _ _ _ S eq_refl), bind_Ret.
  adv S (c + 8 + len (fr_struct_name r)).
  rewrite (suffix_at_slice _ _ _ _ _ S eq_refl), bind_Ret.
  destruct r; simpl. do 2 f_equal. lia.
Qed.

(** The record decoder is panic-free except on a header cut after its
    seventh byte. *)
Lemma decode_one_field_reloc_safe b c :
  slice_len_ok b -> 0 <= c <= len b -> len b <> c + 7 -> safe (decode_one_field_reloc b c).
Proof.
  unfold slice_len_ok. intros Hb Hc Hne. unfold decode_one_field_reloc.
  apply safe_bind; [apply need_safe; unfold U64_MAX; lia|]. intros ? H1%need_Ret.
  safe_go.
Qed.

(** ** Properties *)

(** Every list of relocations within the name limits encodes, and decoding
    the section (with anything after it) yields each record back, in order,
    and then nothing. *)
Theorem field_relocs_round_trip (l : list FieldRelocInput) rest :
  Forall reloc_ok l -> in_u 32 (len l) -> slice_len_ok (relocs_bytes l ++ rest) ->
  exists body it it',
    encode_field_relocs l [] = (Ret tt, body) /\
    decode_field_relocs (body ++ rest) = Ret it /\
    collect field_reloc_next (S (length l)) it = Some (map Ok l, it').
Proof.
  intros Hok Hn Hl. pose proof (encode_field_relocs_emits l Hok []) as He.
  set (b := relocs_bytes l ++ rest) in *.
  assert (S : suffix_at b 0 (relocs_bytes l ++ rest)) by apply suffix_at_0.
  pose proof (suffix_at_len _ _ _ S) as [_ Hlb].
  unfold relocs_bytes in S, Hlb. rewrite <- app_assoc in S.
  eexists _, {| it_bytes := b; it_cursor := 4; it_remaining := len l; it_failed := false |}, _.
  split; [exact He|]. cbn [app]. fold b. split.
  - unfold decode_field_relocs. len_simpl. pose_lens.
    destruct (Z.ltb_spec (len b) 4); [lia|].
    by rewrite (suffix_at_le _ _ _ _ _ S), bind_Ret.
  - adv S 4. apply (fs_exact _ reloc_bytes (fun r => r) reloc_ok b
      (decode_one_field_reloc_enc b Hl) l _ rest Hok S).
Qed.

(** A section that ends after the seventh byte of a record header passes the
    decoder's length check, which asks for 7 bytes, and makes it read the
    eighth out of bounds: a panic on input from the peer. *)
Theorem truncated_field_reloc_panics (pre hdr : bytes) :
  len hdr = 7 -> slice_len_ok (pre ++ hdr) ->
  decode_one_field_reloc (pre ++ hdr) (len pre) = Panic.
Proof.
  intros Hh Hl. assert (Hlb : len (pre ++ hdr) = len pre + 7) by len_lia.
  pose proof (len_nonneg pre) as H0. unfold decode_one_field_reloc.
  rewrite need_ok, bind_Ret by (done || lia).
  destruct (le_at_ok (E:=WireError) 4 (pre ++ hdr) (len pre)) as (v & -> & _); [lia..|].
  rewrite bind_Ret.
  destruct (byte_at_ok (E:=WireError) (pre ++ hdr) (len pre + 4)) as (? & -> & _); [lia|].
  destruct (byte_at_ok (E:=WireError) (pre ++ hdr) (len pre + 5)) as (? & -> & _); [lia|].
  destruct (byte_at_ok (E:=WireError) (pre ++ hdr) (len pre + 6)) as (? & -> & _); [lia|].
  rewrite !bind_Ret.
  unfold byte_at. destruct (0 <=? len pre + 7); [|done].
  rewrite lookup_ge_None_2; [done|]. unfold len in *. lia.
Qed.

Definition sample_reloc : FieldRelocInput :=
  {| fr_insn_idx := 16; fr_access_kind := FIELD_RELOC_OFFSET; fr_byte_off_in_insn := 4;
     fr_struct_name := map u8b [116; 115; 107]; fr_field_name := map u8b [109; 109] |}.

Lemma sample_reloc_ok : reloc_ok sample_reloc.
Proof.
  unfold reloc_ok, in_u, FIELD_RELOC_NAME_MAX. split_and!; vm_compute; congruence.
Qed.

Lemma field_relocs_round_trip_witness :
  exists body it it', encode_field_relocs [sample_reloc; sample_reloc] [] = (Ret tt, body) /\
    decode_field_relocs body = Ret it /\
    collect field_reloc_next 3 it = Some ([Ok sample_reloc; Ok sample_reloc], it').
Proof.
  destruct (field_relocs_round_trip [sample_reloc; sample_reloc] [])
    as (body & it & it' & H1 & H2 & H3).
  - repeat (apply list.Forall_cons; split); [apply sample_reloc_ok..|by apply list.Forall_nil].
  - vm_compute. split; congruence.
  - vm_compute. reflexivity.
  - rewrite app_nil_r in H2. by exists body, it, it'.
Defined.

Lemma truncated_field_reloc_panics_witness :
  decode_one_field_reloc (map u8b [1; 0; 0; 0] ++ map u8b [0; 0; 0; 0; 0; 4; 3]) 4 = Panic.
Proof.
  apply (truncated_field_reloc_panics (map u8b [1; 0; 0; 0]) (map u8b [0; 0; 0; 0; 0; 4; 3]));
    vm_compute; reflexivity.
Defined.
