(* ===== verification/LoadProg.v ===== *)
(** Per-program LOAD_PROG statuses, profile samples and the SHMEM record
    header (host/bifrost-wire/src: codec.rs, codec_profile.rs).

    [Vec::with_capacity] of the announced count is not modelled: an
    allocation failure is outside the model. *)

From Stdlib Require Import Strings.String.
From S2P Require Import Prelude Wire.

Local Open Scope Z_scope.

(** ** LOAD_PROG statuses *)

Record LoadProgStatusEntry : Type := { lp_status : Z; lp_detail : bytes }.

Definition statuses (entries : list LoadProgStatusEntry) : list Z := map lp_status entries.

Section EncodeStatus.
Context {S : Type} `{WireSink S}.

Definition encode_status_entry (e : LoadProgStatusEntry) : st S WireError unit :=
  sink_write [u8b (lp_status e)] ;;
  if U16_MAX <? len (lp_detail e)
  then st_throw (TooLarge U16_MAX (len (lp_detail e)) "loadprog-status-detail")
  else
    sink_write (to_le 2 (len (lp_detail e))) ;;
    sink_write (lp_detail e).

Definition encode_loadprog_status (entries : list LoadProgStatusEntry)
  : st S WireError unit :=
  sink_write (to_le 4 (len entries)) ;;
  st_forM entries encode_status_entry.
End EncodeStatus.

(** [for _ in 0..n]; an iteration that continues consumes three bytes. *)
Fixpoint decode_status_entries (fuel : nat) (b : bytes) (off n : Z)
  : outcome WireError (list LoadProgStatusEntry) :=
  match fuel with
  | O => Panic
  | S fuel' =>
      if n <=? 0 then Ret []
      else
        need b off 3 "loadprog-status-entry-header" ;;
        status ← byte_at b off;
        detail_len ← le_at 2 b (off + 1);
        let off := off + 3 in
        need b off detail_len "loadprog-status-entry-detail" ;;
        detail ← slice b off (off + detail_len);
        rest ← decode_status_entries fuel' b (off + detail_len) (n - 1);
        Ret ({| lp_status := status; lp_detail := detail |} :: rest)
  end.

Definition decode_loadprog_status (b : bytes) : outcome WireError (list LoadProgStatusEntry) :=
  if len b <? 4 then Throw (Truncated 4 (len b) "loadprog-status-count")
  else
    n ← le_at 4 b 0;
    decode_status_entries (S (length b)) b 4 n.

Definition loadprog_status_label (status : Z) : string :=
  if status =? RSP_LOADPROG_STATUS_OK then "ok"
  else if status =? RSP_LOADPROG_STATUS_SLOT_EXHAUSTED then "slot_exhausted"
  else if status =? RSP_LOADPROG_STATUS_JIT_FAIL then "jit_fail"
  else if status =? RSP_LOADPROG_STATUS_BTF_RESOLVE_FAIL then "btf_resolve_fail"
  else if status =? RSP_LOADPROG_STATUS_VERIFIER_FAIL then "verifier_fail"
  else if status =? RSP_LOADPROG_STATUS_TARGET_NOT_FOUND then "target_not_found"
  else "other".

(** ** Profile samples *)

Record ProfileSampleView : Type := {
  ps_pid : Z;
  ps_tid : Z;
  ps_cpu_id : Z;
  ps_flags : Z;
  ps_num_frames : Z;
  ps_frames_bytes : bytes
}.

Record ProfileFrameIter : Type := { pf_bytes : bytes; pf_cursor : Z; pf_remaining : Z }.

Definition frames (v : ProfileSampleView) : ProfileFrameIter :=
  {| pf_bytes := ps_frames_bytes v; pf_cursor := 0; pf_remaining := ps_num_frames v |}.

Definition frame_next (it : ProfileFrameIter)
  : outcome Empty_set (option Z * ProfileFrameIter) :=
  if (pf_remaining it =? 0) || (len (pf_bytes it) <? pf_cursor it + 8) then Ret (None, it)
  else
    pc ← le_at 8 (pf_bytes it) (pf_cursor it);
    Ret (Some pc, {| pf_bytes := pf_bytes it; pf_cursor := pf_cursor it + 8;
                     pf_remaining := pf_remaining it - 1 |}).

Definition encode_profile_sample {S} `{WireSink S} (pid tid cpu_id flags : Z)
    (frames : list Z) : st S WireError unit :=
  if MAX_PROFILE_FRAMES <? len frames
  then st_throw (Truncated MAX_PROFILE_FRAMES (len frames) "profile-sample-num-frames")
  else
    sink_write (to_le 4 pid) ;;
    sink_write (to_le 4 tid) ;;
    sink_write (to_le 4 cpu_id) ;;
    sink_write (to_le 4 flags) ;;
    sink_write (to_le 4 (len frames)) ;;
    st_forM frames (fun pc => sink_write (to_le 8 pc)).

Definition decode_profile_sample (b : bytes) : outcome WireError ProfileSampleView :=
  if len b <? 20 then Throw (Truncated 20 (len b) "profile-sample-header")
  else
    pid ← le_at 4 b 0;
    tid ← le_at 4 b 4;
    cpu_id ← le_at 4 b 8;
    flags ← le_at 4 b 12;
    num_frames ← le_at 4 b 16;
    let need := 20 + num_frames * 8 in
    if len b <? need then Throw (Truncated need (len b) "profile-sample-frames")
    else
      frames_bytes ← slice b 20 need;
      Ret {| ps_pid := pid; ps_tid := tid; ps_cpu_id := cpu_id; ps_flags := flags;
             ps_num_frames := num_frames; ps_frames_bytes := frames_bytes |}.

Definition profile_sample_flags_label (flags : Z) : string :=
  let kernel := negb (Z.land flags PROFILE_SAMPLE_FLAG_KERNEL_CONTEXT =? 0) in
  let truncated := negb (Z.land flags PROFILE_SAMPLE_FLAG_STACK_TRUNCATED =? 0) in
  let incomplete := negb (Z.land flags PROFILE_SAMPLE_FLAG_STACK_INCOMPLETE =? 0) in
  match kernel, truncated, incomplete with
  | false, false, false => ""
  | true, false, false => "kernel"
  | false, true, false => "truncated"
  | false, false, true => "incomplete"
  | true, true, false => "kernel,truncated"
  | true, false, true => "kernel,incomplete"
  | false, true, true => "truncated,incomplete"
  | true, true, true => "kernel,truncated,incomplete"
  end.

(** ** The 8-byte SHMEM record header *)

Record ShmemRecordHeader : Type := { rec_size : Z; rec_flags : Z }.

Definition shmem_record_hdr_encode (size flags : Z) : bytes := to_le 4 size ++ to_le 4 flags.

Definition shmem_record_hdr_decode (b : bytes) : outcome WireError ShmemRecordHeader :=
  if len b <? SHMEM_RECORD_HDR_SIZE
  then Throw (Truncated SHMEM_RECORD_HDR_SIZE (len b) "shmem-record-header")
  else
    size ← le_at 4 b 0;
    flags ← le_at 4 b 4;
    Ret {| rec_size := size; rec_flags := flags |}.

(** ** Layouts *)

Definition entry_bytes (e : LoadProgStatusEntry) : bytes :=
  [u8b (lp_status e)] ++ to_le 2 (len (lp_detail e)) ++ lp_detail e.

Definition statuses_bytes (l : list LoadProgStatusEntry) : bytes :=
  to_le 4 (len l) ++ concat (map entry_bytes l).

Definition entry_ok (e : LoadProgStatusEntry) : Prop :=
  in_u 8 (lp_status e) /\ len (lp_detail e) <= U16_MAX.

Lemma encode_status_entry_emits e :
  entry_ok e -> emits (encode_status_entry e) tt (entry_bytes e).
Proof.
  intros [_ Hd]. unfold encode_status_entry, entry_bytes.
  eapply emits_bind; [apply emits_write|].
  destruct (Z.ltb_spec U16_MAX (len (lp_detail e))); [lia|]. repeat emits_step.
Qed.

Lemma encode_loadprog_status_emits l :
  Forall entry_ok l -> emits (encode_loadprog_status l) tt (statuses_bytes l).
Proof.
  intros H. eapply emits_bind; [apply emits_write|]. apply emits_forM.
  eapply list.Forall_impl; [exact H|]. apply encode_status_entry_emits.
Qed.

Lemma encode_loadprog_status_sim l :
  sink_sim (encode_loadprog_status l) (encode_loadprog_status l).
Proof.
  unfold encode_loadprog_status. sink_go; [unfold slice_len_ok; len_simpl; lia|].
  apply sim_forM, list.Forall_forall. intros e _. unfold encode_status_entry. sink_go;
    unfold slice_len_ok; len_simpl; zbool; unfold U16_MAX in *; lia.
Qed.

Lemma encode_profile_sample_sim pid tid cpu flags frames :
  sink_sim (encode_profile_sample pid tid cpu flags frames)
           (encode_profile_sample pid tid cpu flags frames).
Proof.
  unfold encode_profile_sample. sink_go; try (unfold slice_len_ok; len_simpl; lia).
  apply sim_forM, list.Forall_forall. intros pc _. apply sim_write.
  unfold slice_len_ok. len_simpl. lia.
Qed.

Lemma decode_status_entries_enc b : slice_len_ok b -> forall l fuel c rest,
  Forall entry_ok l -> (length l < fuel)%nat ->
  suffix_at b c (concat (map entry_bytes l) ++ rest) ->
  decode_status_entries fuel b c (len l) = Ret l.
Proof.
  intros Hb l. induction l as [|e l IH]; intros fuel c rest Hok Hf S;
    (destruct fuel as [|fuel]; [simpl in Hf; lia|]); cbn [decode_status_entries]; [done|].
  pose proof (Forall_inv Hok) as [He Hd]. apply Forall_inv_tail in Hok.
  cbn [map concat] in S. unfold entry_bytes at 1 in S. rewrite <- !app_assoc in S.
  pose proof (suffix_at_len _ _ _ S) as [Hc Hl]. len_simpl. pose_lens.
  destruct (Z.leb_spec (1 + len l) 0); [lia|].
  rewrite need_ok, bind_Ret by (done || lia).
  rewrite (suffix_at_byte _ _ _ _ S), bind_Ret by done. adv S (c + 1).
  rewrite (suffix_at_le _ _ _ _ _ S), bind_Ret by (apply in_u16; lia). adv S (c + 3).
  cbv zeta. rewrite need_ok, bind_Ret by (done || lia).
  rewrite (suffix_at_slice _ _ _ _ _ S eq_refl), bind_Ret.
  adv S (c + 3 + len (lp_detail e)). replace (1 + len l - 1) with (len l) by lia.
  rewrite (IH _ _ rest); [by destruct e|done|simpl in Hf; lia|done].
Qed.

Lemma decode_status_entries_safe b : slice_len_ok b -> forall fuel c n,
  0 <= c <= len b -> len b - c < Z.of_nat fuel -> safe (decode_status_entries fuel b c n).
Proof.
  unfold slice_len_ok. intros Hb fuel. induction fuel as [|fuel IH]; intros c n Hc Hf; [lia|].
  cbn [decode_status_entries]. destruct (_ <=? _); [done|].
  apply safe_bind; [apply need_safe; unfold U64_MAX; lia|]. intros ? H1%need_Ret.
  apply safe_bind; [apply safe_byte_at; lia|]. intros s _.
  apply safe_bind; [apply safe_le_at; simpl; lia|]. intros dl Hdl%le_at_Ret. cbv zeta.
  unfold in_u in Hdl. simpl in Hdl.
  apply safe_bind; [apply need_safe; unfold U64_MAX; lia|]. intros ? H2%need_Ret.
  apply safe_bind; [apply safe_slice; lia|]. intros d _.
  apply safe_bind; [apply IH; lia|]. intros; apply safe_Ret.
Qed.

(** ** Properties *)

(** Statuses with details of at most 65535 bytes survive the wire, in order
    and whatever follows them; and no input makes the decoder panic or loop. *)
Theorem loadprog_status_round_trip (l : list LoadProgStatusEntry) rest :
  Forall entry_ok l -> in_u 32 (len l) -> slice_len_ok (statuses_bytes l ++ rest) ->
  exists body, encode_loadprog_status l [] = (Ret tt, body) /\
    decode_loadprog_status (body ++ rest) = Ret l.
Proof.
  intros Hok Hn Hl. eexists. split; [apply (encode_loadprog_status_emits l Hok [])|].
  cbn [app]. set (b := statuses_bytes l ++ rest) in *.
  assert (S : suffix_at b 0 (statuses_bytes l ++ rest)) by apply suffix_at_0.
  pose proof (suffix_at_len _ _ _ S) as [_ Hlb].
  unfold statuses_bytes in S, Hlb. rewrite <- app_assoc in S. len_simpl. pose_lens.
  unfold decode_loadprog_status. destruct (Z.ltb_spec (len b) 4); [lia|].
  rewrite (suffix_at_le _ _ _ _ _ S), bind_Ret by done. adv S 4.
  apply (decode_status_entries_enc b Hl l _ _ rest Hok); [|done].
  assert (Hsz : len l <= len (concat (map entry_bytes l))).
  { clear. induction l as [|e l IH]; [done|]. cbn [map concat].
    unfold entry_bytes at 1. len_lia. }
  unfold len in *. lia.
Qed.

Theorem loadprog_status_decode_total (b : bytes) :
  slice_len_ok b -> decode_loadprog_status b <> Panic.
Proof.
  intros Hb. unfold decode_loadprog_status. destruct (_ <? _) eqn:E; [done|]. zbool.
  apply safe_bind; [apply safe_le_at; simpl; lia|]. intros n _.
  apply decode_status_entries_safe; [done|lia|unfold len; lia].
Qed.

Lemma frames_run l : forall fb c rest,
  suffix_at fb c (concat (map (to_le 8) l) ++ rest) -> Forall (in_u 64) l ->
  exists it, collect frame_next (S (length l))
    {| pf_bytes := fb; pf_cursor := c; pf_remaining := len l |} = Some (l, it).
Proof.
  induction l as [|pc l IH]; intros fb c rest S Hok.
  - eexists. by apply collect_none.
  - pose proof (Forall_inv Hok) as Hpc. apply Forall_inv_tail in Hok.
    cbn [map concat] in S. rewrite <- app_assoc in S.
    pose proof (suffix_at_len _ _ _ S) as [Hc Hl]. len_simpl. pose_lens.
    pose proof S as S2. adv S2 (c + 8).
    destruct (IH fb (c + 8) rest S2 Hok) as [it Hit]. exists it.
    change (length (pc :: l)) with (Datatypes.S (length l)).
    rewrite (collect_some _ _ _ pc
      {| pf_bytes := fb; pf_cursor := c + 8; pf_remaining := len l |}); [by rewrite Hit|].
    unfold frame_next. cbn [pf_bytes pf_cursor pf_remaining].
    destruct (Z.eqb_spec (1 + len l) 0); [lia|].
    destruct (Z.ltb_spec (len fb) (c + 8)); [lia|]. cbn [orb].
    rewrite (suffix_at_le _ _ _ _ _ S), bind_Ret by done. do 3 f_equal. lia.
Qed.

(** A sample of at most 256 frames survives the wire, header and frames. *)
Theorem profile_sample_round_trip pid tid cpu flags fs rest :
  in_u 32 pid -> in_u 32 tid -> in_u 32 cpu -> in_u 32 flags ->
  Forall (in_u 64) fs -> len fs <= MAX_PROFILE_FRAMES ->
  exists body view it,
    encode_profile_sample pid tid cpu flags fs [] = (Ret tt, body) /\
    decode_profile_sample (body ++ rest) = Ret view /\
    ps_pid view = pid /\ ps_tid view = tid /\ ps_cpu_id view = cpu /\ ps_flags view = flags /\
    collect frame_next (S (length fs)) (frames view) = Some (fs, it).
Proof.
  intros H1 H2 H3 H4 Hf Hn. unfold MAX_PROFILE_FRAMES in Hn.
  set (fb := concat (map (to_le 8) fs)).
  assert (Hfb : len fb = len fs * 8).
  { unfold fb. clear. induction fs as [|pc l IH]; [done|]. cbn [map concat]. len_lia. }
  destruct (frames_run fs fb 0 []) as [it Hit]; [rewrite app_nil_r; apply suffix_at_0|done|].
  eexists _, {| ps_pid := pid; ps_tid := tid; ps_cpu_id := cpu; ps_flags := flags;
    ps_num_frames := len fs; ps_frames_bytes := fb |}, it.
  split.
  { unfold encode_profile_sample, MAX_PROFILE_FRAMES.
    destruct (Z.ltb_spec 256 (len fs)); [lia|].
    do 5 (eapply emits_bind; [apply emits_write|]). apply emits_forM.
    apply list.Forall_forall. intros pc _. apply (emits_write (to_le 8 pc)). }
  split; [|done]. cbn [app]. fold fb. set (b := _ ++ rest).
  assert (S : suffix_at b 0 b) by apply suffix_at_0.
  assert (Hlb : len b = 20 + len fs * 8 + len rest) by (unfold b; len_simpl; lia).
  unfold b at 2 in S. rewrite <- !app_assoc in S.
  unfold decode_profile_sample. pose_lens. destruct (Z.ltb_spec (len b) 20); [lia|].
  rewrite (suffix_at_le _ _ _ _ _ S), bind_Ret by done. adv S 4.
  rewrite (suffix_at_le _ _ _ _ _ S), bind_Ret by done. adv S 8.
  rewrite (suffix_at_le _ _ _ _ _ S), bind_Ret by done. adv S 12.
  rewrite (suffix_at_le _ _ _ _ _ S), bind_Ret by done. adv S 16.
  rewrite (suffix_at_le _ _ _ _ _ S), bind_Ret by (unfold in_u; lia). adv S 20.
  cbv zeta. destruct (Z.ltb_spec (len b) (20 + len fs * 8)); [lia|].
  by rewrite (suffix_at_slice _ _ _ _ (20 + len fs * 8) S), bind_Ret by lia.
Qed.

(** ** Samples *)

Definition sample_entries : list LoadProgStatusEntry :=
  [{| lp_status := RSP_LOADPROG_STATUS_OK; lp_detail := [] |};
   {| lp_status := RSP_LOADPROG_STATUS_BTF_RESOLVE_FAIL; lp_detail := map u8b [98; 112; 102] |}].

Lemma loadprog_status_round_trip_witness :
  exists body, encode_loadprog_status sample_entries [] = (Ret tt, body) /\
    decode_loadprog_status body = Ret sample_entries /\ len body = 13.
Proof.
  destruct (loadprog_status_round_trip sample_entries []) as (body & H1 & H2).
  - repeat (apply list.Forall_cons; split); [..|by apply list.Forall_nil];
      split; try (vm_compute; congruence); unfold in_u; simpl; vm_compute; split; congruence.
  - vm_compute. split; congruence.
  - vm_compute. reflexivity.
  - rewrite app_nil_r in H2. exists body. split; [exact H1|]. split; [exact H2|].
    vm_compute in H1. injection H1 as <-. reflexivity.
Defined.

Lemma loadprog_status_decode_total_witness :
  decode_loadprog_status (map u8b [2; 0; 0; 0; 0; 255; 255]) <> Panic.
Proof. apply loadprog_status_decode_total. vm_compute. reflexivity. Defined.

Lemma profile_sample_round_trip_witness :
  exists body view it, encode_profile_sample 7 8 1 1 [0xffff800000001000; 16] [] = (Ret tt, body) /\
    decode_profile_sample body = Ret view /\ ps_tid view = 8 /\
    collect frame_next 3 (frames view) = Some ([0xffff800000001000; 16], it).
Proof.
  destruct (profile_sample_round_trip 7 8 1 1 [0xffff800000001000; 16] [])
    as (body & view & it & H1 & H2 & _ & H3 & _ & _ & H4);
    [unfold in_u; lia..| |vm_compute; discriminate|].
  - repeat (apply list.Forall_cons; split); [unfold in_u; lia..|by apply list.Forall_nil].
  - rewrite app_nil_r in H2. by exists body, view, it.
Defined.
