(* ===== verification/Hello.v ===== *)
(** The observer handshake, HELLO and HELLO_ACK
    (host/bifrost-wire/src/codec_hello.rs). *)

From Stdlib Require Import Strings.String.
From S2P Require Import Prelude Wire FailStop SelfTrace.

Local Open Scope Z_scope.

Record HelloView : Type := {
  hv_wire_major : Z;
  hv_wire_minor : Z;
  hv_feature_bits : Z;
  hv_fields_bytes : bytes;
  hv_num_fields : Z
}.

Record HelloAckView : Type := {
  ha_accepted : bool;
  ha_reject_reason : Z;
  ha_hello : HelloView
}.

Section Encode.
Context {S : Type} `{WireSink S}.

Definition encode_hello (wire_major wire_minor feature_bits : Z)
    (fields : list (bytes * SelfFieldOwned)) : st S WireError unit :=
  if U16_MAX <? len fields then st_throw (Truncated U16_MAX (len fields) "hello-num-fields")
  else
    sink_write (to_le 4 wire_major) ;;
    sink_write (to_le 4 wire_minor) ;;
    sink_write (to_le 8 feature_bits) ;;
    sink_write (to_le 2 (len fields)) ;;
    st_forM fields (fun '(k, v) => encode_one_field_owned k v "hello").

Definition encode_hello_ack (accepted : bool)
    (reject_reason wire_major wire_minor feature_bits : Z)
    (fields : list (bytes * SelfFieldOwned)) : st S WireError unit :=
  if U16_MAX <? len fields
  then st_throw (Truncated U16_MAX (len fields) "hello-ack-num-fields")
  else
    sink_write (bool_byte accepted) ;;
    sink_write [u8b reject_reason] ;;
    sink_write (to_le 4 wire_major) ;;
    sink_write (to_le 4 wire_minor) ;;
    sink_write (to_le 8 feature_bits) ;;
    sink_write (to_le 2 (len fields)) ;;
    st_forM fields (fun '(k, v) => encode_one_field_owned k v "hello-ack").
End Encode.

Definition decode_hello (b : bytes) : outcome WireError HelloView :=
  if len b <? 18 then Throw (Truncated 18 (len b) "hello-header")
  else
    wire_major ← le_at 4 b 0;
    wire_minor ← le_at 4 b 4;
    feature_bits ← le_at 8 b 8;
    num_fields ← le_at 2 b 16;
    fields_bytes ← slice b 18 (len b);
    Ret {| hv_wire_major := wire_major; hv_wire_minor := wire_minor;
           hv_feature_bits := feature_bits; hv_fields_bytes := fields_bytes;
           hv_num_fields := num_fields |}.

Definition decode_hello_ack (b : bytes) : outcome WireError HelloAckView :=
  if len b <? 20 then Throw (Truncated 20 (len b) "hello-ack-header")
  else
    accepted ← byte_at b 0;
    reject_reason ← byte_at b 1;
    wire_major ← le_at 4 b 2;
    wire_minor ← le_at 4 b 6;
    feature_bits ← le_at 8 b 10;
    num_fields ← le_at 2 b 18;
    fields_bytes ← slice b 20 (len b);
    Ret {| ha_accepted := negb (accepted =? 0); ha_reject_reason := reject_reason;
           ha_hello := {| hv_wire_major := wire_major; hv_wire_minor := wire_minor;
                          hv_feature_bits := feature_bits; hv_fields_bytes := fields_bytes;
                          hv_num_fields := num_fields |} |}.

(** [fields()] of either view. *)
Definition hello_fields (v : HelloView) : FsIter :=
  field_iter (hv_fields_bytes v) (hv_num_fields v).

Definition hello_reject_label (reason : Z) : string :=
  if reason =? 0 then "ok"
  else if reason =? HELLO_REJECT_WIRE_MAJOR_MISMATCH then "wire_major_mismatch"
  else if reason =? HELLO_REJECT_MISSING_REQUIRED_FEATURE then "missing_required_feature"
  else if reason =? HELLO_REJECT_OBSERVER_BUSY then "observer_busy"
  else if reason =? HELLO_REJECT_OTHER then "other"
  else "unknown".

(** ** Encoders *)

Definition hello_bytes (major minor features : Z) (fields : list (bytes * SelfFieldOwned))
  : bytes :=
  to_le 4 major ++ to_le 4 minor ++ to_le 8 features ++ to_le 2 (len fields) ++
  concat (map field_bytes fields).

Definition hello_ok (major minor features : Z) (fields : list (bytes * SelfFieldOwned))
  : Prop :=
  in_u 32 major /\ in_u 32 minor /\ in_u 64 features /\ len fields <= U16_MAX /\
  Forall field_ok fields.

Lemma encode_hello_emits major minor features fields :
  hello_ok major minor features fields ->
  emits (encode_hello major minor features fields) tt
    (hello_bytes major minor features fields).
Proof.
  intros (_ & _ & _ & Hn & Hf). unfold encode_hello, hello_bytes.
  destruct (Z.ltb_spec U16_MAX (len fields)); [lia|].
  do 4 (eapply emits_bind; [apply emits_write|]). by apply encode_fields_emits.
Qed.

Lemma encode_hello_ack_emits acc reason major minor features fields :
  hello_ok major minor features fields ->
  emits (encode_hello_ack acc reason major minor features fields) tt
    (bool_byte acc ++ [u8b reason] ++ hello_bytes major minor features fields).
Proof.
  intros (_ & _ & _ & Hn & Hf). unfold encode_hello_ack, hello_bytes.
  destruct (Z.ltb_spec U16_MAX (len fields)); [lia|].
  do 6 (eapply emits_bind; [apply emits_write|]). by apply encode_fields_emits.
Qed.

Lemma encode_hello_sim major minor features fields :
  sink_sim (encode_hello major minor features fields)
           (encode_hello major minor features fields).
Proof.
  unfold encode_hello. sink_go; try (unfold slice_len_ok; len_simpl; lia).
  apply sim_forM, list.Forall_forall. intros [k v] _. apply encode_field_sim.
Qed.

Lemma encode_hello_ack_sim acc reason major minor features fields :
  sink_sim (encode_hello_ack acc reason major minor features fields)
           (encode_hello_ack acc reason major minor features fields).
Proof.
  unfold encode_hello_ack. sink_go; try (unfold slice_len_ok, bool_byte; len_simpl; lia).
  apply sim_forM, list.Forall_forall. intros [k v] _. apply encode_field_sim.
Qed.

(** The common tail of both bodies, read from offset [c]. *)
Definition hello_view (major minor features : Z) (fields : list (bytes * SelfFieldOwned))
    (rest : bytes) : HelloView :=
  {| hv_wire_major := major; hv_wire_minor := minor; hv_feature_bits := features;
     hv_fields_bytes := concat (map field_bytes fields) ++ rest;
     hv_num_fields := len fields |}.

Lemma hello_fields_run major minor features fields rest :
  hello_ok major minor features fields ->
  slice_len_ok (hello_bytes major minor features fields ++ rest) ->
  exists it, collect self_field_next (S (length fields))
      (hello_fields (hello_view major minor features fields rest))
    = Some (map (fun f => Ok (field_view f)) fields, it).
Proof.
  intros (_ & _ & _ & _ & Hf) Hl. apply (fields_exact _ _ rest); [|done|done].
  unfold slice_len_ok, hello_bytes, hello_view in *. simpl in *. len_simpl. lia.
Qed.

(** ** Properties *)

(** A HELLO survives the wire: version, feature bits and, in order, every
    extension field, whatever bytes follow. *)
Theorem hello_round_trip major minor features fields rest :
  hello_ok major minor features fields ->
  slice_len_ok (hello_bytes major minor features fields ++ rest) ->
  exists body view it,
    encode_hello major minor features fields [] = (Ret tt, body) /\
    decode_hello (body ++ rest) = Ret view /\
    (hv_wire_major view, hv_wire_minor view, hv_feature_bits view) = (major, minor, features) /\
    collect self_field_next (S (length fields)) (hello_fields view)
      = Some (map (fun f => Ok (field_view f)) fields, it).
Proof.
  intros Hok Hl. destruct (hello_fields_run _ _ _ _ _ Hok Hl) as [it Hit].
  eexists _, (hello_view major minor features fields rest), it.
  split; [apply (encode_hello_emits _ _ _ _ Hok [])|]. split; [|done].
  destruct Hok as (H1 & H2 & H3 & H4 & _).
  cbn [app]. set (b := hello_bytes _ _ _ _ ++ rest) in *.
  assert (S : suffix_at b 0 b) by apply suffix_at_0.
  pose proof (suffix_at_len _ _ _ S) as [_ Hlb].
  unfold b at 2, hello_bytes in S. rewrite <- !app_assoc in S.
  assert (18 <= len b) by (unfold b, hello_bytes; len_lia).
  unfold decode_hello. destruct (Z.ltb_spec (len b) 18); [lia|].
  rewrite (suffix_at_le _ _ _ _ _ S), bind_Ret by done. adv S 4.
  rewrite (suffix_at_le _ _ _ _ _ S), bind_Ret by done. adv S 8.
  rewrite (suffix_at_le _ _ _ _ _ S), bind_Ret by done. adv S 16.
  rewrite (suffix_at_le _ _ _ _ _ S), bind_Ret by (apply in_u16; pose_lens; lia). adv S 18.
  pose proof (suffix_at_len _ _ _ S) as [_ Hl2]. rewrite <- (app_nil_r (_ ++ rest)) in S.
  by rewrite (suffix_at_slice _ _ _ _ _ S), bind_Ret by lia.
Qed.

(** A HELLO_ACK survives the wire in the same way, with its verdict. *)
Theorem hello_ack_round_trip acc reason major minor features fields rest :
  in_u 8 reason -> hello_ok major minor features fields ->
  slice_len_ok (bool_byte acc ++ [u8b reason] ++
                hello_bytes major minor features fields ++ rest) ->
  exists body view it,
    encode_hello_ack acc reason major minor features fields [] = (Ret tt, body) /\
    decode_hello_ack (body ++ rest) = Ret view /\
    ha_accepted view = acc /\ ha_reject_reason view = reason /\
    hv_feature_bits (ha_hello view) = features /\ hv_wire_major (ha_hello view) = major /\
    collect self_field_next (S (length fields)) (hello_fields (ha_hello view))
      = Some (map (fun f => Ok (field_view f)) fields, it).
Proof.
  intros Hr Hok Hl. destruct (hello_fields_run major minor features fields rest Hok)
    as [it Hit]. { unfold slice_len_ok, bool_byte in *. len_simpl. pose_lens. lia. }
  eexists _, {| ha_accepted := acc; ha_reject_reason := reason;
                ha_hello := hello_view major minor features fields rest |}, it.
  split; [apply (encode_hello_ack_emits acc reason _ _ _ _ Hok [])|]. split; [|done].
  destruct Hok as (H1 & H2 & H3 & H4 & _).
  cbn [app]. set (b := _ ++ rest).
  assert (S : suffix_at b 0 b) by apply suffix_at_0.
  pose proof (suffix_at_len _ _ _ S) as [_ Hlb].
  assert (20 <= len b) by (unfold b, hello_bytes, bool_byte; len_lia).
  unfold b at 2, hello_bytes, bool_byte in S. cbn [app] in S.
  rewrite <- !app_assoc in S.
  unfold decode_hello_ack. destruct (Z.ltb_spec (len b) 20); [lia|].
  rewrite (suffix_at_byte _ _ _ _ S), bind_Ret by by destruct acc.
  change (u8b ?a :: ?x) with ([u8b a] ++ x) in S. adv S 1.
  rewrite (suffix_at_byte _ _ _ _ S), bind_Ret by done.
  change (u8b ?a :: ?x) with ([u8b a] ++ x) in S. adv S 2.
  rewrite (suffix_at_le _ _ _ _ _ S), bind_Ret by done. adv S 6.
  rewrite (suffix_at_le _ _ _ _ _ S), bind_Ret by done. adv S 10.
  rewrite (suffix_at_le _ _ _ _ _ S), bind_Ret by done. adv S 18.
  rewrite (suffix_at_le _ _ _ _ _ S), bind_Ret by (apply in_u16; pose_lens; lia). adv S 20.
  pose proof (suffix_at_len _ _ _ S) as [_ Hl2]. rewrite <- (app_nil_r (_ ++ rest)) in S.
  rewrite (suffix_at_slice _ _ _ _ _ S), bind_Ret by lia. by destruct acc.
Qed.

Lemma sample_hello_ok : hello_ok BIFROST_WIRE_MAJOR BIFROST_WIRE_MINOR FEATURE_BASELINE
  sample_fields.
Proof.
  split; [vm_compute; split; congruence|]. split; [vm_compute; split; congruence|].
  split; [vm_compute; split; congruence|]. split; [vm_compute; congruence|].
  apply sample_event_ok.
Qed.

Lemma hello_round_trip_witness :
  exists body view,
    encode_hello BIFROST_WIRE_MAJOR BIFROST_WIRE_MINOR FEATURE_BASELINE sample_fields []
      = (Ret tt, body) /\
    decode_hello body = Ret view /\
    (hv_wire_major view, hv_wire_minor view, hv_feature_bits view)
      = (BIFROST_WIRE_MAJOR, BIFROST_WIRE_MINOR, FEATURE_BASELINE).
Proof.
  destruct (hello_round_trip BIFROST_WIRE_MAJOR BIFROST_WIRE_MINOR FEATURE_BASELINE
    sample_fields []) as (body & view & it & H1 & H2 & H3 & _);
    [apply sample_hello_ok|vm_compute; reflexivity|].
  rewrite app_nil_r in H2. by exists body, view.
Defined.

Lemma hello_ack_round_trip_witness :
  exists body view,
    encode_hello_ack false HELLO_REJECT_OBSERVER_BUSY BIFROST_WIRE_MAJOR
      BIFROST_WIRE_MINOR FEATURE_BASELINE sample_fields [] = (Ret tt, body) /\
    decode_hello_ack body = Ret view /\
    ha_accepted view = false /\ ha_reject_reason view = HELLO_REJECT_OBSERVER_BUSY.
Proof.
  destruct (hello_ack_round_trip false HELLO_REJECT_OBSERVER_BUSY BIFROST_WIRE_MAJOR
    BIFROST_WIRE_MINOR FEATURE_BASELINE sample_fields [])
    as (body & view & it & H1 & H2 & H3 & H4 & _);
    [vm_compute; split; congruence|apply sample_hello_ok|vm_compute; reflexivity|].
  rewrite app_nil_r in H2. by exists body, view.
Defined.
