(* ===== verification/Bfr7.v ===== *)
(** The BFR7 wrapper: the streaming decoder and the builder
    (host/bifrost-wire/src/codec.rs).

    Strings are their UTF-8 bytes.  The skipping loops carry fuel, one more
    than the bytes of the buffer, of which every iteration consumes some. *)

From Stdlib Require Import Strings.String.
From S2P Require Import Prelude Wire FailStop FieldReloc.

Local Open Scope Z_scope.

(** ** Data *)

Inductive TrailerView : Type :=
| TrailerNone
| TrailerPath (path : bytes) (file_offset : Z)
| TrailerSymbol (basename symbol : bytes)
| TrailerUsdt (basename provider probe : bytes)
| TrailerProfileTimer (period_ns : Z).

(** The encoder's input has the same shapes, over [&str]. *)
Definition TrailerSpec : Type := TrailerView.

Record ProgramView : Type := {
  pv_target_name : bytes;
  pv_flags : Z;
  pv_probe_type : Z;
  pv_trailer : TrailerView;
  pv_schema_bytes : bytes;
  pv_num_maps : Z;
  pv_maps_bytes : bytes;
  pv_num_insns : Z;
  pv_insns : bytes;
  pv_kfunc_relocs_bytes : bytes;
  pv_field_relocs_bytes : bytes
}.

Record MapSpec : Type := {
  map_type : Z;
  key_size : Z;
  value_size : Z;
  max_entries : Z;
  fake_fd : Z;
  map_name : bytes
}.

Record ProgramSpec : Type := {
  sp_target_name : bytes;
  sp_probe_type : Z;
  sp_trailer : TrailerSpec;
  sp_schema_bytes : bytes;
  sp_maps : list MapSpec;
  sp_insns : bytes;
  sp_kfunc_relocs : list (Z * bytes);
  sp_field_relocs : list FieldRelocInput
}.

(** ** Decoder *)

(** The trailer [match] of [decode_one_program]. *)
Definition decode_trailer (b : bytes) (cursor probe_type : Z)
  : outcome WireError (Z * TrailerView) :=
  if (probe_type =? 2) || (probe_type =? 3) then
    need b cursor 4 "uprobe-trailer-pathlen" ;;
    path_len ← le_at 4 b cursor;
    if 256 <? path_len then Throw (PathTooLong path_len)
    else
      let cursor := cursor + 4 in
      need b cursor (path_len + 8) "uprobe-trailer-path" ;;
      path ← slice b cursor (cursor + path_len);
      let cursor := cursor + path_len in
      file_offset ← le_at 8 b cursor;
      Ret (cursor + 8, TrailerPath path file_offset)
  else if (probe_type =? 4) || (probe_type =? 5) then
    need b cursor 4 "sym-trailer-bnlen" ;;
    bn_len ← le_at 4 b cursor;
    if (bn_len =? 0) || (64 <? bn_len) then Throw (BasenameOutOfRange bn_len)
    else
      let cursor := cursor + 4 in
      need b cursor (bn_len + 4) "sym-trailer-bn" ;;
      basename ← slice b cursor (cursor + bn_len);
      let cursor := cursor + bn_len in
      sym_len ← le_at 4 b cursor;
      if (sym_len =? 0) || (256 <? sym_len) then Throw (SymbolOutOfRange sym_len)
      else
        let cursor := cursor + 4 in
        need b cursor sym_len "sym-trailer-sym" ;;
        symbol ← slice b cursor (cursor + sym_len);
        Ret (cursor + sym_len, TrailerSymbol basename symbol)
  else if probe_type =? 9 then
    need b cursor 4 "usdt-trailer-bnlen" ;;
    bn_len ← le_at 4 b cursor;
    if (bn_len =? 0) || (64 <? bn_len) then Throw (BasenameOutOfRange bn_len)
    else
      let cursor := cursor + 4 in
      need b cursor (bn_len + 4) "usdt-trailer-bn" ;;
      basename ← slice b cursor (cursor + bn_len);
      let cursor := cursor + bn_len in
      prov_len ← le_at 4 b cursor;
      if (prov_len =? 0) || (64 <? prov_len) then Throw (ProviderOutOfRange prov_len)
      else
        let cursor := cursor + 4 in
        need b cursor (prov_len + 4) "usdt-trailer-prov" ;;
        provider ← slice b cursor (cursor + prov_len);
        let cursor := cursor + prov_len in
        probe_len ← le_at 4 b cursor;
        if (probe_len =? 0) || (256 <? probe_len) then Throw (ProbeOutOfRange probe_len)
        else
          let cursor := cursor + 4 in
          need b cursor probe_len "usdt-trailer-probe" ;;
          probe ← slice b cursor (cursor + probe_len);
          Ret (cursor + probe_len, TrailerUsdt basename provider probe)
  else if probe_type =? 10 then
    need b cursor 8 "profile-timer-trailer-period" ;;
    period_ns ← le_at 8 b cursor;
    Ret (cursor + 8, TrailerProfileTimer period_ns)
  else if (probe_type =? 0) || (probe_type =? 1) || (probe_type =? 6) ||
          (probe_type =? 7) || (probe_type =? 8) then Ret (cursor, TrailerNone)
  else Throw (BadProbeType probe_type).

(** [for _ in 0..num_relocs] over the kfunc relocation table. *)
Fixpoint skip_kfunc_relocs (fuel : nat) (b : bytes) (cursor n : Z) : outcome WireError Z :=
  match fuel with
  | O => Panic
  | S fuel' =>
      if n <=? 0 then Ret cursor
      else
        need b cursor 5 "kfunc-reloc-header" ;;
        name_len ← byte_at b (cursor + 4);
        let cursor := cursor + 5 in
        need b cursor name_len "kfunc-reloc-name" ;;
        skip_kfunc_relocs fuel' b (cursor + name_len) (n - 1)
  end.

(** [for _ in 0..num_field] over the field relocation section. *)
Fixpoint skip_field_relocs (fuel : nat) (b : bytes) (cursor n : Z) : outcome WireError Z :=
  match fuel with
  | O => Panic
  | S fuel' =>
      if n <=? 0 then Ret cursor
      else
        need b cursor 8 "field-reloc-record-header" ;;
        struct_name_len ← byte_at b (cursor + 6);
        field_name_len ← byte_at b (cursor + 7);
        let cursor := cursor + 8 in
        need b cursor (struct_name_len + field_name_len) "field-reloc-names" ;;
        skip_field_relocs fuel' b (cursor + (struct_name_len + field_name_len)) (n - 1)
  end.

(** A [u32] element count and that many elements of [k] bytes. *)
Definition decode_counted (b : bytes) (cursor k : Z) (len_at bytes_at : string)
  : outcome WireError (Z * (Z * bytes)) :=
  need b cursor 4 len_at ;;
  n ← le_at 4 b cursor;
  let cursor := cursor + 4 in
  need b cursor (n * k) bytes_at ;;
  s ← slice b cursor (cursor + n * k);
  Ret (cursor + n * k, (n, s)).

(** A [u32] record count and that many records found by [skip]; the slice
    includes the count. *)
Definition decode_table (skip : nat -> bytes -> Z -> Z -> outcome WireError Z)
    (b : bytes) (start : Z) (len_at : string) : outcome WireError (Z * bytes) :=
  need b start 4 len_at ;;
  n ← le_at 4 b start;
  cursor ← skip (S (length b)) b (start + 4) n;
  s ← slice b start cursor;
  Ret (cursor, s).

Definition decode_one_program (b : bytes) (off : Z) : outcome WireError (Z * ProgramView) :=
  need b off 36 "program-header" ;;
  target_name ← slice b off (off + 32);
  flags ← le_at 4 b (off + 32);
  let probe_type := Z.land flags 0xff in
  '(cursor, trailer) ← decode_trailer b (off + 36) probe_type;
  '(cursor, (_, schema_bytes)) ← decode_counted b cursor 1 "schema-len" "schema-bytes";
  '(cursor, (num_maps, maps_bytes)) ← decode_counted b cursor 52 "num-maps" "maps-bytes";
  '(cursor, (num_insns, insns)) ← decode_counted b cursor 8 "num-insns" "insns-bytes";
  '(cursor, kfunc_relocs_bytes) ← decode_table skip_kfunc_relocs b cursor "num-kfunc-relocs";
  '(cursor, field_relocs_bytes) ←
    (if negb (Z.land flags PROGRAM_FLAG_FIELD_RELOCS_PRESENT =? 0)
     then decode_table skip_field_relocs b cursor "num-field-relocs"
     else Ret (cursor, []));
  Ret (cursor, {| pv_target_name := target_name; pv_flags := flags;
                  pv_probe_type := probe_type; pv_trailer := trailer;
                  pv_schema_bytes := schema_bytes; pv_num_maps := num_maps;
                  pv_maps_bytes := maps_bytes; pv_num_insns := num_insns;
                  pv_insns := insns; pv_kfunc_relocs_bytes := kfunc_relocs_bytes;
                  pv_field_relocs_bytes := field_relocs_bytes |}).

(** [ProgramIter::next] *)
Definition program_next := fs_next decode_one_program.

Definition decode_bfr7 (b : bytes) : outcome WireError FsIter :=
  if len b <? 8 then Throw (Truncated 8 (len b) "wrapper-header")
  else
    magic ← slice b 0 4;
    if negb (bool_decide (magic = BFR7_MAGIC)) then Throw (UnsupportedMagic magic)
    else
      num_progs ← le_at 4 b 4;
      Ret {| it_bytes := b; it_cursor := 8; it_remaining := num_progs; it_failed := false |}.

(** ** Builder *)

Definition program_flags (p : ProgramSpec) : Z :=
  match sp_field_relocs p with
  | [] => sp_probe_type p
  | _ => Z.lor (sp_probe_type p) PROGRAM_FLAG_FIELD_RELOCS_PRESENT
  end.

(** [i32::to_le_bytes] *)
Definition i32_to_le (v : Z) : bytes := to_le 4 (v mod 2 ^ 32).

(** [as u32] *)
Definition as_u32 (v : Z) : Z := v mod 2 ^ 32.

Section Encode.
Context {S : Type} `{WireSink S}.

Definition builder_new (num_progs : Z) : st S WireError unit :=
  sink_write (wrapper_header_bytes (wrapper_header_new num_progs)).

(** [write(len as u32)] and the bytes. *)
Definition write_prefixed (x : bytes) : st S WireError unit :=
  sink_write (to_le 4 (len x)) ;; sink_write x.

Definition out_of_range (x : bytes) (max : Z) : bool := (len x =? 0) || (max <? len x).

Definition push_trailer (t : TrailerSpec) : st S WireError unit :=
  match t with
  | TrailerNone => mret tt
  | TrailerPath path file_offset =>
      if 256 <? len path then st_throw (PathTooLong (as_u32 (len path)))
      else write_prefixed path ;; sink_write (to_le 8 file_offset)
  | TrailerSymbol bn sym =>
      if out_of_range bn 64 then st_throw (BasenameOutOfRange (as_u32 (len bn)))
      else if out_of_range sym 256 then st_throw (SymbolOutOfRange (as_u32 (len sym)))
      else write_prefixed bn ;; write_prefixed sym
  | TrailerUsdt bn prov pr =>
      if out_of_range bn 64 then st_throw (BasenameOutOfRange (as_u32 (len bn)))
      else if out_of_range prov 64 then st_throw (ProviderOutOfRange (as_u32 (len prov)))
      else if out_of_range pr 256 then st_throw (ProbeOutOfRange (as_u32 (len pr)))
      else write_prefixed bn ;; write_prefixed prov ;; write_prefixed pr
  | TrailerProfileTimer period_ns => sink_write (to_le 8 period_ns)
  end.

Definition push_map (m : MapSpec) : st S WireError unit :=
  sink_write (to_le 4 (map_type m)) ;;
  sink_write (to_le 4 (key_size m)) ;;
  sink_write (to_le 4 (value_size m)) ;;
  sink_write (to_le 4 (max_entries m)) ;;
  sink_write (i32_to_le (fake_fd m)) ;;
  sink_write (name32 (map_name m)).

Definition push_kfunc_reloc (r : Z * bytes) : st S WireError unit :=
  let '(insn_idx, nb) := r in
  if (len nb =? 0) || (255 <? len nb) then st_throw (KfuncNameOutOfRange (len nb))
  else
    sink_write (to_le 4 insn_idx) ;;
    sink_write [u8b (len nb)] ;;
    sink_write nb.

Definition push_program (p : ProgramSpec) : st S WireError unit :=
  let prog_hdr := {| hdr_target_name := hdr_target_name
                       (program_header_new (sp_target_name p) (sp_probe_type p));
                     hdr_flags := program_flags p |} in
  sink_write (program_header_bytes prog_hdr) ;;
  push_trailer (sp_trailer p) ;;
  write_prefixed (sp_schema_bytes p) ;;
  sink_write (to_le 4 (len (sp_maps p))) ;;
  st_forM (sp_maps p) push_map ;;
  sink_write (to_le 4 (len (sp_insns p) / 8)) ;;
  sink_write (sp_insns p) ;;
  sink_write (to_le 4 (len (sp_kfunc_relocs p))) ;;
  st_forM (sp_kfunc_relocs p) push_kfunc_reloc ;;
  match sp_field_relocs p with
  | [] => mret tt
  | _ => encode_field_relocs (sp_field_relocs p)
  end.

(** A whole wrapper, as [build_wrapper_bytes] drives the builder. *)
Definition encode_wrapper (progs : list ProgramSpec) : st S WireError unit :=
  builder_new (len progs) ;; st_forM progs push_program.
End Encode.

(** ** Layouts *)

Definition prefixed (x : bytes) : bytes := to_le 4 (len x) ++ x.

Definition trailer_bytes (t : TrailerSpec) : bytes :=
  match t with
  | TrailerNone => []
  | TrailerPath path file_offset => prefixed path ++ to_le 8 file_offset
  | TrailerSymbol bn sym => prefixed bn ++ prefixed sym
  | TrailerUsdt bn prov pr => prefixed bn ++ prefixed prov ++ prefixed pr
  | TrailerProfileTimer period_ns => to_le 8 period_ns
  end.

Definition map_bytes (m : MapSpec) : bytes :=
  to_le 4 (map_type m) ++ to_le 4 (key_size m) ++ to_le 4 (value_size m) ++
  to_le 4 (max_entries m) ++ i32_to_le (fake_fd m) ++ name32 (map_name m).

Definition maps_bytes (l : list MapSpec) : bytes := concat (map map_bytes l).

Definition kfunc_bytes (r : Z * bytes) : bytes :=
  to_le 4 (fst r) ++ [u8b (len (snd r))] ++ snd r.

Definition kfunc_table (l : list (Z * bytes)) : bytes :=
  to_le 4 (len l) ++ concat (map kfunc_bytes l).

Definition field_section (l : list FieldRelocInput) : bytes :=
  match l with [] => [] | _ => relocs_bytes l end.

Definition program_bytes (p : ProgramSpec) : bytes :=
  (name32 (sp_target_name p) ++ to_le 4 (program_flags p)) ++
  trailer_bytes (sp_trailer p) ++
  prefixed (sp_schema_bytes p) ++
  to_le 4 (len (sp_maps p)) ++ maps_bytes (sp_maps p) ++
  to_le 4 (len (sp_insns p) / 8) ++ sp_insns p ++
  to_le 4 (len (sp_kfunc_relocs p)) ++ concat (map kfunc_bytes (sp_kfunc_relocs p)) ++
  field_section (sp_field_relocs p).

Definition wrapper_bytes (progs : list ProgramSpec) : bytes :=
  (BFR7_MAGIC ++ to_le 4 (len progs)) ++ concat (map program_bytes progs).

(** ** Well-formed inputs *)

Definition trailer_ok (ty : Z) (t : TrailerSpec) : Prop :=
  match t with
  | TrailerNone => ty = 0 \/ ty = 1 \/ ty = 6 \/ ty = 7 \/ ty = 8
  | TrailerPath path file_offset =>
      (ty = 2 \/ ty = 3) /\ len path <= 256 /\ in_u 64 file_offset
  | TrailerSymbol bn sym =>
      (ty = 4 \/ ty = 5) /\ 1 <= len bn <= 64 /\ 1 <= len sym <= 256
  | TrailerUsdt bn prov pr =>
      ty = 9 /\ 1 <= len bn <= 64 /\ 1 <= len prov <= 64 /\ 1 <= len pr <= 256
  | TrailerProfileTimer period_ns => ty = 10 /\ in_u 64 period_ns
  end.

Definition kfunc_ok (r : Z * bytes) : Prop := in_u 32 (fst r) /\ 1 <= len (snd r) <= 255.

(** What the caller of [push_program] must respect: the trailer fits the
    probe type, names and counts fit their prefixes, and the instruction
    bytes are whole instructions. *)
Definition program_ok (p : ProgramSpec) : Prop :=
  trailer_ok (sp_probe_type p) (sp_trailer p) /\
  in_u 32 (len (sp_schema_bytes p)) /\ in_u 32 (len (sp_maps p)) /\
  in_u 32 (len (sp_kfunc_relocs p)) /\ in_u 32 (len (sp_field_relocs p)) /\
  (exists n, len (sp_insns p) = n * 8 /\ in_u 32 n) /\
  Forall kfunc_ok (sp_kfunc_relocs p) /\ Forall reloc_ok (sp_field_relocs p).

(** What the decoder shows for it. *)
Definition program_view (p : ProgramSpec) : ProgramView :=
  {| pv_target_name := name32 (sp_target_name p); pv_flags := program_flags p;
     pv_probe_type := sp_probe_type p; pv_trailer := sp_trailer p;
     pv_schema_bytes := sp_schema_bytes p; pv_num_maps := len (sp_maps p);
     pv_maps_bytes := maps_bytes (sp_maps p); pv_num_insns := len (sp_insns p) / 8;
     pv_insns := sp_insns p; pv_kfunc_relocs_bytes := kfunc_table (sp_kfunc_relocs p);
     pv_field_relocs_bytes := field_section (sp_field_relocs p) |}.

(** ** Encoding *)

Lemma write_prefixed_emits x : emits (write_prefixed x) tt (prefixed x).
Proof. unfold write_prefixed, prefixed. repeat emits_step. Qed.

Lemma in_range_ok x max : 1 <= len x <= max -> out_of_range x max = false.
Proof.
  intros H. unfold out_of_range.
  destruct (Z.eqb_spec (len x) 0), (Z.ltb_spec max (len x)); lia || done.
Qed.

Lemma push_trailer_emits ty t : trailer_ok ty t -> emits (push_trailer t) tt (trailer_bytes t).
Proof.
  destruct t as [|path fo|bn sym|bn prov pr|ns]; cbn [trailer_ok push_trailer trailer_bytes].
  - intros _. apply emits_ret.
  - intros (_ & Hp & _). destruct (Z.ltb_spec 256 (len path)); [lia|].
    eapply emits_bind; [apply write_prefixed_emits|apply emits_write].
  - intros (_ & Hb & Hs). rewrite !in_range_ok by done.
    eapply emits_bind; apply write_prefixed_emits.
  - intros (_ & Hb & Hv & Hp). rewrite !in_range_ok by done.
    repeat (eapply emits_bind; [apply write_prefixed_emits|]). apply write_prefixed_emits.
  - intros _. apply emits_write.
Qed.

Lemma push_kfunc_reloc_emits r : kfunc_ok r -> emits (push_kfunc_reloc r) tt (kfunc_bytes r).
Proof.
  destruct r as [i nb]. intros [_ Hn]. simpl in Hn. unfold push_kfunc_reloc, kfunc_bytes.
  change ((len nb =? 0) || (255 <? len nb)) with (out_of_range nb 255).
  rewrite in_range_ok by done. repeat emits_step.
Qed.

Lemma push_program_emits p : program_ok p -> emits (push_program p) tt (program_bytes p).
Proof.
  intros (Ht & _ & _ & _ & _ & _ & Hk & Hf). unfold push_program, program_bytes. cbv zeta.
  eapply emits_bind; [apply emits_write|].
  eapply emits_bind; [by eapply push_trailer_emits|].
  eapply emits_bind; [apply write_prefixed_emits|].
  eapply emits_bind; [apply emits_write|].
  eapply emits_bind.
  { apply emits_forM. apply list.Forall_forall. intros m _. unfold push_map, map_bytes.
    repeat emits_step. }
  do 3 (eapply emits_bind; [apply emits_write|]).
  eapply emits_bind.
  { apply emits_forM. eapply list.Forall_impl; [exact Hk|]. apply push_kfunc_reloc_emits. }
  destruct (sp_field_relocs p) as [|r l]; [apply emits_ret|].
  by apply encode_field_relocs_emits.
Qed.

Lemma encode_wrapper_emits progs :
  Forall program_ok progs -> emits (encode_wrapper progs) tt (wrapper_bytes progs).
Proof.
  intros H. eapply emits_bind; [apply emits_write|]. apply emits_forM.
  eapply list.Forall_impl; [exact H|]. apply push_program_emits.
Qed.

(** ** Decoding what was encoded *)

(** A length-prefixed string under the cursor. *)
Lemma prefixed_at b c x s :
  in_u 32 (len x) -> suffix_at b c (prefixed x ++ s) ->
  le_at (E:=WireError) 4 b c = Ret (len x) /\
  slice (E:=WireError) b (c + 4) (c + 4 + len x) = Ret x /\
  suffix_at b (c + 4 + len x) s /\ 0 <= c /\ c + 4 + len x <= len b.
Proof.
  intros Hx S. unfold prefixed in S. rewrite <- app_assoc in S.
  pose proof (suffix_at_len _ _ _ S) as [Hc Hl]. len_simpl. pose_lens.
  split; [by apply (suffix_at_le _ _ _ _ _ S)|]. adv S (c + 4).
  split; [by apply (suffix_at_slice _ _ _ _ _ S)|]. adv S (c + 4 + len x).
  split_and!; [done|lia..].
Qed.

Lemma len_prefixed x : len (prefixed x) = 4 + len x.
Proof. unfold prefixed. len_lia. Qed.

Ltac u32_side := unfold in_u; simpl; lia.

Lemma decode_trailer_enc b : slice_len_ok b -> forall ty t c s,
  trailer_ok ty t -> suffix_at b c (trailer_bytes t ++ s) ->
  decode_trailer b c ty = Ret (c + len (trailer_bytes t), t).
Proof.
  intros Hb ty t c s Ht S. pose proof (suffix_at_len _ _ _ S) as [Hc Hl].
  pose proof (len_nonneg s). rewrite len_app in Hl. unfold decode_trailer.
  destruct t as [|path fo|bn sym|bn prov pr|ns]; cbn [trailer_ok trailer_bytes] in *;
    rewrite <- ?app_assoc in S; rewrite ?len_app, ?len_prefixed, ?len_to_le in *.
  - replace (c + len []) with c by len_lia. by destruct Ht as [->|[->|[->|[->| ->]]]].
  - destruct Ht as (Hty & Hp & Hfo).
    assert (((ty =? 2) || (ty =? 3)) = true) as -> by (by destruct Hty as [->| ->]).
    pose proof (len_nonneg path) as Hp0.
    destruct (prefixed_at _ _ path _ ltac:(u32_side) S) as (H1 & H2 & S1 & H3).
    rewrite need_ok, bind_Ret by (done || lia). rewrite H1, bind_Ret.
    destruct (Z.ltb_spec 256 (len path)); [lia|]. cbv zeta.
    rewrite need_ok, bind_Ret by (done || lia). rewrite H2, bind_Ret.
    rewrite (suffix_at_le _ _ _ _ _ S1), bind_Ret by done. do 2 f_equal. lia.
  - destruct Ht as (Hty & Hbn & Hsym).
    assert (((ty =? 2) || (ty =? 3)) = false) as -> by (by destruct Hty as [->| ->]).
    assert (((ty =? 4) || (ty =? 5)) = true) as -> by (by destruct Hty as [->| ->]).
    destruct (prefixed_at _ _ bn _ ltac:(u32_side) S) as (H1 & H2 & S1 & H3).
    destruct (prefixed_at _ _ sym _ ltac:(u32_side) S1) as (H4 & H5 & S2 & H6).
    rewrite need_ok, bind_Ret by (done || lia). rewrite H1, bind_Ret.
    change ((len bn =? 0) || (64 <? len bn)) with (out_of_range bn 64).
    rewrite in_range_ok by done. cbv zeta.
    rewrite need_ok, bind_Ret by (done || lia). rewrite H2, bind_Ret, H4, bind_Ret.
    change ((len sym =? 0) || (256 <? len sym)) with (out_of_range sym 256).
    rewrite in_range_ok by done.
    rewrite need_ok, bind_Ret by (done || lia). rewrite H5, bind_Ret. do 2 f_equal. lia.
  - destruct Ht as (-> & Hbn & Hprov & Hpr).
    change ((9 =? 2) || (9 =? 3)) with false. change ((9 =? 4) || (9 =? 5)) with false.
    change (9 =? 9) with true. cbv iota.
    destruct (prefixed_at _ _ bn _ ltac:(u32_side) S) as (H1 & H2 & S1 & H3).
    destruct (prefixed_at _ _ prov _ ltac:(u32_side) S1) as (H4 & H5 & S2 & H6).
    destruct (prefixed_at _ _ pr _ ltac:(u32_side) S2) as (H7 & H8 & S3 & H9).
    rewrite need_ok, bind_Ret by (done || lia). rewrite H1, bind_Ret.
    change ((len bn =? 0) || (64 <? len bn)) with (out_of_range bn 64).
    rewrite in_range_ok by done. cbv zeta.
    rewrite need_ok, bind_Ret by (done || lia). rewrite H2, bind_Ret, H4, bind_Ret.
    change ((len prov =? 0) || (64 <? len prov)) with (out_of_range prov 64).
    rewrite in_range_ok by done.
    rewrite need_ok, bind_Ret by (done || lia). rewrite H5, bind_Ret, H7, bind_Ret.
    change ((len pr =? 0) || (256 <? len pr)) with (out_of_range pr 256).
    rewrite in_range_ok by done.
    rewrite need_ok, bind_Ret by (done || lia). rewrite H8, bind_Ret. do 2 f_equal. lia.
  - destruct Ht as (-> & Hns).
    change ((10 =? 2) || (10 =? 3)) with false. change ((10 =? 4) || (10 =? 5)) with false.
    change (10 =? 9) with false. change (10 =? 10) with true. cbv iota.
    rewrite need_ok, bind_Ret by (done || lia).
    by rewrite (suffix_at_le _ _ _ _ _ S), bind_Ret by done.
Qed.

Lemma len_kfunc_bytes r : len (kfunc_bytes r) = 5 + len (snd r).
Proof. unfold kfunc_bytes. len_lia. Qed.

Lemma skip_kfunc_relocs_enc b : slice_len_ok b -> forall l fuel c s,
  Forall kfunc_ok l -> (length l < fuel)%nat ->
  suffix_at b c (concat (map kfunc_bytes l) ++ s) ->
  skip_kfunc_relocs fuel b c (len l) = Ret (c + len (concat (map kfunc_bytes l))).
Proof.
  intros Hb l. induction l as [|r l IH]; intros fuel c s Hok Hf S;
    (destruct fuel as [|fuel]; [simpl in Hf; lia|]); cbn [skip_kfunc_relocs].
  { cbn [map concat]. by rewrite len_nil, Z.add_0_r. }
  pose proof (Forall_inv Hok) as [_ Hn]. apply Forall_inv_tail in Hok.
  cbn [map concat] in S |- *. rewrite len_app, len_kfunc_bytes.
  rewrite <- app_assoc in S. unfold kfunc_bytes at 1 in S. rewrite <- !app_assoc in S.
  pose proof (suffix_at_len _ _ _ S) as [Hc Hl]. len_simpl. pose_lens.
  destruct (Z.leb_spec (1 + len l) 0); [lia|].
  rewrite need_ok, bind_Ret by (done || lia). adv S (c + 4).
  rewrite (suffix_at_byte _ _ _ _ S), bind_Ret by (unfold in_u; lia). adv S (c + 5).
  cbv zeta. rewrite need_ok, bind_Ret by (done || lia). adv S (c + 5 + len (snd r)).
  replace (1 + len l - 1) with (len l) by lia.
  rewrite (IH _ _ s) by (done || (simpl in Hf; lia)). f_equal. lia.
Qed.

Lemma skip_field_relocs_enc b : slice_len_ok b -> forall l fuel c s,
  Forall reloc_ok l -> (length l < fuel)%nat ->
  suffix_at b c (concat (map reloc_bytes l) ++ s) ->
  skip_field_relocs fuel b c (len l) = Ret (c + len (concat (map reloc_bytes l))).
Proof.
  intros Hb l. induction l as [|r l IH]; intros fuel c s Hok Hf S;
    (destruct fuel as [|fuel]; [simpl in Hf; lia|]); cbn [skip_field_relocs].
  { cbn [map concat]. by rewrite len_nil, Z.add_0_r. }
  pose proof (Forall_inv Hok) as (_ & _ & _ & Hs & Hn). apply Forall_inv_tail in Hok.
  unfold FIELD_RELOC_NAME_MAX in *.
  cbn [map concat] in S |- *. rewrite len_app, len_reloc_bytes.
  rewrite <- app_assoc in S. unfold reloc_bytes at 1 in S. rewrite <- !app_assoc in S.
  pose proof (suffix_at_len _ _ _ S) as [Hc Hl]. len_simpl. pose_lens.
  destruct (Z.leb_spec (1 + len l) 0); [lia|].
  rewrite need_ok, bind_Ret by (done || lia). adv S (c + 4). adv S (c + 5). adv S (c + 6).
  rewrite (suffix_at_byte _ _ _ _ S), bind_Ret by (unfold in_u; lia). adv S (c + 7).
  rewrite (suffix_at_byte _ _ _ _ S), bind_Ret by (unfold in_u; lia). adv S (c + 8).
  cbv zeta. rewrite need_ok, bind_Ret by (done || lia).
  rewrite app_assoc in S.
  adv S (c + 8 + (len (fr_struct_name r) + len (fr_field_name r))).
  replace (1 + len l - 1) with (len l) by lia.
  rewrite (IH _ _ s) by (done || (simpl in Hf; lia)). f_equal. lia.
Qed.

Lemma decode_counted_enc b c k n x s la ba :
  slice_len_ok b -> in_u 32 n -> len x = n * k ->
  suffix_at b c (to_le 4 n ++ x ++ s) ->
  decode_counted b c k la ba = Ret (c + 4 + len x, (n, x)).
Proof.
  intros Hb Hn Hx S. pose proof (suffix_at_len _ _ _ S) as [Hc Hl]. len_simpl.
  pose_lens. unfold decode_counted.
  rewrite need_ok, bind_Ret by (done || lia).
  rewrite (suffix_at_le _ _ _ _ _ S), bind_Ret by done. adv S (c + 4). cbv zeta.
  rewrite need_ok, bind_Ret by (done || lia). rewrite <- Hx.
  by rewrite (suffix_at_slice _ _ _ _ _ S eq_refl), bind_Ret.
Qed.

Lemma decode_table_enc {X} skip (enc : X -> bytes) b c l s la :
  slice_len_ok b -> in_u 32 (len l) ->
  suffix_at b c (to_le 4 (len l) ++ concat (map enc l) ++ s) ->
  skip (Datatypes.S (length b)) b (c + 4) (len l) = Ret (c + 4 + len (concat (map enc l))) ->
  decode_table skip b c la =
    Ret (c + 4 + len (concat (map enc l)), to_le 4 (len l) ++ concat (map enc l)).
Proof.
  intros Hb Hn S Hskip. pose proof (suffix_at_len _ _ _ S) as [Hc Hl]. len_simpl.
  pose_lens. unfold decode_table.
  rewrite need_ok, bind_Ret by (done || lia).
  rewrite (suffix_at_le _ _ _ _ _ S), bind_Ret by done. rewrite Hskip, bind_Ret.
  rewrite app_assoc in S. by rewrite (suffix_at_slice _ _ _ _ _ S), bind_Ret by len_lia.
Qed.

Lemma len_maps_bytes l : len (maps_bytes l) = len l * 52.
Proof.
  unfold maps_bytes. induction l as [|m l IH]; [done|]. cbn [map concat].
  unfold map_bytes at 1, i32_to_le. len_simpl. lia.
Qed.

Lemma program_flags_ok p :
  program_ok p ->
  in_u 32 (program_flags p) /\ Z.land (program_flags p) 0xff = sp_probe_type p /\
  (Z.land (program_flags p) PROGRAM_FLAG_FIELD_RELOCS_PRESENT =? 0)
    = match sp_field_relocs p with [] => true | _ => false end.
Proof.
  intros (Ht & _).
  assert (Hall : forallb (fun ty => (0 <=? Z.lor ty 256) && (Z.lor ty 256 <? 2 ^ 32) &&
    (Z.land (Z.lor ty 256) 0xff =? ty) && negb (Z.land (Z.lor ty 256) 256 =? 0) &&
    (Z.land ty 0xff =? ty) && (Z.land ty 256 =? 0))
    (map Z.of_nat (seq 0 11)) = true) by (vm_compute; reflexivity).
  assert (Hr : 0 <= sp_probe_type p <= 10).
  { destruct (sp_trailer p); simpl in Ht; lia. }
  rewrite forallb_forall in Hall. specialize (Hall (sp_probe_type p)).
  rewrite !andb_true_iff, negb_true_iff in Hall.
  destruct Hall as [[[[[H1 H2] H3] H4] H5] H6].
  { apply in_map_iff. exists (Z.to_nat (sp_probe_type p)). rewrite in_seq. lia. }
  zbool. unfold program_flags, PROGRAM_FLAG_FIELD_RELOCS_PRESENT, in_u.
  change (Z.shiftl 1 8) with 256.
  destruct (sp_field_relocs p); [rewrite H6|]; split_and!; try done; try lia.
Qed.

Lemma kfunc_count_le l : (length l <= length (concat (map kfunc_bytes l)))%nat.
Proof.
  induction l as [|r l IH]; [done|]. cbn [map concat]. rewrite length_app.
  pose proof (len_kfunc_bytes r) as H. pose_lens. unfold len in *. simpl. lia.
Qed.

Lemma reloc_count_le l : (length l <= length (concat (map reloc_bytes l)))%nat.
Proof.
  induction l as [|r l IH]; [done|]. cbn [map concat]. rewrite length_app.
  pose proof (len_reloc_bytes r) as H. pose_lens. unfold len in *. simpl. lia.
Qed.

Lemma length_suffix b c x s : suffix_at b c (x ++ s) -> (length x <= length b)%nat.
Proof. intros (pre & -> & _). rewrite !length_app. lia. Qed.

Lemma decode_kfuncs_enc b c l s :
  slice_len_ok b -> in_u 32 (len l) -> Forall kfunc_ok l ->
  suffix_at b c (kfunc_table l ++ s) ->
  decode_table skip_kfunc_relocs b c "num-kfunc-relocs"
    = Ret (c + len (kfunc_table l), kfunc_table l).
Proof.
  intros Hb Hn Hok S. unfold kfunc_table in *. rewrite <- app_assoc in S.
  replace (c + len _) with (c + 4 + len (concat (map kfunc_bytes l))) by len_lia.
  apply (decode_table_enc _ _ _ _ _ s); [done..|].
  adv S (c + 4). apply (skip_kfunc_relocs_enc b Hb l _ _ s Hok); [|done].
  apply length_suffix in S. pose proof (kfunc_count_le l). lia.
Qed.

Lemma decode_fields_enc b c l s :
  slice_len_ok b -> in_u 32 (len l) -> Forall reloc_ok l ->
  suffix_at b c (relocs_bytes l ++ s) ->
  decode_table skip_field_relocs b c "num-field-relocs"
    = Ret (c + len (relocs_bytes l), relocs_bytes l).
Proof.
  intros Hb Hn Hok S. unfold relocs_bytes in *. rewrite <- app_assoc in S.
  replace (c + len _) with (c + 4 + len (concat (map reloc_bytes l))) by len_lia.
  apply (decode_table_enc _ _ _ _ _ s); [done..|].
  adv S (c + 4). apply (skip_field_relocs_enc b Hb l _ _ s Hok); [|done].
  apply length_suffix in S. pose proof (reloc_count_le l). lia.
Qed.

(** The program bytes with the kfunc table as one piece. *)
Lemma program_bytes_shape p :
  program_bytes p =
  name32 (sp_target_name p) ++ to_le 4 (program_flags p) ++ trailer_bytes (sp_trailer p) ++
  to_le 4 (len (sp_schema_bytes p)) ++ sp_schema_bytes p ++
  to_le 4 (len (sp_maps p)) ++ maps_bytes (sp_maps p) ++
  to_le 4 (len (sp_insns p) / 8) ++ sp_insns p ++
  kfunc_table (sp_kfunc_relocs p) ++ field_section (sp_field_relocs p).
Proof.
  unfold program_bytes, prefixed, kfunc_table. by rewrite <- !app_assoc.
Qed.

Lemma decode_one_program_enc b : slice_len_ok b -> forall c p s,
  program_ok p -> suffix_at b c (program_bytes p ++ s) ->
  decode_one_program b c = Ret (c + len (program_bytes p), program_view p).
Proof.
  intros Hb c p s Hok S. pose proof (program_flags_ok p Hok) as (Hf1 & Hf2 & Hf3).
  destruct Hok as (Ht & Hsc & Hm & Hk & Hfr & (n & Hi & Hn) & Hkok & Hfok).
  assert (Hdiv : len (sp_insns p) / 8 = n) by (rewrite Hi; by apply Z.div_mul).
  rewrite program_bytes_shape, Hdiv, <- !app_assoc in S.
  replace (c + len (program_bytes p)) with
    (c + 32 + 4 + len (trailer_bytes (sp_trailer p)) + 4 + len (sp_schema_bytes p) + 4 +
     len (maps_bytes (sp_maps p)) + 4 + len (sp_insns p) +
     len (kfunc_table (sp_kfunc_relocs p)) + len (field_section (sp_field_relocs p)))
    by (rewrite program_bytes_shape; len_lia).
  unfold decode_one_program.
  pose proof (suffix_at_len _ _ _ S) as [Hc Hl]. rewrite !len_app, len_name32, !len_to_le in Hl.
  pose_lens. rewrite need_ok, bind_Ret by (done || lia).
  rewrite (suffix_at_slice _ _ _ _ (c + 32) S), bind_Ret by len_lia. adv S (c + 32).
  rewrite (suffix_at_le _ _ _ _ _ S), bind_Ret by done. adv S (c + 32 + 4).
  cbv zeta. rewrite Hf2. replace (c + 36) with (c + 32 + 4) by lia.
  rewrite (decode_trailer_enc b Hb _ _ _ _ Ht S), bind_Ret. cbn beta iota.
  adv S (c + 32 + 4 + len (trailer_bytes (sp_trailer p))).
  rewrite (decode_counted_enc _ _ 1 _ _ _ _ _ Hb Hsc (eq_sym (Z.mul_1_r _)) S), bind_Ret. cbn beta iota.
  rewrite app_assoc in S. adv S (c + 32 + 4 + len (trailer_bytes (sp_trailer p)) + 4 +
    len (sp_schema_bytes p)).
  rewrite (decode_counted_enc _ _ 52 _ _ _ _ _ Hb Hm (len_maps_bytes _) S), bind_Ret.
  cbn beta iota. rewrite app_assoc in S.
  adv S (c + 32 + 4 + len (trailer_bytes (sp_trailer p)) + 4 + len (sp_schema_bytes p) + 4 +
    len (maps_bytes (sp_maps p))).
  rewrite (decode_counted_enc _ _ 8 _ _ _ _ _ Hb Hn Hi S), bind_Ret. cbn beta iota.
  rewrite app_assoc in S.
  adv S (c + 32 + 4 + len (trailer_bytes (sp_trailer p)) + 4 + len (sp_schema_bytes p) + 4 +
    len (maps_bytes (sp_maps p)) + 4 + len (sp_insns p)).
  rewrite (decode_kfuncs_enc _ _ _ _ Hb Hk Hkok S), bind_Ret. cbn beta iota.
  adv S (c + 32 + 4 + len (trailer_bytes (sp_trailer p)) + 4 + len (sp_schema_bytes p) + 4 +
    len (maps_bytes (sp_maps p)) + 4 + len (sp_insns p) +
    len (kfunc_table (sp_kfunc_relocs p))).
  rewrite Hf3. unfold program_view. rewrite Hdiv.
  destruct (sp_field_relocs p) as [|r l] eqn:Efr; cbn [negb field_section].
  - rewrite bind_Ret. cbn beta iota. rewrite len_nil. do 2 f_equal. lia.
  - by rewrite (decode_fields_enc _ _ _ _ Hb Hfr Hfok S), bind_Ret.
Qed.

(** ** Any input *)

(** Goals left by [safe_bind]: a [need] bounded by the previous ones. *)
Ltac need_step := apply safe_bind; [apply need_safe; unfold U64_MAX; lia|];
  let H := fresh "Hneed" in intros ? H; apply need_Ret in H.
Ltac le_step v := apply safe_bind; [apply safe_le_at; simpl; lia|];
  let H := fresh "Hle" in intros v H; apply le_at_Ret in H; unfold in_u in H; simpl in H.
Ltac slice_step := apply safe_bind; [apply safe_slice; lia|]; intros ? _.

Lemma decode_trailer_safe b c ty :
  slice_len_ok b -> 0 <= c <= len b -> safe (decode_trailer b c ty).
Proof.
  unfold slice_len_ok. intros Hb Hc. unfold decode_trailer.
  destruct (_ || _).
  { need_step. le_step l. destruct (_ <? _) eqn:E; [done|]. zbool. cbv zeta. need_step.
    slice_step. le_step o. done. }
  destruct (_ || _).
  { need_step. le_step l. destruct ((l =? 0) || (64 <? l)) eqn:E; [done|]. zbool. cbv zeta.
    need_step. slice_step. le_step m.
    destruct ((m =? 0) || (256 <? m)) eqn:E2; [done|]. zbool. need_step. slice_step. done. }
  destruct (ty =? 9).
  { need_step. le_step l. destruct ((l =? 0) || (64 <? l)) eqn:E; [done|]. zbool. cbv zeta.
    need_step. slice_step. le_step m.
    destruct ((m =? 0) || (64 <? m)) eqn:E2; [done|]. zbool. need_step. slice_step.
    le_step k. destruct ((k =? 0) || (256 <? k)) eqn:E3; [done|]. zbool. need_step.
    slice_step. done. }
  destruct (ty =? 10); [need_step; le_step o; done|]. by destruct (_ || _).
Qed.

(** The cursor a step returns is past where it started and inside. *)
Definition advances {V} (b : bytes) (c : Z) (m : outcome WireError (Z * V)) : Prop :=
  forall c' v, m = Ret (c', v) -> c <= c' <= len b.

Lemma decode_trailer_adv b c ty : 0 <= c <= len b -> advances b c (decode_trailer b c ty).
Proof.
  intros Hc c' v H. unfold decode_trailer in H.
  repeat (match type of H with
    | mbind _ ?m = _ => let E := fresh "R" in destruct m eqn:E; [|discriminate H..];
        rewrite bind_Ret in H; cbv beta zeta in H
    | (if ?x then _ else _) = _ => destruct x; try discriminate H
    end).
  all: injection H as <- _; know_bounds;
    repeat match goal with E : need _ _ _ _ = Ret _ |- _ => apply need_Ret in E end; lia.
Qed.

Lemma decode_counted_safe b c k la ba :
  slice_len_ok b -> 0 <= c <= len b -> 0 <= k <= 52 -> safe (decode_counted b c k la ba).
Proof.
  unfold slice_len_ok. intros Hb Hc Hk. unfold decode_counted. need_step. le_step n.
  cbv zeta. apply safe_bind; [apply need_safe; unfold U64_MAX; nia|]. intros ? H%need_Ret.
  assert (0 <= n * k) by nia. slice_step. done.
Qed.

Lemma decode_counted_adv b c k la ba :
  0 <= c <= len b -> advances b c (decode_counted b c k la ba).
Proof.
  intros Hc c' v H. unfold decode_counted in H. split_ret H. injection H as <- _.
  know_bounds. lia.
Qed.

Definition skip_ok (skip : nat -> bytes -> Z -> Z -> outcome WireError Z) : Prop :=
  forall b fuel c n, slice_len_ok b -> 0 <= c <= len b -> len b - c < Z.of_nat fuel ->
    safe (skip fuel b c n) /\ forall c', skip fuel b c n = Ret c' -> c <= c' <= len b.

Lemma skip_kfunc_ok : skip_ok skip_kfunc_relocs.
Proof.
  intros b fuel. induction fuel as [|fuel IH]; intros c n Hb Hc Hf; [lia|].
  cbn [skip_kfunc_relocs]. destruct (_ <=? _); [split; [done|intros ? [= <-]; lia]|].
  unfold slice_len_ok in Hb. split.
  - need_step. apply safe_bind; [apply safe_byte_at; lia|]. intros l Hl%byte_at_Ret.
    unfold in_u in Hl. cbv zeta. need_step. apply IH; unfold slice_len_ok; lia.
  - intros c' H. split_ret H. know_bounds.
    repeat match goal with E : need _ _ _ _ = Ret _ |- _ => apply need_Ret in E end.
    apply IH in H; unfold slice_len_ok; lia.
Qed.

Lemma skip_field_ok : skip_ok skip_field_relocs.
Proof.
  intros b fuel. induction fuel as [|fuel IH]; intros c n Hb Hc Hf; [lia|].
  cbn [skip_field_relocs]. destruct (_ <=? _); [split; [done|intros ? [= <-]; lia]|].
  unfold slice_len_ok in Hb. split.
  - need_step. apply safe_bind; [apply safe_byte_at; lia|]. intros l Hl%byte_at_Ret.
    apply safe_bind; [apply safe_byte_at; lia|]. intros m Hm%byte_at_Ret.
    unfold in_u in Hl, Hm. cbv zeta. need_step. apply IH; unfold slice_len_ok; lia.
  - intros c' H. split_ret H. know_bounds.
    repeat match goal with E : need _ _ _ _ = Ret _ |- _ => apply need_Ret in E end.
    apply IH in H; unfold slice_len_ok; lia.
Qed.

Lemma decode_table_safe skip b c la :
  skip_ok skip -> slice_len_ok b -> 0 <= c <= len b ->
  safe (decode_table skip b c la) /\ advances b c (decode_table skip b c la).
Proof.
  intros Hs Hb Hc. unfold decode_table.
  assert (Hrun : c + 4 <= len b -> forall n,
    safe (skip (Datatypes.S (length b)) b (c + 4) n) /\
    forall c', skip (Datatypes.S (length b)) b (c + 4) n = Ret c' -> c + 4 <= c' <= len b).
  { intros H4 n. apply Hs; [done|lia|unfold len; lia]. }
  unfold slice_len_ok in Hb. split.
  - need_step. le_step n. destruct (Hrun ltac:(lia) n) as [Hsafe Hadv].
    apply safe_bind; [done|]. intros c' Hc'%Hadv. slice_step. done.
  - intros c' v H. split_ret H. injection H as <- _.
    match goal with E : need _ _ _ _ = Ret _ |- _ => apply need_Ret in E end.
    match goal with E : skip _ _ _ ?n = Ret _ |- _ =>
      apply (proj2 (Hrun ltac:(lia) n)) in E end. lia.
Qed.

(** Sequencing of advancing steps. *)
Lemma advance_bind {V U} b c (m : outcome WireError (Z * V))
    (k : Z * V -> outcome WireError (Z * U)) :
  safe m -> advances b c m ->
  (forall c' v, c <= c' <= len b -> safe (k (c', v)) /\ advances b c' (k (c', v))) ->
  safe (m ≫= k) /\ advances b c (m ≫= k).
Proof.
  intros Hs Ha Hk. destruct m as [[c1 v]|e|]; [|split; [done|by intros ? ?]|done].
  pose proof (Ha c1 v eq_refl) as H1. rewrite bind_Ret. destruct (Hk c1 v H1) as [H2 H3].
  split; [done|]. intros c' u H. apply H3 in H. lia.
Qed.

Lemma decode_one_program_total b c :
  slice_len_ok b -> 0 <= c <= len b ->
  safe (decode_one_program b c) /\
  forall c' v, decode_one_program b c = Ret (c', v) -> c < c' <= len b.
Proof.
  intros Hb Hc. pose proof Hb as Hb'. unfold slice_len_ok in Hb'.
  unfold decode_one_program.
  destruct (need b c 36 _) as [u|e|] eqn:N.
  2:{ by split. }
  2:{ exfalso. revert N. apply need_safe. unfold U64_MAX. lia. }
  apply need_Ret in N. rewrite bind_Ret.
  destruct (slice_ok (E:=WireError) b c (c + 32)) as (tn & -> & _); [lia..|]. rewrite bind_Ret.
  destruct (le_at_ok (E:=WireError) 4 b (c + 32)) as (fl & -> & _); [lia..|].
  rewrite bind_Ret. cbv zeta.
  match goal with |- safe ?m /\ _ =>
    assert (Hm : safe m /\ advances b (c + 36) m) end.
  { apply advance_bind; [apply decode_trailer_safe; [done|lia]|apply decode_trailer_adv; lia|].
    intros c1 t H1. apply advance_bind;
      [apply decode_counted_safe; [done|lia..]|apply decode_counted_adv; lia|].
    intros c2 [? s] H2. apply advance_bind;
      [apply decode_counted_safe; [done|lia..]|apply decode_counted_adv; lia|].
    intros c3 [nm ms] H3. apply advance_bind;
      [apply decode_counted_safe; [done|lia..]|apply decode_counted_adv; lia|].
    intros c4 [ni is_] H4. apply advance_bind;
      [by apply (decode_table_safe _ _ _ _ skip_kfunc_ok Hb); lia
      |by apply (decode_table_safe _ _ _ _ skip_kfunc_ok Hb); lia|].
    intros c5 kf H5. apply advance_bind;
      [|by destruct (negb _); [apply (decode_table_safe _ _ _ _ skip_field_ok Hb); lia|
                               intros ? ? [= <- <-]; lia]|].
    { destruct (negb _); [|done]. apply (decode_table_safe _ _ _ _ skip_field_ok Hb). lia. }
    intros c6 fr H6. split; [done|]. intros ? ? [= <- <-]. lia. }
  destruct Hm as [Hm1 Hm2]. split; [exact Hm1|]. intros c' v H. apply Hm2 in H. lia.
Qed.

(** ** Encoders over either sink *)

Lemma write_prefixed_sim x : slice_len_ok x -> sink_sim (write_prefixed x) (write_prefixed x).
Proof.
  intros Hx. unfold write_prefixed. sink_go; [|done]. unfold slice_len_ok. len_simpl. lia.
Qed.

Lemma push_trailer_sim t : sink_sim (push_trailer t) (push_trailer t).
Proof.
  assert (H8 : forall v, slice_len_ok (to_le 8 v))
    by (intros v; unfold slice_len_ok; rewrite len_to_le; simpl; lia).
  assert (Hr : forall x max, max <= 256 -> out_of_range x max = false -> slice_len_ok x).
  { intros x max Hm Hx. unfold out_of_range in Hx. zbool. unfold slice_len_ok. lia. }
  destruct t; cbn [push_trailer]; sink_go; try apply H8; apply write_prefixed_sim;
    try (eapply Hr; [|eassumption]; lia).
  zbool. unfold slice_len_ok. lia.
Qed.

Lemma push_program_sim p :
  slice_len_ok (sp_schema_bytes p) -> slice_len_ok (sp_insns p) ->
  sink_sim (push_program p) (push_program p).
Proof.
  intros Hs Hi. unfold push_program. cbv zeta. sink_go; try exact Hi;
    try (unfold slice_len_ok, program_header_bytes; cbn [hdr_target_name program_header_new
      hdr_flags]; len_simpl; lia).
  - apply push_trailer_sim.
  - by apply write_prefixed_sim.
  - apply sim_forM, list.Forall_forall. intros m _. unfold push_map. sink_go;
      unfold slice_len_ok, i32_to_le; len_simpl; lia.
  - apply sim_forM, list.Forall_forall. intros [i nb] _. unfold push_kfunc_reloc. sink_go;
      zbool; unfold slice_len_ok; len_simpl; lia.
  - destruct (sp_field_relocs p); [apply sim_ret|apply encode_field_relocs_sim].
Qed.

Lemma encode_wrapper_sim progs :
  Forall (fun p => slice_len_ok (sp_schema_bytes p) /\ slice_len_ok (sp_insns p)) progs ->
  sink_sim (encode_wrapper progs) (encode_wrapper progs).
Proof.
  intros H. unfold encode_wrapper, builder_new. sink_go.
  - unfold slice_len_ok, wrapper_header_bytes, wrapper_header_new, BFR7_MAGIC. simpl.
    len_simpl. simpl. lia.
  - apply sim_forM. eapply list.Forall_impl; [exact H|]. intros p [? ?].
    by apply push_program_sim.
Qed.

(** ** Properties *)

(** The decoder's views of a wrapper's bytes. *)
Lemma decode_wrapper_enc (progs : list ProgramSpec) rest :
  Forall program_ok progs -> in_u 32 (len progs) ->
  slice_len_ok (wrapper_bytes progs ++ rest) ->
  exists it it',
    decode_bfr7 (wrapper_bytes progs ++ rest) = Ret it /\
    collect program_next (S (length progs)) it
      = Some (map (fun p => Ok (program_view p)) progs, it').
Proof.
  intros Hok Hn Hl. set (b := wrapper_bytes progs ++ rest) in *.
  assert (S : suffix_at b 0 (wrapper_bytes progs ++ rest)) by apply suffix_at_0.
  pose proof (suffix_at_len _ _ _ S) as [_ Hlb].
  unfold wrapper_bytes in S, Hlb. rewrite <- !app_assoc in S.
  eexists {| it_bytes := b; it_cursor := 8; it_remaining := len progs;
                it_failed := false |}, _.
  fold b.
  assert (Hm : len BFR7_MAGIC = 4) by done.
  split.
  - unfold decode_bfr7. rewrite !len_app, len_to_le, Hm in Hlb. pose_lens.
    destruct (Z.ltb_spec (len b) 8); [lia|].
    rewrite (suffix_at_slice _ _ _ _ 4 S), bind_Ret by done.
    rewrite bool_decide_eq_true_2 by done. cbn [negb]. adv S 4.
    by rewrite (suffix_at_le _ _ _ _ _ S), bind_Ret.
  - adv S 4. adv S 8. apply (fs_exact _ program_bytes program_view program_ok b
      (decode_one_program_enc b Hl) progs _ rest Hok S).
Qed.

(** C35: Wrapper round trip.  Well-formed programs encode, and the streaming
    decoder yields, one per program and in order, views that agree with them
    field by field, whatever follows the wrapper. *)
Theorem wrapper_round_trip (progs : list ProgramSpec) rest :
  Forall program_ok progs -> in_u 32 (len progs) ->
  slice_len_ok (wrapper_bytes progs ++ rest) ->
  exists body it it',
    encode_wrapper progs [] = (Ret tt, body) /\
    decode_bfr7 (body ++ rest) = Ret it /\
    collect program_next (S (length progs)) it
      = Some (map (fun p => Ok (program_view p)) progs, it').
Proof.
  intros Hok Hn Hl. destruct (decode_wrapper_enc progs rest Hok Hn Hl) as (it & it' & H1 & H2).
  exists (wrapper_bytes progs), it, it'. by split; [apply (encode_wrapper_emits progs Hok [])|].
Qed.

(** Any wrapper of the address space is rejected or streamed without a panic;
    a stream ends after the announced programs or at the first malformed one,
    with a single error, and stays silent afterwards. *)
Theorem wrapper_decode_total (b : bytes) :
  slice_len_ok b ->
  decode_bfr7 b <> Panic /\
  forall it, decode_bfr7 b = Ret it ->
    exists items it',
      collect program_next (2 + length b) it = Some (items, it') /\
      fs_shape (it_remaining it) items /\ program_next it' = Ret (None, it').
Proof.
  intros Hb. unfold decode_bfr7. destruct (_ <? _) eqn:E; [done|]. zbool.
  destruct (slice_ok (E:=WireError) b 0 4) as (mg & -> & _); [lia..|]. rewrite bind_Ret.
  destruct (negb _); [done|].
  destruct (le_at_ok (E:=WireError) 4 b 4) as (n & -> & Hn); [lia..|]. rewrite bind_Ret.
  split; [done|]. intros it [= <-].
  apply (fs_total decode_one_program b).
  - intros c Hc. by apply decode_one_program_total.
  - intros c c' v Hc. by apply decode_one_program_total.
  - unfold fs_inv, in_u in *. simpl. split_and!; [done|lia..].
  - done.
  - simpl. unfold len in *. lia.
Qed.

(** Building a wrapper in a fixed buffer (no allocator) writes exactly the
    bytes of the growable sink when they fit, and otherwise stops with a
    truncation error, having written a prefix; nothing past it is touched. *)
Theorem wrapper_into_buffer (progs : list ProgramSpec) buf :
  Forall (fun p => slice_len_ok (sp_schema_bytes p) /\ slice_len_ok (sp_insns p)) progs ->
  slice_len_ok buf ->
  follows (encode_wrapper progs) (encode_wrapper progs) buf (slice_sink_new buf) [].
Proof. intros H. by apply sink_sim_run, encode_wrapper_sim. Qed.

(** ** Samples: an fbt program with a map and a kfunc relocation, and a USDT
    program with a field relocation *)

Definition sample_fbt : ProgramSpec :=
  {| sp_target_name := map u8b [118; 102; 115]; sp_probe_type := PROBE_TYPE_FENTRY;
     sp_trailer := TrailerNone; sp_schema_bytes := map u8b [1; 2; 3];
     sp_maps := [{| map_type := 1; key_size := 4; value_size := 8; max_entries := 16;
                    fake_fd := -1; map_name := map u8b [109] |}];
     sp_insns := replicate 16 (u8b 0x95); sp_kfunc_relocs := [(8, map u8b [107; 102])];
     sp_field_relocs := [] |}.

Definition sample_usdt : ProgramSpec :=
  {| sp_target_name := map u8b [112; 103]; sp_probe_type := PROBE_TYPE_USDT;
     sp_trailer := TrailerUsdt (map u8b [112]) (map u8b [112; 103]) (map u8b [113]);
     sp_schema_bytes := []; sp_maps := []; sp_insns := replicate 8 (u8b 0);
     sp_kfunc_relocs := []; sp_field_relocs := [sample_reloc] |}.

Lemma sample_programs_ok : Forall program_ok [sample_fbt; sample_usdt].
Proof.
  apply list.Forall_cons. split; [|apply list.Forall_cons; split; [|by apply list.Forall_nil]];
    unfold program_ok, in_u; (split; [vm_compute; intuition congruence|]);
    do 4 (split; [vm_compute; split; congruence|]).
  - split; [exists 2; vm_compute; split; [reflexivity|split; congruence]|].
    split; [|by apply list.Forall_nil].
    apply list.Forall_cons. split; [|by apply list.Forall_nil].
    unfold kfunc_ok, in_u. vm_compute. repeat split; congruence.
  - split; [exists 1; vm_compute; split; [reflexivity|split; congruence]|].
    split; [by apply list.Forall_nil|].
    apply list.Forall_cons. split; [apply sample_reloc_ok|by apply list.Forall_nil].
Qed.

Lemma wrapper_round_trip_witness :
  exists body it it',
    encode_wrapper [sample_fbt; sample_usdt] [] = (Ret tt, body) /\
    decode_bfr7 body = Ret it /\
    collect program_next 3 it
      = Some ([Ok (program_view sample_fbt); Ok (program_view sample_usdt)], it') /\
    pv_flags (program_view sample_usdt) = 0x109.
Proof.
  destruct (wrapper_round_trip [sample_fbt; sample_usdt] [])
    as (body & it & it' & H1 & H2 & H3);
    [apply sample_programs_ok|vm_compute; split; congruence|vm_compute; reflexivity|].
  rewrite app_nil_r in H2. exists body, it, it'.
  split; [exact H1|]. split; [exact H2|]. split; [exact H3|reflexivity].
Defined.

Lemma wrapper_decode_total_witness :
  decode_bfr7 (map u8b [0x42; 0x46; 0x52; 0x37; 1; 0; 0; 0; 9]) <> Panic.
Proof. apply wrapper_decode_total. vm_compute. reflexivity. Defined.

Lemma wrapper_into_buffer_witness :
  follows (encode_wrapper [sample_fbt]) (encode_wrapper [sample_fbt])
    (replicate 64 (u8b 0)) (slice_sink_new (replicate 64 (u8b 0))) [].
Proof.
  apply wrapper_into_buffer; [|vm_compute; reflexivity].
  apply list.Forall_cons. split; [split; vm_compute; reflexivity|by apply list.Forall_nil].
Defined.
