(* ===== verification/Envelope.v ===== *)
(** The DTRACE_SESSION_V1 envelope and the SHMEM v6 record header
    (host/bifrost-wire/src: session_envelope.rs, shmem_v6.rs).

    An encoder mutates the caller's buffer: it is a state-passing function on
    its bytes. *)

From S2P Require Import Prelude.

Local Open Scope Z_scope.

(** [out[off..off + s.len()].copy_from_slice(s)] *)
Definition put {E} (off : Z) (s : bytes) : st bytes E unit := fun b =>
  match write b off s with
  | Ret b' => (Ret tt, b')
  | Throw e => (Throw e, b)
  | Panic => (Panic, b)
  end.

(** ** session_envelope.rs *)

Definition DTRACE_SESSION_MAGIC : bytes := map u8b [0x44; 0x54; 0x53; 0x31].
Definition DTRACE_SESSION_WIRE_MAJOR : Z := 1.
Definition DTRACE_SESSION_WIRE_MINOR : Z := 0.
Definition DTRACE_SESSION_ENVELOPE_SIZE : Z := 96.

Record SessionEnvelope : Type := {
  wire_major : Z;
  wire_minor : Z;
  target_os : Z;
  env_flags : Z;
  session_id : Z;
  duration_ms : Z;
  dof_offset : Z;
  dof_length : Z;
  dof_sha256 : bytes;
  capability_request : Z;
  capability_required : Z
}.

Inductive DecodeError : Type := Short | BadMagic | BadWireMajor | ReservedNonZero.

Definition encode (env : SessionEnvelope) : st bytes Empty_set (option Z) :=
  n ← st_gets (fun out => len out);
  if n <? DTRACE_SESSION_ENVELOPE_SIZE then mret None
  else
    put 0 (replicate 96 (u8b 0)) ;;
    put 0 DTRACE_SESSION_MAGIC ;;
    put 4 (to_le 2 (wire_major env)) ;;
    put 6 (to_le 2 (wire_minor env)) ;;
    put 8 (to_le 2 (target_os env)) ;;
    put 10 (to_le 2 (env_flags env)) ;;
    put 16 (to_le 8 (session_id env)) ;;
    put 24 (to_le 8 (duration_ms env)) ;;
    put 32 (to_le 8 (dof_offset env)) ;;
    put 40 (to_le 8 (dof_length env)) ;;
    put 48 (dof_sha256 env) ;;
    put 80 (to_le 8 (capability_request env)) ;;
    put 88 (to_le 8 (capability_required env)) ;;
    mret (Some DTRACE_SESSION_ENVELOPE_SIZE).

(** The [SessionEnvelope] literal at the end of [decode]. *)
Definition decode_fields (buf : bytes) (major : Z) : outcome DecodeError SessionEnvelope :=
  sha ← slice buf 48 80;
  wire_minor ← le_at 2 buf 6;
  target_os ← le_at 2 buf 8;
  flags ← le_at 2 buf 10;
  session_id ← le_at 8 buf 16;
  duration_ms ← le_at 8 buf 24;
  dof_offset ← le_at 8 buf 32;
  dof_length ← le_at 8 buf 40;
  request ← le_at 8 buf 80;
  required ← le_at 8 buf 88;
  Ret {| wire_major := major; wire_minor := wire_minor; target_os := target_os;
         env_flags := flags; session_id := session_id; duration_ms := duration_ms;
         dof_offset := dof_offset; dof_length := dof_length; dof_sha256 := sha;
         capability_request := request; capability_required := required |}.

Definition decode (buf : bytes) : outcome DecodeError SessionEnvelope :=
  if len buf <? DTRACE_SESSION_ENVELOPE_SIZE then Throw Short
  else
    magic ← slice buf 0 4;
    if negb (bool_decide (magic = DTRACE_SESSION_MAGIC)) then Throw BadMagic
    else
      wire_major ← le_at 2 buf 4;
      if negb (wire_major =? DTRACE_SESSION_WIRE_MAJOR) then Throw BadWireMajor
      else
        reserved ← slice buf 12 16;
        if existsb (fun x => negb (byte.unsigned x =? 0)) reserved
        then Throw ReservedNonZero
        else
          decode_fields buf wire_major.

(** ** shmem_v6.rs *)

Definition SHMEM6_HEADER_SIZE : Z := 24.

Record Shmem6Header : Type := {
  record_size : Z;
  h6_kind : Z;
  h6_session_id : Z;
  monotonic_ns : Z
}.

Inductive HeaderError : Type := HdrShort | SizeUnderflow | SizeOverflow.

Definition decode_header (buf : bytes) : outcome HeaderError Shmem6Header :=
  if len buf <? SHMEM6_HEADER_SIZE then Throw HdrShort
  else
    record_size ← le_at 4 buf 0;
    if record_size <? SHMEM6_HEADER_SIZE then Throw SizeUnderflow
    else if len buf <? record_size then Throw SizeOverflow
    else
      kind ← le_at 4 buf 4;
      session_id ← le_at 8 buf 8;
      monotonic_ns ← le_at 8 buf 16;
      Ret {| record_size := record_size; h6_kind := kind; h6_session_id := session_id;
             monotonic_ns := monotonic_ns |}.

Definition encode_header (hdr : Shmem6Header) : st bytes Empty_set (option Z) :=
  n ← st_gets (fun out => len out);
  if n <? SHMEM6_HEADER_SIZE then mret None
  else
    put 0 (to_le 4 (record_size hdr)) ;;
    put 4 (to_le 4 (h6_kind hdr)) ;;
    put 8 (to_le 8 (h6_session_id hdr)) ;;
    put 16 (to_le 8 (monotonic_ns hdr)) ;;
    mret (Some SHMEM6_HEADER_SIZE).

(** ** Filling a buffer from the left

    [filled acc base]: the buffer [base] overwritten by [acc] from its start. *)

Definition filled (acc base : bytes) : bytes := acc ++ drop (length acc) base.

Lemma filled_nil base : filled [] base = base.
Proof. unfold filled. by rewrite drop_0. Qed.

Lemma len_filled acc base : len acc <= len base -> len (filled acc base) = len base.
Proof. unfold filled, len. rewrite length_app, length_drop. lia. Qed.

Lemma put_filled {E} acc base s off :
  off = len acc -> len acc + len s <= len base ->
  put (E:=E) off s (filled acc base) = (Ret tt, filled (acc ++ s) base).
Proof.
  intros -> Hl. unfold put. pose_lens.
  assert (Hf : len (filled acc base) = len base) by (apply len_filled; lia).
  rewrite write_ok by lia.
  unfold filled. f_equal. rewrite <- app_assoc.
  replace (Z.to_nat (len acc)) with (length acc) by (unfold len; lia).
  rewrite take_app_length. do 2 f_equal.
  rewrite drop_app_ge by lia. rewrite drop_drop, length_app. f_equal. lia.
Qed.

Lemma bind_put {E A} off s (k : unit -> st bytes E A) b b' :
  put (E:=E) off s b = (Ret tt, b') -> (put off s ≫= k) b = k tt b'.
Proof. intros H. unfold mbind, st_bind. by rewrite H. Qed.

(** One [put] of a left-to-right fill. *)
Ltac put_step := erewrite bind_put by (apply put_filled; len_lia).

Definition envelope_bytes (env : SessionEnvelope) : bytes :=
  DTRACE_SESSION_MAGIC ++ to_le 2 (wire_major env) ++ to_le 2 (wire_minor env) ++
  to_le 2 (target_os env) ++ to_le 2 (env_flags env) ++ replicate 4 (u8b 0) ++
  to_le 8 (session_id env) ++ to_le 8 (duration_ms env) ++ to_le 8 (dof_offset env) ++
  to_le 8 (dof_length env) ++ dof_sha256 env ++ to_le 8 (capability_request env) ++
  to_le 8 (capability_required env).

Lemma len_magic : len DTRACE_SESSION_MAGIC = 4.
Proof. reflexivity. Qed.

#[export] Hint Rewrite len_magic : len.

Lemma len_envelope_bytes env : len (dof_sha256 env) = 32 -> len (envelope_bytes env) = 96.
Proof. intros H. unfold envelope_bytes. len_simpl. lia. Qed.

Lemma encode_run env out :
  96 <= len out -> len (dof_sha256 env) = 32 ->
  encode env out = (Ret (Some 96), filled (envelope_bytes env) out).
Proof.
  intros Ho Hs. unfold encode, st_gets. unfold mbind at 1, st_bind at 1.
  unfold DTRACE_SESSION_ENVELOPE_SIZE. destruct (Z.ltb_spec (len out) 96); [lia|].
  rewrite <- (filled_nil out) at 1. put_step. cbn [app].
  set (base := filled (replicate 96 (u8b 0)) out).
  assert (Hb : len base = len out) by (apply len_filled; len_lia).
  rewrite <- (filled_nil base). do 5 put_step. cbn [app].
  (* the reserved word keeps the zeroes of the fill *)
  set (acc := ((((DTRACE_SESSION_MAGIC ++ to_le 2 (wire_major env)) ++
    to_le 2 (wire_minor env)) ++ to_le 2 (target_os env)) ++ to_le 2 (env_flags env))).
  assert (Hacc : length acc = 12%nat).
  { assert (len acc = 12) by (unfold acc; len_simpl; lia). unfold len in *. lia. }
  replace (filled acc base) with (filled (acc ++ replicate 4 (u8b 0)) base).
  2:{ unfold filled. rewrite <- app_assoc, length_app, Hacc. f_equal. }
  assert (Hlacc : len acc = 12) by (unfold len; lia).
  do 7 put_step. unfold mret, st_ret. f_equal.
  match goal with |- filled ?x _ = _ => replace x with (envelope_bytes env)
    by (unfold acc, envelope_bytes; by rewrite <- !app_assoc) end.
  assert (He : length (envelope_bytes env) = 96%nat).
  { pose proof (len_envelope_bytes env Hs). unfold len in *. lia. }
  unfold filled. rewrite He. reflexivity.
Qed.

(** ** Decoding *)

Lemma zeros_accepted :
  existsb (fun x => negb (byte.unsigned x =? 0)) (replicate 4 (u8b 0)) = false.
Proof. reflexivity. Qed.

(** The fields of an envelope fit their widths. *)
Definition envelope_ok (env : SessionEnvelope) : Prop :=
  wire_major env = DTRACE_SESSION_WIRE_MAJOR /\
  in_u 16 (wire_minor env) /\ in_u 16 (target_os env) /\ in_u 16 (env_flags env) /\
  in_u 64 (session_id env) /\ in_u 64 (duration_ms env) /\ in_u 64 (dof_offset env) /\
  in_u 64 (dof_length env) /\ len (dof_sha256 env) = 32 /\
  in_u 64 (capability_request env) /\ in_u 64 (capability_required env).

Lemma decode_envelope_bytes env rest :
  envelope_ok env -> decode (envelope_bytes env ++ rest) = Ret env.
Proof.
  intros (H1 & H2 & H3 & H4 & H5 & H6 & H7 & H8 & H9 & H10 & H11).
  set (b := envelope_bytes env ++ rest).
  assert (S0 : suffix_at b 0 b) by apply suffix_at_0.
  assert (Hl : 96 <= len b).
  { unfold b. rewrite len_app, len_envelope_bytes by done. pose_lens. lia. }
  unfold b at 2, envelope_bytes in S0. rewrite <- !app_assoc in S0.
  pose proof S0 as S4. adv S4 4. pose proof S4 as S6. adv S6 6.
  pose proof S6 as S8. adv S8 8. pose proof S8 as S10. adv S10 10.
  pose proof S10 as S12. adv S12 12. pose proof S12 as S16. adv S16 16.
  pose proof S16 as S24. adv S24 24. pose proof S24 as S32. adv S32 32.
  pose proof S32 as S40. adv S40 40. pose proof S40 as S48. adv S48 48.
  pose proof S48 as S80. adv S80 80. pose proof S80 as S88. adv S88 88.
  unfold decode, decode_fields, DTRACE_SESSION_ENVELOPE_SIZE.
  destruct (Z.ltb_spec (len b) 96); [lia|].
  rewrite (suffix_at_slice _ _ _ _ 4 S0), bind_Ret by done.
  rewrite bool_decide_eq_true_2 by done. cbn [negb].
  rewrite (suffix_at_le _ _ _ _ _ S4), bind_Ret by (by rewrite H1).
  rewrite (proj2 (Z.eqb_eq _ _) H1). cbn [negb].
  rewrite (suffix_at_slice _ _ _ _ 16 S12), bind_Ret by done. rewrite zeros_accepted.
  rewrite (suffix_at_slice _ _ _ _ 80 S48), bind_Ret by lia.
  rewrite (suffix_at_le _ _ _ _ _ S6), bind_Ret by done.
  rewrite (suffix_at_le _ _ _ _ _ S8), bind_Ret by done.
  rewrite (suffix_at_le _ _ _ _ _ S10), bind_Ret by done.
  rewrite (suffix_at_le _ _ _ _ _ S16), bind_Ret by done.
  rewrite (suffix_at_le _ _ _ _ _ S24), bind_Ret by done.
  rewrite (suffix_at_le _ _ _ _ _ S32), bind_Ret by done.
  rewrite (suffix_at_le _ _ _ _ _ S40), bind_Ret by done.
  rewrite (suffix_at_le _ _ _ _ _ S80), bind_Ret by done.
  rewrite (suffix_at_le _ _ _ _ _ S88), bind_Ret by done.
  by destruct env.
Qed.

(** *** From accepted bytes back to the envelope *)

(** Two adjacent slices. *)

Lemma zero_bytes (s : bytes) :
  existsb (fun x => negb (byte.unsigned x =? 0)) s = false -> s = replicate (length s) (u8b 0).
Proof.
  induction s as [|x s IH]; intros H; [done|]. cbn [existsb length replicate] in *.
  apply orb_false_iff in H as [Hx Hs]. f_equal; [|by apply IH].
  apply negb_false_iff in Hx. apply Z.eqb_eq in Hx.
  rewrite <- (byte.of_Z_unsigned x), Hx. reflexivity.
Qed.

Lemma slice_full_prefix {E} (b s : bytes) n :
  slice (E:=E) b 0 n = Ret s -> b = filled s b.
Proof.
  intros H. apply slice_Ret in H as H'. unfold slice in H.
  rewrite slice_get_spec in H by lia. injection H as <-. unfold filled.
  rewrite drop_0, Z.sub_0_r, length_take_le by (unfold len in *; lia).
  by rewrite take_drop.
Qed.

Lemma decode_Ret buf env :
  decode buf = Ret env ->
  len (dof_sha256 env) = 32 /\ 96 <= len buf /\
  slice (E:=DecodeError) buf 0 96 = Ret (envelope_bytes env).
Proof.
  unfold decode, decode_fields, DTRACE_SESSION_ENVELOPE_SIZE. intros H.
  repeat (match type of H with
    | mbind _ ?m = _ => let E := fresh "R" in destruct m eqn:E; [|discriminate H..];
        rewrite bind_Ret in H; cbv beta zeta in H
    | (if ?x then _ else _) = _ => let E := fresh "B" in destruct x eqn:E; try discriminate H
    end).
  injection H as <-. zbool. apply negb_false_iff, bool_decide_eq_true in B0. subst.
  repeat match goal with E : le_at _ _ _ = Ret _ |- _ =>
    apply (le_at_slice (F:=DecodeError)) in E; simpl in E end.
  apply zero_bytes in B2. apply slice_Ret in R1 as R1'. apply slice_Ret in R2 as R2'.
  replace (length a1) with 4%nat in B2 by (unfold len in *; lia).
  cbn [dof_sha256]. split; [lia|]. split; [lia|]. unfold envelope_bytes.
  cbn [wire_major wire_minor target_os env_flags session_id duration_ms dof_offset dof_length
    dof_sha256 capability_request capability_required]. rewrite B2 in R1.
  repeat (eapply slice_join; [eassumption|]). eassumption.
Qed.

Lemma magic_slice {E} (b : bytes) : 4 <= len b -> slice (E:=E) b 0 4 = Ret (take 4 b).
Proof. intros H. unfold slice. by rewrite slice_get_spec by lia. Qed.

Lemma decode_fields_ok buf major :
  96 <= len buf -> exists env, decode_fields buf major = Ret env.
Proof.
  intros Hl. unfold decode_fields.
  destruct (slice_ok (E:=DecodeError) buf 48 80) as (? & -> & _); [lia..|].
  rewrite bind_Ret.
  repeat (match goal with |- exists _, mbind _ (le_at ?n _ ?o) = _ =>
    destruct (le_at_ok (E:=DecodeError) n buf o) as (? & -> & _); [simpl; lia..|];
    rewrite bind_Ret end).
  by eexists.
Qed.

(** A byte that made the reserved test fail. *)
Lemma nonzero_byte {E} b lo hi s :
  slice (E:=E) b lo hi = Ret s -> existsb (fun x => negb (byte.unsigned x =? 0)) s = true ->
  exists i x, lo <= i < hi /\ b !! Z.to_nat i = Some x /\ byte.unsigned x <> 0.
Proof.
  intros (H1 & H2 & H3 & Hs)%slice_lookup (x & Hin & Hx)%existsb_exists.
  apply list_elem_of_In, list_elem_of_lookup in Hin as [k Hk].
  exists (lo + Z.of_nat k), x. pose proof (lookup_lt_Some _ _ _ Hk).
  apply negb_true_iff, Z.eqb_neq in Hx. split; [unfold len in *; lia|].
  split; [|done]. rewrite <- Hs by (unfold len in *; lia). by rewrite Nat2Z.id.
Qed.

(** ** Properties *)

(** An envelope encoded into any buffer of at least 96 bytes takes exactly 96
    bytes, leaves the rest of the buffer as it was, and decodes to itself. *)
Theorem envelope_round_trip env out :
  envelope_ok env -> DTRACE_SESSION_ENVELOPE_SIZE <= len out ->
  exists out', encode env out = (Ret (Some DTRACE_SESSION_ENVELOPE_SIZE), out') /\
    len out' = len out /\ drop 96 out' = drop 96 out /\ decode out' = Ret env.
Proof.
  intros Hok Ho. unfold DTRACE_SESSION_ENVELOPE_SIZE in Ho.
  assert (Hs : len (dof_sha256 env) = 32) by apply Hok.
  eexists. split; [by apply encode_run|].
  pose proof (len_envelope_bytes env Hs) as Hl.
  split; [apply len_filled; lia|]. unfold filled.
  replace (length (envelope_bytes env)) with 96%nat by (unfold len in *; lia). split.
  - rewrite drop_app_ge by (unfold len in *; lia).
    replace (96 - length (envelope_bytes env))%nat with 0%nat by (unfold len in *; lia).
    by rewrite drop_0.
  - by apply decode_envelope_bytes.
Qed.

(** The envelope has one encoding: whatever bytes the decoder accepts,
    encoding the result into that buffer changes nothing.  So two peers never
    read the same envelope from different bytes. *)
Theorem envelope_canonical (buf : bytes) env :
  decode buf = Ret env ->
  encode env buf = (Ret (Some DTRACE_SESSION_ENVELOPE_SIZE), buf).
Proof.
  intros (Hs & Hl & Hb)%decode_Ret. rewrite encode_run by done. f_equal.
  symmetry. by apply (slice_full_prefix (E:=DecodeError) _ _ 96).
Qed.

(** C40: Every rejection reason, on any bytes: too short, wrong magic, wrong major
    version, or a non-zero reserved byte, tested in this order; nothing else is
    rejected and nothing panics. *)
Theorem envelope_verdict (buf : bytes) :
  match decode buf with
  | Ret env => slice (E:=DecodeError) buf 0 96 = Ret (envelope_bytes env)
  | Throw Short => len buf < 96
  | Throw BadMagic => 96 <= len buf /\ take 4 buf <> DTRACE_SESSION_MAGIC
  | Throw BadWireMajor => 96 <= len buf /\ take 4 buf = DTRACE_SESSION_MAGIC /\
      le_at (E:=DecodeError) 2 buf 4 <> Ret DTRACE_SESSION_WIRE_MAJOR
  | Throw ReservedNonZero => 96 <= len buf /\ take 4 buf = DTRACE_SESSION_MAGIC /\
      le_at (E:=DecodeError) 2 buf 4 = Ret DTRACE_SESSION_WIRE_MAJOR /\
      exists i x, 12 <= i < 16 /\ buf !! Z.to_nat i = Some x /\ byte.unsigned x <> 0
  | Panic => False
  end.
Proof.
  assert (Hret : forall env, decode buf = Ret env ->
    slice (E:=DecodeError) buf 0 96 = Ret (envelope_bytes env)) by (by intros ? (_ & _ & ?)%decode_Ret).
  revert Hret. unfold decode, DTRACE_SESSION_ENVELOPE_SIZE.
  destruct (Z.ltb_spec (len buf) 96) as [Hl|Hl]; [done|].
  rewrite magic_slice, bind_Ret by lia.
  case_bool_decide as Hm; cbn [negb]; [|by split].
  destruct (le_at_ok (E:=DecodeError) 2 buf 4) as (mj & Hmj & _); [lia..|].
  rewrite Hmj, bind_Ret.
  destruct (Z.eqb_spec mj DTRACE_SESSION_WIRE_MAJOR) as [Hv|Hv]; cbn [negb];
    [|intros _; split_and!; [done..|congruence]].
  destruct (slice_ok (E:=DecodeError) buf 12 16) as (rs & Hrs & Hlr); [lia..|].
  rewrite Hrs, bind_Ret. destruct (existsb _ rs) eqn:Hx.
  - intros _. split_and!; [done..|congruence|].
    destruct (nonzero_byte _ _ _ _ Hrs Hx) as (i & x & ?). by exists i, x.
  - destruct (decode_fields_ok buf mj Hl) as [env ->]. auto.
Qed.

(** A SHMEM v6 record header written at the start of a record that holds it
    decodes to itself. *)
Theorem shmem6_header_round_trip hdr out :
  in_u 32 (record_size hdr) -> in_u 32 (h6_kind hdr) -> in_u 64 (h6_session_id hdr) ->
  in_u 64 (monotonic_ns hdr) -> SHMEM6_HEADER_SIZE <= record_size hdr <= len out ->
  exists out', encode_header hdr out = (Ret (Some SHMEM6_HEADER_SIZE), out') /\
    decode_header out' = Ret hdr /\ len out' = len out /\ drop 24 out' = drop 24 out.
Proof.
  unfold SHMEM6_HEADER_SIZE. intros H1 H2 H3 H4 H5.
  set (hb := ((to_le 4 (record_size hdr) ++ to_le 4 (h6_kind hdr)) ++
    to_le 8 (h6_session_id hdr)) ++ to_le 8 (monotonic_ns hdr)).
  assert (Hhb : len hb = 24) by (unfold hb; len_simpl; lia).
  exists (filled hb out). split.
  { unfold encode_header, st_gets, SHMEM6_HEADER_SIZE. unfold mbind at 1, st_bind at 1.
    destruct (Z.ltb_spec (len out) 24); [lia|].
    rewrite <- (filled_nil out) at 1. by do 4 put_step. }
  assert (Hlf : len (filled hb out) = len out) by (apply len_filled; lia).
  set (b := filled hb out) in *.
  assert (S : suffix_at b 0 b) by apply suffix_at_0.
  unfold b at 2, filled, hb in S. rewrite <- !app_assoc in S.
  unfold decode_header, SHMEM6_HEADER_SIZE. split.
  - destruct (Z.ltb_spec (len b) 24); [lia|].
    rewrite (suffix_at_le _ _ _ _ _ S), bind_Ret by done. adv S 4.
    destruct (Z.ltb_spec (record_size hdr) 24); [lia|].
    destruct (Z.ltb_spec (len b) (record_size hdr)); [lia|].
    rewrite (suffix_at_le _ _ _ _ _ S), bind_Ret by done. adv S 8.
    rewrite (suffix_at_le _ _ _ _ _ S), bind_Ret by done. adv S 16.
    rewrite (suffix_at_le _ _ _ _ _ S), bind_Ret by done. by destruct hdr.
  - split; [done|]. unfold b, filled.
    replace (length hb) with 24%nat by (unfold len in *; lia).
    rewrite drop_app_ge by (unfold len in *; lia).
    by replace (24 - length hb)%nat with 0%nat by (unfold len in *; lia).
Qed.

(** ** A sample envelope *)

Definition sample_envelope : SessionEnvelope :=
  {| wire_major := DTRACE_SESSION_WIRE_MAJOR; wire_minor := DTRACE_SESSION_WIRE_MINOR;
     target_os := 1; env_flags := 8; session_id := 0xdeadbeefcafebabe; duration_ms := 5000;
     dof_offset := 0x1000; dof_length := 0x4000; dof_sha256 := replicate 32 (u8b 0x42);
     capability_request := 3; capability_required := 1 |}.

Lemma sample_envelope_ok : envelope_ok sample_envelope.
Proof. unfold envelope_ok, in_u. vm_compute. repeat split; congruence. Qed.

Definition sample_out : bytes := replicate 100 (u8b 0xff).

Lemma envelope_round_trip_witness :
  exists out', encode sample_envelope sample_out = (Ret (Some 96), out') /\
    decode out' = Ret sample_envelope.
Proof.
  destruct (envelope_round_trip sample_envelope sample_out) as (out' & H1 & _ & _ & H2);
    [apply sample_envelope_ok|vm_compute; congruence|].
  by exists out'.
Defined.

Lemma envelope_canonical_witness :
  encode sample_envelope (envelope_bytes sample_envelope)
    = (Ret (Some 96), envelope_bytes sample_envelope).
Proof.
  apply (envelope_canonical (envelope_bytes sample_envelope) sample_envelope).
  vm_compute. reflexivity.
Defined.

Lemma shmem6_header_round_trip_witness :
  exists out', encode_header {| record_size := 32; h6_kind := 3; h6_session_id := 7;
                                monotonic_ns := 9 |} sample_out = (Ret (Some 24), out') /\
    decode_header out' = Ret {| record_size := 32; h6_kind := 3; h6_session_id := 7;
                                monotonic_ns := 9 |}.
Proof.
  destruct (shmem6_header_round_trip {| record_size := 32; h6_kind := 3;
    h6_session_id := 7; monotonic_ns := 9 |} sample_out) as (out' & H1 & H2 & _);
    [vm_compute; split; congruence..|].
  by exists out'.
Defined.
