(* ===== verification/Shm.v ===== *)
(** Shared-memory programs.

    The host processes of a session (the conduit inside the VMM and the
    command-line client) share one mapped region and touch it through atomic
    [u64] cells, byte copies and [fetch_add].  A function that accesses the
    region is a [prog]: the tree of its accesses in program order.  [run]
    executes a program alone; [steps] interleaves two of them access by
    access.  [wp] is a rely-guarantee precondition: what a program does when
    the other party may act between any two of its accesses.

    The interleaving is sequentially consistent.  The positions are stored
    with Release and loaded with Acquire by the other side, and every other
    byte is only accessed by the party that owns it, which is what the
    invariants below show.  An access outside the region is undefined
    behaviour in the source and [Panic] here. *)

From S2P Require Import Prelude.

Local Open Scope Z_scope.

(** ** Programs *)

Inductive prog (E A : Type) : Type :=
| PRet (a : A)
| PThrow (e : E)
| PPanic
| PRead (off n : Z) (k : bytes -> prog E A)
| PWrite (off : Z) (s : bytes) (k : prog E A)
| PFetchAdd (off d : Z) (k : prog E A).
Arguments PRet {_ _} _.
Arguments PThrow {_ _} _.
Arguments PPanic {_ _}.
Arguments PRead {_ _} _ _ _.
Arguments PWrite {_ _} _ _ _.
Arguments PFetchAdd {_ _} _ _ _.

#[export] Instance prog_ret E : MRet (prog E) := fun _ a => PRet a.
#[export] Instance prog_bind E : MBind (prog E) := fun A B k =>
  fix go (m : prog E A) : prog E B :=
    match m with
    | PRet a => k a
    | PThrow e => PThrow e
    | PPanic => PPanic
    | PRead off n c => PRead off n (fun b => go (c b))
    | PWrite off s c => PWrite off s (go c)
    | PFetchAdd off d c => PFetchAdd off d (go c)
    end.

(** Matching on the [Result] of a call. *)
Fixpoint ptry {E F A} (m : prog E A) : prog F (result E A) :=
  match m with
  | PRet a => PRet (Ok a)
  | PThrow e => PRet (Err e)
  | PPanic => PPanic
  | PRead off n c => PRead off n (fun b => ptry (c b))
  | PWrite off s c => PWrite off s (ptry c)
  | PFetchAdd off d c => PFetchAdd off d (ptry c)
  end.

Definition plift {E A} (m : outcome E A) : prog E A :=
  match m with Ret a => PRet a | Throw e => PThrow e | Panic => PPanic end.

(** An atomic load and a [read_u32_le]/[read_u64_le] of [n] bytes: the
    repository's hosts are little-endian, so both read the same bytes. *)
Definition read_le {E} (n : nat) (off : Z) : prog E Z :=
  PRead off (Z.of_nat n) (fun b => PRet (le_combine b)).
Definition load64 {E} (off : Z) : prog E Z := read_le 8 off.
Definition read_bytes {E} (off n : Z) : prog E bytes := PRead off n PRet.
Definition write_bytes {E} (off : Z) (s : bytes) : prog E unit := PWrite off s (PRet tt).
Definition write_le {E} (n : nat) (off v : Z) : prog E unit := write_bytes off (to_le n v).
Definition fetch_add64 {E} (off d : Z) : prog E unit := PFetchAdd off d (PRet tt).

(** [a % b] and [a - b] on [usize]. *)
Definition rem64 {E} (a b : Z) : outcome E Z := if b =? 0 then Panic else Ret (a mod b).
Definition sub64 {E} (a b : Z) : outcome E Z := if a <? b then Panic else Ret (a - b).

(** ** Execution *)

(** One access of a program; a program that has ended has none. *)
Definition access {E A} (p : prog E A) (m : bytes) : option (prog E A * bytes) :=
  match p with
  | PRead off n k =>
      Some match slice (E:=Empty_set) m off (off + n) with
           | Ret b => (k b, m) | _ => (PPanic, m) end
  | PWrite off s k =>
      Some match write (E:=Empty_set) m off s with
           | Ret m' => (k, m') | _ => (PPanic, m) end
  | PFetchAdd off d k =>
      Some match le_at (E:=Empty_set) 8 m off with
           | Ret v => match write (E:=Empty_set) m off (to_le 8 (wrapping_add64 v d)) with
                      | Ret m' => (k, m') | _ => (PPanic, m) end
           | _ => (PPanic, m) end
  | _ => None
  end.

Fixpoint run {E A} (p : prog E A) (m : bytes) : outcome E A * bytes :=
  match p with
  | PRet a => (Ret a, m)
  | PThrow e => (Throw e, m)
  | PPanic => (Panic, m)
  | PRead off n k =>
      match slice (E:=Empty_set) m off (off + n) with
      | Ret b => run (k b) m | _ => (Panic, m) end
  | PWrite off s k =>
      match write (E:=Empty_set) m off s with
      | Ret m' => run k m' | _ => (Panic, m) end
  | PFetchAdd off d k =>
      match le_at (E:=Empty_set) 8 m off with
      | Ret v => match write (E:=Empty_set) m off (to_le 8 (wrapping_add64 v d)) with
                 | Ret m' => run k m' | _ => (Panic, m) end
      | _ => (Panic, m) end
  end.

(** Two programs on one region, one access at a time. *)
Inductive steps {E A F B} : prog E A * prog F B * bytes -> prog E A * prog F B * bytes -> Prop :=
| steps_done c : steps c c
| steps_left p p' q m m' c :
    access p m = Some (p', m') -> steps (p', q, m') c -> steps (p, q, m) c
| steps_right p q q' m m' c :
    access q m = Some (q', m') -> steps (p, q', m') c -> steps (p, q, m) c.

Lemma run_access {E A} (p p' : prog E A) m m' :
  access p m = Some (p', m') -> run p m = run p' m'.
Proof.
  destruct p; cbn [access run]; intros H; try discriminate; injection H as H.
  - destruct (slice _ _ _); by inversion H.
  - destruct (write _ _ _); by inversion H.
  - destruct (le_at _ _ _); try by inversion H. destruct (write _ _ _); by inversion H.
Qed.

(** Running one side to its end is one of the interleavings. *)
Lemma run_left {E A F B} (p : prog E A) (q : prog F B) m m' a c :
  run p m = (Ret a, m') -> steps (PRet a, q, m') c -> steps (p, q, m) c.
Proof.
  revert m. induction p as [x|e| |off n k IH|off s k IH|off d k IH]; intros m H Hc;
    try (simpl in H; simplify_eq; done); cbn [run] in H.
  - destruct (slice _ _ _) as [w|?|] eqn:R; try discriminate H.
    eapply steps_left; [cbn [access]; by rewrite R|eauto].
  - destruct (write _ _ _) as [w|?|] eqn:R; try discriminate H.
    eapply steps_left; [cbn [access]; by rewrite R|eauto].
  - destruct (le_at _ _ _) as [v|?|] eqn:R; try discriminate H.
    destruct (write _ _ _) as [w|?|] eqn:R'; try discriminate H.
    eapply steps_left; [cbn [access]; by rewrite R, R'|eauto].
Qed.

Lemma run_right {E A F B} (p : prog E A) (q : prog F B) m m' b c :
  run q m = (Ret b, m') -> steps (p, PRet b, m') c -> steps (p, q, m) c.
Proof.
  revert m. induction q as [x|e| |off n k IH|off s k IH|off d k IH]; intros m H Hc;
    try (simpl in H; simplify_eq; done); cbn [run] in H.
  - destruct (slice _ _ _) as [w|?|] eqn:R; try discriminate H.
    eapply steps_right; [cbn [access]; by rewrite R|eauto].
  - destruct (write _ _ _) as [w|?|] eqn:R; try discriminate H.
    eapply steps_right; [cbn [access]; by rewrite R|eauto].
  - destruct (le_at _ _ _) as [v|?|] eqn:R; try discriminate H.
    destruct (write _ _ _) as [w|?|] eqn:R'; try discriminate H.
    eapply steps_right; [cbn [access]; by rewrite R, R'|eauto].
Qed.

Lemma run_bind {E A B} (p : prog E A) (k : A -> prog E B) m :
  run (p ≫= k) m =
    match run p m with
    | (Ret a, m') => run (k a) m'
    | (Throw e, m') => (Throw e, m')
    | (Panic, m') => (Panic, m')
    end.
Proof.
  unfold mbind. revert m. induction p as [a|e| |off n c IH|off s c IH|off d c IH]; intros m;
    cbn [run prog_bind]; try done.
  - destruct (slice _ _ _); [apply IH|done..].
  - destruct (write _ _ _); [apply IH|done..].
  - destruct (le_at _ _ _); [|done..]. destruct (write _ _ _); [apply IH|done..].
Qed.

Lemma run_ptry {E F A} (p : prog E A) m :
  run (ptry (F:=F) p) m =
    match run p m with
    | (Ret a, m') => (Ret (Ok a), m')
    | (Throw e, m') => (Ret (Err e), m')
    | (Panic, m') => (Panic, m')
    end.
Proof.
  revert m. induction p as [a|e| |off n c IH|off s c IH|off d c IH]; intros m;
    cbn [run ptry]; try done.
  - destruct (slice _ _ _); [apply IH|done..].
  - destruct (write _ _ _); [apply IH|done..].
  - destruct (le_at _ _ _); [|done..]. destruct (write _ _ _); [apply IH|done..].
Qed.

(** ** Regions that agree on a range *)

Definition agree (m m' : bytes) (lo hi : Z) : Prop :=
  forall i, lo <= i < hi -> m !! Z.to_nat i = m' !! Z.to_nat i.

Lemma agree_refl m lo hi : agree m m lo hi.
Proof. by intros i _. Qed.

Lemma agree_trans m1 m2 m3 lo hi :
  agree m1 m2 lo hi -> agree m2 m3 lo hi -> agree m1 m3 lo hi.
Proof. intros H1 H2 i Hi. by rewrite H1, H2. Qed.

Lemma agree_sub m m' lo hi lo' hi' :
  agree m m' lo hi -> lo <= lo' -> hi' <= hi -> agree m m' lo' hi'.
Proof. intros H ? ? i Hi. apply H. lia. Qed.

Lemma agree_write {E} m m' off s lo hi :
  write (E:=E) m off s = Ret m' -> 0 <= lo -> hi <= off \/ off + len s <= lo ->
  agree m m' lo hi.
Proof. intros H ? ? i Hi. symmetry. eapply write_lookup_out; [exact H|lia|lia]. Qed.

Lemma agree_slice {E F} m m' lo hi s :
  slice (E:=E) m lo hi = Ret s -> agree m m' lo hi -> len m' = len m ->
  slice (E:=F) m' lo hi = Ret s.
Proof.
  intros (H1 & H2 & H3 & H4)%slice_lookup H Hl. apply slice_lookup.
  split_and!; [lia..|]. intros i Hi. rewrite H4 by done. apply H. lia.
Qed.

Lemma agree_le_at {E F} n m m' off v :
  le_at (E:=E) n m off = Ret v -> agree m m' off (off + Z.of_nat n) -> len m' = len m ->
  le_at (E:=F) n m' off = Ret v.
Proof.
  unfold le_at. intros H Ha Hl.
  destruct (slice m off _) as [s|?|] eqn:G; [|discriminate H..].
  injection H as <-. by rewrite (agree_slice _ _ _ _ _ G Ha Hl).
Qed.

Lemma agree_of_slices {E} m m' lo hi s :
  slice (E:=E) m lo hi = Ret s -> slice (E:=E) m' lo hi = Ret s -> agree m m' lo hi.
Proof.
  intros (_ & _ & _ & H1)%slice_lookup (_ & _ & _ & H2)%slice_lookup i Hi.
  specialize (H1 (i - lo) ltac:(lia)). specialize (H2 (i - lo) ltac:(lia)).
  replace (lo + (i - lo)) with i in * by lia. congruence.
Qed.

Lemma agree_join m m' lo mid hi :
  agree m m' lo mid -> agree m m' mid hi -> agree m m' lo hi.
Proof. intros H1 H2 i Hi. destruct (decide (i < mid)); [apply H1|apply H2]; lia. Qed.

Lemma agree_all m m' : len m' = len m -> agree m m' 0 (len m) -> m' = m.
Proof.
  intros Hl H. apply list_eq. intros i.
  destruct (decide (i < length m)%nat) as [Hi|Hi].
  - specialize (H (Z.of_nat i)). rewrite Nat2Z.id in H. symmetry. apply H. unfold len. lia.
  - rewrite !lookup_ge_None_2; [done|lia|]. unfold len in Hl. lia.
Qed.

(** Running through a sequence of writes, and reading back through it. *)
Lemma run_write {E A} off s (k : prog E A) m :
  0 <= off -> off + len s <= len m ->
  exists m', write (E:=Empty_set) m off s = Ret m' /\ len m' = len m /\
             run (PWrite off s k) m = run k m'.
Proof.
  intros H1 H2. destruct (write (E:=Empty_set) m off s) as [m'|[]|] eqn:Hw;
    [|rewrite write_ok in Hw by lia; discriminate].
  exists m'. split; [done|]. split; [by eapply len_write|]. cbn [run]. by rewrite Hw.
Qed.

Lemma run_read_le {E A} n off (k : Z -> prog E A) m v :
  le_at (E:=Empty_set) n m off = Ret v -> run (read_le n off ≫= k) m = run (k v) m.
Proof.
  unfold le_at. intros H. destruct (slice m off _) as [b|?|] eqn:G; try discriminate H.
  injection H as <-. unfold read_le, mbind. cbn [prog_bind run]. by rewrite G.
Qed.

Lemma slice_zeros {E} n lo hi :
  0 <= lo <= hi -> hi <= Z.of_nat n ->
  slice (E:=E) (replicate n (u8b 0)) lo hi = Ret (replicate (Z.to_nat (hi - lo)) (u8b 0)).
Proof.
  intros. apply slice_lookup. rewrite !len_replicate. split_and!; [lia..|]. intros i Hi.
  rewrite !lookup_replicate_2 by lia. done.
Qed.

Lemma le_at_zeros {E} k n off :
  0 <= off -> off + Z.of_nat k <= Z.of_nat n ->
  le_at (E:=E) k (replicate n (u8b 0)) off = Ret 0.
Proof.
  intros. unfold le_at. rewrite slice_zeros by lia. rewrite bind_Ret. f_equal.
  generalize (Z.to_nat (off + Z.of_nat k - off)). intros j. induction j as [|j IH]; [done|].
  unfold le_combine in *. cbn. by rewrite IH.
Qed.

Lemma le_at_write_zeros {E F} n j (m m' : bytes) off x :
  write (E:=E) m off (replicate j (u8b 0)) = Ret m' ->
  off <= x -> x + Z.of_nat n <= off + Z.of_nat j -> le_at (E:=F) n m' x = Ret 0.
Proof.
  intros H H1 H2. rewrite <- (le_at_zeros (E:=F) n j (x - off)) by lia. unfold le_at.
  pose proof (len_write _ _ _ _ H). pose proof (write_Ret _ _ _ _ H) as (?&?&_).
  rewrite len_replicate in *.
  destruct (slice_ok (E:=F) (replicate j (u8b 0)) (x - off) (x - off + Z.of_nat n)) as (s & Hs & _);
    [lia|rewrite len_replicate; lia|]. rewrite Hs.
  replace (slice m' x (x + Z.of_nat n)) with (Ret (E:=F) s); [done|]. symmetry.
  apply slice_lookup in Hs as (A1 & A2 & A3 & A4). apply slice_lookup.
  split_and!; [lia..|]. intros i Hi. rewrite A4 by lia. symmetry.
  rewrite (write_lookup_in _ _ _ _ _ H) by (rewrite len_replicate; lia). f_equal. lia.
Qed.

(** ** A rely-guarantee precondition

    A state is the region and a ghost value [G].  [rely s s'] is what the
    environment may do, [guar s s'] what the program may do.  The environment
    acts before every access and before the end. *)

Section Wp.
Context {G : Type}.
Implicit Types (rely guar : bytes * G -> bytes * G -> Prop).

Fixpoint wp {E A} rely guar (p : prog E A) (s : bytes * G)
    (Q : result E A -> bytes * G -> Prop) : Prop :=
  match p with
  | PRet a => forall s', rely s s' -> Q (Ok a) s'
  | PThrow e => forall s', rely s s' -> Q (Err e) s'
  | PPanic => False
  | PRead off n k => forall s', rely s s' ->
      exists b, slice (E:=Empty_set) (fst s') off (off + n) = Ret b /\
                wp rely guar (k b) s' Q
  | PWrite off b k => forall s', rely s s' ->
      exists s'', write (E:=Empty_set) (fst s') off b = Ret (fst s'') /\
                  guar s' s'' /\ wp rely guar k s'' Q
  | PFetchAdd off d k => forall s', rely s s' ->
      exists v s'', le_at (E:=Empty_set) 8 (fst s') off = Ret v /\
        write (E:=Empty_set) (fst s') off (to_le 8 (wrapping_add64 v d)) = Ret (fst s'') /\
        guar s' s'' /\ wp rely guar k s'' Q
  end.

Section Rules.
Context {rely guar : bytes * G -> bytes * G -> Prop}.
Context (rely_trans : forall s1 s2 s3, rely s1 s2 -> rely s2 s3 -> rely s1 s3).

Lemma wp_rely {E A} (p : prog E A) s s' Q :
  wp rely guar p s Q -> rely s s' -> wp rely guar p s' Q.
Proof.
  destruct p; simpl; intros H Hr; try done; intros t Ht; apply H; eauto.
Qed.

Lemma wp_mono {E A} (p : prog E A) s (Q Q' : result E A -> bytes * G -> Prop) :
  wp rely guar p s Q -> (forall o t, Q o t -> Q' o t) -> wp rely guar p s Q'.
Proof.
  intros H HQ. revert s H. induction p as [a|e| |off n c IH|off b c IH|off d c IH];
    simpl; intros s H; try done; intros t Ht; auto.
  - destruct (H t Ht) as (b & Hb & Hk). eauto.
  - destruct (H t Ht) as (t' & Hb & Hg & Hk). eauto.
  - destruct (H t Ht) as (v & t' & Hv & Hb & Hg & Hk). eauto 8.
Qed.

(** The postcondition of a call that may return an error, for its caller. *)
Definition wp_then {E A B} (k : A -> prog E B) (Q : result E B -> bytes * G -> Prop)
    (o : result E A) (s : bytes * G) : Prop :=
  match o with
  | Ok a => wp rely guar (k a) s Q
  | Err e => Q (Err e) s
  end.

Lemma wp_read_le {E A} n off (k : Z -> prog E A) s Q :
  (forall s', rely s s' ->
     exists v, le_at (E:=Empty_set) n s'.1 off = Ret v /\ wp rely guar (k v) s' Q) ->
  wp rely guar (read_le n off ≫= k) s Q.
Proof.
  intros H s' Hs. destruct (H s' Hs) as (v & Hv & Hk). unfold le_at in Hv.
  destruct (slice s'.1 off _) as [b|?|] eqn:Hb; try discriminate Hv.
  exists b. split; [done|]. injection Hv as ->. exact Hk.
Qed.

Context (rely_stay : forall s s', rely s s' -> rely s' s').
Context (guar_stay : forall s s', guar s s' -> rely s' s').

Lemma wp_bind {E A B} (p : prog E A) (k : A -> prog E B) s Q :
  rely s s -> wp rely guar p s (wp_then k Q) -> wp rely guar (p ≫= k) s Q.
Proof.
  unfold mbind. revert s. induction p as [a|e| |off n c IH|off b c IH|off d c IH];
    cbn [wp prog_bind]; intros s Hs H; try done.
  - by apply H.
  - intros t Ht. destruct (H t Ht) as (b & Hb & Hk). eauto 8.
  - intros t Ht. destruct (H t Ht) as (t' & Hb & Hg & Hk). eauto 8.
  - intros t Ht. destruct (H t Ht) as (v & t' & Hv & Hb & Hg & Hk). eauto 8.
Qed.

Lemma wp_ptry {E F A} (p : prog E A) s (Q : result F (result E A) -> bytes * G -> Prop) :
  wp rely guar p s (fun o t => Q (Ok o) t) -> wp rely guar (ptry p) s Q.
Proof.
  revert s. induction p as [a|e| |off n c IH|off b c IH|off d c IH];
    cbn [wp ptry]; intros s H; try done; intros t Ht.
  - destruct (H t Ht) as (b & Hb & Hk). eauto 8.
  - destruct (H t Ht) as (t' & Hb & Hg & Hk). eauto 8.
  - destruct (H t Ht) as (v & t' & Hv & Hb & Hg & Hk). eauto 8.
Qed.

Lemma wp_access {E A} (p p' : prog E A) m m' g Q :
  wp rely guar p (m, g) Q -> rely (m, g) (m, g) -> access p m = Some (p', m') ->
  exists g', wp rely guar p' (m', g') Q /\ (m' = m /\ g' = g \/ guar (m, g) (m', g')).
Proof.
  intros H Hs Ha. destruct p as [a|e| |off n k|off b k|off d k]; try discriminate;
    cbn [access wp] in *; specialize (H _ Hs); simpl in H; injection Ha as Ha.
  - destruct H as (b & Hb & Hk). rewrite Hb in Ha. inversion Ha; subst. eauto.
  - destruct H as ([m1 g1] & Hb & Hg & Hk). simpl in Hb. rewrite Hb in Ha.
    inversion Ha; subst. eauto.
  - destruct H as (v & [m1 g1] & Hv & Hb & Hg & Hk). simpl in Hb. rewrite Hv, Hb in Ha.
    inversion Ha; subst. eauto.
Qed.
(** A program that runs alone ends, without a panic, in a state its own
    actions explain and its postcondition describes. *)
Context (guar_refl : forall s, rely s s -> guar s s).
Context (guar_trans : forall s1 s2 s3, guar s1 s2 -> guar s2 s3 -> guar s1 s3).

Lemma wp_run {E A} (p : prog E A) m g Q :
  wp rely guar p (m, g) Q -> rely (m, g) (m, g) ->
  exists r m' g', run p m = (lift_result r, m') /\ guar (m, g) (m', g') /\ Q r (m', g').
Proof.
  revert m g. induction p as [a|e| |off n c IH|off b c IH|off d c IH];
    cbn [wp run]; intros m g H Hs; try done.
  - exists (Ok a), m, g. auto.
  - exists (Err e), m, g. auto.
  - destruct (H _ Hs) as (b & Hb & Hk). simpl in Hb. rewrite Hb. eauto.
  - destruct (H _ Hs) as ([m1 g1] & Hb & Hg & Hk). simpl in Hb. rewrite Hb.
    destruct (IH m1 g1 Hk) as (r & m' & g' & Hr & Hg' & HQ); [eauto|]. eauto 8.
  - destruct (H _ Hs) as (v & [m1 g1] & Hv & Hb & Hg & Hk). simpl in Hv, Hb. rewrite Hv, Hb.
    destruct (IH m1 g1 Hk) as (r & m' & g' & Hr & Hg' & HQ); [eauto|]. eauto 8.
Qed.

End Rules.

(** Two programs whose guarantees meet each other's relies keep their
    preconditions at every point of every interleaving. *)
Section Par.
Context {rely1 guar1 rely2 guar2 : bytes * G -> bytes * G -> Prop}.
Context (trans1 : forall s1 s2 s3, rely1 s1 s2 -> rely1 s2 s3 -> rely1 s1 s3).
Context (trans2 : forall s1 s2 s3, rely2 s1 s2 -> rely2 s2 s3 -> rely2 s1 s3).
Context (stay1 : forall s s', guar1 s s' -> rely1 s' s').
Context (stay2 : forall s s', guar2 s s' -> rely2 s' s').
Context (sub12 : forall s s', guar1 s s' -> rely2 s s').
Context (sub21 : forall s s', guar2 s s' -> rely1 s s').
Context (rely2_stay : forall s s', rely2 s s' -> rely2 s' s').
Context (rely1_stay : forall s s', rely1 s s' -> rely1 s' s').

Lemma wp_par {E A F B} (p : prog E A) (q : prog F B) m g Q1 Q2 c :
  steps (p, q, m) c ->
  wp rely1 guar1 p (m, g) Q1 -> wp rely2 guar2 q (m, g) Q2 ->
  rely1 (m, g) (m, g) -> rely2 (m, g) (m, g) ->
  exists g', wp rely1 guar1 (fst (fst c)) (snd c, g') Q1 /\
             wp rely2 guar2 (snd (fst c)) (snd c, g') Q2 /\
             rely1 (snd c, g') (snd c, g') /\ rely2 (snd c, g') (snd c, g').
Proof.
  intros Hst. remember (p, q, m) as c0 eqn:Hc0. revert p q m g Hc0.
  induction Hst as [c|p0 p' q0 m0 m' c Ha _ IH|p0 q0 q' m0 m' c Ha _ IH];
    intros p q m g Hc0 H1 H2 Hr1 Hr2; subst; simplify_eq.
  - exists g. auto.
  - destruct (wp_access p p' m m' g Q1 H1 Hr1 Ha) as (g' & H' & [[-> ->]|Hg]); [eauto|].
    eapply (IH _ _ _ g'); eauto. eapply wp_rely; eauto.
  - destruct (wp_access q q' m m' g Q2 H2 Hr2 Ha) as (g' & H' & [[-> ->]|Hg]); [eauto|].
    eapply (IH _ _ _ g'); eauto. eapply wp_rely; eauto.
Qed.
End Par.
End Wp.

(** [run_writes]: execute the writes at the front of a program, naming each
    intermediate region. *)
Ltac run_writes :=
  repeat (unfold write_le, write_bytes, mbind; cbn [prog_bind];
    match goal with
    | |- context [run (PWrite ?off ?s ?k) ?m] =>
        let m' := fresh "m" in let H := fresh "Hw" in let L := fresh "Hl" in
        let R := fresh "Hr" in
        destruct (run_write off s k m) as (m' & H & L & R);
          [len_lia..|rewrite R; clear R]
    end).

(** [read_back]: a read of the last region, through the writes before it. *)
Ltac read_back :=
  repeat match goal with
  | H : write ?m ?off (to_le ?n ?v) = Ret ?m' |- le_at ?n ?m' ?off = Ret ?w =>
      eapply le_at_write_same; [exact H|]
  | H : write ?m _ _ = Ret ?m' |- le_at _ ?m' _ = Ret _ =>
      eapply le_at_write_other; [exact H|len_lia|]
  | H : write ?m _ (replicate _ (u8b 0)) = Ret ?m' |- le_at _ ?m' _ = Ret 0 =>
      eapply le_at_write_zeros; [exact H|lia|lia]
  | H : write ?m ?off ?s = Ret ?m' |- slice ?m' ?off _ = Ret ?s =>
      eapply slice_write_same; [exact H|len_lia]
  | H : write ?m _ _ = Ret ?m' |- slice ?m' _ _ = Ret _ =>
      eapply slice_write_other; [exact H|len_lia|]
  | H : write ?m _ _ = Ret ?m' |- agree _ ?m' _ _ =>
      eapply agree_trans; [|eapply agree_write; [exact H|lia|len_lia]]
  end.
