(* ===== verification/Ring.v ===== *)
(** The control rings: single-producer single-consumer byte rings in the
    control region, with 16-byte entry headers and PAD entries at the end of
    the ring (host/virtio-conduit/src/control.rs, shared with
    host/bifrost/src/control_shmem.rs).

    [ring_push] is the body that [push_rsp] and [push_cmd] write out for
    their own ring; [ring_step] is one pass of the loop that [drain_cmds],
    [drain_rsp_ring] and [poll_rsp] run.  The theorems hold under any
    interleaving of one producer and one consumer. *)

From S2P Require Import Prelude Shm.

Local Open Scope Z_scope.

(** ** Code *)

Definition KIND_PAD : Z := 255.
Definition CONTROL_RING_HDR_SIZE : Z := 16.
Definition CONTROL_RING_ENTRY_ALIGN : Z := 16.

(** [(n + a - 1) & !(a - 1)]; [n] is a slice length or a [u32], so the sum
    does not overflow [usize]. *)
Definition ring_align_up (n a : Z) : Z := Z.land (n + a - 1) (Z.lnot (a - 1)).

(** Which ring of the region: where its bytes are and the offsets of its
    producer and consumer positions. *)
Record Ring : Type := {
  ring_off : Z;
  ring_len : Z;
  prod_cell : Z;
  cons_cell : Z
}.

(** What the caller reports for each way a push fails. *)
Record PushErrors (E : Type) : Type := {
  too_large : Z -> Z -> E;
  full_with_pad : Z -> Z -> Z -> E;
  full : Z -> Z -> E
}.
Arguments too_large {_} _ _ _.
Arguments full_with_pad {_} _ _ _ _.
Arguments full {_} _ _ _.

Definition Entry : Type := Z * Z * bytes.

Definition entry_total (n : Z) : Z :=
  CONTROL_RING_HDR_SIZE + ring_align_up n CONTROL_RING_ENTRY_ALIGN.

(** The choice of where the entry goes: a PAD entry over the tail when it
    does not fit there. *)
Definition place_entry {E} (r : Ring) (errs : PushErrors E) (head_off free total : Z)
  : prog E (Z * Z) :=
  let tail_remaining := ring_len r - head_off in
  if tail_remaining <? total then
    let needed := tail_remaining + total in
    if free <? needed then PThrow (full_with_pad errs free needed tail_remaining)
    else
      let p := ring_off r + head_off in
      write_le 4 p KIND_PAD ;;
      pad_len ← plift (sub64 tail_remaining CONTROL_RING_HDR_SIZE);
      write_le 4 (p + 4) (pad_len mod 2 ^ 32) ;;
      write_le 8 (p + 8) 0 ;;
      mret (0, tail_remaining + total)
  else
    if free <? total then PThrow (full errs free total)
    else mret (head_off, total).

Definition write_entry {E} (p kind seq : Z) (payload : bytes) : prog E unit :=
  write_le 4 p kind ;;
  write_le 4 (p + 4) (len payload mod 2 ^ 32) ;;
  write_le 8 (p + 8) seq ;;
  if len payload =? 0 then mret tt
  else write_bytes (p + CONTROL_RING_HDR_SIZE) payload.

Definition ring_push {E} (r : Ring) (errs : PushErrors E) (kind seq : Z) (payload : bytes)
  : prog E unit :=
  let total := entry_total (len payload) in
  if ring_len r <? total then PThrow (too_large errs total (ring_len r))
  else
    prod ← load64 (prod_cell r);
    cons ← load64 (cons_cell r);
    let free := saturating_sub (ring_len r) (wrapping_sub64 prod cons) in
    head_off ← plift (rem64 prod (ring_len r));
    '(write_off, advance) ← place_entry r errs head_off free total;
    write_entry (ring_off r + write_off) kind seq payload ;;
    fetch_add64 (prod_cell r) advance.

(** One pass of a consumer's loop. *)
Inductive Popped : Type :=
| Empty
| Skipped
| Malformed (head_off len : Z)
| Got (e : Entry).

Definition ring_step {E} (r : Ring) : prog E Popped :=
  prod ← load64 (prod_cell r);
  cons ← load64 (cons_cell r);
  if prod =? cons then mret Empty
  else
    head_off ← plift (rem64 cons (ring_len r));
    let p := ring_off r + head_off in
    kind ← read_le 4 p;
    n ← read_le 4 (p + 4);
    seq ← read_le 8 (p + 8);
    if kind =? KIND_PAD then
      fetch_add64 (cons_cell r) (ring_len r - head_off) ;;
      mret Skipped
    else
      let total := entry_total n in
      if ring_len r <? head_off + total then mret (Malformed head_off n)
      else
        payload ← read_bytes (p + CONTROL_RING_HDR_SIZE) n;
        fetch_add64 (cons_cell r) total ;;
        mret (Got (kind, seq, payload)).

(** [drain_cmds] and [drain_rsp_ring]: both stop at a malformed entry.
    [None]: still running after [fuel] passes. *)
Fixpoint ring_drain {E} (r : Ring) (fuel : nat) : prog E (option (list Entry)) :=
  match fuel with
  | O => mret None
  | S fuel =>
      s ← ring_step r;
      match s with
      | Empty | Malformed _ _ => mret (Some [])
      | Skipped => ring_drain r fuel
      | Got e => out ← ring_drain r fuel; mret (option_map (cons e) out)
      end
  end.

(** ** Specification: what a ring holds *)

(** The bytes of an entry, without its alignment padding. *)
Definition image (e : Entry) : bytes :=
  let '(kind, seq, payload) := e in
  to_le 4 kind ++ to_le 4 (len payload) ++ to_le 8 seq ++ payload.

Definition entry_len (e : Entry) : Z := len (snd e).

(** An entry a ring can hold: its fields fit their widths and its kind is
    not the PAD mark. *)
Definition entry_ok (e : Entry) : Prop :=
  let '(kind, seq, payload) := e in
  in_u 32 kind /\ kind <> KIND_PAD /\ in_u 64 seq /\ in_u 32 (len payload).

Section Spec.
Context (r : Ring).

(** Where the byte at logical position [x] is. *)
Definition slot (x : Z) : Z := ring_off r + x mod ring_len r.
Definition tail_of (x : Z) : Z := ring_len r - x mod ring_len r.

(** The space a push at position [p] takes: its entry, and the PAD before
    it when the tail is too short. *)
Definition need (p n : Z) : Z :=
  if tail_of p <? entry_total n then tail_of p + entry_total n else entry_total n.

(** The entries between two logical positions. *)
Inductive seg (m : bytes) : Z -> Z -> list Entry -> Prop :=
| seg_nil p : seg m p p []
| seg_pad c p q :
    le_at (E:=Empty_set) 4 m (slot c) = Ret KIND_PAD ->
    seg m (c + tail_of c) p q -> seg m c p q
| seg_entry c p e q :
    slice (E:=Empty_set) m (slot c) (slot c + 16 + entry_len e) = Ret (image e) ->
    entry_ok e -> c mod ring_len r + entry_total (entry_len e) <= ring_len r ->
    seg m (c + entry_total (entry_len e)) p q -> seg m c p (e :: q).

(** The ring's geometry in a region of [n] bytes: both cells precede the
    ring's bytes. *)
Record ring_wf (n : Z) : Prop := {
  wf_len : 0 < ring_len r;
  wf_align : (16 | ring_len r);
  wf_end : ring_off r + ring_len r <= n;
  wf_prod : 0 <= prod_cell r /\ prod_cell r + 8 <= cons_cell r;
  wf_cons : cons_cell r + 8 <= ring_off r
}.

(** The history of a ring: its positions, what was pushed and what was
    popped since the ring was created. *)
Record History : Type := {
  h_cons : Z;
  h_prod : Z;
  h_pushed : list Entry;
  h_popped : list Entry
}.

Record ring_inv (s : bytes * History) : Prop := {
  inv_wf : ring_wf (len s.1);
  inv_prod : le_at (E:=Empty_set) 8 s.1 (prod_cell r) = Ret (h_prod s.2);
  inv_cons : le_at (E:=Empty_set) 8 s.1 (cons_cell r) = Ret (h_cons s.2);
  inv_pos : 0 <= h_cons s.2 <= h_prod s.2 /\ h_prod s.2 <= h_cons s.2 + ring_len r;
  inv_width : h_prod s.2 < 2 ^ 64;
  inv_align : (16 | h_cons s.2) /\ (16 | h_prod s.2);
  inv_seg : exists q, h_pushed s.2 = h_popped s.2 ++ q /\
                      seg s.1 (h_cons s.2) (h_prod s.2) q
}.

(** Two regions have the same bytes at the logical positions [c, p). *)
Definition same_between (m m' : bytes) (c p : Z) : Prop :=
  forall x, c <= x < p -> m !! Z.to_nat (slot x) = m' !! Z.to_nat (slot x).

(** What the consumer may do, as the producer sees it. *)
Record cons_may (s s' : bytes * History) : Prop := {
  cm_inv : ring_inv s';
  cm_len : len s'.1 = len s.1;
  cm_prod : h_prod s'.2 = h_prod s.2;
  cm_pushed : h_pushed s'.2 = h_pushed s.2;
  cm_cons : h_cons s.2 <= h_cons s'.2;
  cm_popped : exists out, h_popped s'.2 = h_popped s.2 ++ out;
  cm_area : agree s.1 s'.1 (ring_off r) (ring_off r + ring_len r)
}.

(** What the producer may do, as the consumer sees it. *)
Record prod_may (s s' : bytes * History) : Prop := {
  pm_inv : ring_inv s';
  pm_len : len s'.1 = len s.1;
  pm_cons : h_cons s'.2 = h_cons s.2;
  pm_popped : h_popped s'.2 = h_popped s.2;
  pm_prod : h_prod s.2 <= h_prod s'.2;
  pm_pushed : exists new, h_pushed s'.2 = h_pushed s.2 ++ new;
  pm_held : same_between s.1 s'.1 (h_cons s.2) (h_prod s.2)
}.

(** What each does: as above, and nothing outside its own bytes. *)
Record cons_does (s s' : bytes * History) : Prop := {
  cd_may : cons_may s s';
  cd_low : agree s.1 s'.1 0 (cons_cell r);
  cd_high : agree s.1 s'.1 (cons_cell r + 8) (len s.1)
}.
Record prod_does (s s' : bytes * History) : Prop := {
  pd_may : prod_may s s';
  pd_low : agree s.1 s'.1 0 (prod_cell r);
  pd_mid : agree s.1 s'.1 (prod_cell r + 8) (ring_off r);
  pd_high : agree s.1 s'.1 (ring_off r + ring_len r) (len s.1)
}.
End Spec.

(** ** Positions *)

Lemma ring_align_up_16 n :
  0 <= n -> exists k, ring_align_up n 16 = 16 * k /\ n <= 16 * k < n + 16.
Proof.
  intros Hn. exists ((n + 15) / 16). unfold ring_align_up.
  replace (n + 16 - 1) with (n + 15) by lia. change (16 - 1) with (Z.ones 4).
  rewrite <- Z.ldiff_land, Z.ldiff_ones_r, Z.shiftl_mul_pow2, Z.shiftr_div_pow2 by lia.
  change (2 ^ 4) with 16. pose proof (Z.div_mod (n + 15) 16). pose proof (Z.mod_pos_bound (n + 15) 16).
  lia.
Qed.

Lemma entry_total_spec n :
  0 <= n -> (16 | entry_total n) /\ n + 16 <= entry_total n < n + 32.
Proof.
  intros Hn. destruct (ring_align_up_16 n Hn) as (k & Hk & Hb).
  unfold entry_total, CONTROL_RING_HDR_SIZE, CONTROL_RING_ENTRY_ALIGN. rewrite Hk.
  split; [exists (k + 1); lia|lia].
Qed.

Lemma divide_le_16 a b : (16 | a) -> (16 | b) -> a < b -> a + 16 <= b.
Proof. intros [x ->] [y ->]. lia. Qed.

Section Positions.
Context (r : Ring) (Hlen : 0 < ring_len r).

Lemma mod_range x : 0 <= x mod ring_len r < ring_len r.
Proof. by apply Z.mod_pos_bound. Qed.

Lemma tail_range x : 0 < tail_of r x <= ring_len r.
Proof. unfold tail_of. pose proof (mod_range x). lia. Qed.

Lemma mod_add_small x i :
  0 <= i -> x mod ring_len r + i < ring_len r -> (x + i) mod ring_len r = x mod ring_len r + i.
Proof.
  intros. rewrite <- Z.add_mod_idemp_l by lia. apply Z.mod_small. pose proof (mod_range x). lia.
Qed.

Lemma slot_add x i :
  0 <= i -> x mod ring_len r + i < ring_len r -> slot r (x + i) = slot r x + i.
Proof. intros. unfold slot. rewrite mod_add_small by lia. lia. Qed.

Lemma mod_tail x : (x + tail_of r x) mod ring_len r = 0.
Proof.
  unfold tail_of. pose proof (Z.div_mod x (ring_len r)).
  replace (x + _) with ((1 + x / ring_len r) * ring_len r) by lia.
  apply Z.mod_mul. lia.
Qed.

Lemma slot_tail x : slot r (x + tail_of r x) = ring_off r.
Proof. unfold slot. rewrite mod_tail. lia. Qed.

Lemma slot_inj x y : x < y < x + ring_len r -> slot r x <> slot r y.
Proof.
  intros H E. unfold slot in E.
  pose proof (Z.div_mod x (ring_len r)). pose proof (Z.div_mod y (ring_len r)).
  assert (Hk : ring_len r * (y / ring_len r - x / ring_len r) = y - x) by lia.
  destruct (Z.le_gt_cases (y / ring_len r - x / ring_len r) 0); nia.
Qed.

Lemma divide_mod x : (16 | ring_len r) -> (16 | x) -> (16 | x mod ring_len r).
Proof.
  intros [a Ha] [b Hb]. exists (b - a * (x / ring_len r)).
  pose proof (Z.div_mod x (ring_len r)). nia.
Qed.

Lemma divide_tail x : (16 | ring_len r) -> (16 | x) -> (16 | tail_of r x).
Proof. intros H1 H2. apply Z.divide_sub_r; [done|by apply divide_mod]. Qed.

Lemma tail_16 x : (16 | ring_len r) -> (16 | x) -> 16 <= tail_of r x.
Proof.
  intros H1 H2. destruct (divide_tail x H1 H2) as [k Hk]. pose proof (tail_range x). lia.
Qed.

(** [same_between], from the bytes of the whole ring or across a write that
    only touches free positions. *)
Lemma same_area m m' c p :
  agree m m' (ring_off r) (ring_off r + ring_len r) -> same_between r m m' c p.
Proof. intros H x _. apply H. unfold slot. pose proof (mod_range x). lia. Qed.

Lemma same_write {E} m m' c p y b :
  write (E:=E) m (slot r y) b = Ret m' -> 0 <= ring_off r ->
  c <= p <= y -> y mod ring_len r + len b <= ring_len r -> y + len b <= c + ring_len r ->
  same_between r m m' c p.
Proof.
  intros H H0 Hp Hm Hy x Hx. symmetry.
  assert (0 <= slot r x) by (unfold slot; pose proof (mod_range x); lia).
  apply (write_lookup_out _ _ _ _ _ H); [done|].
  destruct (decide (slot r x < slot r y)); [by left|].
  destruct (decide (slot r y + len b <= slot r x)); [by right|]. exfalso.
  apply (slot_inj x (y + (slot r x - slot r y))); [lia|]. rewrite slot_add by lia. lia.
Qed.

Lemma same_read {E F} m m' c p x n s :
  same_between r m m' c p -> len m' = len m -> 0 < n ->
  c <= x -> x + n <= p -> x mod ring_len r + n <= ring_len r ->
  slice (E:=E) m (slot r x) (slot r x + n) = Ret s ->
  slice (E:=F) m' (slot r x) (slot r x + n) = Ret s.
Proof.
  intros Hs Hl Hn Hc Hp Hm Hr. eapply agree_slice; [exact Hr| |done].
  intros i Hi. specialize (Hs (x + (i - slot r x))). rewrite slot_add in Hs by lia.
  replace (slot r x + (i - slot r x)) with i in Hs by lia. apply Hs. lia.
Qed.
End Positions.

(** The parts of an entry's image. *)
Lemma image_reads m a kind seq payload :
  slice (E:=Empty_set) m a (a + 16 + len payload) = Ret (image (kind, seq, payload)) ->
  slice (E:=Empty_set) m a (a + 4) = Ret (to_le 4 kind) /\
  slice (E:=Empty_set) m (a + 4) (a + 4 + 4) = Ret (to_le 4 (len payload)) /\
  slice (E:=Empty_set) m (a + 8) (a + 8 + 8) = Ret (to_le 8 seq) /\
  slice (E:=Empty_set) m (a + 16) (a + 16 + len payload) = Ret payload.
Proof.
  unfold image. intros H. split_and!.
  - eapply (slice_part _ _ _ []); [exact H|len_lia..].
  - eapply (slice_part _ _ _ (to_le 4 kind)); [exact H|len_lia..].
  - rewrite app_assoc in H. eapply slice_part; [exact H|len_lia..].
  - rewrite <- (app_nil_r payload) in H at 3. rewrite 2 app_assoc in H.
    eapply slice_part; [exact H|len_lia..].
Qed.

(** The kind of an entry's image is not PAD. *)
Lemma image_not_pad m a e :
  slice (E:=Empty_set) m a (a + 16 + entry_len e) = Ret (image e) -> entry_ok e ->
  le_at (E:=Empty_set) 4 m a <> Ret KIND_PAD.
Proof.
  destruct e as [[kind seq] payload]. unfold entry_len. simpl snd.
  intros (Hk & _)%image_reads (H1 & H2 & _) Hp. apply H2.
  unfold le_at in Hp. change (Z.of_nat 4) with 4 in Hp. rewrite Hk in Hp.
  rewrite bind_Ret, le_combine_to_le in Hp by done. by injection Hp.
Qed.

(** ** Segments *)

Section Segments.
Context (r : Ring) (Hlen : 0 < ring_len r).

Lemma seg_le m c p q : seg r m c p q -> c <= p.
Proof.
  induction 1; [lia| |].
  - pose proof (tail_range r Hlen c). lia.
  - pose proof (entry_total_spec (entry_len e) (len_nonneg _)). pose proof (len_nonneg e.2).
    unfold entry_len in *. lia.
Qed.

Lemma seg_frame m m' c p q :
  (16 | ring_len r) -> (16 | c) -> seg r m c p q ->
  same_between r m m' c p -> len m' = len m -> seg r m' c p q.
Proof.
  intros Ha Hc S. revert Hc. induction S as [p|c p q Hk S IH|c p e q Hi He Hf S IH]; intros Hc Hs Hl.
  - constructor.
  - pose proof (seg_le _ _ _ _ S). pose proof (tail_16 r Hlen c Ha Hc).
    pose proof (tail_range r Hlen c). pose proof (mod_range r Hlen c).
    apply seg_pad.
    + unfold le_at in *. destruct (slice m _ _) as [s|?|] eqn:G; try discriminate Hk.
      assert (Hm : c mod ring_len r + Z.of_nat 4 <= ring_len r) by (unfold tail_of in *; lia).
      rewrite (same_read (F:=Empty_set) r Hlen m m' c p c (Z.of_nat 4) s Hs Hl) by (lia || exact G).
      exact Hk.
    + apply IH; [apply Z.divide_add_r; [done|by apply divide_tail]| |done].
      intros x Hx. apply Hs. lia.
  - pose proof (seg_le _ _ _ _ S).
    pose proof (entry_total_spec (entry_len e) (len_nonneg _)) as [H16 Ht].
    pose proof (len_nonneg e.2). unfold entry_len in *.
    apply seg_entry; [| |done|].
    + rewrite <- Z.add_assoc in *.
      apply (same_read (E:=Empty_set) r Hlen m m' c p c (16 + len e.2)); [done|done|lia..|exact Hi].
    + done.
    + apply IH; [by apply Z.divide_add_r| |done]. intros x Hx. apply Hs. unfold entry_len. lia.
Qed.

Lemma seg_app m c x p q1 q2 : seg r m c x q1 -> seg r m x p q2 -> seg r m c p (q1 ++ q2).
Proof.
  induction 1 as [|c x q Hk S IH|c x e q Hi He Hf S IH]; intros S2; simpl; [done| |].
  - apply seg_pad; auto.
  - apply seg_entry; auto.
Qed.

(** What the head of a segment is, from the kind found there. *)
Lemma seg_pad_inv m c p q :
  seg r m c p q -> c < p -> le_at (E:=Empty_set) 4 m (slot r c) = Ret KIND_PAD ->
  seg r m (c + tail_of r c) p q.
Proof.
  intros S Hlt Hk. inversion S; subst; [lia|done|].
  exfalso. by eapply image_not_pad.
Qed.
End Segments.

(** ** The relations between the two sides *)

Section Relations.
Context (r : Ring).
Implicit Types s : bytes * History.

Lemma same_trans m1 m2 m3 c p :
  same_between r m1 m2 c p -> same_between r m2 m3 c p -> same_between r m1 m3 c p.
Proof. intros H1 H2 x Hx. by rewrite H1, H2. Qed.

Lemma cons_may_refl s : ring_inv r s -> cons_may r s s.
Proof.
  intros I. split; try done. exists []. by rewrite app_nil_r.
Qed.

Lemma cons_may_trans s1 s2 s3 : cons_may r s1 s2 -> cons_may r s2 s3 -> cons_may r s1 s3.
Proof.
  intros [_ L1 P1 U1 C1 [o1 O1] A1] [I2 L2 P2 U2 C2 [o2 O2] A2].
  split; try congruence; [lia| |eapply agree_trans; eauto].
  exists (o1 ++ o2). by rewrite O2, O1, app_assoc.
Qed.

Lemma prod_may_refl s : ring_inv r s -> prod_may r s s.
Proof.
  intros I. split; try done. exists []. by rewrite app_nil_r.
Qed.

Lemma prod_may_trans s1 s2 s3 : prod_may r s1 s2 -> prod_may r s2 s3 -> prod_may r s1 s3.
Proof.
  intros [_ L1 C1 O1 P1 [n1 N1] H1] [I2 L2 C2 O2 P2 [n2 N2] H2].
  split; try congruence; [lia| |].
  - exists (n1 ++ n2). by rewrite N2, N1, app_assoc.
  - eapply same_trans; [exact H1|]. rewrite C1 in H2. intros x Hx. apply H2. lia.
Qed.

Lemma cons_may_stay s s' : cons_may r s s' -> cons_may r s' s'.
Proof. intros H. apply cons_may_refl, H. Qed.

Lemma prod_may_stay s s' : prod_may r s s' -> prod_may r s' s'.
Proof. intros H. apply prod_may_refl, H. Qed.

Lemma cons_does_stay s s' : cons_does r s s' -> cons_may r s' s'.
Proof. intros [H _ _]. by eapply cons_may_stay. Qed.

Lemma prod_does_stay s s' : prod_does r s s' -> prod_may r s' s'.
Proof. intros [H _ _ _]. by eapply prod_may_stay. Qed.

(** Each side's own steps leave the state where the other side may act. *)
Lemma prod_does_cons_stay s s' : prod_does r s s' -> cons_may r s' s'.
Proof. intros [H _ _ _]. apply cons_may_refl, H. Qed.

Lemma cons_does_prod_stay s s' : cons_does r s s' -> prod_may r s' s'.
Proof. intros [H _ _]. apply prod_may_refl, H. Qed.

Lemma prod_does_refl s : ring_inv r s -> prod_does r s s.
Proof. intros I. split; try apply agree_refl. by apply prod_may_refl. Qed.

Lemma cons_does_refl s : ring_inv r s -> cons_does r s s.
Proof. intros I. split; try apply agree_refl. by apply cons_may_refl. Qed.

Lemma prod_does_trans s1 s2 s3 : prod_does r s1 s2 -> prod_does r s2 s3 -> prod_does r s1 s3.
Proof.
  intros [M1 L1 I1 H1] [M2 L2 I2 H2]. rewrite (pm_len _ _ _ M1) in H2.
  split; [by eapply prod_may_trans|eapply agree_trans; eauto..].
Qed.

Lemma cons_does_trans s1 s2 s3 : cons_does r s1 s2 -> cons_does r s2 s3 -> cons_does r s1 s3.
Proof.
  intros [M1 L1 H1] [M2 L2 H2]. rewrite (cm_len _ _ _ M1) in H2.
  split; [by eapply cons_may_trans|eapply agree_trans; eauto..].
Qed.

(** A step of another program that touches neither the ring nor its cells
    keeps the ring's history. *)
Lemma ring_inv_frame m m' h :
  ring_inv r (m, h) -> len m' = len m ->
  agree m m' (prod_cell r) (prod_cell r + 8) -> agree m m' (cons_cell r) (cons_cell r + 8) ->
  agree m m' (ring_off r) (ring_off r + ring_len r) -> ring_inv r (m', h).
Proof.
  intros [W P C R X A (q & Hq & S)] Hl Hp Hc Ha. simpl in *.
  split; simpl; [by rewrite Hl| | |done|done|done|].
  - eapply agree_le_at; [exact P|exact Hp|done].
  - eapply agree_le_at; [exact C|exact Hc|done].
  - exists q. split; [done|]. destruct W as [Wl Wa _ _ _].
    eapply (seg_frame r Wl); [done|by destruct A|exact S| |done]. by apply same_area.
Qed.
End Relations.

Create HintDb ring.
#[export] Hint Resolve cons_may_refl cons_may_trans cons_may_stay prod_may_refl prod_may_trans
  prod_may_stay prod_does_refl prod_does_trans cons_does_refl cons_does_trans
  prod_does_cons_stay cons_does_prod_stay cm_inv pm_inv cd_may pd_may : ring.

(** ** The producer *)

Section Producer.
Context (r : Ring).
Implicit Types s : bytes * History.

(** The producer at work: nobody else moves its position, and at least the
    bytes free at consumer position [c0] are its own. *)
Record working (p : Z) (es : list Entry) (c0 : Z) (s : bytes * History) : Prop := {
  w_inv : ring_inv r s;
  w_prod : h_prod s.2 = p;
  w_pushed : h_pushed s.2 = es;
  w_cons : c0 <= h_cons s.2
}.

Lemma working_may p es c0 s s' : working p es c0 s -> cons_may r s s' -> working p es c0 s'.
Proof.
  intros [I P U C] [I' L P' U' C' _ _]. split; [done|congruence|congruence|lia].
Qed.

(** A write to free positions. *)
Lemma wp_free_write {E A} (k : prog E A) s Q p es c0 y b :
  working p es c0 s -> p <= y -> y mod ring_len r + len b <= ring_len r ->
  y + len b <= c0 + ring_len r ->
  (forall s', working p es c0 s' -> len s'.1 = len s.1 ->
     slice (E:=Empty_set) s'.1 (slot r y) (slot r y + len b) = Ret b ->
     agree s.1 s'.1 (ring_off r) (slot r y) ->
     agree s.1 s'.1 (slot r y + len b) (ring_off r + ring_len r) ->
     wp (cons_may r) (prod_does r) k s' Q) ->
  wp (cons_may r) (prod_does r) (PWrite (slot r y) b k) s Q.
Proof.
  intros W Hp Hm Hy Hk s1 H1. pose proof (working_may _ _ _ _ _ W H1) as W1.
  destruct W1 as [I1 P1 U1 C1]. pose proof I1 as [[Wl Wa We Wp Wc] IP IC IR IX IA (q & Hq & S)].
  pose proof (mod_range r ltac:(lia) y) as Hmr. pose proof (len_nonneg b).
  destruct (write (E:=Empty_set) s1.1 (slot r y) b) as [m2|[]|] eqn:Hw;
    [|exfalso; rewrite write_ok in Hw by (unfold slot; lia); discriminate].
  pose proof (len_write _ _ _ _ Hw) as Hl2.
  exists (m2, s1.2). cbn [fst]. split; [done|].
  assert (Hsame : same_between r s1.1 m2 (h_cons s1.2) (h_prod s1.2)).
  { eapply same_write; [lia|exact Hw|lia..]. }
  assert (I2 : ring_inv r (m2, s1.2)).
  { split; simpl; [by rewrite Hl2|..|done|done|done|].
    - eapply le_at_write_other; [exact Hw| |exact IP]. unfold slot. simpl. lia.
    - eapply le_at_write_other; [exact Hw| |exact IC]. unfold slot. simpl. lia.
    - exists q. split; [done|]. eapply seg_frame; [lia|done|tauto|exact S|done|done]. }
  split.
  - split; simpl.
    + split; simpl; try done. exists []. by rewrite app_nil_r.
    + eapply agree_write; [exact Hw|unfold slot; lia..].
    + eapply agree_write; [exact Hw|unfold slot; lia..].
    + eapply agree_write; [exact Hw|unfold slot; lia..].
  - destruct H1 as [_ L1 _ _ _ _ A1]. apply Hk.
    + by split.
    + simpl. lia.
    + eapply slice_write_same; [exact Hw|done].
    + eapply agree_trans; [eapply agree_sub; [exact A1|lia|unfold slot; lia]|].
      eapply agree_write; [exact Hw|unfold slot; lia..].
    + eapply agree_trans; [eapply agree_sub; [exact A1|unfold slot; lia|lia]|].
      eapply agree_write; [exact Hw|unfold slot; lia..].
Qed.

(** Since state [s0] the producer has written the bytes [x] from position
    [y] on, and nothing else of the ring has changed. *)
Record written (p : Z) (es : list Entry) (c0 : Z) (s0 : bytes * History) (y : Z) (x : bytes)
    (s : bytes * History) : Prop := {
  wr_working : working p es c0 s;
  wr_len : len s.1 = len s0.1;
  wr_bytes : slice (E:=Empty_set) s.1 (slot r y) (slot r y + len x) = Ret x;
  wr_low : agree s0.1 s.1 (ring_off r) (slot r y);
  wr_high : agree s0.1 s.1 (slot r y + len x) (ring_off r + ring_len r)
}.

Lemma written_nil p es c0 y s : working p es c0 s -> written p es c0 s y [] s.
Proof.
  intros W. pose proof W as [[[Wl _ We Wp Wc] _ _ _ _ _ _] _ _ _].
  pose proof (mod_range r ltac:(lia) y).
  split; try done. apply slice_lookup. change (len (@nil Init.Byte.byte)) with 0.
  split_and!; intros; unfold slot in *; lia.
Qed.

Lemma wp_extend {E A} (k : prog E A) s Q p es c0 s0 y x b a :
  written p es c0 s0 y x s -> a = slot r y + len x -> p <= y -> 0 < len b ->
  y mod ring_len r + len x + len b <= ring_len r ->
  y + len x + len b <= c0 + ring_len r ->
  (forall s', written p es c0 s0 y (x ++ b) s' -> wp (cons_may r) (prod_does r) k s' Q) ->
  wp (cons_may r) (prod_does r) (PWrite a b k) s Q.
Proof.
  intros [W L B Lo Hi] -> Hp Hb Hm Hy Hk. pose proof (len_nonneg x).
  pose proof W as [[[Wl _ _ _ _] _ _ _ _ _ _] _ _ _].
  pose proof (mod_range r ltac:(lia) y) as Hmr.
  assert (Hs : slot r (y + len x) = slot r y + len x) by (apply slot_add; lia).
  rewrite <- Hs. eapply wp_free_write; [exact W|lia| |lia|].
  { rewrite mod_add_small by lia. lia. }
  rewrite Hs. intros s' W' L' B' Lo' Hi'. apply Hk. rewrite <- Z.add_assoc, <- len_app in Hi'.
  split; [done|lia| | |].
  - rewrite len_app, Z.add_assoc. eapply slice_join; [|exact B'].
    eapply agree_slice; [exact B| |done].
    eapply agree_sub; [exact Lo'|unfold slot; lia|lia].
  - eapply agree_trans; [exact Lo|]. eapply agree_sub; [exact Lo'|lia|lia].
  - eapply agree_trans; [|exact Hi']. eapply agree_sub; [exact Hi|len_lia|lia].
Qed.

Lemma wp_write_entry {E A} (k : prog E A) s Q p es c0 y kind seq payload :
  working p es c0 s -> p <= y ->
  y mod ring_len r + entry_total (len payload) <= ring_len r ->
  y + entry_total (len payload) <= c0 + ring_len r ->
  entry_ok (kind, seq, payload) ->
  (forall s', written p es c0 s y (image (kind, seq, payload)) s' ->
     wp (cons_may r) (prod_does r) k s' Q) ->
  wp (cons_may r) (prod_does r) (write_entry (slot r y) kind seq payload ;; k) s Q.
Proof.
  intros W Hp Hm Hy (_ & _ & _ & Hn) Hk. pose proof (len_nonneg payload) as H0.
  pose proof (entry_total_spec (len payload) H0) as [_ Ht].
  unfold write_entry, write_le, write_bytes, CONTROL_RING_HDR_SIZE.
  cbn [mbind prog_bind mret prog_ret]. rewrite (Z.mod_small (len payload)) by exact Hn.
  pose proof (written_nil p es c0 y s W) as W0.
  eapply wp_extend; [exact W0|len_lia..|]. intros s1 W1.
  eapply wp_extend; [exact W1|len_lia..|]. intros s2 W2.
  eapply wp_extend; [exact W2|len_lia..|]. intros s3 W3.
  rewrite app_nil_l, <- !app_assoc in W3. destruct (Z.eqb_spec (len payload) 0) as [E0|E0].
  - assert (payload = []) as -> by (apply nil_length_inv; unfold len in E0; lia).
    apply Hk. unfold image. by rewrite app_nil_r.
  - cbn [mbind prog_bind].
    eapply wp_extend; [exact W3|len_lia..|]. intros s4 W4. apply Hk.
    by rewrite <- !app_assoc in W4.
Qed.

(** Publishing: the entry becomes visible when the position moves. *)
Lemma wp_publish {E} s (Q : result E unit -> bytes * History -> Prop) p es c0 adv e :
  working p es c0 s -> (16 | adv) -> 0 <= adv -> p + adv <= c0 + ring_len r -> p + adv < 2 ^ 64 ->
  seg r s.1 p (p + adv) [e] ->
  (forall s', ring_inv r s' -> h_prod s'.2 = p + adv -> h_pushed s'.2 = es ++ [e] ->
     c0 <= h_cons s'.2 -> Q (Ok tt) s') ->
  wp (cons_may r) (prod_does r) (fetch_add64 (prod_cell r) adv) s Q.
Proof.
  intros W Ha H0 Hfit Hw Sn Hk s1 H1. destruct (working_may _ _ _ _ _ W H1) as [I1 P1 U1 C1].
  pose proof I1 as [[Wl Wa We Wp Wc] IP IC IR IX IA (q & Hq & S)].
  set (v := to_le 8 (wrapping_add64 p adv)).
  assert (Hv : len v = 8) by apply len_to_le.
  destruct (write (E:=Empty_set) s1.1 (prod_cell r) v) as [m2|[]|] eqn:Hwr;
    [|exfalso; rewrite write_ok in Hwr by lia; discriminate].
  pose proof (len_write _ _ _ _ Hwr) as Hl2.
  set (h2 := {| h_cons := h_cons s1.2; h_prod := p + adv; h_pushed := es ++ [e];
                h_popped := h_popped s1.2 |}).
  rewrite P1 in *. exists p, (m2, h2). split; [exact IP|]. split; [exact Hwr|].
  assert (Harea : agree s1.1 m2 (ring_off r) (ring_off r + ring_len r))
    by (eapply agree_write; [exact Hwr|lia..]).
  assert (S1 : seg r m2 (h_cons s1.2) p q).
  { eapply seg_frame; [lia|done|tauto|exact S|by apply same_area; [lia|]|done]. }
  assert (S2 : seg r m2 p (p + adv) [e]).
  { eapply seg_frame; [lia|done|tauto|exact Sn| |by rewrite Hl2; apply H1].
    apply same_area; [lia|]. eapply agree_trans; [apply H1|done]. }
  assert (I2 : ring_inv r (m2, h2)).
  { split; simpl; [by rewrite Hl2| | |lia|lia| |].
    - unfold v in Hwr. rewrite <- (Z.mod_small (p + adv) (2 ^ 64)) by lia.
      eapply le_at_write_same; [exact Hwr|]. apply Z.mod_pos_bound. lia.
    - eapply le_at_write_other; [exact Hwr|lia|exact IC].
    - split; [tauto|]. apply Z.divide_add_r; tauto.
    - exists (q ++ [e]). split; [by rewrite app_assoc, <- Hq, U1|]. by eapply seg_app. }
  split.
  - split; simpl.
    + split; simpl; try done; [lia| |by apply same_area; [lia|]]. exists [e]. by rewrite U1.
    + eapply agree_write; [exact Hwr|lia..].
    + eapply agree_write; [exact Hwr|lia..].
    + eapply agree_write; [exact Hwr|lia..].
  - intros s' [I' L' P' U' C' _ _]. apply Hk; [done|by rewrite P'|by rewrite U'|].
    simpl in C'. lia.
Qed.

(** The outcome of a push at producer position [p], when the consumer's
    position was read as [c]. *)
Definition push_error {E} (errs : PushErrors E) (p c n : Z) : option E :=
  let total := entry_total n in
  let free := ring_len r - (p - c) in
  if ring_len r <? total then Some (too_large errs total (ring_len r))
  else if tail_of r p <? total then
    if free <? tail_of r p + total
    then Some (full_with_pad errs free (tail_of r p + total) (tail_of r p)) else None
  else if free <? total then Some (full errs free total) else None.

Definition push_post {E} (errs : PushErrors E) (e : Entry) s (o : result E unit) s' : Prop :=
  exists c, (h_cons s.2 <= c <= h_cons s'.2 /\ c <= h_prod s.2) /\ ring_inv r s' /\
  match o with
  | Ok _ => push_error errs (h_prod s.2) c (entry_len e) = None /\
      h_prod s'.2 = h_prod s.2 + need r (h_prod s.2) (entry_len e) /\
      h_pushed s'.2 = h_pushed s.2 ++ [e]
  | Err x => push_error errs (h_prod s.2) c (entry_len e) = Some x /\ cons_may r s s'
  end.

(** The segment a push writes. *)
Lemma seg_single m y e :
  slice (E:=Empty_set) m (slot r y) (slot r y + len (image e)) = Ret (image e) -> entry_ok e ->
  y mod ring_len r + entry_total (entry_len e) <= ring_len r ->
  seg r m y (y + entry_total (entry_len e)) [e].
Proof.
  intros Hi He Hf. apply seg_entry; [|done..|constructor].
  destruct e as [[kind seq] payload]. unfold entry_len, image in *. simpl snd.
  rewrite <- Hi. f_equal. len_lia.
Qed.

Lemma working_at s : ring_inv r s -> working (h_prod s.2) (h_pushed s.2) (h_cons s.2) s.
Proof. intros I. by split. Qed.

(** Writing and publishing an entry at position [y], the producer's own or
    the one after the PAD it has just written. *)
Lemma wp_commit {E} (errs : PushErrors E) s0 s es c0 y kind seq payload :
  let e := (kind, seq, payload) in
  let p := h_prod s0.2 in
  working p es c0 s -> es = h_pushed s0.2 -> h_cons s0.2 <= c0 <= p ->
  entry_ok e -> (16 | y - p) -> p <= y -> y - p + entry_total (len payload) = need r p (len payload) ->
  push_error errs p c0 (len payload) = None ->
  y mod ring_len r + entry_total (len payload) <= ring_len r ->
  y + entry_total (len payload) <= c0 + ring_len r ->
  y + entry_total (len payload) < 2 ^ 64 ->
  (forall s', written p es c0 s y (image e) s' -> y = p \/ seg r s'.1 p y []) ->
  wp (cons_may r) (prod_does r)
    (write_entry (slot r y) kind seq payload ;;
     fetch_add64 (prod_cell r) (need r p (len payload))) s (push_post errs e s0).
Proof.
  intros e p W Hes Hc He H16 Hy Hneed Hok Hf Hfit Hw Hpre.
  pose proof (entry_total_spec (len payload) (len_nonneg _)) as [Ht16 Ht].
  pose proof (len_nonneg payload).
  eapply wp_write_entry; [exact W|done..|]. intros s' W'.
  assert (Hend : y + entry_total (len payload) = p + need r p (len payload)) by lia.
  assert (Sy : seg r s'.1 y (p + need r p (len payload)) [e]).
  { rewrite <- Hend. apply (seg_single _ y e); [apply W'|done..]. }
  eapply wp_publish; [apply W'| |lia|lia|lia| |].
  - rewrite <- Hneed. by apply Z.divide_add_r.
  - destruct (Hpre s' W') as [E0|Sp]; [|by apply (seg_app r _ _ _ _ [] _ Sp)].
    rewrite E0 in Sy. exact Sy.
  - intros s1 I1 P1 U1 C1. exists c0. split; [lia|]. split; [done|].
    split; [done|]. split; [done|]. by rewrite U1, Hes.
Qed.

(** [place_entry] in a ring with room, then the entry and the publication. *)
Lemma wp_place_pad {E} (errs : PushErrors E) s0 s c0 kind seq payload :
  let e := (kind, seq, payload) in
  let p := h_prod s0.2 in
  let total := entry_total (len payload) in
  working p (h_pushed s0.2) c0 s -> h_cons s0.2 <= c0 -> c0 <= p -> entry_ok e -> (16 | p) ->
  total <= ring_len r -> tail_of r p < total ->
  p + tail_of r p + total <= c0 + ring_len r -> p + ring_len r < 2 ^ 64 ->
  wp (cons_may r) (prod_does r)
    ('(write_off, advance) ← place_entry r errs (p mod ring_len r) (ring_len r - (p - c0)) total;
     write_entry (ring_off r + write_off) kind seq payload ;;
     fetch_add64 (prod_cell r) advance) s (push_post errs e s0).
Proof.
  intros e p total W Hc Hcp He H16 Hbig Htail Hfit Hw. subst total.
  pose proof W as [[[Wl Wa We Wp Wc] _ _ _ _ _ _] _ _ _].
  pose proof (entry_total_spec (len payload) (len_nonneg _)) as [Ht16 Ht].
  pose proof (len_nonneg payload) as H0. pose proof (mod_range r ltac:(lia) p) as Hmr.
  pose proof (tail_16 r ltac:(lia) p Wa H16) as Ht16'.
  assert (Hneed : need r p (len payload) = tail_of r p + (entry_total (len payload))).
  { unfold need. destruct (Z.ltb_spec (tail_of r p) (entry_total (len payload))); lia. }
  unfold place_entry. fold (tail_of r p). unfold tail_of in *.
  destruct (Z.ltb_spec (ring_len r - p mod ring_len r) (entry_total (len payload))) as [_|]; [|lia].
  destruct (Z.ltb_spec (ring_len r - (p - c0)) (ring_len r - p mod ring_len r + (entry_total (len payload)))) as [|_]; [lia|].
  unfold sub64, CONTROL_RING_HDR_SIZE.
  destruct (Z.ltb_spec (ring_len r - p mod ring_len r) 16) as [|_]; [lia|].
  unfold write_le at 1 2 3, write_bytes at 1 2 3. cbn [mbind prog_bind mret prog_ret plift].
  fold (slot r p). pose proof (written_nil p _ c0 p s W) as W0.
  eapply wp_extend; [exact W0|len_lia..|]. intros s1 W1.
  eapply wp_extend; [exact W1|len_lia..|]. intros s2 W2.
  eapply wp_extend; [exact W2|len_lia..|]. intros s3 W3.
  rewrite app_nil_l, <- app_assoc in W3. rewrite Z.add_0_r, <- Hneed.
  rewrite <- (slot_tail r ltac:(lia) p). unfold tail_of.
  assert (Hm0 : (p + (ring_len r - p mod ring_len r)) mod ring_len r = 0)
    by (apply mod_tail; lia).
  eapply wp_commit; fold p; [apply W3|done|lia|done| |lia|lia| |lia|lia|lia|].
  - replace (_ - p) with (tail_of r p) by (unfold tail_of; lia). apply divide_tail; [lia|done|done].
  - unfold push_error. unfold tail_of.
    destruct (Z.ltb_spec (ring_len r) (entry_total (len payload))); [lia|].
    destruct (Z.ltb_spec (ring_len r - p mod ring_len r) (entry_total (len payload))); [|lia].
    destruct (Z.ltb_spec (ring_len r - (p - c0)) (ring_len r - p mod ring_len r + (entry_total (len payload)))); [lia|done].
  - intros s4 W4. right. apply seg_pad; [|constructor].
    destruct W3 as [_ L3 B3 _ _]. destruct W4 as [_ L4 _ _ Hi4].
    apply (agree_le_at (E:=Empty_set) 4 s3.1); [| |done].
    + unfold le_at. change (Z.of_nat 4) with 4.
      rewrite (slice_part (F:=Empty_set) _ _ _ [] _ _ (slot r p) (slot r p + 4) B3) by len_lia.
      rewrite bind_Ret, le_combine_to_le; [done|]. unfold KIND_PAD, in_u. simpl. lia.
    + eapply agree_sub; [exact Hi4| |].
      * pose proof (slot_tail r ltac:(lia) p) as Hst. unfold tail_of in Hst. rewrite Hst.
        unfold image, slot. len_lia.
      * unfold slot. simpl. lia.
Qed.

Lemma wp_push {E} (errs : PushErrors E) s kind seq payload :
  ring_inv r s -> entry_ok (kind, seq, payload) -> h_prod s.2 + ring_len r < 2 ^ 64 ->
  wp (cons_may r) (prod_does r) (ring_push r errs kind seq payload) s
    (push_post errs (kind, seq, payload) s).
Proof.
  intros I He Hw. set (e := (kind, seq, payload)).
  pose proof (entry_total_spec (len payload) (len_nonneg _)) as [Ht16 Ht].
  pose proof I as [[Wl _ _ _ _] _ _ IR _ IA _].
  unfold ring_push. destruct (Z.ltb_spec (ring_len r) (entry_total (len payload))) as [Hb|Hb].
  { intros s' H'. pose proof (cm_inv _ _ _ H') as [_ _ _ IR' _ _ _].
    rewrite (cm_prod _ _ _ H') in IR'.
    exists (h_cons s'.2). split; [pose proof (cm_cons _ _ _ H'); lia|].
    split; [apply H'|]. split; [|done]. unfold push_error, entry_len. simpl.
    destruct (Z.ltb_spec (ring_len r) (entry_total (len payload))); [done|lia]. }
  apply wp_read_le. intros s1 H1. exists (h_prod s.2). split.
  { rewrite <- (cm_prod _ _ _ H1). apply H1. }
  apply wp_read_le. intros s2 H2. exists (h_cons s2.2). split; [apply H2|].
  pose proof (cons_may_trans _ _ _ _ H1 H2) as H12.
  pose proof H12 as [I2 L2 P2 U2 C2 _ _]. pose proof I2 as [_ _ _ IR2 _ _ _].
  set (c := h_cons s2.2) in *. rewrite P2 in IR2.
  replace (saturating_sub _ _) with (ring_len r - (h_prod s.2 - c))
    by (unfold saturating_sub, wrapping_sub64; rewrite Z.mod_small; lia).
  unfold rem64. destruct (Z.eqb_spec (ring_len r) 0); [lia|]. cbn [plift mbind prog_bind].
  assert (W : working (h_prod s.2) (h_pushed s.2) c s2) by by split.
  assert (Herr : forall x, push_error errs (h_prod s.2) c (entry_len e) = Some x ->
    wp (cons_may r) (prod_does r) (PThrow (A:=unit) x) s2 (push_post errs e s)).
  { intros x Hx s3 H3. pose proof (cm_cons _ _ _ H3). exists c. split; [lia|].
    split; [apply H3|]. split; [done|]. by eapply cons_may_trans. }
  destruct (Z.ltb_spec (tail_of r (h_prod s.2)) (entry_total (len payload))) as [Htl|Htl];
    [destruct (Z.ltb_spec (ring_len r - (h_prod s.2 - c))
      (tail_of r (h_prod s.2) + entry_total (len payload))) as [Hfr|Hfr]|
     destruct (Z.ltb_spec (ring_len r - (h_prod s.2 - c)) (entry_total (len payload)))
       as [Hfr|Hfr]];
    [|by apply wp_place_pad; try tauto; lia|..];
    unfold place_entry; fold (tail_of r (h_prod s.2)); cbv zeta;
    unfold push_error, entry_len in Herr; simpl snd in Herr; cbv zeta in Herr;
    rewrite (proj2 (Z.ltb_ge _ _) Hb) in Herr.
  - rewrite (proj2 (Z.ltb_lt _ _) Htl), (proj2 (Z.ltb_lt _ _) Hfr) in *. by apply Herr.
  - rewrite (proj2 (Z.ltb_ge _ _) Htl), (proj2 (Z.ltb_lt _ _) Hfr) in *. by apply Herr.
  - rewrite (proj2 (Z.ltb_ge _ _) Htl), (proj2 (Z.ltb_ge _ _) Hfr).
    cbn [mbind prog_bind mret prog_ret]. fold (slot r (h_prod s.2)).
    assert (Hneed : need r (h_prod s.2) (len payload) = entry_total (len payload)).
    { unfold need. by rewrite (proj2 (Z.ltb_ge _ _) Htl). }
    rewrite <- Hneed. eapply wp_commit; [exact W|done|lia|done| |lia|lia| | |lia|lia|by left].
    + rewrite Z.sub_diag. apply Z.divide_0_r.
    + unfold push_error. by rewrite (proj2 (Z.ltb_ge _ _) Hb), (proj2 (Z.ltb_ge _ _) Htl),
        (proj2 (Z.ltb_ge _ _) Hfr).
    + unfold tail_of in Htl. lia.
Qed.
End Producer.

(** ** The consumer *)

Section Consumer.
Context (r : Ring).
Implicit Types s : bytes * History.

Lemma seg_empty m c q : 0 < ring_len r -> seg r m c c q -> q = [].
Proof.
  intros Hl S. inversion S; subst; [done| |]; exfalso.
  - pose proof (seg_le r Hl _ _ _ _ H0). pose proof (tail_range r Hl c). lia.
  - pose proof (seg_le r Hl _ _ _ _ H2).
    pose proof (entry_total_spec (entry_len e) (len_nonneg _)).
    pose proof (len_nonneg e.2). unfold entry_len in *. lia.
Qed.

Lemma seg_entry_inv m c p e q :
  seg r m c p (e :: q) ->
  slice (E:=Empty_set) m (slot r c) (slot r c + 16 + entry_len e) = Ret (image e) ->
  entry_ok e -> seg r m (c + entry_total (entry_len e)) p q.
Proof.
  intros S Hi He. inversion S; subst; [|done]. by destruct (image_not_pad _ _ _ Hi He).
Qed.

(** What a consumer that saw a non-empty ring finds at its head. *)
Definition head_pad s : Prop :=
  h_cons s.2 < h_prod s.2 /\ le_at (E:=Empty_set) 4 s.1 (slot r (h_cons s.2)) = Ret KIND_PAD.

Record head_entry (e : Entry) s : Prop := {
  he_next : exists rest, h_pushed s.2 = h_popped s.2 ++ e :: rest;
  he_ok : entry_ok e;
  he_fit : h_cons s.2 mod ring_len r + entry_total (entry_len e) <= ring_len r;
  he_end : h_cons s.2 + entry_total (entry_len e) <= h_prod s.2;
  he_image : slice (E:=Empty_set) s.1 (slot r (h_cons s.2))
               (slot r (h_cons s.2) + 16 + entry_len e) = Ret (image e)
}.

Lemma head_cases s :
  ring_inv r s -> h_cons s.2 < h_prod s.2 -> head_pad s \/ exists e, head_entry e s.
Proof.
  intros [[Wl _ _ _ _] _ _ _ _ _ (q & Hq & S)] Hlt.
  inversion S as [| |? ? e ? Hi He Hf S']; subst; [lia|by left|right; exists e].
  pose proof (seg_le r ltac:(lia) _ _ _ _ S'). split; eauto.
Qed.

Lemma head_pad_may s s' : ring_inv r s -> head_pad s -> prod_may r s s' -> head_pad s'.
Proof.
  intros [[Wl Wa _ _ _] _ _ _ _ [IA _] (q & _ & S)] [Hlt Hk] [I' L' C' _ P' _ Hs].
  pose proof (seg_pad_inv r _ _ _ _ S Hlt Hk) as S'.
  pose proof (seg_le r ltac:(lia) _ _ _ _ S'). pose proof (tail_16 r ltac:(lia) _ Wa IA).
  split; [lia|]. rewrite C'. unfold le_at in *.
  destruct (slice s.1 _ _) as [b|?|] eqn:G; try discriminate Hk.
  rewrite (same_read (F:=Empty_set) r ltac:(lia) s.1 s'.1 (h_cons s.2) (h_prod s.2) (h_cons s.2)
    (Z.of_nat 4) b Hs L') by (unfold tail_of in *; lia || exact G). exact Hk.
Qed.

Lemma head_entry_may e s s' :
  ring_inv r s -> head_entry e s -> prod_may r s s' -> head_entry e s'.
Proof.
  intros [[Wl _ _ _ _] _ _ _ _ _ _] [[rest Hr] Ho Hf He Hi] [I' L' C' O' P' [new N'] Hs].
  pose proof (entry_total_spec (entry_len e) (len_nonneg _)). pose proof (len_nonneg e.2).
  unfold entry_len in *. split; rewrite ?C'; [|done|done|unfold entry_len; lia|].
  - exists (rest ++ new). by rewrite N', O', Hr, <- app_assoc.
  - rewrite <- Z.add_assoc in *.
    eapply (same_read (E:=Empty_set) r ltac:(lia) s.1 s'.1 (h_cons s.2) (h_prod s.2));
      [done|done|unfold entry_len; lia..|exact Hi].
Qed.

(** Moving the consumer position over a prefix of the ring. *)
Lemma advance_ok s d out q :
  ring_inv r s -> (16 | d) -> 0 <= d -> h_cons s.2 + d <= h_prod s.2 ->
  h_pushed s.2 = (h_popped s.2 ++ out) ++ q -> seg r s.1 (h_cons s.2 + d) (h_prod s.2) q ->
  exists s', write (E:=Empty_set) s.1 (cons_cell r)
      (to_le 8 (wrapping_add64 (h_cons s.2) d)) = Ret s'.1 /\ cons_does r s s' /\
    h_cons s'.2 = h_cons s.2 + d /\ h_popped s'.2 = h_popped s.2 ++ out.
Proof.
  intros [[Wl Wa We Wp Wc] IP IC IR IX IA _] H16 Hd Hle Hq S.
  set (v := to_le 8 (wrapping_add64 (h_cons s.2) d)).
  assert (Hv : len v = 8) by apply len_to_le.
  destruct (write (E:=Empty_set) s.1 (cons_cell r) v) as [m2|[]|] eqn:Hw;
    [|exfalso; rewrite write_ok in Hw by lia; discriminate].
  pose proof (len_write _ _ _ _ Hw) as Hl2.
  exists (m2, {| h_cons := h_cons s.2 + d; h_prod := h_prod s.2; h_pushed := h_pushed s.2;
                 h_popped := h_popped s.2 ++ out |}).
  split; [done|]. split; [|done].
  assert (Harea : agree s.1 m2 (ring_off r) (ring_off r + ring_len r))
    by (eapply agree_write; [exact Hw|lia..]).
  split; simpl.
  - split; simpl; [|done|done|done|lia|by eexists|done].
    split; simpl; [by rewrite Hl2|..].
    + eapply le_at_write_other; [exact Hw|lia|exact IP].
    + unfold v in Hw. rewrite <- (Z.mod_small (h_cons s.2 + d) (2 ^ 64)) by lia.
      eapply le_at_write_same; [exact Hw|]. apply Z.mod_pos_bound. lia.
    + lia.
    + lia.
    + split; [|tauto]. apply Z.divide_add_r; tauto.
    + exists q. split; [done|]. eapply seg_frame; [lia|done| |exact S|by apply same_area; [lia|]|done].
      apply Z.divide_add_r; tauto.
  - eapply agree_write; [exact Hw|lia..].
  - eapply agree_write; [exact Hw|lia..].
Qed.

(** Of what had been pushed, [P0], when the producer was at [p0], the part the
    consumer has not popped lies between its position and [p0]. *)
Definition ahead (p0 : Z) (P0 : list Entry) s : Prop :=
  P0 `prefix_of` h_popped s.2 \/
  h_cons s.2 <= p0 <= h_prod s.2 /\ P0 `prefix_of` h_pushed s.2 /\
  exists q, P0 = h_popped s.2 ++ q /\ seg r s.1 (h_cons s.2) p0 q.

Lemma ahead_here s : ring_inv r s -> ahead (h_prod s.2) (h_pushed s.2) s.
Proof. intros [_ _ _ IR _ _ (q & Hq & S)]. right. split; [lia|]. split; [done|]. by exists q. Qed.

Lemma ahead_passed p0 P0 s : ring_inv r s -> ahead p0 P0 s -> p0 <= h_cons s.2 -> P0 `prefix_of` h_popped s.2.
Proof.
  intros [[Wl _ _ _ _] _ _ _ _ _ _] [H|(Hp & _ & q & -> & S)] Hc; [done|].
  replace p0 with (h_cons s.2) in S by lia. apply seg_empty in S as ->; [|done]. by rewrite app_nil_r.
Qed.

Lemma ahead_prod p0 P0 s s' : ring_inv r s -> prod_may r s s' -> ahead p0 P0 s -> ahead p0 P0 s'.
Proof.
  intros I [I' L C O P [new N] H]. pose proof I as [[Wl Wa _ _ _] _ _ _ _ [A _] _].
  intros [Hp|(Hp & Hu & q & Hq & S)]; [left; by rewrite O|right]. rewrite C, O, N.
  split; [lia|]. split; [by apply prefix_app_r|]. exists q. split; [done|].
  eapply seg_frame; [exact Wl|exact Wa|exact A|exact S| |exact L]. intros x Hx. apply H. lia.
Qed.

Lemma ahead_skip p0 P0 s s' : ring_inv r s -> head_pad s -> cons_may r s s' ->
  h_cons s'.2 = h_cons s.2 + tail_of r (h_cons s.2) -> h_popped s'.2 = h_popped s.2 ->
  ahead p0 P0 s -> ahead p0 P0 s'.
Proof.
  intros I [_ Hk] [I' L P U _ _ Ha] Hc Ho. pose proof I as [[Wl Wa _ _ _] _ _ _ _ [A _] _].
  intros [Hp|(Hp & Hu & q & Hq & S)]; [left; by rewrite Ho|].
  destruct (decide (h_cons s.2 = p0)) as [<-|Hne].
  { apply seg_empty in S as ->; [|done]. left. rewrite Ho, Hq, app_nil_r. done. }
  apply seg_pad_inv in S; [|lia|exact Hk]. pose proof (seg_le r ltac:(lia) _ _ _ _ S).
  right. rewrite Hc, P, U, Ho. split; [lia|]. split; [done|]. exists q. split; [done|].
  eapply seg_frame; [exact Wl|exact Wa| |exact S|apply same_area; [lia|exact Ha]|exact L].
  apply Z.divide_add_r; [done|by apply divide_tail].
Qed.

Lemma ahead_take e p0 P0 s s' : ring_inv r s -> head_entry e s -> cons_may r s s' ->
  h_cons s'.2 = h_cons s.2 + entry_total (entry_len e) -> h_popped s'.2 = h_popped s.2 ++ [e] ->
  ahead p0 P0 s -> ahead p0 P0 s'.
Proof.
  intros I [[rest Hr] Hok Hf He Hi] [I' L P U _ _ Ha] Hc Ho.
  pose proof I as [[Wl Wa _ _ _] _ _ _ _ [A _] _].
  pose proof (entry_total_spec (entry_len e) (len_nonneg _)) as [H16 _].
  intros [Hp|(Hp & Hu & q & Hq & S)]; [left; rewrite Ho; by apply prefix_app_r|].
  destruct (decide (h_cons s.2 = p0)) as [<-|Hne].
  { apply seg_empty in S as ->; [|done]. left. rewrite Ho, Hq, app_nil_r. by eexists. }
  destruct q as [|e' q].
  { exfalso. inversion S; subst; [lia|]. by eapply image_not_pad. }
  pose proof Hu as He'. rewrite Hq, Hr in He'. apply prefix_app_inv, prefix_cons_inv_1 in He' as ->.
  apply seg_entry_inv in S; [|done..]. pose proof (seg_le r ltac:(lia) _ _ _ _ S).
  right. rewrite Hc, P, U, Ho. split; [lia|]. split; [done|]. exists q. split; [by rewrite <- app_assoc|].
  eapply seg_frame; [exact Wl|exact Wa| |exact S|apply same_area; [lia|exact Ha]|exact L]. by apply Z.divide_add_r.
Qed.

Definition stepped s (x : Popped) s' : Prop :=
  ring_inv r s' /\ (exists new, h_pushed s'.2 = h_pushed s.2 ++ new) /\
  (h_prod s.2 <= h_prod s'.2 /\ forall p0 P0, ahead p0 P0 s -> ahead p0 P0 s') /\
  match x with
  | Empty => h_cons s'.2 = h_cons s.2 /\ h_popped s'.2 = h_popped s.2 /\
             h_pushed s.2 = h_popped s.2 /\ h_prod s.2 = h_cons s.2
  | Skipped => h_cons s.2 < h_cons s'.2 /\ h_popped s'.2 = h_popped s.2
  | Got e => h_cons s.2 < h_cons s'.2 /\ h_popped s'.2 = h_popped s.2 ++ [e]
  | Malformed _ _ => False
  end.

(** The ring was empty when the consumer looked: what had been pushed when
    the pass began had been popped. *)
Lemma empty_pushed s s1 :
  ring_inv r s -> prod_may r s s1 -> h_prod s1.2 = h_cons s.2 -> h_pushed s.2 = h_popped s.2.
Proof.
  intros [[Wl _ _ _ _] _ _ _ _ _ (q & Hq & _)] [I1 _ C1 O1 _ [new N1] _] HE.
  destruct I1 as [_ _ _ _ _ _ (q1 & Hq1 & S1)]. rewrite HE, C1 in S1.
  apply seg_empty in S1; [|lia]. subst. rewrite app_nil_r, O1, N1, Hq, <- app_assoc in Hq1.
  rewrite <- (app_nil_r (h_popped s.2)) in Hq1 at 2. apply app_inv_head in Hq1.
  apply app_eq_nil in Hq1 as [-> _]. by rewrite Hq, app_nil_r.
Qed.

Lemma wp_skip {E} s0 s :
  ring_inv r s0 -> prod_may r s0 s -> head_pad s ->
  wp (E:=E) (prod_may r) (cons_does r)
    (fetch_add64 (cons_cell r) (tail_of r (h_cons s0.2)) ;; mret Skipped) s
    (fun o s' => exists x, o = Ok x /\ stepped s0 x s').
Proof.
  intros I0 H0 Hp s1 H1. pose proof (head_pad_may _ _ (pm_inv _ _ _ H0) Hp H1) as Hpad.
  pose proof Hpad as [Hlt Hk]. pose proof (prod_may_trans _ _ _ _ H0 H1) as H01.
  pose proof H01 as [I1 L1 C1 O1 P1 [new N1] _].
  pose proof I1 as [[Wl Wa We Wp Wc] IP IC IR IX IA (q & Hq & S)].
  pose proof (seg_pad_inv r _ _ _ _ S Hlt Hk) as S'. pose proof (tail_range r ltac:(lia) (h_cons s1.2)).
  rewrite <- C1. pose proof (seg_le r ltac:(lia) _ _ _ _ S').
  destruct (advance_ok s1 (tail_of r (h_cons s1.2)) [] q) as (s2 & Hw & Hd & Hc & Ho);
    [done|apply divide_tail; [lia|done|tauto]|lia|lia|by rewrite app_nil_r|done|].
  exists (h_cons s1.2), s2. split; [done|]. split; [done|]. split; [done|].
  intros s3 H3. exists Skipped. split; [done|]. rewrite app_nil_r in Ho.
  assert (Ha : forall p0 P0, ahead p0 P0 s0 -> ahead p0 P0 s3).
  { intros p0 P0 A. eapply ahead_prod; [apply Hd|exact H3|]. eapply ahead_skip; [exact I1|done|apply Hd|done..|].
    exact (ahead_prod _ _ _ _ I0 H01 A). }
  destruct H3 as [I3 L3 C3 O3 P3 [new3 N3] _]. destruct Hd as [[_ _ Pd Ud _ _ _] _ _].
  split; [done|]. split; [exists (new ++ new3); by rewrite N3, Ud, N1, app_assoc|].
  split; [split; [lia|done]|]. split; [lia|congruence].
Qed.

Lemma wp_take {E} s0 s e :
  ring_inv r s0 -> prod_may r s0 s -> head_entry e s ->
  wp (E:=E) (prod_may r) (cons_does r)
    (fetch_add64 (cons_cell r) (entry_total (entry_len e)) ;; mret (Got e)) s
    (fun o s' => exists x, o = Ok x /\ stepped s0 x s').
Proof.
  intros I0 H0 Hp s1 H1.
  pose proof (head_entry_may _ _ _ (pm_inv _ _ _ H0) Hp H1) as Hent.
  pose proof Hent as [[rest Hr] Ho Hf He Hi]. pose proof (prod_may_trans _ _ _ _ H0 H1) as H01.
  pose proof H01 as [I1 L1 C1 O1 P1 [new N1] _].
  pose proof (entry_total_spec (entry_len e) (len_nonneg _)) as [H16 Ht].
  pose proof (len_nonneg e.2). unfold entry_len in Ht.
  pose proof I1 as [[Wl Wa We Wp Wc] IP IC IR IX IA (q & Hq & S)].
  assert (q = e :: rest) as -> by (rewrite Hr in Hq; by apply app_inv_head in Hq).
  pose proof (seg_entry_inv _ _ _ _ _ S Hi Ho) as S'.
  destruct (advance_ok s1 (entry_total (entry_len e)) [e] rest) as (s2 & Hw & Hd & Hc & Hpop);
    [done|done|unfold entry_len; lia|done|by rewrite <- app_assoc|done|].
  exists (h_cons s1.2), s2. split; [done|]. split; [done|]. split; [done|].
  intros s3 H3. exists (Got e). split; [done|].
  assert (Ha : forall p0 P0, ahead p0 P0 s0 -> ahead p0 P0 s3).
  { intros p0 P0 A. eapply ahead_prod; [apply Hd|exact H3|]. eapply ahead_take; [exact I1|done|apply Hd|done..|].
    exact (ahead_prod _ _ _ _ I0 H01 A). }
  destruct H3 as [I3 L3 C3 O3 P3 [new3 N3] _]. destruct Hd as [[_ _ Pd Ud _ _ _] _ _].
  split; [done|]. split; [exists (new ++ new3); by rewrite N3, Ud, N1, app_assoc|].
  unfold entry_len in *. split; [split; [lia|done]|]. split; [lia|congruence].
Qed.

(** A pass that began in [s0] and has found what is at the head: it stays
    there, whatever the producer does meanwhile. *)
Record at_head s0 (x : option Entry) s : Prop := {
  ah_may : prod_may r s0 s;
  ah_head : match x with Some e => head_entry e s | None => head_pad s end
}.

Lemma at_head_may s0 x s s' : at_head s0 x s -> prod_may r s s' -> at_head s0 x s'.
Proof.
  intros [M H] M'. split; [by eapply prod_may_trans|]. pose proof (pm_inv _ _ _ M).
  destruct x; [by eapply head_entry_may|by eapply head_pad_may].
Qed.

Lemma wp_head_read {E A} n off (k : Z -> prog E A) s0 x s Q :
  at_head s0 x s ->
  (forall s', at_head s0 x s' ->
     exists v, le_at (E:=Empty_set) n s'.1 off = Ret v /\
               wp (prod_may r) (cons_does r) (k v) s' Q) ->
  wp (prod_may r) (cons_does r) (read_le n off ≫= k) s Q.
Proof. intros H Hk. apply wp_read_le. intros s' H'. apply Hk. by eapply at_head_may. Qed.

Lemma head_reads s0 e s :
  at_head s0 (Some e) s ->
  let a := slot r (h_cons s0.2) in
  le_at (E:=Empty_set) 4 s.1 a = Ret e.1.1 /\
  le_at (E:=Empty_set) 4 s.1 (a + 4) = Ret (entry_len e) /\
  le_at (E:=Empty_set) 8 s.1 (a + 8) = Ret e.1.2 /\
  slice (E:=Empty_set) s.1 (a + 16) (a + 16 + entry_len e) = Ret e.2.
Proof.
  intros [M [_ He _ _ Hi]]. cbv zeta. rewrite (pm_cons _ _ _ M) in Hi.
  generalize dependent (slot r (h_cons s0.2)). intros a Hi. destruct e as [[kind seq] payload]. unfold entry_len in *. simpl in *.
  destruct He as (Hk & _ & Hs & Hn). apply image_reads in Hi as (H1 & H2 & H3 & H4).
  unfold le_at. change (Z.of_nat 4) with 4. change (Z.of_nat 8) with 8.
  rewrite H1, H2, H3, H4, !bind_Ret.
  by rewrite !le_combine_to_le.
Qed.

Lemma pad_reads {E} n s0 s i :
  at_head s0 None s -> 0 <= i -> i + Z.of_nat n <= 16 ->
  exists v, le_at (E:=E) n s.1 (slot r (h_cons s0.2) + i) = Ret v.
Proof.
  intros [M _] Hi Hn. pose proof (pm_inv _ _ _ M) as [[Wl Wa We Wp Wc] _ _ _ _ [IA _] _].
  pose proof (tail_16 r ltac:(lia) _ Wa IA) as Ht. rewrite (pm_cons _ _ _ M) in Ht.
  pose proof (mod_range r ltac:(lia) (h_cons s0.2)).
  destruct (le_at_ok (E:=E) n s.1 (slot r (h_cons s0.2) + i)) as (v & Hv & _);
    [unfold slot, tail_of in *; lia..|]. eauto.
Qed.

(** What follows the loads of the positions in a pass. *)
Definition step_body {E} (head_off : Z) : prog E Popped :=
  let p := ring_off r + head_off in
  kind ← read_le 4 p;
  n ← read_le 4 (p + 4);
  seq ← read_le 8 (p + 8);
  if kind =? KIND_PAD then
    fetch_add64 (cons_cell r) (ring_len r - head_off) ;;
    mret Skipped
  else
    let total := entry_total n in
    if ring_len r <? head_off + total then mret (Malformed head_off n)
    else
      payload ← read_bytes (p + CONTROL_RING_HDR_SIZE) n;
      fetch_add64 (cons_cell r) total ;;
      mret (Got (kind, seq, payload)).

Lemma wp_body_pad {E} s0 s :
  ring_inv r s0 -> at_head s0 None s ->
  wp (E:=E) (prod_may r) (cons_does r) (step_body (h_cons s0.2 mod ring_len r)) s
    (fun o s' => exists x, o = Ok x /\ stepped s0 x s').
Proof.
  intros I0 H. unfold step_body. cbv zeta. fold (slot r (h_cons s0.2)).
  eapply wp_head_read; [exact H|]. intros s1 H1. exists KIND_PAD. split.
  { destruct H1 as [M [_ Hk]]. by rewrite (pm_cons _ _ _ M) in Hk. }
  eapply wp_head_read; [exact H1|]. intros s2 H2.
  destruct (pad_reads (E:=Empty_set) 4 s0 s2 4 H2) as [n Hn]; [lia..|].
  exists n. split; [done|]. eapply wp_head_read; [exact H2|]. intros s3 H3.
  destruct (pad_reads (E:=Empty_set) 8 s0 s3 8 H3) as [v Hv]; [lia..|].
  exists v. split; [done|]. apply wp_skip; [done|apply H3..].
Qed.

Lemma wp_body_entry {E} s0 s e :
  ring_inv r s0 -> at_head s0 (Some e) s ->
  wp (E:=E) (prod_may r) (cons_does r) (step_body (h_cons s0.2 mod ring_len r)) s
    (fun o s' => exists x, o = Ok x /\ stepped s0 x s').
Proof.
  intros I0 H. unfold step_body. cbv zeta. fold (slot r (h_cons s0.2)).
  assert (Hok : entry_ok e) by apply H.
  assert (Hfit : h_cons s0.2 mod ring_len r + entry_total (entry_len e) <= ring_len r).
  { rewrite <- (pm_cons _ _ _ (ah_may _ _ _ H)). apply H. }
  eapply wp_head_read; [exact H|]. intros s1 H1. exists e.1.1.
  split; [apply (head_reads _ _ _ H1)|].
  eapply wp_head_read; [exact H1|]. intros s2 H2. exists (entry_len e).
  split; [apply (head_reads _ _ _ H2)|].
  eapply wp_head_read; [exact H2|]. intros s3 H3. exists e.1.2.
  split; [apply (head_reads _ _ _ H3)|].
  destruct (Z.eqb_spec e.1.1 KIND_PAD) as [Hk|_].
  { destruct e as [[kind seq] payload]. by destruct Hok as (_ & [] & _). }
  destruct (Z.ltb_spec (ring_len r) (h_cons s0.2 mod ring_len r + entry_total (entry_len e)));
    [lia|].
  intros s4 M4. pose proof (at_head_may _ _ _ _ H3 M4) as H4. exists e.2.
  split; [apply (head_reads _ _ _ H4)|].
  destruct e as [[kind seq] payload]. apply wp_take; [done|apply H4..].
Qed.

Lemma wp_ring_step {E} s :
  ring_inv r s ->
  wp (E:=E) (prod_may r) (cons_does r) (ring_step r) s
    (fun o s' => exists x, o = Ok x /\ stepped s x s').
Proof.
  intros I. pose proof I as [[Wl _ _ _ _] _ _ _ _ _ _]. unfold ring_step.
  apply wp_read_le. intros s1 H1. exists (h_prod s1.2). split; [apply H1|].
  apply wp_read_le. intros s2 H2. exists (h_cons s.2). split.
  { rewrite <- (pm_cons _ _ _ H1), <- (pm_cons _ _ _ H2). apply H2. }
  pose proof (prod_may_trans _ _ _ _ H1 H2) as H12.
  destruct (Z.eqb_spec (h_prod s1.2) (h_cons s.2)) as [HE|HE].
  { intros s3 H3. pose proof (prod_may_trans _ _ _ _ H12 H3) as H13. pose proof H13 as [I3 _ C3 O3 P3 N3 _].
    exists Empty. split; [done|]. split; [done|]. split; [done|].
    split; [split; [done|intros p0 P0; exact (ahead_prod _ _ _ _ I H13)]|].
    split; [done|]. split; [done|]. split; [exact (empty_pushed s s1 I H1 HE)|].
    pose proof (pm_prod _ _ _ H1). pose proof I as [_ _ _ IR _ _ _]. lia. }
  assert (Hlt : h_cons s2.2 < h_prod s2.2).
  { pose proof (pm_inv _ _ _ H1) as [_ _ _ IR1 _ _ _]. rewrite (pm_cons _ _ _ H1) in IR1.
    rewrite (pm_cons _ _ _ H12). pose proof (pm_prod _ _ _ H2). lia. }
  unfold rem64. destruct (Z.eqb_spec (ring_len r) 0) as [|_]; [lia|].
  change (wp (E:=E) (prod_may r) (cons_does r) (step_body (h_cons s.2 mod ring_len r)) s2
    (fun o s' => exists x, o = Ok x /\ stepped s x s')).
  destruct (head_cases s2 (pm_inv _ _ _ H2) Hlt) as [Hp|[e Hd]].
  - by apply wp_body_pad.
  - by eapply wp_body_entry.
Qed.

(** A consumer that loops: what it has popped, and that it stops. *)
Definition drained (fuel : nat) s (o : option (list Entry)) s' : Prop :=
  ring_inv r s' /\ (exists new, h_pushed s'.2 = h_pushed s.2 ++ new) /\
  match o with
  | Some out => h_popped s'.2 = h_popped s.2 ++ out /\
                h_pushed s.2 `prefix_of` h_popped s'.2 /\ h_prod s.2 <= h_cons s'.2
  | None => (exists out, h_popped s'.2 = h_popped s.2 ++ out) /\
            h_cons s.2 + 16 * Z.of_nat fuel <= h_cons s'.2
  end.

Lemma step_progress s x s' :
  ring_inv r s -> stepped s x s' -> x = Skipped \/ (exists e, x = Got e) ->
  h_cons s.2 + 16 <= h_cons s'.2.
Proof.
  intros [_ _ _ _ _ [A _] _] ([_ _ _ _ _ [A' _] _] & _ & _ & Hx) Hc.
  apply divide_le_16; [done|done|]. by destruct Hc as [->|[e ->]]; destruct Hx.
Qed.

Lemma drained_trans fuel s s1 x s2 o :
  ring_inv r s -> stepped s x s1 -> drained fuel s1 o s2 ->
  match x with
  | Skipped => drained (S fuel) s o s2
  | Got e => drained (S fuel) s (option_map (cons e) o) s2
  | _ => True
  end.
Proof.
  intros I Hst (I2 & [n2 N2] & Ho). pose proof (step_progress s x s1 I Hst) as Hp.
  destruct Hst as (I1 & [n1 N1] & [Hp1 _] & Hx). destruct x as [| |?|e]; try done;
    (split; [done|]; split; [exists (n1 ++ n2); by rewrite N2, N1, app_assoc|]);
    destruct Hx as [_ Hx]; destruct o as [out|]; simpl.
  - destruct Ho as [Ho [[w Hw] Hc]]. split; [congruence|]. split; [|lia].
    exists (n1 ++ w). by rewrite Hw, N1, app_assoc.
  - destruct Ho as [[out Ho] Hc]. split; [exists out; congruence|]. specialize (Hp ltac:(auto)). lia.
  - destruct Ho as [Ho [[w Hw] Hc]]. split; [by rewrite Ho, Hx, <- app_assoc|]. split; [|lia].
    exists (n1 ++ w). by rewrite Hw, N1, app_assoc.
  - destruct Ho as [[out Ho] Hc].
    split; [exists (e :: out); by rewrite Ho, Hx, <- app_assoc|]. specialize (Hp ltac:(eauto)). lia.
Qed.

Lemma drained_may fuel s o s1 s2 :
  drained fuel s o s1 -> prod_may r s1 s2 -> drained fuel s o s2.
Proof.
  intros (I1 & [n1 N1] & Ho) [I2 _ C2 O2 _ [n2 N2] _]. split; [done|].
  split; [exists (n1 ++ n2); by rewrite N2, N1, app_assoc|]. by destruct o; rewrite ?O2, ?C2.
Qed.

Lemma wp_drain {E} fuel s :
  ring_inv r s ->
  wp (E:=E) (prod_may r) (cons_does r) (ring_drain r fuel) s
    (fun o s' => exists x, o = Ok x /\ drained fuel s x s').
Proof.
  revert s. induction fuel as [|fuel IH]; intros s I.
  { intros s' [I' _ C' O' _ N' _]. exists None. split; [done|]. split; [done|]. split; [done|].
    split; [exists []; by rewrite app_nil_r|lia]. }
  cbn [ring_drain]. eapply wp_bind; eauto with ring.
  eapply wp_mono; [by apply wp_ring_step|]. intros o s1 (x & -> & Hst). simpl.
  pose proof Hst as (I1 & N1 & _ & Hx). pose proof (drained_trans fuel s s1 x) as Hn.
  destruct x as [| |?|e]; [| |done|].
  - intros s2 [I2 _ C2 O2 _ [n2 N2] _]. exists (Some []). split; [done|]. split; [done|].
    destruct N1 as [n1 N1], Hx as (Hxc & Hx & He & Hpc). rewrite app_nil_r.
    split; [exists (n1 ++ n2); by rewrite N2, N1, app_assoc|].
    split; [congruence|]. split; [|lia]. exists []. rewrite app_nil_r. congruence.
  - eapply wp_mono; [by apply IH|]. intros o s2 (y & -> & Hy). eauto.
  - eapply wp_bind; eauto with ring. eapply wp_mono; [by apply IH|].
    intros o s2 (y & -> & Hy). intros s3 H3. eexists. split; [done|].
    eapply drained_may; [exact (Hn s2 y I Hst Hy)|done].
Qed.
End Consumer.

(** ** A producer and a consumer *)

Section Sessions.
Context (r : Ring) {E : Type} (errs : PushErrors E).

(** A producer that makes any sequence of pushes; the result is the entries
    that were accepted. *)
Fixpoint push_all (es : list Entry) : prog Empty_set (list Entry) :=
  match es with
  | [] => mret []
  | e :: es =>
      o ← ptry (ring_push r errs e.1.1 e.1.2 e.2);
      acc ← push_all es;
      mret (match o with Ok _ => e :: acc | Err _ => acc end)
  end.

Definition pushed_all (es : list Entry) (s : bytes * History) (acc : list Entry)
    (s' : bytes * History) : Prop :=
  ring_inv r s' /\ acc `sublist_of` es /\ h_pushed s'.2 = h_pushed s.2 ++ acc /\
  h_prod s'.2 <= h_prod s.2 + Z.of_nat (length es) * ring_len r.

Lemma need_le p n c :
  push_error r errs p c n = None -> c <= p -> p + need r p n <= c + ring_len r.
Proof.
  unfold push_error, need. cbv zeta. destruct (ring_len r <? _) eqn:?; [done|].
  destruct (Z.ltb_spec (tail_of r p) (entry_total n));
    [destruct (Z.ltb_spec (ring_len r - (p - c)) (tail_of r p + entry_total n))|
     destruct (Z.ltb_spec (ring_len r - (p - c)) (entry_total n))]; done || lia.
Qed.

Lemma wp_push_all es s :
  ring_inv r s -> Forall entry_ok es ->
  h_prod s.2 + Z.of_nat (length es) * ring_len r < 2 ^ 64 ->
  wp (cons_may r) (prod_does r) (push_all es) s
    (fun o s' => exists acc, o = Ok acc /\ pushed_all es s acc s').
Proof.
  revert s. induction es as [|e es IH]; intros s I He Hw.
  { intros s' [I' _ P' U' _ _ _]. exists []. split; [done|]. split; [done|]. split; [done|].
    split; [by rewrite app_nil_r|simpl; lia]. }
  apply list.Forall_cons in He as [He Hes].
  pose proof I as [[Wl _ _ _ _] _ _ IR _ _ _]. simpl length in Hw.
  cbn [push_all]. eapply wp_bind; eauto with ring. apply wp_ptry. destruct e as [[kind seq] payload].
  eapply wp_mono; [apply wp_push; [done|done|lia]|]. intros o s1 (c & Hc & I1 & Ho). simpl.
  assert (Hp1 : h_prod s1.2 <= h_prod s.2 + ring_len r).
  { destruct o as [u|x].
    - destruct Ho as (Hn & -> & _). pose proof (need_le _ _ _ Hn). lia.
    - destruct Ho as (_ & Hm). rewrite (cm_prod _ _ _ Hm). lia. }
  eapply wp_bind; eauto with ring. eapply wp_mono; [apply IH; [done|done|nia]|].
  intros o2 s2 (acc & -> & I2 & Hsub & Hpu & Hpr). intros s3 [I3 _ P3 U3 _ _ _].
  eexists. split; [done|]. split; [done|]. simpl length. destruct o as [u|x].
  - destruct Ho as (_ & _ & Hu). split; [by apply sublist_skip|].
    split; [by rewrite U3, Hpu, Hu, <- app_assoc|nia].
  - destruct Ho as (_ & Hm). split; [by apply sublist_cons|].
    split; [by rewrite U3, Hpu, (cm_pushed _ _ _ Hm)|nia].
Qed.

(** The history after a push and after a complete drain. *)
Definition after_push (h : History) (e : Entry) : History :=
  {| h_cons := h_cons h; h_prod := h_prod h + need r (h_prod h) (entry_len e);
     h_pushed := h_pushed h ++ [e]; h_popped := h_popped h |}.
Definition after_drain (h : History) : History :=
  {| h_cons := h_prod h; h_prod := h_prod h; h_pushed := h_pushed h; h_popped := h_pushed h |}.

(** A push that fails has not touched the region. *)
Lemma failed_push_same m h m' h' :
  ring_inv r (m, h) -> cons_may r (m, h) (m', h') -> prod_does r (m, h) (m', h') -> m' = m.
Proof.
  intros I C [P Lo Mid Hi]. pose proof I as [[Wl _ We [Wp Wp'] Wc] IP _ _ _ _ _].
  pose proof (cm_inv _ _ _ C) as [_ IP' _ _ _ _ _].
  rewrite (cm_prod _ _ _ C) in IP'. simpl in *.
  apply agree_all; [apply C|].
  apply (agree_join _ _ _ (prod_cell r)); [done|].
  apply (agree_join _ _ _ (prod_cell r + 8)).
  { apply (le_at_slice (F:=Empty_set)) in IP, IP'. by eapply agree_of_slices. }
  apply (agree_join _ _ _ (ring_off r)); [done|].
  apply (agree_join _ _ _ (ring_off r + ring_len r)); [apply C|done].
Qed.

(** A push with the region to itself. *)
Lemma ring_push_run m h kind seq payload :
  ring_inv r (m, h) -> entry_ok (kind, seq, payload) -> h_prod h + ring_len r < 2 ^ 64 ->
  match push_error r errs (h_prod h) (h_cons h) (len payload) with
  | Some x => run (ring_push r errs kind seq payload) m = (Throw x, m)
  | None => exists m', run (ring_push r errs kind seq payload) m = (Ret tt, m') /\
      ring_inv r (m', after_push h (kind, seq, payload)) /\
      prod_does r (m, h) (m', after_push h (kind, seq, payload))
  end.
Proof.
  intros I He Hw. set (e := (kind, seq, payload)).
  pose proof (wp_push r errs (m, h) kind seq payload I He Hw) as Hwp.
  eapply wp_run in Hwp as (o & m' & h' & Hr & Hg & Hq); eauto with ring.
  destruct Hq as (c & [Hc _] & I' & Ho). simpl in *.
  pose proof Hg as [[_ _ Gc Go _ _ _] _ _ _]. simpl in *. rewrite Gc in Hc.
  assert (c = h_cons h) as -> by lia. rewrite Hr. destruct o as [[]|x]; simpl.
  - destruct Ho as (Hn & Hp & Hu). unfold entry_len in Hn. simpl in Hn. rewrite Hn.
    assert (h' = after_push h e) as ->; [|eauto].
    destruct h'. unfold after_push. simpl in *. by subst.
  - destruct Ho as (Hn & Hm). unfold entry_len in Hn. simpl in Hn. rewrite Hn.
    by rewrite (failed_push_same m h m' h' I Hm Hg).
Qed.

(** A drain with the region to itself returns what the ring holds. *)
Lemma ring_drain_run {F} m h q fuel :
  ring_inv r (m, h) -> h_pushed h = h_popped h ++ q ->
  ring_len r < 16 * Z.of_nat fuel ->
  exists m', run (E:=F) (ring_drain r fuel) m = (Ret (Some q), m') /\
    ring_inv r (m', after_drain h) /\ cons_does r (m, h) (m', after_drain h).
Proof.
  intros I Hq Hf. pose proof (wp_drain (E:=F) r fuel (m, h) I) as Hwp.
  eapply wp_run in Hwp as (o & m' & h' & Hr & Hg & Hd); eauto with ring.
  destruct Hd as (x & -> & I' & _ & Hx). simpl in *.
  pose proof Hg as [[_ _ Gp Gu Gc _ _] _ _]. simpl in *.
  pose proof I as [_ _ _ IR _ _ _]. pose proof I' as [[Wl' _ _ _ _] _ _ IR' _ _ (q' & Hq' & S)].
  simpl in *. destruct x as [out|]; [|lia]. destruct Hx as (Ho & [w Hw] & Hc).
  rewrite Gu, Hw, <- app_assoc in Hq'. rewrite <- (app_nil_r (h_pushed h)) in Hq' at 1.
  apply app_inv_head in Hq'. symmetry in Hq'. apply app_eq_nil in Hq' as [-> ->].
  rewrite app_nil_r in Hw. rewrite Ho, Hq in Hw. apply app_inv_head in Hw as ->.
  exists m'. rewrite Hr. split; [done|].
  assert (h' = after_drain h) as ->; [|done].
  destruct h'. unfold after_drain. simpl in *. f_equal; [lia|done|done|congruence].
Qed.

Lemma wp_not_panic {G A B} (rely guar : bytes * G -> bytes * G -> Prop) (p : prog A B) s Q :
  wp rely guar p s Q -> p <> PPanic.
Proof. by intros H ->. Qed.

(** C6: in every interleaving of the two sides' memory accesses, a producer
    that makes any sequence of pushes into an empty ring and a consumer that
    drains it never go out of the region, and the entries the consumer has
    taken, followed by the entries a later drain finds, are exactly the
    entries whose push was accepted, in the order they were pushed. *)
Theorem ring_fifo es fuel m h p' c' m' :
  ring_inv r (m, h) -> h_pushed h = h_popped h -> Forall entry_ok es ->
  h_prod h + Z.of_nat (length es) * ring_len r < 2 ^ 64 ->
  steps (push_all es, ring_drain (E:=Empty_set) r fuel, m) (p', c', m') ->
  p' <> PPanic /\ c' <> PPanic /\
  forall acc out fuel', p' = PRet acc -> c' = PRet (Some out) ->
    ring_len r < 16 * Z.of_nat fuel' ->
    acc `sublist_of` es /\
    exists rest m'', run (E:=Empty_set) (ring_drain r fuel') m' = (Ret (Some rest), m'') /\
                     acc = out ++ rest.
Proof.
  intros I Hem He Hw Hst.
  pose proof (wp_push_all es (m, h) I He Hw) as H1.
  pose proof (wp_drain (E:=Empty_set) r fuel (m, h) I) as H2.
  eapply wp_par in Hst as (h' & H1' & H2' & R1 & _); try exact H1; try exact H2; eauto with ring.
  simpl in H1', H2', R1. pose proof (cm_inv _ _ _ R1) as I'.
  split; [by eapply wp_not_panic|]. split; [by eapply wp_not_panic|].
  intros acc out fuel' -> -> Hf.
  destruct (H1' _ R1) as (acc' & [= <-] & _ & Hs & Hp & _).
  destruct (H2' (m', h')) as (x & [= <-] & _ & _ & Ho & _); [eauto with ring|].
  simpl in *. pose proof I' as [_ _ _ _ _ _ (q & Hq & _)]. simpl in Hq. split; [done|].
  destruct (ring_drain_run (F:=Empty_set) m' h' q fuel' I' Hq Hf) as (m'' & Hr & _).
  exists q, m''. split; [done|]. rewrite Hp, Ho, Hem, <- app_assoc in Hq.
  by apply app_inv_head in Hq.
Qed.
End Sessions.

(** A fresh ring. *)
Definition fresh : History := {| h_cons := 0; h_prod := 0; h_pushed := []; h_popped := [] |}.

Lemma fresh_ring r m :
  ring_wf r (len m) -> le_at (E:=Empty_set) 8 m (prod_cell r) = Ret 0 ->
  le_at (E:=Empty_set) 8 m (cons_cell r) = Ret 0 -> ring_inv r (m, fresh).
Proof.
  intros W P C. pose proof W as [Wl _ _ _ _].
  split; simpl; [done..|lia|lia|split; apply Z.divide_0_r|].
  exists []. split; [done|constructor].
Qed.

(** A small ring: 64 bytes after its two cells. *)
Module Sample.
Definition ring : Ring := {| ring_off := 96; ring_len := 64; prod_cell := 64; cons_cell := 72 |}.
Definition errs : PushErrors Z :=
  {| too_large := fun _ _ => 1; full_with_pad := fun _ _ _ => 2; full := fun _ _ => 3 |}.
Definition region : bytes := replicate 160 (u8b 0).
Definition entries : list Entry := [(1, 1, map u8b [10; 11]); (2, 2, [])].
Definition filled_region : bytes := snd (run (push_all ring errs entries) region).
Definition drained_region : bytes :=
  snd (run (E:=Empty_set) (ring_drain ring 5) filled_region).

Lemma ring_ok : ring_inv ring (region, fresh).
Proof.
  apply fresh_ring; [|vm_compute; reflexivity..].
  split; try (vm_compute; repeat split; congruence). exists 4. reflexivity.
Qed.

Lemma entries_ok : Forall entry_ok entries.
Proof. repeat constructor; vm_compute; congruence. Qed.
End Sample.

Lemma ring_fifo_witness :
  exists rest m'',
    run (E:=Empty_set) (ring_drain Sample.ring 5) Sample.drained_region
      = (Ret (Some rest), m'') /\ Sample.entries = Sample.entries ++ rest.
Proof.
  destruct (ring_fifo Sample.ring Sample.errs Sample.entries 5 Sample.region fresh
    (PRet Sample.entries) (PRet (Some Sample.entries)) Sample.drained_region
    Sample.ring_ok eq_refl Sample.entries_ok) as (_ & _ & H).
  - vm_compute. reflexivity.
  - eapply (run_left _ _ _ Sample.filled_region Sample.entries); [vm_compute; reflexivity|].
    eapply run_right; [vm_compute; reflexivity|apply steps_done].
  - apply (H _ _ 5%nat eq_refl eq_refl). vm_compute. reflexivity.
Defined.
