(* ===== verification/ControlShm.v ===== *)
(** The conduit's side of the control region
    (host/virtio-conduit/src/control.rs): its layout, its creation, the
    response and command rings, the published data-SHM metadata, the wake
    counter and the wake FIFO.

    Error strings are the constructors of [LayoutError], [RspError] and
    [PublishError].  The operating-system calls of [ControlShm::create] are
    taken to succeed; [ftruncate] on a new object gives a region of zeros. *)

From S2P Require Import Prelude Shm Ring.

Local Open Scope Z_scope.

(** ** Constants *)

Definition CONTROL_SHM_DEFAULT_SIZE : Z := 1024 * 1024.
Definition CONTROL_SHM_HDR_SIZE : Z := 4096.
Definition CONTROL_SHM_MAGIC : Z := 0x4c54435f54434642.
Definition CONTROL_SHM_VERSION : Z := 1.
Definition CONTROL_CAP_CTRL_PAYLOAD : Z := Z.shiftl 1 0.
Definition CONTROL_CAP_DATA_SHM : Z := Z.shiftl 1 1.
Definition CONTROL_DATA_SHM_META_OFF : Z := 128.
Definition CONTROL_DATA_SHM_NAME_OFF : Z := 256.
Definition CONTROL_DATA_SHM_NAME_MAX : Z := 128.
Definition CONTROL_DATA_SHM_PROTOCOL_VERSION : Z := 1.
Definition CONTROL_WAKE_COUNTER : Z := 2.
Definition CONTROL_DATA_WAKE_COUNTER_OFF : Z := 192.
Definition CONTROL_CMD_RING_LEN : Z := 64 * 1024.
Definition CONTROL_RSP_RING_MIN_LEN : Z := 4096.
Definition CONTROL_SHM_MIN_SIZE : Z :=
  CONTROL_SHM_HDR_SIZE + CONTROL_CMD_RING_LEN + CONTROL_RSP_RING_MIN_LEN.

Definition HDR_OFF_MAGIC : Z := 0.
Definition HDR_OFF_VERSION : Z := 8.
Definition HDR_OFF_PID : Z := 12.
Definition HDR_OFF_REGION_SIZE : Z := 16.
Definition HDR_OFF_CAPS : Z := 24.
Definition HDR_OFF_CMD_RING_OFF : Z := 32.
Definition HDR_OFF_CMD_RING_LEN : Z := 40.
Definition HDR_OFF_RSP_RING_OFF : Z := 48.
Definition HDR_OFF_RSP_RING_LEN : Z := 56.

(** wire.rs *)
Definition KIND_CTRL_PAYLOAD : Z := 1.
Definition KIND_CTRL_PAYLOAD_REQ : Z := 2.
Definition KIND_RSP_OK : Z := 100.
Definition KIND_RSP_ERR : Z := 101.
Definition KIND_RSP_PAYLOAD : Z := 104.
Definition OP_DATA_SHM_READY : Z := 8.
Definition OP_CTRL_RESPONSE : Z := 9.

(** ** Layout *)

Record RingLayout : Type := {
  cmd_ring_off : Z;
  cmd_ring_len : Z;
  rsp_ring_off : Z;
  rsp_ring_len : Z
}.

Inductive LayoutError : Type :=
| SizeBelowMinimum (size : Z)
| RspRingBelowMinimum (size rsp_ring_len : Z).

Definition compute_ring_layout (size : Z) : outcome LayoutError RingLayout :=
  if size <? CONTROL_SHM_MIN_SIZE then Throw (SizeBelowMinimum size)
  else
    let cmd_ring_off := CONTROL_SHM_HDR_SIZE in
    let cmd_ring_len := CONTROL_CMD_RING_LEN in
    let rsp_ring_off := cmd_ring_off + cmd_ring_len in
    avail ← sub64 size rsp_ring_off;
    let rsp_ring_len := Z.land avail (Z.lnot 0xfff) in
    if rsp_ring_len <? CONTROL_RSP_RING_MIN_LEN
    then Throw (RspRingBelowMinimum size rsp_ring_len)
    else Ret {| cmd_ring_off := cmd_ring_off; cmd_ring_len := cmd_ring_len;
                rsp_ring_off := rsp_ring_off; rsp_ring_len := rsp_ring_len |}.

(** ** The view *)

Record ControlShmView : Type := {
  region_size : Z;
  view_layout : RingLayout
}.

Definition cmd_ring (v : ControlShmView) : Ring :=
  {| ring_off := cmd_ring_off (view_layout v); ring_len := cmd_ring_len (view_layout v);
     prod_cell := 64; cons_cell := 72 |}.
Definition rsp_ring (v : ControlShmView) : Ring :=
  {| ring_off := rsp_ring_off (view_layout v); ring_len := rsp_ring_len (view_layout v);
     prod_cell := 80; cons_cell := 88 |}.

Inductive RspError : Type := RspTooLarge | RspFull.
Definition rsp_errors : PushErrors RspError :=
  {| too_large := fun _ _ => RspTooLarge; full_with_pad := fun _ _ _ => RspFull;
     full := fun _ _ => RspFull |}.

Definition drain_cmds {E} (v : ControlShmView) (fuel : nat) : prog E (option (list Entry)) :=
  ring_drain (cmd_ring v) fuel.

Definition push_rsp (v : ControlShmView) (kind seq : Z) (payload : bytes) : prog RspError unit :=
  ring_push (rsp_ring v) rsp_errors kind seq payload.

Inductive PublishError : Type := NameTooLong (n : Z) | NameStorage.

Definition publish_data_shm (name : bytes) (size : Z) : prog PublishError unit :=
  if CONTROL_DATA_SHM_NAME_MAX <? len name then PThrow (NameTooLong (len name))
  else if CONTROL_SHM_HDR_SIZE <? CONTROL_DATA_SHM_NAME_OFF + CONTROL_DATA_SHM_NAME_MAX
  then PThrow NameStorage
  else
    write_bytes CONTROL_DATA_SHM_NAME_OFF
      (replicate (Z.to_nat CONTROL_DATA_SHM_NAME_MAX) (u8b 0)) ;;
    write_bytes CONTROL_DATA_SHM_NAME_OFF name ;;
    caps ← read_le 8 HDR_OFF_CAPS;
    write_le 8 HDR_OFF_CAPS (Z.lor caps CONTROL_CAP_DATA_SHM) ;;
    let meta := CONTROL_DATA_SHM_META_OFF in
    write_le 8 meta CONTROL_DATA_SHM_NAME_OFF ;;
    write_le 4 (meta + 8) (len name) ;;
    write_le 4 (meta + 12) CONTROL_DATA_SHM_PROTOCOL_VERSION ;;
    write_le 8 (meta + 16) size ;;
    write_le 4 (meta + 24) CONTROL_WAKE_COUNTER ;;
    write_le 4 (meta + 28) 0 ;;
    write_le 8 (meta + 32) CONTROL_DATA_WAKE_COUNTER_OFF ;;
    write_le 8 CONTROL_DATA_WAKE_COUNTER_OFF 0.

(** *** The wake FIFO

    The file descriptor is -1 until [open_wake_fifo] has opened the FIFO.
    The results of [mkfifo], [open] and [write] are arguments: [None] for a
    call that succeeded, the [errno] otherwise. *)

Definition EEXIST : Z := 17.
Definition EPIPE : Z := 32.

Definition open_wake_fifo (mkfifo : option Z) (open_fd : Z) (fd : Z) : Z :=
  let opened := if open_fd <? 0 then fd else open_fd in
  match mkfifo with
  | Some errno => if errno =? EEXIST then opened else fd
  | None => opened
  end.

Definition poke_wake_fifo (write_result : option Z) (fd : Z) : Z :=
  if fd <? 0 then fd
  else
    match write_result with
    | Some errno => if errno =? EPIPE then -1 else fd
    | None => fd
    end.

(** The counter in the region, and the FIFO's descriptor afterwards. *)
Definition increment_data_wake_counter {E} (write_result : option Z) (fd : Z) : prog E Z :=
  fetch_add64 CONTROL_DATA_WAKE_COUNTER_OFF 1 ;;
  mret (poke_wake_fifo write_result fd).

(** ** Creation *)

(** The header [create] writes. *)
Definition write_header {E} (pid size : Z) (l : RingLayout) : prog E unit :=
  write_le 8 HDR_OFF_MAGIC CONTROL_SHM_MAGIC ;;
  write_le 4 HDR_OFF_VERSION CONTROL_SHM_VERSION ;;
  write_le 4 HDR_OFF_PID pid ;;
  write_le 8 HDR_OFF_REGION_SIZE size ;;
  write_le 8 HDR_OFF_CAPS CONTROL_CAP_CTRL_PAYLOAD ;;
  write_le 8 HDR_OFF_CMD_RING_OFF (cmd_ring_off l) ;;
  write_le 8 HDR_OFF_CMD_RING_LEN (cmd_ring_len l) ;;
  write_le 8 HDR_OFF_RSP_RING_OFF (rsp_ring_off l) ;;
  write_le 8 HDR_OFF_RSP_RING_LEN (rsp_ring_len l) ;;
  write_bytes CONTROL_DATA_SHM_META_OFF (replicate 48 (u8b 0)) ;;
  write_bytes CONTROL_DATA_WAKE_COUNTER_OFF (replicate 8 (u8b 0)).

(** [create]: disabled by an environment variable, sized by another one (the
    value it parses to, if it does). *)
Definition create (disabled : bool) (env_size : option Z) (pid : Z)
  : outcome LayoutError (option (ControlShmView * bytes)) :=
  if disabled then Ret None
  else
    let size := match env_size with Some n => n | None => CONTROL_SHM_DEFAULT_SIZE end in
    layout ← compute_ring_layout size;
    match run (E:=LayoutError) (write_header pid size layout)
            (replicate (Z.to_nat size) (u8b 0)) with
    | (Ret _, region) => Ret (Some ({| region_size := size; view_layout := layout |}, region))
    | (Throw e, _) => Throw e
    | (Panic, _) => Panic
    end.

(** ** The layout is sound *)

(** Both rings lie in the region after the header, one after the other. *)
Record view_wf (v : ControlShmView) : Prop := {
  vw_cmd : ring_wf (cmd_ring v) (region_size v);
  vw_rsp : ring_wf (rsp_ring v) (region_size v);
  vw_header : CONTROL_SHM_HDR_SIZE <= cmd_ring_off (view_layout v);
  vw_order : cmd_ring_off (view_layout v) + cmd_ring_len (view_layout v)
               <= rsp_ring_off (view_layout v)
}.

Lemma page_mask n :
  0 <= n -> exists k, Z.land n (Z.lnot 0xfff) = 4096 * k /\ 4096 * k <= n < 4096 * k + 4096.
Proof.
  intros Hn. exists (n / 4096). change 0xfff with (Z.ones 12).
  rewrite <- Z.ldiff_land, Z.ldiff_ones_r, Z.shiftl_mul_pow2, Z.shiftr_div_pow2 by lia.
  change (2 ^ 12) with 4096. pose proof (Z.div_mod n 4096). pose proof (Z.mod_pos_bound n 4096). lia.
Qed.

Lemma layout_cases size :
  0 <= size ->
  if size <? CONTROL_SHM_MIN_SIZE
  then compute_ring_layout size = Throw (SizeBelowMinimum size)
  else exists k, 1 <= k /\ size - 69632 < 4096 * k + 4096 /\ 4096 * k <= size - 69632 /\
    compute_ring_layout size =
      Ret {| cmd_ring_off := 4096; cmd_ring_len := 65536; rsp_ring_off := 69632;
             rsp_ring_len := 4096 * k |}.
Proof.
  intros Hs. unfold compute_ring_layout. destruct (Z.ltb_spec size CONTROL_SHM_MIN_SIZE) as [|H]; [done|].
  unfold CONTROL_SHM_MIN_SIZE, CONTROL_SHM_HDR_SIZE, CONTROL_CMD_RING_LEN,
    CONTROL_RSP_RING_MIN_LEN in *. simpl in H.
  destruct (page_mask (size - 69632)) as (k & Hk & Hb); [lia|].
  exists k. split; [lia|]. split; [lia|]. split; [lia|].
  unfold sub64. cbv zeta. change (4096 + 64 * 1024) with 69632.
  destruct (Z.ltb_spec size 69632); [lia|]. rewrite bind_Ret, Hk.
  destruct (Z.ltb_spec (4096 * k) 4096); [lia|done].
Qed.

(** C39: [compute_ring_layout] accepts exactly the sizes from the minimum on,
    and every accepted size gives two rings that lie inside the region,
    after the header and disjoint from each other, with lengths that are a
    multiple of the page size (hence of the entry alignment) and a response
    ring that leaves less than a page unused. *)
Theorem ring_layout_sound size :
  0 <= size ->
  match compute_ring_layout size with
  | Ret l =>
      CONTROL_SHM_MIN_SIZE <= size /\
      view_wf {| region_size := size; view_layout := l |} /\
      (4096 | cmd_ring_len l) /\ (4096 | rsp_ring_len l) /\
      CONTROL_RSP_RING_MIN_LEN <= rsp_ring_len l /\
      size < rsp_ring_off l + rsp_ring_len l + 4096
  | Throw e => size < CONTROL_SHM_MIN_SIZE /\ e = SizeBelowMinimum size
  | Panic => False
  end.
Proof.
  intros Hs. pose proof (layout_cases size Hs) as H.
  destruct (Z.ltb_spec size CONTROL_SHM_MIN_SIZE) as [Hlt|Hge].
  { by rewrite H. }
  destruct H as (k & Hk & Hb & Hb' & ->). simpl.
  assert (H16 : (16 | 4096 * k)) by (exists (256 * k); lia).
  split; [done|]. split.
  { split; simpl; [split; simpl; try lia; exists 4096; lia|split; simpl; [lia|done|lia..]
      |done|lia]. }
  split; [exists 16; lia|]. split; [exists k; lia|]. unfold CONTROL_RSP_RING_MIN_LEN. lia.
Qed.

Lemma ring_layout_sound_witness :
  match compute_ring_layout CONTROL_SHM_DEFAULT_SIZE with
  | Ret l => rsp_ring_len l = 978944 /\ (4096 | rsp_ring_len l)
  | _ => False
  end.
Proof.
  pose proof (ring_layout_sound CONTROL_SHM_DEFAULT_SIZE ltac:(vm_compute; congruence)) as H.
  destruct (compute_ring_layout CONTROL_SHM_DEFAULT_SIZE) as [l|e|] eqn:Hc.
  - vm_compute in Hc. injection Hc as <-. split; [reflexivity|apply H].
  - vm_compute in Hc. discriminate Hc.
  - exact H.
Defined.

(** ** The two rings of a region *)

Record control_inv (v : ControlShmView) (m : bytes) (hc hr : History) : Prop := {
  ci_view : view_wf v;
  ci_len : len m = region_size v;
  ci_cmd : ring_inv (cmd_ring v) (m, hc);
  ci_rsp : ring_inv (rsp_ring v) (m, hr)
}.

(** Bytes outside the rings and their cells belong to the header. *)
Definition header_agree (m m' : bytes) : Prop :=
  agree m m' 0 64 /\ agree m m' 96 CONTROL_SHM_HDR_SIZE.

Section Frames.
Context (v : ControlShmView).

Ltac frame_go :=
  unfold CONTROL_SHM_HDR_SIZE in *; simpl in *;
  match goal with
  | H : agree ?m ?m' _ _ |- agree ?m ?m' _ _ =>
      eapply agree_sub; [exact H|simpl in *; lia|simpl in *; lia]
  end.

Lemma cmd_push_frame m m' hc hc' hr :
  control_inv v m hc hr -> prod_does (cmd_ring v) (m, hc) (m', hc') ->
  control_inv v m' hc' hr /\ header_agree m m'.
Proof.
  intros [W L C R] [P Lo Mid Hi]. pose proof W as [[] [] Wh Wo]. pose proof (pm_len _ _ _ P).
  unfold CONTROL_SHM_HDR_SIZE in *. simpl in *. split.
  - split; [done|lia|apply P|]. eapply ring_inv_frame; [exact R|done|frame_go..].
  - split; frame_go.
Qed.

Lemma cmd_pop_frame m m' hc hc' hr :
  control_inv v m hc hr -> cons_does (cmd_ring v) (m, hc) (m', hc') ->
  control_inv v m' hc' hr /\ header_agree m m'.
Proof.
  intros [W L C R] [P Lo Hi]. pose proof W as [[] [] Wh Wo]. pose proof (cm_len _ _ _ P).
  unfold CONTROL_SHM_HDR_SIZE in *. simpl in *. split.
  - split; [done|lia|apply P|]. eapply ring_inv_frame; [exact R|done|frame_go..].
  - split; frame_go.
Qed.

Lemma rsp_push_frame m m' hc hr hr' :
  control_inv v m hc hr -> prod_does (rsp_ring v) (m, hr) (m', hr') ->
  control_inv v m' hc hr' /\ header_agree m m'.
Proof.
  intros [W L C R] [P Lo Mid Hi]. pose proof W as [[] [] Wh Wo]. pose proof (pm_len _ _ _ P).
  unfold CONTROL_SHM_HDR_SIZE in *. simpl in *. split.
  - split; [done|lia| |apply P]. eapply ring_inv_frame; [exact C|done|frame_go..].
  - split; frame_go.
Qed.

Lemma rsp_pop_frame m m' hc hr hr' :
  control_inv v m hc hr -> cons_does (rsp_ring v) (m, hr) (m', hr') ->
  control_inv v m' hc hr' /\ header_agree m m'.
Proof.
  intros [W L C R] [P Lo Hi]. pose proof W as [[] [] Wh Wo]. pose proof (cm_len _ _ _ P).
  unfold CONTROL_SHM_HDR_SIZE in *. simpl in *. split.
  - split; [done|lia| |apply P]. eapply ring_inv_frame; [exact C|done|frame_go..].
  - split; frame_go.
Qed.

(** A write to the header keeps both rings. *)
Lemma control_inv_header m m' hc hr :
  control_inv v m hc hr -> len m' = len m -> agree m m' 64 96 ->
  agree m m' CONTROL_SHM_HDR_SIZE (len m) -> control_inv v m' hc hr.
Proof.
  intros [W L C R] Hl Hc Ha. pose proof W as [[] [] Wh Wo].
  unfold CONTROL_SHM_HDR_SIZE in *. simpl in *.
  split; [done|lia| |].
  - eapply ring_inv_frame; [exact C|done|frame_go..].
  - eapply ring_inv_frame; [exact R|done|frame_go..].
Qed.
End Frames.

(** ** The header *)

(** What the header of a region says. *)
Record header_says (m : bytes) (pid size caps : Z) (l : RingLayout)
    (name_off name_len proto data_size mode wake_off : Z) : Prop := {
  hs_magic : le_at (E:=Empty_set) 8 m 0 = Ret CONTROL_SHM_MAGIC;
  hs_version : le_at (E:=Empty_set) 4 m 8 = Ret CONTROL_SHM_VERSION;
  hs_pid : le_at (E:=Empty_set) 4 m 12 = Ret pid;
  hs_size : le_at (E:=Empty_set) 8 m 16 = Ret size;
  hs_caps : le_at (E:=Empty_set) 8 m 24 = Ret caps;
  hs_cmd_off : le_at (E:=Empty_set) 8 m 32 = Ret (cmd_ring_off l);
  hs_cmd_len : le_at (E:=Empty_set) 8 m 40 = Ret (cmd_ring_len l);
  hs_rsp_off : le_at (E:=Empty_set) 8 m 48 = Ret (rsp_ring_off l);
  hs_rsp_len : le_at (E:=Empty_set) 8 m 56 = Ret (rsp_ring_len l);
  hs_name_off : le_at (E:=Empty_set) 8 m 128 = Ret name_off;
  hs_name_len : le_at (E:=Empty_set) 4 m 136 = Ret name_len;
  hs_proto : le_at (E:=Empty_set) 4 m 140 = Ret proto;
  hs_data_size : le_at (E:=Empty_set) 8 m 144 = Ret data_size;
  hs_mode : le_at (E:=Empty_set) 4 m 152 = Ret mode;
  hs_wake_off : le_at (E:=Empty_set) 8 m 160 = Ret wake_off
}.

Lemma created size pid l :
  compute_ring_layout size = Ret l -> in_u 32 pid -> 0 <= size < 2 ^ 63 ->
  let v := {| region_size := size; view_layout := l |} in
  exists m, create false (Some size) pid = Ret (Some (v, m)) /\
    control_inv v m fresh fresh /\
    header_says m pid size CONTROL_CAP_CTRL_PAYLOAD l 0 0 0 0 0 0 /\
    le_at (E:=Empty_set) 8 m CONTROL_DATA_WAKE_COUNTER_OFF = Ret 0.
Proof.
  intros Hl Hpid Hsz v. pose proof (ring_layout_sound size ltac:(lia)) as Hs. rewrite Hl in Hs.
  destruct Hs as (Hmin & Hv & _). unfold create. rewrite Hl, bind_Ret.
  pose proof (layout_cases size ltac:(lia)) as Hc. rewrite Hl in Hc.
  destruct (Z.ltb_spec size CONTROL_SHM_MIN_SIZE) as [|_]; [lia|].
  destruct Hc as (k & Hk & Hb & Hb' & [= ->]).
  set (m0 := replicate (Z.to_nat size) (u8b 0)).
  assert (Hl0 : len m0 = size) by (unfold m0; len_lia).
  assert (Hz : forall n off, 0 <= off -> off + Z.of_nat n <= size ->
    le_at (E:=Empty_set) n m0 off = Ret 0) by (intros; apply le_at_zeros; lia).
  clearbody m0. unfold write_header.
  unfold HDR_OFF_MAGIC, HDR_OFF_VERSION, HDR_OFF_PID, HDR_OFF_REGION_SIZE, HDR_OFF_CAPS,
    HDR_OFF_CMD_RING_OFF, HDR_OFF_CMD_RING_LEN, HDR_OFF_RSP_RING_OFF, HDR_OFF_RSP_RING_LEN,
    CONTROL_DATA_SHM_META_OFF, CONTROL_DATA_WAKE_COUNTER_OFF.
  run_writes. cbn [run]. eexists. split; [reflexivity|].
  match goal with |- control_inv _ ?m _ _ /\ _ => assert (Hlen : len m = size) by lia end.
  split.
  - split; [done|done| |]; (apply fresh_ring; [simpl fst; rewrite Hlen; apply Hv|..]);
      simpl; read_back; apply Hz; simpl; lia.
  - split; [|by read_back].
    split; simpl; read_back; try (apply Hz; simpl; lia); unfold in_u in *; simpl; try lia;
      vm_compute; split; congruence.
Qed.

Lemma published v m hc hr pid size caps l name_off name_len proto data_size mode wake_off
    name dsize :
  control_inv v m hc hr ->
  header_says m pid size caps l name_off name_len proto data_size mode wake_off ->
  len name <= CONTROL_DATA_SHM_NAME_MAX -> in_u 64 dsize ->
  exists m', run (publish_data_shm name dsize) m = (Ret tt, m') /\
    control_inv v m' hc hr /\
    header_says m' pid size (Z.lor caps CONTROL_CAP_DATA_SHM) l CONTROL_DATA_SHM_NAME_OFF
      (len name) CONTROL_DATA_SHM_PROTOCOL_VERSION dsize CONTROL_WAKE_COUNTER
      CONTROL_DATA_WAKE_COUNTER_OFF /\
    slice (E:=Empty_set) m' CONTROL_DATA_SHM_NAME_OFF (CONTROL_DATA_SHM_NAME_OFF + len name)
      = Ret name /\
    le_at (E:=Empty_set) 8 m' CONTROL_DATA_WAKE_COUNTER_OFF = Ret 0.
Proof.
  intros C [] Hn Hd. pose proof C as [[[] [] Wh Wo] L _ _].
  unfold CONTROL_DATA_SHM_NAME_MAX, CONTROL_SHM_HDR_SIZE in *. simpl in *.
  assert (Hcaps : in_u 64 (Z.lor caps 2)).
  { destruct (le_at_Ret _ _ _ _ hs_caps0) as (_ & _ & Hc).
    apply in_u_lor; [lia|exact Hc|unfold in_u; lia]. }
  unfold publish_data_shm, CONTROL_DATA_SHM_NAME_MAX, CONTROL_SHM_HDR_SIZE.
  destruct (Z.ltb_spec 128 (len name)); [lia|].
  change (4096 <? CONTROL_DATA_SHM_NAME_OFF + 128) with false. cbv iota.
  unfold CONTROL_DATA_SHM_NAME_OFF, CONTROL_DATA_SHM_META_OFF, HDR_OFF_CAPS,
    CONTROL_DATA_WAKE_COUNTER_OFF. cbv zeta. simpl Z.add. pose proof (len_nonneg name).
  run_writes.
  match goal with |- context [prog_bind ?E ?A ?B ?k (read_le ?n ?o)] =>
    change (prog_bind E A B k (read_le n o)) with (mbind (M:=prog E) k (read_le n o)) end.
  rewrite (run_read_le _ _ _ _ caps) by (read_back; done).
  run_writes. cbn [run]. eexists. split; [reflexivity|].
  split; [eapply control_inv_header; [exact C|lia|..]|split; [|split]].
  - read_back. apply agree_refl.
  - unfold CONTROL_SHM_HDR_SIZE. read_back. apply agree_refl.
  - split; simpl; read_back; try done; unfold in_u in *; simpl; try lia;
      vm_compute; split; congruence.
  - read_back.
  - read_back. unfold in_u. simpl. lia.
Qed.

(** A FIFO that could not be opened, or whose reader went away, is never
    opened again: later pokes only look at the descriptor. *)
Lemma wake_fifo_not_reopened results fd :
  fd < 0 -> fold_left (fun fd w => poke_wake_fifo w fd) results fd = fd.
Proof.
  intros H. induction results as [|w ws IH]; [done|]. simpl. unfold poke_wake_fifo at 2.
  by rewrite (proj2 (Z.ltb_lt fd 0) H).
Qed.

(** ** The wake counter *)

Lemma header_agree_refl m : header_agree m m.
Proof. split; apply agree_refl. Qed.

Lemma header_agree_trans m1 m2 m3 : header_agree m1 m2 -> header_agree m2 m3 -> header_agree m1 m3.
Proof. intros [A1 A2] [B1 B2]. split; eapply agree_trans; eauto. Qed.

(** Ring traffic does not move the counter. *)
Lemma wake_counter_kept v m m' hc hr n :
  control_inv v m hc hr -> len m' = len m -> header_agree m m' ->
  le_at (E:=Empty_set) 8 m CONTROL_DATA_WAKE_COUNTER_OFF = Ret n ->
  le_at (E:=Empty_set) 8 m' CONTROL_DATA_WAKE_COUNTER_OFF = Ret n.
Proof.
  intros C Hl [_ Ha] Hn. eapply agree_le_at; [exact Hn| |done].
  eapply agree_sub; [exact Ha|vm_compute; congruence..].
Qed.

Lemma increment_run {E} v m hc hr n w fd :
  control_inv v m hc hr ->
  le_at (E:=Empty_set) 8 m CONTROL_DATA_WAKE_COUNTER_OFF = Ret n ->
  exists m', run (E:=E) (increment_data_wake_counter w fd) m = (Ret (poke_wake_fifo w fd), m') /\
    control_inv v m' hc hr /\
    le_at (E:=Empty_set) 8 m' CONTROL_DATA_WAKE_COUNTER_OFF = Ret (wrapping_add64 n 1).
Proof.
  intros C Hn. pose proof C as [[[] _ Wh _] L _ _].
  unfold CONTROL_DATA_WAKE_COUNTER_OFF, CONTROL_SHM_HDR_SIZE in *. simpl in *.
  destruct (run_write (E:=E) 192 (to_le 8 (wrapping_add64 n 1)) (PRet tt) m) as (m' & Hw & Hl & _);
    [len_lia..|].
  exists m'. unfold increment_data_wake_counter, fetch_add64, mbind. cbn [prog_bind run].
  unfold CONTROL_DATA_WAKE_COUNTER_OFF. rewrite Hn, Hw. split; [done|]. split.
  - eapply control_inv_header; [exact C|done|..]; unfold CONTROL_SHM_HDR_SIZE; read_back;
      apply agree_refl.
  - read_back. apply Z.mod_pos_bound. lia.
Qed.
