(* ===== verification/CliShm.v ===== *)
(** The command-line client's side of the control region
    (host/bifrost/src/control_shmem.rs): attaching to it, pushing commands,
    waiting for responses.

    [shm_open], [fstat] and [mmap] are not modelled: an attachment is the
    region's bytes, its [fstat] size and the header decoded from it. *)

From S2P Require Import Prelude Shm Ring ControlShm Utf8.

Local Open Scope Z_scope.

(** ** Code *)

Inductive ControlShmError : Type :=
| BadShmName
| EndpointMissing (pid : Z)
| PermissionDenied (pid : Z)
| ShmOpen (pid : Z)
| Fstat
| MmapFailed
| HeaderDecode (pid : Z) (reason : ControlShmError)
| RegionSizeMismatch (hdr fstat : Z)
| VersionMismatch (got want : Z)
| PidMismatch (got want : Z)
| CmdEntryTooLarge (entry ring : Z)
| CmdRingFullWithPad (free need pad : Z)
| CmdRingFull (free need : Z)
| RspEntryOverrun (head_off len ring_len : Z)
| BadMagic (got want : Z).

Definition KIND_LOAD_PROG : Z := 2.
Definition KIND_AGG_PUSH : Z := 102.
Definition KIND_RECORD_PUSH : Z := 103.
Definition KIND_SELF_TRACE_PUSH : Z := 105.
Definition KIND_PROFILE_SAMPLE : Z := 107.
Definition CONTROL_CAP_LOAD_PROG : Z := Z.shiftl 1 0.

(** The strings of [decode_load_prog_status]'s errors. *)
Inductive StatusError : Type :=
| StatusShort (got : Z)
| StatusDetail (detail_len remainder : Z).

Definition decode_load_prog_status (body : bytes) : outcome StatusError (Z * option bytes) :=
  if len body <? 6 then Throw (StatusShort (len body))
  else
    status ← le_at 4 body 0;
    detail_len ← le_at 2 body 4;
    if len body <? 6 + detail_len then
      rest ← sub64 (len body) 6; Throw (StatusDetail detail_len rest)
    else
      if detail_len =? 0 then Ret (to_signed 32 status, None)
      else
        detail ← slice body 6 (6 + detail_len);
        Ret (to_signed 32 status, Some (from_utf8_lossy detail)).

Record ControlShmHeader : Type := {
  hdr_pid : Z;
  hdr_version : Z;
  hdr_region_size : Z;
  hdr_caps : Z;
  hdr_cmd_ring_off : Z;
  hdr_cmd_ring_len : Z;
  hdr_rsp_ring_off : Z;
  hdr_rsp_ring_len : Z;
  data_shm_name_off : Z;
  data_shm_name_len : Z;
  data_shm_protocol_version : Z;
  data_shm_size : Z;
  data_wakeup_mode : Z;
  data_wake_counter_off : Z
}.

Definition supports_load_prog (h : ControlShmHeader) : bool :=
  negb (Z.land (hdr_caps h) CONTROL_CAP_LOAD_PROG =? 0).
Definition supports_data_shm (h : ControlShmHeader) : bool :=
  negb (Z.land (hdr_caps h) CONTROL_CAP_DATA_SHM =? 0).

(** [ControlShmHeader::decode], over the mapped region. *)
Definition decode_header (m : bytes) : outcome ControlShmError ControlShmHeader :=
  magic ← le_at 8 m 0;
  if negb (magic =? CONTROL_SHM_MAGIC) then Throw (BadMagic magic CONTROL_SHM_MAGIC)
  else
    version ← le_at 4 m 8;
    pid ← le_at 4 m 12;
    region_size ← le_at 8 m 16;
    caps ← le_at 8 m 24;
    cmd_ring_off ← le_at 8 m 32;
    cmd_ring_len ← le_at 8 m 40;
    rsp_ring_off ← le_at 8 m 48;
    rsp_ring_len ← le_at 8 m 56;
    name_off ← le_at 8 m CONTROL_DATA_SHM_META_OFF;
    name_len ← le_at 4 m (CONTROL_DATA_SHM_META_OFF + 8);
    protocol ← le_at 4 m (CONTROL_DATA_SHM_META_OFF + 12);
    data_size ← le_at 8 m (CONTROL_DATA_SHM_META_OFF + 16);
    mode ← le_at 4 m (CONTROL_DATA_SHM_META_OFF + 24);
    wake_off ← le_at 8 m (CONTROL_DATA_SHM_META_OFF + 32);
    Ret {| hdr_pid := pid; hdr_version := version; hdr_region_size := region_size;
           hdr_caps := caps; hdr_cmd_ring_off := cmd_ring_off; hdr_cmd_ring_len := cmd_ring_len;
           hdr_rsp_ring_off := rsp_ring_off; hdr_rsp_ring_len := rsp_ring_len;
           data_shm_name_off := name_off; data_shm_name_len := name_len;
           data_shm_protocol_version := protocol; data_shm_size := data_size;
           data_wakeup_mode := mode; data_wake_counter_off := wake_off |}.

(** [open_exact] once the region is mapped. *)
Definition open_mapped (m : bytes) (target_pid : Z) : outcome ControlShmError ControlShmHeader :=
  match decode_header m with
  | Ret header =>
      if negb (hdr_region_size header =? len m)
      then Throw (RegionSizeMismatch (hdr_region_size header) (len m))
      else if negb (hdr_version header =? CONTROL_SHM_VERSION)
      then Throw (VersionMismatch (hdr_version header) CONTROL_SHM_VERSION)
      else if negb (hdr_pid header =? target_pid)
      then Throw (PidMismatch (hdr_pid header) target_pid)
      else Ret header
  | Throw e => Throw (HeaderDecode target_pid e)
  | Panic => Panic
  end.

(** [ControlShmAttachment::open], given what [open_exact] does for each pid
    and the pids [enumerate_observable] found. *)
Definition open_endpoint {A} (open_exact : Z -> result ControlShmError A) (observable : list Z)
    (target_pid : Z) : result ControlShmError A :=
  match open_exact target_pid with
  | Err (EndpointMissing _) =>
      match observable with
      | [alt_pid] =>
          if negb (alt_pid =? target_pid) then open_exact alt_pid
          else Err (EndpointMissing target_pid)
      | _ => Err (EndpointMissing target_pid)
      end
  | other => other
  end.

Definition data_shm_name (h : ControlShmHeader) (m : bytes) : outcome Empty_set (option bytes) :=
  if negb (supports_data_shm h) || (data_shm_name_len h =? 0) then Ret None
  else
    match checked_add64 (data_shm_name_off h) (data_shm_name_len h) with
    | None => Ret None
    | Some e =>
        if len m <? e then Ret None
        else
          name ← slice m (data_shm_name_off h) (data_shm_name_off h + data_shm_name_len h);
          Ret (Some (from_utf8_lossy name))
    end.

Definition data_wake_counter (h : ControlShmHeader) (m : bytes) : outcome Empty_set (option Z) :=
  if data_wake_counter_off h =? 0 then Ret None
  else
    match checked_add64 (data_wake_counter_off h) 8 with
    | None => Ret None
    | Some e =>
        if len m <? e then Ret None
        else v ← le_at 8 m (data_wake_counter_off h); Ret (Some v)
    end.

(** The rings, from the header. *)
Definition cli_cmd_ring (h : ControlShmHeader) : Ring :=
  {| ring_off := hdr_cmd_ring_off h; ring_len := hdr_cmd_ring_len h;
     prod_cell := 64; cons_cell := 72 |}.
Definition cli_rsp_ring (h : ControlShmHeader) : Ring :=
  {| ring_off := hdr_rsp_ring_off h; ring_len := hdr_rsp_ring_len h;
     prod_cell := 80; cons_cell := 88 |}.

Definition cmd_errors : PushErrors ControlShmError :=
  {| too_large := CmdEntryTooLarge; full_with_pad := CmdRingFullWithPad; full := CmdRingFull |}.

(** [push_cmd]: the process-wide [SEQ] counter is threaded through; it moves
    even when the push fails. *)
Definition push_cmd (h : ControlShmHeader) (kind : Z) (payload : bytes) (SEQ : Z)
  : prog Empty_set (result ControlShmError Z * Z) :=
  let seq := SEQ in
  let SEQ := wrapping_add64 SEQ 1 in
  o ← ptry (ring_push (cli_cmd_ring h) cmd_errors kind seq payload);
  mret (match o with Ok _ => Ok seq | Err e => Err e end, SEQ).

(** [poll_rsp]: [passes] is how many times the deadline check at the top of
    the loop passes; an empty ring only sleeps. *)
Fixpoint poll_rsp (h : ControlShmHeader) (wanted_seq : option Z) (passes : nat)
  : prog ControlShmError (option Entry) :=
  match passes with
  | O => mret None
  | S passes =>
      s ← ring_step (cli_rsp_ring h);
      match s with
      | Empty | Skipped => poll_rsp h wanted_seq passes
      | Malformed head_off n => PThrow (RspEntryOverrun head_off n (hdr_rsp_ring_len h))
      | Got (kind, seq, payload) =>
          match wanted_seq with
          | Some w => if w =? seq then mret (Some (kind, seq, payload))
                      else poll_rsp h wanted_seq passes
          | None => mret (Some (kind, seq, payload))
          end
      end
  end.

Definition drain_rsp_ring {E} (h : ControlShmHeader) (fuel : nat) : prog E (option (list Entry)) :=
  ring_drain (cli_rsp_ring h) fuel.

(** ** Attaching to a region *)

(** The layout a header gives. *)
Definition header_layout (h : ControlShmHeader) : RingLayout :=
  {| cmd_ring_off := hdr_cmd_ring_off h; cmd_ring_len := hdr_cmd_ring_len h;
     rsp_ring_off := hdr_rsp_ring_off h; rsp_ring_len := hdr_rsp_ring_len h |}.

(** What the client made of a header. *)
Definition header_is (m : bytes) (h : ControlShmHeader) : Prop :=
  header_says m (hdr_pid h) (hdr_region_size h) (hdr_caps h) (header_layout h)
    (data_shm_name_off h) (data_shm_name_len h) (data_shm_protocol_version h)
    (data_shm_size h) (data_wakeup_mode h) (data_wake_counter_off h) /\
  hdr_version h = CONTROL_SHM_VERSION.

Lemma le_at_bound {E} m off v : le_at (E:=E) 8 m off = Ret v -> v <= U64_MAX.
Proof.
  intros H. destruct (le_at_Ret _ _ _ _ H) as (_ & _ & Hv). unfold in_u, U64_MAX in *. simpl in Hv. lia.
Qed.

Lemma le_at_any {E F} n m off v : le_at (E:=E) n m off = Ret v -> le_at (E:=F) n m off = Ret v.
Proof. intros H. eapply agree_le_at; [exact H|apply agree_refl|done]. Qed.

Lemma decode_header_is m h : header_is m h -> decode_header m = Ret h.
Proof.
  intros [[Hm ? ? ? ? ? ? ? ? ? ? ? ? ? ?] Hv]. unfold decode_header.
  rewrite (le_at_any _ _ _ _ Hm), bind_Ret.
  rewrite Z.eqb_refl. simpl negb. cbv iota. unfold CONTROL_DATA_SHM_META_OFF.
  change (128 + 8) with 136. change (128 + 12) with 140. change (128 + 16) with 144.
  change (128 + 24) with 152. change (128 + 32) with 160.
  repeat match goal with
  | H : le_at ?n m ?o = Ret ?v |- (le_at ?n m ?o ≫= _) = _ =>
      rewrite (le_at_any _ _ _ _ H), bind_Ret
  end.
  rewrite <- Hv. by destruct h.
Qed.

Lemma decode_header_Ret m h :
  decode_header m = Ret h -> hdr_version h = CONTROL_SHM_VERSION -> header_is m h.
Proof.
  unfold decode_header. intros H Hv.
  destruct (le_at 8 m 0) as [magic|?|] eqn:Hm; try discriminate H. rewrite bind_Ret in H.
  destruct (Z.eqb_spec magic CONTROL_SHM_MAGIC) as [->|]; [|discriminate H]. simpl negb in H.
  cbv iota in H. split_ret H. injection H as <-. simpl in Hv. subst. split; [|done].
  split; simpl; by eapply le_at_any.
Qed.

Lemma open_mapped_is m h pid :
  header_is m h -> hdr_region_size h = len m ->
  open_mapped m pid =
    if hdr_pid h =? pid then Ret h else Throw (PidMismatch (hdr_pid h) pid).
Proof.
  intros H Hs. unfold open_mapped. rewrite (decode_header_is m h H), Hs, Z.eqb_refl.
  destruct H as [_ ->]. simpl. by destruct (hdr_pid h =? pid).
Qed.

Lemma open_mapped_Ret m h pid :
  open_mapped m pid = Ret h -> header_is m h /\ hdr_region_size h = len m /\ hdr_pid h = pid.
Proof.
  unfold open_mapped. destruct (decode_header m) as [h'|e|] eqn:Hd; try done.
  destruct (Z.eqb_spec (hdr_region_size h') (len m)); [|done].
  destruct (Z.eqb_spec (hdr_version h') CONTROL_SHM_VERSION); [|done].
  destruct (Z.eqb_spec (hdr_pid h') pid); [|done]. intros [= <-].
  split; [by apply decode_header_Ret|done].
Qed.

(** The header of a region that says so. *)
Definition make_header (pid size caps : Z) (l : RingLayout)
    (name_off name_len proto data_size mode wake_off : Z) : ControlShmHeader :=
  {| hdr_pid := pid; hdr_version := CONTROL_SHM_VERSION; hdr_region_size := size;
     hdr_caps := caps; hdr_cmd_ring_off := cmd_ring_off l; hdr_cmd_ring_len := cmd_ring_len l;
     hdr_rsp_ring_off := rsp_ring_off l; hdr_rsp_ring_len := rsp_ring_len l;
     data_shm_name_off := name_off; data_shm_name_len := name_len;
     data_shm_protocol_version := proto; data_shm_size := data_size; data_wakeup_mode := mode;
     data_wake_counter_off := wake_off |}.

Lemma open_says m pid pid' size caps l a b c d e f :
  header_says m pid size caps l a b c d e f -> len m = size ->
  open_mapped m pid' =
    if pid =? pid' then Ret (make_header pid size caps l a b c d e f)
    else Throw (PidMismatch pid pid').
Proof.
  intros H Hl. rewrite (open_mapped_is m (make_header pid size caps l a b c d e f)); [done| |done].
  split; [by destruct l|done].
Qed.

(** a region that [ControlShm::create] made is accepted by the client
    that opens the same pid and refused, with the pid it holds, for any
    other; the client sees exactly the rings the conduit uses, a control
    channel and no data SHM, and both rings are empty. *)
Theorem create_then_open size pid l :
  compute_ring_layout size = Ret l -> in_u 32 pid -> 0 <= size < 2 ^ 63 ->
  let v := {| region_size := size; view_layout := l |} in
  exists m h, create false (Some size) pid = Ret (Some (v, m)) /\
    open_mapped m pid = Ret h /\
    (forall pid', pid' <> pid -> open_mapped m pid' = Throw (PidMismatch pid pid')) /\
    cli_cmd_ring h = cmd_ring v /\ cli_rsp_ring h = rsp_ring v /\
    supports_load_prog h = true /\ data_shm_name h m = Ret None /\
    data_wake_counter h m = Ret None /\
    control_inv v m fresh fresh.
Proof.
  intros Hl Hp Hs v. destruct (created size pid l Hl Hp Hs) as (m & Hc & Hi & Hh & _).
  pose proof (fun pid' => open_says m pid pid' _ _ _ _ _ _ _ _ _ Hh (ci_len _ _ _ _ Hi)) as Ho.
  eexists m, _. split; [done|]. split; [by rewrite Ho, Z.eqb_refl|]. split.
  - intros pid' Hne. rewrite Ho. destruct (Z.eqb_spec pid pid'); [congruence|done].
  - done.
Qed.

(** What an attachment reads of a published name. *)
Lemma name_read h m name :
  supports_data_shm h = true -> data_shm_name_len h = len name -> 0 < len name ->
  len m <= U64_MAX -> utf8_valid name = true ->
  slice (E:=Empty_set) m (data_shm_name_off h) (data_shm_name_off h + len name) = Ret name ->
  data_shm_name h m = Ret (Some name).
Proof.
  intros Hs Hl Hn Hm Hu Hr. pose proof (slice_Ret _ _ _ _ Hr) as (_ & Hle & _).
  unfold data_shm_name. rewrite Hs, Hl. destruct (Z.eqb_spec (len name) 0); [lia|]. simpl orb.
  cbv iota. unfold checked_add64. destruct (Z.leb_spec (data_shm_name_off h + len name) U64_MAX); [|lia].
  destruct (Z.ltb_spec (len m) (data_shm_name_off h + len name)); [lia|].
  by rewrite Hr, bind_Ret, from_utf8_lossy_valid.
Qed.

Lemma caps_data_shm c : Z.land (Z.lor c CONTROL_CAP_DATA_SHM) CONTROL_CAP_DATA_SHM <> 0.
Proof.
  change CONTROL_CAP_DATA_SHM with 2. intros H.
  assert (Hb : Z.testbit (Z.land (Z.lor c 2) 2) 1 = true)
    by (rewrite Z.land_spec, Z.lor_spec; apply orb_true_r || (simpl; by rewrite orb_true_r)).
  rewrite H in Hb. discriminate.
Qed.

(** after the conduit publishes a data SHM, an attached client reads
    back its name, its size and a zero wake counter, the rings and their
    contents are untouched, and a name too long for its slot is refused
    without touching the region. *)
Theorem publish_then_name v m hc hr pid h name dsize :
  control_inv v m hc hr -> open_mapped m pid = Ret h ->
  0 < len name -> utf8_valid name = true -> in_u 64 dsize ->
  if CONTROL_DATA_SHM_NAME_MAX <? len name
  then run (publish_data_shm name dsize) m = (Throw (NameTooLong (len name)), m)
  else exists m' h', run (publish_data_shm name dsize) m = (Ret tt, m') /\
    open_mapped m' pid = Ret h' /\ header_layout h' = header_layout h /\
    data_shm_name h' m' = Ret (Some name) /\ data_shm_size h' = dsize /\
    data_wake_counter h' m' = Ret (Some 0) /\ control_inv v m' hc hr.
Proof.
  intros Hi (His & Hs & Hp)%open_mapped_Ret Hn Hu Hd.
  destruct (Z.ltb_spec CONTROL_DATA_SHM_NAME_MAX (len name)) as [Hlt|Hge].
  { unfold publish_data_shm. by rewrite (proj2 (Z.ltb_lt _ _) Hlt). }
  destruct His as [Hsay Hv].
  destruct (published v m hc hr _ _ _ _ _ _ _ _ _ _ name dsize Hi Hsay Hge Hd)
    as (m' & Hr & Hi' & Hsay' & Hname & Hwake).
  set (h' := make_header (hdr_pid h) (hdr_region_size h) (Z.lor (hdr_caps h) CONTROL_CAP_DATA_SHM)
    (header_layout h) CONTROL_DATA_SHM_NAME_OFF (len name) CONTROL_DATA_SHM_PROTOCOL_VERSION
    dsize CONTROL_WAKE_COUNTER CONTROL_DATA_WAKE_COUNTER_OFF).
  exists m', h'. split; [done|].
  assert (Hlen : len m' = len m) by (rewrite (ci_len _ _ _ _ Hi), (ci_len _ _ _ _ Hi'); done).
  assert (Hbig : 4096 < len m').
  { rewrite (ci_len _ _ _ _ Hi'). pose proof (ci_view _ _ _ _ Hi') as [[] _ Hh _].
    unfold CONTROL_SHM_HDR_SIZE in Hh. simpl in *. lia. }
  split; [|split; [done|split; [|split; [done|split; [|done]]]]].
  - rewrite (open_says _ _ pid _ _ _ _ _ _ _ _ _ Hsay') by lia.
    destruct (Z.eqb_spec (hdr_pid h) pid); [done|congruence].
  - apply name_read; [|done|done|rewrite Hlen, <- Hs; apply (le_at_bound _ _ _ (hs_size _ _ _ _ _ _ _ _ _ _ _ Hsay))|done|done].
    unfold supports_data_shm. simpl hdr_caps. pose proof (caps_data_shm (hdr_caps h)).
    by destruct (Z.eqb_spec (Z.land (Z.lor (hdr_caps h) CONTROL_CAP_DATA_SHM) CONTROL_CAP_DATA_SHM) 0).
  - unfold data_wake_counter. simpl data_wake_counter_off.
    change (CONTROL_DATA_WAKE_COUNTER_OFF =? 0) with false. cbv iota.
    change (checked_add64 CONTROL_DATA_WAKE_COUNTER_OFF 8) with (Some 200). cbv iota.
    destruct (Z.ltb_spec (len m') 200); [lia|]. by rewrite Hwake.
Qed.

(** A region of the smallest size. *)
Module SampleRegion.
Definition pid : Z := 4242.
Definition size : Z := CONTROL_SHM_MIN_SIZE.
Definition layout : RingLayout :=
  {| cmd_ring_off := 4096; cmd_ring_len := 65536; rsp_ring_off := 69632; rsp_ring_len := 4096 |}.
Definition view : ControlShmView := {| region_size := size; view_layout := layout |}.
Definition header : ControlShmHeader :=
  make_header pid size CONTROL_CAP_CTRL_PAYLOAD layout 0 0 0 0 0 0.

Lemma ok :
  exists m, create false (Some size) pid = Ret (Some (view, m)) /\
    control_inv view m fresh fresh /\ open_mapped m pid = Ret header /\
    le_at (E:=Empty_set) 8 m CONTROL_DATA_WAKE_COUNTER_OFF = Ret 0.
Proof.
  destruct (created size pid layout) as (m & Hc & Hi & Hh & Hw); [reflexivity|vm_compute; split; congruence..|].
  exists m. split; [exact Hc|]. split; [done|].
  split; [|exact Hw]. by rewrite (open_says _ _ pid _ _ _ _ _ _ _ _ _ Hh (ci_len _ _ _ _ Hi)).
Qed.

Definition name : bytes := map u8b [0x2f; 0x64].

(** Conditions on machine-width values, evaluated. *)
Ltac by_width := vm_compute; repeat split; congruence.
End SampleRegion.

Lemma create_then_open_witness :
  exists m h, create false (Some SampleRegion.size) SampleRegion.pid
                = Ret (Some (SampleRegion.view, m)) /\
    open_mapped m SampleRegion.pid = Ret h /\
    open_mapped m 7 = Throw (PidMismatch SampleRegion.pid 7).
Proof.
  destruct (create_then_open SampleRegion.size SampleRegion.pid SampleRegion.layout)
    as (m & h & H1 & H2 & H3 & _); [reflexivity|SampleRegion.by_width..|].
  exists m, h. split; [exact H1|]. split; [exact H2|]. apply H3. discriminate.
Defined.

Lemma publish_then_name_witness :
  exists m m' h', run (publish_data_shm SampleRegion.name 65536) m = (Ret tt, m') /\
    open_mapped m' SampleRegion.pid = Ret h' /\
    data_shm_name h' m' = Ret (Some SampleRegion.name).
Proof.
  destruct SampleRegion.ok as (m & _ & Hi & Ho & _).
  destruct (publish_then_name SampleRegion.view m fresh fresh SampleRegion.pid
    SampleRegion.header SampleRegion.name 65536 Hi Ho) as (m' & h' & H1 & H2 & _ & H3 & _);
    [reflexivity|reflexivity|SampleRegion.by_width|].
  exists m, m', h'. split; [exact H1|]. split; [exact H2|exact H3].
Defined.

(** ** Waiting for a response *)

Definition matches (wanted : option Z) (e : Entry) : bool :=
  match wanted with Some w => w =? e.1.2 | None => true end.

(** What a poll that ends with [o] has taken out of the ring. *)
Definition taken (o : option Entry) : list Entry := match o with Some e => [e] | None => [] end.

Definition polled (r : Ring) (wanted : option Z) (passes : nat) (s : bytes * History)
    (o : option Entry) (s' : bytes * History) : Prop :=
  ring_inv r s' /\ (exists new, h_pushed s'.2 = h_pushed s.2 ++ new) /\
  (forall p0 P0, ahead r p0 P0 s -> ahead r p0 P0 s') /\
  exists dropped, Forall (fun e => matches wanted e = false) dropped /\
  (length (dropped ++ taken o) <= passes)%nat /\
  h_popped s'.2 = h_popped s.2 ++ dropped ++ taken o /\
  match o with
  | Some e => matches wanted e = true
  | None => h_cons s.2 + 16 * Z.of_nat passes <= h_cons s'.2 \/ h_pushed s.2 `prefix_of` h_popped s'.2
  end.

(** A pass that popped nothing wanted, before a poll. *)
Lemma polled_after r wanted passes s x s1 o s2 :
  ring_inv r s -> stepped r s x s1 -> polled r wanted passes s1 o s2 ->
  match x with
  | Empty | Skipped => polled r wanted (S passes) s o s2
  | Got e => matches wanted e = false -> polled r wanted (S passes) s o s2
  | Malformed _ _ => True
  end.
Proof.
  intros I Hst (I2 & [n2 N2] & A2 & d & Hd & Hl & Ho & Hm). pose proof (step_progress r s x s1 I Hst) as Hp.
  destruct Hst as (I1 & [n1 N1] & [_ A1] & Hx).
  assert (Hnew : exists new, h_pushed s2.2 = h_pushed s.2 ++ new)
    by (exists (n1 ++ n2); by rewrite N2, N1, app_assoc).
  assert (Ha : forall p0 P0, ahead r p0 P0 s -> ahead r p0 P0 s2) by auto.
  assert (Hpre : h_pushed s1.2 `prefix_of` h_popped s2.2 -> h_pushed s.2 `prefix_of` h_popped s2.2)
    by (intros [w Hw]; exists (n1 ++ w); by rewrite Hw, N1, app_assoc).
  destruct x as [| |?|e]; try done.
  - split; [done|]. split; [done|]. split; [done|]. exists d. destruct Hx as (Hc & Hx & He & _).
    split; [done|]. split; [lia|]. split; [congruence|]. destruct o as [e|]; [done|]. right.
    rewrite Ho, He, Hx. by eexists.
  - split; [done|]. split; [done|]. split; [done|]. exists d. destruct Hx as (Hc & Hx).
    split; [done|]. split; [lia|]. split; [congruence|]. destruct o as [e|]; [done|].
    specialize (Hp ltac:(auto)). destruct Hm; [left; lia|auto].
  - intros Hn. split; [done|]. split; [done|]. split; [done|]. exists (e :: d). destruct Hx as (Hc & Hx).
    split; [by constructor|]. split; [simpl; lia|]. split; [by rewrite Ho, Hx, <- app_assoc|].
    destruct o as [e'|]; [done|]. specialize (Hp ltac:(eauto)). destruct Hm; [left; lia|auto].
Qed.

Lemma wp_poll h wanted passes s :
  ring_inv (cli_rsp_ring h) s ->
  wp (prod_may (cli_rsp_ring h)) (cons_does (cli_rsp_ring h)) (poll_rsp h wanted passes) s
    (fun o s' => exists x, o = Ok x /\ polled (cli_rsp_ring h) wanted passes s x s').
Proof.
  revert s. induction passes as [|passes IH]; intros s I.
  { intros s' H'. pose proof H' as [I' _ C' O' _ N' _]. exists None.
    split; [done|]. split; [done|]. split; [done|].
    split; [intros p0 P0; exact (ahead_prod _ _ _ _ _ I H')|]. exists []. split; [done|]. split; [done|]. split; [by rewrite app_nil_r|left; lia]. }
  cbn [poll_rsp]. eapply wp_bind; eauto with ring.
  eapply wp_mono; [by apply wp_ring_step|]. intros o s1 (x & -> & Hst). simpl.
  pose proof Hst as (I1 & N1 & [_ A1] & Hx).
  pose proof (fun o s2 => polled_after (cli_rsp_ring h) wanted passes s x s1 o s2 I Hst) as Hn.
  destruct x as [| |?|[[kind seq] payload]].
  - eapply wp_mono; [by apply IH|]. intros o s2 (y & -> & Hy). eauto.
  - eapply wp_mono; [by apply IH|]. intros o s2 (y & -> & Hy). eauto.
  - done.
  - assert (Hhit : matches wanted (kind, seq, payload) = true ->
      wp (prod_may (cli_rsp_ring h)) (cons_does (cli_rsp_ring h))
        (PRet (E:=ControlShmError) (Some (kind, seq, payload))) s1
        (fun o s' => exists x, o = Ok x /\ polled (cli_rsp_ring h) wanted (S passes) s x s')).
    { intros Hm s2 H2. pose proof H2 as [I2 _ C2 O2 _ [n2 N2] _]. destruct N1 as [n1 N1].
      exists (Some (kind, seq, payload)). split; [done|]. split; [done|].
      split; [exists (n1 ++ n2); by rewrite N2, N1, app_assoc|].
      split; [intros p0 P0 A; exact (ahead_prod _ _ _ _ _ I1 H2 (A1 _ _ A))|].
      exists []. split; [done|]. split; [simpl; lia|]. split; [rewrite O2; apply Hx|done]. }
    destruct wanted as [w|]; [|by apply Hhit].
    destruct (w =? seq) eqn:Hw; [by apply Hhit|].
    eapply wp_mono; [by apply IH|]. intros o s2 (y & -> & Hy). eauto.
Qed.

(** A pass over an empty ring leaves the passes after it to be made. *)
Lemma poll_waits {E A} (p : prog E A) h wanted m hist : ring_inv (cli_rsp_ring h) (m, hist) ->
  h_cons hist = h_prod hist -> forall j passes,
  steps (p, poll_rsp h wanted (j + passes), m) (p, poll_rsp h wanted passes, m).
Proof.
  intros I He j passes. pose proof (inv_prod _ _ I) as Hp. pose proof (inv_cons _ _ I) as Hc.
  cbn [fst snd] in Hp, Hc. rewrite He in Hc. unfold le_at in Hp, Hc.
  destruct (slice m (prod_cell _) _) as [a| |] eqn:Ep; [|done..].
  destruct (slice m (cons_cell _) _) as [b| |] eqn:Ec; [|done..].
  rewrite bind_Ret in Hp, Hc. injection Hp as Hp. injection Hc as Hc.
  induction j as [|j IH]; [apply steps_done|]. cbn [Nat.add poll_rsp]. unfold ring_step, load64, read_le, mbind.
  cbn [prog_bind]. eapply steps_right; [cbn [access]; by rewrite Ep|].
  eapply steps_right; [cbn [access prog_bind]; by rewrite Ec|]. cbn [prog_bind].
  rewrite Hp, Hc, Z.eqb_refl. exact IH.
Qed.

(** C29: in every interleaving with a producer that pushes any sequence of
    responses, [poll_rsp] neither fails nor leaves the region, and in at most
    [passes] passes it ends.  Of the responses that were pending or were
    accepted it has taken the first ones out of the ring, and the rest is still
    there: those with another sequence number, dropped, and, when it returns
    one, the first with the wanted number.  It gives up only when every one of
    its passes took something unwanted (at least 16 bytes) or everything that
    was pending when it began was unwanted and is gone, which is so whenever
    16 bytes per pass cover the ring; over an empty ring it waits: alone, it
    goes through any number of passes and has the others left, the region
    untouched. *)
Theorem poll_rsp_first_match {E} (errs : PushErrors E) h wanted passes es m hist q p' c' m' :
  let r := cli_rsp_ring h in
  ring_inv r (m, hist) -> h_pushed hist = h_popped hist ++ q -> Forall entry_ok es ->
  h_prod hist + Z.of_nat (length es) * ring_len r < 2 ^ 64 ->
  steps (push_all r errs es, poll_rsp h wanted passes, m) (p', c', m') ->
  c' <> PPanic /\ (forall e, c' <> PThrow e) /\
  (forall acc x, p' = PRet acc -> c' = PRet x ->
    exists dropped rest hist', Forall (fun e => matches wanted e = false) dropped /\
      q ++ acc = dropped ++ taken x ++ rest /\ (length (dropped ++ taken x) <= passes)%nat /\
      ring_inv r (m', hist') /\ h_pushed hist' = h_pushed hist ++ acc /\
      h_popped hist' = h_popped hist ++ dropped ++ taken x /\
      match x with
      | Some e => matches wanted e = true
      | None =>
          (h_cons hist + 16 * Z.of_nat passes <= h_cons hist' \/ q `prefix_of` dropped) /\
          (ring_len r <= 16 * Z.of_nat passes -> q `prefix_of` dropped)
      end) /\
  (h_cons hist = h_prod hist -> forall j,
    steps (push_all r errs es, poll_rsp h wanted (j + passes), m)
          (push_all r errs es, poll_rsp h wanted passes, m)).
Proof.
  intros r I Hq He Hw Hst.
  pose proof (wp_push_all r errs es (m, hist) I He Hw) as H1.
  pose proof (wp_poll h wanted passes (m, hist) I) as H2.
  eapply wp_par in Hst as (h' & H1' & H2' & R1 & R2); try exact H1; try exact H2; eauto with ring.
  simpl in H1', H2', R1, R2. split; [by eapply wp_not_panic|]. split.
  { intros e ->. by destruct (H2' _ R2) as (x & ? & _). }
  split; [|intros Hi j; by apply (poll_waits _ h wanted m hist I Hi)].
  intros acc x -> ->. destruct (H1' _ R1) as (acc' & [= <-] & _ & _ & Hp & _).
  destruct (H2' _ R2) as (y & [= <-] & I' & _ & Ha & d & Hd & Hl & Hx & Hm).
  pose proof I' as [_ _ _ IR' _ _ (q' & Hq' & S')]. pose proof I as [[Wl _ _ _ _] _ _ IR _ _ _]. simpl in *.
  assert (Eq : q ++ acc = d ++ taken x ++ q').
  { rewrite Hp, Hq, Hx, <- !app_assoc in Hq'. by apply app_inv_head in Hq'. }
  exists d, q', h'. split_and!; [done|done|done|done|done|done|].
  destruct x as [e|]; [done|]. cbn [taken] in *. rewrite app_nil_r in Hx. rewrite Hq, Hx in Hm.
  assert (Hpre : h_popped hist ++ q `prefix_of` h_popped hist ++ d -> q `prefix_of` d)
    by apply prefix_app_inv.
  split; [destruct Hm; [by left|right; by apply Hpre]|]. intros Hr.
  destruct Hm as [Hm|Hm]; [|by apply Hpre]. apply Hpre. rewrite <- Hq, <- Hx.
  apply (ahead_passed r (h_prod hist) _ (m', h') I'); [apply Ha, (ahead_here r _ I)|simpl; lia].
Qed.

(** With the region to itself and passes enough for the ring, a poll finds
    the first wanted entry of the ring. *)
Lemma poll_run h wanted passes m hist dropped e rest :
  let r := cli_rsp_ring h in
  ring_inv r (m, hist) -> h_pushed hist = h_popped hist ++ dropped ++ e :: rest ->
  Forall (fun e => matches wanted e = false) dropped -> matches wanted e = true ->
  ring_len r < 16 * Z.of_nat passes ->
  exists m' hist', run (poll_rsp h wanted passes) m = (Ret (Some e), m') /\
    cons_does r (m, hist) (m', hist') /\ h_popped hist' = h_popped hist ++ dropped ++ [e].
Proof.
  intros r I Hq Hd Hm Hf.
  pose proof (wp_poll h wanted passes (m, hist) I) as Hwp. fold r in Hwp.
  eapply wp_run in Hwp as (o & m' & h' & Hr & Hg & Hx); eauto with ring.
  destruct Hx as (x & -> & I' & _ & _ & d & Hd' & _ & Hx & Hm'). simpl in Hr. rewrite Hr.
  pose proof Hg as [[_ _ Gp Gu _ _ _] _ _]. simpl in *.
  pose proof I as [_ _ _ IR _ _ _]. pose proof I' as [_ _ _ IR' _ _ (q' & Hq' & _)]. simpl in *.
  rewrite Gu, Hq in Hq'. destruct x as [e'|].
  - cbn [taken] in Hx. rewrite Hx, <- !app_assoc in Hq'. apply app_inv_head in Hq'.
    assert (dropped = d /\ e = e') as [-> ->]; [|eauto].
    { clear -Hd Hd' Hm Hm' Hq'. revert d Hd' Hq'.
      induction dropped as [|a l IH]; intros [|b d] Hd' Hq'; simpl in Hq';
        inversion Hq'; subst; [done|..].
      - inversion Hd'; congruence.
      - inversion Hd; congruence.
      - inversion Hd; inversion Hd'; subst. by destruct (IH ltac:(done) d) as [-> ->]. }
  - cbn [taken] in Hx. rewrite app_nil_r in Hx. destruct Hm' as [Hl|[w Hw]]; [lia|]. exfalso.
    rewrite Hx, Hq, <- app_assoc in Hw. apply app_inv_head in Hw.
    assert (e ∈ d). { rewrite Hw. apply elem_of_app. left. apply elem_of_app. right. by left. }
    rewrite list.Forall_forall in Hd'. rewrite (Hd' e) in Hm by done. done.
Qed.

(** ** Commands *)

(** A ring whose consumer has caught up. *)
Lemma drained_error {E} (errs : PushErrors E) r p n :
  0 < ring_len r -> 0 <= n ->
  push_error r errs p p n =
    if ring_len r <? entry_total n then Some (too_large errs (entry_total n) (ring_len r))
    else if tail_of r p <? entry_total n then
      if ring_len r <? tail_of r p + entry_total n
      then Some (full_with_pad errs (ring_len r) (tail_of r p + entry_total n) (tail_of r p))
      else None
    else None.
Proof.
  intros Hl Hn. unfold push_error. cbv zeta. replace (ring_len r - (p - p)) with (ring_len r) by lia.
  destruct (Z.ltb_spec (ring_len r) (entry_total n)); [done|].
  destruct (Z.ltb_spec (tail_of r p) (entry_total n)); [done|].
  pose proof (tail_range r Hl p). destruct (Z.ltb_spec (ring_len r) (entry_total n)); [lia|done].
Qed.

Lemma half_ring_fits {E} (errs : PushErrors E) r p n :
  0 < ring_len r -> 0 <= n -> 2 * entry_total n <= ring_len r -> push_error r errs p p n = None.
Proof.
  intros Hl Hn Hh. pose proof (entry_total_spec n Hn) as [_ Ht]. rewrite drained_error by lia.
  destruct (Z.ltb_spec (ring_len r) (entry_total n)); [lia|].
  destruct (Z.ltb_spec (tail_of r p) (entry_total n)); [|done].
  destruct (Z.ltb_spec (ring_len r) (tail_of r p + entry_total n)); [lia|done].
Qed.

Lemma push_cmd_ok v m hc hr h kind payload SEQ :
  control_inv v m hc hr -> cli_cmd_ring h = cmd_ring v ->
  entry_ok (kind, SEQ, payload) -> h_prod hc + ring_len (cmd_ring v) < 2 ^ 64 ->
  push_error (cmd_ring v) cmd_errors (h_prod hc) (h_cons hc) (len payload) = None ->
  exists m', run (push_cmd h kind payload SEQ) m = (Ret (Ok SEQ, wrapping_add64 SEQ 1), m') /\
    control_inv v m' (after_push (cmd_ring v) hc (kind, SEQ, payload)) hr /\ header_agree m m'.
Proof.
  intros C Hring He Hw Hok. unfold push_cmd. rewrite Hring.
  pose proof (ring_push_run (cmd_ring v) cmd_errors m hc kind SEQ payload (ci_cmd _ _ _ _ C) He Hw) as Hpush.
  rewrite Hok in Hpush. destruct Hpush as (m' & Hr & _ & Hd).
  destruct (cmd_push_frame v _ _ _ _ _ C Hd) as [C' Ha].
  exists m'. cbv zeta. by rewrite run_bind, run_ptry, Hr.
Qed.

(** a command that [push_cmd] accepts is, unchanged and after the
    commands still pending, what the conduit's next drain returns, with the
    sequence number the caller was given; a command it refuses leaves the
    region as it was, and the response ring is never touched. *)
Theorem push_cmd_then_drain v m hc hr h kind payload SEQ pending fuel :
  control_inv v m hc hr -> cli_cmd_ring h = cmd_ring v ->
  entry_ok (kind, SEQ, payload) -> h_prod hc + ring_len (cmd_ring v) < 2 ^ 64 ->
  h_pushed hc = h_popped hc ++ pending -> ring_len (cmd_ring v) < 16 * Z.of_nat fuel ->
  match push_error (cmd_ring v) cmd_errors (h_prod hc) (h_cons hc) (len payload) with
  | Some e => run (push_cmd h kind payload SEQ) m = (Ret (Err e, wrapping_add64 SEQ 1), m)
  | None => exists m' m'' hc'',
      run (push_cmd h kind payload SEQ) m = (Ret (Ok SEQ, wrapping_add64 SEQ 1), m') /\
      run (E:=Empty_set) (drain_cmds v fuel) m'
        = (Ret (Some (pending ++ [(kind, SEQ, payload)])), m'') /\
      control_inv v m'' hc'' hr /\ h_pushed hc'' = h_popped hc''
  end.
Proof.
  intros C Hring He Hw Hp Hf. unfold push_cmd. rewrite Hring.
  pose proof (ring_push_run (cmd_ring v) cmd_errors m hc kind SEQ payload (ci_cmd _ _ _ _ C) He Hw) as Hpush.
  destruct (push_error _ _ _ _ _) as [x|] eqn:Hx.
  { cbv zeta. by rewrite run_bind, run_ptry, Hpush. }
  destruct (push_cmd_ok v m hc hr h kind payload SEQ C Hring He Hw Hx) as (m' & Hr & C' & _).
  unfold push_cmd in Hr. rewrite Hring in Hr. rewrite Hr. pose proof (ci_cmd _ _ _ _ C') as I'.
  destruct (ring_drain_run (F:=Empty_set) (cmd_ring v) m' _ (pending ++ [(kind, SEQ, payload)]) fuel I')
    as (m'' & Hr' & I'' & Hd'); [by simpl; rewrite Hp, app_assoc|done|].
  destruct (cmd_pop_frame v _ _ _ _ _ C' Hd') as [C'' _].
  exists m', m'', (after_drain (after_push (cmd_ring v) hc (kind, SEQ, payload))). done.
Qed.

(** C38: once the conduit has drained the command ring, a command whose entry
    takes at most half the ring is accepted wherever the ring's positions
    are; for the conduit's 64 KB ring that is every payload of up to 32752
    bytes. *)
Theorem half_ring_command_accepted v m hc hr h kind payload SEQ :
  control_inv v m hc hr -> cli_cmd_ring h = cmd_ring v ->
  entry_ok (kind, SEQ, payload) -> h_prod hc + ring_len (cmd_ring v) < 2 ^ 64 ->
  h_cons hc = h_prod hc -> 2 * entry_total (len payload) <= ring_len (cmd_ring v) ->
  exists m', run (push_cmd h kind payload SEQ) m = (Ret (Ok SEQ, wrapping_add64 SEQ 1), m').
Proof.
  intros C Hring He Hw Hc Hh. pose proof (ci_cmd _ _ _ _ C) as [[Wl _ _ _ _] _ _ _ _ _ _].
  destruct (push_cmd_ok v m hc hr h kind payload SEQ C Hring He Hw) as (m' & Hr & _); [|eauto].
  rewrite Hc. by apply half_ring_fits; [|apply len_nonneg|].
Qed.

(** an entry that fits the ring but not its tail, and that with the tail
    exceeds the ring, is refused as "ring full" even when the conduit has
    drained everything; the refusal changes neither position, so every
    retry is refused as well. *)
Theorem drained_ring_refuses v m hc hr h kind payload SEQ :
  let total := entry_total (len payload) in
  let tail := tail_of (cmd_ring v) (h_prod hc) in
  let R := ring_len (cmd_ring v) in
  control_inv v m hc hr -> cli_cmd_ring h = cmd_ring v ->
  entry_ok (kind, SEQ, payload) -> h_prod hc + R < 2 ^ 64 ->
  h_cons hc = h_prod hc -> total <= R -> tail < total -> R < tail + total ->
  run (push_cmd h kind payload SEQ) m
    = (Ret (Err (CmdRingFullWithPad R (tail + total) tail), wrapping_add64 SEQ 1), m).
Proof.
  intros total tail R C Hring He Hw Hc Hfit Htail Hbig. unfold push_cmd. rewrite Hring.
  pose proof (ring_push_run (cmd_ring v) cmd_errors m hc kind SEQ payload (ci_cmd _ _ _ _ C) He Hw) as Hpush.
  pose proof (ci_cmd _ _ _ _ C) as [[Wl _ _ _ _] _ _ _ _ _ _].
  pose proof (len_nonneg payload).
  rewrite Hc, drained_error in Hpush by (done || lia). fold total tail R in Hpush.
  rewrite (proj2 (Z.ltb_ge _ _) Hfit), (proj2 (Z.ltb_lt _ _) Htail), (proj2 (Z.ltb_lt _ _) Hbig) in Hpush.
  cbv zeta. by rewrite run_bind, run_ptry, Hpush.
Qed.

(** *** Witnesses *)

Module SampleTraffic.
Definition push_msg : Entry := (KIND_AGG_PUSH, 0, map u8b [1; 2; 3]).
Definition reply : Entry := (KIND_RSP_PAYLOAD, 7, map u8b [9]).
Definition pushes : list Entry := [push_msg; reply].

(** A header with a 64-byte response ring, and its region. *)
Definition small : ControlShmHeader :=
  make_header 1 160 0
    {| cmd_ring_off := 0; cmd_ring_len := 0; rsp_ring_off := 96; rsp_ring_len := 64 |} 0 0 0 0 0 0.
Definition small_region : bytes := replicate 160 (u8b 0).
Definition after_pushes : bytes :=
  snd (run (push_all (cli_rsp_ring small) rsp_errors pushes) small_region).
Definition after_poll : bytes := snd (run (poll_rsp small (Some 7) 3) after_pushes).

Lemma small_ok : ring_inv (cli_rsp_ring small) (small_region, fresh).
Proof.
  apply fresh_ring; [|vm_compute; reflexivity..].
  split; try SampleRegion.by_width. exists 4. reflexivity.
Qed.

Lemma pushes_ok : Forall entry_ok pushes.
Proof. repeat constructor; vm_compute; congruence. Qed.

(** The command ring after a 40000-byte command was pushed and drained. *)
Definition big : bytes := replicate (Z.to_nat 40000) (u8b 5).
Definition huge : bytes := replicate (Z.to_nat 50000) (u8b 6).
Definition moved : History :=
  after_drain (after_push (cmd_ring SampleRegion.view) fresh (KIND_LOAD_PROG, 1, big)).

Lemma moved_ok : exists m, control_inv SampleRegion.view m moved fresh.
Proof.
  destruct SampleRegion.ok as (m & _ & C & _).
  pose proof (ring_push_run (cmd_ring SampleRegion.view) cmd_errors m fresh
    KIND_LOAD_PROG 1 big (ci_cmd _ _ _ _ C)) as H.
  replace (push_error _ _ _ _ _) with (@None ControlShmError) in H by (vm_compute; reflexivity).
  destruct H as (m' & _ & I' & Hd); [SampleRegion.by_width..|].
  destruct (cmd_push_frame _ _ _ _ _ _ C Hd) as [C' _].
  destruct (ring_drain_run (F:=Empty_set) (cmd_ring SampleRegion.view) m' _
    [(KIND_LOAD_PROG, 1, big)] 4097 I') as (m'' & _ & _ & Hd'); [done|SampleRegion.by_width|].
  destruct (cmd_pop_frame _ _ _ _ _ _ C' Hd') as [C'' _]. by exists m''.
Qed.
End SampleTraffic.

Lemma poll_rsp_first_match_witness :
  exists dropped rest hist',
    Forall (fun e => matches (Some 7) e = false) dropped /\
    SampleTraffic.pushes = dropped ++ SampleTraffic.reply :: rest /\
    ring_inv (cli_rsp_ring SampleTraffic.small) (SampleTraffic.after_poll, hist') /\
    h_popped hist' = dropped ++ [SampleTraffic.reply].
Proof.
  destruct (poll_rsp_first_match rsp_errors SampleTraffic.small (Some 7) 3 SampleTraffic.pushes
    SampleTraffic.small_region fresh [] (PRet SampleTraffic.pushes)
    (PRet (Some SampleTraffic.reply)) SampleTraffic.after_poll SampleTraffic.small_ok eq_refl
    SampleTraffic.pushes_ok)
    as (_ & _ & H & _).
  - vm_compute. reflexivity.
  - eapply (run_left _ _ _ SampleTraffic.after_pushes SampleTraffic.pushes);
      [vm_compute; reflexivity|].
    eapply (run_right _ _ _ SampleTraffic.after_poll); [vm_compute; reflexivity|apply steps_done].
  - destruct (H _ _ eq_refl eq_refl) as (dropped & rest & hist' & H1 & H2 & _ & H3 & _ & H4 & _).
    exists dropped, rest, hist'. split; [exact H1|]. split; [exact H2|]. split; [exact H3|exact H4].
Defined.

Lemma push_cmd_then_drain_witness :
  exists m m' m'' hc'',
    run (push_cmd SampleRegion.header KIND_LOAD_PROG SampleRegion.name 1) m
      = (Ret (Ok 1, 2), m') /\
    run (E:=Empty_set) (drain_cmds SampleRegion.view 4097) m'
      = (Ret (Some [(KIND_LOAD_PROG, 1, SampleRegion.name)]), m'') /\
    control_inv SampleRegion.view m'' hc'' fresh /\ h_pushed hc'' = h_popped hc''.
Proof.
  destruct SampleRegion.ok as (m & _ & C & _). exists m.
  apply (push_cmd_then_drain SampleRegion.view m fresh fresh SampleRegion.header
    KIND_LOAD_PROG SampleRegion.name 1 [] 4097 C eq_refl); [SampleRegion.by_width..|reflexivity|].
  vm_compute. reflexivity.
Defined.

Lemma half_ring_command_accepted_witness :
  exists m m', run (push_cmd SampleRegion.header KIND_LOAD_PROG SampleRegion.name 1) m
                 = (Ret (Ok 1, 2), m').
Proof.
  destruct SampleRegion.ok as (m & _ & C & _). exists m.
  apply (half_ring_command_accepted SampleRegion.view m fresh fresh
    SampleRegion.header KIND_LOAD_PROG SampleRegion.name 1 C eq_refl);
    [SampleRegion.by_width|SampleRegion.by_width|reflexivity|SampleRegion.by_width].
Defined.

Lemma drained_ring_refuses_witness :
  exists m, run (push_cmd SampleRegion.header KIND_LOAD_PROG SampleTraffic.huge 2) m
    = (Ret (Err (CmdRingFullWithPad (ring_len (cmd_ring SampleRegion.view))
         (tail_of (cmd_ring SampleRegion.view) (h_prod SampleTraffic.moved)
            + entry_total (len SampleTraffic.huge))
         (tail_of (cmd_ring SampleRegion.view) (h_prod SampleTraffic.moved))),
       wrapping_add64 2 1), m).
Proof.
  destruct SampleTraffic.moved_ok as [m C]. exists m.
  apply (drained_ring_refuses SampleRegion.view m SampleTraffic.moved fresh SampleRegion.header
    KIND_LOAD_PROG SampleTraffic.huge 2 C eq_refl);
    [SampleRegion.by_width|vm_compute; reflexivity|vm_compute; reflexivity|vm_compute; congruence
    |vm_compute; reflexivity|vm_compute; reflexivity].
Defined.
