(* ===== verification/Conduit.v ===== *)
(** The conduit core (host/virtio-conduit/src/lib.rs) and its worker thread
    (shmem/consumer.rs, shmem/state.rs): control payloads on their way from
    the command ring to the guest's control queue, guest events on their way
    to the response ring, and the binding of the data SHM.

    The state is the [ConduitCore] and the control region.  A mutex is never
    poisoned.  Event descriptors are counted: [doorbell] and [ctrl_kicks] are
    how often each was written; [ctrl_event] is whether the worker was given
    the control queue's.  The worker is started by
    [handle_event_buffer]; [worker_pass] is one pass of its loop, with what
    reading the doorbell and poking the wake FIFO returned as arguments. *)

From S2P Require Import Prelude Shm Ring ControlShm CliShm.

Local Open Scope Z_scope.

(** ** Code *)

Definition TYPE_CONDUIT : Z := 42.
Definition VQ_CTRL : Z := 0.
Definition VQ_EVENT : Z := 1.
Definition VQ_DOORBELL : Z := 2.
Definition VIRTIO_SHM_REGION_SIZE : Z := 16 * 1024 * 1024.

Record VirtioShmRegionInfo : Type := {
  host_addr : Z;
  guest_addr : Z;
  shm_size : Z
}.

Record HostShmem : Type := {
  shm_base : Z;
  shm_region_size : Z
}.
Definition contiguous (base size : Z) : HostShmem :=
  {| shm_base := base; shm_region_size := size |}.

Record ConduitCore : Type := {
  avail_features : Z;
  acked_features : Z;
  initial_payload_sent : bool;
  pending_payloads : list (Z * bytes);
  shmem : option HostShmem;
  shmem_consumer_running : bool;
  doorbell : Z;
  ctrl_event : bool;
  ctrl_kicks : Z;
  wake_fifo_fd : Z;
  control_shm : option ControlShmView;
  virtio_shm_region : option VirtioShmRegionInfo
}.

(** [new], given what [ControlShm::create] returned and what [mkfifo] and
    [open] returned to the [open_wake_fifo] at its end. *)
Definition new_core (created : outcome LayoutError (option (ControlShmView * bytes)))
    (mkfifo : option Z) (open_fd : Z) : ConduitCore * bytes :=
  let core v fd := {| avail_features := 0; acked_features := 0; initial_payload_sent := false;
    pending_payloads := []; shmem := None; shmem_consumer_running := false; doorbell := 0;
    ctrl_event := false; ctrl_kicks := 0; wake_fifo_fd := fd; control_shm := v;
    virtio_shm_region := None |} in
  match created with
  | Ret (Some (v, m)) => (core (Some v) (open_wake_fifo mkfifo open_fd (-1)), m)
  | _ => (core None (-1), [])
  end.

Section Setters.
Context (c : ConduitCore).

Definition with_pending (sent : bool) (q : list (Z * bytes)) : ConduitCore :=
  {| avail_features := avail_features c; acked_features := acked_features c;
     initial_payload_sent := sent; pending_payloads := q; shmem := shmem c;
     shmem_consumer_running := shmem_consumer_running c; doorbell := doorbell c;
     ctrl_event := ctrl_event c; ctrl_kicks := ctrl_kicks c; wake_fifo_fd := wake_fifo_fd c;
     control_shm := control_shm c; virtio_shm_region := virtio_shm_region c |}.
Definition with_shmem (s : HostShmem) (running event : bool) : ConduitCore :=
  {| avail_features := avail_features c; acked_features := acked_features c;
     initial_payload_sent := initial_payload_sent c; pending_payloads := pending_payloads c;
     shmem := Some s; shmem_consumer_running := running; doorbell := doorbell c;
     ctrl_event := event; ctrl_kicks := ctrl_kicks c; wake_fifo_fd := wake_fifo_fd c;
     control_shm := control_shm c; virtio_shm_region := virtio_shm_region c |}.
Definition with_signals (running : bool) (bell kicks fd : Z) : ConduitCore :=
  {| avail_features := avail_features c; acked_features := acked_features c;
     initial_payload_sent := initial_payload_sent c; pending_payloads := pending_payloads c;
     shmem := shmem c; shmem_consumer_running := running; doorbell := bell;
     ctrl_event := ctrl_event c; ctrl_kicks := kicks; wake_fifo_fd := fd;
     control_shm := control_shm c; virtio_shm_region := virtio_shm_region c |}.
Definition with_region (acked : Z) (region : option VirtioShmRegionInfo) : ConduitCore :=
  {| avail_features := avail_features c; acked_features := acked;
     initial_payload_sent := initial_payload_sent c; pending_payloads := pending_payloads c;
     shmem := shmem c; shmem_consumer_running := shmem_consumer_running c;
     doorbell := doorbell c; ctrl_event := ctrl_event c; ctrl_kicks := ctrl_kicks c;
     wake_fifo_fd := wake_fifo_fd c; control_shm := control_shm c;
     virtio_shm_region := region |}.
End Setters.

Definition state : Type := ConduitCore * bytes.

(** Run a program on the control region and look at its [Result]. *)
Definition on_region {E A} (p : prog E A) : st state Empty_set (result E A) := fun s =>
  match run p (snd s) with
  | (Ret a, m) => (Ret (Ok a), (fst s, m))
  | (Throw e, m) => (Ret (Err e), (fst s, m))
  | (Panic, m) => (Panic, (fst s, m))
  end.
Definition modify_core (f : ConduitCore -> ConduitCore) : st state Empty_set unit :=
  st_modify (fun s => (f (fst s), snd s)).
Definition get_core : st state Empty_set ConduitCore := st_gets fst.

Definition set_acked_features (f : Z) : st state Empty_set unit :=
  modify_core (fun c => with_region c f (virtio_shm_region c)).

Definition set_virtio_shm_region (region : VirtioShmRegionInfo) (host_name : option bytes)
  : st state Empty_set unit :=
  c ← get_core;
  (match control_shm c, host_name with
   | Some v, Some name => r ← on_region (publish_data_shm name (shm_size region)); mret tt
   | _, _ => mret tt
   end) ;;
  modify_core (fun c => with_region c (acked_features c) (Some region)).

Definition should_process_ctrl (c : ConduitCore) : bool :=
  match pending_payloads c with [] => false | _ => true end.

Definition next_control_payload : st state Empty_set (option bytes) :=
  c ← get_core;
  match pending_payloads c with
  | [] => mret None
  | (_, payload) :: q =>
      modify_core (fun c => with_pending c true q) ;;
      mret (Some payload)
  end.

(** The guest's control queue: whether it had room, and what it received. *)
Class ControlQueue (Q : Type) : Type := {
  write_next_with : bytes -> Q -> bool * Q;
  received : Q -> list bytes
}.
Class ControlQueueLaws (Q : Type) `{ControlQueue Q} : Prop := {
  write_received : forall payload q,
    received (snd (write_next_with payload q)) =
      received q ++ (if fst (write_next_with payload q) then [payload] else [])
}.

(** [process_control_queue]: every pass pops a pending payload, so one pass
    more than there are payloads is enough. *)
Fixpoint process_loop {Q} `{ControlQueue Q} (fuel : nat) (queue : Q) (used : bool)
  : st state Empty_set (option (bool * Q)) :=
  match fuel with
  | O => mret None
  | S fuel =>
      o ← next_control_payload;
      match o with
      | None => mret (Some (used, queue))
      | Some payload =>
          let '(wrote, queue) := write_next_with payload queue in
          if negb wrote then
            modify_core (fun c => with_pending c (initial_payload_sent c)
                                    ((0, payload) :: pending_payloads c)) ;;
            mret (Some (used, queue))
          else process_loop fuel queue true
      end
  end.
Definition process_control_queue {Q} `{ControlQueue Q} (queue : Q)
  : st state Empty_set (option (bool * Q)) :=
  c ← get_core;
  process_loop (S (length (pending_payloads c))) queue false.

Definition notify_doorbell : st state Empty_set unit :=
  modify_core (fun c => with_signals c (shmem_consumer_running c) (doorbell c + 1)
                          (ctrl_kicks c) (wake_fifo_fd c)).

(** [process_doorbell_queue] on a queue with [n] descriptors. *)
Definition process_doorbell_queue (n : nat) : st state Empty_set bool :=
  notify_doorbell ;;
  mret (match n with O => false | _ => true end).

Definition stop : st state Empty_set unit :=
  modify_core (fun c => with_signals c false (doorbell c) (ctrl_kicks c) (wake_fifo_fd c)) ;;
  notify_doorbell.

(** The host SHM a DATA_SHM_READY event binds, if it is accepted. *)
Definition ready_shmem (c : ConduitCore) (region_size wire_n_pages : Z) : option HostShmem :=
  if wire_n_pages =? 0 then
    match virtio_shm_region c with
    | Some region =>
        if region_size <=? shm_size region
        then Some (contiguous (host_addr region) region_size) else None
    | None => None
    end
  else None.

(** [handle_event_buffer]; starting the worker is setting
    [shmem_consumer_running] and giving it the event descriptor, if there is
    one ([vq_ctrl_event]). *)
Definition handle_event_buffer (buf : bytes) (vq_ctrl_event : bool) : st state Empty_set unit :=
  if len buf <? 8 then mret tt
  else
    op ← st_lift (le_at 4 buf 0);
    if (op =? OP_CTRL_RESPONSE) && (12 <=? len buf) then
      seq ← st_lift (le_at 8 buf 4);
      body ← st_lift (slice buf 12 (len buf));
      c ← get_core;
      match control_shm c with
      | Some v => r ← on_region (push_rsp v KIND_RSP_PAYLOAD seq body); mret tt
      | None => mret tt
      end
    else if negb (op =? OP_DATA_SHM_READY) || (len buf <? 12) then mret tt
    else
      region_size ← st_lift (le_at 4 buf 4);
      wire_n_pages ← st_lift (le_at 4 buf 8);
      c ← get_core;
      match ready_shmem c region_size wire_n_pages with
      | Some s => modify_core (fun c => with_shmem c s true
                    (if shmem_consumer_running c then ctrl_event c else vq_ctrl_event))
      | None => mret tt
      end.

(** [process_event_queue] on the buffers the queue yields. *)
Definition process_event_queue (bufs : list bytes) (vq_ctrl_event : bool)
  : st state Empty_set bool :=
  st_forM bufs (fun buf => handle_event_buffer buf vq_ctrl_event) ;;
  mret (match bufs with [] => false | _ => true end).

(** ** The worker *)

Definition kick_ctrl : st state Empty_set unit :=
  modify_core (fun c => with_signals c (shmem_consumer_running c) (doorbell c)
                          (if ctrl_event c then ctrl_kicks c + 1 else ctrl_kicks c)
                          (wake_fifo_fd c)).
Definition queue_payload (seq : Z) (payload : bytes) : st state Empty_set unit :=
  modify_core (fun c => with_pending c (initial_payload_sent c)
                          (pending_payloads c ++ [(seq, payload)])).

Definition handle_cmd (v : ControlShmView) (e : Entry) : st state Empty_set unit :=
  let '(kind, seq, payload) := e in
  if kind =? KIND_CTRL_PAYLOAD then
    queue_payload seq payload ;;
    kick_ctrl ;;
    r ← on_region (push_rsp v KIND_RSP_OK seq []); mret tt
  else if kind =? KIND_CTRL_PAYLOAD_REQ then
    queue_payload seq (payload ++ to_le 8 seq) ;;
    kick_ctrl
  else st_lift Panic.

(** One pass of [shmem_consumer_thread]'s loop; [None]: the drain was still
    running after [fuel] passes.  [rang]: the doorbell had been rung. *)
Definition worker_pass (fuel : nat) (rang : bool) (fifo_write : option Z)
  : st state Empty_set (option unit) :=
  c ← get_core;
  if negb (shmem_consumer_running c) then mret (Some tt)
  else
    o ← (match control_shm c with
         | Some v =>
             r ← on_region (E:=Empty_set) (drain_cmds v fuel);
             match r with
             | Ok (Some cmds) => st_forM cmds (handle_cmd v) ;; mret (Some tt)
             | _ => mret None
             end
         | None => mret (Some tt)
         end);
    match o with
    | None => mret None
    | Some _ =>
        match rang, control_shm c with
        | true, Some _ =>
            c ← get_core;
            r ← on_region (E:=Empty_set)
                  (increment_data_wake_counter fifo_write (wake_fifo_fd c));
            (match r with
             | Ok fd => modify_core (fun c => with_signals c (shmem_consumer_running c)
                                                (doorbell c) (ctrl_kicks c) fd)
             | Err _ => mret tt
             end) ;;
            mret (Some tt)
        | _, _ => mret (Some tt)
        end
    end.

(** ** Payloads to the guest *)

Section Control.
Context {Q : Type} `{HL : ControlQueueLaws Q}.

Lemma process_loop_spec q : forall fuel c m (queue : Q) used,
  pending_payloads c = q -> (length q < fuel)%nat ->
  exists c' queue' delivered,
    process_loop fuel queue used (c, m)
      = (Ret (Some (match delivered with [] => used | _ => true end, queue')), (c', m)) /\
    received queue' = received queue ++ delivered /\
    map snd q = delivered ++ map snd (pending_payloads c') /\
    (pending_payloads c' = [] \/
     exists payload queue1, head (map snd (pending_payloads c')) = Some payload /\
       fst (write_next_with payload queue1) = false) /\
    control_shm c' = control_shm c /\ shmem c' = shmem c.
Proof.
  induction q as [|[seq payload] q IH]; intros fuel c m queue used Hq Hf;
    (destruct fuel as [|fuel]; [simpl in Hf; lia|]); cbn [process_loop];
    unfold next_control_payload, mbind, st_bind, get_core, st_gets; cbn [fst]; rewrite Hq.
  - exists c, queue, []. simpl. rewrite Hq, app_nil_r. auto 6.
  - unfold modify_core, st_modify. cbn [fst snd mret st_ret].
    pose proof (write_received payload queue) as Hw.
    destruct (write_next_with payload queue) as [[|] queue1] eqn:Hwr; cbn [negb fst snd] in *.
    + simpl in Hf.
      destruct (IH fuel (with_pending c true q) m queue1 true) as (c' & queue' & d & Hr & H1 & H2 & H3 & H4);
        [done|lia|].
      exists c', queue', (payload :: d). rewrite Hr.
      split; [by destruct d|]. split; [by rewrite H1, Hw, <- app_assoc|].
      split; [simpl; by rewrite H2|done].
    + exists (with_pending c true ((0, payload) :: q)), queue1, [].
      rewrite app_nil_r in *. split; [done|]. split; [done|]. split; [done|]. split; [|done].
      right. exists payload, queue. simpl. by rewrite Hwr.
Qed.

(** C37: [process_control_queue] terminates and loses, duplicates or reorders
    nothing: what the guest's queue received now, followed by what is still
    pending, is what was pending; it stops because nothing is pending or
    because the queue refused the first payload left, it reports whether it
    delivered anything, and it does not touch the control region. *)
Theorem control_queue_conserves c m (queue : Q) :
  exists c' queue' delivered,
    process_control_queue queue (c, m)
      = (Ret (Some (match delivered with [] => false | _ => true end, queue')), (c', m)) /\
    received queue' = received queue ++ delivered /\
    map snd (pending_payloads c) = delivered ++ map snd (pending_payloads c') /\
    (pending_payloads c' = [] \/
     exists payload queue1, head (map snd (pending_payloads c')) = Some payload /\
       fst (write_next_with payload queue1) = false).
Proof.
  destruct (process_loop_spec (pending_payloads c) (S (length (pending_payloads c))) c m queue false)
    as (c' & queue' & d & H1 & H2 & H3 & H4 & _); [done|lia|].
  exists c', queue', d. auto.
Qed.
End Control.

(** A queue with a number of free descriptors. *)
Definition SlotQueue : Type := nat * list bytes.
#[export] Instance slot_queue : ControlQueue SlotQueue := {|
  write_next_with payload q :=
    match fst q with
    | O => (false, q)
    | S n => (true, (n, snd q ++ [payload]))
    end;
  received := snd
|}.
#[export] Instance slot_queue_laws : ControlQueueLaws SlotQueue.
Proof. split. intros payload [[|n] l]; simpl; by rewrite ?app_nil_r. Qed.

(** ** Responses to the client *)

Section Responses.
Context (v : ControlShmView).

Lemma push_rsp_on_region c m hc hr kind seq payload :
  control_inv v m hc hr -> entry_ok (kind, seq, payload) ->
  h_prod hr + ring_len (rsp_ring v) < 2 ^ 64 ->
  exists r m' hr', on_region (push_rsp v kind seq payload) (c, m) = (Ret r, (c, m')) /\
    control_inv v m' hc hr' /\ header_agree m m' /\
    match push_error (rsp_ring v) rsp_errors (h_prod hr) (h_cons hr) (len payload) with
    | None => r = Ok tt /\ hr' = after_push (rsp_ring v) hr (kind, seq, payload)
    | Some e => r = Err e /\ hr' = hr /\ m' = m
    end.
Proof.
  intros C He Hw. unfold on_region, push_rsp. cbn [fst snd].
  pose proof (ring_push_run (rsp_ring v) rsp_errors m hr kind seq payload (ci_rsp _ _ _ _ C) He Hw) as H.
  destruct (push_error _ _ _ _ _) as [e|].
  - rewrite H. eexists _, m, hr. pose proof (header_agree_refl m). eauto 6.
  - destruct H as (m' & -> & _ & Hd). destruct (rsp_push_frame v _ _ _ _ _ C Hd) as [C' Ha].
    eexists _, m', _. eauto 6.
Qed.

Lemma seg_entries_ok r m c p q : seg r m c p q -> Forall entry_ok q.
Proof. induction 1; [done|done|by constructor]. Qed.

(** What the worker queues for the guest, and the acknowledgement it owes. *)
Definition forwarded (e : Entry) : Z * bytes :=
  let '(kind, seq, payload) := e in
  if kind =? KIND_CTRL_PAYLOAD then (seq, payload) else (seq, payload ++ to_le 8 seq).
Definition acks (e : Entry) : list Entry :=
  let '(kind, seq, _) := e in
  if kind =? KIND_CTRL_PAYLOAD then [(KIND_RSP_OK, seq, [])] else [].
Definition known (e : Entry) : Prop :=
  e.1.1 = KIND_CTRL_PAYLOAD \/ e.1.1 = KIND_CTRL_PAYLOAD_REQ.

(** How many empty responses a ring has room for: each takes the 16 bytes of
    its header, which never straddle the end of the ring. *)
Definition ack_room (r : Ring) (h : History) : nat :=
  Z.to_nat ((ring_len r - (h_prod h - h_cons h)) / 16).

(** The response ring after the acknowledgements [q]: it has taken as many of
    them, the first ones, as it had room for. *)
Definition after_acks (r : Ring) (h : History) (q : list Entry) : History :=
  let sent := take (ack_room r h) q in
  {| h_cons := h_cons h; h_prod := h_prod h + 16 * len sent;
     h_pushed := h_pushed h ++ sent; h_popped := h_popped h |}.

Lemma after_acks_none r h : after_acks r h [] = h.
Proof.
  destruct h as [c p x y]. unfold after_acks. cbn zeta. rewrite take_nil. cbn. by rewrite Z.add_0_r, app_nil_r.
Qed.

Lemma after_acks_app r h q1 q2 :
  h_prod h - h_cons h <= ring_len r ->
  after_acks r (after_acks r h q1) q2 = after_acks r h (q1 ++ q2).
Proof.
  intros Hr. unfold after_acks. cbn [h_cons h_prod h_pushed h_popped].
  set (k := ack_room r h). rewrite take_app.
  assert (Hk : ack_room r {| h_cons := h_cons h; h_prod := h_prod h + 16 * len (take k q1);
      h_pushed := h_pushed h ++ take k q1; h_popped := h_popped h |} = (k - length (take k q1))%nat).
  { unfold ack_room. cbn [h_cons h_prod].
    replace (ring_len r - (h_prod h + 16 * len (take k q1) - h_cons h))
      with (ring_len r - (h_prod h - h_cons h) + - len (take k q1) * 16) by lia.
    rewrite Z.div_add by lia. unfold k, ack_room, len. lia. }
  rewrite Hk. replace (k - length (take k q1))%nat with (k - length q1)%nat by (rewrite length_take; lia).
  rewrite len_app. f_equal; [lia|by rewrite app_assoc].
Qed.

Lemma after_acks_one m hc hr e : control_inv v m hc hr -> len e.2 = 0 ->
  match push_error (rsp_ring v) rsp_errors (h_prod hr) (h_cons hr) (len e.2) with
  | None => after_acks (rsp_ring v) hr [e] = after_push (rsp_ring v) hr e
  | Some _ => after_acks (rsp_ring v) hr [e] = hr
  end.
Proof.
  intros C He. pose proof (ci_rsp _ _ _ _ C) as [[Wl Wa _ _ _] _ _ IR _ [_ IA] _]. cbn [fst snd] in *.
  rewrite He. set (r := rsp_ring v) in *. pose proof (tail_16 r Wl _ Wa IA) as Ht.
  assert (H16 : entry_total 0 = 16) by reflexivity.
  assert (Hl : 16 <= ring_len r) by (destruct Wa as [k Hk]; lia).
  unfold push_error, after_acks, after_push, need, entry_len, ack_room. cbn zeta. rewrite He, H16.
  destruct (Z.ltb_spec (ring_len r) 16); [lia|]. destruct (Z.ltb_spec (tail_of r (h_prod hr)) 16); [lia|].
  set (room := ring_len r - (h_prod hr - h_cons hr)).
  destruct (Z.ltb_spec room 16) as [Hlt|Hge].
  - rewrite Z.div_small by lia. cbn. destruct hr. cbn. by rewrite Z.add_0_r, app_nil_r.
  - assert (1 <= room / 16) by (apply Z.div_le_lower_bound; lia).
    destruct (Z.to_nat (room / 16)) as [|k] eqn:Ek; [lia|]. cbn [take]. by rewrite take_nil.
Qed.

(** How often the control queue is kicked for [n] commands. *)
Definition kicks_for (c : ConduitCore) (n : Z) : Z := if ctrl_event c then n else 0.

(** [core_adds c c' q]: [c'] is [c] with [q] queued and the control queue
    kicked for each. *)
Definition core_adds (c c' : ConduitCore) (q : list (Z * bytes)) : Prop :=
  c' = with_signals (with_pending c (initial_payload_sent c) (pending_payloads c ++ q))
         (shmem_consumer_running c) (doorbell c) (ctrl_kicks c + kicks_for c (len q))
         (wake_fifo_fd c).

Lemma core_adds_one c x :
  core_adds c (with_signals (with_pending c (initial_payload_sent c) (pending_payloads c ++ [x]))
    (shmem_consumer_running c) (doorbell c)
    (if ctrl_event c then ctrl_kicks c + 1 else ctrl_kicks c) (wake_fifo_fd c)) [x].
Proof. unfold core_adds, kicks_for. destruct (ctrl_event c); [done|]. by rewrite Z.add_0_r. Qed.

Lemma handle_cmd_spec c m hc hr e :
  control_inv v m hc hr -> entry_ok e -> known e ->
  h_prod hr + ring_len (rsp_ring v) < 2 ^ 64 ->
  exists c' m', handle_cmd v e (c, m) = (Ret tt, (c', m')) /\
    core_adds c c' [forwarded e] /\ control_inv v m' hc (after_acks (rsp_ring v) hr (acks e)) /\
    header_agree m m'.
Proof.
  intros C He Hk Hw. destruct e as [[kind seq] payload]. unfold handle_cmd, forwarded, acks, known in *.
  simpl in Hk. destruct (Z.eqb_spec kind KIND_CTRL_PAYLOAD) as [->|Hne].
  - unfold mbind, st_bind. cbn.
    destruct (push_rsp_on_region
      (with_signals (with_pending c (initial_payload_sent c) (pending_payloads c ++ [(seq, payload)]))
        (shmem_consumer_running c) (doorbell c)
        (if ctrl_event c then ctrl_kicks c + 1 else ctrl_kicks c) (wake_fifo_fd c))
      m hc hr KIND_RSP_OK seq [] C) as (r & m' & hr' & Hr & C' & Ha & Hcase); [|done|].
    { destruct He as (_ & _ & Hs & _). split; [vm_compute; split; congruence|].
      split; [discriminate|]. split; [done|vm_compute; split; congruence]. }
    rewrite Hr. eexists _, m'. split; [reflexivity|]. split; [apply core_adds_one|].
    pose proof (after_acks_one m hc hr (KIND_RSP_OK, seq, []) C eq_refl) as Hone.
    cbn [snd] in Hone. destruct (push_error _ _ _ _ _) as [e|].
    + destruct Hcase as (_ & -> & _). by rewrite Hone.
    + destruct Hcase as (_ & ->). by rewrite Hone.
  - destruct Hk as [Hk|Hk]; [done|]. subst kind. cbn. rewrite after_acks_none.
    eexists _, m. split; [reflexivity|].
    split; [exact (core_adds_one c _)|]. split; [done|]. apply header_agree_refl.
Qed.

Lemma core_adds_app c c1 c2 q1 q2 :
  core_adds c c1 q1 -> core_adds c1 c2 q2 -> core_adds c c2 (q1 ++ q2).
Proof.
  unfold core_adds, kicks_for. intros -> ->. destruct c as [? ? ? ? ? ? ? []].
  all: unfold with_signals, with_pending; simpl; rewrite ?len_app, app_assoc; f_equal; lia.
Qed.

Lemma handle_cmds_spec cmds : forall c m hc hr,
  control_inv v m hc hr -> Forall entry_ok cmds -> Forall known cmds ->
  h_prod hr + Z.of_nat (length cmds) * ring_len (rsp_ring v) < 2 ^ 64 ->
  exists c' m', st_forM cmds (handle_cmd v) (c, m) = (Ret tt, (c', m')) /\
    core_adds c c' (map forwarded cmds) /\
    control_inv v m' hc (after_acks (rsp_ring v) hr (flat_map acks cmds)) /\ header_agree m m'.
Proof.
  induction cmds as [|e cmds IH]; intros c m hc hr C Ho Hk Hw.
  { exists c, m. cbn. rewrite after_acks_none. split; [done|].
    split; [|split; [done|apply header_agree_refl]].
    unfold core_adds, kicks_for. destruct c as [? ? ? ? ? ? ? []]; unfold with_signals, with_pending, len;
      simpl; rewrite app_nil_r; f_equal; lia. }
  apply list.Forall_cons in Ho as [Ho1 Ho]. apply list.Forall_cons in Hk as [Hk1 Hk].
  pose proof (ci_rsp _ _ _ _ C) as [[Wl Wa _ _ _] _ _ IR _ _ _]. cbn [fst snd] in *. simpl length in Hw.
  destruct (handle_cmd_spec c m hc hr e C Ho1 Hk1) as (c1 & m1 & Hr1 & A1 & C1 & Ha1); [nia|].
  destruct (IH c1 m1 hc _ C1 Ho Hk) as (c2 & m2 & Hr2 & A2 & C2 & Ha2).
  { cbn [after_acks h_prod]. assert (len (take (ack_room (rsp_ring v) hr) (acks e)) <= 1).
    { unfold len. rewrite length_take. destruct e as [[k q] x]. unfold acks. destruct (k =? _); simpl; lia. }
    destruct Wa as [k Hk']. nia. }
  exists c2, m2. cbn [st_forM flat_map]. unfold mbind, st_bind. rewrite Hr1, Hr2.
  split; [done|]. split; [exact (core_adds_app _ _ _ _ _ A1 A2)|].
  rewrite after_acks_app in C2 by lia. split; [done|]. by eapply header_agree_trans.
Qed.

(** The drain of a worker pass. *)
Lemma drain_on_region c m hc hr cmds fuel :
  control_inv v m hc hr -> h_pushed hc = h_popped hc ++ cmds ->
  ring_len (cmd_ring v) < 16 * Z.of_nat fuel ->
  Forall entry_ok cmds /\
  exists m', on_region (E:=Empty_set) (drain_cmds v fuel) (c, m) = (Ret (Ok (Some cmds)), (c, m')) /\
    control_inv v m' (after_drain hc) hr /\ header_agree m m'.
Proof.
  intros C Hq Hf. split.
  { pose proof (ci_cmd _ _ _ _ C) as [_ _ _ _ _ _ (q & Hq' & S)]. simpl in Hq'.
    rewrite Hq in Hq'. apply app_inv_head in Hq' as ->. by eapply seg_entries_ok. }
  destruct (ring_drain_run (F:=Empty_set) (cmd_ring v) m hc cmds fuel (ci_cmd _ _ _ _ C) Hq Hf)
    as (m' & Hr & _ & Hd).
  destruct (cmd_pop_frame v _ _ _ _ _ C Hd) as [C' Ha].
  exists m'. unfold on_region, drain_cmds. cbn [fst snd]. by rewrite Hr.
Qed.
End Responses.

(** The state after a pass. *)
Lemma worker_pass_spec c v m hc hr cmds fuel rang w n :
  shmem_consumer_running c = true -> control_shm c = Some v -> control_inv v m hc hr ->
  h_pushed hc = h_popped hc ++ cmds -> Forall known cmds ->
  ring_len (cmd_ring v) < 16 * Z.of_nat fuel ->
  h_prod hr + Z.of_nat (length cmds) * ring_len (rsp_ring v) < 2 ^ 64 ->
  le_at (E:=Empty_set) 8 m CONTROL_DATA_WAKE_COUNTER_OFF = Ret n ->
  exists m' fd,
    worker_pass fuel rang w (c, m) = (Ret (Some tt),
      (with_signals
         (with_pending c (initial_payload_sent c) (pending_payloads c ++ map forwarded cmds))
         true (doorbell c) (ctrl_kicks c + kicks_for c (len cmds)) fd, m')) /\
    control_inv v m' (after_drain hc) (after_acks (rsp_ring v) hr (flat_map acks cmds)) /\
    le_at (E:=Empty_set) 8 m' CONTROL_DATA_WAKE_COUNTER_OFF
      = Ret (if rang then wrapping_add64 n 1 else n).
Proof.
  intros Hrun Hv C Hq Hk Hf Hw Hn.
  destruct (drain_on_region v c m hc hr cmds fuel C Hq Hf) as (Hok & m1 & Hr1 & C1 & Ha1).
  destruct (handle_cmds_spec v cmds c m1 _ hr C1 Hok Hk Hw) as (c2 & m2 & Hr2 & A2 & C2 & Ha2).
  assert (Hn2 : le_at (E:=Empty_set) 8 m2 CONTROL_DATA_WAKE_COUNTER_OFF = Ret n).
  { eapply wake_counter_kept; [exact C|rewrite (ci_len _ _ _ _ C), (ci_len _ _ _ _ C2); done| |done].
    by eapply header_agree_trans. }
  assert (Hlen : len (map forwarded cmds) = len cmds) by (unfold len; by rewrite length_map).
  unfold core_adds in A2. rewrite Hlen, Hrun in A2.
  unfold worker_pass, get_core, st_gets, mbind, st_bind. cbn [fst snd]. rewrite Hrun, Hv.
  cbn [negb]. rewrite Hr1, Hr2. cbn [mret st_ret fst snd]. destruct rang.
  - destruct (increment_run (E:=Empty_set) v m2 _ _ n w (wake_fifo_fd c2) C2 Hn2) as (m3 & Hr3 & C3 & Hn3).
    unfold on_region. cbn [fst snd]. rewrite Hr3. cbn.
    eexists m3, _. split; [rewrite A2; reflexivity|]. auto.
  - eexists m2, _. split; [rewrite A2; reflexivity|]. auto.
Qed.

(** C28: a pass of the worker over a command ring that holds only the two
    conduit kinds empties the ring and queues every command for the guest
    once and in order, a request with its sequence number appended; it kicks
    the control queue (if it has its descriptor) once per command, and adds
    one to the wake counter exactly when the doorbell had been rung.  Each
    fire-and-forget command is acknowledged on the response ring, in order,
    as long as the ring has 16 bytes for the acknowledgement: the ring has
    taken exactly the first of them that fit, all of them when they fit, and
    nothing else; requests are not acknowledged here. *)
Theorem worker_forwards c v m hc hr cmds fuel rang w n :
  shmem_consumer_running c = true -> control_shm c = Some v -> control_inv v m hc hr ->
  h_pushed hc = h_popped hc ++ cmds -> Forall known cmds ->
  ring_len (cmd_ring v) < 16 * Z.of_nat fuel ->
  h_prod hr + Z.of_nat (length cmds) * ring_len (rsp_ring v) < 2 ^ 64 ->
  le_at (E:=Empty_set) 8 m CONTROL_DATA_WAKE_COUNTER_OFF = Ret n ->
  exists c' m' hr',
    worker_pass fuel rang w (c, m) = (Ret (Some tt), (c', m')) /\
    pending_payloads c' = pending_payloads c ++ map forwarded cmds /\
    ctrl_kicks c' = ctrl_kicks c + kicks_for c (len cmds) /\
    control_inv v m' (after_drain hc) hr' /\
    h_popped hr' = h_popped hr /\
    h_pushed hr' = h_pushed hr ++ take (ack_room (rsp_ring v) hr) (flat_map acks cmds) /\
    (h_prod hr - h_cons hr + 16 * len (flat_map acks cmds) <= ring_len (rsp_ring v) ->
     h_pushed hr' = h_pushed hr ++ flat_map acks cmds) /\
    le_at (E:=Empty_set) 8 m' CONTROL_DATA_WAKE_COUNTER_OFF
      = Ret (if rang then wrapping_add64 n 1 else n).
Proof.
  intros Hrun Hv C Hq Hk Hf Hw Hn.
  destruct (worker_pass_spec c v m hc hr cmds fuel rang w n Hrun Hv C Hq Hk Hf Hw Hn)
    as (m' & fd & Hr & C' & Hn').
  eexists _, m', _. split; [exact Hr|]. split; [done|]. split; [done|]. split; [exact C'|].
  split; [done|]. split; [done|]. split; [|done]. intros Hroom. cbn [after_acks h_pushed].
  rewrite take_ge; [done|]. unfold ack_room. pose proof (len_nonneg (flat_map acks cmds)).
  assert (len (flat_map acks cmds) <= (ring_len (rsp_ring v) - (h_prod hr - h_cons hr)) / 16)
    by (apply Z.div_le_lower_bound; lia).
  unfold len in *. lia.
Qed.

Lemma handle_cmd_unknown v e s : ~ known e -> handle_cmd v e s = (Panic, s).
Proof.
  intros Hu. destruct e as [[kind seq] payload]. unfold known in Hu. simpl in Hu. unfold handle_cmd.
  destruct (Z.eqb_spec kind KIND_CTRL_PAYLOAD); [tauto|].
  destruct (Z.eqb_spec kind KIND_CTRL_PAYLOAD_REQ); [tauto|]. done.
Qed.

(** a command of any other kind stops the worker: the pass that drains
    it panics, whatever was before and after it. *)
Theorem unknown_kind_panics c v m hc hr pre e post fuel rang w :
  shmem_consumer_running c = true -> control_shm c = Some v -> control_inv v m hc hr ->
  h_pushed hc = h_popped hc ++ pre ++ e :: post -> Forall known pre -> ~ known e ->
  ring_len (cmd_ring v) < 16 * Z.of_nat fuel ->
  h_prod hr + Z.of_nat (length pre) * ring_len (rsp_ring v) < 2 ^ 64 ->
  fst (worker_pass fuel rang w (c, m)) = Panic.
Proof.
  intros Hrun Hv C Hq Hk Hun Hf Hw.
  destruct (drain_on_region v c m hc hr _ fuel C Hq Hf) as (Hok & m1 & Hr1 & C1 & _).
  apply Forall_app in Hok as [Hok _].
  destruct (handle_cmds_spec v pre c m1 _ hr C1 Hok Hk Hw) as (c2 & m2 & Hr2 & _).
  unfold worker_pass, get_core, st_gets, mbind, st_bind. cbn [fst snd]. rewrite Hrun, Hv.
  cbn [negb]. rewrite Hr1, (st_forM_Ret _ _ _ _ _ Hr2). cbn [st_forM].
  unfold mbind, st_bind. rewrite handle_cmd_unknown by done. done.
Qed.

(** ** Events from the guest *)

(** The response event: opcode, sequence number, body. *)
Definition response_event (seq body : bytes) : bytes := to_le 4 OP_CTRL_RESPONSE ++ seq ++ body.

Lemma le_at_split {E} n b off v : le_at (E:=E) n b off = Ret v ->
  exists s, slice (E:=E) b off (off + Z.of_nat n) = Ret s /\ s = to_le n v.
Proof. intros H. apply (le_at_slice (F:=E)) in H. eauto. Qed.

Lemma whole_slice {E} (b x : bytes) : slice (E:=E) b 0 (len b) = Ret x -> b = x.
Proof.
  intros H. unfold slice in H. rewrite slice_get_spec in H by (pose_lens; lia).
  injection H as <-. rewrite drop_0, Z.sub_0_r. symmetry. apply take_ge. unfold len. lia.
Qed.

(** The response branch forwards the body to the response ring. *)
Lemma response_handled v c m hc hr seq body ev :
  control_shm c = Some v -> control_inv v m hc hr -> in_u 64 seq -> in_u 32 (len body) ->
  h_prod hr + ring_len (rsp_ring v) < 2 ^ 64 ->
  exists m' hr',
    handle_event_buffer (response_event (to_le 8 seq) body) ev (c, m) = (Ret tt, (c, m')) /\
    control_inv v m' hc hr' /\
    match push_error (rsp_ring v) rsp_errors (h_prod hr) (h_cons hr) (len body) with
    | None => hr' = after_push (rsp_ring v) hr (KIND_RSP_PAYLOAD, seq, body)
    | Some _ => hr' = hr /\ m' = m
    end.
Proof.
  intros Hv C Hs Hb Hw. set (buf := response_event (to_le 8 seq) body).
  assert (Hlen : len buf = 12 + len body) by (unfold buf, response_event; len_lia).
  pose proof (len_nonneg body).
  assert (S0 : suffix_at buf 0 (to_le 4 OP_CTRL_RESPONSE ++ to_le 8 seq ++ body))
    by apply suffix_at_0.
  assert (Hop : le_at (E:=Empty_set) 4 buf 0 = Ret OP_CTRL_RESPONSE)
    by (eapply suffix_at_le; [exact S0|unfold in_u, OP_CTRL_RESPONSE; simpl; lia]).
  adv S0 4. assert (Hseq : le_at (E:=Empty_set) 8 buf 4 = Ret seq)
    by (eapply suffix_at_le; [exact S0|exact Hs]).
  adv S0 12. assert (Hbody : slice (E:=Empty_set) buf 12 (len buf) = Ret body).
  { rewrite <- (app_nil_r body) in S0. eapply suffix_at_slice; [exact S0|lia]. }
  unfold handle_event_buffer. destruct (Z.ltb_spec (len buf) 8); [lia|].
  unfold mbind, st_bind, st_lift, get_core, st_gets. rewrite Hop, Z.eqb_refl.
  destruct (Z.leb_spec 12 (len buf)); [|lia]. cbn [andb]. rewrite Hseq, Hbody. cbn [fst snd].
  rewrite Hv.
  destruct (push_rsp_on_region v c m hc hr KIND_RSP_PAYLOAD seq body C) as (x & m' & hr' & Hr & C' & _ & Hx);
    [split; [vm_compute; split; congruence|split; [discriminate|by split]]|done|].
  rewrite Hr. exists m', hr'. split; [done|]. split; [done|].
  destruct (push_error _ _ _ _ _); tauto.
Qed.

(** [handle_event_buffer] is total: whatever bytes the guest posts, it
    does not panic, keeps both control rings well formed and does one of
    three things: nothing; deliver the body of a response event to the
    response ring under the sequence number the event carries; or bind a
    data SHM no larger than the region the VMM configured, and start the
    worker. *)
Theorem event_buffer_total v c m hc hr buf ev :
  control_shm c = Some v -> control_inv v m hc hr -> in_u 32 (len buf) ->
  h_prod hr + ring_len (rsp_ring v) < 2 ^ 64 ->
  exists c' m' hr', handle_event_buffer buf ev (c, m) = (Ret tt, (c', m')) /\
    control_inv v m' hc hr' /\
    ((c' = c /\ m' = m /\ hr' = hr) \/
     (exists seq body, buf = response_event (to_le 8 seq) body /\ c' = c /\
        hr' = after_push (rsp_ring v) hr (KIND_RSP_PAYLOAD, seq, body)) \/
     (exists size region, virtio_shm_region c = Some region /\ size <= shm_size region /\
        c' = with_shmem c (contiguous (host_addr region) size) true
               (if shmem_consumer_running c then ctrl_event c else ev) /\ m' = m /\ hr' = hr)).
Proof.
  intros Hv C Hb Hw. pose proof (len_nonneg buf).
  destruct (Z.ltb_spec (len buf) 8) as [H8|H8].
  { exists c, m, hr. unfold handle_event_buffer. rewrite (proj2 (Z.ltb_lt _ _) H8).
    split; [done|]. auto. }
  destruct (le_at_ok (E:=Empty_set) 4 buf 0) as (op & Hop & _); [lia|simpl; lia|].
  destruct (decide (op = OP_CTRL_RESPONSE /\ 12 <= len buf)) as [[-> H12]|Hne].
  - destruct (le_at_ok (E:=Empty_set) 8 buf 4) as (seq & Hseq & Hu); [lia|simpl; lia|].
    destruct (slice_ok (E:=Empty_set) buf 12 (len buf)) as (body & Hbody & Hl); [lia|lia|].
    assert (Hbuf : buf = response_event (to_le 8 seq) body).
    { apply (whole_slice (E:=Empty_set)). unfold response_event.
      apply (le_at_slice (F:=Empty_set)) in Hop, Hseq.
      eapply slice_join; [exact Hop|]. eapply slice_join; [exact Hseq|exact Hbody]. }
    destruct (response_handled v c m hc hr seq body ev Hv C Hu) as (m' & hr' & Hr & C' & Hx);
      [unfold in_u in *; lia|done|]. rewrite <- Hbuf in Hr.
    exists c, m', hr'. split; [done|]. split; [done|].
    destruct (push_error _ _ _ _ _); [left; tauto|right; left; eauto].
  - assert (Hcond : (op =? OP_CTRL_RESPONSE) && (12 <=? len buf) = false).
    { apply not_true_iff_false. rewrite andb_true_iff, Z.eqb_eq, Z.leb_le. exact Hne. }
    unfold handle_event_buffer. destruct (Z.ltb_spec (len buf) 8); [lia|].
    unfold mbind, st_bind, st_lift, get_core, st_gets. rewrite Hop, Hcond.
    destruct (negb (op =? OP_DATA_SHM_READY) || (len buf <? 12)) eqn:Hb2.
    { exists c, m, hr. split; [done|]. auto. }
    zbool. destruct (le_at_ok (E:=Empty_set) 4 buf 4) as (size & Hsz & _); [lia|simpl; lia|].
    destruct (le_at_ok (E:=Empty_set) 4 buf 8) as (pages & Hpg & _); [lia|simpl; lia|].
    rewrite Hsz, Hpg. cbn [fst snd].
    unfold ready_shmem. destruct (pages =? 0); [|exists c, m, hr; split; [done|]; auto].
    destruct (virtio_shm_region c) as [region|] eqn:Hreg; [|exists c, m, hr; split; [done|]; auto].
    destruct (Z.leb_spec size (shm_size region)); [|exists c, m, hr; split; [done|]; auto].
    eexists _, m, hr. split; [reflexivity|]. split; [done|]. right. right.
    exists size, region. auto.
Qed.

(** ** A request and its response *)

(** A guest that echoes the trailer of a delivered request in its response
    event, as the conduit's wire contract asks. *)
Definition guest_event (answer : bytes -> bytes) (request : bytes) : bytes :=
  let n := (length request - 8)%nat in
  response_event (drop n request) (answer (take n request)).

Lemma guest_event_echo answer payload seq :
  guest_event answer (payload ++ to_le 8 seq) = response_event (to_le 8 seq) (answer payload).
Proof.
  unfold guest_event. assert (Hn : (length (payload ++ to_le 8 seq) - 8)%nat = length payload).
  { rewrite length_app, (length_len (to_le 8 seq)), len_to_le. simpl. lia. }
  cbv zeta. by rewrite Hn, drop_app_length, take_app_length.
Qed.

(** C7: end to end, starting from drained rings: the client pushes a request
    of at most half the command ring, a worker pass queues it, the control
    queue delivers it to the guest, the guest's response event is handled,
    and the client's poll for the sequence number it was given returns
    exactly the guest's answer to its payload. *)
Theorem request_round_trip c v m hc hr h payload SEQ answer slots log fuel passes w n ev :
  shmem_consumer_running c = true -> control_shm c = Some v -> pending_payloads c = [] ->
  control_inv v m hc hr -> cli_cmd_ring h = cmd_ring v -> cli_rsp_ring h = rsp_ring v ->
  h_pushed hc = h_popped hc -> h_cons hc = h_prod hc ->
  h_pushed hr = h_popped hr -> h_cons hr = h_prod hr ->
  le_at (E:=Empty_set) 8 m CONTROL_DATA_WAKE_COUNTER_OFF = Ret n ->
  in_u 64 SEQ -> in_u 32 (len payload) -> in_u 32 (len (answer payload)) ->
  2 * entry_total (len payload) <= ring_len (cmd_ring v) ->
  2 * entry_total (len (answer payload)) <= ring_len (rsp_ring v) ->
  h_prod hc + ring_len (cmd_ring v) < 2 ^ 64 ->
  h_prod hr + ring_len (rsp_ring v) < 2 ^ 64 ->
  ring_len (cmd_ring v) < 16 * Z.of_nat fuel -> ring_len (rsp_ring v) < 16 * Z.of_nat passes ->
  exists m1 s2 s3 queue s4 m5 request,
    run (push_cmd h KIND_LOAD_PROG payload SEQ) m = (Ret (Ok SEQ, wrapping_add64 SEQ 1), m1) /\
    worker_pass fuel false w (c, m1) = (Ret (Some tt), s2) /\
    process_control_queue (S slots, log) s2 = (Ret (Some (true, queue)), s3) /\
    received queue = log ++ [request] /\
    handle_event_buffer (guest_event answer request) ev s3 = (Ret tt, s4) /\
    run (poll_rsp h (Some SEQ) passes) (snd s4)
      = (Ret (Some (KIND_RSP_PAYLOAD, SEQ, answer payload)), m5).
Proof.
  intros Hrun Hv Hpend C Hcr Hrr Hce Hcp Hre Hrp Hn Hseq Hlen Hans Hfit Hafit Hwc Hwr Hf Hpass.
  pose proof (ci_cmd _ _ _ _ C) as [[Wc _ _ _ _] _ _ _ _ _ _].
  pose proof (ci_rsp _ _ _ _ C) as [[Wr _ _ _ _] _ _ _ _ _ _].
  assert (He : entry_ok (KIND_LOAD_PROG, SEQ, payload))
    by (split; [vm_compute; split; congruence|split; [discriminate|done]]).
  destruct (push_cmd_ok v m hc hr h KIND_LOAD_PROG payload SEQ C Hcr He Hwc) as (m1 & Hr1 & C1 & Ha1).
  { rewrite Hcp. by apply half_ring_fits; [|apply len_nonneg|]. }
  pose proof (wake_counter_kept v m m1 hc hr n C
    ltac:(rewrite (ci_len _ _ _ _ C), (ci_len _ _ _ _ C1); done) Ha1 Hn) as Hn1.
  destruct (worker_pass_spec c v m1 _ hr [(KIND_LOAD_PROG, SEQ, payload)] fuel false w n Hrun Hv C1)
    as (m2 & fd & Hr2 & C2 & _);
    [simpl; by rewrite Hce|constructor; [by right|constructor]|done|simpl length; lia|done|].
  cbn [flat_map acks Z.eqb] in C2. change (KIND_LOAD_PROG =? KIND_CTRL_PAYLOAD) with false in C2.
  cbn [app] in C2. rewrite after_acks_none in C2. set (request := payload ++ to_le 8 SEQ).
  rewrite Hpend in Hr2. change (map forwarded _) with [(SEQ, request)] in Hr2.
  rewrite app_nil_l in Hr2.
  set (c2 := with_signals _ _ _ _ _) in Hr2. set (c3 := with_pending c2 true []).
  destruct (response_handled v c3 m2 _ hr SEQ (answer payload) ev Hv C2 Hseq Hans Hwr)
    as (m4 & hr4 & Hr4 & C4 & Hx).
  rewrite Hrp, half_ring_fits in Hx by (done || apply len_nonneg). subst hr4.
  destruct (poll_run h (Some SEQ) passes m4 (after_push (rsp_ring v) hr (KIND_RSP_PAYLOAD, SEQ, answer payload))
    [] (KIND_RSP_PAYLOAD, SEQ, answer payload) []) as (m5 & hist5 & Hr5 & _);
    [rewrite Hrr; apply C4|simpl; by rewrite Hre|constructor|apply Z.eqb_refl|by rewrite Hrr|].
  exists m1, (c2, m2), (c3, m2), (slots, log ++ [request]), (c3, m4), m5, request.
  split; [done|]. split; [done|]. split; [reflexivity|]. split; [done|].
  unfold request. rewrite guest_event_echo. split; [exact Hr4|exact Hr5].
Qed.

(** *** Witnesses *)

Module SampleCore.
Definition running (pending : list (Z * bytes)) : ConduitCore :=
  {| avail_features := 0; acked_features := 0; initial_payload_sent := false;
     pending_payloads := pending; shmem := None; shmem_consumer_running := true; doorbell := 0;
     ctrl_event := true; ctrl_kicks := 0; wake_fifo_fd := -1;
     control_shm := Some SampleRegion.view; virtio_shm_region := None |}.

(** The sample region with one command in its command ring. *)
Lemma pushed kind : in_u 32 kind -> kind <> KIND_PAD ->
  exists m, control_inv SampleRegion.view m
      (after_push (cmd_ring SampleRegion.view) fresh (kind, 1, SampleRegion.name)) fresh /\
    le_at (E:=Empty_set) 8 m CONTROL_DATA_WAKE_COUNTER_OFF = Ret 0.
Proof.
  intros Hk Hp. destruct SampleRegion.ok as (m & _ & C & _ & Hn).
  destruct (push_cmd_ok SampleRegion.view m fresh fresh SampleRegion.header kind SampleRegion.name 1
    C eq_refl) as (m' & _ & C' & Ha);
    [split; [done|split; [done|SampleRegion.by_width]]|SampleRegion.by_width|reflexivity|].
  exists m'. split; [done|].
  apply (wake_counter_kept SampleRegion.view m m' fresh fresh 0 C); [|done|done].
  by rewrite (ci_len _ _ _ _ C), (ci_len _ _ _ _ C').
Qed.
End SampleCore.

Lemma control_queue_conserves_witness :
  exists c' queue' delivered,
    process_control_queue (1%nat, [])
      (SampleCore.running [(1, map u8b [1]); (2, map u8b [2])], [])
      = (Ret (Some (match delivered with [] => false | _ => true end, queue')), (c', [])) /\
    received queue' = delivered /\
    map u8b [1] :: [map u8b [2]] = delivered ++ map snd (pending_payloads c').
Proof.
  destruct (control_queue_conserves (SampleCore.running [(1, map u8b [1]); (2, map u8b [2])]) []
    (1%nat, [])) as (c' & queue' & d & H1 & H2 & H3 & _).
  exists c', queue', d. split; [exact H1|]. split; [exact H2|exact H3].
Defined.

Lemma worker_forwards_witness :
  exists m c' m' hr',
    worker_pass 4097 true None (SampleCore.running [], m) = (Ret (Some tt), (c', m')) /\
    pending_payloads c' = [(1, SampleRegion.name)] /\
    h_pushed hr' = [(KIND_RSP_OK, 1, [])] /\
    le_at (E:=Empty_set) 8 m' CONTROL_DATA_WAKE_COUNTER_OFF = Ret 1.
Proof.
  destruct (SampleCore.pushed KIND_CTRL_PAYLOAD) as (m & C & Hn); [SampleRegion.by_width..|].
  destruct (worker_forwards (SampleCore.running []) SampleRegion.view m _ fresh
    [(KIND_CTRL_PAYLOAD, 1, SampleRegion.name)] 4097 true None 0 eq_refl eq_refl C eq_refl)
    as (c' & m' & hr' & H1 & H2 & _ & _ & _ & _ & H3 & H4);
    [constructor; [by left|constructor]|SampleRegion.by_width|SampleRegion.by_width|exact Hn|].
  exists m, c', m', hr'. split; [exact H1|]. split; [exact H2|]. split; [|exact H4].
  apply H3. vm_compute. discriminate.
Defined.

Lemma unknown_kind_panics_witness :
  exists m, fst (worker_pass 4097 false None (SampleCore.running [], m)) = Panic.
Proof.
  destruct (SampleCore.pushed 9) as (m & C & Hn); [SampleRegion.by_width..|]. exists m.
  apply (unknown_kind_panics (SampleCore.running []) SampleRegion.view m _ fresh []
    (9, 1, SampleRegion.name) [] 4097 false None eq_refl eq_refl C eq_refl);
    [constructor|intros [H|H]; discriminate H|SampleRegion.by_width|SampleRegion.by_width].
Defined.

Lemma event_buffer_total_witness :
  exists m c' m' hr',
    handle_event_buffer (map u8b [9; 0; 0; 0; 5; 0; 0; 0; 0; 0; 0; 0; 77]) true (SampleCore.running [], m)
      = (Ret tt, (c', m')) /\ control_inv SampleRegion.view m' fresh hr'.
Proof.
  destruct SampleRegion.ok as (m & _ & C & _).
  destruct (event_buffer_total SampleRegion.view (SampleCore.running []) m fresh fresh
    (map u8b [9; 0; 0; 0; 5; 0; 0; 0; 0; 0; 0; 0; 77]) true eq_refl C)
    as (c' & m' & hr' & H1 & H2 & _); [SampleRegion.by_width|SampleRegion.by_width|].
  exists m, c', m', hr'. split; [exact H1|exact H2].
Defined.

Lemma request_round_trip_witness :
  exists m m1 s2 s3 queue s4 m5 request,
    run (push_cmd SampleRegion.header KIND_LOAD_PROG SampleRegion.name 1) m
      = (Ret (Ok 1, wrapping_add64 1 1), m1) /\
    worker_pass 4097 false None (SampleCore.running [], m1) = (Ret (Some tt), s2) /\
    process_control_queue (1%nat, []) s2 = (Ret (Some (true, queue)), s3) /\
    received queue = [] ++ [request] /\
    handle_event_buffer (guest_event id request) true s3 = (Ret tt, s4) /\
    run (poll_rsp SampleRegion.header (Some 1) 257) (snd s4)
      = (Ret (Some (KIND_RSP_PAYLOAD, 1, SampleRegion.name)), m5).
Proof.
  destruct SampleRegion.ok as (m & _ & C & _ & Hn). exists m.
  apply (request_round_trip (SampleCore.running []) SampleRegion.view m fresh fresh
    SampleRegion.header SampleRegion.name 1 id 0 [] 4097 257 None 0 true eq_refl eq_refl eq_refl C
    eq_refl eq_refl eq_refl eq_refl eq_refl eq_refl Hn); SampleRegion.by_width.
Defined.
