(* ===== verification/DataShm.v ===== *)
(** The client's reader of the data SHM (host/bifrost/src/control_shmem.rs,
    [DataShmAttachment]): the header snapshot, the per-CPU consumer cursors,
    and the walk over the records of a sub-ring.

    A reading function works on one image of the region: the bytes it finds
    at the addresses it loads.  The spin on a busy record re-reads the same
    word of that image, so it ends as its first load does. *)

From S2P Require Import Prelude Shm Wire.

Local Open Scope Z_scope.

(** ** Code *)

Record PerCpuShmemState : Type := {
  producer_pos : Z;
  consumer_pos : Z;
  dropped_records : list Z;
  dropped_bytes : list Z
}.

(** [iter().copied().sum()] on [u64]: an overflow panics. *)
Definition sum64 {E} (l : list Z) : outcome E Z :=
  foldr (fun x acc => s ← acc; add64 s x) (Ret 0) (rev l).

Definition dropped_records_total {E} (s : PerCpuShmemState) : outcome E Z := sum64 (dropped_records s).
Definition dropped_bytes_total {E} (s : PerCpuShmemState) : outcome E Z := sum64 (dropped_bytes s).

Record DataShmSnapshot : Type := {
  snap_size : Z;
  snap_magic : Z;
  snap_version : Z;
  ringbuf_off : Z;
  ringbuf_len : Z;
  num_cpus : Z;
  per_cpu_ring_len : Z;
  per_cpu : list PerCpuShmemState;
  total_producer_pos : Z;
  total_consumer_pos : Z;
  btf_off : Z;
  btf_len : Z;
  ksyms_off : Z;
  ksyms_len : Z;
  total_dropped_records : Z;
  total_dropped_bytes : Z;
  dropped_records_by_class : list Z;
  dropped_bytes_by_class : list Z;
  wake_counter : Z
}.

(** [read_u64(base + 8 * c)] for the four drop classes. *)
Definition read_classes {E} (m : bytes) (base : Z) : outcome E (list Z) :=
  c0 ← le_at 8 m (base + 8 * 0);
  c1 ← le_at 8 m (base + 8 * 1);
  c2 ← le_at 8 m (base + 8 * 2);
  c3 ← le_at 8 m (base + 8 * 3);
  Ret [c0; c1; c2; c3].

Definition read_cpu {E} (m : bytes) (cpu_off : Z) : outcome E PerCpuShmemState :=
  records ← read_classes m (cpu_off + 16);
  dbytes ← read_classes m (cpu_off + 48);
  prod ← le_at 8 m cpu_off;
  cons ← le_at 8 m (cpu_off + 8);
  Ret {| producer_pos := prod; consumer_pos := cons; dropped_records := records;
         dropped_bytes := dbytes |}.

(** The loop over the CPUs [cpu .. cpu + n); it stops at the first state
    entry that does not fit the region. *)
Fixpoint read_cpus {E} (m : bytes) (base_off stride cpu : Z) (n : nat)
  : outcome E (list PerCpuShmemState) :=
  match n with
  | O => Ret []
  | S n =>
      cpu_off ← add64 base_off (cpu * stride);
      e ← add64 cpu_off 80;
      if len m <? e then Ret []
      else
        state ← read_cpu m cpu_off;
        rest ← read_cpus m base_off stride (cpu + 1) n;
        Ret (state :: rest)
  end.

Definition zip_saturating (acc l : list Z) : list Z := zip_with saturating_add64 acc l.

Definition snapshot {E} (m : bytes) (wake : Z) : outcome E DataShmSnapshot :=
  num_cpus ← le_at 4 m 80;
  per_cpu_state_stride ← le_at 4 m 84;
  per_cpu_ring_len ← le_at 8 m 88;
  per_cpu_state_off ← le_at 8 m 96;
  let num_cpus_safe := Z.min num_cpus SHMEM_NUM_CPUS_MAX in
  let stride := if per_cpu_state_stride =? 0 then SHMEM_PER_CPU_STATE_STRIDE
                else per_cpu_state_stride in
  let base_off := if per_cpu_state_off =? 0 then SHMEM_PER_CPU_STATE_OFF
                  else per_cpu_state_off in
  per_cpu ← read_cpus m base_off stride 0 (Z.to_nat num_cpus_safe);
  let producer_total := fold_left (fun a s => wrapping_add64 a (producer_pos s)) per_cpu 0 in
  let consumer_total := fold_left (fun a s => wrapping_add64 a (consumer_pos s)) per_cpu 0 in
  let records_by_class :=
    fold_left (fun a s => zip_saturating a (dropped_records s)) per_cpu [0; 0; 0; 0] in
  let bytes_by_class :=
    fold_left (fun a s => zip_saturating a (dropped_bytes s)) per_cpu [0; 0; 0; 0] in
  records_total ← sum64 records_by_class;
  bytes_total ← sum64 bytes_by_class;
  magic ← le_at 4 m 0;
  version ← le_at 4 m 4;
  ringbuf_off ← le_at 8 m 16;
  ringbuf_len ← le_at 8 m 24;
  btf_off ← le_at 8 m 32;
  btf_len ← le_at 8 m 40;
  ksyms_off ← le_at 8 m 48;
  ksyms_len ← le_at 8 m 56;
  Ret {| snap_size := len m; snap_magic := magic; snap_version := version;
         ringbuf_off := ringbuf_off; ringbuf_len := ringbuf_len; num_cpus := num_cpus;
         per_cpu_ring_len := per_cpu_ring_len; per_cpu := per_cpu;
         total_producer_pos := producer_total; total_consumer_pos := consumer_total;
         btf_off := btf_off; btf_len := btf_len; ksyms_off := ksyms_off; ksyms_len := ksyms_len;
         total_dropped_records := records_total; total_dropped_bytes := bytes_total;
         dropped_records_by_class := records_by_class; dropped_bytes_by_class := bytes_by_class;
         wake_counter := wake |}.

Definition per_cpu_state_off_for (snap : DataShmSnapshot) (cpu : Z) : option Z :=
  if per_cpu_ring_len snap =? 0 then None
  else Some (SHMEM_PER_CPU_STATE_OFF + cpu * SHMEM_PER_CPU_STATE_STRIDE).

(** [store_consumer_pos_cpu] on a region of [size] bytes. *)
Definition store_consumer_pos_cpu {E} (size : Z) (snap : DataShmSnapshot) (cpu pos : Z)
  : prog E (option unit) :=
  if num_cpus snap <=? cpu then mret None
  else
    match per_cpu_state_off_for snap cpu with
    | None => mret None
    | Some cpu_off =>
        match checked_add64 cpu_off 8 with
        | None => mret None
        | Some consumer_off =>
            match checked_add64 consumer_off 8 with
            | None => mret None
            | Some e =>
                if size <? e then mret None
                else write_le 8 consumer_off pos ;; mret (Some tt)
            end
        end
    end.

Definition read_region_bytes (m : bytes) (off n : Z) : outcome Empty_set (option bytes) :=
  if n =? 0 then Ret None
  else
    match checked_add64 off n with
    | None => Ret None
    | Some e => if len m <? e then Ret None else s ← slice m off (off + n); Ret (Some s)
    end.

Record RawDataRecordHeader : Type := {
  logical_pos : Z;
  rec_ring_off : Z;
  rec_size : Z;
  rec_flags : Z;
  vmid : option Z;
  probe_id : option Z;
  gns : option Z;
  word3 : option Z
}.
Record RawDataRecord : Type := {
  rec_header : RawDataRecordHeader;
  rec_payload : bytes
}.

(** [read_ring_bytes]: [None] when the ring is empty, shorter than the read
    or not inside the region; the read may wrap around. *)
Definition read_ring_bytes (m : bytes) (ring_off ring_len rel n : Z)
  : outcome Empty_set (option bytes) :=
  if (ring_len =? 0) || (ring_len <? n) then Ret None
  else
    match checked_add64 ring_off ring_len with
    | None => Ret None
    | Some e =>
        if len m <? e then Ret None
        else
          let rel := rel mod ring_len in
          let first := Z.min n (ring_len - rel) in
          a ← slice m (ring_off + rel) (ring_off + rel + first);
          if first <? n then
            b ← slice m ring_off (ring_off + (n - first)); Ret (Some (a ++ b))
          else Ret (Some a)
    end.

(** The first words of the payload, when it has them. *)
Definition head_fields (head : option bytes)
  : outcome Empty_set (option Z * option Z * option Z * option Z) :=
  match head with
  | Some b =>
      vmid ← le_at 4 b 0;
      probe_id ← le_at 4 b 4;
      gns ← le_at 8 b 8;
      word3 ← le_at 8 b 16;
      Ret (Some vmid, Some probe_id, Some gns, Some word3)
  | None => Ret (None, None, None, None)
  end.

(** The loop of [records_between_in_ring]: every pass that goes on pushes a
    record, so [limit] bounds the passes. *)
Fixpoint walk_records (m : bytes) (ring_off ring_len end_pos : Z) (limit : nat) (pos : Z)
  : outcome Empty_set (list RawDataRecord) :=
  match limit with
  | O => Ret []
  | S limit =>
      if pos =? end_pos then Ret []
      else
        rel ← rem64 pos ring_len;
        flags ← le_at 4 m (ring_off + rel + 4);
        if flags =? 0 then Ret []
        else
          hdr ← read_ring_bytes m ring_off ring_len rel 8;
          match hdr with
          | None => Ret []
          | Some hdr =>
              size ← le_at 4 hdr 0;
              head ← (if 24 <=? size then read_ring_bytes m ring_off ring_len (rel + 8) 24
                      else Ret None);
              payload ← read_ring_bytes m ring_off ring_len (rel + 8) size;
              '(vmid, probe_id, gns, word3) ← head_fields head;
              let rec :=
                {| rec_header :=
                     {| logical_pos := pos; rec_ring_off := rel; rec_size := size;
                        rec_flags := flags; vmid := vmid; probe_id := probe_id; gns := gns;
                        word3 := word3 |};
                   rec_payload := default [] payload |} in
              let advance := Z.land (8 + size + 7) (Z.lnot 7) in
              if (advance =? 0) || (ring_len <? advance) then Ret [rec]
              else
                let pos := wrapping_add64 pos advance in
                if end_pos <? pos then Ret [rec]
                else rest ← walk_records m ring_off ring_len end_pos limit pos; Ret (rec :: rest)
          end
  end.

Definition records_between_in_ring (m : bytes) (ring_off ring_len start_pos end_pos : Z)
    (limit : nat) : outcome Empty_set (list RawDataRecord) :=
  if start_pos =? end_pos then Ret []
  else if (ring_len =? 0) || (len m <=? ring_off) then Ret []
  else
    let start_pos :=
      if ring_len <? saturating_sub end_pos start_pos
      then saturating_sub end_pos ring_len else start_pos in
    walk_records m ring_off ring_len end_pos limit start_pos.

Definition records_between_cpu (m : bytes) (cpu start_pos end_pos : Z) (limit : nat)
    (snap : DataShmSnapshot) : outcome Empty_set (list RawDataRecord) :=
  if (num_cpus snap <=? cpu) || (per_cpu_ring_len snap =? 0) then Ret []
  else
    ring_off ← (if cpu * per_cpu_ring_len snap <=? U64_MAX
                then add64 (ringbuf_off snap) (cpu * per_cpu_ring_len snap) else Panic);
    if len m <=? ring_off then Ret []
    else records_between_in_ring m ring_off (per_cpu_ring_len snap) start_pos end_pos limit.

Definition records_between (m : bytes) (start_pos end_pos : Z) (limit : nat)
  : outcome Empty_set (list RawDataRecord) :=
  snap ← snapshot m 0;
  records_between_cpu m 0 start_pos end_pos limit snap.

Definition record_headers_between (m : bytes) (start_pos end_pos : Z) (limit : nat)
  : outcome Empty_set (list RawDataRecordHeader) :=
  recs ← records_between m start_pos end_pos limit;
  Ret (map rec_header recs).

Definition record_headers (m : bytes) (limit : nat)
  : outcome Empty_set (list RawDataRecordHeader) :=
  snap ← snapshot m 0;
  record_headers_between m (total_consumer_pos snap) (total_producer_pos snap) limit.

Definition store_consumer_pos (m : bytes) (pos : Z) : outcome Empty_set (option unit) * bytes :=
  match snapshot (E:=Empty_set) m 0 with
  | Ret snap => run (store_consumer_pos_cpu (len m) snap 0 pos) m
  | Throw e => (Throw e, m)
  | Panic => (Panic, m)
  end.

(** ** Reading a circular range *)

(** The bytes [s] are in the ring from logical position [x] on. *)
Definition holds (m : bytes) (off R x : Z) (s : bytes) : Prop :=
  forall i, 0 <= i < len s -> m !! Z.to_nat (off + (x + i) mod R) = s !! Z.to_nat i.

Lemma holds_app m off R x s1 s2 :
  holds m off R x (s1 ++ s2) -> holds m off R x s1 /\ holds m off R (x + len s1) s2.
Proof.
  intros H. split; intros i Hi.
  - rewrite H by len_lia. apply lookup_app_l. unfold len in Hi. lia.
  - replace (x + len s1 + i) with (x + (len s1 + i)) by lia. rewrite H by len_lia.
    rewrite lookup_app_r by (unfold len; lia). f_equal. unfold len. lia.
Qed.

Lemma holds_slice {E} m off R x s :
  holds m off R x s -> 0 <= off -> 0 < R -> off + R <= len m ->
  x mod R + len s <= R -> slice (E:=E) m (off + x mod R) (off + x mod R + len s) = Ret s.
Proof.
  intros H Ho HR Hm Hx. pose proof (Z.mod_pos_bound x R HR). pose proof (len_nonneg s).
  apply slice_lookup. split_and!; [lia..|]. intros i Hi. rewrite <- H by lia. f_equal. f_equal.
  rewrite <- Z.add_mod_idemp_l by lia. rewrite (Z.mod_small (x mod R + i)) by lia. lia.
Qed.

(** Positions that are equal modulo the ring's length are the same place. *)
Lemma holds_mod m off R x y s : 0 < R -> x mod R = y mod R -> holds m off R x s -> holds m off R y s.
Proof.
  intros HR E H i Hi. rewrite <- (H i Hi). f_equal. f_equal. f_equal.
  rewrite <- (Z.add_mod_idemp_l x), <- (Z.add_mod_idemp_l y) by lia. by rewrite E.
Qed.

Lemma read_ring_bytes_holds m off R rel s :
  holds m off R rel s -> 0 <= off -> 0 < R -> off + R <= len m -> len m <= U64_MAX ->
  len s <= R -> read_ring_bytes m off R rel (len s) = Ret (Some s).
Proof.
  intros H Ho HR Hm Hu Hs. unfold read_ring_bytes. pose proof (Z.mod_pos_bound rel R HR) as Hr.
  pose proof (len_nonneg s).
  destruct (Z.eqb_spec R 0); [lia|]. destruct (Z.ltb_spec R (len s)); [lia|]. simpl orb. cbv iota.
  unfold checked_add64. destruct (Z.leb_spec (off + R) U64_MAX); [|lia].
  destruct (Z.ltb_spec (len m) (off + R)); [lia|]. cbv zeta.
  destruct (Z.le_ge_cases (len s) (R - rel mod R)) as [Hle|Hge].
  - rewrite Z.min_l by lia. rewrite (holds_slice m off R rel s) by (done || lia).
    rewrite bind_Ret. destruct (Z.ltb_spec (len s) (len s)); [lia|done].
  - rewrite Z.min_r by lia. set (k := R - rel mod R) in *.
    rewrite <- (take_drop (Z.to_nat k) s) in H. apply holds_app in H as [Ha Hb].
    assert (Hk : len (take (Z.to_nat k) s) = k) by (unfold k; len_lia).
    pose proof (holds_slice (E:=Empty_set) m off R rel _ Ha Ho HR Hm) as S1.
    rewrite Hk in S1. rewrite S1 by (unfold k; lia). rewrite bind_Ret.
    destruct (Z.ltb_spec k (len s)) as [Hlt|].
    + assert (Hz : (rel + k) mod R = 0).
      { unfold k. pose proof (Z.div_mod rel R).
        replace (rel + (R - rel mod R)) with ((1 + rel / R) * R) by lia. apply Z.mod_mul. lia. }
      rewrite Hk in Hb. pose proof (holds_slice (E:=Empty_set) m off R (rel + k) _ Hb Ho HR Hm) as S2.
      rewrite Hz, Z.add_0_r in S2.
      assert (Hd : len (drop (Z.to_nat k) s) = len s - k) by len_lia.
      rewrite Hd in S2. rewrite S2 by lia. by rewrite bind_Ret, take_drop.
    + assert (len s = k) by lia. rewrite take_ge by (unfold len in *; lia). done.
Qed.

(** ** The records of a sub-ring *)

(** A published record: its flags and its payload. *)
Definition Published : Type := Z * bytes.
Definition record_image (p : Published) : bytes := to_le 4 (len p.2) ++ to_le 4 p.1 ++ p.2.
Definition record_advance (n : Z) : Z := Z.land (8 + n + 7) (Z.lnot 7).

Lemma record_advance_spec n :
  0 <= n -> (8 | record_advance n) /\ n + 8 <= record_advance n < n + 16.
Proof.
  intros Hn. unfold record_advance. change 7 with (Z.ones 3).
  rewrite <- Z.ldiff_land, Z.ldiff_ones_r, Z.shiftl_mul_pow2, Z.shiftr_div_pow2 by lia.
  change (Z.ones 3) with 7. change (2 ^ 3) with 8.
  pose proof (Z.div_mod (8 + n + 7) 8). pose proof (Z.mod_pos_bound (8 + n + 7) 8).
  split; [exists ((8 + n + 7) / 8); lia|lia].
Qed.

Section Walk.
Context (m : bytes) (off R : Z).
Context (Hoff : 0 <= off) (HR : 0 < R) (Hin : off + R <= len m) (Hmax : len m <= U64_MAX).
Context (H8 : (8 | R)).

(** The records between two positions. *)
Inductive records_at : Z -> Z -> list Published -> Prop :=
| records_nil p : records_at p p []
| records_cons pos stop p l :
    holds m off R pos (record_image p) -> in_u 32 p.1 -> p.1 <> 0 -> in_u 32 (len p.2) ->
    record_advance (len p.2) <= R ->
    records_at (pos + record_advance (len p.2)) stop l -> records_at pos stop (p :: l).

(** What the reader reports for them. *)
Definition report (pos : Z) (p : Published) : RawDataRecord :=
  let word n o := if 24 <=? len p.2
                  then Some (le_combine (take n (drop o p.2))) else None in
  {| rec_header :=
       {| logical_pos := pos; rec_ring_off := pos mod R; rec_size := len p.2; rec_flags := p.1;
          vmid := word 4%nat 0%nat; probe_id := word 4%nat 4%nat; gns := word 8%nat 8%nat;
          word3 := word 8%nat 16%nat |};
     rec_payload := p.2 |}.
Fixpoint reports (pos : Z) (l : list Published) : list RawDataRecord :=
  match l with
  | [] => []
  | p :: l => report pos p :: reports (pos + record_advance (len p.2)) l
  end.

Lemma records_at_le pos stop l : records_at pos stop l -> pos <= stop.
Proof.
  induction 1; [lia|].
  pose proof (record_advance_spec (len p.2) (len_nonneg _)). pose proof (len_nonneg p.2). lia.
Qed.

(** The eight header bytes do not straddle the end of the ring. *)
Lemma aligned_room pos : (8 | pos) -> pos mod R + 8 <= R.
Proof.
  intros [b Hb]. destruct H8 as [a Ha]. pose proof (Z.mod_pos_bound pos R HR).
  pose proof (Z.div_mod pos R). assert (Hd : (8 | pos mod R)).
  { exists (b - a * (pos / R)). nia. }
  destruct Hd as [c Hc]. lia.
Qed.

Lemma word_at {E} n o (pl : bytes) :
  (o + n <= 24)%nat -> 24 <= len pl ->
  le_at (E:=E) n (take 24 pl) (Z.of_nat o) = Ret (le_combine (take n (drop o pl))).
Proof.
  intros Hn Hl. unfold le_at, slice. rewrite slice_get_spec by len_lia.
  rewrite bind_Ret. f_equal. f_equal.
  replace (Z.to_nat (Z.of_nat o + Z.of_nat n - Z.of_nat o)) with n by lia. rewrite Nat2Z.id.
  rewrite !take_drop_commute. f_equal. rewrite take_take. f_equal. lia.
Qed.

Lemma head_fields_report (pl : bytes) :
  head_fields (if 24 <=? len pl then Some (take 24 pl) else None) =
    let word n o := if 24 <=? len pl then Some (le_combine (take n (drop o pl))) else None in
    Ret (word 4%nat 0%nat, word 4%nat 4%nat, word 8%nat 8%nat, word 8%nat 16%nat).
Proof.
  destruct (Z.leb_spec 24 (len pl)); [|done]. unfold head_fields.
  rewrite (word_at 4 0 pl), bind_Ret by lia. rewrite (word_at 4 4 pl), bind_Ret by lia.
  rewrite (word_at 8 8 pl), bind_Ret by lia. by rewrite (word_at 8 16 pl), bind_Ret by lia.
Qed.

(** The reads of one pass over a published record. *)
Lemma record_reads pos (p : Published) :
  holds m off R pos (record_image p) -> (8 | pos) -> in_u 32 p.1 -> in_u 32 (len p.2) ->
  len p.2 + 8 <= R ->
  le_at (E:=Empty_set) 4 m (off + pos mod R + 4) = Ret p.1 /\
  read_ring_bytes m off R (pos mod R) 8 = Ret (Some (to_le 4 (len p.2) ++ to_le 4 p.1)) /\
  le_at (E:=Empty_set) 4 (to_le 4 (len p.2) ++ to_le 4 p.1) 0 = Ret (len p.2) /\
  (24 <= len p.2 -> read_ring_bytes m off R (pos mod R + 8) 24 = Ret (Some (take 24 p.2))) /\
  read_ring_bytes m off R (pos mod R + 8) (len p.2) = Ret (Some p.2).
Proof.
  intros H Hp Hf Hs Hn. pose proof (aligned_room pos Hp) as Hroom. pose proof (len_nonneg p.2).
  unfold record_image in H. rewrite app_assoc in H. apply holds_app in H as [Hh Hb].
  assert (Hl8 : len (to_le 4 (len p.2) ++ to_le 4 p.1) = 8) by len_lia. rewrite Hl8 in Hb.
  apply (holds_mod _ _ _ _ (pos mod R)) in Hh; [|done|by rewrite Z.mod_mod by lia].
  apply (holds_mod _ _ _ _ (pos mod R + 8)) in Hb;
    [|done|by rewrite Z.add_mod_idemp_l by lia].
  pose proof (holds_slice (E:=Empty_set) m off R _ _ Hh Hoff HR Hin) as Sh.
  rewrite Hl8, Z.mod_mod in Sh by lia. specialize (Sh Hroom).
  split_and!.
  - unfold le_at. rewrite <- (app_nil_r (to_le 4 p.1)) in Sh.
    rewrite (slice_part (F:=Empty_set) _ _ _ _ _ _ (off + pos mod R + 4) (off + pos mod R + 4 + Z.of_nat 4) Sh)
      by len_lia. by rewrite bind_Ret, le_combine_to_le.
  - rewrite <- Hl8. apply read_ring_bytes_holds; (done || lia).
  - eapply suffix_at_le; [apply suffix_at_0|done].
  - intros H24. assert (Ht : len (take 24 p.2) = 24) by len_lia. rewrite <- Ht.
    apply read_ring_bytes_holds; try (done || lia).
    rewrite <- (take_drop 24 p.2) in Hb. by apply holds_app in Hb as [Hb _].
  - apply read_ring_bytes_holds; (done || lia).
Qed.

Lemma walk_one pos end_pos limit (p : Published) :
  holds m off R pos (record_image p) -> (8 | pos) -> in_u 32 p.1 -> p.1 <> 0 ->
  in_u 32 (len p.2) -> record_advance (len p.2) <= R -> 0 <= pos ->
  pos + record_advance (len p.2) <= end_pos -> end_pos < 2 ^ 64 ->
  walk_records m off R end_pos (S limit) pos =
    rest ← walk_records m off R end_pos limit (pos + record_advance (len p.2));
    Ret (report pos p :: rest).
Proof.
  intros H Hp Hf Hf0 Hs Ha H0 He Hw.
  pose proof (record_advance_spec (len p.2) (len_nonneg _)) as [_ Hadv]. pose proof (len_nonneg p.2).
  destruct (record_reads pos p H Hp Hf Hs ltac:(lia)) as (R1 & R2 & R3 & R4 & R5).
  cbn [walk_records]. destruct (Z.eqb_spec pos end_pos); [lia|].
  unfold rem64. destruct (Z.eqb_spec R 0); [lia|]. rewrite bind_Ret, R1, bind_Ret.
  destruct (Z.eqb_spec p.1 0); [done|]. rewrite R2, bind_Ret. cbv iota beta. rewrite R3, bind_Ret.
  assert (Hh : (if 24 <=? len p.2 then read_ring_bytes m off R (pos mod R + 8) 24 else Ret None)
    = Ret (if 24 <=? len p.2 then Some (take 24 p.2) else None)).
  { destruct (Z.leb_spec 24 (len p.2)); [by apply R4|done]. }
  rewrite Hh, bind_Ret, R5, bind_Ret, head_fields_report. cbv zeta. rewrite bind_Ret.
  fold (record_advance (len p.2)). cbn [default].
  destruct (Z.eqb_spec (record_advance (len p.2)) 0); [lia|].
  destruct (Z.ltb_spec R (record_advance (len p.2))); [lia|]. simpl orb. cbv iota.
  unfold wrapping_add64. rewrite Z.mod_small by lia.
  destruct (Z.ltb_spec end_pos (pos + record_advance (len p.2))); [lia|]. done.
Qed.

Lemma walk_records_exact limit end_pos pos stop l :
  records_at pos stop l -> (8 | pos) -> 0 <= pos -> end_pos < 2 ^ 64 ->
  (stop = end_pos \/
   stop < end_pos /\ le_at (E:=Empty_set) 4 m (off + stop mod R + 4) = Ret 0) ->
  walk_records m off R end_pos limit pos = Ret (take limit (reports pos l)).
Proof.
  intros S. revert limit. induction S as [p|pos stop p l Hh Hf Hf0 Hs Ha S IH];
    intros limit Hp H0 Hw Hstop; (destruct limit as [|limit]; [done|]).
  - cbn [walk_records]. destruct (Z.eqb_spec p end_pos); [done|].
    destruct Hstop as [?|[Hlt Hz]]; [done|]. unfold rem64. destruct (Z.eqb_spec R 0); [lia|].
    by rewrite bind_Ret, Hz, bind_Ret.
  - pose proof (records_at_le _ _ _ S). pose proof (len_nonneg p.2).
    pose proof (record_advance_spec (len p.2) (len_nonneg _)) as [H8a Hadv].
    rewrite (walk_one pos end_pos limit p) by (done || lia).
    rewrite IH; [done|by apply Z.divide_add_r|lia|done|done].
Qed.
End Walk.

(** C30: over a sub-ring that lies in the region, the record walk returns,
    in order and with their exact payloads (wrapped around the end of the
    ring or not), the records published from the consumer's position on, up
    to the limit; it stops at the end position or at the first record that
    is claimed but not yet published, and never past it. *)
Theorem data_walk_exact m off R start end_pos stop l limit :
  0 <= off -> 0 < R -> off + R <= len m -> len m <= U64_MAX -> (8 | R) ->
  records_at m off R start stop l -> (8 | start) -> 0 <= start -> end_pos < 2 ^ 64 ->
  end_pos - start <= R ->
  (stop = end_pos \/
   stop < end_pos /\ le_at (E:=Empty_set) 4 m (off + stop mod R + 4) = Ret 0) ->
  records_between_in_ring m off R start end_pos limit = Ret (take limit (reports R start l)).
Proof.
  intros Ho HR Hin Hmax H8 S Hp H0 Hw Hle Hstop. pose proof (records_at_le _ _ _ _ _ _ S) as Hs.
  unfold records_between_in_ring. destruct (Z.eqb_spec start end_pos) as [He|].
  { destruct S as [|start stop p l Hh Hf Hf0 Hn Ha S]; [by destruct limit|].
    pose proof (records_at_le _ _ _ _ _ _ S). pose proof (len_nonneg p.2).
    pose proof (record_advance_spec (len p.2) (len_nonneg _)). lia. }
  destruct (Z.eqb_spec R 0); [lia|]. destruct (Z.leb_spec (len m) off); [lia|]. simpl orb.
  cbv iota zeta. unfold saturating_sub at 1.
  destruct (Z.ltb_spec R (Z.max 0 (end_pos - start))); [lia|]. by eapply walk_records_exact.
Qed.

(** ** The walk on arbitrary bytes *)

Lemma read_ring_bytes_total m off R rel n :
  0 <= off -> 0 <= n -> exists o, read_ring_bytes m off R rel n = Ret o /\
    (forall s, o = Some s -> len s = n).
Proof.
  intros Ho Hn. unfold read_ring_bytes.
  destruct (Z.eqb_spec R 0); simpl orb; [exists None; done|].
  destruct (Z.ltb_spec R n); cbv iota; [exists None; done|]. unfold checked_add64.
  destruct (Z.leb_spec (off + R) U64_MAX); [|exists None; done].
  destruct (Z.ltb_spec (len m) (off + R)); [exists None; done|]. cbv zeta.
  assert (HR : 0 < R) by lia. pose proof (Z.mod_pos_bound rel R HR).
  destruct (slice_ok (E:=Empty_set) m (off + rel mod R) (off + rel mod R + Z.min n (R - rel mod R)))
    as (a & -> & Ha); [lia|lia|]. rewrite bind_Ret.
  destruct (Z.ltb_spec (Z.min n (R - rel mod R)) n).
  - destruct (slice_ok (E:=Empty_set) m off (off + (n - Z.min n (R - rel mod R)))) as (b & -> & Hb);
      [lia|lia|]. rewrite bind_Ret. eexists. split; [done|]. intros s [= <-]. len_lia.
  - eexists. split; [done|]. intros s [= <-]. lia.
Qed.

Lemma head_fields_total o : (forall s, o = Some s -> len s = 24) ->
  exists a b c d, head_fields o = Ret (a, b, c, d).
Proof.
  intros H. destruct o as [s|]; simpl; [|eauto]. specialize (H s eq_refl).
  destruct (le_at_ok (E:=Empty_set) 4 s 0) as (v1 & -> & _); [lia|simpl; lia|].
  destruct (le_at_ok (E:=Empty_set) 4 s 4) as (v2 & H2 & _); [lia|simpl; lia|].
  destruct (le_at_ok (E:=Empty_set) 8 s 8) as (v3 & H3 & _); [lia|simpl; lia|].
  destruct (le_at_ok (E:=Empty_set) 8 s 16) as (v4 & H4 & _); [lia|simpl; lia|].
  rewrite bind_Ret, H2, bind_Ret, H3, bind_Ret, H4, bind_Ret. eauto.
Qed.

(** whatever bytes the guest left in a sub-ring that lies in the region
    and whose length and start position are 8-byte aligned, the record walk
    ends without reading outside the region, returns at most [limit]
    records, and reports each of them with a position inside the ring. *)
Theorem data_walk_safe m off R limit end_pos pos :
  0 <= off -> 0 < R -> off + R <= len m -> (8 | R) -> (8 | pos) -> 0 <= pos < 2 ^ 64 ->
  exists recs, walk_records m off R end_pos limit pos = Ret recs /\
    (length recs <= limit)%nat /\
    Forall (fun rec => 0 <= rec_ring_off (rec_header rec) < R /\
                       rec_ring_off (rec_header rec) = logical_pos (rec_header rec) mod R) recs.
Proof.
  intros Ho HR Hin H8. revert pos. induction limit as [|limit IH]; intros pos Hp Hpos;
    cbn [walk_records]; [exists []; auto|].
  destruct (Z.eqb_spec pos end_pos); [exists []; split; [done|split; [simpl; lia|constructor]]|].
  unfold rem64. destruct (Z.eqb_spec R 0); [lia|]. rewrite bind_Ret.
  pose proof (aligned_room R HR H8 pos Hp). pose proof (Z.mod_pos_bound pos R HR).
  destruct (le_at_ok (E:=Empty_set) 4 m (off + pos mod R + 4)) as (flags & -> & _);
    [lia|simpl; lia|]. rewrite bind_Ret.
  destruct (flags =? 0); [exists []; split; [done|split; [simpl; lia|constructor]]|].
  destruct (read_ring_bytes_total m off R (pos mod R) 8) as (hdr & -> & Hhdr); [lia..|].
  rewrite bind_Ret. destruct hdr as [hdr|]; [|exists []; split; [done|split; [simpl; lia|constructor]]].
  specialize (Hhdr hdr eq_refl).
  destruct (le_at_ok (E:=Empty_set) 4 hdr 0) as (size & -> & Hsz); [lia|simpl; lia|].
  rewrite bind_Ret. unfold in_u in Hsz. simpl in Hsz.
  destruct (read_ring_bytes_total m off R (pos mod R + 8) 24) as (h24 & Hh24 & Hl24); [lia..|].
  destruct (read_ring_bytes_total m off R (pos mod R + 8) size) as (payload & Hpl & _); [lia..|].
  set (head := if 24 <=? size then h24 else None).
  assert (Hh : (if 24 <=? size then read_ring_bytes m off R (pos mod R + 8) 24 else Ret None) = Ret head)
    by (unfold head; by destruct (24 <=? size)).
  rewrite Hh, bind_Ret, Hpl, bind_Ret.
  destruct (head_fields_total head) as (a & b & c & d & ->).
  { intros s Hs. unfold head in Hs. destruct (24 <=? size); [by apply Hl24|done]. }
  rewrite bind_Ret. cbv zeta. set (rec := {| rec_header := _; rec_payload := _ |}).
  assert (Hrec : 0 <= rec_ring_off (rec_header rec) < R /\
    rec_ring_off (rec_header rec) = logical_pos (rec_header rec) mod R) by done.
  fold (record_advance size). pose proof (record_advance_spec size ltac:(lia)) as [Ha8 Hadv].
  destruct ((record_advance size =? 0) || (R <? record_advance size)).
  { exists [rec]. split; [done|]. split; [simpl; lia|by constructor]. }
  destruct (end_pos <? wrapping_add64 pos (record_advance size)).
  { exists [rec]. split; [done|]. split; [simpl; lia|by constructor]. }
  destruct (IH (wrapping_add64 pos (record_advance size))) as (recs & -> & Hlen & Hall).
  - unfold wrapping_add64. destruct Hp as [x Hx], Ha8 as [y Hy].
    exists (x + y - 2 ^ 61 * ((pos + record_advance size) / 2 ^ 64)).
    pose proof (Z.div_mod (pos + record_advance size) (2 ^ 64)). lia.
  - unfold wrapping_add64. apply Z.mod_pos_bound. lia.
  - exists (rec :: recs). rewrite bind_Ret. split; [done|]. split; [simpl; lia|by constructor].
Qed.

(** ** The consumer cursors *)

Definition set_consumer (pos : Z) (s : PerCpuShmemState) : PerCpuShmemState :=
  {| producer_pos := producer_pos s; consumer_pos := pos; dropped_records := dropped_records s;
     dropped_bytes := dropped_bytes s |}.

Section Store.
Context (m m' : bytes) (woff pos : Z).
Context (Hw : write (E:=Empty_set) m woff (to_le 8 pos) = Ret m') (Hpos : in_u 64 pos).

Lemma read_other {E} n off v :
  off + Z.of_nat n <= woff \/ woff + 8 <= off ->
  le_at (E:=E) n m off = Ret v -> le_at (E:=E) n m' off = Ret v.
Proof. intros H. eapply le_at_write_other; [exact Hw|len_lia]. Qed.

Ltac keep :=
  match goal with H : le_at ?n m ?o = Ret ?v |- context [le_at ?n m' ?o] =>
    rewrite (read_other n o v ltac:(simpl; lia) H), bind_Ret end.

Lemma read_classes_other {E} base l :
  base + 32 <= woff \/ woff + 8 <= base ->
  read_classes (E:=E) m base = Ret l -> read_classes (E:=E) m' base = Ret l.
Proof.
  intros H Hr. unfold read_classes in *. split_ret Hr.
  repeat keep. exact Hr.
Qed.

Ltac keep_classes :=
  match goal with H : read_classes m ?o = Ret ?v |- context [read_classes m' ?o] =>
    rewrite (read_classes_other o v ltac:(lia) H), bind_Ret end.

Lemma read_cpu_other {E} off s :
  off + 80 <= woff \/ woff + 8 <= off ->
  read_cpu (E:=E) m off = Ret s -> read_cpu (E:=E) m' off = Ret s.
Proof.
  intros H Hr. unfold read_cpu in *. split_ret Hr.
  repeat keep_classes. repeat keep. exact Hr.
Qed.

Lemma read_cpu_stored {E} off s :
  woff = off + 8 ->
  read_cpu (E:=E) m off = Ret s -> read_cpu (E:=E) m' off = Ret (set_consumer pos s).
Proof.
  intros Hoff Hr. unfold read_cpu in *. split_ret Hr. rewrite <- Hoff in *.
  repeat keep_classes. keep. rewrite (le_at_write_same (F:=E) 8 _ _ _ _ Hw Hpos), bind_Ret.
  by injection Hr as <-.
Qed.

Lemma read_cpus_after {E} base stride n : forall cpu l,
  80 <= stride -> woff + 8 <= base + cpu * stride ->
  read_cpus (E:=E) m base stride cpu n = Ret l -> read_cpus (E:=E) m' base stride cpu n = Ret l.
Proof.
  pose proof (len_write _ _ _ _ Hw) as Hl.
  induction n as [|n IH]; intros cpu l Hs Hoff Hr; cbn [read_cpus] in *; [done|].
  unfold add64 in *. destruct (base + cpu * stride <=? U64_MAX); [|done]. rewrite bind_Ret in *.
  destruct (base + cpu * stride + 80 <=? U64_MAX); [|done]. rewrite bind_Ret, Hl in *.
  destruct (len m <? base + cpu * stride + 80); [done|]. split_ret Hr.
  rewrite (read_cpu_other (base + cpu * stride) a) by (lia || done). rewrite bind_Ret.
  rewrite (IH (cpu + 1) a0) by (nia || done). done.
Qed.

Lemma read_cpus_stored {E} base stride n : forall cpu k l,
  80 <= stride -> woff = base + (cpu + Z.of_nat k) * stride + 8 ->
  read_cpus (E:=E) m base stride cpu n = Ret l ->
  read_cpus (E:=E) m' base stride cpu n = Ret (alter (set_consumer pos) k l).
Proof.
  pose proof (len_write _ _ _ _ Hw) as Hl.
  induction n as [|n IH]; intros cpu k l Hs Hoff Hr; cbn [read_cpus] in *; [by injection Hr as <-|].
  unfold add64 in *. destruct (base + cpu * stride <=? U64_MAX); [|done]. rewrite bind_Ret in *.
  destruct (base + cpu * stride + 80 <=? U64_MAX); [|done]. rewrite bind_Ret, Hl in *.
  destruct (len m <? base + cpu * stride + 80); [by injection Hr as <-|]. split_ret Hr.
  injection Hr as <-. destruct k as [|k].
  - rewrite (read_cpu_stored (base + cpu * stride) a ltac:(nia) R), bind_Ret.
    rewrite (read_cpus_after base stride n (cpu + 1) a0) by (nia || done). done.
  - rewrite (read_cpu_other (base + cpu * stride) a) by (nia || done). rewrite bind_Ret.
    rewrite (IH (cpu + 1) k a0) by (nia || done). done.
Qed.
End Store.

Lemma read_cpus_bounds {E} m base stride n : forall cpu l,
  read_cpus (E:=E) m base stride cpu n = Ret l ->
  (length l <= n)%nat /\
  forall k, (k < length l)%nat -> base + (cpu + Z.of_nat k) * stride + 80 <= len m.
Proof.
  induction n as [|n IH]; intros cpu l Hr; cbn [read_cpus] in Hr.
  { injection Hr as <-. split; [done|]. intros k Hk. simpl in Hk. lia. }
  unfold add64 in Hr. destruct (base + cpu * stride <=? U64_MAX); [|done]. rewrite bind_Ret in Hr.
  destruct (base + cpu * stride + 80 <=? U64_MAX); [|done]. rewrite bind_Ret in Hr.
  destruct (Z.ltb_spec (len m) (base + cpu * stride + 80)) as [|Hle].
  { injection Hr as <-. split; [simpl; lia|]. intros k Hk. simpl in Hk. lia. }
  split_ret Hr. injection Hr as <-. destruct (IH (cpu + 1) a0) as [H1 H2]; [done|].
  split; [simpl; lia|]. intros [|k] Hk; [nia|]. specialize (H2 k ltac:(simpl in Hk; lia)). nia.
Qed.

Lemma fold_alter {A B} (f : A -> B -> A) (g : B -> B) l : forall k a,
  (forall a b, f a (g b) = f a b) -> fold_left f (alter g k l) a = fold_left f l a.
Proof.
  induction l as [|x l IH]; intros [|k] a Hf; try done; simpl.
  - by rewrite Hf.
  - by apply IH.
Qed.

Ltac keep_header :=
  match goal with
  | H : le_at ?n ?m ?o = Ret ?v, Hw : write ?m _ _ = Ret ?m' |- context [le_at ?n ?m' ?o] =>
      rewrite (read_other m m' _ _ Hw n o v ltac:(simpl; lia) H), bind_Ret
  end.

(** with the header geometry the wire constants give, moving one CPU's
    consumer cursor succeeds, and the next snapshot shows that CPU's cursor
    at the stored position and everything else, the other CPUs' states, the
    producer total and the drop counters, as before. *)
Theorem store_then_snapshot m wake snap cpu pos :
  snapshot (E:=Empty_set) m wake = Ret snap ->
  le_at (E:=Empty_set) 4 m 84 = Ret SHMEM_PER_CPU_STATE_STRIDE ->
  le_at (E:=Empty_set) 8 m 96 = Ret SHMEM_PER_CPU_STATE_OFF ->
  (cpu < length (per_cpu snap))%nat -> per_cpu_ring_len snap <> 0 -> in_u 64 pos ->
  exists m' snap',
    run (E:=Empty_set) (store_consumer_pos_cpu (len m) snap (Z.of_nat cpu) pos) m
      = (Ret (Some tt), m') /\
    snapshot (E:=Empty_set) m' wake = Ret snap' /\
    per_cpu snap' = alter (set_consumer pos) cpu (per_cpu snap) /\
    total_producer_pos snap' = total_producer_pos snap /\
    dropped_records_by_class snap' = dropped_records_by_class snap /\
    dropped_bytes_by_class snap' = dropped_bytes_by_class snap.
Proof.
  intros Hs Hstride Hbase Hcpu Hring Hpos. unfold snapshot in Hs. split_ret Hs. injection Hs as <-.
  injection Hstride as ->. injection Hbase as ->.
  unfold SHMEM_PER_CPU_STATE_STRIDE, SHMEM_PER_CPU_STATE_OFF in *. simpl in R3, Hcpu, Hring.
  destruct (read_cpus_bounds _ _ _ _ _ _ R3) as [Hn Hb]. specialize (Hb cpu Hcpu).
  rewrite Z.add_0_l in Hb.
  set (woff := 128 + Z.of_nat cpu * 128 + 8).
  destruct (run_write (E:=Empty_set) woff (to_le 8 pos) (PRet (Some tt)) m) as (m' & Hw & Hl & Hr);
    [unfold woff; lia|unfold woff; len_lia|].
  assert (Hmax : 128 + Z.of_nat cpu * 128 + 80 <= U64_MAX).
  { unfold SHMEM_NUM_CPUS_MAX, U64_MAX in *. lia. }
  eexists m', _. split; [|split].
  - unfold store_consumer_pos_cpu, per_cpu_state_off_for. cbn [num_cpus per_cpu_ring_len].
    unfold SHMEM_NUM_CPUS_MAX in Hn. destruct (Z.leb_spec a (Z.of_nat cpu)); [lia|].
    destruct (Z.eqb_spec a1 0); [done|]. unfold SHMEM_PER_CPU_STATE_OFF, SHMEM_PER_CPU_STATE_STRIDE.
    unfold checked_add64. destruct (Z.leb_spec (128 + Z.of_nat cpu * 128 + 8) U64_MAX); [|lia].
    destruct (Z.leb_spec (128 + Z.of_nat cpu * 128 + 8 + 8) U64_MAX); [|lia].
    destruct (Z.ltb_spec (len m) (128 + Z.of_nat cpu * 128 + 8 + 8)); [lia|]. exact Hr.
  - unfold snapshot. repeat keep_header.
    unfold SHMEM_PER_CPU_STATE_STRIDE, SHMEM_PER_CPU_STATE_OFF. simpl Z.eqb. cbv iota.
    rewrite (read_cpus_stored m m' woff pos Hw Hpos 128 128 _ 0 cpu _ ltac:(lia) ltac:(unfold woff; lia) R3).
    rewrite bind_Ret, (fold_alter (fun a s => zip_saturating a (dropped_records s))),
      (fold_alter (fun a s => zip_saturating a (dropped_bytes s))) by done.
    rewrite R4, bind_Ret, R5, bind_Ret. repeat keep_header. reflexivity.
  - cbn [per_cpu total_producer_pos dropped_records_by_class dropped_bytes_by_class].
    split; [done|]. split; [|done]. by apply fold_alter.
Qed.

(** ** Witnesses and examples *)

Definition holdsb (m : bytes) (off R x : Z) (s : bytes) : bool :=
  forallb (fun i => bool_decide (m !! Z.to_nat (off + (x + Z.of_nat i) mod R) = s !! i))
    (seq 0 (length s)).

Lemma holdsb_holds m off R x s : holdsb m off R x s = true -> holds m off R x s.
Proof.
  unfold holdsb. rewrite forallb_forall. intros H i Hi.
  specialize (H (Z.to_nat i)). rewrite bool_decide_eq_true in H. rewrite Z2Nat.id in H by lia.
  apply H. apply in_seq. unfold len in Hi. lia.
Qed.

Module SampleData.
(** A 64-byte ring with one record that wraps around its end. *)
Definition payload : bytes := map u8b (map Z.of_nat (seq 1 20)).
Definition ring_region : bytes :=
  replicate 64 (u8b 0) ++ drop 16 payload ++ replicate 36 (u8b 0) ++
  to_le 4 20 ++ to_le 4 SHMEM_RECORD_FLAG_READY ++ take 16 payload.

(** A header of two CPUs, each field [(offset, width, value)]. *)
Definition header (stride : Z) : bytes :=
  replicate 80 (u8b 0) ++ to_le 4 2 ++ to_le 4 stride ++ to_le 8 64 ++ to_le 8 128 ++
  replicate 920 (u8b 0).
Definition snap (stride : Z) : DataShmSnapshot :=
  match snapshot (E:=Empty_set) (header stride) 0 with
  | Ret s => s
  | _ => {| snap_size := 0; snap_magic := 0; snap_version := 0; ringbuf_off := 0; ringbuf_len := 0;
            num_cpus := 0; per_cpu_ring_len := 0; per_cpu := []; total_producer_pos := 0;
            total_consumer_pos := 0; btf_off := 0; btf_len := 0; ksyms_off := 0; ksyms_len := 0;
            total_dropped_records := 0; total_dropped_bytes := 0; dropped_records_by_class := [];
            dropped_bytes_by_class := []; wake_counter := 0 |}
  end.
Definition stored (stride : Z) : bytes :=
  snd (run (E:=Empty_set) (store_consumer_pos_cpu 1024 (snap stride) 1 5) (header stride)).
End SampleData.

Ltac by_value := vm_compute; repeat split; congruence.

Lemma sample_published :
  records_at SampleData.ring_region 64 64 40 72 [(1, SampleData.payload)].
Proof.
  apply records_cons; [apply holdsb_holds; vm_compute; reflexivity|by_value|by_value|by_value|by_value|].
  apply records_nil.
Qed.

Lemma data_walk_exact_witness :
  records_between_in_ring SampleData.ring_region 64 64 40 72 10
    = Ret (take 10 (reports 64 40 [(1, SampleData.payload)])).
Proof.
  apply (data_walk_exact SampleData.ring_region 64 64 40 72 72 [(1, SampleData.payload)] 10);
    [by_value|by_value|by_value|by_value|exists 8; reflexivity|exact sample_published
    |exists 5; reflexivity|by_value|by_value|by_value|left; reflexivity].
Defined.

Lemma data_walk_safe_witness :
  exists recs, walk_records SampleData.ring_region 64 64 72 10 40 = Ret recs /\
    (length recs <= 10)%nat.
Proof.
  destruct (data_walk_safe SampleData.ring_region 64 64 10 72 40) as (recs & H1 & H2 & _);
    [by_value|by_value|by_value|exists 8; reflexivity|exists 5; reflexivity|by_value|].
  exists recs. split; [exact H1|exact H2].
Defined.

Lemma store_then_snapshot_witness :
  exists m' snap',
    run (E:=Empty_set) (store_consumer_pos_cpu (len (SampleData.header 128)) (SampleData.snap 128)
      (Z.of_nat 1) 5) (SampleData.header 128) = (Ret (Some tt), m') /\
    snapshot (E:=Empty_set) m' 0 = Ret snap' /\
    per_cpu snap' = alter (set_consumer 5) 1%nat (per_cpu (SampleData.snap 128)).
Proof.
  destruct (store_then_snapshot (SampleData.header 128) 0 (SampleData.snap 128) 1 5)
    as (m' & snap' & H1 & H2 & H3 & _);
    [vm_compute; reflexivity|vm_compute; reflexivity|vm_compute; reflexivity
    |vm_compute; repeat constructor|vm_compute; discriminate|by_value|].
  exists m', snap'. split; [exact H1|]. split; [exact H2|exact H3].
Defined.

(** The cursor store takes the wire constants for the geometry the snapshot
    takes from the header: with another stride it reports success and the
    snapshot does not show the new cursor. *)
Example store_ignores_header_stride :
  run (E:=Empty_set) (store_consumer_pos_cpu 1024 (SampleData.snap 256) 1 5) (SampleData.header 256)
    = (Ret (Some tt), SampleData.stored 256) /\
  match snapshot (E:=Empty_set) (SampleData.stored 256) 0 with
  | Ret s => map consumer_pos (per_cpu s) = [0; 0]
  | _ => False
  end.
Proof. vm_compute. split; reflexivity. Qed.

(** The flags of a record are loaded before any check that the sub-ring lies
    in the region: a sub-ring of the header that runs past the end makes the
    walk read outside the region. *)
Example flags_read_before_bounds_check :
  let snap := {| snap_size := 256; snap_magic := 0; snap_version := 0; ringbuf_off := 248;
    ringbuf_len := 64; num_cpus := 1; per_cpu_ring_len := 64; per_cpu := [];
    total_producer_pos := 0; total_consumer_pos := 0; btf_off := 0; btf_len := 0;
    ksyms_off := 0; ksyms_len := 0; total_dropped_records := 0; total_dropped_bytes := 0;
    dropped_records_by_class := []; dropped_bytes_by_class := []; wake_counter := 0 |} in
  records_between_cpu (replicate 256 (u8b 0)) 0 8 16 4 snap = Panic.
Proof. vm_compute. reflexivity. Qed.
