(* ===== verification/Emit.v ===== *)
(** The eBPF emitter (host/bifrost, src/lower/emit.rs): the opcode, helper and
    kfunc constants, the eight-byte instruction encoder, and the instruction
    sequences the lowering is built from.  An emitter appends to [out: &mut
    Vec<u8>], and the ones that call kernel functions also to
    [relocs: &mut Vec<(u32, &str)>]; [Asm] is that pair of buffers. *)

From Stdlib Require Import Strings.String.
From S2P Require Import Prelude.

Local Open Scope Z_scope.
Local Open Scope list_scope.

(** *** Opcodes, helper ids, scratch slots and kfunc names *)

Definition BPF_LD_IMM_DW_LO : Z := 0x18.
Definition BPF_LD_IMM_DW_HI : Z := 0x00.
Definition BPF_MOV64_IMM : Z := 0xb7.
Definition BPF_MOV64_REG : Z := 0xbf.
Definition BPF_CALL : Z := 0x85.
Definition BPF_JEQ_IMM : Z := 0x15.
Definition BPF_STX_W : Z := 0x63.
Definition BPF_STX_DW : Z := 0x7b.
Definition BPF_EXIT : Z := 0x95.
Definition BPF_ADD64_REG : Z := 0x0f.
Definition BPF_SUB64_REG : Z := 0x1f.
Definition BPF_MUL64_REG : Z := 0x2f.
Definition BPF_DIV64_REG : Z := 0x3f.
Definition BPF_OR64_REG : Z := 0x4f.
Definition BPF_AND64_REG : Z := 0x5f.
Definition BPF_LSH64_REG : Z := 0x6f.
Definition BPF_RSH64_REG : Z := 0x7f.
Definition BPF_MOD64_REG : Z := 0x9f.
Definition BPF_XOR64_REG : Z := 0xaf.
Definition BPF_ARSH64_REG : Z := 0xcf.
Definition BPF_LSH64_IMM : Z := 0x67.
Definition BPF_RSH64_IMM : Z := 0x77.
Definition BPF_LDX_DW : Z := 0x79.
Definition BPF_JEQ_REG : Z := 0x1d.
Definition BPF_JNE_REG : Z := 0x5d.
Definition BPF_JGT_REG : Z := 0x2d.
Definition BPF_JGE_REG : Z := 0x3d.
Definition BPF_JLT_REG : Z := 0xad.
Definition BPF_JLE_REG : Z := 0xbd.
Definition BPF_JSGT_REG : Z := 0x6d.
Definition BPF_JSGE_REG : Z := 0x7d.
Definition BPF_JSLT_REG : Z := 0xcd.
Definition BPF_JSLE_REG : Z := 0xdd.
Definition BPF_JNE_IMM : Z := 0x55.
Definition BPF_JGT_IMM : Z := 0x25.
Definition BPF_JGE_IMM : Z := 0x35.
Definition BPF_JLT_IMM : Z := 0xa5.
Definition BPF_JLE_IMM : Z := 0xb5.
Definition BPF_JSGT_IMM : Z := 0x65.
Definition BPF_JSGE_IMM : Z := 0x75.
Definition BPF_JSLT_IMM : Z := 0xc5.
Definition BPF_JSLE_IMM : Z := 0xd5.
Definition BPF_JA : Z := 0x05.
Definition BPF_PSEUDO_MAP_FD : Z := 1.
Definition BPF_PSEUDO_KFUNC_CALL : Z := 2.
Definition HELPER_KTIME_GET_NS : Z := 5.
Definition HELPER_GET_SMP_PROCESSOR_ID : Z := 8.
Definition HELPER_GET_CURRENT_PID_TGID : Z := 14.
Definition HELPER_GET_CURRENT_COMM : Z := 16.
Definition HELPER_GET_CURRENT_TASK : Z := 35.
Definition HELPER_KTIME_GET_BOOT_NS : Z := 125.
Definition HELPER_PROBE_READ_KERNEL : Z := 113.
Definition HELPER_MAP_LOOKUP_ELEM : Z := 1.
Definition HELPER_MAP_UPDATE_ELEM : Z := 2.
Definition RINGBUF_FAKE_FD : Z := 100.
Definition HELPER_RINGBUF_RESERVE : Z := 131.
Definition HELPER_RINGBUF_SUBMIT : Z := 132.
Definition HELPER_GET_STACK : Z := 67.
Definition HELPER_STRNCMP : Z := 182.
Definition RB_PTR_REG : Z := 9.
Definition CTX_REG : Z := 8.
Definition LDGS_SCRATCH_BASE : Z := -120.
Definition KFUNC_SHMEM_RESERVE : string := "bifrost_kfunc_shmem_reserve"%string.
Definition KFUNC_SHMEM_SUBMIT : string := "bifrost_kfunc_shmem_submit"%string.
Definition KFUNC_SHMEM_KICK : string := "bifrost_kfunc_shmem_kick"%string.
Definition KFUNC_EXE_PATH : string := "bifrost_kfunc_current_exe_path"%string.
Definition KFUNC_VMA_TABLE : string := "bifrost_kfunc_emit_vma_table"%string.
Definition KFUNC_VMA_PUBLISH : string := "bifrost_kfunc_publish_vma_table"%string.
Definition KFUNC_WALLTIME_NS : string := "bifrost_kfunc_walltime_ns"%string.
Definition KFUNC_VTIMESTAMP_NS : string := "bifrost_kfunc_vtimestamp_ns"%string.
Definition KFUNC_PROGENYOF : string := "bifrost_kfunc_progenyof"%string.
Definition KFUNC_STRLEN : string := "bifrost_kfunc_strlen"%string.
Definition KFUNC_COPYINSTR : string := "bifrost_kfunc_copyinstr"%string.
Definition KFUNC_STRCHR : string := "bifrost_kfunc_strchr"%string.
Definition KFUNC_STRRCHR : string := "bifrost_kfunc_strrchr"%string.
Definition KFUNC_COPYIN : string := "bifrost_kfunc_copyin"%string.
Definition KFUNC_STRSTR : string := "bifrost_kfunc_strstr"%string.
Definition KFUNC_INDEX : string := "bifrost_kfunc_index"%string.
Definition KFUNC_STRJOIN : string := "bifrost_kfunc_strjoin"%string.
Definition KFUNC_SUBSTR : string := "bifrost_kfunc_substr"%string.
Definition KFUNC_SPECULATION : string := "bifrost_kfunc_speculation"%string.
Definition KFUNC_SPECULATE : string := "bifrost_kfunc_speculate"%string.
Definition KFUNC_COMMIT : string := "bifrost_kfunc_commit"%string.
Definition KFUNC_DISCARD : string := "bifrost_kfunc_discard"%string.
Definition KFUNC_CLEAR_AGG : string := "bifrost_kfunc_clear_agg"%string.

(** *** One instruction

    [code], the two register nibbles, a 16-bit offset and a 32-bit immediate,
    both little-endian two's complement. *)

Definition bpf_insn (code dst src off imm : Z) : bytes :=
  u8b code :: u8b (Z.lor (Z.shiftl (Z.land src 0x0f) 4) (Z.land dst 0x0f))
    :: to_le 2 off ++ to_le 4 imm.

Definition bpf_ld_imm64 (dst imm : Z) : bytes :=
  bpf_insn BPF_LD_IMM_DW_LO dst 0 0 (as_i32 imm)
    ++ bpf_insn BPF_LD_IMM_DW_HI 0 0 0 (as_i32 (Z.shiftr imm 32)).

Definition bpf_mov64_reg (dst src : Z) : bytes := bpf_insn BPF_MOV64_REG dst src 0 0.

Definition bpf_mov64_imm (dst imm : Z) : bytes := bpf_insn BPF_MOV64_IMM dst 0 0 imm.

Definition bpf_call (helper_id : Z) : bytes := bpf_insn BPF_CALL 0 0 0 helper_id.

Definition bpf_exit : bytes := bpf_insn BPF_EXIT 0 0 0 0.

Definition bpf_stx_w (dst src off : Z) : bytes := bpf_insn BPF_STX_W dst src off 0.

Definition bpf_stx_dw (dst src off : Z) : bytes := bpf_insn BPF_STX_DW dst src off 0.

Definition bpf_jeq_imm (dst imm off : Z) : bytes := bpf_insn BPF_JEQ_IMM dst 0 off imm.

Definition bpf_ldx_dw (dst src off : Z) : bytes := bpf_insn BPF_LDX_DW dst src off 0.

Definition bpf_alu64_imm (opcode dst imm : Z) : bytes := bpf_insn opcode dst 0 0 imm.

Definition bpf_jcc_reg (opcode dst src off : Z) : bytes := bpf_insn opcode dst src off 0.

Definition bpf_jcc_imm (opcode dst imm off : Z) : bytes := bpf_insn opcode dst 0 off imm.

Definition bpf_ja (off : Z) : bytes := bpf_insn BPF_JA 0 0 off 0.

Definition bpf_atomic_add (dst src off : Z) : bytes := bpf_insn 0xdb dst src off 0.

Definition bpf_to_be (dst width : Z) : bytes := bpf_insn 0xdc dst 0 0 width.

Definition bpf_ld_map_fd (dst fake_fd : Z) : bytes :=
  bpf_insn BPF_LD_IMM_DW_LO dst BPF_PSEUDO_MAP_FD 0 fake_fd
    ++ bpf_insn BPF_LD_IMM_DW_HI 0 0 0 0.

(** *** Sequences *)

(** The code buffer and the relocations of its kfunc calls. *)
Definition Asm : Type := bytes * list (Z * string).

(** [out.extend_from_slice(..)], once per element. *)
Definition extend (l : list bytes) (a : Asm) : Asm := (a.1 ++ concat l, a.2).

Definition emit_kfunc_call (name : string) (a : Asm) : Asm :=
  let insn_idx := (len a.1 / 8) mod 2 ^ 32 in
  (a.1 ++ bpf_insn BPF_CALL 0 BPF_PSEUDO_KFUNC_CALL 0 0, a.2 ++ [(insn_idx, name)]).

(** Also returns the number of slots emitted. *)
Definition emit_record_reserve (size : Z) (use_shmem : bool) (a : Asm) : Asm * Z :=
  if use_shmem
  then (emit_kfunc_call KFUNC_SHMEM_RESERVE (extend [bpf_mov64_imm 1 size] a), 2)
  else (extend [bpf_ld_map_fd 1 RINGBUF_FAKE_FD; bpf_mov64_imm 2 size; bpf_mov64_imm 3 0;
                bpf_call HELPER_RINGBUF_RESERVE] a, 5).

Definition emit_record_submit (ptr_reg : Z) (use_shmem kick : bool) (a : Asm) : Asm :=
  let a := extend [bpf_mov64_reg 1 ptr_reg] a in
  let a := if use_shmem then emit_kfunc_call KFUNC_SHMEM_SUBMIT a
           else extend [bpf_mov64_imm 2 0; bpf_call HELPER_RINGBUF_SUBMIT] a in
  if kick then emit_kfunc_call KFUNC_SHMEM_KICK a else a.

(** The stack slot a register is saved in around a call. *)
Definition ldgs_slot (r : Z) : Z := LDGS_SCRATCH_BASE + (r - 1) * 8.

(** [for r in lo..=hi { out.extend(stx_dw(10, r, slot)) }] *)
Definition spill (slot : Z -> Z) (rs : list Z) (a : Asm) : Asm :=
  extend (map (fun r => bpf_stx_dw 10 r (slot r)) rs) a.

(** The matching loads, which skip [dst]. *)
Definition restore (slot : Z -> Z) (rs : list Z) (dst : Z) (a : Asm) : Asm :=
  extend (map (fun r => bpf_ldx_dw r 10 (slot r)) (filter (fun r => r ≠ dst) rs)) a.

(** [if dst != 0 { out.extend(mov64_reg(dst, 0)) }] *)
Definition move_result (dst : Z) (a : Asm) : Asm :=
  if dst =? 0 then a else extend [bpf_mov64_reg dst 0] a.

(** [TUPLE_STACK_BASE] (state.rs) *)
Definition TUPLE_STACK_BASE : Z := -416.

Definition emit_single_arg_kfunc_subr (dst : Z) (name : string) (a : Asm) : Asm :=
  let a := spill ldgs_slot [2; 3; 4; 5] a in
  let slot1 := LDGS_SCRATCH_BASE in
  let a := extend [bpf_stx_dw 10 1 slot1; bpf_ldx_dw 1 10 TUPLE_STACK_BASE] a in
  let a := emit_kfunc_call name a in
  let a := restore ldgs_slot [2; 3; 4; 5] dst a in
  let a := if dst =? 1 then a else extend [bpf_ldx_dw 1 10 slot1] a in
  move_result dst a.

Definition emit_two_arg_kfunc_subr (dst : Z) (name : string) (a : Asm) : Asm :=
  let a := spill ldgs_slot [3; 4; 5] a in
  let a := extend [bpf_ldx_dw 1 10 TUPLE_STACK_BASE;
                   bpf_ldx_dw 2 10 (TUPLE_STACK_BASE - 8)] a in
  let a := emit_kfunc_call name a in
  let a := restore ldgs_slot [3; 4; 5] dst a in
  move_result dst a.

Definition emit_three_arg_kfunc_subr (dst : Z) (name : string) (a : Asm) : Asm :=
  let a := spill ldgs_slot [4; 5] a in
  let a := extend [bpf_ldx_dw 1 10 TUPLE_STACK_BASE;
                   bpf_ldx_dw 2 10 (TUPLE_STACK_BASE - 8);
                   bpf_ldx_dw 3 10 (TUPLE_STACK_BASE - 16)] a in
  let a := emit_kfunc_call name a in
  let a := restore ldgs_slot [4; 5] dst a in
  move_result dst a.

Definition emit_helper_call_difo (helper_id dst : Z) (a : Asm) : Asm :=
  let a := spill ldgs_slot [1; 2; 3; 4; 5] a in
  let a := extend [bpf_call helper_id] a in
  let a := restore ldgs_slot [1; 2; 3; 4; 5] dst a in
  move_result dst a.
