(* ===== verification/Bpf.v ===== *)
(** The eBPF machine: the reference semantics the lowering is judged against.

    This file is a specification, not a translation: the instruction format,
    the 64-bit ALU, the jumps, the loads and stores and the byte swap are
    those of the eBPF instruction set (RFC 9669), for the opcodes that
    host/bifrost, src/lower/emit.rs can produce.  Calls to kernel helpers and
    kernel functions, and the address a map reference stands for, are
    parameters.

    - [insn], [decode_all]: a program as the list of its eight-byte slots;
    - [step], [run]: one instruction, and a bounded run;
    - [code_at], [run_at]: a fragment inside a larger program runs there as it
      runs alone. *)

From stdpp Require Import relations.
From S2P Require Import Prelude Emit.

Local Open Scope Z_scope.

(** ** Slots *)

Record insn : Type := Insn {
  i_code : Z;
  i_dst : Z;
  i_src : Z;
  i_off : Z;
  i_imm : Z
}.

#[export] Instance insn_eq_dec : EqDecision insn.
Proof. solve_decision. Defined.

Definition decode_slot (b0 b1 b2 b3 b4 b5 b6 b7 : Init.Byte.byte) : insn :=
  Insn (byte.unsigned b0)
       (Z.land (byte.unsigned b1) 0x0f)
       (Z.shiftr (byte.unsigned b1) 4)
       (to_signed 16 (le_combine [b2; b3]))
       (to_signed 32 (le_combine [b4; b5; b6; b7])).

Fixpoint decode_all (b : bytes) : list insn :=
  match b with
  | b0 :: b1 :: b2 :: b3 :: b4 :: b5 :: b6 :: b7 :: rest =>
      decode_slot b0 b1 b2 b3 b4 b5 b6 b7 :: decode_all rest
  | _ => []
  end.

(** The register byte of the encoder. *)
Definition nibbles (d s : Z) : Z := Z.lor (Z.shiftl (Z.land s 0x0f) 4) (Z.land d 0x0f).

Lemma land_15_range v : 0 <= Z.land v 15 < 16.
Proof. change 15 with (Z.ones 4). rewrite Z.land_ones by lia. by apply Z.mod_pos_bound. Qed.

Lemma nibbles_add d s : nibbles d s = 16 * Z.land s 15 + Z.land d 15.
Proof.
  unfold nibbles.
  assert (E : Z.land (Z.shiftl (Z.land s 15) 4) (Z.land d 15) = 0).
  { apply Z.bits_inj'. intros n Hn. rewrite Z.land_spec, Z.bits_0, (Z.land_spec d).
    destruct (Z.lt_ge_cases n 4).
    - by rewrite Z.shiftl_spec_low.
    - change 15 with (Z.ones 4). rewrite (Z.ones_spec_high 4 n) by lia.
      by rewrite !andb_false_r. }
  pose proof (Z.add_lor_land (Z.shiftl (Z.land s 15) 4) (Z.land d 15)) as H.
  rewrite Z.shiftl_mul_pow2 in * by lia. lia.
Qed.

Lemma nibbles_u8 d s : in_u 8 (nibbles d s).
Proof.
  rewrite nibbles_add. pose proof (land_15_range d). pose proof (land_15_range s).
  unfold in_u. lia.
Qed.

Lemma nibble_dst d s : Z.land (nibbles d s) 0x0f = Z.land d 15.
Proof.
  rewrite nibbles_add. change 0x0f with (Z.ones 4). rewrite !Z.land_ones by lia.
  change (2 ^ 4) with 16. rewrite (Z.mul_comm 16), Z.add_comm, Z.mod_add by lia.
  by rewrite Z.mod_mod.
Qed.

Lemma nibble_src d s : Z.shiftr (nibbles d s) 4 = Z.land s 15.
Proof.
  rewrite nibbles_add, Z.shiftr_div_pow2 by lia. change (2 ^ 4) with 16.
  rewrite Z.add_comm, (Z.mul_comm 16), Z.div_add by lia.
  by rewrite (Z.div_small _ _ (land_15_range d)).
Qed.

(** What one slot of the encoder decodes to. *)
Definition Ins (code dst src off imm : Z) : insn :=
  Insn (code mod 256) (Z.land dst 15) (Z.land src 15) (as_i16 off) (as_i32 imm).

(** *** [asm b cs]: the buffer [b] holds exactly the slots [cs] *)

Definition asm (b : bytes) (cs : list insn) : Prop :=
  decode_all b = cs /\ len b = 8 * len cs.

Lemma asm_nil : asm [] [].
Proof. done. Qed.

Lemma decode_all_app a b :
  len a = 8 * len (decode_all a) -> decode_all (a ++ b) = decode_all a ++ decode_all b.
Proof.
  remember (length a) as n eqn:Hn. revert a Hn.
  induction n as [n IH] using lt_wf_ind. intros a ->.
  do 8 (destruct a as [|? a]; [try done; intros Hl; exfalso; unfold len in Hl; simpl in Hl; lia|]).
  cbn [app decode_all]. intros Hl. f_equal.
  apply (IH (length a)); [simpl; lia|done|]. rewrite !len_cons in Hl. lia.
Qed.

Lemma asm_app a b cs ds : asm a cs -> asm b ds -> asm (a ++ b) (cs ++ ds).
Proof.
  intros [<- Ha] [<- Hb]. split; [by apply decode_all_app|]. rewrite !len_app. lia.
Qed.

Lemma asm_len b cs : asm b cs -> len b = 8 * len cs.
Proof. by intros [_ H]. Qed.

Lemma asm_cons b i c cs : asm b [i] -> asm c cs -> asm (b ++ c) (i :: cs).
Proof. intros H1 H2. exact (asm_app _ _ _ _ H1 H2). Qed.

Lemma asm_insn c d s o m : asm (bpf_insn c d s o m) [Ins c d s o m].
Proof.
  split; [|done]. unfold bpf_insn, Ins.
  change (to_le 2 o) with [u8b o; u8b (Z.shiftr o 8)].
  change (to_le 4 m) with [u8b m; u8b (Z.shiftr m 8); u8b (Z.shiftr (Z.shiftr m 8) 8);
                           u8b (Z.shiftr (Z.shiftr (Z.shiftr m 8) 8) 8)].
  cbn [app decode_all]. unfold decode_slot, as_i16, as_i32.
  change (le_combine [u8b o; u8b (Z.shiftr o 8)]) with (le_combine (le_split 2 o)).
  change (le_combine [u8b m; u8b (Z.shiftr m 8); u8b (Z.shiftr (Z.shiftr m 8) 8);
            u8b (Z.shiftr (Z.shiftr (Z.shiftr m 8) 8) 8)]) with (le_combine (le_split 4 m)).
  rewrite !le_combine_split. do 2 f_equal.
  - unfold u8b. by rewrite byte.unsigned_of_Z.
  - rewrite unsigned_u8b by apply nibbles_u8. apply nibble_dst.
  - rewrite unsigned_u8b by apply nibbles_u8. apply nibble_src.
Qed.

(** ** The machine *)

(** The data part of a state; the program counter is kept apart. *)
Record data : Type := Data {
  reg : Z -> Z;
  mem : Z -> Z
}.

Definition set_reg (r v : Z) (f : Z -> Z) : Z -> Z := fun x => if x =? r then v else f x.

Definition wrap64 (v : Z) : Z := v mod 2 ^ 64.

(** Little-endian accesses of [n] bytes. *)
Fixpoint load (n : nat) (f : Z -> Z) (a : Z) : Z :=
  match n with
  | O => 0
  | S n => f a mod 256 + 256 * load n f (a + 1)
  end.

Fixpoint store (n : nat) (a v : Z) (f : Z -> Z) : Z -> Z :=
  match n with
  | O => f
  | S n => set_reg a (v mod 256) (store n (a + 1) (v / 256) f)
  end.

(** The ALU, by the high nibble of the opcode. *)
Definition alu (op a b : Z) : option Z :=
  match op with
  | 0x00 => Some (wrap64 (a + b))
  | 0x10 => Some (wrap64 (a - b))
  | 0x20 => Some (wrap64 (a * b))
  | 0x30 => Some (if b =? 0 then 0 else a / b)
  | 0x40 => Some (Z.lor a b)
  | 0x50 => Some (Z.land a b)
  | 0x60 => Some (wrap64 (Z.shiftl a (b mod 64)))
  | 0x70 => Some (Z.shiftr a (b mod 64))
  | 0x90 => Some (if b =? 0 then a else a mod b)
  | 0xa0 => Some (Z.lxor a b)
  | 0xb0 => Some b
  | 0xc0 => Some (wrap64 (Z.shiftr (to_signed 64 a) (b mod 64)))
  | _ => None
  end.

Definition cond (op a b : Z) : option bool :=
  match op with
  | 0x00 => Some true
  | 0x10 => Some (a =? b)
  | 0x20 => Some (b <? a)
  | 0x30 => Some (b <=? a)
  | 0x50 => Some (negb (a =? b))
  | 0x60 => Some (to_signed 64 b <? to_signed 64 a)
  | 0x70 => Some (to_signed 64 b <=? to_signed 64 a)
  | 0xa0 => Some (a <? b)
  | 0xb0 => Some (a <=? b)
  | 0xc0 => Some (to_signed 64 a <? to_signed 64 b)
  | 0xd0 => Some (to_signed 64 a <=? to_signed 64 b)
  | _ => None
  end.

(** The low [n] bytes of [v], as a big-endian number. *)
Definition bswap (n : nat) (v : Z) : Z := le_combine (rev (to_le n v)).

Definition operand (i : insn) (f : Z -> Z) : Z :=
  if Z.testbit (i_code i) 3 then f (i_src i) else wrap64 (i_imm i).

Definition address (r : Z) (i : insn) (f : Z -> Z) : Z := wrap64 (f r + i_off i).

Definition fetch (code : list insn) (i : Z) : option insn :=
  if 0 <=? i then code !! Z.to_nat i else None.

Section Machine.

(** What a call does, and the address a map reference loads. *)
Variable call : insn -> data -> option data.
Variable map_addr : Z -> Z.

Definition set (r v : Z) (d : data) : data := Data (set_reg r v (reg d)) (mem d).

Definition exec_load (n : nat) (i : insn) (d : data) : option (Z * data) :=
  Some (1, set (i_dst i) (load n (mem d) (address (i_src i) i (reg d))) d).

Definition exec_store (n : nat) (i : insn) (d : data) : option (Z * data) :=
  Some (1, Data (reg d) (store n (address (i_dst i) i (reg d)) (reg d (i_src i)) (mem d))).

Definition exec_alu (i : insn) (d : data) : option (Z * data) :=
  v ← alu (Z.land (i_code i) 0xf0) (reg d (i_dst i)) (operand i (reg d));
  Some (1, set (i_dst i) v d).

Definition exec_jmp (i : insn) (d : data) : option (Z * data) :=
  c ← cond (Z.land (i_code i) 0xf0) (reg d (i_dst i)) (operand i (reg d));
  Some (1 + (if c : bool then i_off i else 0), d).

(** One instruction: how far the program counter moves, and the new data.
    [hi] is the slot after it, the second half of a wide load. *)
Definition exec (hi : option insn) (i : insn) (d : data) : option (Z * data) :=
  match i_code i with
  | 0x18 =>
      hi ← hi;
      Some (2, set (i_dst i)
                 (if i_src i =? 1 then map_addr (i_imm i)
                  else i_imm i mod 2 ^ 32 + 2 ^ 32 * (i_imm hi mod 2 ^ 32)) d)
  | 0x61 => exec_load 4 i d
  | 0x69 => exec_load 2 i d
  | 0x71 => exec_load 1 i d
  | 0x79 => exec_load 8 i d
  | 0x63 => exec_store 4 i d
  | 0x7b => exec_store 8 i d
  | 0xdb =>
      let a := address (i_dst i) i (reg d) in
      Some (1, Data (reg d)
                 (store 8 a (wrap64 (load 8 (mem d) a + reg d (i_src i))) (mem d)))
  | 0xdc => Some (1, set (i_dst i) (bswap (Z.to_nat (i_imm i / 8)) (reg d (i_dst i))) d)
  | 0x85 => d' ← call i d; Some (1, d')
  | 0x95 => None
  | _ =>
      match Z.land (i_code i) 0x07 with
      | 0x07 => exec_alu i d
      | 0x05 => exec_jmp i d
      | _ => None
      end
  end.

Definition machine : Type := Z * data.

Definition step (code : list insn) (m : machine) : option machine :=
  i ← fetch code m.1;
  '(k, d) ← exec (fetch code (m.1 + 1)) i m.2;
  Some (m.1 + k, d).

Fixpoint run (n : nat) (code : list insn) (m : machine) : option machine :=
  match n with
  | O => Some m
  | S n => m' ← step code m; run n code m'
  end.

(** Reachable in some number of steps. *)
Definition steps (code : list insn) : relation machine :=
  fun m m' => exists n, run n code m = Some m'.

Definition halted (code : list insn) (m : machine) : Prop :=
  exists i, fetch code m.1 = Some i /\ i_code i = 0x95.

Lemma run_add n k code m m1 m2 :
  run n code m = Some m1 -> run k code m1 = Some m2 -> run (n + k) code m = Some m2.
Proof.
  revert m. induction n as [|n IH]; intros m; simpl; [by intros [= ->]|].
  destruct (step code m) as [m'|]; [|done]. simpl. apply IH.
Qed.

#[global] Instance steps_refl code : Reflexive (steps code).
Proof. intros m. by exists O. Qed.

#[global] Instance steps_trans code : Transitive (steps code).
Proof. intros m1 m2 m3 [n Hn] [k Hk]. exists (n + k)%nat. by eapply run_add. Qed.

Lemma steps_one code m m' : step code m = Some m' -> steps code m m'.
Proof. intros H. exists 1%nat. simpl. by rewrite H. Qed.

(** ** A fragment inside a larger program *)

Definition code_at (code : list insn) (base : Z) (frag : list insn) : Prop :=
  exists pre post, code = pre ++ frag ++ post /\ base = len pre.

Lemma code_at_whole code : code_at code 0 code.
Proof. exists [], []. split; [by rewrite app_nil_r|done]. Qed.

Lemma code_at_app_l code b f1 f2 : code_at code b (f1 ++ f2) -> code_at code b f1.
Proof. intros (pre & post & -> & ->). exists pre, (f2 ++ post). by rewrite <- app_assoc. Qed.

Lemma code_at_app_r code b f1 f2 b' :
  code_at code b (f1 ++ f2) -> b' = b + len f1 -> code_at code b' f2.
Proof.
  intros (pre & post & -> & ->) ->. exists (pre ++ f1), post.
  rewrite <- !app_assoc. split; [done|len_lia].
Qed.

Lemma code_at_fetch code b frag k i :
  code_at code b frag -> fetch frag k = Some i -> fetch code (b + k) = Some i.
Proof.
  unfold fetch. intros (pre & post & -> & ->).
  destruct (Z.leb_spec 0 k); [|done]. intros Hk.
  destruct (Z.leb_spec 0 (len pre + k)); [|pose_lens; lia].
  rewrite lookup_app_r by (unfold len; lia).
  replace (_ - _)%nat with (Z.to_nat k) by (unfold len; lia).
  rewrite lookup_app_l; [done|]. by eapply lookup_lt_Some.
Qed.

Lemma exec_hi hi hi' i d r :
  (forall j, hi = Some j -> hi' = Some j) -> exec hi i d = Some r -> exec hi' i d = Some r.
Proof.
  intros Hh. unfold exec. destruct (decide (i_code i = 0x18)) as [->|Hne].
  - destruct hi as [j|]; [|done]. by rewrite (Hh j).
  - destruct (i_code i) as [|c|]; try done.
    repeat (destruct c as [c|c|]; try done).
Qed.

Lemma run_at n code b frag m m' :
  code_at code b frag -> run n frag m = Some m' ->
  run n code (b + m.1, m.2) = Some (b + m'.1, m'.2).
Proof.
  intros Hc. revert m. induction n as [|n IH]; intros [p d]; cbn [run]; [by intros [= <-]|].
  unfold step at 1 2. cbn [fst snd].
  destruct (fetch frag p) as [i|] eqn:F; [|done].
  rewrite (code_at_fetch _ _ _ _ _ Hc F). cbn [mbind option_bind].
  destruct (exec (fetch frag (p + 1)) i d) as [[k d']|] eqn:X; [|done].
  rewrite (exec_hi _ (fetch code (b + p + 1)) _ _ _) with (2 := X).
  - cbn [mbind option_bind]. intros H. apply IH in H. cbn [fst snd] in H.
    by replace (b + p + k) with (b + (p + k)) by lia.
  - intros j Hj. rewrite <- Z.add_assoc. by eapply code_at_fetch.
Qed.

(** A fragment that runs alone to its end runs through inside the program. *)
Lemma steps_at code b frag n d d' b' :
  code_at code b frag -> run n frag (0, d) = Some (len frag, d') -> b' = b + len frag ->
  steps code (b, d) (b', d').
Proof.
  intros Hc Hr ->. exists n. apply (run_at _ _ _ _ _ _ Hc) in Hr. cbn [fst snd] in Hr.
  by rewrite Z.add_0_r in Hr.
Qed.

End Machine.
