(* ===== verification/Schema.v ===== *)
(** Record schemas (host/bifrost-support, src/schema.rs): the shape of the
    trace records a probe emits, the sizes and offsets the lowering stores
    through, and the wire form of a schema. *)

From Stdlib Require Import Strings.String.
From stdpp Require Import strings pretty.
From S2P Require Import Utf8 Prelude.

Local Open Scope Z_scope.
Local Open Scope list_scope.

(** A string literal as the bytes of a [&str]. *)
Definition str (s : string) : bytes := String.list_byte_of_string s.

Inductive SchemaDecodeError : Type :=
| HeaderTooShort
| FieldHeaderOutOfRange
| FieldNameOutOfRange
| FieldNameNotUtf8
| BytesStringLenOutOfRange
| StackMaxDepthOutOfRange
| GuestPtrElemSizeOutOfRange
| UnknownFieldTag (tag : Z)
| PrintfFormatLenOutOfRange
| PrintfFormatBytesOutOfRange
| PrintfFormatNotUtf8.

Inductive FieldKind : Type :=
| FU8 | FU16 | FU32 | FU64 | FI64
| FBytes (max_len : Z)
| FString (max_len : Z)
| FKernelStack (max_depth : Z)
| FUserStack (max_depth : Z)
| FGuestPtr (elem_size : Z).

#[export] Instance FieldKind_eq_dec : EqDecision FieldKind.
Proof. solve_decision. Defined.

Definition tag (k : FieldKind) : Z :=
  match k with
  | FU8 => 1 | FU16 => 2 | FU32 => 3 | FU64 => 4 | FI64 => 5
  | FBytes _ => 6 | FString _ => 7
  | FKernelStack _ => 8 | FUserStack _ => 9
  | FGuestPtr _ => 10
  end.

(** [FieldKind::record_size] *)
Definition kind_size (k : FieldKind) : Z :=
  match k with
  | FU8 => 1
  | FU16 => 2
  | FU32 | FGuestPtr _ => 4
  | FU64 | FI64 => 8
  | FBytes max_len | FString max_len => max_len
  | FKernelStack max_depth | FUserStack max_depth => max_depth * 8
  end.

Record Field : Type := {
  field_name : bytes;
  field_kind : FieldKind
}.

Record RecordSchema : Type := {
  fields : list Field;
  printf_format : option bytes
}.

Definition sum_sizes (l : list Field) : Z := foldr (fun f n => kind_size (field_kind f) + n) 0 l.

Definition record_size (s : RecordSchema) : Z := sum_sizes (fields s).

(** [self.fields[..field_idx]]; the index is always one of the list. *)
Definition field_offset (s : RecordSchema) (field_idx : nat) : Z :=
  sum_sizes (take field_idx (fields s)).

(** *** The wire form, written to a [Vec<u8>] *)

Definition encode_tail (k : FieldKind) : bytes :=
  match k with
  | FU8 | FU16 | FU32 | FU64 | FI64 => []
  | FBytes max_len | FString max_len => to_le 4 max_len
  | FKernelStack max_depth | FUserStack max_depth => to_le 2 max_depth
  | FGuestPtr elem_size => [u8b elem_size]
  end.

Definition encode_schema_field {E} (f : Field) : outcome E bytes :=
  let name_bytes := field_name f in
  if 255 <? len name_bytes then Panic
  else Ret ([u8b (tag (field_kind f))] ++ [u8b (len name_bytes)] ++ name_bytes
              ++ encode_tail (field_kind f)).

Fixpoint encode_fields {E} (l : list Field) : outcome E bytes :=
  match l with
  | [] => Ret []
  | f :: l => x ← encode_schema_field f; y ← encode_fields l; Ret (x ++ y)
  end.

Definition encode {E} (s : RecordSchema) : outcome E bytes :=
  let n := len (fields s) in
  if (U16_MAX <? n) || negb (n <? 0x8000) then Panic
  else
    let header := match printf_format s with Some _ => Z.lor n 0x8000 | None => n end in
    body ← encode_fields (fields s);
    match printf_format s with
    | None => Ret (to_le 2 header ++ body)
    | Some fmt =>
        if U32_MAX <? len fmt then Panic
        else Ret (to_le 2 header ++ body ++ to_le 4 (len fmt) ++ fmt)
    end.

Definition decode_kind (b : bytes) (off tag : Z) : outcome SchemaDecodeError (Z * FieldKind) :=
  match tag with
  | 1 => Ret (off, FU8)
  | 2 => Ret (off, FU16)
  | 3 => Ret (off, FU32)
  | 4 => Ret (off, FU64)
  | 5 => Ret (off, FI64)
  | 6 | 7 =>
      if len b <? off + 4 then Throw BytesStringLenOutOfRange
      else
        max_len ← le_at 4 b off;
        Ret (off + 4, if tag =? 6 then FBytes max_len else FString max_len)
  | 8 | 9 =>
      if len b <? off + 2 then Throw StackMaxDepthOutOfRange
      else
        max_depth ← le_at 2 b off;
        Ret (off + 2, if tag =? 8 then FKernelStack max_depth else FUserStack max_depth)
  | 10 =>
      if len b <? off + 1 then Throw GuestPtrElemSizeOutOfRange
      else elem_size ← byte_at b off; Ret (off + 1, FGuestPtr elem_size)
  | _ => Throw (UnknownFieldTag tag)
  end.

Definition decode_schema_field (b : bytes) (off : Z) : outcome SchemaDecodeError (Z * Field) :=
  if len b <? off + 2 then Throw FieldHeaderOutOfRange
  else
    tag ← byte_at b off;
    name_len ← byte_at b (off + 1);
    let off := off + 2 in
    if len b <? off + name_len then Throw FieldNameOutOfRange
    else
      raw ← slice b off (off + name_len);
      name ← ok_or (from_utf8 raw) FieldNameNotUtf8;
      '(off, kind) ← decode_kind b (off + name_len) tag;
      Ret (off, {| field_name := name; field_kind := kind |}).

Fixpoint decode_fields (n : nat) (b : bytes) (off : Z)
  : outcome SchemaDecodeError (Z * list Field) :=
  match n with
  | O => Ret (off, [])
  | S n =>
      '(off, f) ← decode_schema_field b off;
      '(off, l) ← decode_fields n b off;
      Ret (off, f :: l)
  end.

Definition decode (b : bytes) : outcome SchemaDecodeError (RecordSchema * Z) :=
  if len b <? 2 then Throw HeaderTooShort
  else
    raw ← le_at 2 b 0;
    let has_printf_format := negb (Z.land raw 0x8000 =? 0) in
    let n := Z.land raw 0x7fff in
    '(off, l) ← decode_fields (Z.to_nat n) b 2;
    if has_printf_format then
      if len b <? off + 4 then Throw PrintfFormatLenOutOfRange
      else
        fmt_len ← le_at 4 b off;
        let off := off + 4 in
        if len b <? off + fmt_len then Throw PrintfFormatBytesOutOfRange
        else
          raw ← slice b off (off + fmt_len);
          fmt ← ok_or (from_utf8 raw) PrintfFormatNotUtf8;
          Ret ({| fields := l; printf_format := Some fmt |}, off + fmt_len)
    else Ret ({| fields := l; printf_format := None |}, off).

(** *** The schemas the CLI builds *)

Definition correlation_fields : list Field :=
  [ {| field_name := str "vmid"; field_kind := FU32 |};
    {| field_name := str "probe_id"; field_kind := FU32 |};
    {| field_name := str "gns"; field_kind := FU64 |};
    {| field_name := str "gpid"; field_kind := FU64 |} ].

Definition default_trace : RecordSchema :=
  {| fields := correlation_fields ++ [ {| field_name := str "value"; field_kind := FU64 |} ];
     printf_format := None |}.

Definition for_tracemem (max_len : Z) : RecordSchema :=
  {| fields := correlation_fields
       ++ [ {| field_name := str "tracemem"; field_kind := FBytes max_len |} ];
     printf_format := None |}.

Definition for_kernel_stack (max_depth : Z) : RecordSchema :=
  {| fields := correlation_fields
       ++ [ {| field_name := str "kstack"; field_kind := FKernelStack max_depth |} ];
     printf_format := None |}.

Definition for_user_stack (max_depth : Z) : RecordSchema :=
  {| fields := correlation_fields
       ++ [ {| field_name := str "ustack"; field_kind := FUserStack max_depth |};
            {| field_name := str "exe_path"; field_kind := FString 256 |} ];
     printf_format := None |}.

(** [format!("arg{}", i)] *)
Definition arg_name (i : nat) : bytes := str ("arg" +:+ pretty (N.of_nat i)).

Definition for_printf_with_string_args (format : bytes) (n_args : nat)
    (string_arg_indices : list nat) : RecordSchema :=
  {| fields := correlation_fields
       ++ map (fun i => {| field_name := arg_name i;
                           field_kind := if bool_decide (i ∈ string_arg_indices)
                                         then FString 16 else FU64 |})
              (seq 0 n_args);
     printf_format := Some format |}.

Definition for_printf (format : bytes) (n_args : nat) : RecordSchema :=
  for_printf_with_string_args format n_args [].

(** ** Round trip *)

Definition kind_ok (k : FieldKind) : Prop :=
  match k with
  | FU8 | FU16 | FU32 | FU64 | FI64 => True
  | FBytes v | FString v => in_u 32 v
  | FKernelStack v | FUserStack v => in_u 16 v
  | FGuestPtr v => in_u 8 v
  end.

Definition field_ok (f : Field) : Prop :=
  len (field_name f) <= 255 /\ utf8_valid (field_name f) = true /\ kind_ok (field_kind f).

(** A schema [encode] accepts: what a Rust value satisfies by its types, and
    the three [expect]s. *)
Definition schema_ok (s : RecordSchema) : Prop :=
  Forall field_ok (fields s) /\ len (fields s) < 0x8000 /\
  match printf_format s with
  | Some fmt => utf8_valid fmt = true /\ len fmt <= U32_MAX
  | None => True
  end.

Definition field_bytes (f : Field) : bytes :=
  u8b (tag (field_kind f)) :: u8b (len (field_name f)) :: field_name f
    ++ encode_tail (field_kind f).

Lemma len_tail k : len (encode_tail k) =
  match k with
  | FU8 | FU16 | FU32 | FU64 | FI64 => 0
  | FBytes _ | FString _ => 4
  | FKernelStack _ | FUserStack _ => 2
  | FGuestPtr _ => 1
  end.
Proof. destruct k; cbn [encode_tail]; by rewrite ?len_to_le. Qed.

Lemma tag_u8 k : in_u 8 (tag k).
Proof. destruct k; done. Qed.

Lemma decode_kind_enc b c k s :
  suffix_at b c (encode_tail k ++ s) -> kind_ok k ->
  decode_kind b c (tag k) = Ret (c + len (encode_tail k), k).
Proof.
  intros Hs Hk. pose proof (suffix_at_len _ _ _ Hs) as [H0 Hl]. rewrite len_app in Hl. pose_lens.
  rewrite len_tail in *.
  destruct k; cbn [tag decode_kind encode_tail kind_ok] in *; rewrite ?Z.add_0_r; try done.
  1, 2: destruct (Z.ltb_spec (len b) (c + 4)); [lia|];
    by rewrite (suffix_at_le 4 _ _ _ _ Hs Hk).
  1, 2: destruct (Z.ltb_spec (len b) (c + 2)); [lia|];
    by rewrite (suffix_at_le 2 _ _ _ _ Hs Hk).
  destruct (Z.ltb_spec (len b) (c + 1)); [lia|].
  by rewrite (suffix_at_byte _ _ _ _ Hs Hk).
Qed.

Lemma decode_schema_field_enc b c f s :
  suffix_at b c (field_bytes f ++ s) -> field_ok f ->
  decode_schema_field b c = Ret (c + len (field_bytes f), f).
Proof.
  destruct f as [name k]. unfold field_bytes, field_ok. cbn [field_name field_kind].
  intros S (Hn & Hu & Hk). pose proof (suffix_at_len _ _ _ S) as [H0 Hl].
  cbn [app] in S, Hl. rewrite !len_cons, !len_app in Hl. pose_lens.
  unfold decode_schema_field. destruct (Z.ltb_spec (len b) (c + 2)); [lia|].
  rewrite (suffix_at_byte _ _ _ _ S) by apply tag_u8. rewrite bind_Ret.
  apply (suffix_at_adv _ _ [u8b (tag k)] _ (c + 1)) in S; [|done].
  rewrite (suffix_at_byte _ _ _ _ S) by (unfold in_u; lia). rewrite bind_Ret.
  apply (suffix_at_adv _ _ [u8b (len name)] _ (c + 2)) in S; [|change (len [_]) with 1; lia].
  destruct (Z.ltb_spec (len b) (c + 2 + len name)); [lia|].
  rewrite <- app_assoc in S.
  rewrite (suffix_at_slice _ _ _ _ (c + 2 + len name) S) by lia. rewrite bind_Ret.
  unfold from_utf8. rewrite Hu. cbn [ok_or]. rewrite bind_Ret.
  apply (suffix_at_adv _ _ name _ (c + 2 + len name)) in S; [|done].
  rewrite (decode_kind_enc _ _ _ _ S Hk), bind_Ret. do 2 f_equal. len_simpl. lia.
Qed.

Definition fields_bytes (l : list Field) : bytes := concat (map field_bytes l).

Lemma encode_fields_ok {E} l :
  Forall field_ok l -> encode_fields (E:=E) l = Ret (fields_bytes l).
Proof.
  induction 1 as [|f l [Hn _] _ IH]; [done|]. cbn [encode_fields].
  unfold encode_schema_field. destruct (Z.ltb_spec 255 (len (field_name f))); [lia|].
  rewrite bind_Ret, IH, bind_Ret. done.
Qed.

Lemma decode_schema_fields_enc b l : forall c s,
  Forall field_ok l -> suffix_at b c (fields_bytes l ++ s) ->
  decode_fields (length l) b c = Ret (c + len (fields_bytes l), l).
Proof.
  induction l as [|f l IH]; intros c s Hok S.
  { unfold fields_bytes. cbn [map concat]. by rewrite len_nil, Z.add_0_r. }
  apply list.Forall_cons in Hok as [Hf Hl]. unfold fields_bytes in *. cbn [map concat length] in *.
  rewrite <- app_assoc in S. cbn [decode_fields].
  rewrite (decode_schema_field_enc _ _ _ _ S Hf), bind_Ret.
  adv S (c + len (field_bytes f)). rewrite (IH _ _ Hl S), bind_Ret.
  do 2 f_equal. rewrite len_app. lia.
Qed.

Lemma flag_bits n : 0 <= n < 0x8000 ->
  Z.land (Z.lor n 0x8000) 0x8000 = 0x8000 /\ Z.land (Z.lor n 0x8000) 0x7fff = n /\
  Z.land n 0x8000 = 0 /\ Z.land n 0x7fff = n /\ in_u 16 (Z.lor n 0x8000).
Proof.
  intros Hn.
  assert (L : Z.land n 0x8000 = 0).
  { apply Z.bits_inj'. intros i Hi. rewrite Z.land_spec, Z.bits_0.
    change 0x8000 with (2 ^ 15). rewrite Z.pow2_bits_eqb by lia.
    destruct (Z.eqb_spec 15 i) as [<-|]; [|by rewrite andb_false_r].
    rewrite andb_true_r. apply Z.bits_above_log2; [lia|].
    destruct (decide (n = 0)) as [->|]; [done|]. apply Z.log2_lt_pow2; lia. }
  assert (M : Z.land n 0x7fff = n).
  { change 0x7fff with (Z.ones 15). rewrite Z.land_ones by lia. apply Z.mod_small. lia. }
  split_and!; [| |done|done|].
  - by rewrite Z.land_lor_distr_l, L.
  - rewrite Z.land_lor_distr_l, M. by rewrite Z.lor_0_r.
  - apply in_u_lor; unfold in_u; lia.
Qed.

Lemma encode_shape {E} s header :
  schema_ok s ->
  header = match printf_format s with Some _ => Z.lor (len (fields s)) 0x8000
           | None => len (fields s) end ->
  encode (E:=E) s = Ret (to_le 2 header ++ fields_bytes (fields s) ++
    match printf_format s with Some fmt => to_le 4 (len fmt) ++ fmt | None => [] end).
Proof.
  intros (Hf & Hn & Hfmt) ->. unfold encode. pose_lens.
  destruct (Z.ltb_spec U16_MAX (len (fields s))); [unfold U16_MAX in *; lia|].
  destruct (Z.ltb_spec (len (fields s)) 0x8000); [|lia]. cbn [orb negb].
  rewrite encode_fields_ok, bind_Ret by done.
  destruct (printf_format s) as [fmt|]; [|by rewrite app_nil_r].
  destruct (Z.ltb_spec U32_MAX (len fmt)); [lia|done].
Qed.

(** What [encode] writes for a schema. *)
Definition schema_bytes (s : RecordSchema) : bytes :=
  to_le 2 (match printf_format s with Some _ => Z.lor (len (fields s)) 0x8000 | None => len (fields s) end)
  ++ fields_bytes (fields s)
  ++ match printf_format s with Some fmt => to_le 4 (len fmt) ++ fmt | None => [] end.

Lemma decode_schema_enc s rest : schema_ok s -> decode (schema_bytes s ++ rest) = Ret (s, len (schema_bytes s)).
Proof.
  intros (Hf & Hn & Hfmt). unfold schema_bytes. destruct s as [l fmt]. cbn [fields printf_format] in *.
  pose proof (len_nonneg l) as Hl0.
  destruct (flag_bits (len l) ltac:(lia)) as (F1 & F2 & F3 & F4 & F5).
  set (header := match fmt with Some _ => _ | None => _ end).
  assert (Hh : in_u (8 * Z.of_nat 2) header).
  { unfold header. destruct fmt; [done|]. unfold in_u. lia. }
  match goal with |- decode (?x ++ rest) = _ => set (b := x ++ rest) end.
  assert (S : suffix_at b 0 b) by apply suffix_at_0. unfold b at 2 in S.
  rewrite <- !app_assoc in S. pose proof (suffix_at_len _ _ _ S) as [_ HL].
  rewrite !len_app, len_to_le in HL. pose_lens.
  unfold decode. destruct (Z.ltb_spec (len b) 2); [lia|].
  rewrite (suffix_at_le 2 _ _ _ _ S Hh), bind_Ret. adv S 2.
  assert (En : Z.land header 0x7fff = len l) by (unfold header; by destruct fmt).
  rewrite En. replace (Z.to_nat (len l)) with (length l) by (unfold len; lia).
  rewrite (decode_schema_fields_enc _ _ _ _ Hf S), bind_Ret.
  adv S (2 + len (fields_bytes l)).
  destruct fmt as [fmt|]; unfold header at 1.
  - rewrite F1. change (negb (0x8000 =? 0)) with true. cbn iota. rewrite <- app_assoc in S.
    destruct Hfmt as [Hu Hm]. rewrite len_app, len_to_le in HL. pose proof (len_nonneg fmt).
    destruct (Z.ltb_spec (len b) (2 + len (fields_bytes l) + 4)); [lia|].
    rewrite (suffix_at_le 4 _ _ _ _ S) by (unfold in_u, U32_MAX in *; lia). rewrite bind_Ret.
    adv S (2 + len (fields_bytes l) + 4).
    destruct (Z.ltb_spec (len b) (2 + len (fields_bytes l) + 4 + len fmt)); [lia|].
    rewrite (suffix_at_slice _ _ _ _ _ S eq_refl), bind_Ret.
    unfold from_utf8. rewrite Hu. cbn [ok_or]. rewrite bind_Ret. do 2 f_equal. len_simpl. lia.
  - rewrite F3. change (negb (0 =? 0)) with false. cbn iota. do 2 f_equal. len_simpl. lia.
Qed.

(** C33: a schema survives the wire: decoding what [encode] wrote, followed by
    anything, gives the schema back and the number of bytes it took. *)
Theorem schema_round_trip s rest :
  schema_ok s ->
  exists b, encode (E:=Empty_set) s = Ret b /\ decode (b ++ rest) = Ret (s, len b).
Proof. intros Hs. exists (schema_bytes s). split; [by apply encode_shape|by apply decode_schema_enc]. Qed.

(** *** A sample: the schema of [printf("%s %d", execname, x)] *)

Module SampleSchema.
Definition sample : RecordSchema := for_printf_with_string_args (str "%s %d") 2 [0%nat].
Lemma schema_fine : schema_ok sample.
Proof.
  split_and!; [|done|done]. cbv [fields sample for_printf_with_string_args correlation_fields app map seq].
  repeat (constructor; [split_and!; vm_compute; by repeat split|]). constructor.
Qed.
End SampleSchema.

Lemma schema_round_trip_witness :
  schema_ok SampleSchema.sample /\
  exists b, encode (E:=Empty_set) SampleSchema.sample = Ret b /\
    decode (b ++ []) = Ret (SampleSchema.sample, len b).
Proof.
  split; [exact SampleSchema.schema_fine|].
  exact (schema_round_trip SampleSchema.sample [] SampleSchema.schema_fine).
Defined.
