(* ===== verification/Verify.v ===== *)
(** The host-side static verifier of lowered eBPF (host/bifrost,
    src/verify.rs): [static_check] walks the program slot by slot and stops at
    the first structural fault.  [well_formed] is what it promises, stated on
    the decoded program without reference to the walk; [verify_exact] says the
    check accepts exactly the well-formed programs, never panics, and that the
    error it returns describes a fault the program has. *)

From stdpp Require Import gmap.
From S2P Require Import Prelude Emit Bpf.

Local Open Scope Z_scope.

Inductive VerifyError : Type :=
| BadLength (length : Z)
| BadRegister (insn_idx reg : Z)
| StackOob (insn_idx off : Z)
| BadBranch (insn_idx target : Z)
| DanglingLdDw (insn_idx : Z)
| UnknownHelper (insn_idx helper : Z).

Definition BPF_STACK_SIZE : Z := 512.

Definition known_helpers : gset Z :=
  {[ 1; 2; 5; 8; 14; 16; 35; 67; 113; 125; 182; 131; 132 ]}.

Definition dst_reg (byte1 : Z) : Z := Z.land byte1 0x0f.
Definition src_reg (byte1 : Z) : Z := Z.land (Z.shiftr byte1 4) 0x0f.

Definition insn_at {E} (prog : bytes) (idx : Z) : outcome E bytes :=
  slice prog (idx * 8) (idx * 8 + 8).

Definition read_off {E} (insn : bytes) : outcome E Z :=
  v ← le_at 2 insn 2; Ret (to_signed 16 v).

Definition read_imm {E} (insn : bytes) : outcome E Z :=
  v ← le_at 4 insn 4; Ret (to_signed 32 v).

(** The body of the loop: the index it goes on with. *)
Definition check_insn (prog : bytes) (n i : Z) : outcome VerifyError Z :=
  insn ← insn_at prog i;
  opc ← byte_at insn 0;
  b1 ← byte_at insn 1;
  let dst := dst_reg b1 in
  let src := src_reg b1 in
  off ← read_off insn;
  imm ← read_imm insn;
  if 10 <? dst then Throw (BadRegister i dst)
  else if 10 <? src then Throw (BadRegister i src)
  else
    let cls := Z.land opc 0x07 in
    if cls =? 0 then
      if opc =? 0x18 then
        if n <=? i + 1 then Throw (DanglingLdDw i)
        else
          next ← insn_at prog (i + 1);
          b0 ← byte_at next 0;
          if negb (b0 =? 0) then Throw (DanglingLdDw i) else Ret (i + 2)
      else Ret (i + 1)
    else if (1 <=? cls) && (cls <=? 3) then
      let mem_reg := if cls =? 1 then src else dst in
      if (mem_reg =? 10) && negb ((- BPF_STACK_SIZE <=? off) && (off <? 0))
      then Throw (StackOob i off) else Ret (i + 1)
    else if cls =? 5 then
      if opc =? 0x95 then Ret (i + 1)
      else if opc =? 0x85 then
        if src =? 2 then Ret (i + 1)
        else if src =? 0 then
          if bool_decide (imm ∈ known_helpers) then Ret (i + 1)
          else Throw (UnknownHelper i imm)
        else Throw (UnknownHelper i imm)
      else
        let target := i + 1 + off in
        if (target <? 0) || (n <? target) then Throw (BadBranch i (as_i32 target))
        else Ret (i + 1)
    else Ret (i + 1).

Fixpoint check_loop (fuel : nat) (prog : bytes) (n i : Z) : outcome VerifyError unit :=
  match fuel with
  | O => Panic
  | S fuel =>
      if i <? n then i ← check_insn prog n i; check_loop fuel prog n i else Ret tt
  end.

(** Every turn of the loop advances by at least one slot. *)
Definition static_check (prog : bytes) : outcome VerifyError unit :=
  if (len prog =? 0) || negb (len prog mod 8 =? 0) then Throw (BadLength (len prog))
  else
    let n := len prog / 8 in
    check_loop (S (Z.to_nat n)) prog n 0.

Definition verify (prog : bytes) : outcome VerifyError unit := static_check prog.

(** ** What a verified program is *)

Definition regs_ok (i : insn) : Prop := i_dst i <= 10 /\ i_src i <= 10.

(** The register a load or store goes through. *)
Definition mem_reg (i : insn) : Z :=
  if Z.land (i_code i) 7 =? 1 then i_src i else i_dst i.

Definition narrow_ok (n k : Z) (i : insn) : Prop :=
  (1 <= Z.land (i_code i) 7 <= 3 -> mem_reg i = 10 -> -512 <= i_off i < 0) /\
  (i_code i = 0x85 -> i_src i = 2 \/ i_src i = 0 /\ i_imm i ∈ known_helpers) /\
  (Z.land (i_code i) 7 = 5 -> i_code i <> 0x85 -> i_code i <> 0x95 ->
    0 <= k + 1 + i_off i <= n).

Inductive code_ok (n : Z) : Z -> list insn -> Prop :=
| ok_end k : code_ok n k []
| ok_wide k lo hi rest :
    i_code lo = 0x18 -> regs_ok lo -> i_code hi = 0 ->
    code_ok n (k + 2) rest -> code_ok n k (lo :: hi :: rest)
| ok_narrow k i rest :
    i_code i <> 0x18 -> regs_ok i -> narrow_ok n k i ->
    code_ok n (k + 1) rest -> code_ok n k (i :: rest).

Definition well_formed (p : bytes) : Prop :=
  p <> [] /\ len p mod 8 = 0 /\ code_ok (len p / 8) 0 (decode_all p).

(** The fault an error speaks of. *)
Definition fault (p : bytes) (e : VerifyError) : Prop :=
  let code := decode_all p in
  match e with
  | BadLength l => l = len p /\ (p = [] \/ len p mod 8 <> 0)
  | BadRegister k r =>
      exists i, fetch code k = Some i /\ (r = i_dst i \/ r = i_src i) /\ 10 < r
  | StackOob k off =>
      exists i, fetch code k = Some i /\ 1 <= Z.land (i_code i) 7 <= 3 /\ mem_reg i = 10 /\
        off = i_off i /\ ~ (-512 <= off < 0)
  | BadBranch k t =>
      exists i, fetch code k = Some i /\ Z.land (i_code i) 7 = 5 /\
        ~ (0 <= k + 1 + i_off i <= len code) /\ t = as_i32 (k + 1 + i_off i)
  | DanglingLdDw k =>
      exists i, fetch code k = Some i /\ i_code i = 0x18 /\
        (forall j, fetch code (k + 1) = Some j -> i_code j <> 0)
  | UnknownHelper k h =>
      exists i, fetch code k = Some i /\ i_code i = 0x85 /\ h = i_imm i /\
        i_src i <> 2 /\ (i_src i = 0 -> h ∉ known_helpers)
  end.

(** ** The walk, slot by slot *)

Lemma decode_whole b : len b mod 8 = 0 -> len b = 8 * len (decode_all b).
Proof.
  remember (length b) as n eqn:Hn. revert b Hn.
  induction n as [n IH] using lt_wf_ind. intros b ->.
  do 8 (destruct b as [|? b]; [by try done; intros H; exfalso; unfold len in H; simpl in H|]).
  cbn [decode_all]. rewrite !len_cons. intros H.
  rewrite (IH (length b)) at 1; [lia|simpl; lia|done|].
  rewrite <- H. rewrite <- (Z_mod_plus_full (len b) 1 8). f_equal. lia.
Qed.

Definition holds_insn (s : bytes) (i : insn) : Prop :=
  exists b1, (forall E, byte_at (E:=E) s 0 = Ret (i_code i)) /\
    (forall E, byte_at (E:=E) s 1 = Ret b1) /\
    dst_reg b1 = i_dst i /\ src_reg b1 = i_src i /\
    (forall E, read_off (E:=E) s = Ret (i_off i)) /\
    (forall E, read_imm (E:=E) s = Ret (i_imm i)).

Lemma slot_reads b0 b1 b2 b3 b4 b5 b6 b7 :
  holds_insn [b0; b1; b2; b3; b4; b5; b6; b7] (decode_slot b0 b1 b2 b3 b4 b5 b6 b7).
Proof.
  exists (byte.unsigned b1). unfold decode_slot. cbn [i_code i_dst i_src i_off i_imm].
  split_and!; try done. unfold src_reg. change 0x0f with (Z.ones 4). rewrite Z.land_ones by lia.
  apply Z.mod_small. pose proof (byte.unsigned_range b1).
  rewrite Z.shiftr_div_pow2 by lia. change (2 ^ 4) with 16.
  split; [apply Z.div_pos; lia|apply Z.div_lt_upper_bound; lia].
Qed.

Lemma insn_at_reads p k :
  len p mod 8 = 0 -> 0 <= k < len (decode_all p) ->
  exists i s, (forall E, insn_at (E:=E) p k = Ret s) /\
    fetch (decode_all p) k = Some i /\ holds_insn s i.
Proof.
  intros Hp Hk. pose proof (decode_whole p Hp) as Hl.
  set (pre := take (Z.to_nat (8 * k)) p). set (post := drop (Z.to_nat (8 * k)) p).
  assert (Hpre : len pre = 8 * k) by (unfold pre; rewrite len_take; lia).
  assert (Hpost : len post = len p - 8 * k) by (unfold post; rewrite len_drop; lia).
  assert (E : p = pre ++ post) by (symmetry; apply take_drop).
  clearbody pre post. subst p.
  do 8 (destruct post as [|? post]; [unfold len in *; simpl in *; lia|]).
  exists (decode_slot b b0 b1 b2 b3 b4 b5 b6), [b; b0; b1; b2; b3; b4; b5; b6].
  split_and!; [| |by apply slot_reads].
  - intros E. unfold insn_at.
    apply (slice_mid pre [b; b0; b1; b2; b3; b4; b5; b6] post); [lia|].
    change (len [b; b0; b1; b2; b3; b4; b5; b6]) with 8. lia.
  - assert (Hm : len pre mod 8 = 0) by (rewrite Hpre, Z.mul_comm; by apply Z.mod_mul).
    apply decode_whole in Hm. rewrite decode_all_app by done. cbn [decode_all].
    unfold fetch. destruct (Z.leb_spec 0 k); [|lia].
    rewrite lookup_app_r by (unfold len in *; lia).
    replace (_ - _)%nat with O by (unfold len in *; lia). done.
Qed.

(** One turn: it goes on past a well-formed instruction, or names a fault. *)
Definition turn (code : list insn) (p : bytes) (k : Z) (i : insn)
    (r : outcome VerifyError Z) : Prop :=
  match r with
  | Ret k' =>
      regs_ok i /\
      (i_code i = 0x18 /\ k' = k + 2 /\
         (exists hi, fetch code (k + 1) = Some hi /\ i_code hi = 0) \/
       i_code i <> 0x18 /\ k' = k + 1 /\ narrow_ok (len code) k i)
  | Throw e =>
      fault p e /\
      forall rest, drop (Z.to_nat k) code = i :: rest -> ~ code_ok (len code) k (i :: rest)
  | Panic => False
  end.

Lemma code_ok_regs n k i rest : code_ok n k (i :: rest) -> regs_ok i.
Proof. by inversion 1. Qed.

Lemma code_ok_narrow n k i rest :
  i_code i <> 0x18 -> code_ok n k (i :: rest) -> narrow_ok n k i.
Proof. intros H. by inversion 1. Qed.

Lemma code_ok_wide n k i rest :
  i_code i = 0x18 -> code_ok n k (i :: rest) ->
  exists hi rest', rest = hi :: rest' /\ i_code hi = 0 /\ code_ok n (k + 2) rest'.
Proof. intros H. inversion 1; subst; [eauto|done]. Qed.

Lemma code_ok_tail n k i rest :
  i_code i <> 0x18 -> code_ok n k (i :: rest) -> code_ok n (k + 1) rest.
Proof. intros H. by inversion 1. Qed.

Lemma fetch_drop code k rest i :
  0 <= k -> drop (Z.to_nat k) code = i :: rest -> fetch code k = Some i /\
    drop (Z.to_nat (k + 1)) code = rest.
Proof.
  intros Hk Hd. split.
  - unfold fetch. destruct (Z.leb_spec 0 k); [|lia].
    rewrite <- (Nat.add_0_r (Z.to_nat k)), <- lookup_drop, Hd. done.
  - replace (Z.to_nat (k + 1)) with (Z.to_nat k + 1)%nat by lia.
    by rewrite <- drop_drop, Hd.
Qed.

Lemma in_stack off : (- BPF_STACK_SIZE <=? off) && (off <? 0) = bool_decide (-512 <= off < 0).
Proof.
  unfold BPF_STACK_SIZE. case_bool_decide; destruct (Z.leb_spec (-512) off),
    (Z.ltb_spec off 0); simpl; try done; lia.
Qed.

Lemma fetch_bound code k i : fetch code k = Some i -> 0 <= k < len code.
Proof.
  unfold fetch. destruct (Z.leb_spec 0 k); [|done]. intros ?%lookup_lt_Some. unfold len. lia.
Qed.

Lemma dangling_turn p k i :
  len p mod 8 = 0 -> 0 <= k -> fetch (decode_all p) k = Some i -> regs_ok i ->
  i_code i = 0x18 ->
  turn (decode_all p) p k i
    (if len (decode_all p) <=? k + 1 then Throw (DanglingLdDw k)
     else next ← insn_at p (k + 1); b0 ← byte_at next 0;
       if negb (b0 =? 0) then Throw (DanglingLdDw k) else Ret (k + 2)).
Proof.
  intros Hp Hk Hi Hregs E18.
  assert (Hno : (forall j, fetch (decode_all p) (k + 1) = Some j -> i_code j <> 0) ->
    turn (decode_all p) p k i (Throw (DanglingLdDw k))).
  { intros Hj. split; [exists i; auto|]. intros rest Hd. destruct (fetch_drop _ _ _ _ Hk Hd) as [_ Hr].
    intros (hi & rest' & -> & Hhi & _)%code_ok_wide; [|done].
    destruct (fetch_drop _ (k + 1) _ _ ltac:(lia) Hr) as [Hf _]. by apply (Hj hi). }
  destruct (Z.leb_spec (len (decode_all p)) (k + 1)) as [Hge|Hlt].
  { apply Hno. intros j ?%fetch_bound. lia. }
  destruct (insn_at_reads p (k + 1) Hp ltac:(lia)) as (j & s & Hs & Hj & b1 & H0 & _).
  rewrite Hs, bind_Ret, H0, bind_Ret.
  destruct (Z.eqb_spec (i_code j) 0); cbn [negb].
  - split; [done|]. left. split_and!; [done..|]. by exists j.
  - apply Hno. intros j' Hj'. rewrite Hj in Hj'. by injection Hj' as <-.
Qed.

Lemma check_insn_turn p k i :
  len p mod 8 = 0 -> 0 <= k -> fetch (decode_all p) k = Some i ->
  turn (decode_all p) p k i (check_insn p (len (decode_all p)) k).
Proof.
  intros Hp Hk Hi.
  assert (Hr : 0 <= k < len (decode_all p)).
  { by eapply fetch_bound. }
  destruct (insn_at_reads p k Hp Hr) as (i' & s & Hs & Hi' & b1 & H0 & H1 & Hd & Hsr & Ho & Hm).
  rewrite Hi in Hi'. injection Hi' as <-.
  unfold check_insn. rewrite Hs, bind_Ret, H0, bind_Ret, H1, bind_Ret, Ho, bind_Ret, Hm, bind_Ret.
  rewrite Hd, Hsr. clear H0 H1 Hd Hsr Ho Hm b1.
  assert (Hreg : forall r, 10 < r -> r = i_dst i \/ r = i_src i ->
    turn (decode_all p) p k i (Throw (BadRegister k r))).
  { intros r Hlt Hri. split; [exists i; auto|]. intros rest _ [? ?]%code_ok_regs. lia. }
  destruct (Z.ltb_spec 10 (i_dst i)) as [|Hdst]; [auto|].
  destruct (Z.ltb_spec 10 (i_src i)) as [|Hsrc]; [auto|]. clear Hreg.
  assert (Hregs : regs_ok i) by done. cbn zeta.
  assert (Hok : i_code i <> 0x18 -> narrow_ok (len (decode_all p)) k i ->
    turn (decode_all p) p k i (Ret (k + 1))) by (intros; split; [done|auto]).
  assert (Hno : forall e, i_code i <> 0x18 -> ~ narrow_ok (len (decode_all p)) k i ->
    fault p e -> turn (decode_all p) p k i (Throw e)).
  { intros e Hn Hnot Hf. split; [done|]. intros rest _ Hc. by eapply Hnot, code_ok_narrow. }
  set (c := Z.land (i_code i) 7) in *.
  assert (C18 : i_code i = 0x18 -> c = 0) by (unfold c; by intros ->).
  assert (C85 : i_code i = 0x85 -> c = 5) by (unfold c; by intros ->).
  destruct (Z.eqb_spec c 0) as [Hc|Hc0].
  { destruct (Z.eqb_spec (i_code i) 0x18) as [E18|N18].
    - by apply dangling_turn.
    - apply Hok; [done|]. unfold narrow_ok. fold c. split_and!; intros; lia. }
  assert (N18 : i_code i <> 0x18) by auto.
  destruct (Z.leb_spec 1 c), (Z.leb_spec c 3); cbn [andb].
  { change (if c =? 1 then i_src i else i_dst i) with (mem_reg i). rewrite in_stack.
    destruct (Z.eqb_spec (mem_reg i) 10) as [Em|Em]; cbn [andb].
    - case_bool_decide as Hin; cbn [negb].
      + apply Hok; [done|]. unfold narrow_ok. fold c. split_and!; intros; lia.
      + apply Hno; [done| |exists i; auto 6]. unfold narrow_ok. fold c. intros (F & _). auto.
    - apply Hok; [done|]. unfold narrow_ok. fold c. split_and!; intros; lia. }
  all: destruct (Z.eqb_spec c 5) as [E5|N5];
    [|apply Hok; [done|]; unfold narrow_ok; fold c; split_and!; intros; lia].
  all: try lia.
  destruct (Z.eqb_spec (i_code i) 0x95) as [E95|N95].
  { apply Hok; [done|]. unfold narrow_ok. fold c. split_and!; intros; lia. }
  destruct (Z.eqb_spec (i_code i) 0x85) as [E85|N85].
  - destruct (Z.eqb_spec (i_src i) 2).
    { apply Hok; [done|]. unfold narrow_ok. fold c. split_and!; intros; auto; lia. }
    destruct (Z.eqb_spec (i_src i) 0); [case_bool_decide as Hin|].
    + apply Hok; [done|]. unfold narrow_ok. fold c. split_and!; intros; auto; lia.
    + apply Hno; [done| |exists i; auto 6]. intros (_ & F & _). destruct (F E85) as [|[]]; auto.
    + apply Hno; [done| |exists i; split_and!; auto; lia].
      intros (_ & F & _). destruct (F E85) as [|[]]; auto.
  - destruct (Z.ltb_spec (k + 1 + i_off i) 0), (Z.ltb_spec (len (decode_all p)) (k + 1 + i_off i));
      cbn [orb];
      [..|apply Hok; [done|]; unfold narrow_ok; fold c; split_and!; intros; lia];
      (apply Hno; [done|intros (_ & _ & F); specialize (F E5 N85 N95); lia
                  |exists i; split_and!; auto; lia]).
Qed.

Lemma check_loop_verdict p fuel : len p mod 8 = 0 ->
  forall k, 0 <= k <= len (decode_all p) -> len (decode_all p) - k < Z.of_nat fuel ->
  match check_loop fuel p (len (decode_all p)) k with
  | Ret _ => code_ok (len (decode_all p)) k (drop (Z.to_nat k) (decode_all p))
  | Throw e => fault p e /\ ~ code_ok (len (decode_all p)) k (drop (Z.to_nat k) (decode_all p))
  | Panic => False
  end.
Proof.
  intros Hp. induction fuel as [|fuel IH]; intros k Hk Hf.
  { lia. }
  cbn [check_loop]. destruct (Z.ltb_spec k (len (decode_all p))) as [Hlt|Hge].
  2: { rewrite drop_ge by (unfold len in *; lia). constructor. }
  destruct (drop (Z.to_nat k) (decode_all p)) as [|i rest] eqn:Hd.
  { apply (f_equal len) in Hd. rewrite len_drop in Hd. change (len (@nil insn)) with 0 in Hd. lia. }
  destruct (fetch_drop _ k _ _ ltac:(lia) Hd) as [Hi Hrest].
  pose proof (check_insn_turn p k i Hp ltac:(lia) Hi) as Ht.
  destruct (check_insn p (len (decode_all p)) k) as [k'|e|]; cbn [turn] in Ht; [|by split; [apply Ht|apply (proj2 Ht)]|done].
  rewrite bind_Ret. destruct Ht as [Hregs [(E18 & -> & hi & Hhi & Ehi)|(N18 & -> & Hn)]].
  - destruct rest as [|hi' rest].
    { pose proof (fetch_bound _ _ _ Hhi). apply (f_equal len) in Hrest.
      rewrite len_drop in Hrest. change (len (@nil insn)) with 0 in Hrest. lia. }
    destruct (fetch_drop _ (k + 1) _ _ ltac:(lia) Hrest) as [Hi2 Hrest2].
    rewrite Hhi in Hi2. injection Hi2 as <-. replace (k + 1 + 1) with (k + 2) in Hrest2 by lia.
    pose proof (fetch_bound _ _ _ Hhi).
    specialize (IH (k + 2) ltac:(lia) ltac:(lia)). rewrite Hrest2 in IH.
    destruct (check_loop _ _ _ _) as [[]|e|]; [by constructor|split; [by apply IH|]|done].
    intros (hi2 & rest2 & [= <- <-] & _ & Hc)%code_ok_wide; [by apply IH|done].
  - specialize (IH (k + 1) ltac:(lia) ltac:(lia)). rewrite Hrest in IH.
    destruct (check_loop _ _ _ _) as [[]|e|]; [by constructor|split; [by apply IH|]|done].
    intros Hc%code_ok_tail; [by apply IH|done].
Qed.

(** A well-formed program is accepted. *)
Lemma verify_complete p : well_formed p -> verify p = Ret tt.
Proof.
  intros (Hne & E8 & Hc). unfold verify, static_check.
  destruct (Z.eqb_spec (len p) 0) as [E0|N0];
    [destruct p; [done|rewrite len_cons in E0; pose_lens; lia]|].
  destruct (Z.eqb_spec (len p mod 8) 0); [cbn [orb negb]|done].
  pose proof (decode_whole p E8) as Hw.
  assert (En : len p / 8 = len (decode_all p)) by (rewrite Hw, Z.mul_comm; by apply Z.div_mul).
  rewrite En in *. pose proof (check_loop_verdict p (S (Z.to_nat (len (decode_all p)))) E8 0) as H.
  pose_lens. specialize (H ltac:(lia) ltac:(lia)). change (drop (Z.to_nat 0) ?l) with l in H.
  destruct (check_loop _ _ _ _) as [[]|err|]; [done| |done]. by apply H in Hc.
Qed.

(** The verdict on any input. *)
Lemma verify_verdict p :
  match verify p with
  | Ret _ => well_formed p
  | Throw e => fault p e /\ ~ well_formed p
  | Panic => False
  end.
Proof.
  unfold verify, static_check. destruct (Z.eqb_spec (len p) 0) as [E0|N0]; cbn [orb].
  { destruct p; [|rewrite len_cons in E0; pose_lens; lia].
    split; [split; [done|by left]|]. by intros []. }
  destruct (Z.eqb_spec (len p mod 8) 0) as [E8|N8]; cbn [negb].
  2: { split; [split; [done|by right]|]. by intros (_ & ? & _). }
  pose proof (decode_whole p E8) as Hw.
  assert (En : len p / 8 = len (decode_all p)) by (rewrite Hw, Z.mul_comm; by apply Z.div_mul).
  assert (Hne : p <> []) by (by intros ->). unfold well_formed. rewrite En.
  pose proof (check_loop_verdict p (S (Z.to_nat (len (decode_all p)))) E8 0) as H.
  pose_lens. specialize (H ltac:(lia) ltac:(lia)). change (drop (Z.to_nat 0) ?l) with l in H.
  destruct (check_loop _ _ _ _) as [[]|e|]; [done| |done].
  split; [apply H|]. intros (_ & _ & Hc). by apply H.
Qed.

(** An accepted program is well formed. *)
Lemma verify_sound p : verify p = Ret tt -> well_formed p.
Proof. pose proof (verify_verdict p) as H. intros E. by rewrite E in H. Qed.

Lemma verify_total p : verify p <> Panic.
Proof. pose proof (verify_verdict p) as H. intros E. by rewrite E in H. Qed.

(** No opcode is refused as such: one instruction of any opcode, with r0, no
    offset and the immediate 1, is accepted before an exit, but for the first
    half of a wide load, which needs its second half.  The module comment
    lists opcode validity among the invariants the check asserts. *)
Lemma any_opcode_accepted c :
  0 <= c < 256 -> c <> 0x18 -> verify (bpf_insn c 0 0 0 1 ++ bpf_exit) = Ret tt.
Proof.
  intros Hc H18.
  assert (T : forallb (fun c => (c =? 0x18) ||
    match verify (bpf_insn c 0 0 0 1 ++ bpf_exit) with Ret _ => true | _ => false end)
    (map Z.of_nat (seq 0 256)) = true) by (vm_compute; reflexivity).
  rewrite forallb_forall in T.
  assert (Hin : In c (map Z.of_nat (seq 0 256))) by (apply in_map_iff; exists (Z.to_nat c); rewrite in_seq; lia).
  specialize (T c Hin). cbv beta in T. destruct (Z.eqb_spec c 0x18); [done|]. cbn [orb] in T.
  by destruct (verify _) as [[]| |].
Qed.

(** C10: the verifier accepts exactly the well-formed programs: not empty,
    whole slots, wide loads paired, registers at most r10, accesses through r10
    inside the stack frame, branches inside the program, and calls to known
    helpers or kernel functions; on any other input it returns an error naming
    a fault the program has, and it never panics.  Opcodes are not validated,
    though the module comment says so ([any_opcode_accepted]). *)
Theorem verify_exact p :
  match verify p with
  | Ret _ => well_formed p
  | Throw e => fault p e /\ ~ well_formed p
  | Panic => False
  end.
Proof. apply verify_verdict. Qed.
