(* ===== verification/CodeFrag.v ===== *)
(** Fragments of eBPF code: what an emitter appends, when the verifier accepts
    it wherever it lands, and which of its slots are kernel-function calls.
    The lowering's safety theorems are proved from these rules. *)

From Stdlib Require Import Strings.String.
From stdpp Require Import gmap.
From S2P Require Import Prelude Emit Bpf Verify.

Local Open Scope Z_scope.
Local Open Scope list_scope.

(** ** Well-formed wherever it lands *)

Definition frag_ok (cs : list insn) : Prop :=
  forall n k, 0 <= k -> k + len cs <= n -> code_ok n k cs.

Lemma code_ok_app n k cs ds :
  code_ok n k cs -> code_ok n (k + len cs) ds -> code_ok n k (cs ++ ds).
Proof.
  induction 1; cbn [app]; intros H'.
  - change (len (@nil insn)) with 0 in H'. by rewrite Z.add_0_r in H'.
  - rewrite !len_cons in H'. constructor; try done. apply IHcode_ok.
    by replace (k + 2 + len rest) with (k + (1 + (1 + len rest))) by lia.
  - rewrite len_cons in H'. apply ok_narrow; try done. apply IHcode_ok.
    by replace (k + 1 + len rest) with (k + (1 + len rest)) by lia.
Qed.

Lemma frag_ok_nil : frag_ok [].
Proof. intros n k _ _. constructor. Qed.

Lemma frag_ok_app cs ds : frag_ok cs -> frag_ok ds -> frag_ok (cs ++ ds).
Proof.
  intros Hc Hd n k Hk Hn. rewrite len_app in Hn. pose_lens.
  apply code_ok_app; [apply Hc; lia|apply Hd; lia].
Qed.

(** An instruction that is fine at any place: it does not branch away. *)
Definition plain (i : insn) : Prop :=
  i_code i <> 0x18 /\ regs_ok i /\
  (1 <= Z.land (i_code i) 7 <= 3 -> mem_reg i = 10 -> -512 <= i_off i < 0) /\
  (i_code i = 0x85 -> i_src i = 2 \/ i_src i = 0 /\ i_imm i ∈ known_helpers) /\
  (Z.land (i_code i) 7 = 5 -> i_code i <> 0x85 -> i_code i <> 0x95 -> i_off i = 0).

Lemma frag_ok_plain i cs : plain i -> frag_ok cs -> frag_ok (i :: cs).
Proof.
  intros (N & R & M & C & J) Hcs n k Hk Hn. rewrite len_cons in Hn. pose_lens.
  apply ok_narrow; [done|done| |apply Hcs; lia].
  split_and!; [done|done|]. intros. rewrite (J ltac:(done)) by done. lia.
Qed.

(** A branch, seen apart from its distance. *)
Definition is_jump (i : insn) : Prop :=
  Z.land (i_code i) 7 = 5 /\ i_code i <> 0x85 /\ i_code i <> 0x95 /\ regs_ok i.

Lemma frag_ok_jump i cs :
  is_jump i -> 0 <= i_off i <= len cs -> frag_ok cs -> frag_ok (i :: cs).
Proof.
  intros (J & N1 & N2 & R) Ho Hcs n k Hk Hn. rewrite len_cons in Hn.
  apply ok_narrow; [by intros E; rewrite E in J|done| |apply Hcs; lia].
  split_and!; [lia|by intros|lia].
Qed.

Lemma frag_ok_wide lo hi cs :
  i_code lo = 0x18 -> regs_ok lo -> i_code hi = 0 -> frag_ok cs -> frag_ok (lo :: hi :: cs).
Proof.
  intros E R H Hcs n k Hk Hn. rewrite !len_cons in Hn. constructor; [done..|].
  apply Hcs; lia.
Qed.

(** ** Patching a branch *)

Definition set_off (off : Z) (i : insn) : insn :=
  Insn (i_code i) (i_dst i) (i_src i) off (i_imm i).

Lemma code_ok_patch n k cs j i off :
  code_ok n k cs -> cs !! j = Some i -> is_jump i ->
  0 <= k + Z.of_nat j + 1 + off <= n -> code_ok n k (alter (set_off off) j cs).
Proof.
  intros H. revert j. induction H as [k|k lo hi rest E R Eh H IH|k c rest N R M H IH];
    intros j Hj (J & N1 & N2 & Ri) Ho; [done| |].
  - destruct j as [|[|j]]; simpl in Hj.
    + injection Hj as ->. by rewrite E in J.
    + injection Hj as ->. by rewrite Eh in J.
    + cbn [alter list_alter]. constructor; try done. apply IH; [done|by split_and!|lia].
  - destruct j as [|j]; simpl in Hj.
    + injection Hj as ->. cbn [alter list_alter]. apply ok_narrow; [done|done| |done].
      split_and!; cbn [set_off i_code i_dst i_src i_off i_imm]; [lia|by intros|lia].
    + cbn [alter list_alter]. apply ok_narrow; [done..|].
      apply IH; [done|by split_and!|lia].
Qed.

Lemma frag_ok_patch cs j i off :
  frag_ok cs -> cs !! j = Some i -> is_jump i ->
  0 <= Z.of_nat j + 1 + off <= len cs -> frag_ok (alter (set_off off) j cs).
Proof.
  intros H Hj Hi Ho n k Hk Hn.
  assert (El : len (alter (set_off off) j cs) = len cs) by (unfold len; by rewrite length_alter).
  rewrite El in Hn. apply (code_ok_patch _ _ _ _ i); [apply H; lia|done..|lia].
Qed.

(** ** Kernel-function calls *)

Definition is_kcall (i : insn) : bool := (i_code i =? 0x85) && (i_src i =? 2).

(** The slots of the kernel-function calls, the first slot counted [base]. *)
Fixpoint kcalls (base : Z) (cs : list insn) : list Z :=
  match cs with
  | [] => []
  | i :: cs => if is_kcall i then base :: kcalls (base + 1) cs else kcalls (base + 1) cs
  end.

Lemma kcalls_app base cs ds : kcalls base (cs ++ ds) = kcalls base cs ++ kcalls (base + len cs) ds.
Proof.
  revert base. induction cs as [|i cs IH]; intros base.
  - change (len (@nil insn)) with 0. by rewrite Z.add_0_r.
  - cbn [app kcalls]. rewrite IH, len_cons.
    replace (base + 1 + len cs) with (base + (1 + len cs)) by lia. by destruct (is_kcall i).
Qed.

Lemma kcalls_shift base d cs : kcalls (base + d) cs = map (fun k => k + d) (kcalls base cs).
Proof.
  revert base. induction cs as [|i cs IH]; intros base; [done|]. cbn [kcalls].
  replace (base + d + 1) with (base + 1 + d) by lia. rewrite IH. by destruct (is_kcall i).
Qed.

Lemma kcalls_patch base cs j off : kcalls base (alter (set_off off) j cs) = kcalls base cs.
Proof.
  revert base j. induction cs as [|i cs IH]; intros base [|j]; try done.
  cbn [alter list_alter kcalls]. by rewrite IH.
Qed.

(** ** What an emitter appends *)

(** The buffers of an emitter in step with the code: [a] holds the slots
    [cs], and its relocations are exactly the kernel-function calls. *)
Definition holds_code (a : Asm) (cs : list insn) : Prop :=
  asm a.1 cs /\ a.2.*1 = map (fun k => k mod 2 ^ 32) (kcalls 0 cs).

(** [f] appends the fragment [frag]. *)
Definition appends (f : Asm -> Asm) (frag : list insn) : Prop :=
  forall a cs, holds_code a cs -> holds_code (f a) (cs ++ frag).

Lemma appends_id : appends (fun a => a) [].
Proof. intros a cs H. by rewrite app_nil_r. Qed.

Lemma appends_seq f g c d :
  appends f c -> appends g d -> appends (fun a => g (f a)) (c ++ d).
Proof.
  intros Hf Hg a cs Ha. rewrite app_assoc. by apply Hg, Hf.
Qed.

(** The slots a list of encoded instructions decodes to. *)
Definition slots (l : list bytes) : list insn := decode_all (concat l).

Definition whole (b : bytes) : Prop := len b = 8 * len (decode_all b).

Lemma asm_whole b cs : asm b cs -> whole b /\ decode_all b = cs.
Proof. intros [<- H]. done. Qed.

Lemma whole_asm b : whole b -> asm b (decode_all b).
Proof. done. Qed.

Lemma slots_cons b l : whole b -> slots (b :: l) = decode_all b ++ slots l.
Proof. intros H. unfold slots. cbn [concat]. by apply decode_all_app. Qed.

Lemma concat_asm l : Forall whole l -> asm (concat l) (slots l).
Proof.
  induction 1 as [|b l Hb Hl IH]; [done|]. rewrite slots_cons by done. cbn [concat].
  apply asm_app; [by apply whole_asm|done].
Qed.

Lemma slots_app l1 l2 : Forall whole l1 -> slots (l1 ++ l2) = slots l1 ++ slots l2.
Proof.
  intros H. unfold slots. rewrite concat_app. apply decode_all_app. by apply concat_asm.
Qed.

Lemma appends_extend l :
  Forall whole l -> kcalls 0 (slots l) = [] -> appends (extend l) (slots l).
Proof.
  intros Hw Hk a cs [Ha Hr]. split; cbn [extend fst snd].
  - apply asm_app; [done|by apply concat_asm].
  - rewrite kcalls_app, Hr. rewrite (kcalls_shift 0 (len cs)), Hk. by rewrite app_nil_r.
Qed.

(** The slot of a kernel-function call. *)
Definition kcall : insn := Ins BPF_CALL 0 BPF_PSEUDO_KFUNC_CALL 0 0.

Lemma appends_kfunc name : appends (emit_kfunc_call name) [kcall].
Proof.
  intros a cs [Ha Hr]. unfold emit_kfunc_call. split; cbn [fst snd].
  - apply asm_app; [done|apply asm_insn].
  - rewrite fmap_app, Hr, kcalls_app, map_app. cbn [fmap list_fmap kcalls fst].
    replace (is_kcall kcall) with true by done.
    by rewrite (asm_len _ _ Ha), Z.mul_comm, Z.div_mul.
Qed.

(** *** The instructions of the encoder *)

Lemma whole_insn c d s o m : whole (bpf_insn c d s o m).
Proof. apply (asm_whole _ _ (asm_insn c d s o m)). Qed.

Lemma whole_app a b : whole a -> whole b -> whole (a ++ b).
Proof. intros Ha Hb. unfold whole. rewrite decode_all_app, !len_app by done. unfold whole in *. lia. Qed.

Lemma decode_insn c d s o m : decode_all (bpf_insn c d s o m) = [Ins c d s o m].
Proof. apply (asm_whole _ _ (asm_insn c d s o m)). Qed.

Lemma slots_insn c d s o m l : slots (bpf_insn c d s o m :: l) = Ins c d s o m :: slots l.
Proof. rewrite slots_cons by apply whole_insn. by rewrite decode_insn. Qed.

(** A two-slot load of a 64-bit immediate or a map reference. *)
Lemma slots_wide d s lo hi l :
  slots ((bpf_insn BPF_LD_IMM_DW_LO d s 0 lo ++ bpf_insn BPF_LD_IMM_DW_HI 0 0 0 hi) :: l)
  = Ins BPF_LD_IMM_DW_LO d s 0 lo :: Ins BPF_LD_IMM_DW_HI 0 0 0 hi :: slots l.
Proof.
  rewrite slots_cons by (apply whole_app; apply whole_insn).
  rewrite decode_all_app by apply whole_insn. by rewrite !decode_insn.
Qed.

Lemma slots_nil : slots [] = [].
Proof. done. Qed.

Lemma land_15 v : 0 <= v < 16 -> Z.land v 15 = v.
Proof. intros H. change 15 with (Z.ones 4). rewrite Z.land_ones by lia. by apply Z.mod_small. Qed.

Lemma as_i16_id v : - 2 ^ 15 <= v < 2 ^ 15 -> as_i16 v = v.
Proof. intros H. by apply (to_signed_mod 16). Qed.

Lemma as_i32_id v : - 2 ^ 31 <= v < 2 ^ 31 -> as_i32 v = v.
Proof. intros H. by apply (to_signed_mod 32). Qed.

(** What the verifier asks of an encoded instruction, on the arguments. *)
Definition insn_req (c d s o m : Z) : Prop :=
  match Z.land c 7 with
  | 1 => s = 10 -> -512 <= o < 0
  | 2 | 3 => d = 10 -> -512 <= o < 0
  | 5 => if c =? 0x85 then s = 2 \/ s = 0 /\ m ∈ known_helpers
         else if c =? 0x95 then True else o = 0
  | _ => c <> 0x18
  end.

Lemma plain_Ins c d s o m :
  0 <= c < 256 -> 0 <= d <= 10 -> 0 <= s <= 10 -> - 2 ^ 15 <= o < 2 ^ 15 ->
  - 2 ^ 31 <= m < 2 ^ 31 -> insn_req c d s o m -> plain (Ins c d s o m).
Proof.
  intros Hc Hd Hs Ho Hm Hr. unfold Ins.
  rewrite Z.mod_small, !land_15, as_i16_id, as_i32_id by lia.
  unfold plain, regs_ok, mem_reg. cbn [i_code i_dst i_src i_off i_imm].
  assert (E18 : c = 0x18 -> Z.land c 7 = 0) by (by intros ->).
  assert (E85 : c = 0x85 -> Z.land c 7 = 5) by (by intros ->).
  assert (Hcl : 0 <= Z.land c 7 < 8).
  { change 7 with (Z.ones 3). rewrite Z.land_ones by lia. by apply Z.mod_pos_bound. }
  unfold insn_req in Hr. set (cls := Z.land c 7) in *. clearbody cls.
  assert (cls = 0 \/ cls = 1 \/ cls = 2 \/ cls = 3 \/ cls = 4 \/ cls = 5 \/ cls = 6 \/ cls = 7)
    as Hcase by lia.
  destruct Hcase as [->|[->|[->|[->|[->|[->|[->| ->]]]]]]];
    cbn [Z.eqb Pos.eqb] in *; split_and!; intros; try lia; try (by apply Hr).
  - destruct (Z.eqb_spec c 0x85); [done|lia].
  - destruct (Z.eqb_spec c 0x85); [lia|]. destruct (Z.eqb_spec c 0x95); [lia|done].
Qed.

(** *** Emitters the verifier accepts *)

(** An element of an [extend] list: one plain instruction that is not a
    kernel-function call, or a two-slot load. *)
Inductive good : bytes -> Prop :=
| good_insn c d s o m :
    0 <= c < 256 -> 0 <= d <= 10 -> 0 <= s <= 10 -> - 2 ^ 15 <= o < 2 ^ 15 ->
    - 2 ^ 31 <= m < 2 ^ 31 -> insn_req c d s o m -> (c = 0x85 -> s <> 2) ->
    good (bpf_insn c d s o m)
| good_wide d s lo hi :
    0 <= d <= 10 -> 0 <= s <= 10 ->
    good (bpf_insn BPF_LD_IMM_DW_LO d s 0 lo ++ bpf_insn BPF_LD_IMM_DW_HI 0 0 0 hi).

Lemma good_whole b : good b -> whole b.
Proof. destruct 1; [apply whole_insn|apply whole_app; apply whole_insn]. Qed.

Lemma good_frag b l :
  good b -> frag_ok (slots l) -> kcalls 0 (slots l) = [] ->
  frag_ok (slots (b :: l)) /\ kcalls 0 (slots (b :: l)) = [].
Proof.
  intros Hg Hf Hk. pose proof (good_whole _ Hg) as Hw. destruct Hg as [c d s o m Hc Hd Hs Ho Hm Hr Hn|].
  - rewrite slots_insn. split; [by apply frag_ok_plain; [apply plain_Ins|]|].
    cbn [kcalls]. rewrite (kcalls_shift 0 1), Hk.
    replace (is_kcall (Ins c d s o m)) with false; [done|].
    unfold is_kcall, Ins. cbn [i_code i_src]. rewrite Z.mod_small, land_15 by lia.
    destruct (Z.eqb_spec c 0x85), (Z.eqb_spec s 2); try done. exfalso. by apply Hn.
  - rewrite slots_wide. split.
    + apply frag_ok_wide; [done| |done|done]. unfold Ins, regs_ok. cbn [i_dst i_src].
      rewrite !land_15 by lia. lia.
    + cbn [kcalls]. replace (is_kcall (Ins BPF_LD_IMM_DW_LO d s 0 lo)) with false by done.
      replace (is_kcall (Ins BPF_LD_IMM_DW_HI 0 0 0 hi)) with false by done.
      by rewrite Z.add_0_l, (kcalls_shift 0 (1 + 1)), Hk.
Qed.

Lemma good_list l : Forall good l ->
  Forall whole l /\ frag_ok (slots l) /\ kcalls 0 (slots l) = [].
Proof.
  induction 1 as [|b l Hb Hl (Hw & Hf & Hk)].
  - split_and!; [done|apply frag_ok_nil|done].
  - split; [constructor; [by apply good_whole|done]|]. by apply good_frag.
Qed.

Definition emits_ok (f : Asm -> Asm) : Prop := exists frag, appends f frag /\ frag_ok frag.

Lemma emits_ok_id : emits_ok (fun a => a).
Proof. exists []. split; [apply appends_id|apply frag_ok_nil]. Qed.

Lemma emits_ok_seq f g : emits_ok f -> emits_ok g -> emits_ok (fun a => g (f a)).
Proof.
  intros (c & Hf & Hc) (d & Hg & Hd). exists (c ++ d).
  split; [by apply appends_seq|by apply frag_ok_app].
Qed.

Lemma emits_ok_extend l : Forall good l -> emits_ok (extend l).
Proof.
  intros (Hw & Hf & Hk)%good_list. exists (slots l). split; [by apply appends_extend|done].
Qed.

Lemma emits_ok_kfunc name : emits_ok (emit_kfunc_call name).
Proof.
  exists [kcall]. split; [apply appends_kfunc|]. apply frag_ok_plain; [|apply frag_ok_nil].
  apply plain_Ins; try done. by left.
Qed.
