(* ===== verification/HostDof.v ===== *)
(** The host's own DOF reader (host/bifrost, src/lib.rs): the parser of the
    container, the DIF instruction decoder, and the descriptors the lowering
    walks (ECBs, action chains, DIFOs, probe descriptions).  It is a second
    implementation of the format that Dof.v models for the lowering crate;
    [host_dof_agrees] relates the two. *)

From Stdlib Require Import Strings.String.
From S2P Require Import Utf8 LowerTypes Dof Prelude.

Local Open Scope Z_scope.
Local Open Scope list_scope.

Definition DOF_MAG_STRING : bytes := map u8b [0x7f; 0x44; 0x4f; 0x46].
Definition DOF_HDR_SIZE : Z := 64.
Definition DOF_SEC_SIZE : Z := 32.

(** [ParseError(String)], by the message that is formatted. *)
Inductive ParseError : Type :=
| InputTooShort (n : Z)
| BadDofMagic (got : bytes)
| BadSecSize (got : Z)
| U32ReadOob (off : Z)
| U64ReadOob (off : Z)
| EcbTooShort
| ActTooShort
| DifoTooShort
| DifoLinks (n : Z).

Inductive SectKind : Type :=
| SNone | SComments | SSource | SEcbDesc | SProbeDesc | SActDesc | SDifoHdr
| SDif | SStrTab | SVarTab | SRelTab | STypTab | SUrelHdr | SKrelHdr | SOptDesc
| SProvider | SProbes | SPrArgs | SPrOffs | SIntTab | SUtsName | SXlTab
| SXlMembers | SXlImport | SXlExport | SPrExport | SPrEnoffs | SOther (v : Z).

#[export] Instance HostSectKind_eq_dec : EqDecision SectKind.
Proof. solve_decision. Defined.

Definition from_u32 (v : Z) : SectKind :=
  match v with
  | 0 => SNone
  | 1 => SComments
  | 2 => SSource
  | 3 => SEcbDesc
  | 4 => SProbeDesc
  | 5 => SActDesc
  | 6 => SDifoHdr
  | 7 => SDif
  | 8 => SStrTab
  | 9 => SVarTab
  | 10 => SRelTab
  | 11 => STypTab
  | 12 => SUrelHdr
  | 13 => SKrelHdr
  | 14 => SOptDesc
  | 15 => SProvider
  | 16 => SProbes
  | 17 => SPrArgs
  | 18 => SPrOffs
  | 19 => SIntTab
  | 20 => SUtsName
  | 21 => SXlTab
  | 22 => SXlMembers
  | 23 => SXlImport
  | 24 => SXlExport
  | 25 => SPrExport
  | 26 => SPrEnoffs
  | other => SOther other
  end.

Record DofHeader : Type := {
  flags : Z;
  hdrsize : Z;
  secsize : Z;
  secnum : Z;
  secoff : Z;
  loadsz : Z;
  filesz : Z
}.

Record DofSection : Type := {
  sec_kind : SectKind;
  sec_align : Z;
  sec_flags : Z;
  sec_entsize : Z;
  sec_offset : Z;
  sec_size : Z
}.

Record Dof : Type := {
  header : DofHeader;
  sections : list DofSection;
  raw : bytes
}.

(** [buf.get(off..off + n)]; the sum is a [usize]. *)
Definition u32_at (buf : bytes) (off : Z) : outcome ParseError Z :=
  e ← add64 off 4;
  ok_or (le_combine <$> slice_get buf off e) (U32ReadOob off).

Definition u64_at (buf : bytes) (off : Z) : outcome ParseError Z :=
  e ← add64 off 8;
  ok_or (le_combine <$> slice_get buf off e) (U64ReadOob off).

Definition parse_section (b : bytes) (off : Z) : outcome ParseError DofSection :=
  k ← u32_at b off;
  o4 ← add64 off 4; align ← u32_at b o4;
  o8 ← add64 off 8; fl ← u32_at b o8;
  o12 ← add64 off 12; en ← u32_at b o12;
  o16 ← add64 off 16; offs ← u64_at b o16;
  o24 ← add64 off 24; sz ← u64_at b o24;
  Ret {| sec_kind := from_u32 k; sec_align := align; sec_flags := fl; sec_entsize := en;
         sec_offset := offs; sec_size := sz |}.

(** [for i in 0..secnum { .. sections.push(..) }], from [i] on. *)
Fixpoint parse_sections (n : nat) (b : bytes) (secoff i : Z)
  : outcome ParseError (list DofSection) :=
  match n with
  | O => Ret []
  | S n =>
      off ← add64 secoff (i * DOF_SEC_SIZE);
      s ← parse_section b off;
      l ← parse_sections n b secoff (i + 1);
      Ret (s :: l)
  end.

Definition parse (b : bytes) : outcome ParseError Dof :=
  if len b <? DOF_HDR_SIZE then Throw (InputTooShort (len b))
  else
    magic ← slice b 0 4;
    if negb (bool_decide (magic = DOF_MAG_STRING)) then Throw (BadDofMagic magic)
    else
      fl ← u32_at b 16;
      hs ← u32_at b 20;
      ss ← u32_at b 24;
      sn ← u32_at b 28;
      so ← u64_at b 32;
      lo ← u64_at b 40;
      fi ← u64_at b 48;
      let header := {| flags := fl; hdrsize := hs; secsize := ss; secnum := sn;
                       secoff := so; loadsz := lo; filesz := fi |} in
      if negb (ss =? DOF_SEC_SIZE) then Throw (BadSecSize ss)
      else
        l ← parse_sections (Z.to_nat sn) b so 0;
        Ret {| header := header; sections := l; raw := b |}.

(** A section's payload; a section that leaves the blob is a panic. *)
Definition section_bytes {E} (d : Dof) (sec : DofSection) : outcome E bytes :=
  let start := sec_offset sec in
  e ← add64 start (sec_size sec);
  slice (raw d) start e.

(** The sections of a kind, without their indices. *)
Definition sections_of (d : Dof) (k : SectKind) : list DofSection :=
  filter (fun s => sec_kind s = k) (sections d).

(** *** DIF instructions *)

Record DifInstr : Type := {
  op : Z;
  r1 : Z;
  r2 : Z;
  rd : Z
}.

Definition decode (raw : Z) : DifInstr :=
  {| op := Z.land (Z.shiftr raw 24) 0xff;
     r1 := Z.land (Z.shiftr raw 16) 0xff;
     r2 := Z.land (Z.shiftr raw 8) 0xff;
     rd := Z.land raw 0xff |}.

Definition imm16 (i : DifInstr) : Z := Z.lor (Z.shiftl (r1 i) 8) (r2 i).

Definition branch_target (i : DifInstr) : Z :=
  Z.lor (Z.lor (Z.shiftl (r1 i) 16) (Z.shiftl (r2 i) 8)) (rd i).

(** Codes from sys/dtrace.h. *)
Definition mnemonic (i : DifInstr) : string :=
  match op i with
  | 0x01 => "OR"%string
  | 0x02 => "XOR"%string
  | 0x03 => "AND"%string
  | 0x04 => "SLL"%string
  | 0x05 => "SRL"%string
  | 0x06 => "SUB"%string
  | 0x07 => "ADD"%string
  | 0x08 => "MUL"%string
  | 0x09 => "SDIV"%string
  | 0x0a => "UDIV"%string
  | 0x0b => "SREM"%string
  | 0x0c => "UREM"%string
  | 0x0d => "NOT"%string
  | 0x0e => "MOV"%string
  | 0x0f => "CMP"%string
  | 0x10 => "TST"%string
  | 0x11 => "BA"%string
  | 0x12 => "BE"%string
  | 0x13 => "BNE"%string
  | 0x14 => "BG"%string
  | 0x15 => "BGU"%string
  | 0x16 => "BGE"%string
  | 0x17 => "BGEU"%string
  | 0x18 => "BL"%string
  | 0x19 => "BLU"%string
  | 0x1a => "BLE"%string
  | 0x1b => "BLEU"%string
  | 0x1c => "LDSB"%string
  | 0x1d => "LDSH"%string
  | 0x1e => "LDSW"%string
  | 0x1f => "LDUB"%string
  | 0x20 => "LDUH"%string
  | 0x21 => "LDUW"%string
  | 0x22 => "LDX"%string
  | 0x23 => "RET"%string
  | 0x24 => "NOP"%string
  | 0x25 => "SETX"%string
  | 0x26 => "SETS"%string
  | 0x27 => "SCMP"%string
  | 0x28 => "LDGA"%string
  | 0x29 => "LDGS"%string
  | 0x2a => "STGS"%string
  | 0x2b => "LDTA"%string
  | 0x2c => "LDTS"%string
  | 0x2d => "STTS"%string
  | 0x2e => "SRA"%string
  | 0x2f => "CALL"%string
  | 0x30 => "PUSHTR"%string
  | 0x31 => "PUSHTV"%string
  | 0x32 => "POPTS"%string
  | 0x33 => "FLUSHTS"%string
  | 0x34 => "LDGAA"%string
  | 0x35 => "LDTAA"%string
  | 0x36 => "STGAA"%string
  | 0x37 => "STTAA"%string
  | 0x38 => "LDLS"%string
  | 0x39 => "STLS"%string
  | 0x3a => "ALLOCS"%string
  | 0x3b => "COPYS"%string
  | 0x3c => "STB"%string
  | 0x3d => "STH"%string
  | 0x3e => "STW"%string
  | 0x3f => "STX"%string
  | 0x40 => "ULDSB"%string
  | 0x41 => "ULDSH"%string
  | 0x42 => "ULDSW"%string
  | 0x43 => "ULDUB"%string
  | 0x44 => "ULDUH"%string
  | 0x45 => "ULDUW"%string
  | 0x46 => "ULDX"%string
  | 0x47 => "RLDSB"%string
  | 0x48 => "RLDSH"%string
  | 0x49 => "RLDSW"%string
  | 0x4a => "RLDUB"%string
  | 0x4b => "RLDUH"%string
  | 0x4c => "RLDUW"%string
  | 0x4d => "RLDX"%string
  | 0x4e => "XLATE"%string
  | 0x4f => "XLARG"%string
  | _ => "?"%string
  end.

(** [bytes.chunks_exact(4)], each read as a [u32]. *)
Fixpoint words32 (b : bytes) : list Z :=
  match b with
  | b0 :: b1 :: b2 :: b3 :: rest => le_combine [b0; b1; b2; b3] :: words32 rest
  | _ => []
  end.

Definition dif_instructions {E} (d : Dof) (sec : DofSection) : outcome E (list DifInstr) :=
  b ← section_bytes d sec; Ret (map decode (words32 b)).

(** *** Descriptors *)

Definition DOF_SECIDX_NONE : Z := U32_MAX.

(** [self.sections.get(idx as usize)] *)
Definition section_get (d : Dof) (idx : Z) : option DofSection := sections d !! Z.to_nat idx.

Record Ecb : Type := {
  probes : Z;
  pred : Z;
  actions : Z;
  ecb_uarg : Z
}.

Definition parse_ecb (b : bytes) : outcome ParseError Ecb :=
  if len b <? 24 then Throw EcbTooShort
  else
    p ← u32_at b 0; q ← u32_at b 4; a ← u32_at b 8; u ← u64_at b 16;
    Ret {| probes := p; pred := q; actions := a; ecb_uarg := u |}.

Record Action : Type := {
  difo : Z;
  act_strtab : Z;
  act_kind : Z;
  ntuple : Z;
  arg : Z;
  act_uarg : Z
}.

Definition parse_action (b : bytes) : outcome ParseError Action :=
  if len b <? 32 then Throw ActTooShort
  else
    di ← u32_at b 0; s ← u32_at b 4; k ← u32_at b 8; n ← u32_at b 12;
    a ← u64_at b 16; u ← u64_at b 24;
    Ret {| difo := di; act_strtab := s; act_kind := k; ntuple := n; arg := a; act_uarg := u |}.

Record Difo : Type := {
  links : list Z;
  rtype_size : Z;
  rtype_kind : Z
}.

Definition parse_difo (b : bytes) : outcome ParseError Difo :=
  if len b <? 8 then Throw DifoTooShort
  else
    k ← byte_at b 0;
    s ← le_at 4 b 4;
    l ← slice b 8 (len b);
    if negb (len l mod 4 =? 0) then Throw (DifoLinks (len l))
    else Ret {| links := words32 l; rtype_size := s; rtype_kind := k |}.

Definition dif_section (d : Difo) : option Z := head (links d).

(** The first link whose section has the kind. *)
Definition link_of_kind (dof : Dof) (k : SectKind) (l : list Z) : option Z :=
  head (filter (fun idx => sec_kind <$> section_get dof idx = Some k) l).

Definition inttab_section_in (d : Difo) (dof : Dof) : option Z :=
  link_of_kind dof SIntTab (links d).
Definition strtab_section_in (d : Difo) (dof : Dof) : option Z :=
  link_of_kind dof SStrTab (links d).

(** [Result::ok] *)
Definition ok {E F A} (m : outcome E A) : outcome F (option A) :=
  match m with Ret a => Ret (Some a) | Throw _ => Ret None | Panic => Panic end.

Definition first_ecb {E} (d : Dof) : outcome E (option Ecb) :=
  match sections_of d SEcbDesc with
  | [] => Ret None
  | sec :: _ => b ← section_bytes d sec; ok (parse_ecb b)
  end.

(** [.filter_map(|x| f(x).ok()).collect()] *)
Fixpoint filter_ok {E F A B} (f : A -> outcome E B) (l : list A) : outcome F (list B) :=
  match l with
  | [] => Ret []
  | x :: l =>
      o ← ok (f x);
      rest ← filter_ok f l;
      Ret (match o with Some y => y :: rest | None => rest end)
  end.

Definition all_ecbs {E} (d : Dof) : outcome E (list Ecb) :=
  filter_ok (fun sec => b ← section_bytes d sec; parse_ecb b) (sections_of d SEcbDesc).

(** [bytes.chunks_exact(n)] *)
Fixpoint chunks_fuel (fuel n : nat) (b : bytes) : list bytes :=
  match fuel with
  | O => []
  | S fuel => if len b <? Z.of_nat n then [] else take n b :: chunks_fuel fuel n (drop n b)
  end.
Definition chunks_exact (n : nat) (b : bytes) : list bytes := chunks_fuel (length b) n b.

Definition actions_in_chain {E} (d : Dof) (start_sec_idx : Z) : outcome E (list Action) :=
  if start_sec_idx =? DOF_SECIDX_NONE then Ret []
  else
    match section_get d start_sec_idx with
    | None => Ret []
    | Some sec =>
        if negb (bool_decide (sec_kind sec = SActDesc)) then Ret []
        else b ← section_bytes d sec; filter_ok parse_action (chunks_exact 32 b)
    end.

(** [Dof::difo] *)
Definition difo_at {E} (d : Dof) (sec_idx : Z) : outcome E (option Difo) :=
  if sec_idx =? DOF_SECIDX_NONE then Ret None
  else
    match section_get d sec_idx with
    | None => Ret None
    | Some sec =>
        if negb (bool_decide (sec_kind sec = SDifoHdr)) then Ret None
        else b ← section_bytes d sec; ok (parse_difo b)
    end.

Record ProbeDescTuple : Type := {
  provider : bytes;
  module_ : bytes;
  function : bytes;
  name : bytes;
  id : Z
}.

(** The NUL-terminated string at [start] of a string table. *)
Definition until_nul (b : bytes) : bytes :=
  match list_find (fun x => byte.unsigned x = 0) b with
  | Some (n, _) => take n b
  | None => b
  end.

(** The closure [read_str] of [probe_descs]. *)
Definition read_str {E} (d : Dof) (strtab_idx stridx : Z) : outcome E bytes :=
  match section_get d strtab_idx with
  | Some s =>
      if bool_decide (sec_kind s = SStrTab) then
        tab ← section_bytes d s;
        Ret (if len tab <=? stridx then []
             else default [] (from_utf8 (until_nul (drop (Z.to_nat stridx) tab))))
      else Ret []
  | None => Ret []
  end.

Definition probe_desc (d : Dof) (chunk : bytes) : outcome ParseError ProbeDescTuple :=
  strtab_idx ← u32_at chunk 0;
  prov ← u32_at chunk 4;
  modn ← u32_at chunk 8;
  func ← u32_at chunk 12;
  nm ← u32_at chunk 16;
  id ← u32_at chunk 20;
  p ← read_str d strtab_idx prov;
  m ← read_str d strtab_idx modn;
  f ← read_str d strtab_idx func;
  n ← read_str d strtab_idx nm;
  Ret {| provider := p; module_ := m; function := f; name := n; id := id |}.

Definition probe_descs {E} (d : Dof) (sec_idx : Z) : outcome E (list ProbeDescTuple) :=
  if sec_idx =? DOF_SECIDX_NONE then Ret []
  else
    match section_get d sec_idx with
    | None => Ret []
    | Some sec =>
        if negb (bool_decide (sec_kind sec = SProbeDesc)) then Ret []
        else b ← section_bytes d sec; filter_ok (probe_desc d) (chunks_exact 24 b)
    end.

(** ** Agreement with the lowering crate's parser *)

Lemma u32_at_le b off v :
  0 <= off -> off + 4 <= U64_MAX -> le_at (E:=ParseError) 4 b off = Ret v -> u32_at b off = Ret v.
Proof.
  intros H0 H1. unfold u32_at, le_at, slice, add64.
  destruct (Z.leb_spec (off + 4) U64_MAX); [|lia]. rewrite bind_Ret.
  change (off + Z.of_nat 4) with (off + 4). by destruct (slice_get b off (off + 4)).
Qed.

Lemma u64_at_le b off v :
  0 <= off -> off + 8 <= U64_MAX -> le_at (E:=ParseError) 8 b off = Ret v -> u64_at b off = Ret v.
Proof.
  intros H0 H1. unfold u64_at, le_at, slice, add64.
  destruct (Z.leb_spec (off + 8) U64_MAX); [|lia]. rewrite bind_Ret.
  change (off + Z.of_nat 8) with (off + 8). by destruct (slice_get b off (off + 8)).
Qed.

(** A field of a table row, read in the row and in the blob. *)
Lemma row_field {E} n b o hi raw k :
  slice (E:=Empty_set) b o hi = Ret raw -> 0 <= k -> k + Z.of_nat n <= len raw ->
  le_at (E:=E) n b (o + k) = Ret (unwrap_or (read_le_opt n raw k) 0).
Proof.
  intros Hs Hk Hn. unfold read_le_opt. rewrite slice_get_spec by lia.
  replace (Z.to_nat (k + Z.of_nat n - k)) with n by lia. cbn [fmap option_fmap option_map unwrap_or].
  unfold le_at. rewrite (slice_part (E:=Empty_set) b o hi (take (Z.to_nat k) raw)
    (take n (drop (Z.to_nat k) raw)) (drop n (drop (Z.to_nat k) raw))); [done|..].
  - by rewrite !take_drop.
  - rewrite len_take. lia.
  - rewrite len_take, len_drop. lia.
Qed.

(** What the host's section record says, as the other crate's header does. *)
Definition same_section (s : DofSection) (h : SectionHeader) : Prop :=
  sec_kind s = from_u32 (kind_raw h) /\ sec_align s = align h /\
  sec_flags s = Dof.flags h /\ sec_entsize s = entsize h /\
  sec_offset s = offset h /\ sec_size s = Dof.size h.

Lemma parse_section_row b off raw :
  slice (E:=Empty_set) b off (off + 32) = Ret raw -> off + 32 <= U64_MAX ->
  exists s, parse_section b off = Ret s /\ same_section s (parse_section_header raw).
Proof.
  intros Hs Hu. pose proof (slice_Ret _ _ _ _ Hs) as (H0 & _ & Hl).
  assert (A : forall k, 0 <= k <= 24 -> add64 (E:=ParseError) off k = Ret (off + k)).
  { intros k Hk. unfold add64. destruct (Z.leb_spec (off + k) U64_MAX); [done|lia]. }
  assert (F4 : forall k, 0 <= k <= 28 ->
    u32_at b (off + k) = Ret (unwrap_or (read_u32_le raw k) 0)).
  { intros k Hk. apply u32_at_le; [lia..|]. by apply (row_field 4 b off (off + 32)); [|lia..]. }
  assert (F8 : forall k, 0 <= k <= 24 ->
    u64_at b (off + k) = Ret (unwrap_or (read_u64_le raw k) 0)).
  { intros k Hk. apply u64_at_le; [lia..|]. by apply (row_field 8 b off (off + 32)); [|lia..]. }
  pose proof (F4 0 ltac:(lia)) as F0. rewrite Z.add_0_r in F0.
  unfold parse_section. rewrite F0, bind_Ret.
  rewrite (A 4), bind_Ret, (F4 4), bind_Ret, (A 8), bind_Ret, (F4 8), bind_Ret by lia.
  rewrite (A 12), bind_Ret, (F4 12), bind_Ret, (A 16), bind_Ret, (F8 16), bind_Ret by lia.
  rewrite (A 24), bind_Ret, (F8 24), bind_Ret by lia.
  eexists. split; [done|]. by split_and!.
Qed.

Lemma parse_sections_rows b so tab n : forall i,
  0 <= i -> in_u 64 so -> so + (i + Z.of_nat n) * 32 < 2 ^ 63 ->
  slice (E:=Empty_set) b so (so + (i + Z.of_nat n) * 32) = Ret tab ->
  exists l, parse_sections n b so i = Ret l /\ length l = n /\
    forall k, (k < n)%nat ->
      exists s raw, l !! k = Some s /\
        slice_get tab ((i + Z.of_nat k) * 32) ((i + Z.of_nat k) * 32 + 32) = Some raw /\
        same_section s (parse_section_header raw).
Proof.
  induction n as [|n IH]; intros i Hi Hso Hb Ht.
  { exists []. split_and!; [done..|]. lia. }
  pose proof (slice_Ret _ _ _ _ Ht) as (_ & _ & Hl). unfold in_u in Hso.
  assert (Hraw : slice (E:=Empty_set) b (so + i * 32) (so + i * 32 + 32)
    = Ret (take 32 (drop (Z.to_nat (i * 32)) tab))).
  { eapply (slice_part b so _ (take (Z.to_nat (i * 32)) tab) _
      (drop 32 (drop (Z.to_nat (i * 32)) tab))).
    - rewrite !take_drop. exact Ht.
    - rewrite len_take. lia.
    - rewrite len_take, len_drop. lia. }
  destruct (parse_section_row _ _ _ Hraw) as (s & Hp & Hsame); [unfold U64_MAX; lia|].
  destruct (IH (i + 1)) as (l & Hpl & Hlen & Hrows);
    [lia|done|lia|by replace (i + 1 + Z.of_nat n) with (i + Z.of_nat (S n)) by lia|].
  exists (s :: l). cbn [parse_sections]. unfold add64 at 1, DOF_SEC_SIZE.
  destruct (Z.leb_spec (so + i * 32) U64_MAX); [|unfold U64_MAX in *; lia].
  rewrite bind_Ret, Hp, bind_Ret, Hpl, bind_Ret. split_and!; [done|by simpl; f_equal|].
  intros [|k] Hk.
  - exists s, (take 32 (drop (Z.to_nat (i * 32)) tab)). split_and!; [done| |done].
    rewrite Z.add_0_r, slice_get_spec by lia. do 2 f_equal. lia.
  - destruct (Hrows k ltac:(lia)) as (s' & raw & Hs' & Hg & Hsm). exists s', raw.
    replace (i + Z.of_nat (S k)) with (i + 1 + Z.of_nat k) by lia. done.
Qed.

Lemma section_bytes_same d s h b view i bs :
  same_section s h -> raw d = b -> blob view = b -> slice_len_ok b ->
  section_at view i = Some h -> Dof.section_bytes view i = Ret bs ->
  section_bytes (E:=Empty_set) d s = Ret bs.
Proof.
  intros (_ & _ & _ & _ & Ho & Hz) Hd Hv Hlen Hat (h' & Hat' & Hle & Hsl & _)%section_bytes_Ret.
  rewrite Hat in Hat'. injection Hat' as <-. unfold section_bytes, add64. rewrite Ho, Hz, Hd.
  rewrite Hv in *. unfold slice_len_ok in Hlen.
  destruct (Z.leb_spec (offset h + Dof.size h) U64_MAX); [|unfold U64_MAX in *; lia].
  rewrite bind_Ret. unfold slice in *. by destruct (slice_get b _ _); simplify_eq.
Qed.

Lemma read_header_fields b h :
  read_header (E:=ParseError) b = Ret (Some h) ->
  slice (E:=ParseError) b 0 16 = Ret (ident h) /\
  u32_at b 16 = Ret (hdr_flags h) /\ u32_at b 20 = Ret (Dof.hdrsize h) /\
  u32_at b 24 = Ret (Dof.secsize h) /\ u32_at b 28 = Ret (Dof.secnum h) /\
  u64_at b 32 = Ret (Dof.secoff h) /\ u64_at b 40 = Ret (Dof.loadsz h) /\
  u64_at b 48 = Ret (Dof.filesz h).
Proof.
  unfold read_header. destruct (_ <? _); [done|]. intros H.
  repeat (match type of H with
    | mbind _ ?m = _ => destruct m eqn:?; [rewrite bind_Ret in H|discriminate..]
    end).
  injection H as <-. cbn [ident hdr_flags Dof.hdrsize Dof.secsize Dof.secnum Dof.secoff
    Dof.loadsz Dof.filesz].
  split_and!; first [done | apply u32_at_le; done | apply u64_at_le; done].
Qed.

Lemma read_header_any {E F} b h :
  read_header (E:=E) b = Ret (Some h) -> read_header (E:=F) b = Ret (Some h).
Proof.
  unfold read_header. destruct (_ <? _); [done|]. unfold le_at, slice.
  destruct (slice_get b 0 16); [rewrite !bind_Ret|done].
  do 8 (match goal with |- mbind _ (mbind _ (match slice_get b ?x ?y with _ => _ end)) = _ -> _ =>
    destruct (slice_get b x y); [rewrite !bind_Ret|done] end).
  by intros [= ->].
Qed.

(** C27: the two DOF parsers of the repository agree: a blob the lowering
    crate accepts is accepted by the host parser, with the same section table,
    and every payload the crate hands out the host reads as the same bytes. *)
Theorem host_dof_agrees b view :
  slice_len_ok b -> parse_blob b = Ret view ->
  exists d, parse b = Ret d /\ len (sections d) = section_count view /\
    forall i h, section_at view i = Some h ->
      exists s, section_get d i = Some s /\ same_section s h /\
        forall bs, Dof.section_bytes view i = Ret bs -> section_bytes (E:=Empty_set) d s = Ret bs.
Proof.
  intros Hlen Hp. pose proof (parse_blob_wf _ _ Hp) as [[Hcnt Htab] Hblob].
  apply parse_blob_Ret in Hp as (h & Hh & Hmag & Hss & Hle & _ & Hc & Hsl).
  pose proof (read_header_Ret _ _ Hh) as (H64 & Hid & Hsn & Hso & _).
  unfold Dof.DOF_HDR_SIZE, Dof.DOF_SEC_SIZE, slice_len_ok in *.
  assert (Hrows : slice (E:=Empty_set) b (Dof.secoff h)
    (Dof.secoff h + (0 + Z.of_nat (Z.to_nat (Dof.secnum h))) * 32) = Ret (sections_bytes view)).
  { replace (0 + Z.of_nat (Z.to_nat (Dof.secnum h))) with (Dof.secnum h) by (unfold in_u in Hsn; lia).
    unfold slice in *. by destruct (slice_get b _ _); simplify_eq. }
  destruct (parse_sections_rows b (Dof.secoff h) (sections_bytes view) (Z.to_nat (Dof.secnum h)) 0)
    as (l & Hl & Hn & Hget); [lia|done|unfold in_u in *; lia|done|].
  pose proof (read_header_fields _ _ (read_header_any _ _ Hh)) as
    (Fi & Ff & Fh & Fs & Fn & Fo & Fl & Fz).
  eexists. unfold parse, DOF_HDR_SIZE, DOF_SEC_SIZE.
  destruct (Z.ltb_spec (len b) 64); [lia|].
  rewrite <- (take_drop 4 (ident h)) in Fi.
  rewrite (slice_part b 0 16 [] (take 4 (ident h)) (drop 4 (ident h)) 0 4 Fi), bind_Ret;
    [|done|rewrite len_take; lia].
  rewrite Hmag. change (bool_decide (DOF_MAG_BYTES = DOF_MAG_STRING)) with true. cbn [negb].
  rewrite Ff, bind_Ret, Fh, bind_Ret, Fs, bind_Ret, Fn, bind_Ret, Fo, bind_Ret, Fl, bind_Ret.
  rewrite Fz, bind_Ret, Hss. cbn zeta. change (negb (32 =? 32)) with false. cbn iota.
  rewrite Hl, bind_Ret. split_and!; [done| |].
  { cbn [sections]. unfold len. rewrite Hn. unfold in_u in Hsn. lia. }
  intros i hd Hat. pose proof (section_at_lt _ _ _ Hat) as Hi.
  pose proof Hat as Hat'. unfold section_at, Dof.DOF_SEC_SIZE in Hat'.
  destruct (section_count view <=? i); [done|].
  destruct (Hget (Z.to_nat i) ltac:(lia)) as (s & raw & Hs & Hraw & Hsame).
  rewrite Z.add_0_l, Z2Nat.id in Hraw by lia. rewrite Hraw in Hat'. injection Hat' as <-.
  exists s. split_and!; [done|done|]. intros bs Hbs.
  by apply (section_bytes_same _ _ _ b view i bs Hsame).
Qed.

Lemma host_dof_agrees_witness :
  exists view d, parse_blob (dof_image [zero_section; strtab_section] (map u8b [1; 2; 3]))
      = Ret view /\
    parse (dof_image [zero_section; strtab_section] (map u8b [1; 2; 3])) = Ret d /\
    len (sections d) = section_count view.
Proof.
  assert (E : exists view, parse_blob (dof_image [zero_section; strtab_section]
    (map u8b [1; 2; 3])) = Ret view) by (eexists; vm_compute; reflexivity).
  destruct E as [view E]. exists view.
  destruct (host_dof_agrees (dof_image [zero_section; strtab_section] (map u8b [1; 2; 3])) view)
    as (d & H1 & H2 & _); [vm_compute; reflexivity|exact E|].
  exists d. split; [exact E|]. by split.
Defined.

(** The host parser does not check where a section lies: it accepts a table
    that [section_bytes] then panics on.  The lowering crate's parser returns
    an error instead. *)
Lemma host_section_out_of_blob :
  match parse (dof_image [strtab_section] []) with
  | Ret d =>
      match section_get d 0 with
      | Some s => section_bytes (E:=Empty_set) d s = Panic
      | None => False
      end
  | _ => False
  end.
Proof. vm_compute. reflexivity. Qed.
