(* ===== verification/LowerState.v ===== *)
(** The state of one lowering pass (host/bifrost, src/lower/state.rs), the
    errors and modes of src/lower/mod.rs, and branch fixup
    (src/lower/branch.rs).

    A lowering function is a state-passing program over [LowerState] that may
    return a [LoweringError].  The two output buffers, [body] and
    [kfunc_relocs], are one field, [out], since the emitters of Emit.v take
    them together. *)

From Stdlib Require Import Strings.String.
From stdpp Require Import gmap.
From S2P Require Import Prelude Emit Schema HostDof.

Local Open Scope Z_scope.
Local Open Scope list_scope.

Inductive LoweringError : Type :=
| IntTabOob (idx len : Z)
| NoIntTab
| StrTabOob (off len : Z)
| NoStrTab
| UnsupportedOp (op : Z) (mnemonic : string)
| UnsupportedVar (var_id : Z)
| UnsupportedSubr (subr : Z)
| TupleStackOverflow (depth cap : Z)
| BadDifInstrCount
| NoEcb
| BadSectionLink
| UnsupportedActionKind (kind : Z)
| ScmpUnsupportedShape (r1_kind r2_kind : string)
| SetsScratchExhausted (count cap : Z).

Inductive RetMode : Type := SchemaAction | Predicate | Schemaless.

Inductive PendingCmp : Type :=
| CmpReg (a b : Z)
| CmpTst (a : Z).

Definition reads_dif_r0 (c : PendingCmp) : bool :=
  match c with
  | CmpReg a b => (a =? 0) || (b =? 0)
  | CmpTst a => a =? 0
  end.

Definition AGG_MAP_FAKE_FD : Z := 200.
Definition TLS_MAP_FAKE_FD : Z := 300.
Definition GLOBAL_MAP_FAKE_FD : Z := 400.

Definition LOCALS_BASE : Z := -200.
Definition LOCALS_SLOT_COUNT : Z := 8.
Definition SETS_INSTANCE_SLOTS : Z := 3.
Definition SETS_SCRATCH_BASE : Z := -344.
Definition SETS_INSTANCE_SIZE : Z := 16.
Definition TUPLE_STACK_SLOTS : Z := 5.

Inductive RegKind : Type := RkUnknown | ExecnameScratch | StrLiteralScratch.

#[export] Instance RegKind_eq_dec : EqDecision RegKind.
Proof. solve_decision. Defined.

Record LowerState : Type := {
  out : Asm;
  insn_offsets : list Z;
  pending_branches : list (Z * Z);
  pending_cmp : option PendingCmp;
  schema : option RecordSchema;
  inttab : option (list Z);
  strtab : option bytes;
  value_off : option Z;
  ret_mode : RetMode;
  agg_map_fake_fd : Z;
  gustack_kfuncs_available : bool;
  needs_vma_table_emit : bool;
  locals : gmap Z Z;
  tuple_depth : Z;
  reg_kind : list RegKind;
  sets_instance_count : Z
}.

Definition body (s : LowerState) : bytes := (out s).1.
Definition kfunc_relocs (s : LowerState) : list (Z * string) := (out s).2.

(** Assignments to the fields. *)
Definition with_out (s : LowerState) (v : Asm) : LowerState :=
  {| out := v; insn_offsets := insn_offsets s; pending_branches := pending_branches s;
     pending_cmp := pending_cmp s; schema := schema s; inttab := inttab s;
     strtab := strtab s; value_off := value_off s; ret_mode := ret_mode s;
     agg_map_fake_fd := agg_map_fake_fd s;
     gustack_kfuncs_available := gustack_kfuncs_available s;
     needs_vma_table_emit := needs_vma_table_emit s; locals := locals s;
     tuple_depth := tuple_depth s; reg_kind := reg_kind s;
     sets_instance_count := sets_instance_count s |}.

(** The branch bookkeeping. *)
Definition with_branches (s : LowerState) (offsets : list Z) (pending : list (Z * Z))
    (cmp : option PendingCmp) : LowerState :=
  {| out := out s; insn_offsets := offsets; pending_branches := pending;
     pending_cmp := cmp; schema := schema s; inttab := inttab s;
     strtab := strtab s; value_off := value_off s; ret_mode := ret_mode s;
     agg_map_fake_fd := agg_map_fake_fd s;
     gustack_kfuncs_available := gustack_kfuncs_available s;
     needs_vma_table_emit := needs_vma_table_emit s; locals := locals s;
     tuple_depth := tuple_depth s; reg_kind := reg_kind s;
     sets_instance_count := sets_instance_count s |}.

(** What a section is lowered with. *)
Definition with_section (s : LowerState) (inttab : option (list Z)) (strtab : option bytes)
    (mode : RetMode) : LowerState :=
  {| out := out s; insn_offsets := insn_offsets s; pending_branches := pending_branches s;
     pending_cmp := pending_cmp s; schema := schema s; inttab := inttab;
     strtab := strtab; value_off := value_off s; ret_mode := mode;
     agg_map_fake_fd := agg_map_fake_fd s;
     gustack_kfuncs_available := gustack_kfuncs_available s;
     needs_vma_table_emit := needs_vma_table_emit s; locals := locals s;
     tuple_depth := tuple_depth s; reg_kind := reg_kind s;
     sets_instance_count := sets_instance_count s |}.

(** The allocations of stack scratch and the provenance of registers. *)
Definition with_scratch (s : LowerState) (locals : gmap Z Z) (depth : Z)
    (kinds : list RegKind) (sets : Z) : LowerState :=
  {| out := out s; insn_offsets := insn_offsets s; pending_branches := pending_branches s;
     pending_cmp := pending_cmp s; schema := schema s; inttab := inttab s;
     strtab := strtab s; value_off := value_off s; ret_mode := ret_mode s;
     agg_map_fake_fd := agg_map_fake_fd s;
     gustack_kfuncs_available := gustack_kfuncs_available s;
     needs_vma_table_emit := needs_vma_table_emit s; locals := locals;
     tuple_depth := depth; reg_kind := kinds;
     sets_instance_count := sets |}.

Definition with_vma (s : LowerState) (v : bool) : LowerState :=
  {| out := out s; insn_offsets := insn_offsets s; pending_branches := pending_branches s;
     pending_cmp := pending_cmp s; schema := schema s; inttab := inttab s;
     strtab := strtab s; value_off := value_off s; ret_mode := ret_mode s;
     agg_map_fake_fd := agg_map_fake_fd s;
     gustack_kfuncs_available := gustack_kfuncs_available s;
     needs_vma_table_emit := v; locals := locals s;
     tuple_depth := tuple_depth s; reg_kind := reg_kind s;
     sets_instance_count := sets_instance_count s |}.

Definition with_agg_fd (s : LowerState) (fd : Z) : LowerState :=
  {| out := out s; insn_offsets := insn_offsets s; pending_branches := pending_branches s;
     pending_cmp := pending_cmp s; schema := schema s; inttab := inttab s;
     strtab := strtab s; value_off := value_off s; ret_mode := ret_mode s;
     agg_map_fake_fd := fd;
     gustack_kfuncs_available := gustack_kfuncs_available s;
     needs_vma_table_emit := needs_vma_table_emit s; locals := locals s;
     tuple_depth := tuple_depth s; reg_kind := reg_kind s;
     sets_instance_count := sets_instance_count s |}.

Definition lower_m (A : Type) : Type := st LowerState LoweringError A.

(** [state.body.extend_from_slice(..)] and the emitters that append to
    [state.body] and [state.kfunc_relocs]. *)
Definition emit (f : Asm -> Asm) : lower_m unit := st_modify (fun s => with_out s (f (out s))).

Definition emits (l : list bytes) : lower_m unit := emit (extend l).

(** [schema.fields.iter().enumerate().find_map(..)] by name. *)
Fixpoint find_field_from (i : nat) (name : bytes) (l : list Field) : option (nat * Field) :=
  match l with
  | [] => None
  | f :: l => if bool_decide (field_name f = name) then Some (i, f)
              else find_field_from (S i) name l
  end.
Definition find_field (s : RecordSchema) (name : bytes) : option (nat * Field) :=
  find_field_from 0 name (fields s).

Definition new_with_strtab (schema : option RecordSchema) (inttab : option (list Z))
    (strtab : option bytes) : LowerState :=
  {| out := ([], []); insn_offsets := []; pending_branches := []; pending_cmp := None;
     schema := schema; inttab := inttab; strtab := strtab;
     value_off :=
       s ← schema; '(i, _) ← find_field s (str "value"); Some (as_i16 (field_offset s i));
     ret_mode := match schema with Some _ => SchemaAction | None => Schemaless end;
     agg_map_fake_fd := AGG_MAP_FAKE_FD;
     gustack_kfuncs_available := true;
     needs_vma_table_emit := false;
     locals := ∅;
     tuple_depth := 0;
     reg_kind := replicate 8 RkUnknown;
     sets_instance_count := 0 |}.

Definition begin_section : lower_m unit :=
  st_modify (fun s =>
    with_scratch (with_branches s [] (pending_branches s) None)
      (locals s) (tuple_depth s) (replicate 8 RkUnknown) (sets_instance_count s)).

Definition alloc_local (var_id : Z) : lower_m (option Z) := fun s =>
  match locals s !! var_id with
  | Some off => (Ret (Some off), s)
  | None =>
      let n := Z.of_nat (size (locals s)) in
      if LOCALS_SLOT_COUNT <=? n then (Ret None, s)
      else
        let off := LOCALS_BASE - n * 8 in
        (Ret (Some off),
         with_scratch s (<[var_id := off]> (locals s)) (tuple_depth s) (reg_kind s)
           (sets_instance_count s))
  end.

(** *** Branches *)

(** One pending branch: write the slot distance into its offset field.  [as
    isize / 8] truncates toward zero. *)
Definition patch_branch (offsets : list Z) (b : bytes) (branch : Z * Z)
  : outcome LoweringError bytes :=
  let '(branch_off, dif_target) := branch in
  target_byte ← ok_or (offsets !! Z.to_nat dif_target) BadDifInstrCount;
  let slot_off := Z.quot (target_byte - branch_off - 8) 8 in
  write b (branch_off + 2) (to_le 2 (as_i16 slot_off)).

Fixpoint patch_branches (offsets : list Z) (l : list (Z * Z)) (b : bytes)
  : outcome LoweringError bytes :=
  match l with
  | [] => Ret b
  | x :: l => b ← patch_branch offsets b x; patch_branches offsets l b
  end.

(** A failed fixup leaves the patches made so far; every caller gives up. *)
Definition fixup_branches : lower_m unit := fun s =>
  match patch_branches (insn_offsets s) (pending_branches s) (body s) with
  | Ret b => (Ret tt, with_out s (b, kfunc_relocs s))
  | Throw e => (Throw e, s)
  | Panic => (Panic, s)
  end.

Definition emit_branch_placeholder (insn : bytes) (dif_target : Z) : lower_m unit :=
  st_modify (fun s =>
    with_branches (with_out s (extend [insn] (out s))) (insn_offsets s)
      (pending_branches s ++ [(len (body s), dif_target)]) (pending_cmp s)).
