(* ===== verification/LowerDif.v ===== *)
(** One DIF instruction lowered to eBPF (host/bifrost, src/lower/dif.rs), and
    a DIF section (src/lower/mod.rs, [lower_dif_section_into]).  Each arm of
    [lower_one_state] is a definition of its own. *)

From Stdlib Require Import Strings.String.
From stdpp Require Import gmap.
From S2P Require Import Prelude Emit Schema HostDof LowerState.

Local Open Scope Z_scope.
Local Open Scope list_scope.

(** The spill slots of the user-variable arms: [-32 - (r - 1) * 8]. *)
Definition tls_slot (r : Z) : Z := -32 - (r - 1) * 8.

Definition call_clobbered : list Z := [1; 2; 3; 4; 5].

Definition collect_locals (l : list DifInstr) : lower_m unit :=
  st_forM l (fun ins =>
    if (op ins =? 0x38) || (op ins =? 0x39)
    then _ ← alloc_local (imm16 ins); mret tt else mret tt).

Definition collect_locals_in_section (dof : Dof) (sec : DofSection) : lower_m unit :=
  l ← st_lift (dif_instructions dof sec); collect_locals l.

(** *** The arms handled before the register kinds are cleared *)

(** LDLS and STLS: the slot of a [this->] variable. *)
Definition local_slot (var_id : Z) : lower_m Z :=
  o ← alloc_local var_id; st_lift (ok_or o (UnsupportedVar var_id)).

Definition lower_push (rd : Z) : lower_m unit :=
  depth ← st_gets tuple_depth;
  if TUPLE_STACK_SLOTS <=? depth then st_throw (TupleStackOverflow depth TUPLE_STACK_SLOTS)
  else
    emits [bpf_stx_dw 10 rd (TUPLE_STACK_BASE - depth * 8)] ;;
    st_modify (fun s => with_scratch s (locals s) (depth + 1) (reg_kind s)
                                     (sets_instance_count s)).

(** The zero-argument kfunc sequence: spill r1..r5, call, restore. *)
Definition emit_kfunc_value (rd : Z) (name : string) (a : Asm) : Asm :=
  let a := spill ldgs_slot call_clobbered a in
  let a := emit_kfunc_call name a in
  let a := restore ldgs_slot call_clobbered rd a in
  move_result rd a.

Definition lower_subr (rd subr : Z) : lower_m unit :=
  match subr with
  | 11 => emit (emit_single_arg_kfunc_subr rd KFUNC_PROGENYOF)
  | 12 => emit (emit_single_arg_kfunc_subr rd KFUNC_STRLEN)
  | 9 => emit (emit_single_arg_kfunc_subr rd KFUNC_COPYINSTR)
  | 28 => emit (emit_two_arg_kfunc_subr rd KFUNC_STRCHR)
  | 29 => emit (emit_two_arg_kfunc_subr rd KFUNC_STRRCHR)
  | 8 => emit (emit_two_arg_kfunc_subr rd KFUNC_COPYIN)
  | 50 => emit (emit_two_arg_kfunc_subr rd KFUNC_COPYIN)
  | 30 => emit (emit_two_arg_kfunc_subr rd KFUNC_STRSTR)
  | 33 => emit (emit_two_arg_kfunc_subr rd KFUNC_INDEX)
  | 23 => emit (emit_two_arg_kfunc_subr rd KFUNC_STRJOIN)
  | 32 => emit (emit_three_arg_kfunc_subr rd KFUNC_SUBSTR)
  | 10 => emit (emit_kfunc_value rd KFUNC_SPECULATION)
  | 41 => emit (emit_single_arg_kfunc_subr rd KFUNC_SPECULATE)
  | 46 => emit (emit_single_arg_kfunc_subr rd KFUNC_COMMIT)
  | 47 => emit (emit_single_arg_kfunc_subr rd KFUNC_DISCARD)
  | 35 | 38 => emits [bpf_ldx_dw rd 10 TUPLE_STACK_BASE; bpf_to_be rd 16]
  | 36 | 39 => emits [bpf_ldx_dw rd 10 TUPLE_STACK_BASE; bpf_to_be rd 32]
  | 37 | 40 => emits [bpf_ldx_dw rd 10 TUPLE_STACK_BASE; bpf_to_be rd 64]
  | _ => st_throw (UnsupportedSubr subr)
  end.

Definition lower_call (rd subr : Z) : lower_m unit :=
  lower_subr rd subr ;;
  st_modify (fun s => with_scratch s (locals s) 0 (reg_kind s) (sets_instance_count s)).

(** *** Register provenance *)

Definition writes_rd (op : Z) : bool :=
  bool_decide (op ∈ [0x01; 0x02; 0x03; 0x04; 0x05; 0x06; 0x07; 0x08; 0x0a; 0x0c; 0x2e;
                     0x0d; 0x0e; 0x25; 0x26; 0x29; 0x2c; 0x38;
                     0x1c; 0x1d; 0x1e; 0x1f; 0x20; 0x21; 0x22]).

(** [if (rd as usize) < reg_kind.len() { reg_kind[rd] = kind }] *)
Definition stamp (rd : Z) (kind : RegKind) : lower_m unit :=
  st_modify (fun s =>
    with_scratch s (locals s) (tuple_depth s)
      (if rd <? len (reg_kind s) then <[Z.to_nat rd := kind]> (reg_kind s) else reg_kind s)
      (sets_instance_count s)).

(** *** The main match *)

Definition lower_binary (ebpf_op r1 r2 rd : Z) (a : Asm) : Asm :=
  let a := if r1 =? 0 then extend [bpf_mov64_imm rd 0] a
           else if rd =? r1 then a else extend [bpf_mov64_reg rd r1] a in
  let a := if r2 =? 0 then extend [bpf_mov64_imm 0 0] a else a in
  extend [bpf_insn ebpf_op rd r2 0 0] a.

(** [rd = r1], reading DIF's %r0 as zero. *)
Definition lower_mov (r1 rd : Z) (a : Asm) : Asm :=
  if r1 =? 0 then extend [bpf_mov64_imm rd 0] a
  else if rd =? r1 then a else extend [bpf_mov64_reg rd r1] a.

Definition lower_setx (rd idx : Z) : lower_m unit :=
  t ← st_gets inttab;
  table ← st_lift (ok_or t NoIntTab);
  v ← st_lift (ok_or (table !! Z.to_nat idx) (IntTabOob idx (len table)));
  emits [bpf_ld_imm64 rd v].

(** [s.chunks(8)] of at most 15 bytes, each zero-padded and read as a [u64],
    stored at consecutive words from [off]. *)
Definition word_of (chunk : bytes) : Z := le_combine (take 8 (chunk ++ replicate 8 (u8b 0))).

Fixpoint store_chunks (fuel : nat) (s : bytes) (off : Z) : list bytes :=
  match fuel, s with
  | O, _ | _, [] => []
  | S fuel, _ =>
      bpf_ld_imm64 0 (word_of (take 8 s)) :: bpf_stx_dw 10 0 off
        :: store_chunks fuel (drop 8 s) (off + 8)
  end.

(** The literal [s], at most 15 bytes, in the 16-byte slot at [scratch_base]. *)
Definition materialize (rd scratch_base instance_idx : Z) (s : bytes) : lower_m unit :=
  emits [bpf_mov64_imm 0 0; bpf_stx_dw 10 0 scratch_base;
         bpf_stx_dw 10 0 (scratch_base + 8)] ;;
  emits (store_chunks (length s) s scratch_base) ;;
  (if rd =? 10 then mret tt else emits [bpf_mov64_reg rd 10]) ;;
  emits [bpf_alu64_imm 0x07 rd scratch_base] ;;
  st_modify (fun s => with_scratch s (locals s) (tuple_depth s) (reg_kind s)
                                   (instance_idx + 1)) ;;
  stamp rd StrLiteralScratch.

Definition lower_sets (rd off : Z) : lower_m unit :=
  instance_idx ← st_gets sets_instance_count;
  if SETS_INSTANCE_SLOTS <=? instance_idx
  then st_throw (SetsScratchExhausted (instance_idx + 1) SETS_INSTANCE_SLOTS)
  else
    let scratch_base := SETS_SCRATCH_BASE - SETS_INSTANCE_SIZE * instance_idx in
    t ← st_gets strtab;
    strtab_bytes ← st_lift (ok_or t NoStrTab);
    if len strtab_bytes <=? off then st_throw (StrTabOob off (len strtab_bytes))
    else
      let raw := until_nul (drop (Z.to_nat off) strtab_bytes) in
      materialize rd scratch_base instance_idx (take 15 raw).

Definition kind_label (k : RegKind) : string :=
  match k with
  | RkUnknown => "<unknown>"%string
  | ExecnameScratch => "execname"%string
  | StrLiteralScratch => "string-literal"%string
  end.

Definition set_cmp (c : option PendingCmp) : lower_m unit :=
  st_modify (fun s => with_branches s (insn_offsets s) (pending_branches s) c).

Definition lower_scmp (r1 r2 : Z) : lower_m unit :=
  kinds ← st_gets reg_kind;
  let r1_kind := default RkUnknown (kinds !! Z.to_nat r1) in
  let r2_kind := default RkUnknown (kinds !! Z.to_nat r2) in
  let supported :=
    match r1_kind, r2_kind with
    | ExecnameScratch, StrLiteralScratch | StrLiteralScratch, ExecnameScratch
    | ExecnameScratch, ExecnameScratch | StrLiteralScratch, StrLiteralScratch => true
    | _, _ => false
    end in
  if negb supported
  then st_throw (ScmpUnsupportedShape (kind_label r1_kind) (kind_label r2_kind))
  else
    emits [bpf_stx_dw 10 r1 (-16); bpf_stx_dw 10 r2 (-24);
           bpf_ldx_dw 1 10 (-16); bpf_ldx_dw 3 10 (-24);
           bpf_ldx_dw 0 1 0; bpf_ldx_dw 2 3 0;
           bpf_insn BPF_XOR64_REG 0 2 0 0;
           bpf_ldx_dw 4 1 8; bpf_ldx_dw 2 3 8;
           bpf_insn BPF_XOR64_REG 2 4 0 0;
           bpf_insn BPF_OR64_REG 0 2 0 0;
           bpf_ldx_dw r1 10 (-16); bpf_ldx_dw r2 10 (-24)] ;;
    set_cmp (Some (CmpTst 0)).

(** The value of a [ret] to eBPF's r0. *)
Definition ret_value (rd : Z) : bytes :=
  if rd =? 0 then bpf_mov64_imm 0 0 else bpf_mov64_reg 0 rd.

Definition lower_ret (rd : Z) : lower_m unit :=
  mode ← st_gets ret_mode;
  match mode with
  | SchemaAction =>
      off ← st_gets value_off;
      (match off with
       | Some off =>
           (if rd =? 0 then emits [bpf_mov64_imm 0 0] else mret tt) ;;
           emits [bpf_stx_dw RB_PTR_REG rd off]
       | None => mret tt
       end) ;;
      emit (emit_record_submit RB_PTR_REG true true) ;;
      emits [bpf_mov64_imm 0 0; bpf_exit]
  | Predicate => emits [ret_value rd]
  | Schemaless => emits [ret_value rd; bpf_exit]
  end.

Definition branch_insn (op : Z) (cmp : PendingCmp) : outcome LoweringError bytes :=
  match op, cmp with
  | 0x12, CmpReg a b => Ret (bpf_jcc_reg BPF_JEQ_REG a b 0)
  | 0x12, CmpTst a => Ret (bpf_jcc_imm BPF_JEQ_IMM a 0 0)
  | 0x13, CmpReg a b => Ret (bpf_jcc_reg BPF_JNE_REG a b 0)
  | 0x13, CmpTst a => Ret (bpf_jcc_imm BPF_JNE_IMM a 0 0)
  | 0x14, CmpReg a b => Ret (bpf_jcc_reg BPF_JSGT_REG a b 0)
  | 0x14, CmpTst a => Ret (bpf_jcc_imm BPF_JSGT_IMM a 0 0)
  | 0x15, CmpReg a b => Ret (bpf_jcc_reg BPF_JGT_REG a b 0)
  | 0x15, CmpTst a => Ret (bpf_jcc_imm BPF_JGT_IMM a 0 0)
  | 0x16, CmpReg a b => Ret (bpf_jcc_reg BPF_JSGE_REG a b 0)
  | 0x16, CmpTst a => Ret (bpf_jcc_imm BPF_JSGE_IMM a 0 0)
  | 0x17, CmpReg a b => Ret (bpf_jcc_reg BPF_JGE_REG a b 0)
  | 0x17, CmpTst a => Ret (bpf_jcc_imm BPF_JGE_IMM a 0 0)
  | 0x18, CmpReg a b => Ret (bpf_jcc_reg BPF_JSLT_REG a b 0)
  | 0x18, CmpTst a => Ret (bpf_jcc_imm BPF_JSLT_IMM a 0 0)
  | 0x19, CmpReg a b => Ret (bpf_jcc_reg BPF_JLT_REG a b 0)
  | 0x19, CmpTst a => Ret (bpf_jcc_imm BPF_JLT_IMM a 0 0)
  | 0x1a, CmpReg a b => Ret (bpf_jcc_reg BPF_JSLE_REG a b 0)
  | 0x1a, CmpTst a => Ret (bpf_jcc_imm BPF_JSLE_IMM a 0 0)
  | 0x1b, CmpReg a b => Ret (bpf_jcc_reg BPF_JLE_REG a b 0)
  | 0x1b, CmpTst a => Ret (bpf_jcc_imm BPF_JLE_IMM a 0 0)
  | _, _ => Panic
  end.

Definition lower_branch (ins : DifInstr) : lower_m unit :=
  o ← st_gets pending_cmp;
  set_cmp None ;;
  cmp ← st_lift (ok_or o (UnsupportedOp (op ins) (mnemonic ins)));
  (if reads_dif_r0 cmp then emits [bpf_mov64_imm 0 0] else mret tt) ;;
  insn ← st_lift (branch_insn (op ins) cmp);
  emit_branch_placeholder insn (branch_target ins).

(** A map lookup keyed on the stack word at [key_off], loaded into [rd]; a
    missing key reads as zero. *)
Definition lookup_into (rd fd key_off : Z) : list bytes :=
  [bpf_ld_map_fd 1 fd; bpf_mov64_reg 2 10; bpf_alu64_imm 0x07 2 key_off;
   bpf_call HELPER_MAP_LOOKUP_ELEM; bpf_mov64_reg 6 0].
Definition load_or_zero (rd : Z) : list bytes :=
  [bpf_mov64_imm rd 0; bpf_jeq_imm 6 0 1; bpf_ldx_dw rd 6 0].

(** [r0 = pid_tgid << 32 | var_id], stored as the key at [-24]. *)
Definition tls_key (var_id : Z) : list bytes :=
  [bpf_call HELPER_GET_CURRENT_PID_TGID; bpf_alu64_imm BPF_LSH64_IMM 0 32;
   bpf_alu64_imm 0x47 0 var_id; bpf_stx_dw 10 0 (-24)].

Definition lower_ldgs_execname (rd : Z) : lower_m unit :=
  emit (spill ldgs_slot call_clobbered) ;;
  emits [bpf_mov64_reg 1 10; bpf_alu64_imm 0x07 1 (-136); bpf_mov64_imm 2 16;
         bpf_call HELPER_GET_CURRENT_COMM] ;;
  emit (restore ldgs_slot call_clobbered rd) ;;
  (if rd =? 10 then mret tt else emits [bpf_mov64_reg rd 10]) ;;
  emits [bpf_alu64_imm 0x07 rd (-136)] ;;
  stamp rd ExecnameScratch.

Definition lower_ldgs_user (rd var_id : Z) : lower_m unit :=
  emit (spill tls_slot call_clobbered) ;;
  emits [bpf_mov64_imm 0 var_id; bpf_stx_w 10 0 (-8)] ;;
  emits (lookup_into rd GLOBAL_MAP_FAKE_FD (-8)) ;;
  emit (fun a => extend (map (fun r => bpf_ldx_dw r 10 (tls_slot r)) call_clobbered) a) ;;
  emits (load_or_zero rd).

Definition lower_ldgs (rd var_id : Z) : lower_m unit :=
  if var_id =? 0x0100 then emit (emit_helper_call_difo HELPER_GET_CURRENT_TASK rd)
  else if var_id =? 0x0101 then emit (emit_helper_call_difo HELPER_KTIME_GET_NS rd)
  else if var_id =? 0x0102 then emit (emit_kfunc_value rd KFUNC_VTIMESTAMP_NS)
  else if (0x0106 <=? var_id) && (var_id <=? 0x010f)
  then emits [bpf_ldx_dw rd CTX_REG ((var_id - 0x0106) * 8)]
  else if var_id =? 0x0116 then
    emit (emit_helper_call_difo HELPER_GET_CURRENT_PID_TGID rd) ;;
    emits [bpf_alu64_imm BPF_RSH64_IMM rd 32]
  else if var_id =? 0x0117 then
    emit (emit_helper_call_difo HELPER_GET_CURRENT_PID_TGID rd) ;;
    emits [bpf_alu64_imm BPF_LSH64_IMM rd 32; bpf_alu64_imm BPF_RSH64_IMM rd 32]
  else if var_id =? 0x0118 then lower_ldgs_execname rd
  else if var_id =? 0x011a then emit (emit_kfunc_value rd KFUNC_WALLTIME_NS)
  else if var_id =? 0x0203 then
    emit (emit_helper_call_difo HELPER_GET_SMP_PROCESSOR_ID rd) ;;
    emits [bpf_alu64_imm BPF_LSH64_IMM rd 32; bpf_alu64_imm BPF_RSH64_IMM rd 32]
  else if 0x0200 <=? var_id then lower_ldgs_user rd var_id
  else st_throw (UnsupportedVar var_id).

(** LDSB, LDSH, LDSW, LDUB, LDUH, LDUW, LDX: size and signedness. *)
Definition load_shape (op : Z) : Z * bool :=
  match op with
  | 0x1c => (1, true)
  | 0x1d => (2, true)
  | 0x1e => (4, true)
  | 0x1f => (1, false)
  | 0x20 => (2, false)
  | 0x21 => (4, false)
  | _ => (8, false)
  end.

Definition ldx_op (size : Z) : Z :=
  match size with 1 => 0x71 | 2 => 0x69 | 4 => 0x61 | _ => 0x79 end.

Definition lower_load (op r1 rd : Z) : lower_m unit :=
  let '(size, signed) := load_shape op in
  emits [bpf_stx_dw 10 r1 (-152)] ;;
  emit (spill ldgs_slot call_clobbered) ;;
  emits [bpf_mov64_reg 1 10; bpf_alu64_imm 0x07 1 (-144); bpf_mov64_imm 2 size;
         bpf_ldx_dw 3 10 (-152); bpf_call HELPER_PROBE_READ_KERNEL] ;;
  emit (restore ldgs_slot call_clobbered rd) ;;
  emits [bpf_insn (ldx_op size) rd 10 (-144) 0] ;;
  if signed : bool
  then
    let shift := 64 - size * 8 in
    emits [bpf_alu64_imm BPF_LSH64_IMM rd shift; bpf_alu64_imm 0xc7 rd shift]
  else mret tt.

Definition lower_stgs (rs var_id : Z) : lower_m unit :=
  emit (spill tls_slot call_clobbered) ;;
  emits [bpf_stx_dw 10 rs (-16); bpf_mov64_imm 0 var_id; bpf_stx_w 10 0 (-8);
         bpf_ld_map_fd 1 GLOBAL_MAP_FAKE_FD;
         bpf_mov64_reg 2 10; bpf_alu64_imm 0x07 2 (-8);
         bpf_mov64_reg 3 10; bpf_alu64_imm 0x07 3 (-16);
         bpf_mov64_imm 4 0; bpf_call HELPER_MAP_UPDATE_ELEM] ;;
  emits (map (fun r => bpf_ldx_dw r 10 (tls_slot r)) call_clobbered).

Definition lower_stts (rs var_id : Z) : lower_m unit :=
  emit (spill tls_slot call_clobbered) ;;
  emits [bpf_stx_dw 10 rs (-16)] ;;
  emits (tls_key var_id) ;;
  emits [bpf_ld_map_fd 1 300;
         bpf_mov64_reg 2 10; bpf_alu64_imm 0x07 2 (-24);
         bpf_mov64_reg 3 10; bpf_alu64_imm 0x07 3 (-16);
         bpf_mov64_imm 4 0; bpf_call HELPER_MAP_UPDATE_ELEM] ;;
  emits (map (fun r => bpf_ldx_dw r 10 (tls_slot r)) call_clobbered).

Definition lower_ldts (rd var_id : Z) : lower_m unit :=
  emit (spill tls_slot call_clobbered) ;;
  emits (tls_key var_id) ;;
  emits (lookup_into rd 300 (-24)) ;;
  emits (map (fun r => bpf_ldx_dw r 10 (tls_slot r)) call_clobbered) ;;
  emits (load_or_zero rd).

Definition lower_main (ins : DifInstr) : lower_m unit :=
  let r1 := r1 ins in
  let r2 := r2 ins in
  let rd := rd ins in
  match op ins with
  | 0x01 => emit (lower_binary BPF_OR64_REG r1 r2 rd)
  | 0x02 => emit (lower_binary BPF_XOR64_REG r1 r2 rd)
  | 0x03 => emit (lower_binary BPF_AND64_REG r1 r2 rd)
  | 0x04 => emit (lower_binary BPF_LSH64_REG r1 r2 rd)
  | 0x05 => emit (lower_binary BPF_RSH64_REG r1 r2 rd)
  | 0x06 => emit (lower_binary BPF_SUB64_REG r1 r2 rd)
  | 0x07 => emit (lower_binary BPF_ADD64_REG r1 r2 rd)
  | 0x08 => emit (lower_binary BPF_MUL64_REG r1 r2 rd)
  | 0x0a => emit (lower_binary BPF_DIV64_REG r1 r2 rd)
  | 0x0c => emit (lower_binary BPF_MOD64_REG r1 r2 rd)
  | 0x2e => emit (lower_binary BPF_ARSH64_REG r1 r2 rd)
  | 0x0d => emit (lower_mov r1 rd) ;; emits [bpf_insn 0xa7 rd 0 0 (-1)]
  | 0x0e => emit (lower_mov r1 rd)
  | 0x25 => lower_setx rd (imm16 ins)
  | 0x26 => lower_sets rd (imm16 ins)
  | 0x27 => lower_scmp r1 r2
  | 0x23 => lower_ret rd
  | 0x24 => mret tt
  | 0x0f => set_cmp (Some (CmpReg r1 r2))
  | 0x10 => set_cmp (Some (CmpTst r1))
  | 0x11 => emit_branch_placeholder (bpf_ja 0) (branch_target ins)
  | 0x12 | 0x13 | 0x14 | 0x15 | 0x16 | 0x17 | 0x18 | 0x19 | 0x1a | 0x1b => lower_branch ins
  | 0x29 => lower_ldgs rd (imm16 ins)
  | 0x1c | 0x1d | 0x1e | 0x1f | 0x20 | 0x21 | 0x22 => lower_load (op ins) r1 rd
  | 0x2a => lower_stgs rd (imm16 ins)
  | 0x2d => lower_stts rd (imm16 ins)
  | 0x2c => lower_ldts rd (imm16 ins)
  | 0x33 => mret tt
  | _ => st_throw (UnsupportedOp (op ins) (mnemonic ins))
  end.

Definition lower_one_state (ins : DifInstr) : lower_m unit :=
  match op ins with
  | 0x38 => off ← local_slot (imm16 ins); emits [bpf_ldx_dw (rd ins) 10 off]
  | 0x39 => off ← local_slot (imm16 ins); emits [bpf_stx_dw 10 (rd ins) off]
  | 0x31 | 0x32 => lower_push (rd ins)
  | 0x2f => lower_call (rd ins) (imm16 ins)
  | _ =>
      (if writes_rd (op ins) then stamp (rd ins) RkUnknown else mret tt) ;;
      lower_main ins
  end.

(** *** A section *)

Definition push_offset : lower_m unit :=
  st_modify (fun s => with_branches s (insn_offsets s ++ [len (body s)])
                        (pending_branches s) (pending_cmp s)).

Definition lower_instrs (l : list DifInstr) : lower_m unit :=
  match l with
  | [] => st_throw BadDifInstrCount
  | _ => st_forM l (fun ins => push_offset ;; lower_one_state ins) ;; push_offset
  end.

Definition lower_dif_section_into (dof : Dof) (dif_sec : DofSection) : lower_m unit :=
  dif_insns ← st_lift (dif_instructions dof dif_sec); lower_instrs dif_insns.

(** [state.pending_branches.clear()] *)
Definition clear_pending : lower_m unit :=
  st_modify (fun s => with_branches s (insn_offsets s) [] (pending_cmp s)).

Definition read_inttab {E} (dof : Dof) (sec : option DofSection) : outcome E (option (list Z)) :=
  match sec with
  | None => Ret None
  | Some sec => b ← section_bytes dof sec; Ret (Some (map le_combine (chunks_exact 8 b)))
  end.

Definition read_strtab {E} (dof : Dof) (sec : option DofSection) : outcome E (option bytes) :=
  match sec with
  | None => Ret None
  | Some sec => b ← section_bytes dof sec; Ret (Some b)
  end.

(** The linked section of a DIFO. *)
Definition linked (dof : Dof) (o : option Z) : option DofSection := i ← o; section_get dof i.

(** The DIFO at [difo_secidx], lowered with its own tables; [mode] is what
    becomes of the return mode. *)
Definition lower_difo_with (mode : RetMode -> RetMode) (dof : Dof) (difo_secidx : Z)
  : lower_m unit :=
  o ← st_lift (difo_at dof difo_secidx);
  difo ← st_lift (ok_or o BadSectionLink);
  dif_idx ← st_lift (ok_or (dif_section difo) BadSectionLink);
  dif_sec ← st_lift (ok_or (section_get dof dif_idx) BadSectionLink);
  it ← st_lift (read_inttab dof (linked dof (inttab_section_in difo dof)));
  sb ← st_lift (read_strtab dof (linked dof (strtab_section_in difo dof)));
  st_modify (fun s => with_section s it sb (mode (ret_mode s))) ;;
  lower_dif_section_into dof dif_sec ;;
  fixup_branches ;;
  clear_pending.

Definition lower_difo_by_secidx : Dof -> Z -> lower_m unit := lower_difo_with (fun mode => mode).
