(* ===== verification/LowerAction.v ===== *)
(** Action lowering (host/bifrost): the result category of a DIF object
    (src/lower/category.rs) and one action of a chain (src/lower/action.rs). *)

From Stdlib Require Import Strings.String.
From stdpp Require Import gmap.
From S2P Require Import Prelude Emit Schema HostDof LowerState LowerDif.

Local Open Scope Z_scope.
Local Open Scope list_scope.

(** *** Categories (category.rs) *)

Inductive DifoCategory : Type := Scalar | PtrComm | PtrStrScratch.

#[export] Instance DifoCategory_eq_dec : EqDecision DifoCategory.
Proof. solve_decision. Defined.

(** The DIF section of a DIFO, when every link resolves. *)
Definition dif_section_of {E} (dof : Dof) (difo_secidx : Z) : outcome E (option DofSection) :=
  o ← difo_at dof difo_secidx;
  Ret (difo ← o; idx ← dif_section difo; section_get dof idx).

Definition category_for_difo {E} (dof : Dof) (difo_secidx : Z) : outcome E DifoCategory :=
  o ← dif_section_of dof difo_secidx;
  match o with
  | None => Ret Scalar
  | Some dif_sec =>
      l ← dif_instructions dof dif_sec;
      let has_ldgs_execname :=
        existsb (fun ins => (op ins =? 0x29) && (imm16 ins =? 0x0118)) l in
      let has_sets := existsb (fun ins => op ins =? 0x26) l in
      Ret (if has_ldgs_execname then PtrComm else if has_sets then PtrStrScratch else Scalar)
  end.

Definition needs_8byte_deref (c : DifoCategory) : bool :=
  match c with PtrComm | PtrStrScratch => true | Scalar => false end.

(** *** Action kinds (mod.rs) *)

Definition DTRACEACT_DIFEXPR : Z := 1.
Definition DTRACEACT_EXIT : Z := 2.
Definition DTRACEACT_PRINTF : Z := 3.
Definition DTRACEACT_TRACEMEM : Z := 6.
Definition DTRACEACT_TRACEMEM_DYNSIZE : Z := 7.
Definition DTRACEACT_USTACK : Z := 0x0100 + 1.
Definition DTRACEACT_STACK : Z := 0x0400 + 1.
Definition DTRACEACT_SPECULATE : Z := 0x0600 + 1.
Definition DTRACEACT_COMMIT : Z := 0x0600 + 2.
Definition DTRACEACT_DISCARD : Z := 0x0600 + 3.
Definition BPF_F_USER_STACK : Z := Z.shiftl 1 8.

(** *** Actions (action.rs) *)

(** [state.ret_mode = mode] *)
Definition set_mode (mode : RetMode) : lower_m unit :=
  st_modify (fun s => with_section s (inttab s) (strtab s) mode).

(** [r0 = 0; exit] *)
Definition epilogue : list bytes := [bpf_mov64_imm 0 0; bpf_exit].

(** The record is submitted and the program returns. *)
Definition submit_and_exit : lower_m unit :=
  emit (emit_record_submit RB_PTR_REG true true) ;; emits epilogue.

(** [schema.ok_or(UnsupportedActionKind { kind })] *)
Definition schema_or (kind : Z) : lower_m RecordSchema :=
  o ← st_gets schema; st_lift (ok_or o (UnsupportedActionKind kind)).

(** The record slot of the field called [name]: its offset and size as [i32],
    and its kind. *)
Definition slot_of (sch : RecordSchema) (name : bytes) (kind : Z)
  : outcome LoweringError (Z * Z * FieldKind) :=
  '(j, f) ← ok_or (find_field sch name) (UnsupportedActionKind kind);
  Ret (as_i32 (field_offset sch j), as_i32 (kind_size (field_kind f)), field_kind f).

(** [a + b] on [i32] *)
Definition add_i32 {E} (a b : Z) : outcome E Z :=
  if (- 2 ^ 31 <=? a + b) && (a + b <? 2 ^ 31) then Ret (a + b) else Panic.

(** One printf argument, from the DIFO's value in r0 to its record slot. *)
Definition emit_printf_arg (dof : Dof) (sch : RecordSchema) (kind : Z) (i : nat)
    (arg_action : Action) : lower_m unit :=
  let arg_difo := difo arg_action in
  '(offset, _, k) ← st_lift (slot_of sch (arg_name i) kind);
  let is_string_slot := match k with FString _ => true | _ => false end in
  lower_difo_by_secidx dof arg_difo ;;
  arg_cat ← st_lift (category_for_difo dof arg_difo);
  if is_string_slot && bool_decide (arg_cat = PtrComm)
  then
    offset8 ← st_lift (add_i32 offset 8);
    emits [bpf_ldx_dw 1 0 0; bpf_stx_dw RB_PTR_REG 1 (as_i16 offset);
           bpf_ldx_dw 1 0 8; bpf_stx_dw RB_PTR_REG 1 (as_i16 offset8)]
  else
    (if needs_8byte_deref arg_cat then emits [bpf_ldx_dw 0 0 0] else mret tt) ;;
    emits [bpf_stx_dw RB_PTR_REG 0 (as_i16 offset)].

Fixpoint emit_printf_args (dof : Dof) (sch : RecordSchema) (kind : Z) (i : nat)
    (l : list Action) : lower_m unit :=
  match l with
  | [] => mret tt
  | a :: l => emit_printf_arg dof sch kind i a ;; emit_printf_args dof sch kind (S i) l
  end.

Definition emit_printf_chain (dof : Dof) (actions : list Action) : lower_m unit :=
  printf ← st_lift (ok_or (head actions) (UnsupportedActionKind 0));
  sch ← schema_or (act_kind printf);
  match printf_format sch with
  | None => st_throw (UnsupportedActionKind (act_kind printf))
  | Some _ =>
      prior_mode ← st_gets ret_mode;
      set_mode Predicate ;;
      emit_printf_args dof sch (act_kind printf) 0 actions ;;
      set_mode prior_mode ;;
      submit_and_exit
  end.

(** The DIFO lowered for its value, which is left in r0. *)
Definition lower_value (dof : Dof) (difo_secidx : Z) : lower_m unit :=
  prior_mode ← st_gets ret_mode;
  set_mode Predicate ;;
  lower_difo_by_secidx dof difo_secidx ;;
  set_mode prior_mode.

Definition lower_speculation (dof : Dof) (action : Action) (kfunc_name : string) : lower_m unit :=
  lower_value dof (difo action) ;;
  emits [bpf_mov64_reg 1 0] ;;
  emit (emit_kfunc_call kfunc_name) ;;
  emits epilogue.

(** [schema.fields.iter().enumerate().find_map(..)] for the first field called
    "tracemem" whose kind is [Bytes]. *)
Fixpoint find_tracemem (sch : RecordSchema) (i : nat) (l : list Field) : option (Z * Z) :=
  match l with
  | [] => None
  | f :: l =>
      match bool_decide (field_name f = str "tracemem"), field_kind f with
      | true, FBytes max_len => Some (as_i32 (field_offset sch i), max_len)
      | _, _ => find_tracemem sch (S i) l
      end
  end.

(** [u32::clamp(1, max_len)] *)
Definition clamp1 {E} (v max_len : Z) : outcome E Z :=
  if max_len <? 1 then Panic else Ret (Z.max 1 (Z.min v max_len)).

Definition lower_tracemem (dof : Dof) (action : Action) : lower_m unit :=
  sch ← schema_or (act_kind action);
  '(offset, max_len) ←
    st_lift (ok_or (find_tracemem sch 0 (fields sch)) (UnsupportedActionKind (act_kind action)));
  o ← st_lift (difo_at dof (difo action));
  let len_u32 := match o with Some d => rtype_size d | None => 0 end in
  let len_u32 := if len_u32 =? 0 then arg action mod 2 ^ 32 else len_u32 in
  n ← st_lift (clamp1 len_u32 max_len);
  lower_value dof (difo action) ;;
  emits [bpf_mov64_reg 3 0; bpf_mov64_reg 1 RB_PTR_REG; bpf_alu64_imm 0x07 1 offset;
         bpf_mov64_imm 2 (as_i32 n); bpf_call HELPER_PROBE_READ_KERNEL] ;;
  submit_and_exit.

Definition lower_stack (action : Action) : lower_m unit :=
  let kind := act_kind action in
  let '(name, flags) := if kind =? DTRACEACT_STACK then (str "kstack", 0)
                        else (str "ustack", BPF_F_USER_STACK) in
  sch ← schema_or kind;
  '(offset, size, _) ← st_lift (slot_of sch name kind);
  emits [bpf_mov64_reg 1 CTX_REG; bpf_mov64_reg 2 RB_PTR_REG; bpf_alu64_imm 0x07 2 offset;
         bpf_mov64_imm 3 size; bpf_mov64_imm 4 flags; bpf_call HELPER_GET_STACK] ;;
  available ← st_gets gustack_kfuncs_available;
  (if (kind =? DTRACEACT_USTACK) && available
   then
     st_modify (fun s => with_vma s true) ;;
     match find_field sch (str "exe_path") with
     | Some (i, f) =>
         emits [bpf_mov64_reg 1 RB_PTR_REG;
                bpf_alu64_imm 0x07 1 (as_i32 (field_offset sch i));
                bpf_mov64_imm 2 (as_i32 (kind_size (field_kind f)))] ;;
         emit (emit_kfunc_call KFUNC_EXE_PATH)
     | None => mret tt
     end
   else mret tt) ;;
  submit_and_exit.

Definition lower_action_into (dof : Dof) (action : Action) : lower_m unit :=
  let k := act_kind action in
  if k =? DTRACEACT_DIFEXPR then lower_difo_by_secidx dof (difo action)
  else if k =? DTRACEACT_EXIT then emits epilogue
  else if k =? DTRACEACT_SPECULATE then lower_speculation dof action KFUNC_SPECULATE
  else if k =? DTRACEACT_COMMIT then lower_speculation dof action KFUNC_COMMIT
  else if k =? DTRACEACT_DISCARD then lower_speculation dof action KFUNC_DISCARD
  else if (k =? DTRACEACT_TRACEMEM) || (k =? DTRACEACT_TRACEMEM_DYNSIZE)
  then lower_tracemem dof action
  else if (k =? DTRACEACT_STACK) || (k =? DTRACEACT_USTACK) then lower_stack action
  else st_throw (UnsupportedActionKind k).
