(* ===== verification/LowerAgg.v ===== *)
(** Aggregation lowering (host/bifrost, src/lower/agg.rs): the chains of the
    counting aggregations, the three histograms, and the map each chain
    needs. *)

From Stdlib Require Import Strings.String.
From stdpp Require Import gmap.
From S2P Require Import Prelude Emit Schema HostDof LowerState LowerDif LowerAction.

Local Open Scope Z_scope.
Local Open Scope list_scope.

Definition DTRACEAGG_COUNT : Z := 0x0701.
Definition DTRACEAGG_MIN : Z := 0x0702.
Definition DTRACEAGG_MAX : Z := 0x0703.
Definition DTRACEAGG_AVG : Z := 0x0704.
Definition DTRACEAGG_SUM : Z := 0x0705.
Definition DTRACEAGG_STDDEV : Z := 0x0706.
Definition DTRACEAGG_QUANTIZE : Z := 0x0707.
Definition DTRACEAGG_LQUANTIZE : Z := 0x0708.
Definition DTRACEAGG_LLQUANTIZE : Z := 0x0709.

Definition is_agg_action (kind : Z) : bool := Z.land kind 0xff00 =? 0x0700.

(** *** Branches over what follows *)

(** The offset field of the branch at byte [pos] of [b], to the end of [b]. *)
Definition patch_end {E} (b : bytes) (pos : Z) : outcome E bytes :=
  write b (pos + 2) (to_le 2 (as_i16 ((len b - pos - 8) / 8))).

Definition patch_to_end (pos : Z) : lower_m unit := fun s =>
  match patch_end (body s) pos with
  | Ret b => (Ret tt, with_out s (b, kfunc_relocs s))
  | Throw e => (Throw e, s)
  | Panic => (Panic, s)
  end.

(** The branch [jump] is emitted with no distance, then [m], then the distance
    over [m] is written into it. *)
Definition jump_over (jump : bytes) (m : lower_m unit) : lower_m unit :=
  pos ← st_gets (fun s => len (body s));
  emits [jump] ;;
  m ;;
  patch_to_end pos.

(** *** The counting aggregations *)

(** [r0 = lookup(map, r10 + key_off)] *)
Definition emit_lookup (fd key_off : Z) : list bytes :=
  [bpf_ld_map_fd 1 fd; bpf_mov64_reg 2 10; bpf_alu64_imm 0x07 2 key_off;
   bpf_call HELPER_MAP_LOOKUP_ELEM].

(** A zero value inserted under the key, and the key looked up again. *)
Definition emit_upsert (fd key_off : Z) : list bytes :=
  [bpf_mov64_imm 7 0; bpf_stx_dw 10 7 (-8);
   bpf_ld_map_fd 1 fd; bpf_mov64_reg 2 10; bpf_alu64_imm 0x07 2 key_off;
   bpf_mov64_reg 3 10; bpf_alu64_imm 0x07 3 (-8); bpf_mov64_imm 4 0;
   bpf_call HELPER_MAP_UPDATE_ELEM] ++ emit_lookup fd key_off.

(** The update of the per-CPU slot at [*r0], the value in r6. *)
Definition emit_update (kind : Z) : list bytes :=
  if kind =? DTRACEAGG_COUNT then [bpf_mov64_imm 1 1; bpf_atomic_add 0 1 0]
  else if kind =? DTRACEAGG_SUM then [bpf_mov64_reg 1 6; bpf_atomic_add 0 1 0]
  else if kind =? DTRACEAGG_MIN then
    [bpf_ldx_dw 1 0 0; bpf_mov64_reg 2 6; bpf_jeq_imm 1 0 1; bpf_insn 0x3d 2 1 1 0;
     bpf_insn 0x7b 0 2 0 0]
  else if kind =? DTRACEAGG_MAX then
    [bpf_ldx_dw 1 0 0; bpf_mov64_reg 2 6; bpf_insn 0xbd 2 1 1 0; bpf_insn 0x7b 0 2 0 0]
  else if kind =? DTRACEAGG_AVG then
    [bpf_mov64_reg 1 6; bpf_atomic_add 0 1 0; bpf_mov64_imm 1 1; bpf_atomic_add 0 1 8]
  else if kind =? DTRACEAGG_STDDEV then
    [bpf_mov64_imm 1 1; bpf_atomic_add 0 1 0; bpf_mov64_reg 1 6; bpf_atomic_add 0 1 8;
     bpf_mov64_reg 1 6; bpf_insn BPF_MUL64_REG 1 6 0 0; bpf_atomic_add 0 1 16]
  else [].

Definition MAX_KEYS : Z := 4.

(** One key: its value, or the first eight bytes it points at, in its slot. *)
Definition emit_key (dof : Dof) (n_keys i : Z) (key_action : Action) : lower_m unit :=
  lower_action_into dof key_action ;;
  cat ← st_lift (category_for_difo dof (difo key_action));
  (if needs_8byte_deref cat then emits [bpf_ldx_dw 0 0 0] else mret tt) ;;
  emits [bpf_stx_dw 10 0 (-16 - 8 * (n_keys - 1 - i))].

Fixpoint emit_keys (dof : Dof) (n_keys i : Z) (l : list Action) : lower_m unit :=
  match l with
  | [] => mret tt
  | a :: l => emit_key dof n_keys i a ;; emit_keys dof n_keys (i + 1) l
  end.

Definition counting (kind : Z) : bool :=
  bool_decide (kind ∈ [DTRACEAGG_COUNT; DTRACEAGG_SUM; DTRACEAGG_MIN; DTRACEAGG_MAX;
                       DTRACEAGG_AVG; DTRACEAGG_STDDEV]).

(** The chain of a counting aggregation with [n_keys <= MAX_KEYS] keys. *)
Definition emit_counting_chain (dof : Dof) (actions : list Action) (chain_start n_keys : Z)
    (agg : Action) : lower_m unit :=
  let kind := act_kind agg in
  (if kind =? DTRACEAGG_COUNT then mret tt
   else lower_difo_by_secidx dof (difo agg) ;; emits [bpf_mov64_reg 6 0]) ;;
  let key_base_off := if n_keys =? 0 then -16 else -16 - 8 * (n_keys - 1) in
  (if n_keys =? 0 then emits [bpf_mov64_imm 0 0; bpf_stx_dw 10 0 (-16)]
   else
     keys ← st_lift (slice actions (chain_start + 1) (chain_start + n_keys + 1));
     emit_keys dof n_keys 0 keys) ;;
  fd ← st_gets agg_map_fake_fd;
  emits (emit_lookup fd key_base_off) ;;
  (if 1 <=? n_keys
   then jump_over (bpf_jcc_imm 0x55 0 0 0) (emits (emit_upsert fd key_base_off))
   else mret tt) ;;
  jump_over (bpf_jeq_imm 0 0 0) (emits (emit_update kind)) ;;
  emits epilogue.

(** *** Histograms *)

(** [actions.iter().find(|a| a.kind == kind)] *)
Definition find_kind (actions : list Action) (kind : Z) : outcome LoweringError Action :=
  ok_or (List.find (fun a => act_kind a =? kind) actions) (UnsupportedActionKind 0).

(** A step of the binary search for the highest set bit of r6: when r6 has a
    bit at or above [shift_bits], r7 counts [add] and r6 is shifted. *)
Definition quantize_step (shift_bits add : Z) : list bytes :=
  [bpf_jcc_imm 0xa5 6 (Z.shiftl 1 shift_bits) 2; bpf_alu64_imm 0x07 7 add;
   bpf_alu64_imm 0x77 6 shift_bits].

(** From the value in r6, the bucket in r7. *)
Definition quantize_bucket : list bytes :=
  [bpf_mov64_imm 7 0; bpf_mov64_reg 5 6; bpf_alu64_imm 0x77 5 32; bpf_jcc_imm 0x15 5 0 2;
   bpf_alu64_imm 0x07 7 32; bpf_alu64_imm 0x77 6 32]
  ++ quantize_step 16 16 ++ quantize_step 8 8 ++ quantize_step 4 4 ++ quantize_step 2 2
  ++ quantize_step 1 1
  ++ [bpf_jcc_imm 0xa5 6 1 1; bpf_alu64_imm 0x07 7 1; bpf_alu64_imm 0x07 7 63].

(** [DTRACE_QUANTIZE_NBUCKETS] (bifrost-wire) *)
Definition NBUCKETS : Z := 127.

Definition emit_quantize_chain (dof : Dof) (actions : list Action) : lower_m unit :=
  agg ← st_lift (find_kind actions DTRACEAGG_QUANTIZE);
  lower_difo_by_secidx dof (difo agg) ;;
  emits [bpf_mov64_reg 6 0] ;;
  emits quantize_bucket ;;
  fd ← st_gets agg_map_fake_fd;
  emits ([bpf_mov64_reg 8 7; bpf_mov64_imm 0 0; bpf_stx_w 10 0 (-16)] ++ emit_lookup fd (-16)) ;;
  jump_over (bpf_jeq_imm 0 0 0)
    (emits [bpf_jcc_imm 0xa5 8 NBUCKETS 1; bpf_mov64_imm 8 (NBUCKETS - 1);
            bpf_alu64_imm 0x67 8 3; bpf_insn 0x0f 0 8 0 0; bpf_mov64_imm 1 1;
            bpf_atomic_add 0 1 0]) ;;
  emits epilogue.

Definition decode_lquantize_arg (arg : Z) : Z * Z * Z :=
  let base := as_i32 (Z.land arg 0xffffffff) in
  let levels := Z.land (Z.shiftr arg 32) 0xffff in
  let step := Z.land (Z.shiftr arg 48) 0xffff in
  (base, levels, step).

(** [i32::saturating_mul] *)
Definition saturating_mul_i32 (a b : Z) : Z := Z.max (- 2 ^ 31) (Z.min (2 ^ 31 - 1) (a * b)).

(** The code past the underflow test, in its side buffer. *)
Definition lquantize_body {E} (base levels step : Z) : outcome E bytes :=
  let upper_minus_base := saturating_mul_i32 levels step in
  let body := if base =? 0 then [] else bpf_alu64_imm 0x17 6 base in
  let jge_pos := len body in
  let body := body ++ bpf_jcc_imm 0x35 6 upper_minus_base 0 ++ bpf_alu64_imm 0x37 6 step
                ++ bpf_alu64_imm 0x07 6 1 ++ bpf_mov64_reg 7 6 in
  let ja_pos := len body in
  let body := body ++ bpf_ja 0 in
  let overflow_target := len body in
  let body := body ++ bpf_mov64_imm 7 (levels + 1) in
  let after_body := len body in
  body ← write body (jge_pos + 2) (to_le 2 (as_i16 ((overflow_target - (jge_pos + 8)) / 8)));
  write body (ja_pos + 2) (to_le 2 (as_i16 ((after_body - (ja_pos + 8)) / 8))).

(** The count of the bucket in r7 goes up by one, when the map has it. *)
Definition emit_bucket_count : lower_m unit :=
  fd ← st_gets agg_map_fake_fd;
  emits (bpf_stx_w 10 7 (-16) :: emit_lookup fd (-16)) ;;
  jump_over (bpf_jeq_imm 0 0 0) (emits [bpf_mov64_imm 1 1; bpf_atomic_add 0 1 0]) ;;
  emits epilogue.

Definition emit_lquantize_chain (dof : Dof) (actions : list Action) : lower_m unit :=
  agg ← st_lift (find_kind actions DTRACEAGG_LQUANTIZE);
  let '(base, levels, step) := decode_lquantize_arg (arg agg) in
  if (step =? 0) || (levels =? 0) then st_throw (UnsupportedActionKind (act_kind agg))
  else
    lower_difo_by_secidx dof (difo agg) ;;
    emits [bpf_mov64_reg 6 0; bpf_mov64_imm 7 0] ;;
    body ← st_lift (lquantize_body base levels step);
    let body_slots := as_i16 (len body / 8) in
    (if base =? 0 then mret tt else emits [bpf_jcc_imm 0xa5 6 base body_slots]) ;;
    emits [body] ;;
    emit_bucket_count.

Definition decode_llquantize_arg (arg : Z) : Z * Z * Z * Z :=
  let steps_per_mag := Z.land (Z.shiftr arg 16) 0xffff in
  let high_mag := Z.land (Z.shiftr arg 32) 0xff in
  let low_mag := Z.land (Z.shiftr arg 40) 0xff in
  let factor := Z.land (Z.shiftr arg 48) 0xffff in
  (factor, low_mag, high_mag, steps_per_mag).

Definition MAX_MAGS : Z := 8.

(** [u128::saturating_mul] *)
Definition saturating_mul_u128 (a b : Z) : Z := Z.min (2 ^ 128 - 1) (a * b).

(** [factor ^ n], saturating. *)
Fixpoint sat_pow (factor : Z) (n : nat) (t : Z) : Z :=
  match n with
  | O => t
  | S n => sat_pow factor n (saturating_mul_u128 t factor)
  end.

(** The pushes of the second loop: [n] further powers, as [u64]. *)
Fixpoint push_thresholds (factor : Z) (n : nat) (t : Z) : list Z :=
  match n with
  | O => []
  | S n => let t := saturating_mul_u128 t factor in t mod 2 ^ 64 :: push_thresholds factor n t
  end.

Definition thresholds (factor low_mag n_mags : Z) : list Z :=
  let t := sat_pow factor (Z.to_nat low_mag) 1 in
  t mod 2 ^ 64 :: push_thresholds factor (Z.to_nat n_mags) t.

(** [if v > i32::MAX as u64 { i32::MAX } else { v as i32 }] *)
Definition clamp_i32 (v : Z) : Z := if 2 ^ 31 - 1 <? v then 2 ^ 31 - 1 else v.

(** The block of magnitude [i], the band from [lo] to [hi]. *)
Definition magnitude_block (i steps_per_mag lo hi : Z) : list bytes :=
  let band := Z.max 0 (hi - lo) in
  let sub_step := band / steps_per_mag in
  let blk :=
    (if lo =? 0 then [] else [bpf_alu64_imm 0x17 6 (clamp_i32 lo)])
    ++ (if sub_step =? 0 then [] else [bpf_alu64_imm 0x37 6 (clamp_i32 sub_step)])
    ++ [bpf_alu64_imm 0x07 6 (i * steps_per_mag + 1); bpf_mov64_reg 7 6; bpf_ja 0] in
  let blk_slots := as_i16 (len (concat blk) / 8) in
  bpf_jcc_imm 0x35 6 (clamp_i32 hi) blk_slots :: blk.

Fixpoint magnitude_blocks (i steps_per_mag : Z) (ts : list Z) : list bytes :=
  match ts with
  | lo :: (hi :: _) as rest =>
      magnitude_block i steps_per_mag lo hi ++ magnitude_blocks (i + 1) steps_per_mag rest
  | _ => []
  end.

(** The slot-by-slot walk that points every unpatched jump at the end. *)
Fixpoint patch_jas {E} (fuel : nat) (b : bytes) (i : Z) : outcome E bytes :=
  match fuel with
  | O => Panic
  | S fuel =>
      if i + 8 <=? len b then
        code ← byte_at b i;
        off ← (v ← le_at 2 b (i + 2); Ret (to_signed 16 v));
        b ← (if (code =? BPF_JA) && (off =? 0)
             then write b (i + 2) (to_le 2 (as_i16 ((len b - (i + 8)) / 8)))
             else Ret b);
        patch_jas fuel b (i + 8)
      else Ret b
  end.

(** Every turn of the walk goes eight bytes on. *)
Definition llquantize_body {E} (steps_per_mag n_mags : Z) (ts : list Z) : outcome E bytes :=
  let body := concat (magnitude_blocks 0 steps_per_mag ts
                        ++ [bpf_mov64_imm 7 (n_mags * steps_per_mag + 1)]) in
  patch_jas (S (length body)) body 0.

Definition emit_llquantize_chain (dof : Dof) (actions : list Action) : lower_m unit :=
  agg ← st_lift (find_kind actions DTRACEAGG_LLQUANTIZE);
  let '(factor, low_mag, high_mag, steps_per_mag) := decode_llquantize_arg (arg agg) in
  if (factor <? 2) || (steps_per_mag =? 0) || (high_mag <? low_mag)
  then st_throw (UnsupportedActionKind (act_kind agg))
  else
    let n_mags := high_mag - low_mag + 1 in
    if MAX_MAGS <? n_mags then st_throw (UnsupportedActionKind (act_kind agg))
    else
      lower_difo_by_secidx dof (difo agg) ;;
      emits [bpf_mov64_reg 6 0; bpf_mov64_imm 7 0] ;;
      let ts := thresholds factor low_mag n_mags in
      let underflow_t := as_i32 (hd 0 ts) in
      body ← st_lift (llquantize_body steps_per_mag n_mags ts);
      let body_slots := as_i16 (len body / 8) in
      (if 0 <? underflow_t then emits [bpf_jcc_imm 0xa5 6 underflow_t body_slots]
       else mret tt) ;;
      emits [body] ;;
      emit_bucket_count.

(** *** Chains *)

(** [&actions[i]] *)
Definition action_at {E} (actions : list Action) (i : Z) : outcome E Action :=
  match actions !! Z.to_nat i with Some a => Ret a | None => Panic end.

Definition emit_agg_chain_at (dof : Dof) (actions : list Action) (chain_start agg_pos : Z)
  : lower_m unit :=
  agg ← st_lift (action_at actions agg_pos);
  let n_keys := Z.max 0 (agg_pos - (chain_start + 1)) in
  let kind := act_kind agg in
  if MAX_KEYS <? n_keys then st_throw (UnsupportedActionKind kind)
  else if kind =? DTRACEAGG_QUANTIZE then emit_quantize_chain dof actions
  else if kind =? DTRACEAGG_LQUANTIZE then emit_lquantize_chain dof actions
  else if kind =? DTRACEAGG_LLQUANTIZE then emit_llquantize_chain dof actions
  else if negb (counting kind) then st_throw (UnsupportedActionKind kind)
  else emit_counting_chain dof actions chain_start n_keys agg.

Definition emit_agg_chain (dof : Dof) (actions : list Action) (agg_pos : Z) : lower_m unit :=
  emit_agg_chain_at dof actions 0 agg_pos.

(** [QUANTIZE_VALUE_SIZE] (bifrost-wire) *)
Definition QUANTIZE_VALUE_SIZE : Z := NBUCKETS * 8.

(** Map type, key size, value size and entries. *)
Definition agg_map_decl_for_chain_at {E} (actions : list Action) (chain_start agg_pos : Z)
  : outcome E (option (Z * Z * Z * Z)) :=
  agg ← action_at actions agg_pos;
  let n_keys := Z.max 0 (agg_pos - (chain_start + 1)) in
  let kind := act_kind agg in
  let value_size := if kind =? DTRACEAGG_AVG then 16
                    else if kind =? DTRACEAGG_STDDEV then 24 else 8 in
  Ret (if kind =? DTRACEAGG_QUANTIZE then
         if n_keys =? 0 then Some (6, 4, QUANTIZE_VALUE_SIZE, 1)
         else if MAX_KEYS <? n_keys then None
         else Some (5, 8 * n_keys, QUANTIZE_VALUE_SIZE, 64)
       else if (kind =? DTRACEAGG_LQUANTIZE) || (kind =? DTRACEAGG_LLQUANTIZE)
       then Some (6, 4, value_size, 64)
       else if n_keys =? 0 then Some (6, 4, value_size, 1)
       else if MAX_KEYS <? n_keys then None
       else Some (5, 8 * n_keys, value_size, 64)).

Definition agg_map_decl_for_chain {E} (actions : list Action) (agg_pos : Z)
  : outcome E (option (Z * Z * Z * Z)) := agg_map_decl_for_chain_at actions 0 agg_pos.

Definition agg_kind_str (kind : Z) : option string :=
  if kind =? DTRACEAGG_COUNT then Some "count"%string
  else if kind =? DTRACEAGG_SUM then Some "sum"%string
  else if kind =? DTRACEAGG_STDDEV then Some "stddev"%string
  else if kind =? DTRACEAGG_MIN then Some "min"%string
  else if kind =? DTRACEAGG_MAX then Some "max"%string
  else if kind =? DTRACEAGG_AVG then Some "avg"%string
  else if kind =? DTRACEAGG_QUANTIZE then Some "quantize"%string
  else if kind =? DTRACEAGG_LQUANTIZE then Some "lquantize"%string
  else if kind =? DTRACEAGG_LLQUANTIZE then Some "llquantize"%string
  else None.

(** [is_execname_difo], [is_string_literal_difo] *)
Definition is_execname_difo {E} (dof : Dof) (difo_secidx : Z) : outcome E bool :=
  o ← dif_section_of dof difo_secidx;
  match o with
  | None => Ret false
  | Some dif_sec =>
      l ← dif_instructions dof dif_sec;
      Ret (existsb (fun ins => (op ins =? 0x29) && (imm16 ins =? 0x0118)) l)
  end.

Definition is_string_literal_difo {E} (dof : Dof) (difo_secidx : Z) : outcome E bool :=
  o ← dif_section_of dof difo_secidx;
  match o with
  | None => Ret false
  | Some dif_sec =>
      l ← dif_instructions dof dif_sec; Ret (existsb (fun ins => op ins =? 0x26) l)
  end.
