(* ===== verification/LowerProg.v ===== *)
(** The whole program (host/bifrost, src/lower/mod.rs): [lower_with_opts]
    lowers the first ECB of a DOF, its predicate and the part of its action
    chain the options select, and wraps the body in the record prologue. *)

From Stdlib Require Import Strings.String.
From stdpp Require Import gmap sorting.
From S2P Require Import Prelude Emit Schema HostDof LowerState LowerDif LowerAction LowerAgg.

Local Open Scope Z_scope.
Local Open Scope list_scope.

Record LoweringOpts : Type := {
  agg_base : Z;
  probe_id : Z;
  opt_agg_map_fake_fd : Z;
  action_idx : nat;
  agg_chain_start : option nat;
  force_standalone_action : bool
}.

(** [LoweringOpts::default] *)
Definition default_opts : LoweringOpts :=
  {| agg_base := 0; probe_id := 0; opt_agg_map_fake_fd := AGG_MAP_FAKE_FD; action_idx := 0;
     agg_chain_start := None; force_standalone_action := false |}.

(** One field of [fill_correlation_fields]: the store of a field that carries
    a correlation name and its type. *)
Definition fill_field (name : bytes) (kind : FieldKind) (off probe_id : Z) : list bytes :=
  if bool_decide (name = str "vmid") then
    if bool_decide (kind = FU32)
    then [bpf_call 8; bpf_stx_w RB_PTR_REG 0 off] else []
  else if bool_decide (name = str "probe_id") then
    if bool_decide (kind = FU32)
    then [bpf_mov64_imm 1 (as_i32 probe_id); bpf_stx_w RB_PTR_REG 1 off] else []
  else if bool_decide (name = str "gns") then
    if bool_decide (kind = FU64)
    then [bpf_call 5; bpf_stx_dw RB_PTR_REG 0 off] else []
  else if bool_decide (name = str "gpid") then
    if bool_decide (kind = FU64)
    then [bpf_call 14; bpf_stx_dw RB_PTR_REG 0 off] else []
  else [].

Definition fill_correlation_fields (sch : RecordSchema) (probe_id : Z) : list bytes :=
  concat (imap (fun i f => fill_field (field_name f) (field_kind f)
                             (as_i16 (field_offset sch i)) probe_id) (fields sch)).

(** *** The body *)

(** The DIF section of [difo_secidx], when it resolves, is scanned for [this->]
    variables. *)
Definition prescan (dof : Dof) (difo_secidx : Z) : lower_m unit :=
  o ← st_lift (dif_section_of dof difo_secidx);
  match o with Some sec => collect_locals_in_section dof sec | None => mret tt end.

Definition prescan_ecb (dof : Dof) (ecb : Ecb) : lower_m unit :=
  (if pred ecb =? DOF_SECIDX_NONE then mret tt else prescan dof (pred ecb)) ;;
  l ← st_lift (actions_in_chain dof (actions ecb));
  st_forM l (fun action =>
    if difo action =? DOF_SECIDX_NONE then mret tt else prescan dof (difo action)).

(** Every allocated slot is zeroed, in the order of the offsets; r1 is zero. *)
Definition zero_locals : lower_m unit :=
  l ← st_gets locals;
  emits (map (fun off => bpf_stx_dw 10 1 off) (merge_sort Z.le (map_to_list l).*2)).

(** The position of the first aggregation at or after [start]. *)
Definition agg_position (start : nat) (l : list Action) : option nat :=
  fst <$> list_find (fun x => is_agg_action (act_kind x) = true) (drop start l).

(** [enumerate().skip(start).find(..)] *)
Definition agg_position_from (start : nat) (l : list Action) : option nat :=
  i ← agg_position start l; Some (start + i)%nat.

(** The sub-chain whose value is [actions[chain_start]]. *)
Definition lower_sub_chain (dof : Dof) (acts : list Action) (chain_start : nat) : lower_m unit :=
  sub_agg_pos ← st_lift (ok_or (agg_position_from chain_start acts) BadDifInstrCount);
  set_mode Predicate ;;
  emit_agg_chain_at dof acts (Z.of_nat chain_start) (Z.of_nat sub_agg_pos).

Definition is_printf_chain (acts : list Action) : bool :=
  match acts with a :: _ => act_kind a =? DTRACEACT_PRINTF | [] => false end.

(** The predicate's section, lowered for its value in r0. *)
Definition lower_predicate : Dof -> Z -> lower_m unit := lower_difo_with (fun _ => Predicate).

(** The action the options select, lowered on its own; without one the result
    is [missing]. *)
Definition lower_single (dof : Dof) (acts : list Action) (opts : LoweringOpts) (mode : RetMode)
    (missing : lower_m unit) : lower_m unit :=
  set_mode mode ;;
  match acts !! action_idx opts with
  | Some action => lower_action_into dof action
  | None => missing
  end.

(** The aggregation of the clause, when a value precedes it, and whether the
    options ask for an action past it. *)
Definition main_agg (acts : list Action) : option nat :=
  match agg_position 0 acts with Some (S i) => Some (S i) | _ => None end.

Definition post_agg (acts : list Action) (opts : LoweringOpts) : bool :=
  match main_agg acts, agg_chain_start opts with
  | Some p, None => (p <? action_idx opts)%nat
  | _, _ => false
  end.

(** The choice between the lowerings of a chain. *)
Definition lower_actions (dof : Dof) (acts : list Action) (opts : LoweringOpts) (mode : RetMode)
    (missing : lower_m unit) : lower_m unit :=
  match agg_chain_start opts with
  | Some chain_start => lower_sub_chain dof acts chain_start
  | None =>
      if post_agg acts opts || force_standalone_action opts
      then lower_single dof acts opts mode missing
      else
        match main_agg acts with
        | Some agg_pos => set_mode Predicate ;; emit_agg_chain dof acts (Z.of_nat agg_pos)
        | None =>
            if is_printf_chain acts then emit_printf_chain dof acts
            else lower_single dof acts opts mode missing
        end
  end.

(** An ECB with a predicate: the actions are skipped when it leaves zero. *)
Definition lower_guarded_ecb (dof : Dof) (ecb : Ecb) (opts : LoweringOpts) : lower_m unit :=
  lower_predicate dof (pred ecb) ;;
  acts ← st_lift (actions_in_chain dof (actions ecb));
  jump_over (bpf_jeq_imm 0 0 0)
    (begin_section ;; lower_actions dof acts opts SchemaAction (mret tt)) ;;
  let is_agg := match main_agg acts with Some _ => true | None => false end in
  let sub := match agg_chain_start opts with Some _ => true | None => false end in
  if (is_agg && negb (post_agg acts opts)) || sub then emits epilogue else mret tt.

Definition lower_plain_ecb (dof : Dof) (ecb : Ecb) (opts : LoweringOpts)
    (schema : option RecordSchema) : lower_m unit :=
  acts ← st_lift (actions_in_chain dof (actions ecb));
  lower_actions dof acts opts
    (match schema with Some _ => SchemaAction | None => Schemaless end)
    (st_throw BadDifInstrCount).

(** No ECB: every DIF section of the DOF, one after the other. *)
Definition lower_all_dif (dof : Dof) : lower_m unit :=
  st_forM (sections_of dof SDif) (fun dif_sec => lower_dif_section_into dof dif_sec) ;;
  fixup_branches ;;
  clear_pending.

Definition body_prologue (schema : option RecordSchema) (probe_id : Z) : list bytes :=
  match schema with
  | Some sch => fill_correlation_fields sch probe_id
  | None => [bpf_mov64_reg CTX_REG 1]
  end ++ map (fun r => bpf_mov64_imm r 0) [1; 2; 3; 4; 5].

(** The clause: its [this->] slots, then its predicate and actions. *)
Definition lower_clause (dof : Dof) (schema : option RecordSchema) (opts : LoweringOpts)
  : lower_m unit :=
  o ← st_lift (first_ecb dof);
  match o with Some ecb => prescan_ecb dof ecb | None => mret tt end ;;
  zero_locals ;;
  match o with
  | Some ecb =>
      if pred ecb =? DOF_SECIDX_NONE then lower_plain_ecb dof ecb opts schema
      else lower_guarded_ecb dof ecb opts
  | None => lower_all_dif dof
  end.

(** The part of [lower_with_opts] that runs on the [LowerState]. *)
Definition lower_body (dof : Dof) (schema : option RecordSchema) (opts : LoweringOpts)
  : lower_m unit :=
  emits (body_prologue schema (probe_id opts)) ;; lower_clause dof schema opts.

(** *** The program *)

(** The side trip that publishes the VMA table in a record of its own. *)
Definition emit_vma_table {E} (sch : RecordSchema) (a : Asm) : outcome E Asm :=
  let vma_size := 8192 + 512 in
  let a := (emit_record_reserve vma_size true a).1 in
  let a := extend [bpf_mov64_reg RB_PTR_REG 0] a in
  let skip_vma := len a.1 in
  let a := extend [bpf_jeq_imm RB_PTR_REG 0 0] a in
  let a := extend (fill_correlation_fields sch 0xFFFFFFFF) a in
  let a := extend [bpf_mov64_reg 1 RB_PTR_REG; bpf_alu64_imm 0x07 1 24; bpf_mov64_imm 2 8192] a in
  let a := emit_kfunc_call KFUNC_VMA_TABLE a in
  let a := emit_record_submit RB_PTR_REG true true a in
  b ← patch_end a.1 skip_vma;
  Ret (b, a.2).

(** The prologue, the body behind the null test of the record pointer, and the
    common exit. *)
Definition wrap_program {E} (sch : RecordSchema) (needs_vma_table : bool) (code : Asm)
  : outcome E Asm :=
  let a := extend [bpf_mov64_reg CTX_REG 1] ([], []) in
  a ← (if needs_vma_table then emit_vma_table sch a else Ret a);
  let a := (emit_record_reserve (as_i32 (record_size sch)) true a).1 in
  let a := extend [bpf_mov64_reg RB_PTR_REG 0;
                   bpf_jeq_imm RB_PTR_REG 0 (as_i16 (len code.1 / 8))] a in
  let body_start_slots := (len a.1 / 8) mod 2 ^ 32 in
  let out := extend [code.1; bpf_mov64_imm 0 0; bpf_exit] a in
  Ret (out.1, out.2 ++ map (fun '(idx, name) => (idx + body_start_slots, name)) code.2).

Definition lower_with_opts (dof : Dof) (schema : option RecordSchema) (opts : LoweringOpts)
  : outcome LoweringError Asm :=
  it ← read_inttab dof (head (sections_of dof SIntTab));
  sb ← read_strtab dof (head (sections_of dof SStrTab));
  let s := with_agg_fd (new_with_strtab schema it sb) (opt_agg_map_fake_fd opts) in
  match lower_body dof schema opts s with
  | (Ret _, s) =>
      match schema with
      | None => Ret (out s)
      | Some sch => wrap_program sch (needs_vma_table_emit s) (out s)
      end
  | (Throw e, _) => Throw e
  | (Panic, _) => Panic
  end.

Definition lower_with (dof : Dof) (schema : option RecordSchema) : outcome LoweringError bytes :=
  r ← lower_with_opts dof schema default_opts; Ret r.1.

Definition lower_with_agg_base (dof : Dof) (schema : option RecordSchema) (agg_base : Z)
  : outcome LoweringError bytes :=
  r ← lower_with_opts dof schema
        {| agg_base := agg_base; probe_id := 0; opt_agg_map_fake_fd := AGG_MAP_FAKE_FD;
           action_idx := 0; agg_chain_start := None; force_standalone_action := false |};
  Ret r.1.

Definition lower (dof : Dof) : outcome LoweringError bytes := lower_with dof None.
