(* ===== verification/LowerOk.v ===== *)
(** Lowering DIF is safe: every state a lowering pass reaches satisfies
    [lower_inv], by which the code emitted so far is accepted by the verifier
    wherever it is placed, its branches and relocations are accounted for, and
    its scratch slots stay inside the eBPF stack.  The theorems of this file
    are per instruction, per section and per DIFO; LowerProg.v has the whole
    program. *)

From Stdlib Require Import Strings.String.
From stdpp Require Import gmap.
From S2P Require Import Prelude Emit Bpf Verify CodeFrag Schema HostDof LowerState LowerDif.

Local Open Scope Z_scope.
Local Open Scope list_scope.

(** ** The emitters *)

(** A bound on a constant or on a register. *)
Ltac bound :=
  first [ lia
        | unfold ldgs_slot, tls_slot, LDGS_SCRATCH_BASE, TUPLE_STACK_BASE, CTX_REG, RB_PTR_REG,
            SETS_SCRATCH_BASE, SETS_INSTANCE_SIZE, LOCALS_BASE, TUPLE_STACK_SLOTS in *; lia
        | vm_compute; by repeat split ].

Ltac insn_req :=
  lazymatch goal with
  | |- insn_req ?c ?d ?s ?o ?m =>
      let v := eval vm_compute in c in
      change (insn_req v d s o m); unfold insn_req; simpl;
      first [ done | intros _; bound | intros ?; bound | by left
            | right; split; [done|apply (bool_decide_unpack _); vm_compute; exact I] ]
  end.

(** One element of an [extend] list. *)
Ltac good_one :=
  unfold bpf_mov64_reg, bpf_mov64_imm, bpf_call, bpf_exit, bpf_stx_w, bpf_stx_dw, bpf_ldx_dw,
    bpf_alu64_imm, bpf_jcc_imm, bpf_jcc_reg, bpf_jeq_imm, bpf_ja, bpf_atomic_add, bpf_to_be,
    bpf_ld_imm64, bpf_ld_map_fd;
  lazymatch goal with
  | |- good (bpf_insn _ _ _ _ _ ++ _) => apply good_wide; bound
  | |- good (bpf_insn ?c _ _ _ _) =>
      apply good_insn; [bound..|insn_req|]; intros; first [done|bound|discriminate]
  end.

Ltac good_list := repeat first [ apply list.Forall_nil_2 | apply list.Forall_cons_2; [good_one|] ].

Lemma emits_ok_spill slot rs :
  (forall r, r ∈ rs -> 0 <= r <= 10 /\ -512 <= slot r < 0) -> emits_ok (spill slot rs).
Proof.
  intros H. apply emits_ok_extend, list.Forall_forall. intros b (r & -> & Hr)%list_elem_of_fmap.
  destruct (H r Hr). good_one.
Qed.

Lemma good_loads slot rs :
  (forall r, r ∈ rs -> 0 <= r <= 10 /\ -512 <= slot r < 0) ->
  Forall good (map (fun r => bpf_ldx_dw r 10 (slot r)) rs).
Proof.
  intros H. apply list.Forall_forall. intros b (r & -> & Hr)%list_elem_of_fmap.
  destruct (H r Hr). good_one.
Qed.

Lemma emits_ok_restore slot rs dst :
  (forall r, r ∈ rs -> 0 <= r <= 10 /\ -512 <= slot r < 0) -> emits_ok (restore slot rs dst).
Proof.
  intros H. apply emits_ok_extend, good_loads. intros r [_ Hr]%list_elem_of_filter. auto.
Qed.

Lemma emits_ok_move_result dst : 0 <= dst <= 10 -> emits_ok (move_result dst).
Proof.
  intros H. unfold move_result. destruct (dst =? 0).
  - apply emits_ok_id.
  - apply (emits_ok_extend [bpf_mov64_reg dst 0]). good_list.
Qed.

(** The registers around a call, and their slots. *)
Ltac slots_in_stack :=
  let r := fresh "r" in let Hr := fresh "Hr" in
  intros r Hr; repeat (apply elem_of_cons in Hr as [->|Hr]; [split; bound|]);
  by apply not_elem_of_nil in Hr.

Ltac emits_tac :=
  repeat lazymatch goal with
  | |- emits_ok (fun a => a) => apply emits_ok_id
  | |- emits_ok (extend _) => apply emits_ok_extend; good_list
  | |- emits_ok (emit_kfunc_call _) => apply emits_ok_kfunc
  | |- emits_ok (spill _ _) => apply emits_ok_spill; slots_in_stack
  | |- emits_ok (restore _ _ _) => apply emits_ok_restore; slots_in_stack
  | |- emits_ok (move_result _) => apply emits_ok_move_result; bound
  | |- emits_ok (fun a => ?g (@?f a)) => apply (emits_ok_seq f g)
  end.

Lemma emits_ok_single dst name : 0 <= dst <= 10 -> emits_ok (emit_single_arg_kfunc_subr dst name).
Proof.
  intros H. unfold emit_single_arg_kfunc_subr. cbn zeta. destruct (dst =? 1); emits_tac.
Qed.

Lemma emits_ok_two dst name : 0 <= dst <= 10 -> emits_ok (emit_two_arg_kfunc_subr dst name).
Proof. intros H. unfold emit_two_arg_kfunc_subr. emits_tac. Qed.

Lemma emits_ok_three dst name : 0 <= dst <= 10 -> emits_ok (emit_three_arg_kfunc_subr dst name).
Proof. intros H. unfold emit_three_arg_kfunc_subr. emits_tac. Qed.

Lemma emits_ok_kfunc_value rd name : 0 <= rd <= 10 -> emits_ok (emit_kfunc_value rd name).
Proof. intros H. unfold emit_kfunc_value, call_clobbered. emits_tac. Qed.

Lemma emits_ok_helper id dst :
  0 <= dst <= 10 -> id ∈ known_helpers -> - 2 ^ 31 <= id < 2 ^ 31 ->
  emits_ok (emit_helper_call_difo id dst).
Proof.
  intros H Hid Hr. unfold emit_helper_call_difo. emits_tac.
  apply list.Forall_cons_2; [|apply list.Forall_nil_2]. unfold bpf_call.
  apply good_insn; [bound..| |done]. simpl. by right.
Qed.

Lemma emits_ok_submit ptr shmem kick :
  0 <= ptr <= 10 -> emits_ok (emit_record_submit ptr shmem kick).
Proof. intros H. unfold emit_record_submit. destruct shmem, kick; cbn zeta iota; emits_tac. Qed.

Lemma emits_ok_reserve size shmem :
  - 2 ^ 31 <= size < 2 ^ 31 -> emits_ok (fun a => (emit_record_reserve size shmem a).1).
Proof. intros H. unfold emit_record_reserve. destruct shmem; cbn [fst]; emits_tac. Qed.

Lemma emits_ok_binary op r1 r2 rd :
  0 <= r1 <= 10 -> 0 <= r2 <= 10 -> 0 <= rd <= 10 -> 0 <= op < 256 -> Z.land op 7 = 7 ->
  emits_ok (lower_binary op r1 r2 rd).
Proof.
  intros H1 H2 H3 Ho Hop. unfold lower_binary.
  assert (Gd : good (bpf_insn op rd r2 0 0)).
  { apply good_insn; [bound..| |]; [unfold insn_req; rewrite Hop; simpl|]; intros ->; done. }
  destruct (r1 =? 0), (rd =? r1), (r2 =? 0); cbn zeta; emits_tac;
    (apply list.Forall_cons_2; [exact Gd|apply list.Forall_nil_2]).
Qed.

Lemma emits_ok_mov r1 rd :
  0 <= r1 <= 10 -> 0 <= rd <= 10 -> emits_ok (lower_mov r1 rd).
Proof. intros H1 H2. unfold lower_mov. destruct (r1 =? 0), (rd =? r1); emits_tac. Qed.

Lemma store_chunks_good fuel s off :
  -512 <= off -> off + 8 * Z.of_nat fuel <= 0 -> Forall good (store_chunks fuel s off).
Proof.
  revert s off. induction fuel as [|fuel IH]; intros s off H1 H2; [apply list.Forall_nil_2|].
  destruct s as [|b s]; [apply list.Forall_nil_2|]. cbn [store_chunks]. good_list.
  apply IH; lia.
Qed.

(** A lookup's result, loaded past a local branch. *)
Lemma emits_ok_load_or_zero rd : 0 <= rd <= 10 -> emits_ok (extend (load_or_zero rd)).
Proof.
  intros H. unfold load_or_zero, bpf_mov64_imm, bpf_jeq_imm, bpf_ldx_dw.
  eexists. split; [apply appends_extend|].
  - repeat (apply list.Forall_cons_2; [apply whole_insn|]). apply list.Forall_nil_2.
  - rewrite !slots_insn, slots_nil. by cbn [kcalls].
  - rewrite !slots_insn, slots_nil.
    apply frag_ok_plain; [apply plain_Ins; [bound..|insn_req]|].
    apply frag_ok_jump.
    + split_and!; [done..|]. unfold regs_ok. by vm_compute.
    + by vm_compute.
    + apply frag_ok_plain; [apply plain_Ins; [bound..|insn_req]|apply frag_ok_nil].
Qed.

(** ** The invariant of a lowering pass *)

(** A byte offset of the start of a slot. *)
Definition slot_mark (n o : Z) : Prop := exists j, o = 8 * j /\ 0 <= j <= n.

(** A branch to be patched. *)
Definition branch_mark (cs : list insn) (x : Z * Z) : Prop :=
  exists j i, x.1 = 8 * Z.of_nat j /\ cs !! j = Some i /\ is_jump i.

Definition cmp_ok (c : PendingCmp) : Prop :=
  match c with
  | CmpReg a b => 0 <= a <= 10 /\ 0 <= b <= 10
  | CmpTst a => 0 <= a <= 10
  end.

(** [G] lists the branches that an enclosing construct still has to patch.
    Branch distances are [i16]: the code is well formed while it has fewer
    than [2^15] slots. *)
Record code_inv (G : list (Z * Z)) (s : LowerState) (cs : list insn) : Prop := {
  ci_code : holds_code (out s) cs;
  ci_ok : len cs < 2 ^ 15 -> frag_ok cs;
  ci_offsets : Forall (slot_mark (len cs)) (insn_offsets s);
  ci_branches : Forall (branch_mark cs) (pending_branches s);
  ci_guards : Forall (branch_mark cs) G;
  ci_some : 0 < len cs
}.

(** A record schema the lowering can store through: offsets that [i32]
    arithmetic can hold, and room for a byte in a [Bytes] field. *)
Definition field_fits (f : Field) : Prop :=
  0 <= kind_size (field_kind f) /\
  match field_kind f with FBytes max_len => 1 <= max_len | _ => True end.

Definition schema_fits (sch : RecordSchema) : Prop :=
  Forall field_fits (fields sch) /\ record_size sch <= 2 ^ 31 - 16.

(** The scratch bookkeeping. *)
Record scratch_inv (s : LowerState) : Prop := {
  si_cmp : match pending_cmp s with Some c => cmp_ok c | None => True end;
  si_locals : map_Forall (fun _ off => -256 <= off <= -200) (locals s);
  si_depth : 0 <= tuple_depth s <= TUPLE_STACK_SLOTS;
  si_sets : 0 <= sets_instance_count s <= SETS_INSTANCE_SLOTS;
  si_value : match value_off s with Some o => - 2 ^ 15 <= o < 2 ^ 15 | None => True end;
  si_schema : match schema s with Some sch => schema_fits sch | None => True end
}.

Definition lower_inv (G : list (Z * Z)) (s : LowerState) : Prop :=
  scratch_inv s /\ exists cs, code_inv G s cs.

(** A pass that keeps the invariant, whatever it returns, and never panics. *)
Definition keeps {A} (m : lower_m A) (P : A -> Prop) : Prop :=
  forall G s, lower_inv G s -> st_post m s (fun a s' => lower_inv G s' /\ P a) (fun _ _ => True).

Definition keep {A} (m : lower_m A) : Prop := keeps m (fun _ => True).

Lemma keeps_ret {A} (a : A) (P : A -> Prop) : P a -> keeps (mret a) P.
Proof. by intros Ha G s Hs. Qed.

Lemma keeps_bind {A B} (m : lower_m A) (k : A -> lower_m B) P Q :
  keeps m P -> (forall a, P a -> keeps (k a) Q) -> keeps (m ≫= k) Q.
Proof.
  intros Hm Hk G s Hs. apply st_post_bind. eapply st_post_mono; [by apply Hm| |done].
  intros a s' [Hs' Ha]. by apply Hk.
Qed.

Lemma keep_bind {A B} (m : lower_m A) (k : A -> lower_m B) Q :
  keep m -> (forall a, keeps (k a) Q) -> keeps (m ≫= k) Q.
Proof. intros Hm Hk. by apply (keeps_bind _ _ (fun _ => True)); [|auto]. Qed.

Lemma keeps_throw {A} e (P : A -> Prop) : keeps (st_throw e) P.
Proof. done. Qed.

Lemma keeps_lift {A} (m : outcome LoweringError A) (P : A -> Prop) :
  safe m -> (forall a, m = Ret a -> P a) -> keeps (st_lift m) P.
Proof. intros H1 H2 G s Hs. apply st_post_lift; auto. Qed.

Lemma keep_lift {A} (m : outcome LoweringError A) : safe m -> keep (st_lift m).
Proof. intros H. by apply keeps_lift. Qed.

Lemma keep_ok_or {A} (o : option A) e : keep (st_lift (ok_or o e)).
Proof. apply keep_lift, safe_ok_or. Qed.

(** Reading the state: the value is that of a state with the invariant. *)
Lemma keeps_gets {A} (f : LowerState -> A) :
  keeps (st_gets f) (fun a => exists s, scratch_inv s /\ a = f s).
Proof. intros G s Hs. split; [done|]. exists s. by split; [apply Hs|]. Qed.

Lemma keep_gets {A B} (f : LowerState -> A) (k : A -> lower_m B) Q :
  (forall s, scratch_inv s -> keeps (k (f s)) Q) -> keeps (st_gets f ≫= k) Q.
Proof.
  intros H. eapply keeps_bind; [apply keeps_gets|]. intros a (s & Hs & ->). by apply H.
Qed.

Lemma keep_forM {A} (l : list A) (f : A -> lower_m unit) :
  (forall x, x ∈ l -> keep (f x)) -> keep (st_forM l f).
Proof.
  induction l as [|x l IH]; intros H; [by apply keeps_ret|]. cbn [st_forM].
  apply keep_bind; [apply H, list_elem_of_here|]. intros _. apply IH.
  intros y Hy. apply H. by right.
Qed.

(** *** Assignments that leave the code alone *)

Lemma branch_mark_app cs frag x : branch_mark cs x -> branch_mark (cs ++ frag) x.
Proof.
  intros (j & i & Hx & Hi & Hj). exists j, i. split_and!; [done| |done].
  by apply lookup_app_l_Some.
Qed.

Lemma code_inv_app G s cs frag f :
  code_inv G s cs -> appends f frag -> frag_ok frag ->
  code_inv G (with_out s (f (out s))) (cs ++ frag).
Proof.
  intros [Hc Hf Ho Hb Hg Hn] Ha Hok. split; cbn [with_out out insn_offsets pending_branches].
  - by apply Ha.
  - rewrite len_app. pose_lens. intros Hl. apply frag_ok_app; [apply Hf; lia|done].
  - eapply list.Forall_impl; [exact Ho|]. intros o (j & -> & Hj). exists j.
    rewrite len_app. pose_lens. lia.
  - eapply list.Forall_impl; [exact Hb|]. intros x. apply branch_mark_app.
  - eapply list.Forall_impl; [exact Hg|]. intros x. apply branch_mark_app.
  - rewrite len_app. pose_lens. lia.
Qed.

Lemma keep_emit f : emits_ok f -> keep (emit f).
Proof.
  intros (frag & Ha & Hok) G s [Hs [cs Hcs]]. split; [|done]. split.
  - by destruct Hs.
  - exists (cs ++ frag). by apply code_inv_app.
Qed.

Lemma keep_emits l : Forall good l -> keep (emits l).
Proof. intros H. by apply keep_emit, emits_ok_extend. Qed.

Lemma keep_set_cmp c :
  match c with Some c => cmp_ok c | None => True end -> keep (set_cmp c).
Proof.
  intros Hc G s [[] [cs []]]. split; [|done]. split; [by split|]. exists cs. by split.
Qed.

Lemma keep_scratch f : (forall s, scratch_inv s -> scratch_inv (f s)) ->
  (forall s, out (f s) = out s /\ insn_offsets (f s) = insn_offsets s /\
     pending_branches (f s) = pending_branches s) -> keep (st_modify f).
Proof.
  intros Hf Hsame G s [Hs [cs [H1 H2 H3 H4 H5 H6]]]. destruct (Hsame s) as (E1 & E2 & E3).
  split; [|done]. split; [by apply Hf|]. exists cs. split; [by rewrite E1|done|by rewrite E2|by rewrite E3|done|done].
Qed.

Lemma keep_stamp rd k : keep (stamp rd k).
Proof. apply keep_scratch; [by intros s []|done]. Qed.

Lemma keep_alloc_local v :
  keeps (alloc_local v) (fun o => match o with Some off => -256 <= off <= -200 | None => True end).
Proof.
  intros G s [[Hc Hl Hd Hst Hv Hsf] [cs Hcs]]. unfold alloc_local, st_post.
  destruct (locals s !! v) as [off|] eqn:E.
  { split; [split; [by split|by exists cs]|]. by apply (Hl v). }
  unfold LOCALS_SLOT_COUNT, LOCALS_BASE.
  destruct (Z.leb_spec 8 (Z.of_nat (size (locals s)))); [by split; [split; [split|exists cs]|]|].
  split; [|lia]. split; [|exists cs; by destruct Hcs]. split; try done.
  cbn [locals with_scratch]. apply map_Forall_insert_2; [lia|done].
Qed.

Lemma keep_local_slot v : keeps (local_slot v) (fun off => -256 <= off <= -200).
Proof.
  unfold local_slot. eapply keeps_bind; [apply keep_alloc_local|]. intros [off|] Ho.
  - by apply keeps_lift; [|intros ? [= <-]].
  - by apply keeps_lift.
Qed.

(** *** One instruction *)

Ltac keep_tac :=
  repeat lazymatch goal with
  | |- keeps (mret _) _ => by apply keeps_ret
  | |- keeps (st_throw _) _ => apply keeps_throw
  | |- keeps (mbind _ _) _ => apply keep_bind; [|intros ?]
  | |- keep (mbind _ _) => apply keep_bind; [|intros ?]
  | |- keep (mret _) => by apply keeps_ret
  | |- keep (st_throw _) => apply keeps_throw
  | |- keep (emits _) => apply keep_emits; good_list
  | |- keep (emit _) => apply keep_emit; emits_tac
  | |- keep (stamp _ _) => apply keep_stamp
  | |- keep (st_lift (ok_or _ _)) => apply keep_ok_or
  end.

Lemma keep_push rd : 0 <= rd <= 10 -> keep (lower_push rd).
Proof.
  intros Hr. apply keep_gets. intros s Hs. pose proof (si_depth _ Hs) as Hd.
  destruct (Z.leb_spec TUPLE_STACK_SLOTS (tuple_depth s)); [apply keeps_throw|].
  unfold TUPLE_STACK_SLOTS in *. apply keep_bind; [apply keep_emits; good_list|].
  intros _. apply keep_scratch; [|done]. intros s' []. split; try done.
  cbn [tuple_depth with_scratch]. unfold TUPLE_STACK_SLOTS. lia.
Qed.

Lemma keep_subr rd subr : 0 <= rd <= 10 -> keep (lower_subr rd subr).
Proof.
  intros Hr. unfold lower_subr.
  repeat case_match; first
    [ apply keeps_throw
    | apply keep_emit; first [by apply emits_ok_single|by apply emits_ok_two
        |by apply emits_ok_three|by apply emits_ok_kfunc_value]
    | apply keep_emits; good_list ].
Qed.

Lemma keep_call rd subr : 0 <= rd <= 10 -> keep (lower_call rd subr).
Proof.
  intros Hr. apply keep_bind; [by apply keep_subr|]. intros _.
  apply keep_scratch; [|done]. intros s []. split; try done.
Qed.

Lemma keep_setx rd idx : 0 <= rd <= 10 -> keep (lower_setx rd idx).
Proof.
  intros Hr. apply keep_gets. intros s _. apply keep_bind; [apply keep_ok_or|]. intros table.
  apply keep_bind; [apply keep_ok_or|]. intros v. apply keep_emits. good_list.
Qed.

Lemma keep_materialize rd n s :
  0 <= rd <= 10 -> 0 <= n < 3 -> (length s <= 15)%nat ->
  keep (materialize rd (SETS_SCRATCH_BASE - SETS_INSTANCE_SIZE * n) n s).
Proof.
  intros Hr Hn Hl. unfold materialize.
  apply keep_bind; [apply keep_emits; good_list|]. intros _.
  apply keep_bind; [apply keep_emits, store_chunks_good; bound|]. intros _.
  apply keep_bind; [destruct (rd =? 10); [by apply keeps_ret|apply keep_emits; good_list]|].
  intros _. apply keep_bind; [apply keep_emits; good_list|]. intros _.
  apply keep_bind; [|intros _; apply keep_stamp].
  apply keep_scratch; [|done]. intros s' []. split; try done.
  cbn [sets_instance_count with_scratch]. unfold SETS_INSTANCE_SLOTS. lia.
Qed.

Lemma keep_sets rd off : 0 <= rd <= 10 -> keep (lower_sets rd off).
Proof.
  intros Hr. apply keep_gets. intros s Hs. pose proof (si_sets _ Hs) as Hd.
  destruct (Z.leb_spec SETS_INSTANCE_SLOTS (sets_instance_count s)); [apply keeps_throw|].
  unfold SETS_INSTANCE_SLOTS in *. apply keep_gets. intros s' _.
  apply keep_bind; [apply keep_ok_or|]. intros tab.
  destruct (len tab <=? off); [apply keeps_throw|].
  apply keep_materialize; [done|lia|]. rewrite length_take. lia.
Qed.

Lemma keep_scmp r1 r2 : 0 <= r1 <= 10 -> 0 <= r2 <= 10 -> keep (lower_scmp r1 r2).
Proof.
  intros H1 H2. apply keep_gets. intros s Hs. cbn zeta. destruct (negb _); [apply keeps_throw|].
  apply keep_bind; [apply keep_emits; good_list|].
  intros _. apply keep_set_cmp. by cbn [cmp_ok].
Qed.

Lemma good_ret_value rd : 0 <= rd <= 10 -> good (ret_value rd).
Proof. intros H. unfold ret_value. destruct (rd =? 0); good_one. Qed.

Lemma keep_ret rd : 0 <= rd <= 10 -> keep (lower_ret rd).
Proof.
  intros Hr. apply keep_gets. intros s _. destruct (ret_mode s).
  - apply keep_gets. clear s. intros s Hs. pose proof (si_value _ Hs) as Hv.
    apply keep_bind.
    + destruct (value_off s) as [off|]; [|by apply keeps_ret].
      apply keep_bind; [destruct (rd =? 0); [apply keep_emits; good_list|by apply keeps_ret]|].
      intros _. apply keep_emits. good_list.
    + intros _. apply keep_bind; [apply keep_emit, emits_ok_submit; bound|].
      intros _. apply keep_emits. good_list.
  - apply keep_emits. apply list.Forall_cons_2; [by apply good_ret_value|good_list].
  - apply keep_emits. apply list.Forall_cons_2; [by apply good_ret_value|good_list].
Qed.

(** *** Branches *)

(** The slots a branch is emitted as: a jump with no distance yet. *)
Definition jump_code (b : bytes) : Prop :=
  exists c d s m, b = bpf_insn c d s 0 m /\ 0 <= c < 256 /\ Z.land c 7 = 5 /\ c <> 0x85 /\
    c <> 0x95 /\ 0 <= d <= 10 /\ 0 <= s <= 10 /\ - 2 ^ 31 <= m < 2 ^ 31.

Lemma jump_code_is c d s m :
  0 <= c < 256 -> Z.land c 7 = 5 -> c <> 0x85 -> c <> 0x95 -> 0 <= d <= 10 -> 0 <= s <= 10 ->
  is_jump (Ins c d s 0 m).
Proof.
  intros Hc J N1 N2 Hd Hs. unfold is_jump, regs_ok, Ins. cbn [i_code i_dst i_src].
  rewrite Z.mod_small, !land_15 by lia. split_and!; first [done|lia].
Qed.

Lemma keep_placeholder b t : jump_code b -> keep (emit_branch_placeholder b t).
Proof.
  intros (c & d & s & m & -> & Hc & J & N1 & N2 & Hd & Hs & Hm) G st [Hst [cs Hcs]].
  assert (Gd : good (bpf_insn c d s 0 m)).
  { apply good_insn; [lia..| |]; [|by intros]. unfold insn_req. rewrite J.
    by destruct (Z.eqb_spec c 0x85), (Z.eqb_spec c 0x95). }
  destruct (good_list [bpf_insn c d s 0 m]) as (Hw & Hf & Hk);
    [by apply list.Forall_cons_2; [|apply list.Forall_nil_2]|].
  pose proof (appends_extend _ Hw Hk) as Ha. rewrite slots_insn, slots_nil in *.
  pose proof (code_inv_app _ _ _ _ _ Hcs Ha Hf) as [I1 I2 I3 I4 I5 I6].
  split; [|done]. split; [by destruct Hst|]. eexists. split; [exact I1|exact I2|exact I3| |exact I5|exact I6].
  cbn [pending_branches with_branches]. apply list.Forall_app_2; [exact I4|].
  apply list.Forall_cons_2; [|apply list.Forall_nil_2].
  exists (length cs), (Ins c d s 0 m). cbn [fst]. split_and!.
  - destruct Hcs as [[Hasm _] _ _ _ _ _]. unfold body. rewrite (asm_len _ _ Hasm). unfold len. lia.
  - by rewrite lookup_app_r, Nat.sub_diag by lia.
  - by apply jump_code_is.
Qed.

Lemma branch_insn_jump op cmp b :
  cmp_ok cmp -> branch_insn op cmp = Ret b -> jump_code b.
Proof.
  intros Hc Hb.
  assert (exists c d s, b = bpf_insn c d s 0 0 /\ 0 <= d <= 10 /\ 0 <= s <= 10 /\
    c ∈ [0x1d; 0x15; 0x5d; 0x55; 0x6d; 0x65; 0x2d; 0x25; 0x7d; 0x75; 0x3d; 0x35; 0xcd; 0xc5;
         0xad; 0xa5; 0xdd; 0xd5; 0xbd; 0xb5]) as (c & d & s & -> & Hd & Hs & Hin).
  { unfold branch_insn in Hb. destruct cmp as [x y|x]; cbn [cmp_ok] in Hc;
      repeat case_match; simplify_eq; do 3 eexists; (split; [reflexivity|]);
      split_and!; try lia; apply (bool_decide_unpack _); by vm_compute. }
  exists c, d, s, 0. split; [done|].
  repeat (apply elem_of_cons in Hin as [->|Hin]; [split_and!; by try lia|]).
  by apply not_elem_of_nil in Hin.
Qed.

Lemma branch_insn_safe op cmp : 0x12 <= op <= 0x1b -> safe (branch_insn op cmp).
Proof.
  intros H.
  assert (op = 0x12 \/ op = 0x13 \/ op = 0x14 \/ op = 0x15 \/ op = 0x16 \/ op = 0x17 \/
    op = 0x18 \/ op = 0x19 \/ op = 0x1a \/ op = 0x1b) as Hop by lia.
  by destruct Hop as [->|[->|[->|[->|[->|[->|[->|[->|[->| ->]]]]]]]]]; destruct cmp.
Qed.

Lemma keep_branch ins : 0x12 <= op ins <= 0x1b -> keep (lower_branch ins).
Proof.
  intros Hop. apply keep_gets. intros s Hs. pose proof (si_cmp _ Hs) as Hc.
  apply keep_bind; [by apply keep_set_cmp|]. intros _.
  apply (keeps_bind _ _ cmp_ok).
  { apply keeps_lift; [apply safe_ok_or|]. intros c E.
    destruct (pending_cmp s); [|done]. by injection E as <-. }
  clear s Hs Hc. intros cmp Hc. apply keep_bind.
  { destruct (reads_dif_r0 cmp); [apply keep_emits; good_list|by apply keeps_ret]. }
  intros _. eapply keeps_bind.
  { apply keeps_lift; [by apply branch_insn_safe|]. intros b Hb. exact (branch_insn_jump _ _ _ Hc Hb). }
  intros b Hb. by apply keep_placeholder.
Qed.

(** *** Variables and loads *)

Lemma keep_load_or_zero rd : 0 <= rd <= 10 -> keep (emits (load_or_zero rd)).
Proof. intros H. by apply keep_emit, emits_ok_load_or_zero. Qed.

Ltac keep_seq :=
  repeat lazymatch goal with
  | |- keep (mbind _ _) => apply keep_bind; [|intros _]
  | |- keeps ?m (fun _ => True) => change (keep m)
  end;
  lazymatch goal with
  | |- keep (emits (load_or_zero _)) => by apply keep_load_or_zero
  | |- keep (emits (map _ _)) => apply keep_emits, good_loads; slots_in_stack
  | |- keep (emits _) => apply keep_emits; good_list
  | |- keep (emit _) => apply keep_emit; emits_tac
  | |- keep (stamp _ _) => apply keep_stamp
  | |- keep (if ?b then _ else _) => destruct b; [by apply keeps_ret|apply keep_emits; good_list]
  | |- keep (mret _) => by apply keeps_ret
  end.

Lemma keep_ldgs_execname rd : 0 <= rd <= 10 -> keep (lower_ldgs_execname rd).
Proof. intros H. unfold lower_ldgs_execname, call_clobbered. keep_seq. Qed.

Lemma keep_helper id rd :
  0 <= rd <= 10 -> id ∈ [5; 8; 14; 16; 35] -> keep (emit (emit_helper_call_difo id rd)).
Proof.
  intros H Hid. apply keep_emit. apply emits_ok_helper; [done|..];
    repeat (apply elem_of_cons in Hid as [->|Hid];
      [first [apply (bool_decide_unpack _); by vm_compute|done]|]); by apply not_elem_of_nil in Hid.
Qed.

Lemma keep_ldgs_user rd v :
  0 <= rd <= 10 -> 0 <= v < 2 ^ 16 -> keep (lower_ldgs_user rd v).
Proof. intros H Hv. unfold lower_ldgs_user, lookup_into, call_clobbered. keep_seq. Qed.

Lemma keep_stgs rs v : 0 <= rs <= 10 -> 0 <= v < 2 ^ 16 -> keep (lower_stgs rs v).
Proof. intros H Hv. unfold lower_stgs, call_clobbered. keep_seq. Qed.

Lemma keep_stts rs v : 0 <= rs <= 10 -> 0 <= v < 2 ^ 16 -> keep (lower_stts rs v).
Proof. intros H Hv. unfold lower_stts, tls_key, call_clobbered. keep_seq. Qed.

Lemma keep_ldts rd v : 0 <= rd <= 10 -> 0 <= v < 2 ^ 16 -> keep (lower_ldts rd v).
Proof. intros H Hv. unfold lower_ldts, tls_key, lookup_into, call_clobbered. keep_seq. Qed.

Lemma keep_ldgs rd v : 0 <= rd <= 10 -> 0 <= v < 2 ^ 16 -> keep (lower_ldgs rd v).
Proof.
  intros H Hv. unfold lower_ldgs.
  assert (Hh : forall id, id ∈ [5; 8; 14; 16; 35] -> keep (emit (emit_helper_call_difo id rd)))
    by (intros; by apply keep_helper).
  repeat (match goal with |- keep (if ?b then _ else _) => destruct b eqn:? end);
    lazymatch goal with
    | |- keep (st_throw _) => apply keeps_throw
    | |- keep (lower_ldgs_user _ _) => by apply keep_ldgs_user
    | |- keep (lower_ldgs_execname _) => by apply keep_ldgs_execname
    | |- keep (emit (emit_kfunc_value _ _)) => apply keep_emit, emits_ok_kfunc_value; done
    | |- keep (emit _) => apply Hh, (bool_decide_unpack _); by vm_compute
    | |- keep (emits _) => zbool; apply keep_emits; good_list
    | |- keep (mbind _ _) =>
        apply keep_bind; [apply Hh, (bool_decide_unpack _); by vm_compute|intros _];
        apply keep_emits; good_list
    end.
Qed.

Lemma keep_load op r1 rd : 0 <= r1 <= 10 -> 0 <= rd <= 10 -> keep (lower_load op r1 rd).
Proof.
  intros H1 H2. unfold lower_load, call_clobbered.
  assert (Hsz : exists (size : Z) (signed : bool), load_shape op = (size, signed) /\ (size = 1 \/ size = 2 \/ size = 4 \/ size = 8)).
  { unfold load_shape. repeat case_match; do 2 eexists; (split; [reflexivity|]); lia. }
  destruct Hsz as (size & signed & -> & [->|[->|[->| ->]]]); destruct signed; keep_seq.
Qed.

(** *** The dispatch *)

(** The registers a DIF instruction names; the other bytes of the word are an
    index, a variable id or a branch label. *)
Definition regs_of (op r1 r2 rd : Z) : list Z :=
  if bool_decide (op ∈ [0x01; 0x02; 0x03; 0x04; 0x05; 0x06; 0x07; 0x08; 0x0a; 0x0c; 0x2e])
  then [r1; r2; rd]
  else if bool_decide (op ∈ [0x0d; 0x0e; 0x1c; 0x1d; 0x1e; 0x1f; 0x20; 0x21; 0x22])
  then [r1; rd]
  else if bool_decide (op ∈ [0x0f; 0x27]) then [r1; r2]
  else if op =? 0x10 then [r1]
  else if bool_decide (op ∈ [0x23; 0x25; 0x26; 0x29; 0x2a; 0x2c; 0x2d; 0x2f; 0x31; 0x32;
                             0x38; 0x39])
  then [rd] else [].

Definition reg_ok (r : Z) : Prop := 0 <= r <= 10.

(** An instruction over registers eBPF has; DIF itself has eight. *)
Definition ins_ok (i : DifInstr) : Prop :=
  Forall reg_ok (regs_of (op i) (r1 i) (r2 i) (rd i)) /\ 0 <= imm16 i < 2 ^ 16.

(** Use [ins_ok] once the opcode is a literal. *)
Ltac use_regs H :=
  lazymatch type of H with
  | Forall _ ?l => let l' := eval vm_compute in l in change (Forall reg_ok l') in H
  end;
  repeat (let H' := fresh "Hreg" in apply list.Forall_cons in H as [H' H]; unfold reg_ok in H').

Lemma keep_main i : ins_ok i -> keep (lower_main i).
Proof.
  destruct i as [o a b c]. unfold ins_ok, lower_main. cbn [op r1 r2 rd].
  set (i := {| op := o; r1 := a; r2 := b; rd := c |}).
  assert (Eo : op i = o) by done. set (v := imm16 i). clearbody v i.
  intros [Hr Hv].
  repeat (match goal with |- keep (match ?x with _ => _ end) => destruct x end);
    use_regs Hr;
    lazymatch goal with
    | |- keep (st_throw _) => apply keeps_throw
    | |- keep (mret _) => by apply keeps_ret
    | |- keep (emit (lower_binary _ _ _ _)) => apply keep_emit, emits_ok_binary; done
    | |- keep (emit (lower_mov _ _)) => apply keep_emit, emits_ok_mov; done
    | |- keep (mbind _ _) =>
        apply keep_bind; [apply keep_emit, emits_ok_mov; done|intros _; apply keep_emits; good_list]
    | |- keep (lower_setx _ _) => by apply keep_setx
    | |- keep (lower_sets _ _) => by apply keep_sets
    | |- keep (lower_scmp _ _) => by apply keep_scmp
    | |- keep (lower_ret _) => by apply keep_ret
    | |- keep (set_cmp _) => by apply keep_set_cmp
    | |- keep (emit_branch_placeholder _ _) =>
        apply keep_placeholder; exists 0x05, 0, 0, 0; by split_and!
    | |- keep (lower_branch _) => apply keep_branch; rewrite Eo; lia
    | |- keep (lower_ldgs _ _) => by apply keep_ldgs
    | |- keep (lower_load _ _ _) => by apply keep_load
    | |- keep (lower_stgs _ _) => by apply keep_stgs
    | |- keep (lower_stts _ _) => by apply keep_stts
    | |- keep (lower_ldts _ _) => by apply keep_ldts
    end.
Qed.

Lemma keep_one i : ins_ok i -> keep (lower_one_state i).
Proof.
  intros Hi.
  assert (Hrest : keep ((if writes_rd (op i) then stamp (rd i) RkUnknown else mret tt) ;;
    lower_main i)).
  { apply keep_bind; [destruct (writes_rd (op i)); [apply keep_stamp|by apply keeps_ret]|].
    intros _. by apply keep_main. }
  unfold lower_one_state. destruct Hi as [Hr Hv]. revert Hr Hrest.
  generalize (lower_main i), (rd i), (r1 i), (r2 i), (writes_rd (op i)). intros m d a b w.
  destruct (op i) as [|p|p] eqn:E; intros Hr Hrest; [exact Hrest| |exact Hrest].
  repeat (match goal with |- keep (match ?x with _ => _ end) => destruct x; try exact Hrest end);
    use_regs Hr;
    lazymatch goal with
    | |- keep (lower_push _) => by apply keep_push
    | |- keep (lower_call _ _) => by apply keep_call
    | |- keep (mbind _ _) =>
        eapply keeps_bind; [apply keep_local_slot|]; intros off Ho; apply keep_emits; good_list
    end.
Qed.

Lemma keep_push_offset : keep push_offset.
Proof.
  intros G s [Hs [cs [H1 H2 H3 H4 H5 H6]]]. split; [|done]. split; [by destruct Hs|].
  exists cs. split; [done|done| |done|done|done]. cbn [insn_offsets with_branches].
  apply list.Forall_app_2; [done|]. apply list.Forall_cons_2; [|apply list.Forall_nil_2].
  destruct H1 as [Hasm _]. exists (len cs). unfold body. rewrite (asm_len _ _ Hasm).
  split; [done|]. pose_lens. lia.
Qed.

Lemma keep_instrs l : Forall ins_ok l -> keep (lower_instrs l).
Proof.
  intros Hl. unfold lower_instrs. destruct l as [|i l]; [apply keeps_throw|].
  apply keep_bind; [|intros _; apply keep_push_offset].
  apply keep_forM. intros x Hx. rewrite list.Forall_forall in Hl.
  apply keep_bind; [apply keep_push_offset|]. intros _. by apply keep_one, Hl.
Qed.

(** ** Branch fixup *)

Lemma write_mid {E} (x y z s : bytes) off :
  len s = len y -> off = len x -> write (E:=E) (x ++ y ++ z) off s = Ret (x ++ s ++ z).
Proof.
  intros Hs ->. rewrite write_ok by len_lia.
  replace (Z.to_nat (len x)) with (length x) by (unfold len; lia).
  rewrite take_app_length. rewrite <- drop_drop, drop_app_length.
  replace (length s) with (length y) by (unfold len in Hs; lia). by rewrite drop_app_length.
Qed.

(** Writing the offset field of a slot. *)
Lemma decode_patch b cs j off :
  asm b cs -> (j < length cs)%nat ->
  exists b', write (E:=LoweringError) b (8 * Z.of_nat j + 2) (to_le 2 off) = Ret b' /\
    asm b' (alter (set_off (as_i16 off)) j cs).
Proof.
  intros [Hd Hl] Hj.
  set (pre := take (8 * j) b). set (post := drop (8 * j) b).
  assert (Hpre : len pre = 8 * Z.of_nat j) by (unfold pre; rewrite len_take; unfold len in *; lia).
  assert (Hpost : len post = len b - 8 * Z.of_nat j)
    by (unfold post; rewrite len_drop; unfold len in *; lia).
  assert (E : b = pre ++ post) by (symmetry; apply take_drop).
  clearbody pre post. subst b.
  do 8 (destruct post as [|? post]; [unfold len in *; simpl in *; lia|]).
  assert (Hm : len pre mod 8 = 0) by (rewrite Hpre, Z.mul_comm; by apply Z.mod_mul).
  apply decode_whole in Hm as Hw. rewrite decode_all_app in Hd by done.
  cbn [decode_all] in Hd. set (cpre := decode_all pre) in *.
  assert (Hcl : length cpre = j) by (unfold len in *; lia).
  exists ((pre ++ [b; b0]) ++ to_le 2 off ++ [b3; b4; b5; b6] ++ post). split.
  - replace (pre ++ b :: b0 :: b1 :: b2 :: b3 :: b4 :: b5 :: b6 :: post)
      with ((pre ++ [b; b0]) ++ [b1; b2] ++ [b3; b4; b5; b6] ++ post)
      by (by rewrite <- app_assoc).
    apply write_mid; [by rewrite len_to_le|]. len_simpl. unfold len in *. simpl. lia.
  - rewrite <- Hd, <- Hcl. split.
    + rewrite <- app_assoc, decode_all_app by done. fold cpre.
      rewrite <- (Nat.add_0_r (length cpre)), alter_app_r. f_equal.
      change (to_le 2 off) with [u8b off; u8b (Z.shiftr off 8)].
      cbn [app decode_all alter list_alter]. f_equal. unfold decode_slot, set_off.
      cbn [i_code i_dst i_src i_imm]. f_equal. unfold as_i16.
      change (le_combine [u8b off; u8b (Z.shiftr off 8)]) with (le_combine (le_split 2 off)).
      by rewrite le_combine_split.
    + assert (El : forall (f : insn -> insn) l, len (alter f (length cpre) l) = len l)
        by (intros; unfold len; by rewrite length_alter).
      rewrite El. rewrite Hd, <- Hl. len_simpl. unfold len. simpl. lia.
Qed.

Lemma lookup_patch off j k (cs : list insn) i :
  cs !! k = Some i -> is_jump i ->
  exists i', alter (set_off off) j cs !! k = Some i' /\ is_jump i'.
Proof.
  intros Hk Hi. destruct (decide (j = k)) as [->|Hne].
  - rewrite list_lookup_alter, Hk, decide_True by done. exists (set_off off i). split; [done|exact Hi].
  - rewrite list_lookup_alter_ne by done. by exists i.
Qed.

Lemma patch_branches_ok offsets rl l : forall b cs,
  holds_code (b, rl) cs -> (len cs < 2 ^ 15 -> frag_ok cs) ->
  Forall (slot_mark (len cs)) offsets -> Forall (branch_mark cs) l ->
  match patch_branches offsets l b with
  | Ret b' => exists cs', holds_code (b', rl) cs' /\ (len cs' < 2 ^ 15 -> frag_ok cs') /\
      len cs' = len cs /\ (forall x, branch_mark cs x -> branch_mark cs' x)
  | Throw _ => True
  | Panic => False
  end.
Proof.
  induction l as [|[p t] l IH]; intros b cs Hc Hf Ho Hb; [by exists cs|].
  apply list.Forall_cons in Hb as [(j & i & Hp & Hi & Hj) Hb]. cbn [fst] in Hp. subst p.
  cbn [patch_branches patch_branch].
  destruct (offsets !! Z.to_nat t) as [o|] eqn:Et; [|done]. cbn [ok_or]. rewrite bind_Ret.
  rewrite list.Forall_lookup in Ho. destruct (Ho _ _ Et) as (m & -> & Hm).
  set (off := as_i16 _). destruct Hc as [Hasm Hr]. cbn [fst snd] in Hasm, Hr.
  destruct (decode_patch b cs j off Hasm) as (b' & -> & Hasm'); [by eapply lookup_lt_Some|].
  rewrite bind_Ret.
  assert (El : len (alter (set_off (as_i16 off)) j cs) = len cs)
    by (unfold len; by rewrite length_alter).
  pose proof (lookup_lt_Some _ _ _ Hi) as Hlt. pose_lens.
  assert (Hbm : forall x, branch_mark cs x -> branch_mark (alter (set_off (as_i16 off)) j cs) x).
  { intros x (k & ik & Hx & Hik & Hjk).
    destruct (lookup_patch (as_i16 off) j k cs ik Hik Hjk) as (ik' & H1 & H2). by exists k, ik'. }
  assert (Hgoal : forall r, match r with
    | Ret b' => exists cs', holds_code (b', rl) cs' /\ (len cs' < 2 ^ 15 -> frag_ok cs') /\
        len cs' = len (alter (set_off (as_i16 off)) j cs) /\
        (forall x, branch_mark (alter (set_off (as_i16 off)) j cs) x -> branch_mark cs' x)
    | Throw _ => True | Panic => False end ->
    match r : outcome LoweringError bytes with
    | Ret b' => exists cs', holds_code (b', rl) cs' /\ (len cs' < 2 ^ 15 -> frag_ok cs') /\
        len cs' = len cs /\ (forall x, branch_mark cs x -> branch_mark cs' x)
    | Throw _ => True | Panic => False end).
  { rewrite El. intros [b2|e|]; [|done..]. intros (cs' & A & B & C & D). exists cs'. auto 6. }
  apply Hgoal. clear Hgoal. rewrite <- El in Ho.
  apply (IH b' (alter (set_off (as_i16 off)) j cs)).
  - split; [done|]. by rewrite kcalls_patch.
  - rewrite El. intros Hs. apply (frag_ok_patch _ _ i); [by apply Hf|done|done|].
    assert (Eo : Z.quot (8 * m - 8 * Z.of_nat j - 8) 8 = m - Z.of_nat j - 1).
    { replace (8 * m - 8 * Z.of_nat j - 8) with ((m - Z.of_nat j - 1) * 8) by lia.
      by apply Z.quot_mul. }
    unfold off. rewrite Eo. assert (Z.of_nat j < len cs) by (unfold len; lia).
    rewrite !as_i16_id by (rewrite ?as_i16_id; lia). lia.
  - by apply list.Forall_lookup.
  - by eapply list.Forall_impl.
Qed.

Lemma keep_fixup : keep fixup_branches.
Proof.
  intros G s [Hs [cs [H1 H2 H3 H4 H5 H6]]]. unfold fixup_branches, st_post.
  pose proof (patch_branches_ok (insn_offsets s) (kfunc_relocs s) (pending_branches s) (body s) cs)
    as H. unfold body, kfunc_relocs in *. rewrite <- surjective_pairing in H.
  specialize (H H1 H2 H3 H4).
  destruct (patch_branches _ _ _) as [b'|e|]; [|done..].
  destruct H as (cs' & Hc & Hf & Hl & Hm). split; [|done]. split; [by destruct Hs|].
  exists cs'. split; [done|done| | | |by rewrite Hl].
  - rewrite Hl. exact H3.
  - by eapply list.Forall_impl.
  - by eapply list.Forall_impl.
Qed.

Lemma keep_clear_pending : keep clear_pending.
Proof.
  intros G s [Hs [cs [H1 H2 H3 H4 H5 H6]]]. split; [|done]. split; [by destruct Hs|].
  exists cs. by split.
Qed.

Lemma keep_begin_section : keep begin_section.
Proof.
  intros G s [Hs [cs [H1 H2 H3 H4 H5 H6]]]. split; [|done]. split; [by destruct Hs|].
  exists cs. by split.
Qed.

(** ** DOF sections and DIFOs *)

(** The sections of the DOF lie in the blob: what a loader that hands the
    lowering a DOF has to make sure of, see [host_section_out_of_blob]. *)
Definition dof_wf (d : Dof) : Prop :=
  slice_len_ok (raw d) /\
  Forall (fun s => 0 <= sec_offset s /\ 0 <= sec_size s /\
                   sec_offset s + sec_size s <= len (raw d)) (sections d).

(** A section the lowering may read as DIF: one of that kind, or the first
    link of a DIFO. *)
Definition dif_code (d : Dof) (s : DofSection) : Prop :=
  sec_kind s = SDif \/
  exists i o j, difo_at (E:=LoweringError) d i = Ret (Some o) /\ dif_section o = Some j /\
    section_get d j = Some s.

(** Every DIF instruction of the DOF names registers eBPF has. *)
Definition dif_ok (d : Dof) : Prop :=
  forall s l, s ∈ sections d -> dif_code d s ->
    dif_instructions (E:=LoweringError) d s = Ret l -> Forall ins_ok l.

Lemma section_get_in d i s : section_get d i = Some s -> s ∈ sections d.
Proof. apply list_elem_of_lookup_2. Qed.

Lemma section_bytes_wf {E} d s :
  dof_wf d -> s ∈ sections d -> exists b, section_bytes (E:=E) d s = Ret b.
Proof.
  intros [Hl Hs] Hin. rewrite list.Forall_forall in Hs. destruct (Hs _ Hin) as (H1 & H2 & H3).
  unfold section_bytes, add64, slice_len_ok in *.
  destruct (Z.leb_spec (sec_offset s + sec_size s) U64_MAX); [|unfold U64_MAX in *; lia].
  rewrite bind_Ret. destruct (slice_ok (E:=E) (raw d) (sec_offset s) (sec_offset s + sec_size s))
    as (b & -> & _); [lia|lia|]. by exists b.
Qed.

Lemma dif_instructions_safe {E} d s :
  dof_wf d -> s ∈ sections d -> safe (dif_instructions (E:=E) d s).
Proof.
  intros Hd Hs. unfold dif_instructions. by destruct (section_bytes_wf (E:=E) d s Hd Hs) as [b ->].
Qed.

Lemma u32_at_safe b off : 0 <= off -> off + 4 <= U64_MAX -> safe (u32_at b off).
Proof.
  intros H0 H1. unfold u32_at, add64. destruct (Z.leb_spec (off + 4) U64_MAX); [|lia].
  rewrite bind_Ret. apply safe_ok_or.
Qed.

Lemma u64_at_safe b off : 0 <= off -> off + 8 <= U64_MAX -> safe (u64_at b off).
Proof.
  intros H0 H1. unfold u64_at, add64. destruct (Z.leb_spec (off + 8) U64_MAX); [|lia].
  rewrite bind_Ret. apply safe_ok_or.
Qed.

Lemma safe_ok {E F A} (m : outcome E A) : safe m -> safe (HostDof.ok (F:=F) m).
Proof. by destruct m. Qed.

Lemma safe_filter_ok {E F A B} (f : A -> outcome E B) l :
  (forall x, x ∈ l -> safe (f x)) -> safe (filter_ok (F:=F) f l).
Proof.
  induction l as [|x l IH]; intros H; [done|]. cbn [filter_ok].
  apply safe_bind; [apply safe_ok, H, list_elem_of_here|]. intros o _.
  apply safe_bind; [apply IH; intros; apply H; by right|]. done.
Qed.

Ltac reads_safe :=
  repeat (apply safe_bind;
    [first [apply u32_at_safe; by vm_compute|apply u64_at_safe; by vm_compute]|intros ? _]).

Lemma host_action_safe b : safe (parse_action b).
Proof. unfold parse_action. destruct (_ <? _); [done|]. by reads_safe. Qed.

Lemma host_ecb_safe b : safe (parse_ecb b).
Proof. unfold parse_ecb. destruct (_ <? _); [done|]. by reads_safe. Qed.

Lemma parse_difo_safe b : safe (parse_difo b).
Proof.
  unfold parse_difo. destruct (Z.ltb_spec (len b) 8); [done|].
  apply safe_bind; [apply safe_byte_at; lia|]. intros ? _.
  apply safe_bind; [apply safe_le_at; lia|]. intros ? _.
  apply safe_bind; [apply safe_slice; lia|]. intros l _. by destruct (negb _).
Qed.

Lemma difo_at_safe {E} d i : dof_wf d -> safe (difo_at (E:=E) d i).
Proof.
  intros Hd. unfold difo_at. destruct (_ =? _); [done|].
  destruct (section_get d i) as [s|] eqn:Hs; [|done]. destruct (negb _); [done|].
  destruct (section_bytes_wf (E:=E) d s Hd) as [b ->]; [by eapply section_get_in|].
  rewrite bind_Ret. apply safe_ok, parse_difo_safe.
Qed.

Lemma actions_in_chain_safe {E} d i : dof_wf d -> safe (actions_in_chain (E:=E) d i).
Proof.
  intros Hd. unfold actions_in_chain. destruct (_ =? _); [done|].
  destruct (section_get d i) as [s|] eqn:Hs; [|done]. destruct (negb _); [done|].
  destruct (section_bytes_wf (E:=E) d s Hd) as [b ->]; [by eapply section_get_in|].
  rewrite bind_Ret. apply safe_filter_ok. intros. apply host_action_safe.
Qed.

Lemma linked_in d o s : linked d o = Some s -> s ∈ sections d.
Proof. unfold linked. destruct o; [|done]. apply section_get_in. Qed.

Lemma read_inttab_safe {E} d o :
  dof_wf d -> (forall s, o = Some s -> s ∈ sections d) -> safe (read_inttab (E:=E) d o).
Proof.
  intros Hd Ho. destruct o as [s|]; [|done]. cbn [read_inttab].
  by destruct (section_bytes_wf (E:=E) d s Hd (Ho s eq_refl)) as [b ->].
Qed.

Lemma read_strtab_safe {E} d o :
  dof_wf d -> (forall s, o = Some s -> s ∈ sections d) -> safe (read_strtab (E:=E) d o).
Proof.
  intros Hd Ho. destruct o as [s|]; [|done]. cbn [read_strtab].
  by destruct (section_bytes_wf (E:=E) d s Hd (Ho s eq_refl)) as [b ->].
Qed.

Lemma keep_section_into d s :
  dof_wf d -> dif_ok d -> s ∈ sections d -> dif_code d s -> keep (lower_dif_section_into d s).
Proof.
  intros Hd Hok Hs Hc. unfold lower_dif_section_into.
  eapply keeps_bind.
  { apply keeps_lift; [by apply dif_instructions_safe|]. intros l Hl. exact (Hok _ _ Hs Hc Hl). }
  intros l Hl. by apply keep_instrs.
Qed.

Lemma keep_with_section f :
  keep (st_modify (fun s => with_section s (f s).1.1 (f s).1.2 (f s).2)).
Proof. apply keep_scratch; [by intros s []|done]. Qed.

Lemma keep_difo_with f d i : dof_wf d -> dif_ok d -> keep (lower_difo_with f d i).
Proof.
  intros Hd Hok. unfold lower_difo_with.
  apply (keeps_bind _ _ (fun o => difo_at (E:=LoweringError) d i = Ret o));
    [by apply keeps_lift; [apply difo_at_safe|]|]. intros o Ho.
  apply (keeps_bind _ _ (fun difo => o = Some difo)).
  { apply keeps_lift; [apply safe_ok_or|]. intros x E. destruct o; [by injection E as <-|done]. }
  intros difo ->. apply (keeps_bind _ _ (fun j => dif_section difo = Some j)).
  { apply keeps_lift; [apply safe_ok_or|]. intros x E.
    destruct (dif_section difo); [by injection E as <-|done]. }
  intros j Hj. apply (keeps_bind _ _ (fun s => section_get d j = Some s)).
  { apply keeps_lift; [apply safe_ok_or|]. intros x E.
    destruct (section_get d j); [by injection E as <-|done]. }
  intros sec Hsec.
  apply keep_bind; [apply keep_lift, read_inttab_safe; [done|intros; by eapply linked_in]|].
  intros it.
  apply keep_bind; [apply keep_lift, read_strtab_safe; [done|intros; by eapply linked_in]|].
  intros sb. apply keep_bind; [apply (keep_with_section (fun s => (it, sb, f (ret_mode s))))|].
  intros _. apply keep_bind.
  { apply keep_section_into; [done|done|by eapply section_get_in|].
    right. by exists i, difo, j. }
  intros _. apply keep_bind; [apply keep_fixup|]. intros _. apply keep_clear_pending.
Qed.

Lemma keep_difo d i : dof_wf d -> dif_ok d -> keep (lower_difo_by_secidx d i).
Proof. apply keep_difo_with. Qed.
