(* ===== verification/LowerSafe.v ===== *)
(** Lowering actions, aggregations and whole programs is safe: the rules of
    LowerOk.v carried through action.rs, agg.rs and mod.rs. *)

From Stdlib Require Import Strings.String.
From stdpp Require Import gmap sorting.
From S2P Require Import Prelude Emit Bpf Verify CodeFrag Schema HostDof.
From S2P Require Import LowerState LowerDif LowerAction LowerAgg LowerProg LowerOk.

Local Open Scope Z_scope.
Local Open Scope list_scope.

(** ** Branches over what follows *)

Lemma emit_jump G s cs b :
  jump_code b -> code_inv G s cs ->
  exists i, code_inv ((len (body s), 0) :: G) (with_out s (extend [b] (out s))) (cs ++ [i]).
Proof.
  intros (c & d & r & m & -> & Hc & J & N1 & N2 & Hd & Hr & Hm) Hcs.
  assert (Gd : good (bpf_insn c d r 0 m)).
  { apply good_insn; [lia..| |]; [|by intros]. unfold insn_req. rewrite J.
    by destruct (Z.eqb_spec c 0x85), (Z.eqb_spec c 0x95). }
  destruct (good_list [bpf_insn c d r 0 m]) as (Hw & Hf & Hk);
    [by apply list.Forall_cons_2; [|apply list.Forall_nil_2]|].
  pose proof (appends_extend _ Hw Hk) as Ha. rewrite slots_insn, slots_nil in *.
  pose proof (code_inv_app _ _ _ _ _ Hcs Ha Hf) as [I1 I2 I3 I4 I5 I6].
  exists (Ins c d r 0 m). split; try done. apply list.Forall_cons_2; [|done].
  exists (length cs), (Ins c d r 0 m). cbn [fst]. split_and!.
  - destruct Hcs as [[Hasm _] _ _ _ _ _]. unfold body. rewrite (asm_len _ _ Hasm). unfold len. lia.
  - by rewrite lookup_app_r, Nat.sub_diag by lia.
  - by apply jump_code_is.
Qed.

(** Patching a branch to the end of the code. *)
Lemma patch_end_ok (a : Asm) cs j i :
  holds_code a cs -> cs !! j = Some i -> is_jump i -> (len cs < 2 ^ 15 -> frag_ok cs) ->
  exists b cs', patch_end (E:=LoweringError) a.1 (8 * Z.of_nat j) = Ret b /\
    holds_code (b, a.2) cs' /\ (len cs' < 2 ^ 15 -> frag_ok cs') /\ len cs' = len cs /\
    (forall x, branch_mark cs x -> branch_mark cs' x).
Proof.
  intros [Hasm Hr] Hi Hj H2. unfold patch_end.
  pose proof (lookup_lt_Some _ _ _ Hi) as Hlt.
  assert (Hjl : Z.of_nat j < len cs) by (unfold len; lia).
  assert (Eo : (len a.1 - 8 * Z.of_nat j - 8) / 8 = len cs - Z.of_nat j - 1).
  { rewrite (asm_len _ _ Hasm).
    replace (8 * len cs - 8 * Z.of_nat j - 8) with ((len cs - Z.of_nat j - 1) * 8) by lia.
    by apply Z.div_mul. }
  rewrite Eo. set (off := as_i16 _).
  destruct (decode_patch a.1 cs j off Hasm Hlt) as (b' & -> & Hasm').
  assert (El : len (alter (set_off (as_i16 off)) j cs) = len cs)
    by (unfold len; by rewrite length_alter).
  exists b', (alter (set_off (as_i16 off)) j cs). split_and!; [done| | |done|].
  - split; [done|]. by rewrite kcalls_patch.
  - rewrite El. intros Hl. apply (frag_ok_patch _ _ i); [by apply H2|done|done|].
    pose_lens. unfold off. rewrite !as_i16_id by (rewrite ?as_i16_id; lia). lia.
  - intros x (k & ik & Hx & Hik & Hjk).
    destruct (lookup_patch (as_i16 off) j k cs ik Hik Hjk) as (ik' & A & B). by exists k, ik'.
Qed.

Lemma patch_to_end_ok G s p :
  lower_inv ((p, 0) :: G) s ->
  st_post (patch_to_end p) s (fun _ s' => lower_inv G s') (fun _ _ => True).
Proof.
  intros [Hs [cs [H1 H2 H3 H4 H5 H6]]].
  apply list.Forall_cons in H5 as [(j & i & Hp & Hi & Hj) H5]. cbn [fst] in Hp. subst p.
  unfold st_post, patch_to_end, body.
  destruct (patch_end_ok (out s) cs j i H1 Hi Hj H2) as (b & cs' & -> & A & B & C & D).
  split; [by destruct Hs|]. exists cs'. split; [done|done|by rewrite C| | |by rewrite C];
    by eapply list.Forall_impl.
Qed.

Lemma keep_jump_over b m : jump_code b -> keep m -> keep (jump_over b m).
Proof.
  intros Hb Hm G s Hs. unfold jump_over. apply st_post_bind.
  change (st_post (emits [b];; m;; patch_to_end (len (body s))) s
            (fun a s' => lower_inv G s' /\ True) (fun _ _ => True)).
  apply st_post_bind.
  assert (Hs1 : lower_inv ((len (body s), 0) :: G) (with_out s (extend [b] (out s)))).
  { destruct Hs as [Hsc [cs Hcs]]. split; [by destruct Hsc|].
    destruct (emit_jump G s cs b Hb Hcs) as [i Hi]. by eexists. }
  change (st_post (m;; patch_to_end (len (body s))) (with_out s (extend [b] (out s)))
            (fun a s' => lower_inv G s' /\ True) (fun _ _ => True)).
  apply st_post_bind. eapply st_post_mono; [exact (Hm _ _ Hs1)| |done].
  intros _ s2 [Hs2 _]. eapply st_post_mono; [by apply patch_to_end_ok|by split|done].
Qed.

Lemma jump_code_imm c d m :
  0 <= c < 256 -> Z.land c 7 = 5 -> c <> 0x85 -> c <> 0x95 -> 0 <= d <= 10 ->
  - 2 ^ 31 <= m < 2 ^ 31 -> jump_code (bpf_insn c d 0 0 m).
Proof. intros. exists c, d, 0, m. split_and!; first [done|lia]. Qed.

Ltac jump_tac := apply jump_code_imm; first [done|lia].

(** ** Fragments with branches of their own *)

(** An [extend] list whose branches stay inside it. *)
Inductive closed_list : list bytes -> Prop :=
| closed_nil : closed_list []
| closed_good b l : good b -> closed_list l -> closed_list (b :: l)
| closed_jump c d s o m l :
    0 <= c < 256 -> Z.land c 7 = 5 -> c <> 0x85 -> c <> 0x95 -> 0 <= d <= 10 -> 0 <= s <= 10 ->
    - 2 ^ 31 <= m < 2 ^ 31 -> 0 <= o < 2 ^ 15 -> o <= len (concat l) / 8 -> closed_list l ->
    closed_list (bpf_insn c d s o m :: l).

Lemma closed_app l1 l2 : closed_list l1 -> closed_list l2 -> closed_list (l1 ++ l2).
Proof.
  induction 1 as [|b l Hb Hl IH|c d s o m l Hc J N1 N2 Hd Hs Hm Ho Hn Hl IH]; intros H2;
    [done|by apply closed_good; auto|].
  apply closed_jump; try done; [|by auto]. rewrite concat_app, len_app.
  etrans; [exact Hn|]. apply Z.div_le_mono; [lia|]. pose_lens. lia.
Qed.

Lemma whole_slots l : Forall whole l -> len (concat l) / 8 = len (slots l).
Proof.
  intros H. destruct (concat_asm l H) as [_ ->]. rewrite Z.mul_comm. by apply Z.div_mul.
Qed.

Lemma closed_frag l : closed_list l ->
  Forall whole l /\ frag_ok (slots l) /\ kcalls 0 (slots l) = [].
Proof.
  induction 1 as [|b l Hb Hl (Hw & Hf & Hk)
                  |c d s o m l Hc J N1 N2 Hd Hs Hm Ho Hn Hl (Hw & Hf & Hk)].
  - split_and!; [done|apply frag_ok_nil|done].
  - split; [constructor; [by apply good_whole|done]|]. by apply good_frag.
  - split; [constructor; [apply whole_insn|done]|]. rewrite slots_insn.
    rewrite whole_slots in Hn by done. split.
    + apply frag_ok_jump; [|by unfold Ins; cbn [i_off]; rewrite as_i16_id; lia|done].
      unfold is_jump, regs_ok, Ins. cbn [i_code i_dst i_src].
      rewrite Z.mod_small, !land_15 by lia. split_and!; first [done|lia].
    + cbn [kcalls]. rewrite (kcalls_shift 0 1), Hk.
      replace (is_kcall _) with false; [done|]. unfold is_kcall, Ins. cbn [i_code i_src].
      rewrite Z.mod_small by lia. by destruct (Z.eqb_spec c 0x85).
Qed.

Lemma emits_ok_closed l : closed_list l -> emits_ok (extend l).
Proof.
  intros (Hw & Hf & Hk)%closed_frag. exists (slots l). split; [by apply appends_extend|done].
Qed.

Lemma keep_closed l : closed_list l -> keep (emits l).
Proof. intros H. by apply keep_emit, emits_ok_closed. Qed.

Lemma good_closed l : Forall good l -> closed_list l.
Proof. induction 1; by constructor. Qed.

(** A list of encoded instructions, branches included. *)
Ltac closed_tac :=
  unfold bpf_mov64_reg, bpf_mov64_imm, bpf_call, bpf_exit, bpf_stx_w, bpf_stx_dw, bpf_ldx_dw,
    bpf_alu64_imm, bpf_jcc_imm, bpf_jcc_reg, bpf_jeq_imm, bpf_ja, bpf_atomic_add, bpf_to_be;
  cbn [app];
  repeat lazymatch goal with
  | |- closed_list [] => apply closed_nil
  | |- closed_list (bpf_insn ?c _ _ _ _ :: _) =>
      let cls := eval vm_compute in (Z.land c 7) in
      lazymatch cls with
      | 5 => first [ apply closed_good; [good_one|]
                   | apply closed_jump; [bound|done|done|done|bound|bound|bound|bound|by vm_compute|] ]
      | _ => apply closed_good; [good_one|]
      end
  | |- closed_list (_ :: _) => apply closed_good; [good_one|]
  end.

Lemma closed_update kind : closed_list (emit_update kind).
Proof.
  unfold emit_update.
  repeat (match goal with |- closed_list (if ?b then _ else _) => destruct b end); closed_tac.
Qed.

Lemma closed_quantize_bucket : closed_list quantize_bucket.
Proof. unfold quantize_bucket, quantize_step. closed_tac. Qed.

(** *** Code built in a side buffer *)

Definition closed_code (b : bytes) : Prop :=
  whole b /\ frag_ok (decode_all b) /\ kcalls 0 (decode_all b) = [].

Lemma closed_code_list l : closed_list l -> closed_code (concat l).
Proof.
  intros (Hw & Hf & Hk)%closed_frag. split_and!; [|done|done].
  exact (proj1 (asm_whole _ _ (concat_asm l Hw))).
Qed.

Lemma emits_ok_code b : closed_code b -> emits_ok (extend [b]).
Proof.
  intros (Hw & Hf & Hk). assert (E : slots [b] = decode_all b)
    by (rewrite slots_cons, slots_nil by done; apply app_nil_r).
  exists (slots [b]). rewrite E. split; [|done]. rewrite <- E.
  apply appends_extend; [by constructor|by rewrite E].
Qed.

(** A branch over the whole of it. *)
Lemma closed_code_jump c d m b :
  0 <= c < 256 -> Z.land c 7 = 5 -> c <> 0x85 -> c <> 0x95 -> 0 <= d <= 10 ->
  - 2 ^ 31 <= m < 2 ^ 31 -> closed_code b -> len b < 2 ^ 15 * 8 ->
  closed_code (bpf_insn c d 0 (as_i16 (len b / 8)) m ++ b).
Proof.
  intros Hc J N1 N2 Hd Hm (Hw & Hf & Hk) Hl. unfold closed_code.
  rewrite decode_all_app, decode_insn by apply whole_insn.
  assert (En : len b / 8 = len (decode_all b)) by (rewrite Hw, Z.mul_comm; by apply Z.div_mul).
  rewrite En. pose_lens. assert (len (decode_all b) < 2 ^ 15) by (unfold whole in Hw; lia).
  rewrite as_i16_id by lia. split_and!; [by apply whole_app; [apply whole_insn|]| |].
  - apply frag_ok_jump; [|by unfold Ins; cbn [i_off]; rewrite as_i16_id; lia|done].
    unfold is_jump, regs_ok, Ins. cbn [i_code i_dst i_src].
    rewrite Z.mod_small, !land_15 by lia. split_and!; first [done|lia].
  - cbn [app kcalls]. rewrite (kcalls_shift 0 1), Hk.
    replace (is_kcall _) with false; [done|]. unfold is_kcall, Ins. cbn [i_code i_src].
    rewrite Z.mod_small by lia. by destruct (Z.eqb_spec c 0x85).
Qed.

Lemma keep_jump_body (test : lower_m unit) j b (m : lower_m unit) :
  test = mret tt \/ test = emits [j] -> closed_code b -> closed_code (j ++ b) -> keep m ->
  keep (test ;; emits [b] ;; m).
Proof.
  intros Ht Hb Hj Hm. destruct Ht as [-> | ->].
  - apply keep_bind; [by apply keeps_ret|]. intros _.
    apply keep_bind; [by apply keep_emit, emits_ok_code|done].
  - assert (K : keep (emits [j ++ b] ;; m))
      by (apply keep_bind; [by apply keep_emit, emits_ok_code|done]).
    intros G s Hs. specialize (K G s Hs).
    assert (E : (emits [j] ;; emits [b] ;; m) s = (emits [j ++ b] ;; m) s).
    { unfold emits, emit, st_modify, mbind, st_bind. do 2 f_equal.
      unfold extend. cbn [out with_out fst snd concat]. by rewrite !app_nil_r, app_assoc. }
    unfold st_post in *. by rewrite E.
Qed.

(** Writing the distance of a branch in a buffer. *)
Lemma write_insn {E} p c d s o m q v off :
  off = len p + 2 ->
  write (E:=E) (p ++ bpf_insn c d s o m ++ q) off (to_le 2 v) = Ret (p ++ bpf_insn c d s v m ++ q).
Proof.
  intros ->. unfold bpf_insn. cbn [app]. rewrite <- !app_assoc.
  pose proof (write_mid (E:=E) (p ++ [u8b c; u8b (Z.lor (Z.shiftl (Z.land s 15) 4) (Z.land d 15))])
    (to_le 2 o) (to_le 4 m ++ q) (to_le 2 v) (len p + 2)) as H.
  rewrite <- !app_assoc in H. apply H; [by rewrite !len_to_le|]. len_simpl. done.
Qed.

(** ** Actions *)

Lemma keep_set_mode mode : keep (set_mode mode).
Proof. apply (keep_with_section (fun s => (inttab s, strtab s, mode))). Qed.

Lemma keep_epilogue : keep (emits epilogue).
Proof. apply keep_emits. unfold epilogue. good_list. Qed.

Lemma keep_submit_and_exit : keep submit_and_exit.
Proof.
  apply keep_bind; [apply keep_emit, emits_ok_submit; bound|]. intros _. apply keep_epilogue.
Qed.

Lemma keep_kfunc name : keep (emit (emit_kfunc_call name)).
Proof. apply keep_emit, emits_ok_kfunc. Qed.

Lemma as_i16_range v : - 2 ^ 15 <= as_i16 v < 2 ^ 15.
Proof. by apply (to_signed_range 16 v). Qed.

Lemma as_i32_range v : - 2 ^ 31 <= as_i32 v < 2 ^ 31.
Proof. by apply (to_signed_range 32 v). Qed.

Lemma sum_sizes_take n l :
  Forall field_fits l -> 0 <= sum_sizes (take n l) <= sum_sizes l.
Proof.
  intros H. revert n. induction H as [|f l [Hf _] Hl IH]; intros n; [by destruct n|].
  destruct n; cbn [take sum_sizes foldr]; [specialize (IH 0%nat)|specialize (IH n)];
    unfold sum_sizes in *; cbn [foldr take] in *; lia.
Qed.

Lemma field_offset_fits sch i :
  schema_fits sch -> 0 <= field_offset sch i <= 2 ^ 31 - 16.
Proof.
  intros [Hf Hr]. pose proof (sum_sizes_take i (fields sch) Hf).
  unfold field_offset, record_size in *. lia.
Qed.

Lemma slot_of_safe sch name k : safe (slot_of sch name k).
Proof. unfold slot_of. apply safe_bind; [apply safe_ok_or|]. by intros [] _. Qed.

(** The offset and size of a record slot, as immediates. *)
Lemma slot_of_range sch name k x :
  schema_fits sch -> slot_of sch name k = Ret x ->
  0 <= x.1.1 <= 2 ^ 31 - 16 /\ - 2 ^ 31 <= x.1.2 < 2 ^ 31.
Proof.
  intros Hs. unfold slot_of. destruct (find_field sch name) as [[j f]|]; [|done].
  cbn [ok_or]. rewrite bind_Ret. intros [= <-]. cbn [fst snd].
  pose proof (field_offset_fits sch j Hs) as Ho. rewrite (as_i32_id (field_offset sch j)) by lia.
  split; [lia|apply as_i32_range].
Qed.

Section Lowering.
Context (dof : Dof) (Hd : dof_wf dof) (Hok : dif_ok dof).

Lemma dif_section_of_safe {E} i : safe (dif_section_of (E:=E) dof i).
Proof. apply safe_bind; [by apply difo_at_safe|done]. Qed.

Lemma dif_section_of_in {E} i o s :
  dif_section_of (E:=E) dof i = Ret o -> o = Some s -> s ∈ sections dof.
Proof.
  unfold dif_section_of. destruct (difo_at dof i) as [d|e|]; [|done..].
  rewrite bind_Ret. intros [= <-] Hs. destruct d as [d|]; [|done]. simpl in Hs.
  destruct (dif_section d); [|done]. by eapply section_get_in.
Qed.

Lemma category_safe {E} i : safe (category_for_difo (E:=E) dof i).
Proof.
  apply safe_bind; [apply dif_section_of_safe|]. intros [s|] Ho; [|done].
  apply safe_bind; [|done]. apply dif_instructions_safe; [done|by eapply dif_section_of_in].
Qed.

Lemma keep_value i : keep (lower_value dof i).
Proof.
  apply keep_gets. intros s _. apply keep_bind; [apply keep_set_mode|]. intros _.
  apply keep_bind; [by apply keep_difo|]. intros _. apply keep_set_mode.
Qed.

Lemma keep_schema_or {A} k (f : RecordSchema -> lower_m A) Q :
  (forall sch, schema_fits sch -> keeps (f sch) Q) -> keeps (schema_or k ≫= f) Q.
Proof.
  intros H. apply (keeps_bind _ _ schema_fits); [|done]. apply keep_gets. intros s Hs.
  apply keeps_lift; [apply safe_ok_or|]. intros sch E. pose proof (si_schema _ Hs) as Hf.
  destruct (schema s); [|done]. by injection E as <-.
Qed.

Lemma keep_stack a : keep (lower_stack a).
Proof.
  unfold lower_stack.
  assert (Hp : exists name flags, (if act_kind a =? DTRACEACT_STACK then (str "kstack", 0)
    else (str "ustack", BPF_F_USER_STACK)) = (name, flags) /\ 0 <= flags <= 256)
    by (destruct (_ =? _); do 2 eexists; by split).
  destruct Hp as (name & flags & -> & Hflags). apply keep_schema_or. intros sch Hsch.
  eapply keeps_bind.
  { apply keeps_lift; [apply slot_of_safe|]. intros x Hx. exact (slot_of_range _ _ _ _ Hsch Hx). }
  intros [[off size] kd] [Ho Hz]. cbn [fst snd] in Ho, Hz.
  apply keep_bind; [apply keep_emits; good_list|]. intros _.
  apply keep_gets. intros s _. apply keep_bind; [|intros _; apply keep_submit_and_exit].
  destruct (_ && _); [|by apply keeps_ret].
  apply keep_bind; [apply keep_scratch; [by intros s' []|done]|]. intros _.
  generalize (str "exe_path"). intros path.
  destruct (find_field sch path) as [[i f]|]; [|by apply keeps_ret].
  pose proof (as_i32_range (field_offset sch i)).
  pose proof (as_i32_range (kind_size (field_kind f))).
  apply keep_bind; [apply keep_emits; good_list|]. intros _. apply keep_kfunc.
Qed.

Lemma find_tracemem_range sch i l off n :
  schema_fits sch -> Forall field_fits l -> find_tracemem sch i l = Some (off, n) ->
  - 2 ^ 31 <= off < 2 ^ 31 /\ 1 <= n.
Proof.
  intros Hs H. revert i. induction H as [|f l [Hf Hm] Hl IH]; intros i; [done|].
  cbn [find_tracemem]. destruct (bool_decide _); [|apply IH].
  destruct (field_kind f) eqn:Ek; try apply IH. intros [= <- <-]. rewrite ?Ek in Hm.
  split; [apply as_i32_range|done].
Qed.

Lemma keep_tracemem a : keep (lower_tracemem dof a).
Proof.
  apply keep_schema_or. intros sch Hsch.
  apply (keeps_bind _ _ (fun x => - 2 ^ 31 <= x.1 < 2 ^ 31 /\ 1 <= x.2)).
  { apply keeps_lift; [apply safe_ok_or|]. intros [off n] E.
    destruct (find_tracemem sch 0 (fields sch)) as [[o m]|] eqn:Ef; [|done].
    injection E as <- <-. exact (find_tracemem_range _ _ _ _ _ Hsch (proj1 Hsch) Ef). }
  intros [off n] [Ho Hn]. cbn [fst snd] in Ho, Hn.
  apply keep_bind; [by apply keep_lift, difo_at_safe|]. intros o.
  apply keep_bind.
  { apply keep_lift. unfold clamp1. destruct (Z.ltb_spec n 1); [lia|done]. }
  intros m. pose proof (as_i32_range m). apply keep_bind; [apply keep_value|]. intros _.
  apply keep_bind; [apply keep_emits; good_list|]. intros _. apply keep_submit_and_exit.
Qed.

Lemma keep_speculation a name : keep (lower_speculation dof a name).
Proof.
  apply keep_bind; [apply keep_value|]. intros _.
  apply keep_bind; [apply keep_emits; good_list|]. intros _.
  apply keep_bind; [apply keep_kfunc|]. intros _. apply keep_epilogue.
Qed.

Lemma keep_action a : keep (lower_action_into dof a).
Proof.
  unfold lower_action_into. cbn zeta.
  repeat (match goal with |- keep (if ?b then _ else _) => destruct b end);
    first [ by apply keep_difo | apply keep_epilogue | apply keep_speculation
          | apply keep_tracemem | apply keep_stack | apply keeps_throw ].
Qed.

Lemma keep_printf_arg sch k i a : schema_fits sch -> keep (emit_printf_arg dof sch k i a).
Proof.
  intros Hsch. unfold emit_printf_arg. eapply keeps_bind.
  { apply keeps_lift; [apply slot_of_safe|]. intros x Hx. exact (slot_of_range _ _ _ _ Hsch Hx). }
  intros [[off size] kd] [Ho _]. cbn [fst snd] in Ho.
  pose proof (as_i16_range off). pose proof (as_i16_range (off + 8)).
  apply keep_bind; [by apply keep_difo|]. intros _.
  apply keep_bind; [apply keep_lift, category_safe|]. intros cat.
  destruct (_ && _).
  - apply (keeps_bind _ _ (fun v => v = off + 8)).
    { unfold add_i32. destruct (Z.leb_spec (- 2 ^ 31) (off + 8)); [|lia].
      destruct (Z.ltb_spec (off + 8) (2 ^ 31)); [|lia].
      apply keeps_lift; [done|]. by intros v [= <-]. }
    intros v ->. apply keep_emits. good_list.
  - apply keep_bind; [|intros _; apply keep_emits; good_list].
    destruct (needs_8byte_deref cat); [apply keep_emits; good_list|by apply keeps_ret].
Qed.

Lemma keep_printf acts : keep (emit_printf_chain dof acts).
Proof.
  apply keep_bind; [apply keep_ok_or|]. intros printf. apply keep_schema_or. intros sch Hsch.
  destruct (printf_format sch); [|apply keeps_throw].
  apply keep_gets. intros s _. apply keep_bind; [apply keep_set_mode|]. intros _.
  apply keep_bind; [|intros _; apply keep_bind; [apply keep_set_mode|];
                     intros _; apply keep_submit_and_exit].
  generalize 0%nat. induction acts as [|a acts IH]; intros i; [by apply keeps_ret|].
  apply keep_bind; [by apply keep_printf_arg|]. intros _. apply IH.
Qed.

End Lowering.
