(* ===== verification/LowerAggOk.v ===== *)
(** Lowering an aggregation chain is safe: the side buffers of the histograms
    are closed code, and every chain keeps the invariant of LowerOk.v. *)

From Stdlib Require Import Strings.String.
From stdpp Require Import gmap.
From S2P Require Import Prelude Emit Bpf Verify CodeFrag Schema HostDof.
From S2P Require Import LowerState LowerDif LowerAction LowerAgg LowerOk LowerSafe.

Local Open Scope Z_scope.
Local Open Scope list_scope.

(** ** The linear histogram *)

(** What the patched side buffer holds. *)
Definition lquantize_list (base levels step : Z) : list bytes :=
  (if base =? 0 then [] else [bpf_alu64_imm 0x17 6 base])
  ++ [bpf_jcc_imm 0x35 6 (saturating_mul_i32 levels step) 4; bpf_alu64_imm 0x37 6 step;
      bpf_alu64_imm 0x07 6 1; bpf_mov64_reg 7 6; bpf_ja 1; bpf_mov64_imm 7 (levels + 1)].

Lemma div8 a q : a = 8 * q -> a / 8 = q.
Proof. intros ->. rewrite Z.mul_comm. by apply Z.div_mul. Qed.

Lemma len_insn c d s o m : len (bpf_insn c d s o m) = 8.
Proof. done. Qed.

Lemma lquantize_body_list {E} base levels step :
  lquantize_body (E:=E) base levels step = Ret (concat (lquantize_list base levels step)).
Proof.
  unfold lquantize_body, lquantize_list. cbn zeta.
  set (pre := if base =? 0 then [] else bpf_alu64_imm 0x17 6 base).
  assert (Epre : concat (if base =? 0 then [] else [bpf_alu64_imm 0x17 6 base]) = pre)
    by (unfold pre; destruct (base =? 0); [done|apply app_nil_r]).
  rewrite concat_app, Epre. clearbody pre. clear Epre.
  unfold bpf_jcc_imm, bpf_alu64_imm, bpf_mov64_reg, bpf_ja, bpf_mov64_imm.
  rewrite !len_app, !len_insn. rewrite <- !app_assoc.
  replace ((len pre + (8 + (8 + (8 + 8))) + 8 - (len pre + 8)) / 8) with 4
    by (symmetry; apply div8; lia).
  replace ((len pre + (8 + (8 + (8 + 8))) + 8 + 8 - (len pre + (8 + (8 + (8 + 8))) + 8)) / 8)
    with 1 by (symmetry; apply div8; lia).
  rewrite write_insn, bind_Ret by done.
  rewrite (app_assoc pre), (app_assoc (pre ++ _)), (app_assoc ((pre ++ _) ++ _)),
    (app_assoc (((pre ++ _) ++ _) ++ _)).
  rewrite write_insn by (rewrite !len_app, !len_insn; lia).
  cbn [concat]. by rewrite !app_nil_r, <- !app_assoc.
Qed.

Lemma lquantize_closed base levels step :
  - 2 ^ 31 <= base < 2 ^ 31 -> 0 <= levels < 2 ^ 16 -> 0 <= step < 2 ^ 16 ->
  closed_list (lquantize_list base levels step).
Proof.
  intros Hb Hl Hs. unfold lquantize_list.
  assert (Hu : - 2 ^ 31 <= saturating_mul_i32 levels step < 2 ^ 31)
    by (unfold saturating_mul_i32; lia).
  generalize dependent (saturating_mul_i32 levels step). intros u Hu.
  apply closed_app; [destruct (base =? 0); closed_tac|closed_tac].
Qed.

(** ** The log-linear histogram *)

Lemma slot_bytes {E} b cs j i :
  asm b cs -> cs !! j = Some i ->
  byte_at (E:=E) b (8 * Z.of_nat j) = Ret (i_code i) /\
  exists v, le_at (E:=E) 2 b (8 * Z.of_nat j + 2) = Ret v /\ to_signed 16 v = i_off i.
Proof.
  intros [Hc Hl] Hi. pose proof (lookup_lt_Some _ _ _ Hi) as Hlt.
  set (pre := take (8 * j) b). set (post := drop (8 * j) b).
  assert (Hpre : len pre = 8 * Z.of_nat j) by (unfold pre; rewrite len_take; unfold len in *; lia).
  assert (Hpost : len post = len b - 8 * Z.of_nat j)
    by (unfold post; rewrite len_drop; unfold len in *; lia).
  assert (Eb : b = pre ++ post) by (symmetry; apply take_drop).
  clearbody pre post. subst b.
  do 8 (destruct post as [|? post]; [unfold len in *; simpl in *; lia|]).
  assert (Hm : len pre mod 8 = 0) by (rewrite Hpre, Z.mul_comm; by apply Z.mod_mul).
  apply decode_whole in Hm as Hw. rewrite decode_all_app in Hc by done. cbn [decode_all] in Hc.
  rewrite <- Hc in Hi. rewrite lookup_app_r in Hi by (unfold len in *; lia).
  replace (j - length (decode_all pre))%nat with O in Hi by (unfold len in *; lia).
  injection Hi as <-. split.
  - rewrite <- Hpre. unfold byte_at. pose_lens. destruct (Z.leb_spec 0 (len pre)); [|lia].
    rewrite lookup_app_r by (unfold len; lia).
    by replace (Z.to_nat (len pre) - length pre)%nat with O by (unfold len; lia).
  - exists (le_combine [b1; b2]). split; [|done]. unfold le_at.
    change (pre ++ b :: b0 :: b1 :: b2 :: b3 :: b4 :: b5 :: b6 :: post)
      with (pre ++ [b; b0] ++ [b1; b2] ++ (b3 :: b4 :: b5 :: b6 :: post)).
    rewrite app_assoc, (slice_mid (pre ++ [b; b0]) [b1; b2]); [done|..]; len_simpl; lia.
Qed.

(** Code without wide loads or kernel-function calls. *)
Definition narrow_code (cs : list insn) : Prop :=
  frag_ok cs /\ kcalls 0 cs = [] /\ Forall (fun i => i_code i <> 0x18 /\ regs_ok i) cs.

Lemma patch_jas_ok fuel : forall b cs (j : nat),
  asm b cs -> narrow_code cs -> (j <= length cs)%nat -> (length cs - j < fuel)%nat ->
  len cs < 2 ^ 15 ->
  exists b', patch_jas (E:=LoweringError) fuel b (8 * Z.of_nat j) = Ret b' /\ closed_code b' /\
    len b' = len b.
Proof.
  induction fuel as [|fuel IH]; intros b cs j Hb (Hf & Hk & Hn) Hj Hfuel Hl; [lia|].
  pose proof Hb as [Hdec Hlen]. cbn [patch_jas].
  destruct (Z.leb_spec (8 * Z.of_nat j + 8) (len b)) as [Hle|Hgt].
  2: { exists b. split; [done|]. split; [|done]. split_and!; [|by rewrite Hdec..].
       unfold whole. by rewrite Hdec. }
  destruct (lookup_lt_is_Some_2 cs j) as [i Hi]; [unfold len in *; lia|].
  pose proof (lookup_lt_Some _ _ _ Hi) as Hlt.
  destruct (slot_bytes (E:=LoweringError) b cs j i Hb Hi) as (-> & v & -> & Hv).
  rewrite !bind_Ret, Hv.
  replace (8 * Z.of_nat j + 8) with (8 * Z.of_nat (S j)) by lia.
  destruct ((i_code i =? BPF_JA) && (i_off i =? 0)) eqn:E.
  - zbool. rewrite Hlen.
    replace ((8 * len cs - 8 * Z.of_nat (S j)) / 8) with (len cs - Z.of_nat (S j))
      by (symmetry; apply div8; lia).
    set (off := as_i16 _). pose_lens.
    assert (Hoff : as_i16 off = len cs - Z.of_nat (S j)).
    { unfold off. rewrite !as_i16_id by (rewrite ?as_i16_id; unfold len in *; lia). done. }
    destruct (decode_patch b cs j off Hb) as (b1 & -> & Hb1); [by eapply lookup_lt_Some|].
    rewrite bind_Ret. rewrite Hoff in Hb1.
    set (cs1 := alter _ _ _) in Hb1.
    assert (El : length cs1 = length cs) by (unfold cs1; apply length_alter).
    assert (Hreg : is_jump i).
    { rewrite list.Forall_lookup in Hn. destruct (Hn _ _ Hi) as [_ Hr]. unfold is_jump, BPF_JA in *.
      replace (i_code i) with 5 by lia. by split_and!. }
    destruct (IH b1 cs1 (S j) Hb1) as (b' & E1 & E2 & E3); [|lia|lia|by unfold len in *; rewrite El|].
    + split_and!.
      * apply (frag_ok_patch _ _ i); [done..|]. unfold len in *. lia.
      * unfold cs1. by rewrite kcalls_patch.
      * unfold cs1. apply Forall_alter; [done|]. by intros x Hx [A B].
    + exists b'. split_and!; [done..|]. rewrite E3. destruct Hb1 as [_ ->]. unfold len in *. lia.
  - rewrite bind_Ret. destruct (IH b cs (S j) Hb) as (b' & E1 & E2 & E3);
      [by split_and!|unfold len in *; lia|lia|done|]. by exists b'.
Qed.

(** An encoded instruction that is no kernel-function call and fits anywhere. *)
Definition narrow_byte (b : bytes) : Prop :=
  exists c d s o m, b = bpf_insn c d s o m /\ 0 <= c < 256 /\ c <> 0x18 /\ 0 <= d <= 10 /\ 0 <= s <= 10.

Lemma narrow_slots l :
  Forall narrow_byte l -> Forall (fun i => i_code i <> 0x18 /\ regs_ok i) (slots l).
Proof.
  induction 1 as [|b l (c & d & s & o & m & -> & Hc & N & Hd & Hs) Hl IH]; [constructor|].
  rewrite slots_insn. constructor; [|done]. unfold regs_ok, Ins. cbn [i_code i_dst i_src].
  rewrite Z.mod_small, !land_15 by lia. split; [done|lia].
Qed.

Lemma clamp_i32_range v : 0 <= v -> 0 <= clamp_i32 v < 2 ^ 31.
Proof. unfold clamp_i32. destruct (Z.ltb_spec (2 ^ 31 - 1) v); lia. Qed.

Lemma len_concat8 l : Forall narrow_byte l -> len (concat l) = 8 * len l.
Proof.
  induction 1 as [|b l (c & d & s & o & m & -> & _) Hl IH]; [done|].
  cbn [concat]. rewrite len_app, len_insn, len_cons. lia.
Qed.

Ltac narrow_one := unfold narrow_byte, bpf_alu64_imm, bpf_mov64_reg, bpf_mov64_imm, bpf_ja, bpf_jcc_imm;
  do 5 eexists; split; [reflexivity|split_and!; first [done|lia|by vm_compute]].

Lemma magnitude_block_ok i n lo hi :
  0 <= i < 8 -> 0 < n < 2 ^ 16 -> 0 <= lo -> 0 <= hi ->
  Forall narrow_byte (magnitude_block i n lo hi) /\ closed_list (magnitude_block i n lo hi) /\
  len (magnitude_block i n lo hi) <= 6.
Proof.
  intros Hi Hn Hlo Hhi. unfold magnitude_block. cbn zeta.
  pose proof (clamp_i32_range lo Hlo). pose proof (clamp_i32_range hi Hhi).
  assert (Hss : 0 <= Z.max 0 (hi - lo) / n) by (apply Z.div_pos; lia).
  pose proof (clamp_i32_range _ Hss).
  assert (Hb : - 2 ^ 31 <= i * n + 1 < 2 ^ 31) by nia.
  generalize dependent (Z.max 0 (hi - lo) / n). intros ss Hss H1.
  generalize dependent (i * n + 1). intros bias Hb.
  set (blk := _ ++ _ ++ _).
  assert (Hw : Forall narrow_byte blk /\ len blk <= 5).
  { unfold blk. destruct (lo =? 0), (ss =? 0); cbn [app];
      (split; [repeat (constructor; [narrow_one|]); constructor|by vm_compute]). }
  destruct Hw as [Hw Hl]. pose_lens.
  assert (Ec : len (concat blk) / 8 = len blk) by (apply div8; by apply len_concat8).
  rewrite Ec, as_i16_id by lia. split_and!.
  - constructor; [narrow_one|done].
  - unfold bpf_jcc_imm. apply closed_jump; [lia|done|lia|lia|lia|lia|lia|lia|by rewrite Ec|].
    unfold blk. apply closed_app; [destruct (lo =? 0); closed_tac|].
    apply closed_app; [destruct (ss =? 0); closed_tac|closed_tac].
  - rewrite len_cons. lia.
Qed.

Lemma magnitude_blocks_ok n ts : forall i,
  0 <= i -> i + len ts <= 9 -> 0 < n < 2 ^ 16 -> Forall (fun t => 0 <= t) ts ->
  Forall narrow_byte (magnitude_blocks i n ts) /\ closed_list (magnitude_blocks i n ts) /\
  len (magnitude_blocks i n ts) <= 6 * len ts.
Proof.
  induction ts as [|lo ts IH]; intros i Hi Hl Hn Ht; [split_and!; [constructor|constructor|done]|].
  rewrite len_cons in *. pose_lens. apply list.Forall_cons in Ht as [Hlo Ht].
  destruct ts as [|hi ts]; [split_and!; [constructor|constructor|by vm_compute]|].
  pose proof Ht as [Hhi _]%list.Forall_cons.
  cbn [magnitude_blocks]. rewrite len_cons in *. pose_lens.
  destruct (magnitude_block_ok i n lo hi) as (A & B & C); [lia..|].
  destruct (IH (i + 1)) as (A' & B' & C'); [lia..|done|].
  split_and!; [by apply list.Forall_app_2|by apply closed_app|].
  rewrite len_app. cbn [magnitude_blocks] in C'. lia.
Qed.

Lemma llquantize_body_ok n n_mags ts :
  0 < n < 2 ^ 16 -> 0 <= n_mags <= 8 -> len ts <= 9 -> Forall (fun t => 0 <= t) ts ->
  exists b, llquantize_body (E:=LoweringError) n n_mags ts = Ret b /\ closed_code b /\ len b < 1024.
Proof.
  intros Hn Hm Hl Ht. unfold llquantize_body. cbn zeta.
  destruct (magnitude_blocks_ok n ts 0) as (A & B & C); [lia|lia|done|done|].
  assert (Ho : - 2 ^ 31 <= n_mags * n + 1 < 2 ^ 31) by nia.
  generalize dependent (n_mags * n + 1). intros ov Hov.
  set (l := magnitude_blocks 0 n ts ++ [bpf_mov64_imm 7 ov]).
  assert (Hnb : Forall narrow_byte l)
    by (apply list.Forall_app_2; [done|constructor; [narrow_one|constructor]]).
  assert (Hcl : closed_list l) by (apply closed_app; [done|closed_tac]).
  assert (Hll : len l <= 55) by (unfold l; rewrite len_app; change (len [bpf_mov64_imm 7 ov]) with 1; lia).
  destruct (closed_frag l Hcl) as (Hw & Hf & Hk). pose proof (concat_asm l Hw) as Hasm.
  pose proof (len_concat8 l Hnb) as Hlen. pose proof (asm_len _ _ Hasm) as Hlen2. pose_lens.
  destruct (patch_jas_ok (S (length (concat l))) (concat l) (slots l) 0 Hasm) as (b & E & Hb & Eb).
  - split_and!; [done|done|by apply narrow_slots].
  - lia.
  - unfold len in *. lia.
  - lia.
  - exists b. split_and!; [done|done|lia].
Qed.

Lemma push_thresholds_ok factor n t :
  len (push_thresholds factor n t) = Z.of_nat n /\
  Forall (fun t => 0 <= t) (push_thresholds factor n t).
Proof.
  revert t. induction n as [|n IH]; intros t; [by split|]. cbn [push_thresholds].
  destruct (IH (saturating_mul_u128 t factor)) as [A B]. rewrite len_cons. split; [lia|].
  constructor; [|done]. by apply Z.mod_pos_bound.
Qed.

Lemma thresholds_ok factor low n :
  0 <= n -> len (thresholds factor low n) = 1 + n /\
  Forall (fun t => 0 <= t) (thresholds factor low n).
Proof.
  intros Hn. unfold thresholds. cbn zeta. rewrite len_cons.
  destruct (push_thresholds_ok factor (Z.to_nat n) (sat_pow factor (Z.to_nat low) 1)) as [A B].
  split; [lia|]. constructor; [|done]. by apply Z.mod_pos_bound.
Qed.

(** ** Chains *)

Lemma land_bits v n : 0 <= n -> 0 <= Z.land v (Z.ones n) < 2 ^ n.
Proof. intros H. rewrite Z.land_ones by done. apply Z.mod_pos_bound. lia. Qed.

Section Chains.
Context (dof : Dof) (Hd : dof_wf dof) (Hok : dif_ok dof).

Lemma keep_lookup fd off :
  - 512 <= off < 0 -> keep (emits (emit_lookup fd off)).
Proof. intros H. unfold emit_lookup. apply keep_emits. good_list. Qed.

Lemma keep_bucket_count : keep emit_bucket_count.
Proof.
  apply keep_gets. intros s _.
  apply keep_bind; [unfold emit_lookup; apply keep_emits; good_list|]. intros _.
  apply keep_bind; [apply keep_jump_over; [jump_tac|apply keep_emits; good_list]|].
  intros _. apply keep_epilogue.
Qed.

Lemma keep_find {A} acts k (f : Action -> lower_m A) Q :
  (forall a, keeps (f a) Q) -> keeps (st_lift (find_kind acts k) ≫= f) Q.
Proof. intros H. apply keep_bind; [apply keep_ok_or|done]. Qed.

Lemma keep_quantize acts : keep (emit_quantize_chain dof acts).
Proof.
  apply keep_find. intros a. apply keep_bind; [by apply keep_difo|]. intros _.
  apply keep_bind; [apply keep_emits; good_list|]. intros _.
  apply keep_bind; [apply keep_closed, closed_quantize_bucket|]. intros _.
  apply keep_gets. intros s _.
  apply keep_bind; [unfold emit_lookup; apply keep_emits; cbn [app]; good_list|]. intros _.
  apply keep_bind; [|intros _; apply keep_epilogue].
  apply keep_jump_over; [jump_tac|]. unfold NBUCKETS. apply keep_closed. closed_tac.
Qed.

Lemma keep_lquantize acts : keep (emit_lquantize_chain dof acts).
Proof.
  apply keep_find. intros a. unfold decode_lquantize_arg.
  change 0xffff with (Z.ones 16).
  pose proof (as_i32_range (Z.land (arg a) 0xffffffff)) as Hb.
  pose proof (land_bits (Z.shiftr (arg a) 32) 16 ltac:(lia)) as Hl.
  pose proof (land_bits (Z.shiftr (arg a) 48) 16 ltac:(lia)) as Hs.
  generalize dependent (Z.land (Z.shiftr (arg a) 48) (Z.ones 16)). intros step Hs.
  generalize dependent (Z.land (Z.shiftr (arg a) 32) (Z.ones 16)). intros levels Hl.
  generalize dependent (as_i32 (Z.land (arg a) 0xffffffff)). intros base Hb.
  destruct (_ || _); [apply keeps_throw|].
  apply keep_bind; [by apply keep_difo|]. intros _.
  apply keep_bind; [apply keep_emits; good_list|]. intros _.
  rewrite lquantize_body_list.
  pose proof (closed_code_list _ (lquantize_closed base levels step Hb Hl Hs)) as Hc.
  assert (Hlen : len (concat (lquantize_list base levels step)) < 2 ^ 15 * 8)
    by (unfold lquantize_list; destruct (base =? 0); by vm_compute).
  generalize dependent (concat (lquantize_list base levels step)). intros b Hc Hlen.
  apply (keeps_bind _ _ (fun x => x = b)); [by apply keeps_lift; [|intros x [= <-]]|].
  intros x ->. apply (keep_jump_body _ (bpf_jcc_imm 0xa5 6 base (as_i16 (len b / 8)))).
  - destruct (base =? 0); [by left|by right].
  - done.
  - apply closed_code_jump; first [done|lia].
  - apply keep_bucket_count.
Qed.

Lemma keep_llquantize acts : keep (emit_llquantize_chain dof acts).
Proof.
  apply keep_find. intros a. unfold decode_llquantize_arg.
  change 0xffff with (Z.ones 16). change 0xff with (Z.ones 8).
  pose proof (land_bits (Z.shiftr (arg a) 16) 16 ltac:(lia)) as Hs.
  generalize dependent (Z.land (Z.shiftr (arg a) 16) (Z.ones 16)). intros n Hs.
  generalize (Z.land (Z.shiftr (arg a) 48) (Z.ones 16)), (Z.land (Z.shiftr (arg a) 40) (Z.ones 8)),
    (Z.land (Z.shiftr (arg a) 32) (Z.ones 8)). intros factor low high.
  destruct (_ || _) eqn:E1; [apply keeps_throw|].
  destruct (MAX_MAGS <? _) eqn:E2; [apply keeps_throw|]. unfold MAX_MAGS in *. zbool.
  apply keep_bind; [by apply keep_difo|]. intros _.
  apply keep_bind; [apply keep_emits; good_list|]. intros _.
  destruct (thresholds_ok factor low (high - low + 1)) as [Hl Hp]; [lia|].
  generalize dependent (thresholds factor low (high - low + 1)). intros ts Hl Hp.
  destruct (llquantize_body_ok n (high - low + 1) ts) as (b & -> & Hc & Hlen); [lia|lia|lia|done|].
  apply (keeps_bind _ _ (fun x => x = b)); [by apply keeps_lift; [|intros x [= <-]]|].
  intros x ->. pose proof (as_i32_range (hd 0 ts)) as Hu.
  apply (keep_jump_body _ (bpf_jcc_imm 0xa5 6 (as_i32 (hd 0 ts)) (as_i16 (len b / 8)))).
  - destruct (0 <? _); [by right|by left].
  - done.
  - apply closed_code_jump; first [done|lia].
  - apply keep_bucket_count.
Qed.

Lemma keep_keys n i l :
  0 <= i -> i + len l <= n -> n <= 4 -> keep (emit_keys dof n i l).
Proof.
  revert i. induction l as [|a l IH]; intros i Hi Hl Hn; [by apply keeps_ret|].
  rewrite len_cons in Hl. pose_lens. cbn [emit_keys].
  apply keep_bind; [|intros _; apply IH; lia].
  apply keep_bind; [by apply keep_action|]. intros _.
  apply keep_bind; [by apply keep_lift, category_safe|]. intros cat.
  apply keep_bind; [|intros _; apply keep_emits; good_list].
  destruct (needs_8byte_deref cat); [apply keep_emits; good_list|by apply keeps_ret].
Qed.

Lemma keep_counting acts start n agg :
  0 <= start -> 0 <= n <= 4 -> start + n < len acts ->
  keep (emit_counting_chain dof acts start n agg).
Proof.
  intros Hs Hn Hl. unfold emit_counting_chain. cbn zeta. apply keep_bind.
  { destruct (_ =? _); [by apply keeps_ret|].
    apply keep_bind; [by apply keep_difo|]. intros _. apply keep_emits. good_list. }
  intros _. apply keep_bind.
  { destruct (Z.eqb_spec n 0); [apply keep_emits; good_list|].
    destruct (slice_ok (E:=LoweringError) acts (start + 1) (start + n + 1)) as (ks & -> & Hk); [lia..|].
    apply (keeps_bind _ _ (fun x => x = ks)); [by apply keeps_lift; [|intros x [= <-]]|].
    intros x ->. apply keep_keys; lia. }
  intros _. apply keep_gets. intros s _.
  set (off := if n =? 0 then -16 else -16 - 8 * (n - 1)).
  assert (Hoff : -512 <= off < 0) by (unfold off; destruct (n =? 0); lia).
  clearbody off.
  apply keep_bind; [by apply keep_lookup|]. intros _. apply keep_bind.
  { destruct (1 <=? n); [|by apply keeps_ret]. apply keep_jump_over; [jump_tac|].
    unfold emit_upsert, emit_lookup. apply keep_emits. cbn [app]. good_list. }
  intros _. apply keep_bind; [|intros _; apply keep_epilogue].
  apply keep_jump_over; [jump_tac|apply keep_closed, closed_update].
Qed.

Lemma keep_agg_chain_at acts start pos :
  0 <= start -> 0 <= pos < len acts -> start <= pos \/ start = 0 ->
  keep (emit_agg_chain_at dof acts start pos).
Proof.
  intros Hs Hp Hsp. unfold emit_agg_chain_at. apply keep_bind.
  { apply keep_lift. unfold action_at.
    destruct (lookup_lt_is_Some_2 acts (Z.to_nat pos)) as [a ->]; [unfold len in *; lia|done]. }
  intros agg. cbn zeta. destruct (MAX_KEYS <? _) eqn:E; [apply keeps_throw|].
  unfold MAX_KEYS in *. zbool.
  repeat (match goal with |- keeps (if ?b then _ else _) _ => destruct b end);
    [apply keep_quantize|apply keep_lquantize|apply keep_llquantize|apply keeps_throw|].
  apply keep_counting; [lia|lia|]. lia.
Qed.

End Chains.
