(* ===== verification/LowerProgOk.v ===== *)
(** The lowered program: [lower_with_opts] never panics, what it returns
    passes the static verifier, and the relocations it returns are the
    kernel-function calls of the program, slot for slot. *)

From Stdlib Require Import Strings.String.
From stdpp Require Import gmap sorting.
From S2P Require Import Prelude Emit Bpf Verify CodeFrag Schema HostDof LowerState.
From S2P Require Import LowerDif LowerAction LowerAgg LowerProg LowerOk LowerSafe LowerAggOk.

Local Open Scope Z_scope.
Local Open Scope list_scope.

(** ** The body *)

Lemma fill_field_good name k off id :
  - 2 ^ 15 <= off < 2 ^ 15 -> Forall good (fill_field name k off id).
Proof.
  intros Ho. pose proof (as_i32_range id). unfold fill_field.
  repeat (match goal with |- Forall good (if ?b then _ else _) => destruct b end); good_list.
Qed.

Lemma fill_correlation_good sch id : Forall good (fill_correlation_fields sch id).
Proof.
  unfold fill_correlation_fields. apply List.Forall_concat, list.Forall_lookup.
  intros i l Hl. rewrite list_lookup_imap in Hl.
  destruct (fields sch !! i) as [f|]; [|done]. injection Hl as <-.
  apply fill_field_good, as_i16_range.
Qed.

Lemma body_prologue_good schema id : Forall good (body_prologue schema id).
Proof.
  unfold body_prologue. apply list.Forall_app_2; [|cbn [map]; good_list].
  destruct schema; [apply fill_correlation_good|good_list].
Qed.

Lemma keep_collect l : keep (collect_locals l).
Proof.
  apply keep_forM. intros i _. destruct (_ || _); [|by apply keeps_ret].
  eapply keeps_bind; [apply keep_alloc_local|]. intros o _. by apply keeps_ret.
Qed.

Lemma agg_position_from_bounds start l p :
  agg_position_from start l = Some p -> (start <= p < length l)%nat.
Proof.
  unfold agg_position_from, agg_position. destruct (list_find _ _) as [[i a]|] eqn:E; [|done].
  simpl. intros [= <-]. apply list_find_Some in E as (E & _).
  apply lookup_lt_Some in E. rewrite length_drop in E. lia.
Qed.

Lemma main_agg_bounds l p : main_agg l = Some p -> (p < length l)%nat.
Proof.
  unfold main_agg. destruct (agg_position 0 l) as [[|i]|] eqn:E; [done| |done].
  intros [= <-]. pose proof (agg_position_from_bounds 0 l (S i)) as H.
  unfold agg_position_from in H. rewrite E in H. specialize (H eq_refl). lia.
Qed.

Section Body.
Context (dof : Dof) (Hd : dof_wf dof) (Hok : dif_ok dof).

Lemma keep_prescan i : keep (prescan dof i).
Proof.
  unfold prescan. apply (keeps_bind _ _ (fun o => forall s, o = Some s -> s ∈ sections dof)).
  { apply keeps_lift; [by apply dif_section_of_safe|]. intros o Ho s.
    by apply (dif_section_of_in dof i o s Ho). }
  intros [s|] Hs; [|by apply keeps_ret]. unfold collect_locals_in_section.
  apply keep_bind; [by apply keep_lift, dif_instructions_safe; auto|]. intros l.
  apply keep_collect.
Qed.

Lemma keep_acts {A} i (f : list Action -> lower_m A) Q :
  (forall l, keeps (f l) Q) -> keeps (st_lift (actions_in_chain dof i) ≫= f) Q.
Proof. intros H. apply keep_bind; [by apply keep_lift, actions_in_chain_safe|done]. Qed.

Lemma keep_prescan_ecb e : keep (prescan_ecb dof e).
Proof.
  apply keep_bind; [destruct (_ =? _); [by apply keeps_ret|apply keep_prescan]|]. intros _.
  apply keep_acts. intros l. apply keep_forM. intros a _.
  destruct (_ =? _); [by apply keeps_ret|apply keep_prescan].
Qed.

Lemma keep_zero_locals : keep zero_locals.
Proof.
  apply keep_gets. intros s Hs. pose proof (si_locals _ Hs) as Hl.
  apply keep_emits, list.Forall_forall. intros b (off & -> & Hoff)%list_elem_of_fmap.
  rewrite merge_sort_Permutation in Hoff.
  apply list_elem_of_fmap in Hoff as ([v off'] & -> & Hin).
  apply elem_of_map_to_list in Hin. specialize (Hl _ _ Hin). cbn [snd] in *. good_one.
Qed.

Lemma keep_sub_chain acts n : keep (lower_sub_chain dof acts n).
Proof.
  apply (keeps_bind _ _ (fun p => (n <= p < length acts)%nat)).
  { apply keeps_lift; [apply safe_ok_or|]. intros p E. apply agg_position_from_bounds.
    by destruct (agg_position_from n acts); [injection E as <-|]. }
  intros p Hp. apply keep_bind; [apply keep_set_mode|]. intros _.
  apply keep_agg_chain_at; [done|done|lia|unfold len; lia|lia].
Qed.

Lemma keep_predicate i : keep (lower_predicate dof i).
Proof. by apply keep_difo_with. Qed.

Lemma keep_single acts opts mode m : keep m -> keep (lower_single dof acts opts mode m).
Proof.
  intros Hm. apply keep_bind; [apply keep_set_mode|]. intros _.
  destruct (acts !! action_idx opts); [by apply keep_action|done].
Qed.

Lemma keep_actions acts opts mode m : keep m -> keep (lower_actions dof acts opts mode m).
Proof.
  intros Hm. unfold lower_actions. destruct (agg_chain_start opts); [apply keep_sub_chain|].
  destruct (_ || _); [by apply keep_single|].
  destruct (main_agg acts) as [p|] eqn:E.
  - apply keep_bind; [apply keep_set_mode|]. intros _. apply main_agg_bounds in E.
    apply keep_agg_chain_at; [done|done|lia|unfold len; lia|by right].
  - destruct (is_printf_chain acts); [by apply keep_printf|by apply keep_single].
Qed.

Lemma keep_guarded e opts : keep (lower_guarded_ecb dof e opts).
Proof.
  apply keep_bind; [apply keep_predicate|]. intros _. apply keep_acts. intros acts.
  apply keep_bind.
  { apply keep_jump_over; [jump_tac|]. apply keep_bind; [apply keep_begin_section|].
    intros _. by apply keep_actions, keeps_ret. }
  intros _. cbn zeta. destruct (_ || _); [apply keep_epilogue|by apply keeps_ret].
Qed.

Lemma keep_all_dif : keep (lower_all_dif dof).
Proof.
  apply keep_bind; [|intros _; apply keep_bind; [apply keep_fixup|intros _; apply keep_clear_pending]].
  apply keep_forM. intros s [Hk Hs]%list_elem_of_filter. by apply keep_section_into; [..|left].
Qed.

Lemma first_ecb_safe {E} : safe (first_ecb (E:=E) dof).
Proof.
  unfold first_ecb. destruct (sections_of dof SEcbDesc) as [|s l] eqn:E1; [done|].
  destruct (section_bytes_wf (E:=E) dof s Hd) as [b ->];
    [|rewrite bind_Ret; apply safe_ok, host_ecb_safe].
  assert (Hin : s ∈ sections_of dof SEcbDesc) by (rewrite E1; apply list_elem_of_here).
  by apply list_elem_of_filter in Hin as [_ ?].
Qed.

Lemma keep_clause schema opts : keep (lower_clause dof schema opts).
Proof.
  apply keep_bind; [apply keep_lift, first_ecb_safe|]. intros o.
  apply keep_bind; [destruct o; [apply keep_prescan_ecb|by apply keeps_ret]|]. intros _.
  apply keep_bind; [apply keep_zero_locals|]. intros _.
  destruct o as [e|]; [|apply keep_all_dif].
  destruct (_ =? _); [|apply keep_guarded].
  apply keep_acts. intros acts. apply keep_actions, keeps_throw.
Qed.

End Body.

(** ** The program *)

Lemma initial_inv schema it sb fd id :
  match schema with Some sch => schema_fits sch | None => True end ->
  let s := with_agg_fd (new_with_strtab schema it sb) fd in
  lower_inv [] (with_out s (extend (body_prologue schema id) (out s))).
Proof.
  intros Hs s. split.
  - split; try done.
    + cbn [value_off with_agg_fd with_out new_with_strtab s]. destruct schema as [sch|]; [|done].
      simpl. destruct (find_field sch (str "value")) as [[i f]|]; [apply as_i16_range|done].
  - destruct (good_list _ (body_prologue_good schema id)) as (Hw & Hf & Hk).
    exists (slots (body_prologue schema id)). split; try done.
    + apply (appends_extend _ Hw Hk ([], []) []). by split.
    + destruct (concat_asm _ Hw) as [_ Hl]. unfold body_prologue in *. rewrite concat_app in Hl.
      rewrite len_app in Hl. change (len (concat (map _ _))) with 40 in Hl. pose_lens. lia.
Qed.

(** Output that is in step with its code, well formed while branches reach. *)
Definition code_of (a : Asm) (cs : list insn) : Prop :=
  holds_code a cs /\ (len cs < 2 ^ 15 -> frag_ok cs).

Lemma code_of_emit f a cs :
  emits_ok f -> code_of a cs -> exists frag, code_of (f a) (cs ++ frag).
Proof.
  intros (frag & Ha & Hf) [H1 H2]. exists frag. split; [by apply Ha|].
  rewrite len_app. pose_lens. intros. apply frag_ok_app; [apply H2; lia|done].
Qed.

Lemma emit_vma_table_ok sch a cs :
  code_of a cs -> exists b cs', emit_vma_table (E:=LoweringError) sch a = Ret b /\ code_of b cs'.
Proof.
  intros Ha. unfold emit_vma_table. cbn zeta.
  destruct (code_of_emit (fun a => extend [bpf_mov64_reg RB_PTR_REG 0]
    (emit_record_reserve (8192 + 512) true a).1) a cs) as [f1 H1]; [|done|].
  { apply (emits_ok_seq (fun a => (emit_record_reserve (8192 + 512) true a).1));
      [by apply emits_ok_reserve|apply emits_ok_extend; good_list]. }
  cbn beta in H1. set (a1 := extend _ _) in *. clearbody a1.
  set (j := Ins BPF_JEQ_IMM RB_PTR_REG 0 0 0).
  assert (Hj : is_jump j) by (split_and!; [done..|]; unfold regs_ok; by vm_compute).
  destruct (code_of_emit (extend [bpf_jeq_imm RB_PTR_REG 0 0]) a1 (cs ++ f1)) as [f2 H2];
    [apply emits_ok_extend; good_list|done|].
  destruct H1 as [[H1 H1'] H1f].
  assert (E2 : f2 = [j]).
  { destruct H2 as [[[H2 _] _] _]. cbn [extend fst concat] in H2. rewrite app_nil_r in H2.
    unfold bpf_jeq_imm in H2. rewrite decode_all_app, decode_insn in H2
      by (destruct H1 as [-> Hl]; exact Hl).
    destruct H1 as [H1 _]. rewrite H1 in H2. by apply app_inv_head in H2. }
  subst f2. set (a2 := extend [bpf_jeq_imm _ _ _] a1) in *.
  destruct (code_of_emit (fun a => emit_record_submit RB_PTR_REG true true
    (emit_kfunc_call KFUNC_VMA_TABLE
      (extend [bpf_mov64_reg 1 RB_PTR_REG; bpf_alu64_imm 0x07 1 24; bpf_mov64_imm 2 8192]
        (extend (fill_correlation_fields sch 0xFFFFFFFF) a)))) a2 ((cs ++ f1) ++ [j])) as [f3 H3]; [|exact H2|].
  { apply (emits_ok_seq _ (emit_record_submit RB_PTR_REG true true)); [|apply emits_ok_submit; bound].
    apply (emits_ok_seq _ (emit_kfunc_call KFUNC_VMA_TABLE)); [|apply emits_ok_kfunc].
    apply (emits_ok_seq (extend (fill_correlation_fields sch 0xFFFFFFFF)));
      [apply emits_ok_extend, fill_correlation_good|apply emits_ok_extend; good_list]. }
  cbn beta in H3. destruct H3 as [H3 H3f].
  rewrite (asm_len _ _ H1). rewrite <- app_assoc in *.
  set (n := length (cs ++ f1)). replace (len (cs ++ f1)) with (Z.of_nat n) by done.
  destruct (patch_end_ok _ _ n j H3) as (b & cs' & -> & A & B & _ & _); [|done|done|].
  { rewrite app_assoc, lookup_app_l by (rewrite length_app; simpl; lia).
    by rewrite lookup_app_r, Nat.sub_diag by lia. }
  rewrite bind_Ret. eexists _, cs'. by split.
Qed.

Lemma kcalls_range base cs k : k ∈ kcalls base cs -> base <= k < base + len cs.
Proof.
  revert base. induction cs as [|i cs IH]; intros base; [by intros ?%not_elem_of_nil|].
  cbn [kcalls]. rewrite len_cons. pose_lens.
  destruct (is_kcall i); [intros [->|Hk]%elem_of_cons; [lia|]|intros Hk]; apply IH in Hk; lia.
Qed.

Lemma kcalls_small cs :
  len cs <= 2 ^ 32 -> map (fun k => k mod 2 ^ 32) (kcalls 0 cs) = kcalls 0 cs.
Proof.
  intros Hl. rewrite <- (map_id (kcalls 0 cs)) at 2. apply map_ext_in. intros k Hk%list_elem_of_In.
  apply kcalls_range in Hk. apply Z.mod_small. lia.
Qed.

(** What a lowered program is: slots the verifier accepts, with one relocation
    per kernel-function call, in order. *)
Definition sound_program (p : Asm) : Prop :=
  verify p.1 = Ret tt /\ p.2.*1 = kcalls 0 (decode_all p.1).

Lemma sound_intro p cs :
  asm p.1 cs -> frag_ok cs -> cs <> [] -> p.2.*1 = kcalls 0 cs -> sound_program p.
Proof.
  intros [Hc Hl] Hf Hne Hr. split; [|by rewrite Hc].
  assert (Hlen : 0 < len cs) by (destruct cs; [done|rewrite len_cons; pose_lens; lia]).
  apply verify_complete. split_and!.
  - intros E. rewrite E in Hl. change (len (@nil Init.Byte.byte)) with 0 in Hl. lia.
  - rewrite Hl, Z.mul_comm. by apply Z.mod_mul.
  - rewrite Hl, (Z.mul_comm 8), Z.div_mul, Hc by lia. apply Hf; lia.
Qed.

Lemma wrap_sound sch vma a cs p :
  code_of a cs -> wrap_program (E:=LoweringError) sch vma a = Ret p -> len p.1 < 2 ^ 15 * 8 ->
  sound_program p.
Proof.
  intros [[Ha Hr] Hf]. unfold wrap_program. cbn zeta.
  destruct (code_of_emit (extend [bpf_mov64_reg CTX_REG 1]) ([], []) []) as [f0 H0];
    [apply emits_ok_extend; good_list|split; [done|intros; apply frag_ok_nil]|].
  rewrite app_nil_l in H0. set (a0 := extend _ _) in *. clearbody a0.
  assert (Hv : exists a1 c1, (if vma then emit_vma_table sch a0 else Ret a0)
    = (Ret a1 : outcome LoweringError Asm) /\ code_of a1 c1).
  { destruct vma; [by apply (emit_vma_table_ok sch a0 f0)|by exists a0, f0]. }
  destruct Hv as (a1 & c1 & -> & H1). rewrite bind_Ret.
  pose proof (as_i32_range (record_size sch)) as Hrec.
  destruct (code_of_emit _ a1 c1 (emits_ok_reserve _ true Hrec) H1) as [f2 [[H2 H2r] H2f]].
  set (c2 := c1 ++ f2) in *. set (a2 := (emit_record_reserve _ true a1).1) in *. clearbody a2 c2.
  clear H0 H1 Hrec.
  pose (ji := Ins BPF_JEQ_IMM RB_PTR_REG 0 (as_i16 (len a.1 / 8)) 0).
  pose (mid := [Ins BPF_MOV64_REG RB_PTR_REG 0 0 0; ji]).
  pose (fin := [Ins BPF_MOV64_IMM 0 0 0 0; Ins BPF_EXIT 0 0 0 0]).
  assert (Hmid : asm (bpf_mov64_reg RB_PTR_REG 0
    ++ bpf_jeq_imm RB_PTR_REG 0 (as_i16 (len a.1 / 8)) ++ []) mid).
  { apply asm_cons; [apply asm_insn|]. rewrite app_nil_r. apply asm_insn. }
  assert (Hfin : asm (bpf_mov64_imm 0 0 ++ bpf_exit ++ []) fin).
  { apply asm_cons; [apply asm_insn|]. rewrite app_nil_r. apply asm_insn. }
  revert Hmid Hfin. generalize (bpf_mov64_reg RB_PTR_REG 0), (bpf_mov64_imm 0 0), bpf_exit,
    (bpf_jeq_imm RB_PTR_REG 0 (as_i16 (len a.1 / 8))). intros m0 m1 ex j Hmid Hfin [= <-].
  assert (Hall : asm ((a2.1 ++ m0 ++ j ++ []) ++ a.1 ++ m1 ++ ex ++ []) (c2 ++ mid ++ cs ++ fin)).
  { rewrite (app_assoc c2). apply asm_app; by apply asm_app. }
  cbn [extend fst snd concat]. rewrite (asm_len _ _ Hall). intros Hlen.
  assert (Hl : len c2 + 2 + len cs + 2 < 2 ^ 15).
  { rewrite !len_app in Hlen. change (len mid) with 2 in Hlen. change (len fin) with 2 in Hlen. lia. }
  pose_lens. apply (sound_intro _ (c2 ++ mid ++ cs ++ fin)); cbn [fst snd].
  - exact Hall.
  - apply frag_ok_app; [apply H2f; lia|]. apply frag_ok_plain; [apply plain_Ins; [bound..|insn_req]|].
    cbn [app]. apply frag_ok_jump.
    + split_and!; [done..|]. unfold regs_ok. by vm_compute.
    + unfold ji, Ins. cbn [i_off]. rewrite (asm_len _ _ Ha), (Z.mul_comm 8), Z.div_mul by lia.
      rewrite !as_i16_id by (rewrite ?as_i16_id; lia). rewrite len_app. change (len fin) with 2. lia.
    + apply frag_ok_app; [apply Hf; lia|].
      repeat (apply frag_ok_plain; [apply plain_Ins; [bound..|insn_req]|]). apply frag_ok_nil.
  - by destruct c2.
  - rewrite fmap_app, H2r, kcalls_small by lia. rewrite !kcalls_app.
    change (kcalls _ mid) with (@nil Z). change (kcalls _ fin) with (@nil Z).
    f_equal. rewrite app_nil_l, (app_nil_r (kcalls _ cs)).
    rewrite (asm_len _ _ (asm_app _ _ _ _ H2 Hmid)), len_app. change (len mid) with 2.
    rewrite (Z.mul_comm 8), Z.div_mul, Z.mod_small by lia.
    rewrite (kcalls_shift 0 (len c2 + 2)), <- (kcalls_small cs), <- Hr by lia.
    rewrite <- !list_fmap_compose. apply list_fmap_ext. by intros _ [k name] _.
Qed.

Lemma lower_body_post dof schema opts it sb :
  dof_wf dof -> dif_ok dof -> match schema with Some sch => schema_fits sch | None => True end ->
  st_post (lower_body dof schema opts)
    (with_agg_fd (new_with_strtab schema it sb) (opt_agg_map_fake_fd opts))
    (fun _ s => lower_inv [] s) (fun _ _ => True).
Proof.
  intros Hd Hok Hs. unfold lower_body. apply st_post_bind.
  apply (st_post_mono _ _ (fun _ s => lower_inv [] s /\ True)
           (fun _ s => lower_inv [] s) (fun _ _ => True)); [|by intros _ s []|done].
  apply keep_clause; [done|done|]. by apply initial_inv.
Qed.

Lemma wrap_safe sch vma a cs : code_of a cs -> safe (wrap_program (E:=LoweringError) sch vma a).
Proof.
  intros Ha. unfold wrap_program. cbn zeta. apply safe_bind; [|done].
  destruct vma; [|done].
  destruct (code_of_emit (extend [bpf_mov64_reg CTX_REG 1]) ([], []) []) as [f0 H0];
    [apply emits_ok_extend; good_list|split; [done|intros; apply frag_ok_nil]|].
  by destruct (emit_vma_table_ok sch _ _ H0) as (b & cs' & -> & _).
Qed.

(** The outcome of a lowering. *)
Lemma lower_verdict dof schema opts
    (Hd : dof_wf dof) (Hok : dif_ok dof)
    (Hs : match schema with Some sch => schema_fits sch | None => True end) :
  match lower_with_opts dof schema opts with
  | Ret p => len p.1 < 8 * 2 ^ 15 -> sound_program p
  | Throw _ => True
  | Panic => False
  end.
Proof.
  unfold lower_with_opts.
  pose proof (read_inttab_safe (E:=LoweringError) dof (head (sections_of dof SIntTab)) Hd) as H1.
  pose proof (read_strtab_safe (E:=LoweringError) dof (head (sections_of dof SStrTab)) Hd) as H2.
  assert (Hh : forall k s, head (sections_of dof k) = Some s -> s ∈ sections dof).
  { intros k s E. rewrite head_lookup in E. apply list_elem_of_lookup_2 in E.
    by apply list_elem_of_filter in E as [_ E]. }
  specialize (H1 (Hh _)). specialize (H2 (Hh _)).
  destruct (read_inttab dof _) as [it|e|]; [|done..]. rewrite bind_Ret.
  destruct (read_strtab dof _) as [sb|e|]; [|done..]. rewrite bind_Ret.
  pose proof (lower_body_post dof schema opts it sb Hd Hok Hs) as H. unfold st_post in H.
  destruct (lower_body _ _ _ _) as [[[]|e|] s]; [|done..].
  destruct H as [_ [cs [Hc Hf _ _ _ Hn]]].
  destruct schema as [sch|].
  - assert (Ha : code_of (out s) cs) by (by split).
    pose proof (wrap_safe sch (needs_vma_table_emit s) (out s) cs Ha) as Hw.
    destruct (wrap_program _ _ _) as [p|e|] eqn:E; [|done..]. intros Hl.
    apply (wrap_sound sch (needs_vma_table_emit s) (out s) cs p); [done|done|lia].
  - intros Hl. destruct Hc as [Hasm Hr]. rewrite (asm_len _ _ Hasm) in Hl.
    apply (sound_intro _ cs); [done|apply Hf; lia|by intros ->|].
    rewrite Hr. apply kcalls_small. lia.
Qed.

(** C3: lowering never panics, and every program it returns passes the static
    verifier - all registers exist, stack accesses stay inside the 512-byte
    frame, branches land inside the program, wide loads are whole, helpers are
    known - while it has fewer than [2^15] slots; its relocations are exactly
    the slots of its kernel-function calls, in order. *)
Theorem lowering_sound dof schema opts
    (Hd : dof_wf dof) (Hok : dif_ok dof)
    (Hs : match schema with Some sch => schema_fits sch | None => True end) :
  match lower_with_opts dof schema opts with
  | Ret p => len p.1 < 8 * 2 ^ 15 -> sound_program p
  | Throw _ => True
  | Panic => False
  end.
Proof. by apply lower_verdict. Qed.
