(* ===== verification/LowerSem.v ===== *)
(** What the emitted aggregation code computes, on the eBPF machine of Bpf.v:
    the per-CPU updates of the counting aggregations, against the aggregation
    they stand for, and the histogram bucket of every 64-bit value. *)

From stdpp Require Import gmap.
From S2P Require Import Prelude Emit Bpf Verify CodeFrag HostDof LowerState.
From S2P Require Import LowerDif LowerAction LowerAgg LowerOk LowerSafe.

Local Open Scope Z_scope.
Local Open Scope list_scope.

(** ** Memory words *)

Lemma load_ext n f g a :
  (forall x, a <= x < a + Z.of_nat n -> f x = g x) -> load n f a = load n g a.
Proof.
  revert a. induction n as [|n IH]; intros a H; [done|]. cbn [load].
  rewrite (H a) by lia. do 2 f_equal. apply IH. intros x Hx. apply H. lia.
Qed.

Lemma store_other n a v f x : x < a \/ a + Z.of_nat n <= x -> store n a v f x = f x.
Proof.
  revert a v. induction n as [|n IH]; intros a v H; [done|]. cbn [store]. unfold set_reg.
  destruct (Z.eqb_spec x a); [lia|]. apply IH. lia.
Qed.

Lemma load_store_same n a v f : 0 <= v -> load n (store n a v f) a = v mod 256 ^ Z.of_nat n.
Proof.
  revert a v f. induction n as [|n IH]; intros a v f Hv; [by rewrite Z.mod_1_r|].
  cbn [load store]. unfold set_reg at 1. rewrite Z.eqb_refl, Z.mod_mod by lia.
  rewrite (load_ext n _ (store n (a + 1) (v / 256) f)).
  - rewrite IH by (apply Z.div_pos; lia). rewrite Nat2Z.inj_succ, Z.pow_succ_r by lia.
    rewrite Z.rem_mul_r; [done|lia|apply Z.pow_pos_nonneg; lia].
  - intros x Hx. unfold set_reg. by destruct (Z.eqb_spec x a); [lia|].
Qed.

Lemma load_store_other n k a b v f :
  a + Z.of_nat n <= b \/ b + Z.of_nat k <= a -> load n (store k b v f) a = load n f a.
Proof. intros H. apply load_ext. intros x Hx. apply store_other. lia. Qed.

Lemma load_range n f a : 0 <= load n f a < 256 ^ Z.of_nat n.
Proof.
  revert a. induction n as [|n IH]; intros a; [done|]. cbn [load].
  rewrite Nat2Z.inj_succ, Z.pow_succ_r by lia. specialize (IH (a + 1)).
  pose proof (Z.mod_pos_bound (f a) 256). lia.
Qed.

(** The 64-bit word at [a]. *)
Definition word (f : Z -> Z) (a : Z) : Z := load 8 f a.
Definition put (a v : Z) (f : Z -> Z) : Z -> Z := store 8 a v f.

Lemma word_put a v f : in_u 64 v -> word (put a v f) a = v.
Proof.
  intros [H1 H2]. unfold word, put. rewrite load_store_same by done. by apply Z.mod_small.
Qed.

Lemma word_put_other a b v f : a + 8 <= b \/ b + 8 <= a -> word (put b v f) a = word f a.
Proof. intros H. by apply load_store_other. Qed.

Lemma word_range f a : in_u 64 (word f a).
Proof. exact (load_range 8 f a). Qed.

Lemma wrap64_range v : in_u 64 (wrap64 v).
Proof. apply Z.mod_pos_bound. lia. Qed.

Lemma wrap64_id v : in_u 64 v -> wrap64 v = v.
Proof. apply Z.mod_small. Qed.

(** ** Running fragments *)

Section Sem.
Context (call : insn -> data -> option data) (map_addr : Z -> Z).

(** The fragment, wherever it lands, takes [d] at its start to [d'] at its end. *)
Definition runs (frag : list insn) (d d' : data) : Prop :=
  forall code b, code_at code b frag -> steps call map_addr code (b, d) (b + len frag, d').

Lemma runs_app f1 f2 d d1 d2 : runs f1 d d1 -> runs f2 d1 d2 -> runs (f1 ++ f2) d d2.
Proof.
  intros H1 H2 code b Hc. etrans; [apply H1; by eapply code_at_app_l|].
  rewrite len_app, Z.add_assoc. apply H2. by eapply code_at_app_r.
Qed.

(** Where a fragment ends is stuck when there is no code after it, so what it
    leaves is determined. *)
Lemma run_stuck n code m m' : step call map_addr code m = None -> run call map_addr n code m = Some m' -> m' = m.
Proof. intros E. destruct n as [|n]; cbn [run]; [by intros [= <-]|by rewrite E]. Qed.

Lemma run_functional code m : forall n1 n2 m1 m2,
  run call map_addr n1 code m = Some m1 -> run call map_addr n2 code m = Some m2 ->
  step call map_addr code m1 = None -> step call map_addr code m2 = None -> m1 = m2.
Proof.
  intros n1. revert m. induction n1 as [|n1 IH]; intros m n2 m1 m2 H1 H2 S1 S2.
  { injection H1 as <-. symmetry. by eapply run_stuck. }
  destruct n2 as [|n2]; [injection H2 as <-; by eapply run_stuck|]. cbn [run] in H1, H2.
  destruct (step call map_addr code m) as [m0|]; [|done]. by eapply IH.
Qed.

Lemma runs_functional frag d d1 d2 : runs frag d d1 -> runs frag d d2 -> d1 = d2.
Proof.
  intros H1 H2. destruct (H1 frag 0 (code_at_whole frag)) as [n1 R1], (H2 frag 0 (code_at_whole frag)) as [n2 R2].
  assert (S : forall d, step call map_addr frag (0 + len frag, d) = None).
  { intros d'. unfold step, fetch. cbn [fst snd]. pose proof (len_nonneg frag).
    destruct (Z.leb_spec 0 (0 + len frag)); [|done].
    by replace (frag !! Z.to_nat (0 + len frag)) with (@None insn) by (symmetry; apply lookup_ge_None; unfold len; lia). }
  pose proof (run_functional _ _ _ _ _ _ R1 R2 (S _) (S _)) as [=]. done.
Qed.

Lemma runs_run n frag d d' :
  run call map_addr n frag (0, d) = Some (len frag, d') -> runs frag d d'.
Proof. intros H code b Hc. by eapply steps_at. Qed.

Lemma run_step n code p d i k d' r :
  fetch code p = Some i -> exec call map_addr (fetch code (p + 1)) i d = Some (k, d') ->
  run call map_addr n code (p + k, d') = r -> run call map_addr (S n) code (p, d) = r.
Proof.
  intros Hf He Hr. cbn [run]. unfold step. cbn [fst snd].
  rewrite Hf. cbn [mbind option_bind]. by rewrite He.
Qed.

Lemma run_done code p d q : p = q -> run call map_addr 0 code (p, d) = Some (q, d).
Proof. by intros ->. Qed.

Lemma run_done_eq code p d q d' :
  p = q -> d = d' -> run call map_addr 0 code (p, d) = Some (q, d').
Proof. by intros -> ->. Qed.

(** The instructions the aggregations use. *)
Lemma exec_add_imm hi r m d :
  exec call map_addr hi (Insn 0x07 r 0 0 m) d = Some (1, set r (wrap64 (reg d r + wrap64 m)) d).
Proof. reflexivity. Qed.

Lemma exec_mov_imm hi r m d :
  exec call map_addr hi (Insn 0xb7 r 0 0 m) d = Some (1, set r (wrap64 m) d).
Proof. reflexivity. Qed.

Lemma exec_mov_reg hi r s d :
  exec call map_addr hi (Insn 0xbf r s 0 0) d = Some (1, set r (reg d s) d).
Proof. reflexivity. Qed.

Lemma exec_mul_reg hi r s d :
  exec call map_addr hi (Insn 0x2f r s 0 0) d = Some (1, set r (wrap64 (reg d r * reg d s)) d).
Proof. reflexivity. Qed.

Lemma exec_add_reg hi r s d :
  exec call map_addr hi (Insn 0x0f r s 0 0) d = Some (1, set r (wrap64 (reg d r + reg d s)) d).
Proof. reflexivity. Qed.

Lemma exec_shl_imm hi r m d :
  exec call map_addr hi (Insn 0x67 r 0 0 m) d
  = Some (1, set r (wrap64 (Z.shiftl (reg d r) (wrap64 m mod 64))) d).
Proof. reflexivity. Qed.

Lemma exec_stx_w hi r s o d :
  exec call map_addr hi (Insn 0x63 r s o 0) d
  = Some (1, Data (reg d) (store 4 (wrap64 (reg d r + o)) (reg d s) (mem d))).
Proof. reflexivity. Qed.

Lemma exec_map hi r m d :
  exec call map_addr (Some hi) (Insn 0x18 r 1 0 m) d = Some (2, set r (map_addr m) d).
Proof. reflexivity. Qed.

Lemma exec_shr_imm hi r m d :
  exec call map_addr hi (Insn 0x77 r 0 0 m) d
  = Some (1, set r (Z.shiftr (reg d r) (wrap64 m mod 64)) d).
Proof. reflexivity. Qed.

Lemma exec_ldx hi r s o d :
  exec call map_addr hi (Insn 0x79 r s o 0) d
  = Some (1, set r (word (mem d) (wrap64 (reg d s + o))) d).
Proof. reflexivity. Qed.

Lemma exec_stx hi r s o d :
  exec call map_addr hi (Insn 0x7b r s o 0) d
  = Some (1, Data (reg d) (put (wrap64 (reg d r + o)) (reg d s) (mem d))).
Proof. reflexivity. Qed.

Lemma exec_atomic_add hi r s o d :
  exec call map_addr hi (Insn 0xdb r s o 0) d
  = Some (1, Data (reg d) (let a := wrap64 (reg d r + o) in
                           put a (wrap64 (word (mem d) a + reg d s)) (mem d))).
Proof. reflexivity. Qed.

Lemma exec_jlt_imm hi r o m d :
  exec call map_addr hi (Insn 0xa5 r 0 o m) d
  = Some (1 + (if reg d r <? wrap64 m then o else 0), d).
Proof. reflexivity. Qed.

Lemma exec_jeq_imm hi r o m d :
  exec call map_addr hi (Insn 0x15 r 0 o m) d
  = Some (1 + (if reg d r =? wrap64 m then o else 0), d).
Proof. reflexivity. Qed.

Lemma exec_jge_reg hi r s o d :
  exec call map_addr hi (Insn 0x3d r s o 0) d
  = Some (1 + (if reg d s <=? reg d r then o else 0), d).
Proof. reflexivity. Qed.

Lemma exec_jle_reg hi r s o d :
  exec call map_addr hi (Insn 0xbd r s o 0) d
  = Some (1 + (if reg d r <=? reg d s then o else 0), d).
Proof. reflexivity. Qed.

Lemma reg_set r v d x : reg (set r v d) x = if x =? r then v else reg d x.
Proof. reflexivity. Qed.

End Sem.

(** One step of a run over literal instructions. *)
Ltac bstep :=
  eapply run_step;
    [ reflexivity
    | first [rewrite exec_add_imm|rewrite exec_mov_imm|rewrite exec_mov_reg|rewrite exec_mul_reg
            |rewrite exec_add_reg|rewrite exec_shl_imm|rewrite exec_stx_w
            |rewrite exec_map|rewrite exec_shr_imm|rewrite exec_ldx|rewrite exec_stx|rewrite exec_atomic_add
            |rewrite exec_jlt_imm|rewrite exec_jeq_imm|rewrite exec_jge_reg|rewrite exec_jle_reg];
      cbn [reg mem set set_reg Z.eqb Pos.eqb]; reflexivity
    | ].

(** Literal code, evaluated to its slots. *)
Ltac eval_slots :=
  match goal with
  | |- context [slots ?l] =>
      let v := eval vm_compute in (slots l) in replace (slots l) with v by (by vm_compute)
  end.

(** A step of a lowering pass that succeeds. *)
Lemma lower_bind_Ret {A B} (m : lower_m A) (k : A -> lower_m B) s a s' :
  m s = (Ret a, s') -> (m ≫= k) s = k a s'.
Proof. intros H. unfold mbind, st_bind. by rewrite H. Qed.

(** A branch over an emitted list is emitted with its distance. *)
Lemma jump_over_emits c d r m l s :
  Forall whole l ->
  jump_over (bpf_insn c d r 0 m) (emits l) s
  = (Ret tt, with_out s (extend (bpf_insn c d r (as_i16 (len (slots l))) m :: l) (out s))).
Proof.
  intros Hl. rewrite <- whole_slots by done.
  unfold jump_over, emits, emit, st_gets, st_modify, mbind, st_bind, patch_to_end, patch_end.
  unfold body, kfunc_relocs, extend. cbn [out with_out fst snd concat].
  rewrite app_nil_r, <- app_assoc.
  replace (len ((out s).1 ++ bpf_insn c d r 0 m ++ concat l) - len (out s).1 - 8)
    with (len (concat l)) by (rewrite !len_app; change (len (bpf_insn _ _ _ _ _)) with 8; lia).
  by rewrite write_insn.
Qed.

(** ** The counting aggregations *)

(** The value of an aggregation, as the words of its per-CPU slot; a slot that
    has seen no value is all zero. *)
Definition agg_step (kind v : Z) (ws : list Z) : list Z :=
  if kind =? DTRACEAGG_COUNT then match ws with n :: r => wrap64 (n + 1) :: r | _ => ws end
  else if kind =? DTRACEAGG_SUM then match ws with n :: r => wrap64 (n + v) :: r | _ => ws end
  else if kind =? DTRACEAGG_MIN then
    match ws with c :: r => (if (c =? 0) || (v <? c) then v else c) :: r | _ => ws end
  else if kind =? DTRACEAGG_MAX then
    match ws with c :: r => Z.max c v :: r | _ => ws end
  else if kind =? DTRACEAGG_AVG then
    match ws with s :: n :: r => wrap64 (s + v) :: wrap64 (n + 1) :: r | _ => ws end
  else if kind =? DTRACEAGG_STDDEV then
    match ws with
    | n :: s :: q :: r => wrap64 (n + 1) :: wrap64 (s + v) :: wrap64 (q + v * v) :: r
    | _ => ws
    end
  else ws.

(** The three words of the slot at [a]. *)
Definition slot3 (f : Z -> Z) (a : Z) : list Z := [word f a; word f (a + 8); word f (a + 16)].

(** Memory is the same outside the slot at [a]. *)
Definition kept (a : Z) (f f' : Z -> Z) : Prop := forall x, x < a \/ a + 24 <= x -> f' x = f x.

Section Update.
Context (call : insn -> data -> option data) (map_addr : Z -> Z).
Context (d : data) (H6 : in_u 64 (reg d 6)) (H0 : 0 <= reg d 0 <= 2 ^ 64 - 24).

Lemma slot_addr o : 0 <= o <= 16 -> wrap64 (reg d 0 + o) = reg d 0 + o.
Proof. intros H. apply Z.mod_small. lia. Qed.

(** What the update [kind] leaves in the slot, and that it leaves the rest. *)
Definition updates (kind : Z) : Prop :=
  exists d', runs call map_addr (slots (emit_update kind)) d d' /\
    slot3 (mem d') (reg d 0) = agg_step kind (reg d 6) (slot3 (mem d) (reg d 0)) /\
    kept (reg d 0) (mem d) (mem d').

Ltac words :=
  cbn zeta; cbn [reg mem set set_reg Z.eqb Pos.eqb]; rewrite ?slot_addr, ?Z.add_0_r by lia;
  unfold slot3; repeat first [rewrite word_put by first [apply wrap64_range|done]
                             |rewrite word_put_other by lia].

Ltac keeps :=
  intros ? ?; cbn zeta; cbn [reg mem set set_reg Z.eqb Pos.eqb]; rewrite ?slot_addr, ?Z.add_0_r by lia;
  unfold put; rewrite ?store_other by lia; reflexivity.

Ltac run_update n :=
  unfold updates; eval_slots; eexists; split; [apply (runs_run _ _ n); repeat bstep; apply run_done; reflexivity|].

Lemma update_count : updates DTRACEAGG_COUNT.
Proof. run_update 2%nat. split; [words; done|keeps]. Qed.

Lemma update_sum : updates DTRACEAGG_SUM.
Proof. run_update 2%nat. split; [words; done|keeps]. Qed.

Lemma update_avg : updates DTRACEAGG_AVG.
Proof. run_update 4%nat. split; [words; done|keeps]. Qed.

Lemma update_stddev : updates DTRACEAGG_STDDEV.
Proof.
  run_update 7%nat. split; [|keeps]. words. change (wrap64 1) with 1. unfold agg_step. cbn. do 2 f_equal.
  unfold wrap64. by rewrite Z.add_mod_idemp_r.
Qed.

(** A branch whose condition is known. *)
Ltac bjump H :=
  eapply run_step;
    [ reflexivity
    | first [rewrite exec_jeq_imm|rewrite exec_jge_reg|rewrite exec_jle_reg|rewrite exec_jlt_imm];
      cbn [reg mem set set_reg Z.eqb Pos.eqb]; rewrite ?slot_addr, ?Z.add_0_r by lia;
      change (wrap64 0) with 0; rewrite H; reflexivity
    | ].

Lemma update_min : updates DTRACEAGG_MIN.
Proof.
  unfold updates. eval_slots.
  assert (Ew : agg_step DTRACEAGG_MIN (reg d 6) (slot3 (mem d) (reg d 0))
    = let c := word (mem d) (reg d 0) in (if (c =? 0) || (reg d 6 <? c) then reg d 6 else c)
        :: [word (mem d) (reg d 0 + 8); word (mem d) (reg d 0 + 16)]) by done.
  rewrite Ew. clear Ew. cbn zeta.
  destruct (word (mem d) (reg d 0) =? 0) eqn:Ec;
    [|destruct (reg d 6 <? word (mem d) (reg d 0)) eqn:Ev]; cbn [orb]; eexists; split.
  - apply (runs_run _ _ 4). bstep. bstep. bjump Ec. bstep. by apply run_done.
  - split; [words; done|keeps].
  - apply (runs_run _ _ 5). bstep. bstep. bjump Ec.
    assert (Ej : (word (mem d) (reg d 0) <=? reg d 6) = false) by (zbool; lia).
    bjump Ej. bstep. by apply run_done.
  - split; [words; done|keeps].
  - apply (runs_run _ _ 4). bstep. bstep. bjump Ec.
    assert (Ej : (word (mem d) (reg d 0) <=? reg d 6) = true) by (zbool; lia).
    bjump Ej. by apply run_done.
  - split; [words; done|keeps].
Qed.

Lemma update_max : updates DTRACEAGG_MAX.
Proof.
  unfold updates. eval_slots.
  assert (Ew : agg_step DTRACEAGG_MAX (reg d 6) (slot3 (mem d) (reg d 0))
    = Z.max (word (mem d) (reg d 0)) (reg d 6) :: [word (mem d) (reg d 0 + 8); word (mem d) (reg d 0 + 16)]) by done.
  rewrite Ew. clear Ew. destruct (reg d 6 <=? word (mem d) (reg d 0)) eqn:Ec; eexists; split.
  - apply (runs_run _ _ 3). bstep. bstep. bjump Ec. by apply run_done.
  - split; [words; f_equal; zbool; lia|keeps].
  - apply (runs_run _ _ 4). bstep. bstep. bjump Ec. bstep. by apply run_done.
  - split; [words; f_equal; zbool; lia|keeps].
Qed.

Lemma update_runs kind : counting kind = true -> updates kind.
Proof.
  unfold counting. intros Hk%bool_decide_eq_true.
  repeat (apply elem_of_cons in Hk as [->|Hk]); [..|by apply not_elem_of_nil in Hk].
  - apply update_count.
  - apply update_sum.
  - apply update_min.
  - apply update_max.
  - apply update_avg.
  - apply update_stddev.
Qed.

End Update.

(** *** Aggregating a series of values *)

Definition sum (vs : list Z) : Z := foldr Z.add 0 vs.
Definition least (vs : list Z) : Z := match vs with [] => 0 | v :: r => foldr Z.min v r end.

(** The aggregation of [vs] as DTrace defines it, modulo the word size. *)
Definition aggregate (kind : Z) (vs : list Z) : list Z :=
  if kind =? DTRACEAGG_COUNT then [wrap64 (len vs); 0; 0]
  else if kind =? DTRACEAGG_SUM then [wrap64 (sum vs); 0; 0]
  else if kind =? DTRACEAGG_MIN then [least vs; 0; 0]
  else if kind =? DTRACEAGG_MAX then [foldr Z.max 0 vs; 0; 0]
  else if kind =? DTRACEAGG_AVG then [wrap64 (sum vs); wrap64 (len vs); 0]
  else [wrap64 (len vs); wrap64 (sum vs); wrap64 (sum (map (fun v => v * v) vs))].

Lemma wrap64_add a b : wrap64 (wrap64 a + b) = wrap64 (a + b).
Proof. apply Z.add_mod_idemp_l. lia. Qed.

Lemma sum_snoc vs v : sum (vs ++ [v]) = sum vs + v.
Proof. induction vs as [|x vs IH]; cbn [app sum foldr] in *; unfold sum in *; lia. Qed.

Lemma max_snoc vs v : foldr Z.max 0 (vs ++ [v]) = Z.max (foldr Z.max 0 vs) (Z.max v 0).
Proof. induction vs as [|x vs IH]; cbn [app foldr]; [lia|]. rewrite IH. lia. Qed.

Lemma min_snoc x vs v : foldr Z.min x (vs ++ [v]) = Z.min (foldr Z.min x vs) v.
Proof. revert x. induction vs as [|y vs IH]; intros x; cbn [app foldr]; [lia|]. rewrite IH. lia. Qed.

Lemma min_pos x vs : 0 < x -> Forall (fun v => 0 < v) vs -> 0 < foldr Z.min x vs.
Proof. intros Hx. induction 1; cbn [foldr]; lia. Qed.

Lemma least_snoc vs v :
  0 < v -> Forall (fun v => 0 < v) vs ->
  least (vs ++ [v]) = if (least vs =? 0) || (v <? least vs) then v else least vs.
Proof.
  intros Hv Hvs. destruct vs as [|x vs]; [done|]. cbn [app least]. rewrite min_snoc.
  apply list.Forall_cons in Hvs as [Hx Hvs]. pose proof (min_pos x vs Hx Hvs).
  destruct (Z.eqb_spec (foldr Z.min x vs) 0); [lia|]. cbn [orb].
  destruct (Z.ltb_spec v (foldr Z.min x vs)); lia.
Qed.

Lemma aggregate_snoc kind vs v :
  counting kind = true -> in_u 64 v ->
  (kind = DTRACEAGG_MIN -> 0 < v /\ Forall (fun v => 0 < v) vs) ->
  agg_step kind v (aggregate kind vs) = aggregate kind (vs ++ [v]).
Proof.
  unfold counting. intros Hk%bool_decide_eq_true [Hv _] Hm.
  repeat (apply elem_of_cons in Hk as [->|Hk]); try (by apply not_elem_of_nil in Hk);
    cbn -[wrap64 Z.mul len sum least foldr]; rewrite ?len_app, ?map_app, ?sum_snoc, ?wrap64_add;
    try done.
  - destruct Hm as [H1 H2]; [done|]. by rewrite least_snoc.
  - do 2 f_equal. rewrite max_snoc. lia.
  - cbn [map]. by rewrite sum_snoc.
Qed.

(** The update fired once for each of [rs], the registers as the program finds
    them at that firing; memory is what the firing before it left. *)
Inductive fires (call : insn -> data -> option data) (map_addr : Z -> Z) (kind : Z) (f : Z -> Z)
    : list (Z -> Z) -> (Z -> Z) -> Prop :=
| fires_none : fires call map_addr kind f [] f
| fires_one rs r f1 d' :
    fires call map_addr kind f rs f1 ->
    runs call map_addr (slots (emit_update kind)) (Data r f1) d' ->
    fires call map_addr kind f (rs ++ [r]) (mem d').

Lemma fires_functional call map_addr kind f rs : forall f1 f2,
  fires call map_addr kind f rs f1 -> fires call map_addr kind f rs f2 -> f1 = f2.
Proof.
  induction rs as [|r rs IH] using rev_ind; intros f1 f2 H1 H2.
  - inversion H1 as [|? ? ? ? ? ? E]; [|by apply app_nil in E as [_ E]].
    inversion H2 as [|? ? ? ? ? ? E]; [congruence|by apply app_nil in E as [_ E]].
  - inversion H1 as [E|rs1 r1 g1 d1 F1 R1 E]; [by symmetry in E; apply app_nil in E as [_ E]|].
    apply app_inj_tail in E as [-> ->].
    inversion H2 as [E|rs2 r2 g2 d2 F2 R2 E]; [by symmetry in E; apply app_nil in E as [_ E]|].
    apply app_inj_tail in E as [-> ->].
    rewrite (IH _ _ F1 F2) in R1. by rewrite (runs_functional _ _ _ _ _ _ R1 R2).
Qed.

(** The registers a firing relies on: the slot in r0 and the value in r6. *)
Definition firing (a : Z) (r : Z -> Z) : Prop := r 0 = a /\ in_u 64 (r 6).
Definition fired_values (rs : list (Z -> Z)) : list Z := map (fun r => r 6) rs.

(** C8: the per-CPU update code of every counting aggregation computes the
    aggregation.  It is fired any number of times, each time from whatever
    registers the program has there, with the slot of the key in r0 and a
    64-bit value in r6: every firing runs to its end, the memory after the
    last one is determined, and in it the slot, zero at first, is the count,
    sum, minimum, maximum, sum and count, or count, sum and sum of squares of
    the values, modulo [2^64]; nothing outside the slot has changed.  For a
    minimum no value may be zero: the code takes a zero slot to be empty. *)
Theorem agg_update_aggregates call map_addr kind a f rs
    (Hk : counting kind = true) (Ha : 0 <= a <= 2 ^ 64 - 24) (Hf : slot3 f a = [0; 0; 0])
    (Hrs : Forall (firing a) rs)
    (Hm : kind = DTRACEAGG_MIN -> Forall (fun v => 0 < v) (fired_values rs)) :
  (exists f', fires call map_addr kind f rs f') /\
  forall f', fires call map_addr kind f rs f' ->
    slot3 f' a = aggregate kind (fired_values rs) /\ kept a f f'.
Proof.
  enough (G : exists f', fires call map_addr kind f rs f' /\
    slot3 f' a = aggregate kind (fired_values rs) /\ kept a f f').
  { destruct G as (f' & F & E & K). split; [by exists f'|]. intros f2 F2.
    by rewrite (fires_functional _ _ _ _ _ _ _ F2 F). }
  revert Hrs Hm. induction rs as [|r rs IH] using rev_ind; intros Hrs Hm.
  { exists f. split; [constructor|]. split; [|done]. rewrite Hf. unfold aggregate.
    repeat case_match; by vm_compute. }
  apply list.Forall_app in Hrs as [Hrs Hr]. apply list.Forall_cons in Hr as [[H0 H6] _].
  unfold fired_values in *. rewrite map_app in *. cbn [map] in *.
  destruct IH as (f1 & F1 & E1 & K1); [done|by intros E; apply list.Forall_app in Hm as [? _]|].
  destruct (update_runs call map_addr (Data r f1) H6 ltac:(cbn [reg]; lia) kind Hk) as (d' & R & E & K).
  cbn [reg mem] in E, K. rewrite H0 in E, K. exists (mem d'). split; [by econstructor|]. split.
  - rewrite E, E1. apply aggregate_snoc; [done|done|]. intros Ek.
    apply list.Forall_app in Hm as [H1 H2]; [|done]. by apply list.Forall_cons in H2 as [H2 _].
  - intros x Hx. rewrite K by done. by apply K1.
Qed.

(** A zero is forgotten by the next value: the minimum of 0 and 5 comes out as 5. *)
Lemma min_forgets_zero :
  fold_left (fun ws v => agg_step DTRACEAGG_MIN v ws) [0; 5] [0; 0; 0] = [5; 0; 0]
  /\ least [0; 5] = 0.
Proof. by vm_compute. Qed.

(** ** The power-of-two bucket *)

Section Quantize.
Context (call : insn -> data -> option data) (map_addr : Z -> Z).

Local Abbreviation runs := (runs call map_addr).

(** The registers of the bucket search: the value left in r6, the count in
    r7; everything but r5, r6 and r7 is as it was. *)
Definition searching (d0 : data) (x y : Z) (d : data) : Prop :=
  reg d 6 = x /\ reg d 7 = y /\ mem d = mem d0 /\
  (forall r, r <> 5 -> r <> 6 -> r <> 7 -> reg d r = reg d0 r).

Definition qstep (s : Z) : list insn :=
  [Insn 0xa5 6 0 2 (2 ^ s); Insn 0x07 7 0 0 s; Insn 0x77 6 0 0 s].

Lemma searching_shift d0 d x y s :
  searching d0 x y d -> 0 <= y -> 0 <= s < 64 -> y + s < 2 ^ 64 ->
  searching d0 (Z.shiftr x s) (y + s)
    (set 6 (Z.shiftr (reg d 6) (wrap64 s mod 64)) (set 7 (wrap64 (reg d 7 + wrap64 s)) d)).
Proof.
  intros (E6 & E7 & Em & Er) Hy Hs Hys. rewrite E6, E7.
  rewrite (wrap64_id s), (Z.mod_small s 64), (wrap64_id (y + s)) by (unfold in_u; lia).
  split_and!; [done|done|done|]. intros r H5 H6 H7. rewrite !reg_set.
  destruct (Z.eqb_spec r 6), (Z.eqb_spec r 7); try lia. by apply Er.
Qed.

Lemma qstep_runs s d0 d x y :
  s ∈ [16; 8; 4; 2; 1] -> searching d0 x y d -> 0 <= y <= 64 ->
  exists d', runs (qstep s) d d' /\
    (if x <? 2 ^ s then searching d0 x y d' else searching d0 (Z.shiftr x s) (y + s) d').
Proof.
  intros Hs Hd Hy. pose proof Hd as (E6 & E7 & _).
  assert (Hb : 0 <= s < 64 /\ 0 <= 2 ^ s < 2 ^ 64).
  { repeat (apply elem_of_cons in Hs as [->|Hs]; [by vm_compute|]). by apply not_elem_of_nil in Hs. }
  assert (Ew : wrap64 (2 ^ s) = 2 ^ s) by (apply wrap64_id; unfold in_u; lia).
  destruct (x <? 2 ^ s) eqn:Ex.
  - exists d. split; [|done]. apply (runs_run _ _ 1).
    eapply run_step; [reflexivity|by rewrite exec_jlt_imm, E6, Ew, Ex|]. by apply run_done.
  - eexists. split; [|by apply searching_shift; [|lia..]]. apply (runs_run _ _ 3).
    eapply run_step; [reflexivity|by rewrite exec_jlt_imm, E6, Ew, Ex|].
    bstep. bstep. by apply run_done.
Qed.

(** The search so far, of the value [v]: what is left of it has fewer than
    [n] bits, and its highest bit is [y] places below that of [v]. *)
Definition found (v n x y : Z) : Prop :=
  0 <= x < 2 ^ n /\ 0 <= y <= 64 - n /\ (v = 0 -> x = 0 /\ y = 0) /\
  (0 < v -> 0 < x /\ Z.log2 v = y + Z.log2 x).

Lemma found_skip v n s x y : found v n x y -> 0 <= s <= n -> x < 2 ^ s -> found v s x y.
Proof. intros (H1 & H2 & H3 & H4) Hs Hx. unfold found. split_and!; [lia..|done|done]. Qed.

Lemma found_shift v n s x y :
  found v n x y -> 0 <= s -> n = 2 * s -> 2 ^ s <= x -> found v s (Z.shiftr x s) (y + s).
Proof.
  intros (H1 & H2 & H3 & H4) Hs -> Hx. unfold found. rewrite Z.shiftr_div_pow2 by lia.
  assert (Hp : 0 < 2 ^ s) by (apply Z.pow_pos_nonneg; lia).
  assert (Hq : 1 <= x / 2 ^ s) by (apply Z.div_le_lower_bound; lia).
  split_and!; [lia| |lia|lia|intros Hv; specialize (H3 Hv); lia|].
  - apply Z.div_lt_upper_bound; [lia|]. rewrite <- Z.pow_add_r by lia.
    replace (s + s) with (2 * s) by lia. lia.
  - intros Hv. destruct (H4 Hv) as [H5 ->]. split; [lia|].
    rewrite <- Z.shiftr_div_pow2, Z.log2_shiftr by lia.
    assert (s <= Z.log2 x) by (apply Z.log2_le_pow2; lia). lia.
Qed.

(** One step of the search. *)
Lemma search_step v s d0 d x y :
  s ∈ [16; 8; 4; 2; 1] -> searching d0 x y d -> found v (2 * s) x y ->
  exists d' x' y', runs (qstep s) d d' /\ searching d0 x' y' d' /\ found v s x' y'.
Proof.
  intros Hs Hd Hf. pose proof Hf as (H1 & H2 & _).
  assert (Hb : 0 < s <= 16).
  { repeat (apply elem_of_cons in Hs as [->|Hs]; [by vm_compute|]). by apply not_elem_of_nil in Hs. }
  destruct (qstep_runs s d0 d x y Hs Hd) as (d' & Hr & Hd'); [lia|].
  destruct (x <? 2 ^ s) eqn:Ex; zbool.
  - exists d', x, y. split_and!; [done|done|]. apply (found_skip v (2 * s)); [done|lia|done].
  - exists d', (Z.shiftr x s), (y + s). split_and!; [done|done|].
    by apply (found_shift v (2 * s)); [|lia..].
Qed.

(** DTrace's power-of-two bucket: 63 for zero, 64 + k for [2^k .. 2^(k+1) - 1]. *)
Definition bucket (v : Z) : Z := if v =? 0 then 63 else 64 + Z.log2 v.

Definition search_head : list insn :=
  [Insn 0xb7 7 0 0 0; Insn 0xbf 5 6 0 0; Insn 0x77 5 0 0 32; Insn 0x15 5 0 2 0;
   Insn 0x07 7 0 0 32; Insn 0x77 6 0 0 32].

Definition search_tail : list insn :=
  [Insn 0xa5 6 0 1 1; Insn 0x07 7 0 0 1; Insn 0x07 7 0 0 63].

Lemma slots_quantize_bucket :
  slots quantize_bucket
  = search_head ++ qstep 16 ++ qstep 8 ++ qstep 4 ++ qstep 2 ++ qstep 1 ++ search_tail.
Proof. by vm_compute. Qed.

Lemma search_head_runs d v :
  reg d 6 = v -> in_u 64 v ->
  exists d' x y, runs search_head d d' /\ searching d x y d' /\ found v 32 x y.
Proof.
  intros Ev [Hv1 Hv2].
  assert (Hf : found v 64 v 0) by (unfold found; split_and!; intros; lia).
  assert (Hd : searching d v 0 (set 5 (Z.shiftr (reg d 6) 32) (set 5 (reg d 6) (set 7 0 d)))).
  { split_and!; [done|done|done|]. intros r H5 H6 H7. rewrite !reg_set.
    by destruct (Z.eqb_spec r 5), (Z.eqb_spec r 7). }
  assert (Hreg : (reg (set 5 (Z.shiftr (reg d 6) (wrap64 32 mod 64)) (set 5 (reg d 6)
    (set 7 (wrap64 0) d))) 5 =? wrap64 0) = (Z.shiftr v 32 =? 0)) by (by rewrite <- Ev).
  destruct (Z.shiftr v 32 =? 0) eqn:E.
  - eexists _, v, 0. split_and!; [|exact Hd|].
    + apply (runs_run _ _ 4). bstep. bstep. bstep.
      eapply run_step; [reflexivity|by rewrite exec_jeq_imm, Hreg|]. by apply run_done.
    + apply (found_skip v 64); [done|lia|]. zbool. rewrite Z.shiftr_div_pow2 in E by lia.
      destruct (Z.lt_ge_cases v (2 ^ 32)); [lia|].
      assert (1 <= v / 2 ^ 32) by (apply Z.div_le_lower_bound; lia). lia.
  - eexists _, (Z.shiftr v 32), (0 + 32). split_and!.
    2: { apply (searching_shift d _ v 0 32 Hd); lia. }
    + apply (runs_run _ _ 6). bstep. bstep. bstep.
      eapply run_step; [reflexivity|by rewrite exec_jeq_imm, Hreg|].
      bstep. bstep. by apply run_done.
    + apply (found_shift v 64); [done|lia|done|]. zbool. rewrite Z.shiftr_div_pow2 in E by lia.
      destruct (Z.lt_ge_cases v (2 ^ 32)); [|lia]. by rewrite Z.div_small in E by lia.
Qed.

Lemma search_tail_runs d0 d v x y :
  0 <= v -> searching d0 x y d -> found v 1 x y ->
  exists d', runs search_tail d d' /\ searching d0 x (bucket v) d'.
Proof.
  intros Hv (E6 & E7 & Em & Er) (H1 & H2 & H3 & H4). change (2 ^ 1) with 2 in H1. unfold bucket.
  assert (Hset : forall n, 0 <= n <= 64 -> searching d0 x (y + n)
    (set 7 (wrap64 (reg d 7 + n)) d)).
  { intros n Hn. rewrite E7, wrap64_id by (unfold in_u; lia). split_and!; [done|done|done|].
    intros r H5 H6 H7. rewrite reg_set. destruct (Z.eqb_spec r 7); [lia|]. by apply Er. }
  destruct (Z.eqb_spec v 0) as [E0|N0].
  - destruct (H3 E0) as [-> ->]. eexists. split; [|exact (Hset 63 ltac:(lia))].
    apply (runs_run _ _ 2).
    eapply run_step; [reflexivity|by rewrite exec_jlt_imm, E6|bstep; by apply run_done].
  - destruct H4 as [H4 H5]; [lia|]. assert (x = 1) as -> by lia. rewrite Z.log2_1 in H5.
    eexists. split.
    + apply (runs_run _ _ 3).
      eapply run_step; [reflexivity|by rewrite exec_jlt_imm, E6|bstep; bstep; by apply run_done].
    + rewrite H5. replace (64 + (y + 0)) with ((y + 1) + 63) by lia.
      change (wrap64 1) with 1. change (wrap64 63) with 63. rewrite E7.
      rewrite (wrap64_id (y + 1)), wrap64_id by (unfold in_u; lia).
      split_and!; [done|done|done|]. intros r R5 R6 R7. rewrite !reg_set.
      destruct (Z.eqb_spec r 7); [lia|]. by apply Er.
Qed.

(** The search computes the bucket of every 64-bit value. *)
Lemma quantize_bucket_runs d v :
  reg d 6 = v -> in_u 64 v ->
  exists d' x, runs (slots quantize_bucket) d d' /\ searching d x (bucket v) d'.
Proof.
  intros Ev Hv. rewrite slots_quantize_bucket.
  destruct (search_head_runs d v Ev Hv) as (d1 & x1 & y1 & R1 & S1 & F1).
  destruct (search_step v 16 d d1 x1 y1) as (d2 & x2 & y2 & R2 & S2 & F2); [apply (bool_decide_unpack _); by vm_compute|done|done|].
  destruct (search_step v 8 d d2 x2 y2) as (d3 & x3 & y3 & R3 & S3 & F3); [apply (bool_decide_unpack _); by vm_compute|done|done|].
  destruct (search_step v 4 d d3 x3 y3) as (d4 & x4 & y4 & R4 & S4 & F4); [apply (bool_decide_unpack _); by vm_compute|done|done|].
  destruct (search_step v 2 d d4 x4 y4) as (d5 & x5 & y5 & R5 & S5 & F5); [apply (bool_decide_unpack _); by vm_compute|done|done|].
  destruct (search_step v 1 d d5 x5 y5) as (d6 & x6 & y6 & R6 & S6 & F6); [apply (bool_decide_unpack _); by vm_compute|done|done|].
  destruct (search_tail_runs d d6 v x6 y6) as (d7 & R7 & S7); [apply Hv|done|done|].
  exists d7, x6. split; [|done]. repeat (eapply runs_app; [eassumption|]). done.
Qed.

(** *** The chain *)

(** What a quantize chain appends after its value. *)
Definition quantize_code (fd : Z) : list bytes :=
  [bpf_mov64_reg 6 0] ++ quantize_bucket
  ++ [bpf_mov64_reg 8 7; bpf_mov64_imm 0 0; bpf_stx_w 10 0 (-16)] ++ emit_lookup fd (-16)
  ++ [bpf_jeq_imm 0 0 6; bpf_jcc_imm 0xa5 8 NBUCKETS 1; bpf_mov64_imm 8 (NBUCKETS - 1);
      bpf_alu64_imm 0x67 8 3; bpf_insn 0x0f 0 8 0 0; bpf_mov64_imm 1 1; bpf_atomic_add 0 1 0]
  ++ epilogue.

Lemma extend_app l1 l2 a : extend l2 (extend l1 a) = extend (l1 ++ l2) a.
Proof. unfold extend. cbn [fst snd]. by rewrite concat_app, app_assoc. Qed.

Lemma emit_quantize_code dof acts agg s s1 :
  find_kind acts DTRACEAGG_QUANTIZE = Ret agg ->
  lower_difo_by_secidx dof (difo agg) s = (Ret tt, s1) ->
  emit_quantize_chain dof acts s
  = (Ret tt, with_out s1 (extend (quantize_code (agg_map_fake_fd s1)) (out s1))).
Proof.
  intros Hf Hd. unfold emit_quantize_chain.
  erewrite lower_bind_Ret; [|by rewrite Hf]. erewrite lower_bind_Ret; [|exact Hd].
  erewrite lower_bind_Ret; [|reflexivity]. erewrite lower_bind_Ret; [|reflexivity].
  erewrite lower_bind_Ret; [|reflexivity]. erewrite lower_bind_Ret; [|reflexivity].
  erewrite lower_bind_Ret; [|unfold bpf_jeq_imm; apply jump_over_emits].
  2: { repeat (apply list.Forall_cons_2; [apply whole_insn|]). apply list.Forall_nil_2. }
  unfold emits, emit, st_modify. cbn [out with_out agg_map_fake_fd]. rewrite !extend_app.
  do 3 f_equal.
Qed.

Definition after_bucket : list insn :=
  [Insn 0xbf 8 7 0 0; Insn 0xb7 0 0 0 0; Insn 0x63 10 0 (-16) 0].

Definition lookup_code (fd : Z) : list insn :=
  [Insn 0x18 1 1 0 (as_i32 fd); Insn 0 0 0 0 0; Insn 0xbf 2 10 0 0; Insn 0x07 2 0 0 (-16);
   Insn 0x85 0 0 0 1].

Definition count_code : list insn :=
  [Insn 0x15 0 0 6 0; Insn 0xa5 8 0 1 127; Insn 0xb7 8 0 0 126; Insn 0x67 8 0 0 3;
   Insn 0x0f 0 8 0 0; Insn 0xb7 1 0 0 1; Insn 0xdb 0 1 0 0].

Lemma slots_lookup fd : slots (emit_lookup fd (-16)) = lookup_code fd.
Proof.
  unfold emit_lookup, bpf_ld_map_fd. rewrite slots_wide.
  unfold bpf_mov64_reg, bpf_alu64_imm, bpf_call. by rewrite !slots_insn, slots_nil.
Qed.

Lemma slots_quantize_code fd :
  slots (quantize_code fd)
  = [Insn 0xbf 6 0 0 0] ++ slots quantize_bucket ++ after_bucket ++ lookup_code fd
    ++ count_code ++ [Insn 0xb7 0 0 0 0] ++ [Insn 0x95 0 0 0 0].
Proof.
  unfold quantize_code.
  assert (Hw : Forall whole quantize_bucket) by apply closed_frag, closed_quantize_bucket.
  assert (Hl : Forall whole (emit_lookup fd (-16))).
  { unfold emit_lookup. apply list.Forall_cons_2; [apply whole_app; apply whole_insn|].
    repeat (apply list.Forall_cons_2; [apply whole_insn|]). apply list.Forall_nil_2. }
  assert (H1 : Forall whole [bpf_mov64_reg 6 0]) by (constructor; [apply whole_insn|constructor]).
  assert (H2 : Forall whole [bpf_mov64_reg 8 7; bpf_mov64_imm 0 0; bpf_stx_w 10 0 (-16)])
    by (repeat (apply list.Forall_cons_2; [apply whole_insn|]); apply list.Forall_nil_2).
  rewrite (slots_app _ _ H1), (slots_app _ _ Hw), (slots_app _ _ H2), (slots_app _ _ Hl).
  rewrite slots_lookup. do 4 f_equal; by vm_compute.
Qed.

(** The count of bucket [i], clamped to the last, in the array at [a]. *)
Definition counted (a b : Z) (f : Z -> Z) : Z -> Z :=
  if a =? 0 then f
  else let p := a + 8 * Z.min b 126 in put p (wrap64 (word f p + 1)) f.

Lemma count_runs d a b :
  reg d 0 = a -> reg d 8 = b -> 0 <= a <= 2 ^ 64 - 1016 -> 0 <= b <= 127 ->
  exists d', runs count_code d d' /\ mem d' = counted a b (mem d).
Proof.
  intros E0 E8 Ha Hb. unfold counted. destruct (a =? 0) eqn:Ea.
  - exists d. split; [|done]. apply (runs_run _ _ 1).
    eapply run_step; [reflexivity|by rewrite exec_jeq_imm, E0; change (wrap64 0) with 0; rewrite Ea|].
    by apply run_done.
  - assert (Hp : forall i, 0 <= i <= 126 -> wrap64 (wrap64 (a + wrap64 (Z.shiftl i (wrap64 3 mod 64))) + 0)
      = a + 8 * i).
    { intros i Hi. change (wrap64 3 mod 64) with 3. rewrite Z.shiftl_mul_pow2 by lia.
      rewrite (wrap64_id (i * _)) by (unfold in_u; lia).
      rewrite Z.add_0_r, !wrap64_id by (rewrite ?wrap64_id; unfold in_u; lia). lia. }
    destruct (b <? 127) eqn:Eb; eexists; split.
    + apply (runs_run _ _ 6).
      eapply run_step; [reflexivity|by rewrite exec_jeq_imm, E0; change (wrap64 0) with 0; rewrite Ea|].
      eapply run_step; [reflexivity|by rewrite exec_jlt_imm, E8; change (wrap64 127) with 127; rewrite Eb|].
      bstep. bstep. bstep. bstep. by apply run_done.
    + cbn zeta. cbn [mem]. rewrite E0, E8. zbool. rewrite Hp by lia.
      by replace (Z.min b 126) with b by lia.
    + apply (runs_run _ _ 7).
      eapply run_step; [reflexivity|by rewrite exec_jeq_imm, E0; change (wrap64 0) with 0; rewrite Ea|].
      eapply run_step; [reflexivity|by rewrite exec_jlt_imm, E8; change (wrap64 127) with 127; rewrite Eb|].
      bstep. bstep. bstep. bstep. bstep. by apply run_done.
    + cbn zeta. cbn [mem]. rewrite E0. change (wrap64 126) with 126. zbool. rewrite Hp by lia.
      by replace (Z.min b 126) with 126 by lia.
Qed.

Lemma bucket_range v : in_u 64 v -> 63 <= bucket v <= 127.
Proof.
  intros [H1 H2]. unfold bucket. destruct (Z.eqb_spec v 0); [lia|].
  pose proof (Z.log2_nonneg v). assert (Z.log2 v < 64) by (apply Z.log2_lt_pow2; lia). lia.
Qed.

(** The map lookup helper: called with the map at [m] in r1 and in r2 the
    address [k] of the 32-bit key 0, it returns [a], and keeps r6 to r10 and
    the memory, as every eBPF helper of its kind does. *)
Definition lookup_returns (m k a : Z) : Prop :=
  forall d, reg d 1 = m -> reg d 2 = k -> load 4 (mem d) k = 0 ->
  exists d', call (Insn 0x85 0 0 0 1) d = Some d' /\ reg d' 0 = a /\
    (forall r, 6 <= r <= 10 -> reg d' r = reg d r) /\ mem d' = mem d.

Lemma run_call n code p d i d' r :
  fetch code p = Some i -> i_code i = 0x85 -> call i d = Some d' ->
  run call map_addr n code (p + 1, d') = r -> run call map_addr (S n) code (p, d) = r.
Proof.
  intros Hf Hi Hc Hr. eapply run_step; [exact Hf| |exact Hr]. unfold exec. by rewrite Hi, Hc.
Qed.

Lemma lookup_runs fd a d :
  let k := wrap64 (reg d 10 + -16) in
  lookup_returns (map_addr (as_i32 fd)) k a -> load 4 (mem d) k = 0 ->
  exists d', runs (lookup_code fd) d d' /\ reg d' 0 = a /\
    (forall r, 6 <= r <= 10 -> reg d' r = reg d r) /\ mem d' = mem d.
Proof.
  intros k Hc Hk. set (d3 := set 2 (wrap64 (reg d 10 + wrap64 (-16)))
    (set 2 (reg d 10) (set 1 (map_addr (as_i32 fd)) d))).
  destruct (Hc d3) as (d' & E & E0 & Er & Em); [done|apply Z.add_mod_idemp_r; lia|done|].
  exists d'. split_and!; [|done| |done].
  - apply (runs_run _ _ 4).
    eapply run_step; [reflexivity|reflexivity|]. bstep. bstep.
    eapply run_call; [reflexivity|reflexivity|exact E|]. by apply run_done.
  - intros r Hr. rewrite Er by done. unfold d3. rewrite !reg_set.
    destruct (Z.eqb_spec r 2), (Z.eqb_spec r 1); try lia.
Qed.

(** From the value in r0 to the return. *)
Lemma quantize_code_runs fd a d :
  lookup_returns (map_addr (as_i32 fd)) (wrap64 (reg d 10 + -16)) a ->
  in_u 64 (reg d 0) -> 0 <= a <= 2 ^ 64 - 1016 ->
  exists d', runs ([Insn 0xbf 6 0 0 0] ++ slots quantize_bucket ++ after_bucket ++ lookup_code fd
                    ++ count_code ++ [Insn 0xb7 0 0 0 0]) d d' /\ reg d' 0 = 0 /\
    mem d' = counted a (bucket (reg d 0)) (store 4 (wrap64 (reg d 10 + -16)) 0 (mem d)).
Proof.
  intros Hc Hv Ha.
  destruct (quantize_bucket_runs (set 6 (reg d 0) d) (reg d 0)) as (d1 & x & R1 & S1); [done|done|].
  destruct S1 as (_ & E7 & Em1 & Er1).
  set (d2 := Data (set_reg 0 0 (set_reg 8 (bucket (reg d 0)) (reg d1)))
    (store 4 (wrap64 (reg d 10 + -16)) 0 (mem d))).
  assert (R2 : runs after_bucket d1 d2).
  { apply (runs_run _ _ 3). bstep. bstep. eapply run_step; [reflexivity|apply exec_stx_w|].
    apply run_done_eq; [done|]. unfold d2. cbn [reg mem set set_reg Z.eqb Pos.eqb].
    rewrite E7, Em1, (Er1 10) by lia. done. }
  assert (E10 : reg d2 10 = reg d 10) by exact (Er1 10 ltac:(lia) ltac:(lia) ltac:(lia)).
  destruct (lookup_runs fd a d2) as (d3 & R3 & E0 & Er3 & Em3);
    [by rewrite E10|rewrite E10; unfold d2; cbn [mem]; by rewrite load_store_same|].
  destruct (count_runs d3 a (bucket (reg d 0))) as (d4 & R4 & Em4);
    [done|by rewrite Er3 by lia|done|pose proof (bucket_range _ Hv); lia|].
  exists (set 0 0 d4). split_and!; [|done|].
  - eapply runs_app; [|eapply runs_app; [exact R1|eapply runs_app; [exact R2|
      eapply runs_app; [exact R3|eapply runs_app; [exact R4|]]]]].
    + apply (runs_run _ _ 1). bstep. by apply run_done.
    + apply (runs_run _ _ 1). bstep. by apply run_done.
  - cbn [mem set]. by rewrite Em4, Em3.
Qed.

End Quantize.

(** C5: a quantize chain counts every value in its bucket.  After the value's
    own code, the chain appends a fixed program; wherever that lands, from any
    64-bit value in r0 it runs to an exit with r0 zero.  It looks the key 0,
    written on the stack, up in the chain's map; the only change to memory,
    beside that key, is that bucket 63 (for zero) or [64 + floor(log2 v)] of
    the array the lookup returned has gone up by one; the bucket of values from [2^63], past the end, is clamped to the
    last.  If the lookup returned null, nothing is counted. *)
Theorem quantize_chain_counts dof acts agg s s1
    (Hf : find_kind acts DTRACEAGG_QUANTIZE = Ret agg)
    (Hd : lower_difo_by_secidx dof (difo agg) s = (Ret tt, s1)) :
  exists l, emit_quantize_chain dof acts s = (Ret tt, with_out s1 (extend l (out s1))) /\
    forall call map_addr a d code b,
      lookup_returns call (map_addr (as_i32 (agg_map_fake_fd s1))) (wrap64 (reg d 10 + -16)) a ->
      in_u 64 (reg d 0) -> 0 <= a <= 2 ^ 64 - 1016 ->
      code_at code b (slots l) ->
      exists d' e, steps call map_addr code (b, d) (e, d') /\ halted code (e, d') /\ reg d' 0 = 0 /\
        mem d' = counted a (bucket (reg d 0)) (store 4 (wrap64 (reg d 10 + -16)) 0 (mem d)).
Proof.
  exists (quantize_code (agg_map_fake_fd s1)). split; [by apply emit_quantize_code with agg|].
  intros call map_addr a d code b Hc Hv Ha Hcode.
  destruct (quantize_code_runs call map_addr (agg_map_fake_fd s1) a d Hc Hv Ha) as (d' & R & E0 & Em).
  rewrite slots_quantize_code, !app_assoc in Hcode. rewrite !app_assoc in R.
  eexists d', _. split_and!; [apply R; by eapply code_at_app_l| |done|done].
  exists (Insn 0x95 0 0 0 0). split; [|done]. cbn [fst].
  rewrite <- (Z.add_0_r (b + _)). apply (code_at_fetch _ _ [Insn 0x95 0 0 0 0]); [|done].
  by eapply code_at_app_r.
Qed.
