(* ===== verification/DifSem.v ===== *)
(** The DIF machine: the reference semantics of the part of DIF that compiles
    to straight eBPF.

    Like Bpf.v this file is a specification, not a translation: the registers,
    the arithmetic, the comparisons and the built-in variables are those of
    DTrace's virtual machine (the opcodes of [mnemonic] in host/bifrost,
    src/lib.rs), for integer code without loads, strings or user variables.
    A division by zero is a fault, and a shift by 64 or more is undefined:
    neither has a next state.

    - [dif_step], [dif_run]: one instruction, and a bounded run to [ret];
    - [pure_prog]: the programs the correctness theorem of DifOk.v is about,
      decidable on the instructions alone. *)

From stdpp Require Import gmap.
From S2P Require Import Prelude Emit Bpf HostDof LowerState LowerDif.

Local Open Scope Z_scope.
Local Open Scope list_scope.

(** ** The machine *)

(** What a clause sees of the probe that fired: the literals of its integer
    table and the values of the built-in variables. *)
Record dif_env : Type := {
  table : list Z;
  e_task : Z;
  e_time : Z;
  e_pid : Z;
  e_tid : Z;
  e_cpu : Z;
  e_arg : Z -> Z
}.

(** The registers, and the operands of the last comparison. *)
Record dif_state : Type := {
  dreg : Z -> Z;
  dcmp : option (Z * Z)
}.

(** %r0 reads as zero. *)
Definition operand_of (D : dif_state) (r : Z) : Z := if r =? 0 then 0 else dreg D r.

Definition set_dreg (r v : Z) (D : dif_state) : dif_state :=
  {| dreg := set_reg r v (dreg D); dcmp := dcmp D |}.

Definition dif_alu (op a b : Z) : option Z :=
  match op with
  | 0x01 => Some (Z.lor a b)
  | 0x02 => Some (Z.lxor a b)
  | 0x03 => Some (Z.land a b)
  | 0x04 => if b <? 64 then Some (wrap64 (a * 2 ^ b)) else None
  | 0x05 => if b <? 64 then Some (a / 2 ^ b) else None
  | 0x06 => Some (wrap64 (a - b))
  | 0x07 => Some (wrap64 (a + b))
  | 0x08 => Some (wrap64 (a * b))
  | 0x0a => if b =? 0 then None else Some (a / b)
  | 0x0c => if b =? 0 then None else Some (a mod b)
  | 0x2e => if b <? 64 then Some (wrap64 (to_signed 64 a / 2 ^ b)) else None
  | _ => None
  end.

Definition dif_cond (op a b : Z) : option bool :=
  match op with
  | 0x12 => Some (a =? b)
  | 0x13 => Some (negb (a =? b))
  | 0x14 => Some (to_signed 64 b <? to_signed 64 a)
  | 0x15 => Some (b <? a)
  | 0x16 => Some (to_signed 64 b <=? to_signed 64 a)
  | 0x17 => Some (b <=? a)
  | 0x18 => Some (to_signed 64 a <? to_signed 64 b)
  | 0x19 => Some (a <? b)
  | 0x1a => Some (to_signed 64 a <=? to_signed 64 b)
  | 0x1b => Some (a <=? b)
  | _ => None
  end.

(** [curthread], [timestamp], [arg0] to [arg9], [pid], [tid] and [cpu]. *)
Definition dif_var (env : dif_env) (id : Z) : option Z :=
  if id =? 0x0100 then Some (e_task env)
  else if id =? 0x0101 then Some (e_time env)
  else if (0x0106 <=? id) && (id <=? 0x010f) then Some (e_arg env (id - 0x0106))
  else if id =? 0x0116 then Some (e_pid env)
  else if id =? 0x0117 then Some (e_tid env)
  else if id =? 0x0203 then Some (e_cpu env)
  else None.

Definition alu_ops : list Z := [0x01; 0x02; 0x03; 0x04; 0x05; 0x06; 0x07; 0x08; 0x0a; 0x0c; 0x2e].
Definition cond_ops : list Z := [0x12; 0x13; 0x14; 0x15; 0x16; 0x17; 0x18; 0x19; 0x1a; 0x1b].

Definition is_cond (i : DifInstr) : bool := bool_decide (op i ∈ cond_ops).

(** One instruction other than [ret]: the next program counter and state. *)
Definition dif_step (env : dif_env) (i : DifInstr) (pc : Z) (D : dif_state)
  : option (Z * dif_state) :=
  let a := operand_of D (r1 i) in
  let b := operand_of D (r2 i) in
  if bool_decide (op i ∈ alu_ops) then
    v ← dif_alu (op i) a b; Some (pc + 1, set_dreg (rd i) v D)
  else if is_cond i then
    '(x, y) ← dcmp D;
    c ← dif_cond (op i) x y;
    Some (if c : bool then branch_target i else pc + 1, D)
  else
    match op i with
    | 0x0d => Some (pc + 1, set_dreg (rd i) (Z.lxor a (2 ^ 64 - 1)) D)
    | 0x0e => Some (pc + 1, set_dreg (rd i) a D)
    | 0x0f => Some (pc + 1, {| dreg := dreg D; dcmp := Some (a, b) |})
    | 0x10 => Some (pc + 1, {| dreg := dreg D; dcmp := Some (a, 0) |})
    | 0x11 => Some (branch_target i, D)
    | 0x24 | 0x33 => Some (pc + 1, D)
    | 0x25 => v ← table env !! Z.to_nat (imm16 i); Some (pc + 1, set_dreg (rd i) v D)
    | 0x29 => v ← dif_var env (imm16 i); Some (pc + 1, set_dreg (rd i) v D)
    | _ => None
    end.

(** The value the program returns, from [pc] on. *)
Fixpoint dif_run (fuel : nat) (env : dif_env) (l : list DifInstr) (pc : Z) (D : dif_state)
  : option Z :=
  match fuel with
  | O => None
  | S fuel =>
      i ← (if 0 <=? pc then l !! Z.to_nat pc else None);
      if op i =? 0x23 then Some (operand_of D (rd i))
      else '(pc', D') ← dif_step env i pc D; dif_run fuel env l pc' D'
  end.

(** ** The programs considered *)

(** A register that is written, and one that is only read. *)
Definition writable (r : Z) : bool := (1 <=? r) && (r <=? 7).
Definition readable (r : Z) : bool := (0 <=? r) && (r <=? 7).

(** The comparison an instruction leaves for a branch right after it. *)
Definition next_cmp (i : DifInstr) : option PendingCmp :=
  match op i with
  | 0x0f => Some (CmpReg (r1 i) (r2 i))
  | 0x10 => Some (CmpTst (r1 i))
  | _ => None
  end.

(** An instruction of the fragment, after the comparison [c].  The second
    operand may be the destination only when the first is too: see
    [binary_into_second_operand]. *)
Definition pure_ins (table : list Z) (c : option PendingCmp) (i : DifInstr) : bool :=
  if bool_decide (op i ∈ alu_ops) then
    writable (rd i) && readable (r1 i) && readable (r2 i)
    && (negb (r2 i =? rd i) || (rd i =? r1 i))
  else if is_cond i then match c with Some _ => true | None => false end
  else
    match op i with
    | 0x0d | 0x0e => writable (rd i) && readable (r1 i)
    | 0x0f => readable (r1 i) && readable (r2 i)
    | 0x10 => readable (r1 i)
    | 0x11 | 0x24 | 0x33 => true
    | 0x23 => readable (rd i)
    | 0x25 => writable (rd i) && bool_decide (is_Some (table !! Z.to_nat (imm16 i)))
    | 0x29 => writable (rd i) && bool_decide (imm16 i ∈ [0x0100; 0x0101; 0x0106; 0x0107; 0x0108;
                0x0109; 0x010a; 0x010b; 0x010c; 0x010d; 0x010e; 0x010f; 0x0116; 0x0117; 0x0203])
    | _ => false
    end.

Fixpoint pure_list (table : list Z) (c : option PendingCmp) (l : list DifInstr) : bool :=
  match l with
  | [] => true
  | i :: l => pure_ins table c i && pure_list table (next_cmp i) l
  end.

(** The target of a branch. *)
Definition target_of (i : DifInstr) : option Z :=
  if is_cond i || (op i =? 0x11) then Some (branch_target i) else None.

(** A branch goes to an instruction that is not itself conditional. *)
Definition target_ok (l : list DifInstr) (i : DifInstr) : bool :=
  match target_of i with
  | None => true
  | Some t =>
      match (if 0 <=? t then l !! Z.to_nat t else None) with
      | Some j => negb (is_cond j)
      | None => false
      end
  end.

(** [ret] comes last, and only there. *)
Fixpoint ret_last (l : list DifInstr) : bool :=
  match l with
  | [] => true
  | [i] => op i =? 0x23
  | i :: l => negb (op i =? 0x23) && ret_last l
  end.

Definition pure_prog (table : list Z) (l : list DifInstr) : bool :=
  match l with [] => false | _ => true end
  && pure_list table None l && forallb (target_ok l) l && ret_last l.
