(* ===== verification/DifOk.v ===== *)
(** Lowered DIF computes what DIF computes: a program of [pure_prog], lowered
    in the value mode and fixed up, runs on the eBPF machine of Bpf.v to the
    value it returns on the DIF machine of DifSem.v. *)

From stdpp Require Import gmap.
From S2P Require Import Prelude Emit Bpf Verify CodeFrag HostDof LowerState LowerDif.
From S2P Require Import LowerOk LowerSem DifSem.

Local Open Scope Z_scope.
Local Open Scope list_scope.

(** ** What one instruction is lowered to *)

Definition binary_bytes (ebpf_op r1 r2 rd : Z) : list bytes :=
  (if r1 =? 0 then [bpf_mov64_imm rd 0] else if rd =? r1 then [] else [bpf_mov64_reg rd r1])
  ++ (if r2 =? 0 then [bpf_mov64_imm 0 0] else []) ++ [bpf_insn ebpf_op rd r2 0 0].

Definition mov_bytes (r1 rd : Z) : list bytes :=
  if r1 =? 0 then [bpf_mov64_imm rd 0] else if rd =? r1 then [] else [bpf_mov64_reg rd r1].

Definition saves (rs : list Z) : list bytes := map (fun r => bpf_stx_dw 10 r (ldgs_slot r)) rs.
Definition loads (rs : list Z) : list bytes := map (fun r => bpf_ldx_dw r 10 (ldgs_slot r)) rs.

Definition helper_bytes (id rd : Z) : list bytes :=
  saves call_clobbered ++ [bpf_call id] ++ loads (filter (fun r => r ≠ rd) call_clobbered)
  ++ [bpf_mov64_reg rd 0].

Definition low_half (rd : Z) : list bytes :=
  [bpf_alu64_imm BPF_LSH64_IMM rd 32; bpf_alu64_imm BPF_RSH64_IMM rd 32].

Definition var_bytes (rd id : Z) : list bytes :=
  if id =? 0x0100 then helper_bytes HELPER_GET_CURRENT_TASK rd
  else if id =? 0x0101 then helper_bytes HELPER_KTIME_GET_NS rd
  else if (0x0106 <=? id) && (id <=? 0x010f) then [bpf_ldx_dw rd CTX_REG ((id - 0x0106) * 8)]
  else if id =? 0x0116
  then helper_bytes HELPER_GET_CURRENT_PID_TGID rd ++ [bpf_alu64_imm BPF_RSH64_IMM rd 32]
  else if id =? 0x0117 then helper_bytes HELPER_GET_CURRENT_PID_TGID rd ++ low_half rd
  else helper_bytes HELPER_GET_SMP_PROCESSOR_ID rd ++ low_half rd.

Definition alu_code (op : Z) : Z :=
  match op with
  | 0x01 => BPF_OR64_REG | 0x02 => BPF_XOR64_REG | 0x03 => BPF_AND64_REG
  | 0x04 => BPF_LSH64_REG | 0x05 => BPF_RSH64_REG | 0x06 => BPF_SUB64_REG
  | 0x07 => BPF_ADD64_REG | 0x08 => BPF_MUL64_REG | 0x0a => BPF_DIV64_REG
  | 0x0c => BPF_MOD64_REG | _ => BPF_ARSH64_REG
  end.

Definition branch_bytes (op : Z) (c : PendingCmp) : bytes :=
  match branch_insn op c with Ret b => b | _ => [] end.

Definition cond_bytes (op : Z) (c : PendingCmp) : list bytes :=
  (if reads_dif_r0 c then [bpf_mov64_imm 0 0] else []) ++ [branch_bytes op c].

Definition piece (table : list Z) (c : option PendingCmp) (i : DifInstr) : list bytes :=
  if bool_decide (op i ∈ alu_ops) then binary_bytes (alu_code (op i)) (r1 i) (r2 i) (rd i)
  else if is_cond i then match c with Some c => cond_bytes (op i) c | None => [] end
  else
    match op i with
    | 0x0d => mov_bytes (r1 i) (rd i) ++ [bpf_insn 0xa7 (rd i) 0 0 (-1)]
    | 0x0e => mov_bytes (r1 i) (rd i)
    | 0x11 => [bpf_ja 0]
    | 0x23 => [ret_value (rd i)]
    | 0x25 => [bpf_ld_imm64 (rd i) (default 0 (table !! Z.to_nat (imm16 i)))]
    | 0x29 => var_bytes (rd i) (imm16 i)
    | _ => []
    end.

(** The pass after an instruction: the code and the branch it leaves. *)
Record lowered (s : LowerState) (l : list bytes) (i : DifInstr) (s' : LowerState) : Prop := {
  lo_out : out s' = extend l (out s);
  lo_offsets : insn_offsets s' = insn_offsets s;
  lo_pending : pending_branches s' = pending_branches s ++
    match target_of i with
    | Some t => [(len (body s) + len (concat (removelast l)), t)]
    | None => []
    end;
  lo_cmp : forall c, next_cmp i = Some c -> pending_cmp s' = Some c;
  lo_table : inttab s' = inttab s;
  lo_mode : ret_mode s' = ret_mode s
}.

(** *** The emitters as lists *)

Lemma extend_nil a : extend [] a = a.
Proof. destruct a as [b l]. unfold extend. cbn. by rewrite app_nil_r. Qed.

Lemma binary_extend o r1 r2 rd a : lower_binary o r1 r2 rd a = extend (binary_bytes o r1 r2 rd) a.
Proof.
  unfold lower_binary, binary_bytes.
  destruct (r1 =? 0), (rd =? r1), (r2 =? 0); by rewrite ?extend_app.
Qed.

Lemma mov_extend r1 rd a : lower_mov r1 rd a = extend (mov_bytes r1 rd) a.
Proof. unfold lower_mov, mov_bytes. by destruct (r1 =? 0), (rd =? r1); rewrite ?extend_nil. Qed.

Lemma helper_extend id rd a :
  rd <> 0 -> emit_helper_call_difo id rd a = extend (helper_bytes id rd) a.
Proof.
  intros H. unfold emit_helper_call_difo, move_result, restore, spill, helper_bytes, saves, loads.
  destruct (Z.eqb_spec rd 0); [done|]. rewrite !extend_app. by rewrite <- ?app_assoc.
Qed.

(** A pass that only emits. *)
Definition emits_list (l : list bytes) (m : lower_m unit) : Prop :=
  forall s, m s = (Ret tt, with_out s (extend l (out s))).

Lemma emits_list_emits l : emits_list l (emits l).
Proof. by intros s. Qed.

Lemma emits_list_emit l f : (forall a, f a = extend l a) -> emits_list l (emit f).
Proof. intros H s. unfold emit, st_modify. by rewrite H. Qed.

Lemma emits_list_seq l1 l2 m1 m2 :
  emits_list l1 m1 -> emits_list l2 m2 -> emits_list (l1 ++ l2) (m1 ;; m2).
Proof.
  intros H1 H2 s. unfold mbind, st_bind. rewrite H1, H2. cbn [with_out out].
  by rewrite extend_app.
Qed.

Lemma emits_list_ret : emits_list [] (mret tt).
Proof. intros s. rewrite extend_nil. by destruct s. Qed.

Lemma emits_var rd id :
  rd <> 0 ->
  id ∈ [0x0100; 0x0101; 0x0106; 0x0107; 0x0108; 0x0109; 0x010a; 0x010b; 0x010c; 0x010d; 0x010e;
        0x010f; 0x0116; 0x0117; 0x0203] ->
  emits_list (var_bytes rd id) (lower_ldgs rd id).
Proof.
  intros Hr Hid.
  repeat (apply elem_of_cons in Hid as [->|Hid]); [..|by apply not_elem_of_nil in Hid];
    unfold lower_ldgs, var_bytes; cbn -[helper_bytes low_half];
    repeat first [ apply emits_list_seq | apply emits_list_emits
                 | apply emits_list_emit; intros; by apply helper_extend ].
Qed.

Lemma lowered_emits l (m : lower_m unit) s i :
  m s = (Ret tt, with_out s (extend l (out s))) -> target_of i = None -> next_cmp i = None ->
  exists s', m s = (Ret tt, s') /\ lowered s l i s'.
Proof.
  intros H Ht Hc. rewrite H. eexists. split; [done|].
  split; try done; [by rewrite Ht, app_nil_r|by rewrite Hc].
Qed.

(** *** One instruction *)

Lemma lower_one_main i :
  (op i ∈ alu_ops ++ cond_ops ++ [0x0d; 0x0e; 0x0f; 0x10; 0x11; 0x23; 0x24; 0x25; 0x29; 0x33]) ->
  lower_one_state i = ((if writes_rd (op i) then stamp (rd i) RkUnknown else mret tt) ;; lower_main i).
Proof.
  intros H. unfold lower_one_state.
  repeat (apply elem_of_cons in H as [->|H]; [reflexivity|]). by apply not_elem_of_nil in H.
Qed.

Lemma pure_op table c i :
  pure_ins table c i = true ->
  op i ∈ alu_ops ++ cond_ops ++ [0x0d; 0x0e; 0x0f; 0x10; 0x11; 0x23; 0x24; 0x25; 0x29; 0x33].
Proof.
  unfold pure_ins, is_cond. destruct (bool_decide_reflect (op i ∈ alu_ops)) as [H|_].
  { intros _. apply elem_of_app. by left. }
  destruct (bool_decide_reflect (op i ∈ cond_ops)) as [H|_].
  { intros _. apply elem_of_app. right. apply elem_of_app. by left. }
  intros H. apply elem_of_app. right. apply elem_of_app. right. revert H.
  generalize (op i). intros o H.
  repeat (match goal with H : (match ?x with _ => _ end) = true |- _ => destruct x; try done end);
    apply (bool_decide_unpack _); by vm_compute.
Qed.

(** The stamp of a written register changes neither code nor branches. *)
Lemma lowered_after_stamp (w : bool) r k m s l i :
  (forall s0, inttab s0 = inttab s -> ret_mode s0 = ret_mode s ->
    pending_cmp s0 = pending_cmp s -> exists s', m s0 = (Ret tt, s') /\ lowered s0 l i s') ->
  exists s', ((if w then stamp r k else mret tt) ;; m) s = (Ret tt, s') /\ lowered s l i s'.
Proof.
  intros H. destruct w; [|by apply H].
  unfold mbind, st_bind, stamp, st_modify. set (s0 := with_scratch s _ _ _ _).
  destruct (H s0) as (s' & -> & [H1 H2 H3 H4 H5 H6]); [done..|]. exists s'.
  split; [done|]. by split.
Qed.

Lemma branch_insn_total o c : o ∈ cond_ops -> branch_insn o c = Ret (branch_bytes o c).
Proof.
  intros H. unfold branch_bytes.
  repeat (apply elem_of_cons in H as [->|H]; [by destruct c|]). by apply not_elem_of_nil in H.
Qed.

Lemma len_branch_bytes o c : len (concat (if reads_dif_r0 c then [bpf_mov64_imm 0 0] else []))
  = len (concat (removelast (cond_bytes o c))).
Proof. unfold cond_bytes. by destruct (reads_dif_r0 c). Qed.

Lemma lower_cond_lowered i c s :
  op i ∈ cond_ops -> pending_cmp s = Some c ->
  exists s', lower_branch i s = (Ret tt, s') /\ lowered s (cond_bytes (op i) c) i s'.
Proof.
  intros Ho Hc. unfold lower_branch. erewrite lower_bind_Ret; [|reflexivity].
  erewrite lower_bind_Ret; [|reflexivity].
  erewrite lower_bind_Ret; [|unfold st_lift; by rewrite Hc].
  assert (Ht : target_of i = Some (branch_target i)).
  { unfold target_of, is_cond. by rewrite bool_decide_eq_true_2. }
  assert (Hn : next_cmp i = None).
  { unfold next_cmp. clear -Ho. repeat (apply elem_of_cons in Ho as [->|Ho]; [done|]).
    by apply not_elem_of_nil in Ho. }
  destruct (reads_dif_r0 c) eqn:E.
  - erewrite lower_bind_Ret; [|reflexivity].
    erewrite lower_bind_Ret; [|unfold st_lift; by rewrite branch_insn_total].
    eexists. split; [reflexivity|]. unfold cond_bytes. rewrite E.
    split; cbn -[concat bpf_mov64_imm]; rewrite ?extend_app, ?Ht, ?Hn; try done.
    unfold body. cbn [out with_out with_branches extend fst]. by rewrite len_app.
  - erewrite lower_bind_Ret; [|reflexivity].
    erewrite lower_bind_Ret; [|unfold st_lift; by rewrite branch_insn_total].
    eexists. split; [reflexivity|]. unfold cond_bytes. rewrite E.
    split; cbn -[concat]; rewrite ?Ht, ?Hn; try done.
    unfold body. cbn [out with_branches concat]. by rewrite Z.add_0_r.
Qed.

(** Case on a goal's opcode once it is known to be in a list. *)
Ltac each_op H :=
  repeat (apply elem_of_cons in H as [H|H]; [|]); [..|by apply not_elem_of_nil in H].

Lemma alu_lowered table c i s :
  op i ∈ alu_ops ->
  exists s', lower_main i s = (Ret tt, s') /\ lowered s (piece table c i) i s'.
Proof.
  intros Ho. assert (E : piece table c i = binary_bytes (alu_code (op i)) (r1 i) (r2 i) (rd i)).
  { unfold piece. by rewrite bool_decide_eq_true_2. }
  rewrite E. clear E.
  apply lowered_emits;
    [|unfold target_of, is_cond; each_op Ho; by rewrite Ho|unfold next_cmp; each_op Ho; by rewrite Ho].
  unfold lower_main. each_op Ho; rewrite Ho; apply emits_list_emit; intros a; apply binary_extend.
Qed.

Lemma setx_lowered rd idx table s :
  inttab s = Some table -> is_Some (table !! Z.to_nat idx) ->
  lower_setx rd idx s
  = (Ret tt, with_out s (extend [bpf_ld_imm64 rd (default 0 (table !! Z.to_nat idx))] (out s))).
Proof.
  intros Ht [v Hv]. unfold lower_setx. erewrite lower_bind_Ret; [|reflexivity].
  erewrite lower_bind_Ret; [|unfold st_lift; by rewrite Ht].
  erewrite lower_bind_Ret; [|unfold st_lift; by rewrite Hv]. by rewrite Hv.
Qed.

Lemma ret_lowered rd s :
  ret_mode s = Predicate -> lower_ret rd s = (Ret tt, with_out s (extend [ret_value rd] (out s))).
Proof.
  intros Hm. unfold lower_ret. erewrite lower_bind_Ret; [|reflexivity]. by rewrite Hm.
Qed.

Lemma pure_lowered table c i s :
  pure_ins table c i = true -> inttab s = Some table -> ret_mode s = Predicate ->
  (forall x, c = Some x -> pending_cmp s = Some x) ->
  exists s', lower_one_state i s = (Ret tt, s') /\ lowered s (piece table c i) i s'.
Proof.
  intros Hp Ht Hm Hc. rewrite lower_one_main by (by eapply pure_op).
  apply lowered_after_stamp. intros s0 Et Em Ec. rewrite <- Et in Ht. rewrite <- Em in Hm.
  rewrite <- Ec in Hc. clear s Et Em Ec. rename s0 into s.
  destruct (decide (op i ∈ alu_ops)) as [Ha|Ha]; [by apply alu_lowered|].
  unfold pure_ins in Hp. unfold piece. rewrite bool_decide_eq_false_2 in * by done.
  destruct (is_cond i) eqn:Eic.
  { destruct c as [c|]; [|done].
    assert (Ho : op i ∈ cond_ops) by (unfold is_cond in Eic; by apply bool_decide_eq_true in Eic).
    assert (El : lower_main i = lower_branch i).
    { unfold lower_main. pose proof Ho as Ho'. each_op Ho'; by rewrite Ho'. }
    rewrite El. apply lower_cond_lowered; [done|auto]. }
  assert (Hop := pure_op table c i). unfold pure_ins in Hop.
  rewrite bool_decide_eq_false_2, Eic in Hop by done. specialize (Hop Hp).
  apply elem_of_app in Hop as [?|Hop]; [done|].
  apply elem_of_app in Hop as [Hop|Hop].
  { unfold is_cond in Eic. by apply bool_decide_eq_false in Eic. }
  assert (Htt : op i <> 0x11 -> target_of i = None).
  { intros Hne. unfold target_of. rewrite Eic. by destruct (Z.eqb_spec (op i) 0x11). }
  unfold lower_main.
  each_op Hop; rewrite Hop in Hp |- *; rewrite Hop in Htt; cbv iota in Hp |- *;
    try (specialize (Htt ltac:(done)));
    try (apply lowered_emits; [|done|unfold next_cmp; by rewrite Hop]).
  - apply emits_list_seq; [apply emits_list_emit; intros; apply mov_extend|apply emits_list_emits].
  - apply emits_list_emit; intros; apply mov_extend.
  - eexists. split; [reflexivity|]. split; cbn; rewrite ?Htt, ?extend_nil, ?app_nil_r; try done.
    intros x. unfold next_cmp. by rewrite Hop.
  - eexists. split; [reflexivity|]. split; cbn; rewrite ?Htt, ?extend_nil, ?app_nil_r; try done.
    intros x. unfold next_cmp. by rewrite Hop.
  - eexists. split; [reflexivity|]. split; cbn -[concat bpf_ja]; try done.
    + unfold target_of. rewrite Eic, Hop. cbn. by rewrite Z.add_0_r.
    + intros x. unfold next_cmp. by rewrite Hop.
  - by apply ret_lowered.
  - apply emits_list_ret.
  - apply andb_true_iff in Hp as [_ H2]. apply bool_decide_eq_true in H2. by apply setx_lowered.
  - apply andb_true_iff in Hp as [H1 H2]. apply emits_var; [|by apply bool_decide_eq_true in H2].
    unfold writable in H1. lia.
  - apply emits_list_ret.
Qed.

(** ** A section *)

(** The slots of an instruction and the target of its branch, the last slot. *)
Definition item : Type := list insn * option Z.

Fixpoint items (table : list Z) (c : option PendingCmp) (l : list DifInstr) : list item :=
  match l with
  | [] => []
  | i :: l => (slots (piece table c i), target_of i) :: items table (next_cmp i) l
  end.

Definition code_of_items (its : list item) : list insn := concat (map fst its).

(** The slots at which the items start, the first at [pos]. *)
Fixpoint starts_of (pos : Z) (its : list item) : list Z :=
  match its with
  | [] => []
  | it :: its => pos :: starts_of (pos + len it.1) its
  end.

Fixpoint pending_of (pos : Z) (its : list item) : list (Z * Z) :=
  match its with
  | [] => []
  | it :: its =>
      match it.2 with Some t => [(8 * (pos + len it.1 - 1), t)] | None => [] end
      ++ pending_of (pos + len it.1) its
  end.

Lemma code_of_items_cons it its : code_of_items (it :: its) = it.1 ++ code_of_items its.
Proof. done. Qed.

Lemma whole_list l : (forall b, b ∈ l -> exists c d s o m, b = bpf_insn c d s o m) -> Forall whole l.
Proof.
  intros H. apply list.Forall_forall. intros b Hb. destruct (H b Hb) as (c & d & s & o & m & ->).
  apply whole_insn.
Qed.

Ltac whole_tac :=
  repeat first
    [ apply list.Forall_nil_2 | apply list.Forall_app_2
    | apply list.Forall_cons_2; [first [apply whole_insn | apply whole_app; apply whole_insn]|] ].

Lemma helper_whole id rd : Forall whole (helper_bytes id rd).
Proof.
  unfold helper_bytes, saves, loads. repeat apply list.Forall_app_2; [| | |whole_tac].
  - whole_tac.
  - whole_tac.
  - apply whole_list. intros b (r & -> & _)%list_elem_of_fmap. do 5 eexists. reflexivity.
Qed.

Lemma var_whole rd id : Forall whole (var_bytes rd id).
Proof.
  unfold var_bytes, low_half.
  repeat case_match; first [apply helper_whole | solve [whole_tac] |
    apply list.Forall_app_2; [apply helper_whole|whole_tac]].
Qed.

Lemma branch_bytes_insn o c :
  o ∈ cond_ops -> exists k d r m, branch_bytes o c = bpf_insn k d r 0 m /\
    Z.land k 7 = 5 /\ k <> 0x85 /\ k <> 0x95 /\ 0 <= k < 256.
Proof.
  intros H. unfold branch_bytes.
  repeat (apply elem_of_cons in H as [->|H];
    [destruct c; do 4 eexists; (split; [reflexivity|by vm_compute])|]).
  by apply not_elem_of_nil in H.
Qed.

Lemma piece_whole table c i : Forall whole (piece table c i).
Proof.
  unfold piece, is_cond. destruct (bool_decide (op i ∈ alu_ops)).
  { unfold binary_bytes. destruct (r1 i =? 0), (rd i =? r1 i), (r2 i =? 0); whole_tac. }
  destruct (bool_decide_reflect (op i ∈ cond_ops)) as [H|_].
  { destruct c as [c|]; [|whole_tac]. unfold cond_bytes.
    destruct (branch_bytes_insn (op i) c H) as (k & d & r & m & -> & _).
    destruct (reads_dif_r0 c); whole_tac. }
  assert (Hm : Forall whole (mov_bytes (r1 i) (rd i)))
    by (unfold mov_bytes; destruct (r1 i =? 0), (rd i =? r1 i); whole_tac).
  unfold ret_value.
  repeat case_match; try apply var_whole; try apply list.Forall_app_2; try done; whole_tac.
Qed.

Lemma len_piece table c i : len (concat (piece table c i)) = 8 * len (slots (piece table c i)).
Proof. apply asm_len, concat_asm, piece_whole. Qed.

(** The last slot of a branch. *)
Lemma branch_piece table c i t :
  pure_ins table c i = true -> target_of i = Some t ->
  exists pre k d r m, piece table c i = pre ++ [bpf_insn k d r 0 m] /\ Forall whole pre.
Proof.
  unfold target_of, pure_ins, piece. destruct (bool_decide_reflect (op i ∈ alu_ops)) as [H|_].
  { unfold is_cond. each_op H; by rewrite H. }
  destruct (is_cond i) eqn:Ec.
  - intros Hc _. destruct c as [c|]; [|done]. unfold is_cond in Ec. apply bool_decide_eq_true in Ec.
    destruct (branch_bytes_insn (op i) c Ec) as (k & d & r & m & E & _).
    unfold cond_bytes. rewrite E. do 5 eexists. split; [done|]. destruct (reads_dif_r0 c); whole_tac.
  - destruct (Z.eqb_spec (op i) 0x11) as [->|]; [|done]. intros _ _.
    exists []. do 4 eexists. split; [reflexivity|done].
Qed.

Lemma branch_place table c i t :
  pure_ins table c i = true -> target_of i = Some t ->
  len (concat (removelast (piece table c i))) = 8 * (len (slots (piece table c i)) - 1).
Proof.
  intros Hp Ht. destruct (branch_piece table c i t Hp Ht) as (pre & k & d & r & m & E & Hw).
  rewrite E, removelast_last, slots_app, slots_insn, slots_nil by done.
  rewrite (asm_len _ _ (concat_asm _ Hw)), len_app. change (len [_]) with 1. lia.
Qed.

Lemma section_lowered table l : forall c s cs,
  pure_list table c l = true -> inttab s = Some table -> ret_mode s = Predicate ->
  (forall x, c = Some x -> pending_cmp s = Some x) -> asm (body s) cs ->
  exists s', st_forM l (fun ins => push_offset ;; lower_one_state ins) s = (Ret tt, s') /\
    asm (body s') (cs ++ code_of_items (items table c l)) /\
    insn_offsets s' = insn_offsets s ++ map (Z.mul 8) (starts_of (len cs) (items table c l)) /\
    pending_branches s' = pending_branches s ++ pending_of (len cs) (items table c l) /\
    kfunc_relocs s' = kfunc_relocs s.
Proof.
  induction l as [|i l IH]; intros c s cs Hp Ht Hm Hc Ha.
  { exists s. cbn. by rewrite !app_nil_r. }
  cbn [pure_list] in Hp. apply andb_true_iff in Hp as [Hi Hl].
  cbn [st_forM items starts_of pending_of map]. rewrite code_of_items_cons. cbn [fst snd].
  set (s0 := with_branches s (insn_offsets s ++ [len (body s)]) (pending_branches s) (pending_cmp s)).
  destruct (pure_lowered table c i s0 Hi Ht Hm Hc) as (s1 & E1 & [Lo Lf Lp Lc Lt Lm]).
  assert (Ha1 : asm (body s1) (cs ++ slots (piece table c i))).
  { unfold body. rewrite Lo. cbn [extend fst]. apply asm_app; [done|]. apply concat_asm, piece_whole. }
  destruct (IH (next_cmp i) s1 (cs ++ slots (piece table c i))) as (s' & E' & A' & F' & P' & K');
    [done|by rewrite Lt|by rewrite Lm|exact Lc|done|].
  exists s'. split_and!.
  - erewrite lower_bind_Ret; [exact E'|]. erewrite lower_bind_Ret; [exact E1|done].
  - by rewrite app_assoc.
  - rewrite F', Lf, len_app. cbn [insn_offsets s0 with_branches]. rewrite <- app_assoc.
    by rewrite (asm_len _ _ Ha).
  - rewrite P', Lp, len_app, <- app_assoc. cbn [pending_branches s0 with_branches].
    f_equal. f_equal. destruct (target_of i) as [t|] eqn:Et; [|done].
    rewrite (branch_place table c i t Hi Et). change (body s0) with (body s).
    rewrite (asm_len _ _ Ha). do 2 f_equal. lia.
  - rewrite K'. unfold kfunc_relocs. by rewrite Lo.
Qed.

(** *** Fixing the branches up *)

Definition patch_item (starts : list Z) (pos : Z) (it : item) : list insn :=
  match it.2 with
  | Some t =>
      alter (set_off (as_i16 (default 0 (starts !! Z.to_nat t) - (pos + len it.1))))
        (Nat.pred (length it.1)) it.1
  | None => it.1
  end.

(** The code with every branch at its distance; [starts] are the slots of the
    targets. *)
Fixpoint patched (starts : list Z) (pos : Z) (its : list item) : list insn :=
  match its with
  | [] => []
  | it :: its => patch_item starts pos it ++ patched starts (pos + len it.1) its
  end.

Definition item_ok (starts : list Z) (it : item) : Prop :=
  match it.2 with
  | Some t => it.1 <> [] /\ is_Some (starts !! Z.to_nat t)
  | None => True
  end.

Lemma len_patch_item starts pos it : len (patch_item starts pos it) = len it.1.
Proof. unfold patch_item. destruct it.2; [|done]. unfold len. by rewrite length_alter. Qed.

Lemma patch_items starts its : forall pre b,
  Forall (item_ok starts) its -> asm b (pre ++ code_of_items its) ->
  exists b', patch_branches (map (Z.mul 8) starts) (pending_of (len pre) its) b = Ret b' /\
    asm b' (pre ++ patched starts (len pre) its).
Proof.
  induction its as [|it its IH]; intros pre b Hok Ha; [by exists b|].
  apply list.Forall_cons in Hok as [Hi Hok]. rewrite code_of_items_cons in Ha.
  cbn [pending_of patched]. unfold patch_item, item_ok in *.
  destruct it as [f [t|]]; cbn [fst snd] in *.
  - destruct Hi as [Hne [o Ho]]. cbn [app patch_branches patch_branch].
    rewrite list_lookup_fmap, Ho. cbn [fmap option_fmap option_map ok_or default]. rewrite bind_Ret.
    assert (Hf : 1 <= len f) by (destruct f; [done|]; rewrite len_cons; pose_lens; lia).
    set (j := (length pre + Nat.pred (length f))%nat).
    assert (Ej : len pre + len f - 1 = Z.of_nat j) by (unfold j, len in *; lia).
    rewrite Ej.
    assert (Eo : Z.quot (8 * o - 8 * Z.of_nat j - 8) 8 = o - (len pre + len f)).
    { replace (8 * o - 8 * Z.of_nat j - 8) with ((o - Z.of_nat j - 1) * 8) by lia.
      rewrite Z.quot_mul by lia. lia. }
    rewrite Eo.
    destruct (decode_patch b _ j (as_i16 (o - (len pre + len f))) Ha) as (b' & -> & Ha').
    { rewrite !length_app. unfold j, len in *. lia. }
    rewrite bind_Ret.
    assert (Ei : as_i16 (as_i16 (o - (len pre + len f))) = as_i16 (o - (len pre + len f))).
    { apply as_i16_id. apply (to_signed_range 16). lia. }
    rewrite Ei in Ha'. unfold j in Ha'. rewrite alter_app_r in Ha'.
    rewrite alter_app_l in Ha' by (unfold len in *; lia).
    set (f' := alter _ _ f) in *.
    assert (Ef : len f' = len f) by (unfold f', len; by rewrite length_alter).
    rewrite app_assoc in Ha'. destruct (IH (pre ++ f') b' Hok Ha') as (b2 & E2 & A2).
    rewrite len_app, Ef in E2, A2. exists b2. split; [done|]. by rewrite app_assoc.
  - cbn [app]. rewrite app_assoc in Ha. destruct (IH (pre ++ f) b Hok Ha) as (b2 & E2 & A2).
    rewrite len_app in E2, A2. exists b2. split; [done|]. by rewrite app_assoc.
Qed.

(** ** Running the pieces *)

Lemma to_signed_pow w v : 0 < w -> to_signed w (v mod 2 ^ w) mod 2 ^ w = v mod 2 ^ w.
Proof.
  intros Hw. unfold to_signed. case_match; [by rewrite Z.mod_mod by lia|].
  rewrite <- (Z.mod_add _ 1) by lia. rewrite Z.mul_1_l, Z.sub_add. by rewrite Z.mod_mod by lia.
Qed.

Section Pieces.
Context (call : insn -> data -> option data) (map_addr : Z -> Z).

Lemma runs_nil d : runs call map_addr [] d d.
Proof. intros code b _. rewrite Z.add_0_r. reflexivity. Qed.

Lemma runs_cons b l d d1 d2 :
  whole b -> runs call map_addr (slots [b]) d d1 -> runs call map_addr (slots l) d1 d2 -> runs call map_addr (slots (b :: l)) d d2.
Proof.
  intros Hw H1 H2. change (b :: l) with ([b] ++ l).
  rewrite slots_app by (by constructor). by apply runs_app with d1.
Qed.

Lemma runs_slots_app l1 l2 d d1 d2 :
  Forall whole l1 -> runs call map_addr (slots l1) d d1 -> runs call map_addr (slots l2) d1 d2 -> runs call map_addr (slots (l1 ++ l2)) d d2.
Proof. intros Hw H1 H2. rewrite slots_app by done. by apply runs_app with d1. Qed.

(** One instruction that falls through. *)
Lemma runs_one k r s o m d d' :
  0 <= k < 256 -> 0 <= r < 16 -> 0 <= s < 16 -> - 2 ^ 15 <= o < 2 ^ 15 -> - 2 ^ 31 <= m < 2 ^ 31 ->
  exec call map_addr None (Insn k r s o m) d = Some (1, d') ->
  runs call map_addr (slots [bpf_insn k r s o m]) d d'.
Proof.
  intros Hk Hr Hs Ho Hm He. rewrite slots_insn, slots_nil.
  assert (E : Ins k r s o m = Insn k r s o m).
  { unfold Ins. by rewrite Z.mod_small, !land_15, as_i16_id, as_i32_id by lia. }
  rewrite E. apply (runs_run _ _ 1). eapply run_step; [reflexivity|exact He|]. by apply run_done.
Qed.

Lemma runs_mov_imm r m d :
  0 <= r < 16 -> - 2 ^ 31 <= m < 2 ^ 31 -> runs call map_addr (slots [bpf_mov64_imm r m]) d (set r (wrap64 m) d).
Proof. intros. apply runs_one; [done|done|done|done|done|apply exec_mov_imm]. Qed.

Lemma runs_mov_reg r s d :
  0 <= r < 16 -> 0 <= s < 16 -> runs call map_addr (slots [bpf_mov64_reg r s]) d (set r (reg d s) d).
Proof. intros. apply runs_one; [done|done|done|done|done|apply exec_mov_reg]. Qed.

Lemma runs_ldx r s o d :
  0 <= r < 16 -> 0 <= s < 16 -> - 2 ^ 15 <= o < 2 ^ 15 ->
  runs call map_addr (slots [bpf_ldx_dw r s o]) d (set r (word (mem d) (wrap64 (reg d s + o))) d).
Proof. intros. apply runs_one; [done|done|done|done|done|apply exec_ldx]. Qed.

Lemma runs_stx r s o d :
  0 <= r < 16 -> 0 <= s < 16 -> - 2 ^ 15 <= o < 2 ^ 15 ->
  runs call map_addr (slots [bpf_stx_dw r s o]) d
    (Data (reg d) (put (wrap64 (reg d r + o)) (reg d s) (mem d))).
Proof. intros. apply runs_one; [done|done|done|done|done|apply exec_stx]. Qed.

Lemma runs_alu_reg o r s v d :
  o ∈ alu_ops -> 0 <= r < 16 -> 0 <= s < 16 ->
  alu (Z.land (alu_code o) 0xf0) (reg d r) (reg d s) = Some v ->
  runs call map_addr (slots [bpf_insn (alu_code o) r s 0 0]) d (set r v d).
Proof.
  intros Ho Hr Hs Hv.
  assert (Hx : exec call map_addr None (Insn (alu_code o) r s 0 0) d = Some (1, set r v d)).
  { transitivity (v ← alu (Z.land (alu_code o) 0xf0) (reg d r) (reg d s); Some (1, set r v d));
      [|by rewrite Hv]. clear Hv. each_op Ho; rewrite Ho; reflexivity. }
  apply runs_one; [|done|done|done|done|done]. each_op Ho; rewrite Ho; by vm_compute.
Qed.

Lemma runs_shift r v d k :
  0 <= r < 16 -> 0 <= k < 64 -> reg d r = v ->
  runs call map_addr (slots [bpf_alu64_imm BPF_LSH64_IMM r k]) d (set r (wrap64 (v * 2 ^ k)) d) /\
  runs call map_addr (slots [bpf_alu64_imm BPF_RSH64_IMM r k]) d (set r (v / 2 ^ k) d).
Proof.
  intros Hr Hk <-.
  assert (Ek : wrap64 k mod 64 = k).
  { unfold wrap64. rewrite (Z.mod_small k (2 ^ 64)), Z.mod_small; lia. }
  split; apply runs_one; try done; try (split; lia).
  - by rewrite exec_shl_imm, Ek, Z.shiftl_mul_pow2 by lia.
  - by rewrite exec_shr_imm, Ek, Z.shiftr_div_pow2 by lia.
Qed.

Lemma runs_not r d :
  0 <= r < 16 -> runs call map_addr (slots [bpf_insn 0xa7 r 0 0 (-1)]) d (set r (Z.lxor (reg d r) (2 ^ 64 - 1)) d).
Proof. intros. apply runs_one; [done|done|done|done|done|reflexivity]. Qed.

Lemma runs_ld_imm64 r v d :
  0 <= r < 16 -> in_u 64 v -> runs call map_addr (slots [bpf_ld_imm64 r v]) d (set r v d).
Proof.
  intros Hr [H1 H2]. unfold bpf_ld_imm64. rewrite slots_wide, slots_nil.
  set (lo := as_i32 (as_i32 v)). set (hi := as_i32 (as_i32 (Z.shiftr v 32))).
  assert (E : [Ins BPF_LD_IMM_DW_LO r 0 0 (as_i32 v);
               Ins BPF_LD_IMM_DW_HI 0 0 0 (as_i32 (Z.shiftr v 32))]
    = [Insn 0x18 r 0 0 lo; Insn 0 0 0 0 hi]) by (unfold Ins; by rewrite land_15).
  rewrite E. apply (runs_run _ _ 1). eapply run_step; [reflexivity|reflexivity|].
  apply run_done_eq; [done|]. cbn [i_dst i_src i_imm Z.eqb].
  assert (Ev : lo mod 2 ^ 32 + 2 ^ 32 * (hi mod 2 ^ 32) = v); [|by rewrite Ev].
  unfold lo, hi, as_i32. rewrite !(to_signed_pow 32) by done. rewrite Z.shiftr_div_pow2 by lia.
  rewrite (Z.mod_small (v / 2 ^ 32)) by (split; [apply Z.div_pos; lia|apply Z.div_lt_upper_bound; lia]).
  pose proof (Z.div_mod v (2 ^ 32)). lia.
Qed.

(** *** Saving and restoring the caller-saved registers *)

Context (fp : Z) (Hfp : 512 <= fp < 2 ^ 64).

(** The addresses outside the program's stack frame. *)
Definition off_stack (x : Z) : Prop := x < fp - 512 \/ fp <= x.

Lemma frame_addr o : -512 <= o < 0 -> wrap64 (fp + o) = fp + o.
Proof. intros H. apply wrap64_id. unfold in_u. lia. Qed.

Definition arg_reg (r : Z) : Prop := 1 <= r <= 5.

Lemma saves_run rs : forall d,
  reg d 10 = fp -> Forall arg_reg rs -> NoDup rs -> (forall r, r ∈ rs -> in_u 64 (reg d r)) ->
  exists d', runs call map_addr (slots (saves rs)) d d' /\ reg d' = reg d /\
    (forall r, r ∈ rs -> word (mem d') (fp + ldgs_slot r) = reg d r) /\
    (forall r, arg_reg r -> r ∉ rs ->
      word (mem d') (fp + ldgs_slot r) = word (mem d) (fp + ldgs_slot r)) /\
    (forall x, off_stack x -> mem d' x = mem d x).
Proof.
  unfold ldgs_slot, LDGS_SCRATCH_BASE.
  induction rs as [|r rs IH]; intros d H10 Hrs Hnd Hu.
  { exists d. split_and!; [apply runs_nil|done| |done|done]. by intros r ?%not_elem_of_nil. }
  apply list.Forall_cons in Hrs as [Hr Hrs]. apply list.NoDup_cons in Hnd as [Hn Hnd].
  unfold arg_reg in Hr.
  set (a := fp + ldgs_slot r). set (d1 := Data (reg d) (put a (reg d r) (mem d))).
  destruct (IH d1) as (d' & R & Er & Hin & Hout & Hm);
    [done|done|done|intros q Hq; apply Hu; by right|].
  assert (Ha : a = fp + (-120 + (r - 1) * 8)) by done.
  exists d'. split_and!.
  - apply runs_cons with d1; [apply whole_insn| |exact R].
    unfold d1, a. rewrite <- (frame_addr (ldgs_slot r)) by (unfold ldgs_slot, LDGS_SCRATCH_BASE; lia).
    rewrite <- H10. apply runs_stx; unfold ldgs_slot, LDGS_SCRATCH_BASE; lia.
  - by rewrite Er.
  - intros q [->|Hq]%elem_of_cons; [|by apply Hin].
    rewrite (Hout r Hr Hn), <- Ha. cbn [mem d1]. apply word_put. apply Hu, list_elem_of_here.
  - intros q Hq Hqn. apply not_elem_of_cons in Hqn as [Hne Hqn]. rewrite (Hout q Hq Hqn).
    cbn [mem d1]. apply word_put_other. unfold arg_reg in Hq. lia.
  - intros x Hx. rewrite (Hm x Hx). cbn [mem d1]. apply store_other. unfold off_stack in Hx. lia.
Qed.

Lemma loads_run rs : forall d,
  reg d 10 = fp -> Forall arg_reg rs ->
  exists d', runs call map_addr (slots (loads rs)) d d' /\ mem d' = mem d /\
    (forall r, r ∈ rs -> reg d' r = word (mem d) (fp + ldgs_slot r)) /\
    (forall r, r ∉ rs -> reg d' r = reg d r).
Proof.
  induction rs as [|r rs IH]; intros d H10 Hrs.
  { exists d. split_and!; [apply runs_nil|done| |done]. by intros r ?%not_elem_of_nil. }
  apply list.Forall_cons in Hrs as [Hr Hrs]. unfold arg_reg in Hr.
  set (d1 := set r (word (mem d) (fp + ldgs_slot r)) d).
  destruct (IH d1) as (d' & R & Em & Hin & Hout); [|done|].
  { unfold d1. rewrite reg_set. by destruct (Z.eqb_spec 10 r); [lia|]. }
  exists d'. split_and!.
  - apply runs_cons with d1; [apply whole_insn| |exact R].
    unfold d1. rewrite <- (frame_addr (ldgs_slot r)) by (unfold ldgs_slot, LDGS_SCRATCH_BASE; lia).
    rewrite <- H10. apply runs_ldx; unfold ldgs_slot, LDGS_SCRATCH_BASE; lia.
  - done.
  - intros q Hq. destruct (decide (q ∈ rs)) as [Hi|Hi]; [by rewrite Hin|].
    apply elem_of_cons in Hq as [->|?]; [|done]. rewrite Hout by done. unfold d1.
    by rewrite reg_set, Z.eqb_refl.
  - intros q Hq. apply not_elem_of_cons in Hq as [Hne Hq]. rewrite Hout by done. unfold d1.
    rewrite reg_set. by destruct (Z.eqb_spec q r).
Qed.

(** The only effects on what the program can see: [v] in [rd], and the stack. *)
Record wrote (rd v : Z) (d d' : data) : Prop := {
  wr_rd : reg d' rd = v;
  wr_regs : forall r, 1 <= r <= 10 -> r <> rd -> reg d' r = reg d r;
  wr_mem : forall x, off_stack x -> mem d' x = mem d x
}.

(** A helper that answers [v] in r0 and keeps r6 to r10 and the memory. *)
Definition helper_answers (id v : Z) : Prop :=
  forall d, exists d', call (Insn 0x85 0 0 0 id) d = Some d' /\ reg d' 0 = v /\
    (forall r, 6 <= r <= 10 -> reg d' r = reg d r) /\ mem d' = mem d.

Lemma clobbered_spec r : r ∈ call_clobbered <-> 1 <= r <= 5.
Proof.
  unfold call_clobbered. rewrite !elem_of_cons. split; [|lia].
  intros [?|[?|[?|[?|[?|[]%not_elem_of_nil]]]]]; lia.
Qed.

Lemma helper_runs id v rd d :
  0 <= id < 2 ^ 31 -> helper_answers id v -> 1 <= rd <= 7 -> reg d 10 = fp ->
  (forall r, 1 <= r <= 5 -> in_u 64 (reg d r)) ->
  exists d', runs call map_addr (slots (helper_bytes id rd)) d d' /\ wrote rd v d d'.
Proof.
  intros Hid Hh Hrd H10 Hu.
  assert (Hcc : Forall arg_reg call_clobbered) by (repeat constructor; done).
  destruct (saves_run call_clobbered d) as (d1 & R1 & E1 & Hin & _ & Hm1); [done|done| | |].
  { apply (bool_decide_unpack _); by vm_compute. }
  { intros r Hr. by apply Hu, clobbered_spec. }
  destruct (Hh d1) as (d2 & C2 & E0 & E2 & Em2).
  destruct (loads_run (filter (fun r => r ≠ rd) call_clobbered) d2) as (d3 & R3 & Em3 & Hl & Hnl).
  { rewrite E2, E1 by lia. done. }
  { apply list.Forall_forall. intros r [_ Hr]%list_elem_of_filter.
    rewrite list.Forall_forall in Hcc. by apply Hcc. }
  exists (set rd (reg d3 0) d3). split.
  - unfold helper_bytes.
    apply runs_slots_app with d1; [unfold saves; whole_tac|exact R1|].
    apply runs_cons with d2; [apply whole_insn| |].
    { unfold bpf_call. rewrite slots_insn, slots_nil.
      assert (E : Ins BPF_CALL 0 0 0 id = Insn 0x85 0 0 0 id).
      { unfold Ins. by rewrite as_i32_id by lia. }
      rewrite E. apply (runs_run _ _ 1).
      eapply run_call; [reflexivity|reflexivity|exact C2|by apply run_done]. }
    apply runs_slots_app with d3; [|exact R3|apply runs_mov_reg; lia].
    apply whole_list. intros b (r & -> & _)%list_elem_of_fmap. do 5 eexists. reflexivity.
  - assert (H0 : reg d3 0 = v).
    { rewrite Hnl; [done|]. intros [_ Hi%clobbered_spec]%list_elem_of_filter. lia. }
    split.
    + by rewrite reg_set, Z.eqb_refl.
    + intros r Hr Hne. rewrite reg_set. destruct (Z.eqb_spec r rd); [done|].
      destruct (decide (r ∈ call_clobbered)) as [Hc|Hc].
      * rewrite Hl by (by apply list_elem_of_filter). rewrite Em2. by apply Hin.
      * rewrite Hnl by (by intros [_ ?]%list_elem_of_filter). rewrite E2, E1; [done|].
        rewrite clobbered_spec in Hc. lia.
    + intros x Hx. cbn [mem set]. rewrite Em3, Em2. by apply Hm1.
Qed.

(** *** Moves and arithmetic *)

(** What %r reads as. *)
Definition source (d : data) (r : Z) : Z := if r =? 0 then 0 else reg d r.

Lemma mov_runs r1 rd d :
  0 <= r1 <= 7 -> 1 <= rd <= 7 ->
  exists d', runs call map_addr (slots (mov_bytes r1 rd)) d d' /\ reg d' rd = source d r1 /\
    (forall r, r <> rd -> reg d' r = reg d r) /\ mem d' = mem d.
Proof.
  intros H1 Hd. unfold mov_bytes, source.
  assert (Hs : forall v, reg (set rd v d) rd = v /\
    (forall r, r <> rd -> reg (set rd v d) r = reg d r) /\ mem (set rd v d) = mem d).
  { intros v. split_and!; [by rewrite reg_set, Z.eqb_refl| |done].
    intros r Hr. rewrite reg_set. by destruct (Z.eqb_spec r rd). }
  destruct (Z.eqb_spec r1 0) as [->|Hn].
  { eexists. split; [apply runs_mov_imm; lia|apply Hs]. }
  destruct (Z.eqb_spec rd r1) as [->|Hne].
  { exists d. split_and!; [apply runs_nil|done..]. }
  eexists. split; [apply runs_mov_reg; lia|apply Hs].
Qed.

Lemma alu_agrees o a b v :
  dif_alu o a b = Some v -> 0 <= b -> alu (Z.land (alu_code o) 0xf0) a b = Some v.
Proof.
  intros Hv Hb.
  assert (Ho : o ∈ alu_ops).
  { unfold dif_alu in Hv.
    repeat (match goal with H : (match ?x with _ => _ end) = Some _ |- _ => destruct x; try done end);
    apply (bool_decide_unpack _); by vm_compute. }
  assert (Es : (b <? 64) = true -> b mod 64 = b).
  { intros H. apply Z.mod_small. lia. }
  each_op Ho; rewrite Ho in Hv |- *; unfold dif_alu in Hv;
    (match goal with |- alu ?k _ _ = _ =>
       let k' := eval vm_compute in k in change k with k' end);
    unfold alu; try exact Hv.
  - destruct (b <? 64) eqn:E; [|done]. by rewrite Es, Z.shiftl_mul_pow2.
  - destruct (b <? 64) eqn:E; [|done]. by rewrite Es, Z.shiftr_div_pow2.
  - by destruct (b =? 0).
  - by destruct (b =? 0).
  - destruct (b <? 64) eqn:E; [|done]. by rewrite Es, Z.shiftr_div_pow2.
Qed.

Lemma binary_runs o r1 r2 rd v d :
  o ∈ alu_ops -> 0 <= r1 <= 7 -> 0 <= r2 <= 7 -> 1 <= rd <= 7 -> (r2 <> rd \/ rd = r1) ->
  dif_alu o (source d r1) (source d r2) = Some v -> 0 <= source d r2 ->
  exists d', runs call map_addr (slots (binary_bytes (alu_code o) r1 r2 rd)) d d' /\ wrote rd v d d'.
Proof.
  intros Ho H1 H2 Hd Hal Hv Hb. apply alu_agrees in Hv; [|done].
  destruct (mov_runs r1 rd d H1 Hd) as (d1 & R1 & E1 & Er1 & Em1).
  assert (Hz : exists d2, runs call map_addr
    (slots ((if r2 =? 0 then [bpf_mov64_imm 0 0] else []) : list bytes)) d1 d2 /\
    reg d2 r2 = source d r2 /\ (forall r, r <> 0 -> reg d2 r = reg d1 r) /\ mem d2 = mem d1).
  { unfold source. destruct (Z.eqb_spec r2 0) as [->|Hn].
    - eexists. split; [by apply runs_mov_imm|]. split_and!; [done| |done].
      intros r Hr. rewrite reg_set. by destruct (Z.eqb_spec r 0).
    - exists d1. split_and!; [apply runs_nil| |done|done].
      destruct (decide (r2 = rd)) as [->|Hne]; [|by apply Er1].
      destruct Hal as [?|<-]; [done|]. rewrite E1. unfold source. by destruct (Z.eqb_spec rd 0). }
  destruct Hz as (d2 & R2 & E2 & Er2 & Em2).
  exists (set rd v d2). split.
  - unfold binary_bytes. fold (mov_bytes r1 rd).
    apply runs_slots_app with d1; [|exact R1|].
    { unfold mov_bytes. destruct (r1 =? 0), (rd =? r1); whole_tac. }
    apply runs_slots_app with d2; [|exact R2|].
    { destruct (r2 =? 0); whole_tac. }
    apply runs_alu_reg; [done|lia|lia|]. rewrite E2, Er2, E1 by lia. exact Hv.
  - split.
    + by rewrite reg_set, Z.eqb_refl.
    + intros r Hr Hne. rewrite reg_set. destruct (Z.eqb_spec r rd); [done|].
      by rewrite Er2, Er1 by lia.
    + intros x Hx. cbn [mem set]. by rewrite Em2, Em1.
Qed.

(** *** The built-in variables *)

Context (env : dif_env) (ctx rb : Z) (m0 : Z -> Z).

(** The probe context [ctx] in r8 holds the arguments, the helpers answer the
    other variables, and the literals are 64-bit words. *)
Record env_ok : Prop := {
  eo_table : Forall (in_u 64) (table env);
  eo_task : helper_answers HELPER_GET_CURRENT_TASK (e_task env) /\ in_u 64 (e_task env);
  eo_time : helper_answers HELPER_KTIME_GET_NS (e_time env) /\ in_u 64 (e_time env);
  eo_ids : helper_answers HELPER_GET_CURRENT_PID_TGID (e_pid env * 2 ^ 32 + e_tid env) /\
    in_u 32 (e_pid env) /\ in_u 32 (e_tid env);
  eo_cpu : helper_answers HELPER_GET_SMP_PROCESSOR_ID (e_cpu env) /\ in_u 32 (e_cpu env);
  eo_ctx : 0 <= ctx <= 2 ^ 64 - 80 /\ (ctx + 80 <= fp - 512 \/ fp <= ctx);
  eo_arg : forall k, 0 <= k < 10 -> word m0 (ctx + 8 * k) = e_arg env k
}.

(** The eBPF machine in step with the DIF machine. *)
Record agrees (D : dif_state) (d : data) : Prop := {
  ag_regs : forall r, 1 <= r <= 7 -> reg d r = dreg D r;
  ag_range : forall r, 1 <= r <= 7 -> in_u 64 (reg d r);
  ag_ctx : reg d CTX_REG = ctx;
  ag_rb : reg d RB_PTR_REG = rb;
  ag_fp : reg d 10 = fp;
  ag_mem : forall x, off_stack x -> mem d x = m0 x
}.

Lemma source_operand D d r : agrees D d -> 0 <= r <= 7 -> source d r = operand_of D r.
Proof.
  intros [H _ _ _ _ _] Hr. unfold source, operand_of. destruct (Z.eqb_spec r 0); [done|].
  apply H. lia.
Qed.

Lemma source_range D d r : agrees D d -> 0 <= r <= 7 -> in_u 64 (source d r).
Proof.
  intros [_ H _ _ _ _] Hr. unfold source. destruct (Z.eqb_spec r 0); [unfold in_u; lia|].
  apply H. lia.
Qed.

Lemma agrees_wrote D d d' rd v :
  agrees D d -> wrote rd v d d' -> 1 <= rd <= 7 -> in_u 64 v -> agrees (set_dreg rd v D) d'.
Proof.
  intros [A1 A2 A3 A3' A4 A5] [W1 W2 W3] Hd Hv. split.
  - intros r Hr. cbn [set_dreg dreg]. unfold set_reg. destruct (Z.eqb_spec r rd) as [->|Hne]; [done|].
    rewrite W2 by lia. by apply A1.
  - intros r Hr. destruct (decide (r = rd)) as [->|Hne]; [by rewrite W1|].
    rewrite W2 by lia. by apply A2.
  - unfold CTX_REG in *. by rewrite W2 by lia.
  - unfold RB_PTR_REG in *. by rewrite W2 by lia.
  - by rewrite W2 by lia.
  - intros x Hx. rewrite W3 by done. by apply A5.
Qed.

(** A second write to the same register. *)
Lemma wrote_set rd v v' d d' : wrote rd v d d' -> wrote rd v' d (set rd v' d').
Proof.
  intros [W1 W2 W3]. split.
  - by rewrite reg_set, Z.eqb_refl.
  - intros r Hr Hne. rewrite reg_set. destruct (Z.eqb_spec r rd); [done|]. by apply W2.
  - done.
Qed.

Lemma wrote_refl rd v d : wrote rd v d (set rd v d).
Proof. by apply (wrote_set rd (reg d rd) v d d). Qed.

(** The low 32 bits of a result. *)
Lemma low_half_runs rd v d d' :
  1 <= rd <= 7 -> wrote rd v d d' -> in_u 64 v ->
  exists d2, runs call map_addr (slots (low_half rd)) d' d2 /\ wrote rd (v mod 2 ^ 32) d d2.
Proof.
  intros Hd Hw Hv. destruct (runs_shift rd v d' 32) as [R1 _]; [lia|lia|apply Hw|].
  set (v1 := wrap64 (v * 2 ^ 32)) in *. set (d1 := set rd v1 d') in *.
  destruct (runs_shift rd v1 d1 32) as [_ R2]; [lia|lia|by unfold d1; rewrite reg_set, Z.eqb_refl|].
  assert (E : v1 / 2 ^ 32 = v mod 2 ^ 32).
  { unfold v1, wrap64. change (2 ^ 64) with (2 ^ 32 * 2 ^ 32).
    rewrite Z.mul_mod_distr_r by lia. by rewrite Z.div_mul by lia. }
  rewrite E in R2. eexists. split; [|eapply wrote_set, wrote_set, Hw].
  unfold low_half. eapply runs_cons; [apply whole_insn|exact R1|exact R2].
Qed.

Lemma var_runs D d rd id v :
  env_ok -> agrees D d -> 1 <= rd <= 7 ->
  id ∈ [0x0100; 0x0101; 0x0106; 0x0107; 0x0108; 0x0109; 0x010a; 0x010b; 0x010c; 0x010d; 0x010e;
        0x010f; 0x0116; 0x0117; 0x0203] ->
  dif_var env id = Some v ->
  in_u 64 v /\
  exists d', runs call map_addr (slots (var_bytes rd id)) d d' /\ wrote rd v d d'.
Proof.
  intros [_ [K1 U1] [K2 U2] (K3 & U3 & U4) [K4 U5] [Hc Hcs] Ha] Hag Hd Hid Hv.
  assert (Hh : forall h w, 0 <= h < 2 ^ 31 -> helper_answers h w ->
    exists d', runs call map_addr (slots (helper_bytes h rd)) d d' /\ wrote rd w d d').
  { intros h w Hh Hw. apply helper_runs; [done|done|done|apply Hag|].
    intros r Hr. apply Hag. lia. }
  assert (Harg : forall k, 0 <= k < 10 -> dif_var env (0x0106 + k) = Some v ->
    in_u 64 v /\ exists d', runs call map_addr (slots [bpf_ldx_dw rd CTX_REG (k * 8)]) d d' /\
      wrote rd v d d').
  { intros k Hk Hdv. assert (Ev : v = e_arg env k).
    { unfold dif_var in Hdv.
      destruct (Z.eqb_spec (0x0106 + k) 0x0100); [lia|].
      destruct (Z.eqb_spec (0x0106 + k) 0x0101); [lia|].
      replace ((0x0106 <=? 0x0106 + k) && (0x0106 + k <=? 0x010f)) with true in Hdv by lia.
      injection Hdv as <-. f_equal. lia. }
    rewrite Ev, <- (Ha k) by done. split; [apply word_range|].
    assert (Ew : word m0 (ctx + 8 * k) = word (mem d) (wrap64 (reg d CTX_REG + k * 8))).
    { rewrite (ag_ctx _ _ Hag), wrap64_id by (unfold in_u; lia).
      replace (ctx + k * 8) with (ctx + 8 * k) by lia. apply load_ext. intros x Hx. symmetry.
      apply Hag. unfold off_stack. lia. }
    rewrite Ew. eexists. split; [apply runs_ldx; unfold CTX_REG; lia|apply wrote_refl]. }
  unfold in_u in *.
  repeat (apply elem_of_cons in Hid as [->|Hid]); [..|by apply not_elem_of_nil in Hid];
    try (first [ exact (Harg 0 ltac:(lia) Hv) | exact (Harg 1 ltac:(lia) Hv)
               | exact (Harg 2 ltac:(lia) Hv) | exact (Harg 3 ltac:(lia) Hv)
               | exact (Harg 4 ltac:(lia) Hv) | exact (Harg 5 ltac:(lia) Hv)
               | exact (Harg 6 ltac:(lia) Hv) | exact (Harg 7 ltac:(lia) Hv)
               | exact (Harg 8 ltac:(lia) Hv) | exact (Harg 9 ltac:(lia) Hv) ]);
    injection Hv as <-; (split; [lia|]).
  - by apply (Hh HELPER_GET_CURRENT_TASK).
  - by apply (Hh HELPER_KTIME_GET_NS).
  - destruct (Hh HELPER_GET_CURRENT_PID_TGID _ ltac:(done) K3) as (d1 & R1 & W1).
    destruct (runs_shift rd _ d1 32 ltac:(lia) ltac:(lia) (wr_rd _ _ _ _ W1)) as [_ R2].
    rewrite Z.div_add_l, Z.div_small, Z.add_0_r in R2 by lia.
    eexists. split; [|eapply wrote_set, W1].
    eapply runs_slots_app; [apply helper_whole|exact R1|exact R2].
  - destruct (Hh HELPER_GET_CURRENT_PID_TGID _ ltac:(done) K3) as (d1 & R1 & W1).
    destruct (low_half_runs rd _ d d1 Hd W1) as (d2 & R2 & W2); [unfold in_u; lia|].
    rewrite Z.add_comm, Z.mod_add, Z.mod_small in W2 by lia.
    exists d2. split; [|done]. eapply runs_slots_app; [apply helper_whole|exact R1|exact R2].
  - destruct (Hh HELPER_GET_SMP_PROCESSOR_ID _ ltac:(done) K4) as (d1 & R1 & W1).
    destruct (low_half_runs rd _ d d1 Hd W1) as (d2 & R2 & W2); [unfold in_u; lia|].
    rewrite Z.mod_small in W2 by lia.
    exists d2. split; [|done]. eapply runs_slots_app; [apply helper_whole|exact R1|exact R2].
Qed.

(** *** An instruction that does not branch *)

Lemma in_u_lxor w a b : 0 < w -> in_u w a -> in_u w b -> in_u w (Z.lxor a b).
Proof.
  intros Hw Ha Hb. destruct (in_u_lor w a b Hw Ha Hb) as [_ Hl]. unfold in_u in *.
  assert (0 <= Z.lxor a b) by (apply Z.lxor_nonneg; lia). split; [done|].
  eapply Z.le_lt_trans; [|exact Hl].
  apply Z.ldiff_le; [apply Z.lor_nonneg; lia|].
  apply Z.bits_inj'. intros n Hn. rewrite Z.ldiff_spec, Z.lxor_spec, Z.lor_spec, Z.bits_0.
  by destruct (Z.testbit a n), (Z.testbit b n).
Qed.

Lemma in_u_land w a b : in_u w a -> in_u w b -> in_u w (Z.land a b).
Proof.
  unfold in_u. intros Ha Hb.
  assert (Z.land a b <= a); [|split; [apply Z.land_nonneg; lia|lia]].
  apply Z.ldiff_le; [lia|]. apply Z.bits_inj'. intros n Hn.
  rewrite Z.ldiff_spec, Z.land_spec, Z.bits_0. by destruct (Z.testbit a n), (Z.testbit b n).
Qed.

Lemma dif_alu_range o a b v : dif_alu o a b = Some v -> in_u 64 a -> in_u 64 b -> in_u 64 v.
Proof.
  intros Hv Ha Hb.
  assert (Hdiv : forall c, 0 < c -> in_u 64 (a / c)).
  { intros c Hc. unfold in_u in *. split; [apply Z.div_pos; lia|].
    apply Z.div_lt_upper_bound; [done|]. nia. }
  unfold dif_alu in Hv.
  repeat (match goal with H : (match ?x with _ => _ end) = Some _ |- _ =>
    let E := fresh "E" in destruct x eqn:E; try done end);
    injection Hv as <-;
    first [ apply wrap64_range | by apply in_u_lor | by apply in_u_lxor | by apply in_u_land
          | apply Hdiv, Z.pow_pos_nonneg; [lia|apply Hb] | apply Hdiv; unfold in_u in *; lia | idtac ].
  unfold in_u in *. pose proof (Z.mod_pos_bound a b). lia.
Qed.

(** eBPF's r0 is scratch. *)
Lemma agrees_r0 D d d' :
  agrees D d -> (forall r, r <> 0 -> reg d' r = reg d r) -> mem d' = mem d -> agrees D d'.
Proof.
  intros [A1 A2 A3 A3' A4 A5] Hr Hm.
  split; intros; unfold CTX_REG, RB_PTR_REG in *; rewrite ?Hm, ?Hr by lia; auto.
Qed.

Lemma agrees_cmp D d c : agrees D d -> agrees {| dreg := dreg D; dcmp := c |} d.
Proof. by intros []. Qed.

Lemma plain_step c i pc D d pc' D' :
  env_ok -> agrees D d -> pure_ins (table env) c i = true -> target_of i = None -> op i <> 0x23 ->
  dif_step env i pc D = Some (pc', D') ->
  pc' = pc + 1 /\ exists d', runs call map_addr (slots (piece (table env) c i)) d d' /\ agrees D' d'.
Proof.
  intros He Ha Hp Ht Hr Hs.
  assert (Hw : forall v l, 1 <= rd i <= 7 -> in_u 64 v ->
    (exists d', runs call map_addr (slots l) d d' /\ wrote (rd i) v d d') ->
    exists d', runs call map_addr (slots l) d d' /\ agrees (set_dreg (rd i) v D) d').
  { intros v l Hd Hv (d' & R & W). exists d'. split; [done|]. by eapply agrees_wrote. }
  unfold target_of in Ht. destruct (is_cond i) eqn:Ec; [done|].
  assert (Hno11 : op i <> 0x11) by (intros E; by rewrite E in Ht).
  unfold pure_ins, dif_step, piece in *. rewrite Ec in *.
  destruct (bool_decide_reflect (op i ∈ alu_ops)) as [Ho|Ho].
  - assert (Hq : 1 <= rd i <= 7 /\ 0 <= r1 i <= 7 /\ 0 <= r2 i <= 7 /\
      (r2 i <> rd i \/ rd i = r1 i)) by (unfold writable, readable in Hp; lia).
    destruct Hq as (H1 & H2 & H3 & H4).
    rewrite <- !(source_operand D d) in Hs by done.
    destruct (dif_alu _ _ _) as [v|] eqn:Ev; [|done]. injection Hs as <- <-. split; [done|].
    apply Hw; [done|by eapply dif_alu_range; [exact Ev|apply (source_range D d)..]|].
    apply binary_runs; [done..|]. by apply (source_range D d).
  - assert (Hop := pure_op (table env) c i). unfold pure_ins in Hop.
    rewrite bool_decide_eq_false_2, Ec in Hop by done. specialize (Hop Hp).
    apply elem_of_app in Hop as [?|Hop]; [done|]. unfold is_cond in Ec.
    apply elem_of_app in Hop as [Hop|Hop]; [by apply bool_decide_eq_false in Ec|].
    each_op Hop; rewrite Hop in Hp, Hs |- *; try done; cbv iota in Hp, Hs |- *.
    + assert (Hq : 1 <= rd i <= 7 /\ 0 <= r1 i <= 7) by (unfold writable, readable in Hp; lia).
      destruct Hq as [H1 H2]. injection Hs as <- <-. split; [done|].
      rewrite <- (source_operand D d) by done.
      pose proof (source_range D d (r1 i) Ha H2) as Hu.
      apply Hw; [done|by apply in_u_lxor|].
      destruct (mov_runs (r1 i) (rd i) d H2 H1) as (d1 & R1 & E1 & Er & Em).
      eexists. split; [apply runs_slots_app with d1; [|exact R1|apply runs_not; lia]|].
      { unfold mov_bytes. destruct (r1 i =? 0), (rd i =? r1 i); whole_tac. }
      rewrite E1. apply (wrote_set _ (source d (r1 i))). split; [done| |by intros; rewrite Em].
      intros r _ Hne. by apply Er.
    + assert (Hq : 1 <= rd i <= 7 /\ 0 <= r1 i <= 7) by (unfold writable, readable in Hp; lia).
      destruct Hq as [H1 H2]. injection Hs as <- <-. split; [done|].
      rewrite <- (source_operand D d) by done. apply Hw; [done|by apply (source_range D d)|].
      destruct (mov_runs (r1 i) (rd i) d H2 H1) as (d1 & R1 & E1 & Er & Em).
      exists d1. split; [done|]. split; [done| |by intros; rewrite Em]. intros r _ Hne. by apply Er.
    + injection Hs as <- <-. split; [done|]. exists d. split; [apply runs_nil|by apply agrees_cmp].
    + injection Hs as <- <-. split; [done|]. exists d. split; [apply runs_nil|by apply agrees_cmp].
    + injection Hs as <- <-. split; [done|]. exists d. split; [apply runs_nil|done].
    + apply andb_true_iff in Hp as [H1 H2]. unfold writable in H1.
      destruct (table env !! Z.to_nat (imm16 i)) as [v|] eqn:Ev; [|done].
      injection Hs as <- <-. split; [done|].
      assert (Hu : in_u 64 v).
      { pose proof (eo_table He) as H. rewrite list.Forall_lookup in H. by eapply H. }
      apply Hw; [lia|done|]. exists (set (rd i) v d). split; [|apply wrote_refl].
      apply runs_ld_imm64; [lia|done].
    + apply andb_true_iff in Hp as [H1 H2]. unfold writable in H1.
      apply bool_decide_eq_true in H2.
      destruct (dif_var env (imm16 i)) as [v|] eqn:Ev; [|done]. injection Hs as <- <-.
      split; [done|]. assert (Hd : 1 <= rd i <= 7) by lia.
      destruct (var_runs D d (rd i) (imm16 i) v He Ha Hd H2 Ev) as [Hu Hx]. by apply Hw.
    + injection Hs as <- <-. split; [done|]. exists d. split; [apply runs_nil|done].
Qed.

(** *** Branches *)

Lemma cond_not_alu o : o ∈ cond_ops -> o ∉ alu_ops.
Proof. intros Ho. each_op Ho; rewrite Ho; apply (bool_decide_unpack _); by vm_compute. Qed.

(** The operands of a comparison. *)
Definition cmp_val (f : Z -> Z) (c : PendingCmp) : Z * Z :=
  match c with CmpReg a b => (f a, f b) | CmpTst a => (f a, 0) end.

Definition cmp_regs (c : PendingCmp) : Prop :=
  match c with CmpReg a b => 0 <= a <= 7 /\ 0 <= b <= 7 | CmpTst a => 0 <= a <= 7 end.

Lemma branch_exec o c d x y cb :
  o ∈ cond_ops -> cmp_regs c -> cmp_val (reg d) c = (x, y) -> dif_cond o x y = Some cb ->
  exists k r s m, branch_bytes o c = bpf_insn k r s 0 m /\
    forall hi off, exec call map_addr hi (set_off off (Ins k r s 0 m)) d
      = Some (1 + (if cb : bool then off else 0), d).
Proof.
  intros Ho Hc Hv Hd.
  assert (Hx : forall k r s m, let cc := Z.land k 0xf0 in 0 <= k < 256 -> 0 <= r < 16 -> 0 <= s < 16 -> as_i32 m = m ->
    (forall hi off, exec call map_addr hi (Insn k r s off m) d
       = (b ← cond cc (reg d r) (if Z.testbit k 3 then reg d s else wrap64 m);
          Some (1 + (if b : bool then off else 0), d))) ->
    forall hi off, cond cc (reg d r) (if Z.testbit k 3 then reg d s else wrap64 m) = Some cb ->
    exec call map_addr hi (set_off off (Ins k r s 0 m)) d
      = Some (1 + (if cb : bool then off else 0), d)).
  { intros k r s m cc H1 H2 H3 H4 He hi off Hcc. unfold cc in *. unfold Ins, set_off. cbn [i_code i_dst i_src i_imm].
    rewrite Z.mod_small, !land_15, H4 by lia. rewrite He, Hcc. done. }
  destruct c as [a b|a]; injection Hv as <- <-; destruct Hc;
    each_op Ho; rewrite Ho in Hd |- *; do 4 eexists; (split; [reflexivity|]); intros hi off;
    (eapply Hx; [done|lia|lia|done|intros; reflexivity|exact Hd]).
Qed.

Lemma alter_last {A} (f : A -> A) l x : alter f (Nat.pred (length (l ++ [x]))) (l ++ [x]) = l ++ [f x].
Proof.
  rewrite length_app. cbn [length]. rewrite Nat.add_1_r. cbn [Nat.pred].
  rewrite <- (Nat.add_0_r (length l)), alter_app_r. done.
Qed.

(** The slots before the branch itself: %r0 made zero when it is compared. *)
Lemma cond_pre_runs D d c :
  agrees D d -> cmp_regs c ->
  exists d', runs call map_addr
      (slots ((if reads_dif_r0 c then [bpf_mov64_imm 0 0] else []) : list bytes)) d d' /\
    agrees D d' /\ cmp_val (reg d') c = cmp_val (operand_of D) c.
Proof.
  intros Ha Hc.
  assert (Hz : forall d', (forall r, r <> 0 -> reg d' r = reg d r) -> mem d' = mem d -> agrees D d')
    by (intros d'; by apply agrees_r0).
  assert (Hs : forall d', agrees D d' -> (forall r, r <> 0 -> reg d' r = reg d r) ->
    (reads_dif_r0 c = true -> reg d' 0 = 0) ->
    cmp_val (reg d') c = cmp_val (operand_of D) c).
  { intros d' Ha' _ H0.
    assert (Ho : forall r, 0 <= r <= 7 -> (r = 0 -> reads_dif_r0 c = true) ->
      reg d' r = operand_of D r).
    { intros r Hr Hr0. rewrite <- (source_operand D d') by done. unfold source.
      destruct (Z.eqb_spec r 0) as [->|]; [|done]. by apply H0, Hr0. }
    destruct c as [a b|a]; cbn [cmp_val cmp_regs reads_dif_r0] in *.
    - destruct Hc as [Ha1 Hb1].
      rewrite (Ho a), (Ho b); [done|done| |done|]; intros ->; [by rewrite orb_true_r|done].
    - rewrite (Ho a); [done|done|]. by intros ->. }
  destruct (reads_dif_r0 c) eqn:E.
  - exists (set 0 0 d). assert (Hr : forall r, r <> 0 -> reg (set 0 0 d) r = reg d r).
    { intros r Hr. rewrite reg_set. by destruct (Z.eqb_spec r 0). }
    split; [by apply runs_mov_imm|]. split; [by apply Hz|]. apply Hs; [by apply Hz|done|done].
  - exists d. split; [apply runs_nil|]. split; [done|]. by apply Hs.
Qed.

(** One fetched instruction, executed where it stands. *)
Lemma exec_step code p i d k d' q :
  fetch code p = Some i -> (forall hi, exec call map_addr hi i d = Some (k, d')) -> q = p + k ->
  steps call map_addr code (p, d) (q, d').
Proof.
  intros Hf He ->. apply steps_one. unfold step. cbn [fst snd]. rewrite Hf. cbn [mbind option_bind].
  by rewrite He.
Qed.

Lemma branch_step c i pc D d pc' D' starts pos o t code q :
  agrees D d -> pure_ins (table env) c i = true -> target_of i = Some t ->
  (forall x, is_cond i = true -> c = Some x ->
    cmp_regs x /\ dcmp D = Some (cmp_val (operand_of D) x)) ->
  dif_step env i pc D = Some (pc', D') ->
  let it := (slots (piece (table env) c i), Some t) in
  starts !! Z.to_nat t = Some o ->
  - 2 ^ 15 <= o - (pos + len it.1) < 2 ^ 15 ->
  code_at code q (patch_item starts pos it) ->
  exists d', agrees D' d' /\
    ((pc' = pc + 1 /\ steps call map_addr code (q, d) (q + len it.1, d')) \/
     (pc' = t /\ steps call map_addr code (q, d) (q + (o - pos), d'))).
Proof.
  intros Ha Hp Ht Hc Hs it Ho Hd Hcode. unfold patch_item in Hcode. cbn [fst snd it] in *.
  rewrite Ho in Hcode. cbn [default] in Hcode. rewrite as_i16_id in Hcode by done.
  set (off := o - (pos + len (slots (piece (table env) c i)))) in *.
  unfold target_of in Ht. unfold pure_ins in Hp. unfold dif_step in Hs.
  assert (Hfin : forall pre x e d1 (b : bool),
    slots (piece (table env) c i) = pre ++ [x] -> runs call map_addr pre d d1 -> agrees D d1 ->
    D' = D -> pc' = (if b then t else pc + 1) ->
    (forall hi, exec call map_addr hi (set_off off x) d1 = Some (1 + e, d1)) ->
    e = (if b then off else 0) ->
    exists d', agrees D' d' /\
      ((pc' = pc + 1 /\ steps call map_addr code (q, d) (q + len (slots (piece (table env) c i)), d')) \/
       (pc' = t /\ steps call map_addr code (q, d) (q + (o - pos), d')))).
  { intros pre x e d1 b El R A -> -> Hx ->. exists d1. split; [done|].
    unfold off in *. clearbody off. rewrite El in *. rewrite alter_last in Hcode.
    rewrite len_app in *. change (len [x]) with 1 in *.
    assert (Hst : steps call map_addr code (q, d) (q + len pre, d1)) by (apply R; by eapply code_at_app_l).
    assert (Hf : fetch code (q + len pre) = Some (set_off (o - (pos + (len pre + 1))) x)).
    { rewrite <- (Z.add_0_r (q + len pre)). eapply code_at_fetch; [by eapply code_at_app_r|done]. }
    destruct b; [right|left]; (split; [done|]); etrans; try exact Hst;
      (eapply exec_step; [exact Hf|exact Hx|lia]). }
  destruct (bool_decide_reflect (op i ∈ alu_ops)) as [H|_].
  { unfold is_cond in Ht. each_op H; by rewrite H in Ht. }
  destruct (is_cond i) eqn:Ec.
  - injection Ht as <-. destruct c as [c|]; [|done]. destruct (Hc c eq_refl eq_refl) as [Hcr Hcv].
    rewrite Hcv in Hs. cbn [mbind option_bind] in Hs.
    destruct (cmp_val (operand_of D) c) as [x y] eqn:Ev.
    destruct (dif_cond (op i) x y) as [b|] eqn:Eb; [|done]. cbn in Hs. injection Hs as <- <-.
    destruct (cond_pre_runs D d c Ha Hcr) as (d1 & R & A1 & E1). rewrite Ev in E1.
    unfold is_cond in Ec. apply bool_decide_eq_true in Ec.
    destruct (branch_exec (op i) c d1 x y b Ec Hcr E1 Eb) as (k & r & s & m & Ebr & Hx).
    eapply (Hfin (slots (if reads_dif_r0 c then [bpf_mov64_imm 0 0] else [])) (Ins k r s 0 m) _ d1 b);
      [|exact R|done|done|done|by intros hi; rewrite Hx|done].
    unfold piece. unfold is_cond. rewrite (bool_decide_eq_true_2 (op i ∈ cond_ops)) by done.
    rewrite bool_decide_eq_false_2 by (by apply cond_not_alu).
    unfold cond_bytes. rewrite Ebr.
    rewrite slots_app, slots_insn, slots_nil; [done|]. destruct (reads_dif_r0 c); whole_tac.
  - destruct (Z.eqb_spec (op i) 0x11) as [E|]; [|done]. injection Ht as <-. rewrite E in Hs.
    injection Hs as <- <-.
    apply (Hfin [] (Ins BPF_JA 0 0 0 0) off d true); [|apply runs_nil|done|done|done|reflexivity|done].
    unfold piece. rewrite Ec, E. reflexivity.
Qed.

(** *** Whole programs *)

(** What the lowering knows of the comparison before instruction [i]. *)
Definition before (c : option PendingCmp) (l : list DifInstr) (i : nat) : option PendingCmp :=
  match i with O => c | S i => j ← l !! i; next_cmp j end.

Lemma items_lookup tbl l : forall c i j,
  l !! i = Some j -> pure_list tbl c l = true ->
  items tbl c l !! i = Some (slots (piece tbl (before c l i) j), target_of j) /\
  pure_ins tbl (before c l i) j = true.
Proof.
  induction l as [|x l IH]; intros c i j Hi Hp; [done|].
  cbn [pure_list] in Hp. apply andb_true_iff in Hp as [Hx Hl].
  destruct i as [|i]; cbn in Hi; [by injection Hi as <-|].
  destruct (IH (next_cmp x) i j Hi Hl) as [H1 H2].
  assert (E : before (next_cmp x) l i = before c (x :: l) (S i)) by (by destruct i).
  by rewrite E in H1, H2.
Qed.

Lemma before_regs tbl l : forall c i x,
  pure_list tbl c l = true -> before None l i = Some x -> cmp_regs x.
Proof.
  induction l as [|y l IH]; intros c i x Hp Hb; [by destruct i|].
  cbn [pure_list] in Hp. apply andb_true_iff in Hp as [Hy Hl].
  destruct i as [|[|i]]; [done| |by apply (IH (next_cmp y) (S i))].
  cbn [before lookup list_lookup mbind option_bind] in Hb.
  unfold next_cmp in Hb.
  destruct (Z.eq_dec (op y) 0x0f) as [E|]; [|destruct (Z.eq_dec (op y) 0x10) as [E|]].
  - rewrite E in Hb. injection Hb as <-.
    assert (Hr : readable (r1 y) && readable (r2 y) = true).
    { unfold pure_ins, is_cond in Hy. rewrite E in Hy. exact Hy. }
    unfold readable in Hr. cbn [cmp_regs]. lia.
  - rewrite E in Hb. injection Hb as <-.
    assert (Hr : readable (r1 y) = true).
    { unfold pure_ins, is_cond in Hy. rewrite E in Hy. exact Hy. }
    unfold readable in Hr. cbn [cmp_regs]. lia.
  - destruct (op y) as [|p|p]; try done.
    repeat (match goal with H : (match ?x with _ => _ end) = Some _ |- _ => destruct x; try done end).
Qed.

Lemma starts_lookup its : forall pos i it,
  its !! i = Some it -> exists p, starts_of pos its !! i = Some p /\
    (starts_of pos its ++ [pos + len (code_of_items its)]) !! S i = Some (p + len it.1) /\
    (forall starts code b, code_at code b (patched starts pos its) ->
      code_at code (b + (p - pos)) (patch_item starts p it)).
Proof.
  induction its as [|x its IH]; intros pos i it Hi; [done|].
  rewrite code_of_items_cons, len_app. cbn [starts_of patched].
  destruct i as [|i]; cbn in Hi.
  - injection Hi as ->. exists pos. split_and!; [done| |].
    + destruct its; cbn [starts_of app lookup list_lookup code_of_items map concat fst].
      * change (len (@nil insn)) with 0. f_equal. lia.
      * done.
    + intros starts code b Hc. rewrite Z.sub_diag, Z.add_0_r. by eapply code_at_app_l.
  - destruct (IH (pos + len x.1) i it Hi) as (p & H1 & H2 & H3). exists p. split_and!; [done| |].
    + rewrite <- H2. cbn [app lookup list_lookup]. by rewrite Z.add_assoc.
    + intros starts code b Hc. replace (b + (p - pos)) with (b + len x.1 + (p - (pos + len x.1))) by lia.
      apply H3. eapply code_at_app_r; [exact Hc|]. by rewrite len_patch_item.
Qed.

Lemma starts_range its : forall pos i p,
  (starts_of pos its ++ [pos + len (code_of_items its)]) !! i = Some p ->
  pos <= p <= pos + len (code_of_items its).
Proof.
  induction its as [|x its IH]; intros pos i p Hi.
  { destruct i as [|i]; [|by destruct i]. injection Hi as <-. pose_lens. lia. }
  rewrite code_of_items_cons, len_app in *. cbn [starts_of app] in Hi. pose_lens.
  destruct i as [|i]; cbn in Hi; [injection Hi as <-; lia|].
  rewrite Z.add_assoc in Hi. apply IH in Hi. lia.
Qed.

Lemma len_patched starts its : forall pos, len (patched starts pos its) = len (code_of_items its).
Proof.
  induction its as [|it its IH]; intros pos; [done|]. cbn [patched].
  by rewrite code_of_items_cons, !len_app, len_patch_item, IH.
Qed.

Lemma ret_last_index l : forall i j,
  ret_last l = true -> l !! i = Some j -> op j = 0x23 -> S i = length l.
Proof.
  induction l as [|x l IH]; intros i j Hr Hi Hj; [done|].
  destruct l as [|y l].
  - destruct i as [|i]; [done|by destruct i].
  - cbn [ret_last] in Hr. apply andb_true_iff in Hr as [Hx Hr].
    destruct i as [|i]; cbn [lookup list_lookup] in Hi.
    + injection Hi as ->. rewrite Hj in Hx. done.
    + cbn [length]. f_equal. by apply (IH i j).
Qed.

Lemma length_items tbl l : forall c, length (items tbl c l) = length l.
Proof. induction l as [|x l IH]; intros c; [done|]. cbn. by rewrite IH. Qed.

Lemma length_starts its : forall pos, length (starts_of pos its) = length its.
Proof. induction its as [|x its IH]; intros pos; [done|]. cbn. by rewrite IH. Qed.

Lemma ret_runs D d r :
  agrees D d -> 0 <= r <= 7 ->
  exists d', runs call map_addr (slots [ret_value r]) d d' /\ agrees D d' /\
    reg d' 0 = operand_of D r.
Proof.
  intros Ha Hr. rewrite <- (source_operand D d) by done. exists (set 0 (source d r) d). split_and!.
  - unfold ret_value, source. destruct (Z.eqb_spec r 0) as [->|].
    + by apply runs_mov_imm.
    + apply runs_mov_reg; lia.
  - apply (agrees_r0 D d); [done| |done]. intros q Hq. rewrite reg_set. by destruct (Z.eqb_spec q 0).
  - done.
Qed.

Section Program.
Context (l : list DifInstr) (base : Z).
Context (Hl : pure_prog (table env) l = true) (He : env_ok).

Let its := items (table env) None l.
Let starts := starts_of base its ++ [base + len (code_of_items its)].
Let frag := patched starts base its.

Context (Hshort : len (code_of_items its) < 2 ^ 15).
Context (code : list insn) (b : Z) (Hcode : code_at code b frag).

(** A conditional branch finds the comparison it was compiled with. *)
Definition cmp_inv (pc : Z) (D : dif_state) : Prop :=
  forall j x, l !! Z.to_nat pc = Some j -> is_cond j = true ->
    before None l (Z.to_nat pc) = Some x -> dcmp D = Some (cmp_val (operand_of D) x).

Lemma prog_parts :
  pure_list (table env) None l = true /\ forallb (target_ok l) l = true /\ ret_last l = true.
Proof.
  unfold pure_prog in Hl. apply andb_true_iff in Hl as [H1 H2]. apply andb_true_iff in H1 as [H1 H3].
  apply andb_true_iff in H1 as [_ H1]. done.
Qed.

Lemma branch_target_ok j t :
  j ∈ l -> target_of j = Some t ->
  exists k, 0 <= t /\ l !! Z.to_nat t = Some k /\ is_cond k = false.
Proof.
  intros Hj Ht. destruct prog_parts as (_ & H & _). rewrite forallb_forall in H.
  apply list_elem_of_In, H in Hj. unfold target_ok in Hj. rewrite Ht in Hj.
  destruct (Z.leb_spec 0 t); [|done]. destruct (l !! Z.to_nat t) as [k|]; [|done].
  exists k. split_and!; [done|done|by destruct (is_cond k)].
Qed.

Lemma start_of_ins i j :
  l !! i = Some j ->
  exists p, starts !! i = Some p /\ starts !! S i = Some (p + len (slots (piece (table env) (before None l i) j))) /\
    pure_ins (table env) (before None l i) j = true /\
    code_at code (b + (p - base))
      (patch_item starts p (slots (piece (table env) (before None l i) j), target_of j)).
Proof.
  intros Hi. destruct prog_parts as (Hp & _ & _).
  destruct (items_lookup (table env) l None i j Hi Hp) as [H1 H2].
  destruct (starts_lookup its base i _ H1) as (p & P1 & P2 & P3).
  exists p. split_and!; [|done|done|by apply P3].
  unfold starts. by apply lookup_app_l_Some.
Qed.

(** After a comparison the invariant holds where it falls through. *)
Lemma cmp_inv_next pc D pc' D' j :
  0 <= pc -> l !! Z.to_nat pc = Some j -> target_of j = None ->
  dif_step env j pc D = Some (pc', D') -> pc' = pc + 1 -> cmp_inv pc' D'.
Proof.
  intros Hpc Hj Ht Hs -> k x Hk Hc Hb.
  replace (Z.to_nat (pc + 1)) with (S (Z.to_nat pc)) in * by lia. cbn [before] in Hb.
  rewrite Hj in Hb. cbn [mbind option_bind] in Hb. unfold next_cmp in Hb. unfold dif_step in Hs.
  unfold target_of in Ht. destruct (is_cond j) eqn:Ej; [done|].
  assert (Hop : op j = 0x0f \/ op j = 0x10).
  { destruct (Z.eq_dec (op j) 0x0f); [by left|]. destruct (Z.eq_dec (op j) 0x10); [by right|].
    exfalso. destruct (op j) as [|p|p]; try done.
    repeat (match goal with H : (match ?x with _ => _ end) = Some _ |- _ => destruct x; try done end). }
  destruct Hop as [E|E]; rewrite E in Hb, Hs; injection Hb as <-;
    replace (bool_decide _) with false in Hs by (symmetry; by vm_compute); injection Hs as <-; done.
Qed.

Lemma cmp_inv_target t D : (exists k, l !! Z.to_nat t = Some k /\ is_cond k = false) -> cmp_inv t D.
Proof. intros (k & Hk & Hc) j x Hj Hcj. rewrite Hk in Hj. injection Hj as <-. by rewrite Hc in Hcj. Qed.

Lemma target_no_cmp j t : target_of j = Some t -> next_cmp j = None.
Proof.
  unfold target_of, next_cmp, is_cond.
  destruct (bool_decide_reflect (op j ∈ cond_ops)) as [H|_]; cbn [orb].
  - intros _. each_op H; by rewrite H.
  - by destruct (Z.eqb_spec (op j) 0x11) as [->|].
Qed.

Lemma dif_simulated fuel : forall pc D d v p,
  0 <= pc -> dif_run fuel env l pc D = Some v -> agrees D d -> cmp_inv pc D ->
  starts !! Z.to_nat pc = Some p ->
  exists D' d', steps call map_addr code (b + (p - base), d) (b + len frag, d') /\
    agrees D' d' /\ reg d' 0 = v.
Proof.
  induction fuel as [|fuel IH]; intros pc D d v p Hpc Hr Ha Hci Hp; [done|].
  cbn [dif_run] in Hr. destruct (Z.leb_spec 0 pc); [|done].
  destruct (l !! Z.to_nat pc) as [j|] eqn:Ej; [|done]. cbn [mbind option_bind] in Hr.
  destruct (start_of_ins _ j Ej) as (p' & P1 & P2 & Pure & Hat).
  rewrite Hp in P1. injection P1 as <-. set (c := before None l (Z.to_nat pc)) in *.
  destruct (Z.eqb_spec (op j) 0x23) as [Eret|Nret].
  - injection Hr as <-.
    assert (Hlast : S (Z.to_nat pc) = length l).
    { destruct prog_parts as (_ & _ & H3). by apply (ret_last_index l _ j). }
    assert (Ept : target_of j = None) by (unfold target_of, is_cond; by rewrite Eret).
    assert (Epc : piece (table env) c j = [ret_value (rd j)])
      by (unfold piece, is_cond; by rewrite Eret).
    assert (Hrd : 0 <= rd j <= 7).
    { unfold pure_ins, is_cond in Pure. rewrite Eret in Pure.
      change (readable (rd j) = true) in Pure. unfold readable in Pure. lia. }
    destruct (ret_runs D d (rd j) Ha Hrd) as (d' & R & Ha' & E0).
    exists D, d'. split_and!; [|done|done].
    rewrite Epc in *. rewrite Ept in Hat. unfold patch_item in Hat. cbn [fst snd] in Hat.
    assert (Eend : p + len (slots [ret_value (rd j)]) = base + len (code_of_items its)).
    { unfold starts in P2. rewrite Hlast, lookup_app_r in P2
        by (rewrite length_starts; unfold its; by rewrite length_items).
      rewrite length_starts in P2. unfold its in P2 at 1. rewrite length_items, Nat.sub_diag in P2.
      by injection P2 as <-. }
    unfold frag. rewrite len_patched.
    replace (b + len (code_of_items its)) with (b + (p - base) + len (slots [ret_value (rd j)])) by lia.
    by apply R.
  - destruct (dif_step env j pc D) as [[pc' D1]|] eqn:Es; [|done]. cbn [mbind option_bind] in Hr.
    destruct (target_of j) as [t|] eqn:Et.
    + destruct (branch_target_ok j t) as (k & Ht0 & Hk & Hkc); [by eapply list_elem_of_lookup_2|done|].
      destruct (start_of_ins _ k Hk) as (o & O1 & _).
      assert (Hrange : - 2 ^ 15 <= o - (p + len (slots (piece (table env) c j))) < 2 ^ 15).
      { apply starts_range in O1. apply starts_range in P2. lia. }
      destruct (branch_step c j pc D d pc' D1 starts p o t code (b + (p - base)) Ha Pure Et)
        as (d1 & Ha1 & Hor); [|done|done|exact Hrange|exact Hat|].
      { intros x Hic Hx. split.
        - destruct prog_parts as (Hpl & _). by eapply before_regs.
        - by apply (Hci j x Ej). }
      cbn [fst] in Hor. destruct Hor as [[-> Hst]|[-> Hst]].
      * destruct (IH (pc + 1) D1 d1 v (p + len (slots (piece (table env) c j)))) as (D' & d' & S' & A' & E');
          [lia|done|done| |by replace (Z.to_nat (pc + 1)) with (S (Z.to_nat pc)) by lia|].
        { intros k' x' Hk' Hkc' Hb'. replace (Z.to_nat (pc + 1)) with (S (Z.to_nat pc)) in Hb' by lia.
          cbn [before] in Hb'. rewrite Ej in Hb'. cbn [mbind option_bind] in Hb'.
          by rewrite (target_no_cmp _ _ Et) in Hb'. }
        exists D', d'. split; [|done]. etrans; [exact Hst|].
        by replace (b + (p - base) + len (slots (piece (table env) c j)))
          with (b + (p + len (slots (piece (table env) c j)) - base)) by lia.
      * destruct (IH t D1 d1 v o) as (D' & d' & S' & A' & E'); [done|done|done| |done|].
        { apply cmp_inv_target. by exists k. }
        exists D', d'. split; [|done]. etrans; [exact Hst|].
        by replace (b + (p - base) + (o - p)) with (b + (o - base)) by lia.
    + destruct (plain_step c j pc D d pc' D1 He Ha Pure Et Nret Es) as (Epc & d1 & R & Ha1).
      destruct (IH pc' D1 d1 v (p + len (slots (piece (table env) c j)))) as (D' & d' & S' & A' & E');
        [lia|done|done|by eapply cmp_inv_next|by replace (Z.to_nat pc') with (S (Z.to_nat pc)) by lia|].
      exists D', d'. split; [|done]. unfold patch_item in Hat. cbn [fst snd] in Hat.
      etrans; [apply R; exact Hat|].
      by replace (b + (p - base) + len (slots (piece (table env) c j)))
        with (b + (p + len (slots (piece (table env) c j)) - base)) by lia.
Qed.

End Program.
End Pieces.

(** ** Lowering a section *)

Lemma items_ok tbl l base :
  pure_prog tbl l = true ->
  let its := items tbl None l in
  Forall (item_ok (starts_of base its ++ [base + len (code_of_items its)])) its.
Proof.
  intros Hl its. unfold pure_prog in Hl. apply andb_true_iff in Hl as [H1 _].
  apply andb_true_iff in H1 as [H1 H3]. apply andb_true_iff in H1 as [_ H1].
  apply list.Forall_lookup. intros i it Hi.
  assert (Hlt : (i < length l)%nat).
  { apply lookup_lt_Some in Hi. unfold its in Hi. by rewrite length_items in Hi. }
  destruct (lookup_lt_is_Some_2 l i Hlt) as [j Hj].
  destruct (items_lookup tbl l None i j Hj H1) as [E Hp]. unfold its in Hi.
  pose proof (eq_trans (eq_sym E) Hi) as X. injection X as <-. unfold item_ok. cbn [fst snd].
  destruct (target_of j) as [t|] eqn:Et; [|done]. split.
  - destruct (branch_piece tbl _ j t Hp Et) as (pre & k & d & r & m & -> & Hw).
    rewrite slots_app, slots_insn by done. by destruct (slots pre).
  - rewrite forallb_forall in H3.
    assert (Hin : In j l) by (by apply list_elem_of_In; eapply list_elem_of_lookup_2).
    apply H3 in Hin. unfold target_ok in Hin. rewrite Et in Hin.
    destruct (0 <=? t); [|done]. destruct (l !! Z.to_nat t) eqn:Elt; [|done].
    apply lookup_lt_is_Some_2. rewrite length_app, length_starts. unfold its. rewrite length_items.
    apply lookup_lt_Some in Elt. lia.
Qed.

Lemma lower_pure tbl l s cs :
  pure_prog tbl l = true -> asm (body s) cs -> inttab s = Some tbl -> ret_mode s = Predicate ->
  insn_offsets s = [] -> pending_branches s = [] ->
  let its := items tbl None l in
  let starts := starts_of (len cs) its ++ [len cs + len (code_of_items its)] in
  exists s', (lower_instrs l ;; fixup_branches) s = (Ret tt, s') /\
    asm (body s') (cs ++ patched starts (len cs) its) /\ kfunc_relocs s' = kfunc_relocs s.
Proof.
  intros Hl Ha Ht Hm Ho Hb its starts. pose proof (items_ok tbl l (len cs) Hl) as Hok.
  pose proof Hl as Hl'. unfold pure_prog in Hl'. apply andb_true_iff in Hl' as [H1 _].
  apply andb_true_iff in H1 as [H1 _]. apply andb_true_iff in H1 as [Hne H1].
  destruct (section_lowered tbl l None s cs H1 Ht Hm) as (s1 & E1 & A1 & F1 & P1 & K1); [done|done|].
  rewrite Ho in F1. rewrite Hb in P1. cbn [app] in F1, P1.
  set (s2 := with_branches s1 (insn_offsets s1 ++ [len (body s1)]) (pending_branches s1) (pending_cmp s1)).
  assert (E2 : lower_instrs l s = (Ret tt, s2)).
  { unfold lower_instrs. destruct l as [|i l]; [done|]. by erewrite lower_bind_Ret; [|exact E1]. }
  assert (Eo : insn_offsets s2 = map (Z.mul 8) starts).
  { change (insn_offsets s2) with (insn_offsets s1 ++ [len (body s1)]). unfold starts.
    rewrite map_app, F1. f_equal. by rewrite (asm_len _ _ A1), len_app. }
  destruct (patch_items starts its cs (body s2)) as (b' & E3 & A3); [done|done|].
  exists (with_out s2 (b', kfunc_relocs s2)). split_and!; [|done|done].
  erewrite lower_bind_Ret; [|exact E2]. unfold fixup_branches. rewrite Eo.
  change (pending_branches s2) with (pending_branches s1). rewrite P1. fold its.
  by rewrite E3.
Qed.

(** C2: the lowering of integer DIF is correct.  A program of the fragment -
    arithmetic, moves, literals, comparisons, branches and the built-in
    variables [curthread], [timestamp], [arg0] to [arg9], [pid], [tid] and
    [cpu] - always lowers, and wherever its code lands, if DTrace's machine
    returns [v] then the eBPF machine runs from the first slot to the last with
    [v] in r0, the context, record and frame pointers kept and no memory
    touched outside the program's own stack frame.  The code must be short
    enough for a 16-bit branch distance, and the pass must not have lowered a
    section before: see [second_difo_branches_back]. *)
Theorem dif_compiles env l s cs
    (Hl : pure_prog (table env) l = true) (Ha : asm (body s) cs)
    (Ht : inttab s = Some (table env)) (Hm : ret_mode s = Predicate)
    (Ho : insn_offsets s = []) (Hb : pending_branches s = []) :
  exists s' frag, (lower_instrs l ;; fixup_branches) s = (Ret tt, s') /\
    asm (body s') (cs ++ frag) /\ kfunc_relocs s' = kfunc_relocs s /\
    forall call map_addr fp ctx rb m0 D d fuel v code b,
      len frag < 2 ^ 15 -> 512 <= fp < 2 ^ 64 -> env_ok call fp env ctx m0 ->
      agrees fp ctx rb m0 D d -> dif_run fuel env l 0 D = Some v -> code_at code b frag ->
      exists d', steps call map_addr code (b, d) (b + len frag, d') /\ reg d' 0 = v /\
        (forall r, 8 <= r <= 10 -> reg d' r = reg d r) /\
        (forall x, off_stack fp x -> mem d' x = mem d x).
Proof.
  destruct (lower_pure (table env) l s cs Hl Ha Ht Hm Ho Hb) as (s' & E & A & K).
  eexists s', _. split_and!; [exact E|exact A|exact K|].
  intros call map_addr fp ctx rb m0 D d fuel v code b Hs Hfp He Hag Hr Hc.
  rewrite len_patched in Hs.
  destruct (dif_simulated call map_addr fp Hfp env ctx rb m0 l (len cs) Hl He Hs code b Hc
    fuel 0 D d v (len cs)) as (D' & d' & S' & A' & E0); [done|done|done| | |].
  - intros j x _ _. done.
  - unfold pure_prog in Hl. destruct l as [|i l]; [done|]. done.
  - exists d'. rewrite Z.sub_diag, Z.add_0_r in S'. split_and!; [exact S'|done| |].
    + intros r Hr8. destruct Hag as [_ _ B1 B2 B3 _], A' as [_ _ C1 C2 C3 _].
      unfold CTX_REG, RB_PTR_REG in *. assert (r = 8 \/ r = 9 \/ r = 10) as [->|[->| ->]] by lia; congruence.
    + intros x Hx. rewrite (ag_mem _ _ _ _ _ _ A' x Hx). symmetry. by apply Hag.
Qed.
