(* ===== verification/SchemaPick.v ===== *)
(** The choice of a record schema (host/bifrost, src/cli/schema_pick.rs): the
    questions the CLI asks a parsed DOF before it lowers it, and the schema it
    picks for an action.  [pick_fits] and [pick_serves] are what the lowering
    relies on: the schema's offsets can be stored through, and it has the slot
    the action's lowering looks for. *)

From Stdlib Require Import Strings.String.
From stdpp Require Import strings pretty.
From S2P Require Import Utf8 Schema HostDof LowerState LowerDif LowerAction LowerAgg LowerOk LowerSafe Prelude.

Local Open Scope Z_scope.
Local Open Scope list_scope.

Section Pick.
Context {E : Type}.

(** The actions of the first ECB, when there is one. *)
Definition is_aggregation_program (dof : Dof) : outcome E bool :=
  o ← first_ecb dof;
  match o with
  | None => Ret false
  | Some ecb =>
      acts ← actions_in_chain dof (actions ecb);
      Ret (existsb (fun a => is_agg_action (act_kind a)) (tail acts))
  end.

(** The nested loops over the DIF sections, left at the first match. *)
Fixpoint any_instruction (f : DifInstr -> bool) (dof : Dof) (l : list DofSection)
  : outcome E bool :=
  match l with
  | [] => Ret false
  | sec :: l =>
      code ← dif_instructions dof sec;
      if existsb f code then Ret true else any_instruction f dof l
  end.

Definition touches_tls (ins : DifInstr) : bool := (op ins =? 0x2c) || (op ins =? 0x2d).

Definition touches_global (ins : DifInstr) : bool :=
  (op ins =? 0x2a) || ((op ins =? 0x29) && (0x0200 <=? imm16 ins)).

Definition program_uses_tls (dof : Dof) : outcome E bool :=
  any_instruction touches_tls dof (sections_of dof SDif).

Definition program_uses_globals (dof : Dof) : outcome E bool :=
  any_instruction touches_global dof (sections_of dof SDif).

Definition read_strtab_string (dof : Dof) (sec_idx offset : Z) : outcome E (option bytes) :=
  match section_get dof sec_idx with
  | None => Ret None
  | Some sec =>
      if negb (bool_decide (sec_kind sec = SStrTab)) then Ret None
      else
        tab ← section_bytes dof sec;
        Ret (if len tab <=? offset then None
             else from_utf8 (until_nul (drop (Z.to_nat offset) tab)))
  end.

(** [enumerate().filter_map(..)] over the chain, from index [i] on. *)
Fixpoint execname_indices (dof : Dof) (i : nat) (l : list Action) : outcome E (list nat) :=
  match l with
  | [] => Ret []
  | a :: l =>
      b ← is_execname_difo dof (difo a);
      r ← execname_indices dof (S i) l;
      Ret (if b : bool then i :: r else r)
  end.

Definition TRACEMEM_MAX : Z := 4096.
Definition PRINTF_UNAVAILABLE : bytes := str "(printf format unavailable)".

(** The [match] on the action's kind. *)
Definition schema_for (dof : Dof) (acts : list Action) (action : Action)
  : outcome E RecordSchema :=
  let k := act_kind action in
  if k =? DTRACEACT_STACK then Ret (for_kernel_stack 32)
  else if k =? DTRACEACT_USTACK then Ret (for_user_stack 32)
  else if (k =? DTRACEACT_TRACEMEM) || (k =? DTRACEACT_TRACEMEM_DYNSIZE) then
    o ← difo_at dof (difo action);
    let n := match o with Some d => rtype_size d | None => 0 end in
    let n := if n =? 0 then arg action mod 2 ^ 32 else n in
    Ret (for_tracemem (Z.max 1 (Z.min n TRACEMEM_MAX)))
  else if k =? DTRACEACT_PRINTF then
    fmt ← read_strtab_string dof (act_strtab action) (arg action);
    idx ← execname_indices dof 0 acts;
    Ret (for_printf_with_string_args (default PRINTF_UNAVAILABLE fmt) (length acts) idx)
  else Ret default_trace.

Definition pick_schema_for_action (dof : Dof) (action_idx : nat) : outcome E RecordSchema :=
  o ← first_ecb dof;
  match o with
  | None => Ret default_trace
  | Some ecb =>
      acts ← actions_in_chain dof (actions ecb);
      match acts !! action_idx with
      | Some action => schema_for dof acts action
      | None => Ret default_trace
      end
  end.

Definition pick_schema (dof : Dof) : outcome E RecordSchema := pick_schema_for_action dof 0.
End Pick.

(** ** Absence of panics *)

Section Safe.
Context {E : Type} (dof : Dof) (Hd : dof_wf dof).

Lemma ecb_of_dof_safe : safe (first_ecb (E:=E) dof).
Proof.
  unfold first_ecb. destruct (sections_of dof SEcbDesc) as [|s l] eqn:El; [done|].
  destruct (section_bytes_wf (E:=E) dof s Hd) as [b ->].
  - assert (H : s ∈ sections_of dof SEcbDesc) by (rewrite El; left).
    by apply list_elem_of_filter in H as [_ H].
  - rewrite bind_Ret. apply safe_ok, host_ecb_safe.
Qed.

Lemma any_instruction_safe f l :
  (forall s, s ∈ l -> s ∈ sections dof) -> safe (any_instruction (E:=E) f dof l).
Proof.
  induction l as [|s l IH]; intros Hl; [done|]. cbn [any_instruction].
  apply safe_bind; [apply dif_instructions_safe; [done|apply Hl; left]|]. intros code _.
  destruct (existsb f code); [done|]. apply IH. intros x Hx. apply Hl. by right.
Qed.

Lemma sections_of_in k s : s ∈ sections_of dof k -> s ∈ sections dof.
Proof. intros H. by apply list_elem_of_filter in H as [_ H]. Qed.

Lemma uses_safe :
  safe (program_uses_tls (E:=E) dof) /\ safe (program_uses_globals (E:=E) dof).
Proof. split; apply any_instruction_safe; intros s; apply sections_of_in. Qed.

Lemma is_execname_safe i : safe (is_execname_difo (E:=E) dof i).
Proof.
  apply safe_bind; [by apply dif_section_of_safe|]. intros [s|] Ho; [|done].
  apply safe_bind; [|done]. apply dif_instructions_safe; [done|by eapply dif_section_of_in].
Qed.

Lemma execname_indices_safe l : forall i, safe (execname_indices (E:=E) dof i l).
Proof.
  induction l as [|a l IH]; intros i; [done|]. cbn [execname_indices].
  apply safe_bind; [apply is_execname_safe|]. intros b _.
  apply safe_bind; [apply IH|]. done.
Qed.

Lemma read_strtab_string_safe i off : safe (read_strtab_string (E:=E) dof i off).
Proof.
  unfold read_strtab_string. destruct (section_get dof i) as [s|] eqn:Es; [|done].
  destruct (negb _); [done|].
  by destruct (section_bytes_wf (E:=E) dof s Hd (section_get_in _ _ _ Es)) as [b ->].
Qed.

Lemma is_aggregation_safe : safe (is_aggregation_program (E:=E) dof).
Proof.
  apply safe_bind; [apply ecb_of_dof_safe|]. intros [ecb|] _; [|done].
  apply safe_bind; [by apply actions_in_chain_safe|]. done.
Qed.

Lemma schema_for_safe acts a : safe (schema_for (E:=E) dof acts a).
Proof.
  unfold schema_for. do 2 (destruct (_ =? _); [done|]). destruct (_ || _).
  { apply safe_bind; [by apply difo_at_safe|]. done. }
  destruct (_ =? _); [|done]. apply safe_bind; [apply read_strtab_string_safe|]. intros fmt _.
  apply safe_bind; [apply execname_indices_safe|]. done.
Qed.

Lemma pick_safe i : safe (pick_schema_for_action (E:=E) dof i).
Proof.
  apply safe_bind; [apply ecb_of_dof_safe|]. intros [ecb|] _; [|done].
  apply safe_bind; [by apply actions_in_chain_safe|]. intros acts _.
  destruct (acts !! i); [|done]. apply schema_for_safe.
Qed.
End Safe.

(** ** How long a chain can be *)

Lemma filter_ok_length {E F A B} (f : A -> outcome E B) l r :
  filter_ok (F:=F) f l = Ret r -> (length r <= length l)%nat.
Proof.
  revert r. induction l as [|x l IH]; intros r; cbn [filter_ok]; [by intros [= <-]|].
  intros H. split_ret H. injection H as <-. specialize (IH _ eq_refl).
  destruct a; simpl; lia.
Qed.

Lemma chunks_fuel_len n : (0 < n)%nat ->
  forall fuel b, len (chunks_fuel fuel n b) * Z.of_nat n <= len b.
Proof.
  intros Hn. induction fuel as [|fuel IH]; intros b; cbn [chunks_fuel].
  { pose proof (len_nonneg b). change (len []) with 0. lia. }
  pose proof (len_nonneg b). destruct (Z.ltb_spec (len b) (Z.of_nat n)); [change (len []) with 0; lia|].
  rewrite len_cons. specialize (IH (drop n b)). rewrite len_drop in IH. lia.
Qed.

Lemma chain_length {E} dof i acts :
  actions_in_chain (E:=E) dof i = Ret acts -> len acts * 32 <= len (raw dof).
Proof.
  unfold actions_in_chain. pose proof (len_nonneg (raw dof)).
  assert (H0 : len (@nil Action) * 32 <= len (raw dof)) by (change (len []) with 0; lia).
  destruct (_ =? _); [by intros [= <-]|]. destruct (section_get dof i) as [s|]; [|by intros [= <-]].
  destruct (negb _); [by intros [= <-]|]. intros Hr. split_ret Hr.
  apply filter_ok_length in Hr. pose proof (chunks_fuel_len 32 ltac:(lia) (length a) a) as Hc.
  unfold section_bytes in R. split_ret R. apply slice_Ret in R. unfold chunks_exact, len in *. lia.
Qed.

(** ** The schema can be stored through *)

Lemma sum_sizes_app l1 l2 : sum_sizes (l1 ++ l2) = sum_sizes l1 + sum_sizes l2.
Proof. induction l1 as [|f l1 IH]; [done|]. unfold sum_sizes in *. simpl. lia. Qed.

Lemma sum_sizes_le k l :
  Forall (fun f => 0 <= kind_size (field_kind f) <= k) l -> 0 <= sum_sizes l <= k * len l.
Proof.
  induction 1 as [|f l Hf Hl IH]; [change (0 <= 0 <= k * 0); lia|].
  rewrite len_cons. unfold sum_sizes in *. simpl. lia.
Qed.

(** The fields of a printf's arguments. *)
Definition printf_fields (idx : list nat) (n : nat) : list Field :=
  map (fun i => {| field_name := arg_name i;
                   field_kind := if bool_decide (i ∈ idx) then FString 16 else FU64 |}) (seq 0 n).

Lemma printf_fields_fit idx n :
  Forall field_fits (printf_fields idx n) /\ 0 <= sum_sizes (printf_fields idx n) <= 16 * Z.of_nat n.
Proof.
  assert (H : Forall (fun f => field_fits f /\ 0 <= kind_size (field_kind f) <= 16)
                (printf_fields idx n)).
  { apply list.Forall_forall. intros f Hf. unfold printf_fields in Hf.
    apply list_elem_of_In, in_map_iff in Hf as (i & <- & _). unfold field_fits. cbn [field_kind].
    destruct (bool_decide _); cbn [kind_size]; lia. }
  split; [eapply list.Forall_impl; [exact H|]; by intros f []|].
  replace (Z.of_nat n) with (len (printf_fields idx n))
    by (unfold len, printf_fields; by rewrite length_map, length_seq).
  apply sum_sizes_le. eapply list.Forall_impl; [exact H|]. by intros f [].
Qed.

Lemma correlation_fits : Forall field_fits correlation_fields /\ sum_sizes correlation_fields = 24.
Proof. split; [|done]. repeat constructor; done. Qed.

Lemma tail_fits l fmt :
  Forall field_fits l -> sum_sizes l <= 2 ^ 31 - 40 ->
  schema_fits {| fields := correlation_fields ++ l; printf_format := fmt |}.
Proof.
  intros Hl Hs. destruct correlation_fits as [Hc Hsum]. split; [by apply list.Forall_app_2|].
  unfold record_size. cbn [fields]. rewrite sum_sizes_app. lia.
Qed.

Lemma default_trace_fits : schema_fits default_trace.
Proof. apply tail_fits; [repeat constructor; done|done]. Qed.

Lemma schema_for_fits {E} dof acts a sch :
  len acts * 32 <= 2 ^ 31 -> schema_for (E:=E) dof acts a = Ret sch -> schema_fits sch.
Proof.
  intros Hn. unfold schema_for.
  destruct (_ =? _); [intros [= <-]; apply tail_fits; [repeat constructor; done|done]|].
  destruct (_ =? _); [intros [= <-]; apply tail_fits; [repeat constructor; done|done]|].
  destruct (_ || _).
  { intros H. split_ret H. injection H as <-. set (m := Z.max 1 _).
    assert (1 <= m <= 4096) by (unfold m, TRACEMEM_MAX; lia). clearbody m.
    apply tail_fits; [repeat constructor; simpl; lia|simpl; lia]. }
  destruct (_ =? _); [|intros [= <-]; apply default_trace_fits].
  intros H. split_ret H. injection H as <-. unfold for_printf_with_string_args.
  destruct (printf_fields_fit a1 (length acts)) as [H1 H2]. apply tail_fits; [done|].
  change (sum_sizes _) with (sum_sizes (printf_fields a1 (length acts))). unfold len in Hn. lia.
Qed.

Lemma picked_fits {E} dof i sch :
  len (raw dof) <= 2 ^ 31 -> pick_schema_for_action (E:=E) dof i = Ret sch -> schema_fits sch.
Proof.
  unfold pick_schema_for_action. intros Hl R. split_ret R. destruct a as [ecb|].
  2: { injection R as <-. apply default_trace_fits. }
  split_ret R. destruct (a !! i) as [act|].
  - eapply schema_for_fits; [|done]. apply chain_length in R1. lia.
  - injection R as <-. apply default_trace_fits.
Qed.

(** the schema picked for any action of a DOF of at most 2 GiB never
    panics the choice, and it is one the lowering can store through: every
    offset and size fits the immediates it is written into, and a tracemem
    slot is never empty. *)
Theorem pick_fits {E} dof i (Hd : dof_wf dof) (Hl : len (raw dof) <= 2 ^ 31) :
  match pick_schema_for_action (E:=E) dof i with
  | Ret sch => schema_fits sch
  | Throw _ => True
  | Panic => False
  end.
Proof.
  pose proof (pick_safe (E:=E) dof Hd i) as Hs.
  destruct (pick_schema_for_action dof i) as [sch|e|] eqn:R; [by eapply picked_fits|done..].
Qed.

(** ** The schema has the slots of the action *)

Lemma str_inj s t : str s = str t -> s = t.
Proof.
  intros H. apply (f_equal String.string_of_list_byte) in H.
  by rewrite !String.string_of_list_byte_of_string in H.
Qed.

#[export] Instance arg_name_inj : Inj (=) (=) arg_name.
Proof.
  intros i j H. apply str_inj in H. apply (inj (String.append "arg")) in H.
  apply (inj pretty) in H. lia.
Qed.

Lemma find_field_from_app n name l1 l2 :
  Forall (fun f => field_name f <> name) l1 ->
  find_field_from n name (l1 ++ l2) = find_field_from (n + length l1) name l2.
Proof.
  intros H. revert n. induction H as [|f l Hf Hl IH]; intros n; cbn [find_field_from app length].
  - by rewrite Nat.add_0_r.
  - rewrite bool_decide_false by done. rewrite IH. f_equal. lia.
Qed.

Lemma arg_not_correlation i : Forall (fun f => field_name f <> arg_name i) correlation_fields.
Proof. repeat constructor; cbn [field_name]; unfold arg_name; intros H%str_inj; by destruct (pretty _). Qed.

Lemma find_printf_field idx n i :
  (i < n)%nat ->
  find_field_from 4 (arg_name i) (printf_fields idx n) =
  Some ((4 + i)%nat, {| field_name := arg_name i;
    field_kind := if bool_decide (i ∈ idx) then FString 16 else FU64 |}).
Proof.
  intros Hi. unfold printf_fields. replace n with (i + S (n - S i))%nat by lia.
  rewrite seq_app, map_app, find_field_from_app.
  - rewrite length_map, length_seq. cbn [seq map find_field_from field_name].
    by rewrite bool_decide_true.
  - apply list.Forall_forall. intros f (j & <- & Hj%list_elem_of_In%elem_of_seq)%list_elem_of_In%in_map_iff.
    cbn [field_name]. intros ?%(inj arg_name). lia.
Qed.

(** What the lowering of an action of kind [k] looks up in its record. *)
Definition has_slots (sch : RecordSchema) (k : Z) (n_args : nat) (idx : list nat) : Prop :=
  if k =? DTRACEACT_STACK then
    slot_of sch (str "kstack") k = Ret (24, 256, FKernelStack 32)
  else if k =? DTRACEACT_USTACK then
    slot_of sch (str "ustack") k = Ret (24, 256, FUserStack 32) /\
    slot_of sch (str "exe_path") k = Ret (280, 256, FString 256)
  else if (k =? DTRACEACT_TRACEMEM) || (k =? DTRACEACT_TRACEMEM_DYNSIZE) then
    exists n, find_tracemem sch 0 (fields sch) = Some (24, n) /\ 1 <= n <= 4096
  else if k =? DTRACEACT_PRINTF then
    printf_format sch <> None /\
    forall i, (i < n_args)%nat ->
      slot_of sch (arg_name i) k =
        Ret (as_i32 (field_offset sch (4 + i)),
             if bool_decide (i ∈ idx) then 16 else 8,
             if bool_decide (i ∈ idx) then FString 16 else FU64)
  else slot_of sch (str "value") k = Ret (24, 8, FU64).

Lemma printf_slots fmt idx n k i :
  (i < n)%nat ->
  slot_of (for_printf_with_string_args fmt n idx) (arg_name i) k =
    Ret (as_i32 (field_offset (for_printf_with_string_args fmt n idx) (4 + i)),
         if bool_decide (i ∈ idx) then 16 else 8,
         if bool_decide (i ∈ idx) then FString 16 else FU64).
Proof.
  intros Hi. unfold slot_of, find_field, for_printf_with_string_args. cbn [fields].
  rewrite find_field_from_app by apply arg_not_correlation.
  pose proof (find_printf_field idx n i Hi) as H. unfold printf_fields in H.
  change (0 + length correlation_fields)%nat with 4%nat. rewrite H. cbn [ok_or].
  rewrite bind_Ret. cbn [field_kind]. by destruct (bool_decide _).
Qed.

(** C18: the schema picked for an action has every slot the lowering of that
    action stores to, with the kind it expects: the stack slots and the
    executable's path, a tracemem slot of 1 to 4096 bytes, one slot per printf
    argument - a 16-byte string for the arguments that read execname - and
    otherwise the value. *)
Theorem pick_serves {E} dof i ecb acts a sch
    (He : first_ecb (E:=E) dof = Ret (Some ecb))
    (Ha : actions_in_chain (E:=E) dof (actions ecb) = Ret acts)
    (Hi : acts !! i = Some a)
    (Hs : pick_schema_for_action (E:=E) dof i = Ret sch) :
  exists idx, (act_kind a = DTRACEACT_PRINTF -> execname_indices (E:=E) dof 0 acts = Ret idx) /\
    has_slots sch (act_kind a) (length acts) idx.
Proof.
  unfold pick_schema_for_action in Hs. rewrite He, bind_Ret, Ha, bind_Ret, Hi in Hs.
  unfold schema_for in Hs. unfold has_slots.
  destruct (Z.eqb_spec (act_kind a) DTRACEACT_STACK) as [Ek|].
  { injection Hs as <-. exists []. rewrite Ek. split; [done|by vm_compute]. }
  destruct (Z.eqb_spec (act_kind a) DTRACEACT_USTACK) as [Ek|].
  { injection Hs as <-. exists []. rewrite Ek. split; [done|by vm_compute]. }
  destruct (_ || _) eqn:Et.
  { split_ret Hs. injection Hs as <-. exists []. split; [by intros Ek; rewrite Ek in Et|].
    set (m := Z.max 1 _). exists m. split; [done|unfold m, TRACEMEM_MAX; lia]. }
  destruct (Z.eqb_spec (act_kind a) DTRACEACT_PRINTF) as [Ek|].
  - split_ret Hs. injection Hs as <-. exists a1. split; [done|]. split; [done|].
    intros j Hj. by apply printf_slots.
  - injection Hs as <-. exists []. split; [done|]. by vm_compute.
Qed.
