(* ===== verification/CoreReloc.v ===== *)
(** CO-RE constants (host/bifrost, src/cli/source_rewrite.rs): the sentinels
    that stand for [CORE_OFFSETOF] sites in a compiled program, and
    [materialize_field_relocs], which replaces each of them by the offset the
    host resolved and reports where the guest is to patch.  The byte loop is
    shown to be [resolve_code], a pass over the program's slots. *)

From S2P Require Import Wire FieldReloc Emit Bpf Verify CodeFrag LowerOk Prelude.

Local Open Scope Z_scope.
Local Open Scope list_scope.

Record CoreOffsetofMarker : Type := {
  sentinel : Z;
  mk_struct_name : bytes;
  mk_field_name : bytes;
  fallback_offset : Z
}.

Definition CORE_OFFSETOF_SENTINEL_HI : Z := 0x7C0FCAFE.

Definition core_offsetof_sentinel (seq : Z) : Z :=
  Z.lor (Z.shiftl CORE_OFFSETOF_SENTINEL_HI 32) seq.

Definition is_core_offsetof_sentinel (imm64 : Z) : bool :=
  Z.shiftr imm64 32 mod 2 ^ 32 =? CORE_OFFSETOF_SENTINEL_HI.

(** The first marker of a sentinel, [markers.iter().find(..)]. *)
Fixpoint find_marker (imm64 : Z) (l : list CoreOffsetofMarker) : option CoreOffsetofMarker :=
  match l with
  | [] => None
  | m :: l => if sentinel m =? imm64 then Some m else find_marker imm64 l
  end.

(** The test and the search of the loop's [if .. && let Some(m) = ..]. *)
Definition marker_of (markers : list CoreOffsetofMarker) (imm64 : Z)
  : option CoreOffsetofMarker :=
  if is_core_offsetof_sentinel imm64 then find_marker imm64 markers else None.

(** [MaterializedFieldReloc] has the fields of the wire record. *)
Definition field_reloc_at (i : Z) (m : CoreOffsetofMarker) : FieldRelocView :=
  {| fr_insn_idx := i mod 2 ^ 32; fr_access_kind := FIELD_RELOC_OFFSET;
     fr_byte_off_in_insn := 4; fr_struct_name := mk_struct_name m;
     fr_field_name := mk_field_name m |}.

Section Materialize.
Context {E : Type} (markers : list CoreOffsetofMarker).

(** The body of the loop at [i]: the bytes it leaves, the step it takes and
    the relocation it reports. *)
Definition materialize_at (b : bytes) (i : Z)
  : outcome E (bytes * Z * list FieldRelocView) :=
  lo_code ← byte_at b i;
  lo_src_dst ← byte_at b (i + 1);
  hi_code ← byte_at b (i + 8);
  hi_src_dst ← byte_at b (i + 9);
  if (lo_code =? 0x18) && (Z.land lo_src_dst 0xF0 =? 0) && (hi_code =? 0x00) && (hi_src_dst =? 0)
  then
    lo_imm ← le_at 4 b (i + 4);
    hi_imm ← le_at 4 b (i + 12);
    match marker_of markers (Z.lor (Z.shiftl hi_imm 32) lo_imm) with
    | Some m =>
        b ← write b (i + 4) (to_le 4 (fallback_offset m));
        b ← write b (i + 12) (to_le 4 0);
        Ret (b, i + 16, [field_reloc_at i m])
    | None => Ret (b, i + 16, [])
    end
  else Ret (b, i + 8, []).

(** [while i + 16 <= ebpf.len()] *)
Fixpoint materialize_loop (fuel : nat) (b : bytes) (i : Z)
  : outcome E (bytes * list FieldRelocView) :=
  match fuel with
  | O => Ret (b, [])
  | S fuel =>
      if len b <? i + 16 then Ret (b, [])
      else
        r ← materialize_at b i;
        q ← materialize_loop fuel r.1.1 r.1.2;
        Ret (q.1, r.2 ++ q.2)
  end.

(** The program as it is left, and the relocations; the fuel is one turn per
    slot and one more, see [materialize_exact]. *)
Definition materialize_field_relocs (b : bytes) : outcome E (bytes * list FieldRelocView) :=
  if bool_decide (markers = []) || (len b <? 16) then Ret (b, [])
  else materialize_loop (S (Z.to_nat (len b / 8))) b 0.
End Materialize.

#[export] Instance marker_eq_dec : EqDecision CoreOffsetofMarker.
Proof. solve_decision. Defined.

(** ** The pass over slots *)

Definition imm_u32 (i : insn) : Z := i_imm i mod 2 ^ 32.

Definition with_imm (i : insn) (v : Z) : insn :=
  Insn (i_code i) (i_dst i) (i_src i) (i_off i) (as_i32 v).

(** A wide load of a constant, not of a map. *)
Definition wide_const (lo hi : insn) : bool :=
  (i_code lo =? 0x18) && (i_src lo =? 0) && (i_code hi =? 0) &&
  ((i_dst hi =? 0) && (i_src hi =? 0)).

Definition const_of (lo hi : insn) : Z := Z.lor (Z.shiftl (imm_u32 hi) 32) (imm_u32 lo).

(** Slot [k] on: every wide constant that is a marker's sentinel becomes the
    marker's offset. *)
Fixpoint resolve_code (markers : list CoreOffsetofMarker) (k : Z) (code : list insn)
  : list insn * list FieldRelocView :=
  match code with
  | lo :: ((hi :: rest) as code') =>
      if wide_const lo hi then
        let q := resolve_code markers (k + 2) rest in
        match marker_of markers (const_of lo hi) with
        | Some m => (with_imm lo (fallback_offset m) :: with_imm hi 0 :: q.1,
                     field_reloc_at (8 * k) m :: q.2)
        | None => (lo :: hi :: q.1, q.2)
        end
      else let q := resolve_code markers (k + 1) code' in (lo :: q.1, q.2)
  | _ => (code, [])
  end.

(** ** Reads and writes in the middle of the program *)

Lemma byte_at_past {E} (pre l : bytes) n x :
  l !! n = Some x -> byte_at (E:=E) (pre ++ l) (len pre + Z.of_nat n) = Ret (byte.unsigned x).
Proof.
  intros H. unfold byte_at. pose proof (len_nonneg pre).
  destruct (Z.leb_spec 0 (len pre + Z.of_nat n)); [|lia].
  rewrite lookup_app_r by (unfold len; lia).
  replace (Z.to_nat (len pre + Z.of_nat n) - length pre)%nat with n by (unfold len; lia).
  by rewrite H.
Qed.

Lemma le_at_past {E} (pre p s q : bytes) :
  le_at (E:=E) (length s) (pre ++ p ++ s ++ q) (len pre + len p) = Ret (le_combine s).
Proof.
  unfold le_at. rewrite app_assoc, <- len_app.
  rewrite (slice_mid (pre ++ p) s q); [done|done|unfold len; lia].
Qed.

Lemma write_past {E} (pre p s s' q : bytes) off :
  off = len pre + len p -> len s' = len s ->
  write (E:=E) (pre ++ p ++ s ++ q) off s' = Ret (pre ++ p ++ s' ++ q).
Proof.
  intros -> H. rewrite app_assoc, <- len_app, (app_assoc pre p (s' ++ q)).
  by rewrite (write_mid (pre ++ p) s q s').
Qed.

(** A slot as its code, register and offset bytes and its immediate. *)
Definition slot_bytes (head imm : bytes) : bytes := head ++ imm.

Lemma high_nibble x : (Z.land (byte.unsigned x) 0xF0 =? 0) = (Z.shiftr (byte.unsigned x) 4 =? 0).
Proof. by destruct x. Qed.

Lemma both_nibbles x :
  (byte.unsigned x =? 0) = (Z.land (byte.unsigned x) 0x0f =? 0) && (Z.shiftr (byte.unsigned x) 4 =? 0).
Proof. by destruct x. Qed.

Lemma imm_u32_slot b0 b1 b2 b3 b4 b5 b6 b7 :
  imm_u32 (decode_slot b0 b1 b2 b3 b4 b5 b6 b7) = le_combine [b4; b5; b6; b7].
Proof.
  unfold imm_u32, decode_slot. cbn [i_imm].
  pose proof (le_combine_bound [b4; b5; b6; b7]) as H. change (2 ^ (8 * Z.of_nat _)) with (2 ^ 32) in H.
  unfold to_signed. destruct (_ <? _).
  - by apply Z.mod_small.
  - change (2 ^ 32) with (1 * 2 ^ 32) at 1. rewrite <- (Z_mod_plus_full _ 1).
    rewrite Z.mul_1_l, Z.sub_add. by apply Z.mod_small.
Qed.

Lemma with_imm_slot b0 b1 b2 b3 b4 b5 b6 b7 v :
  exists c4 c5 c6 c7, to_le 4 v = [c4; c5; c6; c7] /\
    decode_slot b0 b1 b2 b3 c4 c5 c6 c7 = with_imm (decode_slot b0 b1 b2 b3 b4 b5 b6 b7) v.
Proof.
  pose proof (len_to_le 4 v) as Hl. destruct (to_le 4 v) as [|c4 [|c5 [|c6 [|c7 [|]]]]] eqn:E;
    try (unfold len in Hl; simpl in Hl; lia).
  exists c4, c5, c6, c7. split; [done|]. unfold decode_slot, with_imm, as_i32.
  cbn [i_code i_dst i_src i_off]. f_equal. f_equal. rewrite <- E. unfold to_le.
  by rewrite le_combine_split.
Qed.

(** ** The loop is the pass *)

Section Exact.
Context {E : Type} (markers : list CoreOffsetofMarker).

(** One turn, on a program whose slots from [len pre] on are two and [post]. *)
Lemma materialize_turn pre b0 b1 b2 b3 b4 b5 b6 b7 c0 c1 c2 c3 c4 c5 c6 c7 post :
  let lo := decode_slot b0 b1 b2 b3 b4 b5 b6 b7 in
  let hi := decode_slot c0 c1 c2 c3 c4 c5 c6 c7 in
  let b := pre ++ ([b0; b1; b2; b3; b4; b5; b6; b7] ++ [c0; c1; c2; c3; c4; c5; c6; c7]) ++ post in
  materialize_at (E:=E) markers b (len pre) =
  if wide_const lo hi then
    match marker_of markers (const_of lo hi) with
    | Some m =>
        Ret (pre ++ (([b0; b1; b2; b3] ++ to_le 4 (fallback_offset m)) ++
                     ([c0; c1; c2; c3] ++ to_le 4 0)) ++ post, len pre + 16,
             [field_reloc_at (len pre) m])
    | None => Ret (b, len pre + 16, [])
    end
  else Ret (b, len pre + 8, []).
Proof.
  intros lo hi b. unfold materialize_at.
  assert (R : forall n x, ([b0; b1; b2; b3; b4; b5; b6; b7] ++ [c0; c1; c2; c3; c4; c5; c6; c7]) !! n = Some x ->
    forall F, byte_at (E:=F) b (len pre + Z.of_nat n) = Ret (byte.unsigned x)).
  { intros n x Hn F. apply byte_at_past. by apply lookup_app_l_Some. }
  rewrite <- (Z.add_0_r (len pre)) at 1.
  rewrite (R 0%nat b0), bind_Ret, (R 1%nat b1), bind_Ret, (R 8%nat c0), bind_Ret,
    (R 9%nat c1), bind_Ret by done. clear R.
  rewrite high_nibble, (both_nibbles c1).
  change ((byte.unsigned b0 =? 0x18) && (Z.shiftr (byte.unsigned b1) 4 =? 0) &&
    (byte.unsigned c0 =? 0) && ((Z.land (byte.unsigned c1) 15 =? 0) &&
    (Z.shiftr (byte.unsigned c1) 4 =? 0))) with (wide_const lo hi).
  destruct (wide_const lo hi); [|done].
  pose proof (le_at_past (E:=E) pre [b0; b1; b2; b3] [b4; b5; b6; b7]
    ([c0; c1; c2; c3; c4; c5; c6; c7] ++ post)) as R1.
  pose proof (le_at_past (E:=E) pre ([b0; b1; b2; b3; b4; b5; b6; b7] ++ [c0; c1; c2; c3])
    [c4; c5; c6; c7] post) as R2.
  change (le_at (E:=E) 4 b (len pre + 4) = Ret (le_combine [b4; b5; b6; b7])) in R1.
  change (le_at (E:=E) 4 b (len pre + 12) = Ret (le_combine [c4; c5; c6; c7])) in R2.
  rewrite R1, bind_Ret, R2, bind_Ret. clear R1 R2.
  unfold const_of, lo, hi. rewrite !imm_u32_slot.
  destruct (marker_of markers _) as [m|]; [|done].
  pose proof (write_past (E:=E) pre [b0; b1; b2; b3] [b4; b5; b6; b7]
    (to_le 4 (fallback_offset m)) ([c0; c1; c2; c3; c4; c5; c6; c7] ++ post) (len pre + 4)
    eq_refl (len_to_le 4 _)) as W1.
  change (write (E:=E) b (len pre + 4) (to_le 4 (fallback_offset m)) = Ret (pre ++ [b0; b1; b2; b3] ++
    to_le 4 (fallback_offset m) ++ [c0; c1; c2; c3; c4; c5; c6; c7] ++ post)) in W1.
  rewrite W1, bind_Ret. clear W1.
  pose proof (write_past (E:=E) pre ([b0; b1; b2; b3] ++ to_le 4 (fallback_offset m) ++ [c0; c1; c2; c3])
    [c4; c5; c6; c7] (to_le 4 0) post (len pre + 12)) as W2.
  rewrite <- !app_assoc in W2.
  change ([c0; c1; c2; c3] ++ [c4; c5; c6; c7] ++ post)
    with ([c0; c1; c2; c3; c4; c5; c6; c7] ++ post) in W2.
  rewrite W2, bind_Ret; [by rewrite <- !app_assoc| |by rewrite len_to_le].
  rewrite !len_app, len_to_le. done.
Qed.

Lemma materialize_loop_exact n : forall pre post fuel,
  length post = (8 * n)%nat -> (n < fuel)%nat -> len pre mod 8 = 0 ->
  exists post', materialize_loop (E:=E) markers fuel (pre ++ post) (len pre) =
      Ret (pre ++ post', (resolve_code markers (len pre / 8) (decode_all post)).2) /\
    length post' = length post /\
    decode_all post' = (resolve_code markers (len pre / 8) (decode_all post)).1 /\
    ((resolve_code markers (len pre / 8) (decode_all post)).2 = [] -> post' = post).
Proof.
  induction n as [n IH] using lt_wf_ind. intros pre post fuel Hn Hf Hm.
  destruct fuel as [|fuel]; [lia|]. cbn [materialize_loop]. rewrite len_app.
  destruct (Z.ltb_spec (len pre + len post) (len pre + 16)) as [Hlt|Hge].
  { exists post. destruct n as [|[|n]]; [| |unfold len in Hlt; lia].
    - by destruct post.
    - do 8 (destruct post as [|? post]; [done|]). by destruct post. }
  do 16 (destruct post as [|? post]; [unfold len in Hge; simpl in Hge; lia|]).
  pose proof (materialize_turn pre b b0 b1 b2 b3 b4 b5 b6 b7 b8 b9 b10 b11 b12 b13 b14 post) as T.
  cbv zeta in T. change (pre ++ ([b; b0; b1; b2; b3; b4; b5; b6] ++ [b7; b8; b9; b10; b11; b12; b13; b14]) ++ post)
    with (pre ++ b :: b0 :: b1 :: b2 :: b3 :: b4 :: b5 :: b6 :: b7 :: b8 :: b9 :: b10 :: b11 ::
      b12 :: b13 :: b14 :: post) in T.
  rewrite T. clear T. cbn [decode_all resolve_code]. simpl in Hn.
  set (lo := decode_slot b b0 b1 b2 b3 b4 b5 b6). set (hi := decode_slot b7 _ _ _ _ _ _ _).
  assert (Hk : forall d, 0 <= d -> (len pre + 8 * d) mod 8 = 0 /\ (len pre + 8 * d) / 8 = len pre / 8 + d).
  { intros d Hd. rewrite Z.mul_comm, Z_mod_plus_full, Z_div_plus by lia. by split. }
  assert (Hnext : forall (h p q : bytes) (d : Z) (m : nat),
    d = 1 \/ d = 2 -> Z.of_nat m = Z.of_nat n - d -> length p = (8 * m)%nat -> len h = 8 * d ->
    exists q, materialize_loop (E:=E) markers fuel (pre ++ h ++ p) (len pre + 8 * d) =
      Ret (pre ++ h ++ q, (resolve_code markers (len pre / 8 + d) (decode_all p)).2) /\
      length q = length p /\
      decode_all q = (resolve_code markers (len pre / 8 + d) (decode_all p)).1 /\
      ((resolve_code markers (len pre / 8 + d) (decode_all p)).2 = [] -> q = p)).
  { intros h p _ d m Hd Hmn Hp Hh. destruct (Hk d ltac:(lia)) as [Hk1 Hk2].
    destruct (IH m ltac:(lia) (pre ++ h) p fuel Hp ltac:(lia)) as (q & H1 & H2 & H3 & H4);
      rewrite ?len_app, ?Hh; [done|].
    rewrite len_app, Hh, Hk2 in *. exists q. rewrite <- !app_assoc in H1. by split_and!. }
  destruct (wide_const lo hi).
  - destruct (marker_of markers _) as [m|].
    + destruct (with_imm_slot b b0 b1 b2 b3 b4 b5 b6 (fallback_offset m)) as (x4 & x5 & x6 & x7 & E1 & D1).
      destruct (with_imm_slot b7 b8 b9 b10 b11 b12 b13 b14 0) as (y4 & y5 & y6 & y7 & E2 & D2).
      rewrite bind_Ret, E1, E2. cbn [fst snd].
      destruct (Hnext [b; b0; b1; b2; x4; x5; x6; x7; b7; b8; b9; b10; y4; y5; y6; y7] post [] 2 (n - 2)%nat)
        as (q & H1 & H2 & H3 & H4); [by right|lia|lia|done|].
      change (len pre + 16) with (len pre + 8 * 2).
      eexists. split_and!.
      * etransitivity; [apply (f_equal (mbind _)), H1|]. rewrite bind_Ret. cbn [fst snd].
        replace (8 * (len pre / 8)) with (len pre) by (rewrite (Z.div_mod (len pre) 8) at 1; lia).
        done.
      * simpl. by rewrite H2.
      * cbn [app decode_all]. rewrite H3, D1, D2. done.
      * done.
    + rewrite bind_Ret. cbn [fst snd].
      destruct (Hnext [b; b0; b1; b2; b3; b4; b5; b6; b7; b8; b9; b10; b11; b12; b13; b14] post [] 2 (n - 2)%nat)
        as (q & H1 & H2 & H3 & H4); [by right|lia|lia|done|].
      change (len pre + 16) with (len pre + 8 * 2).
      eexists. split_and!.
      * etransitivity; [apply (f_equal (mbind _)), H1|]. done.
      * simpl. by rewrite H2.
      * cbn [app decode_all]. by rewrite H3.
      * cbn [snd]. intros Hq. by rewrite (H4 Hq).
  - rewrite bind_Ret. cbn [fst snd].
    destruct (Hnext [b; b0; b1; b2; b3; b4; b5; b6]
      (b7 :: b8 :: b9 :: b10 :: b11 :: b12 :: b13 :: b14 :: post) [] 1 (n - 1)%nat)
      as (q & H1 & H2 & H3 & H4); [by left|lia|simpl; lia|done|].
    change (len pre + 8) with (len pre + 8 * 1).
    eexists. split_and!.
    + etransitivity; [apply (f_equal (mbind _)), H1|]. done.
    + simpl. simpl in H2. by rewrite H2.
    + cbn [app decode_all]. rewrite H3. done.
    + cbn [snd]. intros Hq. by rewrite (H4 Hq).
Qed.
End Exact.

(** ** What the pass keeps *)

Section Kept.
Context (markers : list CoreOffsetofMarker).

Lemma resolve_narrow k i rest :
  i_code i <> 0x18 ->
  resolve_code markers k (i :: rest) =
    (i :: (resolve_code markers (k + 1) rest).1, (resolve_code markers (k + 1) rest).2).
Proof.
  intros Hi. destruct rest as [|hi rest]; [done|]. cbn [resolve_code]. unfold wide_const.
  by destruct (Z.eqb_spec (i_code i) 0x18).
Qed.

Lemma resolve_wide k lo hi rest :
  i_code lo = 0x18 -> i_code hi = 0 ->
  let q := resolve_code markers (k + 2) rest in
  resolve_code markers k (lo :: hi :: rest) =
    match (if wide_const lo hi then marker_of markers (const_of lo hi) else None) with
    | Some m => (with_imm lo (fallback_offset m) :: with_imm hi 0 :: q.1,
                 field_reloc_at (8 * k) m :: q.2)
    | None => (lo :: hi :: q.1, q.2)
    end.
Proof.
  intros Hlo Hhi q. unfold q. cbn [resolve_code].
  destruct (wide_const lo hi) eqn:Hw; [by destruct (marker_of _ _)|].
  pose proof (resolve_narrow (k + 1) hi rest) as H. rewrite Hhi in H.
  replace (k + 1 + 1) with (k + 2) in H by lia. specialize (H ltac:(lia)).
  cbn [resolve_code] in H. by rewrite H.
Qed.

Lemma is_kcall_wide lo : i_code lo = 0x18 -> is_kcall lo = false.
Proof. unfold is_kcall. by intros ->. Qed.

Lemma is_kcall_high hi : i_code hi = 0 -> is_kcall hi = false.
Proof. unfold is_kcall. by intros ->. Qed.

Lemma resolve_keeps n k code :
  code_ok n k code ->
  code_ok n k (resolve_code markers k code).1 /\
  kcalls k (resolve_code markers k code).1 = kcalls k code.
Proof.
  induction 1 as [k|k lo hi rest Hlo Hr Hhi Hc [IH1 IH2]|k i rest Hi Hr Hn Hc [IH1 IH2]].
  - by split; [constructor|].
  - rewrite resolve_wide by done. cbn [kcalls].
    rewrite (is_kcall_wide lo), (is_kcall_high hi) by done.
    replace (k + 1 + 1) with (k + 2) by lia. rewrite <- IH2.
    destruct (if wide_const lo hi then _ else _) as [m|]; cbn [fst kcalls].
    + rewrite (is_kcall_wide (with_imm _ _)), (is_kcall_high (with_imm _ _)) by done.
      replace (k + 1 + 1) with (k + 2) by lia. split; [by constructor|done].
    + rewrite (is_kcall_wide lo), (is_kcall_high hi) by done.
      replace (k + 1 + 1) with (k + 2) by lia. split; [by constructor|done].
  - rewrite resolve_narrow by done. cbn [fst kcalls]. rewrite IH2. split; [by apply ok_narrow|done].
Qed.

Lemma resolve_length k code :
  length (resolve_code markers k code).1 = length code.
Proof.
  remember (length code) as n eqn:Hn. revert k code Hn.
  induction n as [n IH] using lt_wf_ind. intros k [|lo [|hi rest]] ->; [done..|].
  cbn [resolve_code]. destruct (wide_const lo hi).
  - specialize (IH (length rest) ltac:(cbn [length]; lia) (k + 2) rest eq_refl).
    destruct (marker_of _ _); cbn [fst length]; lia.
  - specialize (IH (length (hi :: rest)) ltac:(cbn [length]; lia) (k + 1) (hi :: rest) eq_refl).
    cbn [fst length]. f_equal. exact IH.
Qed.

Lemma offset_not_sentinel v : in_u 32 v -> is_core_offsetof_sentinel v = false.
Proof.
  intros [H0 H1]. unfold is_core_offsetof_sentinel. rewrite Z.shiftr_div_pow2 by lia.
  rewrite Z.div_small by lia. done.
Qed.

Lemma const_of_patched lo hi v : in_u 32 v -> const_of (with_imm lo v) (with_imm hi 0) = v.
Proof.
  intros Hv. unfold const_of, imm_u32, with_imm. cbn [i_imm].
  assert (H : forall x, in_u 32 x -> as_i32 x mod 2 ^ 32 = x).
  { intros x [? ?]. unfold as_i32, to_signed. rewrite (Z.mod_small x) by lia.
    destruct (_ <? _); [by apply Z.mod_small|].
    rewrite <- (Z_mod_plus_full _ 1), Z.mul_1_l, Z.sub_add. apply Z.mod_small. lia. }
  rewrite !H; [done|done|]. unfold in_u. lia.
Qed.

(** A second pass finds nothing to do. *)
Lemma resolve_done n k code :
  Forall (fun m => in_u 32 (fallback_offset m)) markers -> code_ok n k code ->
  resolve_code markers k (resolve_code markers k code).1 = ((resolve_code markers k code).1, []).
Proof.
  intros Hm. induction 1 as [k|k lo hi rest Hlo Hr Hhi Hc IH|k i rest Hi Hr Hn Hc IH]; [done| |].
  - rewrite (resolve_wide k lo hi) by done.
    destruct (if wide_const lo hi then _ else _) as [m|] eqn:Ew; cbn [fst].
    + rewrite resolve_wide, IH by done. rewrite const_of_patched.
      * unfold marker_of. rewrite offset_not_sentinel; [by destruct (wide_const _ _)|].
        destruct (wide_const lo hi); [|done]. unfold marker_of in Ew.
        destruct (is_core_offsetof_sentinel _); [|done].
        clear -Ew Hm. induction Hm as [|x l Hx Hl IHl]; [done|]. cbn [find_marker] in Ew.
        destruct (_ =? _); [by injection Ew as <-|auto].
      * destruct (wide_const lo hi); [|done]. unfold marker_of in Ew.
        destruct (is_core_offsetof_sentinel _); [|done].
        clear -Ew Hm. induction Hm as [|x l Hx Hl IHl]; [done|]. cbn [find_marker] in Ew.
        destruct (_ =? _); [by injection Ew as <-|auto].
    + rewrite resolve_wide, IH, Ew by done. done.
  - rewrite (resolve_narrow k i) by done. cbn [fst]. rewrite resolve_narrow, IH by done. done.
Qed.
End Kept.

Lemma resolve_no_markers k code : resolve_code [] k code = (code, []).
Proof.
  remember (length code) as n eqn:Hn. revert k code Hn.
  induction n as [n IH] using lt_wf_ind. intros k [|lo [|hi rest]] ->; [done..|].
  cbn [resolve_code]. destruct (wide_const lo hi).
  - specialize (IH (length rest) ltac:(cbn [length]; lia) (k + 2) rest eq_refl). rewrite IH.
    unfold marker_of. by destruct (is_core_offsetof_sentinel _).
  - specialize (IH (length (hi :: rest)) ltac:(cbn [length]; lia) (k + 1) (hi :: rest) eq_refl).
    cbn [resolve_code] in IH. by rewrite IH.
Qed.

(** The loop on a program of whole slots: the pass over them. *)
Lemma materialize_exact {E} markers p :
  len p mod 8 = 0 ->
  exists p', materialize_field_relocs (E:=E) markers p =
      Ret (p', (resolve_code markers 0 (decode_all p)).2) /\
    len p' = len p /\ decode_all p' = (resolve_code markers 0 (decode_all p)).1 /\
    ((resolve_code markers 0 (decode_all p)).2 = [] -> p' = p).
Proof.
  intros H8. unfold materialize_field_relocs. pose proof (decode_whole p H8) as Hw.
  case_bool_decide as Hm; cbn [orb].
  { rewrite Hm, resolve_no_markers. by exists p. }
  destruct (Z.ltb_spec (len p) 16) as [Hlt|Hge].
  { exists p. destruct (decode_all p) as [|lo [|hi rest]] eqn:E0; [done|done|].
    rewrite !len_cons in Hw. pose proof (len_nonneg rest). lia. }
  destruct (materialize_loop_exact (E:=E) markers (length (decode_all p)) [] p
    (S (Z.to_nat (len p / 8)))) as (p' & H1 & H2 & H3 & H4); [unfold len in Hw; lia| |done|].
  { rewrite Hw, Z.mul_comm, Z.div_mul by lia. unfold len. lia. }
  exists p'. split; [exact H1|]. split; [unfold len; by rewrite H2|]. split; [exact H3|exact H4].
Qed.

(** Materialising a program the verifier accepts. *)
Lemma materialize_verified {E} markers p :
  verify p = Ret tt ->
  exists p' rs, materialize_field_relocs (E:=E) markers p = Ret (p', rs) /\
    (decode_all p', rs) = resolve_code markers 0 (decode_all p) /\
    len p' = len p /\ verify p' = Ret tt /\
    kcalls 0 (decode_all p') = kcalls 0 (decode_all p).
Proof.
  intros (Hne & H8 & Hc)%verify_sound.
  destruct (materialize_exact (E:=E) markers p H8) as (p' & H1 & H2 & H3 & _).
  destruct (resolve_keeps markers _ _ _ Hc) as [K1 K2].
  exists p', (resolve_code markers 0 (decode_all p)).2. split_and!; [done| |done| |].
  - rewrite H3. by destruct (resolve_code _ _ _).
  - apply verify_complete. split_and!; [|by rewrite H2|by rewrite H2, H3].
    intros ->. destruct p; [done|]. unfold len in H2. simpl in H2. lia.
  - by rewrite H3.
Qed.

(** Materialisation never panics, on any bytes, and keeps their number. *)
Lemma materialize_at_safe {E} markers b i :
  0 <= i -> i + 16 <= len b ->
  exists b' i' rs, materialize_at (E:=E) markers b i = Ret (b', i', rs) /\
    len b' = len b /\ (i' = i + 8 \/ i' = i + 16).
Proof.
  intros Hi Hb. unfold materialize_at.
  destruct (byte_at_ok (E:=E) b i) as (v0 & -> & _); [lia|]. rewrite bind_Ret.
  destruct (byte_at_ok (E:=E) b (i + 1)) as (v1 & -> & _); [lia|]. rewrite bind_Ret.
  destruct (byte_at_ok (E:=E) b (i + 8)) as (v2 & -> & _); [lia|]. rewrite bind_Ret.
  destruct (byte_at_ok (E:=E) b (i + 9)) as (v3 & -> & _); [lia|]. rewrite bind_Ret.
  destruct (_ && _); [|eexists _, _, _; split_and!; auto].
  destruct (le_at_ok (E:=E) 4 b (i + 4)) as (lo & -> & _); [lia|lia|]. rewrite bind_Ret.
  destruct (le_at_ok (E:=E) 4 b (i + 12)) as (hi & -> & _); [lia|lia|]. rewrite bind_Ret.
  destruct (marker_of _ _) as [m|]; [|eexists _, _, _; split_and!; auto].
  assert (W : forall x off v, len x = len b -> 0 <= off -> off + 4 <= len b ->
    exists y, write (E:=E) x off (to_le 4 v) = Ret y /\ len y = len b).
  { intros x off v Hx H0 H1. destruct (write (E:=E) x off (to_le 4 v)) as [y|e|] eqn:Ew.
    - exists y. split; [done|]. apply len_write in Ew. lia.
    - unfold write in Ew. by destruct (_ && _).
    - exfalso. revert Ew. apply safe_write; rewrite ?len_to_le; lia. }
  destruct (W b (i + 4) (fallback_offset m)) as (y & -> & Hy); [done|lia|lia|]. rewrite bind_Ret.
  destruct (W y (i + 12) 0) as (z & -> & Hz); [done|lia|lia|]. rewrite bind_Ret.
  eexists _, _, _; split_and!; auto.
Qed.

Lemma materialize_safe {E} markers b :
  exists b' rs, materialize_field_relocs (E:=E) markers b = Ret (b', rs) /\ len b' = len b.
Proof.
  unfold materialize_field_relocs. destruct (_ || _); [by exists b, []|].
  assert (H : forall fuel b i, 0 <= i ->
    exists b' rs, materialize_loop (E:=E) markers fuel b i = Ret (b', rs) /\ len b' = len b).
  { induction fuel as [|fuel IH]; intros x i Hi; cbn [materialize_loop]; [by exists x, []|].
    destruct (Z.ltb_spec (len x) (i + 16)); [by exists x, []|].
    destruct (materialize_at_safe (E:=E) markers x i Hi) as (y & j & rs & -> & Hy & Hj); [lia|].
    rewrite bind_Ret. cbn [fst snd]. destruct (IH y j) as (z & rs' & -> & Hz); [lia|].
    rewrite bind_Ret. eexists _, _. split; [done|]. cbn [fst]. lia. }
  by apply H.
Qed.

(** C12: materialising the CO-RE sites of a program the verifier accepts
    returns a program it still accepts, with the same kernel-function calls
    and, slot for slot, the code in which every wide constant that is a
    marker's sentinel holds that marker's offset; there is one relocation per
    replaced constant, in order, and a second run would find none left. *)
Theorem materialize_resolves {E} markers p
    (Hm : Forall (fun m => in_u 32 (fallback_offset m)) markers) (Hp : verify p = Ret tt) :
  exists p' rs, materialize_field_relocs (E:=E) markers p = Ret (p', rs) /\
    (decode_all p', rs) = resolve_code markers 0 (decode_all p) /\
    verify p' = Ret tt /\ kcalls 0 (decode_all p') = kcalls 0 (decode_all p) /\
    materialize_field_relocs (E:=E) markers p' = Ret (p', []).
Proof.
  destruct (materialize_verified (E:=E) markers p Hp) as (p' & rs & H1 & H2 & H3 & H4 & H5).
  exists p', rs. split_and!; [done..|]. apply verify_sound in Hp as (Hne & H8 & Hc).
  destruct (materialize_exact (E:=E) markers p' ltac:(by rewrite H3)) as (p2 & E1 & _ & _ & E4).
  pose proof (resolve_done markers _ _ _ Hm Hc) as Hd. rewrite <- H2 in Hd. cbn [fst] in Hd.
  rewrite Hd in E1, E4. rewrite E1. by rewrite (E4 eq_refl).
Qed.
