(* ===== verification/AggDecl.v ===== *)
(** Aggregation declarations (host/bifrost, src/cli/agg_decl.rs, and the name
    scanner of src/cli/xagg.rs): the scanner that blanks the comments and
    strings of a D source and the one that recovers, in the order of their
    first declaration, the aggregations it declares. *)

From Stdlib Require Import Strings.String.
From stdpp Require Import gmap.
From S2P Require Import Utf8 Text Text Schema Prelude.

Local Open Scope Z_scope.
Local Open Scope list_scope.

(** Ordered as in the source; [Unknown], which its comment speaks of, is not a
    constructor. *)
Inductive AggKind : Type :=
| Count | Sum | Min | Max | Avg | Stddev | Quantize | Lquantize | Llquantize.

#[export] Instance AggKind_eq_dec : EqDecision AggKind.
Proof. solve_decision. Defined.

Record AggDecl : Type := {
  aggid : Z;
  agg_name : bytes;
  agg_kind : AggKind;
  n_keys : nat
}.

Definition as_str (k : AggKind) : bytes :=
  match k with
  | Count => str "count"
  | Sum => str "sum"
  | Min => str "min"
  | Max => str "max"
  | Avg => str "avg"
  | Stddev => str "stddev"
  | Quantize => str "quantize"
  | Lquantize => str "lquantize"
  | Llquantize => str "llquantize"
  end.

Definition from_call_name (name : bytes) : option AggKind :=
  if bool_decide (name = str "count") then Some Count
  else if bool_decide (name = str "sum") then Some Sum
  else if bool_decide (name = str "min") then Some Min
  else if bool_decide (name = str "max") then Some Max
  else if bool_decide (name = str "avg") then Some Avg
  else if bool_decide (name = str "stddev") then Some Stddev
  else if bool_decide (name = str "quantize") then Some Quantize
  else if bool_decide (name = str "lquantize") then Some Lquantize
  else if bool_decide (name = str "llquantize") then Some Llquantize
  else None.

(** ** [strip_comments_and_strings] *)

(** Where the scanner is: in code, in a line comment, in a block comment or in
    a string. *)
Inductive strip_mode : Type := Code | Line | Block | Str.

Definition blank (x : Init.Byte.byte) : Init.Byte.byte := if byte_is x 0x0a then NL else SP.

Fixpoint strip (m : strip_mode) (l : bytes) : bytes :=
  match l with
  | [] => []
  | a :: l1 =>
      match m with
      | Code =>
          match l1 with
          | b :: l2 =>
              if byte_is a 0x2f && byte_is b 0x2f then SP :: SP :: strip Line l2
              else if byte_is a 0x2f && byte_is b 0x2a then SP :: SP :: strip Block l2
              else if byte_is a 0x22 then a :: strip Str l1
              else a :: strip Code l1
          | [] => if byte_is a 0x22 then a :: strip Str l1 else a :: strip Code l1
          end
      | Line => if byte_is a 0x0a then a :: strip Code l1 else SP :: strip Line l1
      | Block =>
          match l1 with
          | b :: l2 =>
              if byte_is a 0x2a && byte_is b 0x2f then SP :: SP :: strip Code l2
              else blank a :: strip Block l1
          | [] => [SP]
          end
      | Str =>
          if byte_is a 0x22 then a :: strip Code l1
          else
            match l1 with
            | _ :: l2 => if byte_is a 0x5c then SP :: SP :: strip Str l2
                         else blank a :: strip Str l1
            | [] => blank a :: strip Str l1
            end
      end
  end.

(** The result is a [String]; bytes that are not one would be a panic. *)
Definition strip_comments_and_strings {E} (src : bytes) : outcome E bytes :=
  if utf8_valid (strip Code src) then Ret (strip Code src) else Panic.

(** ** [discover_aggs] *)

(** [while k < bytes.len() && depth > 0], past the opening bracket. *)
Fixpoint scan_keys (depth : Z) (n : nat) (l : bytes) : nat * bytes :=
  if depth <=? 0 then (n, l)
  else
    match l with
    | [] => (n, [])
    | x :: l =>
        if byte_is x 0x5b then scan_keys (depth + 1) n l
        else if byte_is x 0x5d then scan_keys (depth - 1) n l
        else if byte_is x 0x2c && (depth =? 1) then scan_keys depth (S n) l
        else scan_keys depth n l
    end.

(** The key list after the name, and what follows it. *)
Definition scan_tuple (l : bytes) : nat * bytes :=
  match skip_whitespace l with
  | x :: l' =>
      if byte_is x 0x5b
      then let '(n, r) := scan_keys 1 1 l' in (n, skip_whitespace r)
      else (O, x :: l')
  | [] => (O, [])
  end.

(** [= <call> (], after the keys; the rest starts at the parenthesis. *)
Definition scan_call (l : bytes) : option (AggKind * bytes) :=
  match l with
  | x :: l =>
      if byte_is x 0x3d then
        let '(call, r) := take_ident (skip_whitespace l) in
        if bool_decide (call = []) then None
        else
          match skip_whitespace r with
          | y :: r' =>
              if byte_is y 0x28
              then k ← from_call_name call; Some (k, y :: r')
              else None
          | [] => None
          end
      else None
  | [] => None
  end.

(** One turn of the loop at [l], the declarations so far in [out]: the
    declarations and where the next turn starts. *)
Definition discover_step (l : bytes) (out : list AggDecl) : list AggDecl * bytes :=
  match l with
  | [] => (out, [])
  | x :: l1 =>
      if negb (byte_is x 0x40) then (out, l1)
      else
        let '(name, j) := take_ident l1 in
        if bool_decide (name = []) then (out, l1)
        else
          let '(n, r) := scan_tuple j in
          match scan_call r with
          | None => (out, j)
          | Some (kind, k) =>
              if existsb (fun d => bool_decide (agg_name d = name)) out then (out, j)
              else (out ++ [{| aggid := len out + 1; agg_name := name; agg_kind := kind;
                               n_keys := n |}], k)
          end
  end.

(** The fuel is one turn per byte, see [discover_mono]. *)
Fixpoint discover_loop (fuel : nat) (l : bytes) (out : list AggDecl) : list AggDecl :=
  match fuel, l with
  | S fuel, _ :: _ => let '(out, l) := discover_step l out in discover_loop fuel l out
  | _, _ => out
  end.

Definition discover_aggs {E} (src : bytes) : outcome E (list AggDecl) :=
  cleaned ← strip_comments_and_strings src;
  Ret (discover_loop (length cleaned) cleaned []).

(** [decls.iter().map(..).collect()] *)
Definition agg_id_map (decls : list AggDecl) : gmap Z (bytes * bytes) :=
  fold_left (fun m d => <[aggid d := (as_str (agg_kind d), agg_name d)]> m) decls ∅.

(** ** [extract_nth_agg_name] *)

(** The loop of [extract_nth_agg_name] at [l], [seen] names before it; the
    bytes of a name are ASCII, which the lossy conversion keeps. *)
Fixpoint nth_agg_loop (fuel : nat) (l : bytes) (seen n : Z) : option bytes :=
  match fuel, l with
  | S fuel, x :: l1 =>
      if byte_is x 0x40 then
        match l1 with
        | y :: _ =>
            if is_ascii_alphabetic y || byte_is y 0x5f then
              let '(name, k) := take_ident l1 in
              if seen + 1 =? n then Some name else nth_agg_loop fuel k (seen + 1) n
            else nth_agg_loop fuel l1 seen n
        | [] => None
        end
      else nth_agg_loop fuel l1 seen n
  | _, _ => None
  end.

Definition extract_nth_agg_name (body : bytes) (n : Z) : option bytes :=
  if n =? 0 then None else nth_agg_loop (length body) body 0 n.

Definition extract_first_agg_name (body : bytes) : option bytes := extract_nth_agg_name body 1.

(** Concrete runs. *)
Example discover_two : discover_aggs (E:=Empty_set)
  (str "BEGIN { /* @old = count(); */ @a = count(); @b[arg0, arg1[1,2]] = sum(arg1); @a = max(1); }") =
  Ret [ {| aggid := 1; agg_name := str "a"; agg_kind := Count; n_keys := 0 |};
        {| aggid := 2; agg_name := str "b"; agg_kind := Sum; n_keys := 2 |} ].
Proof. reflexivity. Qed.

(** ** Blanking keeps the shape of the source *)

(** One turn of the scanner in each mode. *)
Lemma strip_Code a b l :
  strip Code (a :: b :: l) =
  if byte_is a 0x2f && byte_is b 0x2f then SP :: SP :: strip Line l
  else if byte_is a 0x2f && byte_is b 0x2a then SP :: SP :: strip Block l
  else if byte_is a 0x22 then a :: strip Str (b :: l) else a :: strip Code (b :: l).
Proof. reflexivity. Qed.

Lemma strip_Line a l :
  strip Line (a :: l) = if byte_is a 0x0a then a :: strip Code l else SP :: strip Line l.
Proof. reflexivity. Qed.

Lemma strip_Block a b l :
  strip Block (a :: b :: l) =
  if byte_is a 0x2a && byte_is b 0x2f then SP :: SP :: strip Code l
  else blank a :: strip Block (b :: l).
Proof. reflexivity. Qed.

Lemma strip_Str a b l :
  strip Str (a :: b :: l) =
  if byte_is a 0x22 then a :: strip Code (b :: l)
  else if byte_is a 0x5c then SP :: SP :: strip Str l else blank a :: strip Str (b :: l).
Proof. reflexivity. Qed.

Lemma strip_length l : forall m, length (strip m l) = length l.
Proof.
  induction l as [| a IH| a b l IH1 IH2] using bytes_ind2; intros m; [by destruct m|..].
  - destruct m; cbn [strip]; [destruct (byte_is a 0x22)|destruct (byte_is a 0x0a)| |destruct (byte_is a 0x22)];
      cbn [length]; by rewrite ?IH.
  - destruct m.
    + rewrite strip_Code. destruct (byte_is a 0x2f && byte_is b 0x2f); [cbn [length]; by rewrite IH1|].
      destruct (byte_is a 0x2f && byte_is b 0x2a); [cbn [length]; by rewrite IH1|].
      destruct (byte_is a 0x22); apply (f_equal S), IH2.
    + rewrite strip_Line. destruct (byte_is a 0x0a); apply (f_equal S), IH2.
    + rewrite strip_Block. destruct (byte_is a 0x2a && byte_is b 0x2f); [cbn [length]; by rewrite IH1|].
      apply (f_equal S), IH2.
    + rewrite strip_Str. destruct (byte_is a 0x22); [apply (f_equal S), IH2|].
      destruct (byte_is a 0x5c); [cbn [length]; by rewrite IH1|]. apply (f_equal S), IH2.
Qed.

Lemma blank_ascii x : ascii_byte (blank x).
Proof. unfold blank. by destruct (byte_is x 0x0a). Qed.

Lemma SP_ascii : ascii_byte SP.
Proof. done. Qed.

#[local] Hint Resolve blank_ascii SP_ascii utf8_ascii utf8_nil : core.

(** Code is copied a character at a time. *)
Lemma strip_code_wide c l :
  Forall high_byte c -> strip Code (c ++ l) = c ++ strip Code l.
Proof.
  induction 1 as [|x c Hx Hc IH]; [done|]. cbn [app strip].
  assert (Hn : forall v, v < 0x80 -> byte_is x v = false)
    by (unfold byte_is, high_byte in *; intros; lia).
  destruct (c ++ l) as [|b r] eqn:E; rewrite !Hn, ?andb_false_l by done; by rewrite <- IH.
Qed.

Lemma strip_utf8_suffix l :
  (utf8 l -> utf8 (strip Code l)) /\
  (forall m, m <> Code -> utf8_suffix l -> utf8 (strip m l)).
Proof.
  remember (length l) as n eqn:Hn. revert l Hn.
  induction n as [n IH] using lt_wf_ind. intros l ->.
  assert (IC : forall r, (length r < length l)%nat -> utf8 r -> utf8 (strip Code r))
    by (intros r Hr; by destruct (IH _ Hr r eq_refl)).
  assert (IM : forall r m, (length r < length l)%nat -> m <> Code -> utf8_suffix r -> utf8 (strip m r))
    by (intros r m Hr; destruct (IH _ Hr r eq_refl); auto).
  clear IH. split.
  - intros H. destruct H as [|x r Hx Hr|c r Hc Hr]; [done| |].
    + assert (HS : utf8_suffix r) by (by apply utf8_is_suffix).
      destruct r as [|b r].
      { cbn [strip]. destruct (byte_is x 0x22); apply utf8_ascii; auto. }
      rewrite strip_Code. destruct (byte_is x 0x2f && byte_is b 0x2f).
      { do 2 (apply utf8_ascii; [done|]). apply IM; [simpl; lia|done|by eapply utf8_suffix_tail]. }
      destruct (byte_is x 0x2f && byte_is b 0x2a).
      { do 2 (apply utf8_ascii; [done|]). apply IM; [simpl; lia|done|by eapply utf8_suffix_tail]. }
      destruct (byte_is x 0x22).
      { apply utf8_ascii; [done|]. apply IM; [simpl; lia|done..]. }
      apply utf8_ascii; [done|]. apply IC; [simpl; lia|done].
    + pose proof Hc as (Hne & Hh & _). rewrite strip_code_wide by done.
      apply utf8_wide; [done|]. apply IC; [|done]. rewrite length_app.
      destruct c; [done|simpl; lia].
  - intros m Hm HS. destruct l as [|a l]; [by destruct m|].
    assert (HT : utf8_suffix l) by (by eapply utf8_suffix_tail).
    destruct m; [done| | |].
    + rewrite strip_Line. destruct (byte_is a 0x0a) eqn:Ea.
      * pose proof (byte_is_ascii _ _ Ea eq_refl) as Ha.
        apply utf8_ascii; [done|]. apply IC; [simpl; lia|by eapply utf8_after_ascii].
      * apply utf8_ascii; [done|]. apply IM; [simpl; lia|done..].
    + destruct l as [|b l]; [by apply utf8_ascii|].
      rewrite strip_Block. destruct (byte_is a 0x2a && byte_is b 0x2f) eqn:Eab.
      * apply andb_true_iff in Eab as [_ Eb]. pose proof (byte_is_ascii _ _ Eb eq_refl) as Hb.
        do 2 (apply utf8_ascii; [done|]). apply IC; [simpl; lia|by eapply utf8_after_ascii].
      * apply utf8_ascii; [done|]. apply IM; [simpl; lia|done..].
    + destruct l as [|b l].
      { cbn [strip]. destruct (byte_is a 0x22) eqn:Ea; apply utf8_ascii; auto.
        apply (byte_is_ascii _ _ Ea eq_refl). }
      rewrite strip_Str. destruct (byte_is a 0x22) eqn:Ea.
      * pose proof (byte_is_ascii _ _ Ea eq_refl) as Ha.
        apply utf8_ascii; [done|]. apply IC; [simpl; lia|by eapply utf8_after_ascii].
      * destruct (byte_is a 0x5c).
        -- do 2 (apply utf8_ascii; [done|]). apply IM; [simpl; lia|done|by eapply utf8_suffix_tail].
        -- apply utf8_ascii; [done|]. apply IM; [simpl; lia|done..].
Qed.

Lemma strip_valid src : utf8_valid src = true -> utf8_valid (strip Code src) = true.
Proof. intros H. by apply valid_of_utf8, (proj1 (strip_utf8_suffix src)), utf8_of_valid. Qed.

Lemma strip_ok {E} src :
  utf8_valid src = true -> strip_comments_and_strings (E:=E) src = Ret (strip Code src).
Proof.
  intros H. unfold strip_comments_and_strings. by rewrite strip_valid.
Qed.

(** *** Blanked source is left alone *)

Definition is_blank (x : Init.Byte.byte) : Prop := x = SP \/ x = NL.

Lemma blank_is_blank x : is_blank (blank x).
Proof. unfold blank, is_blank. destruct (byte_is x 0x0a); auto. Qed.

(** A blank in front of any source changes nothing. *)
Lemma strip_code_blank x l : is_blank x -> strip Code (x :: l) = x :: strip Code l.
Proof. by intros [-> | ->]; destruct l. Qed.

Lemma strip_str_blank x l : is_blank x -> strip Str (x :: l) = x :: strip Str l.
Proof. by intros [-> | ->]; destruct l. Qed.

Lemma strip_code_plain a l :
  byte_is a 0x2f = false -> byte_is a 0x22 = false -> strip Code (a :: l) = a :: strip Code l.
Proof. intros H1 H2. destruct l; cbn [strip]; by rewrite ?H1, H2. Qed.

Lemma strip_code_quote a l : byte_is a 0x22 = true -> strip Code (a :: l) = a :: strip Str l.
Proof.
  intros H. assert (Ha : byte_is a 0x2f = false) by (apply byte_is_eq in H; unfold byte_is; lia).
  destruct l; cbn [strip]; by rewrite ?Ha, H.
Qed.

(** The first byte of blanked code is the source's or a blank. *)
Lemma strip_code_head b l :
  exists r, strip Code (b :: l) = b :: r \/ strip Code (b :: l) = SP :: r.
Proof.
  destruct l as [|c l]; cbn [strip].
  - destruct (byte_is b 0x22); eexists; by left.
  - destruct (byte_is b 0x2f && byte_is c 0x2f); [eexists; by right|].
    destruct (byte_is b 0x2f && byte_is c 0x2a); [eexists; by right|].
    destruct (byte_is b 0x22); eexists; by left.
Qed.

Lemma strip_twice l :
  strip Code (strip Code l) = strip Code l /\
  strip Code (strip Line l) = strip Line l /\
  strip Code (strip Block l) = strip Block l /\
  strip Str (strip Str l) = strip Str l.
Proof.
  assert (HS : is_blank SP) by (by left).
  induction l as [| a IH| a b l IH1 IH2] using bytes_ind2; [done|..].
  - clear IH. split_and!; cbn [strip].
    + destruct (byte_is a 0x22) eqn:E; cbn [strip]; by rewrite E.
    + destruct (byte_is a 0x0a) eqn:E; cbn [strip]; [|done].
      destruct (byte_is a 0x22); done.
    + done.
    + destruct (byte_is a 0x22) eqn:E; cbn [strip]; [by rewrite E|].
      pose proof (blank_is_blank a) as Hb. unfold blank in *. by destruct (byte_is a 0x0a).
  - destruct IH1 as (C1 & L1 & B1 & S1), IH2 as (C2 & L2 & B2 & S2). split_and!.
    + rewrite !(strip_Code a b l).
      destruct (byte_is a 0x2f && byte_is b 0x2f) eqn:E1.
      { by rewrite !strip_code_blank, L1. }
      destruct (byte_is a 0x2f && byte_is b 0x2a) eqn:E2.
      { by rewrite !strip_code_blank, B1. }
      destruct (byte_is a 0x22) eqn:E3.
      { by rewrite strip_code_quote, S2. }
      destruct (byte_is a 0x2f) eqn:Ea; [|by rewrite strip_code_plain, C2].
      cbn [andb] in E1, E2. destruct (strip_code_head b l) as [r [Hr|Hr]]; rewrite Hr in *.
      * rewrite strip_Code, Ea, E1, E2, E3. cbn [andb]. by rewrite C2.
      * rewrite strip_Code, Ea, E3. cbn [andb]. by rewrite C2.
    + rewrite !(strip_Line a (b :: l)).
      destruct (byte_is a 0x0a) eqn:E1.
      * assert (byte_is a 0x2f = false /\ byte_is a 0x22 = false) as [Ha Hb]
          by (apply byte_is_eq in E1; unfold byte_is; lia).
        by rewrite strip_code_plain, C2.
      * by rewrite strip_code_blank, L2.
    + rewrite !(strip_Block a b l).
      destruct (byte_is a 0x2a && byte_is b 0x2f).
      * by rewrite !strip_code_blank, C1.
      * by rewrite strip_code_blank, B2 by apply blank_is_blank.
    + rewrite !(strip_Str a b l).
      destruct (byte_is a 0x22) eqn:E1.
      * destruct (strip Code (b :: l)) as [|y r] eqn:Es; cbn [strip]; rewrite E1; [done|].
        by rewrite <- C2.
      * destruct (byte_is a 0x5c); [by rewrite !strip_str_blank, S1|].
        by rewrite strip_str_blank, S2 by apply blank_is_blank.
Qed.

(** blanking the comments and strings of a D source never fails: the
    result is a valid string of the same length, so that offsets into it are
    offsets into the source, and blanking it again changes nothing. *)
Theorem strip_sound {E} src (H : utf8_valid src = true) :
  exists out, strip_comments_and_strings (E:=E) src = Ret out /\
    utf8_valid out = true /\ length out = length src /\
    strip_comments_and_strings (E:=E) out = Ret out.
Proof.
  pose proof (strip_valid src H) as Hv.
  exists (strip Code src). split_and!; [by apply strip_ok|done|apply strip_length|].
  rewrite strip_ok by done. f_equal. apply strip_twice.
Qed.

(** ** The scanner stops *)

Lemma scan_keys_length l : forall d n, (length (scan_keys d n l).2 <= length l)%nat.
Proof.
  induction l as [|x l IH]; intros d n; cbn [scan_keys]; destruct (d <=? 0); cbn [snd length]; try lia.
  repeat destruct (byte_is _ _); cbn [andb]; try destruct (d =? 1); (etransitivity; [apply IH|lia]).
Qed.

Lemma scan_tuple_length l : (length (scan_tuple l).2 <= length l)%nat.
Proof.
  unfold scan_tuple. pose proof (skip_length l) as H. destruct (skip_whitespace l) as [|x l']; [simpl; lia|].
  destruct (byte_is x 0x5b); [|done]. pose proof (scan_keys_length l' 1 1) as H1.
  destruct (scan_keys 1 1 l') as [n r]. cbn [snd] in *. pose proof (skip_length r). simpl in H. lia.
Qed.

Lemma scan_call_length l k r : scan_call l = Some (k, r) -> (length r <= length l)%nat.
Proof.
  destruct l as [|x l]; [done|]. cbn [scan_call]. destruct (byte_is x 0x3d); [|done].
  pose proof (skip_length l) as H1. pose proof (span_length is_ident_byte (skip_whitespace l)) as H2.
  unfold take_ident. destruct (span is_ident_byte (skip_whitespace l)) as [c j]. cbn [snd] in H2.
  case_bool_decide; [done|]. pose proof (skip_length j) as H3.
  destruct (skip_whitespace j) as [|y r']; [done|]. destruct (byte_is y 0x28); [|done].
  destruct (from_call_name c); [|done]. cbn. intros [= <- <-]. simpl in *. lia.
Qed.

(** Every turn consumes a byte at least. *)
Lemma discover_step_length l out :
  l <> [] -> (length (discover_step l out).2 < length l)%nat.
Proof.
  destruct l as [|x l]; [done|]. intros _. cbn [discover_step length].
  destruct (negb _); [simpl; lia|]. pose proof (span_length is_ident_byte l) as H1.
  unfold take_ident. destruct (span is_ident_byte l) as [name j]. cbn [snd] in H1.
  case_bool_decide; [simpl; lia|]. pose proof (scan_tuple_length j) as H2.
  destruct (scan_tuple j) as [n r]. cbn [snd] in H2.
  destruct (scan_call r) as [[kind k]|] eqn:E; [|simpl; lia]. apply scan_call_length in E.
  destruct (existsb _ _); simpl; lia.
Qed.

(** Fuel beyond a turn per byte changes nothing. *)
Lemma discover_mono f : forall l out, (length l <= f)%nat ->
  discover_loop f l out = discover_loop (length l) l out.
Proof.
  induction f as [f IH] using lt_wf_ind. intros l out Hf.
  destruct l as [|x l]; [by destruct f|]. destruct f as [|f]; [simpl in Hf; lia|].
  cbn [discover_loop length]. pose proof (discover_step_length (x :: l) out ltac:(done)) as Hs.
  destruct (discover_step (x :: l) out) as [o r]. cbn [snd length] in *.
  rewrite (IH f) by lia. destruct (decide (f = length l)) as [->|]; [by rewrite (IH (length l)) by lia|].
  by rewrite (IH (length l)) by lia.
Qed.

Definition discover (l : bytes) (out : list AggDecl) : list AggDecl :=
  discover_loop (length l) l out.

Lemma discover_eq x l out :
  discover (x :: l) out =
    discover (discover_step (x :: l) out).2 (discover_step (x :: l) out).1.
Proof.
  unfold discover at 1. cbn [length discover_loop].
  pose proof (discover_step_length (x :: l) out ltac:(done)) as Hs.
  destruct (discover_step (x :: l) out) as [o r]. cbn [fst snd length] in *.
  apply discover_mono. lia.
Qed.

(** ** What it finds *)

Definition ident (name : bytes) : Prop :=
  name <> [] /\ Forall (fun x => is_ident_byte x = true) name.

(** Numbered from 1 in order, with names that are distinct identifiers. *)
Definition decls_wf (l : list AggDecl) : Prop :=
  map aggid l = map Z.of_nat (seq 1 (length l)) /\ NoDup (map agg_name l) /\
  Forall (fun d => ident (agg_name d)) l.

Lemma decls_wf_snoc l d :
  decls_wf l -> aggid d = len l + 1 -> agg_name d ∉ map agg_name l -> ident (agg_name d) ->
  decls_wf (l ++ [d]).
Proof.
  intros (H1 & H2 & H3) Hi Hn Hd. split_and!.
  - rewrite !map_app, length_app, seq_app, map_app, H1. f_equal. cbn [map seq length]. f_equal.
    rewrite Hi. unfold len. lia.
  - rewrite map_app. apply list.NoDup_app. split_and!; [done| |apply NoDup_singleton].
    intros x Hx Hx'. apply list_elem_of_singleton in Hx' as ->. done.
  - apply list.Forall_app_2; [done|by constructor].
Qed.

Lemma discover_step_wf l out : decls_wf out -> decls_wf (discover_step l out).1.
Proof.
  intros Hout. destruct l as [|x l]; [done|]. cbn [discover_step].
  destruct (negb _); [done|]. unfold take_ident.
  destruct (span_spec is_ident_byte l) as [_ Hid]. destruct (span is_ident_byte l) as [name j].
  cbn [fst] in Hid. case_bool_decide as Hne; [done|]. destruct (scan_tuple j) as [n r].
  destruct (scan_call r) as [[kind k]|]; [|done].
  destruct (existsb _ _) eqn:Ex; [done|]. cbn [fst]. apply decls_wf_snoc; [done|done| |done].
  cbn [agg_name]. intros (d & Hd & Hin)%list_elem_of_fmap. apply not_true_iff_false in Ex.
  apply Ex, existsb_exists. exists d. split; [by apply list_elem_of_In|]. by apply bool_decide_eq_true.
Qed.

Lemma discover_wf f : forall l out, decls_wf out -> decls_wf (discover_loop f l out).
Proof.
  induction f as [|f IH]; intros l out Hout; [done|]. destruct l as [|x l]; [done|].
  cbn [discover_loop]. pose proof (discover_step_wf (x :: l) out Hout) as Hs.
  destruct (discover_step (x :: l) out) as [o r]. by apply IH.
Qed.

Lemma agg_id_map_snoc l d :
  agg_id_map (l ++ [d]) = <[aggid d := (as_str (agg_kind d), agg_name d)]> (agg_id_map l).
Proof. unfold agg_id_map. by rewrite fold_left_app. Qed.

(** The map of consecutive ids is the list. *)
Lemma agg_id_map_lookup l i :
  map aggid l = map Z.of_nat (seq 1 (length l)) ->
  agg_id_map l !! Z.of_nat (S i) =
    (fun d => (as_str (agg_kind d), agg_name d)) <$> l !! i.
Proof.
  induction l as [|d l IH] using rev_ind; intros H; [done|].
  rewrite length_app, seq_app, !map_app in H. apply app_inj_2 in H as [H Hd]; [|done].
  injection Hd as Hd. rewrite agg_id_map_snoc, Hd.
  destruct (decide (i = length l)) as [->|Hne].
  - rewrite list_lookup_middle by done. apply lookup_insert_eq.
  - rewrite lookup_insert_ne by lia. rewrite IH by done. f_equal.
    destruct (decide (i < length l)%nat); [by rewrite lookup_app_l|].
    rewrite !lookup_ge_None_2; [done|rewrite length_app; simpl; lia|lia].
Qed.

(** C19: scanning a D source always ends and gives declarations numbered 1, 2,
    .. in the order of their first appearance, no two of the same name, every
    name an identifier; the id map built from them has exactly their ids, each
    with its kind and name. *)
Theorem discover_sound {E} src (H : utf8_valid src = true) :
  exists decls, discover_aggs (E:=E) src = Ret decls /\ decls_wf decls /\
    (forall fuel, (length src <= fuel)%nat ->
       discover_loop fuel (strip Code src) [] = decls) /\
    forall i, agg_id_map decls !! Z.of_nat (S i) =
      (fun d => (as_str (agg_kind d), agg_name d)) <$> decls !! i.
Proof.
  assert (Hw : decls_wf (discover_loop (length (strip Code src)) (strip Code src) []))
    by (apply discover_wf; split_and!; [done|constructor|constructor]).
  eexists. split_and!; [by unfold discover_aggs; rewrite strip_ok|done| |].
  - intros fuel Hf. apply discover_mono. by rewrite strip_length.
  - intros i. apply agg_id_map_lookup, Hw.
Qed.

(** ** Print and scan *)

(** A declaration as it is written: its name, the text of its keys, its
    function. *)
Record agg_source : Type := {
  src_name : bytes;
  src_keys : list bytes;
  src_kind : AggKind
}.

Definition COMMA : Init.Byte.byte := u8b 0x2c.
Definition RBRACKET : Init.Byte.byte := u8b 0x5d.

Fixpoint join_keys (l : list bytes) : bytes :=
  match l with
  | [] => []
  | [k] => k
  | k :: l => k ++ COMMA :: join_keys l
  end.

Definition render_tuple (l : list bytes) : bytes :=
  match l with [] => [] | _ => str "[" ++ join_keys l ++ [RBRACKET] end.

Definition render (d : agg_source) : bytes :=
  str "@" ++ src_name d ++ render_tuple (src_keys d) ++ str " = " ++ as_str (src_kind d) ++ str "();".

Definition agg_source_ok (d : agg_source) : Prop :=
  ident (src_name d) /\ Forall (Forall (fun x => is_ident_byte x = true)) (src_keys d).

Definition declared (i : nat) (d : agg_source) : AggDecl :=
  {| aggid := Z.of_nat (S i); agg_name := src_name d; agg_kind := src_kind d;
     n_keys := length (src_keys d) |}.

Lemma from_call_name_as_str k : from_call_name (as_str k) = Some k.
Proof. by destruct k. Qed.

Lemma as_str_ident k : Forall (fun x => is_ident_byte x = true) (as_str k) /\ as_str k <> [].
Proof. split; [|by destruct k]. destruct k; repeat (constructor; [reflexivity|]); constructor. Qed.

Definition plain_byte (x : Init.Byte.byte) : bool :=
  (byte.unsigned x <? 0x80) && negb (byte_is x 0x2f) && negb (byte_is x 0x22).

Lemma ident_byte_facts x :
  is_ident_byte x = true ->
  plain_byte x = true /\ byte_is x 0x5b = false /\ byte_is x 0x5d = false /\ byte_is x 0x2c = false /\
  is_ascii_whitespace x = false /\ byte_is x 0x40 = false.
Proof. by destruct x. Qed.

Lemma strip_plain l : Forall (fun x => plain_byte x = true) l -> strip Code l = l.
Proof.
  induction 1 as [|x l Hx Hl IH]; [done|]. unfold plain_byte in Hx.
  apply andb_true_iff in Hx as [[_ H1]%andb_true_iff H2].
  rewrite strip_code_plain, IH; [done|by apply negb_true_iff..].
Qed.

Lemma plain_ident l :
  Forall (fun x => is_ident_byte x = true) l -> Forall (fun x => plain_byte x = true) l.
Proof. intros H. eapply list.Forall_impl; [exact H|]. intros x Hx. by apply ident_byte_facts. Qed.

Lemma plain_keys l :
  Forall (Forall (fun x => is_ident_byte x = true)) l ->
  Forall (fun x => plain_byte x = true) (join_keys l).
Proof.
  induction 1 as [|k l Hk Hl IH]; [constructor|]. apply plain_ident in Hk.
  destruct l as [|k' l]; [done|]. apply list.Forall_app_2; [done|]. by constructor.
Qed.

Lemma plain_lit s :
  forallb plain_byte (str s) = true -> Forall (fun x => plain_byte x = true) (str s).
Proof. intros H. apply List.Forall_forall. by apply forallb_forall. Qed.

Lemma plain_render d : agg_source_ok d -> Forall (fun x => plain_byte x = true) (render d).
Proof.
  intros [[_ Hn] Hk]. unfold render.
  repeat apply list.Forall_app_2; try (by apply plain_lit); [by apply plain_ident| |].
  - unfold render_tuple. destruct (src_keys d) as [|k l]; [constructor|].
    apply list.Forall_app_2; [by apply plain_lit|]. apply list.Forall_app_2; [by apply plain_keys|].
    by constructor.
  - apply plain_ident, as_str_ident.
Qed.

Lemma scan_key k n r :
  Forall (fun x => is_ident_byte x = true) k -> scan_keys 1 n (k ++ r) = scan_keys 1 n r.
Proof.
  induction 1 as [|x k Hx Hk IH]; [done|]. apply ident_byte_facts in Hx as (_ & H1 & H2 & H3 & _).
  cbn [app scan_keys]. rewrite H1, H2, H3. exact IH.
Qed.

Lemma scan_join l n r :
  l <> [] -> Forall (Forall (fun x => is_ident_byte x = true)) l ->
  scan_keys 1 n (join_keys l ++ RBRACKET :: r) = ((n + length l - 1)%nat, r).
Proof.
  intros Hl H. revert n Hl. induction H as [|k l Hk H IH]; intros n Hl; [done|].
  destruct l as [|k' l].
  - cbn [join_keys]. rewrite scan_key by done. cbn [length]. replace (n + 1 - 1)%nat with n by lia.
    by destruct r.
  - change (join_keys (k :: k' :: l)) with (k ++ COMMA :: join_keys (k' :: l)).
    rewrite <- app_assoc, scan_key by done. cbn [app].
    change (scan_keys 1 n (COMMA :: join_keys (k' :: l) ++ RBRACKET :: r))
      with (scan_keys 1 (S n) (join_keys (k' :: l) ++ RBRACKET :: r)).
    rewrite IH by done. f_equal. cbn [length]. lia.
Qed.

Lemma skip_blank x l : is_ascii_whitespace x = true -> skip_whitespace (x :: l) = skip_whitespace l.
Proof. unfold skip_whitespace. cbn [span]. intros ->. by destruct (span _ l). Qed.

Lemma skip_none l :
  match l with x :: _ => is_ascii_whitespace x = false | [] => True end -> skip_whitespace l = l.
Proof. intros H. unfold skip_whitespace. change l with ([] ++ l) at 1. by rewrite span_app. Qed.

(** The keys and the assignment of a rendered declaration. *)
Lemma scan_rendered d r :
  agg_source_ok d ->
  scan_tuple (render_tuple (src_keys d) ++ str " = " ++ r) = (length (src_keys d), str "= " ++ r).
Proof.
  intros [_ Hk]. unfold render_tuple. destruct (src_keys d) as [|k l] eqn:E; [done|].
  change ((str "[" ++ join_keys (k :: l) ++ [RBRACKET]) ++ str " = " ++ r)
    with (u8b 0x5b :: (join_keys (k :: l) ++ [RBRACKET]) ++ str " = " ++ r).
  unfold scan_tuple. rewrite skip_none by done. change (byte_is (u8b 0x5b) 0x5b) with true. cbn iota.
  rewrite <- app_assoc. cbn [app]. rewrite scan_join by done. cbn [length]. by rewrite Nat.add_sub_swap.
Qed.

Lemma call_rendered k r : scan_call (str "= " ++ as_str k ++ u8b 0x28 :: r) = Some (k, u8b 0x28 :: r).
Proof.
  destruct (as_str_ident k) as [Hi Hne].
  change (str "= " ++ as_str k ++ u8b 0x28 :: r) with (u8b 0x3d :: u8b 0x20 :: as_str k ++ u8b 0x28 :: r).
  cbn [scan_call]. change (byte_is (u8b 0x3d) 0x3d) with true. cbn iota.
  rewrite skip_blank by done. rewrite skip_none by by destruct k.
  unfold take_ident. rewrite span_app by done. rewrite bool_decide_false by done.
  rewrite skip_none by done. change (byte_is (u8b 0x28) 0x28) with true. cbn iota.
  by rewrite from_call_name_as_str.
Qed.

(** One declaration is scanned, up to its parenthesis. *)
Lemma discover_render d r out :
  agg_source_ok d -> src_name d ∉ map agg_name out ->
  discover (render d ++ r) out = discover r (out ++ [declared (length out) d]).
Proof.
  intros Hd Hn. pose proof Hd as [[Hne Hid] Hk].
  unfold render. rewrite <- !app_assoc.
  set (rest := render_tuple _ ++ _). change (str "@" ++ src_name d ++ rest) with (u8b 0x40 :: src_name d ++ rest).
  rewrite discover_eq.
  assert (E : discover_step (u8b 0x40 :: src_name d ++ rest) out =
    (out ++ [declared (length out) d], u8b 0x28 :: str ");" ++ r)).
  { cbn [discover_step]. change (negb (byte_is (u8b 0x40) 0x40)) with false. cbn iota.
    unfold take_ident. rewrite span_app; [|done|].
    2: { unfold rest, render_tuple. destruct (src_keys d); done. }
    rewrite bool_decide_false by done. unfold rest. rewrite scan_rendered by done.
    change (str "();" ++ r) with (u8b 0x28 :: str ");" ++ r). rewrite call_rendered.
    destruct (existsb _ _) eqn:Ex.
    - exfalso. apply existsb_exists in Ex as (x & Hx & Hb%bool_decide_eq_true). apply Hn.
      rewrite <- Hb. apply list_elem_of_fmap. exists x. split; [done|by apply list_elem_of_In].
    - unfold declared. do 4 f_equal. unfold len. lia. }
  rewrite E. cbn [fst snd].
  change (u8b 0x28 :: str ");" ++ r) with (u8b 0x28 :: u8b 0x29 :: u8b 0x3b :: r).
  by rewrite !discover_eq.
Qed.

Lemma discover_renders ds : forall out,
  Forall agg_source_ok ds -> NoDup (map agg_name out ++ map src_name ds) ->
  discover (concat (map render ds)) out =
    out ++ imap (fun i d => declared (length out + i) d) ds.
Proof.
  induction ds as [|d ds IH]; intros out Hok Hnd; [cbn; by rewrite app_nil_r|].
  apply list.Forall_cons in Hok as [Hd Hok]. cbn [map concat].
  assert (Hn : src_name d ∉ map agg_name out).
  { apply list.NoDup_app in Hnd as (_ & Hdis & _). intros Hin. apply (Hdis _ Hin). left. }
  rewrite discover_render by done. rewrite IH; [|done|].
  - rewrite <- app_assoc. cbn [app imap]. rewrite Nat.add_0_r. do 2 f_equal.
    apply imap_ext. intros i x _. cbn. f_equal. rewrite length_app. simpl. lia.
  - rewrite map_app, <- app_assoc. exact Hnd.
Qed.

(** C20: declarations with distinct names, written one after the other, are
    scanned back with their names, kinds and numbers of keys, numbered in
    order. *)
Theorem discover_round_trip {E} ds
    (Hok : Forall agg_source_ok ds) (Hnd : NoDup (map src_name ds)) :
  discover_aggs (E:=E) (concat (map render ds)) = Ret (imap declared ds).
Proof.
  assert (Hp : Forall (fun x => plain_byte x = true) (concat (map render ds))).
  { clear Hnd. induction Hok as [|d ds Hd Hok IH]; [constructor|]. cbn [map concat].
    apply list.Forall_app_2; [by apply plain_render|done]. }
  unfold discover_aggs. rewrite strip_ok.
  - rewrite bind_Ret, strip_plain by done. f_equal. apply (discover_renders ds []); [done|exact Hnd].
  - apply valid_of_utf8, utf8_ascii_list. eapply list.Forall_impl; [exact Hp|]. intros x Hx.
    unfold plain_byte in Hx. apply andb_true_iff in Hx as [[H _]%andb_true_iff _].
    unfold ascii_byte. lia.
Qed.
