(* ===== verification/LinuxCompile.v ===== *)
(** The compilation of a clause (host/bifrost, src/cli/linux_compile.rs): from
    the DOF of a clause to the programs that are loaded for it, its main
    program and one per further action, sub-aggregation and clear, with the
    maps each of them declares.  The steps before the DOF (source rewrites,
    libdtrace) are not part of it: a clause comes with its parsed DOF, its
    expanded body and the CO-RE markers of its source. *)

From Stdlib Require Import Strings.String.
From stdpp Require Import gmap.
From S2P Require Import Utf8 Schema HostDof FieldReloc Bfr7 LowerTypes Emit Verify LowerState LowerDif.
From S2P Require Import LowerAction LowerAgg LowerProg SchemaPick CoreReloc AggDecl Prelude.

Local Open Scope Z_scope.
Local Open Scope list_scope.

(** [UprobeTarget] (bifrost-support/src/elf_syms.rs) *)
Record UprobeTarget : Type := {
  ut_guest_path : bytes;
  ut_file_offset : Z;
  ut_sym_size : Z;
  ut_basename : bytes;
  ut_symbol : bytes;
  ut_sdt_provider : bytes
}.

(** What the pipeline has of a clause once its DOF is parsed. *)
Record Clause : Type := {
  cl_target : bytes;
  cl_body : bytes;
  cl_parsed : Dof;
  cl_markers : list CoreOffsetofMarker;
  cl_probe_type : Z;
  cl_uprobe : option UprobeTarget;
  cl_period_ns : option Z
}.

(** [LoweredProgram]; a [MapDecl] has the fields of the wire's map. *)
Record LoweredProgram : Type := {
  lp_target : bytes;
  lp_schema : RecordSchema;
  lp_maps : list MapSpec;
  lp_ebpf : bytes;
  lp_probe_type : Z;
  lp_uprobe : option UprobeTarget;
  lp_kfunc_relocs : list (Z * string);
  lp_field_relocs : list FieldRelocView;
  lp_period_ns : option Z
}.

Inductive ExtraProg : Type :=
| ExtraAction (action_idx : nat)
| ExtraAggChain (chain_start : nat)
| ExtraClearAgg (fake_fd : Z).

(** The error messages, by the program they speak of. *)
Inductive CompileError : Type :=
| LoweringFailed (what : option ExtraProg) (e : LoweringError)
| PreFlightFailed (what : option ExtraProg) (e : VerifyError).

(** The counters that run over the clauses. *)
Record Counters : Type := {
  c_agg_base : Z;
  c_next_agg_fd : Z;
  c_next_probe_id : Z
}.

Definition DTRACEACT_PRINTA : Z := 4.
Definition DTRACEACT_LIBACT : Z := 5.
Definition DT_ACT_CLEAR : Z := 0x40.
Definition BPF_MAP_TYPE_RINGBUF : Z := 27.

(** [x += 1] on a [u32] and on an [i32]. *)
Definition incr_u32 {E} (v : Z) : outcome E Z := if v <? U32_MAX then Ret (v + 1) else Panic.
Definition incr_i32 {E} (v : Z) : outcome E Z := if v <? 2 ^ 31 - 1 then Ret (v + 1) else Panic.

(** ** The fan-out *)

(** Positions of the aggregations, from index [i] on. *)
Fixpoint agg_positions (i : nat) (acts : list Action) : list nat :=
  match acts with
  | [] => []
  | a :: acts =>
      if is_agg_action (act_kind a) then i :: agg_positions (S i) acts
      else agg_positions (S i) acts
  end.

(** The start of the first aggregation's chain, from the keys its declaration
    has in the source. *)
Definition first_chain_start (acts : list Action) (decls : list AggDecl) : option nat :=
  match agg_positions 0 acts, decls with
  | p :: _, d :: _ => Some (p - (n_keys d + 1))%nat
  | _, _ => None
  end.

(** The standalone actions before the first chain. *)
Definition leading_progs (acts : list Action) (cs : nat) : list ExtraProg :=
  omap (fun '(i, a) =>
    if act_kind a =? DTRACEACT_LIBACT then None
    else if (act_kind a =? DTRACEACT_DIFEXPR) || (act_kind a =? DTRACEACT_PRINTA)
    then Some (ExtraAction i) else None)
    (imap (fun i a => (i, a)) (take cs acts)).

(** One sub-chain per aggregation after the first. *)
Fixpoint chain_progs (pos : list nat) : list ExtraProg :=
  match pos with
  | p :: (_ :: _) as pos' => ExtraAggChain (S p) :: chain_progs pos'
  | _ => []
  end.

(** The actions after the last aggregation. *)
Definition trailing_progs (acts : list Action) (last_agg : nat) (this_agg_fd : Z)
  : list ExtraProg :=
  omap (fun '(i, a) =>
    if act_kind a =? DTRACEACT_LIBACT then
      if arg a =? DT_ACT_CLEAR then Some (ExtraClearAgg this_agg_fd) else None
    else Some (ExtraAction i))
    (imap (fun i a => ((S last_agg + i)%nat, a)) (drop (S last_agg) acts)).

Definition plain_progs (acts : list Action) : list ExtraProg :=
  omap (fun '(i, a) => if act_kind a =? DTRACEACT_LIBACT then None else Some (ExtraAction i))
    (imap (fun i a => (S i, a)) (tail acts)).

(** The programs beside the main one. *)
Definition extra_progs (acts : list Action) (decls : list AggDecl) (is_agg : bool)
    (this_agg_fd : Z) : list ExtraProg :=
  if is_printf_chain acts then []
  else if is_agg then
    let pos := agg_positions 0 acts in
    match first_chain_start acts decls with Some cs => leading_progs acts cs | None => [] end
    ++ chain_progs pos
    ++ match list.last pos with Some p => trailing_progs acts p this_agg_fd | None => [] end
  else plain_progs acts.

(** ** Maps *)

(** [format!(kind NUL name)] *)
Definition agg_map_name (kind : Z) (name : option bytes) : bytes :=
  str (default "unknown"%string (agg_kind_str kind)) ++ [u8b 0] ++ default [] name.

Definition agg_map (decl : Z * Z * Z * Z) (fd : Z) (name : bytes) : MapSpec :=
  let '(mt, ks, vs, me) := decl in
  {| map_type := mt; key_size := ks; value_size := vs; max_entries := me; fake_fd := fd;
     map_name := name |}.

Definition ringbuf_map : MapSpec :=
  {| map_type := BPF_MAP_TYPE_RINGBUF; key_size := 0; value_size := 0;
     max_entries := 256 * 1024; fake_fd := 100; map_name := [] |}.

Definition tls_map : MapSpec :=
  {| map_type := 1; key_size := 8; value_size := 8; max_entries := 1024;
     fake_fd := TLS_MAP_FAKE_FD; map_name := [] |}.

Definition global_map : MapSpec :=
  {| map_type := 1; key_size := 4; value_size := 8; max_entries := 256;
     fake_fd := GLOBAL_MAP_FAKE_FD; map_name := [] |}.

Section Compile.
Context {E : Type}.

(** The first ECB's actions, when there is one. *)
Definition clause_actions (dof : Dof) : outcome E (option (list Action)) :=
  o ← first_ecb dof;
  match o with
  | None => Ret None
  | Some ecb => acts ← actions_in_chain dof (actions ecb); Ret (Some acts)
  end.

(** The shared maps a program of the DOF needs. *)
Definition shared_maps (dof : Dof) : outcome E (list MapSpec) :=
  tls ← program_uses_tls dof;
  globals ← program_uses_globals dof;
  Ret ((if tls : bool then [tls_map] else []) ++ (if globals : bool then [global_map] else [])).

(** The map of the aggregation at [pos], whose chain starts at [start]. *)
Definition agg_map_at (acts : list Action) (start pos : nat) (fd : Z) (name : option bytes)
  : outcome E (list MapSpec) :=
  d ← agg_map_decl_for_chain_at acts (Z.of_nat start) (Z.of_nat pos);
  match d, acts !! pos with
  | Some decl, Some a => Ret [agg_map decl fd (agg_map_name (act_kind a) name)]
  | _, _ => Ret []
  end.

(** The maps of the main program. *)
Definition main_maps (cl : Clause) (acts : option (list Action)) (is_agg : bool)
    (schema : RecordSchema) (first_cs : option nat) (fd : Z) : outcome E (list MapSpec) :=
  own ←
    (if is_agg then
       match acts with
       | Some l =>
           match agg_positions 0 l with
           | pos :: _ => agg_map_at l (default O first_cs) pos fd
                           (extract_first_agg_name (cl_body cl))
           | [] => Ret []
           end
       | None => Ret []
       end
     else Ret (match fields schema with [] => [] | _ => [ringbuf_map] end));
  shared ← shared_maps (cl_parsed cl);
  Ret (own ++ shared).

(** The maps of the sub-aggregation at [start]. *)
Definition sub_maps (cl : Clause) (acts : option (list Action)) (start : nat) (fd : Z)
  : outcome E (list MapSpec) :=
  own ←
    match acts with
    | Some l =>
        let agg_ordinal := len (agg_positions 0 (take start l)) + 1 in
        match agg_positions 0 (drop start l) with
        | rel :: _ =>
            agg_map_at (take (S rel) (drop start l)) 0 rel fd
              (extract_nth_agg_name (cl_body cl) agg_ordinal)
        | [] => Ret []
        end
    | None => Ret []
    end;
  shared ← shared_maps (cl_parsed cl);
  Ret (own ++ shared).
End Compile.

(** ** Programs *)

(** The error of an inner call, as the pipeline reports it. *)
Definition rethrow {E F A} (f : E -> F) (m : outcome E A) : outcome F A :=
  match m with Ret a => Ret a | Throw e => Throw (f e) | Panic => Panic end.

(** Lowering, materialisation and the pre-flight check of one program. *)
Definition lower_checked (cl : Clause) (what : option ExtraProg) (schema : option RecordSchema)
    (opts : LoweringOpts)
  : outcome CompileError (bytes * list (Z * string) * list FieldRelocView) :=
  a ← rethrow (LoweringFailed what) (lower_with_opts (cl_parsed cl) schema opts);
  m ← materialize_field_relocs (cl_markers cl) a.1;
  rethrow (PreFlightFailed what) (verify m.1) ;;
  Ret (m.1, a.2, m.2).

Definition program (cl : Clause) (schema : RecordSchema) (maps : list MapSpec)
    (p : bytes * list (Z * string) * list FieldRelocView) : LoweredProgram :=
  {| lp_target := cl_target cl; lp_schema := schema; lp_maps := maps; lp_ebpf := p.1.1;
     lp_probe_type := cl_probe_type cl; lp_uprobe := cl_uprobe cl; lp_kfunc_relocs := p.1.2;
     lp_field_relocs := p.2; lp_period_ns := cl_period_ns cl |}.

(** The program of a [clear(@agg)]. *)
Definition clear_program (fake_fd : Z) : Asm :=
  extend [bpf_mov64_imm 0 0; bpf_exit]
    (emit_kfunc_call KFUNC_CLEAR_AGG (extend [bpf_ld_map_fd 1 fake_fd] ([], []))).

Definition clear_checked (fake_fd : Z)
  : outcome CompileError (bytes * list (Z * string) * list FieldRelocView) :=
  let a := clear_program fake_fd in
  rethrow (PreFlightFailed (Some (ExtraClearAgg fake_fd))) (verify a.1) ;;
  Ret (a.1, a.2, []).

Definition with_probe_id (c : Counters) (v : Z) : Counters :=
  {| c_agg_base := c_agg_base c; c_next_agg_fd := c_next_agg_fd c; c_next_probe_id := v |}.
Definition with_next_fd (c : Counters) (v : Z) : Counters :=
  {| c_agg_base := c_agg_base c; c_next_agg_fd := v; c_next_probe_id := c_next_probe_id c |}.
Definition with_agg_base (c : Counters) (v : Z) : Counters :=
  {| c_agg_base := v; c_next_agg_fd := c_next_agg_fd c; c_next_probe_id := c_next_probe_id c |}.

(** One turn of [for extra in extra_progs]; [base] and [fd] are the clause's
    own, [maps] its main program's. *)
Definition compile_extra (cl : Clause) (acts : option (list Action)) (base fd : Z)
    (maps : list MapSpec) (c : Counters) (x : ExtraProg)
  : outcome CompileError (LoweredProgram * Counters) :=
  let extra_probe_id := c_next_probe_id c in
  next ← incr_u32 extra_probe_id;
  let c := with_probe_id c next in
  match x with
  | ExtraAction i =>
      schema ← pick_schema_for_action (cl_parsed cl) i;
      p ← lower_checked cl (Some x) (Some schema)
            {| agg_base := base; probe_id := extra_probe_id; opt_agg_map_fake_fd := fd;
               action_idx := i; agg_chain_start := None; force_standalone_action := true |};
      Ret (program cl schema maps p, c)
  | ExtraAggChain start =>
      let sub_fd := c_next_agg_fd c in
      next_fd ← incr_i32 sub_fd;
      own ← sub_maps cl acts start sub_fd;
      p ← lower_checked cl (Some x) None
            {| agg_base := c_agg_base c; probe_id := extra_probe_id;
               opt_agg_map_fake_fd := sub_fd; action_idx := start;
               agg_chain_start := Some start; force_standalone_action := false |};
      Ret (program cl default_trace own p, with_next_fd c next_fd)
  | ExtraClearAgg fake_fd =>
      p ← clear_checked fake_fd;
      Ret (program cl default_trace maps p, c)
  end.

Fixpoint compile_extras (cl : Clause) (acts : option (list Action)) (base fd : Z)
    (maps : list MapSpec) (c : Counters) (l : list ExtraProg)
  : outcome CompileError (list LoweredProgram * Counters) :=
  match l with
  | [] => Ret ([], c)
  | x :: l =>
      r ← compile_extra cl acts base fd maps c x;
      rs ← compile_extras cl acts base fd maps r.2 l;
      Ret (r.1 :: rs.1, rs.2)
  end.

(** The agg fd of a clause: a fresh one when it aggregates. *)
Definition take_agg_fd {E} (is_agg : bool) (c : Counters) : outcome E (Z * Counters) :=
  if is_agg
  then next ← incr_i32 (c_next_agg_fd c); Ret (c_next_agg_fd c, with_next_fd c next)
  else Ret (AGG_MAP_FAKE_FD, c).

(** The start of the first chain, and the programs beside the main one. *)
Definition fan_out (acts : option (list Action)) (decls : list AggDecl) (is_agg : bool) (fd : Z)
  : option nat * list ExtraProg :=
  match acts with
  | None => (None, [])
  | Some l =>
      (if negb (is_printf_chain l) && is_agg then first_chain_start l decls else None,
       extra_progs l decls is_agg fd)
  end.

(** One turn of the loop over the clauses, from the parsed DOF on. *)
Definition compile_clause (cl : Clause) (c : Counters)
  : outcome CompileError (list LoweredProgram * Counters) :=
  let dof := cl_parsed cl in
  is_agg ← is_aggregation_program dof;
  schema ← (if is_agg : bool then Ret default_trace else pick_schema dof);
  let lowering_schema : option RecordSchema := if is_agg : bool then None else Some schema in
  let base := c_agg_base c in
  let probe_id := c_next_probe_id c in
  next ← incr_u32 probe_id;
  r ← take_agg_fd is_agg (with_probe_id c next);
  let fd := r.1 in
  let c := r.2 in
  decls ← discover_aggs (cl_body cl);
  acts ← clause_actions dof;
  let first_cs := (fan_out acts decls is_agg fd).1 in
  p ← lower_checked cl None lowering_schema
        {| agg_base := base; probe_id := probe_id; opt_agg_map_fake_fd := fd; action_idx := 0;
           agg_chain_start := first_cs; force_standalone_action := false |};
  base' ← (if is_agg then incr_u32 base else Ret base);
  let c := with_agg_base c base' in
  maps ← main_maps cl acts is_agg schema first_cs fd;
  rs ← compile_extras cl acts base fd maps c (fan_out acts decls is_agg fd).2;
  Ret (program cl schema maps p :: rs.1, rs.2).

Fixpoint compile_clauses (l : list Clause) (c : Counters)
  : outcome CompileError (list LoweredProgram * Counters) :=
  match l with
  | [] => Ret ([], c)
  | cl :: l =>
      r ← compile_clause cl c;
      rs ← compile_clauses l r.2;
      Ret (r.1 ++ rs.1, rs.2)
  end.

Definition initial_counters : Counters :=
  {| c_agg_base := 0; c_next_agg_fd := AGG_MAP_FAKE_FD; c_next_probe_id := 1 |}.
