(* ===== verification/LinuxCompileOk.v ===== *)
(** What the compilation of the clauses gives (see LinuxCompile.v):
    [compile_sound], that it never panics and that every program it returns is
    verified, with exact relocations and a schema it can store through;
    [maps_agree], that no two programs declare different maps under one
    descriptor; [fan_out_exact] and [plain_fan_out], that the programs beside
    the main one are those of the chain's pieces. *)

From Stdlib Require Import Strings.String.
From stdpp Require Import gmap.
From S2P Require Import Utf8 Schema HostDof FieldReloc Bfr7 LowerTypes Emit Bpf Verify CodeFrag.
From S2P Require Import LowerState LowerDif LowerAction LowerAgg LowerProg LowerOk LowerSafe.
From S2P Require Import LowerProgOk SchemaPick CoreReloc AggDecl LinuxCompile Prelude.

Local Open Scope Z_scope.
Local Open Scope list_scope.

(** ** One program *)

(** A program that can be shipped. *)
Definition shippable (p : LoweredProgram) : Prop :=
  verify (lp_ebpf p) = Ret tt /\ schema_fits (lp_schema p) /\
  (len (lp_ebpf p) < 8 * 2 ^ 15 ->
     (lp_kfunc_relocs p).*1 = kcalls 0 (decode_all (lp_ebpf p))).

(** The size from which a program's branches no longer reach. *)
Definition too_large (cl : Clause) : Prop :=
  exists schema opts a, lower_with_opts (cl_parsed cl) schema opts = Ret a /\ 8 * 2 ^ 15 <= len a.1.

(** An error is one of the lowering, or of a program that grew too large. *)
Definition error_ok (cl : Clause) (e : CompileError) : Prop :=
  match e with LoweringFailed _ _ => True | PreFlightFailed _ _ => too_large cl end.

Definition clause_ok (cl : Clause) : Prop :=
  dof_wf (cl_parsed cl) /\ dif_ok (cl_parsed cl) /\ len (raw (cl_parsed cl)) <= 2 ^ 31 /\
  utf8_valid (cl_body cl) = true.

(** [m] does not panic; what it returns satisfies [P], its errors [Q]. *)
Definition yields {E A} (m : outcome E A) (P : A -> Prop) (Q : E -> Prop) : Prop :=
  match m with Ret a => P a | Throw e => Q e | Panic => False end.

Lemma yields_bind {E A B} (m : outcome E A) (k : A -> outcome E B) P P' Q :
  yields m P Q -> (forall a, m = Ret a -> P a -> yields (k a) P' Q) -> yields (m ≫= k) P' Q.
Proof. destruct m as [a|e|]; intros H1 H2; [by apply H2|done..]. Qed.

(** Code that asks a DOF throws nothing of its own. *)
Definition calm {E A} (m : outcome E A) : Prop := forall e, m <> Throw e.

Lemma calm_bind {E A B} (m : outcome E A) (k : A -> outcome E B) :
  calm m -> (forall a, m = Ret a -> calm (k a)) -> calm (m ≫= k).
Proof. destruct m as [a|e|]; intros H1 H2; [by apply H2|by destruct (H1 e)|done]. Qed.

Lemma calm_slice {E A} (b : list A) lo hi : calm (slice (E:=E) b lo hi).
Proof. unfold slice. by destruct (slice_get b lo hi). Qed.

Lemma calm_add64 {E} a b : calm (add64 (E:=E) a b).
Proof. unfold add64. by destruct (_ <=? _). Qed.

Lemma calm_ok {E F A} (m : outcome E A) : calm (HostDof.ok (F:=F) m).
Proof. by destruct m. Qed.

Lemma calm_filter_ok {E F A B} (f : A -> outcome E B) l : calm (filter_ok (F:=F) f l).
Proof.
  induction l as [|x l IH]; [done|]. cbn [filter_ok]. apply calm_bind; [apply calm_ok|]. intros o _.
  by apply calm_bind.
Qed.

Create HintDb calm.
#[export] Hint Resolve calm_slice calm_add64 calm_ok calm_filter_ok : calm.

Ltac calm_step :=
  match goal with
  | |- calm (Ret _) => done
  | |- calm Panic => done
  | |- calm (mbind _ _) => apply calm_bind; [|intros ? _]
  | |- calm (if ?c then _ else _) => destruct c
  | |- calm (match ?o with _ => _ end) => destruct o
  | |- _ => solve [auto with calm]
  end.
Ltac calm_go := repeat (cbv beta zeta; calm_step).

Section Calm.
Context {E : Type} (dof : Dof).

Lemma calm_section_bytes s : calm (section_bytes (E:=E) dof s).
Proof. unfold section_bytes. calm_go. Qed.
#[local] Hint Resolve calm_section_bytes : calm.

Lemma calm_instructions s : calm (dif_instructions (E:=E) dof s).
Proof. unfold dif_instructions. calm_go. Qed.
#[local] Hint Resolve calm_instructions : calm.

Lemma calm_first_ecb : calm (first_ecb (E:=E) dof).
Proof. unfold first_ecb. calm_go. Qed.

Lemma calm_chain i : calm (actions_in_chain (E:=E) dof i).
Proof. unfold actions_in_chain. calm_go. Qed.

Lemma calm_difo_at i : calm (difo_at (E:=E) dof i).
Proof. unfold difo_at. calm_go. Qed.
#[local] Hint Resolve calm_first_ecb calm_chain calm_difo_at : calm.

Lemma calm_is_agg : calm (is_aggregation_program (E:=E) dof).
Proof. unfold is_aggregation_program. calm_go. Qed.

Lemma calm_actions : calm (clause_actions (E:=E) dof).
Proof. unfold clause_actions. calm_go. Qed.

Lemma calm_any_instruction f l : calm (any_instruction (E:=E) f dof l).
Proof. induction l as [|s l IH]; [done|]. cbn [any_instruction]. calm_go. Qed.
#[local] Hint Resolve calm_any_instruction : calm.

Lemma calm_shared : calm (shared_maps (E:=E) dof).
Proof. unfold shared_maps, program_uses_tls, program_uses_globals. calm_go. Qed.

Lemma calm_is_execname i : calm (is_execname_difo (E:=E) dof i).
Proof. unfold is_execname_difo, dif_section_of. calm_go. Qed.
#[local] Hint Resolve calm_is_execname : calm.

Lemma calm_execnames l : forall i, calm (execname_indices (E:=E) dof i l).
Proof. induction l as [|a l IH]; intros i; [done|]. cbn [execname_indices]. calm_go. Qed.
#[local] Hint Resolve calm_execnames : calm.

Lemma calm_pick i : calm (pick_schema_for_action (E:=E) dof i).
Proof. unfold pick_schema_for_action, schema_for, read_strtab_string. calm_go. Qed.
End Calm.

(** Calm and panic-free code returns. *)
Lemma yields_returns {E A} (m : outcome E A) (Q : E -> Prop) :
  safe m -> calm m -> yields m (fun _ => True) Q.
Proof. destruct m as [a|e|]; intros H1 H2; [done|by destruct (H2 e)|done]. Qed.

(** The program of a clear, whatever the map. *)
Lemma clear_sound fd : sound_program (clear_program fd).
Proof.
  unfold clear_program.
  destruct (code_of_emit (fun a => extend [bpf_mov64_imm 0 0; bpf_exit]
    (emit_kfunc_call KFUNC_CLEAR_AGG (extend [bpf_ld_map_fd 1 fd] a))) ([], []) []) as [cs Hc].
  { apply (emits_ok_seq (fun a => emit_kfunc_call _ (extend _ a))); [|apply emits_ok_extend; good_list].
    apply emits_ok_seq; [apply emits_ok_extend; good_list|apply emits_ok_kfunc]. }
  { split; [done|intros; apply frag_ok_nil]. }
  rewrite app_nil_l in Hc. destruct Hc as [[Ha Hr] Hf].
  assert (Hl : len (clear_program fd).1 = 40) by done.
  pose proof (asm_len _ _ Ha) as Hal. unfold clear_program in Hl. rewrite Hl in Hal.
  apply (sound_intro _ cs); [done|apply Hf; lia|intros ->; done|].
  rewrite Hr. apply kcalls_small. lia.
Qed.

Section One.
Context (cl : Clause) (Hcl : clause_ok cl).

Lemma lower_checked_ok what sch opts :
  match sch with Some s => schema_fits s | None => True end ->
  yields (lower_checked cl what sch opts)
    (fun p => verify p.1.1 = Ret tt /\
       (len p.1.1 < 8 * 2 ^ 15 -> p.1.2.*1 = kcalls 0 (decode_all p.1.1)))
    (error_ok cl).
Proof.
  intros Hs. destruct Hcl as (Hd & Hi & _). unfold lower_checked.
  pose proof (lower_verdict (cl_parsed cl) sch opts Hd Hi Hs) as Hv.
  destruct (lower_with_opts (cl_parsed cl) sch opts) as [a|e|] eqn:Ea; [|done..].
  cbn [rethrow]. rewrite bind_Ret.
  destruct (materialize_safe (E:=CompileError) (cl_markers cl) a.1) as (b & rs & Eb & Hlen).
  rewrite Eb, bind_Ret. cbn [fst snd].
  destruct (Z.lt_ge_cases (len a.1) (8 * 2 ^ 15)) as [Hlt|Hge].
  - destruct (Hv Hlt) as [Hver Hk].
    destruct (materialize_verified (E:=CompileError) (cl_markers cl) a.1 Hver)
      as (b' & rs' & Eb' & _ & _ & Hver' & Hk').
    rewrite Eb in Eb'. injection Eb' as <- <-. rewrite Hver'. cbn [rethrow]. rewrite bind_Ret.
    split; [done|]. cbn [fst snd]. intros _. congruence.
  - destruct (verify b) as [[]|e|] eqn:Ev; cbn [rethrow].
    + rewrite bind_Ret. split; [done|]. cbn [fst snd]. lia.
    + exists sch, opts, a. by split.
    + by destruct (verify_total b).
Qed.

Lemma clear_checked_ok fd :
  yields (clear_checked fd)
    (fun p => verify p.1.1 = Ret tt /\ p.1.2.*1 = kcalls 0 (decode_all p.1.1)) (error_ok cl).
Proof.
  unfold clear_checked. destruct (clear_sound fd) as [Hv Hk]. rewrite Hv. cbn [rethrow].
  rewrite bind_Ret. by split.
Qed.
End One.

(** ** Maps *)

#[export] Instance MapSpec_eq_dec : EqDecision MapSpec.
Proof. solve_decision. Defined.

Definition shared_map (m : MapSpec) : Prop := m ∈ [ringbuf_map; tls_map; global_map].

#[export] Instance shared_map_dec m : Decision (shared_map m).
Proof. unfold shared_map. apply _. Defined.

(** The maps of [progs] are shared, or among [old], or new ones: of the
    descriptors from [lo] to below [hi], one each. *)
Definition maps_from (old : list MapSpec) (lo hi : Z) (progs : list LoweredProgram) : Prop :=
  lo <= hi /\
  exists fresh, NoDup (map fake_fd fresh) /\ Forall (fun m => lo <= fake_fd m < hi) fresh /\
    forall p m, p ∈ progs -> m ∈ lp_maps p -> shared_map m \/ m ∈ old \/ m ∈ fresh.

Lemma maps_from_app old lo mid hi ps qs :
  maps_from old lo mid ps -> maps_from old mid hi qs -> maps_from old lo hi (ps ++ qs).
Proof.
  intros (H0 & f & Hf1 & Hf2 & Hf3) (K0 & g & Hg1 & Hg2 & Hg3). split; [lia|].
  exists (f ++ g). split_and!.
  - rewrite map_app. apply list.NoDup_app. split_and!; [done| |done].
    intros x (m & -> & Hm)%list_elem_of_fmap (m' & E & Hm')%list_elem_of_fmap.
    rewrite list.Forall_forall in Hf2, Hg2. apply Hf2 in Hm. apply Hg2 in Hm'. lia.
  - apply list.Forall_app_2; eapply list.Forall_impl; [exact Hf2| |exact Hg2|]; simpl; lia.
  - intros p m Hp Hm. apply elem_of_app in Hp as [Hp|Hp].
    + destruct (Hf3 p m Hp Hm) as [?|[?|?]]; rewrite ?elem_of_app; auto.
    + destruct (Hg3 p m Hp Hm) as [?|[?|?]]; rewrite ?elem_of_app; auto.
Qed.

Lemma maps_from_nil old lo : maps_from old lo lo [].
Proof.
  split; [lia|]. exists []. split_and!; [constructor|constructor|].
  intros p m Hp. by apply not_elem_of_nil in Hp.
Qed.

(** A program with the old maps. *)
Lemma maps_from_old old lo p : lp_maps p = old -> maps_from old lo lo [p].
Proof.
  intros Hp. split; [lia|]. exists []. split_and!; [constructor|constructor|].
  intros q m ->%list_elem_of_singleton Hm. rewrite Hp in Hm. auto.
Qed.

(** The maps of a program of its own: at most one is not shared. *)
Definition own_maps (fd : Z) (l : list MapSpec) : Prop :=
  forall m, m ∈ l -> shared_map m \/ fake_fd m = fd /\ forall m', m' ∈ l -> fake_fd m' = fd ->
    shared_map m' \/ m' = m.

Lemma own_maps_app fd l shared :
  (l = [] \/ exists m, l = [m] /\ (shared_map m \/ fake_fd m = fd)) -> Forall shared_map shared ->
  own_maps fd (l ++ shared).
Proof.
  intros Hl Hs m Hm. rewrite list.Forall_forall in Hs. apply elem_of_app in Hm as [Hm|Hm]; [|auto].
  destruct Hl as [->|(x & -> & Hx)]; [by apply not_elem_of_nil in Hm|].
  apply list_elem_of_singleton in Hm as ->. destruct Hx as [Hx|Hx]; [auto|].
  right. split; [done|]. intros m' [->%list_elem_of_singleton|Hm']%elem_of_app _; [by right|auto].
Qed.

Lemma maps_from_own old fd p : own_maps fd (lp_maps p) -> maps_from old fd (fd + 1) [p].
Proof.
  intros Ho. split; [lia|].
  destruct (decide (Exists (fun m => ~ shared_map m) (lp_maps p))) as [Hx|Hx].
  - apply list.Exists_exists in Hx as (x & Hx & Hn). destruct (Ho x Hx) as [|[Hfd Hu]]; [done|].
    exists [x]. split_and!; [apply NoDup_singleton|by constructor; [lia|]|].
    intros q m ->%list_elem_of_singleton Hm. destruct (Ho m Hm) as [|[Hm2 _]]; [auto|].
    destruct (Hu m Hm Hm2) as [| ->]; [auto|]. right. right. left.
  - exists []. split_and!; [constructor|constructor|].
    intros q m ->%list_elem_of_singleton Hm. left.
    destruct (decide (shared_map m)) as [|Hd]; [done|]. exfalso. apply Hx.
    apply list.Exists_exists. by exists m.
Qed.

(** The main program and those that share its maps. *)
Lemma maps_from_shared lo hi p ps :
  Forall shared_map (lp_maps p) -> maps_from (lp_maps p) lo hi ps -> maps_from [] lo hi (p :: ps).
Proof.
  intros Hs (H0 & f & Hf1 & Hf2 & Hf3). split; [done|]. exists f. split_and!; [done..|].
  rewrite list.Forall_forall in Hs.
  intros q m [->|Hq]%elem_of_cons Hm; [auto|]. destruct (Hf3 q m Hq Hm) as [?|[?|?]]; auto.
Qed.

Lemma maps_from_main fd hi p ps :
  own_maps fd (lp_maps p) -> maps_from (lp_maps p) (fd + 1) hi ps -> maps_from [] fd hi (p :: ps).
Proof.
  intros Ho (H0 & f & Hf1 & Hf2 & Hf3).
  destruct (maps_from_own [] fd p Ho) as (_ & g & Hg1 & Hg2 & Hg3).
  split; [lia|]. exists (g ++ f). split_and!.
  - rewrite map_app. apply list.NoDup_app. split_and!; [done| |done].
    intros x (m & -> & Hm)%list_elem_of_fmap (m' & E & Hm')%list_elem_of_fmap.
    rewrite list.Forall_forall in Hf2, Hg2. apply Hf2 in Hm'. apply Hg2 in Hm. lia.
  - apply list.Forall_app_2; eapply list.Forall_impl; [exact Hg2| |exact Hf2|]; simpl; lia.
  - assert (Hp : forall m, m ∈ lp_maps p -> shared_map m \/ m ∈ [] \/ m ∈ g ++ f).
    { intros m Hm. destruct (Hg3 p m ltac:(left) Hm) as [?|[?|?]]; rewrite ?elem_of_app; auto. }
    intros q m [->|Hq]%elem_of_cons Hm; [auto|].
    destruct (Hf3 q m Hq Hm) as [?|[?|?]]; rewrite ?elem_of_app; auto.
    rewrite <- elem_of_app. auto.
Qed.

Lemma agg_positions_lookup acts : forall i p,
  p ∈ agg_positions i acts ->
  exists a, (i <= p)%nat /\ acts !! (p - i)%nat = Some a /\ is_agg_action (act_kind a) = true.
Proof.
  induction acts as [|a acts IH]; intros i p; cbn [agg_positions]; [by intros ?%not_elem_of_nil|].
  assert (Hrec : p ∈ agg_positions (S i) acts -> exists a', (i <= p)%nat /\
    (a :: acts) !! (p - i)%nat = Some a' /\ is_agg_action (act_kind a') = true).
  { intros (x & H1 & H2 & H3)%IH. exists x. split; [lia|].
    replace (p - i)%nat with (S (p - S i)) by lia. by split. }
  destruct (is_agg_action (act_kind a)) eqn:Ea; [|auto].
  intros [->|Hp]%elem_of_cons; [|auto]. exists a. rewrite Nat.sub_diag. by split.
Qed.

Section Maps.
Context {E : Type}.

Lemma agg_map_at_yields acts start pos fd name (Q : E -> Prop) :
  is_Some (acts !! pos) ->
  yields (agg_map_at acts start pos fd name)
    (fun l => l = [] \/ exists m, l = [m] /\ (shared_map m \/ fake_fd m = fd)) Q.
Proof.
  intros [a Ha]. unfold agg_map_at, agg_map_decl_for_chain_at, action_at. rewrite Nat2Z.id, Ha.
  rewrite bind_Ret. cbv zeta. rewrite bind_Ret. destruct (if _ : bool then _ else _) as [[[[mt ks] vs] me]|].
  - right. eexists. split; [done|]. by right.
  - by left.
Qed.

Lemma shared_maps_yields dof (Q : E -> Prop) :
  dof_wf dof -> yields (shared_maps dof) (fun l => Forall shared_map l) Q.
Proof.
  intros Hd. pose proof (uses_safe (E:=E) dof Hd) as [H1 H2].
  pose proof (calm_shared (E:=E) dof) as Hc. unfold shared_maps in *.
  destruct (program_uses_tls dof) as [t|e|]; [|by destruct (Hc e)|done]. rewrite bind_Ret in *.
  destruct (program_uses_globals dof) as [g|e|]; [|by destruct (Hc e)|done].
  rewrite bind_Ret. cbn [yields]. apply list.Forall_forall. intros m Hm. unfold shared_map.
  rewrite !elem_of_cons. destruct t, g; cbn [app] in Hm; rewrite ?elem_of_cons, elem_of_nil in Hm; tauto.
Qed.

Lemma main_maps_yields cl acts is_agg sch cs fd (Q : E -> Prop) :
  dof_wf (cl_parsed cl) ->
  yields (main_maps cl acts is_agg sch cs fd)
    (fun l => own_maps fd l /\ (is_agg = false -> Forall shared_map l)) Q.
Proof.
  intros Hd. unfold main_maps.
  apply (yields_bind _ _
    (fun l => (l = [] \/ exists m, l = [m] /\ (shared_map m \/ fake_fd m = fd)) /\
              (is_agg = false -> Forall shared_map l))).
  - destruct is_agg.
    + destruct acts as [l|]; [|by split; [left|]].
      destruct (agg_positions 0 l) as [|pos ps] eqn:Ep; [by split; [left|]|].
      assert (Hpos : is_Some (l !! pos)); [|pose proof (agg_map_at_yields l (default 0%nat cs) pos fd
        (extract_first_agg_name (cl_body cl)) Q Hpos) as H; by destruct (agg_map_at _ _ _ _ _)].
      destruct (agg_positions_lookup l 0 pos) as (a & _ & Ha & _).
      { rewrite Ep. left. }
      rewrite Nat.sub_0_r in Ha. by exists a.
    + assert (Hr : shared_map ringbuf_map) by (unfold shared_map; left).
      destruct (fields sch); [by split; [left|]|]. split; [|by intros _; constructor].
      right. exists ringbuf_map. auto.
  - intros own _ [Hown Hsh]. apply (yields_bind _ _ (Forall shared_map)); [by apply shared_maps_yields|].
    intros shared _ Hs. split; [by apply own_maps_app|]. intros Ha. apply list.Forall_app_2; auto.
Qed.

Lemma sub_maps_yields cl acts start fd (Q : E -> Prop) :
  dof_wf (cl_parsed cl) -> yields (sub_maps cl acts start fd) (own_maps fd) Q.
Proof.
  intros Hd. unfold sub_maps.
  apply (yields_bind _ _
    (fun l => l = [] \/ exists m, l = [m] /\ (shared_map m \/ fake_fd m = fd))).
  - destruct acts as [l|]; [|by left].
    destruct (agg_positions 0 (drop start l)) as [|rel ps] eqn:Ep; [by left|].
    apply agg_map_at_yields. destruct (agg_positions_lookup (drop start l) 0 rel) as (a & _ & Ha & _).
    { rewrite Ep. left. }
    rewrite Nat.sub_0_r in Ha. exists a. by rewrite lookup_take_lt by lia.
  - intros own _ Hown. apply (yields_bind _ _ (Forall shared_map)); [by apply shared_maps_yields|].
    intros shared _ Hs. by apply own_maps_app.
Qed.
End Maps.

(** ** The programs of a clause *)

(** What a run of [n] programs makes of the counters. *)
Definition ran (n : nat) (c c' : Counters) : Prop :=
  c_next_probe_id c' = c_next_probe_id c + Z.of_nat n /\
  c_next_agg_fd c <= c_next_agg_fd c' <= c_next_agg_fd c + Z.of_nat n.

(** Room for [n] more programs in the counters. *)
Definition room (n : Z) (c : Counters) : Prop :=
  c_next_probe_id c + n <= U32_MAX /\ c_next_agg_fd c + n <= 2 ^ 31 - 1 /\
  c_agg_base c + n <= U32_MAX.

Section Clause.
Context (cl : Clause) (Hcl : clause_ok cl).

Lemma compile_extra_ok acts base fd maps c x :
  room 1 c ->
  yields (compile_extra cl acts base fd maps c x)
    (fun r => shippable r.1 /\ ran 1 c r.2 /\ c_agg_base r.2 = c_agg_base c /\
       maps_from maps (c_next_agg_fd c) (c_next_agg_fd r.2) [r.1]) (error_ok cl).
Proof.
  intros (R1 & R2 & _). destruct Hcl as (Hd & Hi & Hl & Hu). unfold compile_extra.
  unfold incr_u32. destruct (Z.ltb_spec (c_next_probe_id c) U32_MAX); [|lia]. rewrite bind_Ret.
  destruct x as [i|start|cfd].
  - pose proof (pick_safe (E:=CompileError) _ Hd i) as Hs.
    pose proof (calm_pick (E:=CompileError) (cl_parsed cl) i) as Hc.
    destruct (pick_schema_for_action (cl_parsed cl) i) as [sch|e|] eqn:Es; [|by destruct (Hc e)|done].
    rewrite bind_Ret. apply picked_fits in Es; [|done].
    eapply yields_bind; [by apply lower_checked_ok|]. intros p _ [Hv Hk]. cbn [yields fst snd].
    split_and!; [by split_and!|unfold ran; cbn; lia|done|by apply maps_from_old].
  - unfold incr_i32. cbn [c_next_agg_fd with_probe_id].
    destruct (Z.ltb_spec (c_next_agg_fd c) (2 ^ 31 - 1)); [|lia]. rewrite bind_Ret.
    eapply yields_bind; [by apply sub_maps_yields|]. intros own _ Hown.
    eapply yields_bind; [by apply lower_checked_ok|]. intros p _ [Hv Hk]. cbn [yields fst snd].
    split_and!; [split_and!; [done|apply default_trace_fits|done]|unfold ran; cbn; lia|done|].
    cbn [c_next_agg_fd with_next_fd]. by apply maps_from_own.
  - eapply yields_bind; [by apply clear_checked_ok|]. intros p _ [Hv Hk]. cbn [yields fst snd].
    split_and!; [split_and!; [done|apply default_trace_fits|done]|unfold ran; cbn; lia|done|].
    by apply maps_from_old.
Qed.

Lemma compile_extras_ok acts base fd maps l : forall c,
  room (len l) c ->
  yields (compile_extras cl acts base fd maps c l)
    (fun r => Forall shippable r.1 /\ length r.1 = length l /\ ran (length l) c r.2 /\
       c_agg_base r.2 = c_agg_base c /\
       maps_from maps (c_next_agg_fd c) (c_next_agg_fd r.2) r.1) (error_ok cl).
Proof.
  induction l as [|x l IH]; intros c Hroom.
  { cbn. split_and!; [done|done|unfold ran; lia..|apply maps_from_nil]. }
  rewrite len_cons in Hroom. pose proof (len_nonneg l). cbn [compile_extras].
  eapply yields_bind; [apply compile_extra_ok; unfold room in *; lia|].
  intros [p c1] _ (Hp & [C1 C2] & Hb & Hm). cbn [fst snd] in *.
  eapply yields_bind; [apply IH; unfold room in *; lia|].
  intros [ps c2] _ (Hps & Hn & [D1 D2] & Hb' & Hm'). cbn [yields fst snd] in *.
  split_and!; [by constructor|simpl; lia|unfold ran; simpl in *; lia..|].
  change (p :: ps) with ([p] ++ ps). by eapply maps_from_app.
Qed.
End Clause.

(** *** How many programs there are *)

Lemma omap_length {A B} (f : A -> option B) l : (length (omap f l) <= length l)%nat.
Proof.
  induction l as [|x l IH]; [done|].
  change (length (match f x with Some y => y :: omap f l | None => omap f l end) <= S (length l))%nat.
  destruct (f x); simpl; lia.
Qed.

Lemma chain_progs_length pos : (length (chain_progs pos) <= length pos)%nat.
Proof.
  induction pos as [|p pos IH]; [done|]. destruct pos as [|q pos]; [simpl; lia|].
  change (chain_progs (p :: q :: pos)) with (ExtraAggChain (S p) :: chain_progs (q :: pos)).
  cbn [length] in *. lia.
Qed.

Lemma agg_positions_length acts : forall i, (length (agg_positions i acts) <= length acts)%nat.
Proof.
  induction acts as [|a acts IH]; intros i; [done|]. cbn [agg_positions].
  destruct (is_agg_action _); simpl; specialize (IH (S i)); lia.
Qed.

Lemma extra_progs_length acts decls is_agg fd :
  (length (extra_progs acts decls is_agg fd) <= 3 * length acts)%nat.
Proof.
  unfold extra_progs. destruct (is_printf_chain acts); [simpl; lia|].
  assert (Hl : forall cs, (length (leading_progs acts cs) <= length acts)%nat).
  { intros cs. unfold leading_progs. etransitivity; [apply omap_length|].
    rewrite length_imap, length_take. lia. }
  assert (Ht : forall p, (length (trailing_progs acts p fd) <= length acts)%nat).
  { intros p. unfold trailing_progs. etransitivity; [apply omap_length|].
    rewrite length_imap, length_drop. lia. }
  destruct is_agg.
  - rewrite !length_app. pose proof (chain_progs_length (agg_positions 0 acts)).
    pose proof (agg_positions_length acts 0).
    destruct (first_chain_start acts decls) as [cs|]; [specialize (Hl cs)|];
      destruct (list.last _) as [p|]; [specialize (Ht p)| |specialize (Ht p)|]; cbn [length]; lia.
  - unfold plain_progs. etransitivity; [apply omap_length|]. rewrite length_imap.
    destruct acts; simpl; lia.
Qed.

(** A bound on the programs of a clause, from the size of its DOF. *)
Definition weight (cl : Clause) : Z := 1 + len (raw (cl_parsed cl)).

Lemma clause_actions_length {E} dof l :
  clause_actions (E:=E) dof = Ret (Some l) -> len l * 32 <= len (raw dof).
Proof.
  unfold clause_actions. intros H. split_ret H. destruct a as [ecb|]; [|done].
  split_ret H. injection H as <-. by eapply chain_length.
Qed.

Lemma clause_actions_safe {E} dof : dof_wf dof -> safe (clause_actions (E:=E) dof).
Proof.
  intros Hd. apply safe_bind; [by apply ecb_of_dof_safe|]. intros [ecb|] _; [|done].
  apply safe_bind; [by apply actions_in_chain_safe|]. done.
Qed.

Lemma discover_yields {E} src (Q : E -> Prop) :
  utf8_valid src = true -> yields (discover_aggs src) (fun _ => True) Q.
Proof. intros Hu. unfold discover_aggs. by rewrite strip_ok. Qed.

Lemma clause_schema_yields {E} (Q : E -> Prop) (is_agg : bool) dof :
  dof_wf dof -> len (raw dof) <= 2 ^ 31 ->
  yields (if is_agg then Ret default_trace else pick_schema dof) schema_fits Q.
Proof.
  intros Hd Hl. destruct is_agg; [apply default_trace_fits|]. unfold pick_schema.
  pose proof (pick_safe (E:=E) _ Hd 0) as Hs. pose proof (calm_pick (E:=E) dof 0) as Hc.
  destruct (pick_schema_for_action _ _) as [sch|e|] eqn:Es; [|by destruct (Hc e)|done].
  by eapply picked_fits.
Qed.

Lemma clause_actions_yields {E} (Q : E -> Prop) dof :
  dof_wf dof ->
  yields (clause_actions dof) (fun o => forall l, o = Some l -> len l * 32 <= len (raw dof)) Q.
Proof.
  intros Hd. pose proof (clause_actions_safe (E:=E) _ Hd) as Hs. pose proof (calm_actions (E:=E) dof) as Hc.
  destruct (clause_actions _) as [o|e|] eqn:Ea; [|by destruct (Hc e)|done].
  cbn [yields]. intros l ->. by eapply clause_actions_length.
Qed.

(** The descriptor of a clause: a new one, or none taken. *)
Definition fd_taken (is_agg : bool) (c : Counters) (r : Z * Counters) : Prop :=
  c_next_probe_id r.2 = c_next_probe_id c /\ c_agg_base r.2 = c_agg_base c /\
  (c_next_agg_fd r.2 = c_next_agg_fd c + 1 /\ r.1 = c_next_agg_fd c \/ is_agg = false /\ r.2 = c).

Lemma take_agg_fd_yields {E} (Q : E -> Prop) is_agg c :
  c_next_agg_fd c < 2 ^ 31 - 1 -> yields (take_agg_fd is_agg c) (fd_taken is_agg c) Q.
Proof.
  intros Hc. unfold take_agg_fd, incr_i32, fd_taken. destruct is_agg; [|cbn; auto].
  destruct (Z.ltb_spec (c_next_agg_fd c) (2 ^ 31 - 1)); [|lia]. rewrite bind_Ret. cbn. auto.
Qed.

Lemma incr_u32_yields {E} (Q : E -> Prop) v : v < U32_MAX -> yields (incr_u32 v) (fun x => x = v + 1) Q.
Proof. intros Hv. unfold incr_u32. by destruct (Z.ltb_spec v U32_MAX); [|lia]. Qed.

Lemma extras_bound acts decls is_agg fd n :
  0 <= n -> (forall l, acts = Some l -> len l * 32 <= n) -> len (fan_out acts decls is_agg fd).2 * 8 <= n.
Proof.
  intros Hn Ha. destruct acts as [l|]; [|by unfold len]. cbn [fan_out snd].
  pose proof (extra_progs_length l decls is_agg fd). specialize (Ha l eq_refl). unfold len in *. lia.
Qed.

Lemma compile_clause_ok cl c :
  clause_ok cl -> room (weight cl) c ->
  yields (compile_clause cl c)
    (fun r => Forall shippable r.1 /\ r.1 <> [] /\
       (exists n, ran n c r.2 /\ n = length r.1 /\ Z.of_nat n <= weight cl) /\
       c_agg_base r.2 <= c_agg_base c + 1 /\
       maps_from [] (c_next_agg_fd c) (c_next_agg_fd r.2) r.1) (error_ok cl).
Proof.
  intros Hcl (R1 & R2 & R3). pose proof Hcl as (Hd & Hi & Hl & Hu).
  pose proof (len_nonneg (raw (cl_parsed cl))). unfold weight in *. unfold compile_clause. cbv zeta.
  eapply yields_bind; [apply yields_returns; [by apply is_aggregation_safe|apply calm_is_agg]|].
  intros is_agg _ _. eapply yields_bind; [by apply clause_schema_yields|]. intros sch _ Hsch.
  eapply yields_bind; [apply incr_u32_yields; lia|]. intros next _ ->.
  eapply yields_bind; [apply take_agg_fd_yields; cbn; lia|]. intros [fd c2] _ (P1 & P2 & P3).
  cbn [fst snd with_probe_id c_next_probe_id c_next_agg_fd c_agg_base] in P1, P2, P3 |- *.
  eapply yields_bind; [by apply discover_yields|]. intros decls _ _.
  eapply yields_bind; [by apply clause_actions_yields|]. intros acts _ Hacts.
  assert (Hx : len (fan_out acts decls is_agg fd).2 * 8 <= len (raw (cl_parsed cl)))
    by (by apply extras_bound).
  set (extras := (fan_out acts decls is_agg fd).2) in *. pose proof (len_nonneg extras).
  assert (Hfd : c_next_agg_fd c <= c_next_agg_fd c2 <= c_next_agg_fd c + 1)
    by (destruct P3 as [[? _]|[_ ->]]; [lia|cbn; lia]).
  eapply yields_bind; [apply lower_checked_ok; [done|by destruct is_agg]|]. intros p _ [Hv Hk].
  apply (yields_bind _ _ (fun b => c_agg_base c <= b <= c_agg_base c + 1)).
  { destruct is_agg; [|simpl; lia]. pose proof (incr_u32_yields (error_ok cl) (c_agg_base c) ltac:(lia)) as Hb.
    destruct (incr_u32 _); [simpl in *; lia|done..]. }
  intros b _ Hb. eapply yields_bind; [by apply main_maps_yields|]. intros maps _ [Hmaps Hsh].
  eapply yields_bind.
  { apply compile_extras_ok; [done|]. unfold room, with_agg_base. cbn. lia. }
  intros [ps c3] _ (Hps & Hn & [D1 D2] & D3 & Hm). cbn [fst snd yields] in *.
  cbn [with_agg_base c_next_probe_id c_next_agg_fd c_agg_base] in D1, D2, D3, Hm.
  split_and!; [constructor; [by split_and!|done]|done| |lia|].
  - exists (S (length extras)). unfold ran. cbn [length]. rewrite Hn. unfold len in *. lia.
  - destruct P3 as [[P3 ->]|[Ha ->]].
    + rewrite P3 in Hm. by apply maps_from_main.
    + apply maps_from_shared; [by apply Hsh|exact Hm].
Qed.

Definition total_weight (l : list Clause) : Z := foldr (fun cl n => weight cl + n) 0 l.

Lemma weight_pos cl : 1 <= weight cl.
Proof. unfold weight. pose proof (len_nonneg (raw (cl_parsed cl))). lia. Qed.

Lemma total_weight_nonneg l : 0 <= total_weight l.
Proof. induction l as [|cl l IH]; [done|]. cbn [total_weight foldr]. pose proof (weight_pos cl). unfold total_weight in IH. lia. Qed.

(** One of the clauses is at fault. *)
Definition some_error (l : list Clause) (e : CompileError) : Prop :=
  exists cl, cl ∈ l /\ error_ok cl e.

Lemma compile_clauses_ok l : forall c,
  Forall clause_ok l -> room (total_weight l) c ->
  yields (compile_clauses l c)
    (fun r => Forall shippable r.1 /\ (length l <= length r.1)%nat /\
       ran (length r.1) c r.2 /\
       maps_from [] (c_next_agg_fd c) (c_next_agg_fd r.2) r.1) (some_error l).
Proof.
  induction l as [|cl l IH]; intros c Hok Hroom.
  { cbn. split_and!; [constructor|lia|unfold ran; simpl; lia|apply maps_from_nil]. }
  apply list.Forall_cons in Hok as [Hcl Hok]. cbn [total_weight foldr] in Hroom.
  change (foldr (fun cl n => weight cl + n) 0 l) with (total_weight l) in Hroom.
  pose proof (weight_pos cl). pose proof (total_weight_nonneg l).
  assert (Hmono : forall e, error_ok cl e -> some_error (cl :: l) e) by (intros e He; exists cl; split; [left|done]).
  cbn [compile_clauses].
  pose proof (compile_clause_ok cl c Hcl ltac:(unfold room in *; lia)) as H1.
  destruct (compile_clause cl c) as [[ps c1]|e|]; [|by apply Hmono|done]. rewrite bind_Ret.
  destruct H1 as (P1 & P2 & (n & [N1 N2] & Hn & Hw) & P4 & P5). cbn [fst snd] in *.
  specialize (IH c1 Hok ltac:(unfold room in *; lia)).
  destruct (compile_clauses l c1) as [[qs c2]|e|]; [|by destruct IH as (x & Hx & He); exists x; split; [right|]|done].
  rewrite bind_Ret. destruct IH as (Q1 & Q2 & [N3 N4] & Q5). cbn [yields fst snd] in *.
  split_and!.
  - by apply list.Forall_app_2.
  - rewrite length_app. destruct ps; [done|simpl in *; lia].
  - unfold ran. rewrite length_app. lia.
  - by eapply maps_from_app.
Qed.

(** C4: compiling any clauses whose DOFs are well formed never panics and
    either returns programs that all pass the static verifier, carry a schema
    the records can be stored through and, below the size a branch can span,
    exactly the relocations of their kernel-function calls - with one program
    at least per clause and one probe id per program - or returns an error of
    the lowering; the pre-flight check can fail only for a program of 2^15
    slots or more. *)
Theorem compile_sound l c
    (Hok : Forall clause_ok l) (Hroom : room (total_weight l) c) :
  match compile_clauses l c with
  | Ret (progs, c') =>
      Forall shippable progs /\ (length l <= length progs)%nat /\
      c_next_probe_id c' = c_next_probe_id c + Z.of_nat (length progs)
  | Throw (LoweringFailed _ _) => True
  | Throw (PreFlightFailed _ _) => exists cl, cl ∈ l /\ too_large cl
  | Panic => False
  end.
Proof.
  pose proof (compile_clauses_ok l c Hok Hroom) as H.
  destruct (compile_clauses l c) as [[progs c']|[what e|what e]|]; [|done| |done].
  - destruct H as (H1 & H2 & [H3 _] & _). by split_and!.
  - exact H.
Qed.

(** The descriptors below the shared maps'. *)
Lemma shared_fds m : shared_map m -> fake_fd m = 100 \/ fake_fd m = 300 \/ fake_fd m = 400.
Proof. unfold shared_map. rewrite !elem_of_cons, elem_of_nil. intros [->|[->|[->|[]]]]; auto. Qed.

Lemma shared_agree m1 m2 : shared_map m1 -> shared_map m2 -> fake_fd m1 = fake_fd m2 -> m1 = m2.
Proof.
  unfold shared_map. rewrite !elem_of_cons, !elem_of_nil.
  by intros [->|[->|[->|[]]]] [->|[->|[->|[]]]].
Qed.

(** C11: while the clauses hold fewer than a hundred aggregations, a fake
    descriptor means one map: two programs of the compilation that declare a
    map under the same descriptor declare the same map, so that the guest,
    which allocates one map per descriptor, gives each aggregation its own. *)
Theorem maps_agree l progs c'
    (Hok : Forall clause_ok l) (Hroom : room (total_weight l) initial_counters)
    (Hc : compile_clauses l initial_counters = Ret (progs, c'))
    (Hfd : c_next_agg_fd c' <= TLS_MAP_FAKE_FD) :
  forall p q m n, p ∈ progs -> q ∈ progs -> m ∈ lp_maps p -> n ∈ lp_maps q ->
    fake_fd m = fake_fd n -> m = n.
Proof.
  pose proof (compile_clauses_ok l initial_counters Hok Hroom) as H. rewrite Hc in H.
  destruct H as (_ & _ & _ & _ & fresh & Hnd & Hr & Hall). cbn [fst snd] in *.
  change (c_next_agg_fd initial_counters) with 200 in Hr. unfold TLS_MAP_FAKE_FD in Hfd.
  rewrite list.Forall_forall in Hr.
  intros p q m n Hp Hq Hm Hn E.
  destruct (Hall p m Hp Hm) as [S1|[[]%not_elem_of_nil|F1]],
    (Hall q n Hq Hn) as [S2|[[]%not_elem_of_nil|F2]].
  - by apply shared_agree.
  - apply shared_fds in S1. apply Hr in F2. lia.
  - apply shared_fds in S2. apply Hr in F1. lia.
  - clear -Hnd F1 F2 E. induction fresh as [|x l IH]; [by apply not_elem_of_nil in F1|].
    cbn [map] in Hnd. apply list.NoDup_cons in Hnd as [Hx Hnd].
    apply elem_of_cons in F1 as [->|F1], F2 as [->|F2]; [done| | |by apply IH].
    + exfalso. apply Hx. rewrite E. by apply list_elem_of_fmap_2.
    + exfalso. apply Hx. rewrite <- E. by apply list_elem_of_fmap_2.
Qed.

(** ** The fan-out *)

Lemma omap_imap_elem {A B} (f : nat * A -> option B) (g : nat -> nat) (l : list A) y :
  y ∈ omap f (imap (fun i a => (g i, a)) l) <-> exists i a, l !! i = Some a /\ f (g i, a) = Some y.
Proof.
  rewrite list_elem_of_omap. split.
  - intros (x & Hx & Hf). apply elem_of_lookup_imap in Hx as (i & a & -> & Ha). by exists i, a.
  - intros (i & a & Ha & Hf). exists (g i, a). split; [|done]. apply elem_of_lookup_imap. by exists i, a.
Qed.

Definition kind_at (acts : list Action) (i : nat) : option Z := act_kind <$> acts !! i.

Lemma agg_positions_app a b i :
  agg_positions i (a ++ b) = agg_positions i a ++ agg_positions (i + length a) b.
Proof.
  revert i. induction a as [|x a IH]; intros i; [by rewrite Nat.add_0_r|].
  cbn [app agg_positions length]. rewrite IH. replace (S i + length a)%nat with (i + S (length a))%nat by lia.
  by destruct (is_agg_action _).
Qed.

Definition no_agg (l : list Action) : Prop := Forall (fun a => is_agg_action (act_kind a) = false) l.

Lemma agg_positions_none l i : no_agg l -> agg_positions i l = [].
Proof. intros H. revert i. induction H as [|a l Ha Hl IH]; intros i; [done|]. cbn. by rewrite Ha. Qed.

(** A chain: values and keys, then the aggregation. *)
Definition chain (c : list Action) : Prop :=
  exists vals a, c = vals ++ [a] /\ no_agg vals /\ is_agg_action (act_kind a) = true.

(** Where the chains start and end, the first at [i]. *)
Fixpoint chain_starts (i : nat) (cs : list (list Action)) : list nat :=
  match cs with [] => [] | c :: cs => i :: chain_starts (i + length c) cs end.
Fixpoint chain_ends (i : nat) (cs : list (list Action)) : list nat :=
  match cs with [] => [] | c :: cs => (i + length c - 1)%nat :: chain_ends (i + length c) cs end.

Lemma agg_positions_chains cs : forall i, Forall chain cs -> agg_positions i (concat cs) = chain_ends i cs.
Proof.
  induction cs as [|c cs IH]; intros i Hc; [done|]. apply list.Forall_cons in Hc as [(v & a & -> & Hv & Ha) Hc].
  cbn [concat chain_ends]. rewrite agg_positions_app, IH by done.
  rewrite agg_positions_app, (agg_positions_none v) by done. cbn [app agg_positions]. rewrite Ha.
  cbn [app]. f_equal. rewrite length_app. cbn [length]. lia.
Qed.

Lemma chain_progs_ends cs : forall i,
  Forall chain cs -> chain_progs (chain_ends i cs) = map ExtraAggChain (tail (chain_starts i cs)).
Proof.
  induction cs as [|c cs IH]; intros i Hc; [done|]. apply list.Forall_cons in Hc as [Hc Hcs].
  destruct cs as [|c' cs]; [done|]. cbn [chain_ends chain_starts tail map] in *.
  change (chain_progs ((i + length c - 1)%nat :: (i + length c + length c' - 1)%nat :: ?l))
    with (ExtraAggChain (S (i + length c - 1)) :: chain_progs ((i + length c + length c' - 1)%nat :: l)).
  rewrite IH by done. f_equal. f_equal. destruct Hc as (v & a & -> & _). rewrite length_app. simpl. lia.
Qed.

Lemma last_chain_end cs : forall i, cs <> [] -> Forall chain cs ->
  list.last (chain_ends i cs) = Some (i + length (concat cs) - 1)%nat.
Proof.
  induction cs as [|c cs IH]; intros i Hne Hc; [done|]. apply list.Forall_cons in Hc as [Hc Hcs].
  destruct cs as [|c' cs].
  - cbn. by rewrite app_nil_r.
  - change (chain_ends i (c :: c' :: cs)) with ((i + length c - 1)%nat :: chain_ends (i + length c) (c' :: cs)).
    specialize (IH (i + length c)%nat ltac:(done) Hcs).
    destruct (chain_ends (i + length c) (c' :: cs)) as [|e es] eqn:Ee; [done|].
    change (list.last ((i + length c - 1)%nat :: e :: es)) with (list.last (e :: es)).
    rewrite IH. f_equal. cbn [concat]. rewrite !length_app. lia.
Qed.

(** The actions of a clause: standalone ones, the chains of its aggregations,
    the first with the keys its source declaration has, and what follows. *)
Record clause_shape (lead : list Action) (chains : list (list Action)) (trail : list Action)
    (decls : list AggDecl) : Prop := {
  sh_lead : no_agg lead;
  sh_chains : Forall chain chains;
  sh_trail : no_agg trail;
  sh_first : exists d ds c cs, decls = d :: ds /\ chains = c :: cs /\ length c = (n_keys d + 2)%nat;
  sh_printf : is_printf_chain (lead ++ concat chains ++ trail) = false
}.

Lemma fan_out_shaped lead chains trail decls fd :
  clause_shape lead chains trail decls ->
  let acts := lead ++ concat chains ++ trail in
  fan_out (Some acts) decls true fd =
    (Some (length lead),
     leading_progs acts (length lead) ++ map ExtraAggChain (tail (chain_starts (length lead) chains))
     ++ trailing_progs acts (length lead + length (concat chains) - 1) fd).
Proof.
  intros [H1 H2 H3 (d & ds & c & cs & -> & -> & Hn) H5] acts.
  assert (Hpos : agg_positions 0 acts = chain_ends (length lead) (c :: cs)).
  { unfold acts. rewrite !agg_positions_app, (agg_positions_none lead), (agg_positions_none trail),
      agg_positions_chains by done. by rewrite app_nil_r. }
  assert (Hcs : first_chain_start acts (d :: ds) = Some (length lead)).
  { unfold first_chain_start. rewrite Hpos. cbn [chain_ends]. f_equal. lia. }
  unfold fan_out, extra_progs. fold acts in H5. rewrite H5, Hcs, Hpos. cbn [negb andb].
  rewrite chain_progs_ends, last_chain_end by done. done.
Qed.

Lemma leading_elem acts n x :
  x ∈ leading_progs acts n <-> exists i a, (i < n)%nat /\
    acts !! i = Some a /\ x = ExtraAction i /\ act_kind a <> DTRACEACT_LIBACT /\
    (act_kind a = DTRACEACT_DIFEXPR \/ act_kind a = DTRACEACT_PRINTA).
Proof.
  unfold leading_progs. rewrite (omap_imap_elem _ (fun i => i)). split.
  - intros (i & a & [Ha Hi]%lookup_take_Some & Hx). exists i, a.
    destruct (Z.eqb_spec (act_kind a) DTRACEACT_LIBACT); [done|].
    destruct (Z.eqb_spec (act_kind a) DTRACEACT_DIFEXPR), (Z.eqb_spec (act_kind a) DTRACEACT_PRINTA);
      cbn [orb] in Hx; [..|done]; injection Hx as <-; split_and!; auto.
  - intros (i & a & Hi & Ha & -> & N & Hk). exists i, a.
    split; [by rewrite lookup_take_lt|]. destruct (Z.eqb_spec (act_kind a) DTRACEACT_LIBACT); [done|].
    destruct Hk as [-> | ->]; done.
Qed.

Lemma trailing_elem acts last_agg fd x :
  x ∈ trailing_progs acts last_agg fd <-> exists i a, (last_agg < i)%nat /\ acts !! i = Some a /\
    (act_kind a <> DTRACEACT_LIBACT /\ x = ExtraAction i \/
     act_kind a = DTRACEACT_LIBACT /\ arg a = DT_ACT_CLEAR /\ x = ExtraClearAgg fd).
Proof.
  unfold trailing_progs. rewrite (omap_imap_elem _ (fun i => (S last_agg + i)%nat)). split.
  - intros (i & a & Ha & Hx). rewrite lookup_drop in Ha. exists (S last_agg + i)%nat, a.
    split_and!; [lia|done|]. destruct (Z.eqb_spec (act_kind a) DTRACEACT_LIBACT).
    + destruct (Z.eqb_spec (arg a) DT_ACT_CLEAR); [|done]. injection Hx as <-. auto.
    + injection Hx as <-. auto.
  - intros (i & a & Hi & Ha & Hx). exists (i - S last_agg)%nat, a.
    rewrite lookup_drop. replace (S last_agg + (i - S last_agg))%nat with i by lia.
    split; [done|]. destruct Hx as [[N ->]|(-> & -> & ->)]; [|done].
    by destruct (Z.eqb_spec (act_kind a) DTRACEACT_LIBACT).
Qed.

(** C17: an aggregating clause fans out along its chains.  When its actions are
    standalone ones, then one chain per aggregation - the first as long as
    its declaration says - then what follows, the main program is the first
    chain, one program starts exactly where each other chain does, each
    standalone expression before the chains and each action after them gets
    a program of its own and no other action does, and each [clear] after
    them clears the clause's own map. *)
Theorem fan_out_exact lead chains trail decls fd (H : clause_shape lead chains trail decls) :
  let acts := lead ++ concat chains ++ trail in
  let body := (length lead + length (concat chains))%nat in
  let '(first_cs, extras) := fan_out (Some acts) decls true fd in
  first_cs = Some (length lead) /\
  (forall i, ExtraAction i ∈ extras <->
     (i < length lead)%nat /\ (kind_at acts i = Some DTRACEACT_DIFEXPR \/ kind_at acts i = Some DTRACEACT_PRINTA)
     \/ (body <= i)%nat /\ exists k, kind_at acts i = Some k /\ k <> DTRACEACT_LIBACT) /\
  (forall s, ExtraAggChain s ∈ extras <-> s ∈ tail (chain_starts (length lead) chains)) /\
  (forall f, ExtraClearAgg f ∈ extras <->
     f = fd /\ exists i a, (body <= i)%nat /\ acts !! i = Some a /\
       act_kind a = DTRACEACT_LIBACT /\ arg a = DT_ACT_CLEAR).
Proof.
  intros acts body. rewrite (fan_out_shaped _ _ _ _ _ H). fold acts.
  assert (Hb : (0 < length (concat chains))%nat).
  { destruct H as [_ _ _ (d & ds & c & cs & -> & -> & Hn) _]. cbn [concat]. rewrite length_app. lia. }
  fold body. split; [done|]. unfold kind_at. split_and!.
  - intros i. rewrite !elem_of_app, leading_elem, trailing_elem. split.
    + intros [(j & a & Hj & Ha & [= <-] & N & Hk)|[Hc|(j & a & Hj & Ha & [[N [= <-]]|(_ & _ & ?)])]]; [| |right|done].
      * left. rewrite Ha. cbn. split; [done|]. destruct Hk as [-> | ->]; auto.
      * by apply list_elem_of_fmap in Hc as (s & ? & _).
      * split; [lia|]. rewrite Ha. eauto.
    + intros [[Hi Hk]|(Hi & k & Hk & N)].
      * left. destruct (acts !! i) as [a|] eqn:Ha; [|by destruct Hk]. cbn in Hk. exists i, a.
        destruct Hk as [[= Hk]|[= Hk]]; rewrite Hk; split_and!; auto; done.
      * right. right. destruct (acts !! i) as [a|] eqn:Ha; [|done]. injection Hk as <-. exists i, a.
        split; [lia|auto].
  - intros s. rewrite !elem_of_app, leading_elem, trailing_elem. split.
    + intros [(j & a & _ & _ & ? & _)|[Hc|(j & a & _ & _ & [[_ ?]|(_ & _ & ?)])]]; [done| |done|done].
      by apply list_elem_of_fmap in Hc as (x & [= ->] & Hx).
    + intros Hs. right. left. by apply list_elem_of_fmap_2.
  - intros f. rewrite !elem_of_app, leading_elem, trailing_elem. split.
    + intros [(j & a & _ & _ & ? & _)|[Hc|(j & a & Hj & Ha & [[_ ?]|(K & C & [= ->])])]]; [done| |done|].
      * by apply list_elem_of_fmap in Hc as (x & ? & _).
      * split; [done|]. exists j, a. split; [lia|auto].
    + intros (-> & i & a & Hi & Ha & K & C). right. right. exists i, a. split; [lia|auto 6].
Qed.

(** a clause that neither aggregates nor prints with one format lowers
    each of its actions once: the main program takes the first, and the
    actions with a program of their own are exactly the others, those of
    libdtrace excepted. *)
Theorem plain_fan_out acts decls fd (Hp : is_printf_chain acts = false) :
  (fan_out (Some acts) decls false fd).1 = None /\
  NoDup (fan_out (Some acts) decls false fd).2 /\
  forall x, x ∈ (fan_out (Some acts) decls false fd).2 <->
    exists i k, x = ExtraAction i /\ (0 < i)%nat /\ kind_at acts i = Some k /\ k <> DTRACEACT_LIBACT.
Proof.
  unfold fan_out, extra_progs. rewrite Hp. cbn [fst snd negb andb]. split; [done|]. unfold plain_progs.
  split.
  - assert (H : forall l n, NoDup (omap (fun '(i, a) => if act_kind a =? DTRACEACT_LIBACT then None
        else Some (ExtraAction i)) (imap (fun i a => ((n + i)%nat, a)) l))).
    { induction l as [|a l IH]; intros n; [constructor|]. cbn [imap].
      assert (E : imap ((fun i a => ((n + i)%nat, a)) ∘ S) l = imap (fun i a => ((S n + i)%nat, a)) l)
        by (apply imap_ext; intros i x _; cbn; f_equal; lia).
      rewrite E. specialize (IH (S n)).
      match goal with |- NoDup (omap ?f (?p :: ?r)) =>
        change (omap f (p :: r)) with (match f p with Some y => y :: omap f r | None => omap f r end) end.
      cbn beta iota. destruct (_ =? _); [done|]. constructor; [|done].
      rewrite (omap_imap_elem _ (fun i => (S n + i)%nat)). intros (i & x & _ & Hx).
      destruct (_ =? _); [done|]. assert (X : (S n + i)%nat = (n + 0)%nat) by congruence. lia. }
    exact (H (tail acts) 1%nat).
  - intros x. rewrite (omap_imap_elem _ S). unfold kind_at. split.
    + intros (i & a & Ha & Hx). destruct (Z.eqb_spec (act_kind a) DTRACEACT_LIBACT) as [|N]; [done|].
      injection Hx as <-. exists (S i), (act_kind a). split_and!; [done|lia| |done].
      destruct acts; [done|]. by rewrite (Ha : (_ :: acts) !! S i = Some a).
    + intros ([|i] & k & -> & Hi & Hk & N); [lia|]. destruct acts as [|a0 acts]; [done|].
      change ((a0 :: acts) !! S i) with (acts !! i) in Hk. destruct (acts !! i) as [a|] eqn:Ha; [|done]. injection Hk as <-. exists i, a.
      split; [done|]. by destruct (Z.eqb_spec (act_kind a) DTRACEACT_LIBACT).
Qed.
