(* ===== verification/LowerSample.v ===== *)
(** A clause lowered in full - [/pid == 42/ { @[execname] = count(); }] - and
    what concrete programs show of the lowering: cases where the emitted code
    is not what the D source asks for. *)

From Stdlib Require Import Strings.String.
From stdpp Require Import gmap.
From S2P Require Import Prelude Emit Bpf Verify CodeFrag Schema HostDof LowerState LowerDif.
From S2P Require Import LowerAction LowerAgg LowerProg LowerOk LowerAggOk LowerProgOk LowerSem.
From S2P Require Import DifSem DifOk.

Local Open Scope Z_scope.
Local Open Scope list_scope.

Module Sample.

(** A DOF with the given payloads, one after the other. *)
Fixpoint layout (off : Z) (l : list (SectKind * bytes)) : list DofSection :=
  match l with
  | [] => []
  | (k, b) :: l =>
      {| sec_kind := k; sec_align := 8; sec_flags := 1; sec_entsize := 0; sec_offset := off;
         sec_size := len b |} :: layout (off + len b) l
  end.

Definition mk_dof (l : list (SectKind * bytes)) : Dof :=
  {| header := {| flags := 0; hdrsize := 64; secsize := 32; secnum := len l; secoff := 64;
                  loadsz := 0; filesz := 0 |};
     sections := layout 0 l; raw := concat (map snd l) |}.

Definition words (l : list Z) : bytes := concat (map (to_le 4) l).
Definition ecb (pred actions : Z) : bytes := words [U32_MAX; pred; actions; 0; 0; 0].
Definition action (difo kind arg : Z) : bytes := words [difo; U32_MAX; kind; 0] ++ to_le 8 arg ++ to_le 8 0.
Definition difo (links : list Z) : bytes := words ([1; 8] ++ links).

(** The predicate [pid == 42], as libdtrace compiles it. *)
Definition pid_is_42 : bytes :=
  words [0x29011601; 0x25000002; 0x0f010200; 0x12000006; 0x0e000001; 0x11000007; 0x25000101;
         0x23000001].

Definition clause : Dof :=
  mk_dof
    [ (SEcbDesc, ecb 1 4);
      (SDifoHdr, difo [2; 3]); (SDif, pid_is_42); (SIntTab, to_le 8 42 ++ to_le 8 1);
      (SActDesc, action 5 DTRACEACT_DIFEXPR 0 ++ action 7 DTRACEACT_DIFEXPR 0
                   ++ action U32_MAX DTRACEAGG_COUNT 0);
      (SDifoHdr, difo [6]); (SDif, words [0x23000000]);
      (SDifoHdr, difo [8]); (SDif, words [0x29011801; 0x23000001]) ].

Lemma clause_wf : dof_wf clause.
Proof.
  split; [by vm_compute|]. apply list.Forall_forall. intros s Hs.
  assert (E : bool_decide (Forall (fun s => 0 <= sec_offset s /\ 0 <= sec_size s /\
    sec_offset s + sec_size s <= len (raw clause)) (sections clause)) = true) by by vm_compute.
  apply bool_decide_eq_true in E. rewrite list.Forall_forall in E. by apply E.
Qed.

Definition regs_okb (d : Dof) (s : DofSection) : bool :=
  match dif_instructions (E:=LoweringError) d s with
  | Ret l => bool_decide (Forall (fun i =>
      Forall (fun r => 0 <= r <= 10) (regs_of (op i) (r1 i) (r2 i) (rd i)) /\
      0 <= imm16 i < 2 ^ 16) l)
  | _ => true
  end.

Lemma dif_ok_check d : forallb (regs_okb d) (sections d) = true -> dif_ok d.
Proof.
  intros H s l Hs _ Hl. rewrite forallb_forall in H.
  specialize (H s ltac:(by apply list_elem_of_In)). unfold regs_okb in H. rewrite Hl in H.
  by apply bool_decide_eq_true in H.
Qed.

Lemma clause_dif_ok : dif_ok clause.
Proof. apply dif_ok_check. by vm_compute. Qed.

Lemma trace_fits : schema_fits default_trace.
Proof.
  split; [|by vm_compute]. repeat (constructor; [by vm_compute|]). constructor.
Qed.

(** The number of slots, and the relocations. *)
Definition slots_of (o : outcome LoweringError Asm) : option (Z * list (Z * string)) :=
  match o with Ret p => Some (len (decode_all p.1), p.2) | _ => None end.

Example clause_lowers :
  slots_of (lower_with_opts clause None default_opts) = Some (73, []).
Proof. vm_compute. reflexivity. Qed.

(** The same clause with [trace(walltimestamp)] for its action. *)
Definition tracing : Dof :=
  mk_dof
    [ (SEcbDesc, ecb 1 4);
      (SDifoHdr, difo [2; 3]); (SDif, pid_is_42); (SIntTab, to_le 8 42 ++ to_le 8 1);
      (SActDesc, action 5 DTRACEACT_DIFEXPR 0);
      (SDifoHdr, difo [6]); (SDif, words [0x29011a01; 0x23000001]) ].

Definition traced_slots : Z := 58.

Example tracing_lowers :
  slots_of (lower_with_opts tracing (Some default_trace) default_opts)
  = Some (traced_slots, [(2, KFUNC_SHMEM_RESERVE); (44, KFUNC_WALLTIME_NS);
                         (52, KFUNC_SHMEM_SUBMIT); (53, KFUNC_SHMEM_KICK)]).
Proof. vm_compute. reflexivity. Qed.

Lemma tracing_wf : dof_wf tracing.
Proof.
  split; [by vm_compute|]. apply list.Forall_forall. intros s Hs.
  assert (E : bool_decide (Forall (fun s => 0 <= sec_offset s /\ 0 <= sec_size s /\
    sec_offset s + sec_size s <= len (raw tracing)) (sections tracing)) = true) by by vm_compute.
  apply bool_decide_eq_true in E. rewrite list.Forall_forall in E. by apply E.
Qed.

Lemma tracing_dif_ok : dif_ok tracing.
Proof. apply dif_ok_check. by vm_compute. Qed.

(** An action chain that ends in the histogram of [arg0]. *)
Definition histogram : Dof :=
  mk_dof [ (SDifoHdr, difo [1]); (SDif, words [0x29010601; 0x23000001]) ].

Definition quantize_action : Action :=
  {| HostDof.difo := 0; act_strtab := U32_MAX; act_kind := DTRACEAGG_QUANTIZE; ntuple := 0;
     arg := 0; act_uarg := 0 |}.

Definition start : LowerState := new_with_strtab None None None.

(** A lookup that finds the slot at 4096 and clobbers nothing. *)
Definition found_at (a : Z) (i : insn) (d : data) : option data := Some (set 0 a d).

(** A lookup of the 32-bit key 0 in the map at [m]: it returns [a], null for
    any other map or key, and clobbers r1 to r5 as a helper may. *)
Definition array_lookup (m a : Z) (i : insn) (d : data) : option data :=
  if i_imm i =? 1 then
    Some (Data (fun r => if r =? 0 then if (reg d 1 =? m) && (load 4 (mem d) (reg d 2) =? 0) then a else 0
                         else if r <=? 5 then 0xdead else reg d r) (mem d))
  else None.

Lemma array_lookup_returns m k a : LowerSem.lookup_returns (array_lookup m a) m k a.
Proof.
  intros d E1 E2 Ek. eexists. split; [reflexivity|]. cbn [reg mem]. split_and!; [|intros r Hr|done].
  - by rewrite E1, E2, Ek, !Z.eqb_refl.
  - destruct (Z.eqb_spec r 0), (Z.leb_spec r 5); lia.
Qed.

(** The value 40 in r0, the stack ending at 8192, and nothing counted yet. *)
Definition valued : data := Data (fun r => if r =? 0 then 40 else if r =? 10 then 8192 else 7) (fun _ => 0).

(** Registers at a firing: the slot at 4096, the value [v], anything elsewhere. *)
Definition at_slot (junk v r : Z) : Z := if r =? 0 then 4096 else if r =? 6 then v else junk.

(** The predicate [pid == 42] in process 42, thread 7. *)
Definition pid_test : list DifInstr :=
  map HostDof.decode
    [0x29011601; 0x25000002; 0x0f010200; 0x12000006; 0x0e000001; 0x11000007; 0x25000101; 0x23000001].

Definition fired : dif_env :=
  {| table := [42; 1]; e_task := 4096; e_time := 1; e_pid := 42; e_tid := 7; e_cpu := 0;
     e_arg := fun _ => 0 |}.

Definition value_start : LowerState := with_section start (Some [42; 1]) None Predicate.

Definition answered (i : insn) (d : data) : option data :=
  Some (set 0 (match i_imm i with
               | 35 => 4096 | 5 => 1 | 14 => 42 * 2 ^ 32 + 7 | _ => 0 end) d).

(** The stack ends at 8192, the context is at [2 ^ 16]. *)
Definition entered : data :=
  Data (fun r => if r =? 10 then 8192 else if r =? CTX_REG then 2 ^ 16 else 0) (fun _ => 0).

Definition no_regs : dif_state := {| dreg := fun _ => 0; dcmp := None |}.

Lemma fired_ok : env_ok answered 8192 fired (2 ^ 16) (fun _ => 0).
Proof.
  assert (Ha : forall id v, (match id with 35 => 4096 | 5 => 1 | 14 => 42 * 2 ^ 32 + 7 | _ => 0 end) = v ->
    helper_answers answered id v).
  { intros id v Hv d. eexists. split; [reflexivity|]. split_and!; [|intros r Hr|done].
    - cbn [i_imm]. rewrite reg_set, Hv. done.
    - rewrite reg_set. destruct (Z.eqb_spec r 0); [lia|done]. }
  split.
  - repeat (constructor; [by vm_compute|]). constructor.
  - split; [by apply Ha|by vm_compute].
  - split; [by apply Ha|by vm_compute].
  - split; [by apply Ha|]. split; by vm_compute.
  - split; [by apply Ha|by vm_compute].
  - split; [lia|right; lia].
  - intros k Hk. unfold word. pose proof (load_range 8 (fun _ => 0) (2 ^ 16 + 8 * k)). reflexivity.
Qed.

Lemma entered_ok : agrees 8192 (2 ^ 16) 0 (fun _ => 0) no_regs entered.
Proof.
  split; try done; intros r Hr; cbn [reg entered dreg no_regs]; unfold CTX_REG;
    destruct (Z.eqb_spec r 10), (Z.eqb_spec r 8); (lia || by vm_compute).
Qed.

End Sample.

(** ** Witnesses *)

Lemma dif_compiles_witness :
  exists s' frag d',
    (lower_instrs Sample.pid_test ;; fixup_branches) Sample.value_start = (Ret tt, s') /\
    asm (body s') frag /\
    steps Sample.answered (fun _ => 0) frag (0, Sample.entered) (len frag, d') /\ reg d' 0 = 1.
Proof.
  destruct (dif_compiles Sample.fired Sample.pid_test Sample.value_start []) as
    (s' & frag & E & A & _ & H); [by vm_compute|done..|].
  assert (Es : s' = ((lower_instrs Sample.pid_test ;; fixup_branches) Sample.value_start).2)
    by (by rewrite E).
  assert (El : len frag = 20).
  { destruct A as [A _]. cbn [app] in A. rewrite <- A, Es. vm_compute. reflexivity. }
  destruct (H Sample.answered (fun _ => 0) 8192 (2 ^ 16) 0 (fun _ => 0) Sample.no_regs
    Sample.entered 10%nat 1 frag 0) as (d' & S & E0 & _ & _);
    [lia|lia|apply Sample.fired_ok|apply Sample.entered_ok|by vm_compute|apply code_at_whole|].
  exists s', frag, d'. split_and!; [exact E|exact A|exact S|exact E0].
Defined.

Lemma lowering_sound_witness :
  match lower_with_opts Sample.tracing (Some default_trace) default_opts with
  | Ret p => len p.1 < 8 * 2 ^ 15 -> sound_program p
  | Throw _ => True
  | Panic => False
  end /\
  Sample.slots_of (lower_with_opts Sample.tracing (Some default_trace) default_opts)
  = Some (Sample.traced_slots, [(2, KFUNC_SHMEM_RESERVE); (44, KFUNC_WALLTIME_NS);
                                (52, KFUNC_SHMEM_SUBMIT); (53, KFUNC_SHMEM_KICK)]).
Proof.
  split; [|vm_compute; reflexivity].
  apply (lowering_sound Sample.tracing (Some default_trace) default_opts).
  - apply Sample.tracing_wf.
  - apply Sample.tracing_dif_ok.
  - apply Sample.trace_fits.
Defined.

Lemma quantize_chain_counts_witness :
  exists s1 l d' e, lower_difo_by_secidx Sample.histogram 0 Sample.start = (Ret tt, s1) /\
    emit_quantize_chain Sample.histogram [Sample.quantize_action] Sample.start
      = (Ret tt, with_out s1 (extend l (out s1))) /\
    steps (Sample.array_lookup (2 ^ 20 + as_i32 (agg_map_fake_fd s1)) 65536) (Z.add (2 ^ 20)) (slots l)
      (0, Sample.valued) (e, d') /\
    halted (slots l) (e, d') /\ reg d' 0 = 0 /\ word (mem d') (65536 + 8 * (64 + 5)) = 1.
Proof.
  destruct (lower_difo_by_secidx Sample.histogram 0 Sample.start) as [r s1] eqn:E.
  assert (Er : r = Ret tt) by (apply (f_equal fst) in E; vm_compute in E; by rewrite <- E).
  subst r.
  destruct (quantize_chain_counts Sample.histogram [Sample.quantize_action] Sample.quantize_action
    Sample.start s1 eq_refl E) as (l & H & Hrun).
  destruct (Hrun (Sample.array_lookup (2 ^ 20 + as_i32 (agg_map_fake_fd s1)) 65536) (Z.add (2 ^ 20)) 65536
    Sample.valued (slots l) 0) as (d' & e & S & Ht & E0 & Em);
    [apply Sample.array_lookup_returns|by vm_compute|lia|apply code_at_whole|].
  exists s1, l, d', e. split_and!; [reflexivity|exact H|exact S|exact Ht|exact E0|].
  rewrite Em. vm_compute. reflexivity.
Defined.

Lemma agg_update_aggregates_witness :
  exists f', fires (Sample.found_at 0) (fun x => x) DTRACEAGG_MAX (fun _ => 0)
      [Sample.at_slot 1 3; Sample.at_slot 77 9; Sample.at_slot (2 ^ 63) 4] f' /\
    slot3 f' 4096 = [9; 0; 0].
Proof.
  destruct (agg_update_aggregates (Sample.found_at 0) (fun x => x) DTRACEAGG_MAX 4096 (fun _ => 0)
    [Sample.at_slot 1 3; Sample.at_slot 77 9; Sample.at_slot (2 ^ 63) 4]) as [[f' F] H];
    [reflexivity|lia|reflexivity| |discriminate|].
  - repeat (constructor; [by vm_compute|]). constructor.
  - exists f'. split; [exact F|]. destruct (H f' F) as [E _]. exact E.
Defined.

(** ** What the code gets wrong

    Each lemma is a program the lowering accepts and what becomes of it. *)

(** [lower_difo_by_secidx] does not clear [insn_offsets]: the branches of a
    second DIFO of a chain are resolved against the offsets of the first.
    Here the key of [@[pid == 42] = sum(arg0)]; every branch of its DIF goes
    forward, and the lowered key branches back to itself. *)
Definition conditional_key : Dof :=
  Sample.mk_dof
    [ (SEcbDesc, Sample.ecb U32_MAX 1);
      (SActDesc, Sample.action 2 DTRACEACT_DIFEXPR 0 ++ Sample.action 4 DTRACEACT_DIFEXPR 0
                   ++ Sample.action 2 DTRACEAGG_SUM 0);
      (SDifoHdr, Sample.difo [3]); (SDif, Sample.words [0x29010601; 0x23000001]);
      (SDifoHdr, Sample.difo [5; 6]); (SDif, Sample.pid_is_42);
      (SIntTab, to_le 8 42 ++ to_le 8 1) ].

Definition backward_jump (i : insn) : bool :=
  (Z.land (i_code i) 7 =? 5) && negb (i_code i =? 0x85) && negb (i_code i =? 0x95)
  && (i_off i <? 0).

Lemma second_difo_branches_back :
  match lower_with_opts conditional_key None default_opts with
  | Ret p => existsb backward_jump (decode_all p.1) = true
  | _ => False
  end.
Proof. vm_compute. reflexivity. Qed.

(** DIF's PUSHTR is 0x30 in [mnemonic] (and in sys/dtrace.h) and 0x32 is
    POPTS; the lowering takes 0x31 and 0x32 for pushes, so it rejects one and
    pushes for the other. *)
Lemma pusht_opcodes_shifted :
  let i := HostDof.decode 0x30000001 in
  (lower_one_state i Sample.start).1 = Throw (UnsupportedOp 0x30 (mnemonic i)) /\
  mnemonic i = "PUSHTR"%string /\ mnemonic (HostDof.decode 0x32000000) = "POPTS"%string /\
  tuple_depth (lower_one_state (HostDof.decode 0x32000001) Sample.start).2 = 1.
Proof. vm_compute. by repeat split. Qed.

(** LDLS leaves the provenance of the register it overwrites: after
    [%r1 = execname; %r1 = this->x] a string comparison with r1 is accepted. *)
Lemma ldls_keeps_provenance :
  let m := st_forM (map HostDof.decode [0x29011801; 0x38000101; 0x27010100]) lower_one_state in
  (m Sample.start).1 = Ret tt.
Proof. vm_compute. reflexivity. Qed.

(** A binary operation whose destination is its second operand reads the
    operand after it has been overwritten: [sub %r1, %r2, %r2] gives 0. *)
Definition machine_of (regs : list (Z * Z)) : data :=
  Data (fun r => default 0 (snd <$> List.find (fun x => x.1 =? r) regs)) (fun _ => 0).

Definition run_reg (l : list bytes) (n : nat) (regs : list (Z * Z)) (r : Z) : option (Z * Z) :=
  (fun m : Z * data => (m.1, reg m.2 r)) <$>
  run (Sample.found_at 0) (fun x => x) n (slots l) (0, machine_of regs).

Lemma binary_into_second_operand :
  let code := (lower_binary BPF_SUB64_REG 1 2 2 ([], [])).1 in
  run_reg [code] 2 [(1, 10); (2, 3)] 2 = Some (2, 0).
Proof. vm_compute. reflexivity. Qed.

(** lquantize with a negative base: the test for underflow is unsigned, so
    every value from zero up lands in the underflow bucket.  Base -10, ten
    levels of 2: the value 5 belongs in bucket 8 and is counted in bucket 0. *)
Lemma lquantize_negative_base :
  let l := lquantize_list (-10) 10 2 in
  run_reg (bpf_mov64_imm 7 0 :: bpf_jcc_imm 0xa5 6 (-10) (as_i16 (len (concat l) / 8)) :: l)
    2 [(6, 5)] 7 = Some (2 + 7, 0) /\ (5 - -10) / 2 + 1 = 8.
Proof. vm_compute. by split. Qed.

(** llquantize divides by the truncated step of the band.  Where the steps do
    not divide the band the buckets run into the next magnitude's: with factor
    2, magnitudes 4 and 5 and 10 steps, the values 31 and 47 share bucket 16. *)
Lemma llquantize_buckets_overlap :
  match llquantize_body (E:=Empty_set) 10 2 (thresholds 2 4 2) with
  | Ret body =>
      run_reg [body] 6 [(6, 31)] 7 = Some (13, 16) /\ run_reg [body] 7 [(6, 47)] 7 = Some (13, 16)
  | _ => False
  end.
Proof. vm_compute. by split. Qed.

(** Every chain of a clause with two histograms counts the value of the first:
    the chain is found by its kind, not by its position. *)
Lemma quantize_ignores_position dof acts a1 a2 p1 p2 c1 c2 :
  acts !! Z.to_nat p1 = Some a1 -> acts !! Z.to_nat p2 = Some a2 ->
  act_kind a1 = DTRACEAGG_QUANTIZE -> act_kind a2 = DTRACEAGG_QUANTIZE ->
  p1 - (c1 + 1) <= MAX_KEYS -> p2 - (c2 + 1) <= MAX_KEYS ->
  emit_agg_chain_at dof acts c1 p1 = emit_agg_chain_at dof acts c2 p2.
Proof.
  intros H1 H2 K1 K2 N1 N2. unfold emit_agg_chain_at, action_at, MAX_KEYS in *. rewrite H1, H2.
  unfold mbind, st_bind, st_lift. cbn beta iota zeta. rewrite K1, K2. cbn [Z.eqb].
  by destruct (Z.ltb_spec 4 (Z.max 0 (p1 - (c1 + 1)))),
    (Z.ltb_spec 4 (Z.max 0 (p2 - (c2 + 1)))); try lia.
Qed.

(** lquantize's map has 64 entries, whatever the number of levels. *)
Lemma lquantize_map_too_small :
  let a := {| HostDof.difo := 0; act_strtab := U32_MAX; act_kind := DTRACEAGG_LQUANTIZE;
              ntuple := 0; arg := Z.shiftl 1 48 + Z.shiftl 100 32; act_uarg := 0 |} in
  agg_map_decl_for_chain_at (E:=Empty_set) [a] 0 0 = Ret (Some (6, 4, 8, 64)) /\
  decode_lquantize_arg (arg a) = (0, 100, 1).
Proof. vm_compute. by split. Qed.

(** tracemem into a [Bytes] field without room: [clamp(1, 0)] panics. *)
Lemma tracemem_empty_field_panics :
  (lower_action_into Sample.histogram
     {| HostDof.difo := 0; act_strtab := U32_MAX; act_kind := DTRACEACT_TRACEMEM; ntuple := 0;
        arg := 8; act_uarg := 0 |}
     (new_with_strtab (Some (for_tracemem 0)) None None)).1 = Panic.
Proof. vm_compute. reflexivity. Qed.
