(* ===== verification/CompileSample.v ===== *)
(** Clauses compiled in full: the inputs at which the theorems of
    SchemaPick.v, CoreReloc.v, AggDecl.v and LinuxCompileOk.v apply, and what
    concrete clauses show of the pipeline where it does not do what the D
    source asks for. *)

From Stdlib Require Import Strings.String.
From stdpp Require Import gmap.
From S2P Require Import Utf8 Emit Bpf Verify CodeFrag Schema HostDof LowerState LowerAction LowerAgg LowerProg.
From S2P Require Import LowerOk FieldReloc Bfr7 SchemaPick CoreReloc Text AggDecl LinuxCompile LinuxCompileOk.
From S2P Require Import LowerSample Prelude.

Local Open Scope Z_scope.
Local Open Scope list_scope.

Module Clauses.

Definition count_clause : Clause :=
  {| cl_target := str "do_sys_openat2"; cl_body := str "@n[execname] = count();";
     cl_parsed := Sample.clause; cl_markers := []; cl_probe_type := 6; cl_uprobe := None;
     cl_period_ns := None |}.

Definition trace_clause : Clause :=
  {| cl_target := str "vfs_read"; cl_body := str "trace(walltimestamp);";
     cl_parsed := Sample.tracing; cl_markers := []; cl_probe_type := 6; cl_uprobe := None;
     cl_period_ns := None |}.

Lemma clauses_ok : Forall clause_ok [count_clause; trace_clause].
Proof.
  constructor; [|constructor; [|constructor]]; split_and!;
    [apply Sample.clause_wf|apply Sample.clause_dif_ok|by vm_compute|by vm_compute
    |apply Sample.tracing_wf|apply Sample.tracing_dif_ok|by vm_compute|by vm_compute].
Qed.

Lemma clauses_room : room (total_weight [count_clause; trace_clause]) initial_counters.
Proof. unfold room. vm_compute. repeat split; discriminate. Qed.

(** An action of a kind, for the fan-out. *)
Definition act (kind arg : Z) : Action :=
  {| HostDof.difo := 1; act_strtab := U32_MAX; act_kind := kind; ntuple := 0; HostDof.arg := arg;
     act_uarg := 0 |}.

Definition lead : list Action := [act DTRACEACT_DIFEXPR 0].
Definition chains : list (list Action) :=
  [ [act DTRACEACT_DIFEXPR 0; act DTRACEACT_DIFEXPR 0; act DTRACEAGG_COUNT 0];
    [act DTRACEACT_DIFEXPR 0; act DTRACEAGG_SUM 0] ].
Definition trail : list Action := [act DTRACEACT_USTACK 0; act DTRACEACT_LIBACT DT_ACT_CLEAR].

Definition keyed_decl : AggDecl :=
  {| aggid := 1; agg_name := str "a"; agg_kind := Count; n_keys := 1 |}.

Lemma sample_shape : clause_shape lead chains trail [keyed_decl].
Proof.
  split.
  - by repeat constructor.
  - unfold chains. repeat constructor;
      [exists [act DTRACEACT_DIFEXPR 0; act DTRACEACT_DIFEXPR 0], (act DTRACEAGG_COUNT 0)
      |exists [act DTRACEACT_DIFEXPR 0], (act DTRACEAGG_SUM 0)];
      (split; [done|split; [by repeat constructor|done]]).
  - by repeat constructor.
  - by eexists _, _, _, _.
  - done.
Qed.

(** A program with a CO-RE constant: r1 is the offset of a field. *)
Definition core_marker : CoreOffsetofMarker :=
  {| sentinel := core_offsetof_sentinel 0; mk_struct_name := str "task_struct";
     mk_field_name := str "comm"; fallback_offset := 0x5c0 |}.

Definition core_program : bytes :=
  bpf_insn 0x18 1 0 0 (core_offsetof_sentinel 0) ++
  bpf_insn 0 0 0 0 CORE_OFFSETOF_SENTINEL_HI ++ bpf_mov64_imm 0 0 ++ bpf_exit.
End Clauses.

Import Clauses.

(** ** Witnesses *)

Lemma pick_fits_witness :
  match pick_schema_for_action (E:=Empty_set) Sample.tracing 0 with
  | Ret sch => schema_fits sch
  | Throw _ => True
  | Panic => False
  end /\ pick_schema_for_action (E:=Empty_set) Sample.tracing 0 = Ret default_trace.
Proof.
  split; [|vm_compute; reflexivity].
  apply (pick_fits Sample.tracing 0); [apply Sample.tracing_wf|by vm_compute].
Defined.

Lemma pick_serves_witness :
  exists idx,
    (DTRACEACT_DIFEXPR = DTRACEACT_PRINTF -> execname_indices (E:=Empty_set) Sample.tracing 0
       [act DTRACEACT_DIFEXPR 0] = Ret idx) /\
    has_slots default_trace DTRACEACT_DIFEXPR 1 idx.
Proof.
  destruct (pick_serves (E:=Empty_set) Sample.tracing 0
    {| probes := U32_MAX; HostDof.pred := 1; HostDof.actions := 4; ecb_uarg := 0 |}
    [{| HostDof.difo := 5; act_strtab := U32_MAX; act_kind := DTRACEACT_DIFEXPR; ntuple := 0;
        HostDof.arg := 0; act_uarg := 0 |}]
    {| HostDof.difo := 5; act_strtab := U32_MAX; act_kind := DTRACEACT_DIFEXPR; ntuple := 0;
       HostDof.arg := 0; act_uarg := 0 |} default_trace) as (idx & _ & H);
    [vm_compute; reflexivity..|].
  exists idx. split; [discriminate|exact H].
Defined.

Lemma materialize_resolves_witness :
  exists p' rs, materialize_field_relocs (E:=Empty_set) [core_marker] core_program = Ret (p', rs) /\
    verify p' = Ret tt /\ rs = [field_reloc_at 0 core_marker].
Proof.
  destruct (materialize_resolves (E:=Empty_set) [core_marker] core_program)
    as (p' & rs & H1 & H2 & H3 & _).
  - constructor; [split; vm_compute; congruence|constructor].
  - vm_compute. reflexivity.
  - exists p', rs. split_and!; [exact H1|exact H3|].
    apply (f_equal snd) in H2. cbn [snd] in H2. rewrite H2. vm_compute. reflexivity.
Defined.

Lemma strip_sound_witness :
  exists out, strip_comments_and_strings (E:=Empty_set) (str "/* @x */ @a = count();") = Ret out /\
    utf8_valid out = true /\ out = str "         @a = count();".
Proof.
  destruct (strip_sound (E:=Empty_set) (str "/* @x */ @a = count();") eq_refl) as (out & H1 & H2 & _).
  exists out. split_and!; [exact H1|exact H2|].
  assert (E : strip_comments_and_strings (E:=Empty_set) (str "/* @x */ @a = count();") =
    Ret (str "         @a = count();")) by (vm_compute; reflexivity).
  rewrite E in H1. by injection H1.
Defined.

Lemma discover_sound_witness :
  exists decls, discover_aggs (E:=Empty_set) (str "@a = count();") = Ret decls /\ decls_wf decls.
Proof.
  destruct (discover_sound (E:=Empty_set) (str "@a = count();") eq_refl) as (decls & H1 & H2 & _).
  exists decls. by split.
Defined.

Lemma discover_round_trip_witness :
  discover_aggs (E:=Empty_set)
    (render {| src_name := str "lat"; src_keys := [str "pid"; str "execname"]; src_kind := Quantize |}
     ++ render {| src_name := str "n"; src_keys := []; src_kind := Count |})
  = Ret [ {| aggid := 1; agg_name := str "lat"; agg_kind := Quantize; n_keys := 2 |};
          {| aggid := 2; agg_name := str "n"; agg_kind := Count; n_keys := 0 |} ].
Proof.
  pose proof (discover_round_trip (E:=Empty_set)
    [ {| src_name := str "lat"; src_keys := [str "pid"; str "execname"]; src_kind := Quantize |};
      {| src_name := str "n"; src_keys := []; src_kind := Count |} ]) as H.
  cbn [map concat] in H. rewrite app_nil_r in H. apply H.
  - repeat constructor; try discriminate.
  - repeat constructor; [|apply not_elem_of_nil].
    intros [E|[]%not_elem_of_nil]%elem_of_cons. discriminate E.
Defined.

Lemma compile_sound_witness :
  match compile_clauses [count_clause; trace_clause] initial_counters with
  | Ret (progs, c') =>
      Forall shippable progs /\ (2 <= length progs)%nat /\
      c_next_probe_id c' = c_next_probe_id initial_counters + Z.of_nat (length progs)
  | Throw (LoweringFailed _ _) => True
  | Throw (PreFlightFailed _ _) => exists cl, cl ∈ [count_clause; trace_clause] /\ too_large cl
  | Panic => False
  end /\
  match compile_clauses [count_clause; trace_clause] initial_counters with
  | Ret (progs, _) => length progs = 2%nat
  | _ => False
  end.
Proof.
  split; [|vm_compute; reflexivity].
  apply (compile_sound [count_clause; trace_clause] initial_counters clauses_ok clauses_room).
Defined.

Lemma maps_agree_witness :
  exists progs c', compile_clauses [count_clause; trace_clause] initial_counters = Ret (progs, c') /\
    forall p q m n, p ∈ progs -> q ∈ progs -> m ∈ lp_maps p -> n ∈ lp_maps q ->
      fake_fd m = fake_fd n -> m = n.
Proof.
  assert (Hb : match compile_clauses [count_clause; trace_clause] initial_counters with
    | Ret (_, c') => c_next_agg_fd c' <=? 300 | _ => false end = true) by (vm_compute; reflexivity).
  destruct (compile_clauses [count_clause; trace_clause] initial_counters) as [[progs c']|e|] eqn:Ec;
    [|discriminate Hb..].
  exists progs, c'. split; [reflexivity|].
  apply (maps_agree [count_clause; trace_clause] progs c' clauses_ok clauses_room Ec).
  unfold LowerState.TLS_MAP_FAKE_FD. lia.
Defined.

Lemma fan_out_exact_witness :
  let '(first_cs, extras) := fan_out (Some (lead ++ concat chains ++ trail)) [keyed_decl] true 200 in
  first_cs = Some 1%nat /\
  extras = [ExtraAction 0; ExtraAggChain 4; ExtraAction 6; ExtraClearAgg 200] /\
  forall i, ExtraAction i ∈ extras ->
    (i < 1)%nat \/ (6 <= i)%nat.
Proof.
  pose proof (fan_out_exact lead chains trail [keyed_decl] 200 sample_shape) as H. cbv zeta in H.
  assert (E : fan_out (Some (lead ++ concat chains ++ trail)) [keyed_decl] true 200 =
    (Some 1%nat, [ExtraAction 0; ExtraAggChain 4; ExtraAction 6; ExtraClearAgg 200])) by reflexivity.
  rewrite E in *. destruct H as (_ & H & _). split_and!; [done|done|].
  intros i Hi. apply H in Hi as [[Hi _]|[Hi _]]; [left|right]; exact Hi.
Defined.

Lemma plain_fan_out_witness :
  (fan_out (Some [act DTRACEACT_DIFEXPR 0; act DTRACEACT_USTACK 0; act DTRACEACT_LIBACT 0]) [] false 200).2
    = [ExtraAction 1] /\
  NoDup (fan_out (Some [act DTRACEACT_DIFEXPR 0; act DTRACEACT_USTACK 0; act DTRACEACT_LIBACT 0]) [] false 200).2.
Proof.
  split; [reflexivity|].
  apply (plain_fan_out [act DTRACEACT_DIFEXPR 0; act DTRACEACT_USTACK 0; act DTRACEACT_LIBACT 0] [] 200).
  reflexivity.
Defined.

(** ** Findings *)

(** [printf("x"); @a = count();]: the main program is the aggregation's, no
    other program is made, and the format is never printed. *)
Lemma printf_beside_aggregation_dropped decls fd :
  fan_out (Some [act DTRACEACT_PRINTF 0; act DTRACEACT_DIFEXPR 0; act DTRACEAGG_COUNT 0]) decls true fd
  = (None, []).
Proof. reflexivity. Qed.

(** [@a[k] = count(); trace(x); @b = count();]: the trace between the two
    aggregations is no program's action; the second chain starts at it. *)
Lemma action_between_aggregations_swallowed :
  fan_out (Some [act DTRACEACT_DIFEXPR 0; act DTRACEACT_DIFEXPR 0; act DTRACEAGG_COUNT 0;
                 act DTRACEACT_DIFEXPR 0;
                 act DTRACEACT_DIFEXPR 0; act DTRACEAGG_COUNT 0]) [keyed_decl] true 200
  = (Some 0%nat, [ExtraAggChain 3]).
Proof. reflexivity. Qed.

(** A stack between two aggregations: same. *)
Lemma leading_stack_skipped :
  fan_out (Some [act DTRACEACT_USTACK 0; act DTRACEACT_DIFEXPR 0; act DTRACEACT_DIFEXPR 0;
                 act DTRACEAGG_COUNT 0]) [keyed_decl] true 200
  = (Some 1%nat, []).
Proof. reflexivity. Qed.

(** The commas of a call count as keys. *)
Lemma call_keys_overcounted :
  discover_aggs (E:=Empty_set) (str "@a[strjoin(execname, probefunc)] = count();")
  = Ret [{| aggid := 1; agg_name := str "a"; agg_kind := Count; n_keys := 2 |}].
Proof. reflexivity. Qed.

(** An aggregation without a name is not seen, and takes no id. *)
Lemma anonymous_aggregation_skipped :
  discover_aggs (E:=Empty_set) (str "@[pid] = count(); @b = sum(arg0);")
  = Ret [{| aggid := 1; agg_name := str "b"; agg_kind := Sum; n_keys := 0 |}].
Proof. reflexivity. Qed.

(** An at sign in a format is taken for an aggregation's name. *)
Lemma agg_name_from_format :
  extract_first_agg_name (str "printf(@tick); @lat = max(arg0);") = Some (str "tick") /\
  extract_first_agg_name (u8b 0x22 :: str "%@d" ++ u8b 0x22 :: str "; @lat = max(arg0);") = Some (str "d").
Proof. split; reflexivity. Qed.

(** The 101st aggregation is given the descriptor of the map of [self->]
    variables. *)
Lemma aggregation_takes_tls_descriptor :
  take_agg_fd (E:=Empty_set) true
    {| c_agg_base := 100; c_next_agg_fd := AGG_MAP_FAKE_FD + 100; c_next_probe_id := 101 |} =
  Ret (TLS_MAP_FAKE_FD,
       {| c_agg_base := 100; c_next_agg_fd := 301; c_next_probe_id := 101 |}).
Proof. reflexivity. Qed.
