(* ===== verification/ElfFile.v ===== *)
(** What the readers of ELF files share (host/bifrost: btf.rs;
    host/bifrost-support: elf_syms.rs, vdso.rs): the check of the file's
    identification, section headers and NUL-terminated names. *)

From Stdlib Require Import Strings.String.
From S2P Require Import Utf8.
From S2P Require Import Prelude.

Local Open Scope Z_scope.
Local Open Scope list_scope.

(** [io::Error::new(kind, message)] *)
Inductive io_error : Type :=
| InvalidData (msg : string)
| NotFound (msg : string).

Definition ELF_MAGIC : bytes := u8b 0x7f :: list_byte_of_string "ELF".

(** An ELF-64 little-endian file, of 64 bytes at least. *)
Definition elf64_le {E} (b : bytes) : outcome E bool :=
  if len b <? 64 then Ret false
  else
    m ← slice b 0 4;
    c ← byte_at b 4;
    d ← byte_at b 5;
    Ret (bool_decide (m = ELF_MAGIC) && (c =? 2) && (d =? 1)).

(** A section header; [read_sh] of elf_syms.rs and vdso.rs. *)
Record Sh : Type := {
  sh_name : Z;
  sh_type : Z;
  sh_offset : Z;
  sh_size : Z;
  sh_link : Z
}.

Definition read_sh {E} (b : bytes) (shoff shentsize idx : Z) : outcome E Sh :=
  let p := shoff + idx * shentsize in
  name ← le_at 4 b p;
  stype ← le_at 4 b (p + 4);
  off ← le_at 8 b (p + 24);
  size ← le_at 8 b (p + 32);
  link ← le_at 4 b (p + 40);
  Ret {| sh_name := name; sh_type := stype; sh_offset := off; sh_size := size; sh_link := link |}.

(** The position of the first NUL. *)
Definition nul_position (l : bytes) : option nat :=
  fst <$> list_find (fun x => byte.unsigned x = 0) l.

(** The name at an offset inside the file, up to its NUL; the empty name when
    there is none, or when it is not UTF-8. *)
Definition section_name (b : bytes) (name_start : Z) : bytes :=
  let l := drop (Z.to_nat name_start) b in
  default [] (from_utf8 (take (default O (nul_position l)) l)).

(** The header of an ELF file that has its tables in it: where the sections
    are, of what size and how many, and which holds their names. *)
Record Shdrs : Type := {
  e_shoff : Z;
  e_shentsize : Z;
  e_shnum : Z;
  e_shstrndx : Z
}.

Definition read_shdrs {E} (b : bytes) : outcome E Shdrs :=
  shoff ← le_at 8 b 40;
  shentsize ← le_at 2 b 58;
  shnum ← le_at 2 b 60;
  shstrndx ← le_at 2 b 62;
  Ret {| e_shoff := shoff; e_shentsize := shentsize; e_shnum := shnum; e_shstrndx := shstrndx |}.

Lemma elf64_le_safe {E} b : safe (E:=E) (elf64_le b).
Proof. unfold elf64_le. destruct (Z.ltb_spec (len b) 64); [apply safe_Ret|]. safe_go. Qed.

Lemma elf64_le_true {E} b : elf64_le (E:=E) b = Ret true -> 64 <= len b.
Proof. unfold elf64_le. by destruct (Z.ltb_spec (len b) 64). Qed.

Lemma nul_position_app n rest :
  forallb (fun x => negb (byte.unsigned x =? 0)) n = true ->
  nul_position (n ++ u8b 0 :: rest) = Some (length n).
Proof.
  intros Hn. unfold nul_position.
  induction n as [|x n IH]; cbn [list_find app forallb length] in *.
  { rewrite decide_True by done. done. }
  apply andb_true_iff in Hn as [Hx%negb_true_iff Hn]. zbool. rewrite decide_False by done.
  specialize (IH Hn). destruct (list_find _ _) as [[i y]|]; [|done]. cbn in *. by injection IH as ->.
Qed.
