(* ===== verification/Btf.v ===== *)
(** The BTF reader (host/bifrost, src/btf.rs): the parser of a kernel's BTF
    blob and the lookups by name that turn a struct and a field into an offset
    and a size.  The blob is the kernel's, so a type may refer to any id; what
    the lookups need of it to end is [anchored]. *)

From Stdlib Require Import Strings.String.
From stdpp Require Import gmap.
From S2P Require Import Utf8.
From S2P Require Import Text.
From S2P Require Import ElfFile.
From S2P Require Import Prelude.

Local Open Scope Z_scope.
Local Open Scope list_scope.

Definition BTF_MAGIC : Z := 0xeB9F.

(** [BTF_KIND_*] *)
Module kind.
Definition INT : Z := 1.
Definition PTR : Z := 2.
Definition ARRAY : Z := 3.
Definition STRUCT : Z := 4.
Definition UNION : Z := 5.
Definition ENUM : Z := 6.
Definition FWD : Z := 7.
Definition TYPEDEF : Z := 8.
Definition VOLATILE : Z := 9.
Definition CONST : Z := 10.
Definition RESTRICT : Z := 11.
Definition FUNC : Z := 12.
Definition FUNC_PROTO : Z := 13.
Definition VAR : Z := 14.
Definition DATASEC : Z := 15.
Definition FLOAT : Z := 16.
Definition DECL_TAG : Z := 17.
Definition TYPE_TAG : Z := 18.
Definition ENUM64 : Z := 19.
End kind.

Inductive BtfError : Type :=
| BadMagic (found : Z)
| Truncated (needed got : Z)
| UnsupportedHdrLen (hdr_len : Z)
| StructNotFound (name : bytes)
| FieldNotFound (struct_name field : bytes)
| Bitfield (struct_name field : bytes) (offset_bits : Z)
| FuncNotFound (name : bytes).

Record BtfMember : Type := {
  name_off : Z;
  m_type_id : Z;
  offset_bits : Z;
  bit_size : Z
}.

Inductive BtfType : Type :=
| TVoid
| TInt (size : Z)
| TPtr (type_id : Z)
| TArray (elem_type_id nelems : Z)
| TStruct (size : Z) (members : list BtfMember)
| TUnion (size : Z) (members : list BtfMember)
| TEnum (size : Z)
| TFwd
| TAlias (type_id : Z)
| TFunc (proto_id : Z)
| TFuncProto (n_params : Z)
| TOther.

Record Btf : Type := {
  types : list BtfType;
  names : list (option bytes);
  strs : bytes;
  struct_index : gmap bytes Z;
  func_index : gmap bytes Z
}.

(** [self.types.get(id as usize)] *)
Definition type_at (b : Btf) (id : Z) : option BtfType := types b !! Z.to_nat id.
Definition name_at (b : Btf) (id : Z) : option bytes := mjoin (names b !! Z.to_nat id).

(** The NUL-terminated string at an offset of the string section. *)
Definition str_at (b : Btf) (off : Z) : option bytes :=
  if len (strs b) <=? off then None
  else
    n ← nul_position (drop (Z.to_nat off) (strs b));
    from_utf8 (take n (drop (Z.to_nat off) (strs b))).

(** [for _ in 0..32] *)
Fixpoint resolve_hops (n : nat) (b : Btf) (type_id : Z) : Z :=
  match n with
  | O => type_id
  | S n =>
      match type_at b type_id with
      | Some (TAlias inner) => resolve_hops n b inner
      | _ => type_id
      end
  end.
Definition resolve (b : Btf) (type_id : Z) : Z := resolve_hops 32 b type_id.

(** [a * b] and [a + b] on [u32] *)
Definition mul32 {E} (x y : Z) : outcome E Z := if x * y <=? U32_MAX then Ret (x * y) else Panic.
Definition add32 {E} (x y : Z) : outcome E Z := if x + y <=? U32_MAX then Ret (x + y) else Panic.

Section Lookups.
Context {E : Type}.

(** An array recurses into its element; the fuel is the number of types and
    one more, and a recursion deeper than that never ends (see [anchored]):
    the stack overflows. *)
Fixpoint type_size_fuel (fuel : nat) (b : Btf) (type_id : Z) : outcome E (option Z) :=
  match fuel with
  | O => Panic
  | S fuel =>
      match type_at b (resolve b type_id) with
      | None => Ret None
      | Some (TInt size) | Some (TStruct size _) | Some (TUnion size _) | Some (TEnum size) =>
          Ret (Some size)
      | Some (TPtr _) => Ret (Some 8)
      | Some (TArray elem nelems) =>
          o ← type_size_fuel fuel b elem;
          match o with
          | Some s => v ← mul32 s nelems; Ret (Some v)
          | None => Ret None
          end
      | Some TVoid => Ret (Some 0)
      | Some (TFwd | TAlias _ | TFunc _ | TFuncProto _ | TOther) => Ret None
      end
  end.

Definition fuel_of (b : Btf) : nat := S (length (types b)).
Definition type_size (b : Btf) (type_id : Z) : outcome E (option Z) :=
  type_size_fuel (fuel_of b) b type_id.

(** The members of the struct or union behind an id. *)
Definition members_of (b : Btf) (struct_id : Z) : option (list BtfMember) :=
  match type_at b (resolve b struct_id) with
  | Some (TStruct _ l) | Some (TUnion _ l) => Some l
  | _ => None
  end.

Definition member_name (b : Btf) (m : BtfMember) : bytes := default [] (str_at b (name_off m)).

(** The loop over the members of a struct, given how it descends into an
    anonymous one. *)
Section Raw.
Context (b : Btf) (field : bytes).

Fixpoint raw_members (go : Z -> outcome E (option BtfMember)) (l : list BtfMember)
  : outcome E (option BtfMember) :=
  match l with
  | [] => Ret None
  | m :: l =>
      if bool_decide (member_name b m = []) then
        o ← go (m_type_id m);
        match o with Some hit => Ret (Some hit) | None => raw_members go l end
      else if bool_decide (member_name b m = field) then Ret (Some m)
      else raw_members go l
  end.

Fixpoint find_member_raw_fuel (fuel : nat) (struct_id : Z) : outcome E (option BtfMember) :=
  match fuel with
  | O => Panic
  | S fuel =>
      match members_of b struct_id with
      | None => Ret None
      | Some l => raw_members (find_member_raw_fuel fuel) l
      end
  end.

Fixpoint exists_members (go : Z -> outcome E bool) (l : list BtfMember) : outcome E bool :=
  match l with
  | [] => Ret false
  | m :: l =>
      if bool_decide (member_name b m = []) then
        o ← go (m_type_id m);
        if o : bool then Ret true else exists_members go l
      else if bool_decide (member_name b m = field) then Ret true
      else exists_members go l
  end.

Fixpoint find_member_exists_fuel (fuel : nat) (struct_id : Z) : outcome E bool :=
  match fuel with
  | O => Panic
  | S fuel =>
      match members_of b struct_id with
      | None => Ret false
      | Some l => exists_members (find_member_exists_fuel fuel) l
      end
  end.

(** [Some(Ok(hit))], [Some(Err(offset_bits))] for a bit field, or [None]. *)
Fixpoint offset_members (go : Z -> Z -> outcome E (option (result Z (Z * Z))))
    (base_offset_bits : Z) (l : list BtfMember) : outcome E (option (result Z (Z * Z))) :=
  match l with
  | [] => Ret None
  | m :: l =>
      abs_bits ← add32 base_offset_bits (offset_bits m);
      if bool_decide (member_name b m = []) then
        o ← go (m_type_id m) abs_bits;
        match o with Some hit => Ret (Some hit) | None => offset_members go base_offset_bits l end
      else if bool_decide (member_name b m = field) then
        if negb (abs_bits mod 8 =? 0) || negb (bit_size m =? 0) then Ret (Some (Err abs_bits))
        else
          o ← type_size b (m_type_id m);
          Ret (size ← o; Some (Ok (abs_bits / 8, size)))
      else offset_members go base_offset_bits l
  end.

Fixpoint find_member_fuel (fuel : nat) (struct_id base_offset_bits : Z)
  : outcome E (option (result Z (Z * Z))) :=
  match fuel with
  | O => Panic
  | S fuel =>
      match members_of b struct_id with
      | None => Ret None
      | Some l => offset_members (find_member_fuel fuel) base_offset_bits l
      end
  end.

Definition find_member_raw (struct_id : Z) : outcome E (option BtfMember) :=
  find_member_raw_fuel (fuel_of b) struct_id.
Definition find_member_exists (struct_id : Z) : outcome E bool :=
  find_member_exists_fuel (fuel_of b) struct_id.
Definition find_member (struct_id base_offset_bits : Z) : outcome E (option (result Z (Z * Z))) :=
  find_member_fuel (fuel_of b) struct_id base_offset_bits.
End Raw.

(** ** The name indexes *)

Definition is_aggregate (t : BtfType) : bool :=
  match t with TStruct _ _ | TUnion _ _ => true | _ => false end.
Definition is_func (t : BtfType) : bool := match t with TFunc _ => true | _ => false end.

(** [for (id, name_opt) in self.names.iter().enumerate()], from id [i] on: a
    later type of a name replaces an earlier one. *)
Fixpoint index_names (keep : BtfType -> bool) (b : Btf) (i : Z) (l : list (option bytes))
    (m : gmap bytes Z) : gmap bytes Z :=
  match l with
  | [] => m
  | o :: l =>
      let m := match o, type_at b i with
               | Some n, Some t => if keep t then <[n := i]> m else m
               | _, _ => m
               end in
      index_names keep b (i + 1) l m
  end.

Definition with_struct_index (b : Btf) (m : gmap bytes Z) : Btf :=
  {| types := types b; names := names b; strs := strs b; struct_index := m;
     func_index := func_index b |}.
Definition with_func_index (b : Btf) (m : gmap bytes Z) : Btf :=
  {| types := types b; names := names b; strs := strs b; struct_index := struct_index b;
     func_index := m |}.

(** The index is built by the first call and kept. *)
Definition find_struct (name : bytes) (b : Btf) : option Z * Btf :=
  let b := if bool_decide (struct_index b = ∅)
           then with_struct_index b (index_names is_aggregate b 0 (names b) ∅) else b in
  (struct_index b !! name, b).

Definition find_func (name : bytes) (b : Btf) : result BtfError Z * Btf :=
  let b := if bool_decide (func_index b = ∅)
           then with_func_index b (index_names is_func b 0 (names b) ∅) else b in
  (match func_index b !! name with Some id => Ok id | None => Err (FuncNotFound name) end, b).

Definition func_arity (name : bytes) (b : Btf) : option Z * Btf :=
  let '(r, b) := find_func name b in
  (match r with
   | Ok func_id =>
       match type_at b func_id with
       | Some (TFunc proto_id) =>
           match type_at b (resolve b proto_id) with
           | Some (TFuncProto n_params) => Some n_params
           | _ => None
           end
       | _ => None
       end
   | Err _ => None
   end, b).

(** [MemberKind] (translators.rs) *)
Inductive MemberKind : Type :=
| EmbeddedStruct (name : bytes)
| Pointer (name : bytes)
| Scalar.

Definition member_descend (struct_name field : bytes) (b : Btf)
  : outcome E (option MemberKind * Btf) :=
  let '(sid, b) := find_struct struct_name b in
  match sid with
  | None => Ret (None, b)
  | Some sid =>
      o ← find_member_raw b field sid;
      Ret (match o with
           | None => None
           | Some member =>
               let resolved := resolve b (m_type_id member) in
               match type_at b resolved with
               | None => None
               | Some (TStruct _ _ | TUnion _ _) =>
                   Some (EmbeddedStruct (default [] (name_at b resolved)))
               | Some (TPtr type_id) =>
                   Some (Pointer (default [] (name_at b (resolve b type_id))))
               | Some _ => Some Scalar
               end
           end, b)
  end.

(** The result of a method that takes [&mut self], and the object after it. *)
Definition field_offset (struct_name field : bytes) (b : Btf)
  : outcome E (result BtfError (Z * Z) * Btf) :=
  let '(sid, b) := find_struct struct_name b in
  match sid with
  | None => Ret (Err (StructNotFound struct_name), b)
  | Some sid =>
      o ← find_member b field sid 0;
      Ret (match o with
           | Some (Ok hit) => Ok hit
           | Some (Err off_bits) => Err (Bitfield struct_name field off_bits)
           | None => Err (FieldNotFound struct_name field)
           end, b)
  end.

Definition field_exists (struct_name field : bytes) (b : Btf) : outcome E (bool * Btf) :=
  let '(sid, b) := find_struct struct_name b in
  match sid with
  | None => Ret (false, b)
  | Some sid => r ← find_member_exists b field sid; Ret (r, b)
  end.
End Lookups.

(** ** The parser *)

Definition read_u32 (b : bytes) (at_ : Z) : outcome BtfError Z :=
  if len b <? at_ + 4 then Throw (Truncated (at_ + 4) (len b)) else le_at 4 b at_.

(** [for _ in 0..vlen], from [consumed] on. *)
Fixpoint parse_members (n : nat) (b : bytes) (kind_flag consumed : Z)
  : outcome BtfError (list BtfMember * Z) :=
  match n with
  | O => Ret ([], consumed)
  | S n =>
      if len b <? consumed + 12 then Throw (Truncated (consumed + 12) (len b))
      else
        nm ← read_u32 b consumed;
        t ← read_u32 b (consumed + 4);
        o ← read_u32 b (consumed + 8);
        let m := if kind_flag =? 1
                 then {| name_off := nm; m_type_id := t; offset_bits := Z.land o 0x00ffffff;
                         bit_size := Z.land (Z.shiftr o 24) 0xff |}
                 else {| name_off := nm; m_type_id := t; offset_bits := o; bit_size := 0 |} in
        r ← parse_members n b kind_flag (consumed + 12);
        Ret (m :: r.1, r.2)
  end.

Definition is_alias_kind (k : Z) : bool :=
  existsb (Z.eqb k) [kind.TYPEDEF; kind.VOLATILE; kind.CONST; kind.RESTRICT; kind.TYPE_TAG].

(** One type and the bytes it takes. *)
Definition parse_one (b : bytes) : outcome BtfError (BtfType * Z) :=
  if len b <? 12 then Throw (Truncated 12 (len b))
  else
    info ← read_u32 b 4;
    size_or_type ← read_u32 b 8;
    let k := Z.land (Z.shiftr info 24) 0x1f in
    let vlen := Z.land info 0xffff in
    let kind_flag := Z.land (Z.shiftr info 31) 1 in
    if k =? kind.INT then Ret (TInt size_or_type, 16)
    else if k =? kind.PTR then Ret (TPtr size_or_type, 12)
    else if k =? kind.ARRAY then
      if len b <? 24 then Throw (Truncated 24 (len b))
      else
        elem ← read_u32 b 12;
        nelems ← read_u32 b 20;
        Ret (TArray elem nelems, 24)
    else if (k =? kind.STRUCT) || (k =? kind.UNION) then
      r ← parse_members (Z.to_nat vlen) b kind_flag 12;
      Ret (if k =? kind.STRUCT then TStruct size_or_type r.1 else TUnion size_or_type r.1, r.2)
    else if k =? kind.ENUM then Ret (TEnum size_or_type, 12 + vlen * 8)
    else if k =? kind.ENUM64 then Ret (TEnum size_or_type, 12 + vlen * 12)
    else if k =? kind.FWD then Ret (TFwd, 12)
    else if is_alias_kind k then Ret (TAlias size_or_type, 12)
    else if k =? kind.FUNC then Ret (TFunc size_or_type, 12)
    else if k =? kind.FUNC_PROTO then Ret (TFuncProto vlen, 12 + vlen * 8)
    else if k =? kind.VAR then Ret (TOther, 16)
    else if k =? kind.DATASEC then Ret (TOther, 12 + vlen * 12)
    else if k =? kind.FLOAT then Ret (TOther, 12)
    else if k =? kind.DECL_TAG then Ret (TOther, 16)
    else Ret (TOther, 12).

(** The name of a type; one that runs off the section is the empty name. *)
Definition type_name (strs : bytes) (name_off : Z) : option bytes :=
  if name_off =? 0 then None
  else if name_off <? len strs then
    let l := drop (Z.to_nat name_off) strs in
    from_utf8 (take (default O (nul_position l)) l)
  else None.

(** [while p < type_end]; every type takes twelve bytes at least. *)
Fixpoint parse_types (fuel : nat) (b strs : bytes) (p type_end : Z)
  : outcome BtfError (list BtfType * list (option bytes)) :=
  match fuel with
  | O => Panic
  | S fuel =>
      if negb (p <? type_end) || (type_end <? p + 12) then Ret ([], [])
      else
        name_off ← read_u32 b p;
        sl ← slice b p type_end;
        r ← parse_one sl;
        rest ← parse_types fuel b strs (p + r.2) type_end;
        Ret (r.1 :: rest.1, type_name strs name_off :: rest.2)
  end.

Definition parse (b : bytes) : outcome BtfError Btf :=
  if len b <? 24 then Throw (Truncated 24 (len b))
  else
    magic ← le_at 2 b 0;
    if negb (magic =? BTF_MAGIC) then Throw (BadMagic magic)
    else
      hdr_len ← read_u32 b 4;
      if hdr_len <? 24 then Throw (UnsupportedHdrLen hdr_len)
      else
        type_off ← read_u32 b 8;
        type_len ← read_u32 b 12;
        str_off ← read_u32 b 16;
        str_len ← read_u32 b 20;
        let type_start := hdr_len + type_off in
        let type_end := type_start + type_len in
        let str_start := hdr_len + str_off in
        let str_end := str_start + str_len in
        if (len b <? type_end) || (len b <? str_end)
        then Throw (Truncated (Z.max type_end str_end) (len b))
        else
          strs ← slice b str_start str_end;
          r ← parse_types (S (Z.to_nat (len b))) b strs type_start type_end;
          Ret {| types := TVoid :: r.1; names := None :: r.2; strs := strs;
                 struct_index := ∅; func_index := ∅ |}.

(** ** The [.BTF] section of an ELF file

    [extract_btf_section], from the bytes [std::fs::read] gave. *)

(** [(sh_name, sh_offset, sh_size)] *)
Definition read_sh3 {E} (b : bytes) (shoff shentsize idx : Z) : outcome E (Z * Z * Z) :=
  let p := shoff + idx * shentsize in
  name ← le_at 4 b p;
  off ← le_at 8 b (p + 24);
  size ← le_at 8 b (p + 32);
  Ret (name, off, size).

(** [for i in 0..shnum], from [i] on with [n] sections left. *)
Fixpoint find_btf (n : nat) (b : bytes) (shoff shentsize strtab_off i : Z) : outcome io_error bytes :=
  match n with
  | O => Throw (NotFound ".BTF section not present in ELF")
  | S n =>
      sh ← read_sh3 b shoff shentsize i;
      let '(name_off, off, size) := sh in
      name_start ← add64 strtab_off name_off;
      if len b <=? name_start then find_btf n b shoff shentsize strtab_off (i + 1)
      else if bool_decide (section_name b name_start = list_byte_of_string ".BTF") then
        e ← add64 off size;
        if len b <? e then Throw (InvalidData ".BTF section out of bounds") else slice b off e
      else find_btf n b shoff shentsize strtab_off (i + 1)
  end.

Definition extract_btf_section (b : bytes) : outcome io_error bytes :=
  ok ← elf64_le b;
  if negb ok then Throw (InvalidData "not an ELF-64 LE file")
  else
    h ← read_shdrs b;
    table_end ← add64 (e_shoff h) (e_shnum h * e_shentsize h);
    if (len b <? table_end) || (e_shnum h <=? e_shstrndx h)
    then Throw (InvalidData "ELF section table out of bounds")
    else
      sh ← read_sh3 b (e_shoff h) (e_shentsize h) (e_shstrndx h);
      let '(_, strtab_off, strtab_size) := sh in
      strtab_end ← add64 strtab_off strtab_size;
      if len b <? strtab_end then Throw (InvalidData "ELF .shstrtab out of bounds")
      else find_btf (Z.to_nat (e_shnum h)) b (e_shoff h) (e_shentsize h) strtab_off 0.

(** ** Parsing never panics *)

Lemma read_u32_cases b a :
  0 <= a ->
  (exists v, read_u32 b a = Ret v /\ in_u 32 v /\ a + 4 <= len b) \/ (exists e, read_u32 b a = Throw e).
Proof.
  intros Ha. unfold read_u32. destruct (Z.ltb_spec (len b) (a + 4)); [by right; eexists|].
  left. destruct (le_at_ok (E:=BtfError) 4 b a) as (v & -> & Hv); [done|lia|]. exists v. by split_and!.
Qed.

Lemma read_u32_safe b a : 0 <= a -> safe (read_u32 b a).
Proof. intros Ha. by destruct (read_u32_cases b a Ha) as [(v & -> & _)|(e & ->)]. Qed.

(** [next] reads one field and goes on. *)
Ltac next := apply safe_bind; [apply read_u32_safe; lia|intros ? ?].

Lemma parse_members_safe n b kf : forall c, 0 <= c -> safe (parse_members n b kf c).
Proof.
  induction n as [|n IH]; intros c Hc; [done|]. cbn [parse_members].
  destruct (_ <? _); [done|]. do 3 next. cbv zeta.
  apply safe_bind; [apply IH; lia|]. done.
Qed.

Lemma parse_members_consumed n b kf : forall c r,
  parse_members n b kf c = Ret r -> c <= r.2 /\ length r.1 = n.
Proof.
  induction n as [|n IH]; intros c r; cbn [parse_members]; [by intros [= <-]; simpl|].
  destruct (_ <? _); [done|]. intros H. split_ret H. injection H as <-.
  apply IH in R2 as [? ?]. cbn [fst snd length]. lia.
Qed.

Lemma parse_one_safe b : safe (parse_one b).
Proof.
  unfold parse_one. destruct (_ <? _); [apply safe_Throw|]. do 2 next. cbv zeta.
  repeat match goal with
  | |- safe (Ret _) => apply safe_Ret
  | |- safe (Throw _) => apply safe_Throw
  | |- safe (if ?c then _ else _) => destruct c
  end.
  - do 2 next. apply safe_Ret.
  - apply safe_bind; [apply parse_members_safe; lia|]. intros ? _. apply safe_Ret.
Qed.

Lemma parse_one_consumed b r : parse_one b = Ret r -> 12 <= r.2.
Proof.
  unfold parse_one. destruct (_ <? _); [discriminate|]. intros H. split_ret H.
  assert (Hv : 0 <= Z.land a 0xffff) by (apply Z.land_nonneg; by right).
  revert H. generalize (Z.land (Z.shiftr a 24) 0x1f) as k, (Z.land (Z.shiftr a 31) 1) as kf.
  revert Hv. generalize (Z.land a 0xffff) as vlen. clear R R0 a. intros vlen Hv k kf.
  repeat lazymatch goal with
  | |- Ret _ = _ -> _ => intros [= <-]; cbn [snd]; lia
  | |- Throw _ = _ -> _ => discriminate
  | |- (if ?c then _ else _) = _ -> _ => destruct c
  | |- mbind _ _ = _ -> _ => let H := fresh "H" in intros H; split_ret H; injection H as <-
  end; cbn [snd]; try lia.
  all: apply parse_members_consumed in R; lia.
Qed.

Lemma parse_types_safe b strs type_end fuel : forall p,
  0 <= p -> type_end <= len b -> Z.max 0 (type_end - p) < Z.of_nat fuel ->
  safe (parse_types fuel b strs p type_end).
Proof.
  induction fuel as [|fuel IH]; intros p Hp He Hf; [lia|].
  cbn [parse_types]. destruct (Z.ltb_spec p type_end), (Z.ltb_spec type_end (p + 12)); cbn [negb orb]; try done.
  next. apply safe_bind; [apply safe_slice; lia|]. intros sl _.
  apply safe_bind; [apply parse_one_safe|]. intros r Hr. apply parse_one_consumed in Hr.
  apply safe_bind; [apply IH; lia|]. done.
Qed.

Lemma parse_types_lengths b strs type_end fuel : forall p r,
  parse_types fuel b strs p type_end = Ret r -> length r.1 = length r.2.
Proof.
  induction fuel as [|fuel IH]; intros p r; cbn [parse_types]; [done|].
  destruct (_ || _); [by intros [= <-]|]. intros H. split_ret H. injection H as <-.
  cbn [fst snd length]. f_equal. by eapply IH.
Qed.

Lemma read_u32_Ret b a v : read_u32 b a = Ret v -> 0 <= a -> in_u 32 v /\ a + 4 <= len b.
Proof.
  intros H Ha. destruct (read_u32_cases b a Ha) as [(w & E & ?)|(e & E)]; rewrite E in H; [|done].
  by injection H as <-.
Qed.

Ltac reads := repeat match goal with
  | H : read_u32 _ _ = Ret _ |- _ => apply read_u32_Ret in H as [[? ?] ?]; [|lia]
  end.

(** Parsing a blob ends without a panic, whatever its bytes. *)
Lemma parse_safe b : safe (parse b).
Proof.
  unfold parse. destruct (Z.ltb_spec (len b) 24); [apply safe_Throw|].
  apply safe_bind; [apply safe_le_at; lia|]. intros magic _.
  destruct (negb _); [apply safe_Throw|]. next.
  destruct (Z.ltb_spec a 24); [apply safe_Throw|]. do 4 next. cbv zeta. reads.
  destruct (Z.ltb_spec (len b) (a + a0 + a1)); [apply safe_Throw|].
  destruct (Z.ltb_spec (len b) (a + a2 + a3)); [apply safe_Throw|]. cbn [orb].
  apply safe_bind; [apply safe_slice; lia|]. intros strs _.
  apply safe_bind; [apply parse_types_safe; lia|]. intros r _. apply safe_Ret.
Qed.

(** What a parsed blob holds to begin with: type 0 is [void] without a name,
    the two tables run in parallel and no index is built. *)
Record fresh (b : Btf) : Prop := {
  fresh_void : type_at b 0 = Some TVoid;
  fresh_anon : name_at b 0 = None;
  fresh_lengths : length (names b) = length (types b);
  fresh_structs : struct_index b = ∅;
  fresh_funcs : func_index b = ∅
}.

Lemma parse_fresh blob b : parse blob = Ret b -> fresh b.
Proof.
  unfold parse. destruct (_ <? _); [done|]. intros H. split_ret H.
  destruct (negb _); [done|]. split_ret H. destruct (_ <? _); [done|]. split_ret H.
  destruct (_ || _); [done|]. split_ret H. injection H as <-. apply parse_types_lengths in R6.
  split; try done. cbn [names types length]. by rewrite R6.
Qed.

(** ** What [extract_btf_section] returns is in the file *)

Lemma find_btf_within b shoff es so n : forall i s,
  find_btf n b shoff es so i = Ret s -> exists off, slice (E:=io_error) b off (off + len s) = Ret s.
Proof.
  induction n as [|n IH]; intros i s; cbn [find_btf]; [done|].
  destruct (read_sh3 b shoff es i) as [[[name_off off] size]|?|]; [|done..]. rewrite bind_Ret.
  destruct (add64 so name_off) as [start|?|]; [|done..]. rewrite bind_Ret.
  destruct (_ <=? _); [apply IH|]. case_bool_decide; [|apply IH].
  destruct (add64 off size) as [e|?|] eqn:A; [|done..]. rewrite bind_Ret.
  destruct (_ <? _); [done|]. intros Hs. exists off. pose proof (slice_Ret _ _ _ _ Hs) as (?&?&Hl).
  replace (off + len s) with e by lia. done.
Qed.

Lemma extract_within b s :
  extract_btf_section b = Ret s -> exists off, slice (E:=io_error) b off (off + len s) = Ret s.
Proof.
  unfold extract_btf_section. intros H. split_ret H. destruct (negb a); [done|]. split_ret H.
  destruct (_ || _); [done|]. split_ret H. destruct a2 as [[? ?] ?]. split_ret H.
  destruct (_ <? _); [done|]. by eapply find_btf_within.
Qed.

(** Parsing any bytes ends, without a panic: in an error, or with [void] as
    type 0, the types and the names side by side, and no index built. *)
Theorem parse_total blob :
  match parse blob with Ret b => fresh b | Throw _ => True | Panic => False end.
Proof.
  pose proof (parse_safe blob) as H. destruct (parse blob) as [b|?|] eqn:E; [by eapply parse_fresh|done..].
Qed.
