(* ===== verification/BtfOk.v ===== *)
(** What the BTF reader (Btf.v) promises: a blob laid out by the rules of the
    format parses to its types under their ids and its names, and the lookups
    by name find the first member of that name in C's order, at the sum of the
    offsets on the way to it. *)

From Stdlib Require Import Strings.String.
From stdpp Require Import gmap.
From S2P Require Import Utf8.
From S2P Require Import ElfFile.
From S2P Require Import Prelude.
From S2P Require Import Btf.

Local Open Scope Z_scope.
Local Open Scope list_scope.

(** ** The format (linux/Documentation/bpf/btf.rst)

    A type as the kernel writes it: the kinds the reader looks into, and the
    others with their tail as bytes. *)
Inductive wire : Type :=
| WArray (elem index nelems : Z)
| WRecord (union flag : bool) (size : Z) (members : list (Z * Z * Z))
| WOther (k : Z) (flag : bool) (vlen size_or_type : Z) (tail : bytes).

Definition info_word (k : Z) (flag : bool) (vlen : Z) : Z := Z.b2z flag * 2 ^ 31 + k * 2 ^ 24 + vlen.

Definition wire_info (w : wire) : Z :=
  match w with
  | WArray _ _ _ => info_word kind.ARRAY false 0
  | WRecord u f _ l => info_word (if u : bool then kind.UNION else kind.STRUCT) f (len l)
  | WOther k f v _ _ => info_word k f v
  end.

Definition wire_sot (w : wire) : Z :=
  match w with WArray _ _ _ => 0 | WRecord _ _ size _ => size | WOther _ _ _ s _ => s end.

Definition enc_member (m : Z * Z * Z) : bytes := to_le 4 m.1.1 ++ to_le 4 m.1.2 ++ to_le 4 m.2.

Definition wire_tail (w : wire) : bytes :=
  match w with
  | WArray e i n => to_le 4 e ++ to_le 4 i ++ to_le 4 n
  | WRecord _ _ _ l => concat (map enc_member l)
  | WOther _ _ _ _ t => t
  end.

Definition enc_type (name_off : Z) (w : wire) : bytes :=
  to_le 4 name_off ++ to_le 4 (wire_info w) ++ to_le 4 (wire_sot w) ++ wire_tail w.

(** The bytes after the common part of the other kinds. *)
Definition tail_len (k vlen : Z) : Z :=
  if existsb (Z.eqb k) [kind.INT; kind.VAR; kind.DECL_TAG] then 4
  else if existsb (Z.eqb k) [kind.ENUM; kind.FUNC_PROTO] then vlen * 8
  else if existsb (Z.eqb k) [kind.ENUM64; kind.DATASEC] then vlen * 12
  else 0.

Definition in_u32 (v : Z) : bool := (0 <=? v) && (v <=? U32_MAX).

Definition wire_ok (w : wire) : bool :=
  match w with
  | WArray e i n => in_u32 e && in_u32 i && in_u32 n
  | WRecord _ _ size l =>
      in_u32 size && (len l <=? U16_MAX)
      && forallb (fun m => in_u32 m.1.1 && in_u32 m.1.2 && in_u32 m.2) l
  | WOther k _ v s t =>
      (0 <=? k) && (k <? 32) && negb (existsb (Z.eqb k) [kind.ARRAY; kind.STRUCT; kind.UNION])
      && (0 <=? v) && (v <=? U16_MAX) && in_u32 s && (len t =? tail_len k v)
  end.

(** What the reader keeps of a type. *)
Definition seen_member (flag : bool) (m : Z * Z * Z) : BtfMember :=
  {| name_off := m.1.1; m_type_id := m.1.2;
     offset_bits := if flag then m.2 mod 2 ^ 24 else m.2;
     bit_size := if flag then m.2 / 2 ^ 24 else 0 |}.

Definition seen (w : wire) : BtfType :=
  match w with
  | WArray e _ n => TArray e n
  | WRecord u f size l =>
      let l := map (seen_member f) l in if u then TUnion size l else TStruct size l
  | WOther k _ v s _ =>
      if k =? kind.INT then TInt s
      else if k =? kind.PTR then TPtr s
      else if (k =? kind.ENUM) || (k =? kind.ENUM64) then TEnum s
      else if k =? kind.FWD then TFwd
      else if is_alias_kind k then TAlias s
      else if k =? kind.FUNC then TFunc s
      else if k =? kind.FUNC_PROTO then TFuncProto v
      else TOther
  end.

Lemma in_u32_iff v : in_u32 v = true <-> 0 <= v <= U32_MAX.
Proof. unfold in_u32. rewrite andb_true_iff, !Z.leb_le. done. Qed.

Lemma in_u32_spec v : in_u32 v = true -> in_u (8 * Z.of_nat 4) v.
Proof. rewrite in_u32_iff. unfold U32_MAX, in_u. simpl. lia. Qed.

Lemma suffix_u32 b c v s : suffix_at b c (to_le 4 v ++ s) -> in_u32 v = true -> read_u32 b c = Ret v.
Proof.
  intros H Hv. unfold read_u32. pose proof (suffix_at_len _ _ _ H) as [? E].
  destruct (Z.ltb_spec (len b) (c + 4)); [len_lia|]. by eapply suffix_at_le, in_u32_spec.
Qed.

Lemma info_fields k f v :
  0 <= k < 32 -> 0 <= v <= U16_MAX ->
  let i := info_word k f v in
  in_u32 i = true /\ Z.land (Z.shiftr i 24) 0x1f = k /\ Z.land i 0xffff = v
  /\ Z.land (Z.shiftr i 31) 1 = Z.b2z f.
Proof.
  intros Hk Hv i. unfold U16_MAX in *.
  assert (Hl : forall x, Z.land x 0x1f = x mod 32 /\ Z.land x 0xffff = x mod 65536 /\ Z.land x 1 = x mod 2).
  { intros x. split_and!; [apply (Z.land_ones x 5)|apply (Z.land_ones x 16)|apply (Z.land_ones x 1)]; lia. }
  rewrite (proj1 (Hl _)), (proj1 (proj2 (Hl _))), (proj2 (proj2 (Hl _))), !Z.shiftr_div_pow2 by lia. rewrite in_u32_iff. subst i. unfold info_word, U32_MAX.
  assert (0 <= Z.b2z f <= 1) by (by destruct f). generalize dependent (Z.b2z f). intros b Hb.
  change (2 ^ 31) with 2147483648. change (2 ^ 24) with 16777216.
  split_and!; Z.to_euclidean_division_equations; lia.
Qed.

Lemma parse_members_enc b f l : forall c rest,
  suffix_at b c (concat (map enc_member l) ++ rest) ->
  forallb (fun m => in_u32 m.1.1 && in_u32 m.1.2 && in_u32 m.2) l = true ->
  parse_members (length l) b (Z.b2z f) c = Ret (map (seen_member f) l, c + 12 * len l).
Proof.
  induction l as [|[[n t] o] l IH]; intros c rest H Hl.
  { cbn [parse_members length map]. unfold len. cbn [length]. by rewrite Z.add_0_r. }
  cbn [map concat forallb] in *. unfold enc_member in H at 1. cbn [fst snd] in H, Hl.
  apply andb_true_iff in Hl as [[[? ?]%andb_true_iff ?]%andb_true_iff Hl]. rewrite <- !app_assoc in H.
  cbn [parse_members length]. pose proof (suffix_at_len _ _ _ H) as [? E].
  destruct (Z.ltb_spec (len b) (c + 12)); [len_lia|].
  rewrite (suffix_u32 _ _ _ _ H), bind_Ret by done. adv H (c + 4).
  rewrite (suffix_u32 _ _ _ _ H), bind_Ret by done. adv H (c + 8).
  rewrite (suffix_u32 _ _ _ _ H), bind_Ret by done. adv H (c + 12). cbv zeta.
  rewrite (IH _ _ H Hl), bind_Ret. cbn [fst snd].
  assert (0 <= o <= U32_MAX) as [Ho1 Ho2] by by apply in_u32_iff.
  f_equal. f_equal; [|len_lia]. f_equal. unfold seen_member. cbn [fst snd]. destruct f; [|done].
  cbn [Z.b2z]. change (1 =? 1) with true. cbv iota. f_equal.
  - change 0x00ffffff with (Z.ones 24). by rewrite Z.land_ones.
  - change 0xff with (Z.ones 8). rewrite Z.land_ones, Z.shiftr_div_pow2 by lia.
    apply Z.mod_small. unfold U32_MAX in *. change (2 ^ 24) with 16777216. change (2 ^ 8) with 256.
    Z.to_euclidean_division_equations; lia.
Qed.

Lemma len_members l : len (concat (map enc_member l)) = 12 * len l.
Proof.
  induction l as [|m l IH]; [done|]. cbn [map concat]. rewrite len_app, IH, len_cons.
  unfold enc_member. len_lia.
Qed.

Lemma len_wire_tail w : wire_ok w = true -> len (wire_tail w) =
  match w with WArray _ _ _ => 12 | WRecord _ _ _ l => 12 * len l | WOther k _ v _ _ => tail_len k v end.
Proof.
  destruct w as [e i n|u f s l|k f v s t]; intros H; cbn [wire_tail wire_ok] in *.
  - len_lia.
  - apply len_members.
  - apply andb_true_iff in H as [_ H]. by apply Z.eqb_eq.
Qed.

Lemma len_enc n w : len (enc_type n w) = 12 + len (wire_tail w).
Proof. unfold enc_type. len_lia. Qed.

(** The kinds whose tail is skipped. *)
Lemma other_parsed k f v s t b :
  wire_ok (WOther k f v s t) = true -> 12 <= len b ->
  read_u32 b 4 = Ret (info_word k f v) -> read_u32 b 8 = Ret s ->
  parse_one b = Ret (seen (WOther k f v s t), 12 + tail_len k v).
Proof.
  cbn [wire_ok]. rewrite !andb_true_iff, negb_true_iff.
  intros [[[[[[Hk1 Hk2] Hn] Hv1] Hv2] Hs] _] Hb Hi Hsot. zbool.
  destruct (info_fields k f v) as (_ & Ek & Ev & _); [lia..|].
  unfold parse_one. destruct (Z.ltb_spec (len b) 12); [lia|].
  rewrite Hi, bind_Ret, Hsot, bind_Ret. cbv zeta. rewrite Ek, Ev. clear Hi Ek Ev Hsot.
  unfold seen, tail_len, is_alias_kind. cbn [existsb] in *.
  assert (D : k = 0 \/ k = 1 \/ k = 2 \/ k = 3 \/ k = 4 \/ k = 5 \/ k = 6 \/ k = 7 \/ k = 8 \/ k = 9
    \/ k = 10 \/ k = 11 \/ k = 12 \/ k = 13 \/ k = 14 \/ k = 15 \/ k = 16 \/ k = 17 \/ k = 18 \/ k = 19
    \/ 20 <= k) by lia.
  repeat destruct D as [->|D]; try discriminate Hn; try reflexivity.
  unfold kind.INT, kind.PTR, kind.ARRAY, kind.STRUCT, kind.UNION, kind.ENUM, kind.FWD, kind.TYPEDEF,
    kind.VOLATILE, kind.CONST, kind.RESTRICT, kind.FUNC, kind.FUNC_PROTO, kind.VAR, kind.DATASEC,
    kind.FLOAT, kind.DECL_TAG, kind.TYPE_TAG, kind.ENUM64 in *.
  repeat match goal with |- context [k =? ?c] => destruct (Z.eqb_spec k c); [lia|] end.
  reflexivity.
Qed.

(** One type parses to what the format says of it, and the bytes it takes. *)
Lemma parse_one_enc n w rest :
  in_u32 n = true -> wire_ok w = true ->
  parse_one (enc_type n w ++ rest) = Ret (seen w, len (enc_type n w)).
Proof.
  intros Hn Hw. rewrite len_enc, len_wire_tail by done. set (b := enc_type n w ++ rest).
  assert (H : suffix_at b 0 (enc_type n w ++ rest)) by apply suffix_at_0.
  assert (Hb : 12 <= len b) by (subst b; rewrite len_app, len_enc; len_lia). clearbody b.
  unfold enc_type in H. rewrite <- !app_assoc in H. adv H 4.
  assert (Hi : in_u32 (wire_info w) = true /\ in_u32 (wire_sot w) = true).
  { destruct w; cbn [wire_ok wire_info wire_sot] in *; rewrite !andb_true_iff in Hw; destruct_and!; zbool.
    - by split.
    - split; [|done]. destruct union; apply info_fields; unfold kind.UNION, kind.STRUCT; len_lia.
    - split; [|done]. by apply info_fields. }
  destruct Hi as [Hi Hs]. pose proof (suffix_u32 _ _ _ _ H Hi) as R1. adv H 8.
  pose proof (suffix_u32 _ _ _ _ H Hs) as R2. adv H 12.
  destruct w as [e i m|u f s l|k f v s t]; [..|by apply other_parsed];
    cbn [wire_info wire_sot wire_tail seen wire_ok] in *; unfold parse_one;
    (destruct (Z.ltb_spec (len b) 12); [lia|]); rewrite R1, bind_Ret, R2, bind_Ret; cbv zeta.
  - destruct (info_fields kind.ARRAY false 0) as (_ & -> & _ & _); [by unfold kind.ARRAY|done|].
    change (kind.ARRAY =? kind.INT) with false. change (kind.ARRAY =? kind.PTR) with false.
    change (kind.ARRAY =? kind.ARRAY) with true. cbv iota.
    rewrite !andb_true_iff in Hw. destruct Hw as [[? ?] ?]. rewrite <- !app_assoc in H.
    pose proof (suffix_at_len _ _ _ H) as [_ E]. destruct (Z.ltb_spec (len b) 24); [len_lia|].
    rewrite (suffix_u32 _ _ _ _ H), bind_Ret by done. adv H 16. adv H 20.
    by rewrite (suffix_u32 _ _ _ _ H), bind_Ret.
  - rewrite !andb_true_iff in Hw. destruct Hw as [[? Hl] ?]. zbool.
    destruct (info_fields (if u then kind.UNION else kind.STRUCT) f (len l)) as (_ & -> & -> & ->);
      [by destruct u|len_lia|].
    replace (Z.to_nat (len l)) with (length l) by (unfold len; lia). rewrite (parse_members_enc b f l _ _ H) by done.
    destruct u; reflexivity.
Qed.

(** *** The image

    Each type with its name, the empty one for a type without: the names go
    to the string section in order, after the NUL at its start, and [more]
    holds what else is there (the names of members). *)

Definition after_name (off : Z) (n : bytes) : Z :=
  if bool_decide (n = []) then off else off + len n + 1.

Fixpoint type_section (off : Z) (l : list (bytes * wire)) : bytes :=
  match l with
  | [] => []
  | (n, w) :: l =>
      enc_type (if bool_decide (n = []) then 0 else off) w ++ type_section (after_name off n) l
  end.

Definition name_bytes (n : bytes) : bytes := if bool_decide (n = []) then [] else n ++ [u8b 0].
Definition name_section (l : list (bytes * wire)) : bytes := concat (map (fun e => name_bytes e.1) l).

Definition str_section (l : list (bytes * wire)) (more : bytes) : bytes :=
  u8b 0 :: name_section l ++ more.

(** Header (with [ext] for a header longer than the reader's), types, strings. *)
Definition image (version flags : Init.Byte.byte) (ext : bytes) (l : list (bytes * wire)) (more : bytes)
  : bytes :=
  to_le 2 BTF_MAGIC ++ [version; flags] ++ to_le 4 (24 + len ext) ++ to_le 4 0
  ++ to_le 4 (len (type_section 1 l)) ++ to_le 4 (len (type_section 1 l))
  ++ to_le 4 (len (str_section l more)) ++ ext ++ type_section 1 l ++ str_section l more.

Definition name_ok (n : bytes) : bool :=
  utf8_valid n && forallb (fun x => negb (byte.unsigned x =? 0)) n.

Definition named (n : bytes) : option bytes := if bool_decide (n = []) then None else Some n.

Lemma type_name_at strs off n rest :
  suffix_at strs off (n ++ u8b 0 :: rest) -> 0 < off -> name_ok n = true ->
  type_name strs off = Some n.
Proof.
  intros H Hoff [Hu Hn]%andb_true_iff. unfold type_name.
  pose proof (suffix_at_len _ _ _ H) as [_ E].
  destruct (Z.eqb_spec off 0); [lia|]. destruct (Z.ltb_spec off (len strs)); [|len_lia].
  destruct H as (pre & -> & ->). cbv zeta.
  replace (Z.to_nat (len pre)) with (length pre) by (unfold len; lia).
  rewrite drop_app_length, nul_position_app by done. change (default O (Some (length n))) with (length n). rewrite take_app_length.
  unfold from_utf8. by rewrite Hu.
Qed.

Lemma parse_types_image b strs te more l : forall fuel p off,
  suffix_at b p (type_section off l ++ more) -> te = p + len (type_section off l) ->
  (exists rest, suffix_at strs off (name_section l ++ rest)) -> 0 < off -> len strs <= U32_MAX ->
  Forall (fun e => name_ok e.1 = true /\ wire_ok e.2 = true) l ->
  len (type_section off l) < Z.of_nat fuel ->
  parse_types fuel b strs p te = Ret (map (fun e => seen e.2) l, map (fun e => named e.1) l).
Proof.
  induction l as [|[n w] l IH]; intros fuel p off H -> [rest Hs] Hoff Hmax Hl Hf;
    (destruct fuel as [|fuel]; [len_lia|]); cbn [parse_types].
  { cbn [type_section]. rewrite len_nil, Z.add_0_r, Z.ltb_irrefl. done. }
  apply list.Forall_cons in Hl as [[Hn Hw] Hl]. cbn [fst snd] in Hn, Hw.
  cbn [type_section] in *. set (o := if bool_decide (n = []) then 0 else off) in *.
  rewrite len_app in *. pose proof (len_enc o w) as Ee. pose proof (len_nonneg (wire_tail w)).
  pose proof (len_nonneg (type_section (after_name off n) l)).
  destruct (Z.ltb_spec p (p + (len (enc_type o w) + len (type_section (after_name off n) l)))); [|lia].
  destruct (Z.ltb_spec (p + (len (enc_type o w) + len (type_section (after_name off n) l))) (p + 12)); [lia|].
  cbn [negb orb].
  assert (Ho : in_u32 o = true /\ type_name strs o = named n
               /\ exists rest, suffix_at strs (after_name off n) (name_section l ++ rest)).
  { pose proof (suffix_at_len _ _ _ Hs) as [_ E]. subst o. unfold after_name, named, name_section in *.
    cbn [map concat fst] in Hs, E. unfold name_bytes in Hs, E. case_bool_decide.
    - split_and!; [done|done|by exists rest].
    - rewrite <- !app_assoc in Hs. split_and!; [apply in_u32_iff; len_lia|by eapply type_name_at|].
      exists rest. eapply (suffix_at_adv _ _ (n ++ [u8b 0])); [by rewrite <- app_assoc|len_lia]. }
  destruct Ho as (Ho & Et & Hrest). rewrite <- app_assoc in H.
  assert (R : read_u32 b p = Ret o).
  { unfold enc_type in H. rewrite <- !app_assoc in H. by eapply suffix_u32. }
  rewrite R, bind_Ret.
  rewrite (suffix_at_slice _ _ (enc_type o w ++ type_section (after_name off n) l) more)
    by (try len_lia; by rewrite <- app_assoc).
  rewrite bind_Ret, parse_one_enc, bind_Ret by done. cbn [snd fst].
  rewrite (IH fuel (p + len (enc_type o w)) (after_name off n)); [|..|done|lia].
  - rewrite bind_Ret. cbn [map fst snd]. by rewrite Et.
  - eapply suffix_at_adv; [exact H|done].
  - lia.
  - done.
  - unfold after_name. case_bool_decide; len_lia.
  - done.
Qed.

(** C24: A blob laid out by the format's rules parses to its types, under the ids
    the format gives them, with their names and its strings. *)
Theorem parse_image version flags ext l more :
  Forall (fun e => name_ok e.1 = true /\ wire_ok e.2 = true) l ->
  24 + len ext <= U32_MAX -> len (type_section 1 l) <= U32_MAX -> len (str_section l more) <= U32_MAX ->
  parse (image version flags ext l more) = Ret {|
    types := TVoid :: map (fun e => seen e.2) l;
    names := None :: map (fun e => named e.1) l;
    strs := str_section l more; struct_index := ∅; func_index := ∅ |}.
Proof.
  intros Hl He Ht Hs. set (T := type_section 1 l) in *. set (S := str_section l more) in *.
  assert (H : suffix_at (image version flags ext l more) 0 (image version flags ext l more ++ []))
    by (rewrite app_nil_r; apply suffix_at_0).
  set (b := image version flags ext l more) in *.
  assert (Hb : len b = 24 + len ext + len T + len S) by (subst b; unfold image; subst T S; len_lia).
  unfold b in H at 2. clearbody b. unfold image in H. fold T S in H. rewrite <- !app_assoc in H.
  pose proof (len_nonneg ext). pose proof (len_nonneg T). pose proof (len_nonneg S).
  assert (U : forall v, 0 <= v <= U32_MAX -> in_u32 v = true) by (intros; by apply in_u32_iff).
  unfold parse. destruct (Z.ltb_spec (len b) 24); [lia|].
  rewrite (suffix_at_le _ _ _ _ _ H), bind_Ret by (by vm_compute). change (negb (BTF_MAGIC =? BTF_MAGIC)) with false.
  cbv iota. adv H 2. adv H 4.
  rewrite (suffix_u32 _ _ _ _ H), bind_Ret by (apply U; lia). adv H 8.
  destruct (Z.ltb_spec (24 + len ext) 24); [lia|].
  rewrite (suffix_u32 _ _ _ _ H), bind_Ret by done. adv H 12.
  rewrite (suffix_u32 _ _ _ _ H), bind_Ret by (apply U; lia). adv H 16.
  rewrite (suffix_u32 _ _ _ _ H), bind_Ret by (apply U; lia). adv H 20.
  rewrite (suffix_u32 _ _ _ _ H), bind_Ret by (apply U; lia). adv H 24. cbv zeta.
  destruct (Z.ltb_spec (len b) (24 + len ext + 0 + len T)); [lia|].
  destruct (Z.ltb_spec (len b) (24 + len ext + len T + len S)); [lia|]. cbn [orb].
  adv H (24 + len ext). pose proof H as HT. adv H (24 + len ext + len T).
  rewrite (suffix_at_slice _ _ _ _ _ H), bind_Ret by lia.
  rewrite (parse_types_image _ _ _ (S ++ []) l _ _ 1), bind_Ret; [done|..]; fold T.
  - by rewrite Z.add_0_r.
  - lia.
  - exists more. unfold S, str_section. by exists [u8b 0].
  - lia.
  - done.
  - done.
  - lia.
Qed.
