(* ===== verification/BtfLookup.v ===== *)
(** The lookups of the BTF reader (Btf.v) against C's rule for a member of a
    struct: its members in order, an anonymous struct or union standing for
    its own members at its place, each at the sum of the bit offsets on the
    way to it. *)

From stdpp Require Import gmap.
From S2P Require Import Utf8.
From S2P Require Import Prelude.
From S2P Require Import Btf.

Local Open Scope Z_scope.
Local Open Scope list_scope.

(** ** C's members *)

(** Every member met on the walk of a struct, the anonymous ones before what
    they hold, with its offset in bits from the start of the outermost. *)
Fixpoint members_from (n : nat) (b : Btf) (id base : Z) : list (BtfMember * Z) :=
  match n with
  | O => []
  | S n =>
      flat_map (fun m =>
        (m, base + offset_bits m)
        :: (if bool_decide (member_name b m = []) then members_from n b (m_type_id m) (base + offset_bits m)
            else []))
        (default [] (members_of b id))
  end.
Definition c_members (b : Btf) (id : Z) : list (BtfMember * Z) := members_from (fuel_of b) b id 0.

(** A member is found under a name of its own. *)
Definition called (b : Btf) (field : bytes) (x : BtfMember * Z) : Prop :=
  member_name b x.1 <> [] /\ member_name b x.1 = field.
#[export] Instance called_dec b field x : Decision (called b field x).
Proof. unfold called. apply _. Defined.

Definition first_called (b : Btf) (field : bytes) (l : list (BtfMember * Z)) : option (BtfMember * Z) :=
  snd <$> list_find (called b field) l.

(** ** Blobs whose lookups end

    [anchored rank b]: [rank] gives each type a rank, at most the number of
    types, that an anonymous member and an array's element are below.  A
    kernel's blob has one: no type of C contains itself. *)
Definition rank_of (rank : list nat) (b : Btf) (id : Z) : nat :=
  default O (rank !! Z.to_nat (resolve b id)).

Definition anchored_at (rank : list nat) (b : Btf) (r : nat) (t : BtfType) : bool :=
  Nat.leb r (length (types b)) &&
  match t with
  | TStruct _ l | TUnion _ l =>
      forallb (fun m => negb (bool_decide (member_name b m = []))
                        || Nat.ltb (rank_of rank b (m_type_id m)) r) l
  | TArray e _ => Nat.ltb (rank_of rank b e) r
  | _ => true
  end.

Definition anchored (rank : list nat) (b : Btf) : bool :=
  Nat.eqb (length rank) (length (types b))
  && forallb (fun x => anchored_at rank b x.1 x.2) (combine rank (types b)).

Section Walk.
Context (b : Btf) (rank : list nat) (A : anchored rank b = true).

Lemma anchored_type id t :
  type_at b (resolve b id) = Some t -> anchored_at rank b (rank_of rank b id) t = true.
Proof.
  intros H. unfold type_at, rank_of in *. unfold anchored in A.
  apply andb_true_iff in A as [Hl%Nat.eqb_eq Ha]. rewrite forallb_forall in Ha.
  destruct (rank !! Z.to_nat (resolve b id)) as [r|] eqn:R.
  - apply (Ha (r, t)). apply list_elem_of_In. apply list_elem_of_lookup.
    exists (Z.to_nat (resolve b id)). clear - R H. revert R H.
    generalize (Z.to_nat (resolve b id)) as i, (types b) as l. induction rank as [|r' k IH]; intros [|i] [|t' l]; simpl;
      try done; [congruence|apply IH].
  - apply lookup_lt_Some in H. apply lookup_ge_None in R. lia.
Qed.

Lemma rank_bound id : (rank_of rank b id < fuel_of b)%nat.
Proof.
  unfold fuel_of. destruct (type_at b (resolve b id)) as [t|] eqn:T.
  - apply anchored_type in T. apply andb_true_iff in T as [T%Nat.leb_le _]. lia.
  - unfold rank_of, type_at in *. apply lookup_ge_None in T.
    apply andb_true_iff in A as [Hl%Nat.eqb_eq _].
    rewrite lookup_ge_None_2 by lia. simpl. lia.
Qed.

Lemma rank_member id l m :
  members_of b id = Some l -> m ∈ l -> member_name b m = [] ->
  (rank_of rank b (m_type_id m) < rank_of rank b id)%nat.
Proof.
  intros Hm Hin Hn. unfold members_of in Hm. destruct (type_at b (resolve b id)) as [t|] eqn:T; [|done].
  apply anchored_type, andb_true_iff in T as [_ T].
  destruct t; try done; injection Hm as ->; rewrite forallb_forall in T;
    specialize (T m ltac:(by apply list_elem_of_In)); rewrite bool_decide_true in T by done;
    by apply Nat.ltb_lt in T.
Qed.


Lemma first_called_app field l1 l2 :
  first_called b field (l1 ++ l2)
  = match first_called b field l1 with Some x => Some x | None => first_called b field l2 end.
Proof.
  unfold first_called. induction l1 as [|x l IH]; [done|]. cbn [app list_find].
  case_decide; [done|]. destruct (list_find _ (l ++ l2)) as [[??]|], (list_find _ l) as [[??]|]; cbn in *; done.
Qed.

Lemma first_called_cons field x l :
  first_called b field (x :: l) = if decide (called b field x) then Some x else first_called b field l.
Proof.
  unfold first_called. cbn [list_find]. case_decide; [done|]. by destruct (list_find _ l) as [[??]|].
Qed.

(** Anonymous members have no name to be found under. *)
Lemma anon_not_called field m o : member_name b m = [] -> ~ called b field (m, o).
Proof. intros H [Hn _]. done. Qed.

Section Named.
Context {E : Type} (field : bytes).

(** The members of one struct, and the descents into its anonymous ones. *)
Definition walk (fuel : nat) (base : Z) (l : list BtfMember) : list (BtfMember * Z) :=
  flat_map (fun m =>
    (m, base + offset_bits m)
    :: (if bool_decide (member_name b m = []) then members_from fuel b (m_type_id m) (base + offset_bits m)
        else [])) l.

Lemma walk_cons fuel base m l :
  first_called b field (walk fuel base (m :: l)) =
  if bool_decide (member_name b m = []) then
    match first_called b field (members_from fuel b (m_type_id m) (base + offset_bits m)) with
    | Some x => Some x
    | None => first_called b field (walk fuel base l)
    end
  else if bool_decide (member_name b m = field) then Some (m, base + offset_bits m)
  else first_called b field (walk fuel base l).
Proof.
  unfold walk at 1. cbn [flat_map]. fold (walk fuel base l). case_bool_decide as Hn.
  - cbn [app]. rewrite first_called_cons, decide_False by by apply anon_not_called.
    by rewrite first_called_app.
  - cbn [app]. rewrite first_called_cons. case_bool_decide as Hf.
    + by rewrite decide_True.
    + rewrite decide_False; [done|]. by intros [_ ?].
Qed.

Lemma members_from_S fuel id base l :
  members_of b id = Some l -> members_from (S fuel) b id base = walk fuel base l.
Proof. intros H. cbn [members_from]. by rewrite H. Qed.

Lemma members_from_none fuel id base : members_of b id = None -> members_from (S fuel) b id base = [].
Proof. intros H. cbn [members_from]. by rewrite H. Qed.

Lemma raw_finds fuel : forall id base,
  (rank_of rank b id < fuel)%nat ->
  find_member_raw_fuel (E:=E) b field fuel id = Ret (fst <$> first_called b field (members_from fuel b id base)).
Proof.
  induction fuel as [|fuel IH]; intros id base Hr; [lia|]. cbn [find_member_raw_fuel].
  destruct (members_of b id) as [l|] eqn:M; [|by rewrite members_from_none].
  rewrite (members_from_S _ _ _ l M).
  assert (Ha : forall m, m ∈ l -> member_name b m = [] -> (rank_of rank b (m_type_id m) < fuel)%nat)
    by (intros m Hin Hn; pose proof (rank_member id l m M Hin Hn); lia).
  clear M. induction l as [|m l IHl]; [done|]. cbn [raw_members]. rewrite walk_cons.
  assert (Hl : forall m, m ∈ l -> member_name b m = [] -> (rank_of rank b (m_type_id m) < fuel)%nat)
    by (intros; apply Ha; [by apply elem_of_cons; right|done]).
  case_bool_decide as Hn; [|case_bool_decide; [done|by apply IHl]].
  rewrite (IH _ (base + offset_bits m)) by (apply Ha; [apply elem_of_cons; by left|done]).
  rewrite bind_Ret. destruct (first_called b field (members_from _ _ _ _)) as [x|]; [done|]. by apply IHl.
Qed.

(** Existence is the first walk's answer. *)
Lemma exists_raw fuel : forall id,
  find_member_exists_fuel (E:=E) b field fuel id
  = (o ← find_member_raw_fuel b field fuel id; Ret (bool_decide (is_Some o))).
Proof.
  induction fuel as [|fuel IH]; intros id; [done|]. cbn [find_member_exists_fuel find_member_raw_fuel].
  destruct (members_of b id) as [l|]; [|done].
  induction l as [|m l IHl]; [done|]. cbn [exists_members raw_members].
  case_bool_decide as Hn; [|by case_bool_decide].
  rewrite IH. destruct (find_member_raw_fuel b field fuel (m_type_id m)) as [[x|]|?|]; done.
Qed.

(** What the walk makes of the member it found. *)
Definition hit (x : BtfMember * Z) : outcome E (option (result Z (Z * Z))) :=
  if negb (x.2 mod 8 =? 0) || negb (bit_size x.1 =? 0) then Ret (Some (Err x.2))
  else o ← type_size b (m_type_id x.1); Ret (size ← o; Some (Ok (x.2 / 8, size))).

Definition answers (o : option (BtfMember * Z)) (r : option (result Z (Z * Z))) : Prop :=
  match o with
  | None => r = None
  | Some x => r <> None /\ hit x = Ret r
  end.

Lemma member_finds fuel : forall id base r,
  (rank_of rank b id < fuel)%nat ->
  Forall (fun x => x.2 <= U32_MAX) (members_from fuel b id base) ->
  answers (first_called b field (members_from fuel b id base)) r ->
  find_member_fuel (E:=E) b field fuel id base = Ret r.
Proof.
  induction fuel as [|fuel IH]; intros id base r Hr; [lia|]. cbn [find_member_fuel].
  destruct (members_of b id) as [l|] eqn:M; [|rewrite members_from_none by done; by intros _ ->].
  rewrite (members_from_S _ _ _ l M).
  assert (Ha : forall m, m ∈ l -> member_name b m = [] -> (rank_of rank b (m_type_id m) < fuel)%nat)
    by (intros m Hin Hn; pose proof (rank_member id l m M Hin Hn); lia).
  clear M. induction l as [|m l IHl]; [by intros _ ->|]. cbn [offset_members]. rewrite walk_cons.
  assert (Hl : forall m, m ∈ l -> member_name b m = [] -> (rank_of rank b (m_type_id m) < fuel)%nat)
    by (intros; apply Ha; [by apply elem_of_cons; right|done]).
  unfold walk at 1. cbn [flat_map]. fold (walk fuel base l). cbn [app].
  intros [Hb [Hm Hw]%list.Forall_app]%list.Forall_cons. cbn [snd] in Hb. unfold add32.
  destruct (Z.leb_spec (base + offset_bits m) U32_MAX); [|lia]. rewrite bind_Ret.
  case_bool_decide as Hn.
  - intros Hx.
    assert (Hf : (rank_of rank b (m_type_id m) < fuel)%nat) by (apply Ha; [apply elem_of_cons; by left|done]).
    destruct (first_called b field (members_from fuel b (m_type_id m) (base + offset_bits m))) as [x|] eqn:F.
    + rewrite (IH _ _ r Hf Hm), bind_Ret by by rewrite F. destruct Hx as [Hx _]. by destruct r.
    + rewrite (IH _ _ None Hf Hm), bind_Ret by by rewrite F. by apply IHl.
  - case_bool_decide; [|by apply IHl]. intros [_ Hx]. exact Hx.
Qed.
End Named.
End Walk.

(** ** The index *)

(** Type [i] has the name and the kind an index is of. *)
Definition bears (keep : BtfType -> bool) (b : Btf) (n : bytes) (i : Z) : Prop :=
  exists t, name_at b i = Some n /\ type_at b i = Some t /\ keep t = true.

(** The last of them. *)
Definition last_bearer (keep : BtfType -> bool) (b : Btf) (n : bytes) (o : option Z) : Prop :=
  match o with
  | Some i => 0 <= i /\ bears keep b n i /\ forall j, i < j -> ~ bears keep b n j
  | None => forall j, 0 <= j -> ~ bears keep b n j
  end.

Lemma index_names_last keep b n : forall l i m,
  0 <= i -> drop (Z.to_nat i) (names b) = l ->
  match index_names keep b i l m !! n with
  | Some v =>
      (i <= v /\ bears keep b n v /\ forall j, v < j -> ~ bears keep b n j)
      \/ (m !! n = Some v /\ forall j, i <= j -> ~ bears keep b n j)
  | None => m !! n = None /\ forall j, i <= j -> ~ bears keep b n j
  end.
Proof.
  assert (N : forall i, 0 <= i -> drop (Z.to_nat i) (names b) = [] -> forall j, i <= j -> ~ bears keep b n j).
  { intros i Hi E j Hj (t & Hn & _). unfold name_at in Hn.
    assert (length (names b) <= Z.to_nat i)%nat by (apply (f_equal length) in E; rewrite length_drop in E; simpl in E; lia).
    rewrite lookup_ge_None_2 in Hn by lia. done. }
  induction l as [|o l IH]; intros i m Hi E; cbn [index_names].
  { specialize (N i Hi E). destruct (m !! n); [right|]; done. }
  assert (E' : drop (Z.to_nat (i + 1)) (names b) = l).
  { replace (Z.to_nat (i + 1)) with (S (Z.to_nat i)) by lia. change l with (tail (o :: l)).
    rewrite <- E. clear. generalize (Z.to_nat i). intros k. generalize (names b).
    induction k as [|k IH]; intros [|? ?]; try done. by apply IH. }
  assert (Ho : name_at b i = o).
  { unfold name_at. replace (names b !! Z.to_nat i) with (Some o); [by destruct o|].
    rewrite <- (Nat.add_0_r (Z.to_nat i)), <- lookup_drop, E. done. }
  set (m' := match o, type_at b i with
             | Some n, Some t => if keep t then <[n := i]> m else m
             | _, _ => m end).
  assert (B : bears keep b n i /\ m' !! n = Some i \/ ~ bears keep b n i /\ m' !! n = m !! n).
  { unfold bears. subst m'. rewrite Ho.
    destruct o as [k|]; [|right; split; [intros (?&?&_); done|done]].
    destruct (type_at b i) as [t|]; [|right; split; [intros (?&_&?&_); done|done]].
    destruct (keep t) eqn:K; [|right; split; [intros (?&_&[= ->]&?); congruence|done]].
    destruct (decide (k = n)) as [->|]; [left; split; [by eexists|by rewrite lookup_insert_eq]|].
    right. split; [intros (?&?&_); congruence|]. by rewrite lookup_insert_ne. }
  specialize (IH (i + 1) m' ltac:(lia) E').
  assert (L : ~ bears keep b n i -> (forall j, i + 1 <= j -> ~ bears keep b n j) -> forall j, i <= j -> ~ bears keep b n j).
  { intros H1 H2 j Hj. destruct (decide (j = i)) as [->|]; [done|apply H2; lia]. }
  destruct (index_names _ _ _ _ _ !! n) as [v|].
  - destruct IH as [(H1 & H2 & H3)|(H1 & H2)]; [left; split_and!; [lia|done..]|].
    destruct B as [[Hb B]|[Hb B]]; rewrite B in H1.
    + injection H1 as <-. left. split_and!; [lia|done|]. intros j Hj. apply H2. lia.
    + right. split; [done|]. by apply L.
  - destruct IH as [H1 H2]. destruct B as [[Hb B]|[Hb B]]; rewrite B in H1; [done|].
    split; [done|]. by apply L.
Qed.

(** What the two lazy indexes may hold. *)
Definition indexed (b : Btf) : Prop :=
  (struct_index b = ∅ \/ struct_index b = index_names is_aggregate b 0 (names b) ∅)
  /\ (func_index b = ∅ \/ func_index b = index_names is_func b 0 (names b) ∅).

Lemma index_names_ext keep b b' l : types b = types b' -> forall i m,
  index_names keep b i l m = index_names keep b' i l m.
Proof.
  intros E. induction l as [|o l IH]; intros i m; [done|]. cbn [index_names]. rewrite IH.
  unfold type_at. by rewrite E.
Qed.

Lemma index_last keep b n : last_bearer keep b n (index_names keep b 0 (names b) ∅ !! n).
Proof.
  pose proof (index_names_last keep b n (names b) 0 ∅ ltac:(lia) eq_refl) as H. unfold last_bearer.
  destruct (_ !! n) as [v|]; [|by destruct H].
  destruct H as [H|[H _]]; [done|by rewrite lookup_empty in H].
Qed.

(** ** The lookups *)

(** The index a lookup builds changes nothing a walk looks at. *)
Section Same.
Context (b b' : Btf) (Ht : types b = types b') (Hs : strs b = strs b').

Lemma type_at_same id : type_at b id = type_at b' id.
Proof. unfold type_at. by rewrite Ht. Qed.

Lemma resolve_same id : resolve b id = resolve b' id.
Proof.
  unfold resolve. generalize 32%nat as n. intros n. revert id.
  induction n as [|n IH]; intros id; [done|]. cbn [resolve_hops]. rewrite type_at_same.
  destruct (type_at b' id) as [[]|]; done.
Qed.

Lemma member_name_same m : member_name b m = member_name b' m.
Proof. unfold member_name, str_at. by rewrite Hs. Qed.

Lemma members_of_same id : members_of b id = members_of b' id.
Proof. unfold members_of. by rewrite resolve_same, type_at_same. Qed.

Lemma members_from_same n : forall id base, members_from n b id base = members_from n b' id base.
Proof.
  induction n as [|n IH]; intros id base; [done|]. cbn [members_from]. rewrite members_of_same.
  induction (default [] (members_of b' id)) as [|m l IHl]; [done|]. cbn [flat_map].
  by rewrite member_name_same, IH, IHl.
Qed.

Lemma c_members_same id : c_members b id = c_members b' id.
Proof. unfold c_members, fuel_of. rewrite Ht. apply members_from_same. Qed.

Lemma first_called_same field l : first_called b field l = first_called b' field l.
Proof.
  induction l as [|x l IH]; [done|]. rewrite !first_called_cons, IH.
  assert (E : called b field x <-> called b' field x) by (unfold called; by rewrite member_name_same).
  repeat case_decide; tauto.
Qed.

Lemma type_size_same {E} id : type_size (E:=E) b id = type_size b' id.
Proof.
  unfold type_size, fuel_of. rewrite Ht. generalize (S (length (types b'))) as n. intros n. revert id.
  induction n as [|n IH]; intros id; [done|]. cbn [type_size_fuel]. rewrite resolve_same, type_at_same.
  destruct (type_at b' (resolve b' id)) as [[]|]; try done. by rewrite IH.
Qed.

Lemma rank_of_same rank id : rank_of rank b id = rank_of rank b' id.
Proof. unfold rank_of. by rewrite resolve_same. Qed.

Lemma anchored_same rank : anchored rank b = anchored rank b'.
Proof.
  unfold anchored. rewrite Ht. f_equal. induction (combine rank (types b')) as [|[r t] l IH]; [done|].
  cbn [forallb fst snd]. rewrite IH. f_equal. unfold anchored_at. rewrite Ht. f_equal.
  assert (M : forall l, forallb (fun m => negb (bool_decide (member_name b m = [])) || Nat.ltb (rank_of rank b (m_type_id m)) r) l
    = forallb (fun m => negb (bool_decide (member_name b' m = [])) || Nat.ltb (rank_of rank b' (m_type_id m)) r) l).
  { intros k. induction k as [|m k IHk]; [done|]. cbn [forallb]. by rewrite IHk, member_name_same, rank_of_same. }
  destruct t; rewrite ?rank_of_same, ?M; done.
Qed.
End Same.

Lemma index_names_nonempty keep b n i : 
  bears keep b n i -> 0 <= i -> index_names keep b 0 (names b) ∅ !! n <> None.
Proof.
  intros Hb Hi E. pose proof (index_last keep b n) as H. rewrite E in H. by eapply H.
Qed.

(** Looking a name up keeps the tables, and builds or keeps the index. *)
Lemma find_struct_spec n b :
  indexed b ->
  let '(o, b') := find_struct n b in
  last_bearer is_aggregate b n o /\ indexed b'
  /\ types b' = types b /\ names b' = names b /\ strs b' = strs b.
Proof.
  intros [Hi Hf]. unfold find_struct. case_bool_decide as He.
  - split; [apply index_last|]. cbn. split; [|done]. split; cbn; [right; by apply index_names_ext|].
    destruct Hf as [-> | ->]; [by left|right; by apply index_names_ext].
  - destruct Hi as [|Hi]; [done|]. rewrite Hi at 1. split; [apply index_last|]. by split_and!; [split; [right|]|..].
Qed.

Lemma find_func_spec n b :
  indexed b ->
  let '(r, b') := find_func n b in
  last_bearer is_func b n (match r with Ok id => Some id | Err _ => None end)
  /\ (forall e, r = Err e -> e = FuncNotFound n) /\ indexed b'
  /\ types b' = types b /\ names b' = names b /\ strs b' = strs b.
Proof.
  intros [Hf Hi]. unfold find_func. case_bool_decide as He.
  - cbn [func_index with_func_index types names strs].
    pose proof (index_last is_func b n) as L. destruct (index_names is_func b 0 (names b) ∅ !! n);
      (split; [exact L|]; split; [by intros ? [= <-]|split; [|done]]; split; cbn; [|right; by apply index_names_ext];
       destruct Hf as [-> | ->]; [by left|right; by apply index_names_ext]).
  - destruct Hi as [|Hi]; [done|]. pose proof (index_last is_func b n) as L. rewrite <- Hi in L.
    destruct (func_index b !! n); (split; [exact L|]; split; [by intros ? [= <-]|by split_and!; [split; [|right]|..]]).
Qed.

(** What [field_offset] and [field_exists] answer for a struct found. *)
Definition lookup_answer {E} (name field : bytes) (b b' : Btf) (o : option (BtfMember * Z)) : Prop :=
  match o with
  | None => field_offset (E:=E) name field b = Ret (Err (FieldNotFound name field), b')
            /\ field_exists (E:=E) name field b = Ret (false, b')
  | Some (m, bits) =>
      field_exists (E:=E) name field b = Ret (true, b')
      /\ if negb (bits mod 8 =? 0) || negb (bit_size m =? 0)
         then field_offset (E:=E) name field b = Ret (Err (Bitfield name field bits), b')
         else forall s, type_size (E:=E) b (m_type_id m) = Ret (Some s) ->
              field_offset (E:=E) name field b = Ret (Ok (bits / 8, s), b')
  end.

Lemma find_struct_same n b : let b' := (find_struct n b).2 in types b = types b' /\ strs b = strs b'.
Proof. unfold find_struct. by case_bool_decide. Qed.

(** C23: In a blob whose lookups end, with offsets that fit their type:
    [field_offset] and [field_exists] answer for the first member called
    [field] of the struct that bears the name, an anonymous member's own
    members standing at its place. *)
Theorem lookups_first {E} rank name field b sid b' :
  anchored rank b = true -> find_struct name b = (Some sid, b') ->
  Forall (fun x => x.2 <= U32_MAX) (c_members b sid) ->
  lookup_answer (E:=E) name field b b' (first_called b field (c_members b sid)).
Proof.
  intros A F. pose proof (find_struct_same name b) as [Ht Hs]. rewrite F in Ht, Hs. cbn [snd] in Ht, Hs.
  rewrite (anchored_same b b' Ht Hs) in A. rewrite (c_members_same b b' Ht Hs), (first_called_same b b' Hs).
  intros Hb. unfold lookup_answer, field_offset, field_exists. rewrite F.
  unfold find_member, find_member_exists, c_members in *.
  pose proof (rank_bound b' rank A sid) as Hr.
  rewrite exists_raw, (raw_finds b' rank A field (fuel_of b') sid 0), !bind_Ret by done.
  destruct (first_called b' field (members_from (fuel_of b') b' sid 0)) as [[m bits]|] eqn:M; cbn [fmap option_fmap option_map fst].
  - rewrite bool_decide_true by by eexists. split; [done|].
    assert (H : forall r, r <> None -> hit (E:=E) b' (m, bits) = Ret r ->
      find_member_fuel (E:=E) b' field (fuel_of b') sid 0 = Ret r).
    { intros r Hr' Hh. apply (member_finds b' rank A); [done..|]. by rewrite M. }
    unfold hit in H. cbn [fst snd] in H.
    destruct (negb (bits mod 8 =? 0) || negb (bit_size m =? 0)).
    + by rewrite (H (Some (Err bits))), bind_Ret.
    + intros s Hsz. rewrite (type_size_same b b' Ht) in Hsz.
      rewrite (H (Some (Ok (bits / 8, s)))), bind_Ret by (try done; by rewrite Hsz, bind_Ret). done.
  - rewrite bool_decide_false by by intros [? ?]. split; [|done].
    rewrite (member_finds b' rank A field (fuel_of b') sid 0 None) by (try done; by rewrite M). done.
Qed.
