(* ===== verification/ElfSyms.v ===== *)
(** The ELF-64 symbol reader (host/bifrost-support, src/elf_syms.rs): the table
    of a file's functions, its lookups by address and by name, the USDT notes,
    and the search of a root file system for a uprobe's binary. *)

From Stdlib Require Import Strings.String.
From stdpp Require Import list.
From S2P Require Import Ordered.
From S2P Require Import Utf8.
From S2P Require Import Schema.
From S2P Require Import ElfFile.
From S2P Require Import LinuxCompile.
From S2P Require Import Prelude.

Local Open Scope Z_scope.
Local Open Scope list_scope.

Record Sym : Type := {
  sym_addr : Z;
  sym_bytes : Z;
  sym_name : bytes
}.

Record SymTab : Type := {
  syms : list Sym;
  is_pie : bool
}.

(** [for i in 0..shnum], from [i] on with [n] sections left: offset, size and
    link of the first section of a type and name. *)
Fixpoint find_table {E} (n : nat) (b : bytes) (h : Shdrs) (shstr_off stype : Z) (name : bytes) (i : Z)
  : outcome E (option (Z * Z * Z)) :=
  match n with
  | O => Ret None
  | S n =>
      sh ← read_sh b (e_shoff h) (e_shentsize h) i;
      let start := shstr_off + sh_name sh in
      let found := if len b <=? start then [] else section_name b start in
      if (sh_type sh =? stype) && bool_decide (found = name)
      then Ret (Some (sh_offset sh, sh_size sh, sh_link sh))
      else find_table n b h shstr_off stype name (i + 1)
  end.

(** The bytes from [start] to the first NUL before [stop], lossily decoded. *)
Definition cstr_in {E} (b : bytes) (start stop : Z) : outcome E bytes :=
  l ← slice b start stop;
  Ret (from_utf8_lossy (take (default (length l) (nul_position l)) l)).

(** [str_at] *)
Definition sym_str_at {E} (b : bytes) (str_off str_size off : Z) : outcome E bytes :=
  if str_off + str_size <=? str_off + off then Ret []
  else cstr_in b (str_off + off) (str_off + str_size).

Definition is_function (st_info : Z) : bool :=
  let st_type := Z.land st_info 0x0f in (st_type =? 2) || (st_type =? 10).

(** One symbol table entry: the symbol it is pushed as, if it is. *)
Definition read_sym {E} (b : bytes) (str_off str_size p : Z) : outcome E (option Sym) :=
  st_name ← le_at 4 b p;
  st_info ← byte_at b (p + 4);
  st_value ← le_at 8 b (p + 8);
  st_size ← le_at 8 b (p + 16);
  if is_function st_info && negb (st_value =? 0) then
    name ← sym_str_at b str_off str_size st_name;
    Ret (if bool_decide (name = []) then None
         else Some {| sym_addr := st_value; sym_bytes := st_size; sym_name := name |})
  else Ret None.

(** [while p + 24 <= sym_off + sym_size] *)
Fixpoint walk_syms {E} (fuel : nat) (b : bytes) (str_off str_size p stop : Z) : outcome E (list Sym) :=
  match fuel with
  | O => Panic
  | S fuel =>
      if stop <? p + 24 then Ret []
      else
        o ← read_sym b str_off str_size p;
        l ← walk_syms fuel b str_off str_size (p + 24) stop;
        Ret (match o with Some s => s :: l | None => l end)
  end.

(** [dedup_by_key(|s| s.addr)]: of neighbours at one address the first stays. *)
Fixpoint dedup_from (last : Z) (l : list Sym) : list Sym :=
  match l with
  | [] => []
  | s :: l => if sym_addr s =? last then dedup_from last l else s :: dedup_from (sym_addr s) l
  end.
Definition dedup (l : list Sym) : list Sym :=
  match l with [] => [] | s :: l => s :: dedup_from (sym_addr s) l end.

Definition parse_elf64 (b : bytes) (dynsym_only : bool) : outcome io_error SymTab :=
  ok ← elf64_le b;
  if negb ok then Throw (InvalidData "not an ELF-64 LE file")
  else
    e_type ← le_at 2 b 16;
    let pie := e_type =? 3 in
    h ← read_shdrs b;
    table_end ← add64 (e_shoff h) (e_shnum h * e_shentsize h);
    if (len b <? table_end) || (e_shnum h <=? e_shstrndx h)
    then Throw (InvalidData "ELF section table out of bounds")
    else
      shstr ← read_sh b (e_shoff h) (e_shentsize h) (e_shstrndx h);
      shstr_end ← add64 (sh_offset shstr) (sh_size shstr);
      if len b <? shstr_end then Throw (InvalidData "ELF .shstrtab out of bounds")
      else
        let n := Z.to_nat (e_shnum h) in
        a ← (if dynsym_only then Ret None
             else find_table n b h (sh_offset shstr) 2 (str ".symtab") 0);
        let found := default (0, 0, 0) a in
        found ← (if found.1.2 =? 0
                 then d ← find_table n b h (sh_offset shstr) 11 (str ".dynsym") 0; Ret (default found d)
                 else Ret found);
        let '(sym_off, sym_size, sym_link) := found in
        if sym_size =? 0 then Ret {| syms := []; is_pie := pie |}
        else
          sym_end ← add64 sym_off sym_size;
          if len b <? sym_end then Throw (InvalidData "ELF .symtab/.dynsym out of bounds")
          else if e_shnum h <=? sym_link then Throw (InvalidData "ELF .symtab sh_link out of bounds")
          else
            strs ← read_sh b (e_shoff h) (e_shentsize h) sym_link;
            str_end ← add64 (sh_offset strs) (sh_size strs);
            if len b <? str_end then Throw (InvalidData "ELF symbol .strtab out of bounds")
            else
              l ← walk_syms (S (Z.to_nat sym_size)) b (sh_offset strs) (sh_size strs) sym_off sym_end;
              Ret {| syms := dedup (sort_by_key sym_addr l); is_pie := pie |}.

Definition from_bytes (b : bytes) : outcome io_error SymTab := parse_elf64 b false.
Definition from_bytes_dynsym (b : bytes) : outcome io_error SymTab := parse_elf64 b true.

(** ** Lookups

    [slice::binary_search_by_key], as the standard library does it: the window
    [base, base + size) is halved until one element is left. *)
Fixpoint search_window (fuel : nat) (l : list Sym) (pc : Z) (base size : nat) : nat :=
  match fuel with
  | O => base
  | S fuel =>
      if Nat.leb size 1 then base
      else
        let half := Nat.div size 2 in
        let mid := (base + half)%nat in
        let above := match l !! mid with Some s => pc <? sym_addr s | None => true end in
        search_window fuel l pc (if above then base else mid) (size - half)
  end.

Definition binary_search (l : list Sym) (pc : Z) : result nat nat :=
  match l with
  | [] => Err O
  | _ =>
      let base := search_window (length l) l pc 0 (length l) in
      match l !! base with
      | None => Err base
      | Some s =>
          if sym_addr s =? pc then Ok base
          else if sym_addr s <? pc then Err (S base) else Err base
      end
  end.

(** A symbol without a size covers 16 KB. *)
Definition sym_cap (s : Sym) : Z := if sym_bytes s =? 0 then 16 * 1024 else sym_bytes s.

Definition sym_covering (s : Sym) (pc : Z) : option (bytes * Z) :=
  let off := pc - sym_addr s in
  if sym_cap s <? off then None else Some (sym_name s, off).

Definition sym_lookup (t : SymTab) (pc : Z) : option (bytes * Z) :=
  if bool_decide (syms t = []) then None
  else
    match binary_search (syms t) pc with
    | Err O => None
    | Ok i | Err (S i) => s ← syms t !! i; sym_covering s pc
    end.

Definition lookup_by_name (t : SymTab) (name : bytes) : option Sym :=
  snd <$> list_find (fun s => sym_name s = name) (syms t).

Definition from_syms_for_test (l : list Sym) (pie : bool) : SymTab :=
  {| syms := sort_by_key sym_addr l; is_pie := pie |}.

(** ** The search for a uprobe's binary

    [resolve_uprobe_target].  The file system is a parameter: which paths are
    files, and the bytes or the error a read gives. *)

Section Resolve.
Context {IoError : Type} (is_file : bytes -> bool) (read_file : bytes -> result IoError bytes).

Inductive UprobeTargetError : Type :=
| BasenameContainsSlash (basename : bytes)
| ReadBinary (path : bytes) (source : IoError)
| ParseElf (path : bytes) (source : io_error)
| NotPie (path : bytes)
| TargetNotFound (basename symbol rootfs tried : bytes).

Definition SLASH : Init.Byte.byte := u8b 47.

(** [Path::join] of a relative path. *)
Definition path_join (root rel : bytes) : bytes :=
  match list.last root with
  | Some c => if bool_decide (c = SLASH) then root ++ rel else root ++ SLASH :: rel
  | None => rel
  end.

Definition candidates (basename : bytes) : list bytes :=
  map (fun dir => str dir ++ basename)
    ["usr/local/sbin/"; "usr/local/bin/"; "usr/sbin/"; "usr/bin/"; "sbin/"; "bin/"; "workspace/"; ""]%string.

(** [tried.join(", ")] *)
Fixpoint join_comma (l : list bytes) : bytes :=
  match l with [] => [] | [x] => x | x :: l => x ++ str ", " ++ join_comma l end.

Definition found_target (rel : bytes) (s : Sym) : UprobeTarget :=
  {| ut_guest_path := SLASH :: rel; ut_file_offset := sym_addr s; ut_sym_size := sym_bytes s;
     ut_basename := []; ut_symbol := []; ut_sdt_provider := [] |}.

(** [for rel in &candidates] *)
Fixpoint try_candidates (rootfs basename symbol : bytes) (tried : list bytes) (l : list bytes)
  : outcome UprobeTargetError UprobeTarget :=
  match l with
  | [] => Throw (TargetNotFound basename symbol rootfs (join_comma tried))
  | rel :: l =>
      let host_path := path_join rootfs rel in
      if negb (is_file host_path) then try_candidates rootfs basename symbol (tried ++ [rel]) l
      else
        match read_file host_path with
        | Err source => Throw (ReadBinary host_path source)
        | Ok b =>
            r ← catch (from_bytes b);
            match r with
            | Err source => Throw (ParseElf host_path source)
            | Ok symtab =>
                match lookup_by_name symtab symbol with
                | None =>
                    try_candidates rootfs basename symbol
                      (tried ++ [rel ++ str " (no symbol " ++ symbol ++ str ")"]) l
                | Some s =>
                    if negb (is_pie symtab) then Throw (NotPie rel) else Ret (found_target rel s)
                end
            end
        end
  end.

Definition resolve_uprobe_target (rootfs basename symbol : bytes)
  : outcome UprobeTargetError UprobeTarget :=
  if existsb (fun c => byte.unsigned c =? 47) basename then Throw (BasenameContainsSlash basename)
  else try_candidates rootfs basename symbol [] (candidates basename).

(** ** The search takes the first binary with the symbol *)

(** A candidate that is passed over: no file, or one without the symbol. *)
Definition passed (rootfs symbol rel : bytes) : Prop :=
  is_file (path_join rootfs rel) = false \/
  exists b t, read_file (path_join rootfs rel) = Ok b /\ from_bytes b = Ret t /\ lookup_by_name t symbol = None.

(** What the search of a list of candidates chose. *)
Definition chosen (rootfs symbol : bytes) (l : list bytes) (t : UprobeTarget) : Prop :=
  exists l1 rel l2 b st s, l = l1 ++ rel :: l2 /\ Forall (passed rootfs symbol) l1
    /\ is_file (path_join rootfs rel) = true /\ read_file (path_join rootfs rel) = Ok b
    /\ from_bytes b = Ret st /\ is_pie st = true /\ lookup_by_name st symbol = Some s
    /\ t = found_target rel s.

Lemma chosen_skip rootfs symbol rel l t :
  passed rootfs symbol rel -> chosen rootfs symbol l t -> chosen rootfs symbol (rel :: l) t.
Proof.
  intros Hp (l1 & rel' & l2 & b & st & s & -> & Hl & Hr). exists (rel :: l1), rel', l2, b, st, s.
  split; [done|]. split; [by constructor|done].
Qed.

Lemma try_candidates_first rootfs basename symbol l : forall tried t,
  try_candidates rootfs basename symbol tried l = Ret t -> chosen rootfs symbol l t.
Proof.
  induction l as [|rel l IH]; intros tried t; cbn [try_candidates]; [done|].
  destruct (is_file (path_join rootfs rel)) eqn:F; cbn [negb].
  2:{ intros H%IH. apply chosen_skip; [by left|done]. }
  destruct (read_file (path_join rootfs rel)) as [b|e] eqn:R; [|done].
  destruct (from_bytes b) as [st|e|] eqn:P; cbn [catch]; [|done..]. rewrite bind_Ret.
  destruct (lookup_by_name st symbol) as [s|] eqn:L.
  2:{ intros H%IH. apply chosen_skip; [right; by exists b, st|done]. }
  destruct (is_pie st) eqn:Pie; cbn [negb]; [|done]. intros [= <-].
  by exists [], rel, l, b, st, s.
Qed.

(** What is resolved is the first of the candidate paths that is a file with
    the symbol, and it is position-independent. *)
Lemma resolve_first rootfs basename symbol t :
  resolve_uprobe_target rootfs basename symbol = Ret t -> chosen rootfs symbol (candidates basename) t.
Proof. unfold resolve_uprobe_target. destruct (existsb _ _); [done|]. apply try_candidates_first. Qed.
End Resolve.
