(* ===== verification/ElfSymsOk.v ===== *)
(** What the symbol reader (ElfSyms.v) promises: its table is in strict order
    of addresses, with the first function of the file at each; a lookup by
    address gives the last symbol at or below it. *)

From Stdlib Require Import Strings.String.
From stdpp Require Import list.
From S2P Require Import Ordered.
From S2P Require Import Utf8.
From S2P Require Import ElfFile.
From S2P Require Import ElfSyms.
From S2P Require Import Prelude.

Local Open Scope Z_scope.
Local Open Scope list_scope.

Definition ascending (l : list Sym) : Prop := StronglySorted (fun x y => sym_addr x <= sym_addr y) l.
Definition strictly (l : list Sym) : Prop := StronglySorted (fun x y => sym_addr x < sym_addr y) l.

Lemma strictly_ascending l : strictly l -> ascending l.
Proof.
  induction 1 as [|s l Hl IH Hs]; constructor; [done|].
  eapply list.Forall_impl; [exact Hs|]. cbn. lia.
Qed.

Lemma sort_ascending l : ascending (sort_by_key sym_addr l).
Proof.
  pose proof (sort_by_key_sorted sym_addr l) as H. unfold ascending, sorted_by in *.
  induction H as [|s k Hk IH Hs]; constructor; [done|].
  eapply list.Forall_impl; [exact Hs|]. intros x Hx. unfold key_le, cmp, ordered_Z in Hx. cbn in Hx.
  by apply Z.compare_le_iff.
Qed.

Lemma ascending_lookup l i j s t :
  ascending l -> l !! i = Some s -> l !! j = Some t -> (i <= j)%nat -> sym_addr s <= sym_addr t.
Proof.
  intros H. revert i j. induction H as [|x l Hl IH Hx]; intros i j Hi Hj Hij; [done|].
  destruct i as [|i], j as [|j]; cbn in *; [|..|lia|].
  - simplify_eq. done.
  - injection Hi as <-. rewrite list.Forall_forall in Hx. apply Hx. by eapply list_elem_of_lookup_2.
  - eapply IH; [done..|lia].
Qed.

(** ** Lookup by address *)

(** The reference: the last symbol at or below an address. *)
Definition last_below (l : list Sym) (pc : Z) : option Sym :=
  list.last (filter (fun s => sym_addr s <= pc) l).

Lemma filter_below l k pc :
  (forall i s, l !! i = Some s -> (i < k)%nat -> sym_addr s <= pc) ->
  (forall i s, l !! i = Some s -> (k <= i)%nat -> pc < sym_addr s) ->
  filter (fun s => sym_addr s <= pc) l = take k l.
Proof.
  revert k. induction l as [|x l IH]; intros k H1 H2; [by destruct k|].
  destruct k as [|k].
  - rewrite filter_cons_False by (specialize (H2 O x eq_refl); lia). rewrite (IH O); [done|..].
    + lia.
    + intros i s Hi _. apply (H2 (S i)); [done|lia].
  - rewrite filter_cons_True by (apply (H1 O); [done|lia]). cbn [take]. f_equal. apply IH.
    + intros i s Hi Hk. apply (H1 (S i)); [done|lia].
    + intros i s Hi Hk. apply (H2 (S i)); [done|lia].
Qed.

(** What the window's halving keeps. *)
Record window (l : list Sym) (pc : Z) (base size : nat) : Prop := {
  win_in : (base + size <= length l)%nat;
  win_one : (1 <= size)%nat;
  win_below : base <> O -> forall s, l !! base = Some s -> sym_addr s <= pc;
  win_above : forall i s, (base + size <= i)%nat -> l !! i = Some s -> pc < sym_addr s
}.

Lemma search_window_ok l pc : ascending l -> forall fuel base size,
  (size <= fuel)%nat -> window l pc base size -> window l pc (search_window fuel l pc base size) 1.
Proof.
  intros Hl. induction fuel as [|fuel IH]; intros base size Hf [W1 W2 W3 W4]; [lia|].
  cbn [search_window]. destruct (Nat.leb_spec size 1) as [H1|H1].
  { assert (size = 1%nat) as -> by lia. by split. }
  pose proof (Nat.div_mod_eq size 2) as Hd. pose proof (Nat.mod_upper_bound size 2 ltac:(lia)) as Hm.
  set (half := Nat.div size 2) in *. clearbody half. apply IH; [lia|].
  destruct (lookup_lt_is_Some_2 l (base + half)%nat) as [s Hs]; [lia|]. rewrite Hs.
  destruct (Z.ltb_spec pc (sym_addr s)) as [Hlt|Hge]; split; try lia.
  - done.
  - intros i t Hi Ht. eapply Z.lt_le_trans; [exact Hlt|]. apply (ascending_lookup l (base + half) i s t); [done..|lia].
  - intros _ t Ht. by simplify_eq.
  - intros i t Hi Ht. by apply (W4 i t); [lia|].
Qed.

(** The binary search finds the place: the last symbol at or below, or before
    the first. *)
Lemma binary_search_place l pc :
  ascending l ->
  last_below l pc = match binary_search l pc with Err O => None | Ok i | Err (S i) => l !! i end.
Proof.
  intros Hl. destruct l as [|x l]; [done|]. unfold binary_search, last_below.
  set (base := search_window _ _ _ _ _).
  assert (W : window (x :: l) pc base 1).
  { apply search_window_ok; [done|done|]. split; [done|cbn [length]; lia|done|].
    intros i s Hi Hs. apply lookup_lt_Some in Hs. lia. }
  clearbody base. destruct W as [W1 _ W3 W4].
  destruct (lookup_lt_is_Some_2 (x :: l) base) as [s Hs]; [lia|]. rewrite Hs.
  destruct (decide (sym_addr s <= pc)) as [Hle|Hgt].
  - rewrite (filter_below _ (S base)).
    + rewrite (take_S_r _ _ s Hs), last_snoc.
      destruct (Z.eqb_spec (sym_addr s) pc); [by rewrite Hs|].
      destruct (Z.ltb_spec (sym_addr s) pc); [by rewrite Hs|lia].
    + intros i t Hi Hlt. eapply Z.le_trans; [|exact Hle]. eapply (ascending_lookup _ i base); [done..|lia].
    + intros i t Hi Hge. apply (W4 i); [lia|done].
  - assert (base = O) as ->.
    { destruct base as [|base]; [done|]. destruct Hgt. by apply W3. }
    rewrite (filter_below _ O); [|lia|].
    + destruct (Z.eqb_spec (sym_addr s) pc); [lia|]. by destruct (Z.ltb_spec (sym_addr s) pc); [lia|].
    + intros i t Hi _. pose proof (ascending_lookup _ O i s t Hl Hs Hi ltac:(lia)). lia.
Qed.

(** ** The table *)

Lemma dedup_from_strict : forall l a, ascending l -> Forall (fun s => a <= sym_addr s) l ->
  strictly (dedup_from a l) /\ Forall (fun s => a < sym_addr s) (dedup_from a l).
Proof.
  induction l as [|s l IH]; intros a Hl Ha; [by split; constructor|].
  inversion Hl as [|? ? Hl' Hs]; subst. apply list.Forall_cons in Ha as [Ha Ha']. cbn [dedup_from].
  destruct (Z.eqb_spec (sym_addr s) a) as [E|Hne]; [by apply IH|].
  destruct (IH (sym_addr s) Hl' Hs) as [I1 I2]. split; [by constructor|]. constructor; [lia|].
  eapply list.Forall_impl; [exact I2|]. cbn. lia.
Qed.

Lemma dedup_strict l : ascending l -> strictly (dedup l).
Proof.
  destruct l as [|s l]; [constructor|]. intros Hl. inversion Hl as [|? ? Hl' Hs]; subst. cbn [dedup].
  destruct (dedup_from_strict l (sym_addr s) Hl' Hs) as [? ?]. by constructor.
Qed.

(** The first symbol at an address. *)
Definition first_at (a : Z) (l : list Sym) : option Sym := List.find (fun s => sym_addr s =? a) l.

Lemma first_at_dedup_from a : forall l b, ascending l -> a <> b -> first_at a (dedup_from b l) = first_at a l.
Proof.
  induction l as [|s l IH]; intros b Hl Hab; [done|]. inversion Hl as [|? ? Hl' Hs]; subst.
  cbn [dedup_from]. unfold first_at in *. cbn [List.find].
  destruct (Z.eqb_spec (sym_addr s) b) as [E|Hne].
  - destruct (Z.eqb_spec (sym_addr s) a); [congruence|]. by apply IH.
  - cbn [List.find]. destruct (Z.eqb_spec (sym_addr s) a); [done|]. apply IH; [done|congruence].
Qed.

Lemma first_at_dedup a l : ascending l -> first_at a (dedup l) = first_at a l.
Proof.
  destruct l as [|s l]; [done|]. intros Hl. inversion Hl as [|? ? Hl' Hs]; subst.
  cbn [dedup]. unfold first_at. cbn [List.find]. destruct (Z.eqb_spec (sym_addr s) a); [done|].
  apply first_at_dedup_from; [done|congruence].
Qed.

Lemma first_at_insert a s l :
  first_at a (insert_by sym_addr s l) = if sym_addr s =? a then Some s else first_at a l.
Proof.
  unfold first_at in *. induction l as [|t l IH]; [done|]. cbn [insert_by]. unfold cmp, ordered_Z.
  destruct (Z.compare_spec (sym_addr t) (sym_addr s)) as [E|E|E]; [done| |done].
  cbn [List.find]. destruct (Z.eqb_spec (sym_addr t) a) as [Ha|Ha]; [|exact IH].
  destruct (Z.eqb_spec (sym_addr s) a); [lia|done].
Qed.

(** The sort is stable: the first at an address in the file comes first. *)
Lemma first_at_sort a l : first_at a (sort_by_key sym_addr l) = first_at a l.
Proof.
  induction l as [|s l IH]; [done|]. unfold sort_by_key in *. cbn [foldr].
  rewrite first_at_insert, IH. done.
Qed.

Definition well_formed (s : Sym) : Prop := sym_addr s <> 0 /\ sym_name s <> [].

Lemma walk_syms_wf {E} b so ss stop fuel : forall p l,
  walk_syms (E:=E) fuel b so ss p stop = Ret l -> Forall well_formed l.
Proof.
  induction fuel as [|fuel IH]; intros p l; cbn [walk_syms]; [done|].
  destruct (_ <? _); [intros [= <-]; constructor|]. intros H. split_ret H. injection H as <-.
  apply IH in R0. destruct a as [s|]; [|done]. constructor; [|done]. unfold read_sym in R.
  split_ret R. destruct (is_function a1 && negb (a2 =? 0)) eqn:C; [|done]. split_ret R.
  case_bool_decide; [done|]. injection R as <-. apply andb_true_iff in C as [_ C%negb_true_iff%Z.eqb_neq].
  by split.
Qed.

Lemma forall_insert (P : Sym -> Prop) l : Forall P l -> Forall P (sort_by_key sym_addr l).
Proof. intros H. by rewrite sort_by_key_perm. Qed.

Lemma forall_dedup (P : Sym -> Prop) l : Forall P l -> Forall P (dedup l).
Proof.
  assert (D : forall l a, Forall P l -> Forall P (dedup_from a l)).
  { induction l0 as [|s k IH]; intros a H; [done|]. apply list.Forall_cons in H as [H1 H2].
    cbn [dedup_from]. destruct (_ =? a); [by apply IH|]. constructor; [done|by apply IH]. }
  destruct 1; constructor; [done|by apply D].
Qed.

(** What a parsed table is: the symbols the walk of the file's table pushed,
    one for each address, in order. *)
Definition table_of (l : list Sym) (t : SymTab) : Prop :=
  strictly (syms t) /\ Forall well_formed (syms t)
  /\ (forall a, first_at a (syms t) = first_at a l)
  /\ (forall pc, sym_lookup t pc = (s ← last_below (syms t) pc; sym_covering s pc)).

Lemma lookup_last_below t pc :
  ascending (syms t) -> sym_lookup t pc = (s ← last_below (syms t) pc; sym_covering s pc).
Proof.
  intros H. unfold sym_lookup. case_bool_decide as E; [by rewrite E|].
  rewrite binary_search_place by done. destruct (binary_search (syms t) pc) as [i|[|i]]; done.
Qed.

Lemma table_of_walk pie l :
  Forall well_formed l -> table_of l {| syms := dedup (sort_by_key sym_addr l); is_pie := pie |}.
Proof.
  intros Hl. pose proof (sort_ascending l) as Ha. pose proof (dedup_strict _ Ha) as Hd.
  split; [exact Hd|]. split; [by apply forall_dedup, forall_insert|]. split.
  - intros a. cbn [syms]. by rewrite first_at_dedup, first_at_sort.
  - intros pc. apply lookup_last_below. by apply strictly_ascending.
Qed.

(** ** A file's symbols

    An entry of the table as the ELF format lays it out, and what the reader
    pushes of it: a function, at an address, with a name. *)
Record elf_sym : Type := {
  st_name : Z;
  st_info : Z;
  st_other : Z;
  st_shndx : Z;
  st_value : Z;
  st_size : Z
}.

Definition enc_sym (s : elf_sym) : bytes :=
  to_le 4 (st_name s) ++ [u8b (st_info s); u8b (st_other s)] ++ to_le 2 (st_shndx s)
  ++ to_le 8 (st_value s) ++ to_le 8 (st_size s).

Record elf_sym_ok (s : elf_sym) : Prop := {
  ok_name : in_u 32 (st_name s);
  ok_info : in_u 8 (st_info s);
  ok_value : in_u 64 (st_value s);
  ok_size : in_u 64 (st_size s)
}.

(** The name at an offset of a string table: up to its NUL, or its end. *)
Definition str_from (tab : bytes) (off : Z) : bytes :=
  let l := drop (Z.to_nat off) tab in
  from_utf8_lossy (take (default (length l) (nul_position l)) l).

Definition pushed (tab : bytes) (s : elf_sym) : option Sym :=
  if is_function (st_info s) && negb (st_value s =? 0) && negb (bool_decide (str_from tab (st_name s) = []))
  then Some {| sym_addr := st_value s; sym_bytes := st_size s; sym_name := str_from tab (st_name s) |}
  else None.

Lemma slice_within {E} (pre tab post : bytes) off :
  0 <= off <= len tab ->
  slice (E:=E) (pre ++ tab ++ post) (len pre + off) (len pre + len tab) = Ret (drop (Z.to_nat off) tab).
Proof.
  intros H. rewrite <- (take_drop (Z.to_nat off) tab) at 1. rewrite <- app_assoc, app_assoc.
  apply slice_mid; len_lia.
Qed.

Lemma sym_str_at_tab {E} b pre tab post off :
  b = pre ++ tab ++ post -> 0 <= off -> sym_str_at (E:=E) b (len pre) (len tab) off = Ret (str_from tab off).
Proof.
  intros -> Ho. unfold sym_str_at, str_from, cstr_in. destruct (Z.leb_spec (len pre + len tab) (len pre + off)).
  - rewrite drop_ge by (unfold len in *; lia). done.
  - rewrite slice_within by lia. by rewrite bind_Ret.
Qed.

Lemma len_enc_sym s : len (enc_sym s) = 24.
Proof. unfold enc_sym. len_lia. Qed.

Lemma read_sym_enc {E} b pre tab post p s rest :
  b = pre ++ tab ++ post -> suffix_at b p (enc_sym s ++ rest) -> elf_sym_ok s ->
  read_sym (E:=E) b (len pre) (len tab) p = Ret (pushed tab s).
Proof.
  intros Hb H [Hn Hi Hv Hs]. unfold read_sym. unfold enc_sym in H. rewrite <- !app_assoc in H.
  rewrite (suffix_at_le _ _ _ _ _ H), bind_Ret by done. adv H (p + 4). cbn [app] in H.
  rewrite (suffix_at_byte _ _ _ _ H), bind_Ret by done.
  apply (suffix_at_adv _ _ [u8b (st_info s); u8b (st_other s)] _ (p + 6)) in H; [|len_lia]. adv H (p + 8).
  rewrite (suffix_at_le _ _ _ _ _ H), bind_Ret by done. adv H (p + 16).
  rewrite (suffix_at_le _ _ _ _ _ H), bind_Ret by done. unfold pushed.
  destruct (is_function (st_info s) && negb (st_value s =? 0)); [|done]. cbn [andb].
  rewrite (sym_str_at_tab _ _ _ _ _ Hb), bind_Ret by apply Hn. by case_bool_decide.
Qed.

(** Walking the encoded entries pushes exactly the functions among them, in
    their order. *)
Lemma walk_syms_enc {E} b pre tab post l : b = pre ++ tab ++ post -> forall fuel p rest stop,
  suffix_at b p (concat (map enc_sym l) ++ rest) -> stop = p + 24 * len l ->
  Forall elf_sym_ok l -> (length l < fuel)%nat ->
  walk_syms (E:=E) fuel b (len pre) (len tab) p stop = Ret (omap (pushed tab) l).
Proof.
  intros Hb. induction l as [|s l IH]; intros fuel p rest stop H -> Hl Hf;
    (destruct fuel as [|fuel]; [cbn [length] in Hf; lia|]); cbn [walk_syms].
  { rewrite (@len_nil elf_sym). by destruct (Z.ltb_spec (p + 24 * 0) (p + 24)); [|lia]. }
  apply list.Forall_cons in Hl as [Hs Hl]. cbn [map concat] in H. rewrite <- app_assoc in H.
  rewrite len_cons. pose proof (len_nonneg l). destruct (Z.ltb_spec (p + 24 * (1 + len l)) (p + 24)); [lia|].
  rewrite (read_sym_enc _ _ _ _ _ _ _ Hb H Hs), bind_Ret.
  eapply (suffix_at_adv _ _ _ _ (p + 24)) in H; [|by rewrite len_enc_sym].
  rewrite (IH fuel (p + 24) rest) by (done || lia || (cbn [length] in Hf; lia)). rewrite bind_Ret.
  cbn [omap list_omap]. by destruct (pushed tab s).
Qed.

(** A file whose section headers give a [.symtab] of the entries [l] and its
    string table [tab]. *)
Record elf_with_symtab (b : bytes) (l : list elf_sym) (tab : bytes) (pie : bool) (h : Shdrs)
    (shstr st : Sh) (sym_off link : Z) : Prop := {
  ew_size : slice_len_ok b;
  ew_ident : elf64_le (E:=io_error) b = Ret true;
  ew_type : exists e, le_at (E:=io_error) 2 b 16 = Ret e /\ pie = (e =? 3);
  ew_shdrs : read_shdrs (E:=io_error) b = Ret h;
  ew_table : e_shoff h + e_shnum h * e_shentsize h <= len b /\ e_shstrndx h < e_shnum h;
  ew_shstr : read_sh (E:=io_error) b (e_shoff h) (e_shentsize h) (e_shstrndx h) = Ret shstr;
  ew_shstr_in : sh_offset shstr + sh_size shstr <= len b;
  ew_symtab : find_table (E:=io_error) (Z.to_nat (e_shnum h)) b h (sh_offset shstr) 2 (Schema.str ".symtab") 0
              = Ret (Some (sym_off, 24 * len l, link));
  ew_link : link < e_shnum h;
  ew_strtab : read_sh (E:=io_error) b (e_shoff h) (e_shentsize h) link = Ret st;
  ew_strs : exists pre post, b = pre ++ tab ++ post /\ sh_offset st = len pre /\ sh_size st = len tab;
  ew_syms : exists rest, suffix_at b sym_off (concat (map enc_sym l) ++ rest);
  ew_ok : Forall elf_sym_ok l
}.

Lemma add64_ok {E} x y : x + y <= U64_MAX -> add64 (E:=E) x y = Ret (x + y).
Proof. intros H. unfold add64, checked_add64. destruct (Z.leb_spec (x + y) U64_MAX); [done|lia]. Qed.

Lemma len_enc_syms l : len (concat (map enc_sym l)) = 24 * len l.
Proof.
  induction l as [|s l IH]; [done|]. cbn [map concat]. rewrite len_app, IH, len_enc_sym, len_cons. lia.
Qed.

Lemma parse_table b l tab pie h shstr st sym_off link :
  elf_with_symtab b l tab pie h shstr st sym_off link -> l <> [] ->
  parse_elf64 b false
  = Ret {| syms := dedup (sort_by_key sym_addr (omap (pushed tab) l)); is_pie := pie |}.
Proof.
  intros [Hsize Hid (e & Ht & ->) Hh [Ht1 Ht2] Hs Hs' Hsym Hl Hst (pre & post & Hb & Ho & Hn) [rest Hr] Hok] Hne.
  assert (Hmax : forall x, x <= len b -> x <= U64_MAX).
  { unfold slice_len_ok, U64_MAX in *. change (2 ^ 63) with 9223372036854775808 in Hsize. lia. }
  assert (Hpos : 0 < len l) by (destruct l; [done|]; rewrite len_cons; pose proof (len_nonneg l); lia).
  pose proof (suffix_at_len _ _ _ Hr) as [H0 Hlen]. rewrite len_app, len_enc_syms in Hlen.
  pose proof (len_nonneg rest).
  unfold parse_elf64. rewrite Hid, bind_Ret. cbn [negb]. rewrite Ht, bind_Ret. cbv zeta.
  rewrite Hh, bind_Ret, add64_ok, bind_Ret by by apply Hmax.
  destruct (Z.ltb_spec (len b) (e_shoff h + e_shnum h * e_shentsize h)); [lia|].
  destruct (Z.leb_spec (e_shnum h) (e_shstrndx h)); [lia|]. cbn [orb].
  rewrite Hs, bind_Ret, add64_ok, bind_Ret by by apply Hmax.
  destruct (Z.ltb_spec (len b) (sh_offset shstr + sh_size shstr)); [lia|].
  rewrite Hsym, bind_Ret. change (default (0, 0, 0) (Some (sym_off, 24 * len l, link))) with (sym_off, 24 * len l, link).
  cbn [fst snd].
  destruct (Z.eqb_spec (24 * len l) 0); [lia|]. rewrite bind_Ret.
  destruct (Z.eqb_spec (24 * len l) 0); [lia|]. rewrite add64_ok, bind_Ret by (apply Hmax; lia).
  destruct (Z.ltb_spec (len b) (sym_off + 24 * len l)); [lia|].
  destruct (Z.leb_spec (e_shnum h) link); [lia|].
  assert (Hb' : len pre + len tab <= len b) by (rewrite Hb; len_lia).
  rewrite Hst, bind_Ret, Ho, Hn, add64_ok, bind_Ret by by apply Hmax.
  destruct (Z.ltb_spec (len b) (len pre + len tab)); [lia|].
  rewrite (walk_syms_enc b pre tab post l Hb _ _ rest); [by rewrite bind_Ret|done..|].
  - unfold len. lia.
Qed.

Lemma pushed_wf tab l : Forall well_formed (omap (pushed tab) l).
Proof.
  induction l as [|s l IH]; [constructor|]. cbn [omap list_omap]. unfold pushed at 1.
  destruct (is_function _ && _) eqn:C; [|exact IH]. cbn [andb]. case_bool_decide; [exact IH|]. cbn [negb].
  constructor; [|exact IH]. apply andb_true_iff in C as [_ C%negb_true_iff%Z.eqb_neq]. by split.
Qed.

(** C25: Reading a file with a [.symtab] gives the table of the functions in it:
    in strict order of addresses, at each address the first of the file; a
    lookup by address answers for the last symbol at or below it, when it is
    within its size. *)
Theorem symbols_exact b l tab pie h shstr st sym_off link :
  elf_with_symtab b l tab pie h shstr st sym_off link -> l <> [] ->
  exists t, from_bytes b = Ret t /\ ElfSyms.is_pie t = pie /\ table_of (omap (pushed tab) l) t.
Proof.
  intros H Hne. eexists. split; [by eapply parse_table|]. split; [done|]. apply table_of_walk, pushed_wf.
Qed.
