(* ===== verification/ElfNotes.v ===== *)
(** USDT notes (host/bifrost-support, src/elf_syms.rs, [parse_stapsdt]): the
    [.note.stapsdt] section of an ELF file, one record for each probe site,
    its addresses translated to file offsets through the load segments. *)

From Stdlib Require Import Strings.String.
From stdpp Require Import list.
From S2P Require Import Utf8.
From S2P Require Import Schema.
From S2P Require Import ElfFile.
From S2P Require Import Prelude.

Local Open Scope Z_scope.
Local Open Scope list_scope.

Record StapsdtNote : Type := {
  provider : bytes;
  note_name : bytes;
  pc_file_offset : Z;
  semaphore_file_offset : Z;
  note_args : bytes
}.

(** [(p_vaddr, p_offset, p_memsz)] *)
Definition load : Type := Z * Z * Z.

(** [for i in 0..phnum], from [i] on with [n] headers left. *)
Fixpoint read_loads {E} (n : nat) (b : bytes) (phoff phentsize i : Z) : outcome E (list load) :=
  match n with
  | O => Ret []
  | S n =>
      let p := phoff + i * phentsize in
      p_type ← le_at 4 b p;
      if negb (p_type =? 1) then read_loads n b phoff phentsize (i + 1)
      else
        p_offset ← le_at 8 b (p + 8);
        p_vaddr ← le_at 8 b (p + 16);
        p_memsz ← le_at 8 b (p + 40);
        l ← read_loads n b phoff phentsize (i + 1);
        Ret ((p_vaddr, p_offset, p_memsz) :: l)
  end.

Fixpoint translate {E} (loads : list load) (vaddr : Z) : outcome E (option Z) :=
  match loads with
  | [] => Ret None
  | (p_vaddr, p_offset, p_memsz) :: loads =>
      if (p_vaddr <=? vaddr) && (vaddr <? saturating_add64 p_vaddr p_memsz)
      then o ← add64 (vaddr - p_vaddr) p_offset; Ret (Some o)
      else translate loads vaddr
  end.

(** Address 0 stands for "no semaphore". *)
Definition vaddr_to_file_offset {E} (loads : list load) (vaddr : Z) : outcome E (option Z) :=
  if vaddr =? 0 then Ret (Some 0) else translate loads vaddr.

(** [(sh_name, sh_type, sh_offset, sh_size)] *)
Definition read_sh4 {E} (b : bytes) (shoff shentsize idx : Z) : outcome E (Z * Z * Z * Z) :=
  let p := shoff + idx * shentsize in
  name ← le_at 4 b p;
  stype ← le_at 4 b (p + 4);
  off ← le_at 8 b (p + 24);
  size ← le_at 8 b (p + 32);
  Ret (name, stype, off, size).

(** A section's name, inside the name section. *)
Definition sh_name_at {E} (b : bytes) (shstr_off shstr_size off : Z) : outcome E bytes :=
  let start := shstr_off + off in
  if shstr_off + shstr_size <=? start then Ret []
  else
    l ← slice b start (shstr_off + shstr_size);
    Ret (default [] (from_utf8 (take (default O (nul_position l)) l))).

(** Offset and size of the first note section of the name. *)
Fixpoint find_notes {E} (n : nat) (b : bytes) (h : Shdrs) (shstr_off shstr_size i : Z)
  : outcome E (Z * Z) :=
  match n with
  | O => Ret (0, 0)
  | S n =>
      sh ← read_sh4 b (e_shoff h) (e_shentsize h) i;
      let '(name_off, stype, off, size) := sh in
      if negb (stype =? 7) then find_notes n b h shstr_off shstr_size (i + 1)
      else
        name ← sh_name_at b shstr_off shstr_size name_off;
        if bool_decide (name = str ".note.stapsdt") then Ret (off, size)
        else find_notes n b h shstr_off shstr_size (i + 1)
  end.

(** [(4 - (n & 3)) & 3] *)
Definition pad4 (n : Z) : Z := Z.land (4 - Z.land n 3) 3.

(** [while end < desc_end && bytes[end] != 0] *)
Fixpoint cstr_end {E} (fuel : nat) (b : bytes) (e desc_end : Z) : outcome E Z :=
  match fuel with
  | O => Panic
  | S fuel =>
      if e <? desc_end then
        c ← byte_at b e;
        if negb (c =? 0) then cstr_end fuel b (e + 1) desc_end else Ret e
      else Ret e
  end.

(** [read_cstr]: the string at [start], and where the next one starts. *)
Definition read_cstr {E} (b : bytes) (start desc_end : Z) : outcome E (bytes * Z) :=
  e ← cstr_end (S (Z.to_nat (desc_end - start))) b start desc_end;
  out ← slice b start e;
  Ret (from_utf8_lossy out, Z.min (e + 1) desc_end).

(** The name of a note is "stapsdt" and its NUL. *)
Definition is_stapsdt {E} (b : bytes) (ntype namesz name_start : Z) : outcome E bool :=
  if (ntype =? 3) && (8 <=? namesz) then
    nm ← slice b name_start (name_start + 7);
    z ← byte_at b (name_start + 7);
    Ret (bool_decide (nm = str "stapsdt") && (z =? 0))
  else Ret false.

(** The note a description gives, if its pc is in a load segment. *)
Definition read_note {E} (b : bytes) (loads : list load) (desc_start desc_end : Z)
  : outcome E (option StapsdtNote) :=
  pc ← le_at 8 b desc_start;
  semaphore ← le_at 8 b (desc_start + 16);
  a ← read_cstr b (desc_start + 24) desc_end;
  c ← read_cstr b a.2 desc_end;
  d ← read_cstr b c.2 desc_end;
  pc_off ← vaddr_to_file_offset loads pc;
  match pc_off with
  | None => Ret None
  | Some pc_off =>
      sema ← vaddr_to_file_offset loads semaphore;
      Ret (Some {| provider := a.1; note_name := c.1; pc_file_offset := pc_off;
                   semaphore_file_offset := default 0 sema; note_args := d.1 |})
  end.

(** [while p + 12 <= end]; positions are in the file and sizes are [u32]s, so
    their sums fit a [usize]. *)
Fixpoint walk_notes {E} (fuel : nat) (b : bytes) (loads : list load) (p stop : Z)
  : outcome E (list StapsdtNote) :=
  match fuel with
  | O => Panic
  | S fuel =>
      if stop <? p + 12 then Ret []
      else
        namesz ← le_at 4 b p;
        descsz ← le_at 4 b (p + 4);
        ntype ← le_at 4 b (p + 8);
        let name_start := p + 12 in
        let name_end := saturating_add64 name_start namesz in
        let desc_start := name_end + pad4 namesz in
        let desc_end := saturating_add64 desc_start descsz in
        let next := desc_end + pad4 descsz in
        if (stop <? next) || (stop <? desc_end) then Ret []
        else
          ok ← is_stapsdt b ntype namesz name_start;
          o ← (if ok && (24 <=? descsz) then read_note b loads desc_start desc_end else Ret None);
          l ← walk_notes fuel b loads next stop;
          Ret (match o with Some n => n :: l | None => l end)
  end.

Definition parse_stapsdt (b : bytes) : outcome io_error (list StapsdtNote) :=
  ok ← elf64_le b;
  if negb ok then Throw (InvalidData "not an ELF-64 LE file")
  else
    phoff ← le_at 8 b 32;
    phentsize ← le_at 2 b 54;
    phnum ← le_at 2 b 56;
    ph_end ← add64 phoff (phnum * phentsize);
    loads ← (if ph_end <=? len b then read_loads (Z.to_nat phnum) b phoff phentsize 0 else Ret []);
    h ← read_shdrs b;
    if (e_shoff h =? 0) || (e_shnum h =? 0) then Ret []
    else
      table_end ← add64 (e_shoff h) (e_shnum h * e_shentsize h);
      if (len b <? table_end) || (e_shnum h <=? e_shstrndx h) then Ret []
      else
        sh ← read_sh4 b (e_shoff h) (e_shentsize h) (e_shstrndx h);
        let '(_, _, shstr_off, shstr_size) := sh in
        shstr_end ← add64 shstr_off shstr_size;
        if len b <? shstr_end then Ret []
        else
          s ← find_notes (Z.to_nat (e_shnum h)) b h shstr_off shstr_size 0;
          if s.2 =? 0 then Ret []
          else
            stop ← add64 s.1 s.2;
            if len b <? stop then Ret []
            else walk_notes (S (Z.to_nat s.2)) b loads s.1 stop.

(** ** The notes of a section, laid out by the format

    A USDT note of [stapsdt], or another note, with what it holds. *)
Inductive note : Type :=
| Stap (pc base semaphore : Z) (prov name args : bytes)
| Other (name : bytes) (ty : Z) (desc : bytes).

Definition nul : bytes := [u8b 0].
Lemma len_nul : len nul = 1.
Proof. done. Qed.
#[export] Hint Rewrite len_nul : len.

Definition pad (n : Z) : bytes := replicate (Z.to_nat (pad4 n)) (u8b 0).

Definition owner (n : note) : bytes := match n with Stap _ _ _ _ _ _ => str "stapsdt" ++ nul | Other nm _ _ => nm end.
Definition note_type (n : note) : Z := match n with Stap _ _ _ _ _ _ => 3 | Other _ ty _ => ty end.
Definition desc (n : note) : bytes :=
  match n with
  | Stap pc base sema prov nm args =>
      to_le 8 pc ++ to_le 8 base ++ to_le 8 sema ++ prov ++ nul ++ nm ++ nul ++ args ++ nul
  | Other _ _ d => d
  end.

Definition enc_note (n : note) : bytes :=
  to_le 4 (len (owner n)) ++ to_le 4 (len (desc n)) ++ to_le 4 (note_type n)
  ++ owner n ++ pad (len (owner n)) ++ desc n ++ pad (len (desc n)).

(** Strings are UTF-8 without a NUL; a note of another owner, type or with
    too short a description is not a [stapsdt] note. *)
Definition plain (s : bytes) : bool := utf8_valid s && forallb (fun x => negb (byte.unsigned x =? 0)) s.

Record note_ok (n : note) : Prop := {
  no_owner : len (owner n) <= U32_MAX;
  no_desc : len (desc n) <= U32_MAX;
  no_type : in_u 32 (note_type n);
  no_body : match n with
            | Stap pc base sema prov nm args =>
                in_u 64 pc /\ in_u 64 sema /\ plain prov = true /\ plain nm = true /\ plain args = true
            | Other nm ty d => ty <> 3 \/ take 8 nm <> str "stapsdt" ++ nul \/ len d < 24
            end
}.

(** Where an address of the program is in the file. *)
Fixpoint file_offset (loads : list load) (v : Z) : option Z :=
  match loads with
  | [] => None
  | (p_vaddr, p_offset, p_memsz) :: loads =>
      if (p_vaddr <=? v) && (v <? p_vaddr + p_memsz) then Some (v - p_vaddr + p_offset)
      else file_offset loads v
  end.
Definition offset_of (loads : list load) (v : Z) : option Z :=
  if v =? 0 then Some 0 else file_offset loads v.

(** Segments that end inside the address space, in memory and in the file. *)
Definition load_ok (l : load) : bool :=
  let '(p_vaddr, p_offset, p_memsz) := l in
  (p_vaddr + p_memsz <=? U64_MAX) && (p_offset + p_memsz <=? U64_MAX).

Definition seen_note (loads : list load) (n : note) : option StapsdtNote :=
  match n with
  | Stap pc _ sema prov nm args =>
      pc_off ← offset_of loads pc;
      Some {| provider := prov; note_name := nm; pc_file_offset := pc_off;
              semaphore_file_offset := default 0 (offset_of loads sema); note_args := args |}
  | Other _ _ _ => None
  end.

Lemma offset_of_ok {E} loads v :
  forallb load_ok loads = true -> vaddr_to_file_offset (E:=E) loads v = Ret (offset_of loads v).
Proof.
  intros H. unfold vaddr_to_file_offset, offset_of. destruct (v =? 0); [done|].
  induction loads as [|[[pv po] pm] l IH]; [done|]. cbn [forallb translate file_offset] in *.
  apply andb_true_iff in H as [[H1 H2]%andb_true_iff H]. zbool. unfold saturating_add64.
  rewrite Z.min_r by lia. destruct (Z.leb_spec pv v), (Z.ltb_spec v (pv + pm)); cbn [andb];
    try by apply IH.
  unfold add64, checked_add64. destruct (Z.leb_spec (v - pv + po) U64_MAX); [done|lia].
Qed.

Lemma pad4_range n : 0 <= pad4 n <= 3.
Proof.
  unfold pad4. generalize (4 - Z.land n 3) as m. intros m.
  pose proof (Z.land_ones m 2 ltac:(lia)) as H. change (Z.ones 2) with 3 in H. rewrite H.
  pose proof (Z.mod_pos_bound m (2 ^ 2)). change (2 ^ 2) with 4 in *. lia.
Qed.

Lemma len_pad n : len (pad n) = pad4 n.
Proof. pose proof (pad4_range n). unfold pad. rewrite len_replicate. lia. Qed.

Lemma cstr_end_at {E} b desc_end s : forall fuel e rest,
  suffix_at b e (s ++ nul ++ rest) -> forallb (fun x => negb (byte.unsigned x =? 0)) s = true ->
  e + len s < desc_end -> (length s < fuel)%nat -> cstr_end (E:=E) fuel b e desc_end = Ret (e + len s).
Proof.
  induction s as [|x s IH]; intros fuel e rest H Hs He Hf; (destruct fuel as [|fuel]; [cbn [length] in Hf; lia|]);
    cbn [cstr_end].
  - rewrite (@len_nil Init.Byte.byte) in *. destruct (Z.ltb_spec e desc_end); [|lia].
    cbn [app] in H. unfold nul in H. cbn [app] in H. rewrite (suffix_at_byte _ _ _ _ H), bind_Ret by done.
    cbn [Z.eqb negb]. by rewrite Z.add_0_r.
  - rewrite len_cons in *. pose proof (len_nonneg s). destruct (Z.ltb_spec e desc_end); [|lia].
    cbn [forallb] in Hs. apply andb_true_iff in Hs as [Hx Hs].
    assert (Hb : byte_at (E:=E) b e = Ret (byte.unsigned x)).
    { apply (suffix_at_byte b e (byte.unsigned x) (s ++ nul ++ rest)); [|apply byte.unsigned_range].
      unfold u8b. by rewrite byte.of_Z_unsigned. }
    rewrite Hb, bind_Ret, Hx. rewrite (IH fuel (e + 1) rest) by (done || lia || (cbn [length] in Hf; lia) ||
      (eapply (suffix_at_adv _ _ [x]); [exact H|done])). f_equal. lia.
Qed.

Lemma lossy_plain s : plain s = true -> from_utf8_lossy s = s.
Proof. intros [H _]%andb_true_iff. by apply lossy_fuel_valid. Qed.

Lemma read_cstr_at {E} b desc_end s e rest :
  suffix_at b e (s ++ nul ++ rest) -> plain s = true -> e + len s < desc_end ->
  read_cstr (E:=E) b e desc_end = Ret (s, e + len s + 1).
Proof.
  intros H Hs He. unfold read_cstr. pose proof (len_nonneg s).
  rewrite (cstr_end_at _ _ s _ _ rest H) by ((apply andb_true_iff in Hs as [_ Hs]; exact Hs) || (unfold len in *; lia)).
  rewrite bind_Ret, (suffix_at_slice _ _ _ _ _ H), bind_Ret by done. rewrite lossy_plain by done.
  f_equal. f_equal. lia.
Qed.

Lemma read_note_at {E} b loads pc base sema prov nm args ds rest :
  suffix_at b ds (desc (Stap pc base sema prov nm args) ++ rest) ->
  forallb load_ok loads = true -> note_ok (Stap pc base sema prov nm args) ->
  read_note (E:=E) b loads ds (ds + len (desc (Stap pc base sema prov nm args)))
  = Ret (seen_note loads (Stap pc base sema prov nm args)).
Proof.
  intros H HL [_ _ _ (Hpc & Hsema & Hp & Hn & Ha)]. cbn [desc] in *.
  pose proof (len_nonneg prov). pose proof (len_nonneg nm). pose proof (len_nonneg args).
  set (de := ds + len _). assert (Hde : de = ds + 24 + len prov + 1 + len nm + 1 + len args + 1)
    by (subst de; len_lia). clearbody de.
  rewrite <- !app_assoc in H. unfold read_note.
  rewrite (suffix_at_le _ _ _ _ _ H), bind_Ret by done. adv H (ds + 8). adv H (ds + 16).
  rewrite (suffix_at_le _ _ _ _ _ H), bind_Ret by done. adv H (ds + 24).
  rewrite (read_cstr_at _ _ _ _ _ H), bind_Ret by (done || lia). cbn [snd].
  adv H (ds + 24 + len prov). adv H (ds + 24 + len prov + 1).
  rewrite (read_cstr_at _ _ _ _ _ H), bind_Ret by (done || lia). cbn [snd].
  adv H (ds + 24 + len prov + 1 + len nm). adv H (ds + 24 + len prov + 1 + len nm + 1).
  rewrite (read_cstr_at _ _ _ _ _ H), bind_Ret by (done || lia). cbn [fst].
  rewrite (offset_of_ok loads pc), bind_Ret by done. cbn [seen_note].
  destruct (offset_of loads pc) as [o|]; [|done]. rewrite offset_of_ok, bind_Ret by done. done.
Qed.

(** Whether a record is a [stapsdt] note, from its name and type. *)
Lemma is_stapsdt_at {E} b n ns rest :
  suffix_at b ns (owner n ++ rest) -> note_ok n ->
  is_stapsdt (E:=E) b (note_type n) (len (owner n)) ns
  = Ret (match n with
         | Stap _ _ _ _ _ _ => true
         | Other nm ty _ => (ty =? 3) && bool_decide (take 8 nm = str "stapsdt" ++ nul)
         end).
Proof.
  intros H [_ _ _ Hb]. unfold is_stapsdt. destruct n as [pc base sema prov nm args|nm ty d]; cbn [owner note_type] in *.
  - change ((3 =? 3) && (8 <=? len (str "stapsdt" ++ nul))) with true. cbv iota.
    rewrite <- app_assoc in H. rewrite (suffix_at_slice _ _ _ _ _ H), bind_Ret by done.
    apply (suffix_at_adv _ _ _ _ (ns + 7)) in H; [|done].
    by rewrite (suffix_at_byte _ _ _ _ H), bind_Ret.
  - destruct (Z.eqb_spec ty 3) as [->|]; [|done]. cbn [andb]. destruct (Z.leb_spec 8 (len nm)) as [H8|H8].
    + rewrite <- (take_drop 8 nm), <- app_assoc in H.
      assert (L8 : len (take 8 nm) = 8) by len_lia.
      rewrite <- (take_drop 7 (take 8 nm)) in H. rewrite <- app_assoc in H.
      rewrite (suffix_at_slice _ _ _ _ (ns + 7) H), bind_Ret by len_lia.
      assert (L7 : len (take 7 (take 8 nm)) = 7) by len_lia. adv H (ns + 7).
      destruct (drop 7 (take 8 nm)) as [|x [|? ?]] eqn:D.
      * apply (f_equal len) in D. len_lia.
      * assert (Hx : byte_at (E:=E) b (ns + 7) = Ret (byte.unsigned x)).
        { eapply suffix_at_byte; [|apply byte.unsigned_range]. unfold u8b. rewrite byte.of_Z_unsigned.
          exact H. }
        rewrite Hx, bind_Ret. f_equal.
        assert (E8 : take 8 nm = take 7 (take 8 nm) ++ [x]) by (rewrite <- D; symmetry; apply take_drop).
        apply Bool.eq_true_iff_eq. rewrite andb_true_iff, !bool_decide_eq_true, Z.eqb_eq.
        split.
        -- intros [E7 Hz]. rewrite E8, E7. do 2 f_equal. apply byte.unsigned_inj. by rewrite Hz.
        -- rewrite E8 at 1. intros E9. apply app_inj_tail in E9 as [-> ->]. done.
      * apply (f_equal len) in D. rewrite !len_cons in D. pose proof (len_nonneg l). len_lia.
    + rewrite bool_decide_false; [done|]. intros E8. apply (f_equal len) in E8.
      change (len (str "stapsdt" ++ nul)) with 8 in E8. len_lia.
Qed.

Lemma len_enc_note n : len (enc_note n) = 12 + len (owner n) + pad4 (len (owner n)) + len (desc n) + pad4 (len (desc n)).
Proof. unfold enc_note. rewrite !len_app, !len_to_le, !len_pad. lia. Qed.

Lemma note_seen {E} b loads n ds ok rest :
  suffix_at b ds (desc n ++ rest) -> forallb load_ok loads = true -> note_ok n ->
  (match n with
   | Stap _ _ _ _ _ _ => ok = true
   | Other nm ty _ => ok = (ty =? 3) && bool_decide (take 8 nm = str "stapsdt" ++ nul)
   end) ->
  (if ok && (24 <=? len (desc n)) then read_note (E:=E) b loads ds (ds + len (desc n)) else Ret None)
  = Ret (seen_note loads n).
Proof.
  intros H HL Hn. destruct n as [pc base sema prov nm args|nm ty d].
  - intros ->. cbn [andb]. rewrite (read_note_at b loads pc base sema prov nm args ds rest) by done.
    destruct (Z.leb_spec 24 (len (desc (Stap pc base sema prov nm args)))) as [|Hlt]; [done|].
    cbn [desc] in Hlt. pose proof (len_nonneg prov). pose proof (len_nonneg nm). pose proof (len_nonneg args).
    len_lia.
  - intros ->. destruct Hn as [_ _ _ Hb]. cbn [desc seen_note] in *.
    destruct (Z.eqb_spec ty 3) as [->|]; [|done]. case_bool_decide as Ht; [|done].
    destruct (Z.leb_spec 24 (len d)); [|done]. destruct Hb as [|[|]]; [done|done|lia].
Qed.

(** Walking a section of notes gives the [stapsdt] notes among them whose pc
    is in a load segment, in order, with their strings and file offsets. *)
Lemma walk_notes_enc {E} b loads l : slice_len_ok b -> forallb load_ok loads = true -> forall fuel p rest stop,
  suffix_at b p (concat (map enc_note l) ++ rest) -> stop = p + len (concat (map enc_note l)) ->
  Forall note_ok l -> (length l < fuel)%nat ->
  walk_notes (E:=E) fuel b loads p stop = Ret (omap (seen_note loads) l).
Proof.
  intros Hb HL. induction l as [|n l IH]; intros fuel p rest stop H -> Hl Hf;
    (destruct fuel as [|fuel]; [cbn [length] in Hf; lia|]); cbn [walk_notes].
  { cbn [map concat]. rewrite (@len_nil Init.Byte.byte). by destruct (Z.ltb_spec (p + 0) (p + 12)); [|lia]. }
  apply list.Forall_cons in Hl as [Hn Hl]. cbn [map concat] in *. rewrite <- app_assoc in H.
  pose proof (suffix_at_len _ _ _ H) as [Hp Hlen]. rewrite !len_app in *.
  pose proof (len_enc_note n) as Hen. pose proof (len_nonneg (concat (map enc_note l))).
  pose proof (len_nonneg (owner n)). pose proof (len_nonneg (desc n)). pose proof (len_nonneg rest).
  pose proof (pad4_range (len (owner n))) as P1. pose proof (pad4_range (len (desc n))) as P2.
  destruct (Z.ltb_spec (p + (len (enc_note n) + len (concat (map enc_note l)))) (p + 12)); [lia|].
  assert (HU : len b <= U64_MAX).
  { unfold slice_len_ok, U64_MAX in *. change (2 ^ 63) with 9223372036854775808 in Hb. lia. }
  pose proof H as H'. unfold enc_note in H'. rewrite <- !app_assoc in H'.
  assert (U : in_u 32 (len (owner n)) /\ in_u 32 (len (desc n))).
  { destruct Hn as [Ho Hd _ _]. unfold in_u, U32_MAX in *. change (2 ^ 32) with 4294967296. lia. }
  destruct U as [U1 U2].
  rewrite (suffix_at_le _ _ _ _ _ H'), bind_Ret by done. adv H' (p + 4).
  rewrite (suffix_at_le _ _ _ _ _ H'), bind_Ret by done. adv H' (p + 8).
  rewrite (suffix_at_le _ _ _ _ _ H'), bind_Ret by apply Hn. adv H' (p + 12). cbv zeta.
  unfold saturating_add64. rewrite !Z.min_r by lia.
  destruct (Z.ltb_spec (p + (len (enc_note n) + len (concat (map enc_note l))))
              (p + 12 + len (owner n) + pad4 (len (owner n)) + len (desc n) + pad4 (len (desc n)))); [lia|].
  destruct (Z.ltb_spec (p + (len (enc_note n) + len (concat (map enc_note l))))
              (p + 12 + len (owner n) + pad4 (len (owner n)) + len (desc n))); [lia|]. cbn [orb].
  rewrite (is_stapsdt_at _ _ _ _ H' Hn), bind_Ret. adv H' (p + 12 + len (owner n)).
  apply (suffix_at_adv _ _ _ _ (p + 12 + len (owner n) + pad4 (len (owner n)))) in H'; [|by rewrite len_pad].
  rewrite (note_seen b loads n _ _ _ H' HL Hn), bind_Ret by by destruct n.
  apply (suffix_at_adv _ _ _ _ (p + 12 + len (owner n) + pad4 (len (owner n)) + len (desc n) + pad4 (len (desc n)))) in H; [|lia].
  rewrite (IH fuel _ rest) by (done || lia || (cbn [length] in Hf; lia)). rewrite bind_Ret.
  cbn [omap list_omap]. by destruct (seen_note loads n).
Qed.

(** A file whose program headers give the segments [loads] and whose section
    headers give a [.note.stapsdt] of the notes [l]. *)
Record elf_with_notes (b : bytes) (loads : list load) (l : list note) (phoff phentsize phnum : Z) (h : Shdrs)
    (shstr : Z * Z * Z * Z) (off : Z) : Prop := {
  en_size : slice_len_ok b;
  en_ident : elf64_le (E:=io_error) b = Ret true;
  en_ph : le_at (E:=io_error) 8 b 32 = Ret phoff /\ le_at (E:=io_error) 2 b 54 = Ret phentsize
          /\ le_at (E:=io_error) 2 b 56 = Ret phnum;
  en_ph_in : phoff + phnum * phentsize <= len b;
  en_loads : read_loads (E:=io_error) (Z.to_nat phnum) b phoff phentsize 0 = Ret loads;
  en_shdrs : read_shdrs (E:=io_error) b = Ret h;
  en_table : e_shoff h <> 0 /\ e_shnum h <> 0 /\ e_shoff h + e_shnum h * e_shentsize h <= len b
             /\ e_shstrndx h < e_shnum h;
  en_shstr : read_sh4 (E:=io_error) b (e_shoff h) (e_shentsize h) (e_shstrndx h) = Ret shstr;
  en_shstr_in : shstr.1.2 + shstr.2 <= len b;
  en_notes : find_notes (E:=io_error) (Z.to_nat (e_shnum h)) b h shstr.1.2 shstr.2 0
             = Ret (off, len (concat (map enc_note l)));
  en_at : exists rest, suffix_at b off (concat (map enc_note l) ++ rest);
  en_ok : Forall note_ok l;
  en_loads_ok : forallb load_ok loads = true
}.

(** C26: Reading the USDT notes of a file gives its [stapsdt] notes, in order, with
    their strings as written, and their pc and semaphore at the file offsets
    the load segments put them at; notes of other owners or types, and notes
    whose pc is in no segment, are left out. *)
Theorem notes_round_trip b loads l phoff phentsize phnum h shstr off :
  elf_with_notes b loads l phoff phentsize phnum h shstr off ->
  parse_stapsdt b = Ret (omap (seen_note loads) l).
Proof.
  intros [Hsize Hid (Hp1 & Hp2 & Hp3) Hph Hloads Hh (Hz1 & Hz2 & Ht1 & Ht2) Hs Hsin Hnotes [rest Hr] Hok HL].
  assert (Hadd : forall x y, x + y <= len b -> add64 (E:=io_error) x y = Ret (x + y)).
  { intros x y H. unfold add64, checked_add64. unfold slice_len_ok, U64_MAX in *.
    change (2 ^ 63) with 9223372036854775808 in Hsize.
    by destruct (Z.leb_spec (x + y) 18446744073709551615); [|lia]. }
  pose proof (suffix_at_len _ _ _ Hr) as [H0 Hlen]. rewrite len_app in Hlen. pose proof (len_nonneg rest).
  unfold parse_stapsdt. rewrite Hid, bind_Ret. cbn [negb]. rewrite Hp1, bind_Ret, Hp2, bind_Ret, Hp3, bind_Ret.
  rewrite Hadd, bind_Ret by done. destruct (Z.leb_spec (phoff + phnum * phentsize) (len b)); [|lia].
  rewrite Hloads, bind_Ret, Hh, bind_Ret. destruct (Z.eqb_spec (e_shoff h) 0), (Z.eqb_spec (e_shnum h) 0); try done.
  cbn [orb]. rewrite Hadd, bind_Ret by done.
  destruct (Z.ltb_spec (len b) (e_shoff h + e_shnum h * e_shentsize h)); [lia|].
  destruct (Z.leb_spec (e_shnum h) (e_shstrndx h)); [lia|]. cbn [orb]. rewrite Hs, bind_Ret.
  destruct shstr as [[[nm ty] so] ss]. cbn [fst snd] in *. rewrite Hadd, bind_Ret by done.
  destruct (Z.ltb_spec (len b) (so + ss)); [lia|]. rewrite Hnotes, bind_Ret. cbn [fst snd].
  destruct (Z.eqb_spec (len (concat (map enc_note l))) 0) as [Hz|].
  { destruct l as [|m l]; [done|]. cbn [map concat] in Hz. rewrite len_app, len_enc_note in Hz.
    pose proof (pad4_range (len (owner m))). pose proof (pad4_range (len (desc m))).
    pose proof (len_nonneg (owner m)). pose proof (len_nonneg (desc m)). 
    pose proof (len_nonneg (concat (map enc_note l))). lia. }
  rewrite Hadd, bind_Ret by lia. destruct (Z.ltb_spec (len b) (off + len (concat (map enc_note l)))); [lia|].
  eapply walk_notes_enc; [done..|].
  enough (Z.of_nat (length l) <= len (concat (map enc_note l))) by lia.
  clear. induction l as [|m l IH]; [done|]. cbn [map concat length]. rewrite len_app, len_enc_note.
  pose proof (pad4_range (len (owner m))). pose proof (pad4_range (len (desc m))).
  pose proof (len_nonneg (owner m)). pose proof (len_nonneg (desc m)). lia.
Qed.
