(* ===== verification/Vdso.v ===== *)
(** The vDSO inside a kernel image (host/bifrost-support, src/vdso.rs): the
    bytes between the kernel symbols [vdso_start] and [vdso_end], found
    through the load segment that covers them. *)

From Stdlib Require Import Strings.String.
From S2P Require Import Utf8.
From S2P Require Import Schema.
From S2P Require Import ElfFile.
From S2P Require Import Prelude.

Local Open Scope Z_scope.
Local Open Scope list_scope.

(** [sh_name_at] and [str_at]: a name in [off, off + size), up to its NUL or
    the end; neither offset nor size was checked. *)
Definition name_in {E} (b : bytes) (tab_off tab_size off : Z) : outcome E bytes :=
  start ← add64 tab_off off;
  max_end ← add64 tab_off tab_size;
  if max_end <=? start then Ret []
  else
    l ← slice b start max_end;
    Ret (default [] (from_utf8 (take (default (length l) (nul_position l)) l))).

Fixpoint find_symtab {E} (n : nat) (b : bytes) (h : Shdrs) (shstr_off shstr_size i : Z)
  : outcome E (Z * Z * Z) :=
  match n with
  | O => Ret (0, 0, 0)
  | S n =>
      sh ← read_sh b (e_shoff h) (e_shentsize h) i;
      found ← (if sh_type sh =? 2
               then name ← name_in b shstr_off shstr_size (sh_name sh);
                    Ret (bool_decide (name = str ".symtab"))
               else Ret false);
      if found : bool then Ret (sh_offset sh, sh_size sh, sh_link sh)
      else find_symtab n b h shstr_off shstr_size (i + 1)
  end.

(** The loop over the symbols, with what was found of the two so far. *)
Fixpoint find_vdso {E} (fuel : nat) (b : bytes) (str_off str_size p stop : Z) (start stop_ : option Z)
  : outcome E (option Z * option Z) :=
  match fuel with
  | O => Panic
  | S fuel =>
      next ← add64 p 24;
      if stop <? next then Ret (start, stop_)
      else
        st_name ← le_at 4 b p;
        st_value ← le_at 8 b (p + 8);
        n ← name_in b str_off str_size st_name;
        let start := if bool_decide (n = str "vdso_start") then Some st_value else start in
        let stop_ := if bool_decide (n = str "vdso_end") then Some st_value else stop_ in
        match start, stop_ with
        | Some _, Some _ => Ret (start, stop_)
        | _, _ => find_vdso fuel b str_off str_size next stop start stop_
        end
  end.

(** [for i in 0..phnum]: the file offset of [start], in the first load
    segment whose file bytes cover both addresses. *)
Fixpoint find_load {E} (n : nat) (b : bytes) (phoff phentsize start stop i : Z) : outcome E (option Z) :=
  match n with
  | O => Ret None
  | S n =>
      let p := phoff + i * phentsize in
      p_type ← le_at 4 b p;
      if negb (p_type =? 1) then find_load n b phoff phentsize start stop (i + 1)
      else
        p_offset ← le_at 8 b (p + 8);
        p_vaddr ← le_at 8 b (p + 16);
        p_filesz ← le_at 8 b (p + 32);
        inside ← (if p_vaddr <=? start
                  then e ← add64 p_vaddr p_filesz; Ret (stop <=? e) else Ret false);
        if inside : bool then o ← add64 p_offset (start - p_vaddr); Ret (Some o)
        else find_load n b phoff phentsize start stop (i + 1)
  end.

Definition extract_vdso (b : bytes) : outcome io_error bytes :=
  ok ← elf64_le b;
  if negb ok then Throw (InvalidData "vmlinux: not ELF-64 LE")
  else
    phoff ← le_at 8 b 32;
    h ← read_shdrs b;
    phentsize ← le_at 2 b 54;
    phnum ← le_at 2 b 56;
    table_end ← add64 (e_shoff h) (e_shnum h * e_shentsize h);
    if (len b <? table_end) || (e_shnum h <=? e_shstrndx h)
    then Throw (InvalidData "vmlinux: bad section table")
    else
      ph_end ← add64 phoff (phnum * phentsize);
      if len b <? ph_end then Throw (InvalidData "vmlinux: bad program header table")
      else
        shstr ← read_sh b (e_shoff h) (e_shentsize h) (e_shstrndx h);
        t ← find_symtab (Z.to_nat (e_shnum h)) b h (sh_offset shstr) (sh_size shstr) 0;
        let '(sym_off, sym_size, sym_link) := t in
        if sym_size =? 0 then Throw (NotFound "vmlinux: .symtab absent (stripped image?)")
        else
          strs ← read_sh b (e_shoff h) (e_shentsize h) sym_link;
          sym_end ← add64 sym_off sym_size;
          r ← find_vdso (S (Z.to_nat sym_size)) b (sh_offset strs) (sh_size strs) sym_off sym_end None None;
          let missing := Throw (NotFound "vmlinux: vdso_start/vdso_end not found") in
          match r with
          | (Some start, Some stop) =>
              if negb (start <? stop) then missing
              else
                o ← find_load (Z.to_nat phnum) b phoff phentsize start stop 0;
                match o with
                | None => Throw (NotFound "vmlinux: vdso bytes not in any PT_LOAD")
                | Some off =>
                    e ← add64 off (stop - start);
                    if len b <? e then Throw (InvalidData "vmlinux: vdso slice out of bounds")
                    else
                      blob ← slice b off e;
                      ok ← elf64_le blob;
                      if negb ok then Throw (InvalidData "vdso blob: not ELF-64 LE") else Ret blob
                end
          | _ => missing
          end.

(** ** What is extracted *)

(** A load segment whose file bytes cover the two addresses. *)
Definition covers (b : bytes) (phoff phentsize phnum start stop off : Z) : Prop :=
  exists i p_offset p_vaddr p_filesz,
    0 <= i < phnum /\ le_at (E:=io_error) 4 b (phoff + i * phentsize) = Ret 1
    /\ le_at (E:=io_error) 8 b (phoff + i * phentsize + 8) = Ret p_offset
    /\ le_at (E:=io_error) 8 b (phoff + i * phentsize + 16) = Ret p_vaddr
    /\ le_at (E:=io_error) 8 b (phoff + i * phentsize + 32) = Ret p_filesz
    /\ p_vaddr <= start /\ stop <= p_vaddr + p_filesz /\ off = p_offset + (start - p_vaddr).

Lemma add64_Ret {E} x y z : add64 (E:=E) x y = Ret z -> z = x + y.
Proof. unfold add64, checked_add64. by destruct (x + y <=? U64_MAX); intros [= <-]. Qed.

Lemma find_load_covers b phoff phentsize phnum start stop off n : forall i,
  0 <= i -> i + Z.of_nat n <= phnum ->
  find_load (E:=io_error) n b phoff phentsize start stop i = Ret (Some off) ->
  covers b phoff phentsize phnum start stop off.
Proof.
  induction n as [|n IH]; intros i Hi Hn; cbn [find_load]; [done|]. intros H. split_ret H.
  destruct (negb (a =? 1)) eqn:T.
  { apply (IH (i + 1)); [lia|lia|done]. }
  apply negb_false_iff, Z.eqb_eq in T as ->. split_ret H.
  destruct (Z.leb_spec a0 start) as [Hv|Hv].
  - split_ret R3. injection R3 as <-. apply add64_Ret in R4 as ->.
    destruct (Z.leb_spec stop (a0 + a1)) as [He|He]; [|by apply (IH (i + 1)); [lia|lia|]].
    split_ret H. injection H as <-. apply add64_Ret in R3 as ->.
    exists i, a, a0, a1. by split_and!; try lia.
  - injection R3 as <-. by apply (IH (i + 1)); [lia|lia|].
Qed.

(** What comes out is an ELF-64 file, the bytes of the image between two
    addresses that one load segment covers. *)
Lemma vdso_between b blob :
  extract_vdso b = Ret blob ->
  elf64_le (E:=io_error) blob = Ret true
  /\ exists phoff phentsize phnum start stop off,
       start < stop /\ covers b phoff phentsize phnum start stop off
       /\ slice (E:=io_error) b off (off + (stop - start)) = Ret blob.
Proof.
  unfold extract_vdso. intros H. split_ret H. destruct (negb a); [done|]. split_ret H.
  destruct (_ || _); [done|]. split_ret H. destruct (_ <? _); [done|]. split_ret H.
  destruct a7 as [[sym_off sym_size] sym_link]. destruct (_ =? 0); [done|]. split_ret H.
  destruct a9 as [[start|] [stop|]]; try done. destruct (Z.ltb_spec start stop) as [Hlt|]; [|done].
  cbn [negb] in H. split_ret H. destruct a9 as [off|]; [|done]. split_ret H.
  destruct (_ <? _); [done|]. split_ret H. destruct (negb a11) eqn:Hb; [done|]. injection H as ->.
  apply negb_false_iff in Hb as ->. split; [done|].
  exists a0, a2, a3, start, stop, off. split; [done|]. apply add64_Ret in R12 as ->. split; [|done].
  eapply (find_load_covers _ _ _ _ _ _ _ _ 0); [lia| |exact R11].
  apply le_at_Ret in R3 as (_ & _ & ?). unfold in_u in *. lia.
Qed.
