(* ===== verification/FileSample.v ===== *)
(** A small kernel's BTF and a small program's ELF file: the inputs at which
    the theorems of BtfOk.v, BtfLookup.v, ElfSymsOk.v and ElfNotes.v apply, and
    files that the readers misread or panic on. *)

From Stdlib Require Import Strings.String.
From stdpp Require Import gmap.
From stdpp Require Import list.
From S2P Require Import Utf8.
From S2P Require Import Ordered.
From S2P Require Import Schema.
From S2P Require Import ElfFile.
From S2P Require Import Btf.
From S2P Require Import BtfOk.
From S2P Require Import BtfLookup.
From S2P Require Import ElfSyms.
From S2P Require Import ElfSymsOk.
From S2P Require Import ElfNotes.
From S2P Require Import Vdso.
From S2P Require Import Prelude.

Local Open Scope Z_scope.
Local Open Scope list_scope.

Module Kernel.

Definition txt (s : string) : bytes := list_byte_of_string s.

(** [int]; [struct task { int state; union { int pid; int tgid; }; int prio : 3; float load;
    int *stack[4]; }] with its anonymous union, pointer, array and float types. *)
Definition blob_types : list (bytes * wire) := [
  (txt "int", WOther kind.INT false 0 4 (replicate 4 (u8b 0)));
  (txt "task", WRecord false true 52 [(24, 1, 0); (0, 3, 32); (30, 1, 3 * 2 ^ 24 + 64);
                                      (35, 6, 96); (40, 5, 128)]);
  ([], WRecord true false 4 [(46, 1, 0); (50, 1, 0)]);
  ([], WOther kind.PTR false 0 1 []);
  ([], WArray 4 1 4);
  (txt "float", WOther kind.FLOAT false 0 4 []);
  (txt "do_fork", WOther kind.FUNC false 1 8 []);
  ([], WOther kind.FUNC_PROTO false 2 1 (replicate 16 (u8b 0)))
].

(** The strings of the members, after those of the types. *)
Definition zstr (s : string) : bytes := txt s ++ [u8b 0].
Definition more : bytes := concat (map zstr ["state"; "prio"; "load"; "stack"; "pid"; "tgid"]%string).

Definition blob : bytes := image (u8b 1) (u8b 0) [] blob_types more.

Definition kernel : Btf :=
  match parse blob with
  | Ret b => b
  | _ => {| types := []; names := []; strs := []; struct_index := ∅; func_index := ∅ |}
  end.

(** The rank of each type: [task] above its union and its array. *)
Definition ranks : list nat := [0; 0; 2; 0; 0; 1; 0; 0; 0]%nat.

Definition offset_in (field : string) : outcome BtfError (result BtfError (Z * Z)) :=
  r ← field_offset (txt "task") (txt field) kernel; Ret r.1.
Definition exists_in (field : string) : outcome BtfError bool :=
  r ← field_exists (txt "task") (txt field) kernel; Ret r.1.
End Kernel.

Import Kernel.

Example tgid_offset : offset_in "tgid" = Ret (Ok (4, 4)).
Proof. by vm_compute. Qed.
Example stack_offset : offset_in "stack" = Ret (Ok (16, 32)).
Proof. by vm_compute. Qed.
Example fork_arity : (func_arity (txt "do_fork") kernel).1 = Some 2.
Proof. by vm_compute. Qed.

(** A field of a type the reader keeps no size of is there for
    [field_exists] and not found by [field_offset]. *)
Lemma float_field_exists_not_found :
  exists_in "load" = Ret true
  /\ offset_in "load" = Ret (Err (FieldNotFound (txt "task") (txt "load"))).
Proof. split; by vm_compute. Qed.

(** A struct whose anonymous member is the struct itself: the walk for a
    member never ends, and the stack overflows. *)
Definition looped : Btf :=
  {| types := [TVoid; TStruct 8 [{| name_off := 0; m_type_id := 1; Btf.offset_bits := 0; bit_size := 0 |}]];
     names := [None; Some (txt "s")]; strs := [u8b 0]; struct_index := ∅; func_index := ∅ |}.

Lemma looped_overflows fuel : find_member_fuel (E:=BtfError) looped (txt "x") fuel 1 0 = Panic.
Proof.
  induction fuel as [|fuel IH]; [done|]. cbn [find_member_fuel].
  change (members_of looped 1) with
    (Some [{| name_off := 0; m_type_id := 1; Btf.offset_bits := 0; bit_size := 0 |}]).
  cbn [offset_members]. change (add32 (E:=BtfError) 0 _) with (Ret (E:=BtfError) 0). rewrite bind_Ret.
  rewrite bool_decide_true by by vm_compute. cbn [m_type_id]. by rewrite IH.
Qed.

(** An array of 2^32 - 1 structs of 16 bytes: the size of the field
    overflows its [u32]. *)
Definition huge : Btf :=
  {| types := [TVoid; TStruct 16 []; TArray 1 U32_MAX;
               TStruct 16 [{| name_off := 1; m_type_id := 2; Btf.offset_bits := 0; bit_size := 0 |}]];
     names := [None; None; None; Some (txt "s")]; strs := u8b 0 :: txt "x" ++ [u8b 0];
     struct_index := ∅; func_index := ∅ |}.

Lemma huge_array_overflows :
  (r ← field_offset (E:=BtfError) (txt "s") (txt "x") huge; Ret r.1) = Panic.
Proof. by vm_compute. Qed.

(** A type whose name runs off the string section is given the empty name. *)
Lemma unterminated_name_is_empty : type_name (u8b 0 :: txt "task") 1 = Some [].
Proof. by vm_compute. Qed.

(** An ELF header that says one section of no bytes passes the bounds check
    of the section table, and reading that section panics. *)
Definition empty_entry : bytes :=
  ELF_MAGIC ++ map u8b [2; 1] ++ replicate 34 (u8b 0) ++ to_le 8 64 ++ replicate 10 (u8b 0)
  ++ to_le 2 0 ++ to_le 2 1 ++ to_le 2 0.

Lemma empty_section_entry_panics : len empty_entry = 64 /\ extract_btf_section empty_entry = Panic.
Proof. split; by vm_compute. Qed.

Lemma parse_image_witness :
  parse blob = Ret {|
    types := TVoid :: map (fun e => seen e.2) blob_types;
    names := None :: map (fun e => named e.1) blob_types;
    strs := str_section blob_types more; struct_index := ∅; func_index := ∅ |}
  /\ types kernel !! 6%nat = Some TOther.
Proof.
  split; [|by vm_compute].
  apply (parse_image (u8b 1) (u8b 0) [] blob_types more); [|by vm_compute..].
  repeat constructor; by vm_compute.
Defined.

Lemma lookups_first_witness :
  lookup_answer (E:=BtfError) (txt "task") (txt "tgid") kernel (find_struct (txt "task") kernel).2
    (first_called kernel (txt "tgid") (c_members kernel 2))
  /\ match first_called kernel (txt "tgid") (c_members kernel 2) with
     | Some (m, bits) => bits = 32
     | None => False
     end.
Proof.
  split; [|by vm_compute].
  apply (lookups_first ranks (txt "task") (txt "tgid") kernel 2).
  - by vm_compute.
  - by vm_compute.
  - apply list.Forall_forall. intros x Hx. apply list_elem_of_In in Hx.
    assert (forallb (fun x => x.2 <=? U32_MAX) (c_members kernel 2) = true) as HF by by vm_compute.
    rewrite forallb_forall in HF. by apply Z.leb_le, HF.
Defined.

Module Program.

Definition zeros (n : nat) : bytes := replicate n (u8b 0).

Definition ehdr (phoff phnum shoff shentsize shnum shstrndx : Z) : bytes :=
  ELF_MAGIC ++ map u8b [2; 1] ++ zeros 10 ++ to_le 2 3 ++ zeros 14 ++ to_le 8 phoff ++ to_le 8 shoff
  ++ zeros 6 ++ to_le 2 56 ++ to_le 2 phnum ++ to_le 2 shentsize ++ to_le 2 shnum ++ to_le 2 shstrndx.

Definition phdr (offset vaddr filesz memsz : Z) : bytes :=
  to_le 4 1 ++ zeros 4 ++ to_le 8 offset ++ to_le 8 vaddr ++ zeros 8 ++ to_le 8 filesz ++ to_le 8 memsz
  ++ zeros 8.

Definition shdr (name type off size link : Z) : bytes :=
  to_le 4 name ++ to_le 4 type ++ zeros 16 ++ to_le 8 off ++ to_le 8 size ++ to_le 4 link ++ zeros 20.

Definition zstr (s : string) : bytes := str s ++ [u8b 0].

Definition shstrtab : bytes := u8b 0 :: zstr ".symtab" ++ zstr ".note.stapsdt".
Definition strtab : bytes := u8b 0 :: zstr "main" ++ zstr "alias" ++ zstr "helper" ++ zstr "table".

Definition sym (name info value size : Z) : elf_sym :=
  {| st_name := name; st_info := info; st_other := 0; st_shndx := 1; st_value := value; st_size := size |}.

(** [helper] before [main] in the file, an alias of [main], a data object and
    an undefined function. *)
Definition symbols : list elf_sym :=
  [sym 0 0 0 0; sym 12 18 0x1040 0; sym 1 18 0x1000 32; sym 6 34 0x1000 32; sym 19 17 0x2000 8; sym 1 18 0 0].
Definition symtab : bytes := concat (map enc_sym symbols).

Definition notes : list note :=
  [Stap 0x1010 0 0x2004 (str "pg") (str "query__start") (str "8@x27");
   Other (str "GNU" ++ [u8b 0]) 5 (zeros 6);
   Stap 0x9000 0 0 (str "pg") (str "gone") [];
   Stap 0x1020 0 0x9000 (str "pg") (str "query__done") []].
Definition note_data : bytes := concat (map enc_note notes).

Definition text_load : bytes := phdr 0x80 0x1000 0x100 0x100.
Definition data_load : bytes := phdr 0x200 0x2000 0x40 0x40.

Definition at_shstr : Z := 176.
Definition at_sym : Z := at_shstr + len shstrtab.
Definition at_str : Z := at_sym + len symtab.
Definition at_note : Z := at_str + len strtab.
Definition at_sh : Z := at_note + len note_data.

Definition file : bytes :=
  ehdr 64 2 at_sh 64 5 1 ++ text_load ++ data_load ++ shstrtab ++ symtab ++ strtab ++ note_data
  ++ zeros 64 ++ shdr 0 3 at_shstr (len shstrtab) 0 ++ shdr 1 2 at_sym (len symtab) 3
  ++ shdr 0 3 at_str (len strtab) 0 ++ shdr 9 7 at_note (len note_data) 0.

Definition hdrs : Shdrs := {| e_shoff := at_sh; e_shentsize := 64; e_shnum := 5; e_shstrndx := 1 |}.

Definition table : SymTab :=
  match from_bytes file with Ret t => t | _ => {| syms := []; is_pie := false |} end.
End Program.

Import Program.

Example main_found : sym_lookup table 0x1010 = Some (str "main", 16).
Proof. by vm_compute. Qed.
Example helper_without_size : sym_lookup table 0x1fff = Some (str "helper", 0xfbf).
Proof. by vm_compute. Qed.
Example below_everything : sym_lookup table 0xfff = None.
Proof. by vm_compute. Qed.

(** The address just past a function is still given to it. *)
Lemma end_of_function_covered : sym_lookup table 0x1020 = Some (str "main", 32).
Proof. by vm_compute. Qed.

(** Of two names at an address the first in the file is kept, not the
    shortest. *)
Lemma longer_alias_kept :
  map sym_name (syms {| syms := dedup (sort_by_key sym_addr
    [{| sym_addr := 1; sym_bytes := 0; sym_name := str "long_alias" |};
     {| sym_addr := 1; sym_bytes := 0; sym_name := str "f" |}]); is_pie := true |}) = [str "long_alias"].
Proof. by vm_compute. Qed.

(** A semaphore outside every segment is reported as no semaphore. *)
Lemma lost_semaphore :
  match parse_stapsdt file with
  | Ret [a; c] => semaphore_file_offset a = 0x204 /\ note_name c = str "query__done" /\ semaphore_file_offset c = 0
  | _ => False
  end.
Proof. by vm_compute. Qed.

(** A section entry size of zero passes the bounds check of the section table
    at the end of the file, and reading the entry panics; so does a section
    whose offset and size overflow their sum, and a name section outside the
    image of [extract_vdso]. *)
Lemma hostile_headers_panic :
  from_bytes (ehdr 0 0 64 0 1 0) = Panic
  /\ from_bytes (ehdr 0 0 64 64 1 0 ++ shdr 0 3 U64_MAX 1 0) = Panic
  /\ extract_vdso (ehdr 0 0 64 64 1 0 ++ shdr 0 2 4096 1 0) = Panic.
Proof. split_and!; by vm_compute. Qed.

Lemma symbols_exact_witness :
  (exists t, from_bytes file = Ret t /\ is_pie t = true /\ table_of (omap (pushed strtab) symbols) t)
  /\ map sym_name (syms table) = [str "main"; str "helper"].
Proof.
  split; [|by vm_compute].
  apply (symbols_exact file symbols strtab true hdrs
    {| sh_name := 0; sh_type := 3; sh_offset := at_shstr; sh_size := len shstrtab; sh_link := 0 |}
    {| sh_name := 0; sh_type := 3; sh_offset := at_str; sh_size := len strtab; sh_link := 0 |} at_sym 3); [|done].
  split; try by vm_compute.
  - exists 3. split; by vm_compute.
  - exists (ehdr 64 2 at_sh 64 5 1 ++ text_load ++ data_load ++ shstrtab ++ symtab),
      (note_data ++ zeros 64 ++ shdr 0 3 at_shstr (len shstrtab) 0 ++ shdr 1 2 at_sym (len symtab) 3
       ++ shdr 0 3 at_str (len strtab) 0 ++ shdr 9 7 at_note (len note_data) 0).
    split_and!; by vm_compute.
  - exists (drop (Z.to_nat (at_sym + len symtab)) file), (take (Z.to_nat at_sym) file). split; by vm_compute.
  - repeat constructor; by vm_compute.
Defined.

Lemma notes_round_trip_witness :
  parse_stapsdt file = Ret (omap (seen_note [(0x1000, 0x80, 0x100); (0x2000, 0x200, 0x40)]) notes)
  /\ length (omap (seen_note [(0x1000, 0x80, 0x100); (0x2000, 0x200, 0x40)]) notes) = 2%nat.
Proof.
  split; [|by vm_compute].
  apply (notes_round_trip file [(0x1000, 0x80, 0x100); (0x2000, 0x200, 0x40)] notes 64 56 2 hdrs
    (0, 3, at_shstr, len shstrtab) at_note).
  split; try by vm_compute.
  - exists (drop (Z.to_nat (at_note + len note_data)) file), (take (Z.to_nat at_note) file). split; by vm_compute.
  - repeat constructor; try (by vm_compute); try (left; by vm_compute).
Defined.
