(* ===== verification/DParse.v ===== *)
(** The D source splitter (host/bifrost, src/parse.rs): comments are stripped
    and the source is cut into clauses, a list of probe descriptions, an
    optional predicate and a body, and the preamble around them.

    A source is its bytes; an index into it is the rest of the bytes from
    there.  The slices the code takes start after and end before an ASCII
    byte, so they are at character boundaries. *)

From Stdlib Require Import Strings.String.
From stdpp Require Import list.
From S2P Require Import Utf8.
From S2P Require Import Schema.
From S2P Require Import AggSnapshot.
From S2P Require Import Text.
From S2P Require Import Prelude.

Local Open Scope Z_scope.
Local Open Scope list_scope.

(** ** Probe descriptions *)

Record ProbeSpec : Type := {
  spec_provider : bytes;
  spec_module : bytes;
  spec_function : bytes;
  spec_name : bytes;
  spec_binary : option bytes
}.

Definition COLON : Init.Byte.byte := u8b 0x3a.

(** [splitn(n, c)]: at most [n] pieces, the last with what is left. *)
Fixpoint splitn (n : nat) (c : Z) (l : bytes) : list bytes :=
  match n with
  | O => []
  | S O => [l]
  | S n =>
      let '(a, rest) := span (fun x => negb (byte_is x c)) l in
      match rest with [] => [a] | _ :: rest => a :: splitn n c rest end
  end.

(** [split(c)] *)
Fixpoint split_fuel (fuel : nat) (c : Z) (l : bytes) : list bytes :=
  match fuel with
  | O => []
  | S fuel =>
      let '(a, rest) := span (fun x => negb (byte_is x c)) l in
      match rest with [] => [a] | _ :: rest => a :: split_fuel fuel c rest end
  end.
Definition split_on (c : Z) (l : bytes) : list bytes := split_fuel (S (length l)) c l.

Definition is_str (a : bytes) (s : string) : bool := bool_decide (a = str s).
Definition is_empty (a : bytes) : bool := match a with [] => true | _ => false end.

(** Whether the first two fields call for a fifth. *)
Definition is_5tuple (peek : list bytes) : bool :=
  match peek with
  | [p; m; _] =>
      (is_str p "uprobe" && (is_str m "guest" || is_str m "vmm")) || (is_str p "usdt" && is_str m "guest")
      || (is_str p "bifrost" && is_str m "guest_user")
  | _ => false
  end.

Definition parse_spec (s : bytes) : option ProbeSpec :=
  let trimmed := trim s in
  if negb (existsb (fun x => byte_is x 0x3a) trimmed) && negb (is_empty trimmed) then
    Some {| spec_provider := trimmed; spec_module := []; spec_function := []; spec_name := [];
            spec_binary := None |}
  else if is_5tuple (splitn 3 0x3a trimmed) then
    match splitn 5 0x3a trimmed with
    | [p; m; b; f; n] =>
        Some {| spec_provider := p; spec_module := m; spec_function := f; spec_name := n;
                spec_binary := Some b |}
    | _ => None
    end
  else
    match splitn 4 0x3a trimmed with
    | [p; m; f; n] =>
        Some {| spec_provider := p; spec_module := m; spec_function := f; spec_name := n;
                spec_binary := None |}
    | _ => None
    end.

Definition has_binary (p : ProbeSpec) : bool := match spec_binary p with Some _ => true | None => false end.
Definition in_domain (p : ProbeSpec) : bool := is_str (spec_module p) "guest" || is_str (spec_module p) "vmm".

Definition spec_is_bifrost (p : ProbeSpec) : bool :=
  existsb (is_str (spec_provider p)) ["bifrost"; "fbt"; "tracepoint"; "uprobe"; "usdt"]%string.
Definition is_uprobe (p : ProbeSpec) : bool := is_str (spec_provider p) "uprobe" && in_domain p && has_binary p.
Definition is_usdt (p : ProbeSpec) : bool :=
  is_str (spec_provider p) "usdt" && is_str (spec_module p) "guest" && has_binary p.
Definition is_guest_user (p : ProbeSpec) : bool :=
  has_binary p && (is_uprobe p || (is_str (spec_provider p) "bifrost" && is_str (spec_module p) "guest_user")).
Definition is_fbt (p : ProbeSpec) : bool := is_str (spec_provider p) "fbt" && in_domain p.
Definition is_tracepoint (p : ProbeSpec) : bool := is_str (spec_provider p) "tracepoint" && in_domain p.

Definition starts_with (s : string) (l : bytes) : bool :=
  match drop_prefix (str s) l with Some _ => true | None => false end.

Definition is_profile_timer (p : ProbeSpec) : bool :=
  is_str (spec_provider p) "profile" && is_empty (spec_module p) && is_empty (spec_function p)
  && (starts_with "tick-" (spec_name p) || starts_with "profile-" (spec_name p)).

(** [num_str.parse::<u64>()] of a string of digits. *)
Definition digit_value (x : Init.Byte.byte) : Z := byte.unsigned x - 0x30.
Fixpoint digits_value (acc : Z) (l : bytes) : option Z :=
  match l with
  | [] => Some acc
  | x :: l =>
      let v := acc * 10 + digit_value x in
      if v <=? U64_MAX then digits_value v l else None
  end.
Definition parse_u64 (l : bytes) : option Z := match l with [] => None | _ => digits_value 0 l end.

Definition unit_ns (unit : bytes) (n : Z) : option Z :=
  if is_str unit "ns" then Some n
  else if is_str unit "us" || is_str unit "usec" then checked_mul64 n 1000
  else if is_str unit "ms" || is_str unit "msec" then checked_mul64 n 1000000
  else if is_str unit "s" || is_str unit "sec" then checked_mul64 n 1000000000
  else if is_str unit "hz" || is_str unit "" then Some (1000000000 / n)
  else None.

Definition profile_timer_period_ns (p : ProbeSpec) : option Z :=
  if negb (is_profile_timer p) then None
  else
    rest ← (match drop_prefix (str "tick-") (spec_name p) with
            | Some r => Some r
            | None => drop_prefix (str "profile-") (spec_name p)
            end);
    let '(num_str, unit) := span is_ascii_digit rest in
    let unit := match unit with [] => str "hz" | _ => unit end in
    n ← parse_u64 num_str;
    if n =? 0 then None else unit_ns unit n.

Definition is_deprecated_kprobe (p : ProbeSpec) : bool :=
  is_str (spec_provider p) "bifrost" && negb (is_str (spec_module p) "guest_user") && negb (has_binary p).
Definition is_deprecated_uprobe (p : ProbeSpec) : bool :=
  is_str (spec_provider p) "bifrost" && is_str (spec_module p) "guest_user" && has_binary p.
Definition is_deprecated_empty_domain (p : ProbeSpec) : bool :=
  (is_str (spec_provider p) "fbt" || is_str (spec_provider p) "tracepoint" || is_str (spec_provider p) "uprobe")
  && is_empty (spec_module p).

Definition render (p : ProbeSpec) : bytes :=
  if is_empty (spec_module p) && is_empty (spec_function p) && is_empty (spec_name p)
  then spec_provider p
  else
    match spec_binary p with
    | Some bin => spec_provider p ++ COLON :: spec_module p ++ COLON :: bin ++ COLON :: spec_function p
                  ++ COLON :: spec_name p
    | None => spec_provider p ++ COLON :: spec_module p ++ COLON :: spec_function p ++ COLON :: spec_name p
    end.

(** ** Comments *)

(** [out.push(b as char)]: the UTF-8 of the character of that number. *)
Definition char_of (x : Init.Byte.byte) : bytes :=
  let v := byte.unsigned x in
  if v <? 0x80 then [x] else [u8b (Z.lor 0xc0 (Z.shiftr v 6)); u8b (Z.lor 0x80 (Z.land v 0x3f))].
Definition chars_of (l : bytes) : bytes := flat_map char_of l.

Definition BLANK : Init.Byte.byte := u8b 0x20.

(** The rest after a block comment's [/*]; its last byte when the comment is
    not closed. *)
Fixpoint skip_block (l : bytes) : bytes :=
  match l with
  | a :: (b :: l') as l1 => if byte_is a 0x2a && byte_is b 0x2f then l' else skip_block l1
  | _ => l
  end.

(** [while i < bytes.len()] *)
Fixpoint strip_loop (fuel : nat) (in_str in_char : bool) (l : bytes) : bytes :=
  match fuel, l with
  | _, [] => []
  | O, _ => []
  | S fuel, b :: l1 =>
      let quoted := in_str || in_char in
      let plain :=
        let in_str' := if byte_is b 0x22 && negb in_char then negb in_str else in_str in
        let in_char' :=
          if negb (byte_is b 0x22 && negb in_char) && byte_is b 0x27 && negb in_str
          then negb in_char else in_char in
        char_of b ++ strip_loop fuel in_str' in_char' l1 in
      match l1 with
      | c :: l2 =>
          if negb quoted && byte_is b 0x2f && byte_is c 0x2f then
            strip_loop fuel in_str in_char (span (fun x => negb (byte_is x 0x0a)) l).2
          else if negb quoted && byte_is b 0x2f && byte_is c 0x2a then
            BLANK :: strip_loop fuel in_str in_char (skip_block l2)
          else if byte_is b 0x5c && quoted then
            char_of b ++ char_of c ++ strip_loop fuel in_str in_char l2
          else plain
      | [] => plain
      end
  end.
Definition strip_comments (input : bytes) : bytes := strip_loop (length input) false false input.

(** ** Clauses *)

Record Clause : Type := {
  clause_specs : list ProbeSpec;
  clause_pred : option bytes;
  clause_body : bytes;
  clause_source : bytes
}.
Definition clause_is_bifrost (c : Clause) : bool := existsb spec_is_bifrost (clause_specs c).

Record Parsed : Type := {
  preamble : bytes;
  clauses : list Clause
}.

(** The three messages, by what they name. *)
Inductive ParseError : Type :=
| UnterminatedPredicate (pos : Z)
| ExpectedBody (ps : list ProbeSpec)
| UnterminatedBody (ps : list ProbeSpec).

Definition with_byte (x : Init.Byte.byte) (r : option (bytes * bytes)) : option (bytes * bytes) :=
  match r with Some (a, rest) => Some (x :: a, rest) | None => None end.

(** The bytes to the closing [/], and the rest after it. *)
Fixpoint scan_predicate (fuel : nat) (in_s in_c : bool) (l : bytes) : option (bytes * bytes) :=
  match fuel, l with
  | _, [] => None
  | O, _ => None
  | S fuel, b :: l1 =>
      let dq := negb in_c && byte_is b 0x22 in
      let sq := negb dq && negb in_s && byte_is b 0x27 in
      if negb dq && negb sq && negb in_s && negb in_c && byte_is b 0x2f then Some ([], l1)
      else
        let in_s := if dq then negb in_s else in_s in
        let in_c := if sq then negb in_c else in_c in
        match l1 with
        | c :: l2 =>
            if byte_is b 0x5c && (in_s || in_c)
            then with_byte b (with_byte c (scan_predicate fuel in_s in_c l2))
            else with_byte b (scan_predicate fuel in_s in_c l1)
        | [] => with_byte b (scan_predicate fuel in_s in_c l1)
        end
  end.

(** The bytes to the [}] that closes [depth] braces, and the rest after it. *)
Fixpoint scan_body (fuel : nat) (depth : Z) (in_s in_c : bool) (l : bytes) : option (bytes * bytes) :=
  match fuel, l with
  | _, [] => None
  | O, _ => None
  | S fuel, b :: l1 =>
      let step :=
        let dq := negb in_c && byte_is b 0x22 in
        let sq := negb dq && negb in_s && byte_is b 0x27 in
        let code := negb dq && negb sq && negb in_s && negb in_c in
        let depth := if code && byte_is b 0x7b then depth + 1
                     else if code && byte_is b 0x7d then depth - 1 else depth in
        if depth =? 0 then Some ([], l1)
        else with_byte b (scan_body fuel depth (if dq then negb in_s else in_s)
                            (if sq then negb in_c else in_c) l1) in
      match l1 with
      | c :: l2 =>
          if byte_is b 0x5c && (in_s || in_c)
          then with_byte b (with_byte c (scan_body fuel depth in_s in_c l2))
          else step
      | [] => step
      end
  end.

(** What one turn of the loop does: text for the preamble, or a clause. *)
Inductive piece : Type :=
| Text (t rest : bytes)
| AClause (c : Clause) (rest : bytes).

(** The bytes of [l] before its suffix [rest]: [src[clause_start..i]]. *)
Definition upto (l rest : bytes) : bytes := take (length l - length rest) l.

(** A clause from its specs on: [start] is the rest at its first byte, [l]
    the rest at the [/] or [{] after the specs, [size] the source's length. *)
Definition parse_clause (size : Z) (ps : list ProbeSpec) (start l : bytes) : outcome ParseError piece :=
  r ← (match l with
       | b :: l1 =>
           if byte_is b 0x2f then
             match scan_predicate (length l1) false false l1 with
             | Some (p, rest) => Ret (Some p, rest)
             | None => Throw (UnterminatedPredicate (size - len l1))
             end
           else Ret (None, l)
       | [] => Ret (None, l)
       end);
  let '(pred, rest) := r in
  match skip_whitespace rest with
  | b :: rest =>
      if byte_is b 0x7b then
        match scan_body (length rest) 1 false false rest with
        | Some (body, rest) =>
            Ret (AClause {| clause_specs := ps; clause_pred := pred; clause_body := body; clause_source := upto start rest |} rest)
        | None => Throw (UnterminatedBody ps)
        end
      else Throw (ExpectedBody ps)
  | [] => Throw (ExpectedBody ps)
  end.

(** One turn of the loop over the source, after the white space. *)
Definition parse_piece (size : Z) (l : bytes) : outcome ParseError piece :=
  match l with
  | [] => Ret (Text [] [])
  | b :: l1 =>
      if byte_is b 0x23 then
        let '(line, rest) := span (fun x => negb (byte_is x 0x0a)) l in Ret (Text (chars_of line) rest)
      else
        let '(raw, rest) := span (fun x => negb (byte_is x 0x2f) && negb (byte_is x 0x7b)) l in
        let specs_str := trim (chars_of raw) in
        if is_empty specs_str then
          match rest with
          | c :: rest => Ret (Text (char_of c) rest)
          | [] => Ret (Text [] [])
          end
        else
          match omap parse_spec (split_on 0x2c specs_str) with
          | [] => Ret (Text specs_str rest)
          | ps => parse_clause size ps l rest
          end
  end.

Fixpoint parse_loop (fuel : nat) (size : Z) (l : bytes) (out : Parsed) : outcome ParseError Parsed :=
  match fuel, l with
  | _, [] => Ret out
  | O, _ => Panic
  | S fuel, _ =>
      let '(ws, l) := span is_ascii_whitespace l in
      let out := {| preamble := preamble out ++ chars_of ws; clauses := clauses out |} in
      match l with
      | [] => Ret out
      | _ =>
          p ← parse_piece size l;
          match p with
          | Text t rest =>
              parse_loop fuel size rest {| preamble := preamble out ++ t; clauses := clauses out |}
          | AClause c rest =>
              parse_loop fuel size rest {| preamble := preamble out; clauses := clauses out ++ [c] |}
          end
      end
  end.

Definition parse_source (input : bytes) : outcome ParseError Parsed :=
  let src := strip_comments input in
  parse_loop (length src) (len src) src {| preamble := []; clauses := [] |}.

Definition host_script (p : Parsed) : bytes :=
  preamble p
  ++ flat_map (fun c => if clause_is_bifrost c then [] else clause_source c ++ [u8b 0x0a]) (clauses p).

Definition bifrost_clauses (p : Parsed) : list Clause := filter (fun c => clause_is_bifrost c = true) (clauses p).

(** ** The unit tests of parse.rs *)

Definition target_of (input : string) : option (list bytes) :=
  match parse_source (str input) with
  | Ret p => Some (flat_map (fun c => map spec_function (clause_specs c)) (clauses p))
  | _ => None
  end.

Example parses_native : target_of "syscall::openat:entry { trace(arg0); }" = Some [str "openat"].
Proof. by vm_compute. Qed.
Example parses_predicate : target_of "bifrost:guest_kernel:foo:entry /pid > 1/ { gstack(); }" = Some [str "foo"].
Proof. by vm_compute. Qed.
Example parses_comments :
  target_of "// line
  /* block
   comment */ bifrost:a:b:c { gstack(); }" = Some [str "b"].
Proof. by vm_compute. Qed.

(** ** Decimal numbers

    What [decimal] prints is read back. *)

Lemma digit_of n : digit_value (u8b (48 + n mod 10)) = n mod 10 /\ is_ascii_digit (u8b (48 + n mod 10)) = true.
Proof.
  pose proof (Z.mod_pos_bound n 10 ltac:(lia)). unfold digit_value, is_ascii_digit, in_span.
  rewrite unsigned_u8b by (split; [lia|cbn; lia]). split; [lia|]. apply andb_true_intro. lia.
Qed.

Lemma decimal_back fuel : forall n acc, 0 <= n <= U64_MAX -> n < 10 ^ Z.of_nat fuel -> (0 < fuel)%nat ->
  digits_value 0 (decimal_fuel fuel n acc) = digits_value n acc.
Proof.
  induction fuel as [|fuel IH]; intros n acc Hn Hf Hp; [lia|]. cbn [decimal_fuel].
  pose proof (Z.div_mod n 10 ltac:(lia)) as D. pose proof (Z.mod_pos_bound n 10 ltac:(lia)).
  destruct (Z.eqb_spec (n / 10) 0) as [E|E].
  - cbn [digits_value]. rewrite (proj1 (digit_of n)). replace (0 * 10 + n mod 10) with n by lia.
    by destruct (Z.leb_spec n U64_MAX); [|lia].
  - assert (10 ^ Z.of_nat (S fuel) = 10 * 10 ^ Z.of_nat fuel) by (rewrite Nat2Z.inj_succ, Z.pow_succ_r; lia).
    rewrite IH.
    + cbn [digits_value]. rewrite (proj1 (digit_of n)). replace (n / 10 * 10 + n mod 10) with n by lia.
      by destruct (Z.leb_spec n U64_MAX); [|lia].
    + pose proof (Z.div_le_upper_bound n 10 n). pose proof (Z.div_pos n 10). lia.
    + apply Z.div_lt_upper_bound; lia.
    + destruct fuel; [|lia]. change (10 ^ Z.of_nat 0) with 1 in *. exfalso. apply E. apply Z.div_small. lia.
Qed.

Lemma decimal_digits fuel : forall n acc, forallb is_ascii_digit acc = true ->
  forallb is_ascii_digit (decimal_fuel fuel n acc) = true.
Proof.
  induction fuel as [|fuel IH]; intros n acc H; [done|]. cbn [decimal_fuel].
  assert (H' : forallb is_ascii_digit (u8b (48 + n mod 10) :: acc) = true) by (cbn [forallb]; by rewrite (proj2 (digit_of n)), H).
  destruct (n / 10 =? 0); [done|by apply IH].
Qed.

Lemma decimal_some fuel : forall n acc, (0 < fuel + length acc)%nat -> (0 < length (decimal_fuel fuel n acc))%nat.
Proof.
  induction fuel as [|fuel IH]; intros n acc H; [done|]. cbn [decimal_fuel]. destruct (n / 10 =? 0); [cbn; lia|].
  apply IH. cbn. lia.
Qed.
