(* ===== verification/DParseOk.v ===== *)
(** What the D source splitter (DParse.v) promises: it always ends; the clauses
    it returns are pieces of the source, in order, of the shape the grammar
    gives them, and of the text around them only white space is lost. *)

From Stdlib Require Import Strings.String.
From stdpp Require Import list.
From S2P Require Import Utf8.
From S2P Require Import Text.
From S2P Require Import Schema.
From S2P Require Import DParse.
From S2P Require Import Prelude.

Local Open Scope Z_scope.
Local Open Scope list_scope.

(** ** The scans find the closing byte *)

Lemma byte_is_u8b x c : byte_is x c = true -> x = u8b c.
Proof.
  intros H%byte_is_eq. unfold u8b. rewrite <- H. by rewrite byte.of_Z_unsigned.
Qed.

Lemma with_byte_Some x r a rest :
  with_byte x r = Some (a, rest) -> exists a', r = Some (a', rest) /\ a = x :: a'.
Proof. destruct r as [[a' rest']|]; [|done]. cbn. intros [= <- <-]. by exists a'. Qed.

Lemma scan_predicate_spec fuel : forall in_s in_c l p rest,
  scan_predicate fuel in_s in_c l = Some (p, rest) -> l = p ++ u8b 0x2f :: rest.
Proof.
  induction fuel as [|fuel IH]; intros in_s in_c [|b l1] p rest; cbn [scan_predicate]; try done.
  destruct (_ && byte_is b 0x2f) eqn:C.
  { intros [= <- <-]. apply andb_true_iff in C as [_ C]. by rewrite (byte_is_u8b _ _ C). }
  destruct l1 as [|c l2].
  - intros H. apply with_byte_Some in H as (p' & H & ->). apply IH in H. by rewrite H.
  - destruct (byte_is b 0x5c && _).
    + intros H. apply with_byte_Some in H as (p' & H & ->). apply with_byte_Some in H as (p2 & H & ->).
      apply IH in H. by rewrite H.
    + intros H. apply with_byte_Some in H as (p' & H & ->). apply IH in H. by rewrite H.
Qed.

Lemma scan_body_spec fuel : forall depth in_s in_c l p rest,
  1 <= depth -> scan_body fuel depth in_s in_c l = Some (p, rest) -> l = p ++ u8b 0x7d :: rest.
Proof.
  induction fuel as [|fuel IH]; intros depth in_s in_c [|b l1] p rest Hd; cbn [scan_body]; try done.
  set (code := _ && negb in_c).
  set (d := if code && byte_is b 0x7b then depth + 1
            else if code && byte_is b 0x7d then depth - 1 else depth).
  assert (Hstep : forall s c, (if d =? 0 then Some ([], l1) else with_byte b (scan_body fuel d s c l1)) = Some (p, rest)
    -> b :: l1 = p ++ u8b 0x7d :: rest).
  { intros s c. destruct (Z.eqb_spec d 0) as [H0|H0].
    - intros [= <- <-]. subst d. destruct (code && byte_is b 0x7b); [lia|].
      destruct (code && byte_is b 0x7d) eqn:C; [|lia]. apply andb_true_iff in C as [_ C].
      by rewrite (byte_is_u8b _ _ C).
    - intros H. apply with_byte_Some in H as (p' & H & ->). apply IH in H; [by rewrite H|].
      subst d. repeat destruct (code && _); lia. }
  destruct l1 as [|c l2]; [apply Hstep|]. destruct (byte_is b 0x5c && _); [|apply Hstep].
  intros H. apply with_byte_Some in H as (p' & H & ->). apply with_byte_Some in H as (p2 & H & ->).
  apply IH in H; [|done]. by rewrite H.
Qed.

(** ** The shape of a clause *)

Definition pred_text (o : option bytes) : bytes :=
  match o with Some p => u8b 0x2f :: p ++ [u8b 0x2f] | None => [] end.

(** The specs up to the first [/] or [{], the predicate between slashes, white
    space, and the body between braces. *)
Record clause_shape (c : Clause) : Prop := {
  cs_text : exists raw ws,
    clause_source c = raw ++ pred_text (clause_pred c) ++ ws ++ u8b 0x7b :: clause_body c ++ [u8b 0x7d]
    /\ Forall (fun x => is_ascii_whitespace x = true) ws
    /\ Forall (fun x => byte_is x 0x2f = false /\ byte_is x 0x7b = false) raw
    /\ clause_specs c = omap parse_spec (split_on 0x2c (trim (chars_of raw)));
  cs_specs : clause_specs c <> []
}.

Lemma upto_app a rest : upto (a ++ rest) rest = a.
Proof.
  unfold upto. rewrite length_app. replace (length a + length rest - length rest)%nat with (length a) by lia.
  apply take_app_length.
Qed.

Lemma skip_whitespace_spec l :
  exists ws, l = ws ++ skip_whitespace l /\ Forall (fun x => is_ascii_whitespace x = true) ws.
Proof.
  unfold skip_whitespace. destruct (span_spec is_ascii_whitespace l) as [H1 H2].
  exists (span is_ascii_whitespace l).1. by rewrite H1.
Qed.

Lemma parse_clause_shape size ps raw l c rest :
  Forall (fun x => byte_is x 0x2f = false /\ byte_is x 0x7b = false) raw ->
  ps = omap parse_spec (split_on 0x2c (trim (chars_of raw))) -> ps <> [] ->
  parse_clause size ps (raw ++ l) l = Ret (AClause c rest) ->
  clause_shape c /\ raw ++ l = clause_source c ++ rest.
Proof.
  intros Hraw Hps Hne. unfold parse_clause.
  assert (B : forall pred r0, l = pred_text pred ++ r0 ->
    match skip_whitespace r0 with
    | b :: rest =>
        if byte_is b 0x7b then
          match scan_body (length rest) 1 false false rest with
          | Some (body, rest) => Ret (AClause {| clause_specs := ps; clause_pred := pred; clause_body := body;
              clause_source := upto (raw ++ l) rest |} rest)
          | None => Throw (UnterminatedBody ps)
          end
        else Throw (ExpectedBody ps)
    | [] => Throw (ExpectedBody ps)
    end = Ret (AClause c rest) -> clause_shape c /\ raw ++ l = clause_source c ++ rest).
  { intros pred r0 Hl. destruct (skip_whitespace_spec r0) as (ws & Hr & Hws).
    destruct (skip_whitespace r0) as [|b r1]; [done|]. destruct (byte_is b 0x7b) eqn:Hb; [|done].
    apply byte_is_u8b in Hb as ->. destruct (scan_body _ _ _ _ _) as [[bd r2]|] eqn:S; [|done].
    apply scan_body_spec in S; [|lia]. intros [= <- <-]. subst r0 r1.
    assert (E : raw ++ l = (raw ++ pred_text pred ++ ws ++ u8b 0x7b :: bd ++ [u8b 0x7d]) ++ r2).
    { rewrite Hl, <- !app_assoc. cbn [app]. by rewrite <- app_assoc. }
    rewrite E, upto_app. split; [|done]. split; [|done]. exists raw, ws. by split_and!. }
  destruct l as [|b l1]; [intros H; by apply (B None [])|].
  destruct (byte_is b 0x2f) eqn:Hb; [|intros H; by apply (B None (b :: l1))].
  apply byte_is_u8b in Hb as ->. destruct (scan_predicate _ _ _ _) as [[p r]|] eqn:S; [|done].
  rewrite bind_Ret. apply scan_predicate_spec in S. intros H. apply (B (Some p) r); [|done].
  cbn [pred_text app]. by rewrite S, <- app_assoc.
Qed.

(** ** White space *)

Definition is_white (x : Init.Byte.byte) : bool := is_ascii_whitespace x || byte_is x 0x0b.
Definition visible (l : bytes) : bytes := filter (fun x => is_white x = false) l.
Definition all_white (l : bytes) : Prop := Forall (fun x => is_white x = true) l.

Lemma visible_app a b : visible (a ++ b) = visible a ++ visible b.
Proof. apply list.filter_app. Qed.

Lemma visible_white l : all_white l -> visible l = [].
Proof.
  induction 1 as [|x l Hx Hl IH]; [done|]. unfold visible. rewrite filter_cons_False by congruence. apply IH.
Qed.


Lemma strip_one_app cs : forall l r, strip_one cs l = Some r -> exists c, c ∈ cs /\ l = c ++ r.
Proof.
  induction cs as [|c cs IH]; intros l r; cbn [strip_one]; [done|].
  destruct (drop_prefix c l) as [l'|] eqn:D.
  - intros [= <-]. exists c. split; [apply elem_of_cons; by left|by apply drop_prefix_Some].
  - intros H. destruct (IH _ _ H) as (d & Hd & ->). exists d. split; [apply elem_of_cons; by right|done].
Qed.

(** In an ASCII string only ASCII white space can match. *)
Definition white_or_wide (c : bytes) : bool := forallb is_white c || existsb (fun x => 0x80 <=? byte.unsigned x) c.

Lemma trim_with_white cs fuel : forallb white_or_wide cs = true -> forall l,
  Forall ascii_byte l -> exists a, l = a ++ trim_with fuel cs l /\ all_white a.
Proof.
  intros Hcs. induction fuel as [|fuel IH]; intros l Hl; cbn [trim_with];
    [exists []; split; [done|constructor]|].
  destruct (strip_one cs l) as [l'|] eqn:S; [|exists []; split; [done|constructor]].
  apply strip_one_app in S as (c & Hc & ->). apply list.Forall_app in Hl as [Hca Hl].
  destruct (IH l' Hl) as (a & Ha & Hw). exists (c ++ a). split; [rewrite <- app_assoc; f_equal; exact Ha|].
  apply list.Forall_app_2; [|done]. rewrite forallb_forall in Hcs.
  specialize (Hcs c ltac:(by apply list_elem_of_In)). apply orb_true_iff in Hcs as [Hcs|Hcs].
  - rewrite forallb_forall in Hcs. apply list.Forall_forall. intros x Hx. by apply Hcs, list_elem_of_In.
  - apply existsb_exists in Hcs as (x & Hx & Hhi). apply list_elem_of_In in Hx.
    rewrite list.Forall_forall in Hca. specialize (Hca x Hx). unfold ascii_byte in Hca. lia.
Qed.

Lemma trim_ascii l : Forall ascii_byte l ->
  exists a b, l = a ++ trim l ++ b /\ all_white a /\ all_white b.
Proof.
  intros Hl. unfold trim, trim_start, trim_end.
  destruct (trim_with_white white_chars (length l) eq_refl l Hl) as (a & Ha & Hw).
  set (m := trim_with (length l) white_chars l) in *.
  assert (Hm : Forall ascii_byte (rev m)).
  { rewrite Ha in Hl. apply list.Forall_app in Hl as [_ Hl]. by apply Forall_rev. }
  destruct (trim_with_white (map (@rev _) white_chars) (length m) eq_refl (rev m) Hm) as (b & Hb & Hw').
  exists a, (rev b). split_and!; [|done|by apply Forall_rev].
  rewrite <- rev_app_distr, <- Hb, rev_involutive. exact Ha.
Qed.

Lemma visible_trim l : Forall ascii_byte l -> visible (trim l) = visible l.
Proof.
  intros Hl. destruct (trim_ascii l Hl) as (a & b & E & Ha & Hb).
  rewrite E at 2. rewrite !visible_app, (visible_white a Ha), (visible_white b Hb). by rewrite app_nil_r.
Qed.

Lemma char_of_ascii x : ascii_byte x -> char_of x = [x].
Proof. unfold char_of, ascii_byte. intros H. by destruct (Z.ltb_spec (byte.unsigned x) 0x80); [|lia]. Qed.

Lemma chars_of_ascii l : Forall ascii_byte l -> chars_of l = l.
Proof.
  induction 1 as [|x l Hx Hl IH]; [done|]. unfold chars_of in *. cbn [flat_map]. by rewrite char_of_ascii, IH.
Qed.

(** ** The source is cut, nothing of it lost

    [cut l t cs]: [l] is texts and clauses in order, [cs] are the clauses and
    [t] the texts but for white space. *)
Inductive cut : bytes -> bytes -> list Clause -> Prop :=
| cut_nil : cut [] [] []
| cut_text g l t' t cs : visible t' = visible g -> cut l t cs -> cut (g ++ l) (t' ++ t) cs
| cut_clause c l t cs : clause_shape c -> cut l t cs -> cut (clause_source c ++ l) t (c :: cs).

(** One turn of the loop takes a text or a clause off the front. *)
Definition takes (l : bytes) (p : piece) : Prop :=
  match p with
  | Text t rest => exists g, l = g ++ rest /\ g <> [] /\ (Forall ascii_byte l -> visible t = visible g)
  | AClause c rest => clause_shape c /\ l = clause_source c ++ rest
  end.

Lemma takes_hash l b l1 :
  l = b :: l1 -> byte_is b 0x23 = true ->
  let '(line, rest) := span (fun x => negb (byte_is x 0x0a)) l in takes l (Text (chars_of line) rest).
Proof.
  intros -> Hash. destruct (span_spec (fun x => negb (byte_is x 0x0a)) (b :: l1)) as [E _].
  destruct (span _ _) as [line rest] eqn:Hs. cbn [fst snd] in E. exists line. split; [by symmetry|]. split.
  - intros ->. cbn [span] in Hs. apply byte_is_eq in Hash. unfold byte_is in Hs. rewrite Hash in Hs.
    cbn [negb Z.eqb] in Hs. by destruct (span _ l1).
  - rewrite <- E. intros [Ha _]%list.Forall_app. by rewrite (chars_of_ascii _ Ha).
Qed.

Lemma parse_clause_no_text size ps start l t rest : parse_clause size ps start l <> Ret (Text t rest).
Proof.
  assert (B : forall pred r0,
    match skip_whitespace r0 with
    | b :: rest =>
        if byte_is b 0x7b then
          match scan_body (length rest) 1 false false rest with
          | Some (body, rest) => Ret (AClause {| clause_specs := ps; clause_pred := pred; clause_body := body;
              clause_source := upto start rest |} rest)
          | None => Throw (UnterminatedBody ps)
          end
        else Throw (ExpectedBody ps)
    | [] => Throw (ExpectedBody ps)
    end <> Ret (Text t rest)).
  { intros pred r0. destruct (skip_whitespace r0) as [|y r2]; [done|]. destruct (byte_is y 0x7b); [|done].
    by destruct (scan_body _ _ _ _ _) as [[? ?]|]. }
  unfold parse_clause. destruct l as [|x l]; [apply (B None)|]. destruct (byte_is x 0x2f); [|apply (B None)].
  destruct (scan_predicate _ _ _ _) as [[p r']|]; [|done]. apply (B (Some p)).
Qed.

Lemma parse_piece_takes size l p : l <> [] -> parse_piece size l = Ret p -> takes l p.
Proof.
  destruct l as [|b l1]; [done|]. intros _. cbn [parse_piece]. set (l := b :: l1).
  destruct (byte_is b 0x23) eqn:Hash.
  { pose proof (takes_hash l b l1 eq_refl Hash) as H. destruct (span _ l). by intros [= <-]. }
  pose proof (span_spec (fun x => negb (byte_is x 0x2f) && negb (byte_is x 0x7b)) l) as [E Hraw].
  destruct (span _ l) as [raw rest]. cbn [fst snd] in E, Hraw.
  assert (Hraw' : Forall (fun x => byte_is x 0x2f = false /\ byte_is x 0x7b = false) raw).
  { eapply list.Forall_impl; [exact Hraw|]. intros x [H1 H2]%andb_true_iff. by rewrite !negb_true_iff in *. }
  assert (Hv : Forall ascii_byte l -> visible (trim (chars_of raw)) = visible raw).
  { rewrite <- E. intros [Ha _]%list.Forall_app. rewrite (chars_of_ascii _ Ha). by apply visible_trim. }
  destruct (is_empty (trim (chars_of raw))) eqn:Ht.
  { assert (Ht' : trim (chars_of raw) = []) by (by destruct (trim (chars_of raw))). rewrite Ht' in Hv.
    destruct rest as [|c rest].
    - intros [= <-]. exists raw. rewrite app_nil_r in E. rewrite app_nil_r. split_and!; [done|by rewrite E|done].
    - intros [= <-]. exists (raw ++ [c]). rewrite <- app_assoc. split_and!; [done|by destruct raw|].
      intros Ha. rewrite visible_app, <- Hv by done. rewrite <- E in Ha.
      apply list.Forall_app in Ha as [_ [Hc _]%list.Forall_cons]. by rewrite char_of_ascii. }
  assert (Hrn : raw <> []) by (intros ->; done).
  destruct (omap parse_spec (split_on 0x2c (trim (chars_of raw)))) as [|sp ps] eqn:Hps.
  { intros [= <-]. exists raw. split_and!; [done|done|exact Hv]. }
  intros H. destruct p as [t r|c r]; [by apply parse_clause_no_text in H|]. rewrite <- E in H |- *.
  apply (parse_clause_shape size (sp :: ps) raw rest c r); [done|by symmetry|done|done].
Qed.

Lemma takes_shorter l p :
  takes l p -> (length (match p with Text _ rest => rest | AClause _ rest => rest end) < length l)%nat.
Proof.
  destruct p as [t r|c r].
  - intros (g & -> & Hg & _). rewrite length_app. destruct g; [done|]. cbn [length]. lia.
  - intros [[(w & ws & E & _) _] ->]. rewrite length_app, E, !length_app. cbn [length]. lia.
Qed.

Lemma parse_loop_cut size fuel : forall l out,
  (length l <= fuel)%nat ->
  match parse_loop fuel size l out with
  | Ret p => exists t cs, preamble p = preamble out ++ t /\ clauses p = clauses out ++ cs
             /\ Forall clause_shape cs /\ (Forall ascii_byte l -> cut l t cs)
  | Throw _ => True
  | Panic => False
  end.
Proof.
  induction fuel as [|fuel IH]; intros l out Hf.
  { destruct l; [|cbn [length] in Hf; lia]. exists [], []. rewrite !app_nil_r. split_and!; [done..|constructor]. }
  destruct l as [|x l]; [exists [], []; rewrite !app_nil_r; split_and!; [done..|constructor]|].
  cbn [parse_loop]. pose proof (span_spec is_ascii_whitespace (x :: l)) as [E Hws].
  destruct (span is_ascii_whitespace (x :: l)) as [ws r]. cbn [fst snd] in E, Hws.
  assert (Hl : (length r <= S fuel)%nat) by (rewrite <- E, length_app in Hf; lia).
  assert (W : forall t cs, (Forall ascii_byte r -> cut r t cs) -> Forall ascii_byte (x :: l) -> cut (x :: l) (chars_of ws ++ t) cs).
  { intros t cs H. rewrite <- E. intros [Ha Hb]%list.Forall_app. constructor; [by rewrite chars_of_ascii|by apply H]. }
  destruct r as [|y r].
  { exists (chars_of ws), []. cbn [preamble clauses]. rewrite app_nil_r. split_and!; [done..|].
    rewrite <- (app_nil_r (chars_of ws)). apply W. constructor. }
    destruct (parse_piece size (y :: r)) as [p|e|] eqn:P; [|done|].
  2:{ exfalso. revert P. clear. cbn [parse_piece]. destruct (byte_is y 0x23); [by destruct (span _ _)|].
      destruct (span _ (y :: r)) as [raw rest]. destruct (is_empty _); [by destruct rest|].
      destruct (omap _ _); [done|]. unfold parse_clause. destruct rest as [|z rest]; [done|].
      destruct (byte_is z 0x2f).
      - destruct (scan_predicate _ _ _ _) as [[? r']|]; [|done]. rewrite bind_Ret.
        destruct (skip_whitespace r'); [done|]. destruct (byte_is _ 0x7b); [|done].
        by destruct (scan_body _ _ _ _ _) as [[? ?]|].
      - rewrite bind_Ret. destruct (skip_whitespace _); [done|]. destruct (byte_is _ 0x7b); [|done].
        by destruct (scan_body _ _ _ _ _) as [[? ?]|]. }
  rewrite bind_Ret. apply parse_piece_takes in P; [|done]. pose proof (takes_shorter _ _ P) as Hsh.
  destruct p as [t rest|c rest].
  - destruct P as (g & Eg & _ & Hv).
    specialize (IH rest {| preamble := (preamble out ++ chars_of ws) ++ t; clauses := clauses out |} ltac:(lia)).
    destruct (parse_loop _ _ _ _) as [q|?|]; [|done..]. destruct IH as (t' & cs & Hp & Hc & Hs & Hcut).
    cbn [preamble clauses] in Hp, Hc.
    exists (chars_of ws ++ t ++ t'), cs. split; [by rewrite Hp, <- !app_assoc|]. split_and!; [done|done|].
    apply W. rewrite Eg. intros Ha. pose proof Ha as [_ Hr]%list.Forall_app. constructor; [|by apply Hcut].
    apply Hv. by rewrite Eg.
  - destruct P as [Hs El].
    specialize (IH rest {| preamble := preamble out ++ chars_of ws; clauses := clauses out ++ [c] |} ltac:(lia)).
    destruct (parse_loop _ _ _ _) as [q|?|]; [|done..]. destruct IH as (t' & cs & Hp & Hc & Hss & Hcut).
    cbn [preamble clauses] in Hp, Hc.
    exists (chars_of ws ++ t'), (c :: cs). split; [by rewrite Hp, <- !app_assoc|].
    split; [by rewrite Hc, <- app_assoc|]. split; [by constructor|]. apply W. rewrite El.
    intros [_ Hr]%list.Forall_app. constructor; [done|by apply Hcut].
Qed.

(** C22: Splitting a source always ends, and not in a panic.  The clauses are of
    the shape of the grammar; and when the source is ASCII it is, its comments
    stripped, the clauses' sources and other texts in order, of which the
    preamble keeps everything but white space. *)
Theorem split_conserves input :
  match parse_source input with
  | Ret p => Forall clause_shape (clauses p)
             /\ (Forall ascii_byte (strip_comments input) -> cut (strip_comments input) (preamble p) (clauses p))
  | Throw _ => True
  | Panic => False
  end.
Proof.
  unfold parse_source.
  pose proof (parse_loop_cut (len (strip_comments input)) (length (strip_comments input)) (strip_comments input)
    {| preamble := []; clauses := [] |} (le_n _)) as H.
  destruct (parse_loop _ _ _ _) as [p|?|]; [|done..]. destruct H as (t & cs & -> & -> & Hs & Hcut). by split.
Qed.
