(* ===== verification/DParseRt.v ===== *)
(** The D source splitter (DParse.v) inverts a printer: scripts of clauses
    written out by the grammar, with strings and nested braces in their
    bodies, are split into those clauses; and a probe description printed
    again is the text it was parsed from. *)

From Stdlib Require Import Strings.String.
From stdpp Require Import list.
From S2P Require Import Utf8.
From S2P Require Import Text.
From S2P Require Import Schema.
From S2P Require Import DParse.
From S2P Require Import DParseOk.
From S2P Require Import Prelude.

Local Open Scope Z_scope.
Local Open Scope list_scope.

(** ** Splitting and joining *)

Fixpoint join (c : Z) (ls : list bytes) : bytes :=
  match ls with
  | [] => []
  | [x] => x
  | x :: ls => x ++ u8b c :: join c ls
  end.

Lemma join_cons c x y ls : join c (x :: y :: ls) = x ++ u8b c :: join c (y :: ls).
Proof. done. Qed.

Lemma splitn_S c n l :
  splitn (S (S n)) c l =
  let '(a, rest) := span (fun x => negb (byte_is x c)) l in
  match rest with [] => [a] | _ :: rest => a :: splitn (S n) c rest end.
Proof. done. Qed.

Lemma splitn_join c n : forall l, join c (splitn (S n) c l) = l /\ splitn (S n) c l <> [].
Proof.
  induction n as [|n IH]; intros l; [done|]. rewrite splitn_S.
  pose proof (span_spec (fun x => negb (byte_is x c)) l) as [E _].
  destruct (span _ l) as [a [|y rest]] eqn:Hs; cbn [fst snd] in E; [split; [|done]; by rewrite app_nil_r in E|].
  split; [|done]. destruct (IH rest) as [Hj Hne]. destruct (splitn (S n) c rest) as [|z zs]; [done|].
  rewrite join_cons, Hj, <- E. f_equal. f_equal.
  enough (H : negb (byte_is y c) = false) by (apply negb_false_iff in H; symmetry; by apply byte_is_u8b).
  clear - Hs. revert a Hs. induction l as [|x l IH]; intros a; cbn [span]; [done|].
  destruct (negb (byte_is x c)) eqn:C; [|by intros [= _ <- _]].
  destruct (span _ l) as [b r]. intros [= _ ->]. by eapply IH.
Qed.

(** What a description was parsed from, printed again: its text without the
    white space around it, but for an empty triple of fields, which is dropped. *)
Theorem spec_render_inverts s p :
  parse_spec s = Some p ->
  render p = trim s
  \/ (spec_binary p = None /\ render p = spec_provider p /\ trim s = spec_provider p ++ str ":::").
Proof.
  unfold parse_spec. set (t := trim s). clearbody t. clear s.
  destruct (_ && negb (is_empty t)); [intros [= <-]; by left|].
  destruct (is_5tuple (splitn 3 58 t)) eqn:T5.
  - destruct (splitn_join 58 4 t) as [Hj _]. rewrite !splitn_S in *.
    destruct (span _ t) as [p0 [|c1 r1]]; [done|]. rewrite !splitn_S in *.
    destruct (span _ r1) as [m [|c2 r2]]; [done|].
    destruct (splitn 3 58 r2) as [|b [|f [|n [|? ?]]]]; try done. intros [= <-]. left. rewrite <- Hj.
    unfold render. cbn [spec_module spec_function spec_name spec_binary spec_provider].
    assert (Hm : is_empty m = false).
    { destruct m; [|done]. exfalso. revert T5. unfold is_5tuple, is_str. cbn [splitn].
      rewrite !andb_false_r. done. }
    by rewrite Hm.
  - destruct (splitn_join 58 3 t) as [Hj _].
    destruct (splitn 4 58 t) as [|p0 [|m [|f [|n [|? ?]]]]]; try done. intros [= <-]. rewrite <- Hj.
    unfold render. cbn [spec_module spec_function spec_name spec_binary spec_provider].
    destruct m as [|x m]; [|by left]. destruct f as [|y f]; [|by left]. destruct n as [|z n]; [by right|by left].
Qed.

(** ** Tokens

    A body or a predicate: bytes with no meaning to the splitter, string
    literals and, in a body, braces. *)
Inductive tok : Type :=
| Plain (x : Init.Byte.byte)
| Quote (l : bytes)
| Open
| Close.

Definition QUOTE : Init.Byte.byte := u8b 0x22.

Definition tok_bytes (t : tok) : bytes :=
  match t with
  | Plain x => [x]
  | Quote l => QUOTE :: l ++ [QUOTE]
  | Open => [u8b 0x7b]
  | Close => [u8b 0x7d]
  end.
Definition text (ts : list tok) : bytes := flat_map tok_bytes ts.

Definition is_low (x : Init.Byte.byte) : bool := byte.unsigned x <? 0x80.
Definition plain_byte (x : Init.Byte.byte) : bool :=
  is_low x && negb (existsb (byte_is x) [0x22; 0x27; 0x2f; 0x5c; 0x7b; 0x7d]).
Definition quoted_byte (x : Init.Byte.byte) : bool := is_low x && negb (existsb (byte_is x) [0x22; 0x5c]).

Definition tok_ok (t : tok) : bool :=
  match t with Plain x => plain_byte x | Quote l => forallb quoted_byte l | _ => true end.

(** The braces match, and the clause's own is not closed inside. *)
Fixpoint balanced (depth : Z) (ts : list tok) : bool :=
  match ts with
  | [] => depth =? 1
  | Open :: ts => balanced (depth + 1) ts
  | Close :: ts => (2 <=? depth) && balanced (depth - 1) ts
  | _ :: ts => balanced depth ts
  end.

Definition no_brace (t : tok) : bool := match t with Open | Close => false | _ => true end.

Lemma plain_byte_not x c : plain_byte x = true -> In c [0x22; 0x27; 0x2f; 0x5c; 0x7b; 0x7d] -> byte_is x c = false.
Proof.
  intros [_ H%negb_true_iff]%andb_true_iff Hc. destruct (byte_is x c) eqn:E; [|done].
  enough (existsb (byte_is x) [34; 39; 47; 92; 123; 125] = true) by congruence.
  apply existsb_exists. by exists c.
Qed.

Lemma quoted_byte_not x c : quoted_byte x = true -> In c [0x22; 0x5c] -> byte_is x c = false.
Proof.
  intros [_ H%negb_true_iff]%andb_true_iff Hc. destruct (byte_is x c) eqn:E; [|done].
  enough (existsb (byte_is x) [34; 92] = true) by congruence. apply existsb_exists. by exists c.
Qed.

Ltac plain_facts H :=
  pose proof (plain_byte_not _ 0x22 H ltac:(cbn; tauto)); pose proof (plain_byte_not _ 0x27 H ltac:(cbn; tauto));
  pose proof (plain_byte_not _ 0x2f H ltac:(cbn; tauto)); pose proof (plain_byte_not _ 0x5c H ltac:(cbn; tauto));
  pose proof (plain_byte_not _ 0x7b H ltac:(cbn; tauto)); pose proof (plain_byte_not _ 0x7d H ltac:(cbn; tauto)).

(** Tests of a byte the goal spells out. *)
Ltac known := repeat match goal with
  | |- context [byte_is ?x ?c] =>
      let v := eval vm_compute in (byte_is x c) in
      match v with true => change (byte_is x c) with true | false => change (byte_is x c) with false end
  end; cbn [negb andb orb].

(** *** A body *)

(** One step of the scan at a byte that is no backslash, or is not quoted. *)
Lemma scan_body_step fuel d in_s in_c b l :
  byte_is b 0x5c && (in_s || in_c) = false ->
  scan_body (S fuel) d in_s in_c (b :: l) =
  (let dq := negb in_c && byte_is b 0x22 in
   let sq := negb dq && negb in_s && byte_is b 0x27 in
   let code := negb dq && negb sq && negb in_s && negb in_c in
   let depth := if code && byte_is b 0x7b then d + 1 else if code && byte_is b 0x7d then d - 1 else d in
   if depth =? 0 then Some ([], l)
   else with_byte b (scan_body fuel depth (if dq then negb in_s else in_s) (if sq then negb in_c else in_c) l)).
Proof. intros H. cbn [scan_body]. rewrite H. by destruct l. Qed.

Lemma with_byte_app x r a rest : r = Some (a, rest) -> with_byte x r = Some (x :: a, rest).
Proof. by intros ->. Qed.

Lemma scan_body_quoted d l rest a r : forallb quoted_byte l = true -> 1 <= d -> forall fuel,
  (length l < fuel)%nat ->
  (forall f, (length l + S f = fuel)%nat -> scan_body f d false false rest = Some (a, r)) ->
  scan_body fuel d true false (l ++ QUOTE :: rest) = Some (l ++ QUOTE :: a, r).
Proof.
  intros Hl Hd. induction l as [|x l IH]; intros fuel Hf Hk; (destruct fuel as [|fuel]; [cbn [length] in Hf; lia|]).
  - cbn [app]. rewrite scan_body_step by done. known.
    destruct (Z.eqb_spec d 0); [lia|]. apply with_byte_app. apply Hk. done.
  - cbn [forallb] in Hl. apply andb_true_iff in Hl as [Hx Hl]. cbn [app].
    rewrite scan_body_step by (rewrite (quoted_byte_not x 0x5c) by (try done; cbn; tauto); done).
    rewrite (quoted_byte_not x 0x22) by (try done; cbn; tauto). cbn [negb andb].
    destruct (Z.eqb_spec d 0); [lia|]. apply with_byte_app, IH; [done|cbn [length] in Hf; lia|].
    intros f Hf'. apply Hk. cbn [length]. lia.
Qed.

Lemma scan_body_text rest : forall ts d fuel,
  forallb tok_ok ts = true -> 1 <= d -> balanced d ts = true -> (length (text ts) < fuel)%nat ->
  scan_body fuel d false false (text ts ++ u8b 0x7d :: rest) = Some (text ts, rest).
Proof.
  induction ts as [|t ts IH]; intros d fuel Hok Hd Hb Hf; (destruct fuel as [|fuel]; [lia|]).
  { cbn [balanced] in Hb. apply Z.eqb_eq in Hb as ->. cbn [text flat_map app].
    rewrite scan_body_step by done. by known. }
  cbn [forallb] in Hok. apply andb_true_iff in Hok as [Ht Hok]. cbn [balanced] in Hb.
  unfold text in *. cbn [flat_map] in *. rewrite length_app in Hf. rewrite <- app_assoc.
  destruct t as [x|l| |]; cbn [tok_bytes tok_ok app length] in *.
  - plain_facts Ht. rewrite scan_body_step by by rewrite andb_false_r.
    repeat match goal with H : byte_is x _ = false |- _ => rewrite H; clear H end. cbn [negb andb].
    destruct (Z.eqb_spec d 0); [lia|]. apply with_byte_app, IH; [done..|lia].
  - rewrite scan_body_step by done. known. destruct (Z.eqb_spec d 0); [lia|]. apply with_byte_app.
    rewrite <- !app_assoc. cbn [app]. rewrite length_app in Hf. cbn [length] in Hf.
    apply scan_body_quoted; [done..|lia|]. intros f Hf'. apply IH; [done..|lia].
  - rewrite scan_body_step by done. known. destruct (Z.eqb_spec (d + 1) 0); [lia|].
    apply with_byte_app, IH; [done|lia|done|lia].
  - apply andb_true_iff in Hb as [Hd2%Z.leb_le Hb]. rewrite scan_body_step by done. known.
    destruct (Z.eqb_spec (d - 1) 0); [lia|]. apply with_byte_app, IH; [done|lia|done|lia].
Qed.

(** *** A predicate *)

Lemma scan_predicate_step fuel in_s in_c b l :
  byte_is b 0x5c = false ->
  scan_predicate (S fuel) in_s in_c (b :: l) =
  (let dq := negb in_c && byte_is b 0x22 in
   let sq := negb dq && negb in_s && byte_is b 0x27 in
   if negb dq && negb sq && negb in_s && negb in_c && byte_is b 0x2f then Some ([], l)
   else with_byte b (scan_predicate fuel (if dq then negb in_s else in_s) (if sq then negb in_c else in_c) l)).
Proof. intros H. cbn [scan_predicate]. rewrite H. by destruct l. Qed.

Lemma scan_predicate_quoted l rest a r : forallb quoted_byte l = true -> forall fuel,
  (length l < fuel)%nat ->
  (forall f, (length l + S f = fuel)%nat -> scan_predicate f false false rest = Some (a, r)) ->
  scan_predicate fuel true false (l ++ QUOTE :: rest) = Some (l ++ QUOTE :: a, r).
Proof.
  intros Hl. induction l as [|x l IH]; intros fuel Hf Hk; (destruct fuel as [|fuel]; [cbn [length] in Hf; lia|]).
  - cbn [app]. rewrite scan_predicate_step by done. known. apply with_byte_app. by apply Hk.
  - cbn [forallb] in Hl. apply andb_true_iff in Hl as [Hx Hl]. cbn [app].
    rewrite scan_predicate_step by (apply quoted_byte_not; [done|cbn; tauto]).
    rewrite (quoted_byte_not x 0x22) by (try done; cbn; tauto). cbn [negb andb].
    apply with_byte_app, IH; [done|cbn [length] in Hf; lia|]. intros f Hf'. apply Hk. cbn [length]. lia.
Qed.

Lemma scan_predicate_text rest : forall ts fuel,
  forallb tok_ok ts = true -> forallb no_brace ts = true -> (length (text ts) < fuel)%nat ->
  scan_predicate fuel false false (text ts ++ u8b 0x2f :: rest) = Some (text ts, rest).
Proof.
  induction ts as [|t ts IH]; intros fuel Hok Hn Hf; (destruct fuel as [|fuel]; [lia|]).
  { cbn [text flat_map app]. rewrite scan_predicate_step by done. by known. }
  cbn [forallb] in Hok, Hn. apply andb_true_iff in Hok as [Ht Hok]. apply andb_true_iff in Hn as [Htn Hn].
  unfold text in *. cbn [flat_map] in *. rewrite length_app in Hf. rewrite <- app_assoc.
  destruct t as [x|l| |]; cbn [tok_bytes tok_ok app length] in *; [| |done..].
  - plain_facts Ht. rewrite scan_predicate_step by done.
    repeat match goal with H : byte_is x _ = false |- _ => rewrite H; clear H end. cbn [negb andb].
    apply with_byte_app, IH; [done..|lia].
  - rewrite scan_predicate_step by done. known. apply with_byte_app.
    rewrite <- !app_assoc. cbn [app]. rewrite length_app in Hf. cbn [length] in Hf.
    apply scan_predicate_quoted; [done|lia|]. intros f Hf'. apply IH; [done..|lia].
Qed.

(** *** Comments *)

(** One step of the stripper at an ASCII byte that starts no comment. *)
Definition starts_comment (b : Init.Byte.byte) (l : bytes) : bool :=
  byte_is b 0x2f && match l with c :: _ => byte_is c 0x2f || byte_is c 0x2a | [] => false end.

Lemma strip_step fuel in_s in_c b l :
  is_low b = true -> byte_is b 0x5c && (in_s || in_c) = false ->
  (in_s || in_c) = true \/ starts_comment b l = false ->
  strip_loop (S fuel) in_s in_c (b :: l) =
  b :: strip_loop fuel (if byte_is b 0x22 && negb in_c then negb in_s else in_s)
         (if negb (byte_is b 0x22 && negb in_c) && byte_is b 0x27 && negb in_s then negb in_c else in_c) l.
Proof.
  intros Hb Hq Hc. cbn [strip_loop]. rewrite char_of_ascii by (unfold ascii_byte, is_low in *; lia). cbn [app].
  destruct l as [|c l]; [done|]. rewrite Hq.
  destruct (negb (in_s || in_c) && byte_is b 0x2f) eqn:E; [|done].
  apply andb_true_iff in E as [E1 E2]. apply negb_true_iff in E1. destruct Hc as [Hc|Hc]; [congruence|].
  unfold starts_comment in Hc. rewrite E2 in Hc. cbn [andb] in *. by apply orb_false_iff in Hc as [-> ->].
Qed.

Lemma strip_quoted l rest out : forallb quoted_byte l = true -> forall fuel,
  (length l < fuel)%nat ->
  (forall f, (length l + S f = fuel)%nat -> strip_loop f false false rest = out) ->
  strip_loop fuel true false (l ++ QUOTE :: rest) = l ++ QUOTE :: out.
Proof.
  intros Hl. induction l as [|x l IH]; intros fuel Hf Hk; (destruct fuel as [|fuel]; [cbn [length] in Hf; lia|]).
  - cbn [app]. rewrite strip_step by (done || by left). known. f_equal. by apply Hk.
  - cbn [forallb] in Hl. apply andb_true_iff in Hl as [Hx Hl]. cbn [app].
    pose proof (quoted_byte_not x 0x22 Hx ltac:(cbn; tauto)) as Q1.
    pose proof (quoted_byte_not x 0x5c Hx ltac:(cbn; tauto)) as Q2.
    rewrite strip_step; [|by apply andb_true_iff in Hx as [? _]|by rewrite Q2|by left].
    rewrite Q1. cbn [negb andb]. rewrite andb_false_r. f_equal. apply IH; [done|cbn [length] in Hf; lia|].
    intros f Hf'. apply Hk. cbn [length]. lia.
Qed.

(** Tokens hold no comment. *)
Lemma strip_text rest out : forall ts fuel,
  forallb tok_ok ts = true -> (length (text ts) <= fuel)%nat ->
  (forall f, (length (text ts) + f = fuel)%nat -> strip_loop f false false rest = out) ->
  strip_loop fuel false false (text ts ++ rest) = text ts ++ out.
Proof.
  induction ts as [|t ts IH]; intros fuel Hok Hf Hk.
  { cbn [text flat_map app]. by apply Hk. }
  cbn [forallb] in Hok. apply andb_true_iff in Hok as [Ht Hok].
  unfold text in *. cbn [flat_map] in *. rewrite length_app in Hf, Hk. rewrite <- !app_assoc.
  destruct fuel as [|fuel]; [destruct t; cbn [tok_bytes length] in Hf; lia|].
  destruct t as [x|l| |]; cbn [tok_bytes tok_ok app length] in *.
  - plain_facts Ht. rewrite strip_step.
    + repeat match goal with H : byte_is x _ = false |- _ => rewrite H; clear H end. cbn [negb andb].
      f_equal. apply IH; [done|lia|]. intros f Hf'. apply Hk. lia.
    + by apply andb_true_iff in Ht as [? _].
    + by rewrite andb_false_r.
    + right. unfold starts_comment. by replace (byte_is x 0x2f) with false.
  - rewrite strip_step by (done || by right). known. f_equal. rewrite <- !app_assoc. cbn [app].
    rewrite length_app in Hf, Hk. cbn [length] in Hf, Hk. apply strip_quoted; [done|lia|].
    intros f Hf'. apply IH; [done|lia|]. intros f2 Hf2. apply Hk. lia.
  - rewrite strip_step by (done || by right). known. f_equal. apply IH; [done|lia|]. intros f Hf'. apply Hk. lia.
  - rewrite strip_step by (done || by right). known. f_equal. apply IH; [done|lia|]. intros f Hf'. apply Hk. lia.
Qed.

(** ** Scripts *)

Record dclause : Type := {
  d_specs : list ProbeSpec;
  d_pred : option (list tok);
  d_body : list tok
}.

Definition spec_text (c : dclause) : bytes := join 0x2c (map render (d_specs c)).
Definition print_clause (c : dclause) : bytes :=
  spec_text c ++ pred_text (text <$> d_pred c) ++ u8b 0x7b :: text (d_body c) ++ [u8b 0x7d].
Definition print_script (l : list dclause) : bytes := flat_map (fun c => print_clause c ++ [NL]) l.

(** A description that is parsed back, of bytes that end no description. *)
#[export] Instance ProbeSpec_eq_dec : EqDecision ProbeSpec.
Proof. solve_decision. Defined.

Definition spec_byte (x : Init.Byte.byte) : bool := plain_byte x && negb (is_white x) && negb (byte_is x 0x2c).
Definition spec_ok (p : ProbeSpec) : bool :=
  bool_decide (parse_spec (render p) = Some p) && forallb spec_byte (render p).

Definition head_is_not (c : Z) (l : bytes) : bool := match l with x :: _ => negb (byte_is x c) | [] => false end.

Definition dclause_ok (c : dclause) : bool :=
  forallb spec_ok (d_specs c) && head_is_not 0x23 (spec_text c)
  && match d_pred c with
     | Some ts => forallb tok_ok ts && forallb no_brace ts && head_is_not 0x2a (text ts)
     | None => true
     end
  && forallb tok_ok (d_body c) && balanced 1 (d_body c).

Definition clause_of (c : dclause) : Clause :=
  {| clause_specs := d_specs c; clause_pred := text <$> d_pred c; clause_body := text (d_body c);
     clause_source := print_clause c |}.

(** *** The descriptions *)

Lemma join_bytes (f : Init.Byte.byte -> bool) c ls :
  f (u8b c) = true -> forallb (forallb f) ls = true -> forallb f (join c ls) = true.
Proof.
  intros Hc. induction ls as [|x [|y ls] IH]; intros H; [done| |].
  - cbn [forallb join] in *. by apply andb_true_iff in H as [? _].
  - rewrite join_cons. cbn [forallb] in H. apply andb_true_iff in H as [Hx H]. rewrite forallb_app.
    cbn [forallb]. by rewrite Hx, Hc, IH.
Qed.

Lemma split_join c ls : ls <> [] -> forallb (forallb (fun x => negb (byte_is x c))) ls = true ->
  byte_is (u8b c) c = true -> forall fuel, (length (join c ls) < fuel)%nat -> split_fuel fuel c (join c ls) = ls.
Proof.
  intros Hne H Hc. induction ls as [|x [|y ls] IH]; [done| |]; intros fuel Hf; (destruct fuel as [|fuel]; [lia|]);
    cbn [split_fuel forallb] in *; apply andb_true_iff in H as [Hx H];
    assert (Hx' : Forall (fun b => negb (byte_is b c) = true) x)
      by (apply list.Forall_forall; intros b Hb; rewrite forallb_forall in Hx; by apply Hx, list_elem_of_In).
  - cbn [join]. rewrite <- (app_nil_r x) at 1. by rewrite span_app.
  - rewrite join_cons in *. rewrite span_app by (try done; by rewrite Hc). f_equal. apply IH; [done|done|].
    rewrite length_app in Hf. cbn [length] in Hf. lia.
Qed.

Lemma spec_ok_facts c : dclause_ok c = true ->
  d_specs c <> [] /\ forallb plain_byte (spec_text c) = true /\ forallb (fun x => negb (is_white x)) (spec_text c) = true
  /\ omap parse_spec (split_on 0x2c (spec_text c)) = d_specs c.
Proof.
  unfold dclause_ok. intros [[[[Hs Hh]%andb_true_iff _]%andb_true_iff _]%andb_true_iff _]%andb_true_iff.
  assert (Hne : d_specs c <> []) by (intros E; unfold spec_text in Hh; by rewrite E in Hh).
  assert (Hb : forallb (forallb spec_byte) (map render (d_specs c)) = true).
  { rewrite forallb_forall in Hs |- *. intros x [p [<- Hp]]%in_map_iff. by apply Hs, andb_true_iff in Hp as [_ ?]. }
  assert (Hi : forall f : Init.Byte.byte -> bool, (forall x, spec_byte x = true -> f x = true) ->
    forallb (forallb f) (map render (d_specs c)) = true).
  { intros f Hf. rewrite forallb_forall in Hb |- *. intros x Hx. specialize (Hb x Hx).
    rewrite forallb_forall in Hb |- *. intros y Hy. by apply Hf, Hb. }
  split_and!; [done| | |].
  - apply join_bytes; [done|]. apply Hi. by intros x [[? _]%andb_true_iff _]%andb_true_iff.
  - apply join_bytes; [done|]. apply Hi. by intros x [[_ ?]%andb_true_iff _]%andb_true_iff.
  - unfold split_on, spec_text. rewrite split_join; [|by destruct (d_specs c)| |done|lia].
    + clear - Hs. induction (d_specs c) as [|p ps IH]; [done|]. cbn [map forallb omap list_omap] in *.
      apply andb_true_iff in Hs as [[Hp%bool_decide_eq_true _]%andb_true_iff Hs]. by rewrite Hp, IH.
    + apply Hi. by intros x [_ ?]%andb_true_iff.
Qed.

Lemma head_ok c : dclause_ok c = true -> head_is_not 0x23 (spec_text c) = true.
Proof. unfold dclause_ok. by intros [[[[_ Hh]%andb_true_iff _]%andb_true_iff _]%andb_true_iff _]%andb_true_iff. Qed.

Lemma plain_ascii l : forallb plain_byte l = true -> Forall ascii_byte l.
Proof.
  intros H. apply list.Forall_forall. intros x Hx. rewrite forallb_forall in H.
  specialize (H x ltac:(by apply list_elem_of_In)). apply andb_true_iff in H as [H _].
  unfold is_low, ascii_byte in *. lia.
Qed.

(** Nothing is trimmed from a text without white space. *)
Lemma trim_none l : Forall ascii_byte l -> forallb (fun x => negb (is_white x)) l = true -> trim l = l.
Proof.
  intros Ha H. destruct (trim_ascii l Ha) as (a & b & E & Hwa & Hwb).
  assert (N : forall m, all_white m -> (forall x, x ∈ m -> x ∈ l) -> m = []).
  { intros m Hm Hin. destruct m as [|x m]; [done|]. apply list.Forall_cons in Hm as [Hx _].
    rewrite forallb_forall in H. specialize (H x ltac:(apply list_elem_of_In, Hin, elem_of_cons; by left)).
    by rewrite Hx in H. }
  rewrite (N a Hwa), (N b Hwb) in E; [by rewrite app_nil_r in E| |];
    intros x Hx; rewrite E, !elem_of_app; tauto.
Qed.

(** *** A clause *)

Lemma is_prefix_span raw c l :
  forallb plain_byte raw = true -> byte_is c 0x2f || byte_is c 0x7b = true ->
  span (fun x => negb (byte_is x 0x2f) && negb (byte_is x 0x7b)) (raw ++ c :: l) = (raw, c :: l).
Proof.
  intros Hr Hc. apply span_app.
  - apply list.Forall_forall. intros x Hx. rewrite forallb_forall in Hr.
    specialize (Hr x ltac:(by apply list_elem_of_In)). plain_facts Hr.
    repeat match goal with H : byte_is x _ = false |- _ => rewrite H; clear H end. done.
  - by apply orb_true_iff in Hc as [-> | ->]; [|rewrite andb_false_r].
Qed.

Lemma parse_clause_of size c rest : dclause_ok c = true ->
  parse_clause size (d_specs c) (print_clause c ++ rest)
    (pred_text (text <$> d_pred c) ++ u8b 0x7b :: text (d_body c) ++ u8b 0x7d :: rest)
  = Ret (AClause (clause_of c) rest).
Proof.
  unfold dclause_ok. intros [[[_ Hp]%andb_true_iff Hb]%andb_true_iff Hbal]%andb_true_iff.
  assert (K : forall pred, text <$> d_pred c = pred ->
    match skip_whitespace (u8b 0x7b :: text (d_body c) ++ u8b 0x7d :: rest) with
    | b :: r =>
        if byte_is b 0x7b then
          match scan_body (length r) 1 false false r with
          | Some (body, r) => Ret (AClause {| clause_specs := d_specs c; clause_pred := pred; clause_body := body;
              clause_source := upto (print_clause c ++ rest) r |} r)
          | None => Throw (UnterminatedBody (d_specs c))
          end
        else Throw (ExpectedBody (d_specs c))
    | [] => Throw (ExpectedBody (d_specs c))
    end = Ret (AClause (clause_of c) rest)).
  { intros pred Hpred. unfold skip_whitespace. cbn [span]. change (is_ascii_whitespace (u8b 0x7b)) with false. cbn [snd].
    known. rewrite scan_body_text; [|done..|rewrite length_app; cbn [length]; lia].
    rewrite upto_app. unfold clause_of. by rewrite Hpred. }
  unfold parse_clause. destruct (d_pred c) as [ts|] eqn:P.
  - apply andb_true_iff in Hp as [[Ht Hn]%andb_true_iff _]. cbn [fmap option_fmap option_map pred_text app].
    known. rewrite <- app_assoc. cbn [app].
    rewrite scan_predicate_text; [|done..|rewrite length_app; cbn [length]; lia].
    rewrite bind_Ret. by apply K.
  - cbn [fmap option_fmap option_map pred_text app]. known. rewrite bind_Ret. by apply K.
Qed.

Lemma print_clause_app c rest :
  print_clause c ++ rest
  = spec_text c ++ pred_text (text <$> d_pred c) ++ u8b 0x7b :: text (d_body c) ++ u8b 0x7d :: rest.
Proof. unfold print_clause. rewrite <- !app_assoc. cbn [app]. by rewrite <- app_assoc. Qed.

Lemma parse_piece_of size c rest : dclause_ok c = true ->
  parse_piece size (print_clause c ++ rest) = Ret (AClause (clause_of c) rest).
Proof.
  intros Hc. destruct (spec_ok_facts c Hc) as (Hne & Hplain & Hws & Hom).
  pose proof (parse_clause_of size c rest Hc) as Hp.
  pose proof (head_ok c Hc) as Hh.
  rewrite print_clause_app in Hp |- *. set (l := pred_text _ ++ _) in *.
  destruct (spec_text c) as [|x raw] eqn:Hraw; [done|]. rewrite <- Hraw in *. unfold parse_piece.
  rewrite Hraw at 1. cbn [app]. rewrite Hraw in Hh. cbn [head_is_not] in Hh. apply negb_true_iff in Hh as ->.
  assert (Hl : exists c0 l0, l = c0 :: l0 /\ byte_is c0 0x2f || byte_is c0 0x7b = true).
  { subst l. destruct (d_pred c) as [ts|]; cbn [fmap option_fmap option_map pred_text app]; by eexists _, _. }
  destruct Hl as (c0 & l0 & El & Hc0). rewrite El in *. rewrite is_prefix_span by done.
  rewrite (chars_of_ascii _ (plain_ascii _ Hplain)), (trim_none _ (plain_ascii _ Hplain) Hws).
  rewrite Hraw at 1. cbn [is_empty]. rewrite Hom. destruct (d_specs c); [done|]. exact Hp.
Qed.

(** *** A script *)

Lemma print_head c rest : dclause_ok c = true ->
  match print_clause c ++ rest with x :: _ => is_ascii_whitespace x = false | [] => True end.
Proof.
  intros Hc. destruct (spec_ok_facts c Hc) as (_ & _ & Hws & _). rewrite print_clause_app.
  pose proof (head_ok c Hc) as Hh.
  destruct (spec_text c) as [|x raw]; [done|]. cbn [forallb app] in *. apply andb_true_iff in Hws as [Hx _].
  by apply negb_true_iff, orb_false_iff in Hx as [? _].
Qed.

Lemma parse_loop_script size : forall cs fuel ws out,
  forallb dclause_ok cs = true -> Forall (fun x => is_ascii_whitespace x = true) ws ->
  (length (ws ++ print_script cs) <= fuel)%nat ->
  parse_loop fuel size (ws ++ print_script cs) out
  = Ret {| preamble := preamble out ++ chars_of ws ++ replicate (length cs) NL;
           clauses := clauses out ++ map clause_of cs |}.
Proof.
  induction cs as [|c cs IH]; intros fuel ws out Hok Hws Hf.
  { cbn [print_script flat_map map length replicate] in *. rewrite !app_nil_r in *.
    destruct ws as [|w ws]; [destruct fuel; by destruct out; rewrite ?app_nil_r|].
    destruct fuel as [|fuel]; [cbn [length] in Hf; lia|]. cbn [parse_loop].
    pose proof (span_app is_ascii_whitespace (w :: ws) [] Hws I) as Hs. rewrite app_nil_r in Hs. by rewrite Hs. }
  cbn [forallb] in Hok. apply andb_true_iff in Hok as [Hc Hok]. cbn [print_script flat_map] in *.
  rewrite <- app_assoc in *. fold (print_script cs) in *. cbn [app] in *.
  pose proof (print_head c (NL :: print_script cs) Hc) as Hh.
  pose proof (span_app is_ascii_whitespace ws (print_clause c ++ NL :: print_script cs) Hws Hh) as Hs.
  assert (Hne : print_clause c <> []) by (unfold print_clause; by destruct (spec_text c), (d_pred c)).
  destruct fuel as [|fuel]; [rewrite !length_app in Hf; destruct (print_clause c); [done|cbn [length] in Hf; lia]|].
  destruct (ws ++ print_clause c ++ NL :: print_script cs) as [|y l] eqn:El;
    [by destruct ws, (print_clause c)|]. cbn [parse_loop]. rewrite Hs.
  pose proof (parse_piece_of size c (NL :: print_script cs) Hc) as Hp.
  destruct (print_clause c ++ NL :: print_script cs) as [|z m] eqn:Em; [by destruct (print_clause c)|].
  rewrite Hp, bind_Ret. change (NL :: print_script cs) with ([NL] ++ print_script cs).
  rewrite IH; [|done|by repeat constructor|].
  - cbn [preamble clauses map length replicate]. rewrite <- !app_assoc. by rewrite (chars_of_ascii [NL]) by by repeat constructor.
  - rewrite <- El, <- Em, !length_app in Hf. cbn [length] in Hf. cbn [app length].
    destruct (print_clause c); [done|]. cbn [length] in Hf. lia.
Qed.

(** The stripper finds no comment in a script. *)
Lemma plain_tokens l : text (map Plain l) = l.
Proof. induction l as [|x l IH]; [done|]. unfold text in *. cbn [map flat_map tok_bytes app]. by rewrite IH. Qed.

Lemma plain_tokens_ok l : forallb plain_byte l = true -> forallb tok_ok (map Plain l) = true.
Proof. intros H. induction l as [|x l IH]; [done|]. cbn [map forallb tok_ok] in *. apply andb_true_iff in H as [-> H]. by apply IH. Qed.

Lemma text_app a b : text (a ++ b) = text a ++ text b.
Proof. apply flat_map_app. Qed.

Lemma strip_body c rest out : dclause_ok c = true -> forall fuel,
  (length (u8b 0x7b :: text (d_body c) ++ [u8b 0x7d; NL] ++ rest) <= fuel)%nat ->
  (forall f, (length rest <= f)%nat -> strip_loop f false false rest = out) ->
  strip_loop fuel false false (u8b 0x7b :: text (d_body c) ++ [u8b 0x7d; NL] ++ rest)
  = u8b 0x7b :: text (d_body c) ++ [u8b 0x7d; NL] ++ out.
Proof.
  unfold dclause_ok. intros [[_ Hb]%andb_true_iff _]%andb_true_iff fuel Hf Hk.
  assert (E : forall r, u8b 0x7b :: text (d_body c) ++ [u8b 0x7d; NL] ++ r = text (Open :: d_body c ++ [Close; Plain NL]) ++ r).
  { intros r. unfold text. cbn [flat_map tok_bytes app]. fold (text (d_body c ++ [Close; Plain NL])).
    rewrite text_app, <- app_assoc. done. }
  rewrite E, length_app in Hf. rewrite !E. apply strip_text.
  - cbn [forallb tok_ok andb]. rewrite forallb_app, Hb. done.
  - lia.
  - intros f Hf'. apply Hk. lia.
Qed.

Lemma strip_clause c rest out : dclause_ok c = true -> forall fuel,
  (length (print_clause c ++ NL :: rest) <= fuel)%nat ->
  (forall f, (length rest <= f)%nat -> strip_loop f false false rest = out) ->
  strip_loop fuel false false (print_clause c ++ NL :: rest) = print_clause c ++ NL :: out.
Proof.
  intros Hc fuel Hf Hk. rewrite !print_clause_app in *.
  destruct (spec_ok_facts c Hc) as (_ & Hplain & _). pose proof (plain_tokens_ok _ Hplain) as Ht.
  rewrite <- (plain_tokens (spec_text c)) in *. rewrite length_app in Hf.
  apply strip_text; [by rewrite plain_tokens in *|lia|]. rewrite plain_tokens in *. intros f Hf'.
  assert (Hf2 : (length (pred_text (text <$> d_pred c) ++ u8b 0x7b :: text (d_body c) ++ u8b 0x7d :: NL :: rest) <= f)%nat) by lia.
  clear Hf Hf' fuel. pose proof (strip_body c rest out Hc) as Hbody. cbn [app] in Hbody.
  pose proof Hc as Hc'. unfold dclause_ok in Hc'. apply andb_true_iff in Hc' as [[[_ Hp]%andb_true_iff _]%andb_true_iff _].
  destruct (d_pred c) as [ts|]; cbn [fmap option_fmap option_map pred_text app] in *; [|by apply Hbody].
  apply andb_true_iff in Hp as [[Hts Hn]%andb_true_iff Hh]. destruct f as [|f]; [cbn [length] in Hf2; lia|].
  cbn [length] in Hf2. rewrite <- !app_assoc in *. cbn [app] in *. rewrite length_app in Hf2. cbn [length] in Hf2.
  rewrite strip_step; [|done|done|].
  2:{ right. unfold starts_comment. known. destruct ts as [|t ts]; [done|]. unfold text in *.
      cbn [flat_map forallb] in *. apply andb_true_iff in Hts as [Hx _].
      destruct t as [x|l| |]; cbn [tok_bytes app head_is_not tok_ok] in *; [|done..].
      plain_facts Hx. apply negb_true_iff in Hh. by apply orb_false_iff. }
  known. f_equal. apply strip_text; [done|lia|]. intros f2 Hf3. destruct f2 as [|f2]; [lia|].
  rewrite strip_step by (done || by right). known. f_equal. apply Hbody; [cbn [length]; lia|done].
Qed.

Lemma strip_script cs : forallb dclause_ok cs = true -> forall fuel,
  (length (print_script cs) <= fuel)%nat -> strip_loop fuel false false (print_script cs) = print_script cs.
Proof.
  induction cs as [|c cs IH]; intros Hok fuel Hf; [by destruct fuel|].
  cbn [forallb] in Hok. apply andb_true_iff in Hok as [Hc Hok]. cbn [print_script flat_map] in *.
  rewrite <- app_assoc in *. fold (print_script cs) in *. cbn [app] in *. apply strip_clause; [done|done|].
  by apply IH.
Qed.

(** C21: A script printed from its clauses is split into them: the descriptions,
    the predicates and bodies with the strings and braces in them, and each
    clause's source; the preamble is the line ends between them. *)
Theorem script_round_trip cs :
  forallb dclause_ok cs = true ->
  parse_source (print_script cs)
  = Ret {| preamble := replicate (length cs) NL; clauses := map clause_of cs |}.
Proof.
  intros Hok. unfold parse_source, strip_comments. rewrite strip_script by done.
  exact (parse_loop_script _ cs _ [] {| preamble := []; clauses := [] |} Hok ltac:(constructor) (le_n _)).
Qed.

(** ** Concrete scripts *)

Definition fbt_spec : ProbeSpec :=
  {| spec_provider := str "fbt"; spec_module := str "guest"; spec_function := str "vfs_read";
     spec_name := str "entry"; spec_binary := None |}.
Definition usdt_spec : ProbeSpec :=
  {| spec_provider := str "usdt"; spec_module := str "guest"; spec_function := str "postgresql";
     spec_name := str "query__start"; spec_binary := Some (str "postgres") |}.

Definition script : list dclause :=
  [{| d_specs := [fbt_spec; usdt_spec]; d_pred := Some (map Plain (str "pid == 1"));
      d_body := map Plain (str " printf(") ++ [Quote (str "/* %d } */")] ++ map Plain (str ", arg0); if (x) ")
                ++ [Open] ++ map Plain (str " y = 1; ") ++ [Close; Plain (u8b 0x20)] |};
   {| d_specs := [{| spec_provider := str "BEGIN"; spec_module := []; spec_function := []; spec_name := [];
                     spec_binary := None |}];
      d_pred := None; d_body := [] |}].

Lemma script_round_trip_witness :
  parse_source (print_script script)
  = Ret {| preamble := [NL; NL]; clauses := map clause_of script |}
  /\ bifrost_clauses {| preamble := []; clauses := map clause_of script |} = [clause_of (hd (Build_dclause [] None []) script)].
Proof. split; [apply (script_round_trip script); by vm_compute|by vm_compute]. Defined.

(** A probe of more than 10^9 Hz has a period of 0 ns. *)
Lemma fast_tick_has_no_period :
  (p ← parse_spec (str "profile:::tick-2000000000"); profile_timer_period_ns p) = Some 0.
Proof. by vm_compute. Qed.

(** Each byte of a character outside ASCII becomes a character of its own. *)
Lemma non_ascii_body_garbled :
  match parse_source (str "BEGIN{" ++ [u8b 0xc3; u8b 0xa9] ++ str "}") with
  | Ret p => map clause_body (clauses p) = [map u8b [0xc3; 0x83; 0xc2; 0xa9]]
  | _ => False
  end.
Proof. by vm_compute. Qed.

(** The last byte of a comment that is not closed is taken as code. *)
Lemma open_comment_leaks_last_byte :
  match parse_source (str "BEGIN { x = 1; /* oops }") with
  | Ret p => map clause_body (clauses p) = [str " x = 1;  "]
  | _ => False
  end.
Proof. by vm_compute. Qed.

(** Text that is no clause is not copied verbatim: white space at its end is
    dropped. *)
Lemma preamble_not_verbatim :
  match parse_source (str "a:b {") with Ret p => preamble p = str "a:b{" /\ clauses p = [] | _ => False end.
Proof. by vm_compute. Qed.
