(* ===== verification/SourceRewrite.v ===== *)
(** The rewrites of the D source (host/bifrost, src/cli/source_rewrite.rs):
    [retval], the stable provider names, the guest stack actions and the
    [OFFSETOF] macros, each from text to text.

    As in DParse.v an index into a text is the rest of its bytes from there;
    [prev] is the byte before it, none at the start. *)

From Stdlib Require Import Strings.String.
From stdpp Require Import list.
From S2P Require Import Utf8.
From S2P Require Import Text.
From S2P Require Import DParse.
From S2P Require Import Btf.
From S2P Require Import AggSnapshot.
From S2P Require Import CoreReloc.
From S2P Require Import Prelude.

Local Open Scope Z_scope.
Local Open Scope list_scope.

(** ** A clause as a program of its own *)

(** libdtrace takes four fields: the binary of a five-field probe is left
    out. *)
Definition program_spec (p : ProbeSpec) : bytes :=
  if is_guest_user p || is_usdt p then
    spec_provider p ++ COLON :: spec_module p ++ COLON :: spec_function p ++ COLON :: spec_name p
  else render p.

(** [join(", ")] *)
Fixpoint join_sep (sep : bytes) (ls : list bytes) : bytes :=
  match ls with
  | [] => []
  | [l] => l
  | l :: ls => l ++ sep ++ join_sep sep ls
  end.

Definition build_clause_program (c : Clause) : bytes :=
  join_sep (str ", ") (map program_spec (clause_specs c))
  ++ match clause_pred c with Some p => str " /" ++ p ++ str "/" | None => [] end
  ++ str " {" ++ clause_body c ++ str "}".

(** ** Words *)

Definition is_ident_char (b : Init.Byte.byte) : bool := is_ascii_alphanumeric b || byte_is b 0x5f.

Definition prev_ok (prev : option Init.Byte.byte) : bool :=
  match prev with None => true | Some b => negb (is_ident_char b) end.
Definition next_ok (rest : bytes) : bool :=
  match rest with [] => true | b :: _ => negb (is_ident_char b) end.

(** The rest after [needle], when it is at the index and neither an
    identifier's character is before it nor after. *)
Definition word_at (needle : bytes) (prev : option Init.Byte.byte) (l : bytes) : option bytes :=
  if prev_ok prev then
    match drop_prefix needle l with
    | Some rest => if next_ok rest then Some rest else None
    | None => None
    end
  else None.

(** The needles are not empty: the code does not return on the empty one. *)
Fixpoint replace_loop (fuel : nat) (needle replacement : bytes) (prev : option Init.Byte.byte) (l : bytes)
  : bytes :=
  match fuel, l with
  | _, [] => []
  | O, _ => []
  | S fuel, b :: l1 =>
      match word_at needle prev l with
      | Some rest => replacement ++ replace_loop fuel needle replacement (list.last needle) rest
      | None => char_of b ++ replace_loop fuel needle replacement (Some b) l1
      end
  end.
Definition replace_word_token (haystack needle replacement : bytes) : bytes :=
  replace_loop (length haystack) needle replacement None haystack.

Fixpoint contains_from (needle : bytes) (prev : option Init.Byte.byte) (l : bytes) : bool :=
  match l with
  | [] => false
  | b :: l1 =>
      match word_at needle prev l with
      | Some _ => true
      | None => contains_from needle (Some b) l1
      end
  end.
Definition contains_word (haystack needle : bytes) : bool := contains_from needle None haystack.

(** ** [retval] *)

Inductive RewriteError : Type :=
| ClauseHasNoSpecs
| RetvalInNonFbtReturn (spec_render provider name : bytes)
| RetvalRequiresBtf
| FunctionNotInBtf (spec_render function : bytes)
| ArityExceedsArgRange (spec_render function : bytes) (arity : Z).

Definition rewrite_retval (source : bytes) (clause : Clause) (btf : option Btf)
  : outcome RewriteError (bytes * option Btf) :=
  if negb (contains_word source (str "retval")) then Ret (source, btf)
  else
    match clause_specs clause with
    | [] => Throw ClauseHasNoSpecs
    | spec :: _ =>
        if negb (is_fbt spec && is_str (spec_name spec) "return") then
          Throw (RetvalInNonFbtReturn (render spec) (spec_provider spec) (spec_name spec))
        else
          match btf with
          | None => Throw RetvalRequiresBtf
          | Some b =>
              let '(arity, b) := func_arity (spec_function spec) b in
              match arity with
              | None => Throw (FunctionNotInBtf (render spec) (spec_function spec))
              | Some arity =>
                  if 9 <? arity then Throw (ArityExceedsArgRange (render spec) (spec_function spec) arity)
                  else Ret (replace_word_token source (str "retval") (str "arg" ++ decimal arity), Some b)
              end
          end
    end.

(** ** Stable providers *)

Definition STABLE_PROVIDERS : list (string * string) :=
  [("proc:::exec", "tracepoint:guest:sched:sched_process_exec");
   ("proc:::exit", "tracepoint:guest:sched:sched_process_exit");
   ("proc:::fork", "tracepoint:guest:sched:sched_process_fork");
   ("proc:::lwp-start", "tracepoint:guest:task:task_newtask");
   ("sched:::switch", "tracepoint:guest:sched:sched_switch");
   ("sched:::on-cpu", "tracepoint:guest:sched:sched_switch");
   ("sched:::off-cpu", "tracepoint:guest:sched:sched_switch");
   ("sched:::wakeup", "tracepoint:guest:sched:sched_wakeup");
   ("sched:::wakeup-new", "tracepoint:guest:sched:sched_wakeup_new");
   ("sched:::migrate-task", "tracepoint:guest:sched:sched_migrate_task");
   ("io:::start", "tracepoint:guest:block:block_rq_issue");
   ("io:::done", "tracepoint:guest:block:block_rq_complete");
   ("io:::insert", "tracepoint:guest:block:block_rq_insert");
   ("syscall:::entry", "tracepoint:guest:raw_syscalls:sys_enter");
   ("syscall:::return", "tracepoint:guest:raw_syscalls:sys_exit");
   ("tcp:::send", "tracepoint:guest:tcp:tcp_send_reset");
   ("tcp:::receive", "tracepoint:guest:tcp:tcp_receive_reset");
   ("tcp:::probe", "tracepoint:guest:tcp:tcp_probe");
   ("tcp:::retransmit", "tracepoint:guest:tcp:tcp_retransmit_skb");
   ("tcp:::destroy", "tracepoint:guest:tcp:tcp_destroy_sock");
   ("signal:::send", "tracepoint:guest:signal:signal_generate");
   ("signal:::handle", "tracepoint:guest:signal:signal_deliver")]%string.

(** The text for [syscall::<name>:entry] or [..:return] at the index, the rest
    after it and its last byte. *)
Definition per_syscall_at (prev : option Init.Byte.byte) (l : bytes)
  : option (bytes * bytes * option Init.Byte.byte) :=
  match drop_prefix (str "syscall::") l with
  | None => None
  | Some l1 =>
      if negb (prev_ok prev) then None
      else
        let '(name, l2) := span is_ident_char l1 in
        if is_empty name then None
        else
          match (match drop_prefix (str ":entry") l2 with
                 | Some rest => Some (str "enter", rest, str ":entry")
                 | None =>
                     match drop_prefix (str ":return") l2 with
                     | Some rest => Some (str "exit", rest, str ":return")
                     | None => None
                     end
                 end) with
          | None => None
          | Some (variant, rest, marker) =>
              if next_ok rest
              then Some (str "tracepoint:guest:syscalls:sys_" ++ variant ++ u8b 0x5f :: name, rest,
                         list.last marker)
              else None
          end
  end.

Fixpoint per_syscall_loop (fuel : nat) (prev : option Init.Byte.byte) (l : bytes) : bytes :=
  match fuel, l with
  | _, [] => []
  | O, _ => []
  | S fuel, b :: l1 =>
      match per_syscall_at prev l with
      | Some (t, rest, prev) => t ++ per_syscall_loop fuel prev rest
      | None => char_of b ++ per_syscall_loop fuel (Some b) l1
      end
  end.
Definition rewrite_per_syscall (input : bytes) : bytes := per_syscall_loop (length input) None input.

Definition rewrite_stable (out : bytes) (entry : string * string) : bytes :=
  if contains_word out (str entry.1) then replace_word_token out (str entry.1) (str entry.2) else out.
Definition rewrite_stable_providers (input : bytes) : bytes :=
  rewrite_per_syscall (fold_left rewrite_stable STABLE_PROVIDERS input).

(** ** Guest stack actions *)

(** [replace_word], local to [rewrite_g_actions]: the tests of
    [replace_word_token] in another order. *)
Fixpoint replace_word_loop (fuel : nat) (needle replacement : bytes) (prev : option Init.Byte.byte) (l : bytes)
  : bytes :=
  match fuel, l with
  | _, [] => []
  | O, _ => []
  | S fuel, b :: l1 =>
      let keep := char_of b ++ replace_word_loop fuel needle replacement (Some b) l1 in
      match drop_prefix needle l with
      | Some rest =>
          if prev_ok prev && next_ok rest
          then replacement ++ replace_word_loop fuel needle replacement (list.last needle) rest
          else keep
      | None => keep
      end
  end.
Definition replace_word (haystack needle replacement : bytes) : bytes :=
  replace_word_loop (length haystack) needle replacement None haystack.

Definition rewrite_g_actions (input : bytes) : bytes :=
  replace_word (replace_word input (str "gstack") (str "stack")) (str "gustack") (str "ustack").

(** ** [CORE_OFFSETOF] and [OFFSETOF] *)

Definition scan_ident (l : bytes) : bytes * bytes :=
  match l with
  | b :: l1 =>
      if is_ascii_alphabetic b || byte_is b 0x5f
      then let '(a, rest) := span is_ident_char l1 in (b :: a, rest)
      else ([], l)
  | [] => ([], [])
  end.

(** The rest after a byte, when it is there. *)
Definition expect (c : Z) (l : bytes) : option bytes :=
  match l with b :: l1 => if byte_is b c then Some l1 else None | [] => None end.

(** [<needle>(<struct>, <field>)] at the index: the two names and the rest. *)
Definition offsetof_site (needle : bytes) (prev : option Init.Byte.byte) (l : bytes)
  : option (bytes * bytes * bytes) :=
  match drop_prefix needle l with
  | None => None
  | Some l =>
      if negb (prev_ok prev) then None
      else
        l ← expect 0x28 (skip_whitespace l);
        let '(struct_name, l) := scan_ident l in
        l ← expect 0x2c (skip_whitespace l);
        let '(field_name, l) := scan_ident (skip_whitespace l) in
        l ← expect 0x29 (skip_whitespace l);
        if is_empty struct_name || is_empty field_name then None else Some (struct_name, field_name, l)
  end.

Section Offsets.
Context {E : Type}.

(** The body of the loop at a site: what [btf.field_offset] says of it. *)
Definition site_offset (needle : bytes) (prev : option Init.Byte.byte) (l : bytes) (btf : Btf)
  : outcome E (option (bytes * bytes * Z * bytes) * Btf) :=
  match offsetof_site needle prev l with
  | None => Ret (None, btf)
  | Some (struct_name, field_name, rest) =>
      r ← field_offset struct_name field_name btf;
      Ret (match r.1 with
           | Ok (off, _) => Some (struct_name, field_name, off, rest)
           | Err _ => None
           end, r.2)
  end.

Fixpoint core_offsetof_loop (fuel : nat) (prev : option Init.Byte.byte) (l : bytes) (btf : Btf)
  (out : bytes) (markers : list CoreOffsetofMarker)
  : outcome E (bytes * list CoreOffsetofMarker * Btf) :=
  match fuel, l with
  | _, [] => Ret (out, markers, btf)
  | O, _ => Panic
  | S fuel, b :: l1 =>
      r ← site_offset (str "CORE_OFFSETOF") prev l btf;
      match r.1 with
      | Some (struct_name, field_name, off, rest) =>
          let s := core_offsetof_sentinel (len markers mod 2 ^ 32) in
          core_offsetof_loop fuel (Some (u8b 0x29)) rest r.2 (out ++ decimal s)
            (markers ++ [{| sentinel := s; mk_struct_name := struct_name; mk_field_name := field_name;
                            fallback_offset := off |}])
      | None => core_offsetof_loop fuel (Some b) l1 r.2 (out ++ char_of b) markers
      end
  end.

Definition rewrite_core_offsetof (input : bytes) (btf : option Btf)
  : outcome E (bytes * list CoreOffsetofMarker * option Btf) :=
  match btf with
  | None => Ret (input, [], None)
  | Some b =>
      r ← core_offsetof_loop (length input) None input b [] [];
      Ret (r.1, Some r.2)
  end.

Fixpoint offsetof_loop (fuel : nat) (prev : option Init.Byte.byte) (l : bytes) (btf : Btf) (out : bytes)
  : outcome E (bytes * Btf) :=
  match fuel, l with
  | _, [] => Ret (out, btf)
  | O, _ => Panic
  | S fuel, b :: l1 =>
      r ← site_offset (str "OFFSETOF") prev l btf;
      match r.1 with
      | Some (_, _, off, rest) => offsetof_loop fuel (Some (u8b 0x29)) rest r.2 (out ++ decimal off)
      | None => offsetof_loop fuel (Some b) l1 r.2 (out ++ char_of b)
      end
  end.

Definition rewrite_offsetof (input : bytes) (btf : option Btf) : outcome E (bytes * option Btf) :=
  match btf with
  | None => Ret (input, None)
  | Some b => r ← offsetof_loop (length input) None input b []; Ret (r.1, Some r.2)
  end.
End Offsets.

(** ** Tests of source_rewrite_tests.rs *)

Example g_actions : rewrite_g_actions (str "gstack();") = str "stack();"
  /\ rewrite_g_actions (str "gustack(8)") = str "ustack(8)"
  /\ rewrite_g_actions (str "my_gstack_var") = str "my_gstack_var".
Proof. by vm_compute. Qed.
Example retval_words : replace_word_token (str "retval + 1") (str "retval") (str "arg3") = str "arg3 + 1"
  /\ replace_word_token (str "xretval") (str "retval") (str "arg3") = str "xretval"
  /\ contains_word (str "foo retval2 bar") (str "retval") = false.
Proof. by vm_compute. Qed.
Example stable_exec : rewrite_stable_providers (str "proc:::exec { trace(execname); }")
  = str "tracepoint:guest:sched:sched_process_exec { trace(execname); }".
Proof. by vm_compute. Qed.
Example stable_extra : rewrite_stable_providers (str "proc:::exec_extra { }") = str "proc:::exec_extra { }".
Proof. by vm_compute. Qed.
Example stable_open : rewrite_stable_providers (str "syscall::openat:return / errno != 0 / { }")
  = str "tracepoint:guest:syscalls:sys_exit_openat / errno != 0 / { }".
Proof. by vm_compute. Qed.
