(* ===== verification/SourceRewriteOk.v ===== *)
(** The rewrites of SourceRewrite.v against what they are for: a word is
    replaced where it stands alone, and a macro is replaced by a sentinel of
    its own or by the offset the BTF gives. *)

From Stdlib Require Import Strings.String.
From stdpp Require Import gmap.
From S2P Require Import Text.
From S2P Require Import DParse.
From S2P Require Import DParseOk.
From S2P Require Import Btf.
From S2P Require Import BtfLookup.
From S2P Require Import AggSnapshot.
From S2P Require Import CoreReloc.
From S2P Require Import SourceRewrite.
From S2P Require Import Prelude.

Local Open Scope Z_scope.
Local Open Scope list_scope.

(** ** The words of a text

    An identifier's characters together, any other byte alone. *)
Definition head_ident (l : bytes) : bool := match l with b :: _ => is_ident_char b | [] => false end.

Fixpoint words (l : bytes) : list bytes :=
  match l with
  | [] => []
  | b :: l =>
      match words l with
      | w :: ws => if is_ident_char b && head_ident w then (b :: w) :: ws else [b] :: w :: ws
      | [] => [[b]]
      end
  end.

Definition is_word (n : bytes) : bool := negb (is_empty n) && forallb is_ident_char n.

(** A word with the replacement of [needle]. *)
Definition replaced (needle replacement w : bytes) : bytes :=
  if bool_decide (w = needle) then replacement else chars_of w.

Lemma words_concat l : concat (words l) = l.
Proof.
  induction l as [|b l IH]; [done|]. cbn [words]. destruct (words l) as [|w ws]; cbn in *; [by subst|].
  destruct (_ && _); cbn; by rewrite <- IH.
Qed.

Lemma words_head l : match words l with w :: _ => head_ident w = head_ident l | [] => l = [] end.
Proof.
  destruct l as [|b l]; [done|]. cbn [words]. destruct (words l) as [|w ws]; [done|]. by destruct (_ && _).
Qed.

(** The words of a run of an identifier's characters and what follows. *)
Lemma words_run a rest : is_word a = true -> next_ok rest = true -> words (a ++ rest) = a :: words rest.
Proof.
  intros [Ha Hi]%andb_true_iff Hr. induction a as [|b a IH]; [done|].
  cbn [forallb] in Hi. apply andb_true_iff in Hi as [Hb Hi]. cbn [app words]. destruct a as [|c a].
  - cbn [app]. pose proof (words_head rest) as H. destruct (words rest) as [|w ws]; [done|]. rewrite H, Hb.
    destruct rest; [done|]. apply negb_true_iff in Hr. cbn [head_ident andb]. by rewrite Hr.
  - rewrite IH by done. cbn [forallb] in Hi. apply andb_true_iff in Hi as [Hc _].
    cbn [head_ident]. by rewrite Hb, Hc.
Qed.

Lemma words_other b l : is_ident_char b = false -> words (b :: l) = [b] :: words l.
Proof. intros Hb. cbn [words]. rewrite Hb. by destruct (words l). Qed.

(** The run at an index and the rest. *)
Lemma run_rest l : forallb is_ident_char (span is_ident_char l).1 = true
  /\ next_ok (span is_ident_char l).2 = true.
Proof.
  induction l as [|b l [IH1 IH2]]; [done|]. cbn [span]. destruct (is_ident_char b) eqn:Eb.
  - destruct (span is_ident_char l) as [a r]. cbn [fst snd forallb] in *. by rewrite Eb.
  - cbn [fst snd forallb next_ok]. by rewrite Eb.
Qed.

Lemma span_run a rest : forallb is_ident_char a = true -> next_ok rest = true ->
  span is_ident_char (a ++ rest) = (a, rest).
Proof.
  intros Ha Hr. apply span_app; [by apply list.Forall_forall; intros x Hx; eapply forallb_forall, list_elem_of_In|].
  destruct rest; [done|]. by apply negb_true_iff.
Qed.

(** A text begins with a run and what follows it, or with another byte. *)
Lemma text_cases (P : bytes -> Prop) :
  P [] -> (forall b l, is_ident_char b = false -> P (b :: l)) ->
  (forall a l, is_word a = true -> next_ok l = true -> P (a ++ l)) -> forall l, P l.
Proof.
  intros H0 H1 H2 [|b l]; [done|]. destruct (is_ident_char b) eqn:Eb; [|by apply H1].
  pose proof (run_rest (b :: l)) as [Ha Hr]. pose proof (span_spec is_ident_char (b :: l)) as [Hs _].
  cbn [span] in *. rewrite Eb in *. destruct (span is_ident_char l) as [a r]. cbn [fst snd] in *.
  rewrite <- Hs. apply H2; [|done]. unfold is_word. by rewrite Ha.
Qed.

Section Words.
Context (needle : bytes) (Hn : is_word needle = true).

Lemma needle_last : exists b, list.last needle = Some b /\ is_ident_char b = true.
Proof.
  apply andb_true_iff in Hn as [Hn1 Hn2]. destruct needle as [|x l] using rev_ind; [done|].
  exists x. rewrite last_snoc. split; [done|]. rewrite forallb_app in Hn2. cbn in Hn2.
  by apply andb_true_iff in Hn2 as [_ [Hx _]%andb_true_iff].
Qed.

Lemma needle_not_other b : is_ident_char b = false -> [b] <> needle.
Proof.
  intros Hb E. apply andb_true_iff in Hn as [_ Hn2]. rewrite <- E in Hn2. cbn in Hn2. by rewrite Hb in Hn2.
Qed.

Lemma word_at_mid prev l : prev_ok prev = false -> word_at needle prev l = None.
Proof. intros Hp. unfold word_at. by rewrite Hp. Qed.

Lemma word_at_other prev b l : is_ident_char b = false -> word_at needle prev (b :: l) = None.
Proof.
  intros Hb. unfold word_at. destruct (prev_ok prev); [|done].
  apply andb_true_iff in Hn as [Hn1 Hn2]. destruct needle as [|x n]; [done|]. cbn [drop_prefix].
  case_bool_decide as Hx; [|done]. subst x. cbn [forallb] in Hn2. by rewrite Hb in Hn2.
Qed.

Lemma word_at_run prev a l : prev_ok prev = true -> is_word a = true -> next_ok l = true ->
  word_at needle prev (a ++ l) = if bool_decide (a = needle) then Some l else None.
Proof.
  intros Hp Ha Hl. unfold word_at. rewrite Hp. apply andb_true_iff in Hn as [_ Hn2], Ha as [_ Ha2].
  case_bool_decide as E.
  - subst a. assert (D : forall n, drop_prefix n (n ++ l) = Some l).
    { induction n as [|x n IH]; [done|]. cbn. by rewrite bool_decide_true. }
    by rewrite D, Hl.
  - destruct (drop_prefix needle (a ++ l)) as [r|] eqn:D; [|done]. apply drop_prefix_Some in D.
    destruct (next_ok r) eqn:Hr; [|done]. destruct E.
    pose proof (span_run a l Ha2 Hl) as S1. rewrite D in S1. rewrite span_run in S1 by done. by injection S1.
Qed.

(** The loop at the start of a word, and within one. *)
Lemma replace_loop_words replacement fuel : forall prev l,
  (length l <= fuel)%nat ->
  replace_loop fuel needle replacement prev l =
  if prev_ok prev then flat_map (replaced needle replacement) (words l)
  else chars_of (span is_ident_char l).1
       ++ flat_map (replaced needle replacement) (words (span is_ident_char l).2).
Proof.
  induction fuel as [|fuel IH]; intros prev l Hl.
  { destruct l; [by destruct (prev_ok prev)|]. cbn in Hl. lia. }
  destruct l as [|b l1] eqn:El; [by destruct (prev_ok prev)|]. cbn [replace_loop].
  cbn [length] in Hl. destruct (is_ident_char b) eqn:Eb.
  - assert (M : word_at needle prev (b :: l1) = None -> 
      replace_loop fuel needle replacement (Some b) l1 =
      chars_of (span is_ident_char l1).1
      ++ flat_map (replaced needle replacement) (words (span is_ident_char l1).2)).
    { intros _. rewrite IH by lia. cbn [prev_ok]. by rewrite Eb. }
    pose proof (run_rest (b :: l1)) as [Ha Hr]. pose proof (span_spec is_ident_char (b :: l1)) as [Hs _].
    pose proof (span_length is_ident_char l1) as Hlen.
    cbn [span] in Ha, Hr, Hs |- *. rewrite Eb in *. destruct (span is_ident_char l1) as [a r] eqn:Es.
    cbn [fst snd] in *. destruct (prev_ok prev) eqn:Hp.
    + rewrite <- Hs. rewrite (words_run (b :: a) r) by (unfold is_word; by rewrite ?Ha). cbn [flat_map].
      rewrite word_at_run in * by (unfold is_word; by rewrite ?Ha). unfold replaced at 1.
      case_bool_decide as E.
      * destruct needle_last as (x & -> & Hx). rewrite IH by lia. cbn [prev_ok]. rewrite Hx. cbn [negb].
        pose proof (span_run [] r eq_refl Hr) as S0. cbn [app] in S0. by rewrite S0.
      * rewrite M by (rewrite <- Hs; by rewrite word_at_run, bool_decide_false by (unfold is_word; by rewrite ?Ha)).
        cbn [chars_of flat_map]. by rewrite <- !app_assoc.
    + rewrite word_at_mid by done. rewrite M by by apply word_at_mid. cbn [chars_of flat_map].
      by rewrite <- !app_assoc.
  - rewrite word_at_other, words_other by done. rewrite IH by lia. cbn [prev_ok span]. rewrite Eb. cbn [negb fst snd].
    assert (R : replaced needle replacement [b] = char_of b).
    { unfold replaced. rewrite bool_decide_false by by apply needle_not_other. cbn. by rewrite app_nil_r. }
    cbn [flat_map]. rewrite R, words_other by done. cbn [chars_of flat_map app]. rewrite R. by destruct (prev_ok prev).
Qed.

Lemma contains_from_words l : forall prev,
  contains_from needle prev l =
  bool_decide (needle ∈ words (if prev_ok prev then l else (span is_ident_char l).2)).
Proof.
  induction l as [|b l1 IH]; intros prev.
  { cbn [contains_from]. symmetry. apply bool_decide_false.
    destruct (prev_ok prev); apply not_elem_of_nil. }
  cbn [contains_from]. destruct (is_ident_char b) eqn:Eb.
  - pose proof (run_rest (b :: l1)) as [Ha Hr]. pose proof (span_spec is_ident_char (b :: l1)) as [Hs _].
    cbn [span] in Ha, Hr, Hs |- *. rewrite Eb in *.
    assert (M : contains_from needle (Some b) l1 = bool_decide (needle ∈ words (span is_ident_char l1).2)).
    { rewrite IH. cbn [prev_ok]. by rewrite Eb. }
    destruct (span is_ident_char l1) as [a r] eqn:Es. cbn [fst snd] in *.
    destruct (prev_ok prev) eqn:Hp; [|by rewrite word_at_mid].
    rewrite <- Hs, (words_run (b :: a) r), word_at_run by (unfold is_word; by rewrite ?Ha).
    destruct (decide (b :: a = needle)) as [E|E];
      [rewrite !bool_decide_true; [done|apply elem_of_cons; by left|done]|rewrite bool_decide_false by done].
    rewrite M. apply bool_decide_ext. rewrite elem_of_cons. split; [by right|]. intros [X|]; [by symmetry in X|done].
  - rewrite word_at_other by done. rewrite IH. cbn [prev_ok span]. rewrite Eb. cbn [negb fst snd].
    assert (W : words (if prev_ok prev then b :: l1 else b :: l1) = [b] :: words l1).
    { destruct (prev_ok prev); by apply words_other. }
    rewrite W. apply bool_decide_ext. rewrite elem_of_cons. split; [by right|].
    intros [E|]; [|done]. symmetry in E. by apply needle_not_other in E.
Qed.
End Words.

Lemma replace_word_same needle replacement fuel : forall prev l,
  replace_word_loop fuel needle replacement prev l = replace_loop fuel needle replacement prev l.
Proof.
  induction fuel as [|fuel IH]; intros prev [|b l1]; cbn [replace_word_loop replace_loop]; try done.
  rewrite !IH. unfold word_at. destruct (drop_prefix needle (b :: l1)) as [rest|]; [|by destruct (prev_ok prev)].
  rewrite IH. destruct (prev_ok prev); cbn [andb]; [|done]. by destruct (next_ok rest).
Qed.

(** C16: For an identifier: [replace_word_token] and [rewrite_g_actions]'s
    [replace_word] replace the words of the text that are the identifier, a
    word being all of a run of an identifier's characters, and keep the
    others, and [contains_word] says whether there is one. *)
Theorem words_replaced haystack needle replacement (Hn : is_word needle = true) :
  concat (words haystack) = haystack
  /\ replace_word_token haystack needle replacement = flat_map (replaced needle replacement) (words haystack)
  /\ replace_word haystack needle replacement = replace_word_token haystack needle replacement
  /\ contains_word haystack needle = bool_decide (needle ∈ words haystack).
Proof.
  split_and!.
  - apply words_concat.
  - unfold replace_word_token. by rewrite replace_loop_words.
  - apply replace_word_same.
  - unfold contains_word. by rewrite contains_from_words.
Qed.

(** ** The macros *)

Definition all_blank (w : bytes) : bool := forallb is_ascii_whitespace w.
Definition identifier (s : bytes) : bool :=
  match s with b :: _ => (is_ascii_alphabetic b || byte_is b 0x5f) && forallb is_ident_char s | [] => false end.

(** [<needle>(<struct>, <field>)] with white space where it may stand. *)
Definition site_text (needle w1 s w2 w3 f w4 : bytes) : bytes :=
  needle ++ w1 ++ u8b 0x28 :: s ++ w2 ++ u8b 0x2c :: w3 ++ f ++ w4 ++ [u8b 0x29].

Lemma blank_not_ident b : is_ascii_whitespace b = true -> is_ident_char b = false.
Proof. unfold is_ascii_whitespace, is_ident_char, is_ascii_alphanumeric, is_ascii_alphabetic, is_ascii_digit, in_span, byte_is. cbn [existsb]. lia. Qed.

Lemma u8b_is c : 0 <= c < 256 -> byte_is (u8b c) c = true.
Proof. intros H. unfold byte_is. rewrite unsigned_u8b by done. lia. Qed.

Lemma skip_blanks w b l : all_blank w = true -> is_ascii_whitespace b = false ->
  skip_whitespace (w ++ b :: l) = b :: l.
Proof.
  intros Hw Hb. unfold skip_whitespace. rewrite span_app; [done| |done].
  apply list.Forall_forall. intros x Hx. by eapply forallb_forall, list_elem_of_In.
Qed.

Lemma skip_whitespace_cut l : exists w, all_blank w = true /\ l = w ++ skip_whitespace l.
Proof.
  destruct (span_spec is_ascii_whitespace l) as [H1 H2]. exists (span is_ascii_whitespace l).1. split; [|by symmetry].
  apply forallb_forall. intros x Hx. rewrite list.Forall_forall in H2. by apply H2, list_elem_of_In.
Qed.

Lemma expect_cut c l r : expect c l = Some r -> l = u8b c :: r.
Proof. destruct l as [|b l]; [done|]. cbn. destruct (byte_is b c) eqn:E; [|done]. intros [= ->]. by rewrite (byte_is_u8b b c E). Qed.

Lemma expect_byte c l : 0 <= c < 256 -> expect c (u8b c :: l) = Some l.
Proof. intros H. cbn. by rewrite u8b_is. Qed.

Lemma scan_ident_cut l a r : scan_ident l = (a, r) -> l = a ++ r /\ (is_empty a = false -> identifier a = true).
Proof.
  destruct l as [|b l]; cbn [scan_ident]; [by intros [= <- <-]|].
  destruct (_ || _) eqn:E; [|by intros [= <- <-]].
  pose proof (run_rest l) as [H _]. destruct (span_spec is_ident_char l) as [Hs _].
  destruct (span is_ident_char l) as [a' r'] eqn:Es. intros [= <- <-]. cbn [fst snd] in *. split; [by cbn; rewrite Hs|].
  intros _. cbn [identifier forallb]. rewrite E, H. cbn [andb]. unfold is_ident_char, is_ascii_alphanumeric. 
  by destruct (is_ascii_alphabetic b), (byte_is b 0x5f), (is_ascii_digit b).
Qed.

Lemma scan_ident_name s r : identifier s = true -> next_ok r = true -> scan_ident (s ++ r) = (s, r).
Proof.
  destruct s as [|b s]; [done|]. cbn [identifier forallb]. intros [E [_ H]%andb_true_iff]%andb_true_iff Hr.
  cbn [app scan_ident]. by rewrite E, span_run.
Qed.


Lemma next_ok_blank w c l : all_blank w = true -> is_ident_char c = false -> next_ok (w ++ c :: l) = true.
Proof.
  destruct w as [|b w]; cbn; [by intros _ ->|]. intros [H _]%andb_true_iff _. by rewrite blank_not_ident.
Qed.

(** A site is recognised exactly where its text stands alone. *)
Lemma offsetof_site_iff needle prev l s f rest :
  offsetof_site needle prev l = Some (s, f, rest) <->
  prev_ok prev = true /\ identifier s = true /\ identifier f = true
  /\ exists w1 w2 w3 w4, all_blank w1 = true /\ all_blank w2 = true /\ all_blank w3 = true /\ all_blank w4 = true
     /\ l = site_text needle w1 s w2 w3 f w4 ++ rest.
Proof.
  split.
  - unfold offsetof_site. destruct (drop_prefix needle l) as [l1|] eqn:D; [|done]. apply drop_prefix_Some in D.
    destruct (prev_ok prev); [|done]. cbn [negb].
    destruct (skip_whitespace_cut l1) as (w1 & B1 & E1). destruct (expect 0x28 _) as [l2|] eqn:X1; [|done].
    cbn [mbind option_bind]. destruct (scan_ident l2) as [a l3] eqn:S1.
    destruct (skip_whitespace_cut l3) as (w2 & B2 & E2). destruct (expect 0x2c _) as [l4|] eqn:X2; [|done].
    cbn [mbind option_bind]. destruct (skip_whitespace_cut l4) as (w3 & B3 & E3).
    destruct (scan_ident (skip_whitespace l4)) as [a2 l5] eqn:S2.
    destruct (skip_whitespace_cut l5) as (w4 & B4 & E4). destruct (expect 0x29 _) as [l6|] eqn:X3; [|done].
    cbn [mbind option_bind]. destruct (is_empty a || is_empty a2) eqn:Em; [done|]. intros [= <- <- <-].
    apply orb_false_iff in Em as [Em1 Em2]. apply scan_ident_cut in S1 as [S1 I1], S2 as [S2 I2].
    apply expect_cut in X1, X2, X3. split_and!; [done|by apply I1|by apply I2|].
    exists w1, w2, w3, w4. split_and!; [done..|]. unfold site_text.
    rewrite D, E1, X1, S1, E2, X2, E3, S2, E4, X3. by rewrite <- !app_assoc, <- !app_comm_cons, <- !app_assoc, <- !app_comm_cons, <- !app_assoc.
  - intros (Hp & Is & If & w1 & w2 & w3 & w4 & B1 & B2 & B3 & B4 & ->). unfold offsetof_site, site_text.
    rewrite <- !app_assoc, drop_prefix_whole, Hp. cbn [negb].
    rewrite <- !app_comm_cons, <- !app_assoc, <- !app_comm_cons, <- !app_assoc. cbn [app].
    rewrite skip_blanks, expect_byte by done. cbn [mbind option_bind].
    rewrite scan_ident_name by (done || by apply next_ok_blank).
    rewrite skip_blanks, expect_byte by done. cbn [mbind option_bind].
    assert (H : skip_whitespace (w3 ++ f ++ w4 ++ u8b 0x29 :: rest) = f ++ w4 ++ u8b 0x29 :: rest).
    { destruct f as [|b f]; [done|]. cbn [app]. apply skip_blanks; [done|].
      destruct (is_ascii_whitespace b) eqn:Eb; [|done]. apply blank_not_ident in Eb.
      cbn [identifier forallb] in If. rewrite Eb in If. by destruct (_ || _). }
    rewrite H, scan_ident_name by (done || by apply next_ok_blank).
    rewrite skip_blanks, expect_byte by done. cbn [mbind option_bind].
    by destruct s, f.
Qed.

(** *** The same blob, whatever of its indexes is built *)

Record same_blob (b b' : Btf) : Prop := {
  same_types : types b' = types b;
  same_names : names b' = names b;
  same_strs : strs b' = strs b;
  same_indexed : indexed b'
}.

Lemma find_struct_value n b b' : indexed b -> same_blob b b' ->
  (find_struct n b').1 = (find_struct n b).1 /\ same_blob b (find_struct n b').2.
Proof.
  assert (V : forall b, indexed b -> (find_struct n b).1 = index_names is_aggregate b 0 (names b) ∅ !! n).
  { clear. intros b [Hi _]. unfold find_struct. case_bool_decide as He; [done|]. by destruct Hi as [|<-]. }
  intros Hb [Ht Hn Hs Hi]. split.
  - rewrite !V, Hn by done. by rewrite (index_names_ext is_aggregate b' b _ Ht).
  - pose proof (find_struct_spec n b' Hi) as H. destruct (find_struct n b') as [o b2]. destruct H as (_ & I & E1 & E2 & E3).
    split; cbn [snd]; (done || congruence).
Qed.

Lemma find_member_blob {E} b b' field id base : types b' = types b -> strs b' = strs b ->
  find_member (E:=E) b' field id base = find_member (E:=E) b field id base.
Proof.
  intros Ht Hs. unfold find_member, fuel_of. rewrite Ht. generalize (S (length (types b))) as n. intros n. revert id base.
  induction n as [|n IH]; intros id base; [done|]. cbn [find_member_fuel].
  rewrite (members_of_same b' b Ht). destruct (members_of b id) as [l|]; [|done].
  induction l as [|m l IHl]; [done|]. cbn [offset_members].
  destruct (add32 (E:=E) base (offset_bits m)); [|done..].
  by rewrite !bind_Ret, IHl, IH, (member_name_same b' b Hs), (type_size_same b' b Ht).
Qed.

(** What [field_offset] answers, and the blob it leaves. *)
Lemma field_offset_blob {E} s f b b' r : indexed b -> same_blob b b' ->
  field_offset (E:=E) s f b' = Ret r ->
  (exists b2, field_offset (E:=E) s f b = Ret (r.1, b2)) /\ same_blob b r.2.
Proof.
  intros Hb Hs. destruct (find_struct_value s b b' Hb Hs) as [V1 S1].
  destruct (find_struct_value s b b Hb ltac:(by split)) as [_ S0]. unfold field_offset.
  destruct (find_struct s b) as [o b0], (find_struct s b') as [o' b1]. cbn [fst snd] in V1, S0, S1. subst o'.
  destruct o as [sid|]; [|intros [= <-]; cbn [fst snd]; split; [by eexists|done]].
  rewrite (find_member_blob b0 b1) by (destruct S0, S1; congruence).
  destruct (find_member b0 f sid 0) as [m|?|]; [|done..]. rewrite !bind_Ret. intros [= <-].
  split; [by eexists|done].
Qed.

Section Cut.
Context {E : Type}.

(** The offset the blob gives for a field. *)
Definition offset_of (b : Btf) (s f : bytes) (off : Z) : Prop :=
  exists size b', field_offset (E:=E) s f b = Ret (Ok (off, size), b').

(** *** A text cut at its sites

    At each index from the front: a site of [needle] whose field the blob has,
    or a byte where there is none. *)
Inductive seg : Type :=
| Plain (c : Init.Byte.byte)
| Site (s f : bytes) (off : Z).

Inductive cut (needle : bytes) (b : Btf) : option Init.Byte.byte -> bytes -> list seg -> Prop :=
| cut_nil prev : cut needle b prev [] []
| cut_site prev l s f rest off segs :
    offsetof_site needle prev l = Some (s, f, rest) -> offset_of b s f off ->
    cut needle b (Some (u8b 0x29)) rest segs -> cut needle b prev l (Site s f off :: segs)
| cut_plain prev c l segs :
    (forall s f rest, offsetof_site needle prev (c :: l) = Some (s, f, rest) -> forall off, ~ offset_of b s f off) ->
    cut needle b (Some c) l segs -> cut needle b prev (c :: l) (Plain c :: segs).

(** The site number [k] as a sentinel, and as a marker of it. *)
Definition sentinel_of (k : Z) : Z := core_offsetof_sentinel (k mod 2 ^ 32).
Fixpoint core_text (k : Z) (segs : list seg) : bytes :=
  match segs with
  | [] => []
  | Plain c :: segs => char_of c ++ core_text k segs
  | Site _ _ _ :: segs => decimal (sentinel_of k) ++ core_text (k + 1) segs
  end.
Fixpoint core_markers (k : Z) (segs : list seg) : list CoreOffsetofMarker :=
  match segs with
  | [] => []
  | Plain _ :: segs => core_markers k segs
  | Site s f off :: segs =>
      {| sentinel := sentinel_of k; mk_struct_name := s; mk_field_name := f; fallback_offset := off |}
      :: core_markers (k + 1) segs
  end.
Fixpoint static_text (segs : list seg) : bytes :=
  match segs with
  | [] => []
  | Plain c :: segs => char_of c ++ static_text segs
  | Site _ _ off :: segs => decimal off ++ static_text segs
  end.

Lemma site_offset_blob needle b prev l b' r : indexed b -> same_blob b b' ->
  site_offset (E:=E) needle prev l b' = Ret r ->
  same_blob b r.2 /\
  match r.1 with
  | Some (s, f, off, rest) => offsetof_site needle prev l = Some (s, f, rest) /\ offset_of b s f off
  | None => forall s f rest, offsetof_site needle prev l = Some (s, f, rest) -> forall off, ~ offset_of b s f off
  end.
Proof.
  intros Hb Hs. unfold site_offset. destruct (offsetof_site needle prev l) as [[[s f] rest]|]; [|by intros [= <-]].
  destruct (field_offset s f b') as [x|?|] eqn:Ef; [|done..]. rewrite bind_Ret. intros [= <-]. cbn [fst snd].
  destruct (field_offset_blob s f b b' x Hb Hs Ef) as [[b2 E2] S2]. split; [done|].
  destruct (x.1) as [[off size]|e].
  - split; [done|]. by exists size, b2.
  - intros s' f' rest' [= <- <- <-] off (size & b3 & E3). congruence.
Qed.

Lemma core_loop_cut b fuel : indexed b -> forall prev l b' out ms r, same_blob b b' ->
  core_offsetof_loop (E:=E) fuel prev l b' out ms = Ret r ->
  exists segs, cut (str "CORE_OFFSETOF") b prev l segs /\ same_blob b r.2
    /\ r.1.1 = out ++ core_text (len ms) segs /\ r.1.2 = ms ++ core_markers (len ms) segs.
Proof.
  intros Hb. induction fuel as [|fuel IH]; intros prev [|c l1] b' out ms r Hs; cbn [core_offsetof_loop]; try done.
  1,2: intros [= <-]; exists []; rewrite !app_nil_r; split_and!; try done; by constructor.
  intros H. split_ret H. apply (site_offset_blob _ b) in R as [S1 R]; [|done..].
  destruct (a.1) as [[[[s f] off] rest]|].
  - destruct R as [R1 R2]. apply IH in H as (segs & C & S2 & -> & ->); [|done].
    exists (Site s f off :: segs). cbn [core_text core_markers]. rewrite len_app. change (len [_]) with 1.
    rewrite <- !app_assoc. split_and!; [by eapply cut_site|done..].
  - apply IH in H as (segs & C & S2 & -> & ->); [|done]. exists (Plain c :: segs). cbn [core_text core_markers].
    rewrite <- !app_assoc. split_and!; [by constructor|done..].
Qed.

Lemma static_loop_cut b fuel : indexed b -> forall prev l b' out r, same_blob b b' ->
  offsetof_loop (E:=E) fuel prev l b' out = Ret r ->
  exists segs, cut (str "OFFSETOF") b prev l segs /\ same_blob b r.2 /\ r.1 = out ++ static_text segs.
Proof.
  intros Hb. induction fuel as [|fuel IH]; intros prev [|c l1] b' out r Hs; cbn [offsetof_loop]; try done.
  1,2: intros [= <-]; exists []; rewrite !app_nil_r; split_and!; try done; by constructor.
  intros H. split_ret H. apply (site_offset_blob _ b) in R as [S1 R]; [|done..].
  destruct (a.1) as [[[[s f] off] rest]|].
  - destruct R as [R1 R2]. apply IH in H as (segs & C & S2 & ->); [|done].
    exists (Site s f off :: segs). cbn [static_text]. rewrite <- !app_assoc. split_and!; [by eapply cut_site|done..].
  - apply IH in H as (segs & C & S2 & ->); [|done]. exists (Plain c :: segs). cbn [static_text].
    rewrite <- !app_assoc. split_and!; [by constructor|done..].
Qed.

(** A text is cut in one way. *)
Lemma offset_of_fun b s f o1 o2 : offset_of b s f o1 -> offset_of b s f o2 -> o1 = o2.
Proof. intros (z1 & b1 & E1) (z2 & b2 & E2). congruence. Qed.

Lemma cut_fun needle b prev l s1 : needle <> [] -> cut needle b prev l s1 -> forall s2, cut needle b prev l s2 -> s1 = s2.
Proof.
  intros Hn H. induction H as [prev|prev l s f rest off segs Hs Ho Hc IH|prev c l segs Hs Hc IH]; intros s2 H2.
  - inversion H2 as [| ? ? ? ? ? ? ? Hx|]; [done|subst]. unfold offsetof_site in Hx. by destruct needle.
  - inversion H2 as [|? ? s' f' rest' off' segs' Hs' Ho' Hc'|? ? ? ? Hs' Hc']; subst.
    + unfold offsetof_site in Hs. by destruct needle.
    + rewrite Hs in Hs'. injection Hs' as <- <- <-. f_equal; [|by apply IH]. f_equal. by eapply offset_of_fun.
    + by destruct (Hs' _ _ _ Hs off).
  - inversion H2 as [|? ? s' f' rest' off' segs' Hs' Ho' Hc'|? ? ? ? Hs' Hc']; subst.
    + by destruct (Hs _ _ _ Hs' off').
    + f_equal. by apply IH.
Qed.

(** The markers' sentinels are distinct while they are at most [2 ^ 32]. *)
Lemma sentinel_inj k1 k2 : in_u 32 k1 -> in_u 32 k2 -> sentinel_of k1 = sentinel_of k2 -> k1 = k2.
Proof.
  intros H1 H2. unfold sentinel_of, core_offsetof_sentinel. rewrite !Z.mod_small by (unfold in_u in *; lia).
  intros H. apply (f_equal (fun x => Z.land x (Z.ones 32))) in H.
  rewrite !Z.land_lor_distr_l in H. change (Z.land (Z.shiftl CORE_OFFSETOF_SENTINEL_HI 32) (Z.ones 32)) with 0 in H.
  rewrite !Z.lor_0_l, !Z.land_ones, !Z.mod_small in H by (unfold in_u in *; lia). done.
Qed.

Lemma core_markers_find segs : forall k m, 0 <= k -> k + len (core_markers k segs) <= 2 ^ 32 ->
  m ∈ core_markers k segs -> find_marker (sentinel m) (core_markers k segs) = Some m.
Proof.
  assert (A : forall segs k m, m ∈ core_markers k segs ->
    exists j, k <= j < k + len (core_markers k segs) /\ sentinel m = sentinel_of j).
  { clear. induction segs as [|[c|s f off] segs IH]; intros k m; cbn [core_markers]; [by intros ?%elem_of_nil|by apply IH|].
    rewrite len_cons. intros [->|H]%elem_of_cons; [exists k; split; [len_lia|done]|].
    destruct (IH _ _ H) as (j & Hj & E0). exists j. split; [lia|done]. }
  induction segs as [|[c|s f off] segs IH]; intros k m Hk Hl; cbn [core_markers] in *; [by intros ?%elem_of_nil|by apply IH|].
  rewrite len_cons in Hl. cbn [find_marker sentinel]. intros [->|H]%elem_of_cons; [cbn [sentinel]; by rewrite Z.eqb_refl|].
  destruct (A _ _ _ H) as (j & Hj & E0). destruct (Z.eqb_spec (sentinel_of k) (sentinel m)) as [E1|]; [|apply IH; [lia..|done]].
  rewrite E0 in E1. apply sentinel_inj in E1; unfold in_u; lia.
Qed.
End Cut.

(** C15: For the text cut at its sites, which is possible in one way only:
    [rewrite_core_offsetof] replaces the sites, and them alone, by their
    sentinels, and returns a marker of each with the offset of its field; up
    to [2 ^ 32] of them a sentinel finds its own marker again, as the pass over
    the lowered program does.  [rewrite_offsetof] replaces the sites of its own
    macro by the offsets. *)
Theorem offsetof_rewritten {E} input b (Hb : indexed b) :
  (forall out ms b', rewrite_core_offsetof (E:=E) input (Some b) = Ret (out, ms, b') ->
   exists segs, (forall segs', cut (E:=E) (str "CORE_OFFSETOF") b None input segs' <-> segs' = segs)
     /\ out = core_text 0 segs /\ ms = core_markers 0 segs
     /\ (len ms <= 2 ^ 32 -> forall m, m ∈ ms -> find_marker (sentinel m) ms = Some m))
  /\ (forall out b', rewrite_offsetof (E:=E) input (Some b) = Ret (out, b') ->
      exists segs, (forall segs', cut (E:=E) (str "OFFSETOF") b None input segs' <-> segs' = segs)
        /\ out = static_text segs).
Proof.
  assert (U : forall needle segs, needle <> [] -> cut (E:=E) needle b None input segs ->
    forall segs', cut (E:=E) needle b None input segs' <-> segs' = segs).
  { intros needle segs Hn C segs'. split; [|by intros ->]. intros C'. by eapply cut_fun. }
  split; intros out; [intros ms|]; intros b' H.
  - unfold rewrite_core_offsetof in H. split_ret H. apply (core_loop_cut b) in R as (segs & C & _ & E1 & E2); [|done..].
    destruct a as [[o m] b2]. cbn [fst snd app] in *. injection H as <- <- _. exists segs.
    split_and!; [by apply U|done|done|]. subst. intros Hl m. apply core_markers_find; [done|]. exact Hl.
  - unfold rewrite_offsetof in H. split_ret H. apply (static_loop_cut b) in R as (segs & C & _ & E1); [|done..].
    destruct a as [o b2]. cbn [fst snd app] in *. injection H as <- _. exists segs. by split; [apply U|].
Qed.
