(* ===== verification/Translators.v ===== *)
(** Typed arguments (host/bifrost, src/translators.rs): a chain
    [args[N]->field.field] in a clause's body becomes an [argN] builtin, or an
    expression over [CORE_OFFSETOF] macros that the BTF resolves; and the
    rewrites of one clause in the order of src/cli/linux_compile.rs. *)

From Stdlib Require Import Strings.String.
From stdpp Require Import gmap.
From S2P Require Import Utf8.
From S2P Require Import Text.
From S2P Require Import DParse.
From S2P Require Import Btf.
From S2P Require Import AggSnapshot.
From S2P Require Import CoreReloc.
From S2P Require Import SourceRewrite.
From S2P Require Import Prelude.

Local Open Scope Z_scope.
Local Open Scope list_scope.

Definition MAX_CHAIN_DEPTH : Z := 4.
Definition MAX_CHAINS_PER_CLAUSE : Z := 8.

Inductive ResolveFailure : Type :=
| BtfNotLoaded
| NoTracepointRoot (idx : Z) (sub_arg : bytes)
| BtfFailed (e : BtfError)
| IntermediateNotStruct (field : bytes).

Inductive TranslatorError : Type :=
| Unresolved (chain : bytes) (source : ResolveFailure)
| ChainTooDeep (chain : bytes) (depth : Z)
| TooManyChains (count : Z)
| ArgIndexOutOfRange (idx : Z)
| UserPointerChase (chain field : bytes)
| UnsupportedTerminal (chain terminal : bytes) (size : Z).

(** A chain and where it is in the body. *)
Record TypedArg : Type := {
  ta_idx : Z;
  ta_path : list bytes;
  ta_start : Z;
  ta_end : Z
}.
(** [&body[start..end]]: chains begin and end at ASCII bytes. *)
Definition raw (a : TypedArg) (body : bytes) : bytes :=
  take (Z.to_nat (ta_end a - ta_start a)) (drop (Z.to_nat (ta_start a)) body).

Record BtfHop : Type := {
  hop_struct : bytes;
  hop_field : bytes;
  hop_size : Z
}.

(** ** The canonical chains and the tracepoints' roots *)

Record Canonical : Type := {
  can_path : list string;
  src_arg : Z;
  dst_arg : Z
}.
Definition CANONICAL : list Canonical :=
  [ {| can_path := ["prev"; "comm"]; src_arg := 0; dst_arg := 0 |};
    {| can_path := ["prev"; "pid"]; src_arg := 0; dst_arg := 1 |};
    {| can_path := ["next"; "comm"]; src_arg := 0; dst_arg := 4 |};
    {| can_path := ["next"; "pid"]; src_arg := 0; dst_arg := 5 |};
    {| can_path := ["pr_pid"]; src_arg := 0; dst_arg := 1 |} ]%string.

(** The first of a list for which there is a result, [find_map]. *)
Fixpoint find_map {A B} (f : A -> option B) (l : list A) : option B :=
  match l with
  | [] => None
  | x :: l => match f x with Some y => Some y | None => find_map f l end
  end.

Definition match_canonical (a : TypedArg) : option Z :=
  find_map (fun c => if (src_arg c =? ta_idx a) && bool_decide (map str (can_path c) = ta_path a)
                     then Some (dst_arg c) else None) CANONICAL.

Record TpRoot : Type := {
  sub_arg : string;
  real_arg : Z;
  btf_struct : string
}.
Record TpRootSet : Type := {
  set_provider : string;
  set_function : string;
  set_name : string;
  set_roots : list TpRoot
}.
Definition wakee_roots : list TpRoot :=
  [ {| sub_arg := "p"; real_arg := 0; btf_struct := "task_struct" |};
    {| sub_arg := "task"; real_arg := 0; btf_struct := "task_struct" |} ].
Definition TP_ROOTS : list TpRootSet :=
  [ {| set_provider := "tracepoint"; set_function := "sched"; set_name := "sched_switch";
       set_roots := [ {| sub_arg := "prev"; real_arg := 1; btf_struct := "task_struct" |};
                      {| sub_arg := "next"; real_arg := 2; btf_struct := "task_struct" |} ] |};
    {| set_provider := "tracepoint"; set_function := "sched"; set_name := "sched_wakeup";
       set_roots := wakee_roots |};
    {| set_provider := "tracepoint"; set_function := "sched"; set_name := "sched_wakeup_new";
       set_roots := wakee_roots |} ].

Definition root_set_of (p : ProbeSpec) : option TpRootSet :=
  find_map (fun s => if is_str (spec_provider p) (set_provider s) && is_str (spec_function p) (set_function s)
                        && is_str (spec_name p) (set_name s) then Some s else None) TP_ROOTS.
Definition root_in (arg : bytes) (s : TpRootSet) : option TpRoot :=
  find_map (fun r => if is_str arg (sub_arg r) then Some r else None) (set_roots s).

Definition tp_root_for (c : Clause) (idx : Z) (arg : bytes) : option TpRoot :=
  if negb (idx =? 0) then None
  else find_map (fun p => s ← root_set_of p; root_in arg s)
         (filter (fun p => is_tracepoint p = true) (clause_specs c)).

(** ** The walk over a body *)

(** [bytes] from [cursor] on and the byte before it. *)
Record BodyWalk : Type := {
  before : option Init.Byte.byte;
  ahead : bytes;
  in_str : bool;
  in_char : bool
}.
Definition new_walk (body : bytes) : BodyWalk :=
  {| before := None; ahead := body; in_str := false; in_char := false |}.
Definition moved (w : BodyWalk) (b : Init.Byte.byte) (l : bytes) : BodyWalk :=
  {| before := Some b; ahead := l; in_str := in_str w; in_char := in_char w |}.

(** Whether the cursor is on code; else past the byte, or the escape, of a
    literal. *)
Definition step_into_code (w : BodyWalk) : bool * BodyWalk :=
  match ahead w with
  | [] => (true, w)
  | b :: l1 =>
      let one :=
        if byte_is b 0x22 && negb (in_char w) then
          (false, {| before := Some b; ahead := l1; in_str := negb (in_str w); in_char := in_char w |})
        else if byte_is b 0x27 && negb (in_str w) then
          (false, {| before := Some b; ahead := l1; in_str := in_str w; in_char := negb (in_char w) |})
        else if in_str w || in_char w then (false, moved w b l1)
        else (true, w) in
      match l1 with
      | c :: l2 => if byte_is b 0x5c && (in_str w || in_char w) then (false, moved w c l2) else one
      | [] => one
      end
  end.

(** [str::parse::<u32>] of digits. *)
Definition parse_u32 (l : bytes) : option Z :=
  v ← parse_u64 l; if v <=? U32_MAX then Some v else None.

(** The [->ident] and [.ident] steps. *)
Fixpoint chain_path (fuel : nat) (path : list bytes) (l : bytes) : option (list bytes * bytes) :=
  match fuel with
  | O => None
  | S fuel =>
      match (match drop_prefix (str "->") l with
             | Some l => Some l
             | None => if negb (match path with [] => true | _ => false end) then expect 0x2e l else None
             end) with
      | None => Some (path, l)
      | Some l =>
          let '(id, l) := span is_ident_byte l in
          if is_empty id then None else chain_path fuel (path ++ [id]) l
      end
  end.

(** The chain at the cursor; [size] is the length of the body. *)
Definition try_chain (size : Z) (w : BodyWalk) : option (TypedArg * BodyWalk) :=
  match drop_prefix (str "args[") (ahead w) with
  | None => None
  | Some l =>
      if negb (prev_ok (before w)) then None
      else
        let '(digits, l) := span is_ascii_digit l in
        if is_empty digits then None
        else
          l ← expect 0x5d l;
          idx ← parse_u32 digits;
          if negb (starts_with "->" l) then None
          else
            p ← chain_path (S (length l)) [] l;
            let '(path, rest) := p in
            if match path with [] => true | _ => false end then None
            else Some ({| ta_idx := idx; ta_path := path; ta_start := size - len (ahead w);
                          ta_end := size - len rest |},
                       {| before := list.last (upto (ahead w) rest); ahead := rest; in_str := in_str w;
                          in_char := in_char w |})
  end.

Fixpoint find_loop (fuel : nat) (size : Z) (w : BodyWalk) : list TypedArg :=
  match fuel, ahead w with
  | _, [] => []
  | O, _ => []
  | S fuel, b :: l1 =>
      let '(code, w1) := step_into_code w in
      if negb code then find_loop fuel size w1
      else
        match try_chain size w1 with
        | Some (chain, w2) => chain :: find_loop fuel size w2
        | None => find_loop fuel size (moved w1 b l1)
        end
  end.
Definition find_typed_args (body : bytes) : list TypedArg :=
  find_loop (length body) (len body) (new_walk body).

(** ** One chain *)

Fixpoint walk_hops (chain cur : bytes) (tail : list bytes) (btf : Btf)
  : outcome TranslatorError (list BtfHop * Btf) :=
  match tail with
  | [] => Ret ([], btf)
  | field :: tail =>
      r ← field_offset cur field btf;
      match r.1 with
      | Err e => Throw (Unresolved chain (BtfFailed e))
      | Ok (_, size) =>
          let hop := {| hop_struct := cur; hop_field := field; hop_size := size |} in
          match tail with
          | [] => Ret ([hop], r.2)
          | _ =>
              m ← member_descend cur field r.2;
              match m.1 with
              | Some (EmbeddedStruct name) =>
                  h ← walk_hops chain name tail m.2;
                  Ret (hop :: h.1, h.2)
              | Some (Pointer _) => Throw (UserPointerChase chain field)
              | Some Scalar | None => Throw (Unresolved chain (IntermediateNotStruct field))
              end
          end
      end
  end.

Definition deref_type (size : Z) : option string :=
  if size =? 1 then Some "unsigned char"%string
  else if size =? 2 then Some "unsigned short"%string
  else if size =? 4 then Some "unsigned int"%string
  else if size =? 8 then Some "unsigned long"%string
  else None.

Definition hop_text (h : BtfHop) : bytes :=
  str " + CORE_OFFSETOF(" ++ hop_struct h ++ str ", " ++ hop_field h ++ str ")".
Definition chain_expr (ty : string) (arg : Z) (hops : list BtfHop) : bytes :=
  str "(*(" ++ str ty ++ str " *)((unsigned long)arg" ++ decimal arg ++ flat_map hop_text hops ++ str "))".

Definition resolve_chain (c : Clause) (chain : TypedArg) (body : bytes) (btf : option Btf)
  : outcome TranslatorError (bytes * option Btf) :=
  if 9 <? ta_idx chain then Throw (ArgIndexOutOfRange (ta_idx chain))
  else if MAX_CHAIN_DEPTH <? len (ta_path chain) then
    Throw (ChainTooDeep (raw chain body) (len (ta_path chain)))
  else
    match match_canonical chain with
    | Some dst => Ret (str "arg" ++ decimal dst, btf)
    | None =>
        let raw := raw chain body in
        match btf, ta_path chain with
        | None, _ => Throw (Unresolved raw BtfNotLoaded)
        | Some _, [] => Panic
        | Some b, arg :: tail =>
            match tp_root_for c (ta_idx chain) arg with
            | None => Throw (Unresolved raw (NoTracepointRoot (ta_idx chain) arg))
            | Some root =>
                h ← walk_hops raw (str (btf_struct root)) tail b;
                match list.last h.1 with
                | None => Panic
                | Some terminal =>
                    match deref_type (hop_size terminal) with
                    | None => Throw (UnsupportedTerminal raw (hop_field terminal) (hop_size terminal))
                    | Some ty => Ret (chain_expr ty (real_arg root) h.1, Some h.2)
                    end
                end
            end
        end
    end.

(** ** A body *)

(** What the loop copies of a literal: [bytes[prev..resumed]] with [prev] the
    larger of [resumed - 2] and [resumed - 1], both saturating. *)
Definition copied (body rest : bytes) : bytes :=
  let resumed := len body - len rest in
  let prev := Z.max (Z.max 0 (resumed - 2)) (Z.max 0 (resumed - 1)) in
  drop (Z.to_nat prev) (take (Z.to_nat resumed) body).

Fixpoint expand_loop (fuel : nat) (c : Clause) (body : bytes) (w : BodyWalk) (count : Z) (btf : option Btf)
  (out : bytes) : outcome TranslatorError (bytes * option Btf) :=
  match fuel, ahead w with
  | _, [] => Ret (out, btf)
  | O, _ => Panic
  | S fuel, b :: l1 =>
      let '(code, w1) := step_into_code w in
      if negb code then
        expand_loop fuel c body w1 count btf (out ++ chars_of (copied body (ahead w1)))
      else
        match try_chain (len body) w1 with
        | Some (chain, w2) =>
            if MAX_CHAINS_PER_CLAUSE <? count + 1 then Throw (TooManyChains (count + 1))
            else
              r ← resolve_chain c chain body btf;
              expand_loop fuel c body w2 (count + 1) r.2 (out ++ r.1)
        | None => expand_loop fuel c body (moved w1 b l1) count btf (out ++ char_of b)
        end
  end.

Definition expand_translators (c : Clause) (body : bytes) (btf : option Btf)
  : outcome TranslatorError (bytes * option Btf) :=
  expand_loop (length body) c body (new_walk body) 0 btf [].

(** ** The rewrites of one clause (linux_compile.rs) *)

Inductive ClauseError : Type :=
| TranslatorFailed (e : TranslatorError)
| RewriteFailed (e : RewriteError).

Definition map_err {E E' A} (f : E -> E') (m : outcome E A) : outcome E' A :=
  match m with Ret x => Ret x | Throw e => Throw (f e) | Panic => Panic end.

(** [clause_with_expansion] *)
Definition with_body (c : Clause) (body : bytes) : Clause :=
  if bool_decide (body = clause_body c) then c
  else
    {| clause_specs := clause_specs c; clause_pred := clause_pred c; clause_body := body;
       clause_source :=
         (let '(head, rest) := span (fun x => negb (byte_is x 0x7b)) (clause_source c) in
          match rest with [] => clause_source c | _ => head ++ str "{" ++ body ++ str "}" end) |}.

(** From the body of a clause to the program for libdtrace and the markers of
    its [CORE_OFFSETOF] sites. *)
Definition rewrite_clause (c : Clause) (btf : option Btf)
  : outcome ClauseError (bytes * list CoreOffsetofMarker * option Btf) :=
  x ← map_err TranslatorFailed (expand_translators c (clause_body c) btf);
  let c := with_body c x.1 in
  r ← map_err RewriteFailed (rewrite_retval (build_clause_program c) c x.2);
  y ← rewrite_core_offsetof (rewrite_g_actions r.1) r.2;
  z ← rewrite_offsetof y.1.1 y.2;
  Ret (z.1, y.1.2, z.2).
