(* ===== verification/TranslatorsOk.v ===== *)
(** The chains of typed arguments (Translators.v): what a body becomes, and
    that the macros a chain becomes are marked, hop by hop, by the rewrite of
    SourceRewrite.v that follows. *)

From Stdlib Require Import Strings.String.
From stdpp Require Import gmap.
From S2P Require Import Utf8.
From S2P Require Import Text.
From S2P Require Import DParse.
From S2P Require Import DParseOk.
From S2P Require Import Btf.
From S2P Require Import BtfLookup.
From S2P Require Import AggSnapshot.
From S2P Require Import CoreReloc.
From S2P Require Import SourceRewrite.
From S2P Require Import SourceRewriteOk.
From S2P Require Import Translators.
From S2P Require Import Prelude.

Local Open Scope Z_scope.
Local Open Scope list_scope.

(** ** How a body is read

    Independently of the walk: a body is bytes of code, literals and chains.  A
    literal runs from a quote to the next one of its kind, or to the end of the
    body; in it a backslash takes the byte after it along.  A chain begins where
    no identifier's byte is before it, and takes every step that follows. *)

Inductive token : Type :=
| Code (b : Init.Byte.byte)
| Literal (shown : bytes)
| Chain (a : TypedArg).

Definition quote (q : Init.Byte.byte) : Prop := q = u8b 0x22 \/ q = u8b 0x27.

(** From the byte after the quote [q]: what a literal is without the backslashes
    of its escapes, and the text after it. *)
Inductive literal (q : Init.Byte.byte) : bytes -> bytes -> bytes -> Prop :=
| literal_closed rest : literal q (q :: rest) [q] rest
| literal_open : literal q [] [] []
| literal_last : literal q [u8b 0x5c] [u8b 0x5c] []
| literal_escape b l shown rest : literal q l shown rest -> literal q (u8b 0x5c :: b :: l) (b :: shown) rest
| literal_byte b l shown rest :
    b <> q -> b <> u8b 0x5c -> literal q l shown rest -> literal q (b :: l) (b :: shown) rest.

Definition identifier_bytes (s : bytes) : Prop := s <> [] /\ Forall (fun b => is_ident_byte b = true) s.

(** The steps of a chain: [->ident] first, then [->ident] or [.ident]. *)
Inductive path_text : bool -> list bytes -> bytes -> Prop :=
| path_nil first : path_text first [] []
| path_arrow first id path t :
    identifier_bytes id -> path_text false path t -> path_text first (id :: path) (str "->" ++ id ++ t)
| path_dot id path t :
    identifier_bytes id -> path_text false path t -> path_text false (id :: path) (u8b 0x2e :: id ++ t).

(** Nothing of [rest] belongs to a chain before it. *)
Definition chain_ends (rest : bytes) : Prop :=
  match rest with b :: _ => is_ident_byte b = false | [] => True end
  /\ (forall t, rest <> str "->" ++ t) /\ (forall t, rest <> u8b 0x2e :: t).

Record chain_at (prev : option Init.Byte.byte) (l : bytes) (idx : Z) (path : list bytes) (text rest : bytes) : Prop := {
  ca_prev : match prev with Some b => is_ident_byte b = false | None => True end;
  ca_text : exists digits steps, text = str "args[" ++ digits ++ u8b 0x5d :: steps
    /\ digits <> [] /\ Forall (fun b => is_ascii_digit b = true) digits /\ parse_u32 digits = Some idx
    /\ path_text true path steps;
  ca_path : path <> [];
  ca_ends : chain_ends rest;
  ca_whole : l = text ++ rest
}.

(** [reads size prev l ts]: the last bytes [l] of a body of [size], after the
    byte [prev], are the tokens [ts]. *)
Inductive reads (size : Z) : option Init.Byte.byte -> bytes -> list token -> Prop :=
| reads_end prev : reads size prev [] []
| reads_literal prev q l shown rest ts :
    quote q -> literal q l shown rest -> reads size (Some q) rest ts ->
    reads size prev (q :: l) (Literal (q :: shown) :: ts)
| reads_chain prev l idx path text rest ts :
    chain_at prev l idx path text rest -> reads size (list.last text) rest ts ->
    reads size prev l (Chain {| ta_idx := idx; ta_path := path; ta_start := size - len l; ta_end := size - len rest |} :: ts)
| reads_code prev b l ts :
    ~ quote b -> (forall idx path text rest, ~ chain_at prev (b :: l) idx path text rest) ->
    reads size (Some b) l ts -> reads size prev (b :: l) (Code b :: ts).

Definition chains_of (ts : list token) : list TypedArg :=
  flat_map (fun t => match t with Chain a => [a] | _ => [] end) ts.

(** What the tokens become, after [count] chains: each byte is written as a
    character of its own, and each chain is what it resolves to. *)
Fixpoint expansion (c : Clause) (body : bytes) (count : Z) (ts : list token) (btf : option Btf)
  : outcome TranslatorError (bytes * option Btf) :=
  match ts with
  | [] => Ret ([], btf)
  | Code b :: ts => r ← expansion c body count ts btf; Ret (char_of b ++ r.1, r.2)
  | Literal shown :: ts => r ← expansion c body count ts btf; Ret (chars_of shown ++ r.1, r.2)
  | Chain a :: ts =>
      if MAX_CHAINS_PER_CLAUSE <? count + 1 then Throw (TooManyChains (count + 1))
      else
        x ← resolve_chain c a body btf;
        r ← expansion c body (count + 1) ts x.2;
        Ret (x.1 ++ r.1, r.2)
  end.

(** *** Chains, by the code and by the grammar *)

Lemma span_boundary f l : match (span f l).2 with x :: _ => f x = false | [] => True end.
Proof. induction l as [|x l IH]; [done|]. cbn [span]. destruct (f x) eqn:E; [|done]. by destruct (span f l). Qed.

Lemma drop_prefix_None p l : drop_prefix p l = None <-> forall t, l <> p ++ t.
Proof.
  split.
  - intros H t ->. by rewrite drop_prefix_whole in H.
  - intros H. destruct (drop_prefix p l) as [t|] eqn:E; [|done]. apply drop_prefix_Some in E. by destruct (H t).
Qed.

Lemma arrow_not_ident t : exists l, str "->" ++ t = u8b 0x2d :: l /\ is_ident_byte (u8b 0x2d) = false.
Proof. by eexists. Qed.

Definition boundary (l : bytes) : Prop := match l with b :: _ => is_ident_byte b = false | [] => True end.

Lemma path_boundary first path t rest : path_text first path t -> chain_ends rest -> boundary (t ++ rest).
Proof. intros H (Hb & _). by inversion H; subst. Qed.

Lemma ident_span id l : Forall (fun b => is_ident_byte b = true) id -> boundary l -> span is_ident_byte (id ++ l) = (id, l).
Proof. intros H1 H2. by apply span_app. Qed.

Lemma chain_path_complete rest : chain_ends rest -> forall path first t fuel acc,
  path_text first path t -> first = (match acc with [] => true | _ => false end) -> (length path < fuel)%nat ->
  (acc = [] -> path <> []) ->
  chain_path fuel acc (t ++ rest) = Some (acc ++ path, rest).
Proof.
  intros He. induction path as [|id path IH]; intros first t fuel acc H Hf Hl Hne; destruct fuel as [|fuel]; [lia| |simpl in Hl; lia|];
    cbn [chain_path].
  - inversion H; subst. cbn [app]. destruct He as (_ & Ha & Hd). rewrite (proj2 (drop_prefix_None _ _) Ha).
    destruct acc as [|x acc]; [by destruct Hne|]. cbn [negb]. rewrite app_nil_r.
    destruct (expect 0x2e rest) as [l|] eqn:X; [|done]. apply expect_cut in X. by destruct (Hd l).
  - assert (G : forall t', identifier_bytes id -> path_text false path t' ->
      (let '(id', l2) := span is_ident_byte (id ++ t' ++ rest) in
       if is_empty id' then None else chain_path fuel (acc ++ [id']) l2) = Some (acc ++ id :: path, rest)).
    { intros t' [Hi1 Hi2] Hp. rewrite ident_span by (done || by eapply path_boundary).
      destruct id as [|b id]; [done|]. cbn [is_empty].
      rewrite (IH false t' fuel (acc ++ [b :: id]) Hp); [by rewrite <- app_assoc|by destruct acc|simpl in Hl; lia|by destruct acc]. }
    inversion H; subst.
    + rewrite <- !app_assoc, drop_prefix_whole. by apply G.
    + destruct acc as [|x acc]; [done|]. cbn [app negb]. rewrite <- !app_assoc.
      rewrite (proj2 (drop_prefix_None (str "->") (u8b 0x2e :: id ++ t0 ++ rest))) by (intros ? [=]).
      rewrite expect_byte by lia. by apply G.
Qed.

Lemma chain_path_sound fuel : forall acc l p rest, chain_path fuel acc l = Some (p, rest) ->
  boundary l \/ acc = [] ->
  exists path t, p = acc ++ path /\ l = t ++ rest /\
    path_text (match acc with [] => true | _ => false end) path t /\
    (p <> [] -> chain_ends rest).
Proof.
  induction fuel as [|fuel IH]; intros acc l p rest; cbn [chain_path]; [done|]. intros H Hb.
  assert (G : forall l1, (let '(id, l2) := span is_ident_byte l1 in
      if is_empty id then None else chain_path fuel (acc ++ [id]) l2) = Some (p, rest) ->
    exists id path t, p = acc ++ id :: path /\ l1 = id ++ t ++ rest /\ identifier_bytes id /\
      path_text false path t /\ (p <> [] -> chain_ends rest)).
  { intros l1 Hs. pose proof (span_spec is_ident_byte l1) as [S1 S2]. pose proof (span_boundary is_ident_byte l1) as S3.
    destruct (span is_ident_byte l1) as [id l2]. cbn [fst snd] in *. destruct id as [|b id]; [done|]. cbn [is_empty] in Hs.
    apply IH in Hs as (path & t & -> & -> & P & He); [|by left].
    exists (b :: id), path, t. split_and!; [by rewrite <- app_assoc|by rewrite <- S1|done|by destruct acc|done]. }
  destruct (drop_prefix (str "->") l) as [l1|] eqn:D.
  { apply drop_prefix_Some in D as ->. apply G in H as (id & path & t & -> & -> & Hi & P & He).
    exists (id :: path), (str "->" ++ id ++ t). split_and!; [done|by rewrite <- !app_assoc|by constructor|done]. }
  pose proof (proj1 (drop_prefix_None _ _) D) as Ha. destruct acc as [|x acc]; cbn [negb] in H.
  { injection H as <- <-. exists [], []. split_and!; [done..|constructor|done]. }
  destruct (expect 0x2e l) as [l1|] eqn:X.
  - apply expect_cut in X as ->. apply G in H as (id & path & t & -> & -> & Hi & P & He).
    exists (id :: path), (u8b 0x2e :: id ++ t). split_and!; [done|by rewrite <- app_comm_cons, <- !app_assoc|by constructor|done].
  - injection H as <- <-. exists [], []. split_and!; [by rewrite app_nil_r|done|constructor|]. intros _.
    destruct Hb as [Hb|]; [|done]. split; [exact Hb|]. split; [done|]. intros t ->. by rewrite expect_byte in X by lia.
Qed.

Lemma path_text_length first path t : path_text first path t -> (length path <= length t)%nat.
Proof.
  induction 1 as [|first id path t [Hi _] _ IH|id path t [Hi _] _ IH]; [done|..];
    (destruct id as [|b id]; [done|]); simpl in *; rewrite ?length_app; simpl; rewrite ?length_app; lia.
Qed.

Lemma prev_ok_iff prev : prev_ok prev = true <-> match prev with Some b => is_ident_byte b = false | None => True end.
Proof. destruct prev as [b|]; [|done]. unfold prev_ok. change (is_ident_char b) with (is_ident_byte b). by destruct (is_ident_byte b). Qed.

Definition chain_of (size idx : Z) (path : list bytes) (l rest : bytes) : TypedArg :=
  {| ta_idx := idx; ta_path := path; ta_start := size - len l; ta_end := size - len rest |}.

Lemma try_chain_sound size w a w2 : try_chain size w = Some (a, w2) ->
  exists idx path text rest, chain_at (before w) (ahead w) idx path text rest
    /\ a = chain_of size idx path (ahead w) rest
    /\ w2 = {| before := list.last text; ahead := rest; in_str := in_str w; in_char := in_char w |}.
Proof.
  unfold try_chain. destruct (drop_prefix _ (ahead w)) as [l|] eqn:D; [|done]. apply drop_prefix_Some in D.
  destruct (prev_ok (before w)) eqn:Hp; [|done]. cbn [negb]. apply prev_ok_iff in Hp.
  pose proof (span_spec is_ascii_digit l) as [S1 S2]. destruct (span is_ascii_digit l) as [ds l1]. cbn [fst snd] in S1, S2.
  destruct ds as [|d ds]; [done|]. set (digits := d :: ds) in *. cbn [is_empty digits].
  destruct (expect 0x5d l1) as [l2|] eqn:X; [|done]. apply expect_cut in X. cbn [mbind option_bind].
  destruct (parse_u32 digits) as [idx|] eqn:Ep; [|done]. cbn [mbind option_bind]. destruct (negb _); [done|].
  destruct (chain_path _ [] l2) as [[p rest]|] eqn:P; [|done]. cbn [mbind option_bind].
  apply chain_path_sound in P as (path & t & -> & Et & P & He); [|by right]. cbn [app] in *.
  destruct path as [|id path]; [done|]. intros [= <- <-].
  assert (E : ahead w = (str "args[" ++ digits ++ u8b 0x5d :: t) ++ rest).
  { rewrite D, <- S1, X, Et. by rewrite <- !app_assoc, <- app_comm_cons. }
  exists idx, (id :: path), (str "args[" ++ digits ++ u8b 0x5d :: t), rest. split_and!; [|done|].
  - split; [done| |done|by apply He|exact E]. by exists digits, t.
  - do 2 f_equal. rewrite E. unfold upto. rewrite length_app.
    replace (_ + _ - _)%nat with (length (str "args[" ++ digits ++ u8b 0x5d :: t)) by lia. by rewrite take_app_length.
Qed.

Lemma try_chain_complete size w idx path text rest : chain_at (before w) (ahead w) idx path text rest ->
  try_chain size w = Some (chain_of size idx path (ahead w) rest,
    {| before := list.last text; ahead := rest; in_str := in_str w; in_char := in_char w |}).
Proof.
  intros [Hp (digits & steps & Et & Hd1 & Hd2 & Hd3 & P) Hne He E].
  assert (E' : ahead w = str "args[" ++ digits ++ u8b 0x5d :: steps ++ rest).
  { rewrite E, Et. by rewrite <- !app_assoc, <- app_comm_cons. }
  unfold try_chain. rewrite E' at 1. rewrite drop_prefix_whole, (proj2 (prev_ok_iff _) Hp). cbn [negb].
  rewrite (span_app is_ascii_digit digits (u8b 0x5d :: steps ++ rest)) by done.
  destruct digits as [|d digits]; [done|]. cbn [is_empty]. rewrite expect_byte by lia. cbn [mbind option_bind].
  rewrite Hd3. cbn [mbind option_bind].
  assert (Hs : starts_with "->" (steps ++ rest) = true).
  { inversion P; subst; [done|]. unfold starts_with. by rewrite <- !app_assoc, drop_prefix_whole. }
  rewrite Hs. cbn [negb]. pose proof (path_text_length _ _ _ P).
  rewrite (chain_path_complete rest He path true steps _ []) by (done || rewrite length_app; lia).
  cbn [mbind option_bind app]. destruct path as [|id path]; [done|]. do 2 f_equal. unfold upto. rewrite E, Et.
  rewrite length_app. f_equal. replace (_ + _ - _)%nat with (length (str "args[" ++ (d :: digits) ++ u8b 0x5d :: steps)) by lia.
  by rewrite take_app_length.
Qed.

Lemma chain_at_unique prev l i1 p1 t1 r1 i2 p2 t2 r2 :
  chain_at prev l i1 p1 t1 r1 -> chain_at prev l i2 p2 t2 r2 -> i1 = i2 /\ p1 = p2 /\ t1 = t2 /\ r1 = r2.
Proof.
  intros H1 H2. set (w := {| before := prev; ahead := l; in_str := false; in_char := false |}).
  pose proof (try_chain_complete 0 w _ _ _ _ H1) as E1. rewrite (try_chain_complete 0 w _ _ _ _ H2) in E1.
  injection E1 as -> -> _ _ ->. pose proof (ca_whole _ _ _ _ _ _ H1) as W. rewrite (ca_whole _ _ _ _ _ _ H2) in W.
  apply app_inv_tail in W. done.
Qed.

(** *** Literals, and that there is one reading *)

Lemma quote_not_backslash q : quote q -> q <> u8b 0x5c.
Proof. by intros [-> | ->]. Qed.

Lemma literal_unique q (Hq : quote q) l s1 r1 : literal q l s1 r1 -> forall s2 r2, literal q l s2 r2 -> s1 = s2 /\ r1 = r2.
Proof.
  pose proof (quote_not_backslash q Hq) as Hb.
  induction 1 as [rest| | |b l shown rest H IH|b l shown rest H1 H2 H IH]; intros s2 r2 H'; inversion H'; subst; try done.
  - match goal with H : literal q l _ _ |- _ => by destruct (IH _ _ H) as [-> ->] end.
  - match goal with H : literal q l _ _ |- _ => by destruct (IH _ _ H) as [-> ->] end.
Qed.

Lemma literal_exists q l : exists shown rest, literal q l shown rest /\ (length rest <= length l)%nat.
Proof.
  remember (length l) as n eqn:Hn. revert l Hn. induction n as [n IH] using lt_wf_ind. intros l ->.
  destruct l as [|b l]; [by exists [], []; split; [constructor|]|].
  destruct (decide (b = q)) as [->|Hq]; [exists [q], l; split; [constructor|simpl; lia]|].
  destruct (decide (b = u8b 0x5c)) as [->|Hb].
  - destruct l as [|c l]; [exists [u8b 0x5c], []; split; [constructor|simpl; lia]|].
    destruct (IH (length l) ltac:(simpl; lia) l eq_refl) as (s & r & H & Hr).
    exists (c :: s), r. split; [by constructor|simpl; lia].
  - destruct (IH (length l) ltac:(simpl; lia) l eq_refl) as (s & r & H & Hr).
    exists (b :: s), r. split; [by constructor|simpl; lia].
Qed.

Lemma chain_at_shorter prev l idx path text rest : chain_at prev l idx path text rest -> (length rest < length l)%nat.
Proof. intros [_ (d & s & -> & _) _ _ ->]. rewrite length_app. simpl. lia. Qed.

Lemma reads_exists size l : forall prev, exists ts, reads size prev l ts.
Proof.
  remember (length l) as n eqn:Hn. revert l Hn. induction n as [n IH] using lt_wf_ind. intros l -> prev.
  destruct l as [|b l]; [exists []; constructor|].
  destruct (decide (b = u8b 0x22 \/ b = u8b 0x27)) as [Hq|Hq].
  { destruct (literal_exists b l) as (s & r & H & Hr).
    destruct (IH (length r) ltac:(simpl; lia) r eq_refl (Some b)) as [ts R]. eexists. by eapply reads_literal. }
  set (w := {| before := prev; ahead := b :: l; in_str := false; in_char := false |}).
  destruct (try_chain size w) as [[a w2]|] eqn:T.
  - apply try_chain_sound in T as (idx & path & text & rest & H & _).
    destruct (IH (length rest) ltac:(by eapply chain_at_shorter) rest eq_refl (list.last text)) as [ts R].
    eexists. by eapply reads_chain.
  - destruct (IH (length l) ltac:(simpl; lia) l eq_refl (Some b)) as [ts R]. eexists. apply reads_code; [done| |exact R].
    intros idx path text rest H. apply (try_chain_complete size w) in H. by rewrite T in H.
Qed.

Lemma chain_not_quote prev b l idx path text rest : chain_at prev (b :: l) idx path text rest -> ~ quote b.
Proof. intros [_ (d & s & -> & _) _ _ [= -> _]]. by intros [[=]|[=]]. Qed.

Lemma reads_unique size prev l ts : reads size prev l ts -> forall ts', reads size prev l ts' -> ts' = ts.
Proof.
  induction 1 as [prev|prev q l shown rest ts Hq Hl H IH|prev l idx path text rest ts Hc H IH|prev b l ts Hq Hn H IH];
    intros ts' H'.
  - inversion H' as [| |? ? ? ? ? ? ? C|]; subst; [done|]. by apply chain_at_shorter in C; simpl in C; lia.
  - inversion H' as [|? ? ? s2 r2 ts2 Hq2 Hl2 R2|? ? ? ? ? ? ? C|]; subst; [|by destruct (chain_not_quote _ _ _ _ _ _ _ C)|done].
    destruct (literal_unique q Hq _ _ _ Hl _ _ Hl2) as [-> ->]. by rewrite (IH _ R2).
  - destruct l as [|b l]; [apply chain_at_shorter in Hc; simpl in Hc; lia|].
    inversion H' as [|? ? ? ? ? ? Hq2|? ? ? ? ? ? ? C|? ? ? ? ? Hn]; subst;
      [by destruct (chain_not_quote _ _ _ _ _ _ _ Hc)| |by destruct (Hn _ _ _ _ Hc)].
    destruct (chain_at_unique _ _ _ _ _ _ _ _ _ _ Hc C) as (-> & -> & -> & ->). f_equal. by apply IH.
  - inversion H' as [|? ? ? ? ? ? Hq2|? ? ? ? ? ? ? C|? ? ? ? ? Hn2 R2]; subst; [done|by destruct (Hn _ _ _ _ C)|].
    by rewrite (IH _ R2).
Qed.

(** *** The walk reads a body so *)

Lemma copied_last pre b rest : copied (pre ++ b :: rest) rest = [b].
Proof.
  unfold copied. pose proof (len_nonneg pre). cbv zeta.
  assert (E : len (pre ++ b :: rest) - len rest = len (pre ++ [b])) by len_lia.
  rewrite E. replace (pre ++ b :: rest) with ((pre ++ [b]) ++ rest) by by rewrite <- app_assoc.
  unfold len at 3. rewrite Nat2Z.id, take_app_length.
  replace (Z.max _ _) with (len pre) by len_lia. unfold len. rewrite Nat2Z.id. apply drop_app_length.
Qed.

Definition on_code (prev : option Init.Byte.byte) (l : bytes) : BodyWalk :=
  {| before := prev; ahead := l; in_str := false; in_char := false |}.
(** In a literal that [q] began. *)
Definition inside (q : Init.Byte.byte) (prev : option Init.Byte.byte) (l : bytes) : BodyWalk :=
  {| before := prev; ahead := l; in_str := byte_is q 0x22; in_char := byte_is q 0x27 |}.

(** What is left of an expansion, behind the text already written. *)
Definition behind (out : bytes) (m : outcome TranslatorError (bytes * option Btf)) : outcome TranslatorError (bytes * option Btf) :=
  r ← m; Ret (out ++ r.1, r.2).

Lemma behind_app out x m : behind (out ++ x) m = behind out (r ← m; Ret (x ++ r.1, r.2)).
Proof. unfold behind. destruct m as [r| |]; [|done..]. rewrite !bind_Ret. cbn [fst snd]. by rewrite app_assoc. Qed.

Lemma step_code b l prev : ~ quote b -> step_into_code (on_code prev (b :: l)) = (true, on_code prev (b :: l)).
Proof.
  intros Hq. assert (H : byte_is b 0x22 = false /\ byte_is b 0x27 = false).
  { split; apply not_true_iff_false; intros H%byte_is_u8b; apply Hq; [by left|by right]. }
  destruct H as [H1 H2]. unfold step_into_code, on_code. cbn [ahead in_str in_char orb andb negb].
  rewrite H1, H2, !andb_false_r. cbn [andb]. by destruct l.
Qed.

Lemma step_quote q l prev : quote q -> step_into_code (on_code prev (q :: l)) = (false, inside q (Some q) l).
Proof. intros [-> | ->]; unfold step_into_code, on_code, inside; cbn [ahead in_str in_char]; by destruct l. Qed.

Lemma step_close q l prev : quote q -> step_into_code (inside q prev (q :: l)) = (false, on_code (Some q) l).
Proof. intros [-> | ->]; unfold step_into_code, on_code, inside; cbn [ahead in_str in_char]; by destruct l. Qed.

Lemma step_escape q b l prev : quote q -> step_into_code (inside q prev (u8b 0x5c :: b :: l)) = (false, inside q (Some b) l).
Proof. by intros [-> | ->]. Qed.

Lemma step_inside q b l prev : quote q -> b <> q -> b <> u8b 0x5c \/ l = [] ->
  step_into_code (inside q prev (b :: l)) = (false, inside q (Some b) l).
Proof.
  intros Hq Hb Hs.
  assert (Hd : match l with _ :: _ => byte_is b 0x5c = false | [] => True end).
  { destruct l; [done|]. destruct Hs as [Hs|]; [|done]. apply not_true_iff_false. by intros H%byte_is_u8b. }
  unfold step_into_code, inside, moved.
  destruct Hq as [-> | ->]; cbn [ahead in_str in_char]; rewrite ?(u8b_is 0x22), ?(u8b_is 0x27) by lia.
  all: change (byte_is (u8b 0x22) 0x27) with false; change (byte_is (u8b 0x27) 0x22) with false;
    change (byte_is (u8b 0x22) 0x22) with true; change (byte_is (u8b 0x27) 0x27) with true; cbn [negb orb andb].
  - assert (Hn : byte_is b 0x22 = false) by (apply not_true_iff_false; by intros H%byte_is_u8b).
    rewrite Hn, !andb_false_r. cbn [andb orb]. destruct l; [done|]. by rewrite Hd.
  - assert (Hn : byte_is b 0x27 = false) by (apply not_true_iff_false; by intros H%byte_is_u8b).
    rewrite Hn, !andb_false_r. cbn [andb orb]. destruct l; [done|]. by rewrite Hd.
Qed.

(** What one call of each loop does from a state. *)
Section Reading.
Context (c : Clause) (body : bytes).

Definition walks (fuel : nat) (w : BodyWalk) (ts : list token) : Prop :=
  find_loop fuel (len body) w = chains_of ts
  /\ forall count btf out, expand_loop fuel c body w count btf out = behind out (expansion c body count ts btf).

Lemma walks_end fuel w : ahead w = [] -> walks fuel w [].
Proof.
  intros H. split; [destruct fuel; cbn [find_loop]; by rewrite H|]. intros count btf out.
  cbn [expansion]. unfold behind. rewrite bind_Ret. cbn [fst snd]. rewrite app_nil_r.
  destruct fuel; cbn [expand_loop]; by rewrite H.
Qed.

(** One or two bytes of a literal. *)
Lemma walks_shown fuel w w1 x shown ts b l pre :
  ahead w = b :: l -> step_into_code w = (false, w1) -> body = pre ++ x :: ahead w1 ->
  walks fuel w1 (Literal shown :: ts) -> walks (S fuel) w (Literal (x :: shown) :: ts).
Proof.
  intros Ha Hs Hb [W1 W2]. split.
  - cbn [find_loop]. rewrite Ha, Hs. exact W1.
  - intros count btf out. cbn [expand_loop]. rewrite Ha, Hs. cbn [negb]. rewrite Hb at 2. rewrite copied_last.
    rewrite W2, behind_app. cbn [expansion chars_of flat_map]. destruct (expansion _ _ _ ts _) as [r| |]; [|done..].
    rewrite !bind_Ret. cbn [fst snd]. rewrite app_nil_r. by rewrite app_assoc.
Qed.

Lemma walks_shut fuel w ts : walks fuel w ts -> walks fuel w (Literal [] :: ts).
Proof.
  intros [W1 W2]. split; [exact W1|]. intros count btf out. rewrite W2. f_equal. cbn [expansion chars_of flat_map].
  destruct (expansion _ _ _ ts _) as [[x b]| |]; done.
Qed.

Lemma walks_literal q (Hq : quote q) l s r : literal q l s r -> forall fuel pre prev ts,
  (length l <= fuel)%nat -> body = pre ++ l -> (r = [] -> ts = []) ->
  (forall fuel, (length r <= fuel)%nat -> walks fuel (on_code (Some q) r) ts) ->
  walks fuel (inside q prev l) (Literal s :: ts).
Proof.
  pose proof (quote_not_backslash q Hq) as Hb.
  induction 1 as [rest| | |b l s r H IH|b l s r H1 H2 H IH]; intros fuel pre prev ts Hf Hbody Ht W.
  - destruct fuel as [|fuel]; [simpl in Hf; lia|].
    eapply walks_shown; [reflexivity|by apply step_close|exact Hbody|]. apply walks_shut, W. simpl in Hf. lia.
  - rewrite Ht by done. by apply walks_shut, walks_end.
  - destruct fuel as [|fuel]; [simpl in Hf; lia|]. rewrite Ht by done.
    eapply walks_shown; [reflexivity|apply step_inside; [done|congruence|by right]|exact Hbody|].
    by apply walks_shut, walks_end.
  - destruct fuel as [|fuel]; [simpl in Hf; lia|].
    eapply (walks_shown _ _ _ _ _ _ _ _ (pre ++ [u8b 0x5c])); [reflexivity|by apply step_escape|by rewrite <- app_assoc|].
    apply (IH fuel ((pre ++ [u8b 0x5c]) ++ [b])); [simpl in Hf; lia|by rewrite <- !app_assoc|done|done].
  - destruct fuel as [|fuel]; [simpl in Hf; lia|].
    eapply walks_shown; [reflexivity|apply step_inside; [done|done|by left]|exact Hbody|].
    apply (IH fuel (pre ++ [b])); [simpl in Hf; lia|by rewrite <- app_assoc|done|done].
Qed.

Lemma literal_suffix q l s r : literal q l s r -> exists t, l = t ++ r.
Proof.
  induction 1 as [rest| | |b l s r H [t ->]|b l s r H1 H2 H [t ->]];
    [by exists [q]|by exists []|by exists [u8b 0x5c]|by exists (u8b 0x5c :: b :: t)|by exists (b :: t)].
Qed.

Lemma reads_nil size prev ts : reads size prev [] ts -> ts = [].
Proof. intros H. by apply (reads_unique size prev [] [] (reads_end size prev)). Qed.

Lemma walks_reads prev l ts : reads (len body) prev l ts -> forall fuel pre,
  (length l <= fuel)%nat -> body = pre ++ l -> walks fuel (on_code prev l) ts.
Proof.
  induction 1 as [prev|prev q l s rest ts Hq Hl R IH|prev l idx path text rest ts Hc R IH|prev b l ts Hq Hn R IH];
    intros fuel pre Hf Hb.
  - by apply walks_end.
  - destruct fuel as [|fuel]; [simpl in Hf; lia|].
    eapply walks_shown; [reflexivity|by apply step_quote|exact Hb|]. destruct (literal_suffix _ _ _ _ Hl) as [t Et].
    apply (walks_literal q Hq l s rest Hl fuel (pre ++ [q])); [simpl in Hf; lia|by rewrite <- app_assoc| |].
    + intros ->. by eapply reads_nil.
    + intros fuel' Hf'. apply (IH fuel' (pre ++ q :: t)); [done|]. by rewrite Hb, Et, <- app_assoc.
  - destruct l as [|b l]; [by apply chain_at_shorter in Hc; simpl in Hc; lia|].
    destruct fuel as [|fuel]; [simpl in Hf; lia|]. pose proof (chain_not_quote _ _ _ _ _ _ _ Hc) as Hq.
    pose proof (chain_at_shorter _ _ _ _ _ _ Hc) as Hs. pose proof (ca_whole _ _ _ _ _ _ Hc) as Ew.
    destruct (IH fuel (pre ++ text)) as [W1 W2]; [simpl in Hf, Hs; lia|by rewrite Hb, Ew, <- app_assoc|].
    pose proof (try_chain_complete (len body) (on_code prev (b :: l)) idx path text rest Hc) as T.
    change {| before := list.last text; ahead := rest; in_str := _; in_char := _ |} with (on_code (list.last text) rest) in T.
    split.
    + cbn [find_loop ahead on_code]. rewrite step_code by done. cbn [negb]. rewrite T. cbn [chains_of flat_map app]. by rewrite W1.
    + intros count btf out. cbn [expand_loop ahead on_code]. rewrite step_code by done. cbn [negb]. rewrite T.
      cbn [expansion]. change {| ta_idx := idx; ta_path := path; ta_start := _; ta_end := _ |}
        with (chain_of (len body) idx path (b :: l) rest).
      destruct (_ <? count + 1); [done|]. destruct (resolve_chain _ _ _ _) as [x|e|]; [|done..].
      rewrite !bind_Ret, W2. apply behind_app.
  - destruct fuel as [|fuel]; [simpl in Hf; lia|].
    destruct (IH fuel (pre ++ [b])) as [W1 W2]; [simpl in Hf; lia|by rewrite <- app_assoc|].
    assert (T : try_chain (len body) (on_code prev (b :: l)) = None).
    { destruct (try_chain _ _) as [[a w2]|] eqn:T; [|done]. apply try_chain_sound in T as (idx & path & text & rest & Hc & _).
      by destruct (Hn _ _ _ _ Hc). }
    split.
    + cbn [find_loop ahead on_code]. rewrite step_code by done. cbn [negb]. rewrite T. exact W1.
    + intros count btf out. cbn [expand_loop ahead on_code]. rewrite step_code by done. cbn [negb]. rewrite T.
      change (moved _ b l) with (on_code (Some b) l). rewrite W2. apply behind_app.
Qed.
End Reading.

Definition within_caps (a : TypedArg) : Prop := ta_idx a <= 9 /\ len (ta_path a) <= MAX_CHAIN_DEPTH.

Lemma resolve_within c a body btf r : resolve_chain c a body btf = Ret r -> within_caps a.
Proof.
  unfold resolve_chain, within_caps. destruct (Z.ltb_spec 9 (ta_idx a)); [done|].
  destruct (Z.ltb_spec MAX_CHAIN_DEPTH (len (ta_path a))); [done|]. lia.
Qed.

Lemma expansion_within c body ts : forall count btf r, count <= MAX_CHAINS_PER_CLAUSE ->
  expansion c body count ts btf = Ret r ->
  Forall within_caps (chains_of ts) /\ count + len (chains_of ts) <= MAX_CHAINS_PER_CLAUSE.
Proof.
  induction ts as [|[b|s|a] ts IH]; intros count btf r Hc; cbn [expansion chains_of flat_map app].
  - intros _. split; [constructor|]. rewrite len_nil. lia.
  - intros H. split_ret H. by eapply IH.
  - intros H. split_ret H. by eapply IH.
  - destruct (Z.ltb_spec MAX_CHAINS_PER_CLAUSE (count + 1)) as [|Hc']; [done|].
    intros H. split_ret H. apply resolve_within in R. split_ret H.
    apply IH in R0 as [H1 H2]; [|lia]. fold (chains_of ts) in *. rewrite len_cons. split; [by constructor|lia].
Qed.

(** C14: every body has exactly one reading as code, literals and chains, by a
    grammar that does not mention the walk.  [find_typed_args] finds the chains
    of that reading, and the expansion, its errors included, is: every byte of
    code as a character of its own (a byte past ASCII becomes the two bytes of
    that code point); every literal likewise but without the backslashes of its
    escapes; and every chain, in order, what it resolves to with the type
    information the chains before it left.  The ninth chain is an error, and
    after success there are at most eight, of at most four steps on an index of
    at most nine. *)
Theorem expand_splices c body btf :
  exists ts, reads (len body) None body ts /\ (forall ts', reads (len body) None body ts' -> ts' = ts) /\
    find_typed_args body = chains_of ts /\
    expand_translators c body btf = expansion c body 0 ts btf /\
    (forall r, expand_translators c body btf = Ret r ->
      Forall within_caps (chains_of ts) /\ len (chains_of ts) <= MAX_CHAINS_PER_CLAUSE).
Proof.
  destruct (reads_exists (len body) body None) as [ts R].
  destruct (walks_reads c body None body ts R (length body) [] ltac:(lia) eq_refl) as [W1 W2].
  assert (E : expand_translators c body btf = expansion c body 0 ts btf).
  { unfold expand_translators. change (new_walk body) with (on_code None body). rewrite W2. unfold behind.
    destruct (expansion _ _ _ _ _) as [[x b]| |]; done. }
  exists ts. split_and!; [exact R|by apply reads_unique|exact W1|exact E|].
  intros r. rewrite E. intros H. by apply expansion_within in H.
Qed.

(** ** A chain that the BTF resolves *)

(** The steps of a chain, from the struct [cur]: each field is in its struct
    at its offset, and the next struct is the one embedded there. *)
Inductive member_path (b : Btf) : bytes -> list bytes -> list (BtfHop * Z) -> Prop :=
| path_last cur f off size b' :
    field_offset (E:=TranslatorError) cur f b = Ret (Ok (off, size), b') ->
    member_path b cur [f] [({| hop_struct := cur; hop_field := f; hop_size := size |}, off)]
| path_step cur f off size b' name b2 tail hops :
    field_offset (E:=TranslatorError) cur f b = Ret (Ok (off, size), b') ->
    member_descend (E:=TranslatorError) cur f b = Ret (Some (EmbeddedStruct name), b2) ->
    member_path b name tail hops ->
    member_path b cur (f :: tail) (({| hop_struct := cur; hop_field := f; hop_size := size |}, off) :: hops).

Lemma find_member_raw_blob {E} b b' f id : types b' = types b -> strs b' = strs b ->
  find_member_raw (E:=E) b' f id = find_member_raw (E:=E) b f id.
Proof.
  intros Ht Hs. unfold find_member_raw, fuel_of. rewrite Ht. generalize (S (length (types b))) as n. intros n. revert id.
  induction n as [|n IH]; intros id; [done|]. cbn [find_member_raw_fuel].
  rewrite (members_of_same b' b Ht). destruct (members_of b id) as [l|]; [|done].
  induction l as [|m l IHl]; [done|]. cbn [raw_members]. by rewrite IHl, IH, (member_name_same b' b Hs).
Qed.

Lemma member_descend_blob {E} s f b b' r : indexed b -> same_blob b b' ->
  member_descend (E:=E) s f b' = Ret r ->
  (exists b2, member_descend (E:=E) s f b = Ret (r.1, b2)) /\ same_blob b r.2.
Proof.
  intros Hb Hs. destruct (find_struct_value s b b' Hb Hs) as [V1 S1].
  destruct (find_struct_value s b b Hb ltac:(by split)) as [_ S0]. unfold member_descend.
  destruct (find_struct s b) as [o b0], (find_struct s b') as [o' b1]. cbn [fst snd] in V1, S0, S1. subst o'.
  destruct o as [sid|]; [|intros [= <-]; cbn [fst snd]; split; [by eexists|done]].
  assert (Ht : types b1 = types b0) by (destruct S0, S1; congruence).
  assert (Hn : names b1 = names b0) by (destruct S0, S1; congruence).
  rewrite (find_member_raw_blob b0 b1) by (destruct S0, S1; congruence).
  destruct (find_member_raw b0 f sid) as [m|?|]; [|done..]. rewrite !bind_Ret. intros [= <-].
  split; [|done]. eexists. cbn [fst]. do 2 f_equal. destruct m as [m|]; [|done].
  rewrite !(resolve_same b1 b0 Ht), !(type_at_same b1 b0 Ht). destruct (type_at b0 _) as [[]|]; try done;
    unfold name_at; by rewrite ?Hn, ?(resolve_same b1 b0 Ht).
Qed.

Lemma walk_hops_path raw b : indexed b -> forall tail cur b' r, tail <> [] -> same_blob b b' ->
  walk_hops raw cur tail b' = Ret r ->
  same_blob b r.2 /\ exists hops, member_path b cur tail hops /\ map fst hops = r.1.
Proof.
  intros Hb. induction tail as [|f tail IH]; intros cur b' r Hne Hs; [done|]. cbn [walk_hops].
  destruct (field_offset cur f b') as [x|?|] eqn:Ef; [|done..]. rewrite bind_Ret.
  destruct (field_offset_blob cur f b b' x Hb Hs Ef) as [[b0 E0] S0].
  destruct (x.1) as [[off size]|e]; [|done]. destruct tail as [|g tail].
  - intros [= <-]. split; [done|]. eexists. split; [by eapply path_last|done].
  - destruct (member_descend cur f x.2) as [m|?|] eqn:Em; [|done..]. rewrite bind_Ret.
    destruct (member_descend_blob cur f b x.2 m Hb S0 Em) as [[b2 E2] S2].
    destruct (m.1) as [[name| |]|]; try done.
    destruct (walk_hops raw name (g :: tail) m.2) as [h|?|] eqn:Eh; [|done..]. rewrite bind_Ret. intros [= <-].
    apply IH in Eh as [S3 (hops & P & M)]; [|done..]. split; [done|].
    eexists. split; [by eapply path_step|]. cbn [map fst]. by rewrite M.
Qed.

(** *** The macros of a chain, marked *)

(** ASCII text without a [C] begins no macro. *)
Definition no_c (t : bytes) : bool := forallb (fun b => (byte.unsigned b <? 0x80) && negb (byte_is b 0x43)) t.

Definition last_or (prev : option Init.Byte.byte) (t : bytes) : option Init.Byte.byte :=
  match list.last t with Some x => Some x | None => prev end.

Lemma last_or_cons prev x t : last_or prev (x :: t) = last_or (Some x) t.
Proof.
  unfold last_or. destruct t as [|y t]; [done|]. change (list.last (x :: y :: t)) with (list.last (y :: t)).
  by destruct (list.last (y :: t)) eqn:E; [|apply last_None in E].
Qed.

Section Marked.
Context {E : Type} (b0 : Btf) (Hb : indexed b0).

Lemma core_loop_plain n rest b ms : forall t prev out, no_c t = true ->
  core_offsetof_loop (E:=E) (length (t ++ rest) + n) prev (t ++ rest) b out ms =
  core_offsetof_loop (length rest + n) (last_or prev t) rest b (out ++ t) ms.
Proof.
  induction t as [|x t IH]; intros prev out; [by rewrite app_nil_r|].
  cbn [no_c forallb]. intros [[Hx1 Hx2]%andb_true_iff Ht]%andb_true_iff.
  cbn [length Nat.add app core_offsetof_loop].
  assert (S : offsetof_site (str "CORE_OFFSETOF") prev (x :: t ++ rest) = None).
  { unfold offsetof_site. change (str "CORE_OFFSETOF") with (u8b 0x43 :: str "ORE_OFFSETOF"). cbn [drop_prefix].
    rewrite bool_decide_false; [done|]. intros <-. by rewrite u8b_is in Hx2. }
  unfold site_offset. rewrite S, bind_Ret. cbn [fst snd]. rewrite IH by done.
  rewrite char_of_ascii by (unfold ascii_byte; lia). rewrite last_or_cons. by rewrite <- app_assoc.
Qed.

Definition macro_text (s f : bytes) : bytes := str "CORE_OFFSETOF(" ++ s ++ str ", " ++ f ++ str ")".

Lemma macro_site prev s f rest : prev_ok prev = true -> identifier s = true -> identifier f = true ->
  offsetof_site (str "CORE_OFFSETOF") prev (macro_text s f ++ rest) = Some (s, f, rest).
Proof.
  intros Hp Hs Hf. apply offsetof_site_iff. split_and!; [done..|]. exists [], [], (str " "), []. split_and!; [done..|].
  unfold site_text, macro_text. cbn [app]. change (str "CORE_OFFSETOF(") with (str "CORE_OFFSETOF" ++ [u8b 0x28]).
  change (str ", ") with (u8b 0x2c :: str " "). change (str ")") with [u8b 0x29]. rewrite <- !app_assoc. cbn [app]. do 2 f_equal. rewrite <- !app_assoc. cbn [app].
  by rewrite <- !app_assoc.
Qed.

Definition sized_offset (b : Btf) (s f : bytes) (off : Z) : Prop :=
  exists size b', field_offset (E:=E) s f b = Ret (Ok (off, size), b').

Lemma core_loop_macro n s f off rest b prev out ms : same_blob b0 b -> prev_ok prev = true ->
  identifier s = true -> identifier f = true -> sized_offset b s f off ->
  exists n' b', same_blob b0 b' /\
  core_offsetof_loop (E:=E) (length (macro_text s f ++ rest) + n) prev (macro_text s f ++ rest) b out ms =
  core_offsetof_loop (length rest + n') (Some (u8b 0x29)) rest b'
    (out ++ decimal (sentinel_of (len ms)))
    (ms ++ [{| sentinel := sentinel_of (len ms); mk_struct_name := s; mk_field_name := f; fallback_offset := off |}]).
Proof.
  intros Hsb Hp Hs Hf (size & b' & Hfo). exists (length (macro_text s f) - 1 + n)%nat, b'.
  destruct (field_offset_blob s f b0 b _ Hb Hsb Hfo) as [_ S2]. split; [exact S2|].
  replace (length (macro_text s f ++ rest) + n)%nat with (S (length rest + (length (macro_text s f) - 1 + n)))
    by (rewrite length_app; unfold macro_text; cbn; lia).
  destruct (macro_text s f ++ rest) as [|c l] eqn:El; [done|]. cbn [core_offsetof_loop]. rewrite <- El.
  unfold site_offset. rewrite macro_site, Hfo, !bind_Ret by done. done.
Qed.

Definition hop_ident (h : BtfHop * Z) : bool := identifier (hop_struct h.1) && identifier (hop_field h.1).
Definition hop_sized (h : BtfHop * Z) : Prop := forall b, same_blob b0 b -> sized_offset b (hop_struct h.1) (hop_field h.1) h.2.

(** The text of the chain with its macros replaced, and their markers. *)
Definition hop_marker (k : Z) (h : BtfHop * Z) : CoreOffsetofMarker :=
  {| sentinel := sentinel_of k; mk_struct_name := hop_struct h.1; mk_field_name := hop_field h.1;
     fallback_offset := h.2 |}.
Fixpoint hop_markers (k : Z) (hops : list (BtfHop * Z)) : list CoreOffsetofMarker :=
  match hops with [] => [] | h :: hops => hop_marker k h :: hop_markers (k + 1) hops end.
Definition hops_text (k : Z) (hops : list (BtfHop * Z)) : bytes :=
  flat_map (fun m => str " + " ++ decimal (sentinel m)) (hop_markers k hops).

Lemma core_loop_hops tail (Ht : no_c tail = true) : forall hops n prev b out ms,
  same_blob b0 b -> forallb hop_ident hops = true -> Forall hop_sized hops ->
  exists b', same_blob b0 b' /\
  core_offsetof_loop (E:=E) (length (flat_map hop_text (map fst hops) ++ tail) + n) prev
    (flat_map hop_text (map fst hops) ++ tail) b out ms =
  Ret (out ++ hops_text (len ms) hops ++ tail, ms ++ hop_markers (len ms) hops, b').
Proof.
  induction hops as [|h hops IH]; intros n prev b out ms Hsb Hi Hs.
  - exists b. split; [done|]. cbn [map flat_map app hops_text hop_markers]. rewrite app_nil_r.
    rewrite <- (app_nil_r tail) at 1 2. rewrite core_loop_plain by done. by destruct n.
  - cbn [forallb] in Hi. apply andb_true_iff in Hi as [[Hi1 Hi2]%andb_true_iff Hi]. apply list.Forall_cons in Hs as [Hs0 Hs].
    assert (X : flat_map hop_text (map fst (h :: hops)) ++ tail
      = str " + " ++ macro_text (hop_struct h.1) (hop_field h.1) ++ flat_map hop_text (map fst hops) ++ tail).
    { cbn [map flat_map]. unfold hop_text, macro_text. change (str " + CORE_OFFSETOF(") with (str " + " ++ str "CORE_OFFSETOF(").
      by rewrite <- !app_assoc. }
    rewrite X, core_loop_plain by done.
    destruct (core_loop_macro n (hop_struct h.1) (hop_field h.1) h.2 (flat_map hop_text (map fst hops) ++ tail) b
      (last_or prev (str " + ")) (out ++ str " + ") ms) as (n' & b' & S' & ->); [done..|by apply Hs0|].
    destruct (IH n' (Some (u8b 0x29)) b' ((out ++ str " + ") ++ decimal (sentinel_of (len ms)))
      (ms ++ [hop_marker (len ms) h])) as (b2 & S2 & E2); [done..|].
    exists b2. split; [done|]. unfold hop_marker in E2 at 1. rewrite E2. rewrite len_app. change (len [_]) with 1.
    unfold hops_text. cbn [hop_markers flat_map]. change (sentinel (hop_marker (len ms) h)) with (sentinel_of (len ms)).
    by rewrite <- !app_assoc.
Qed.
End Marked.

Lemma path_sized b cur tail hops : indexed b -> member_path b cur tail hops -> Forall (hop_sized (E:=TranslatorError) b) hops.
Proof.
  intros Hb.
  assert (A : forall cur f off size b', field_offset (E:=TranslatorError) cur f b = Ret (Ok (off, size), b') ->
    hop_sized (E:=TranslatorError) b ({| hop_struct := cur; hop_field := f; hop_size := size |}, off)).
  { intros cur' f off size b' Hf b1 S1. unfold sized_offset. cbn [fst snd hop_struct hop_field].
    assert (Hb1 : indexed b1) by apply S1.
    assert (S2 : same_blob b1 b) by (destruct S1; split; (done || congruence)).
    destruct (field_offset_blob cur' f b1 b _ Hb1 S2 Hf) as [[b2 E2] _]. by exists size, b2. }
  induction 1; constructor; eauto.
Qed.

Lemma find_map_Some {A B} (f : A -> option B) l y : find_map f l = Some y -> exists x, In x l /\ f x = Some y.
Proof.
  induction l as [|x l IH]; cbn; [done|]. destruct (f x) as [z|] eqn:Ef.
  - intros [= ->]. exists x. by split; [left|].
  - intros (x' & H1 & H2)%IH. exists x'. by split; [right|].
Qed.

(** The text before the macros begins none. *)
Lemma chain_head_no_c c idx arg root size ty : tp_root_for c idx arg = Some root -> deref_type size = Some ty ->
  no_c (str "(*(" ++ str ty ++ str " *)((unsigned long)arg" ++ decimal (real_arg root)) = true.
Proof.
  intros Hr Hd.
  assert (R : no_c (decimal (real_arg root)) = true).
  { unfold tp_root_for in Hr. destruct (negb _); [done|]. apply find_map_Some in Hr as (p & _ & Hr).
    destruct (root_set_of p) as [s|] eqn:Es; [|done]. cbn [mbind option_bind] in Hr.
    unfold root_set_of in Es. apply find_map_Some in Es as (s' & Hs & Es). destruct (_ && _); [|done]. injection Es as ->.
    unfold root_in in Hr. apply find_map_Some in Hr as (r & Hi & Hr). destruct (is_str arg _); [|done]. injection Hr as ->.
    assert (T : forallb (fun s => forallb (fun r => no_c (decimal (real_arg r))) (set_roots s)) TP_ROOTS = true)
      by by vm_compute.
    rewrite forallb_forall in T. specialize (T s Hs). rewrite forallb_forall in T. by apply T. }
  unfold no_c in *. rewrite !forallb_app, R. unfold deref_type in Hd.
  repeat (destruct (_ =? _); [by injection Hd as <-|]). done.
Qed.

(** C13: A chain that no canonical one covers and the BTF resolves: it is a
    path of members from the struct of the tracepoint's argument, through
    embedded structs, to a member of 1, 2, 4 or 8 bytes; its text is a load of
    that size at the argument plus one macro per step; and
    [rewrite_core_offsetof] marks every step, in order, with its offset, when
    the names on the path are identifiers. *)
Theorem chain_marked c chain body b txt b' (Hb : indexed b) (Hc : match_canonical chain = None) :
  resolve_chain c chain body (Some b) = Ret (txt, b') ->
  exists arg tail root hops ty,
    ta_path chain = arg :: tail /\ tp_root_for c (ta_idx chain) arg = Some root
    /\ member_path b (str (btf_struct root)) tail hops
    /\ (h ← list.last (map fst hops); deref_type (hop_size h)) = Some ty
    /\ txt = chain_expr ty (real_arg root) (map fst hops)
    /\ (forallb hop_ident hops = true ->
        exists b2, rewrite_core_offsetof (E:=TranslatorError) txt (Some b) =
          Ret (str "(*(" ++ str ty ++ str " *)((unsigned long)arg" ++ decimal (real_arg root)
               ++ hops_text 0 hops ++ str "))", hop_markers 0 hops, Some b2)).
Proof.
  unfold resolve_chain. destruct (9 <? ta_idx chain); [done|]. destruct (MAX_CHAIN_DEPTH <? _); [done|]. rewrite Hc.
  destruct (ta_path chain) as [|arg tail]; [done|]. destruct (tp_root_for c (ta_idx chain) arg) as [root|] eqn:Er; [|done].
  destruct (walk_hops _ _ tail b) as [h|?|] eqn:Eh; [|done..]. rewrite bind_Ret.
  destruct (list.last h.1) as [t|] eqn:El; [|done]. destruct (deref_type (hop_size t)) as [ty|] eqn:Ed; [|done].
  intros [= <- <-].
  assert (Hne : tail <> []) by (intros ->; cbn in Eh; by injection Eh as <-).
  destruct (walk_hops_path _ b Hb tail _ b h Hne ltac:(by split) Eh) as (S2 & hops & P & M).
  exists arg, tail, root, hops, ty. rewrite M, El. split_and!; [done..|].
  intros Hi. pose proof (path_sized b _ _ _ Hb P) as Hs.
  unfold rewrite_core_offsetof, chain_expr. rewrite <- M.
  pose proof (chain_head_no_c c (ta_idx chain) arg root _ ty Er Ed) as Hh. rewrite !app_assoc in *.
  set (head := _ ++ decimal (real_arg root)) in *.
  destruct (core_loop_hops (E:=TranslatorError) b Hb (str "))") eq_refl hops 0 (last_or None head) b head [])
    as (b2 & S3 & E2); [by split|done..|]. exists b2. rewrite <- (app_assoc head).
  rewrite <- (Nat.add_0_r (length _)), core_loop_plain by done. cbn [app]. rewrite E2, bind_Ret. cbn [fst snd].
  by rewrite app_assoc.
Qed.
