(* ===== verification/SourceSample.v ===== *)
(** A kernel's structs: the inputs at which the theorems of SourceRewriteOk.v
    and TranslatorsOk.v apply, and sources that the rewrites do not treat as
    their comments say. *)

From Stdlib Require Import Strings.String.
From stdpp Require Import gmap.
From S2P Require Import Text.
From S2P Require Import DParse.
From S2P Require Import Btf.
From S2P Require Import BtfLookup.
From S2P Require Import AggSnapshot.
From S2P Require Import CoreReloc.
From S2P Require Import SourceRewrite.
From S2P Require Import SourceRewriteOk.
From S2P Require Import Translators.
From S2P Require Import TranslatorsOk.
From S2P Require Import Prelude.

Local Open Scope Z_scope.
Local Open Scope list_scope.

(** A string that holds double quotes, written as single ones. *)
Definition dq (s : string) : bytes :=
  map (fun b => if byte_is b 0x27 then u8b 0x22 else b) (str s).

Module Sched.

Definition member (name ty bits : Z) : BtfMember :=
  {| name_off := name; m_type_id := ty; Btf.offset_bits := bits; bit_size := 0 |}.

(** [struct task_struct { u64 pid; struct sched_entity se; struct task_struct *mm; }] with
    [struct sched_entity { u64 load; u64 sum; }] *)
Definition btf : Btf :=
  {| types := [TVoid; TInt 8; TStruct 32 [member 1 1 0; member 5 3 64; member 8 4 192];
               TStruct 16 [member 11 1 0; member 16 1 64]; TPtr 2];
     names := [None; Some (str "u64"); Some (str "task_struct"); Some (str "sched_entity"); None];
     strs := u8b 0 :: str "pid" ++ u8b 0 :: str "se" ++ u8b 0 :: str "mm" ++ u8b 0 :: str "load" ++ u8b 0 :: str "sum" ++ [u8b 0];
     struct_index := ∅; func_index := ∅ |}.

Definition probe : ProbeSpec :=
  {| spec_provider := str "tracepoint"; spec_module := str "guest"; spec_function := str "sched";
     spec_name := str "sched_switch"; spec_binary := None |}.
Definition clause_of (body : bytes) : Clause :=
  {| clause_specs := [probe]; clause_pred := None; clause_body := body;
     clause_source := str "tracepoint:guest:sched:sched_switch {" ++ body ++ str "}" |}.

Definition chains (body : string) : list (Z * list bytes) :=
  map (fun a => (ta_idx a, ta_path a)) (find_typed_args (str body)).
Definition expanded (body : bytes) (b : option Btf) : outcome TranslatorError bytes :=
  r ← expand_translators (clause_of body) body b; Ret r.1.

Definition src : bytes := str "{ trace(args[0]->prev->se.sum + retval2); }".
Definition sum_chain : TypedArg :=
  {| ta_idx := 0; ta_path := [str "prev"; str "se"; str "sum"]; ta_start := 8; ta_end := 29 |}.

(** What a lookup answered, without the blob after it. *)
Definition first_of {E A B} (r : outcome E (A * B)) : option A := match r with Ret (a, _) => Some a | _ => None end.

Lemma btf_indexed : indexed btf.
Proof. by split; left. Qed.
End Sched.

Import Sched.

(** ** The unit tests of translators.rs *)

Example finds_basic : chains "@c[args[0]->prev->comm] = count();" = [(0, [str "prev"; str "comm"])].
Proof. by vm_compute. Qed.
Example skips_literal : find_typed_args (dq "printf('args[0]->prev->comm');") = [].
Proof. by vm_compute. Qed.
Example finds_dotted :
  chains "trace(args[0]->prev->se.sum_exec_runtime);" = [(0, [str "prev"; str "se"; str "sum_exec_runtime"])].
Proof. by vm_compute. Qed.
Example ignores_prefix : chains "xargs[0]->prev->comm" = [].
Proof. by vm_compute. Qed.
Example canonical_comm : expanded (str "@c[args[0]->prev->comm] = count();") None = Ret (str "@c[arg0] = count();").
Proof. by vm_compute. Qed.
Example index_out_of_range : expanded (str "trace(args[10]->prev->comm);") None = Throw (ArgIndexOutOfRange 10).
Proof. by vm_compute. Qed.
Example nine_chains :
  expanded (flat_map (fun _ => str "trace(args[0]->prev->pid); ") (seq 0 9)) None = Throw (TooManyChains 9).
Proof. by vm_compute. Qed.
Example five_steps : expanded (str "trace(args[0]->prev->a->b->c->d);") (Some btf)
  = Throw (ChainTooDeep (str "args[0]->prev->a->b->c->d") 5).
Proof. by vm_compute. Qed.

(** A clause through all its rewrites. *)
Example clause_rewritten :
  match rewrite_clause (clause_of (str " trace(args[0]->prev->se.sum); gstack(); ")) (Some btf) with
  | Ret (text, ms, _) =>
      text = str "tracepoint:guest:sched:sched_switch { trace((*(unsigned long *)((unsigned long)arg1 + " ++
             decimal (sentinel_of 0) ++ str " + " ++ decimal (sentinel_of 1) ++ str "))); stack(); }"
      /\ map (fun m => (mk_struct_name m, mk_field_name m, fallback_offset m)) ms
         = [(str "task_struct", str "se", 8); (str "sched_entity", str "sum", 8)]
  | _ => False
  end.
Proof. by vm_compute. Qed.

(** ** Witnesses *)

Lemma words_replaced_witness :
  is_word (str "retval") = true
  /\ replace_word_token (str "retval2 = retval") (str "retval") (str "arg1") = str "retval2 = arg1".
Proof.
  split; [by vm_compute|].
  destruct (words_replaced (str "retval2 = retval") (str "retval") (str "arg1") ltac:(by vm_compute)) as (_ & E & _).
  rewrite E. by vm_compute.
Defined.

Lemma offsetof_rewritten_witness :
  exists out ms b', rewrite_core_offsetof (E:=unit) (str "CORE_OFFSETOF(task_struct, se) + CORE_OFFSETOF(sched_entity, sum)") (Some btf)
    = Ret (out, ms, b')
  /\ exists segs, out = core_text 0 segs /\ ms = core_markers 0 segs /\ len ms = 2.
Proof.
  assert (H : match rewrite_core_offsetof (E:=unit) (str "CORE_OFFSETOF(task_struct, se) + CORE_OFFSETOF(sched_entity, sum)") (Some btf) with
              | Ret (_, ms, _) => len ms | _ => 0 end = 2) by (vm_compute; reflexivity).
  destruct (rewrite_core_offsetof (E:=unit) (str "CORE_OFFSETOF(task_struct, se) + CORE_OFFSETOF(sched_entity, sum)") (Some btf))
    as [[[out ms] b']|?|] eqn:E; [|discriminate H..].
  exists out, ms, b'. split; [reflexivity|].
  destruct (proj1 (offsetof_rewritten (E:=unit) _ btf btf_indexed) out ms b' E) as (segs & _ & E1 & E2 & _).
  exists segs. split_and!; [exact E1|exact E2|exact H].
Defined.

Lemma chain_marked_witness :
  exists txt b', resolve_chain (clause_of src) sum_chain src (Some btf) = Ret (txt, b')
  /\ exists out hops b2, rewrite_core_offsetof (E:=TranslatorError) txt (Some btf) = Ret (out, hop_markers 0 hops, Some b2)
     /\ map snd hops = [8; 8].
Proof.
  assert (H : match resolve_chain (clause_of src) sum_chain src (Some btf) with Ret _ => true | _ => false end = true)
    by (vm_compute; reflexivity).
  destruct (resolve_chain (clause_of src) sum_chain src (Some btf)) as [[txt b']|?|] eqn:E; [|discriminate H..].
  exists txt, b'. split; [reflexivity|].
  destruct (chain_marked (clause_of src) sum_chain src btf txt b' btf_indexed eq_refl E)
    as (arg & tail & root & hops & ty & Ep & Er & P & _ & _ & M).
  injection Ep as <- <-. vm_compute in Er. injection Er as <-.
  inversion P as [|? ? off1 size1 b1 name b2 ? ? F1 D1 P1]; subst. inversion P1 as [? ? off2 size2 b3 F2|]; subst;
    [|match goal with H : member_path _ _ [] _ |- _ => inversion H end].
  apply (f_equal first_of) in F1, D1, F2. vm_compute in F1, D1. injection F1 as <- <-. injection D1 as <-.
  vm_compute in F2. injection F2 as <- <-.
  destruct (M eq_refl) as [b4 M']. do 3 eexists. split; [exact M'|reflexivity].
Defined.

(** ** Where the code and its comments part *)

(** The backslash of an escape in a literal is not copied: the program
    libdtrace gets prints an [n] where the script asks for a new line. *)
Lemma expand_drops_backslash :
  expanded (dq "printf('a\n');") None = Ret (dq "printf('an');")
  /\ find_typed_args (dq "printf('a\n');") = [].
Proof. split; by vm_compute. Qed.

(** A chain of the root alone, with the BTF loaded: the step the code expects
    after it is not there. *)
Lemma bare_root_panics : expanded (str "trace(args[0]->prev);") (Some btf) = Panic.
Proof. by vm_compute. Qed.

(** A pointer to a kernel struct is not followed. *)
Lemma kernel_pointer_rejected :
  expanded (str "trace(args[0]->prev->mm->pid);") (Some btf)
  = Throw (UserPointerChase (str "args[0]->prev->mm->pid") (str "mm")).
Proof. by vm_compute. Qed.

(** [sched:::wakeup] is replaced within [sched:::wakeup-new], which is a later
    entry of the table. *)
Lemma wakeup_new_unreachable :
  rewrite_stable_providers (str "sched:::wakeup-new { }") = str "tracepoint:guest:sched:sched_wakeup-new { }".
Proof. by vm_compute. Qed.

(** The other entries of the table are rewritten to what it says. *)
Lemma stable_table :
  forallb (fun e => bool_decide (rewrite_stable_providers (str e.1 ++ str " { }") = str e.2 ++ str " { }"))
    (filter (fun e => e.1 <> "sched:::wakeup-new"%string) STABLE_PROVIDERS) = true.
Proof. by vm_compute. Qed.

(** [retval] outside a return probe is an error, not left to libdtrace. *)
Lemma retval_elsewhere_is_error :
  rewrite_retval (str "trace(retval);") (clause_of (str "trace(retval);")) (Some btf)
  = Throw (RetvalInNonFbtReturn (str "tracepoint:guest:sched:sched_switch") (str "tracepoint") (str "sched_switch")).
Proof. by vm_compute. Qed.

Lemma btfoffsetof_ignored :
  rewrite_offsetof (E:=unit) (str "BTFOFFSETOF(task_struct, se)") (Some btf)
  = Ret (str "BTFOFFSETOF(task_struct, se)", Some btf).
Proof. by vm_compute. Qed.

(** The sentinels of two clauses are the same numbers. *)
Lemma sentinels_repeat :
  core_offsetof_sentinel 0 = 0x7C0FCAFE * 2 ^ 32 /\ core_offsetof_sentinel 0 <> 0xC0FECAFE * 2 ^ 32.
Proof. done. Qed.

(** A byte above 127 becomes the two bytes of the character of its number. *)
Lemma non_ascii_not_verbatim :
  rewrite_stable_providers [u8b 0xc3; u8b 0xa9] = [u8b 0xc3; u8b 0x83; u8b 0xc2; u8b 0xa9].
Proof. by vm_compute. Qed.
