(* ===== verification/Backend.v ===== *)
(** Guest backends (host/bifrost, src/backend.rs): which backend a guest has,
    where a probe of a clause goes, and the session payload of the native
    DTrace guests.
    Then what the guest reads of a session and when building one panics. *)

From Stdlib Require Import Strings.String.
From stdpp Require Import list.
From S2P Require Import Wire.
From S2P Require Import HostDof.
From S2P Require Import Schema.
From S2P Require Import CliShm.
From S2P Require Import LowerAction.
From S2P Require Import LowerAgg.
From S2P Require Import LinuxCompile.
From S2P Require Import Text.
From S2P Require Import DParse.
From S2P Require Import Prelude.

Local Open Scope Z_scope.
Local Open Scope list_scope.

(** ** Guests and backends *)

Inductive GuestOs : Type := GLinux | GFreeBsd | GIllumos | GMacosHost.
Inductive BackendKind : Type := LinuxEbpf | NativeKernelDtrace | MacosHostDtrace.
Inductive LoadFormat : Type := LinuxBfr7LoadProg | NativeKernelDtraceSession.

#[export] Instance GuestOs_eq_dec : EqDecision GuestOs.
Proof. solve_decision. Defined.

Definition backend_kind (os : GuestOs) : BackendKind :=
  match os with
  | GLinux => LinuxEbpf
  | GFreeBsd | GIllumos => NativeKernelDtrace
  | GMacosHost => MacosHostDtrace
  end.
Definition os_name (os : GuestOs) : string :=
  match os with
  | GLinux => "linux"
  | GFreeBsd => "freebsd"
  | GIllumos => "illumos"
  | GMacosHost => "macos-host"
  end.
Definition load_format (k : BackendKind) : LoadFormat :=
  match k with
  | LinuxEbpf => LinuxBfr7LoadProg
  | NativeKernelDtrace | MacosHostDtrace => NativeKernelDtraceSession
  end.

Record GuestControlPayload : Type := { pl_kind : Z; pl_body : bytes }.
Record GuestRecordSchema : Type := { rs_probe_id : Z; rs_label : bytes; rs_schema : RecordSchema }.
Record GuestBackendSession : Type := {
  bs_os : GuestOs;
  bs_backend_kind : BackendKind;
  bs_load_format : LoadFormat;
  bs_payloads : list GuestControlPayload;
  bs_statuses : list Z;
  bs_record_schemas : list GuestRecordSchema
}.

Definition session_new (os : GuestOs) (payloads : list GuestControlPayload) (statuses : list Z)
  : GuestBackendSession :=
  {| bs_os := os; bs_backend_kind := backend_kind os; bs_load_format := load_format (backend_kind os);
     bs_payloads := payloads; bs_statuses := statuses; bs_record_schemas := [] |}.
Definition with_record_schemas (s : GuestBackendSession) (l : list GuestRecordSchema) : GuestBackendSession :=
  {| bs_os := bs_os s; bs_backend_kind := bs_backend_kind s; bs_load_format := bs_load_format s;
     bs_payloads := bs_payloads s; bs_statuses := bs_statuses s; bs_record_schemas := l |}.

(** The messages of [bail!], by what they say. *)
Inductive BackendError : Type :=
| PayloadCount (os : GuestOs) (n : Z)
| NotNative (os : GuestOs)
| EmptyDof
| DofTooLong
| ZeroProbeId
| ProbeIdOverflow
| UnsupportedProbe (p : ProbeDescTuple)
| UnsupportedAction (kind : Z)
| NoSupportedAction
| TooManyTraces (n : Z).

Definition single_payload (s : GuestBackendSession) : outcome BackendError GuestControlPayload :=
  match bs_payloads s with
  | [p] => Ret p
  | l => Throw (PayloadCount (bs_os s) (len l))
  end.

(** ** Native DTrace sessions *)

Definition FREEBSD_DTRACE_PROOF_VALUE : Z := 0x4653424454524143.
Definition NATIVE_DTRACE_SESSION_MAGIC : Z := 0x3154444e.
Definition NATIVE_DTRACE_SESSION_VERSION : Z := 2.
Definition NATIVE_DTRACE_OP_RUN_DOF : Z := 1.
Definition NATIVE_DTRACE_GUEST_OS_FREEBSD : Z := 1.
Definition NATIVE_DTRACE_GUEST_OS_ILLUMOS : Z := 2.
Definition NATIVE_DTRACE_FLAG_EXPECT_VALUE : Z := 1.
Definition NATIVE_DTRACE_HEADER_LEN : Z := 40.
Definition NATIVE_DTRACE_DEFAULT_PROBE_ID : Z := 2.
Definition NATIVE_DTRACE_DEFAULT_LABEL : bytes := str "freebsd:kernel:dtrace:trace".
Definition NATIVE_DTRACE_MAX_TRACE_RECORDS : Z := 64.

Record NativeDtraceSessionRequest : Type := {
  rq_dof : bytes;
  rq_expected_value : option Z;
  rq_probe_id : Z;
  rq_label : bytes;
  rq_duration_ms : Z
}.
Definition run_dof_session (dof : bytes) (probe_id : Z) (expected : option Z) (label : bytes)
  : NativeDtraceSessionRequest :=
  {| rq_dof := dof; rq_expected_value := expected; rq_probe_id := probe_id; rq_label := label;
     rq_duration_ms := 0 |}.
Definition run_dof (dof : bytes) (expected : Z) : NativeDtraceSessionRequest :=
  run_dof_session dof NATIVE_DTRACE_DEFAULT_PROBE_ID (Some expected) NATIVE_DTRACE_DEFAULT_LABEL.
Definition with_duration_ms (r : NativeDtraceSessionRequest) (ms : Z) : NativeDtraceSessionRequest :=
  {| rq_dof := rq_dof r; rq_expected_value := rq_expected_value r; rq_probe_id := rq_probe_id r;
     rq_label := rq_label r; rq_duration_ms := ms |}.

(** A [NativeDtraceBackend] is its guest. *)
Definition for_guest (os : GuestOs) : outcome BackendError GuestOs :=
  match os with
  | GFreeBsd | GIllumos => Ret os
  | GLinux | GMacosHost => Throw (NotNative os)
  end.

Definition native_os_id {E} (os : GuestOs) : outcome E Z :=
  match os with
  | GFreeBsd => Ret NATIVE_DTRACE_GUEST_OS_FREEBSD
  | GIllumos => Ret NATIVE_DTRACE_GUEST_OS_ILLUMOS
  | GLinux | GMacosHost => Panic
  end.

(** *** What the guest can attach *)

Definition one_of (a : bytes) (l : list string) : bool := existsb (is_str a) l.

Definition is_supported_native_probe (p : ProbeDescTuple) : bool :=
  if (is_str (provider p) "dtrace" || is_empty (provider p)) && one_of (name p) ["BEGIN"; "END"]%string then true
  else if is_str (provider p) "fbt" && one_of (name p) ["entry"; "return"]%string && negb (is_empty (function p))
  then true
  else if is_str (provider p) "syscall" && one_of (name p) ["entry"; "return"]%string && negb (is_empty (function p))
  then true
  else is_str (provider p) "profile" && (starts_with "tick-" (name p) || starts_with "profile-" (name p)).

Definition is_native_action (kind : Z) : bool :=
  (kind =? DTRACEACT_DIFEXPR) || (kind =? DTRACEACT_PRINTA) || is_agg_action kind.

(** The first element that fails a test. *)
Definition first_not {A} (f : A -> bool) (l : list A) : option A := snd <$> list_find (fun x => f x = false) l.

Fixpoint check_probes (d : Dof) (ecbs : list Ecb) : outcome BackendError unit :=
  match ecbs with
  | [] => Ret tt
  | e :: ecbs =>
      l ← probe_descs d (probes e);
      match first_not is_supported_native_probe l with
      | Some p => Throw (UnsupportedProbe p)
      | None => check_probes d ecbs
      end
  end.

Definition count_if {A} (f : A -> bool) (l : list A) : Z := len (filter (fun x => f x = true) l).

(** The three counters over the chains. *)
Fixpoint count_actions (d : Dof) (ecbs : list Ecb) (n : Z * Z * Z) : outcome BackendError (Z * Z * Z) :=
  match ecbs with
  | [] => Ret n
  | e :: ecbs =>
      l ← actions_in_chain d (actions e);
      match first_not (fun a => is_native_action (act_kind a)) l with
      | Some bad => Throw (UnsupportedAction (act_kind bad))
      | None =>
          let '(trace, agg, printa) := n in
          count_actions d ecbs
            (trace + count_if (fun a => act_kind a =? DTRACEACT_DIFEXPR) l,
             agg + count_if (fun a => is_agg_action (act_kind a)) l,
             printa + count_if (fun a => act_kind a =? DTRACEACT_PRINTA) l)
      end
  end.

Definition native_trace_record_count (dof_bytes : bytes) : outcome BackendError Z :=
  o ← ok (HostDof.parse dof_bytes);
  match o with
  | None => Ret 1
  | Some dof =>
      ecbs ← all_ecbs dof;
      match ecbs with
      | [] => Ret 1
      | _ =>
          check_probes dof ecbs;;
          n ← count_actions dof ecbs (0, 0, 0);
          let '(trace_count, agg_count, printa_count) := n in
          if (trace_count =? 0) && (agg_count =? 0) && (printa_count =? 0) then Throw NoSupportedAction
          else if NATIVE_DTRACE_MAX_TRACE_RECORDS <? trace_count then Throw (TooManyTraces trace_count)
          else Ret (Z.max trace_count 1)
      end
  end.

Definition describe_dtrace_action (kind : Z) : string :=
  if kind =? DTRACEACT_DIFEXPR then "trace()"
  else if kind =? DTRACEACT_EXIT then "exit()"
  else if kind =? DTRACEACT_PRINTF then "printf()"
  else if kind =? DTRACEACT_PRINTA then "printa()"
  else if kind =? DTRACEACT_TRACEMEM then "tracemem()"
  else if kind =? DTRACEACT_TRACEMEM_DYNSIZE then "tracemem(dynsize)"
  else if kind =? DTRACEACT_USTACK then "ustack()"
  else if kind =? DTRACEACT_STACK then "stack()"
  else if kind =? DTRACEACT_SPECULATE then "speculate()"
  else if kind =? DTRACEACT_COMMIT then "commit()"
  else if kind =? DTRACEACT_DISCARD then "discard()"
  else if kind =? DTRACEACT_LIBACT then "libdtrace-internal action"
  else "unknown action".

(** The bytes before the DOF. *)
Definition session_header (r : NativeDtraceSessionRequest) (os_id : Z) : bytes :=
  to_le 4 NATIVE_DTRACE_SESSION_MAGIC ++ to_le 2 NATIVE_DTRACE_SESSION_VERSION
  ++ to_le 2 NATIVE_DTRACE_OP_RUN_DOF ++ to_le 2 os_id
  ++ to_le 2 (match rq_expected_value r with Some _ => NATIVE_DTRACE_FLAG_EXPECT_VALUE | None => 0 end)
  ++ to_le 4 NATIVE_DTRACE_HEADER_LEN ++ to_le 4 (len (rq_dof r)) ++ to_le 4 (rq_probe_id r)
  ++ to_le 8 (default 0 (rq_expected_value r)) ++ to_le 4 (rq_duration_ms r) ++ to_le 4 0.

(** [for i in 0..trace_records] *)
Fixpoint record_schemas (r : NativeDtraceSessionRequest) (n : nat) (i : Z)
  : outcome BackendError (list GuestRecordSchema) :=
  match n with
  | O => Ret []
  | S n =>
      id ← (if rq_probe_id r + i <=? U32_MAX then Ret (rq_probe_id r + i) else Panic);
      rest ← record_schemas r n (i + 1);
      Ret ({| rs_probe_id := id; rs_label := rq_label r; rs_schema := default_trace |} :: rest)
  end.

Definition build_session (os : GuestOs) (r : NativeDtraceSessionRequest)
  : outcome BackendError GuestBackendSession :=
  if is_empty (rq_dof r) then Throw EmptyDof
  else if U32_MAX <? len (rq_dof r) then Throw DofTooLong
  else if rq_probe_id r =? 0 then Throw ZeroProbeId
  else
    os_id ← native_os_id os;
    let body := session_header r os_id ++ rq_dof r in
    trace_records ← native_trace_record_count (rq_dof r);
    if U32_MAX - (trace_records - 1) <? rq_probe_id r then Throw ProbeIdOverflow
    else
      schemas ← record_schemas r (Z.to_nat trace_records) 0;
      Ret (with_record_schemas
             (session_new os [{| pl_kind := KIND_LOAD_PROG; pl_body := body |}] [RSP_LOADPROG_STATUS_OK])
             schemas).

(** ** Probe routing *)

Inductive TraceTarget : Type := THost | TGuest (os : GuestOs).
Inductive RejectReason : Type := GuestUserspaceProbe | LinuxNeedsBifrostProvider.
Inductive ProbeRoute : Type :=
| RHostLibdtrace
| RLinuxEbpf
| RNativeKernelDtrace (os : GuestOs)
| RRejected (r : RejectReason).

Definition is_guest_userspace_probe (p : ProbeSpec) : bool :=
  has_binary p || is_str (spec_provider p) "uprobe" || is_str (spec_provider p) "usdt"
  || is_str (spec_provider p) "pid" || starts_with "pid$" (spec_provider p)
  || (is_str (spec_provider p) "bifrost" && is_str (spec_module p) "guest_user").

Definition route_probe (t : TraceTarget) (p : ProbeSpec) : ProbeRoute :=
  match t with
  | THost => RHostLibdtrace
  | TGuest GLinux =>
      if spec_is_bifrost p || is_profile_timer p then RLinuxEbpf else RRejected LinuxNeedsBifrostProvider
  | TGuest ((GFreeBsd | GIllumos) as os) =>
      if is_guest_userspace_probe p then RRejected GuestUserspaceProbe else RNativeKernelDtrace os
  | TGuest GMacosHost =>
      if is_guest_userspace_probe p then RRejected GuestUserspaceProbe else RHostLibdtrace
  end.

(** ** The header as the guest reads it

    The fields at the offsets the tests of backend.rs pin. *)
Record NdtHeader : Type := {
  ndt_magic : Z; ndt_version : Z; ndt_op : Z; ndt_os : Z; ndt_flags : Z; ndt_header_len : Z;
  ndt_dof_len : Z; ndt_probe_id : Z; ndt_expected : Z; ndt_duration_ms : Z; ndt_reserved : Z
}.
Definition read_ndt (b : bytes) : outcome Empty_set (NdtHeader * bytes) :=
  magic ← le_at 4 b 0; version ← le_at 2 b 4; op ← le_at 2 b 6; os ← le_at 2 b 8; flags ← le_at 2 b 10;
  hlen ← le_at 4 b 12; dlen ← le_at 4 b 16; id ← le_at 4 b 20; expected ← le_at 8 b 24;
  ms ← le_at 4 b 32; reserved ← le_at 4 b 36; dof ← slice b hlen (hlen + dlen);
  Ret ({| ndt_magic := magic; ndt_version := version; ndt_op := op; ndt_os := os; ndt_flags := flags;
          ndt_header_len := hlen; ndt_dof_len := dlen; ndt_probe_id := id; ndt_expected := expected;
          ndt_duration_ms := ms; ndt_reserved := reserved |}, dof).

Definition request_ok (r : NativeDtraceSessionRequest) : Prop :=
  in_u 32 (rq_probe_id r) /\ in_u 64 (default 0 (rq_expected_value r)) /\ in_u 32 (rq_duration_ms r)
  /\ in_u 32 (len (rq_dof r)).

Definition header_of (r : NativeDtraceSessionRequest) (os_id : Z) : NdtHeader :=
  {| ndt_magic := NATIVE_DTRACE_SESSION_MAGIC; ndt_version := 2; ndt_op := NATIVE_DTRACE_OP_RUN_DOF;
     ndt_os := os_id;
     ndt_flags := match rq_expected_value r with Some _ => NATIVE_DTRACE_FLAG_EXPECT_VALUE | None => 0 end;
     ndt_header_len := 40; ndt_dof_len := len (rq_dof r); ndt_probe_id := rq_probe_id r;
     ndt_expected := default 0 (rq_expected_value r); ndt_duration_ms := rq_duration_ms r; ndt_reserved := 0 |}.

Lemma len_header r os_id : len (session_header r os_id) = 40.
Proof. unfold session_header. rewrite !len_app, !len_to_le. done. Qed.

(** A field in front of what is left. *)
Lemma field_at {A} k b c v s (f : Z -> outcome Empty_set A) :
  suffix_at b c (to_le k v ++ s) -> in_u (8 * Z.of_nat k) v -> (le_at k b c ≫= f) = f v.
Proof. intros S H. by rewrite (suffix_at_le _ _ _ _ _ S), bind_Ret. Qed.

Lemma read_header r os_id : request_ok r -> in_u 16 os_id ->
  read_ndt (session_header r os_id ++ rq_dof r) = Ret (header_of r os_id, rq_dof r).
Proof.
  intros (H1 & H2 & H3 & H4) Ho. set (b := session_header r os_id ++ rq_dof r).
  assert (S : suffix_at b 0 b) by apply suffix_at_0. unfold b at 2, session_header in S. rewrite <- !app_assoc in S.
  unfold read_ndt.
  assert (Hf : in_u 16 (match rq_expected_value r with Some _ => NATIVE_DTRACE_FLAG_EXPECT_VALUE | None => 0 end))
    by by destruct (rq_expected_value r).
  erewrite (field_at 4) by (exact S || done). adv S 4. erewrite (field_at 2) by (exact S || done).
  adv S 6. erewrite (field_at 2) by (exact S || done). adv S 8. erewrite (field_at 2) by (exact S || done).
  adv S 10. erewrite (field_at 2) by (exact S || done). adv S 12. erewrite (field_at 4) by (exact S || done).
  adv S 16. erewrite (field_at 4) by (exact S || done). adv S 20. erewrite (field_at 4) by (exact S || done).
  adv S 24. erewrite (field_at 8) by (exact S || done). adv S 32. erewrite (field_at 4) by (exact S || done).
  adv S 36. erewrite (field_at 4) by (exact S || done). adv S 40. rewrite <- (app_nil_r (rq_dof r)) in S.
  unfold NATIVE_DTRACE_HEADER_LEN. by rewrite (suffix_at_slice _ _ _ _ (40 + len (rq_dof r)) S), bind_Ret.
Qed.

(** ** What is checked *)

(** The chains of the ECBs, each as the reader gives it. *)
Definition chains_of (d : Dof) (ecbs : list Ecb) (chains : list (list Action)) : Prop :=
  Forall2 (fun e l => actions_in_chain (E:=BackendError) d (actions e) = Ret l) ecbs chains.
Definition is_trace (a : Action) : bool := act_kind a =? DTRACEACT_DIFEXPR.

Lemma first_not_None {A} (f : A -> bool) l : first_not f l = None -> Forall (fun x => f x = true) l.
Proof.
  unfold first_not. destruct (list_find _ l) as [x|] eqn:E; [done|]. intros _. apply list_find_None in E.
  eapply list.Forall_impl; [exact E|]. intros x Hx. cbv beta in Hx. destruct (f x); [reflexivity|by destruct Hx].
Qed.

Lemma count_if_app {A} (f : A -> bool) a b : count_if f (a ++ b) = count_if f a + count_if f b.
Proof. unfold count_if. by rewrite list.filter_app, len_app. Qed.

Lemma count_actions_spec d : forall ecbs n r, count_actions d ecbs n = Ret r ->
  exists chains, chains_of d ecbs chains
    /\ Forall (fun a => is_native_action (act_kind a) = true) (concat chains)
    /\ r.1.1 = n.1.1 + count_if is_trace (concat chains).
Proof.
  induction ecbs as [|e ecbs IH]; intros n r; cbn [count_actions].
  { intros [= <-]. exists []. split_and!; [constructor|constructor|]. cbn [concat]. change (count_if is_trace []) with 0. lia. }
  intros H. split_ret H. destruct (first_not _ a) eqn:F; [done|]. apply first_not_None in F.
  destruct n as [[t g] p]. apply IH in H as (chains & C & N & E). exists (a :: chains). split_and!.
  - by constructor.
  - cbn [concat]. by apply list.Forall_app_2.
  - cbn [concat fst] in *. rewrite count_if_app, E. cbn [fst].
    change (count_if (fun a0 => act_kind a0 =? DTRACEACT_DIFEXPR) a) with (count_if is_trace a). lia.
Qed.

Lemma check_probes_spec d : forall ecbs u, check_probes d ecbs = Ret u ->
  Forall (fun e => exists l, probe_descs (E:=BackendError) d (probes e) = Ret l
            /\ Forall (fun p => is_supported_native_probe p = true) l) ecbs.
Proof.
  induction ecbs as [|e ecbs IH]; intros u; cbn [check_probes]; [by constructor|].
  intros H. split_ret H. destruct (first_not _ a) eqn:F; [done|]. constructor; [|by eapply IH].
  exists a. split; [done|]. by apply first_not_None.
Qed.

(** The number of records a DOF calls for: one when it does not parse or has
    no ECB. *)
Definition records_called_for (dof_bytes : bytes) (n : Z) : Prop :=
  match HostDof.parse dof_bytes with
  | Ret d =>
      exists ecbs, all_ecbs (E:=BackendError) d = Ret ecbs /\
      (ecbs = [] -> n = 1) /\
      (ecbs <> [] -> exists chains, chains_of d ecbs chains
         /\ Forall (fun a => is_native_action (act_kind a) = true) (concat chains)
         /\ Forall (fun e => exists l, probe_descs (E:=BackendError) d (probes e) = Ret l
              /\ Forall (fun p => is_supported_native_probe p = true) l) ecbs
         /\ n = Z.max 1 (count_if is_trace (concat chains)))
  | _ => n = 1
  end.

Lemma record_count_spec b n : native_trace_record_count b = Ret n -> records_called_for b n /\ 1 <= n <= 64.
Proof.
  unfold native_trace_record_count, records_called_for. destruct (HostDof.parse b) as [d|e|]; [|by intros [= <-]|done].
  cbn [ok]. rewrite bind_Ret. intros H. split_ret H. destruct a as [|e ecbs].
  { injection H as <-. split; [|lia]. exists []. by split_and!. }
  split_ret H. destruct a0 as [[t g] p]. destruct (_ && _ && _); [done|].
  destruct (Z.ltb_spec NATIVE_DTRACE_MAX_TRACE_RECORDS t) as [|Ht]; [done|]. injection H as <-.
  apply count_actions_spec in R1 as (chains & C & N & E). apply check_probes_spec in R0. cbn [fst] in E.
  unfold NATIVE_DTRACE_MAX_TRACE_RECORDS in Ht. pose proof (len_nonneg (filter (fun x => is_trace x = true) (concat chains))) as Hc.
  change (len _) with (count_if is_trace (concat chains)) in Hc. split; [|lia].
  exists (e :: ecbs). split_and!; [done..|]. intros _. exists chains. split_and!; [done..|lia].
Qed.

Lemma record_schemas_spec r : forall n i l, record_schemas r n i = Ret l ->
  l = map (fun k => {| rs_probe_id := rq_probe_id r + k; rs_label := rq_label r; rs_schema := default_trace |})
        (seqZ i (Z.of_nat n))
  /\ Forall (fun s => rs_probe_id s <= U32_MAX) l.
Proof.
  induction n as [|n IH]; intros i l; cbn [record_schemas]; [by intros [= <-]|].
  destruct (Z.leb_spec (rq_probe_id r + i) U32_MAX) as [Hi|]; [|done]. rewrite bind_Ret. intros H. split_ret H.
  injection H as <-. apply IH in R as [-> Hf]. rewrite (seqZ_cons i) by lia. cbn [map].
  replace (Z.pred (Z.of_nat (S n))) with (Z.of_nat n) by lia. rewrite <- Z.add_1_r. by split; [|constructor].
Qed.

Lemma record_schemas_fit r n i : rq_probe_id r + i + Z.of_nat n <= U32_MAX + 1 -> exists l, record_schemas r n i = Ret l.
Proof.
  revert i. induction n as [|n IH]; intros i H; cbn [record_schemas]; [by eexists|].
  destruct (Z.leb_spec (rq_probe_id r + i) U32_MAX); [|lia]. rewrite bind_Ret.
  destruct (IH (i + 1) ltac:(lia)) as [l ->]. rewrite bind_Ret. by eexists.
Qed.

(** A session a native guest is given is one payload: its header reads
    back to the request, and the DOF is what the header's lengths delimit;
    every probe of that DOF is one the guest attaches, every action one it
    carries out; and there is a record schema for each [trace()], at
    consecutive probe identifiers from the requested one on. *)
Theorem native_session_read os r s (Hr : request_ok r) :
  build_session os r = Ret s ->
  exists body os_id n,
    bs_payloads s = [{| pl_kind := KIND_LOAD_PROG; pl_body := body |}] /\ bs_statuses s = [RSP_LOADPROG_STATUS_OK]
    /\ bs_os s = os /\ backend_kind os = NativeKernelDtrace /\ native_os_id (E:=BackendError) os = Ret os_id
    /\ read_ndt body = Ret (header_of r os_id, rq_dof r) /\ len body = 40 + len (rq_dof r)
    /\ records_called_for (rq_dof r) n /\ 1 <= n <= 64
    /\ bs_record_schemas s
       = map (fun k => {| rs_probe_id := rq_probe_id r + k; rs_label := rq_label r; rs_schema := default_trace |})
           (seqZ 0 n)
    /\ Forall (fun x => rs_probe_id x <= U32_MAX) (bs_record_schemas s).
Proof.
  unfold build_session. destruct (DParse.is_empty _); [done|]. destruct (U32_MAX <? _); [done|].
  destruct (rq_probe_id r =? 0); [done|]. intros H. split_ret H. destruct (_ <? rq_probe_id r); [done|].
  split_ret H. injection H as <-. apply record_count_spec in R0 as [Hn Hb].
  apply record_schemas_spec in R1 as [-> Hf]. rewrite Z2Nat.id in * by lia.
  exists (session_header r a ++ rq_dof r), a, a0. cbn [bs_payloads bs_statuses bs_os bs_record_schemas with_record_schemas session_new].
  split_and!; try done; [by destruct os| | |lia|lia].
  - apply read_header; [done|]. destruct os; try done; by injection R as <-.
  - by rewrite len_app, len_header.
Qed.

(** Building a session for a native guest panics only when the DOF
    reader does: whatever the request, the identifiers do not overflow and
    the guest is one of those the constructor lets through. *)
Theorem native_session_no_panic os r g : for_guest g = Ret os -> 0 <= rq_probe_id r ->
  native_trace_record_count (rq_dof r) <> Panic -> build_session os r <> Panic.
Proof.
  intros Hg Hp Hn0 HB. apply Hn0. clear Hn0. revert HB. unfold build_session. destruct (DParse.is_empty _); [done|]. destruct (U32_MAX <? _); [done|].
  destruct (rq_probe_id r =? 0); [done|].
  assert (Ho : exists i, native_os_id (E:=BackendError) os = Ret i) by (destruct g; try done; injection Hg as <-; by eexists).
  destruct Ho as [i ->]. rewrite bind_Ret. destruct (native_trace_record_count _) as [n|e|] eqn:En; [|done..].
  rewrite bind_Ret. destruct (Z.ltb_spec (U32_MAX - (n - 1)) (rq_probe_id r)) as [|Hn]; [done|].
  apply record_count_spec in En as [_ Hb].
  destruct (record_schemas_fit r (Z.to_nat n) 0 ltac:(lia)) as [l ->]. by rewrite bind_Ret.
Qed.
