(* ===== verification/Plan.v ===== *)
(** Session plans (host/bifrost, src/plan.rs): the targets of a session, what
    makes a plan valid, and which targets each clause of the source goes to.
    The plan files are in MiniYaml.v and PlanFile.v. *)

From Stdlib Require Import Strings.String.
From stdpp Require Import list.
From S2P Require Import Text.
From S2P Require Import Schema.
From S2P Require Import DParse.
From S2P Require Import Backend.
From S2P Require Import Prelude.

Local Open Scope Z_scope.
Local Open Scope list_scope.

(** A path is its bytes. *)
Inductive LauncherSpec : Type :=
| Smolvm (script : bytes) (args : list bytes)
| QemuFreebsd (script : bytes) (args : list bytes)
| Attach
| MacosHostChild (extra_args : list bytes).

Inductive ConduitEndpoint : Type :=
| Pid (pid : Z)
| Socket (path : bytes)
| DataShmName (name : bytes).

Record Target : Type := {
  t_id : bytes;
  t_guest_os : GuestOs;
  t_launcher : LauncherSpec;
  t_conduit : option ConduitEndpoint;
  t_script : option bytes;
  t_script_file : option bytes;
  t_duration_ms : option Z
}.

Record Plan : Type := {
  p_script : option bytes;
  p_script_file : option bytes;
  p_targets : list Target
}.

(** [Plan::single] *)
Definition single (t : Target) : Plan := {| p_script := None; p_script_file := None; p_targets := [t] |}.

Inductive NaturalKind : Type := KLinux | KNativeKernel | KUserspace | KEither.
#[export] Instance NaturalKind_eq_dec : EqDecision NaturalKind.
Proof. solve_decision. Defined.

(** The messages of [validate] and of the routing, by what they name. *)
Inductive RouteReason : Type :=
| UserspaceUnsupported
| NeedsBifrostProvider
| NativeTuple
| NoTargetAccepts.

Inductive PlanError : Type :=
| NoTargets
| EmptyId
| IdNotAscii (id : bytes)
| IdTooLong (id : bytes) (n : Z)
| DuplicateId (id : bytes)
| TargetScriptTwice (id : bytes)
| ConduitOnMacosHost (id : bytes)
| MissingConduit (id : bytes)
| LauncherNeedsMacosHost (id : bytes) (os : GuestOs)
| MacosHostNeedsLauncher (id : bytes)
| PlanScriptTwice
| ClauseSplit (pairs : list (bytes * NaturalKind))
| Unroutable (probe : bytes) (reason : RouteReason).

(** ** Validation *)

Definition is_macos_launcher (l : LauncherSpec) : bool := match l with MacosHostChild _ => true | _ => false end.
Definition is_some {A} (o : option A) : bool := match o with Some _ => true | None => false end.
Definition is_ascii (b : bytes) : bool := forallb (fun x => byte.unsigned x <? 0x80) b.

(** The checks of one target, [seen] being the ids before it. *)
Definition validate_target (seen : list bytes) (t : Target) : outcome PlanError unit :=
  let id := t_id t in
  if is_empty id then Throw EmptyId
  else if negb (is_ascii id) then Throw (IdNotAscii id)
  else if 32 <? len id then Throw (IdTooLong id (len id))
  else if bool_decide (id ∈ seen) then Throw (DuplicateId id)
  else if is_some (t_script t) && is_some (t_script_file t) then Throw (TargetScriptTwice id)
  else
    match t_launcher t, t_conduit t with
    | MacosHostChild _, None => Ret tt
    | MacosHostChild _, Some _ => Throw (ConduitOnMacosHost id)
    | _, None => Throw (MissingConduit id)
    | _, _ => Ret tt
    end;;
    if is_macos_launcher (t_launcher t) && negb (bool_decide (t_guest_os t = GMacosHost))
    then Throw (LauncherNeedsMacosHost id (t_guest_os t))
    else if bool_decide (t_guest_os t = GMacosHost) && negb (is_macos_launcher (t_launcher t))
    then Throw (MacosHostNeedsLauncher id)
    else Ret tt.

Fixpoint validate_targets (seen : list bytes) (l : list Target) : outcome PlanError unit :=
  match l with
  | [] => Ret tt
  | t :: l => validate_target seen t;; validate_targets (t_id t :: seen) l
  end.

Definition validate (p : Plan) : outcome PlanError unit :=
  match p_targets p with
  | [] => Throw NoTargets
  | l =>
      validate_targets [] l;;
      if is_some (p_script p) && is_some (p_script_file p) then Throw PlanScriptTwice else Ret tt
  end.

(** ** Routing *)

Definition natural_kind_of (s : ProbeSpec) : NaturalKind :=
  if is_guest_userspace_probe s then KUserspace
  else if is_str (spec_provider s) "bifrost" then KLinux
  else if one_of (spec_module s) ["guest"; "vmm"; "guest_kernel"]%string then KLinux
  else if is_empty (spec_module s) && is_empty (spec_function s) && negb (is_empty (spec_name s)) then KEither
  else if is_str (spec_provider s) "dtrace" then KEither
  else if one_of (spec_provider s) ["BEGIN"; "END"; "ERROR"]%string then KEither
  else KNativeKernel.

Definition target_matches_kind (t : Target) (k : NaturalKind) : bool :=
  match k, t_guest_os t with
  | KLinux, GLinux => true
  | KNativeKernel, (GFreeBsd | GIllumos) => true
  | KNativeKernel, GMacosHost => true
  | KEither, _ => true
  | KUserspace, GLinux => true
  | _, _ => false
  end.

Definition is_concrete (k : NaturalKind) : bool :=
  match k with KUserspace | KEither => false | _ => true end.

(** The set of the kinds, in its order. *)
Definition kinds_of (natural : list NaturalKind) : list NaturalKind :=
  filter (fun k => k ∈ natural) [KLinux; KNativeKernel; KUserspace; KEither].

(** [(0..n).filter(..)] *)
Fixpoint positions {A} (f : A -> bool) (i : nat) (l : list A) : list nat :=
  match l with
  | [] => []
  | x :: l => if f x then i :: positions f (S i) l else positions f (S i) l
  end.

Definition route_reason (k : NaturalKind) : RouteReason :=
  match k with
  | KUserspace => UserspaceUnsupported
  | KLinux => NeedsBifrostProvider
  | KNativeKernel => NativeTuple
  | KEither => NoTargetAccepts
  end.

Definition pick_targets_for_clause (p : Plan) (c : Clause) : outcome PlanError (list nat) :=
  let natural := map natural_kind_of (clause_specs c) in
  let concrete_kinds := filter (fun k => is_concrete k = true) (kinds_of natural) in
  if (1 <? len concrete_kinds)
  then Throw (ClauseSplit (zip (map render (clause_specs c)) natural))
  else
    match positions (fun t => forallb (target_matches_kind t) natural) 0 (p_targets p) with
    | [] =>
        let bad_idx := default O (head (positions
          (fun k => negb (existsb (fun t => target_matches_kind t k) (p_targets p))) 0 natural)) in
        match clause_specs c !! bad_idx, natural !! bad_idx with
        | Some bad, Some k => Throw (Unroutable (render bad) (route_reason k))
        | _, _ => Panic
        end
    | candidates => Ret candidates
    end.

(** A routed clause keeps all the clause's specs. *)
Record RoutedClause : Type := { rc_clause : Clause; rc_specs : list ProbeSpec }.
Record RoutedTarget : Type := { rt_target : Target; rt_clauses : list RoutedClause }.

Definition push_clause (c : Clause) (rt : RoutedTarget) : RoutedTarget :=
  {| rt_target := rt_target rt;
     rt_clauses := rt_clauses rt ++ [{| rc_clause := c; rc_specs := clause_specs c |}] |}.

(** [for idx in chosen { per_target[idx].clauses.push(..) }] *)
Fixpoint push_all (c : Clause) (chosen : list nat) (per_target : list RoutedTarget)
  : outcome PlanError (list RoutedTarget) :=
  match chosen with
  | [] => Ret per_target
  | i :: chosen =>
      match per_target !! i with
      | Some rt => push_all c chosen (<[i := push_clause c rt]> per_target)
      | None => Panic
      end
  end.

Fixpoint route_loop (p : Plan) (cs : list Clause) (per_target : list RoutedTarget)
  : outcome PlanError (list RoutedTarget) :=
  match cs with
  | [] => Ret per_target
  | c :: cs =>
      chosen ← pick_targets_for_clause p c;
      per_target ← push_all c chosen per_target;
      route_loop p cs per_target
  end.

Definition route_clauses (p : Plan) (parsed : Parsed) : outcome PlanError (list RoutedTarget) :=
  validate p;;
  route_loop p (clauses parsed) (map (fun t => {| rt_target := t; rt_clauses := [] |}) (p_targets p)).

(** ** Valid plans *)

Record target_ok (t : Target) : Prop := {
  ok_id : t_id t <> [] /\ is_ascii (t_id t) = true /\ len (t_id t) <= 32;
  ok_script : ~ (is_Some (t_script t) /\ is_Some (t_script_file t));
  ok_macos : is_macos_launcher (t_launcher t) = true <-> t_guest_os t = GMacosHost;
  ok_conduit : is_macos_launcher (t_launcher t) = true <-> t_conduit t = None
}.

Record plan_ok (p : Plan) : Prop := {
  ok_some : p_targets p <> [];
  ok_targets : Forall target_ok (p_targets p);
  ok_unique : NoDup (map t_id (p_targets p));
  ok_scripts : ~ (is_Some (p_script p) /\ is_Some (p_script_file p))
}.

Lemma both_some {A B} (a : option A) (b : option B) : is_some a && is_some b = true <-> is_Some a /\ is_Some b.
Proof. destruct a, b; cbn; split; try done; intros [[? ?] [? ?]]; done. Qed.

Lemma is_empty_spec (b : bytes) : is_empty b = true <-> b = [].
Proof. by destruct b. Qed.

Lemma seq_Ret {E} (m k : outcome E unit) : (m;; k) = Ret tt <-> m = Ret tt /\ k = Ret tt.
Proof. destruct m as [[]|e|]; [by rewrite bind_Ret; split; [|intros [_ ?]]|by split; [|intros [? _]]..]. Qed.

Lemma conduit_iff t :
  match t_launcher t, t_conduit t with
  | MacosHostChild _, None => Ret tt
  | MacosHostChild _, Some _ => Throw (ConduitOnMacosHost (t_id t))
  | _, None => Throw (MissingConduit (t_id t))
  | _, _ => Ret tt
  end = Ret tt <-> (is_macos_launcher (t_launcher t) = true <-> t_conduit t = None).
Proof.
  destruct (t_launcher t), (t_conduit t); cbn; split; try done; intros [H1 H2]; try done;
    (discriminate (H1 eq_refl) || discriminate (H2 eq_refl)).
Qed.

Lemma guest_iff t :
  (if is_macos_launcher (t_launcher t) && negb (bool_decide (t_guest_os t = GMacosHost))
   then Throw (LauncherNeedsMacosHost (t_id t) (t_guest_os t))
   else if bool_decide (t_guest_os t = GMacosHost) && negb (is_macos_launcher (t_launcher t))
   then Throw (MacosHostNeedsLauncher (t_id t))
   else Ret tt) = Ret tt <-> (is_macos_launcher (t_launcher t) = true <-> t_guest_os t = GMacosHost).
Proof.
  case_bool_decide as Eg; destruct (is_macos_launcher (t_launcher t)); cbn [andb negb]; split; try done; intros [H1 H2].
  - discriminate (H2 Eg).
  - by destruct Eg; apply H1.
Qed.

Lemma validate_target_iff seen t : validate_target seen t = Ret tt <-> target_ok t /\ t_id t ∉ seen.
Proof.
  unfold validate_target. destruct (is_empty (t_id t)) eqn:E1.
  { apply is_empty_spec in E1. split; [done|]. by intros [[[H _] _ _ _] _]. }
  assert (N : t_id t <> []) by (intros H; by rewrite H in E1).
  destruct (is_ascii (t_id t)) eqn:E2; cbn [negb]; [|split; [done|]; intros [[(_ & H & _) _ _ _] _]; congruence].
  destruct (Z.ltb_spec 32 (len (t_id t))) as [E3|E3]; [split; [done|]; intros [[(_ & _ & H) _ _ _] _]; lia|].
  case_bool_decide as E4; [by split; [|intros [_ ?]]|].
  destruct (is_some _ && is_some _) eqn:E5.
  { apply both_some in E5. split; [done|]. by intros [[_ H _ _] _]. }
  assert (S : ~ (is_Some (t_script t) /\ is_Some (t_script_file t))) by (intros H; apply both_some in H; congruence).
  rewrite seq_Ret, conduit_iff, guest_iff. split; [|by intros [[_ _ ? ?] _]].
  intros [C1 C2]. split; [|done]. by split.
Qed.

Lemma validate_targets_iff l : forall seen,
  validate_targets seen l = Ret tt <->
  Forall target_ok l /\ NoDup (map t_id l) /\ (forall t, t ∈ l -> t_id t ∉ seen).
Proof.
  induction l as [|t l IH]; intros seen; cbn [validate_targets map].
  { split; [|done]. intros _. split_and!; [constructor|constructor|]. by intros t Ht%elem_of_nil. }
  destruct (validate_target seen t) as [[]|e|] eqn:E.
  - apply validate_target_iff in E as [E1 E2]. rewrite bind_Ret, IH, list.NoDup_cons, list.Forall_cons.
    split; intros (H1 & H2 & H3).
    + split_and!; [done|done| |done|].
      * intros Hin. apply list_elem_of_In, in_map_iff in Hin as (t' & Et & Ht'%list_elem_of_In).
        apply (H3 t' Ht'). rewrite Et. apply elem_of_cons. by left.
      * intros t' [->|Ht]%elem_of_cons; [done|]. intros Hs. apply (H3 t' Ht). apply elem_of_cons. by right.
    + split_and!; [tauto|tauto|]. intros t' Ht [Et|Hs]%elem_of_cons.
      * destruct H2 as [H2 _]. apply H2. rewrite <- Et. apply list_elem_of_In, in_map. by apply list_elem_of_In.
      * apply (H3 t'); [apply elem_of_cons; by right|done].
  - split; [done|]. intros (H1 & H2 & H3). apply list.Forall_cons in H1 as [H1 _].
    assert (X : validate_target seen t = Ret tt) by (apply validate_target_iff; split; [done|]; apply H3, elem_of_cons; by left).
    congruence.
  - split; [done|]. intros (H1 & H2 & H3). apply list.Forall_cons in H1 as [H1 _].
    assert (X : validate_target seen t = Ret tt) by (apply validate_target_iff; split; [done|]; apply H3, elem_of_cons; by left).
    congruence.
Qed.

(** [validate] accepts a plan exactly when it has targets, with distinct
    ids of 1 to 32 ASCII bytes, none has two scripts, and the macOS host, its
    launcher and the absence of a conduit go together. *)
Theorem validate_exact p : validate p = Ret tt <-> plan_ok p.
Proof.
  unfold validate. destruct (p_targets p) as [|t l] eqn:Et; [split; [done|]; intros [H _ _ _]; congruence|].
  destruct (is_some (p_script p) && is_some (p_script_file p)) eqn:Es.
  - apply both_some in Es. split; [|by intros [_ _ _ H]]. by destruct (validate_targets [] (t :: l)) as [[]| |].
  - assert (S : ~ (is_Some (p_script p) /\ is_Some (p_script_file p))) by (intros H; apply both_some in H; congruence).
    transitivity (validate_targets [] (t :: l) = Ret tt); [by destruct (validate_targets [] (t :: l)) as [[]| |]|].
    rewrite validate_targets_iff. split.
    + intros (H1 & H2 & H3). split; rewrite ?Et; done.
    + intros [_ H2 H3 _]. rewrite Et in *. split_and!; [done..|]. intros ? _. apply not_elem_of_nil.
Qed.

(** ** Routing *)

(** A target takes a clause when it takes every probe of it. *)
Definition accepts (t : Target) (c : Clause) : bool :=
  forallb (fun s => target_matches_kind t (natural_kind_of s)) (clause_specs c).
Definition routable (p : Plan) (c : Clause) : bool := existsb (fun t => accepts t c) (p_targets p).

Definition routed (c : Clause) : RoutedClause := {| rc_clause := c; rc_specs := clause_specs c |}.
Definition share (cs : list Clause) (t : Target) : RoutedTarget :=
  {| rt_target := t; rt_clauses := map routed (filter (fun c => accepts t c = true) cs) |}.

(** The clause has probes for Linux and for another kernel. *)
Definition mixed (c : Clause) : Prop :=
  KLinux ∈ map natural_kind_of (clause_specs c) /\ KNativeKernel ∈ map natural_kind_of (clause_specs c).

Lemma accepts_natural t c : forallb (target_matches_kind t) (map natural_kind_of (clause_specs c)) = accepts t c.
Proof. unfold accepts. by induction (clause_specs c) as [|s l IH]; cbn; rewrite ?IH. Qed.

Lemma mixed_concrete natural :
  (1 <? len (filter (fun k => is_concrete k = true) (kinds_of natural))) = true
  <-> KLinux ∈ natural /\ KNativeKernel ∈ natural.
Proof.
  unfold kinds_of. repeat rewrite filter_cons. cbn [is_concrete].
  repeat case_decide; cbn [is_concrete] in *; repeat rewrite filter_cons; cbn [is_concrete];
    repeat (rewrite ?(decide_True _ _ eq_refl); cbn; try (case_decide; [discriminate|])); rewrite ?filter_nil; cbn;
    tauto || (split; [done|tauto]).
Qed.

Lemma mixed_not_accepted t c : mixed c -> accepts t c = false.
Proof.
  intros [H1 H2]. destruct (accepts t c) eqn:E; [|done]. rewrite <- accepts_natural, forallb_forall in E.
  pose proof (E _ (proj1 (list_elem_of_In _ _) H1)) as E1. pose proof (E _ (proj1 (list_elem_of_In _ _) H2)) as E2.
  unfold target_matches_kind in *. by destruct (t_guest_os t).
Qed.

Lemma positions_nil {A} (f : A -> bool) l : forall i, positions f i l = [] <-> existsb f l = false.
Proof.
  induction l as [|x l IH]; intros i; [done|]. cbn [positions existsb]. destruct (f x); [done|]. apply IH.
Qed.

Lemma positions_head {A} (f : A -> bool) l : forall i j, head (positions f i l) = Some j ->
  exists x, l !! (j - i)%nat = Some x /\ (i <= j)%nat /\ f x = true.
Proof.
  induction l as [|x l IH]; intros i j; [done|]. cbn [positions]. destruct (f x) eqn:E.
  - intros [= <-]. exists x. by rewrite Nat.sub_diag.
  - intros (y & H1 & H2 & H3)%IH. exists y. split_and!; [|lia|done]. by replace (j - i)%nat with (S (j - S i)) by lia.
Qed.

(** Pushing at the positions of a test is pushing where it holds. *)
Lemma push_positions c (f : Target -> bool) l : forall pre,
  push_all c (positions f (length pre) (map rt_target l)) (pre ++ l)
  = Ret (pre ++ map (fun rt => if f (rt_target rt) then push_clause c rt else rt) l).
Proof.
  induction l as [|rt l IH]; intros pre; [done|]. cbn [map positions].
  assert (S : forall rt', S (length pre) = length (pre ++ [rt'])) by (intros; rewrite length_app; cbn; lia).
  destruct (f (rt_target rt)).
  - cbn [push_all]. rewrite list_lookup_middle by done. rewrite insert_app_r_alt, Nat.sub_diag by done. cbn [insert list_insert].
    rewrite (S (push_clause c rt)). replace (pre ++ push_clause c rt :: l) with ((pre ++ [push_clause c rt]) ++ l)
      by by rewrite <- app_assoc. rewrite IH. by rewrite <- app_assoc.
  - rewrite (S rt). replace (pre ++ rt :: l) with ((pre ++ [rt]) ++ l) by by rewrite <- app_assoc.
    rewrite IH. by rewrite <- app_assoc.
Qed.

(** What picking the targets of a clause says. *)
Lemma pick_cases p c :
  match pick_targets_for_clause p c with
  | Ret l => routable p c = true /\ l = positions (fun t => accepts t c) 0 (p_targets p)
  | Throw (ClauseSplit _) => mixed c
  | Throw (Unroutable n _) => routable p c = false /\ exists s, s ∈ clause_specs c /\ n = render s
  | Throw _ => False
  | Panic => clause_specs c = [] /\ p_targets p = []
  end.
Proof.
  unfold pick_targets_for_clause. destruct (1 <? len _) eqn:E1; [by apply mixed_concrete in E1|].
  assert (P : positions (fun t => forallb (target_matches_kind t) (map natural_kind_of (clause_specs c))) 0 (p_targets p)
    = positions (fun t => accepts t c) 0 (p_targets p)).
  { generalize 0%nat. induction (p_targets p) as [|t l IH]; intros i; [done|]. cbn [positions]. by rewrite accepts_natural, !IH. }
  rewrite P. destruct (positions (fun t => accepts t c) 0 (p_targets p)) as [|i l] eqn:E2.
  - apply positions_nil in E2. set (bad := default O _).
    destruct (clause_specs c !! bad) as [s|] eqn:Es.
    + assert (X : map natural_kind_of (clause_specs c) !! bad = Some (natural_kind_of s))
        by (rewrite list_lookup_fmap; by rewrite Es).
      rewrite X. split; [done|]. exists s. split; [by eapply list_elem_of_lookup_2|done].
    + destruct (head (positions _ 0 (map natural_kind_of (clause_specs c)))) as [j|] eqn:Eh.
      * apply positions_head in Eh as Ex. destruct Ex as (k & Hk & _ & _). subst bad. cbn [default from_option id] in Es.
        rewrite Nat.sub_0_r, list_lookup_fmap in Hk. by rewrite Es in Hk.
      * subst bad. change (clause_specs c !! 0%nat = None) in Es. destruct (clause_specs c) as [|s l] eqn:Ec; [|done]. cbn.
        split; [done|]. unfold accepts in E2. rewrite Ec in E2. by destruct (p_targets p).
  - split; [|done]. unfold routable. destruct (existsb _ _) eqn:E3; [done|]. apply (positions_nil _ _ 0%nat) in E3. congruence.
Qed.

Lemma share_push cs c t : (if accepts t c then push_clause c (share cs t) else share cs t) = share (cs ++ [c]) t.
Proof.
  unfold share, push_clause. rewrite list.filter_app, filter_cons, filter_nil. cbn [rt_target rt_clauses].
  destruct (accepts t c) eqn:E; [rewrite decide_True by done|rewrite decide_False by done]; by rewrite ?map_app, ?app_nil_r.
Qed.

Lemma route_loop_exact p : p_targets p <> [] -> forall cs done_,
  match route_loop p cs (map (share done_) (p_targets p)) with
  | Ret r => Forall (fun c => routable p c = true) cs /\ r = map (share (done_ ++ cs)) (p_targets p)
  | Throw (ClauseSplit _) => exists c, c ∈ cs /\ mixed c
  | Throw (Unroutable n _) => exists c s, c ∈ cs /\ routable p c = false /\ s ∈ clause_specs c /\ n = render s
  | _ => False
  end.
Proof.
  intros Ht. induction cs as [|c cs IH]; intros done_; cbn [route_loop].
  { split; [constructor|]. by rewrite app_nil_r. }
  pose proof (pick_cases p c) as Hp. destruct (pick_targets_for_clause p c) as [l|e|].
  - destruct Hp as [Hr ->]. rewrite bind_Ret.
    pose proof (push_positions c (fun t => accepts t c) (map (share done_) (p_targets p)) []) as X. cbn [length app] in X.
    rewrite map_map, (map_ext (fun t => rt_target (share done_ t)) id), map_id in X by done. rewrite X, bind_Ret, map_map.
    rewrite (map_ext _ (share (done_ ++ [c]))) by (intros t; apply share_push).
    specialize (IH (done_ ++ [c])). destruct (route_loop p cs _) as [r|e|].
    + destruct IH as [H1 ->]. split; [by constructor|]. by rewrite <- app_assoc.
    + destruct e; try done; [destruct IH as (c' & H1 & H2); exists c'; split; [by right|done]|].
      destruct IH as (c' & s & H1 & H2). exists c', s. split; [by right|done].
    + done.
  - destruct e; try done; [exists c; split; [by left|done]|]. destruct Hp as (H1 & s & H2 & H3). exists c, s.
    split_and!; [by left|done..].
  - by destruct Hp.
Qed.

(** Routing the clauses of a source over a valid plan: it succeeds exactly
    when every clause has a target that takes all of its probes, and each
    target then gets, in the source's order, the clauses it takes, whole;
    otherwise the error is of a clause with probes for two kernels, or names a
    probe of a clause that no target takes. *)
Theorem route_exact p parsed (Hp : validate p = Ret tt) :
  match route_clauses p parsed with
  | Ret r => forallb (routable p) (clauses parsed) = true /\ r = map (share (clauses parsed)) (p_targets p)
  | Throw e =>
      forallb (routable p) (clauses parsed) = false /\
      match e with
      | ClauseSplit _ => exists c, c ∈ clauses parsed /\ mixed c
      | Unroutable n _ => exists c s, c ∈ clauses parsed /\ routable p c = false /\ s ∈ clause_specs c /\ n = render s
      | _ => False
      end
  | Panic => False
  end.
Proof.
  unfold route_clauses. rewrite Hp, bind_Ret.
  assert (Ht : p_targets p <> []) by (unfold validate in Hp; by destruct (p_targets p)).
  pose proof (route_loop_exact p Ht (clauses parsed) []) as H. cbn [app] in H.
  rewrite (map_ext _ (share [])) by done.
  assert (N : forall c, c ∈ clauses parsed -> routable p c = false -> forallb (routable p) (clauses parsed) = false).
  { intros c Hc Hr. destruct (forallb _ _) eqn:E; [|done]. rewrite forallb_forall in E.
    rewrite E in Hr; [done|by apply list_elem_of_In]. }
  destruct (route_loop _ _ _) as [r|e|].
  - destruct H as [H1 ->]. split; [|done]. apply forallb_forall. intros c Hc. rewrite list.Forall_forall in H1.
    by apply H1, list_elem_of_In.
  - destruct e; try done.
    + split; [|done]. destruct H as (c & H1 & H2). apply (N c H1). unfold routable.
      apply not_true_iff_false. intros E. apply existsb_exists in E as (t & _ & E). by rewrite mixed_not_accepted in E.
    + split; [|done]. destruct H as (c & s & H1 & H2 & _). by apply (N c).
  - done.
Qed.

(** Under a target with DTrace of its own, the planner and the backend
    agree: every probe of a clause the target takes is one the backend's
    routing accepts. *)
Theorem native_routes_agree t c s : t_guest_os t <> GLinux -> accepts t c = true -> s ∈ clause_specs c ->
  route_probe (TGuest (t_guest_os t)) s
  = match t_guest_os t with GMacosHost => RHostLibdtrace | os => RNativeKernelDtrace os end.
Proof.
  intros Hl Ha Hs. unfold accepts in Ha. rewrite forallb_forall in Ha.
  apply list_elem_of_In, Ha in Hs. unfold natural_kind_of in Hs. unfold route_probe.
  destruct (is_guest_userspace_probe s) eqn:E; [|by destruct (t_guest_os t)].
  unfold target_matches_kind in Hs. by destruct (t_guest_os t).
Qed.
