(* ===== verification/MiniYaml.v ===== *)
(** The YAML subset of plan files (host/bifrost, src/plan.rs, [MiniYaml]):
    lines without their comments, and blocks of mappings and sequences by
    indentation.

    The cursor into the lines is the rest of them. *)

From Stdlib Require Import Strings.String.
From stdpp Require Import list.
From S2P Require Import Schema.
From S2P Require Import Text.
From S2P Require Import DParse.
From S2P Require Import Prelude.

Local Open Scope Z_scope.
Local Open Scope list_scope.

Inductive yaml : Type :=
| Scalar (s : bytes)
| Sequence (l : list yaml)
| Mapping (l : list (bytes * yaml)).

Record YamlLine : Type := {
  line_no : Z;
  indent : Z;
  content : bytes
}.

(** The messages of [bail!], by what they name. *)
Inductive YamlError : Type :=
| UnterminatedQuote
| TabIndent (line : Z)
| MultiDocument (line : Z)
| AnchorOrTag (line : Z)
| UnexpectedIndent (found wanted line : Z)
| EntryInMapping (line : Z)
| ExpectedKey (line : Z)
| StoppedEarly (line : Z).

Definition QUOTE : Z := 0x22.
Definition APOSTROPHE : Z := 0x27.

(** ** Lines *)

Definition strip_cr (l : bytes) : bytes :=
  match rev l with b :: l' => if byte_is b 0x0d then rev l' else l | [] => [] end.

(** [str::lines] *)
Fixpoint lines_fuel (fuel : nat) (l : bytes) : list bytes :=
  match fuel with
  | O => []
  | S fuel =>
      let '(a, rest) := span (fun b => negb (byte_is b 0x0a)) l in
      match rest with
      | [] => match a with [] => [] | _ => [a] end
      | _ :: rest => strip_cr a :: lines_fuel fuel rest
      end
  end.
Definition lines (l : bytes) : list bytes := lines_fuel (S (length l)) l.

(** The line up to a [#] outside quotes; [quote] is the open quote. *)
Fixpoint strip_comment_from (quote : option Z) (l : bytes) : outcome YamlError bytes :=
  match l with
  | [] => match quote with Some _ => Throw UnterminatedQuote | None => Ret [] end
  | b :: l =>
      match quote with
      | None =>
          if byte_is b 0x23 then Ret []
          else
            r ← strip_comment_from (if byte_is b QUOTE || byte_is b APOSTROPHE then Some (byte.unsigned b) else None) l;
            Ret (b :: r)
      | Some q =>
          r ← strip_comment_from (if byte_is b q then None else Some q) l;
          Ret (b :: r)
      end
  end.
Definition strip_comment (raw : bytes) : outcome YamlError bytes := strip_comment_from None raw.

Definition spaces (l : bytes) : bytes * bytes := span (fun b => byte_is b 0x20) l.

Definition starts_byte (c : Z) (l : bytes) : bool := match l with b :: _ => byte_is b c | [] => false end.

(** A line's record, or none for a blank one. *)
Definition preprocess_line (line_no : Z) (raw : bytes) : outcome YamlError (option YamlLine) :=
  stripped ← strip_comment raw;
  let trimmed := trim_end stripped in
  if is_empty (trim_start trimmed) then Ret None
  else if starts_byte 0x09 trimmed then Throw (TabIndent line_no)
  else
    let '(ws, content) := spaces trimmed in
    if starts_with "---" content || starts_with "..." content then Throw (MultiDocument line_no)
    else if starts_byte 0x26 content || starts_byte 0x2a content || starts_byte 0x21 content
    then Throw (AnchorOrTag line_no)
    else Ret (Some {| line_no := line_no; indent := len ws; content := content |}).

Fixpoint preprocess_from (n : Z) (raws : list bytes) : outcome YamlError (list YamlLine) :=
  match raws with
  | [] => Ret []
  | raw :: raws =>
      o ← preprocess_line n raw;
      rest ← preprocess_from (n + 1) raws;
      Ret (match o with Some l => l :: rest | None => rest end)
  end.
Definition preprocess_lines (body : bytes) : outcome YamlError (list YamlLine) := preprocess_from 1 (lines body).

(** ** Keys and scalars *)

Definition unquote (s : bytes) : bytes :=
  let trimmed := trim s in
  match trimmed with
  | first :: (_ :: _) as t =>
      match rev t with
      | last :: mid =>
          if (byte_is first QUOTE && byte_is last QUOTE) || (byte_is first APOSTROPHE && byte_is last APOSTROPHE)
          then rev mid else trimmed
      | [] => trimmed
      end
  | _ => trimmed
  end.

(** The text before the first [:] outside quotes that a blank or the end
    follows, and the text after it. *)
Fixpoint find_colon (quote : option Z) (l : bytes) : option (bytes * bytes) :=
  match l with
  | [] => None
  | b :: l =>
      let keep q := match find_colon q l with Some (k, v) => Some (b :: k, v) | None => None end in
      match quote with
      | None =>
          if byte_is b QUOTE || byte_is b APOSTROPHE then keep (Some (byte.unsigned b))
          else if byte_is b 0x3a then
            if is_empty l || starts_byte 0x20 l then Some ([], l) else keep None
          else keep None
      | Some q => if byte_is b q then keep None else keep (Some q)
      end
  end.
Definition try_split_key (content : bytes) : option (bytes * bytes) :=
  match find_colon None content with
  | Some (k, after) => Some (unquote k, trim_start after)
  | None => None
  end.
Definition split_key (content : bytes) (line_no : Z) : outcome YamlError (bytes * bytes) :=
  match try_split_key content with Some kv => Ret kv | None => Throw (ExpectedKey line_no) end.

(** ** Blocks *)

Definition is_entry (l : YamlLine) : bool := starts_with "- " (content l) || is_str (content l) "-".

Section Blocks.
(** [parse_block], at the depth below. *)
Context (parse_block : list YamlLine -> Z -> outcome YamlError (yaml * list YamlLine)).

Definition parse_value (rest : bytes) (ls : list YamlLine) (ind : Z) : outcome YamlError (yaml * list YamlLine) :=
  if is_empty rest then parse_block ls ind else Ret (Scalar (unquote rest), ls).

Fixpoint mapping_loop (n : nat) (ind : Z) (ls : list YamlLine) (out : list (bytes * yaml))
  : outcome YamlError (yaml * list YamlLine) :=
  match n with
  | O => Panic
  | S n =>
      match ls with
      | [] => Ret (Mapping out, ls)
      | line :: ls' =>
          if indent line <? ind then Ret (Mapping out, ls)
          else if ind <? indent line then Throw (UnexpectedIndent (indent line) ind (line_no line))
          else if is_entry line then Throw (EntryInMapping (line_no line))
          else
            kr ← split_key (content line) (line_no line);
            v ← parse_value kr.2 ls' (ind + 1);
            mapping_loop n ind v.2 (out ++ [(kr.1, v.1)])
      end
  end.

(** The keys of a mapping that an entry of a sequence opens, after the first. *)
Fixpoint entry_loop (n : nat) (ind : Z) (ls : list YamlLine) (out : list (bytes * yaml))
  : outcome YamlError (list (bytes * yaml) * list YamlLine) :=
  match n with
  | O => Panic
  | S n =>
      match ls with
      | [] => Ret (out, ls)
      | next :: ls' =>
          if negb (indent next =? ind) then Ret (out, ls)
          else if is_entry next then Ret (out, ls)
          else
            kr ← split_key (content next) (line_no next);
            v ← parse_value kr.2 ls' (ind + 1);
            entry_loop n ind v.2 (out ++ [(kr.1, v.1)])
      end
  end.

Definition after_dash (l : YamlLine) : bytes := if is_str (content l) "-" then [] else drop 2 (content l).

Definition parse_item (n : nat) (line : YamlLine) (ls : list YamlLine) (ind : Z)
  : outcome YamlError (yaml * list YamlLine) :=
  let rest := after_dash line in
  if is_empty rest then parse_block ls (ind + 1)
  else
    match try_split_key rest with
    | Some (key, rest) =>
        v ← parse_value rest ls (ind + 2 + 1);
        m ← entry_loop n (ind + 2) v.2 [(key, v.1)];
        Ret (Mapping m.1, m.2)
    | None => Ret (Scalar (unquote rest), ls)
    end.

Fixpoint sequence_loop (n : nat) (ind : Z) (ls : list YamlLine) (out : list yaml)
  : outcome YamlError (yaml * list YamlLine) :=
  match n with
  | O => Panic
  | S n =>
      match ls with
      | [] => Ret (Sequence out, ls)
      | line :: ls' =>
          if indent line <? ind then Ret (Sequence out, ls)
          else if ind <? indent line then Throw (UnexpectedIndent (indent line) ind (line_no line))
          else if negb (is_entry line) then Ret (Sequence out, ls)
          else
            v ← parse_item n line ls' ind;
            sequence_loop n ind v.2 (out ++ [v.1])
      end
  end.
End Blocks.

Fixpoint parse_block (fuel : nat) (ls : list YamlLine) (ind : Z) : outcome YamlError (yaml * list YamlLine) :=
  match fuel with
  | O => Panic
  | S fuel =>
      match ls with
      | [] => Ret (Scalar [], ls)
      | first :: _ =>
          if indent first <? ind then Ret (Scalar [], ls)
          else if is_entry first
          then sequence_loop (parse_block fuel) (S (length ls)) (indent first) ls []
          else mapping_loop (parse_block fuel) (S (length ls)) (indent first) ls []
      end
  end.

(** [MiniYaml::parse] *)
Definition parse_yaml (body : bytes) : outcome YamlError yaml :=
  ls ← preprocess_lines body;
  r ← parse_block (S (length ls)) ls 0;
  match r.2 with
  | [] => Ret r.1
  | l :: _ => Throw (StoppedEarly (line_no l))
  end.
