(* ===== verification/MiniYamlOk.v ===== *)
(** The YAML subset (MiniYaml.v): parsing ends; a printer of documents, with
    quoted keys and scalars and blocks two columns deeper; and the proof that
    the parser reads back the document it prints. *)

From Stdlib Require Import Strings.String.
From stdpp Require Import list.
From S2P Require Import Schema.
From S2P Require Import Text.
From S2P Require Import DParse.
From S2P Require Import MiniYaml.
From S2P Require Import Prelude.

Local Open Scope Z_scope.
Local Open Scope list_scope.

(** ** Parsing ends *)

(** A step that does not panic and leaves at most [k] lines. *)
Definition leaves {A} (k : nat) (m : outcome YamlError (A * list YamlLine)) : Prop :=
  match m with Ret r => (length r.2 <= k)%nat | Throw _ => True | Panic => False end.

Lemma leaves_bind {A B} k j (m : outcome YamlError (A * list YamlLine)) (f : _ -> outcome YamlError (B * list YamlLine)) :
  leaves k m -> (forall r, (length r.2 <= k)%nat -> leaves j (f r)) -> leaves j (m ≫= f).
Proof. destruct m as [r|e|]; cbn [leaves]; [|done..]. intros Hr H. rewrite bind_Ret. by apply H. Qed.

Lemma leaves_key {B} k content n (f : _ -> outcome YamlError (B * list YamlLine)) :
  (forall kr, leaves k (f kr)) -> leaves k (split_key content n ≫= f).
Proof. intros H. unfold split_key. destruct (try_split_key content); [apply H|done]. Qed.

Lemma leaves_le {A} j k (m : outcome YamlError (A * list YamlLine)) : (j <= k)%nat -> leaves j m -> leaves k m.
Proof. intros H. destruct m; cbn; [lia|done..]. Qed.

Section Ends.
Context (pb : list YamlLine -> Z -> outcome YamlError (yaml * list YamlLine)) (fuel : nat).
Context (Hpb : forall ls ind, (length ls < fuel)%nat -> leaves (length ls) (pb ls ind)).

Lemma value_leaves rest ls ind : (length ls < fuel)%nat -> leaves (length ls) (parse_value pb rest ls ind).
Proof. intros H. unfold parse_value. destruct (is_empty rest); [by apply Hpb|cbn; lia]. Qed.

Lemma mapping_leaves n : forall ind ls out, (length ls < n)%nat -> (length ls <= fuel)%nat ->
  leaves (length ls) (mapping_loop pb n ind ls out).
Proof.
  induction n as [|n IH]; intros ind ls out Hn Hf; [lia|]. cbn [mapping_loop].
  destruct ls as [|l ls]; [cbn; lia|]. cbn [length] in *.
  destruct (indent l <? ind); [cbn; lia|]. destruct (ind <? indent l); [done|]. destruct (is_entry l); [done|].
  apply leaves_key. intros kr. eapply leaves_bind; [apply value_leaves; lia|]. intros v Hv.
  eapply leaves_le; [|apply IH]; lia.
Qed.

Lemma entry_leaves n : forall ind ls out, (length ls < n)%nat -> (length ls <= fuel)%nat ->
  leaves (length ls) (entry_loop pb n ind ls out).
Proof.
  induction n as [|n IH]; intros ind ls out Hn Hf; [lia|]. cbn [entry_loop].
  destruct ls as [|l ls]; [cbn; lia|]. cbn [length] in *.
  destruct (negb (indent l =? ind)); [cbn; lia|]. destruct (is_entry l); [cbn; lia|].
  apply leaves_key. intros kr. eapply leaves_bind; [apply value_leaves; lia|]. intros v Hv.
  eapply leaves_le; [|apply IH]; lia.
Qed.

Lemma item_leaves n line ls ind : (length ls < n)%nat -> (length ls < fuel)%nat ->
  leaves (length ls) (parse_item pb n line ls ind).
Proof.
  intros Hn Hf. unfold parse_item. destruct (is_empty (after_dash line)); [by apply Hpb|].
  destruct (try_split_key (after_dash line)) as [[key rest]|]; [|cbn; lia].
  eapply leaves_bind; [by apply value_leaves|]. intros v Hv.
  eapply leaves_bind; [apply entry_leaves; lia|]. intros m Hm. cbn. lia.
Qed.

Lemma sequence_leaves n : forall ind ls out, (length ls <= n)%nat -> (length ls <= fuel)%nat ->
  leaves (length ls) (sequence_loop pb (S n) ind ls out).
Proof.
  induction n as [|n IH]; intros ind ls out Hn Hf; cbn [sequence_loop].
  { destruct ls; [cbn; lia|cbn in Hn; lia]. }
  destruct ls as [|l ls]; [cbn; lia|]. cbn [length] in *.
  destruct (indent l <? ind); [cbn; lia|]. destruct (ind <? indent l); [done|].
  destruct (negb (is_entry l)); [cbn; lia|].
  eapply leaves_bind; [apply item_leaves; lia|]. intros v Hv.
  eapply leaves_le; [|apply IH]; lia.
Qed.
End Ends.

Lemma parse_block_leaves fuel : forall ls ind, (length ls < fuel)%nat -> leaves (length ls) (parse_block fuel ls ind).
Proof.
  induction fuel as [|fuel IH]; intros ls ind H; [lia|]. cbn [parse_block].
  destruct ls as [|l ls]; [cbn; lia|]. destruct (indent l <? ind); [cbn; lia|].
  destruct (is_entry l).
  - apply (sequence_leaves _ _ IH); lia.
  - apply (mapping_leaves _ _ IH); lia.
Qed.

Lemma strip_no_panic l : forall q, strip_comment_from q l <> Panic.
Proof.
  induction l as [|b l IH]; intros [q|]; cbn [strip_comment_from]; [done..| |].
  - destruct (strip_comment_from (if byte_is b q then None else Some q) l) eqn:E; [done..|by apply IH in E].
  - destruct (byte_is b 0x23); [done|].
    destruct (strip_comment_from (if byte_is b QUOTE || byte_is b APOSTROPHE then _ else None) l) eqn:E; [done..|by apply IH in E].
Qed.

Lemma preprocess_no_panic raws : forall n, preprocess_from n raws <> Panic.
Proof.
  induction raws as [|r raws IH]; intros n; [done|]. cbn [preprocess_from].
  assert (H : preprocess_line n r <> Panic).
  { unfold preprocess_line. destruct (strip_comment r) as [s|e|] eqn:E; [|done|by apply strip_no_panic in E].
    rewrite bind_Ret. destruct (is_empty _); [done|]. destruct (starts_byte _ _); [done|].
    destruct (spaces (trim_end s)) as [ws c]. by repeat case_match. }
  destruct (preprocess_line n r) as [o|e|]; [|done..]. rewrite bind_Ret.
  destruct (preprocess_from (n + 1) raws) eqn:E; [by rewrite bind_Ret|done|by apply IH in E].
Qed.

(** A plan file is parsed to its end or refused with a message: the loops
    over its lines end, and no line is looked at past the last. *)
Theorem parse_yaml_ends body : parse_yaml body <> Panic.
Proof.
  unfold parse_yaml. destruct (preprocess_lines body) as [ls|e|] eqn:E; [|done|by apply preprocess_no_panic in E].
  rewrite bind_Ret. pose proof (parse_block_leaves (S (length ls)) ls 0) as H.
  destruct (parse_block (S (length ls)) ls 0) as [[y r]|e|]; [|done|by destruct H; lia].
  rewrite bind_Ret. by destruct r.
Qed.

(** ** The printer *)

Definition DQ : Init.Byte.byte := u8b 0x22.
Definition KEY_END : Init.Byte.byte := u8b 0x3a.
Definition DASH : Init.Byte.byte := u8b 0x2d.

Definition quoted (s : bytes) : bytes := DQ :: s ++ [DQ].

(** What follows the key of a scalar, or of a block below it. *)
Definition after_text (v : yaml) : bytes := match v with Scalar s => quoted s | _ => [] end.
Definition field_text (k : bytes) (v : yaml) : bytes :=
  quoted k ++ KEY_END :: match v with Scalar s => SP :: quoted s | _ => [] end.

(** The first of the lines moved under a dash. *)
Definition dash (ind : Z) (ls : list (Z * bytes)) : list (Z * bytes) :=
  match ls with (_, c) :: ls => (ind, DASH :: SP :: c) :: ls | [] => [] end.

(** The lines of a block, as indentation and content. *)
Fixpoint print_block (ind : Z) (y : yaml) : list (Z * bytes) :=
  match y with
  | Scalar _ => []
  | Mapping m => flat_map (fun kv => (ind, field_text kv.1 kv.2) :: print_block (ind + 2) kv.2) m
  | Sequence l =>
      flat_map (fun v =>
        match v with
        | Scalar s => [(ind, DASH :: SP :: quoted s)]
        | Mapping _ => dash ind (print_block (ind + 2) v)
        | Sequence _ => (ind, [DASH]) :: print_block (ind + 2) v
        end) l
  end.

Definition line_text (l : Z * bytes) : bytes := repeat SP (Z.to_nat l.1) ++ l.2 ++ [NL].
Definition print_yaml (y : yaml) : bytes := flat_map line_text (print_block 0 y).

(** Documents the format can carry: no string with a quote or a line feed, no
    empty block. *)
Definition printable_str (s : bytes) : bool := forallb (fun b => negb (byte_is b QUOTE) && negb (byte_is b 0x0a)) s.
Fixpoint printable (y : yaml) : bool :=
  match y with
  | Scalar s => printable_str s
  | Mapping m => negb (match m with [] => true | _ => false end) && forallb (fun kv => printable_str kv.1 && printable kv.2) m
  | Sequence l => negb (match l with [] => true | _ => false end) && forallb printable l
  end.
Definition is_block (y : yaml) : bool := match y with Scalar _ => false | _ => true end.

(** ** Keys and scalars *)

Lemma not_white_end x l : x ∈ [DQ; KEY_END; DASH] -> trim_end (l ++ [x]) = l ++ [x].
Proof.
  intros H. unfold trim_end. rewrite rev_app_distr. cbn [rev app length]. rewrite length_app.
  replace (length l + length [x])%nat with (S (length l)) by (cbn; lia). cbn [trim_with].
  assert (E : strip_one (map (@rev _) white_chars) (x :: rev l) = None).
  { repeat (apply elem_of_cons in H as [-> | H]; [reflexivity|]). by apply elem_of_nil in H. }
  rewrite E. cbn [rev]. by rewrite rev_involutive.
Qed.

Lemma not_white_start x l : x ∈ [DQ; DASH] -> strip_one white_chars (x :: l) = None.
Proof. intros H. repeat (apply elem_of_cons in H as [-> | H]; [reflexivity|]). by apply elem_of_nil in H. Qed.

Lemma trim_spaces n c : strip_one white_chars c = None -> trim_start (repeat SP n ++ c) = c.
Proof.
  intros H. unfold trim_start.
  assert (G : forall k m, (m <= k)%nat -> trim_with k white_chars (repeat SP m ++ c) = c).
  { induction k as [|k IH]; intros m Hm.
    - by replace m with 0%nat by lia.
    - destruct m as [|m]; cbn [repeat app trim_with]; [by rewrite H|].
      change (strip_one white_chars (SP :: repeat SP m ++ c)) with (Some (repeat SP m ++ c)). apply IH. lia. }
  apply G. rewrite length_app, repeat_length. lia.
Qed.

Lemma quoted_snoc s : quoted s = (DQ :: s) ++ [DQ].
Proof. done. Qed.

Lemma trim_quoted s : trim (quoted s) = quoted s.
Proof.
  unfold trim. pose proof (trim_spaces 0 (quoted s)) as E. cbn [repeat app] in E.
  rewrite E by (apply not_white_start; by left). apply (not_white_end DQ (DQ :: s)). by left.
Qed.

Lemma unquote_quoted s : unquote (quoted s) = s.
Proof.
  unfold unquote. rewrite trim_quoted. unfold quoted. destruct (s ++ [DQ]) as [|b l] eqn:E; [by destruct s|].
  rewrite <- E, rev_app_distr. cbn [rev app].
  change (byte_is DQ QUOTE && byte_is DQ QUOTE || byte_is DQ APOSTROPHE && byte_is DQ APOSTROPHE) with true.
  cbv iota. apply rev_involutive.
Qed.

Lemma find_colon_inside k l : printable_str k = true ->
  find_colon (Some QUOTE) (k ++ DQ :: l)
  = match find_colon None l with Some (a, v) => Some (k ++ DQ :: a, v) | None => None end.
Proof.
  induction k as [|b k IH]; intros H.
  - cbn [app find_colon]. by destruct (find_colon None l) as [[a v]|].
  - cbn [printable_str forallb] in H. apply andb_prop in H as [H1 H2]. apply andb_prop in H1 as [H1 _].
    cbn [app find_colon]. destruct (byte_is b QUOTE); [done|]. rewrite IH by done.
    by destruct (find_colon None l) as [[a v]|].
Qed.

Lemma find_colon_quoted k l : printable_str k = true ->
  find_colon None (quoted k ++ l)
  = match find_colon None l with Some (a, v) => Some (quoted k ++ a, v) | None => None end.
Proof.
  intros H. unfold quoted. rewrite <- !app_comm_cons, <- app_assoc. cbn [app find_colon].
  change (byte.unsigned DQ) with QUOTE. change (byte_is DQ QUOTE || byte_is DQ APOSTROPHE) with true. cbv iota.
  rewrite find_colon_inside by done. destruct (find_colon None l) as [[a v]|]; [|done].
  by rewrite <- app_assoc.
Qed.

Lemma quoted_no_key s : printable_str s = true -> try_split_key (quoted s) = None.
Proof.
  intros H. unfold try_split_key. rewrite <- (app_nil_r (quoted s)), find_colon_quoted by done. done.
Qed.

Lemma field_splits k v : printable_str k = true -> try_split_key (field_text k v) = Some (k, after_text v).
Proof.
  intros H. unfold try_split_key, field_text. rewrite find_colon_quoted by done.
  assert (U : unquote (quoted k ++ []) = k) by (rewrite app_nil_r; apply unquote_quoted).
  destruct v as [s| |]; cbn [after_text].
  - change (find_colon None (KEY_END :: SP :: quoted s)) with (Some ([] : bytes, SP :: quoted s)).
    cbv beta iota. rewrite U. pose proof (trim_spaces 1 (quoted s)) as T. cbn [repeat app] in T. by rewrite T by (apply not_white_start; by left).
  - change (find_colon None [KEY_END]) with (Some ([] : bytes, [] : bytes)). cbv beta iota. by rewrite U.
  - change (find_colon None [KEY_END]) with (Some ([] : bytes, [] : bytes)). cbv beta iota. by rewrite U.
Qed.

(** ** Blocks *)

Definition shape (l : YamlLine) : Z * bytes := (indent l, content l).

(** The lines after a block begin to its left. *)
Definition rest_below (ind : Z) (rest : list YamlLine) : Prop :=
  match rest with [] => True | l :: _ => indent l < ind end.

Lemma rest_below_le i j rest : i <= j -> rest_below i rest -> rest_below j rest.
Proof. destruct rest; cbn; lia. Qed.

(** What [parse_block] does to the lines of a block. *)
Definition block_back (y : yaml) : Prop :=
  forall ind m ls rest fuel,
    is_block y = true -> map shape ls = print_block ind y -> m <= ind -> rest_below ind rest -> (length ls < fuel)%nat ->
    parse_block fuel (ls ++ rest) m = Ret (y, rest).

Definition fields (ind : Z) (m : list (bytes * yaml)) : list (Z * bytes) :=
  flat_map (fun kv => (ind, field_text kv.1 kv.2) :: print_block (ind + 2) kv.2) m.
Definition item_lines (ind : Z) (v : yaml) : list (Z * bytes) :=
  match v with
  | Scalar s => [(ind, DASH :: SP :: quoted s)]
  | Mapping m => dash ind (fields (ind + 2) m)
  | Sequence l => (ind, [DASH]) :: print_block (ind + 2) v
  end.

Definition field_ok (kv : bytes * yaml) : Prop := printable_str kv.1 = true /\ printable kv.2 = true /\ block_back kv.2.

Lemma value_back v : block_back v -> forall c ls rest fuel,
  map shape ls = print_block (c + 2) v -> rest_below (c + 1) rest -> (length ls < fuel)%nat ->
  parse_value (parse_block fuel) (after_text v) (ls ++ rest) (c + 1) = Ret (v, rest).
Proof.
  intros Hv c ls rest fuel Hls Hr Hf. unfold parse_value. destruct v as [s|l|m]; cbn [after_text is_empty].
  - apply map_eq_nil in Hls. subst ls. cbn [quoted is_empty app]. change (DQ :: s ++ [DQ]) with (quoted s). by rewrite unquote_quoted.
  - apply (Hv (c + 2)); [done|done|lia| |done]. eapply rest_below_le; [|done]. lia.
  - apply (Hv (c + 2)); [done|done|lia| |done]. eapply rest_below_le; [|done]. lia.
Qed.

(** The lines of one field in front of others. *)
Lemma field_lines kv m c ls : map shape ls = fields c (kv :: m) ->
  exists l nested ls', ls = l :: nested ++ ls' /\ indent l = c /\ content l = field_text kv.1 kv.2
    /\ map shape nested = print_block (c + 2) kv.2 /\ map shape ls' = fields c m.
Proof.
  unfold fields. cbn [flat_map]. rewrite <- app_comm_cons. destruct ls as [|l ls]; [done|]. cbn [map]. intros [= H1 H2 H3].
  apply map_eq_app in H3 as (a & b & -> & H4 & H5). by exists l, a, b.
Qed.

Lemma field_no_entry l kv : content l = field_text kv.1 kv.2 -> is_entry l = false.
Proof. intros E. unfold is_entry. rewrite E. apply orb_false_intro; [done|]. unfold is_str. by apply bool_decide_false. Qed.

Lemma field_key l kv : printable_str kv.1 = true -> content l = field_text kv.1 kv.2 ->
  split_key (content l) (line_no l) = Ret (kv.1, after_text kv.2).
Proof. intros H E. unfold split_key. by rewrite E, field_splits. Qed.

Lemma fields_below c m ls rest : map shape ls = fields c m -> rest_below (c + 1) rest -> rest_below (c + 1) (ls ++ rest).
Proof.
  intros H Hr. destruct m as [|kv m]; [apply map_eq_nil in H; by subst ls|].
  apply field_lines in H as (l & n & ls' & -> & <- & _). cbn. lia.
Qed.

Lemma entry_back fuel c m : Forall field_ok m -> forall n ls rest out,
  map shape ls = fields c m -> rest_below c rest -> (length ls < n)%nat -> (length ls <= fuel)%nat ->
  entry_loop (parse_block fuel) n c (ls ++ rest) out = Ret (out ++ m, rest).
Proof.
  induction 1 as [|kv m (Hk & _ & Hv) Hm IH]; intros n ls rest out Hls Hr Hn Hf.
  { apply map_eq_nil in Hls. subst ls. destruct n; [cbn in Hn; lia|]. cbn [app entry_loop]. rewrite app_nil_r.
    destruct rest as [|l rest]; [done|]. cbn in Hr. destruct (Z.eqb_spec (indent l) c) as [?|_]; [lia|done]. }
  apply field_lines in Hls as (l & nested & ls' & -> & <- & Hc & Hnest & Hls'). destruct n; [cbn in Hn; lia|].
  cbn [app length] in *. rewrite length_app in *. cbn [entry_loop]. rewrite Z.eqb_refl, (field_no_entry l kv) by done.
  cbn [negb]. rewrite (field_key l kv) by done. rewrite bind_Ret. cbn [fst snd]. rewrite <- app_assoc.
  rewrite value_back; [|done|done| |lia]; [|eapply fields_below; [done|]; eapply rest_below_le; [|done]; lia].
  rewrite bind_Ret. cbn [fst snd]. rewrite IH by (try done; lia). rewrite <- app_assoc. by destruct kv.
Qed.

Lemma mapping_back fuel c m : Forall field_ok m -> forall n ls rest out,
  map shape ls = fields c m -> rest_below c rest -> (length ls < n)%nat -> (length ls <= fuel)%nat ->
  mapping_loop (parse_block fuel) n c (ls ++ rest) out = Ret (Mapping (out ++ m), rest).
Proof.
  induction 1 as [|kv m (Hk & _ & Hv) Hm IH]; intros n ls rest out Hls Hr Hn Hf.
  { apply map_eq_nil in Hls. subst ls. destruct n; [cbn in Hn; lia|]. cbn [app mapping_loop]. rewrite app_nil_r.
    destruct rest as [|l rest]; [done|]. cbn in Hr. by destruct (Z.ltb_spec (indent l) c); [|lia]. }
  apply field_lines in Hls as (l & nested & ls' & -> & <- & Hc & Hnest & Hls'). destruct n; [cbn in Hn; lia|].
  cbn [app length] in *. rewrite length_app in *. cbn [mapping_loop]. rewrite Z.ltb_irrefl, (field_no_entry l kv) by done.
  rewrite (field_key l kv) by done. rewrite bind_Ret. cbn [fst snd]. rewrite <- app_assoc.
  rewrite value_back; [|done|done| |lia]; [|eapply fields_below; [done|]; eapply rest_below_le; [|done]; lia].
  rewrite bind_Ret. cbn [fst snd]. rewrite IH by (try done; lia). rewrite <- app_assoc. by destruct kv.
Qed.

(** A sequence's element reads back when it is a scalar, a block on the lines
    below, or a mapping whose fields do. *)
Definition item_ok (v : yaml) : Prop :=
  printable v = true /\
  match v with
  | Scalar _ => True
  | Mapping m => m <> [] /\ Forall field_ok m
  | Sequence _ => block_back v
  end.

Lemma item_back fuel v l ls rest ind n :
  item_ok v -> map shape (l :: ls) = item_lines ind v -> rest_below (ind + 1) rest ->
  (length (ls ++ rest) < n)%nat -> (length ls < fuel)%nat ->
  indent l = ind /\ is_entry l = true /\ parse_item (parse_block fuel) n l (ls ++ rest) ind = Ret (v, rest).
Proof.
  intros [Hp Hv] Hls Hr Hn Hf. unfold parse_item, after_dash, is_entry.
  destruct v as [s|sub|m]; cbn [item_lines] in Hls.
  - cbn [map] in Hls. injection Hls as Hi Hc Hls. apply map_eq_nil in Hls. subst ls. rewrite Hc. split_and!; [done..|].
    change (is_str (DASH :: SP :: quoted s) "-") with false. cbn [drop is_empty quoted].
    change (DQ :: s ++ [DQ]) with (quoted s). by rewrite quoted_no_key, unquote_quoted.
  - cbn [map] in Hls. injection Hls as Hi Hc Hls. rewrite Hc. split_and!; [done..|].
    change (is_str [DASH] "-") with true. cbn [is_empty]. apply (Hv (ind + 2)); [done|done|lia| |done].
    eapply rest_below_le; [|done]. lia.
  - destruct Hv as [Hne Hv]. destruct m as [|kv m]; [done|]. unfold fields in Hls. cbn [flat_map] in Hls.
    rewrite <- app_comm_cons in Hls. cbn [dash map] in Hls. injection Hls as Hi Hc Hls.
    apply list.Forall_cons in Hv as [(Hk & _ & Hv) Hm]. apply map_eq_app in Hls as (a & b & -> & Ha & Hb).
    rewrite Hc. split_and!; [done..|].
    assert (S : is_str (DASH :: SP :: field_text kv.1 kv.2) "-" = false) by (apply bool_decide_false; done).
    rewrite S. cbn [drop]. rewrite drop_0. assert (N : is_empty (field_text kv.1 kv.2) = false) by done. rewrite N, field_splits by done.
    rewrite length_app in Hf. rewrite <- app_assoc. replace (ind + 2 + 1) with ((ind + 2) + 1) by lia.
    rewrite value_back; [|done|done| |lia].
    + rewrite bind_Ret. cbn [fst snd]. rewrite (entry_back _ _ m); [|done|done| | |lia].
      * rewrite bind_Ret. cbn [fst snd app]. by destruct kv.
      * eapply rest_below_le; [|done]. lia.
      * rewrite !length_app in Hn. lia.
    + eapply fields_below; [done|]. eapply rest_below_le; [|done]. lia.
Qed.

Lemma print_sequence ind l : print_block ind (Sequence l) = flat_map (item_lines ind) l.
Proof. cbn [print_block]. apply flat_map_ext. by intros [s|l'|m]. Qed.

(** The lines of one element in front of others. *)
Lemma items_lines ind v vs ls : item_ok v -> map shape ls = flat_map (item_lines ind) (v :: vs) ->
  exists l nested ls', ls = (l :: nested) ++ ls' /\ map shape (l :: nested) = item_lines ind v
    /\ map shape ls' = flat_map (item_lines ind) vs.
Proof.
  intros Hv H. cbn [flat_map] in H. apply map_eq_app in H as (a & b & -> & Ha & Hb).
  destruct a as [|l a]; [|by exists l, a, b]. exfalso. destruct Hv as [_ Hv]. destruct v as [| |m]; [done..|].
  destruct Hv as [Hne _]. by destruct m.
Qed.

Lemma items_below ind vs ls rest :
  Forall item_ok vs -> map shape ls = flat_map (item_lines ind) vs -> rest_below (ind + 1) rest ->
  rest_below (ind + 1) (ls ++ rest).
Proof.
  intros Hv Hls Hr. destruct vs as [|v vs]; [apply map_eq_nil in Hls; by subst ls|].
  apply list.Forall_cons in Hv as [Hv _]. apply items_lines in Hls as (l & n & ls' & -> & H & _); [|done].
  cbn [app rest_below]. destruct v as [|s|m]; cbn [map item_lines] in H; try (injection H as Hi _; lia).
  destruct m as [|kv m]; [by destruct Hv as [_ [? _]]|]. unfold fields in H. cbn [flat_map] in H.
  rewrite <- app_comm_cons in H. cbn [dash] in H. injection H as Hi _. lia.
Qed.

Lemma sequence_back fuel ind vs : Forall item_ok vs -> forall n ls rest out,
  map shape ls = flat_map (item_lines ind) vs -> rest_below ind rest -> (length (ls ++ rest) < n)%nat ->
  (length ls <= fuel)%nat ->
  sequence_loop (parse_block fuel) n ind (ls ++ rest) out = Ret (Sequence (out ++ vs), rest).
Proof.
  induction 1 as [|v vs Hv Hvs IH]; intros n ls rest out Hls Hr Hn Hf.
  { apply map_eq_nil in Hls. subst ls. destruct n; [cbn in Hn; lia|]. cbn [app sequence_loop]. rewrite app_nil_r.
    destruct rest as [|l rest]; [done|]. cbn in Hr. by destruct (Z.ltb_spec (indent l) ind); [|lia]. }
  apply items_lines in Hls as (l & nested & ls' & -> & Hl & Hls'); [|done]. destruct n; [cbn in Hn; lia|].
  cbn [app length] in *. rewrite !length_app in *. cbn [sequence_loop]. rewrite <- app_assoc.
  edestruct (item_back fuel v l nested (ls' ++ rest) ind n) as (Hi & He & Hp); [done|done| | |lia|].
  { eapply items_below; [done..|]. eapply rest_below_le; [|done]. lia. }
  { rewrite !length_app. lia. }
  rewrite Hi, Z.ltb_irrefl, He, Hp. cbn [negb]. rewrite bind_Ret. cbn [fst snd].
  rewrite IH by (rewrite ?length_app; (done || lia)). by rewrite <- app_assoc.
Qed.

(** Induction on a document and on what it holds. *)
Lemma yaml_ind' (P : yaml -> Prop) :
  (forall s, P (Scalar s)) -> (forall l, Forall P l -> P (Sequence l)) ->
  (forall m, Forall (fun kv => P kv.2) m -> P (Mapping m)) -> forall y, P y.
Proof.
  intros Hs Hl Hm. fix IH 1. intros [s|l|m]; [apply Hs|apply Hl|apply Hm].
  - induction l; constructor; [apply IH|done].
  - induction m; constructor; [apply IH|done].
Qed.

Lemma mapping_fields m : printable (Mapping m) = true -> Forall (fun kv => printable kv.2 = true -> block_back kv.2) m ->
  m <> [] /\ Forall field_ok m.
Proof.
  cbn [printable]. intros [H1 H2]%andb_prop Hm. split; [by destruct m|]. rewrite forallb_forall in H2.
  apply list.Forall_forall. intros kv Hin. apply list_elem_of_In in Hin as Hin'. apply H2, andb_prop in Hin' as [? ?].
  rewrite list.Forall_forall in Hm. split_and!; [done..|]. by apply Hm.
Qed.

Lemma block_back_all y :
  printable y = true ->
  block_back y /\ match y with Mapping m => Forall field_ok m | _ => True end.
Proof.
  induction y as [s|l IH|m IH] using yaml_ind'; intros Hp.
  - split; [|done]. intros ind mi ls rest fuel Hb. done.
  - split; [|done]. intros ind mi ls rest fuel _ Hls Hi Hr Hf. cbn [printable] in Hp. apply andb_prop in Hp as [Hne Hp].
    assert (Hok : Forall item_ok l).
    { rewrite forallb_forall in Hp. apply list.Forall_forall. intros v Hv. rewrite list.Forall_forall in IH.
      assert (Pv : printable v = true) by (by apply Hp, list_elem_of_In). destruct (IH v Hv Pv) as [H1 H2].
      split; [done|]. destruct v as [|l'|m]; [done..|]. split; [|done]. by destruct m. }
    rewrite print_sequence in Hls.
    destruct l as [|v l]; [done|]. destruct fuel as [|fuel]; [lia|]. apply list.Forall_cons in Hok as Hok'. destruct Hok' as [Hv _].
    pose proof (items_lines ind v l ls Hv Hls) as (line & nested & ls' & E & Hl & Hls').
    assert (B : indent line = ind /\ is_entry line = true).
    { destruct v as [s|sub|m]; cbn [map item_lines] in Hl.
      - injection Hl as H1 H2 _. split; [done|]. unfold is_entry. by rewrite H2.
      - injection Hl as H1 H2 _. split; [done|]. unfold is_entry. by rewrite H2.
      - destruct m as [|kv m]; [done|]. unfold fields in Hl. cbn [flat_map] in Hl. rewrite <- app_comm_cons in Hl.
        cbn [dash] in Hl. injection Hl as H1 H2 _. split; [done|]. unfold is_entry. by rewrite H2. }
    destruct B as [Bi Be]. cbn [parse_block]. rewrite E at 1. cbn [app]. rewrite Bi, Be.
    destruct (Z.ltb_spec ind mi); [lia|]. apply (sequence_back fuel ind (v :: l)); [done|done|done| |]; lia.
  - assert (Hm : Forall (fun kv => printable kv.2 = true -> block_back kv.2) m).
    { eapply list.Forall_impl; [done|]. intros kv H Hk. by destruct (H Hk). }
    destruct (mapping_fields m Hp Hm) as [Hne Hok]. split; [|done]. intros ind mi ls rest fuel _ Hls Hi Hr Hf.
    change (print_block ind (Mapping m)) with (fields ind m) in Hls. destruct m as [|kv m]; [done|].
    destruct fuel as [|fuel]; [lia|]. pose proof (field_lines kv m ind ls Hls) as (l & nested & ls' & E & Bi & Hc & _ & _).
    cbn [parse_block]. rewrite E at 1. cbn [app]. rewrite Bi, (field_no_entry l kv) by done.
    destruct (Z.ltb_spec ind mi); [lia|]. apply (mapping_back fuel ind (kv :: m)); [done|done|done| |lia]. rewrite length_app. lia.
Qed.

(** ** Lines *)

Record content_ok (c : bytes) : Prop := {
  c_one_line : Forall (fun b => negb (byte_is b 0x0a) = true) c;
  c_no_comment : strip_comment c = Ret c;
  c_end : exists l x, c = l ++ [x] /\ x ∈ [DQ; KEY_END; DASH];
  c_start : match c with
            | [x] => x = DASH
            | x :: y :: _ => x = DQ \/ (x = DASH /\ y = SP)
            | [] => False
            end
}.

Lemma strip_inside k l : printable_str k = true ->
  strip_comment_from (Some QUOTE) (k ++ DQ :: l)
  = match strip_comment_from None l with Ret r => Ret (k ++ DQ :: r) | Throw e => Throw e | Panic => Panic end.
Proof.
  induction k as [|b k IH]; intros H.
  - cbn [app strip_comment_from]. change (byte_is DQ QUOTE) with true. cbv iota. by destruct (strip_comment_from None l).
  - cbn [printable_str forallb] in H. apply andb_prop in H as [H1 H2]. apply andb_prop in H1 as [H1 _].
    cbn [app strip_comment_from]. destruct (byte_is b QUOTE); [done|]. rewrite IH by done.
    by destruct (strip_comment_from None l).
Qed.

Lemma comment_quoted k l : printable_str k = true -> strip_comment l = Ret l ->
  strip_comment (quoted k ++ l) = Ret (quoted k ++ l).
Proof.
  intros H Hl. unfold strip_comment, quoted in *. rewrite <- !app_comm_cons, <- app_assoc. cbn [app].
  cbn [strip_comment_from]. change (byte_is DQ 0x23) with false. change (byte.unsigned DQ) with QUOTE.
  change (byte_is DQ QUOTE || byte_is DQ APOSTROPHE) with true. cbv iota. rewrite strip_inside by done. by rewrite Hl.
Qed.

(** A byte outside quotes that opens none. *)
Lemma comment_plain x l : x ∈ [SP; KEY_END; DASH] -> strip_comment l = Ret l -> strip_comment (x :: l) = Ret (x :: l).
Proof.
  intros H Hl. unfold strip_comment in *.
  assert (E : byte_is x 0x23 = false /\ byte_is x QUOTE || byte_is x APOSTROPHE = false).
  { repeat (apply elem_of_cons in H as [-> | H]; [done|]). by apply elem_of_nil in H. }
  destruct E as [E1 E2]. cbn [strip_comment_from]. by rewrite E1, E2, Hl.
Qed.

Lemma printable_line s : printable_str s = true -> Forall (fun b => negb (byte_is b 0x0a) = true) (quoted s).
Proof.
  intros H. unfold quoted. constructor; [done|]. apply list.Forall_app_2; [|by constructor].
  apply list.Forall_forall. intros b Hb. unfold printable_str in H. rewrite forallb_forall in H.
  by apply list_elem_of_In, H, andb_prop in Hb as [_ ?].
Qed.

Lemma strip_scalar s : printable_str s = true -> strip_comment (quoted s) = Ret (quoted s).
Proof. intros H. rewrite <- (app_nil_r (quoted s)). by apply comment_quoted. Qed.

Lemma field_content k v : printable_str k = true -> printable v = true -> content_ok (field_text k v).
Proof.
  intros Hk Hv. unfold field_text. split.
  - apply list.Forall_app_2; [by apply printable_line|]. constructor; [done|]. destruct v; [|constructor..].
    constructor; [done|]. by apply printable_line.
  - apply comment_quoted; [done|]. apply comment_plain; [by right; left|]. destruct v; [|done..].
    apply comment_plain; [by left|]. by apply strip_scalar.
  - destruct v as [s| |]; [|by exists (quoted k), KEY_END; split; [|right; left]..].
    exists (quoted k ++ KEY_END :: SP :: DQ :: s), DQ. split; [|by left]. by rewrite <- app_assoc.
  - cbn [quoted app]. destruct ((k ++ [DQ]) ++ _) eqn:E; [by destruct k|]. by left.
Qed.

Lemma dash_content c : content_ok c -> content_ok (DASH :: SP :: c).
Proof.
  intros [H1 H2 (l & x & -> & H3) H4]. split.
  - by repeat constructor.
  - apply comment_plain; [by right; right; left|]. by apply comment_plain; [left|].
  - by exists (DASH :: SP :: l), x.
  - by right.
Qed.

Lemma scalar_content s : printable_str s = true -> content_ok (DASH :: SP :: quoted s).
Proof.
  intros H. apply dash_content. split.
  - by apply printable_line.
  - by apply strip_scalar.
  - exists (DQ :: s), DQ. split; [done|by left].
  - unfold quoted. destruct (s ++ [DQ]) eqn:E; [by destruct s|]. by left.
Qed.

Lemma dash_only_content : content_ok [DASH].
Proof. split; [by repeat constructor|done|by exists [], DASH; split; [|right; right; left]|done]. Qed.

Definition printed_ok (l : Z * bytes) : Prop := 0 <= l.1 /\ content_ok l.2.

Lemma block_content y : printable y = true -> forall ind, 0 <= ind -> Forall printed_ok (print_block ind y).
Proof.
  induction y as [s|l IH|m IH] using yaml_ind'; intros Hp ind Hi; [constructor|..].
  - cbn [printable] in Hp. apply andb_prop in Hp as [_ Hp]. rewrite forallb_forall in Hp.
    apply list.Forall_forall. intros x Hx. apply list_elem_of_In, in_flat_map in Hx as (v & Hv & Hx).
    rewrite list.Forall_forall in IH. apply list_elem_of_In in Hx.
    pose proof (IH v (proj2 (list_elem_of_In _ _) Hv) (Hp v Hv) (ind + 2) ltac:(lia)) as IHv. specialize (Hp v Hv).
    destruct v as [s|l'|m].
    + apply list_elem_of_singleton in Hx as ->. split; [done|]. by apply scalar_content.
    + apply elem_of_cons in Hx as [-> | Hx]; [split; [done|apply dash_only_content]|]. rewrite list.Forall_forall in IHv. by apply IHv.
    + change (x ∈ dash ind (print_block (ind + 2) (Mapping m))) in Hx. remember (print_block (ind + 2) (Mapping m)) as ls eqn:E. clear E. destruct ls as [|[i c] ls]; [by apply elem_of_nil in Hx|].
      apply list.Forall_cons in IHv as [[H1 H2] IHv]. cbn [dash] in Hx. apply elem_of_cons in Hx as [-> | Hx].
      * split; [done|]. by apply dash_content.
      * rewrite list.Forall_forall in IHv. by apply IHv.
  - cbn [printable] in Hp. apply andb_prop in Hp as [_ Hp]. rewrite forallb_forall in Hp.
    apply list.Forall_forall. intros x Hx. apply list_elem_of_In, in_flat_map in Hx as (kv & Hkv & Hx).
    rewrite list.Forall_forall in IH. apply list_elem_of_In in Hx. pose proof (Hp kv Hkv) as [Hk Hv]%andb_prop.
    apply elem_of_cons in Hx as [-> | Hx]; [split; [done|by apply field_content]|].
    pose proof (IH kv (proj2 (list_elem_of_In _ _) Hkv) Hv (ind + 2) ltac:(lia)) as IHv.
    rewrite list.Forall_forall in IHv. by apply IHv.
Qed.

Lemma strip_spaces n c : strip_comment c = Ret c -> strip_comment (repeat SP n ++ c) = Ret (repeat SP n ++ c).
Proof. intros H. induction n as [|n IH]; [done|]. cbn [repeat app]. apply comment_plain; [by left|done]. Qed.

Lemma span_spaces n c : starts_byte 0x20 c = false -> spaces (repeat SP n ++ c) = (repeat SP n, c).
Proof.
  intros H. unfold spaces. apply span_app.
  - apply list.Forall_forall. intros x Hx. apply list_elem_of_In, repeat_spec in Hx. by subst.
  - by destruct c.
Qed.

Lemma line_back n ind c : 0 <= ind -> content_ok c ->
  preprocess_line n (repeat SP (Z.to_nat ind) ++ c) = Ret (Some {| line_no := n; indent := ind; content := c |}).
Proof.
  intros Hi [H1 H2 (l & x & Hx & H3) H4]. unfold preprocess_line.
  rewrite strip_spaces by done. rewrite bind_Ret. cbv zeta.
  assert (E : trim_end (repeat SP (Z.to_nat ind) ++ c) = repeat SP (Z.to_nat ind) ++ c)
    by (rewrite Hx, app_assoc; by apply not_white_end).
  rewrite E. clear E Hx H3 H2 H1.
  assert (S : exists y c', c = y :: c' /\ y ∈ [DQ; DASH]).
  { destruct c as [|y [|z c]]; [done| |]; cbn in H4.
    - subst y. exists DASH, []. split; [done|by right; left].
    - destruct H4 as [-> | [-> ->]]; eexists _, _; (split; [done|]); [by left|by right; left]. }
  destruct S as (y & c' & Ec & Hy).
  rewrite trim_spaces by (rewrite Ec; by apply not_white_start).
  assert (T : starts_byte 0x09 (repeat SP (Z.to_nat ind) ++ c) = false).
  { destruct (Z.to_nat ind); [|done]. cbn [repeat app]. rewrite Ec.
    repeat (apply elem_of_cons in Hy as [-> | Hy]; [done|]). by apply elem_of_nil in Hy. }
  rewrite T. rewrite span_spaces.
  2:{ rewrite Ec. repeat (apply elem_of_cons in Hy as [-> | Hy]; [done|]). by apply elem_of_nil in Hy. }
  rewrite Ec at 1. cbn [is_empty].
  assert (D : starts_with "---" c = false /\ starts_with "..." c = false
    /\ starts_byte 0x26 c || starts_byte 0x2a c || starts_byte 0x21 c = false).
  { clear Ec Hy. destruct c as [|z [|w c]]; cbn in H4; [done|by subst z|]. by destruct H4 as [-> | [-> ->]]. }
  destruct D as (D1 & D2 & D3). rewrite D1, D2, D3. cbn [orb]. unfold len. rewrite repeat_length, Z2Nat.id by done. done.
Qed.

Lemma lines_back ls : Forall printed_ok ls -> lines (flat_map line_text ls) = map (fun l => repeat SP (Z.to_nat l.1) ++ l.2) ls.
Proof.
  intros H. unfold lines. generalize (le_n (length (flat_map line_text ls))).
  generalize (length (flat_map line_text ls)) at 2 3 as n. revert H.
  induction ls as [|[i c] ls IH]; intros H n Hn.
  - destruct n; reflexivity.
  - apply list.Forall_cons in H as [[H1 H2] H]. cbn [fst snd] in *. cbn [flat_map] in *. rewrite length_app in Hn.
    cbn [line_text lines_fuel map fst snd] in *. unfold line_text in *. cbn [fst snd] in *.
    rewrite !length_app in Hn. cbn [length] in Hn. destruct n as [|n]; [lia|].
    rewrite <- !app_assoc. rewrite (app_assoc (repeat SP _) c). cbn [app].
    rewrite span_app; [| |done].
    + f_equal; [|apply IH; [done|lia]]. destruct H2 as [_ _ (l & x & -> & Hx) _]. unfold strip_cr.
      rewrite app_assoc, rev_app_distr. cbn [rev app].
      assert (E : byte_is x 0x0d = false) by
        (repeat (apply elem_of_cons in Hx as [-> | Hx]; [done|]); by apply elem_of_nil in Hx).
      by rewrite E.
    + apply list.Forall_app_2; [|by destruct H2]. apply list.Forall_forall. intros y Hy.
      apply list_elem_of_In, repeat_spec in Hy. by subst.
Qed.

Lemma preprocess_back ls : Forall printed_ok ls -> forall n,
  exists r, preprocess_from n (map (fun l => repeat SP (Z.to_nat l.1) ++ l.2) ls) = Ret r /\ map shape r = ls.
Proof.
  induction 1 as [|[i c] ls [H1 H2] H IH]; intros n; [by exists []|]. cbn [map preprocess_from fst snd].
  rewrite line_back by done. rewrite bind_Ret. destruct (IH (n + 1)) as (r & -> & Hr).
  eexists. split; [done|]. cbn [map]. by rewrite Hr.
Qed.

(** The parser reads back the document the printer wrote. *)
Lemma yaml_back y : printable y = true -> is_block y = true -> parse_yaml (print_yaml y) = Ret y.
Proof.
  intros Hp Hb. pose proof (block_content y Hp 0 ltac:(lia)) as Hc. unfold parse_yaml, preprocess_lines, print_yaml.
  rewrite lines_back by done. destruct (preprocess_back _ Hc 1) as (ls & -> & Hls). rewrite bind_Ret.
  destruct (block_back_all y Hp) as [H _]. rewrite <- (app_nil_r ls) at 2.
  rewrite (H 0) by (done || lia). done.
Qed.
