(* ===== verification/PlanFile.v ===== *)
(** Plan files (host/bifrost, src/plan.rs): the plan a YAML document
    describes, a printer of plans, and the proof that a plan comes back from
    its text. *)

From Stdlib Require Import Strings.String.
From stdpp Require Import list.
From S2P Require Import Schema.
From S2P Require Import Text.
From S2P Require Import DParse.
From S2P Require Import Backend.
From S2P Require Import Plan.
From S2P Require Import MiniYaml.
From S2P Require Import AggSnapshot.
From S2P Require Import MiniYamlOk.
From S2P Require Import Prelude.

Local Open Scope Z_scope.
Local Open Scope list_scope.

(** The place an error names. *)
Inductive Ctx : Type :=
| AtPlan
| AtTarget (idx : nat)
| AtField (name : string)
| AtConduit (key : bytes).

Inductive PlanFileError : Type :=
| Yaml (e : YamlError)
| Invalid (e : PlanError)
| ExpectedMapping (c : Ctx)
| ExpectedSequence (c : Ctx)
| ExpectedScalar (c : Ctx)
| UnknownPlanKey (k : bytes)
| UnknownTargetKey (k : bytes) (idx : nat)
| UnknownLauncherKey (k : bytes)
| UnknownConduitKey (k : bytes)
| MissingKey (k : string) (idx : nat)
| NotAnU32 (where_ : string) (raw : bytes)
| UnknownGuestOs (s : bytes)
| UnknownLauncher (s : bytes)
| LauncherWithoutKind
| LauncherTakesNoScript
| ConduitTwice
| ConduitEmpty.

Definition as_mapping (c : Ctx) (y : yaml) : outcome PlanFileError (list (bytes * yaml)) :=
  match y with Mapping m => Ret m | _ => Throw (ExpectedMapping c) end.
Definition as_sequence (c : Ctx) (y : yaml) : outcome PlanFileError (list yaml) :=
  match y with Sequence s => Ret s | _ => Throw (ExpectedSequence c) end.
Definition as_scalar (c : Ctx) (y : yaml) : outcome PlanFileError bytes :=
  match y with Scalar s => Ret s | _ => Throw (ExpectedScalar c) end.

(** [str::parse::<u32>] *)
Definition parse_u32 (l : bytes) : option Z :=
  let digits := match l with x :: l' => if byte_is x 0x2b then l' else l | [] => [] end in
  if forallb is_ascii_digit digits then
    match parse_u64 digits with Some v => if v <=? U32_MAX then Some v else None | None => None end
  else None.

Definition parse_guest_os (s : bytes) : outcome PlanFileError GuestOs :=
  if is_str s "linux" then Ret GLinux
  else if is_str s "freebsd" then Ret GFreeBsd
  else if is_str s "illumos" then Ret GIllumos
  else if is_str s "macos-host" then Ret GMacosHost
  else Throw (UnknownGuestOs s).

(** ** Launchers *)

Record LauncherKeys : Type := {
  lk_kind : option bytes;
  lk_script : option bytes;
  lk_args : list bytes
}.

Definition launcher_key (o : LauncherKeys) (kv : bytes * yaml) : outcome PlanFileError LauncherKeys :=
  let '(key, value) := kv in
  if is_str key "kind" then
    s ← as_scalar (AtField "launcher.kind") value;
    Ret {| lk_kind := Some s; lk_script := lk_script o; lk_args := lk_args o |}
  else if is_str key "script" then
    s ← as_scalar (AtField "launcher.script") value;
    Ret {| lk_kind := lk_kind o; lk_script := Some s; lk_args := lk_args o |}
  else if is_str key "args" then
    l ← as_sequence (AtField "launcher.args") value;
    args ← mapM (as_scalar (AtField "launcher.args[]")) l;
    Ret {| lk_kind := lk_kind o; lk_script := lk_script o; lk_args := lk_args o ++ args |}
  else Throw (UnknownLauncherKey key).

(** [for (key, value) in mapping { match key { .. } }] *)
Fixpoint fold_keys {S} (f : S -> bytes * yaml -> outcome PlanFileError S) (s : S) (m : list (bytes * yaml))
  : outcome PlanFileError S :=
  match m with
  | [] => Ret s
  | kv :: m => s ← f s kv; fold_keys f s m
  end.

Definition SMOLVM_SCRIPT : string := "host/runtime/smolvm-launch.sh".
Definition QEMU_FREEBSD_SCRIPT : string := "host/runtime/qemu-launch-freebsd.sh".

(** [LauncherSpec::from_yaml] *)
Definition launcher_from_yaml (node : yaml) : outcome PlanFileError LauncherSpec :=
  m ← as_mapping (AtField "target.launcher") node;
  o ← fold_keys launcher_key {| lk_kind := None; lk_script := None; lk_args := [] |} m;
  match lk_kind o with
  | Some k =>
      if is_str k "attach" then Ret Attach
      else if is_str k "smolvm" then Ret (Smolvm (default (str SMOLVM_SCRIPT) (lk_script o)) (lk_args o))
      else if is_str k "qemu-freebsd"
      then Ret (QemuFreebsd (default (str QEMU_FREEBSD_SCRIPT) (lk_script o)) (lk_args o))
      else if is_str k "macos-host-dtrace" then
        if is_some (lk_script o) then Throw LauncherTakesNoScript else Ret (MacosHostChild (lk_args o))
      else Throw (UnknownLauncher k)
  | None => Throw LauncherWithoutKind
  end.

(** ** Conduits *)

Definition conduit_key (found : option ConduitEndpoint) (kv : bytes * yaml)
  : outcome PlanFileError (option ConduitEndpoint) :=
  let '(key, value) := kv in
  scalar ← as_scalar (AtConduit key) value;
  next ←
    (if is_str key "pid" then
       match parse_u32 scalar with Some v => Ret (Pid v) | None => Throw (NotAnU32 "conduit.pid" scalar) end
     else if is_str key "socket" then Ret (Socket scalar)
     else if is_str key "data_shm_name" then Ret (DataShmName scalar)
     else Throw (UnknownConduitKey key));
  if is_some found then Throw ConduitTwice else Ret (Some next).

(** [ConduitEndpoint::from_yaml] *)
Definition conduit_from_yaml (node : yaml) : outcome PlanFileError ConduitEndpoint :=
  m ← as_mapping (AtField "target.conduit") node;
  found ← fold_keys conduit_key None m;
  ok_or found ConduitEmpty.

(** ** Targets *)

Record TargetKeys : Type := {
  tk_id : option bytes;
  tk_guest_os : option GuestOs;
  tk_launcher : option LauncherSpec;
  tk_conduit : option ConduitEndpoint;
  tk_script : option bytes;
  tk_script_file : option bytes;
  tk_duration_ms : option Z
}.
Definition no_keys : TargetKeys :=
  {| tk_id := None; tk_guest_os := None; tk_launcher := None; tk_conduit := None; tk_script := None;
     tk_script_file := None; tk_duration_ms := None |}.

Definition target_key (idx : nat) (o : TargetKeys) (kv : bytes * yaml) : outcome PlanFileError TargetKeys :=
  let '(key, value) := kv in
  let 'Build_TargetKeys id os la co sc sf du := o in
  if is_str key "id" then
    s ← as_scalar (AtField "target.id") value;
    Ret (Build_TargetKeys (Some s) os la co sc sf du)
  else if is_str key "guest_os" then
    s ← as_scalar (AtField "target.guest_os") value;
    g ← parse_guest_os s;
    Ret (Build_TargetKeys id (Some g) la co sc sf du)
  else if is_str key "launcher" then
    l ← launcher_from_yaml value;
    Ret (Build_TargetKeys id os (Some l) co sc sf du)
  else if is_str key "conduit" then
    c ← conduit_from_yaml value;
    Ret (Build_TargetKeys id os la (Some c) sc sf du)
  else if is_str key "script" then
    s ← as_scalar (AtField "target.script") value;
    Ret (Build_TargetKeys id os la co (Some s) sf du)
  else if is_str key "script_file" then
    s ← as_scalar (AtField "target.script_file") value;
    Ret (Build_TargetKeys id os la co sc (Some s) du)
  else if is_str key "duration_ms" then
    raw ← as_scalar (AtField "target.duration_ms") value;
    match parse_u32 raw with
    | Some ms => Ret (Build_TargetKeys id os la co sc sf (Some ms))
    | None => Throw (NotAnU32 "duration_ms" raw)
    end
  else Throw (UnknownTargetKey key idx).

(** [Target::from_yaml] *)
Definition target_from_yaml (node : yaml) (idx : nat) : outcome PlanFileError Target :=
  m ← as_mapping (AtTarget idx) node;
  o ← fold_keys (target_key idx) no_keys m;
  id ← ok_or (tk_id o) (MissingKey "id" idx);
  os ← ok_or (tk_guest_os o) (MissingKey "guest_os" idx);
  launcher ← ok_or (tk_launcher o) (MissingKey "launcher" idx);
  Ret {| t_id := id; t_guest_os := os; t_launcher := launcher; t_conduit := tk_conduit o; t_script := tk_script o;
         t_script_file := tk_script_file o; t_duration_ms := tk_duration_ms o |}.

(** ** Plans *)

Fixpoint targets_from (idx : nat) (l : list yaml) : outcome PlanFileError (list Target) :=
  match l with
  | [] => Ret []
  | y :: l =>
      t ← target_from_yaml y idx;
      ts ← targets_from (S idx) l;
      Ret (t :: ts)
  end.

Definition plan_key (o : Plan) (kv : bytes * yaml) : outcome PlanFileError Plan :=
  let '(key, value) := kv in
  if is_str key "script" then
    s ← as_scalar (AtField "plan.script") value;
    Ret {| p_script := Some s; p_script_file := p_script_file o; p_targets := p_targets o |}
  else if is_str key "script_file" then
    s ← as_scalar (AtField "plan.script_file") value;
    Ret {| p_script := p_script o; p_script_file := Some s; p_targets := p_targets o |}
  else if is_str key "targets" then
    l ← as_sequence (AtField "plan.targets") value;
    ts ← targets_from 0 l;
    Ret {| p_script := p_script o; p_script_file := p_script_file o; p_targets := p_targets o ++ ts |}
  else Throw (UnknownPlanKey key).

Definition wrap_error {E F A} (f : E -> F) (m : outcome E A) : outcome F A :=
  match m with Ret a => Ret a | Throw e => Throw (f e) | Panic => Panic end.

(** [Plan::from_yaml] *)
Definition plan_from_yaml (doc : yaml) : outcome PlanFileError Plan :=
  m ← as_mapping AtPlan doc;
  p ← fold_keys plan_key {| p_script := None; p_script_file := None; p_targets := [] |} m;
  wrap_error Invalid (validate p);;
  Ret p.

(** [Plan::parse] *)
Definition plan_parse (body : bytes) : outcome PlanFileError Plan :=
  doc ← wrap_error Yaml (parse_yaml body);
  plan_from_yaml doc.

(** ** Numbers *)

Lemma parse_u32_decimal n : 0 <= n <= U32_MAX -> parse_u32 (decimal n) = Some n.
Proof.
  intros H. unfold parse_u32. unfold U32_MAX in *.
  assert (D : forallb is_ascii_digit (decimal n) = true) by by apply decimal_digits.
  assert (B : digits_value 0 (decimal n) = Some n) by (unfold decimal; rewrite decimal_back; [done|unfold U64_MAX; lia|cbn; lia|lia]).
  assert (L : (0 < length (decimal n))%nat).
  { apply decimal_some. lia. }
  destruct (decimal n) as [|x l]; [cbn in L; lia|]. cbn [forallb] in D. apply andb_prop in D as [D1 D2].
  assert (P : byte_is x 0x2b = false) by (unfold is_ascii_digit, in_span, byte_is in *; lia).
  rewrite P. cbn [forallb]. rewrite D1, D2. unfold parse_u64. rewrite B. cbn [andb]. by destruct (Z.leb_spec n 4294967295); [|lia].
Qed.

Lemma decimal_printable n : printable_str (decimal n) = true.
Proof.
  assert (D : forallb is_ascii_digit (decimal n) = true) by by apply decimal_digits.
  unfold printable_str. rewrite forallb_forall in *. intros b Hb. specialize (D b Hb).
  unfold is_ascii_digit, in_span, byte_is, QUOTE in *. lia.
Qed.

(** ** The printer *)

Definition key (k : string) (v : yaml) : bytes * yaml := (str k, v).
Definition text (s : string) : yaml := Scalar (str s).
Definition optional {A} (k : string) (f : A -> yaml) (o : option A) : list (bytes * yaml) :=
  match o with Some a => [key k (f a)] | None => [] end.

Definition guest_os_text (os : GuestOs) : string :=
  match os with GLinux => "linux" | GFreeBsd => "freebsd" | GIllumos => "illumos" | GMacosHost => "macos-host" end.

Definition args_yaml (args : list bytes) : list (bytes * yaml) :=
  match args with [] => [] | _ => [key "args" (Sequence (map Scalar args))] end.
Definition launcher_yaml (l : LauncherSpec) : yaml :=
  Mapping match l with
    | Attach => [key "kind" (text "attach")]
    | Smolvm script args => [key "kind" (text "smolvm"); key "script" (Scalar script)] ++ args_yaml args
    | QemuFreebsd script args => [key "kind" (text "qemu-freebsd"); key "script" (Scalar script)] ++ args_yaml args
    | MacosHostChild args => [key "kind" (text "macos-host-dtrace")] ++ args_yaml args
    end.
Definition conduit_yaml (c : ConduitEndpoint) : yaml :=
  Mapping match c with
    | Pid n => [key "pid" (Scalar (decimal n))]
    | Socket path => [key "socket" (Scalar path)]
    | DataShmName name => [key "data_shm_name" (Scalar name)]
    end.
Definition target_yaml (t : Target) : yaml :=
  Mapping ([key "id" (Scalar (t_id t)); key "guest_os" (text (guest_os_text (t_guest_os t)));
            key "launcher" (launcher_yaml (t_launcher t))]
           ++ optional "conduit" conduit_yaml (t_conduit t)
           ++ optional "script" Scalar (t_script t)
           ++ optional "script_file" Scalar (t_script_file t)
           ++ optional "duration_ms" (fun n => Scalar (decimal n)) (t_duration_ms t)).
Definition plan_yaml (p : Plan) : yaml :=
  Mapping (optional "script" Scalar (p_script p) ++ optional "script_file" Scalar (p_script_file p)
           ++ [key "targets" (Sequence (map target_yaml (p_targets p)))]).
Definition print_plan (p : Plan) : bytes := print_yaml (plan_yaml p).

(** Plans whose numbers are u32s and whose strings the format can carry. *)
Definition opt_ok {A} (f : A -> bool) (o : option A) : bool := match o with Some a => f a | None => true end.
Definition u32_ok (n : Z) : bool := in_span 0 U32_MAX n.
Definition launcher_ok (l : LauncherSpec) : bool :=
  match l with
  | Attach => true
  | Smolvm script args | QemuFreebsd script args => printable_str script && forallb printable_str args
  | MacosHostChild args => forallb printable_str args
  end.
Definition conduit_ok (c : ConduitEndpoint) : bool :=
  match c with Pid n => u32_ok n | Socket s | DataShmName s => printable_str s end.
Definition target_prints (t : Target) : bool :=
  printable_str (t_id t) && launcher_ok (t_launcher t) && opt_ok conduit_ok (t_conduit t)
  && opt_ok printable_str (t_script t) && opt_ok printable_str (t_script_file t) && opt_ok u32_ok (t_duration_ms t).
Definition plan_prints (p : Plan) : bool :=
  opt_ok printable_str (p_script p) && opt_ok printable_str (p_script_file p) && forallb target_prints (p_targets p).

(** ** Reading the document back *)

Lemma fold_keys_app {S} (f : S -> bytes * yaml -> outcome PlanFileError S) s a b :
  fold_keys f s (a ++ b) = (s ← fold_keys f s a; fold_keys f s b).
Proof.
  revert s. induction a as [|kv a IH]; intros s; [done|]. cbn [app fold_keys]. destruct (f s kv) as [s'|e|]; [|done..].
  by rewrite !bind_Ret, IH.
Qed.

Lemma args_back l : mapM (as_scalar (AtField "launcher.args[]")) (map Scalar l) = Ret l.
Proof. induction l as [|x l IH]; [done|]. cbn [map mapM]. cbn [as_scalar]. rewrite bind_Ret. by rewrite IH. Qed.

Lemma fold_args o args : fold_keys launcher_key o (args_yaml args)
  = Ret {| lk_kind := lk_kind o; lk_script := lk_script o; lk_args := lk_args o ++ args |}.
Proof.
  destruct args as [|a args]; [by rewrite app_nil_r; destruct o|]. cbn [args_yaml fold_keys].
  unfold launcher_key, key. cbv beta iota. change (is_str (str "args") "kind") with false. change (is_str (str "args") "script") with false.
  change (is_str (str "args") "args") with true. cbv iota. cbn [as_sequence]. rewrite bind_Ret, args_back. done.
Qed.

Lemma launcher_back l : launcher_from_yaml (launcher_yaml l) = Ret l.
Proof.
  unfold launcher_from_yaml, launcher_yaml. destruct l as [script args|script args| |args]; [| |done|];
    cbn [as_mapping]; rewrite bind_Ret, fold_keys_app.
  - change (fold_keys launcher_key _ [key "kind" _; _]) with
      (Ret (E := PlanFileError) {| lk_kind := Some (str "smolvm"); lk_script := Some script; lk_args := [] |}).
    by rewrite bind_Ret, fold_args.
  - change (fold_keys launcher_key _ [key "kind" _; _]) with
      (Ret (E := PlanFileError) {| lk_kind := Some (str "qemu-freebsd"); lk_script := Some script; lk_args := [] |}).
    by rewrite bind_Ret, fold_args.
  - change (fold_keys launcher_key _ [key "kind" _]) with
      (Ret (E := PlanFileError) {| lk_kind := Some (str "macos-host-dtrace"); lk_script := None; lk_args := [] |}).
    by rewrite bind_Ret, fold_args.
Qed.

Lemma conduit_back c : conduit_ok c = true -> conduit_from_yaml (conduit_yaml c) = Ret c.
Proof.
  intros H. unfold conduit_from_yaml, conduit_yaml. destruct c as [n|s|s]; [|done..].
  cbn [as_mapping]. rewrite bind_Ret. cbn [fold_keys]. unfold conduit_key, key. cbv beta iota. cbn [as_scalar]. rewrite bind_Ret.
  change (is_str (str "pid") "pid") with true. cbv iota.
  rewrite parse_u32_decimal by (cbn [conduit_ok] in H; unfold u32_ok, in_span in H; lia). done.
Qed.

(** Each key of a target sets its field. *)
Lemma fold_optional {S A} (f : S -> bytes * yaml -> outcome PlanFileError S) k (g : A -> yaml) o (set_ : option A -> S) :
  (forall a, o = Some a -> f (set_ None) (key k (g a)) = Ret (set_ (Some a))) ->
  fold_keys f (set_ None) (optional k g o) = Ret (set_ o).
Proof. destruct o as [a|]; cbn [optional fold_keys]; [|done]. intros H. by rewrite H. Qed.

Lemma target_back t idx : target_prints t = true -> target_from_yaml (target_yaml t) idx = Ret t.
Proof.
  destruct t as [id os la co sc sf du]. unfold target_prints.
  cbn [t_id t_guest_os t_launcher t_conduit t_script t_script_file t_duration_ms].
  intros [[[[[_ _]%andb_prop Hc]%andb_prop _]%andb_prop _]%andb_prop Hd]%andb_prop.
  unfold target_from_yaml, target_yaml. cbn [as_mapping t_id t_guest_os t_launcher t_conduit t_script t_script_file t_duration_ms].
  rewrite bind_Ret, fold_keys_app.
  assert (B : fold_keys (target_key idx) no_keys
      [key "id" (Scalar id); key "guest_os" (text (guest_os_text os)); key "launcher" (launcher_yaml la)]
    = Ret (Build_TargetKeys (Some id) (Some os) (Some la) None None None None)).
  { cbn [fold_keys]. change (target_key idx no_keys (key "id" (Scalar id))) with
      (Ret (E := PlanFileError) (Build_TargetKeys (Some id) None None None None None None)).
    rewrite bind_Ret.
    assert (O : forall o, target_key idx (Build_TargetKeys (Some id) None None None None None None)
                  (key "guest_os" (text (guest_os_text o)))
                = Ret (Build_TargetKeys (Some id) (Some o) None None None None None)) by (by intros []).
    rewrite O, bind_Ret. unfold target_key, key. cbv beta iota.
    change (is_str (str "launcher") "id") with false. change (is_str (str "launcher") "guest_os") with false.
    change (is_str (str "launcher") "launcher") with true. cbv iota beta. by rewrite launcher_back. }
  rewrite B, bind_Ret. rewrite !fold_keys_app.
  rewrite (fold_optional (target_key idx) "conduit" conduit_yaml co
    (fun o => Build_TargetKeys (Some id) (Some os) (Some la) o None None None)).
  2:{ intros c ->. unfold target_key, key. cbv beta iota. change (is_str (str "conduit") "id") with false.
      change (is_str (str "conduit") "guest_os") with false. change (is_str (str "conduit") "launcher") with false.
      change (is_str (str "conduit") "conduit") with true. cbv iota beta. by rewrite conduit_back. }
  rewrite bind_Ret, fold_keys_app.
  rewrite (fold_optional (target_key idx) "script" Scalar sc
    (fun o => Build_TargetKeys (Some id) (Some os) (Some la) co o None None)) by done.
  rewrite bind_Ret, fold_keys_app.
  rewrite (fold_optional (target_key idx) "script_file" Scalar sf
    (fun o => Build_TargetKeys (Some id) (Some os) (Some la) co sc o None)) by done.
  rewrite bind_Ret.
  rewrite (fold_optional (target_key idx) "duration_ms" (fun n => Scalar (decimal n)) du
    (fun o => Build_TargetKeys (Some id) (Some os) (Some la) co sc sf o)).
  2:{ intros n ->. unfold target_key, key. cbv beta iota. cbn [opt_ok] in Hd.
      change (is_str (str "duration_ms") "id") with false. change (is_str (str "duration_ms") "guest_os") with false.
      change (is_str (str "duration_ms") "launcher") with false. change (is_str (str "duration_ms") "conduit") with false.
      change (is_str (str "duration_ms") "script") with false. change (is_str (str "duration_ms") "script_file") with false.
      change (is_str (str "duration_ms") "duration_ms") with true. cbv iota beta. cbn [as_scalar]. rewrite bind_Ret.
      by rewrite parse_u32_decimal by (unfold u32_ok, in_span in Hd; lia). }
  done.
Qed.

Lemma targets_back ts : forallb target_prints ts = true -> forall idx, targets_from idx (map target_yaml ts) = Ret ts.
Proof.
  induction ts as [|t ts IH]; intros H idx; [done|]. cbn [forallb] in H. apply andb_prop in H as [H1 H2].
  cbn [map targets_from]. by rewrite target_back, bind_Ret, IH.
Qed.

Lemma plan_yaml_back p : plan_prints p = true -> validate p = Ret tt -> plan_from_yaml (plan_yaml p) = Ret p.
Proof.
  intros Hp Hv. destruct p as [sc sf ts]. unfold plan_prints in Hp. cbn [p_targets p_script p_script_file] in Hp.
  apply andb_prop in Hp as [_ Ht]. unfold plan_from_yaml, plan_yaml. cbn [as_mapping p_targets p_script p_script_file].
  rewrite bind_Ret, fold_keys_app.
  rewrite (fold_optional plan_key "script" Scalar sc (fun o => Build_Plan o None [])) by done.
  rewrite bind_Ret, fold_keys_app.
  rewrite (fold_optional plan_key "script_file" Scalar sf (fun o => Build_Plan sc o [])) by done.
  rewrite bind_Ret. cbn [fold_keys]. unfold plan_key, key. cbv beta iota.
  change (is_str (str "targets") "script") with false. change (is_str (str "targets") "script_file") with false.
  change (is_str (str "targets") "targets") with true. cbv iota beta. cbn [as_sequence]. rewrite bind_Ret, targets_back by done.
  rewrite !bind_Ret. cbn [p_script p_script_file p_targets app]. by rewrite Hv.
Qed.

(** ** The documents are printable *)

Lemma fields_printable m :
  m <> [] -> Forall (fun kv => printable_str kv.1 = true /\ printable kv.2 = true) m -> printable (Mapping m) = true.
Proof.
  intros Hn H. cbn [printable]. apply andb_true_intro. split; [by destruct m|]. rewrite forallb_forall.
  intros kv Hkv. rewrite list.Forall_forall in H. apply list_elem_of_In, H in Hkv as [H1 H2]. by rewrite H1, H2.
Qed.

Lemma sequence_printable l : l <> [] -> Forall (fun v => printable v = true) l -> printable (Sequence l) = true.
Proof.
  intros Hn H. cbn [printable]. apply andb_true_intro. split; [by destruct l|]. rewrite forallb_forall.
  intros v Hv. rewrite list.Forall_forall in H. by apply H, list_elem_of_In.
Qed.

Lemma optional_printable {A} k (f : A -> yaml) o (g : A -> bool) :
  printable_str (str k) = true -> (forall a, g a = true -> printable (f a) = true) -> opt_ok g o = true ->
  Forall (fun kv => printable_str kv.1 = true /\ printable kv.2 = true) (optional k f o).
Proof. intros Hk Hf Ho. destruct o as [a|]; [|constructor]. constructor; [|constructor]. split; [done|]. by apply Hf. Qed.

Lemma args_printable args : forallb printable_str args = true ->
  Forall (fun kv => printable_str kv.1 = true /\ printable kv.2 = true) (args_yaml args).
Proof.
  intros H. destruct args as [|a args]; [constructor|]. constructor; [|constructor]. split; [done|].
  apply sequence_printable; [done|]. apply list.Forall_forall. intros v Hv.
  apply list_elem_of_In, in_map_iff in Hv as (s & <- & Hs). rewrite forallb_forall in H. by apply H.
Qed.

Lemma launcher_printable l : launcher_ok l = true -> printable (launcher_yaml l) = true.
Proof.
  intros H. apply fields_printable; [by destruct l|]. destruct l as [s args|s args| |args]; cbn [launcher_ok] in H.
  - apply andb_prop in H as [H1 H2]. apply list.Forall_app_2; [by repeat constructor|by apply args_printable].
  - apply andb_prop in H as [H1 H2]. apply list.Forall_app_2; [by repeat constructor|by apply args_printable].
  - by repeat constructor.
  - apply list.Forall_app_2; [by repeat constructor|by apply args_printable].
Qed.

Lemma conduit_printable c : conduit_ok c = true -> printable (conduit_yaml c) = true.
Proof.
  intros H. apply fields_printable; [by destruct c|]. destruct c as [n|s|s]; cbn [conduit_ok] in H;
    (constructor; [|constructor]); (split; [done|]); [|done..]. apply decimal_printable.
Qed.

Lemma target_printable t : target_prints t = true -> printable (target_yaml t) = true.
Proof.
  unfold target_prints. intros [[[[[H1 H2]%andb_prop H3]%andb_prop H4]%andb_prop H5]%andb_prop H6]%andb_prop.
  apply fields_printable; [done|]. repeat apply list.Forall_app_2.
  - constructor; [done|]. constructor; [by destruct (t_guest_os t)|]. constructor; [|constructor].
    split; [done|]. by apply launcher_printable.
  - by apply (optional_printable _ _ _ conduit_ok); [|apply conduit_printable|].
  - by apply (optional_printable _ _ _ printable_str).
  - by apply (optional_printable _ _ _ printable_str).
  - apply (optional_printable _ _ _ u32_ok); [done| |done]. intros n _. apply decimal_printable.
Qed.

Lemma plan_printable p : plan_prints p = true -> p_targets p <> [] -> printable (plan_yaml p) = true.
Proof.
  unfold plan_prints. intros [[H1 H2]%andb_prop H3]%andb_prop Hn. apply fields_printable.
  { destruct (p_script p); [done|]. by destruct (p_script_file p). }
  repeat apply list.Forall_app_2.
  - by apply (optional_printable _ _ _ printable_str).
  - by apply (optional_printable _ _ _ printable_str).
  - constructor; [|constructor]. split; [done|]. apply sequence_printable; [by destruct (p_targets p)|].
    apply list.Forall_forall. intros v Hv. apply list_elem_of_In, in_map_iff in Hv as (t & <- & Ht).
    rewrite forallb_forall in H3. by apply target_printable, H3.
Qed.

(** A plan file carries a plan: a valid plan whose strings have no quote
    and no line feed, printed as YAML, parses to the same plan. *)
Theorem plan_file_round_trip p : plan_prints p = true -> validate p = Ret tt -> plan_parse (print_plan p) = Ret p.
Proof.
  intros Hp Hv. unfold plan_parse, print_plan.
  assert (Hn : p_targets p <> []) by (unfold validate in Hv; by destruct (p_targets p)).
  rewrite yaml_back by (done || by apply plan_printable). cbn [wrap_error]. rewrite bind_Ret. by apply plan_yaml_back.
Qed.
