(* ===== verification/PlanSample.v ===== *)
(** Plans and native sessions: the inputs at which the theorems of Backend.v,
    Plan.v, MiniYamlOk.v and PlanFile.v apply, and plans that are not
    treated as the comments of plan.rs say. *)

From Stdlib Require Import Strings.String.
From stdpp Require Import list.
From S2P Require Import Wire.
From S2P Require Import Schema.
From S2P Require Import HostDof.
From S2P Require Import CliShm.
From S2P Require Import Text.
From S2P Require Import DParse.
From S2P Require Import Backend.
From S2P Require Import Plan.
From S2P Require Import MiniYaml.
From S2P Require Import MiniYamlOk.
From S2P Require Import PlanFile.
From S2P Require Import Prelude.

Local Open Scope Z_scope.
Local Open Scope list_scope.

(** ** Native sessions *)

Module Native.

Definition blob : bytes := u8b 0x7f :: str "DOF-test".
Definition request : NativeDtraceSessionRequest := run_dof blob FREEBSD_DTRACE_PROOF_VALUE.

Definition payload_of (o : outcome BackendError GuestBackendSession) : option bytes :=
  match o with Ret s => match bs_payloads s with [p] => Some (pl_body p) | _ => None end | _ => None end.

Lemma native_session_read_witness :
  exists s body os_id n, build_session GFreeBsd request = Ret s
    /\ bs_payloads s = [{| pl_kind := KIND_LOAD_PROG; pl_body := body |}]
    /\ read_ndt body = Ret (header_of request os_id, rq_dof request) /\ records_called_for blob n.
Proof.
  assert (R : request_ok request) by (vm_compute; split_and!; done).
  assert (B : exists s, build_session GFreeBsd request = Ret s) by (eexists; vm_compute; reflexivity).
  destruct B as [s B]. destruct (native_session_read GFreeBsd request s R B) as (body & i & n & H1 & _ & _ & _ & _ & H2 & _ & H3 & _).
  by exists s, body, i, n.
Defined.

Lemma native_session_no_panic_witness : build_session GIllumos request <> Panic.
Proof. apply (native_session_no_panic GIllumos request GIllumos); [reflexivity|done|by vm_compute]. Defined.

(** The tests of backend.rs. *)
Example linux_and_empty_dof_are_refused :
  for_guest GLinux = Throw (NotNative GLinux) /\ build_session GFreeBsd (run_dof [] 1) = Throw EmptyDof.
Proof. done. Qed.

Example duration_in_the_header :
  (b ← payload_of (build_session GFreeBsd (with_duration_ms
         (run_dof_session (str "DOF-x") NATIVE_DTRACE_DEFAULT_PROBE_ID None NATIVE_DTRACE_DEFAULT_LABEL) 1234));
   Some (take 2 (drop 10 b), take 4 (drop 32 b), drop 40 b))
  = Some (to_le 2 0, to_le 4 1234, str "DOF-x").
Proof. by vm_compute. Qed.

Definition tuple (s : string) : option ProbeDescTuple :=
  match parse_spec (str s) with
  | Some p => Some {| provider := spec_provider p; module_ := spec_module p; HostDof.function := spec_function p;
                      name := spec_name p; HostDof.id := 0 |}
  | None => None
  end.
Definition attaches (s : string) : option bool := is_supported_native_probe <$> tuple s.

Example attach_set :
  map attaches ["dtrace:::BEGIN"; "dtrace:::END"; ":::BEGIN"; ":::END"; "fbt:kernel:vfs_open:entry";
                "syscall::open:entry"; "profile:::tick-1sec"; "profile:::profile-100hz"]%string
  = replicate 8 (Some true)
  /\ map attaches ["usdt:guest:redis-server:redis:cmd"; "profile:::tick"; "fbt:kernel::entry"]%string
     = replicate 3 (Some false).
Proof. by vm_compute. Qed.

End Native.

(** ** Routing *)

Module Routes.

Definition target (id : string) (os : GuestOs) (pid : Z) : Target :=
  {| t_id := str id; t_guest_os := os; t_launcher := Attach; t_conduit := Some (Pid pid); t_script := None;
     t_script_file := None; t_duration_ms := None |}.
Definition plan_of (ts : list Target) : Plan := {| p_script := None; p_script_file := None; p_targets := ts |}.
Definition linux : Target := target "linux" GLinux 1.
Definition freebsd : Target := target "freebsd" GFreeBsd 2.
Definition cross : Plan := plan_of [linux; freebsd].

(** The probes each target gets, or the error. *)
Definition routes (p : Plan) (src : string) : outcome PlanError (list (list (list bytes))) :=
  match parse_source (str src) with
  | Ret d => r ← route_clauses p d; Ret (map (fun t => map (fun c => map render (rc_specs c)) (rt_clauses t)) r)
  | _ => Panic
  end.

Example clauses_go_to_their_kernels :
  routes cross "fbt:guest:vfs_open:entry { trace(arg0); } fbt:kernel:tcp_input:entry { trace(0xC0FFEE); }"
  = Ret [[[str "fbt:guest:vfs_open:entry"]]; [[str "fbt:kernel:tcp_input:entry"]]].
Proof. by vm_compute. Qed.

Example linux_takes_bifrost :
  routes cross "bifrost:guest:vfs_open:entry { trace(arg0); }" = Ret [[[str "bifrost:guest:vfs_open:entry"]]; []].
Proof. by vm_compute. Qed.

Example freebsd_takes_no_uprobe :
  routes (plan_of [freebsd]) "uprobe:guest:nginx:ngx_http_finalize_request:entry { trace(0x1); }"
  = Throw (Unroutable (str "uprobe:guest:nginx:ngx_http_finalize_request:entry") UserspaceUnsupported)
  /\ routes (plan_of [linux]) "fbt:kernel:tcp_input:entry { trace(0x1); }"
     = Throw (Unroutable (str "fbt:kernel:tcp_input:entry") NativeTuple).
Proof. by vm_compute. Qed.

Example a_clause_is_not_split :
  routes cross "fbt:guest:vfs_open:entry, fbt:kernel:tcp_input:entry { trace(0x1); }"
  = Throw (ClauseSplit [(str "fbt:guest:vfs_open:entry", KLinux); (str "fbt:kernel:tcp_input:entry", KNativeKernel)]).
Proof. by vm_compute. Qed.

Definition source : Parsed :=
  match parse_source (str "fbt:guest:vfs_open:entry { } fbt:kernel:tcp_input:entry { } BEGIN { }") with
  | Ret d => d
  | _ => {| preamble := []; clauses := [] |}
  end.

Lemma route_exact_witness :
  route_clauses cross source = Ret (map (share (clauses source)) (p_targets cross)) /\ len (clauses source) = 3.
Proof.
  split; [|by vm_compute]. pose proof (route_exact cross source eq_refl) as H.
  destruct (route_clauses cross source) as [r|e|] eqn:E; [by destruct H as [_ ->]| |done].
  destruct H as [H _]. exfalso.
  assert (T : forallb (routable cross) (clauses source) = true) by (vm_compute; reflexivity). congruence.
Defined.

Definition tcp : Clause := default (Build_Clause [] None [] []) (clauses source !! 1%nat).
Definition tcp_spec : ProbeSpec := default (Build_ProbeSpec [] [] [] [] None) (head (clause_specs tcp)).

Lemma native_routes_agree_witness : route_probe (TGuest GFreeBsd) tcp_spec = RNativeKernelDtrace GFreeBsd.
Proof.
  apply (native_routes_agree freebsd tcp tcp_spec); [done|by vm_compute|].
  apply list_elem_of_In. vm_compute. by left.
Defined.

(** The comment on the routing says a clause is resolved to exactly one
    target; one for any kernel goes to all. *)
Example begin_goes_to_all : routes cross "BEGIN { }" = Ret [[[str "BEGIN"]]; [[str "BEGIN"]]].
Proof. by vm_compute. Qed.

(** Two targets of the same system both take a clause. *)
Example twins_both_take :
  routes (plan_of [target "a" GFreeBsd 1; target "b" GIllumos 2]) "fbt:kernel:tcp_input:entry { }"
  = Ret [[[str "fbt:kernel:tcp_input:entry"]]; [[str "fbt:kernel:tcp_input:entry"]]].
Proof. by vm_compute. Qed.

(** The comment on the kinds says no guest backend supports a userspace
    probe; a Linux target takes it. *)
Example linux_takes_userspace :
  routes cross "uprobe:guest:nginx:f:entry { }" = Ret [[[str "uprobe:guest:nginx:f:entry"]]; []].
Proof. by vm_compute. Qed.

(** Clauses the planner gives a Linux target although the backend's routing,
    which the comment says is the less discriminating, rejects them. *)
Example planner_is_laxer :
  forallb (fun s =>
      match parse_spec (str s) with
      | Some p => target_matches_kind linux (natural_kind_of p)
                  && match route_probe (TGuest GLinux) p with RRejected _ => true | _ => false end
      | None => false
      end) ["dtrace:::BEGIN"; "pid$target::malloc:entry"; "foo:guest:a:b"; "syscall:::entry"]%string = true.
Proof. by vm_compute. Qed.

(** A clause for userspace and a native kernel has a target for each probe
    but none for both: the error names the first probe, which a target takes. *)
Example error_names_a_taken_probe :
  routes cross "uprobe:guest:nginx:f:entry, fbt:kernel:tcp_input:entry { }"
  = Throw (Unroutable (str "uprobe:guest:nginx:f:entry") UserspaceUnsupported)
  /\ routes cross "uprobe:guest:nginx:f:entry { }" = Ret [[[str "uprobe:guest:nginx:f:entry"]]; []].
Proof. by vm_compute. Qed.

End Routes.

(** ** Plan files *)

Module Files.

Definition text_of (ls : list string) : bytes := flat_map (fun s => str s ++ [NL]) ls.
Definition attach_target (id : string) (pid : string) : list string :=
  [String.append "  - id: " id; "    guest_os: linux"; "    launcher:"; "      kind: attach"; "    conduit:";
   String.append "      pid: " pid]%string.

Example parses_n1_attach_plan :
  plan_parse (text_of ("script_file: trace.d" :: "targets:" :: attach_target "linux" "4242")%string)
  = Ret {| p_script := None; p_script_file := Some (str "trace.d");
           p_targets := [Routes.target "linux" GLinux 4242] |}.
Proof. by vm_compute. Qed.

Definition cross_kernel : bytes := text_of
  ["script_file: trace.d"; "targets:  # two kernels"; "  - id: linux"; "    guest_os: linux"; "    launcher:";
   "      kind: smolvm"; "      args:"; "        - 'machine'"; "        - 'run'"; "    conduit:"; "      pid: 1001"; "";
   "  - id: freebsd"; "    guest_os: freebsd"; "    launcher:"; "      kind: qemu-freebsd"; "      args:";
   "        - '--qcow2'"; "        - freebsd-14.3.qcow2"; "    conduit:"; "      socket: /tmp/conduit.sock";
   "    duration_ms: 2500"]%string.
Definition cross_plan : Plan :=
  {| p_script := None; p_script_file := Some (str "trace.d");
     p_targets :=
       [{| t_id := str "linux"; t_guest_os := GLinux;
           t_launcher := Smolvm (str SMOLVM_SCRIPT) [str "machine"; str "run"];
           t_conduit := Some (Pid 1001); t_script := None; t_script_file := None; t_duration_ms := None |};
        {| t_id := str "freebsd"; t_guest_os := GFreeBsd;
           t_launcher := QemuFreebsd (str QEMU_FREEBSD_SCRIPT) [str "--qcow2"; str "freebsd-14.3.qcow2"];
           t_conduit := Some (Socket (str "/tmp/conduit.sock")); t_script := None; t_script_file := None;
           t_duration_ms := Some 2500 |}] |}.

Example parses_cross_kernel_plan : plan_parse cross_kernel = Ret cross_plan.
Proof. by vm_compute. Qed.

Lemma plan_file_round_trip_witness : plan_parse (print_plan cross_plan) = Ret cross_plan.
Proof. apply (plan_file_round_trip cross_plan); [by vm_compute|reflexivity]. Defined.

Example rejects_duration : exists raw,
  plan_parse (text_of ("targets:" :: attach_target "a" "1" ++ ["    duration_ms: 'two seconds'"])%string)
  = Throw (NotAnU32 "duration_ms" raw).
Proof. eexists. by vm_compute. Qed.

Example rejects_unknown_key :
  plan_parse (text_of ("banana: yes" :: "targets:" :: attach_target "a" "1")%string) = Throw (UnknownPlanKey (str "banana")).
Proof. by vm_compute. Qed.

Example rejects_empty_targets :
  plan_parse (text_of ["script_file: trace.d"; "targets: []"]%string) = Throw (ExpectedSequence (AtField "plan.targets")).
Proof. by vm_compute. Qed.

Example rejects_duplicates_and_long_ids :
  plan_parse (text_of ("targets:" :: attach_target "linux" "1" ++ attach_target "linux" "2")%string)
  = Throw (Invalid (DuplicateId (str "linux")))
  /\ exists id, plan_parse (text_of ("targets:" :: attach_target "xxxxxxxxxxxxxxxxxxxxxxxxxxxxxxxxxxxxxxxx" "1")%string)
     = Throw (Invalid (IdTooLong id 40)).
Proof. split; [by vm_compute|]. eexists. by vm_compute. Qed.

(** The comment on the format says flow style is rejected; where a scalar is
    wanted, it is one. *)
Example flow_style_is_a_scalar :
  parse_yaml (text_of ["id: [1, 2]"; "launcher: { kind }"]%string)
  = Ret (Mapping [(str "id", Scalar (str "[1, 2]")); (str "launcher", Scalar (str "{ kind }"))]).
Proof. by vm_compute. Qed.

(** An apostrophe in a plain scalar opens a quote. *)
Example apostrophe_opens_a_quote : parse_yaml (text_of ["script: it's fine"]%string) = Throw UnterminatedQuote.
Proof. by vm_compute. Qed.

(** A plan's [targets] and a launcher's [args] may be given twice, and are
    joined. *)
Example args_are_joined :
  launcher_from_yaml (Mapping [(str "kind", Scalar (str "smolvm")); (str "args", Sequence [Scalar (str "a")]);
                               (str "args", Sequence [Scalar (str "b")])])
  = Ret (Smolvm (str SMOLVM_SCRIPT) [str "a"; str "b"]).
Proof. by vm_compute. Qed.

End Files.
