(* ===== verification/CapabilityFanout.v ===== *)
(** Capability fan-out (host/bifrost, src/cli/capability_fanout.rs): the
    capabilities a D source uses as the bits of a session, one envelope per
    guest, and the counting of the guests' verdicts; and what each guest's
    envelope asks for. *)

From Stdlib Require Import Strings.String.
From stdpp Require Import list gmap strings.
From S2P Require Import Envelope.
From S2P Require Import Prelude.

Local Open Scope Z_scope.
Local Open Scope list_scope.

(** ** Capabilities *)

Definition SESSION_CAP_FBT : Z := Z.shiftl 1 0.
Definition SESSION_CAP_TRACEPOINT : Z := Z.shiftl 1 1.
Definition SESSION_CAP_UPROBE : Z := Z.shiftl 1 2.
Definition SESSION_CAP_URETPROBE : Z := Z.shiftl 1 3.
Definition SESSION_CAP_USDT : Z := Z.shiftl 1 4.
Definition SESSION_CAP_PROFILE_TIMER : Z := Z.shiftl 1 5.
Definition SESSION_CAP_STACK : Z := Z.shiftl 1 6.
Definition SESSION_CAP_USTACK : Z := Z.shiftl 1 7.
Definition SESSION_CAP_AGG_COUNT : Z := Z.shiftl 1 16.
Definition SESSION_CAP_AGG_SUM : Z := Z.shiftl 1 17.
Definition SESSION_CAP_AGG_MIN : Z := Z.shiftl 1 18.
Definition SESSION_CAP_AGG_MAX : Z := Z.shiftl 1 19.
Definition SESSION_CAP_AGG_AVG : Z := Z.shiftl 1 20.
Definition SESSION_CAP_AGG_STDDEV : Z := Z.shiftl 1 21.
Definition SESSION_CAP_AGG_QUANTIZE : Z := Z.shiftl 1 22.
Definition SESSION_CAP_AGG_LQUANTIZE : Z := Z.shiftl 1 23.
Definition SESSION_CAP_AGG_LLQUANTIZE : Z := Z.shiftl 1 24.

Definition TARGET_OS_ANY : Z := 0.
Definition TARGET_OS_LINUX : Z := 1.
Definition TARGET_OS_FREEBSD : Z := 2.
Definition TARGET_OS_ILLUMOS : Z := 3.
Definition TARGET_OS_MACOS : Z := 4.

Record TargetGuest : Type := {
  tg_name : string;
  tg_target_os : Z;
  tg_advertised_capabilities : Z
}.

Definition target_os_name (g : TargetGuest) : string :=
  if tg_target_os g =? TARGET_OS_LINUX then "linux"
  else if tg_target_os g =? TARGET_OS_FREEBSD then "freebsd"
  else if tg_target_os g =? TARGET_OS_ILLUMOS then "illumos"
  else if tg_target_os g =? TARGET_OS_MACOS then "macos"
  else "any".

Record CapabilityHints : Type := {
  uses_fbt : bool;
  uses_tracepoint : bool;
  uses_uprobe : bool;
  uses_uretprobe : bool;
  uses_usdt : bool;
  uses_profile_timer : bool;
  uses_stack : bool;
  uses_ustack : bool;
  uses_agg_count : bool;
  uses_agg_sum : bool;
  uses_agg_min : bool;
  uses_agg_max : bool;
  uses_agg_avg : bool;
  uses_agg_stddev : bool;
  uses_agg_quantize : bool;
  uses_agg_lquantize : bool;
  uses_agg_llquantize : bool
}.

(** The hints, each with its capability, in the order they are folded in. *)
Definition hint_caps (h : CapabilityHints) : list (bool * Z) :=
  [(uses_fbt h, SESSION_CAP_FBT); (uses_tracepoint h, SESSION_CAP_TRACEPOINT);
   (uses_uprobe h, SESSION_CAP_UPROBE); (uses_uretprobe h, SESSION_CAP_URETPROBE);
   (uses_usdt h, SESSION_CAP_USDT); (uses_profile_timer h, SESSION_CAP_PROFILE_TIMER);
   (uses_stack h, SESSION_CAP_STACK); (uses_ustack h, SESSION_CAP_USTACK);
   (uses_agg_count h, SESSION_CAP_AGG_COUNT); (uses_agg_sum h, SESSION_CAP_AGG_SUM);
   (uses_agg_min h, SESSION_CAP_AGG_MIN); (uses_agg_max h, SESSION_CAP_AGG_MAX);
   (uses_agg_avg h, SESSION_CAP_AGG_AVG); (uses_agg_stddev h, SESSION_CAP_AGG_STDDEV);
   (uses_agg_quantize h, SESSION_CAP_AGG_QUANTIZE); (uses_agg_lquantize h, SESSION_CAP_AGG_LQUANTIZE);
   (uses_agg_llquantize h, SESSION_CAP_AGG_LLQUANTIZE)].

Definition as_capability_bits (h : CapabilityHints) : Z :=
  fold_left (fun bits hc => if hc.1 : bool then Z.lor bits hc.2 else bits) (hint_caps h) 0.

(** ** Envelopes *)

Record SessionPlan : Type := {
  sp_session_id : Z;
  sp_duration_ms : Z;
  sp_flags : Z;
  sp_dof_offset : Z;
  sp_dof_length : Z;
  sp_dof_sha256 : bytes;
  sp_hints : CapabilityHints;
  sp_required_capabilities : Z
}.

Record PlannedEnvelope : Type := {
  pe_guest_name : string;
  pe_target_os : Z;
  pe_envelope_bytes : bytes
}.

Definition envelope_for (p : SessionPlan) (hint_bits : Z) (g : TargetGuest) : SessionEnvelope :=
  {| wire_major := DTRACE_SESSION_WIRE_MAJOR; wire_minor := DTRACE_SESSION_WIRE_MINOR;
     target_os := tg_target_os g; env_flags := sp_flags p; session_id := sp_session_id p;
     duration_ms := sp_duration_ms p; dof_offset := sp_dof_offset p; dof_length := sp_dof_length p;
     dof_sha256 := sp_dof_sha256 p;
     capability_request := Z.land hint_bits (tg_advertised_capabilities g);
     capability_required := sp_required_capabilities p |}.

(** [encode(&envelope, &mut bytes).expect(..)] *)
Definition encode_expect {E} (env : SessionEnvelope) (out : bytes) : outcome E bytes :=
  match encode env out with
  | (Ret (Some _), out) => Ret out
  | _ => Panic
  end.

Definition fanout {E} (p : SessionPlan) (guests : list TargetGuest) : outcome E (list PlannedEnvelope) :=
  let hint_bits := as_capability_bits (sp_hints p) in
  mapM (fun g =>
    b ← encode_expect (envelope_for p hint_bits g) (replicate 96 (u8b 0));
    Ret {| pe_guest_name := tg_name g; pe_target_os := tg_target_os g; pe_envelope_bytes := b |}) guests.

(** ** Verdicts *)

Inductive EcbVerdict : Type := VAccepted | VRejected (reason : Z) | VZeroMatch.
#[export] Instance EcbVerdict_eq_dec : EqDecision EcbVerdict.
Proof. solve_decision. Defined.

Record StatusAccumulator : Type := { by_guest : gmap string (list (Z * EcbVerdict)) }.
Definition no_verdicts : StatusAccumulator := {| by_guest := ∅ |}.

Definition record_verdict (a : StatusAccumulator) (guest_name : string) (ecb_index : Z) (v : EcbVerdict)
  : StatusAccumulator :=
  {| by_guest := <[guest_name := default [] (by_guest a !! guest_name) ++ [(ecb_index, v)]]> (by_guest a) |}.

Definition accepted_in (l : list (Z * EcbVerdict)) : nat := length (filter (fun x => x.2 = VAccepted) l).
Definition accepted_total (a : StatusAccumulator) : nat :=
  sum_list_with (fun kv => accepted_in kv.2) (map_to_list (by_guest a)).
Definition any_accepted (a : StatusAccumulator) : bool :=
  existsb (fun kv => existsb (fun x => bool_decide (x.2 = VAccepted)) kv.2) (map_to_list (by_guest a)).

(** ** What the envelopes ask for *)

Lemma fold_caps_bits l : forall acc n, 0 <= n ->
  Z.testbit (fold_left (fun bits (hc : bool * Z) => if hc.1 then Z.lor bits hc.2 else bits) l acc) n
  = Z.testbit acc n || existsb (fun hc => hc.1 && Z.testbit hc.2 n) l.
Proof.
  induction l as [|[u c] l IH]; intros acc n Hn; cbn [fold_left existsb fst snd]; [by rewrite orb_false_r|].
  rewrite IH by done. destruct u; cbn [andb]; [|done]. by rewrite Z.lor_spec, <- orb_assoc.
Qed.

(** A bit of the mask is set exactly when a hint whose capability has it is. *)
Lemma capability_bits h n : 0 <= n ->
  Z.testbit (as_capability_bits h) n = existsb (fun hc => hc.1 && Z.testbit hc.2 n) (hint_caps h).
Proof. intros H. unfold as_capability_bits. rewrite fold_caps_bits by done. by rewrite Z.testbit_0_l. Qed.

Lemma fold_caps_range l : Forall (fun hc : bool * Z => in_u 64 hc.2) l -> forall acc, in_u 64 acc ->
  in_u 64 (fold_left (fun bits (hc : bool * Z) => if hc.1 then Z.lor bits hc.2 else bits) l acc).
Proof.
  induction 1 as [|[u c] l Hc Hl IH]; intros acc Ha; [done|]. cbn [fold_left fst snd] in *. apply IH. destruct u; [|done].
  by apply in_u_lor.
Qed.

Lemma capability_range h : in_u 64 (as_capability_bits h).
Proof. apply fold_caps_range; [|by vm_compute]. repeat constructor; by vm_compute. Qed.

Lemma land_range a b : in_u 64 a -> in_u 64 b -> in_u 64 (Z.land a b).
Proof.
  intros [A1 A2] [B1 B2]. split; [apply Z.land_nonneg; by left|].
  destruct (Z.eq_dec (Z.land a b) 0) as [->|Hn]; [done|].
  assert (0 <= Z.land a b) by (apply Z.land_nonneg; by left).
  apply Z.log2_lt_pow2; [lia|]. eapply Z.le_lt_trans; [apply Z.log2_land; lia|].
  eapply Z.le_lt_trans; [apply Z.le_min_l|]. destruct (Z.eq_dec a 0) as [->|Ha]; [done|].
  apply Z.log2_lt_pow2; lia.
Qed.

Definition plan_fits (p : SessionPlan) : Prop :=
  in_u 64 (sp_session_id p) /\ in_u 64 (sp_duration_ms p) /\ in_u 16 (sp_flags p) /\ in_u 64 (sp_dof_offset p) /\
  in_u 64 (sp_dof_length p) /\ len (sp_dof_sha256 p) = 32 /\ in_u 64 (sp_required_capabilities p).
Definition guest_fits (g : TargetGuest) : Prop := in_u 16 (tg_target_os g) /\ in_u 64 (tg_advertised_capabilities g).

Lemma envelope_for_ok p g : plan_fits p -> guest_fits g -> envelope_ok (envelope_for p (as_capability_bits (sp_hints p)) g).
Proof.
  intros (H1 & H2 & H3 & H4 & H5 & H6 & H7) [G1 G2]. unfold envelope_ok. cbn. split_and!; try done.
  apply land_range; [apply capability_range|done].
Qed.

Lemma encode_expect_ok {E} env n : envelope_ok env -> (96 <= n)%nat ->
  encode_expect (E:=E) env (replicate n (u8b 0)) = Ret (envelope_bytes env ++ replicate (n - 96) (u8b 0)).
Proof.
  intros H Hn. unfold encode_expect.
  assert (Hs : len (dof_sha256 env) = 32) by apply H.
  rewrite encode_run; [|unfold len; rewrite length_replicate; lia|done]. f_equal. unfold filled. f_equal.
  pose proof (len_envelope_bytes env Hs) as L. unfold len in L. rewrite drop_replicate. f_equal. lia.
Qed.

(** Each guest gets one envelope, in order and under its name, that
    decodes to the plan's session for its system: it requests exactly the
    capabilities that the source uses and the guest advertises, and requires
    what the plan requires. *)
Theorem fanout_negotiates p guests (Hp : plan_fits p) (Hg : Forall guest_fits guests) :
  exists l, fanout (E:=Empty_set) p guests = Ret l /\
  Forall2 (fun g e =>
    pe_guest_name e = tg_name g /\ pe_target_os e = tg_target_os g /\ len (pe_envelope_bytes e) = 96 /\
    exists env, decode (pe_envelope_bytes e) = Ret env /\ target_os env = tg_target_os g /\
      session_id env = sp_session_id p /\ duration_ms env = sp_duration_ms p /\ env_flags env = sp_flags p /\
      dof_offset env = sp_dof_offset p /\ dof_length env = sp_dof_length p /\ dof_sha256 env = sp_dof_sha256 p /\
      capability_required env = sp_required_capabilities p /\
      forall n, 0 <= n ->
        Z.testbit (capability_request env) n
        = existsb (fun hc => hc.1 && Z.testbit hc.2 n) (hint_caps (sp_hints p))
          && Z.testbit (tg_advertised_capabilities g) n) guests l.
Proof.
  unfold fanout. induction Hg as [|g guests Hg Hgs IH]; [by exists []|].
  cbn [mapM]. rewrite (encode_expect_ok _ 96) by (by apply envelope_for_ok || lia). rewrite !bind_Ret.
  destruct IH as (l & -> & Hl). rewrite bind_Ret. eexists. split; [done|]. constructor; [|done].
  cbn [pe_guest_name pe_target_os pe_envelope_bytes replicate Nat.sub]. rewrite app_nil_r.
  pose proof (envelope_for_ok p g Hp Hg) as Ho.
  split_and!; [done..|apply len_envelope_bytes; apply Ho|]. eexists. split.
  { rewrite <- (app_nil_r (envelope_bytes _)). by apply decode_envelope_bytes. }
  cbn [envelope_for target_os session_id duration_ms env_flags dof_offset dof_length dof_sha256 capability_required capability_request].
  split_and!; [done..|]. intros n Hn. by rewrite Z.land_spec, capability_bits.
Qed.

(** ** What the verdicts add up to *)

Lemma accepted_app l l' : accepted_in (l ++ l') = (accepted_in l + accepted_in l')%nat.
Proof. unfold accepted_in. by rewrite list.filter_app, length_app. Qed.

Lemma total_insert (m : gmap string (list (Z * EcbVerdict))) k l :
  (accepted_total {| by_guest := <[k := l]> m |} + accepted_in (default [] (m !! k))
   = accepted_total {| by_guest := m |} + accepted_in l)%nat.
Proof.
  unfold accepted_total. cbn [by_guest].
  assert (I : map_to_list (<[k := l]> m) ≡ₚ (k, l) :: map_to_list (delete k m))
    by (rewrite <- insert_delete_eq; apply map_to_list_insert, lookup_delete_eq).
  rewrite I. destruct (m !! k) as [old|] eqn:E; cbn [default from_option id].
  - rewrite <- (map_to_list_delete m k old E). cbn [sum_list_with snd]. lia.
  - rewrite delete_id by done. cbn [sum_list_with snd]. cbn. lia.
Qed.

Definition report : Type := string * Z * EcbVerdict.
Definition record_all (rs : list report) (a : StatusAccumulator) : StatusAccumulator :=
  fold_left (fun a '(g, i, v) => record_verdict a g i v) rs a.
(** A guest's reports, in the order they arrived. *)
Definition reports_of (g : string) (rs : list report) : list (Z * EcbVerdict) :=
  omap (fun '(g', i, v) => if bool_decide (g' = g) then Some (i, v) else None) rs.

Lemma record_all_lookup rs g : forall a,
  default [] (by_guest (record_all rs a) !! g) = default [] (by_guest a !! g) ++ reports_of g rs.
Proof.
  induction rs as [|[[g' i] v] rs IH]; intros a; cbn [record_all fold_left reports_of omap list_omap]; [by rewrite app_nil_r|].
  fold (record_all rs (record_verdict a g' i v)). rewrite IH. cbn [record_verdict by_guest].
  case_bool_decide as E.
  - subst g'. rewrite lookup_insert_eq. cbn [default from_option id]. by rewrite <- app_assoc.
  - by rewrite lookup_insert_ne.
Qed.

Lemma record_all_total rs : forall a,
  (accepted_total (record_all rs a) = accepted_total a + accepted_in (map (fun r => (r.1.2, r.2)) rs))%nat.
Proof.
  induction rs as [|[[g i] v] rs IH]; intros a; cbn [record_all fold_left map]; [cbn; lia|].
  fold (record_all rs (record_verdict a g i v)). rewrite IH. cbn [fst snd].
  pose proof (total_insert (by_guest a) g (default [] (by_guest a !! g) ++ [(i, v)])) as T.
  rewrite accepted_app in T. change ((i, v) :: ?l) with ([(i, v)] ++ l). rewrite accepted_app.
  unfold record_verdict. destruct a as [m]. cbn [by_guest] in *. lia.
Qed.

Lemma any_accepted_total a : any_accepted a = true <-> (0 < accepted_total a)%nat.
Proof.
  unfold any_accepted, accepted_total. induction (map_to_list (by_guest a)) as [|[k l] r IH]; cbn [existsb sum_list_with snd]; [split; [done|lia]|].
  rewrite orb_true_iff, IH.
  assert (H : existsb (fun x : Z * EcbVerdict => bool_decide (x.2 = VAccepted)) l = true <-> (0 < accepted_in l)%nat).
  { unfold accepted_in. induction l as [|x l IHl]; cbn [existsb]; [cbn; split; [done|lia]|].
    rewrite orb_true_iff, IHl, filter_cons. rewrite bool_decide_eq_true. destruct (decide (x.2 = VAccepted)) as [?|?]; cbn [length]; [split; [lia|by left]|].
    split; [intros [?|?]; [done|lia]|by right]. }
  rewrite H. lia.
Qed.

Lemma accepted_reports (rs : list report) :
  accepted_in (map (fun r => (r.1.2, r.2)) rs) = length (filter (fun r => r.2 = VAccepted) rs).
Proof.
  unfold accepted_in. induction rs as [|[[h i] v] rs IH]; [done|]. cbn [map fst snd].
  rewrite !filter_cons. cbn [fst snd]. destruct (decide (v = VAccepted)); cbn [length]; by rewrite IH.
Qed.

(** Verdicts add up: after any reports each guest's rows are its reports
    in order, the accepted total counts the accepted reports of all guests,
    and a session has an accepted ECB exactly when it is not zero. *)
Theorem verdicts_add_up rs g :
  default [] (by_guest (record_all rs no_verdicts) !! g) = reports_of g rs /\
  accepted_total (record_all rs no_verdicts) = length (filter (fun r => r.2 = VAccepted) rs) /\
  (any_accepted (record_all rs no_verdicts) = true <-> exists r, r ∈ rs /\ r.2 = VAccepted).
Proof.
  split_and!.
  - rewrite record_all_lookup. cbn [no_verdicts by_guest]. by rewrite lookup_empty.
  - rewrite record_all_total, accepted_reports. done.
  - rewrite any_accepted_total, record_all_total, accepted_reports. change (accepted_total no_verdicts) with 0%nat. cbn [Nat.add].
    split.
    + destruct (filter _ rs) as [|r l] eqn:E; [cbn; lia|]. intros _. exists r.
      assert (Hr : r ∈ r :: l) by by left. rewrite <- E in Hr. apply list_elem_of_filter in Hr as [? ?]. by split.
    + intros (r & Hr & Hv).
      assert (Hf : r ∈ filter (fun r : report => r.2 = VAccepted) rs) by (by apply list_elem_of_filter).
      destruct (filter _ rs); [by apply elem_of_nil in Hf|cbn; lia].
Qed.

(** ** Two guests *)

Definition guests : list TargetGuest :=
  [{| tg_name := "linux-1"; tg_target_os := TARGET_OS_LINUX;
      tg_advertised_capabilities :=
        Z.lor (Z.lor SESSION_CAP_FBT SESSION_CAP_TRACEPOINT) (Z.lor SESSION_CAP_AGG_COUNT SESSION_CAP_AGG_QUANTIZE) |};
   {| tg_name := "fbsd-1"; tg_target_os := TARGET_OS_FREEBSD;
      tg_advertised_capabilities := Z.lor SESSION_CAP_FBT SESSION_CAP_AGG_COUNT |}].
Definition no_hints : CapabilityHints :=
  Build_CapabilityHints false false false false false false false false false false false false false false false false false.
Definition hints : CapabilityHints :=
  Build_CapabilityHints true true false false false false false false true false false false false false true false false.
Definition plan_with (required : Z) : SessionPlan :=
  {| sp_session_id := 0xface; sp_duration_ms := 1000; sp_flags := 0; sp_dof_offset := 0x4000; sp_dof_length := 0x100;
     sp_dof_sha256 := replicate 32 (u8b 0xab); sp_hints := hints; sp_required_capabilities := required |}.

Definition requests (required : Z) : list (option (Z * Z)) :=
  match fanout (E:=Empty_set) (plan_with required) guests with
  | Ret l => map (fun e => match decode (pe_envelope_bytes e) with
                           | Ret env => Some (capability_request env, capability_required env)
                           | _ => None
                           end) l
  | _ => []
  end.

(** The tests of capability_fanout.rs. *)
Example fanout_intersects_capabilities :
  requests SESSION_CAP_FBT
  = [Some (as_capability_bits hints, SESSION_CAP_FBT); Some (Z.lor SESSION_CAP_FBT SESSION_CAP_AGG_COUNT, SESSION_CAP_FBT)].
Proof. by vm_compute. Qed.

Example status_accumulator_tracks_per_guest :
  accepted_total (record_all [("linux-1"%string, 0, VAccepted); ("linux-1"%string, 1, VRejected 3);
                              ("fbsd-1"%string, 0, VZeroMatch); ("fbsd-1"%string, 1, VAccepted)] no_verdicts) = 2%nat.
Proof. by vm_compute. Qed.

Lemma fanout_negotiates_witness :
  plan_fits (plan_with SESSION_CAP_FBT) /\ Forall guest_fits guests /\
  exists l, fanout (E:=Empty_set) (plan_with SESSION_CAP_FBT) guests = Ret l /\ length l = 2%nat.
Proof.
  assert (Hp : plan_fits (plan_with SESSION_CAP_FBT)) by (vm_compute; split_and!; done).
  assert (Hg : Forall guest_fits guests) by (repeat constructor; by vm_compute).
  split_and!; [done..|]. destruct (fanout_negotiates _ _ Hp Hg) as (l & H & F). exists l. split; [done|].
  exact (eq_sym (list.Forall2_length _ _ _ F)).
Defined.

(** The comment on [fanout] has the planner emit a diagnostic when a guest
    lacks a required capability; its envelope is made like any other. *)
Example required_but_missing :
  requests SESSION_CAP_TRACEPOINT
  = [Some (as_capability_bits hints, SESSION_CAP_TRACEPOINT);
     Some (Z.lor SESSION_CAP_FBT SESSION_CAP_AGG_COUNT, SESSION_CAP_TRACEPOINT)].
Proof. by vm_compute. Qed.
