(* ===== verification/DirectLoad.v ===== *)
(** Session payloads (host/bifrost, src/cli/direct_load.rs): the command that
    carries a DTRACE_SESSION_V1 envelope and the DOF of a session, with the
    SHA-256 of the DOF; and what a guest reads from it. *)

From Stdlib Require Import Strings.String.
From stdpp Require Import list.
From S2P Require Import Wire.
From S2P Require Import Envelope.
From S2P Require Import Schema.
From S2P Require Import LinuxCompile.
From S2P Require Import CapabilityFanout.
From S2P Require Import Prelude.

Local Open Scope Z_scope.
Local Open Scope list_scope.

(** ** SHA-256 *)

(** The round constants, by sixteen rounds. *)
Definition K0 : list Z :=
  [0x428a_2f98; 0x7137_4491; 0xb5c0_fbcf; 0xe9b5_dba5; 0x3956_c25b; 0x59f1_11f1; 0x923f_82a4; 0xab1c_5ed5;
   0xd807_aa98; 0x1283_5b01; 0x2431_85be; 0x550c_7dc3; 0x72be_5d74; 0x80de_b1fe; 0x9bdc_06a7; 0xc19b_f174].
Definition K16 : list Z :=
  [0xe49b_69c1; 0xefbe_4786; 0x0fc1_9dc6; 0x240c_a1cc; 0x2de9_2c6f; 0x4a74_84aa; 0x5cb0_a9dc; 0x76f9_88da;
   0x983e_5152; 0xa831_c66d; 0xb003_27c8; 0xbf59_7fc7; 0xc6e0_0bf3; 0xd5a7_9147; 0x06ca_6351; 0x1429_2967].
Definition K32 : list Z :=
  [0x27b7_0a85; 0x2e1b_2138; 0x4d2c_6dfc; 0x5338_0d13; 0x650a_7354; 0x766a_0abb; 0x81c2_c92e; 0x9272_2c85;
   0xa2bf_e8a1; 0xa81a_664b; 0xc24b_8b70; 0xc76c_51a3; 0xd192_e819; 0xd699_0624; 0xf40e_3585; 0x106a_a070].
Definition K48 : list Z :=
  [0x19a4_c116; 0x1e37_6c08; 0x2748_774c; 0x34b0_bcb5; 0x391c_0cb3; 0x4ed8_aa4a; 0x5b9c_ca4f; 0x682e_6ff3;
   0x748f_82ee; 0x78a5_636f; 0x84c8_7814; 0x8cc7_0208; 0x90be_fffa; 0xa450_6ceb; 0xbef9_a3f7; 0xc671_78f2].
Definition K : list Z := K0 ++ K16 ++ K32 ++ K48.
Definition H0 : list Z :=
  [0x6a09_e667; 0xbb67_ae85; 0x3c6e_f372; 0xa54f_f53a; 0x510e_527f; 0x9b05_688c; 0x1f83_d9ab; 0x5be0_cd19].

Definition u32 (v : Z) : Z := v mod 2 ^ 32.
Definition wadd (a b : Z) : Z := u32 (a + b).
(** [u32::rotate_right] *)
Definition rotate_right (v n : Z) : Z := Z.lor (Z.shiftr v n) (u32 (Z.shiftl v (32 - n))).
Definition lnot32 (v : Z) : Z := Z.lxor v (Z.ones 32).

Definition to_be (n : nat) (v : Z) : bytes := rev (to_le n v).
Definition from_be (b : bytes) : Z := fold_left (fun acc x => acc * 256 + byte.unsigned x) b 0.

(** [while padded.len() % 64 != 56 { padded.push(0) }] *)
Fixpoint pad_zeros (fuel : nat) (b : bytes) : bytes :=
  match fuel with
  | O => b
  | S fuel => if len b mod 64 =? 56 then b else pad_zeros fuel (b ++ [u8b 0])
  end.
Definition padded (input : bytes) : bytes :=
  pad_zeros 64 (input ++ [u8b 0x80]) ++ to_be 8 ((len input * 8) mod 2 ^ 64).

Definition at_ (l : list Z) (i : nat) : Z := nth i l 0.

(** The words of a chunk, and the schedule they are extended to. *)
Definition chunk_words (chunk : bytes) : list Z := map (fun i => from_be (take 4 (drop (i * 4) chunk))) (seq 0 16).
Definition schedule_word (w : list Z) (i : nat) : Z :=
  let w15 := at_ w (i - 15) in
  let w2 := at_ w (i - 2) in
  let s0 := Z.lxor (Z.lxor (rotate_right w15 7) (rotate_right w15 18)) (Z.shiftr w15 3) in
  let s1 := Z.lxor (Z.lxor (rotate_right w2 17) (rotate_right w2 19)) (Z.shiftr w2 10) in
  wadd (wadd (wadd (at_ w (i - 16)) s0) (at_ w (i - 7))) s1.
Definition schedule (chunk : bytes) : list Z :=
  fold_left (fun w i => w ++ [schedule_word w i]) (seq 16 48) (chunk_words chunk).

(** One round on the eight variables. *)
Definition round (w : list Z) (v : list Z) (i : nat) : list Z :=
  match v with
  | [a; b; c; d; e; f; g; hh] =>
      let s1 := Z.lxor (Z.lxor (rotate_right e 6) (rotate_right e 11)) (rotate_right e 25) in
      let ch := Z.lxor (Z.land e f) (Z.land (lnot32 e) g) in
      let t1 := wadd (wadd (wadd (wadd hh s1) ch) (at_ K i)) (at_ w i) in
      let s0 := Z.lxor (Z.lxor (rotate_right a 2) (rotate_right a 13)) (rotate_right a 22) in
      let maj := Z.lxor (Z.lxor (Z.land a b) (Z.land a c)) (Z.land b c) in
      let t2 := wadd s0 maj in
      [wadd t1 t2; a; b; c; wadd d t1; e; f; g]
  | v => v
  end.
Definition compress (h : list Z) (chunk : bytes) : list Z :=
  let w := schedule chunk in
  zip_with wadd h (fold_left (round w) (seq 0 64) h).

(** [chunks_exact(64)] *)
Fixpoint chunks_exact (fuel : nat) (b : bytes) : list bytes :=
  match fuel with
  | O => []
  | S fuel => if len b <? 64 then [] else take 64 b :: chunks_exact fuel (drop 64 b)
  end.

Definition sha256_no_alloc (input : bytes) : bytes :=
  let p := padded input in
  concat (map (to_be 4) (fold_left compress (chunks_exact (length p) p) H0)).

(** ** Payloads *)

Definition BIFROST_CMD_OP_DTRACE_SESSION : Z := 3.
Definition BIFROST_CMD_HDR_SIZE : Z := 8.

Record DirectLoadProgs : Type := {
  dl_payloads : list bytes;
  dl_statuses : list Z
}.

Definition session_envelope (session_id duration_ms : Z) (h : CapabilityHints) (dof_bytes : bytes) : SessionEnvelope :=
  {| wire_major := DTRACE_SESSION_WIRE_MAJOR; wire_minor := DTRACE_SESSION_WIRE_MINOR; target_os := TARGET_OS_LINUX;
     env_flags := 0; session_id := session_id; duration_ms := duration_ms;
     dof_offset := BIFROST_CMD_HDR_SIZE + DTRACE_SESSION_ENVELOPE_SIZE; dof_length := len dof_bytes;
     dof_sha256 := sha256_no_alloc dof_bytes; capability_request := as_capability_bits h; capability_required := 0 |}.

Definition build_session_payload {E} (session_id duration_ms : Z) (h : CapabilityHints) (dof_bytes : bytes)
  : outcome E bytes :=
  let body_len := u32 (DTRACE_SESSION_ENVELOPE_SIZE + len dof_bytes) in
  let payload := to_le 4 BIFROST_CMD_OP_DTRACE_SESSION ++ to_le 4 body_len in
  envelope ← encode_expect (session_envelope session_id duration_ms h dof_bytes) (replicate 96 (u8b 0));
  Ret (payload ++ envelope ++ dof_bytes).

(** The hints with one of them set. *)
Definition set_hint (ty : Z) (h : CapabilityHints) : CapabilityHints :=
  let 'Build_CapabilityHints fbt tp up ur us pt st ust a1 a2 a3 a4 a5 a6 a7 a8 a9 := h in
  if (ty =? PROBE_TYPE_UPROBE) || (ty =? PROBE_TYPE_UPROBE_BY_SYM)
  then Build_CapabilityHints fbt tp true ur us pt st ust a1 a2 a3 a4 a5 a6 a7 a8 a9
  else if (ty =? PROBE_TYPE_URETPROBE) || (ty =? PROBE_TYPE_URETPROBE_BY_SYM)
  then Build_CapabilityHints fbt tp up true us pt st ust a1 a2 a3 a4 a5 a6 a7 a8 a9
  else if (ty =? PROBE_TYPE_FENTRY) || (ty =? PROBE_TYPE_FEXIT)
  then Build_CapabilityHints true tp up ur us pt st ust a1 a2 a3 a4 a5 a6 a7 a8 a9
  else if ty =? PROBE_TYPE_TRACEPOINT
  then Build_CapabilityHints fbt true up ur us pt st ust a1 a2 a3 a4 a5 a6 a7 a8 a9
  else if ty =? PROBE_TYPE_USDT
  then Build_CapabilityHints fbt tp up ur true pt st ust a1 a2 a3 a4 a5 a6 a7 a8 a9
  else if ty =? PROBE_TYPE_PROFILE_TIMER
  then Build_CapabilityHints fbt tp up ur us true st ust a1 a2 a3 a4 a5 a6 a7 a8 a9
  else h.

Definition hints_from_probe_types (programs : list LoweredProgram) : CapabilityHints :=
  fold_left (fun h p => set_hint (lp_probe_type p) h) programs no_hints.

Inductive DirectLoadError : Type := EmptyDof.

Definition build_direct_load_progs (programs : list LoweredProgram) (dof_bytes : bytes)
  : outcome DirectLoadError DirectLoadProgs :=
  if len dof_bytes =? 0 then Throw EmptyDof
  else
    let h := hints_from_probe_types programs in
    let sha := sha256_no_alloc dof_bytes in
    let session_id := LittleEndianList.le_combine (take 8 sha) in
    payload ← build_session_payload session_id 0 h dof_bytes;
    Ret {| dl_payloads := [payload]; dl_statuses := [RSP_LOADPROG_STATUS_OK] |}.

Definition hex (s : list Z) : bytes := map u8b s.

(** The test vectors of direct_load.rs. *)
Example sha256_of_empty :
  sha256_no_alloc [] = hex
    [0xe3; 0xb0; 0xc4; 0x42; 0x98; 0xfc; 0x1c; 0x14; 0x9a; 0xfb; 0xf4; 0xc8; 0x99; 0x6f; 0xb9; 0x24;
     0x27; 0xae; 0x41; 0xe4; 0x64; 0x9b; 0x93; 0x4c; 0xa4; 0x95; 0x99; 0x1b; 0x78; 0x52; 0xb8; 0x55].
Proof. by vm_compute. Qed.

Example sha256_of_abc :
  sha256_no_alloc (str "abc") = hex
    [0xba; 0x78; 0x16; 0xbf; 0x8f; 0x01; 0xcf; 0xea; 0x41; 0x41; 0x40; 0xde; 0x5d; 0xae; 0x22; 0x23;
     0xb0; 0x03; 0x61; 0xa3; 0x96; 0x17; 0x7a; 0x9c; 0xb4; 0x10; 0xff; 0x61; 0xf2; 0x00; 0x15; 0xad].
Proof. by vm_compute. Qed.

(** ** The digest is 32 bytes *)

Lemma len_to_be n v : len (to_be n v) = Z.of_nat n.
Proof. unfold to_be, len. rewrite length_rev. exact (len_to_le n v). Qed.

Lemma round_length w v i : length v = 8%nat -> length (round w v i) = 8%nat.
Proof. intros H. by destruct v as [|a [|b [|c [|d [|e [|f [|g [|h [|]]]]]]]]]. Qed.

Lemma compress_length h c : length h = 8%nat -> length (compress h c) = 8%nat.
Proof.
  intros H. unfold compress. rewrite length_zip_with.
  assert (R : forall l v, length v = 8%nat -> length (fold_left (round (schedule c)) l v) = 8%nat).
  { induction l as [|i l IH]; intros v Hv; cbn [fold_left]; [done|]. by apply IH, round_length. }
  rewrite R by done. lia.
Qed.

Lemma len_sha256 input : len (sha256_no_alloc input) = 32.
Proof.
  unfold sha256_no_alloc.
  assert (R : forall l h, length h = 8%nat -> length (fold_left compress l h) = 8%nat).
  { induction l as [|c l IH]; intros h Hh; cbn [fold_left]; [done|]. by apply IH, compress_length. }
  specialize (R (chunks_exact (length (padded input)) (padded input)) H0 eq_refl). revert R.
  generalize (fold_left compress (chunks_exact (length (padded input)) (padded input)) H0). intros l Hl.
  assert (G : forall l, len (concat (map (to_be 4) l)) = 4 * Z.of_nat (length l)).
  { clear. induction l as [|v l IH]; [done|]. cbn [map concat length]. rewrite len_app, IH.
    rewrite len_to_be. lia. }
  rewrite G, Hl. done.
Qed.

(** The padding fills whole chunks, and says where the input ends. *)
Lemma pad_zeros_spec fuel : forall b, 64 <= Z.of_nat fuel + (len b + 7) mod 64 ->
  len (pad_zeros fuel b) mod 64 = 56 /\ exists n, pad_zeros fuel b = b ++ replicate n (u8b 0).
Proof.
  induction fuel as [|fuel IH]; intros b Hf.
  { pose proof (Z.mod_pos_bound (len b + 7) 64 ltac:(lia)). lia. }
  cbn [pad_zeros]. destruct (Z.eqb_spec (len b mod 64) 56) as [E|E].
  { split; [done|]. exists 0%nat. by rewrite app_nil_r. }
  destruct (IH (b ++ [u8b 0])) as [H1 (n & H2)].
  { rewrite len_app. change (len [u8b 0]) with 1.
    pose proof (Z.div_mod (len b) 64 ltac:(lia)) as D. pose proof (Z.mod_pos_bound (len b) 64 ltac:(lia)) as B.
    assert (C : len b mod 64 < 56 \/ 56 < len b mod 64) by lia.
    destruct C as [C|C].
    - rewrite <- (Z.mod_unique (len b + 7) 64 (len b / 64) (len b mod 64 + 7)) in Hf by lia.
      rewrite <- (Z.mod_unique (len b + 1 + 7) 64 (len b / 64) (len b mod 64 + 8)) by lia. lia.
    - destruct (Z.eq_dec (len b mod 64) 56); [lia|].
      rewrite <- (Z.mod_unique (len b + 7) 64 (len b / 64 + 1) (len b mod 64 - 57)) in Hf by lia.
      rewrite <- (Z.mod_unique (len b + 1 + 7) 64 (len b / 64 + 1) (len b mod 64 - 56)) by lia. lia. }
  split; [done|]. exists (S n). rewrite H2, <- app_assoc. done.
Qed.

Lemma padded_chunks input :
  len (padded input) mod 64 = 0 /\
  exists n, padded input = input ++ u8b 0x80 :: replicate n (u8b 0) ++ to_be 8 ((len input * 8) mod 2 ^ 64).
Proof.
  unfold padded. destruct (pad_zeros_spec 64 (input ++ [u8b 0x80])) as [H1 (n & H2)].
  { pose proof (Z.mod_pos_bound (len (input ++ [u8b 0x80]) + 7) 64 ltac:(lia)). lia. }
  split.
  - rewrite len_app, len_to_be, <- Z.add_mod_idemp_l, H1 by lia. done.
  - exists n. rewrite H2, <- !app_assoc. done.
Qed.

Lemma chunks_cover fuel : forall b, len b mod 64 = 0 -> (length b <= fuel)%nat ->
  concat (chunks_exact fuel b) = b /\ Forall (fun c => len c = 64) (chunks_exact fuel b).
Proof.
  induction fuel as [|fuel IH]; intros b Hm Hf; [destruct b; [done|cbn in Hf; lia]|]. cbn [chunks_exact].
  destruct (Z.ltb_spec (len b) 64) as [Hl|Hl].
  - pose proof (len_nonneg b). rewrite Z.mod_small in Hm by lia. destruct b; [done|]. unfold len in Hm. cbn in Hm. lia.
  - assert (L : length b = (64 + (length b - 64))%nat) by (unfold len in Hl; lia).
    destruct (IH (drop 64 b)) as [H1 H2].
    + unfold len in *. rewrite length_drop. replace (Z.of_nat (length b - 64)) with (Z.of_nat (length b) + (-1) * 64) by lia.
      by rewrite Z.mod_add.
    + rewrite length_drop. lia.
    + cbn [concat]. rewrite H1, take_drop. split; [done|]. constructor; [|done]. unfold len. rewrite length_take. lia.
Qed.

(** ** What the guest reads *)

(** The capability of a probe type. *)
Definition cap_of_type (ty : Z) : Z :=
  if (ty =? 2) || (ty =? 4) then SESSION_CAP_UPROBE
  else if (ty =? 3) || (ty =? 5) then SESSION_CAP_URETPROBE
  else if (ty =? 6) || (ty =? 7) then SESSION_CAP_FBT
  else if ty =? 8 then SESSION_CAP_TRACEPOINT
  else if ty =? 9 then SESSION_CAP_USDT
  else if ty =? 10 then SESSION_CAP_PROFILE_TIMER
  else 0.

Lemma set_hint_bits ty h n : 0 <= n ->
  Z.testbit (as_capability_bits (set_hint ty h)) n
  = Z.testbit (as_capability_bits h) n || Z.testbit (cap_of_type ty) n.
Proof.
  intros Hn. rewrite !capability_bits by done. unfold set_hint, cap_of_type.
  change PROBE_TYPE_UPROBE with 2. change PROBE_TYPE_UPROBE_BY_SYM with 4. change PROBE_TYPE_URETPROBE with 3.
  change PROBE_TYPE_URETPROBE_BY_SYM with 5. change PROBE_TYPE_FENTRY with 6. change PROBE_TYPE_FEXIT with 7.
  change PROBE_TYPE_TRACEPOINT with 8. change PROBE_TYPE_USDT with 9. change PROBE_TYPE_PROFILE_TIMER with 10.
  destruct h as [b0 b1 b2 b3 b4 b5 b6 b7 b8 b9 b10 b11 b12 b13 b14 b15 b16]; cbn [hint_caps existsb fst snd uses_fbt uses_tracepoint uses_uprobe uses_uretprobe uses_usdt uses_profile_timer
    uses_stack uses_ustack uses_agg_count uses_agg_sum uses_agg_min uses_agg_max uses_agg_avg uses_agg_stddev
    uses_agg_quantize uses_agg_lquantize uses_agg_llquantize].
  repeat match goal with |- context [if ?b then _ else _] => destruct b end;
    cbn [hint_caps existsb fst snd uses_fbt uses_tracepoint uses_uprobe uses_uretprobe uses_usdt uses_profile_timer
      uses_stack uses_ustack uses_agg_count uses_agg_sum uses_agg_min uses_agg_max uses_agg_avg uses_agg_stddev
      uses_agg_quantize uses_agg_lquantize uses_agg_llquantize];
    rewrite ?Z.testbit_0_l, ?orb_false_r; try done;
    match goal with |- _ = _ || Z.testbit ?c n => destruct (Z.testbit c n) end;
    by rewrite ?andb_false_r, ?orb_false_l, ?orb_false_r, ?orb_true_r, ?orb_true_l.
Qed.

Lemma hints_bits progs n : 0 <= n ->
  Z.testbit (as_capability_bits (hints_from_probe_types progs)) n
  = existsb (fun p => Z.testbit (cap_of_type (lp_probe_type p)) n) progs.
Proof.
  intros Hn. unfold hints_from_probe_types.
  assert (G : forall h, Z.testbit (as_capability_bits (fold_left (fun h p => set_hint (lp_probe_type p) h) progs h)) n
    = Z.testbit (as_capability_bits h) n || existsb (fun p => Z.testbit (cap_of_type (lp_probe_type p)) n) progs).
  { induction progs as [|p progs IH]; intros h; cbn [fold_left existsb]; [by rewrite orb_false_r|].
    rewrite IH, set_hint_bits by done. by rewrite <- orb_assoc. }
  rewrite G. by rewrite capability_bits by done.
Qed.

(** A session is sent as one command, whose length word covers what
    follows it and whose envelope a guest decodes: the DOF is at the offset
    and of the length the envelope gives and ends the command, the digest and
    the session's identifier are of that DOF, and the capabilities it requests
    are those of the programs' probe types. *)
Theorem direct_load_read progs dof (Hd : dof <> []) (Hl : len dof + 96 < 2 ^ 32) :
  exists p env,
    build_direct_load_progs progs dof = Ret {| dl_payloads := [p]; dl_statuses := [RSP_LOADPROG_STATUS_OK] |}
    /\ le_at (E:=DecodeError) 4 p 0 = Ret BIFROST_CMD_OP_DTRACE_SESSION
    /\ le_at (E:=DecodeError) 4 p 4 = Ret (len p - 8)
    /\ Envelope.decode (drop 8 p) = Ret env
    /\ slice (E:=DecodeError) p (dof_offset env) (dof_offset env + dof_length env) = Ret dof
    /\ dof_offset env + dof_length env = len p
    /\ dof_sha256 env = sha256_no_alloc dof
    /\ session_id env = LittleEndianList.le_combine (take 8 (sha256_no_alloc dof))
    /\ target_os env = TARGET_OS_LINUX /\ duration_ms env = 0 /\ capability_required env = 0
    /\ forall n, 0 <= n ->
         Z.testbit (capability_request env) n = existsb (fun p => Z.testbit (cap_of_type (lp_probe_type p)) n) progs.
Proof.
  set (sid := LittleEndianList.le_combine (take 8 (sha256_no_alloc dof))).
  set (env := session_envelope sid 0 (hints_from_probe_types progs) dof).
  pose proof (len_sha256 dof) as Ls. pose proof (len_nonneg dof) as Ln.
  assert (Hsid : in_u 64 sid).
  { pose proof (LittleEndianList.le_combine_bound (take 8 (sha256_no_alloc dof))) as B.
    rewrite length_take in B. unfold len in Ls. replace (8 `min` length (sha256_no_alloc dof))%nat with 8%nat in B by lia. exact B. }
  assert (Ho : envelope_ok env).
  { unfold envelope_ok. cbn [wire_major wire_minor target_os env_flags session_id duration_ms dof_offset dof_length
      dof_sha256 capability_request capability_required env session_envelope].
    split_and!; try done; [split; lia|apply capability_range]. }
  set (hdr := to_le 4 BIFROST_CMD_OP_DTRACE_SESSION ++ to_le 4 (u32 (DTRACE_SESSION_ENVELOPE_SIZE + len dof))).
  set (p := hdr ++ envelope_bytes env ++ dof).
  assert (Le : len (envelope_bytes env) = 96) by (apply len_envelope_bytes; exact Ls).
  assert (Lh : len hdr = 8) by (unfold hdr; by rewrite len_app, !len_to_le).
  assert (Lp : len p = 104 + len dof) by (unfold p; rewrite !len_app; lia).
  exists p, env. split.
  { unfold build_direct_load_progs. destruct (Z.eqb_spec (len dof) 0) as [E|_].
    { exfalso. apply Hd. destruct dof; [done|]. unfold len in E. cbn in E. lia. }
    cbv zeta. unfold build_session_payload. rewrite (encode_expect_ok env 96) by (done || lia). cbn [Nat.sub replicate].
    rewrite !bind_Ret, app_nil_r. done. }
  assert (U : u32 (DTRACE_SESSION_ENVELOPE_SIZE + len dof) = len p - 8)
    by (unfold u32; rewrite Z.mod_small; unfold DTRACE_SESSION_ENVELOPE_SIZE; lia).
  assert (S0 : suffix_at p 0 p) by apply suffix_at_0. unfold p at 2, hdr in S0. rewrite <- !app_assoc in S0.
  pose proof S0 as S4. adv S4 4. pose proof S4 as S8. adv S8 8. pose proof S8 as S104. adv S104 104.
  change (dof_offset env) with 104. change (dof_length env) with (len dof).
  split; [by apply (suffix_at_le _ _ _ _ _ S0)|].
  split; [rewrite <- U; apply (suffix_at_le _ _ _ _ _ S4); change (in_u 32 (u32 (DTRACE_SESSION_ENVELOPE_SIZE + len dof))); split; lia|].
  split.
  { assert (D : drop 8 p = envelope_bytes env ++ dof).
    { unfold p. rewrite drop_app_ge by (unfold len in Lh; lia). replace (8 - length hdr)%nat with 0%nat by (unfold len in Lh; lia). done. }
    rewrite D. by apply decode_envelope_bytes. }
  split; [rewrite <- (app_nil_r dof) in S104; by apply (suffix_at_slice _ _ _ _ _ S104)|].
  split_and!; try done. intros n Hn. by apply hints_bits.
Qed.

Definition program_of (ty : Z) : LoweredProgram :=
  {| lp_target := str "redis_cmd"; lp_schema := {| fields := []; printf_format := None |}; lp_maps := []; lp_ebpf := [];
     lp_probe_type := ty; lp_uprobe := None; lp_kfunc_relocs := []; lp_field_relocs := []; lp_period_ns := None |}.
Definition some_dof : bytes := u8b 0x7f :: str "DOF dummy contents".

Lemma direct_load_read_witness :
  exists p env, build_direct_load_progs [program_of 2; program_of 10] some_dof
      = Ret {| dl_payloads := [p]; dl_statuses := [RSP_LOADPROG_STATUS_OK] |}
    /\ Envelope.decode (drop 8 p) = Ret env /\ dof_sha256 env = sha256_no_alloc some_dof.
Proof.
  destruct (direct_load_read [program_of 2; program_of 10] some_dof) as (p & env & H1 & _ & _ & H2 & _ & _ & H3 & _).
  - done.
  - by vm_compute.
  - exists p, env. exact (conj H1 (conj H2 H3)).
Defined.

Example empty_dof_rejected : build_direct_load_progs [] [] = Throw EmptyDof.
Proof. done. Qed.

Example hints_pick_up_probe_types :
  as_capability_bits (hints_from_probe_types [program_of PROBE_TYPE_UPROBE]) = SESSION_CAP_UPROBE.
Proof. by vm_compute. Qed.
