(* ===== verification/Wrapper.v ===== *)
(** Wrapper construction (host/bifrost, src/cli/wrapper.rs): compiled programs
    in the BFR7 format, and that the decoder reads them back. *)

From Stdlib Require Import Strings.String.
From stdpp Require Import list.
From S2P Require Import Wire.
From S2P Require Import FailStop.
From S2P Require Import FieldReloc.
From S2P Require Import Bfr7.
From S2P Require Import Verify.
From S2P Require Import Emit.
From S2P Require Import Schema.
From S2P Require Import LinuxCompile.
From S2P Require Import Prelude.

Local Open Scope Z_scope.
Local Open Scope list_scope.

(** The strings a message repeats are left out, and the errors of writing a
    file. *)
Inductive WrapperError : Type :=
| MissingUprobeTarget (variant : string)
| UprobePathTooLong (n : Z)
| UprobeBasenameOutOfRange (n : Z)
| UprobeSymbolOutOfRange (n : Z)
| WrapperKfuncOutOfRange (n : Z)
| Codec (e : WireError).

Definition from_wire_error (e : WireError) : WrapperError :=
  match e with
  | PathTooLong l => UprobePathTooLong l
  | BasenameOutOfRange l => UprobeBasenameOutOfRange l
  | SymbolOutOfRange l | ProbeOutOfRange l => UprobeSymbolOutOfRange l
  | ProviderOutOfRange l => UprobeBasenameOutOfRange l
  | KfuncNameOutOfRange l => WrapperKfuncOutOfRange l
  | other => Codec other
  end.

(** The trailer a program's probe type asks for. *)
Definition trailer_for (p : LoweredProgram) : outcome WrapperError TrailerSpec :=
  let ty := lp_probe_type p in
  if (ty =? 2) || (ty =? 3) then
    u ← ok_or (lp_uprobe p) (MissingUprobeTarget "host-resolved");
    Ret (TrailerPath (ut_guest_path u) (ut_file_offset u))
  else if (ty =? 4) || (ty =? 5) then
    u ← ok_or (lp_uprobe p) (MissingUprobeTarget "kernel-resolved");
    Ret (TrailerSymbol (ut_basename u) (ut_symbol u))
  else if ty =? 9 then
    u ← ok_or (lp_uprobe p) (MissingUprobeTarget "USDT");
    Ret (TrailerUsdt (ut_basename u) (ut_sdt_provider u) (ut_symbol u))
  else if ty =? 10 then Ret (TrailerProfileTimer (default 1000000000 (lp_period_ns p)))
  else Ret TrailerNone.

Definition program_spec (p : LoweredProgram) (schema_buf : bytes) (t : TrailerSpec) : ProgramSpec :=
  {| sp_target_name := lp_target p; sp_probe_type := lp_probe_type p; sp_trailer := t; sp_schema_bytes := schema_buf;
     sp_maps := lp_maps p; sp_insns := lp_ebpf p;
     sp_kfunc_relocs := map (fun r => (r.1, str r.2)) (lp_kfunc_relocs p); sp_field_relocs := lp_field_relocs p |}.

(** A call of the codec, its error translated by [?]. *)
Definition codec {A} (m : st bytes WireError A) : st bytes WrapperError A := fun s =>
  match m s with
  | (Ret a, s) => (Ret a, s)
  | (Throw e, s) => (Throw (from_wire_error e), s)
  | (Panic, s) => (Panic, s)
  end.

Fixpoint push_wrapped (l : list (LoweredProgram * bytes)) : st bytes WrapperError unit :=
  match l with
  | [] => mret tt
  | (p, schema_buf) :: l =>
      trailer ← st_lift (trailer_for p);
      codec (push_program (program_spec p schema_buf trailer)) ;;
      push_wrapped l
  end.

Definition build_wrapper_bytes (programs : list LoweredProgram) : outcome WrapperError bytes :=
  schema_bufs ← mapM (fun p => encode (lp_schema p)) programs;
  match (codec (builder_new (len programs)) ;; push_wrapped (zip programs schema_bufs)) [] with
  | (Ret _, wrapped) => Ret wrapped
  | (Throw e, _) => Throw e
  | (Panic, _) => Panic
  end.

(** ** Programs that can be wrapped *)

Record wraps (p : LoweredProgram) : Prop := {
  w_trailer : exists t, trailer_for p = Ret t /\ trailer_ok (lp_probe_type p) t;
  w_schema : schema_ok (lp_schema p) /\ in_u 32 (len (schema_bytes (lp_schema p)));
  w_counts : in_u 32 (len (lp_maps p)) /\ in_u 32 (len (lp_kfunc_relocs p)) /\ in_u 32 (len (lp_field_relocs p));
  w_code : verify (lp_ebpf p) = Ret tt /\ in_u 32 (len (lp_ebpf p) / 8);
  w_kfuncs : Forall (fun r => in_u 32 r.1 /\ 1 <= len (str r.2) <= 255) (lp_kfunc_relocs p);
  w_fields : Forall reloc_ok (lp_field_relocs p)
}.

(** The view of a program that the decoder gives carries it. *)
Record carries (p : LoweredProgram) (v : ProgramView) : Prop := {
  cy_target : pv_target_name v = name32 (lp_target p);
  cy_type : pv_probe_type v = lp_probe_type p;
  cy_trailer : trailer_for p = Ret (pv_trailer v);
  cy_schema : Schema.decode (pv_schema_bytes v) = Ret (lp_schema p, len (pv_schema_bytes v));
  cy_maps : pv_num_maps v = len (lp_maps p) /\ pv_maps_bytes v = maps_bytes (lp_maps p);
  cy_insns : pv_insns v = lp_ebpf p /\ pv_num_insns v = len (lp_ebpf p) / 8 /\ verify (pv_insns v) = Ret tt;
  cy_kfuncs : pv_kfunc_relocs_bytes v = kfunc_table (map (fun r => (r.1, str r.2)) (lp_kfunc_relocs p));
  cy_fields : lp_field_relocs p <> [] -> exists it it',
    decode_field_relocs (pv_field_relocs_bytes v) = Ret it /\
    collect field_reloc_next (S (length (lp_field_relocs p))) it = Some (map Ok (lp_field_relocs p), it')
}.

Definition spec_of (p : LoweredProgram) : ProgramSpec :=
  program_spec p (schema_bytes (lp_schema p)) (match trailer_for p with Ret t => t | _ => TrailerNone end).

Lemma verified_whole b : verify b = Ret tt -> len b = len b / 8 * 8.
Proof.
  unfold verify, static_check. destruct (_ || _) eqn:E; [done|]. intros _. apply orb_false_iff in E as [_ E].
  apply negb_false_iff, Z.eqb_eq in E. pose proof (Z.div_mod (len b) 8). lia.
Qed.

Lemma spec_ok p : wraps p -> program_ok (spec_of p).
Proof.
  intros [(t & Ht & Hok) [_ Hs] (Hm & Hk & Hf) [Hv Hi] Hks Hfs]. unfold program_ok, spec_of, program_spec.
  cbn [sp_probe_type sp_trailer sp_schema_bytes sp_maps sp_kfunc_relocs sp_field_relocs sp_insns]. rewrite Ht.
  split_and!; [done..| |done| | |done].
  - unfold len in *. by rewrite length_map.
  - exists (len (lp_ebpf p) / 8). split; [by apply verified_whole|done].
  - apply list.Forall_forall. intros r Hr. apply list_elem_of_In, in_map_iff in Hr as (r' & <- & Hr).
    rewrite list.Forall_forall in Hks. by apply Hks, list_elem_of_In.
Qed.

Lemma schemas_back (progs : list LoweredProgram) : Forall wraps progs ->
  mapM (fun p => encode (E:=WrapperError) (lp_schema p)) progs = Ret (map (fun p => schema_bytes (lp_schema p)) progs).
Proof.
  induction 1 as [|p progs Hp Hps IH]; [done|]. cbn [mapM map].
  assert (E : encode (E:=WrapperError) (lp_schema p) = Ret (schema_bytes (lp_schema p))) by (exact (encode_shape _ _ (proj1 (w_schema p Hp)) eq_refl)).
  by rewrite E, bind_Ret, IH.
Qed.

Lemma codec_emits {A} (m : st bytes WireError A) a x v : emits m a x -> codec m v = (Ret a, v ++ x).
Proof. intros H. unfold codec. by rewrite H. Qed.

Lemma push_wrapped_run progs : Forall wraps progs -> forall v,
  push_wrapped (zip progs (map (fun p => schema_bytes (lp_schema p)) progs)) v
  = (Ret tt, v ++ concat (map program_bytes (map spec_of progs))).
Proof.
  induction 1 as [|p progs Hp Hps IH]; intros v; [by rewrite app_nil_r|]. cbn [map zip zip_with push_wrapped concat].
  destruct Hp as [(t & Ht & Hok) ?]. pose proof (spec_ok p ltac:(split; [by exists t|done..])) as Hs.
  unfold mbind, st_bind, st_lift. rewrite Ht.
  assert (E : program_spec p (schema_bytes (lp_schema p)) t = spec_of p) by (unfold spec_of; by rewrite Ht).
  rewrite E, (codec_emits _ tt (program_bytes (spec_of p)) v) by (by apply push_program_emits).
  rewrite IH. by rewrite <- app_assoc.
Qed.

Lemma wrapper_run progs : Forall wraps progs ->
  build_wrapper_bytes progs = Ret (wrapper_bytes (map spec_of progs)).
Proof.
  intros H. unfold build_wrapper_bytes. rewrite schemas_back, bind_Ret by done.
  unfold mbind, st_bind. rewrite (codec_emits _ tt (wrapper_header_bytes (wrapper_header_new (len progs)))) by apply emits_write.
  rewrite push_wrapped_run by done. f_equal. unfold wrapper_bytes. cbn [app]. f_equal.
  unfold len. by rewrite length_map.
Qed.

Lemma field_section_back l : l <> [] -> Forall reloc_ok l -> in_u 32 (len l) -> slice_len_ok (relocs_bytes l) ->
  exists it it', decode_field_relocs (field_section l) = Ret it /\
    collect field_reloc_next (S (length l)) it = Some (map Ok l, it').
Proof.
  intros Hn Hok Hl Hs.
  destruct (field_relocs_round_trip l [] Hok Hl) as (body & it & it' & He & H1 & H2); [by rewrite app_nil_r|].
  rewrite (encode_field_relocs_emits l Hok []) in He. injection He as <-. rewrite app_nil_r in H1.
  exists it, it'. by destruct l.
Qed.

Lemma spec_carries p : wraps p -> slice_len_ok (program_bytes (spec_of p)) -> carries p (program_view (spec_of p)).
Proof.
  intros Hw Hl. pose proof Hw as [(t & Ht & _) [Hs Hs32] (_ & _ & Hf) [Hv _] _ Hfs].
  split; cbn [program_view pv_target_name pv_probe_type pv_trailer pv_schema_bytes pv_num_maps pv_maps_bytes pv_insns pv_num_insns
    pv_kfunc_relocs_bytes pv_field_relocs_bytes spec_of program_spec sp_target_name sp_probe_type sp_trailer sp_schema_bytes
    sp_maps sp_insns sp_kfunc_relocs sp_field_relocs]; try done.
  - by rewrite Ht.
  - rewrite <- (app_nil_r (schema_bytes (lp_schema p))) at 1. by apply decode_schema_enc.
  - intros Hn. apply field_section_back; [done..|]. unfold slice_len_ok in *. revert Hl.
    unfold program_bytes. rewrite !len_app. pose_lens. cbn [spec_of program_spec sp_field_relocs].
    unfold field_section at 1. destruct (lp_field_relocs p); [done|]. lia.
Qed.

(** Verified programs with what their probe types need are wrapped, and
    the decoder reads the wrapper back, program by program and in order: the
    target, the probe type and its trailer, the schema, the maps, the same
    verified code, and its relocations. *)
Theorem wrapper_ships (progs : list LoweredProgram)
  (Hw : Forall wraps progs) (Hn : in_u 32 (len progs)) (Hl : slice_len_ok (wrapper_bytes (map spec_of progs))) :
  exists w it it' views,
    build_wrapper_bytes progs = Ret w /\ decode_bfr7 w = Ret it /\
    collect program_next (S (length progs)) it = Some (map Ok views, it') /\ Forall2 carries progs views.
Proof.
  destruct (decode_wrapper_enc (map spec_of progs) []) as (it & it' & H1 & H2).
  - apply list.Forall_forall. intros s Hs. apply list_elem_of_In, in_map_iff in Hs as (p & <- & Hp).
    rewrite list.Forall_forall in Hw. by apply spec_ok, Hw, list_elem_of_In.
  - unfold len. by rewrite length_map.
  - by rewrite app_nil_r.
  - rewrite app_nil_r in H1. rewrite length_map in H2.
    exists (wrapper_bytes (map spec_of progs)), it, it', (map (fun p => program_view (spec_of p)) progs).
    split; [by apply wrapper_run|]. split; [done|]. split; [by rewrite H2, !map_map|].
    apply Forall2_fmap_r, Forall_Forall2_diag. apply list.Forall_forall. intros p Hp.
    rewrite list.Forall_forall in Hw. apply spec_carries; [by apply Hw|].
    apply elem_of_Permutation in Hp as [l Hp]. revert Hl. unfold slice_len_ok, wrapper_bytes.
    assert (L : len (concat (map program_bytes (map spec_of progs)))
      = len (program_bytes (spec_of p)) + len (concat (map program_bytes (map spec_of l)))).
    { rewrite <- len_app. unfold len. f_equal. rewrite Hp. cbn [map concat]. done. }
    rewrite len_app, L. pose_lens. lia.
Qed.

(** ** Two programs *)

Definition code : bytes := bpf_mov64_imm 0 0 ++ bpf_exit.
Definition fbt : LoweredProgram :=
  {| lp_target := str "do_sys_openat2"; lp_schema := default_trace;
     lp_maps := [{| map_type := 1; key_size := 4; value_size := 8; max_entries := 16; fake_fd := 300; map_name := str "by_pid" |}];
     lp_ebpf := code; lp_probe_type := 6; lp_uprobe := None; lp_kfunc_relocs := [(1, "bifrost_agg_add"%string)];
     lp_field_relocs := [sample_reloc]; lp_period_ns := None |}.
Definition uprobe (target : option UprobeTarget) (ty : Z) : LoweredProgram :=
  {| lp_target := str "processCommand"; lp_schema := default_trace; lp_maps := []; lp_ebpf := code;
     lp_probe_type := ty; lp_uprobe := target; lp_kfunc_relocs := []; lp_field_relocs := []; lp_period_ns := None |}.
Definition redis : UprobeTarget :=
  {| ut_guest_path := str "/usr/bin/redis-server"; ut_file_offset := 0x1234; ut_sym_size := 64;
     ut_basename := str "redis-server"; ut_symbol := str "processCommand"; ut_sdt_provider := [] |}.

Lemma fbt_wraps : wraps fbt.
Proof.
  split.
  - exists TrailerNone. split; [done|]. by right; right; left.
  - split; [|by vm_compute]. split_and!; [|by vm_compute|done]. repeat (constructor; [by vm_compute|]). constructor.
  - by vm_compute.
  - by vm_compute.
  - constructor; [by vm_compute|constructor].
  - constructor; [apply sample_reloc_ok|constructor].
Qed.

Lemma uprobe_wraps : wraps (uprobe (Some redis) 4).
Proof.
  split; [|split; [|by vm_compute]|by vm_compute|by vm_compute|constructor|constructor].
  - eexists. split; [done|]. by vm_compute; split_and!; [left|..].
  - split_and!; [|by vm_compute|done]. repeat (constructor; [by vm_compute|]). constructor.
Qed.

Lemma wrapper_ships_witness :
  exists w it it' views,
    build_wrapper_bytes [fbt; uprobe (Some redis) 4] = Ret w /\ decode_bfr7 w = Ret it /\
    collect program_next 3 it = Some (map Ok views, it') /\ Forall2 carries [fbt; uprobe (Some redis) 4] views.
Proof.
  apply (wrapper_ships [fbt; uprobe (Some redis) 4]).
  - repeat constructor; apply fbt_wraps || apply uprobe_wraps.
  - by vm_compute.
  - by vm_compute.
Defined.

(** The tests of wrapper.rs, and its own errors. *)
Example empty_wrapper : build_wrapper_bytes [] = Ret (BFR7_MAGIC ++ to_le 4 0).
Proof. by vm_compute. Qed.

Example uprobe_needs_target :
  map (fun ty => build_wrapper_bytes [uprobe None ty]) [2; 4; 9]
  = [Throw (MissingUprobeTarget "host-resolved"); Throw (MissingUprobeTarget "kernel-resolved");
     Throw (MissingUprobeTarget "USDT")].
Proof. by vm_compute. Qed.

Example usdt_without_provider : build_wrapper_bytes [uprobe (Some redis) 9] = Throw (UprobeBasenameOutOfRange 0).
Proof. by vm_compute. Qed.
