(* ===== verification/Printa.v ===== *)
(** The [printa()] renderer of the orchestrator (host/bifrost,
    src/cli/printa.rs): the calls of a clause body, and a row of the reducer
    put into a format.

    What is printed is a string; the cursor into a text is the rest of it. *)

From Stdlib Require Import Strings.String.
From stdpp Require Import list.
From S2P Require Import Ordered.
From S2P Require Import Schema.
From S2P Require Import AggSnapshot.
From S2P Require Import Text.
From S2P Require Import DParse.
From S2P Require Import Merge.
From S2P Require Import Prelude.

Local Open Scope Z_scope.
Local Open Scope list_scope.

(** ** Numbers *)

(** [i64::to_string] *)
Definition signed_decimal (v : Z) : bytes := if v <? 0 then u8b 0x2d :: decimal (- v) else decimal v.

Definition hex_digit (ten : Z) (d : Z) : Init.Byte.byte := u8b (if d <? 10 then 0x30 + d else ten + (d - 10)).
Fixpoint hex_fuel (fuel : nat) (ten n : Z) (acc : bytes) : bytes :=
  match fuel with
  | O => acc
  | S fuel =>
      let acc := hex_digit ten (n mod 16) :: acc in
      if n / 16 =? 0 then acc else hex_fuel fuel ten (n / 16) acc
  end.
(** [format!("{:x}")] and [format!("{:X}")] of a u64 *)
Definition lower_hex (n : Z) : bytes := hex_fuel 16 0x61 n [].
Definition upper_hex (n : Z) : bytes := hex_fuel 16 0x41 n [].

(** [str::parse] to an integer: digits, at most one [+] in front, and a [-]
    where the type has a sign. *)
Definition parse_digits (l : bytes) : option Z := if forallb is_ascii_digit l then DParse.parse_u64 l else None.
Definition parse_u64 (l : bytes) : option Z :=
  match l with x :: l' => if byte_is x 0x2b then parse_digits l' else parse_digits l | [] => None end.
(** The narrower types without a sign. *)
Definition parse_upto (max : Z) (l : bytes) : option Z :=
  match parse_u64 l with Some n => if n <=? max then Some n else None | None => None end.
Definition parse_i64 (l : bytes) : option Z :=
  match l with
  | x :: l' =>
      if byte_is x 0x2d then
        match parse_digits l' with Some n => if n <=? 2 ^ 63 then Some (- n) else None | None => None end
      else match parse_u64 l with Some n => if n <=? I64_MAX then Some n else None | None => None end
  | [] => None
  end.

(** ** Calls in a clause body *)

Definition spec_named (word : string) (s : ProbeSpec) : bool :=
  is_str (spec_provider s) word || (is_str (spec_provider s) "dtrace" && is_str (spec_name s) word).
Definition is_end_clause (c : Clause) : bool := existsb (spec_named "END") (clause_specs c).
Definition is_begin_clause (c : Clause) : bool := existsb (spec_named "BEGIN") (clause_specs c).

(** The bytes to the closing quote, and the rest from it on. *)
Fixpoint scan_string (escape : bool) (l : bytes) : option (bytes * bytes) :=
  match l with
  | [] => None
  | b :: l' =>
      let next e := match scan_string e l' with Some (s, rest) => Some (b :: s, rest) | None => None end in
      if escape then next false
      else if byte_is b 0x5c then next true
      else if byte_is b 0x22 then Some ([], l)
      else next false
  end.

Fixpoint unescape_d_string (s : bytes) : bytes :=
  match s with
  | [] => []
  | ch :: s =>
      if negb (byte_is ch 0x5c) then ch :: unescape_d_string s
      else
        match s with
        | [] => [ch]
        | c :: s =>
            let rest := unescape_d_string s in
            if byte_is c 0x6e then NL :: rest
            else if byte_is c 0x74 then u8b 0x09 :: rest
            else if byte_is c 0x72 then u8b 0x0d :: rest
            else if byte_is c 0x5c then u8b 0x5c :: rest
            else if byte_is c 0x22 then u8b 0x22 :: rest
            else if byte_is c 0x30 then u8b 0 :: rest
            else ch :: c :: rest
        end
  end.

(** A string literal behind white space: what it says, and the text behind it. *)
Definition parse_format (rest : bytes) : option (bytes * bytes) :=
  match skip_whitespace rest with
  | b :: l =>
      if byte_is b 0x22 then
        match scan_string false l with
        | Some (s, _ :: after) => Some (unescape_d_string s, after)
        | _ => None
        end
      else None
  | [] => None
  end.

Record PrintfCall : Type := { rendered : bytes }.

Definition parse_printf_args (rest : bytes) : option (PrintfCall * bytes) :=
  match parse_format rest with
  | Some (format, after) =>
      match skip_whitespace after with
      | b :: l => if byte_is b 0x29 then Some ({| rendered := format |}, l) else None
      | [] => None
      end
  | None => None
  end.

Record PrintaCall : Type := { pa_format : bytes; pa_aggs : list bytes }.

Fixpoint parse_aggs (fuel : nat) (l : bytes) (aggs : list bytes) : option (list bytes * bytes) :=
  match fuel with
  | O => None
  | S fuel =>
      match skip_whitespace l with
      | [] => None
      | b :: l =>
          if byte_is b 0x29 then Some (aggs, l)
          else if negb (byte_is b 0x2c) then None
          else
            match skip_whitespace l with
            | c :: l =>
                if byte_is c 0x40 then
                  match take_ident l with
                  | ([], _) => None
                  | (name, rest) => parse_aggs fuel rest (aggs ++ [name])
                  end
                else None
            | [] => None
            end
      end
  end.

Definition parse_printa_args (rest : bytes) : option (PrintaCall * bytes) :=
  match parse_format rest with
  | Some (format, after) =>
      match parse_aggs (S (length after)) after [] with
      | Some (aggs, rest) => Some ({| pa_format := format; pa_aggs := aggs |}, rest)
      | None => None
      end
  | None => None
  end.

Fixpoint scan_printf (fuel : nat) (l : bytes) : list PrintfCall :=
  match fuel, l with
  | S fuel, _ :: l' =>
      match drop_prefix (str "printa(") l with
      | Some after => scan_printf fuel after
      | None =>
          match drop_prefix (str "printf(") l with
          | Some after =>
              match parse_printf_args after with
              | Some (call, rest) => call :: scan_printf fuel rest
              | None => scan_printf fuel l'
              end
          | None => scan_printf fuel l'
          end
      end
  | _, _ => []
  end.
Definition scan_printf_calls (body : bytes) : list PrintfCall := scan_printf (length body) body.

Fixpoint scan_printa (fuel : nat) (l : bytes) : list PrintaCall :=
  match fuel, l with
  | S fuel, _ :: l' =>
      match drop_prefix (str "printa(") l with
      | Some after =>
          match parse_printa_args after with
          | Some (call, rest) => call :: scan_printa fuel rest
          | None => scan_printa fuel l'
          end
      | None => scan_printa fuel l'
      end
  | _, _ => []
  end.
Definition scan_printa_calls (body : bytes) : list PrintaCall := scan_printa (length body) body.

(** ** A row in a format *)

(** [split_key]: the commas outside quotes and brackets cut. *)
Fixpoint split_key_from (depth : Z) (in_quote : bool) (cur key : bytes) : list bytes :=
  match key with
  | [] => [cur]
  | ch :: key =>
      let keep d q := split_key_from d q (cur ++ [ch]) key in
      if byte_is ch 0x22 then keep depth (negb in_quote)
      else if (byte_is ch 0x28 || byte_is ch 0x5b) && negb in_quote then keep (depth + 1) in_quote
      else if (byte_is ch 0x29 || byte_is ch 0x5d) && negb in_quote then keep (depth - 1) in_quote
      else if byte_is ch 0x2c && negb in_quote && (depth =? 0) then cur :: split_key_from depth in_quote [] key
      else keep depth in_quote
  end.
Definition split_key (key : bytes) : list bytes := match key with [] => [] | _ => split_key_from 0 false [] key end.

Definition is_flag (x : Init.Byte.byte) : bool := existsb (byte_is x) [0x2d; 0x2b; 0x20; 0x23; 0x30].

(** [spec], without its [%] *)
Definition parse_width (spec : bytes) : bool * Z :=
  let '(flags, rest) := span is_flag spec in
  let width := (span is_ascii_digit rest).1 in
  (existsb (fun x => byte_is x 0x2d) flags, default 0 (DParse.parse_u64 width)).

Definition pad_string (s : bytes) (width : Z) (left_pad : bool) : bytes :=
  if (width <=? len s) || (width =? 0) then s
  else
    let pad := replicate (Z.to_nat (width - len s)) SP in
    if left_pad then s ++ pad else pad ++ s.

(** [trimmed.strip_prefix('"').and_then(|s| s.strip_suffix('"')).unwrap_or(trimmed)] *)
Definition strip_quotes (t : bytes) : bytes :=
  match t with
  | b :: t' =>
      if byte_is b 0x22 then
        match rev t' with
        | e :: mid => if byte_is e 0x22 then rev mid else t
        | [] => t
        end
      else t
  | [] => t
  end.

Definition render_key_element (spec : bytes) (conv : Init.Byte.byte) (elem : bytes) : bytes :=
  let '(left_pad, width) := parse_width spec in
  let pad s := pad_string s width left_pad in
  if byte_is conv 0x73 then pad (strip_quotes (trim elem))
  else if byte_is conv 0x64 || byte_is conv 0x69 || byte_is conv 0x75
  then pad (signed_decimal (default 0 (parse_i64 (trim elem))))
  else if byte_is conv 0x78 then pad (lower_hex (default 0 (parse_u64 (trim elem))))
  else if byte_is conv 0x58 then pad (upper_hex (default 0 (parse_u64 (trim elem))))
  else elem.

(** [parts.join(sep)] *)
Fixpoint join (sep : bytes) (parts : list bytes) : bytes :=
  match parts with
  | [] => []
  | [p] => p
  | p :: parts => p ++ sep ++ join sep parts
  end.
Definition bucket_text (bc : Z * Z) : bytes := signed_decimal bc.1 ++ u8b 0x3a :: decimal bc.2.

Definition render_agg_value (spec : bytes) (conv : Init.Byte.byte) (cell : CrossTargetAggCell) : bytes :=
  let '(left_pad, width) := parse_width spec in
  match value cell with
  | Scalar v =>
      if byte_is conv 0x64 || byte_is conv 0x69 then pad_string (signed_decimal v) width left_pad
      else if byte_is conv 0x75 then pad_string (decimal (v mod 2 ^ 64)) width left_pad
      else if byte_is conv 0x78 then pad_string (lower_hex (v mod 2 ^ 64)) width left_pad
      else signed_decimal v
  | Histogram [] => str "{}"
  | Histogram buckets => str "{ " ++ join (str ", ") (map bucket_text buckets) ++ str " }"
  end.

(** Flags, width and precision of a directive. *)
Definition take_spec (l : bytes) : bytes * bytes :=
  let '(flags, l) := span is_flag l in
  let '(width, l) := span is_ascii_digit l in
  match l with
  | b :: l' =>
      if byte_is b 0x2e then let '(digits, l) := span is_ascii_digit l' in (flags ++ width ++ b :: digits, l)
      else (flags ++ width, l)
  | [] => (flags ++ width, l)
  end.
Definition take_marker (l : bytes) : bool * bytes :=
  match l with b :: l' => if byte_is b 0x40 then (true, l') else (false, l) | [] => (false, l) end.

Fixpoint format_loop (fuel : nat) (format : bytes) (key_iter : list bytes) (cell : CrossTargetAggCell) : bytes :=
  match fuel, format with
  | S fuel, b :: l =>
      if negb (byte_is b 0x25) then char_of b ++ format_loop fuel l key_iter cell
      else
        let '(spec, rest) := take_spec l in
        let '(is_agg, rest) := take_marker rest in
        match rest with
        | [] => format
        | conv :: rest =>
            if byte_is conv 0x25 then u8b 0x25 :: format_loop fuel rest key_iter cell
            else if is_agg then render_agg_value spec conv cell ++ format_loop fuel rest key_iter cell
            else
              render_key_element spec conv (default [] (head key_iter)) ++ format_loop fuel rest (tail key_iter) cell
        end
  | _, _ => []
  end.
Definition render_format (format key : bytes) (cell : CrossTargetAggCell) : bytes :=
  format_loop (length format) format (split_key key) cell.

(** ** Clauses *)

Definition rows_of (agg : bytes) (r : CrossTargetAggReducer) : list (bytes * CrossTargetAggCell) :=
  omap (fun '((n, k), cell) => if bool_decide (n = agg) then Some (k, cell) else None) r.
Definition render_one_printa (call : PrintaCall) (r : CrossTargetAggReducer) : bytes :=
  flat_map (fun agg => flat_map (fun '(key, cell) => render_format (pa_format call) key cell) (rows_of agg r)) (pa_aggs call).

Definition render_row (name key : bytes) (cell : CrossTargetAggCell) : bytes :=
  let head := str "xagg @" ++ name ++ str "[" ++ key ++ str "] = " in
  match value cell with
  | Scalar v => head ++ signed_decimal v ++ [NL]
  | Histogram buckets => head ++ str "quantize { " ++ join (str ", ") (map bucket_text buckets) ++ str " }" ++ [NL]
  end
  ++ match map fst (contributors cell) with
     | [] => []
     | ids => str "  contributors: " ++ join (str ", ") ids ++ [NL]
     end.

Definition end_clauses (parsed : Parsed) : list Clause := filter (fun c => is_end_clause c = true) (clauses parsed).
Definition render_end_clause (r : CrossTargetAggReducer) (c : Clause) : bytes :=
  flat_map rendered (scan_printf_calls (clause_body c))
  ++ flat_map (fun call => render_one_printa call r) (scan_printa_calls (clause_body c)).
Definition printa_named_aggs (parsed : Parsed) : list bytes :=
  flat_map (fun c => flat_map pa_aggs (scan_printa_calls (clause_body c))) (end_clauses parsed).

(** What is printed at the end of a session. *)
Definition render_end_printa (parsed : Parsed) (r : CrossTargetAggReducer) : bytes :=
  flat_map (render_end_clause r) (end_clauses parsed)
  ++ flat_map (fun '((name, key), cell) =>
       if bool_decide (name ∈ printa_named_aggs parsed) then [] else render_row name key cell) r.

(** And at its start. *)
Definition render_begin_printf (parsed : Parsed) : bytes :=
  flat_map (fun c => if is_begin_clause c then flat_map rendered (scan_printf_calls (clause_body c)) else [])
    (clauses parsed).

(** * Scanning

    Statements as a D program writes them, with the escapes of the language. *)

Definition escape_byte (c : Init.Byte.byte) : bytes :=
  if byte_is c 0x0a then str "\n" else if byte_is c 0x09 then str "\t" else if byte_is c 0x0d then str "\r"
  else if byte_is c 0x5c then str "\\" else if byte_is c 0x22 then u8b 0x5c :: [u8b 0x22]
  else if byte_is c 0 then str "\0" else [c].
Definition escape (s : bytes) : bytes := flat_map escape_byte s.
Definition QUOTE : Init.Byte.byte := u8b 0x22.

Inductive stmt : Type :=
  | S_printf (format : bytes)
  | S_printa (call : PrintaCall).

Definition print_agg (agg : bytes) : bytes := str ", @" ++ agg.
Definition print_stmt (s : stmt) : bytes :=
  match s with
  | S_printf f => str "printf(" ++ QUOTE :: escape f ++ QUOTE :: str ");"
  | S_printa c => str "printa(" ++ QUOTE :: escape (pa_format c) ++ QUOTE :: flat_map print_agg (pa_aggs c) ++ str ");"
  end.
Definition print_body (ss : list stmt) : bytes := flat_map print_stmt ss.

Definition printfs (ss : list stmt) : list PrintfCall :=
  omap (fun s => match s with S_printf f => Some {| rendered := f |} | S_printa _ => None end) ss.
Definition printas (ss : list stmt) : list PrintaCall :=
  omap (fun s => match s with S_printa c => Some c | S_printf _ => None end) ss.

(** No opening parenthesis in a text, the names of a call well formed. *)
Definition no_paren (s : bytes) : Prop := Forall (fun x => byte_is x 0x28 = false) s.
Definition agg_name (s : bytes) : Prop := s <> [] /\ Forall (fun x => is_ident_byte x = true) s.
Definition stmt_ok (s : stmt) : Prop :=
  match s with S_printf f => no_paren f | S_printa c => no_paren (pa_format c) /\ Forall agg_name (pa_aggs c) end.

Lemma escape_cons c s : escape (c :: s) = escape_byte c ++ escape s.
Proof. done. Qed.

Lemma unescape_byte c s : unescape_d_string (escape_byte c ++ s) = c :: unescape_d_string s.
Proof. destruct c; reflexivity. Qed.

Lemma unescape_escape s : unescape_d_string (escape s) = s.
Proof. induction s as [|c s IH]; [done|]. by rewrite escape_cons, unescape_byte, IH. Qed.

Lemma scan_string_byte c s t rest :
  scan_string false s = Some (t, rest) -> scan_string false (escape_byte c ++ s) = Some (escape_byte c ++ t, rest).
Proof. intros H. destruct c; cbn; by rewrite H. Qed.

Lemma scan_string_escape s rest : scan_string false (escape s ++ QUOTE :: rest) = Some (escape s, QUOTE :: rest).
Proof.
  induction s as [|c s IH]; [done|]. rewrite escape_cons, <- !app_assoc. by apply scan_string_byte.
Qed.

Lemma parse_format_escape s rest : parse_format (QUOTE :: escape s ++ QUOTE :: rest) = Some (s, rest).
Proof.
  unfold parse_format. change (skip_whitespace (QUOTE :: ?l)) with (QUOTE :: l). cbn beta iota.
  change (byte_is QUOTE 0x22) with true. cbn iota. rewrite scan_string_escape. cbn iota. by rewrite unescape_escape.
Qed.

Lemma parse_aggs_print aggs : Forall agg_name aggs -> forall fuel acc rest, (length aggs < fuel)%nat ->
  parse_aggs fuel (flat_map print_agg aggs ++ u8b 0x29 :: rest) acc = Some (acc ++ aggs, rest).
Proof.
  induction 1 as [|a aggs [Ha Hi] H IH]; intros fuel acc rest Hf; (destruct fuel as [|fuel]; [cbn in Hf; lia|]).
  - by rewrite app_nil_r.
  - cbn [flat_map]. unfold print_agg at 1. rewrite <- !app_assoc.
    change (parse_aggs (S fuel) (str ", @" ++ ?l) acc) with
      (match take_ident l with ([], _) => None | (name, rest) => parse_aggs fuel rest (acc ++ [name]) end).
    unfold take_ident. rewrite span_app; [|done|by destruct aggs].
    destruct a as [|x a]; [done|]. rewrite IH by (cbn in Hf; lia). by rewrite <- app_assoc.
Qed.

Lemma flat_map_longer {A B} (f : A -> list B) l : (forall x, f x <> []) -> (length l <= length (flat_map f l))%nat.
Proof.
  intros Hf. induction l as [|x l IH]; [done|]. cbn [flat_map]. rewrite length_app. cbn [length].
  specialize (Hf x). destruct (f x); [done|]. cbn [length]. lia.
Qed.

Lemma parse_printa_print c rest : Forall agg_name (pa_aggs c) ->
  parse_printa_args (QUOTE :: escape (pa_format c) ++ QUOTE :: flat_map print_agg (pa_aggs c) ++ u8b 0x29 :: rest) =
  Some (c, rest).
Proof.
  intros H. unfold parse_printa_args. rewrite parse_format_escape. cbn iota.
  rewrite (parse_aggs_print _ H _ []); [by destruct c|].
  rewrite length_app. pose proof (flat_map_longer print_agg (pa_aggs c) ltac:(done)). lia.
Qed.

Lemma parse_printf_print f rest :
  parse_printf_args (QUOTE :: escape f ++ QUOTE :: u8b 0x29 :: rest) = Some ({| rendered := f |}, rest).
Proof. unfold parse_printf_args. by rewrite parse_format_escape. Qed.

(** A text that no call starts in is passed over. *)
Definition SEMI : Init.Byte.byte := u8b 0x3b.
Lemma call_not_in z w text rest : byte_is z 0x28 = false -> no_paren text -> z ∉ w ->
  drop_prefix (w ++ [u8b 0x28]) (text ++ z :: rest) = None.
Proof.
  intros Hz Hp Hw. destruct (drop_prefix _ _) as [after|] eqn:E; [|done]. exfalso. apply drop_prefix_Some in E.
  rewrite <- app_assoc in E. cbn [app] in E. revert w E Hw.
  induction Hp as [|x text Hx Hp IH]; intros [|y w] E Hw; cbn [app] in E.
  - by injection E as [= -> _].
  - injection E as [= <- _]. apply Hw. by left.
  - by injection E as [= -> _].
  - injection E as [= -> E]. apply (IH w E). intros Hs. apply Hw. by right.
Qed.

Lemma no_paren_escape s : no_paren s -> no_paren (escape s).
Proof.
  induction 1 as [|c s H Hs IH]; [by constructor|]. rewrite escape_cons. apply list.Forall_app_2; [|done].
  destruct c; (done || by repeat constructor).
Qed.

Lemma no_paren_aggs aggs : Forall agg_name aggs -> no_paren (flat_map print_agg aggs).
Proof.
  induction 1 as [|a aggs [_ Ha] H IH]; [by constructor|]. cbn [flat_map]. unfold print_agg.
  apply list.Forall_app_2; [|done]. apply list.Forall_app_2; [by repeat constructor|].
  refine (list.Forall_impl _ _ _ Ha _). intros x Hx. by destruct x.
Qed.

Lemma scan_printa_skip text rest : no_paren text -> forall fuel, (S (length text + length rest) <= fuel)%nat ->
  exists fuel', (length rest <= fuel')%nat /\ scan_printa fuel (text ++ SEMI :: rest) = scan_printa fuel' rest.
Proof.
  intros Hp. induction text as [|x text IH]; intros fuel Hf; (destruct fuel as [|fuel]; [cbn in Hf; lia|]).
  - exists fuel. cbn in Hf. split; [lia|done].
  - pose proof (call_not_in SEMI (str "printa") (x :: text) rest eq_refl Hp ltac:(by apply (bool_decide_unpack _))) as E.
    inversion_clear Hp as [|? ? _ Hp']. destruct (IH Hp' fuel) as (f' & Hf' & E'); [cbn in Hf; lia|].
    exists f'. split; [done|]. rewrite <- E'. cbn [app scan_printa] in *.
    change (str "printa" ++ [u8b 0x28]) with (str "printa(") in E. by rewrite E.
Qed.

Lemma scan_printf_skip text rest : no_paren text -> forall fuel, (S (length text + length rest) <= fuel)%nat ->
  exists fuel', (length rest <= fuel')%nat /\ scan_printf fuel (text ++ SEMI :: rest) = scan_printf fuel' rest.
Proof.
  intros Hp. induction text as [|x text IH]; intros fuel Hf; (destruct fuel as [|fuel]; [cbn in Hf; lia|]).
  - exists fuel. cbn in Hf. split; [lia|done].
  - pose proof (call_not_in SEMI (str "printa") (x :: text) rest eq_refl Hp ltac:(by apply (bool_decide_unpack _))) as E.
    pose proof (call_not_in SEMI (str "printf") (x :: text) rest eq_refl Hp ltac:(by apply (bool_decide_unpack _))) as F.
    inversion_clear Hp as [|? ? _ Hp']. destruct (IH Hp' fuel) as (f' & Hf' & E'); [cbn in Hf; lia|].
    exists f'. split; [done|]. rewrite <- E'. cbn [app scan_printf] in *.
    change (str "printa" ++ [u8b 0x28]) with (str "printa(") in E.
    change (str "printf" ++ [u8b 0x28]) with (str "printf(") in F. by rewrite E, F.
Qed.

(** Each scanner reads the statements it is for and passes over the others. *)
Lemma print_printa c rest : print_stmt (S_printa c) ++ rest =
  str "printa(" ++ QUOTE :: escape (pa_format c) ++ QUOTE :: flat_map print_agg (pa_aggs c) ++ u8b 0x29 :: SEMI :: rest.
Proof. cbn [print_stmt]. by rewrite <- !app_assoc; cbn [app]; rewrite <- !app_assoc; cbn [app]; rewrite <- !app_assoc. Qed.

Lemma print_printf f rest : print_stmt (S_printf f) ++ rest =
  str "printf(" ++ QUOTE :: escape f ++ QUOTE :: u8b 0x29 :: SEMI :: rest.
Proof. cbn [print_stmt]. by rewrite <- !app_assoc; cbn [app]; rewrite <- !app_assoc. Qed.

Lemma scan_printa_stmt s rest fuel : stmt_ok s -> (length (print_stmt s ++ rest) <= fuel)%nat ->
  exists fuel', (length rest <= fuel')%nat /\
    scan_printa fuel (print_stmt s ++ rest) = printas [s] ++ scan_printa fuel' rest.
Proof.
  intros Hok Hf. destruct s as [f|c]; [rewrite print_printf in * | rewrite print_printa in *].
  - replace fuel with (7 + (fuel - 7))%nat by (rewrite length_app in Hf; cbn in Hf; lia).
    change (scan_printa (7 + ?n) (str "printf(" ++ ?l)) with (scan_printa n l).
    destruct (scan_printa_skip (QUOTE :: escape f ++ [QUOTE; u8b 0x29]) rest) with (fuel := (fuel - 7)%nat) as (g & Hg & E).
    + constructor; [done|]. apply list.Forall_app_2; [by apply no_paren_escape|by repeat constructor].
    + revert Hf. rewrite !length_app. cbn [length]. rewrite !length_app. cbn [length]. rewrite ?length_str. cbn. lia.
    + exists g. split; [done|]. cbn [printas omap app]. rewrite <- E. cbn [app]. by rewrite <- app_assoc.
  - destruct Hok as [Hp Ha]. destruct fuel as [|[|fuel]]; [rewrite length_app in Hf; cbn in Hf; lia..|].
    exists fuel. split.
    + revert Hf. rewrite !length_app. cbn [length]. rewrite !length_app. cbn [length]. rewrite !length_app. cbn. lia.
    + change (scan_printa (S (S fuel)) (str "printa(" ++ ?l)) with
        (match parse_printa_args l with
         | Some (call, r) => call :: scan_printa (S fuel) r
         | None => scan_printa (S fuel) (drop 1 (str "printa(") ++ l)
         end).
      by rewrite (parse_printa_print _ (SEMI :: rest) Ha).
Qed.

Lemma scan_printf_stmt s rest fuel : stmt_ok s -> (length (print_stmt s ++ rest) <= fuel)%nat ->
  exists fuel', (length rest <= fuel')%nat /\
    scan_printf fuel (print_stmt s ++ rest) = printfs [s] ++ scan_printf fuel' rest.
Proof.
  intros Hok Hf. destruct fuel as [|[|fuel]]; [destruct s; cbn in Hf; lia..|].
  destruct s as [f|c]; [rewrite print_printf in * | rewrite print_printa in *].
  - exists fuel. split.
    + revert Hf. rewrite !length_app. cbn [length]. rewrite !length_app. cbn. lia.
    + change (scan_printf (S (S fuel)) (str "printf(" ++ ?l)) with
        (match parse_printf_args l with
         | Some (call, r) => call :: scan_printf (S fuel) r
         | None => scan_printf (S fuel) (drop 1 (str "printf(") ++ l)
         end).
      by rewrite parse_printf_print.
  - destruct Hok as [Hp Ha]. change (scan_printf (S (S fuel)) (str "printa(" ++ ?l)) with (scan_printf (S fuel) l).
    destruct (scan_printf_skip (QUOTE :: escape (pa_format c) ++ QUOTE :: flat_map print_agg (pa_aggs c) ++ [u8b 0x29]) rest)
      with (fuel := S fuel) as (g & Hg & E).
    + constructor; [done|]. apply list.Forall_app_2; [by apply no_paren_escape|]. constructor; [done|].
      apply list.Forall_app_2; [by apply no_paren_aggs|by repeat constructor].
    + revert Hf. rewrite !length_app. cbn [length]. rewrite !length_app. cbn [length]. rewrite !length_app. cbn. lia.
    + exists g. split; [done|]. cbn [printfs omap app]. rewrite <- E. cbn [app].
      by rewrite <- !app_assoc; cbn [app]; rewrite <- !app_assoc.
Qed.

(** a clause body written as literal [printf] and [printa] statements, in
    any order, with every format escaped the way the language asks: the
    scanner of each kind finds exactly the calls of its kind, in their order,
    with the formats and the aggregation names that were written. *)
Theorem scan_statements ss : Forall stmt_ok ss ->
  scan_printf_calls (print_body ss) = printfs ss /\ scan_printa_calls (print_body ss) = printas ss.
Proof.
  intros H. unfold scan_printf_calls, scan_printa_calls.
  enough (E : forall fuel, (length (print_body ss) <= fuel)%nat ->
    scan_printf fuel (print_body ss) = printfs ss /\ scan_printa fuel (print_body ss) = printas ss) by (split; apply E; lia).
  induction H as [|s ss Hs H IH]; intros fuel Hf; [by destruct fuel|].
  destruct (scan_printf_stmt s (print_body ss) fuel Hs Hf) as (g & Hg & E).
  destruct (scan_printa_stmt s (print_body ss) fuel Hs Hf) as (h & Hh & F).
  change (print_body (s :: ss)) with (print_stmt s ++ print_body ss). rewrite E, F.
  rewrite (proj1 (IH g Hg)), (proj2 (IH h Hh)). by destruct s.
Qed.

(** * Rendering

    A format as a list of pieces: literal text, a literal [%], and directives
    for the next key element and for the value of the aggregation. *)

Record directive : Type := {
  d_flags : bytes;
  d_width : bytes;
  d_precision : option bytes;
  d_conv : Init.Byte.byte;
}.
Definition spec_of (d : directive) : bytes :=
  d_flags d ++ d_width d ++ match d_precision d with Some p => u8b 0x2e :: p | None => [] end.

Inductive fpiece : Type :=
  | F_text (t : bytes)
  | F_percent
  | F_key (d : directive)
  | F_agg (d : directive).

Definition print_fpiece (p : fpiece) : bytes :=
  match p with
  | F_text t => t
  | F_percent => str "%%"
  | F_key d => u8b 0x25 :: spec_of d ++ [d_conv d]
  | F_agg d => u8b 0x25 :: spec_of d ++ [u8b 0x40; d_conv d]
  end.

(** The text that the pieces stand for in a row: the key elements are taken in
    order, an absent one is empty. *)
Fixpoint render_fpieces (ps : list fpiece) (keys : list bytes) (cell : CrossTargetAggCell) : bytes :=
  match ps with
  | [] => []
  | F_text t :: ps => t ++ render_fpieces ps keys cell
  | F_percent :: ps => u8b 0x25 :: render_fpieces ps keys cell
  | F_key d :: ps =>
      render_key_element (spec_of d) (d_conv d) (default [] (head keys)) ++ render_fpieces ps (tail keys) cell
  | F_agg d :: ps => render_agg_value (spec_of d) (d_conv d) cell ++ render_fpieces ps keys cell
  end.

Definition digits (l : bytes) : Prop := Forall (fun x => is_ascii_digit x = true) l.
Definition directive_ok (d : directive) : Prop :=
  Forall (fun x => is_flag x = true) (d_flags d) /\ digits (d_width d) /\
  match d_width d with x :: _ => is_flag x = false | [] => True end /\
  match d_precision d with Some p => digits p | None => True end /\
  is_ascii_alphabetic (d_conv d) = true.
Definition fpiece_ok (p : fpiece) : Prop :=
  match p with
  | F_text t => Forall (fun x => ascii_byte x /\ byte_is x 0x25 = false) t
  | F_percent => True
  | F_key d | F_agg d => directive_ok d
  end.

(** What may follow the specification: its conversion, or the marker. *)
Definition ends_spec (x : Init.Byte.byte) : bool := is_ascii_alphabetic x || byte_is x 0x40.

Lemma ends_spec_facts x : ends_spec x = true ->
  is_flag x = false /\ is_ascii_digit x = false /\ byte_is x 0x2e = false /\ byte_is x 0x25 = false.
Proof. by destruct x. Qed.

Lemma take_spec_print d x rest : directive_ok d -> ends_spec x = true ->
  take_spec (spec_of d ++ x :: rest) = (spec_of d, x :: rest).
Proof.
  intros (Hf & Hw & H0 & Hp & _) (Ef & Ed & E2 & _)%ends_spec_facts. unfold take_spec, spec_of.
  destruct (d_precision d) as [p|]; rewrite <- !app_assoc.
  - rewrite (span_app is_flag (d_flags d)); [|done|by destruct (d_width d)].
    rewrite (span_app is_ascii_digit (d_width d)); [|done..]. cbn [app].
    change (byte_is (u8b 0x2e) 0x2e) with true. cbn iota. by rewrite (span_app is_ascii_digit p).
  - cbn [app]. rewrite (span_app is_flag (d_flags d)); [|done|by destruct (d_width d)].
    rewrite (span_app is_ascii_digit (d_width d)); [|done..]. by rewrite E2, app_nil_r.
Qed.

Lemma format_loop_text t rest keys cell : Forall (fun x => ascii_byte x /\ byte_is x 0x25 = false) t ->
  forall fuel, (length t <= fuel)%nat ->
  format_loop fuel (t ++ rest) keys cell = t ++ format_loop (fuel - length t) rest keys cell.
Proof.
  induction 1 as [|x t [Ha Hx] H IH]; intros fuel Hf; [by rewrite Nat.sub_0_r|].
  destruct fuel as [|fuel]; [cbn in Hf; lia|]. cbn [app format_loop]. rewrite Hx. cbn [negb].
  rewrite IH by (cbn in Hf; lia). unfold char_of. unfold ascii_byte in Ha.
  destruct (byte.unsigned x <? 0x80) eqn:E; [done|lia].
Qed.

Lemma format_loop_key d rest keys cell fuel : directive_ok d ->
  format_loop (S fuel) (u8b 0x25 :: spec_of d ++ d_conv d :: rest) keys cell =
  render_key_element (spec_of d) (d_conv d) (default [] (head keys)) ++ format_loop fuel rest (tail keys) cell.
Proof.
  intros Hd. pose proof Hd as (_ & _ & _ & _ & Hc).
  assert (Hs : ends_spec (d_conv d) = true) by (unfold ends_spec; by rewrite Hc).
  destruct (ends_spec_facts _ Hs) as (_ & _ & _ & Hn). cbn [format_loop].
  change (byte_is (u8b 0x25) 0x25) with true. cbn [negb]. rewrite take_spec_print by done. cbn [take_marker].
  assert (Hm : byte_is (d_conv d) 0x40 = false) by (revert Hc; clear; by destruct (d_conv d)). by rewrite Hm, Hn.
Qed.

Lemma format_loop_agg d rest keys cell fuel : directive_ok d ->
  format_loop (S fuel) (u8b 0x25 :: spec_of d ++ u8b 0x40 :: d_conv d :: rest) keys cell =
  render_agg_value (spec_of d) (d_conv d) cell ++ format_loop fuel rest keys cell.
Proof.
  intros Hd. pose proof Hd as (_ & _ & _ & _ & Hc).
  assert (Hs : ends_spec (d_conv d) = true) by (unfold ends_spec; by rewrite Hc).
  destruct (ends_spec_facts _ Hs) as (_ & _ & _ & Hn). cbn [format_loop].
  change (byte_is (u8b 0x25) 0x25) with true. cbn [negb]. rewrite take_spec_print by done. cbn [take_marker].
  change (byte_is (u8b 0x40) 0x40) with true. cbn iota. by rewrite Hn.
Qed.

Lemma format_loop_pieces ps cell : Forall fpiece_ok ps -> forall keys fuel,
  (length (flat_map print_fpiece ps) <= fuel)%nat ->
  format_loop fuel (flat_map print_fpiece ps) keys cell = render_fpieces ps keys cell.
Proof.
  induction 1 as [|p ps Hp H IH]; intros keys fuel Hf; [by destruct fuel|].
  cbn [flat_map] in *. rewrite length_app in Hf. destruct p as [t| |d|d]; cbn [print_fpiece render_fpieces fpiece_ok] in *.
  - rewrite format_loop_text by (done || lia). rewrite IH by lia. done.
  - destruct fuel as [|fuel]; [cbn in Hf; lia|].
    change (format_loop (S fuel) (str "%%" ++ ?l) keys cell) with (u8b 0x25 :: format_loop fuel l keys cell).
    rewrite IH by (cbn in Hf; lia). done.
  - destruct fuel as [|fuel]; [cbn in Hf; lia|]. cbn [app]. rewrite <- app_assoc. cbn [app].
    rewrite format_loop_key by done. rewrite IH by (cbn in Hf; lia). done.
  - destruct fuel as [|fuel]; [cbn in Hf; lia|]. cbn [app]. rewrite <- app_assoc. cbn [app].
    rewrite format_loop_agg by done. rewrite IH by (cbn in Hf; lia). done.
Qed.

(** A format made of ASCII text, [%%], directives for the key and [%@]
    directives for the value is rendered piece by piece. *)
Lemma render_format_pieces ps key cell : Forall fpiece_ok ps ->
  render_format (flat_map print_fpiece ps) key cell = render_fpieces ps (split_key key) cell.
Proof. intros H. unfold render_format. by apply format_loop_pieces. Qed.

(** ** Keys *)

(** Splitting a key cuts it: the elements joined by commas are the key. *)
Lemma split_key_join depth q cur key :
  join [u8b 0x2c] (split_key_from depth q cur key) = cur ++ key /\ split_key_from depth q cur key <> [].
Proof.
  revert depth q cur. induction key as [|ch key IH]; intros depth q cur.
  { split; [by rewrite app_nil_r|done]. }
  assert (K : forall d q', join [u8b 0x2c] (split_key_from d q' (cur ++ [ch]) key) = cur ++ ch :: key /\
                      split_key_from d q' (cur ++ [ch]) key <> []).
  { intros d q'. destruct (IH d q' (cur ++ [ch])) as [-> Hn]. split; [by rewrite <- app_assoc|done]. }
  cbn [split_key_from].
  destruct (byte_is ch 0x22); [apply K|]. destruct (_ && negb q); [apply K|]. destruct (_ && negb q); [apply K|].
  destruct (byte_is ch 0x2c && negb q && (depth =? 0)) eqn:E; [|apply K]. split; [|done].
  destruct (IH depth q []) as [J Hn]. destruct (split_key_from depth q [] key) as [|p ps] eqn:F; [done|].
  apply andb_true_iff in E as [[E _]%andb_true_iff _].
  assert (ch = u8b 0x2c) as -> by (revert E; clear; by destruct ch).
  change (cur ++ [u8b 0x2c] ++ join [u8b 0x2c] (p :: ps) = cur ++ u8b 0x2c :: key). by rewrite J.
Qed.

(** A padded text is as wide as asked, or as long as it is. *)
Lemma pad_length s width left_pad : 0 <= width -> len (pad_string s width left_pad) = Z.max width (len s).
Proof.
  intros H. unfold pad_string. pose proof (len_nonneg s).
  destruct (_ || _) eqn:E; [lia|]. destruct left_pad; rewrite len_app, len_replicate; lia.
Qed.

(** The elements of a key as the reducer writes them: a quoted string, or a
    number. *)
Inductive key_elem : Type :=
  | K_str (s : bytes)
  | K_int (n : Z).
Definition print_elem (e : key_elem) : bytes :=
  match e with K_str s => QUOTE :: s ++ [QUOTE] | K_int n => signed_decimal n end.
Definition elem_ok (e : key_elem) : Prop :=
  match e with
  | K_str s => Forall (fun x => byte_is x 0x22 = false) s
  | K_int n => I64_MIN <= n <= I64_MAX
  end.
(** What such an element shows under its own conversion. *)
Definition elem_conv (e : key_elem) : Init.Byte.byte := match e with K_str _ => u8b 0x73 | K_int _ => u8b 0x64 end.
Definition elem_text (e : key_elem) : bytes := match e with K_str s => s | K_int n => signed_decimal n end.

Lemma decimal_ok n : 0 <= n <= U64_MAX ->
  forallb is_ascii_digit (decimal n) = true /\ decimal n <> [] /\ DParse.parse_u64 (decimal n) = Some n.
Proof.
  intros H. assert (B : digits_value 0 (decimal n) = Some n).
  { unfold decimal. rewrite decimal_back; [done|done|unfold U64_MAX in H; cbn; lia|lia]. }
  assert (L : (0 < length (decimal n))%nat) by (apply decimal_some; lia).
  split; [by apply decimal_digits|]. destruct (decimal n) as [|x l]; [cbn in L; lia|]. by split.
Qed.

Lemma parse_signed n : I64_MIN <= n <= I64_MAX -> parse_i64 (signed_decimal n) = Some n.
Proof.
  unfold I64_MIN, I64_MAX, signed_decimal. intros H. destruct (Z.ltb_spec n 0) as [Hn|Hn].
  - destruct (decimal_ok (- n)) as (D & _ & P); [unfold U64_MAX; lia|]. cbn [parse_i64].
    change (byte_is (u8b 0x2d) 0x2d) with true. cbn iota. unfold parse_digits. rewrite D, P.
    destruct (Z.leb_spec (- n) (2 ^ 63)); [|lia]. by rewrite Z.opp_involutive.
  - destruct (decimal_ok n) as (D & N & P); [unfold U64_MAX; lia|]. unfold parse_i64, parse_u64, parse_digits.
    destruct (decimal n) as [|x l]; [done|]. pose proof D as [Dx _]%andb_prop.
    assert (byte_is x 0x2d = false /\ byte_is x 0x2b = false) as [-> ->] by (revert Dx; clear; by destruct x).
    rewrite D, P. unfold I64_MAX. by destruct (Z.leb_spec n (2 ^ 63 - 1)); [|lia].
Qed.

(** ** Trimming *)

(** No character of white space in front or behind of a text that starts and
    ends with a visible ASCII byte. *)
Definition visible (x : Init.Byte.byte) : Prop := 0x21 <= byte.unsigned x < 0x7f.

Lemma strip_one_visible x l : visible x -> strip_one white_chars (x :: l) = None.
Proof. unfold visible. destruct x; cbn; done || lia. Qed.
Lemma strip_one_visible_rev x l : visible x -> strip_one (map (@rev _) white_chars) (x :: l) = None.
Proof. unfold visible. destruct x; cbn; done || lia. Qed.

Lemma trim_with_none fuel cs l : strip_one cs l = None -> trim_with fuel cs l = l.
Proof. intros H. destruct fuel as [|fuel]; [done|]. cbn [trim_with]. by rewrite H. Qed.

Lemma trim_visible l : (exists x t, l = x :: t /\ visible x) -> (exists t x, l = t ++ [x] /\ visible x) -> trim l = l.
Proof.
  intros (x & t & -> & Hx) (t' & y & E & Hy). unfold trim, trim_start.
  rewrite (trim_with_none _ white_chars) by by apply strip_one_visible.
  unfold trim_end. rewrite E, rev_unit, trim_with_none by by apply strip_one_visible_rev.
  cbn [rev]. by rewrite rev_involutive.
Qed.

Lemma digits_ends l : forallb is_ascii_digit l = true -> l <> [] ->
  (exists x t, l = x :: t /\ visible x) /\ (exists t x, l = t ++ [x] /\ visible x).
Proof.
  intros H N. rewrite forallb_forall in H.
  assert (V : forall x, In x l -> visible x).
  { intros x Hx%H. revert Hx. unfold visible, is_ascii_digit, in_span. lia. }
  split.
  - destruct l as [|x t]; [done|]. exists x, t. split; [done|]. apply V. by left.
  - destruct (exists_last N) as (t & x & ->). exists t, x. split; [done|]. apply V. apply in_or_app. right. by left.
Qed.

(** ** Marker lines

    Numbers and fields between bars, behind a marker that starts with a hash. *)

Definition BAR : Init.Byte.byte := u8b 0x7c.
Definition HASH : Init.Byte.byte := u8b 0x23.

Lemma digits_no_hash l : forallb is_ascii_digit l = true -> HASH ∉ l.
Proof. rewrite forallb_forall. intros H X%list_elem_of_In%H. vm_compute in X. discriminate X. Qed.

Lemma decimal_no_hash n : 0 <= n <= U64_MAX -> HASH ∉ decimal n.
Proof. intros (D & _)%decimal_ok. by apply digits_no_hash. Qed.

Lemma trim_decimal n : 0 <= n <= U64_MAX -> trim (decimal n) = decimal n.
Proof. intros (D & N & _)%decimal_ok. apply trim_visible; by apply digits_ends. Qed.

Lemma parse_u64_decimal n : 0 <= n <= U64_MAX -> Printa.parse_u64 (decimal n) = Some n.
Proof.
  intros (D & N & P)%decimal_ok. unfold Printa.parse_u64, parse_digits. destruct (decimal n) as [|x l]; [done|].
  pose proof D as [Dx _]%andb_prop. assert (byte_is x 0x2b = false) as -> by (revert Dx; clear; by destruct x).
  by rewrite D, P.
Qed.

Lemma decimal_no_bar n : 0 <= n <= U64_MAX -> Forall (fun x => byte_is x 0x7c = false) (decimal n).
Proof.
  intros (D & _)%decimal_ok. rewrite forallb_forall in D. apply Forall_forall. intros x Hx%D.
  revert Hx. by destruct x.
Qed.

Lemma splitn_bar n a rest : Forall (fun x => byte_is x 0x7c = false) a ->
  splitn (S (S n)) 0x7c (a ++ BAR :: rest) = a :: splitn (S n) 0x7c rest.
Proof.
  intros H. cbn [splitn]. rewrite span_app; [done| |done].
  refine (list.Forall_impl _ _ _ H _). intros x Hx. by rewrite Hx.
Qed.

Lemma skip_noise n noise l : HASH ∉ noise -> head n = Some HASH -> find_str n l = None -> find_str n (noise ++ l) = None.
Proof. destruct n as [|x n]; intros H Hn Hl; [done|]. injection Hn as ->. by rewrite find_str_skip, Hl. Qed.

Lemma trim_elem e : elem_ok e -> trim (print_elem e) = print_elem e.
Proof.
  intros H. apply trim_visible; destruct e as [s|n]; cbn [print_elem elem_ok] in *.
  - by exists QUOTE, (s ++ [QUOTE]).
  - unfold signed_decimal. unfold I64_MIN, I64_MAX in H. destruct (Z.ltb_spec n 0); [by eexists _, _|].
    destruct (decimal_ok n) as (D & N & _); [unfold U64_MAX; lia|]. by apply digits_ends.
  - by exists (QUOTE :: s), QUOTE.
  - unfold signed_decimal. unfold I64_MIN, I64_MAX in H. destruct (Z.ltb_spec n 0).
    + destruct (decimal_ok (- n)) as (D & N & _); [unfold U64_MAX; lia|].
      destruct (digits_ends _ D N) as (_ & t & x & -> & Hx). by exists (u8b 0x2d :: t), x.
    + destruct (decimal_ok n) as (D & N & _); [unfold U64_MAX; lia|]. by apply digits_ends.
Qed.

Lemma strip_quotes_quoted s : strip_quotes (QUOTE :: s ++ [QUOTE]) = s.
Proof.
  unfold strip_quotes. change (byte_is QUOTE 0x22) with true. cbn iota. rewrite rev_unit.
  change (byte_is QUOTE 0x22) with true. cbn iota. apply rev_involutive.
Qed.

Lemma render_elem spec e : elem_ok e ->
  render_key_element spec (elem_conv e) (print_elem e) =
  pad_string (elem_text e) (parse_width spec).2 (parse_width spec).1.
Proof.
  intros H. unfold render_key_element. rewrite (trim_elem _ H). destruct (parse_width spec) as [left_pad width].
  destruct e as [s|n]; cbn [elem_conv print_elem elem_text elem_ok fst snd] in *.
  - change (byte_is (u8b 0x73) 0x73) with true. cbn iota. by rewrite strip_quotes_quoted.
  - change (byte_is (u8b 0x64) 0x73) with false. change (byte_is (u8b 0x64) 0x64) with true. cbn [orb].
    by rewrite parse_signed.
Qed.

(** The elements of a key are its elements. *)
Lemma split_quoted s depth cur rest : Forall (fun x => byte_is x 0x22 = false) s ->
  split_key_from depth true cur (s ++ rest) = split_key_from depth true (cur ++ s) rest.
Proof.
  intros H. revert cur. induction H as [|x s Hx H IH]; intros cur; [by rewrite app_nil_r|].
  cbn [app split_key_from negb]. rewrite Hx, !andb_false_r. cbn [andb]. by rewrite IH, <- app_assoc.
Qed.

Definition plain (x : Init.Byte.byte) : bool := is_ascii_digit x || byte_is x 0x2d.
Lemma split_plain s depth cur rest : forallb plain s = true ->
  split_key_from depth false cur (s ++ rest) = split_key_from depth false (cur ++ s) rest.
Proof.
  revert cur. induction s as [|x s IH]; intros cur H; [by rewrite app_nil_r|].
  cbn [forallb] in H. apply andb_prop in H as [Hx H]. cbn [app split_key_from].
  assert (byte_is x 0x22 = false /\ byte_is x 0x28 = false /\ byte_is x 0x5b = false /\ byte_is x 0x29 = false /\
          byte_is x 0x5d = false /\ byte_is x 0x2c = false) as (-> & -> & -> & -> & -> & ->)
    by (revert Hx; clear; by destruct x).
  cbn [orb andb]. rewrite IH by done. by rewrite <- app_assoc.
Qed.

Lemma plain_signed n : I64_MIN <= n <= I64_MAX -> forallb plain (signed_decimal n) = true.
Proof.
  unfold I64_MIN, I64_MAX. intros H.
  assert (P : forall m, 0 <= m <= U64_MAX -> forallb plain (decimal m) = true).
  { intros m (D & _)%decimal_ok. rewrite forallb_forall in *. intros x Hx. unfold plain. by rewrite (D x Hx). }
  unfold signed_decimal. destruct (Z.ltb_spec n 0).
  - cbn [forallb]. rewrite P by (unfold U64_MAX; lia). done.
  - apply P. unfold U64_MAX. lia.
Qed.

Lemma split_elem e cur rest : elem_ok e ->
  split_key_from 0 false cur (print_elem e ++ rest) = split_key_from 0 false (cur ++ print_elem e) rest.
Proof.
  intros H. destruct e as [s|n]; cbn [print_elem elem_ok] in *; [|by apply split_plain, plain_signed].
  change (split_key_from 0 false cur ((QUOTE :: s ++ [QUOTE]) ++ rest)) with
    (split_key_from 0 true (cur ++ [QUOTE]) ((s ++ [QUOTE]) ++ rest)).
  rewrite <- app_assoc, split_quoted by done.
  change (split_key_from 0 true ?c ([QUOTE] ++ rest)) with (split_key_from 0 false (c ++ [QUOTE]) rest).
  by rewrite <- ?app_assoc.
Qed.

Lemma split_elems es e cur : Forall elem_ok (e :: es) ->
  split_key_from 0 false cur (join [u8b 0x2c] (map print_elem (e :: es))) =
  match es with [] => [cur ++ print_elem e] | _ => (cur ++ print_elem e) :: map print_elem es end.
Proof.
  revert e cur. induction es as [|e' es IH]; intros e cur H; inversion_clear H as [|? ? He Hes].
  - cbn [map join]. rewrite <- (app_nil_r (print_elem e)) at 1. by rewrite split_elem.
  - change (join _ (map print_elem (e :: e' :: es))) with
      (print_elem e ++ u8b 0x2c :: join [u8b 0x2c] (map print_elem (e' :: es))).
    rewrite split_elem by done.
    change (split_key_from 0 false ?c (u8b 0x2c :: ?l)) with (c :: split_key_from 0 false [] l).
    rewrite IH by done. by destruct es.
Qed.

Lemma split_key_elems es : Forall elem_ok es -> split_key (join [u8b 0x2c] (map print_elem es)) = map print_elem es.
Proof.
  intros H. destruct es as [|e es]; [done|]. pose proof (split_elems es e [] H) as E.
  unfold split_key. destruct (join _ _) as [|x l] eqn:J.
  - exfalso. inversion_clear H as [|? ? He _]. destruct e as [s|n]; cbn [map join print_elem] in J; [by destruct es|].
    assert (N : signed_decimal n <> []).
    { unfold signed_decimal. cbn [elem_ok] in He. unfold I64_MIN, I64_MAX in He. destruct (Z.ltb_spec n 0); [done|].
      apply (decimal_ok n). unfold U64_MAX. lia. }
    destruct es; cbn [map] in J; [done|]. by apply app_eq_nil in J as [? _].
  - rewrite E. by destruct es.
Qed.

(** ** A row *)

Definition left_of (d : directive) : bool := existsb (fun x => byte_is x 0x2d) (d_flags d).
Definition width_of (d : directive) : Z := default 0 (DParse.parse_u64 (d_width d)).
Definition pad_to (d : directive) (s : bytes) : bytes := pad_string s (width_of d) (left_of d).

Lemma parse_width_spec d : directive_ok d -> parse_width (spec_of d) = (left_of d, width_of d).
Proof.
  intros (Hf & Hw & H0 & Hp & _). unfold parse_width, spec_of.
  rewrite (span_app is_flag (d_flags d)); [|done|by destruct (d_width d), (d_precision d)].
  rewrite (span_app is_ascii_digit (d_width d)); [done|done|by destruct (d_precision d)].
Qed.

(** A column: an element of the key, its directive and the text behind it. *)
Record column : Type := { c_dir : directive; c_elem : key_elem; c_text : bytes }.
Definition text_ok (t : bytes) : Prop := Forall (fun x => ascii_byte x /\ byte_is x 0x25 = false) t.
Definition column_ok (c : column) : Prop :=
  directive_ok (c_dir c) /\ d_conv (c_dir c) = elem_conv (c_elem c) /\ elem_ok (c_elem c) /\ text_ok (c_text c).
Definition column_pieces (c : column) : list fpiece := [F_key (c_dir c); F_text (c_text c)].
Definition column_output (c : column) : bytes := pad_to (c_dir c) (elem_text (c_elem c)) ++ c_text c.
Definition row_format (cols : list column) (d : directive) (last : bytes) : bytes :=
  flat_map print_fpiece (flat_map column_pieces cols ++ [F_agg d; F_text last]).
Definition row_key (cols : list column) : bytes := join [u8b 0x2c] (map print_elem (map c_elem cols)).

Lemma render_columns cols ps cell : Forall column_ok cols ->
  render_fpieces (flat_map column_pieces cols ++ ps) (map print_elem (map c_elem cols)) cell =
  flat_map column_output cols ++ render_fpieces ps [] cell.
Proof.
  induction 1 as [|c cols (Hd & Hc & He & _) H IH]; [done|].
  cbn [flat_map app column_pieces map render_fpieces head tail default]. rewrite IH, Hc, render_elem by done.
  rewrite (parse_width_spec _ Hd). unfold column_output, pad_to. cbn [fst snd]. by rewrite !app_assoc.
Qed.

(** the format of a table of [printa] rows, one directive per element of
    the key tuple, strings under [%s] and integers under [%d] with any flags,
    width and precision and text in between, then [%@d]: a row shows every
    element of its key in its place, unquoted and padded to its column, and
    then the value of its cell. *)
Theorem printa_row cols d last cell v :
  Forall column_ok cols -> directive_ok d -> d_conv d = u8b 0x64 -> text_ok last -> value cell = Scalar v ->
  render_format (row_format cols d last) (row_key cols) cell =
  flat_map column_output cols ++ pad_to d (signed_decimal v) ++ last.
Proof.
  intros Hc Hd Hv Hl E. unfold row_format. rewrite render_format_pieces.
  - unfold row_key. rewrite split_key_elems.
    + rewrite render_columns by done. cbn [render_fpieces]. unfold render_agg_value.
      rewrite parse_width_spec by done. rewrite E, Hv. by rewrite app_nil_r.
    + apply List.Forall_map. refine (list.Forall_impl _ _ _ Hc _). by intros c (_ & _ & ? & _).
  - apply list.Forall_app_2; [|by (constructor; [|constructor; [|constructor]])].
    induction Hc as [|c cols (? & _ & _ & ?) H IH]; [constructor|]. by (constructor; [|constructor]).
Qed.

(** ** No row is lost *)

Lemma flat_map_in {A} (f : A -> bytes) x l : x ∈ l -> exists a b, flat_map f l = a ++ f x ++ b.
Proof.
  induction 1 as [x l|x y l H (a & b & E)]; [by exists [], (flat_map f l)|].
  exists (f y ++ a), b. cbn [flat_map]. by rewrite E, app_assoc.
Qed.
Definition shows (out x : bytes) : Prop := exists a b, out = a ++ x ++ b.
Lemma shows_trans out x y : shows out x -> shows x y -> shows out y.
Proof.
  intros (a & b & ->) (c & d & ->). exists (a ++ c), (d ++ b). by rewrite <- !app_assoc.
Qed.
Lemma shows_flat_map {A} (f : A -> bytes) x l : x ∈ l -> shows (flat_map f l) (f x).
Proof. apply flat_map_in. Qed.
Lemma shows_left a b : shows (a ++ b) a.
Proof. by exists [], b. Qed.
Lemma shows_right a b : shows (a ++ b) b.
Proof. exists a, []. by rewrite app_nil_r. Qed.

Lemma rows_of_in name key cell r : ((name, key), cell) ∈ r -> (key, cell) ∈ rows_of name r.
Proof.
  intros H. unfold rows_of. apply list_elem_of_omap. exists ((name, key), cell). split; [done|].
  by rewrite bool_decide_eq_true_2.
Qed.

Lemma named_aggs_in parsed name : name ∈ printa_named_aggs parsed <->
  exists c call, c ∈ clauses parsed /\ is_end_clause c = true /\ call ∈ scan_printa_calls (clause_body c) /\
    name ∈ pa_aggs call.
Proof.
  unfold printa_named_aggs. rewrite list_elem_of_In, in_flat_map. split.
  - intros (c & Hc & (call & Hcall & N)%in_flat_map). rewrite <- !list_elem_of_In in *.
    apply list_elem_of_filter in Hc as [He Hp]. eauto 10.
  - intros (c & call & Hc & He & Hcall & N). exists c. split; [by apply list_elem_of_In, list_elem_of_filter|].
    apply in_flat_map. exists call. by rewrite <- !list_elem_of_In.
Qed.

(** when a session ends, no row of the reducer is lost: each is in the
    output, under the format of a [printa] of an [END] clause that names its
    aggregation, or, when none does, in the generic dump. *)
Theorem every_row_rendered parsed r name key cell : ((name, key), cell) ∈ r ->
  (exists c call, c ∈ clauses parsed /\ is_end_clause c = true /\
     call ∈ scan_printa_calls (clause_body c) /\ name ∈ pa_aggs call /\
     shows (render_end_printa parsed r) (render_format (pa_format call) key cell)) \/
  ((name ∉ printa_named_aggs parsed) /\ shows (render_end_printa parsed r) (render_row name key cell)).
Proof.
  intros H. destruct (decide (name ∈ printa_named_aggs parsed)) as [N|N]; [left|right; split; [done|]].
  - apply named_aggs_in in N as (c & call & Hp & He & Hcall & N). exists c, call. do 4 (split; [done|]).
    assert (Hc : c ∈ end_clauses parsed) by by apply list_elem_of_filter.
    unfold render_end_printa. eapply shows_trans; [apply shows_left|].
    eapply shows_trans; [by apply shows_flat_map|]. unfold render_end_clause at 1.
    eapply shows_trans; [apply shows_right|].
    eapply shows_trans; [by apply (shows_flat_map (fun call => render_one_printa call r) call)|].
    unfold render_one_printa.
    eapply shows_trans; [by apply (shows_flat_map _ name)|]. cbn beta.
    apply (shows_flat_map (fun '(key, cell) => render_format (pa_format call) key cell) (key, cell)).
    by apply rows_of_in.
  - unfold render_end_printa. eapply shows_trans; [apply shows_right|].
    pose proof (shows_flat_map (fun '((name, key), cell) =>
       if bool_decide (name ∈ printa_named_aggs parsed) then [] else render_row name key cell) _ _ H) as S.
    cbn beta iota in S. by rewrite bool_decide_eq_false_2 in S.
Qed.

(** * Concrete sessions

    A backquote in a sample is a quotation mark. *)

Definition d_text (s : string) : bytes := map (fun x => if byte_is x 0x60 then QUOTE else x) (str s).

Definition banner : stmt := S_printf (str "session ended" ++ [NL]).
Definition table : stmt :=
  S_printa {| pa_format := d_text "say `%-10s` %@d" ++ [NL]; pa_aggs := [str "rx"; str "tx_2"] |}.

Lemma scan_statements_witness :
  print_body [banner; table] = d_text "printf(`session ended\n`);printa(`say \`%-10s\` %@d\n`, @rx, @tx_2);" /\
  scan_printf_calls (print_body [banner; table]) = [{| rendered := str "session ended" ++ [NL] |}] /\
  scan_printa_calls (print_body [banner; table]) = printas [table].
Proof.
  split; [by vm_compute|]. apply (scan_statements [banner; table]).
  constructor; [by apply (bool_decide_unpack _)|]. constructor; [|constructor].
  split; [by apply (bool_decide_unpack _)|]. repeat (constructor; [split; [done|by apply (bool_decide_unpack _)]|]).
  constructor.
Defined.

Definition name_column : column :=
  {| c_dir := {| d_flags := [u8b 0x2d]; d_width := str "10"; d_precision := None; d_conv := u8b 0x73 |};
     c_elem := K_str (str "http, really"); c_text := str " | " |}.
Definition port_column : column :=
  {| c_dir := {| d_flags := []; d_width := str "6"; d_precision := Some []; d_conv := u8b 0x64 |};
     c_elem := K_int (-80); c_text := str " => " |}.
Definition value_dir : directive :=
  {| d_flags := []; d_width := str "5"; d_precision := None; d_conv := u8b 0x64 |}.
Definition cell_of (v : CrossTargetAggValue) : CrossTargetAggCell :=
  {| Merge.kind := Count; value := v; contributors := [(str "linux", v)] |}.

Lemma printa_row_witness :
  render_format (str "%-10s | %6.d => %5@d!") (d_text "`http, really`,-80") (cell_of (Scalar 42)) =
  str "http, really |    -80 =>    42!".
Proof.
  assert (R : render_format (row_format [name_column; port_column] value_dir (str "!"))
                (row_key [name_column; port_column]) (cell_of (Scalar 42)) =
              flat_map column_output [name_column; port_column] ++ pad_to value_dir (signed_decimal 42) ++ str "!").
  { apply (printa_row [name_column; port_column] value_dir (str "!") (cell_of (Scalar 42)) 42); [|..|done].
    - repeat (constructor; [split_and!; (done || by apply (bool_decide_unpack _))|]). constructor.
    - split_and!; (done || by apply (bool_decide_unpack _)).
    - done.
    - by repeat constructor. }
  exact R.
Defined.

(** Two [END] clauses, one aggregation named and one not. *)
Definition session : Parsed :=
  match parse_source (d_text "BEGIN { printf(`start\n`); } END { printf(`bye\n`); printa(`%-8s%@d\n`, @rx); } dtrace:::END { }") with
  | Ret p => p
  | _ => {| preamble := []; clauses := [] |}
  end.
Definition reduced : CrossTargetAggReducer :=
  [((str "lat", str "1"), cell_of (Histogram [(0, 3); (64, 5)])); ((str "rx", d_text "`eth0`"), cell_of (Scalar 7));
   ((str "rx", d_text "`lo`"), cell_of (Scalar (-1)))].

Lemma session_named : printa_named_aggs session = [str "rx"].
Proof. by vm_compute. Qed.

Example session_output :
  render_begin_printf session = str "start" ++ [NL] /\
  render_end_printa session reduced =
    str "bye" ++ [NL] ++ str "eth0    7" ++ [NL] ++ str "lo      -1" ++ [NL] ++
    str "xagg @lat[1] = quantize { 0:3, 64:5 }" ++ [NL] ++ str "  contributors: linux" ++ [NL].
Proof. by vm_compute. Qed.

Lemma every_row_rendered_witness :
  (exists c call, c ∈ clauses session /\ is_end_clause c = true /\
     call ∈ scan_printa_calls (clause_body c) /\ str "rx" ∈ pa_aggs call /\
     shows (render_end_printa session reduced) (render_format (pa_format call) (d_text "`lo`") (cell_of (Scalar (-1))))) /\
  shows (render_end_printa session reduced) (render_row (str "lat") (str "1") (cell_of (Histogram [(0, 3); (64, 5)]))).
Proof.
  split.
  - destruct (every_row_rendered session reduced (str "rx") (d_text "`lo`") (cell_of (Scalar (-1)))) as [H|[N _]].
    + do 2 apply list_elem_of_further. apply list_elem_of_here.
    + exact H.
    + exfalso. apply N. rewrite session_named. by left.
  - destruct (every_row_rendered session reduced (str "lat") (str "1") (cell_of (Histogram [(0, 3); (64, 5)]))) as [H|[_ H]].
    + apply list_elem_of_here.
    + exfalso. destruct H as (c & call & Hc & He & Hk & Hn & _).
      pose proof (proj2 (named_aggs_in session (str "lat")) (ex_intro _ c (ex_intro _ call (conj Hc (conj He (conj Hk Hn)))))) as N.
      rewrite session_named in N. by apply list_elem_of_singleton in N.
    + exact H.
Defined.

(** The tests of printa.rs. *)
Example rendering_tests :
  render_format (str "%-10s %@d" ++ [NL]) (d_text "`linux`") (cell_of (Scalar 42)) = str "linux      42" ++ [NL] /\
  render_format (str "%s %d => %@u" ++ [NL]) (d_text "`http`,80") (cell_of (Scalar 7)) = str "http 80 => 7" ++ [NL] /\
  render_format (str "hist=%@d" ++ [NL]) [] (cell_of (Histogram [(0, 3); (64, 5)])) = str "hist={ 0:3, 64:5 }" ++ [NL].
Proof. by vm_compute. Qed.

Example scanning_tests :
  scan_printa_calls (d_text " printa(`%-10s %@d\n`, @rx); printa(`%s %s %@u`, @counts); ") =
    [{| pa_format := str "%-10s %@d" ++ [NL]; pa_aggs := [str "rx"] |};
     {| pa_format := str "%s %s %@u"; pa_aggs := [str "counts"] |}] /\
  map pa_aggs (scan_printa_calls (d_text "printa(   `%-10s %@d\n`  ,   @rx )")) = [[str "rx"]] /\
  map rendered (scan_printf_calls (d_text "printf(`session ended\n`); printf(`ok\n`);")) =
    [str "session ended" ++ [NL]; str "ok" ++ [NL]] /\
  scan_printf_calls (d_text "printf(`got %d\n`, arg0);") = [] /\
  scan_printf_calls (d_text "printa(`%@d\n`, @rx);") = [].
Proof. by vm_compute. Qed.

Example split_key_tests :
  split_key (d_text "`linux`") = [d_text "`linux`"] /\ split_key (d_text "`a,b`,17") = [d_text "`a,b`"; str "17"] /\
  split_key (str "1,2,3") = [str "1"; str "2"; str "3"].
Proof. by vm_compute. Qed.

(** ** What the code does not mean

    A byte above ASCII in a format comes out as the two bytes of a character
    of its own; [%%] of a [printf] stays two characters; a call in a comment is
    a call, and so is one in the format of another; [%@X] is decimal and takes
    no width. *)
Lemma format_mojibake : render_format (map u8b [0xc3; 0xa9]) [] (cell_of (Scalar 0)) = map u8b [0xc3; 0x83; 0xc2; 0xa9].
Proof. by vm_compute. Qed.

Lemma printf_percent_kept : map rendered (scan_printf_calls (d_text "printf(`100%%`);")) = [str "100%%"].
Proof. by vm_compute. Qed.

Lemma commented_call_is_rendered :
  map pa_aggs (scan_printa_calls (d_text "// printa(`off`, @rx);" ++ [NL])) = [[str "rx"]] /\
  map pa_format (scan_printa_calls (d_text "printa(`(%@d)`, @rx);")) = [str "(%@d)"] /\
  map rendered (scan_printf_calls (d_text "printa(`printf(`, @rx); printf(`)`);")) = [str ", @rx); printf("].
Proof. by vm_compute. Qed.

Lemma agg_upper_hex_is_decimal :
  render_format (str "[%6@X]") [] (cell_of (Scalar 255)) = str "[255]" /\
  render_format (str "[%6@x]") [] (cell_of (Scalar 255)) = str "[    ff]" /\
  render_format (str "[%6X]") (str "255") (cell_of (Scalar 255)) = str "[    FF]".
Proof. by vm_compute. Qed.
