(* ===== verification/Xstack.v ===== *)
(** Cross-domain stacks (host/bifrost, src/cli/xstack.rs): the [xstack()] call
    of a clause, and the stitcher that pairs the fires a guest announces with
    the stacks the host captures for them.

    The state behind the mutex is passed along; the lock is taken for whole
    steps, except that a finished block may give it back before its stack is
    counted, which touches the accumulator alone.  What is printed is a
    result.  Debug output is left out. *)

From Stdlib Require Import Strings.String.
From stdpp Require Import gmap.
From S2P Require Import Ordered.
From S2P Require Import Schema.
From S2P Require Import AggSnapshot.
From S2P Require Import Text.
From S2P Require Import DParse.
From S2P Require Import SourceRewrite.
From S2P Require Import Printa.
From S2P Require Import Prelude.

Local Open Scope Z_scope.
Local Open Scope list_scope.

(** ** The call *)

Inductive XstackMode : Type := Forced | Sample.

(** [split([',', ' ', '\t']).filter(|t| !t.is_empty())] *)
Definition is_sep (x : Init.Byte.byte) : bool := existsb (byte_is x) [0x2c; 0x20; 0x09].
Fixpoint tokens (cur l : bytes) : list bytes :=
  let token := match cur with [] => [] | _ => [cur] end in
  match l with
  | [] => token
  | x :: l => if is_sep x then token ++ tokens [] l else tokens (cur ++ [x]) l
  end.

Definition to_upper (x : Init.Byte.byte) : Init.Byte.byte :=
  if in_span 0x61 0x7a (byte.unsigned x) then u8b (byte.unsigned x - 0x20) else x.
Definition eq_ignore_case (a b : bytes) : bool := bool_decide (map to_upper a = map to_upper b).

Definition xstack_token (md : XstackMode * option Z) (tok : bytes) : XstackMode * option Z :=
  if eq_ignore_case tok (str "SAMPLE") || eq_ignore_case tok (str "ASYNC") then (Sample, md.2)
  else match parse_upto U32_MAX tok with Some n => (md.1, Some n) | None => md end.
Definition xstack_args (inside : bytes) : XstackMode * Z :=
  match inside with
  | [] => (Forced, 8)
  | _ => let '(mode, depth) := fold_left xstack_token (tokens [] inside) (Forced, None) in (mode, default 8 depth)
  end.

Fixpoint extract_loop (prev : option Init.Byte.byte) (l : bytes) : option (XstackMode * Z) :=
  match l with
  | [] => None
  | x :: l' =>
      match drop_prefix (str "xstack(") l with
      | Some after =>
          if prev_ok prev then
            match close_paren 1 after with Some (inside, _) => Some (xstack_args (trim inside)) | None => None end
          else extract_loop (Some x) l'
      | None => extract_loop (Some x) l'
      end
  end.
Definition extract_xstack_args (body : bytes) : option (XstackMode * Z) := extract_loop None body.
Definition extract_xstack_depth (body : bytes) : option Z := option_map snd (extract_xstack_args body).

(** The loop stops where no further call fits. *)
Fixpoint strip_call_loop (fuel : nat) (prev : option Init.Byte.byte) (l : bytes) : bytes :=
  match fuel, l with
  | S fuel, x :: l' =>
      if len l <? 7 then []
      else
        match drop_prefix (str "xstack(") l with
        | Some after =>
            match (if prev_ok prev then close_paren 1 after else None) with
            | Some (_, rest) => str "gustack()" ++ strip_call_loop fuel (Some (u8b 0x29)) rest
            | None => char_of x ++ strip_call_loop fuel (Some x) l'
            end
        | None => char_of x ++ strip_call_loop fuel (Some x) l'
        end
  | _, _ => []
  end.
Definition strip_xstack_to_gustack (body : bytes) : bytes := strip_call_loop (length body) None body.

(** The part of linux_compile.rs that looks for the call in every guest clause
    and takes it out: whether it was there, the depth and the mode. *)
Record XstackUse : Type := { xs_enabled : bool; xs_depth : option Z; xs_mode : XstackMode }.
Definition no_xstack : XstackUse := {| xs_enabled := false; xs_depth := None; xs_mode := Forced |}.

Definition rebuilt_source (source body : bytes) : bytes :=
  match find_str [u8b 0x7b] source with
  | Some (before, _) => before ++ u8b 0x7b :: NL :: str "    " ++ trim body ++ [NL; u8b 0x7d]
  | None => source
  end.
Definition xstack_clause (u : XstackUse) (c : Clause) : XstackUse * Clause :=
  if negb (clause_is_bifrost c) then (u, c)
  else
    match extract_xstack_args (clause_body c) with
    | Some (mode, d) =>
        let body := strip_xstack_to_gustack (clause_body c) in
        ({| xs_enabled := true;
            xs_depth := Some (match xs_depth u with Some old => Z.max old d | None => d end);
            xs_mode := match mode with Sample => Sample | Forced => xs_mode u end |},
         {| clause_specs := clause_specs c; clause_pred := clause_pred c; clause_body := body;
            clause_source := rebuilt_source (clause_source c) body |})
    | None => (u, c)
    end.
Fixpoint detect_xstack (u : XstackUse) (cs : list Clause) : XstackUse * list Clause :=
  match cs with
  | [] => (u, [])
  | c :: cs =>
      let '(u, c) := xstack_clause u c in
      let '(u, cs) := detect_xstack u cs in (u, c :: cs)
  end.
(** With [opts.xstack_fold_enabled]. *)
Definition xstack_setup (fold_enabled : bool) (cs : list Clause) : XstackUse * list Clause :=
  let '(u, cs) := detect_xstack no_xstack cs in
  if fold_enabled && negb (xs_enabled u)
  then ({| xs_enabled := true; xs_depth := Some (default 8 (xs_depth u)); xs_mode := xs_mode u |}, cs)
  else (u, cs).

(** ** The stitcher *)

Record XstackPending : Type := { xp_seq : Z; xp_label : bytes; xp_gpid : bytes; xp_tid : Z }.

Record XstackState : Type := {
  pending : gmap Z (list XstackPending);
  in_block : option (Z * list bytes);
  fold : option (gmap bytes Z);
  fold_out : option bytes;
}.
Definition with_queues (q : gmap Z (list XstackPending)) (st : XstackState) : XstackState :=
  {| pending := q; in_block := in_block st; fold := fold st; fold_out := fold_out st |}.
Definition with_block (b : option (Z * list bytes)) (st : XstackState) : XstackState :=
  {| pending := pending st; in_block := b; fold := fold st; fold_out := fold_out st |}.
Definition with_fold (m : option (gmap bytes Z)) (st : XstackState) : XstackState :=
  {| pending := pending st; in_block := in_block st; fold := m; fold_out := fold_out st |}.

Definition split_xstack_tid (rest : bytes) : bytes * Z :=
  let trimmed := trim rest in
  match Printa.parse_u64 trimmed with
  | Some t => ([], t)
  | None =>
      match rfind_byte 0x7c trimmed with
      | Some (before, after) =>
          match Printa.parse_u64 (trim after) with Some t => (before, t) | None => (trimmed, 0) end
      | None => (trimmed, 0)
      end
  end.

(** [replace] of one byte by another *)
Definition replace_byte (c d : Z) (l : bytes) : bytes := map (fun x => if byte_is x c then u8b d else x) l.

Definition clean_frame_for_fold (raw : bytes) : bytes :=
  match trim raw with
  | [] => []
  | trimmed =>
      let without_offset := match rfind_byte 0x2b trimmed with Some (s, _) => s | None => trimmed end in
      let normalized := replace_byte 0x60 0x21 without_offset in
      if starts_with "0x" normalized then str "[unknown:" ++ normalized ++ str "]" else normalized
  end.

Definition not_empty (l : bytes) : bool := match l with [] => false | _ => true end.
Definition fold_parts (p : option XstackPending) (frames : list bytes) : list bytes :=
  filter (fun f => not_empty f = true) (map clean_frame_for_fold frames)
  ++ match p with Some p => [replace_byte 0x3b 0x5f (xp_label p)] | None => [] end.

Definition block_text (p : option XstackPending) (frames : list bytes) : bytes :=
  NL :: str "  ┄┄┄ host stack (vCPU thread, hv_vcpu_run:return) ┄┄┄" ++ NL ::
  match p with
  | Some p =>
      str "    seq=" ++ decimal (xp_seq p) ++ str "  for guest fire: " ++ xp_label p ++ str "  gpid=" ++ xp_gpid p
      ++ str "  vcpu_tid=" ++ decimal (xp_tid p) ++ [NL]
  | None => []
  end
  ++ flat_map (fun f => str "    " ++ f ++ [NL]) frames
  ++ str "  ┄┄┄ end ┄┄┄" ++ [NL].

Section Stitch.
Context {E : Type}.

(** [*map.entry(key).or_insert(0) += 1] *)
Definition count_stack (key : bytes) (m : gmap bytes Z) : outcome E (gmap bytes Z) :=
  n ← add64 (default 0 (m !! key)) 1;
  Ret (<[key := n]> m).

Definition emit_unified_xstack_block (p : option XstackPending) (frames : list bytes)
    (m : option (gmap bytes Z)) : outcome E (bytes * option (gmap bytes Z)) :=
  match m with
  | Some m =>
      match fold_parts p frames with
      | [] => Ret ([], Some m)
      | joined => m ← count_stack (Printa.join [u8b 0x3b] joined) m; Ret ([], Some m)
      end
  | None => Ret (block_text p frames, None)
  end.

(** [g.pending.get_mut(&tid).and_then(|q| q.pop_front())] *)
Definition pop_pending (tid : Z) (q : gmap Z (list XstackPending)) : option XstackPending * gmap Z (list XstackPending) :=
  match q !! tid with
  | Some (p :: l) => (Some p, <[tid := l]> q)
  | _ => (None, q)
  end.

Definition read_pending (rest : bytes) : XstackPending :=
  let parts := splitn 4 0x7c rest in
  let part i := default [] (parts !! i) in
  let num i := default 0 (match parts !! i with Some s => Printa.parse_u64 (trim s) | None => None end) in
  {| xp_seq := num 0%nat; xp_label := trim (part 1%nat); xp_gpid := trim (part 2%nat); xp_tid := num 3%nat |}.

Definition tid_of (rest : bytes) : Z := (split_xstack_tid (span (fun x => byte_is x 0x7c) rest).2).2.

(** Lines of a stack that are not frames. *)
Definition is_frame (trimmed : bytes) : bool :=
  not_empty trimmed && negb (starts_with "CPU" trimmed)
  && match find_str (str "FUNCTION") trimmed with Some _ => false | None => true end.

(** Whether the line is consumed, what is printed, and the state. *)
Definition try_parse_xstack_line (line : bytes) (st : XstackState) : outcome E (bool * bytes * XstackState) :=
  match find_str (str "##xstack-pending##|") line with
  | Some (_, rest) =>
      let p := read_pending rest in
      let q := default [] (pending st !! xp_tid p) ++ [p] in
      Ret (true, [], with_queues (<[xp_tid p := q]> (pending st)) st)
  | None =>
      match find_str (str "##xstack-host##") line with
      | Some (_, rest) => Ret (true, [], with_block (Some (tid_of rest, [])) st)
      | None =>
          match find_str (str "##xstack-end##") line with
          | Some (_, rest) =>
              let '(p, q) := pop_pending (tid_of rest) (pending st) in
              let closed := with_block None (with_queues q st) in
              match in_block st with
              | Some (_, frames) =>
                  r ← emit_unified_xstack_block p frames (fold st);
                  Ret (true, r.1, with_fold r.2 closed)
              | None => Ret (true, [], closed)
              end
          | None =>
              match in_block st with
              | Some (tid, buf) =>
                  let trimmed := trim line in
                  Ret (true, [], with_block (Some (tid, if is_frame trimmed then buf ++ [trimmed] else buf)) st)
              | None => Ret (false, [], st)
              end
          end
      end
  end.

(** The lines of a session, as [dispatch_line] of runtime.rs takes them: one
    that is not consumed is printed, an empty one is skipped. *)
Fixpoint stitch (lines : list bytes) (st : XstackState) : outcome E (bytes * XstackState) :=
  match lines with
  | [] => Ret ([], st)
  | [] :: lines => stitch lines st
  | line :: lines =>
      r ← try_parse_xstack_line line st;
      let '(consumed, text, st) := (r : bool * bytes * XstackState) in
      s ← stitch lines st;
      Ret ((if consumed then text else line ++ [NL]) ++ s.1, s.2)
  end.
End Stitch.

(** [dump_xstack_fold]: the path and the text of the file, if one is written.
    [entries] is the map in the order its iterator gives it. *)
Definition fold_lines (entries : list (bytes * Z)) : bytes :=
  flat_map (fun e : bytes * Z => e.1 ++ SP :: decimal e.2 ++ [NL]) (sort_by_key (fun e : bytes * Z => - e.2) entries).
Definition dump_xstack_fold (st : XstackState) (entries : list (bytes * Z)) : option (bytes * bytes) :=
  match fold_out st, fold st with
  | Some path, Some _ => match entries with [] => None | _ => Some (path, fold_lines entries) end
  | _, _ => None
  end.

(** * The history

    What the stitcher is for, said of the events of a session instead of its
    lines.  A stack is paired with a fire of its thread by position: the first
    stack that finds one takes the thread's first fire of the whole session,
    the next the second, and so on. *)

Inductive xevent : Type :=
  | E_fire (p : XstackPending)
  | E_open (tid : Z)
  | E_text (line : bytes)
  | E_close (tid : Z).

(** What is shown: a line, or a stack with its fire. *)
Inductive item : Type :=
  | I_line (line : bytes)
  | I_stack (p : option XstackPending) (frames : list bytes).

Record history : Type := { h_fires : list XstackPending; h_paired : Z -> nat; h_open : option (list bytes) }.

Definition fires_of (tid : Z) (ps : list XstackPending) : list XstackPending := filter (fun p => xp_tid p = tid) ps.
Definition next_fire (tid : Z) (h : history) : option XstackPending := fires_of tid (h_fires h) !! h_paired h tid.
Definition count_pair (tid : Z) (n : Z -> nat) (t : Z) : nat := if t =? tid then S (n t) else n t.

Definition hist_step (e : xevent) (h : history) : list item * history :=
  match e with
  | E_fire p => ([], {| h_fires := h_fires h ++ [p]; h_paired := h_paired h; h_open := h_open h |})
  | E_open _ => ([], {| h_fires := h_fires h; h_paired := h_paired h; h_open := Some [] |})
  | E_text line =>
      match h_open h with
      | Some fs =>
          ([], {| h_fires := h_fires h; h_paired := h_paired h;
                  h_open := Some (if is_frame (trim line) then fs ++ [trim line] else fs) |})
      | None => ([I_line line], h)
      end
  | E_close tid =>
      let p := next_fire tid h in
      (match h_open h with Some fs => [I_stack p fs] | None => [] end,
       {| h_fires := h_fires h;
          h_paired := match p with Some _ => count_pair tid (h_paired h) | None => h_paired h end;
          h_open := None |})
  end.
Fixpoint hist_run (es : list xevent) (h : history) : list item * history :=
  match es with
  | [] => ([], h)
  | e :: es => let r := hist_step e h in let s := hist_run es r.2 in (r.1 ++ s.1, s.2)
  end.
Definition new_history : history := {| h_fires := []; h_paired := fun _ => O; h_open := None |}.

(** The lines of the events; a marker may stand behind other output. *)
Definition print_event (noise : bytes) (e : xevent) : bytes :=
  match e with
  | E_fire p =>
      noise ++ str "##xstack-pending##|" ++ decimal (xp_seq p) ++ BAR :: xp_label p ++ BAR :: xp_gpid p
      ++ BAR :: decimal (xp_tid p)
  | E_open tid => noise ++ str "##xstack-host##|" ++ decimal tid
  | E_text line => line
  | E_close tid => noise ++ str "##xstack-end##|" ++ decimal tid
  end.
Definition print_events (les : list (bytes * xevent)) : list bytes := map (fun ne => print_event ne.1 ne.2) les.

Definition field_ok (s : bytes) : Prop := Forall (fun x => byte_is x 0x7c = false) s /\ trim s = s.
Definition fire_ok (p : XstackPending) : Prop :=
  0 <= xp_seq p <= U64_MAX /\ 0 <= xp_tid p <= U64_MAX /\ field_ok (xp_label p) /\ field_ok (xp_gpid p).
Definition event_ok (ne : bytes * xevent) : Prop :=
  (HASH ∉ ne.1) /\
  match ne.2 with
  | E_fire p => fire_ok p
  | E_open tid | E_close tid => 0 <= tid <= U64_MAX
  | E_text line => line <> [] /\ (HASH ∉ line)
  end.

(** ** Reading the markers *)

Lemma tid_of_decimal n : 0 <= n <= U64_MAX -> tid_of (decimal n) = n.
Proof.
  intros H. unfold tid_of. rewrite <- (app_nil_l (decimal n)).
  rewrite (span_app (fun x => byte_is x 0x7c) [] (decimal n)); [|done|].
  - cbn [snd]. unfold split_xstack_tid. by rewrite trim_decimal, parse_u64_decimal.
  - pose proof (decimal_no_bar n H) as B. by destruct B.
Qed.

Lemma read_pending_print p : fire_ok p ->
  read_pending (decimal (xp_seq p) ++ BAR :: xp_label p ++ BAR :: xp_gpid p ++ BAR :: decimal (xp_tid p)) = p.
Proof.
  intros (Hs & Ht & [Lb Lt] & [Gb Gt]). unfold read_pending.
  rewrite (splitn_bar 2) by by apply decimal_no_bar. rewrite (splitn_bar 1), (splitn_bar 0) by done.
  with_strategy opaque [trim Printa.parse_u64 decimal] cbn.
  rewrite !trim_decimal, !parse_u64_decimal by done. cbn [default]. rewrite Lt, Gt. by destruct p.
Qed.

(** Which marker a line carries. *)
Lemma find_fire noise p : HASH ∉ noise ->
  find_str (str "##xstack-pending##|") (print_event noise (E_fire p)) =
  Some (noise, decimal (xp_seq p) ++ BAR :: xp_label p ++ BAR :: xp_gpid p ++ BAR :: decimal (xp_tid p)).
Proof. intros H. by apply (find_str_app HASH). Qed.

Lemma find_pending_plain l : HASH ∉ l -> find_str (str "##xstack-pending##|") l = None.
Proof. by apply (find_str_none HASH). Qed.
Lemma find_host_plain l : HASH ∉ l -> find_str (str "##xstack-host##") l = None.
Proof. by apply (find_str_none HASH). Qed.
Lemma find_end_plain l : HASH ∉ l -> find_str (str "##xstack-end##") l = None.
Proof. by apply (find_str_none HASH). Qed.

Lemma find_open noise tid : HASH ∉ noise -> 0 <= tid <= U64_MAX ->
  find_str (str "##xstack-pending##|") (print_event noise (E_open tid)) = None /\
  find_str (str "##xstack-host##") (print_event noise (E_open tid)) = Some (noise, BAR :: decimal tid).
Proof.
  intros H Ht. cbn [print_event]. split;
    [|by apply (find_str_app HASH (tail (str "##xstack-host##")) noise (BAR :: decimal tid))].
  apply skip_noise; [done..|].
  apply find_str_passes; [by vm_compute|]. by apply find_pending_plain, decimal_no_hash.
Qed.

Lemma find_close noise tid : HASH ∉ noise -> 0 <= tid <= U64_MAX ->
  find_str (str "##xstack-pending##|") (print_event noise (E_close tid)) = None /\
  find_str (str "##xstack-host##") (print_event noise (E_close tid)) = None /\
  find_str (str "##xstack-end##") (print_event noise (E_close tid)) = Some (noise, BAR :: decimal tid).
Proof.
  intros H Ht. cbn [print_event]. split; [|split]; [| |
    by apply (find_str_app HASH (tail (str "##xstack-end##")) noise (BAR :: decimal tid))].
  - apply skip_noise; [done..|].
    apply find_str_passes; [by vm_compute|]. by apply find_pending_plain, decimal_no_hash.
  - apply skip_noise; [done..|].
    apply find_str_passes; [by vm_compute|]. by apply find_host_plain, decimal_no_hash.
Qed.

Lemma tid_of_bar n : 0 <= n <= U64_MAX -> tid_of (BAR :: decimal n) = n.
Proof.
  intros H. rewrite <- (tid_of_decimal n H) at 2. unfold tid_of.
  change (BAR :: decimal n) with ([BAR] ++ decimal n). rewrite span_app; [|by repeat constructor|].
  - rewrite <- (app_nil_l (decimal n)) at 2. rewrite (span_app _ [] (decimal n)); [done|constructor|].
    pose proof (decimal_no_bar n H) as B. by destruct B.
  - pose proof (decimal_no_bar n H) as B. by destruct B.
Qed.

(** ** The simulation *)

(** A queue is what is left of its thread's fires. *)
Definition queue (st : XstackState) (tid : Z) : list XstackPending := default [] (pending st !! tid).
Definition tracks (h : history) (st : XstackState) : Prop :=
  (forall tid, queue st tid = drop (h_paired h tid) (fires_of tid (h_fires h))) /\
  option_map snd (in_block st) = h_open h /\
  forall tid, (h_paired h tid <= length (fires_of tid (h_fires h)))%nat.

Lemma queue_set st tid t q b :
  queue (with_block b (with_queues (<[tid := q]> (pending st)) st)) t = (if decide (t = tid) then q else queue st t) /\
  queue (with_queues (<[tid := q]> (pending st)) st) t = (if decide (t = tid) then q else queue st t).
Proof.
  unfold queue. cbn [pending with_queues with_block].
  destruct (decide (t = tid)) as [->|N]; [by rewrite lookup_insert_eq|by rewrite lookup_insert_ne].
Qed.

Section Show.
Context {E : Type}.

(** What the items of a history print and count. *)
Definition show (i : item) (m : option (gmap bytes Z)) : outcome E (bytes * option (gmap bytes Z)) :=
  match i with
  | I_line line => Ret (line ++ [NL], m)
  | I_stack p frames => emit_unified_xstack_block p frames m
  end.
Fixpoint show_all (items : list item) (m : option (gmap bytes Z)) : outcome E (bytes * option (gmap bytes Z)) :=
  match items with
  | [] => Ret ([], m)
  | i :: items => r ← show i m; s ← show_all items r.2; Ret (r.1 ++ s.1, s.2)
  end.

Lemma fires_of_snoc tid ps p :
  fires_of tid (ps ++ [p]) = fires_of tid ps ++ (if bool_decide (xp_tid p = tid) then [p] else []).
Proof.
  unfold fires_of. rewrite list.filter_app. f_equal. rewrite filter_cons, filter_nil.
  destruct (decide (xp_tid p = tid)); by case_bool_decide.
Qed.

Lemma tracks_fire h st p : tracks h st ->
  tracks (hist_step (E_fire p) h).2 (with_queues (<[xp_tid p := queue st (xp_tid p) ++ [p]]> (pending st)) st).
Proof.
  intros (Q & O & L). cbn [hist_step snd]. split; [|split; [done|]].
  - intros tid. cbn [h_paired h_fires]. rewrite fires_of_snoc, (proj2 (queue_set st _ tid _ None)).
    destruct (decide (tid = xp_tid p)) as [->|N].
    + rewrite bool_decide_eq_true_2, Q by done. by rewrite drop_app_le by apply L.
    + rewrite bool_decide_eq_false_2, app_nil_r by congruence. apply Q.
  - intros tid. cbn [h_paired h_fires]. rewrite fires_of_snoc, length_app. specialize (L tid). lia.
Qed.

Lemma pop_spec tid st :
  pop_pending tid (pending st) =
  match queue st tid with p :: l => (Some p, <[tid := l]> (pending st)) | [] => (None, pending st) end.
Proof. unfold pop_pending, queue. by destruct (pending st !! tid) as [[|p l]|]. Qed.

Lemma tracks_close h st tid b : tracks h st -> b = None ->
  (pop_pending tid (pending st)).1 = next_fire tid h /\
  tracks (hist_step (E_close tid) h).2 (with_block b (with_queues (pop_pending tid (pending st)).2 st)).
Proof.
  intros (Q & O & L) ->. rewrite pop_spec. cbn [hist_step snd].
  assert (N : next_fire tid h = head (queue st tid)).
  { unfold next_fire. rewrite Q. rewrite <- (Nat.add_0_r (h_paired h tid)) at 1. rewrite <- lookup_drop.
    by destruct (drop _ _). }
  rewrite N. pose proof (Q tid) as Qt. destruct (queue st tid) as [|p l] eqn:Eq; (split; [done|]); (split; [|split; [done|]]).
  - intros t. apply Q.
  - apply L.
  - intros t. cbn [h_paired h_fires head snd]. rewrite (proj1 (queue_set st _ t _ None)). unfold count_pair.
    destruct (decide (t = tid)) as [->|Nt]; [|destruct (Z.eqb_spec t tid); [done|apply Q]].
    rewrite Z.eqb_refl. by rewrite <- Nat.add_1_r, <- drop_drop, <- Qt.
  - intros t. cbn [h_paired h_fires head snd]. unfold count_pair. destruct (Z.eqb_spec t tid) as [->|Nt]; [|apply L].
    apply lookup_lt_Some in N. lia.
Qed.

(** A step of the stitcher is a step of the history. *)
Lemma step_tracks h st noise e : event_ok (noise, e) -> tracks h st ->
  exists st1, tracks (hist_step e h).2 st1 /\ fold st1 = fold st /\ fold_out st1 = fold_out st /\
  try_parse_xstack_line (E:=E) (print_event noise e) st =
    match (hist_step e h).1 with
    | I_stack p frames :: _ => r ← emit_unified_xstack_block p frames (fold st); Ret (true, r.1, with_fold r.2 st1)
    | I_line _ :: _ => Ret (false, [], st1)
    | [] => Ret (true, [], st1)
    end.
Proof.
  intros [Hn He] T. cbn [fst snd] in *. destruct e as [p|tid|line|tid]; unfold try_parse_xstack_line.
  - rewrite find_fire by done. rewrite read_pending_print by done.
    eexists. split; [by apply tracks_fire|]. by split.
  - destruct (find_open noise tid Hn He) as [-> ->]. rewrite tid_of_bar by done.
    exists (with_block (Some (tid, [])) st). split; [|done]. destruct T as (Q & _ & L). by split.
  - destruct He as [_ Hl]. cbn [print_event]. rewrite find_pending_plain, find_host_plain, find_end_plain by done.
    destruct T as (Q & O & L). cbn [hist_step]. destruct (in_block st) as [[tid buf]|] eqn:B; cbn [option_map] in O; rewrite <- O.
    + exists (with_block (Some (tid, if is_frame (trim line) then buf ++ [trim line] else buf)) st).
      split; [|done]. by split.
    + exists st. split; [|done]. split; [done|]. by rewrite B.
  - destruct (find_close noise tid Hn He) as (-> & -> & ->). rewrite tid_of_bar by done.
    destruct (tracks_close h st tid None T eq_refl) as [Hp T']. cbn [hist_step fst snd] in *. rewrite <- Hp in T' |- *.
    destruct (pop_pending tid (pending st)) as [p q]. cbn [fst snd] in *.
    destruct T as (_ & O & _). rewrite <- O. destruct (in_block st) as [[tid' frames]|]; cbn [option_map snd];
      (eexists; split; [exact T'|by split]).
Qed.

Lemma show_all_app xs ys m :
  show_all (xs ++ ys) m = r ← show_all xs m; s ← show_all ys r.2; Ret (r.1 ++ s.1, s.2).
Proof.
  revert m. induction xs as [|x xs IH]; intros m; cbn [app show_all].
  - rewrite bind_Ret. cbn [fst snd app]. by destruct (show_all ys m) as [[]| |].
  - destruct (show x m) as [r| |]; [|done..]. cbn. rewrite IH. destruct (show_all xs r.2) as [s| |]; [|done..]. cbn.
    destruct (show_all ys s.2) as [t| |]; [|done..]. cbn. by rewrite app_assoc.
Qed.

Lemma print_event_cons noise e : event_ok (noise, e) -> exists x l, print_event noise e = x :: l.
Proof.
  intros [_ He]. destruct e as [p|tid|line|tid]; cbn in He |- *; [destruct noise; by eexists _, _..| |destruct noise; by eexists _, _].
  destruct line as [|x l]; [by destruct He|by exists x, l].
Qed.

Lemma stitch_cons line lines st : line <> [] ->
  stitch (E:=E) (line :: lines) st =
  r ← try_parse_xstack_line line st;
  let '(consumed, text, st1) := (r : bool * bytes * XstackState) in
  s ← stitch lines st1;
  Ret ((if consumed then text else line ++ [NL]) ++ s.1, s.2).
Proof. by destruct line. Qed.

Lemma hist_step_items e h :
  (exists line, e = E_text line /\ (hist_step e h).1 = [I_line line]) \/
  (exists p fs, (hist_step e h).1 = [I_stack p fs]) \/ (hist_step e h).1 = [].
Proof.
  destruct e as [p|tid|line|tid]; cbn [hist_step fst]; [by auto|by auto|..];
    destruct (h_open h) as [fs|]; cbn [fst]; eauto 6.
Qed.

Lemma tracks_fold h st m : tracks h st -> tracks h (with_fold m st).
Proof. done. Qed.

Lemma stitch_tracks les h st : Forall event_ok les -> tracks h st ->
  exists st1, tracks (hist_run (map snd les) h).2 st1 /\ fold_out st1 = fold_out st /\
  stitch (E:=E) (print_events les) st =
    r ← show_all (hist_run (map snd les) h).1 (fold st);
    Ret (r.1, with_fold r.2 st1).
Proof.
  intros H. revert h st. induction H as [|[noise e] les He H IH]; intros h st T.
  - exists st. split; [done|]. split; [done|]. by destruct st.
  - cbn [print_events map hist_run fst snd]. destruct (step_tracks h st noise e He T) as (st1 & T1 & F & O & E1).
    rewrite stitch_cons, E1, show_all_app
      by (destruct (print_event_cons noise e He) as (x & l & ->); done).
    destruct (hist_step_items e h) as [(line & -> & I)|[(p & fs & I)|I]]; rewrite I; cbn [show_all show].
    + destruct (IH _ _ T1) as (st2 & T2 & O2 & E2). exists st2. split; [exact T2|]. split; [by rewrite <- O|].
      rewrite !bind_Ret. cbn [fst snd]. unfold print_events in E2. rewrite E2, F. cbn [print_event].
      destruct (show_all (hist_run _ _).1 (fold st)) as [r| |]; [|done..]. cbn. by rewrite app_nil_r.
    + destruct (emit_unified_xstack_block p fs (fold st)) as [r|e'|].
      * destruct (IH _ _ (tracks_fold _ _ r.2 T1)) as (st2 & T2 & O2 & E2). exists st2. split; [exact T2|]. split; [by rewrite <- O|].
        rewrite !bind_Ret. cbn [fst snd]. unfold print_events in E2. rewrite E2. cbn [fold with_fold].
        destruct (show_all _ r.2) as [s| |]; [|done..]. cbn. by rewrite app_nil_r.
      * destruct (IH _ _ T1) as (st2 & T2 & O2 & _). exists st2. split; [exact T2|]. split; [by rewrite <- O|done].
      * destruct (IH _ _ T1) as (st2 & T2 & O2 & _). exists st2. split; [exact T2|]. split; [by rewrite <- O|done].
    + destruct (IH _ _ T1) as (st2 & T2 & O2 & E2). exists st2. split; [exact T2|]. split; [by rewrite <- O|].
      rewrite !bind_Ret. cbn [fst snd]. unfold print_events in E2. rewrite E2, F.
      destruct (show_all _ (fold st)) as [s| |]; done.
Qed.
End Show.

(** ** First come, first shown *)

Definition item_text (i : item) : bytes :=
  match i with I_line line => line ++ [NL] | I_stack p frames => block_text p frames end.
Definition shown (tid : Z) (items : list item) : list XstackPending :=
  omap (fun i => match i with
                 | I_stack (Some p) _ => if bool_decide (xp_tid p = tid) then Some p else None
                 | _ => None
                 end) items.
Definition session_fires (es : list xevent) : list XstackPending :=
  omap (fun e => match e with E_fire p => Some p | _ => None end) es.

(** Every stack that ends had begun. *)
Fixpoint bracketed (opened : bool) (es : list xevent) : Prop :=
  match es with
  | [] => True
  | E_open _ :: es => bracketed true es
  | E_close _ :: es => opened = true /\ bracketed false es
  | _ :: es => bracketed opened es
  end.
Definition is_open (h : history) : bool := match h_open h with Some _ => true | None => false end.
Definition done_fires (tid : Z) (h : history) : list XstackPending := take (h_paired h tid) (fires_of tid (h_fires h)).
Definition hist_ok (h : history) : Prop := forall tid, (h_paired h tid <= length (fires_of tid (h_fires h)))%nat.

Lemma next_fire_tid tid h p : next_fire tid h = Some p -> xp_tid p = tid.
Proof. intros H%list_elem_of_lookup_2. by apply list_elem_of_filter in H as [? _]. Qed.

Lemma hist_step_ok e h : hist_ok h -> hist_ok (hist_step e h).2.
Proof.
  intros L tid. specialize (L tid). destruct e as [p|t|line|t]; cbn [hist_step snd].
  - cbn [h_paired h_fires]. rewrite fires_of_snoc, length_app. lia.
  - done.
  - by destruct (h_open h).
  - destruct (next_fire t h) as [p|] eqn:N; cbn [h_paired h_fires]; [|done].
    unfold count_pair. destruct (Z.eqb_spec tid t) as [->|]; [|done]. apply lookup_lt_Some in N. lia.
Qed.

Lemma shown_app tid xs ys : shown tid (xs ++ ys) = shown tid xs ++ shown tid ys.
Proof. apply omap_app. Qed.

(** What an event adds to the fires that are done. *)
Lemma hist_step_done e h tid : hist_ok h -> bracketed (is_open h) [e] ->
  done_fires tid (hist_step e h).2 = done_fires tid h ++ shown tid (hist_step e h).1.
Proof.
  intros L B. specialize (L tid). unfold done_fires, is_open in *. destruct e as [p|t|line|t]; cbn [hist_step fst snd] in *.
  - cbn [h_paired h_fires shown omap list_omap]. rewrite fires_of_snoc, app_nil_r. by rewrite take_app_le.
  - by rewrite app_nil_r.
  - destruct (h_open h); by rewrite app_nil_r.
  - destruct (h_open h) as [fs|]; [|by destruct B].
    destruct (next_fire t h) as [p|] eqn:N; cbn [h_paired h_fires]; [|by rewrite app_nil_r].
    pose proof (next_fire_tid t h p N) as Ht. unfold count_pair. cbn [shown omap list_omap].
    destruct (Z.eqb_spec tid t) as [->|Nt].
    + rewrite bool_decide_eq_true_2 by done. by rewrite (take_S_r _ _ _ N).
    + rewrite bool_decide_eq_false_2 by congruence. by rewrite app_nil_r.
Qed.

Lemma hist_step_open e h : is_open (hist_step e h).2 =
  match e with E_open _ => true | E_close _ => false | _ => is_open h end.
Proof. unfold is_open. destruct e; cbn [hist_step snd h_open]; try done. destruct (h_open h) eqn:O; cbn; by rewrite ?O. Qed.

Lemma hist_step_fires e h : h_fires (hist_step e h).2 = h_fires h ++ session_fires [e].
Proof.
  destruct e; cbn [hist_step snd h_fires session_fires omap list_omap]; rewrite ?app_nil_r; try done. by destruct (h_open h).
Qed.

Lemma hist_run_done es h tid : hist_ok h -> bracketed (is_open h) es ->
  done_fires tid (hist_run es h).2 = done_fires tid h ++ shown tid (hist_run es h).1 /\
  h_fires (hist_run es h).2 = h_fires h ++ session_fires es.
Proof.
  revert h. induction es as [|e es IH]; intros h L B; [by rewrite !app_nil_r|]. cbn [hist_run fst snd].
  assert (B1 : bracketed (is_open h) [e] /\ bracketed (is_open (hist_step e h).2) es).
  { rewrite hist_step_open. destruct e; cbn [bracketed] in *; [done|done|done|]. destruct B as [? ?]. by repeat split. }
  destruct B1 as [B1 B2]. destruct (IH _ (hist_step_ok e h L) B2) as [-> ->].
  rewrite shown_app, hist_step_done, hist_step_fires by done. rewrite <- !app_assoc. by destruct e.
Qed.

Definition started (m : option (gmap bytes Z)) (out : option bytes) : XstackState :=
  {| pending := ∅; in_block := None; fold := m; fold_out := out |}.

Lemma tracks_started m out : tracks new_history (started m out).
Proof. split; [|split; [done|]]; intros tid; [|done]. unfold queue. cbn [pending started]. by rewrite lookup_empty. Qed.

Lemma show_all_text {E} items : show_all (E:=E) items None = Ret (flat_map item_text items, None).
Proof. induction items as [|i items IH]; [done|]. cbn [show_all flat_map]. destruct i; cbn; by rewrite IH. Qed.

(** the lines of a session, fires announced at any time, markers behind
    other output, stacks captured one at a time: what is printed is the lines
    that are not part of it and the stacks, in order, and for each thread the
    fires the stacks are shown with, followed by those still waiting, are the
    fires announced for it, each once and in their order. *)
Theorem stitch_fifo {E} les out : Forall event_ok les -> bracketed false (map snd les) ->
  let items := (hist_run (map snd les) new_history).1 in
  exists st1, stitch (E:=E) (print_events les) (started None out) = Ret (flat_map item_text items, st1) /\
    forall tid, shown tid items ++ queue st1 tid = fires_of tid (session_fires (map snd les)).
Proof.
  intros H B items. destruct (stitch_tracks (E:=E) les _ _ H (tracks_started None out)) as (st1 & T & _ & ->).
  cbn [fold started]. rewrite show_all_text. exists (with_fold None st1). split; [done|]. intros tid.
  change (queue (with_fold None st1) tid) with (queue st1 tid). destruct T as (-> & _ & _).
  destruct (hist_run_done (map snd les) new_history tid) as [D F]; [intros t; cbn; lia|done|].
  unfold done_fires in D. change (take _ (fires_of tid (h_fires new_history))) with (@nil XstackPending) in D. cbn [app] in D.
  fold items in D. rewrite <- D, take_drop, F. done.
Qed.

(** ** Folded stacks *)

Definition stack_key (p : option XstackPending) (frames : list bytes) : bytes := Printa.join [u8b 0x3b] (fold_parts p frames).
Definition counted (key : bytes) (i : item) : bool :=
  match i with
  | I_stack p frames => negb (bool_decide (fold_parts p frames = [])) && bool_decide (stack_key p frames = key)
  | I_line _ => false
  end.
Definition occurrences (key : bytes) (items : list item) : Z := len (filter (fun i => counted key i = true) items).
Definition line_text (i : item) : bytes := match i with I_line line => line ++ [NL] | I_stack _ _ => [] end.

Lemma occurrences_cons key i items :
  occurrences key (i :: items) = (if counted key i then 1 else 0) + occurrences key items.
Proof.
  unfold occurrences. rewrite filter_cons. destruct (counted key i) eqn:C.
  - rewrite decide_True by done. by rewrite len_cons.
  - by rewrite decide_False by done.
Qed.

Lemma occurrences_bound key items : 0 <= occurrences key items <= len items.
Proof. unfold occurrences, len. pose proof (length_filter (fun i => counted key i = true) items). lia. Qed.

Lemma show_all_fold {E} items : forall m : gmap bytes Z,
  (forall key, default 0 (m !! key) + len items <= U64_MAX) ->
  exists m', show_all (E:=E) items (Some m) = Ret (flat_map line_text items, Some m') /\
    forall key, default 0 (m' !! key) = default 0 (m !! key) + occurrences key items.
Proof.
  induction items as [|i items IH]; intros m Hm.
  { exists m. split; [done|]. intros key. change (occurrences key []) with 0. lia. }
  assert (Hl : forall key, default 0 (m !! key) + 1 + len items <= U64_MAX).
  { intros key. specialize (Hm key). rewrite len_cons in Hm. lia. }
  pose proof (len_nonneg items) as L0. destruct i as [line|p frames].
  - destruct (IH m) as (m' & S & C); [intros key; specialize (Hl key); lia|]. exists m'. cbn [show_all show].
    rewrite bind_Ret. cbn [fst snd]. rewrite S. split; [done|]. intros key. by rewrite C, occurrences_cons.
  - cbn [show_all show emit_unified_xstack_block].
    assert (K : forall key, counted key (I_stack p frames) =
                match fold_parts p frames with [] => false | _ => bool_decide (stack_key p frames = key) end).
    { intros key. unfold counted. by destruct (fold_parts p frames). }
    unfold stack_key in K. destruct (fold_parts p frames) as [|x parts] eqn:F.
    + destruct (IH m) as (m' & S & C); [intros key; specialize (Hl key); lia|]. exists m'. rewrite bind_Ret. cbn [fst snd].
      rewrite S. split; [done|]. intros key. by rewrite C, occurrences_cons, K.
    + set (k := Printa.join [u8b 0x3b] (x :: parts)) in *. unfold count_stack, add64.
      rewrite (proj2 (Z.leb_le _ _)) by (specialize (Hl k); lia). rewrite !bind_Ret. cbn [fst snd].
      assert (Hk : forall key, default 0 (<[k:=default 0 (m !! k) + 1]> m !! key) =
                   default 0 (m !! key) + (if bool_decide (k = key) then 1 else 0)).
      { intros key. case_bool_decide as D; [subst key; by rewrite lookup_insert_eq|].
        rewrite lookup_insert_ne by done. lia. }
      destruct (IH (<[k := default 0 (m !! k) + 1]> m)) as (m' & S & C).
      { intros key. rewrite Hk. specialize (Hl key). case_bool_decide; lia. }
      exists m'. rewrite S. split; [done|]. intros key. rewrite C, Hk, occurrences_cons, K. case_bool_decide; lia.
Qed.

Definition fold_line (e : bytes * Z) : bytes := e.1 ++ SP :: decimal e.2 ++ [NL].

(** under --xstack-fold a session prints the lines that are not part of it
    and its stacks are counted; the file written at its end has, whatever the
    order of the map, one line for each distinct stack, with the number of
    times it was captured, the most frequent first. *)
Theorem folded_file {E} les path : Forall event_ok les ->
  let items := (hist_run (map snd les) new_history).1 in
  len items <= U64_MAX ->
  exists st1 m, stitch (E:=E) (print_events les) (started (Some ∅) (Some path)) = Ret (flat_map line_text items, st1) /\
    fold st1 = Some m /\ (forall key, default 0 (m !! key) = occurrences key items) /\
    forall entries, entries ≡ₚ map_to_list m -> entries <> [] ->
      exists rows, dump_xstack_fold st1 entries = Some (path, flat_map fold_line rows) /\
        NoDup (map fst rows) /\ StronglySorted (fun a b => b.2 <= a.2) rows /\
        (forall key, 0 < occurrences key items -> key ∈ map fst rows) /\
        forall key n, (key, n) ∈ rows -> n = occurrences key items.
Proof.
  intros H items Hn. destruct (stitch_tracks (E:=E) les _ _ H (tracks_started (Some ∅) (Some path))) as (st0 & T & O & ->).
  fold items. cbn [fold started]. destruct (show_all_fold (E:=E) items ∅) as (m & -> & C).
  { intros key. by rewrite lookup_empty. }
  assert (C' : forall key, default 0 (m !! key) = occurrences key items).
  { intros key. by rewrite C, lookup_empty. }
  exists (with_fold (Some m) st0), m. split; [done|]. split; [done|]. split; [done|]. intros entries P N.
  exists (sort_by_key (fun e : bytes * Z => - e.2) entries).
  assert (S : sort_by_key (fun e : bytes * Z => - e.2) entries ≡ₚ map_to_list m) by by rewrite sort_by_key_perm.
  split; [|split; [|split; [|split]]].
  - unfold dump_xstack_fold. cbn [fold_out with_fold fold]. rewrite O. by destruct entries.
  - rewrite S. apply NoDup_fst_map_to_list.
  - pose proof (sort_by_key_sorted (fun e : bytes * Z => - e.2) entries) as R. unfold sorted_by in R.
    clear S. induction R as [|x l R IH Hx]; [constructor|]. constructor; [done|].
    refine (list.Forall_impl _ _ _ Hx _). intros y Hy. change ((- x.2 ?= - y.2) <> Gt) in Hy. rewrite Z.compare_le_iff in Hy. lia.
  - intros key Hk. rewrite S. specialize (C' key). destruct (m !! key) as [n|] eqn:L; [|cbn in C'; lia].
    apply list_elem_of_fmap. exists (key, n). split; [done|]. by apply elem_of_map_to_list.
  - intros key n Hin. rewrite S in Hin. apply elem_of_map_to_list in Hin. specialize (C' key).
    by rewrite Hin in C'.
Qed.

(** * Concrete sessions *)

Definition fire (seq tid : Z) (label : string) : XstackPending :=
  {| xp_seq := seq; xp_label := str label; xp_gpid := str "412"; xp_tid := tid |}.

(** Two vCPU threads whose fires and stacks interleave. *)
Definition two_vcpus : list (bytes * xevent) :=
  [([], E_fire (fire 1 7001 "vfs_read")); ([], E_fire (fire 2 9002 "tcp_sendmsg"));
   (str "CPU 1: ", E_fire (fire 3 7001 "vfs_write")); ([], E_open 9002); ([], E_text (str "   Hypervisor`hv_run+0x40"));
   ([], E_fire (fire 4 9002 "vfs_read")); ([], E_close 9002); ([], E_text (str "unrelated"));
   ([], E_open 7001); ([], E_text (str "CPU FUNCTION")); ([], E_text (str "libkrun`run+0x8")); (str "x", E_close 7001)].

Lemma two_vcpus_ok : Forall event_ok two_vcpus.
Proof.
  assert (F : forall ne, ne ∈ two_vcpus -> event_ok ne); [|by apply list.Forall_forall].
  assert (N : forall seq tid label, in_span 0 100000 seq = true -> in_span 0 100000 tid = true ->
    forallb (fun x => negb (byte_is x 0x7c)) (str label) = true -> trim (str label) = str label -> fire_ok (fire seq tid label)).
  { unfold in_span, U64_MAX. intros seq tid label Hs Ht Hb Hl. split_and!; cbn [xp_seq xp_tid fire]; try (unfold U64_MAX; lia).
    - split; [|done]. rewrite forallb_forall in Hb. apply list.Forall_forall. intros x Hx%list_elem_of_In%Hb.
      by destruct (byte_is x 0x7c).
    - by apply (bool_decide_unpack _). }
  apply list.Forall_forall. unfold two_vcpus.
  repeat (constructor; [split; [by apply (bool_decide_unpack _)|]; cbn [fst snd]|]); try by apply N.
  all: try (unfold U64_MAX; lia).
  all: try (split; [done|by apply (bool_decide_unpack _)]).
  constructor.
Qed.

Lemma stitch_fifo_witness :
  exists text st1,
    stitch (E:=unit) (print_events two_vcpus) (started None None) = Ret (text, st1) /\
    shown 7001 (hist_run (map snd two_vcpus) new_history).1 = [fire 1 7001 "vfs_read"] /\
    queue st1 7001 = [fire 3 7001 "vfs_write"] /\ queue st1 9002 = [fire 4 9002 "vfs_read"].
Proof.
  destruct (stitch_fifo (E:=unit) two_vcpus None two_vcpus_ok) as (st1 & S & C); [by vm_compute|].
  exists (flat_map item_text (hist_run (map snd two_vcpus) new_history).1), st1. split; [exact S|].
  assert (Q : shown 7001 (hist_run (map snd two_vcpus) new_history).1 = [fire 1 7001 "vfs_read"]) by by vm_compute.
  split; [exact Q|]. pose proof (C 7001) as A. pose proof (C 9002) as B. rewrite Q in A. split.
  - change (fires_of _ _) with ([fire 1 7001 "vfs_read"; fire 3 7001 "vfs_write"]) in A. by injection A.
  - change (shown _ _) with [fire 2 9002 "tcp_sendmsg"] in B.
    change (fires_of _ _) with ([fire 2 9002 "tcp_sendmsg"; fire 4 9002 "vfs_read"]) in B. by injection B.
Defined.

Lemma folded_file_witness :
  exists text st1 m rows,
    stitch (E:=unit) (print_events two_vcpus) (started (Some ∅) (Some (str "out"))) = Ret (text, st1) /\
    fold st1 = Some m /\ default 0 (m !! str "libkrun!run;vfs_read") = 1 /\
    default 0 (m !! str "Hypervisor!hv_run;tcp_sendmsg") = 1 /\
    dump_xstack_fold st1 (map_to_list m) = Some (str "out", flat_map fold_line rows).
Proof.
  destruct (folded_file (E:=unit) two_vcpus (str "out") two_vcpus_ok) as (st1 & m & S & F & C & D).
  { vm_compute. discriminate. }
  assert (K : default 0 (m !! str "libkrun!run;vfs_read") = 1) by (rewrite C; by vm_compute).
  destruct (D (map_to_list m)) as (rows & R & _); [done| |].
  { intros N%map_to_list_empty_iff. subst m. by rewrite lookup_empty in K. }
  exists (flat_map line_text (hist_run (map snd two_vcpus) new_history).1), st1, m, rows.
  split; [exact S|]. split; [exact F|]. split; [exact K|]. split; [|exact R]. rewrite C. by vm_compute.
Defined.

(** The tests of xstack.rs. *)
Example call_tests :
  extract_xstack_args (str "xstack()") = Some (Forced, 8) /\ extract_xstack_args (str "xstack(16)") = Some (Forced, 16) /\
  extract_xstack_args (str "xstack(SAMPLE)") = Some (Sample, 8) /\
  extract_xstack_args (str "xstack(SAMPLE, 32)") = Some (Sample, 32) /\
  extract_xstack_args (str "xstack(32, SAMPLE)") = Some (Sample, 32) /\
  extract_xstack_args (str "bifrost_xstack(1)") = None /\
  strip_xstack_to_gustack (str "xstack(8)") = str "gustack()" /\
  strip_xstack_to_gustack (str "xstack(SAMPLE)") = str "gustack()".
Proof. by vm_compute. Qed.

Example marker_tests :
  split_xstack_tid (str "123456") = ([], 123456) /\ split_xstack_tid (str "foo|789") = (str "foo", 789) /\
  split_xstack_tid (str "xx") = (str "xx", 0) /\
  clean_frame_for_fold (str "Hypervisor`Hv::run()+0x40") = str "Hypervisor!Hv::run()" /\
  clean_frame_for_fold (str "0x1234") = str "[unknown:0x1234]".
Proof. by vm_compute. Qed.

(** ** What the code does not mean

    Up to six bytes at the end of a body are lost with the call, so a later
    statement is cut; the first call of a body counts, not the deepest; the
    thread a stack was opened for is not looked at, and where the stacks of
    two threads overlap, the frames of one are shown for the fire of the other
    and a fire is dropped. *)
Lemma strip_loses_tail :
  strip_xstack_to_gustack (str "xstack(); @c[pid] = count();") = str "gustack(); @c[pid] = co" /\
  clause_body (xstack_clause no_xstack
    {| clause_specs := [{| spec_provider := str "fbt"; spec_module := str "guest"; spec_function := str "vfs_read";
                           spec_name := str "entry"; spec_binary := None |}];
       clause_pred := None; clause_body := str "xstack(4);"; clause_source := str "{xstack(4);}" |}).2 = str "gustack()".
Proof. by vm_compute. Qed.

Lemma first_call_counts : extract_xstack_args (str "xstack(4); xstack(16)") = Some (Forced, 4).
Proof. by vm_compute. Qed.

Definition overlapping : list (bytes * xevent) :=
  [([], E_fire (fire 1 7001 "vfs_read")); ([], E_fire (fire 2 9002 "tcp_sendmsg")); ([], E_open 7001); ([], E_text (str "a`f"));
   ([], E_open 9002); ([], E_text (str "b`g")); ([], E_close 7001); ([], E_close 9002)].
Lemma overlapping_stacks_mix :
  stitch (E:=unit) (print_events overlapping) (started None None) =
  Ret (block_text (Some (fire 1 7001 "vfs_read")) [str "b`g"],
       with_queues (<[9002 := []]> (<[7001 := []]> ∅)) (started None None)).
Proof. by vm_compute. Qed.
