(* ===== verification/Xagg.v ===== *)
(** Aggregations that span host and guest (host/bifrost, src/cli/xagg.rs): the
    scanners that find them in a source and rewrite its clauses, the marker
    lines that fill the tables at run time, and the tables as they are shown.

    The process-wide stores are a state passed along; the text of a table is a
    result.  A position in a text is the text before it, last byte first, and
    the text from it on. *)

From Stdlib Require Import Strings.String.
From stdpp Require Import gmap.
From S2P Require Import Ordered.
From S2P Require Import Schema.
From S2P Require Import AggSnapshot.
From S2P Require Import Text.
From S2P Require Import DParse.
From S2P Require Import SourceRewrite.
From S2P Require Import Merge.
From S2P Require Import Printa.
From S2P Require Import Xstack.
From S2P Require Import Prelude.

Local Open Scope Z_scope.
Local Open Scope list_scope.

(** ** Calls and their arguments *)

Definition text_pos : Type := bytes * bytes.
Definition prev_of (before : bytes) : option Init.Byte.byte := head before.

Fixpoint call_positions (fuel : nat) (call before l : bytes) : list text_pos :=
  match fuel, l with
  | S fuel, x :: l' =>
      let next := call_positions fuel call (x :: before) l' in
      match (if prev_ok (prev_of before) then drop_prefix call l else None) with
      | Some after =>
          let '(white, rest) := span is_ascii_whitespace after in
          match rest with
          | p :: rest =>
              if byte_is p 0x28
              then (before, l) :: call_positions fuel call (p :: rev white ++ rev call ++ before) rest
              else next
          | [] => next
          end
      | None => next
      end
  | _, _ => []
  end.
Definition scan_call_positions (body call : bytes) : list text_pos := call_positions (length body) call [] body.

(** The arguments up to the closing parenthesis, and what is behind it if
    there is one. *)
Fixpoint split_args (depth : Z) (cur : bytes) (l : bytes) : list bytes * option bytes :=
  match l with
  | [] => ([], None)
  | b :: l =>
      if byte_is b 0x28 then split_args (depth + 1) (cur ++ [b]) l
      else if byte_is b 0x29 then
        if depth - 1 =? 0 then ([cur], Some l) else split_args (depth - 1) (cur ++ [b]) l
      else if byte_is b 0x2c && (depth =? 1) then let '(args, rest) := split_args depth [] l in (cur :: args, rest)
      else split_args depth (cur ++ [b]) l
  end.

Definition parse_call_args_at (l call : bytes) : option (list bytes) :=
  match skip_whitespace (drop (length call) l) with
  | p :: rest =>
      if byte_is p 0x28 then
        match split_args 1 [] rest with (args, Some _) => Some args | _ => None end
      else None
  | [] => None
  end.

(** Backwards over a bracketed key. *)
Fixpoint skip_key (depth : Z) (before : bytes) : bytes :=
  if depth <=? 0 then before
  else
    match before with
    | [] => []
    | b :: before =>
        if byte_is b 0x5d then skip_key (depth + 1) before
        else if byte_is b 0x5b then skip_key (depth - 1) before
        else skip_key depth before
    end.
Definition name_for_assignment_ending_at (before : bytes) : option bytes :=
  match skip_whitespace before with
  | e :: before =>
      if negb (byte_is e 0x3d) then None
      else
        let before := skip_whitespace before in
        let before :=
          match before with
          | b :: before' => if byte_is b 0x5d then skip_whitespace (skip_key 1 before') else before
          | [] => []
          end in
        let '(name, before) := span is_ident_byte before in
        match before with a :: _ => if byte_is a 0x40 then Some (rev name) else None | [] => None end
  | [] => None
  end.

Definition is_lquantize_at (before : bytes) : bool :=
  match before with b :: _ => negb (byte_is b 0x6c || byte_is b 0x4c) | [] => true end.

Fixpoint call_args (fuel : nat) (call before l : bytes) : list (list bytes) :=
  match fuel, l with
  | S fuel, x :: l' =>
      let next := call_args fuel call (x :: before) l' in
      match (if prev_ok (prev_of before) then drop_prefix call l else None) with
      | Some after =>
          match skip_whitespace after with
          | p :: rest =>
              if byte_is p 0x28 then
                let '(args, after) := split_args 1 [] rest in
                args :: match after with Some rest => call_args fuel call [u8b 0x29] rest | None => [] end
              else next
          | [] => next
          end
      | None => next
      end
  | _, _ => []
  end.
Definition scan_call_args (call body : bytes) : list (list bytes) := call_args (length body) call [] body.

Definition scan_one_arg (call body : bytes) : list bytes := map trim (omap head (scan_call_args call body)).
Definition scan_two_arg {T} (call body : bytes) (f : bytes -> bytes -> option T) : list T :=
  omap (fun args => match args with a :: b :: _ => f (trim a) (trim b) | _ => None end) (scan_call_args call body).

Definition strip_agg_prefix (s : bytes) : option bytes :=
  match trim s with a :: n => if byte_is a 0x40 then Some (trim n) else None | [] => None end.
Definition scan_normalize_calls (body : bytes) : list (bytes * Z) :=
  scan_two_arg (str "normalize") body (fun a b => name ← strip_agg_prefix a; div ← Printa.parse_u64 b; Some (name, div)).
Definition scan_denormalize_calls (body : bytes) : list bytes :=
  omap strip_agg_prefix (scan_one_arg (str "denormalize") body).
Definition scan_trunc_calls (body : bytes) : list (bytes * option Z) :=
  omap (fun args =>
    match map trim args with
    | [] => None
    | a :: rest => name ← strip_agg_prefix a; Some (name, n ← head rest; parse_upto U32_MAX n)
    end) (scan_call_args (str "trunc") body).

(** ** The stores of the renderer *)

Record AggRenderHint : Type := { divisor : Z; trunc : option Z }.
Record LquantizeParams : Type := { lq_base : Z; lq_step : Z; lq_levels : Z }.
Record LlquantizeParams : Type := { factor : Z; low_mag : Z; high_mag : Z; steps_per_mag : Z }.
Record Hints : Type := {
  agg_render_hints : gmap bytes AggRenderHint;
  lquantize_params_store : gmap bytes LquantizeParams;
  llquantize_params_store : gmap bytes LlquantizeParams;
}.
Definition no_stores : Hints :=
  {| agg_render_hints := ∅; lquantize_params_store := ∅; llquantize_params_store := ∅ |}.

Definition default_hint : AggRenderHint := {| divisor := 0; trunc := None |}.
Definition render_hint_for (name : bytes) (h : Hints) : AggRenderHint := default default_hint (agg_render_hints h !! name).
Definition store_hint (name : bytes) (v : AggRenderHint) (h : Hints) : Hints :=
  {| agg_render_hints := <[name := v]> (agg_render_hints h);
     lquantize_params_store := lquantize_params_store h; llquantize_params_store := llquantize_params_store h |}.
Definition register_normalize (name : bytes) (d : Z) (h : Hints) : Hints :=
  store_hint name {| divisor := d; trunc := trunc (render_hint_for name h) |} h.
Definition register_trunc (name : bytes) (n : option Z) (h : Hints) : Hints :=
  store_hint name {| divisor := divisor (render_hint_for name h); trunc := n |} h.
Definition register_lquantize (name : bytes) (p : LquantizeParams) (h : Hints) : Hints :=
  {| agg_render_hints := agg_render_hints h; lquantize_params_store := <[name := p]> (lquantize_params_store h);
     llquantize_params_store := llquantize_params_store h |}.
Definition register_llquantize (name : bytes) (p : LlquantizeParams) (h : Hints) : Hints :=
  {| agg_render_hints := agg_render_hints h; lquantize_params_store := lquantize_params_store h;
     llquantize_params_store := <[name := p]> (llquantize_params_store h) |}.
Definition lquantize_params_for (name : bytes) (h : Hints) : option LquantizeParams := lquantize_params_store h !! name.
Definition llquantize_params_for (name : bytes) (h : Hints) : option LlquantizeParams := llquantize_params_store h !! name.

Definition libact_hints_of (h : Hints) (c : Clause) : Hints :=
  let h := fold_left (fun h '(name, d) => register_normalize name d h) (scan_normalize_calls (clause_body c)) h in
  let h := fold_left (fun h name => register_normalize name 0 h) (scan_denormalize_calls (clause_body c)) h in
  fold_left (fun h '(name, n) => register_trunc name n h) (scan_trunc_calls (clause_body c)) h.
Definition collect_libact_hints (parsed : Parsed) (h : Hints) : Hints := fold_left libact_hints_of (clauses parsed) h.

Section Params.
Context {E : Type}.

(** [-] of i64 in a checked build *)
Definition sub_i64 (a b : Z) : outcome E Z := if in_span I64_MIN I64_MAX (a - b) then Ret (a - b) else Panic.
Definition mul_i64 (a b : Z) : outcome E Z := if in_span I64_MIN I64_MAX (a * b) then Ret (a * b) else Panic.
Definition num (parse : bytes -> option Z) (s : bytes) : Z := default 0 (parse (trim s)).

Definition lquantize_args (args : list bytes) : outcome E (option LquantizeParams) :=
  match args with
  | _ :: a1 :: a2 :: a3 :: _ =>
      let base := num parse_i64 a1 in
      let upper := num parse_i64 a2 in
      let step := num Printa.parse_u64 a3 in
      if (step =? 0) || (upper <=? base) then Ret None
      else
        d ← sub_i64 upper base;
        Ret (Some {| lq_base := base; lq_step := step; lq_levels := (d / step) mod 2 ^ 32 |})
  | _ => Ret None
  end.
Definition llquantize_args (args : list bytes) : option LlquantizeParams :=
  match args with
  | _ :: a1 :: a2 :: a3 :: a4 :: _ =>
      let p := {| factor := num (parse_upto U16_MAX) a1; low_mag := num (parse_upto 255) a2;
                  high_mag := num (parse_upto 255) a3; steps_per_mag := num (parse_upto U16_MAX) a4 |} in
      if (factor p <? 2) || (steps_per_mag p =? 0) || (high_mag p <? low_mag p) then None else Some p
  | _ => None
  end.

Definition lquantize_at (h : Hints) (p : text_pos) : outcome E Hints :=
  if negb (is_lquantize_at p.1) then Ret h
  else
    match name_for_assignment_ending_at p.1, parse_call_args_at p.2 (str "lquantize") with
    | Some name, Some args =>
        q ← lquantize_args args;
        Ret (match q with Some q => register_lquantize name q h | None => h end)
    | _, _ => Ret h
    end.
Definition llquantize_at (h : Hints) (p : text_pos) : Hints :=
  match name_for_assignment_ending_at p.1, parse_call_args_at p.2 (str "llquantize") with
  | Some name, Some args => match llquantize_args args with Some q => register_llquantize name q h | None => h end
  | _, _ => h
  end.

Fixpoint fold_outcome {S A} (f : S -> A -> outcome E S) (l : list A) (s : S) : outcome E S :=
  match l with [] => Ret s | a :: l => s ← f s a; fold_outcome f l s end.
Definition quantize_params_of (h : Hints) (c : Clause) : outcome E Hints :=
  h ← fold_outcome lquantize_at (scan_call_positions (clause_body c) (str "lquantize")) h;
  Ret (fold_left llquantize_at (scan_call_positions (clause_body c) (str "llquantize")) h).
Definition collect_quantize_params (parsed : Parsed) (h : Hints) : outcome E Hints :=
  fold_outcome quantize_params_of (clauses parsed) h.
End Params.

(** ** Names in a clause body *)

(** [collect_clause_agg_names]; in a string, [escape] is set behind a
    backslash. *)
Definition is_ident_start (x : Init.Byte.byte) : bool := is_ascii_alphabetic x || byte_is x 0x5f.
Fixpoint agg_names (fuel : nat) (in_str escape : bool) (l : bytes) : list bytes :=
  match fuel, l with
  | S fuel, b :: l =>
      if in_str then
        if escape then agg_names fuel true false l
        else if byte_is b 0x5c then agg_names fuel true true l
        else agg_names fuel (negb (byte_is b 0x22)) false l
      else if byte_is b 0x22 then agg_names fuel true false l
      else if byte_is b 0x40 then
        match l with
        | x :: _ =>
            if is_ident_start x then let '(name, l) := take_ident l in name :: agg_names fuel false false l
            else agg_names fuel false false l
        | [] => []
        end
      else agg_names fuel false false l
  | _, _ => []
  end.
Definition collect_clause_agg_names (body : bytes) : list bytes := agg_names (length body) false false body.

(** A call whose parenthesis is not closed is blanked to the end. *)
Fixpoint mask_loop (fuel : nat) (l : bytes) : bytes :=
  match fuel, l with
  | S fuel, x :: l' =>
      match drop_prefix (str "printa(") l with
      | Some after =>
          let rest := match close_paren 1 after with Some (_, rest) => rest | None => [] end in
          replicate (length l - length rest) SP ++ mask_loop fuel rest
      | None => x :: mask_loop fuel l'
      end
  | _, _ => []
  end.
Definition mask_printa_calls (body : bytes) : bytes := mask_loop (length body) body.

Section Names.
Context {E : Type}.

(** [body[i + needle.len()..j - 1]], with [j] behind the closing parenthesis
    or at the end of the body. *)
Definition printa_inner (after : bytes) : outcome E (bytes * bytes) :=
  match close_paren 1 after with
  | Some r => Ret r
  | None =>
      match rev after with
      | [] => Panic
      | x :: inner => if byte.unsigned x <? 0x80 then Ret (rev inner, []) else Panic
      end
  end.
Fixpoint printa_names (fuel : nat) (l : bytes) : outcome E (list bytes) :=
  match fuel, l with
  | S fuel, x :: l' =>
      match drop_prefix (str "printa(") l with
      | Some after =>
          r ← printa_inner after;
          rest ← printa_names fuel r.2;
          Ret (collect_clause_agg_names r.1 ++ rest)
      | None => printa_names fuel l'
      end
  | _, _ => Ret []
  end.
Definition collect_printa_agg_names (body : bytes) : outcome E (list bytes) := printa_names (length body) body.

(** A [BTreeSet] collected from a list *)
Definition set_of (l : list bytes) : list bytes := map fst (bt_collect (map (fun x => (x, tt)) l)).
Definition is_member (x : bytes) (l : list bytes) : bool := bool_decide (x ∈ l).

Definition guest_decl (cs : list Clause) : list bytes :=
  flat_map (fun c => if clause_is_bifrost c then collect_clause_agg_names (clause_body c) else []) cs.
Definition host_decl (cs : list Clause) : list bytes :=
  flat_map (fun c => if clause_is_bifrost c then [] else collect_clause_agg_names (mask_printa_calls (clause_body c))) cs.
Definition clause_refs (c : Clause) : outcome E (list bytes) :=
  if clause_is_bifrost c then Ret []
  else
    printed ← collect_printa_agg_names (clause_body c);
    Ret (printed ++ map fst (scan_normalize_calls (clause_body c)) ++ scan_denormalize_calls (clause_body c)
         ++ map fst (scan_trunc_calls (clause_body c))
         ++ omap (fun args => a ← head args; strip_agg_prefix a) (scan_call_args (str "clear") (clause_body c))).
Fixpoint host_ref (cs : list Clause) : outcome E (list bytes) :=
  match cs with
  | [] => Ret []
  | c :: cs => r ← clause_refs c; rest ← host_ref cs; Ret (r ++ rest)
  end.
Definition collect_guest_only_aggs_referenced_by_host (parsed : Parsed) : outcome E (list bytes) :=
  refs ← host_ref (clauses parsed);
  Ret (set_of (filter (fun n => is_member n (guest_decl (clauses parsed)) && negb (is_member n (host_decl (clauses parsed))) = true)
         refs)).

Definition collect_cross_domain_aggs (parsed : Parsed) : list bytes :=
  set_of (filter (fun n => is_member n (guest_decl (clauses parsed)) = true) (host_decl (clauses parsed))).
End Names.

(** ** Keys *)

Fixpoint top_level (brk par : Z) (cur l : bytes) : list bytes :=
  match l with
  | [] => [cur]
  | b :: l =>
      if byte_is b 0x5b then top_level (brk + 1) par (cur ++ [b]) l
      else if byte_is b 0x5d then top_level (brk - 1) par (cur ++ [b]) l
      else if byte_is b 0x28 then top_level brk (par + 1) (cur ++ [b]) l
      else if byte_is b 0x29 then top_level brk (par - 1) (cur ++ [b]) l
      else if byte_is b 0x2c && (brk =? 0) && (par =? 0) then cur :: top_level brk par [] l
      else top_level brk par (cur ++ [b]) l
  end.
Definition split_top_level_commas (s : bytes) : list bytes := top_level 0 0 [] s.

Fixpoint close_bracket (depth : Z) (l : bytes) : option bytes :=
  match l with
  | [] => None
  | b :: l =>
      let next d := match close_bracket d l with Some s => Some (b :: s) | None => None end in
      if byte_is b 0x5b then next (depth + 1)
      else if byte_is b 0x5d then if depth - 1 =? 0 then Some [] else next (depth - 1)
      else next depth
  end.
Definition is_tab_or_blank (x : Init.Byte.byte) : bool := byte_is x 0x20 || byte_is x 0x09.
Fixpoint key_expr (needle l : bytes) : option bytes :=
  match l with
  | [] => None
  | _ :: l' =>
      match drop_prefix needle l with
      | Some after =>
          if negb (next_ok after) then key_expr needle l'
          else
            match (span is_tab_or_blank after).2 with
            | b :: rest => if byte_is b 0x5b then option_map trim (close_bracket 1 rest) else None
            | [] => None
            end
      | None => key_expr needle l'
      end
  end.
Definition extract_agg_key_expr (body name : bytes) : option bytes := key_expr (u8b 0x40 :: name) body.

(** ** Rewriting clauses *)

Definition one_word (ws : list string) (s : bytes) : bool := existsb (is_str s) ws.
Definition dummy_for (comp : bytes) : bytes :=
  if one_word ["execname"; "probefunc"; "probename"; "probeprov"; "probemod"]%string (trim comp)
  then [u8b 0x22; u8b 0x22] else str "0".
Fixpoint find_map_clause {A} (f : Clause -> option A) (cs : list Clause) : option A :=
  match cs with [] => None | c :: cs => match f c with Some a => Some a | None => find_map_clause f cs end end.
Definition key_for (cs : list Clause) (name : bytes) : bytes :=
  match find_map_clause (fun c => if clause_is_bifrost c then extract_agg_key_expr (clause_body c) name else None) cs with
  | Some expr => Printa.join (str ", ") (map dummy_for (split_top_level_commas expr))
  | None => str "0"
  end.
Definition stub_body (name key : bytes) : bytes := u8b 0x40 :: name ++ u8b 0x5b :: key ++ str "] = count();".
Definition stub (name key : bytes) : Clause :=
  {| clause_specs := [{| spec_provider := str "dtrace"; spec_module := []; spec_function := []; spec_name := str "BEGIN";
                         spec_binary := None |}];
     clause_pred := Some (str "0"); clause_body := stub_body name key;
     clause_source := str "dtrace:::BEGIN / 0 / { " ++ stub_body name key ++ str " }" |}.
Definition inject_guest_agg_stubs (parsed : Parsed) (stubs : list bytes) : Parsed :=
  {| preamble := preamble parsed;
     clauses := fold_left (fun cs name => stub name (key_for (clauses parsed) name) :: cs) stubs (clauses parsed) |}.

Definition is_string_key (t : bytes) : bool := one_word ["execname"; "probefunc"; "probename"]%string t.
Definition fmt_part (comp : bytes) : bytes :=
  if is_string_key (trim comp) then [u8b 0x5c; u8b 0x22; u8b 0x25; u8b 0x73; u8b 0x5c; u8b 0x22] else str "%lld".
Definition arg_part (comp : bytes) : bytes :=
  if is_string_key (trim comp) then trim comp else str "(long long)(" ++ trim comp ++ str ")".
Definition host_marker (body name : bytes) : bytes :=
  let components := split_top_level_commas (default (str "0") (extract_agg_key_expr body name)) in
  NL :: str "    printf(" ++ u8b 0x22 :: str "##xagg-host##|" ++ name ++ u8b 0x7c :: Printa.join (str ",") (map fmt_part components)
  ++ str "|+1\n" ++ u8b 0x22 :: str ", " ++ Printa.join (str ", ") (map arg_part components) ++ str ");".
Definition host_source (source body : bytes) : bytes :=
  match find_str [u8b 0x7b] source, rfind_byte 0x7d source with
  | Some (before, _), Some _ => before ++ u8b 0x7b :: NL :: str "    " ++ trim body ++ [NL; u8b 0x7d]
  | _, _ => source
  end.
Definition tag_clause (shared : list bytes) (c : Clause) : Clause :=
  if clause_is_bifrost c then c
  else
    match filter (fun n => n ∈ shared) (collect_clause_agg_names (clause_body c)) with
    | [] => c
    | names =>
        let body := clause_body c ++ flat_map (host_marker (clause_body c)) names in
        {| clause_specs := clause_specs c; clause_pred := clause_pred c; clause_body := body;
           clause_source := host_source (clause_source c) body |}
    end.
Definition rewrite_host_clauses_for_cross_aggs (parsed : Parsed) (shared : list bytes) : Parsed :=
  match shared with
  | [] => parsed
  | _ => {| preamble := preamble parsed; clauses := map (tag_clause shared) (clauses parsed) |}
  end.

(** ** Marker lines *)

Record CrossAggValue : Type := { host : Z; guest : Z }.
Definition no_value : CrossAggValue := {| host := 0; guest := 0 |}.
Record Tables : Type := { xagg : gmap (bytes * bytes) CrossAggValue; quantize_state : gmap (bytes * Z) Z }.
Definition no_tables : Tables := {| xagg := ∅; quantize_state := ∅ |}.

Definition strip_marker (line : bytes) (tag : string) : option bytes :=
  match drop_prefix (str tag) line with Some rest => Some rest | None => option_map snd (find_str (str tag) line) end.
Definition contains (tag : string) (line : bytes) : bool := match find_str (str tag) line with Some _ => true | None => false end.

Definition parse_quantize_marker (body : bytes) (t : Tables) : bool * Tables :=
  match splitn 3 0x7c body with
  | name :: rest =>
      if DParse.is_empty name then (false, t)
      else
        match b ← head rest; parse_upto U32_MAX (trim b) with
        | Some bucket =>
            match c ← head (tail rest); Printa.parse_u64 (trim c) with
            | Some count =>
                (true, {| xagg := xagg t; quantize_state := <[(name, bucket) := count]> (quantize_state t) |})
            | None => (false, t)
            end
        | None => (false, t)
        end
  | [] => (false, t)
  end.

Definition marker_value (field : bytes) : Z :=
  match field with
  | x :: rest => if byte_is x 0x2b then default 0 (Printa.parse_u64 rest) else default 0 (Printa.parse_u64 field)
  | [] => 0
  end.
Definition update_value (is_host : bool) (value : Z) (v : CrossAggValue) : CrossAggValue :=
  if is_host then {| host := wrapping_add64 (host v) value; guest := guest v |} else {| host := host v; guest := value |}.
Definition xagg_body (line body : bytes) (t : Tables) : bool * Tables :=
  match splitn 3 0x7c body with
  | [name; key; value] =>
      if DParse.is_empty name then (false, t)
      else
        let k := (name, trim key) in
        let v := update_value (contains "##xagg-host##" line) (marker_value (trim value)) (default no_value (xagg t !! k)) in
        (true, {| xagg := <[k := v]> (xagg t); quantize_state := quantize_state t |})
  | _ => (false, t)
  end.
Definition try_parse_xagg_line (line : bytes) (t : Tables) : bool * Tables :=
  match strip_marker line "##xagg-guest-quantize##|" with
  | Some rest => parse_quantize_marker rest t
  | None =>
      match strip_marker line "##xagg-host##|" with
      | Some rest => xagg_body line rest t
      | None =>
          match strip_marker line "##xagg-guest##|" with
          | Some rest => xagg_body line rest t
          | None => (false, t)
          end
      end
  end.

(** [dispatch_line] of runtime.rs, with both states there: a line is for the
    tables, or for the stitcher, or is printed. *)
Section Dispatch.
Context {E : Type}.

Definition dispatch_line (line : bytes) (t : Tables) (st : XstackState) : outcome E (bytes * Tables * XstackState) :=
  match line with
  | [] => Ret ([], t, st)
  | _ =>
      let '(consumed_agg, t) := try_parse_xagg_line line t in
      if consumed_agg then Ret ([], t, st)
      else
        r ← try_parse_xstack_line line st;
        let '(consumed_xs, text, st) := (r : bool * bytes * XstackState) in
        Ret (if consumed_xs then text else line ++ [NL], t, st)
  end.
Fixpoint dispatch_all (lines : list bytes) (t : Tables) (st : XstackState) : outcome E (bytes * Tables * XstackState) :=
  match lines with
  | [] => Ret ([], t, st)
  | line :: lines =>
      r ← dispatch_line line t st;
      let '(text, t, st) := (r : bytes * Tables * XstackState) in
      s ← dispatch_all lines t st;
      let '(rest, t, st) := (s : bytes * Tables * XstackState) in
      Ret (text ++ rest, t, st)
  end.
End Dispatch.

(** ** The tables as they are shown *)

(** [{:>w$}] and [{:<w$}]: widths count characters. *)
Definition chars (s : bytes) : Z := len (filter (fun x => negb (in_span 0x80 0xbf (byte.unsigned x)) = true) s).
Definition right (w : Z) (s : bytes) : bytes := replicate (Z.to_nat (w - chars s)) SP ++ s.
Definition left (w : Z) (s : bytes) : bytes := s ++ replicate (Z.to_nat (w - chars s)) SP.
Definition eline (parts : list bytes) : bytes := Printa.join [SP] parts ++ [NL].

Definition pow_text (base e : Z) : bytes := decimal base ++ u8b 0x5e :: decimal e.
Definition bucket_label (bucket : Z) : bytes :=
  if bucket =? 0 then str "0" else if 64 <=? bucket then pow_text 2 (bucket - 1) else decimal (Z.shiftl 1 (bucket - 1)).

Definition U128_MAX : Z := 2 ^ 128 - 1.
Definition saturating_mul128 (a b : Z) : Z := Z.min U128_MAX (a * b).
Fixpoint power128 (n : nat) (base acc : Z) : Z :=
  match n with O => acc | S n => power128 n base (saturating_mul128 acc base) end.

Section Labels.
Context {E : Type}.

(** [p.step as i64] may be negative. *)
Definition lquantize_bucket_label (p : LquantizeParams) (bucket : Z) : outcome E bytes :=
  let step := to_signed 64 (lq_step p) in
  if bucket =? 0 then Ret (str "< " ++ signed_decimal (lq_base p))
  else if lq_levels p <? bucket then
    w ← mul_i64 (lq_levels p) step;
    hi ← add_i64 (lq_base p) w;
    Ret (str ">= " ++ signed_decimal hi)
  else
    w ← mul_i64 (bucket - 1) step;
    lo ← add_i64 (lq_base p) w;
    Ret (signed_decimal lo).

Definition llquantize_bucket_label (p : LlquantizeParams) (bucket : Z) : outcome E bytes :=
  if high_mag p <? low_mag p then Panic
  else if U32_MAX <? (high_mag p - low_mag p + 1) * steps_per_mag p then Panic
  else
    let n_in_range := (high_mag p - low_mag p + 1) * steps_per_mag p in
    if bucket =? 0 then Ret (str "< " ++ pow_text (factor p) (low_mag p))
    else if n_in_range <? bucket then
      if 255 <? high_mag p + 1 then Panic else Ret (str ">= " ++ pow_text (factor p) (high_mag p + 1))
    else
      let i := bucket - 1 in
      let mag := i / steps_per_mag p + low_mag p in
      let sub := i mod steps_per_mag p in
      let band_lo := power128 (Z.to_nat mag) (factor p) 1 in
      let band_hi := saturating_mul128 band_lo (factor p) in
      let sub_step := Z.max 0 (band_hi - band_lo) / steps_per_mag p in
      let v := band_lo + sub * sub_step in
      if U128_MAX <? v then Panic else Ret (decimal_fuel 39 v []).

(** ** Histograms *)

Definition mul64 (a b : Z) : outcome E Z := if a * b <=? U64_MAX then Ret (a * b) else Panic.
Definition group {A} (l : list (bytes * A)) : btree bytes (list A) :=
  fold_left (fun m '(name, a) => bt_insert name (default [] (bt_get name m) ++ [a]) m) l [].

Definition label_for (h : Hints) (name : bytes) (b : Z) : outcome E bytes :=
  match lquantize_params_for name h, llquantize_params_for name h with
  | Some p, _ => lquantize_bucket_label p b
  | None, Some p => llquantize_bucket_label p b
  | None, None => Ret (bucket_label b)
  end.
Definition header_for (h : Hints) (name : bytes) : bytes :=
  match lquantize_params_for name h, llquantize_params_for name h with
  | Some _, _ => str "lquantize"
  | None, Some _ => str "llquantize"
  | None, None => str "quantize"
  end.
Definition count_of (b : Z) (buckets : list (Z * Z)) : Z :=
  match list_find (fun x => x.1 = b) buckets with Some (_, x) => x.2 | None => 0 end.
Definition bucket_line (h : Hints) (name : bytes) (buckets : list (Z * Z)) (max b : Z) : outcome E bytes :=
  let count := count_of b buckets in
  w ← (if max =? 0 then Ret 0 else n ← mul64 count 40; Ret (n / max));
  label ← label_for h name b;
  Ret (right 20 label ++ str " |" ++ left 40 (replicate (Z.to_nat w) (u8b 0x40)) ++ SP :: right 10 (decimal count) ++ [NL]).
Fixpoint bucket_lines (n : nat) (h : Hints) (name : bytes) (buckets : list (Z * Z)) (max b : Z) : outcome E bytes :=
  match n with
  | O => Ret []
  | S n => line ← bucket_line h name buckets max b; rest ← bucket_lines n h name buckets max (b + 1); Ret (line ++ rest)
  end.
Definition max_count (buckets : list (Z * Z)) : Z := fold_right (fun x m => Z.max x.2 m) 0 buckets.
Definition quantize_table (h : Hints) (name : bytes) (rows : list (Z * Z)) : outcome E bytes :=
  let buckets := sort_by_key (fun x : Z * Z => x.1) rows in
  match buckets, list.last buckets with
  | first :: _, Some final =>
      if U32_MAX <? final.1 + 1 then Panic
      else
        let lo := saturating_sub first.1 1 in
        lines ← bucket_lines (Z.to_nat (final.1 + 1 - lo + 1)) h name buckets (max_count buckets) lo;
        Ret (NL :: str "  @" ++ name ++ str " (" ++ header_for h name ++ str ")" ++ NL ::
             right 20 (str "value") ++ SP :: left 41 (str "------------- Distribution -------------") ++ SP :: right 10 (str "count") ++ NL ::
             lines)
  | _, _ => Ret []
  end.
Fixpoint concat_outcome {A} (f : A -> outcome E bytes) (l : list A) : outcome E bytes :=
  match l with [] => Ret [] | a :: l => t ← f a; rest ← concat_outcome f l; Ret (t ++ rest) end.

(** [entries] is the state in the order its iterator gives it. *)
Definition dump_quantize_state (h : Hints) (entries : list ((bytes * Z) * Z)) : outcome E bytes :=
  concat_outcome (fun '(name, rows) => quantize_table h name rows)
    (group (omap (fun '((name, b), c) => if c =? 0 then None else Some (name, (b, c))) entries)).

(** ** Scalars *)

Definition xrow : Type := bytes * CrossAggValue.
Definition row_total (v : CrossAggValue) : outcome E Z := add64 (host v) (guest v).
(** [sort_by] with a comparison that adds: the sums are taken of every row that
    is compared. *)
Definition checked_rows (rows : list xrow) : outcome E (list xrow) :=
  match rows with
  | _ :: _ :: _ =>
      if forallb (fun r : xrow => host r.2 + guest r.2 <=? U64_MAX) rows
      then Ret (sort_by_key (fun r : xrow => - (host r.2 + guest r.2)) rows)
      else Panic
  | _ => Ret rows
  end.
Definition row_line (both : bool) (div : Z) (r : xrow) : outcome E bytes :=
  t ← row_total r.2;
  Ret (eline (if both
              then [right 32 r.1; right 12 (decimal (host r.2 / div)); right 12 (decimal (guest r.2 / div)); right 12 (decimal (t / div))]
              else [right 32 r.1; right 12 (decimal (t / div))])).
Definition agg_table (h : Hints) (name : bytes) (rows : list xrow) : outcome E bytes :=
  rows ← checked_rows rows;
  let hint := render_hint_for name h in
  let div := if divisor hint =? 0 then 1 else divisor hint in
  let rows := match trunc hint with Some cap => take (Z.to_nat cap) rows | None => rows end in
  let both := existsb (fun r : xrow => negb (host r.2 =? 0)) rows && existsb (fun r : xrow => negb (guest r.2 =? 0)) rows in
  lines ← concat_outcome (row_line both div) rows;
  Ret (str "  @" ++ name
       ++ (if divisor hint =? 0 then [] else str " (normalize=" ++ decimal (divisor hint) ++ str ")")
       ++ match trunc hint with Some cap => str " (trunc=" ++ decimal cap ++ str ")" | None => [] end ++ NL ::
       eline (if both then [right 32 (str "key"); right 12 (str "host"); right 12 (str "guest"); right 12 (str "total")]
              else [right 32 (str "key"); right 12 (str "value")])
       ++ lines).

(** The values a table is hashed by, in the order the hasher is fed. *)
Inductive hashed : Type :=
  | H_str (s : bytes)
  | H_int (n : Z).
Definition hash_rows (name : bytes) (rows : list xrow) : list hashed :=
  H_str name :: flat_map (fun r : xrow => [H_str r.1; H_int (host r.2); H_int (guest r.2)]) (sort_by_key (fun r : xrow => r.1) rows).
Definition hash_quantize (q : list ((bytes * Z) * Z)) : list hashed :=
  flat_map (fun '((n, b), c) => [H_str n; H_int b; H_int c]) (sort_by_key (fun x : (bytes * Z) * Z => x.1) q).

Context (finish : list hashed -> Z).

(** What is printed, and the hash kept for the next call. *)
Definition dump_xagg_state_inner (h : Hints) (rows : list ((bytes * bytes) * CrossAggValue)) (q : list ((bytes * Z) * Z))
    (force : bool) (last_hash : Z) : outcome E (bytes * Z) :=
  match rows, q with
  | [], [] => Ret ([], last_hash)
  | _, _ =>
      let by_name := group (map (fun '((name, key), v) => (name, (key, v))) rows) in
      let cur := finish (flat_map (fun '(name, rows) => hash_rows name rows) by_name ++ hash_quantize q) in
      if negb force && (last_hash =? cur) then Ret ([], cur)
      else
        tables ← concat_outcome (fun '(name, rows) => agg_table h name rows) by_name;
        histograms ← dump_quantize_state h q;
        Ret (NL :: tables ++ histograms, if force then last_hash else cur)
  end.
Definition dump_xagg_state h rows q last_hash := dump_xagg_state_inner h rows q false last_hash.
Definition dump_xagg_state_force h rows q last_hash := dump_xagg_state_inner h rows q true last_hash.
End Labels.

(** * The tables of a session

    Markers of either side, in any order, among the events of the stitcher. *)

Inductive marker : Type :=
  | M_host (name key : bytes) (delta : Z)
  | M_guest (name key : bytes) (value : Z)
  | M_quantize (name : bytes) (bucket count : Z).

Definition marker_fields (m : marker) : bytes :=
  match m with
  | M_host name key d => name ++ BAR :: key ++ BAR :: u8b 0x2b :: decimal d
  | M_guest name key v => name ++ BAR :: key ++ BAR :: decimal v
  | M_quantize name b c => name ++ BAR :: decimal b ++ BAR :: decimal c
  end.
Definition marker_tag (m : marker) : string :=
  match m with M_host _ _ _ => "##xagg-host##|" | M_guest _ _ _ => "##xagg-guest##|" | M_quantize _ _ _ => "##xagg-guest-quantize##|" end.
Definition print_marker (noise : bytes) (m : marker) : bytes := noise ++ str (marker_tag m) ++ marker_fields m.

Definition name_ok (s : bytes) : Prop := s <> [] /\ Forall (fun x => byte_is x 0x7c = false) s /\ (HASH ∉ s).
Definition key_ok (s : bytes) : Prop := field_ok s /\ (HASH ∉ s).
Definition marker_ok (m : marker) : Prop :=
  match m with
  | M_host name key d | M_guest name key d => name_ok name /\ key_ok key /\ 0 <= d <= U64_MAX
  | M_quantize name b c => name_ok name /\ 0 <= b <= U32_MAX /\ 0 <= c <= U64_MAX
  end.

(** What the markers of a session say of a row: the host's increments added
    up, the guest's last word; and of a bucket, its last count. *)
Definition of_row (name key n k : bytes) : bool := bool_decide (n = name /\ k = key).
Definition host_sum (name key : bytes) (ms : list marker) : Z :=
  fold_right (fun m s => match m with M_host n k d => if of_row name key n k then d + s else s | _ => s end) 0 ms.
Definition guest_last (name key : bytes) (ms : list marker) (v0 : Z) : Z :=
  fold_left (fun v m => match m with M_guest n k d => if of_row name key n k then d else v | _ => v end) ms v0.
Definition bucket_last (name : bytes) (b : Z) (ms : list marker) (c0 : option Z) : option Z :=
  fold_left (fun c m => match m with M_quantize n b' d => if bool_decide (n = name /\ b' = b) then Some d else c | _ => c end) ms c0.
Definition row (t : Tables) (name key : bytes) : CrossAggValue := default no_value (xagg t !! (name, key)).

(** ** Reading a marker *)

Lemma strip_marker_find line tag : strip_marker line tag = option_map snd (find_str (str tag) line).
Proof.
  unfold strip_marker. destruct (drop_prefix (str tag) line) as [rest|] eqn:E; [|done].
  destruct line as [|x l]; cbn [find_str]; by rewrite E.
Qed.

Lemma no_hash_bar a b : HASH ∉ a -> HASH ∉ b -> HASH ∉ a ++ BAR :: b.
Proof. intros Ha Hb H. apply elem_of_app in H as [|[?|]%elem_of_cons]; done. Qed.

Lemma fields_no_hash m : marker_ok m -> HASH ∉ marker_fields m.
Proof.
  assert (U : U32_MAX <= U64_MAX) by done.
  destruct m as [n k d|n k d|n b c]; cbn [marker_ok marker_fields].
  - intros ((_ & _ & Hn) & [_ Hk] & Hd). apply no_hash_bar; [done|]. apply no_hash_bar; [done|].
    intros [?|H]%elem_of_cons; [done|]. by apply (decimal_no_hash d Hd).
  - intros ((_ & _ & Hn) & [_ Hk] & Hd). apply no_hash_bar; [done|]. apply no_hash_bar; [done|]. by apply decimal_no_hash.
  - intros ((_ & _ & Hn) & Hb & Hc). apply no_hash_bar; [done|]. apply no_hash_bar; apply decimal_no_hash; lia.
Qed.

Lemma plain_fields n m : marker_ok m -> head n = Some HASH -> find_str n (marker_fields m) = None.
Proof.
  intros Hm Hn. destruct n as [|x n]; [done|]. injection Hn as ->. by apply find_str_none, fields_no_hash.
Qed.

Ltac no_marker Hm :=
  apply skip_noise; [done..|]; apply find_str_passes; [by vm_compute|]; by apply (plain_fields _ _ Hm).

Lemma own_tag noise m : HASH ∉ noise ->
  option_map snd (find_str (str (marker_tag m)) (print_marker noise m)) = Some (marker_fields m).
Proof.
  intros H. pose proof (fun n => f_equal (option_map snd) (find_str_app HASH n noise (marker_fields m) H)) as F.
  destruct m.
  - exact (F (tail (str "##xagg-host##|"))).
  - exact (F (tail (str "##xagg-guest##|"))).
  - exact (F (tail (str "##xagg-guest-quantize##|"))).
Qed.

Lemma guest_no_host noise m n : HASH ∉ noise -> marker_ok m -> (forall a b d, m <> M_host a b d) ->
  n = str "##xagg-host##|" \/ n = str "##xagg-host##" -> find_str n (print_marker noise m) = None.
Proof. intros H Hm Hh [-> | ->]; (destruct m as [a b d|a b d|a b d]; [by destruct (Hh a b d)|..]; no_marker Hm). Qed.

Lemma scalar_no_quantize noise m : HASH ∉ noise -> marker_ok m -> (forall a b d, m <> M_quantize a b d) ->
  find_str (str "##xagg-guest-quantize##|") (print_marker noise m) = None.
Proof. intros H Hm Hq. destruct m as [a b d|a b d|a b d]; [..|by destruct (Hq a b d)]; no_marker Hm. Qed.

Lemma read_trim n : 0 <= n <= U64_MAX -> Printa.parse_u64 (trim (decimal n)) = Some n.
Proof. intros H. by rewrite trim_decimal, parse_u64_decimal. Qed.

Lemma marker_value_plus d : 0 <= d <= U64_MAX -> marker_value (trim (u8b 0x2b :: decimal d)) = d.
Proof.
  intros H. rewrite trim_visible.
  - cbn [marker_value]. change (byte_is (u8b 0x2b) 0x2b) with true. cbn iota. by rewrite parse_u64_decimal.
  - by exists (u8b 0x2b), (decimal d).
  - destruct (decimal_ok d H) as (D & N & _). destruct (digits_ends _ D N) as (_ & t & x & -> & Hx).
    by exists (u8b 0x2b :: t), x.
Qed.

Lemma marker_value_plain d : 0 <= d <= U64_MAX -> marker_value (trim (decimal d)) = d.
Proof.
  intros H. rewrite trim_decimal by done. pose proof (parse_u64_decimal d H) as P. destruct (decimal_ok d H) as (D & N & _).
  destruct (decimal d) as [|x l]; [done|]. cbn [marker_value]. pose proof D as [Dx _]%andb_prop.
  assert (byte_is x 0x2b = false) as -> by (revert Dx; clear; by destruct x). by rewrite P.
Qed.

Lemma name_not_empty s : name_ok s -> DParse.is_empty s = false.
Proof. intros (N & _). by destruct s. Qed.

Lemma xagg_body_fields line name key value t : name_ok name -> key_ok key ->
  xagg_body line (name ++ BAR :: key ++ BAR :: value) t =
  (true, {| xagg := <[(name, key) := update_value (contains "##xagg-host##" line) (marker_value (trim value))
                                       (row t name key)]> (xagg t); quantize_state := quantize_state t |}).
Proof.
  intros Hn [[Kb Kt] _]. pose proof (name_not_empty _ Hn) as E. destruct Hn as (_ & Nb & _). unfold xagg_body.
  rewrite (splitn_bar 1), (splitn_bar 0) by done. cbn [splitn]. by rewrite E, Kt.
Qed.

(** What one marker does to the tables. *)
Definition apply_marker (m : marker) (t : Tables) : Tables :=
  match m with
  | M_host n k d =>
      {| xagg := <[(n, k) := {| host := wrapping_add64 (host (row t n k)) d; guest := guest (row t n k) |}]> (xagg t);
         quantize_state := quantize_state t |}
  | M_guest n k v =>
      {| xagg := <[(n, k) := {| host := host (row t n k); guest := v |}]> (xagg t); quantize_state := quantize_state t |}
  | M_quantize n b c => {| xagg := xagg t; quantize_state := <[(n, b) := c]> (quantize_state t) |}
  end.

Lemma host_contains noise n k d : HASH ∉ noise ->
  find_str (str "##xagg-host##") (print_marker noise (M_host n k d)) = Some (noise, BAR :: marker_fields (M_host n k d)).
Proof. exact (find_str_app HASH (tail (str "##xagg-host##")) noise (BAR :: marker_fields (M_host n k d))). Qed.

Lemma try_marker noise m t : HASH ∉ noise -> marker_ok m ->
  try_parse_xagg_line (print_marker noise m) t = (true, apply_marker m t).
Proof.
  intros H Hm. unfold try_parse_xagg_line. rewrite !strip_marker_find. pose proof (own_tag noise m H) as O.
  destruct m as [n k d|n k d|n b c]; cbn [marker_tag] in O.
  - rewrite (scalar_no_quantize noise _ H Hm) by done. cbn [option_map]. rewrite O. cbn [marker_fields].
    destruct Hm as (Hn & Hk & Hd). rewrite xagg_body_fields by done. rewrite marker_value_plus by done.
    unfold contains. by rewrite host_contains.
  - rewrite (scalar_no_quantize noise _ H Hm) by done. cbn [option_map].
    rewrite (guest_no_host noise _ (str "##xagg-host##|") H Hm) by (done || by left). cbn [option_map]. rewrite O. cbn [marker_fields].
    unfold contains. pose proof (guest_no_host noise _ (str "##xagg-host##") H Hm) as G.
    destruct Hm as (Hn & Hk & Hd). rewrite xagg_body_fields by done. rewrite marker_value_plain by done.
    unfold contains. by rewrite G by (done || by right).
  - rewrite O. cbn [marker_fields]. destruct Hm as (Hn & Hb & Hc). pose proof (name_not_empty _ Hn) as E.
    assert (Hb' : 0 <= b <= U64_MAX) by (unfold U32_MAX in Hb; unfold U64_MAX; lia). destruct Hn as (_ & Nb & _).
    unfold parse_quantize_marker. rewrite (splitn_bar 1) by done. rewrite (splitn_bar 0) by by apply decimal_no_bar.
    cbn [splitn head tail]. rewrite E. cbn [mbind option_bind]. unfold parse_upto. rewrite read_trim by done.
    rewrite (proj2 (Z.leb_le _ _)) by lia. by rewrite read_trim.
Qed.

(** ** With the stitcher *)

Definition clean_event (e : xevent) : Prop :=
  match e with E_fire p => (HASH ∉ xp_label p) /\ (HASH ∉ xp_gpid p) | _ => True end.
Definition mixed : Type := bytes * (marker + xevent).
Definition print_mixed (m : mixed) : bytes :=
  match m.2 with inl a => print_marker m.1 a | inr e => print_event m.1 e end.
Definition mixed_ok (m : mixed) : Prop :=
  match m.2 with inl a => (HASH ∉ m.1) /\ marker_ok a | inr e => event_ok (m.1, e) /\ clean_event e end.
Definition markers (ms : list mixed) : list marker := omap (fun m => match m.2 with inl a => Some a | inr _ => None end) ms.
Definition events (ms : list mixed) : list (bytes * xevent) :=
  omap (fun m => match m.2 with inl _ => None | inr e => Some (m.1, e) end) ms.

Definition TAGS : list string := ["##xagg-guest-quantize##|"; "##xagg-host##|"; "##xagg-guest##|"]%string.

Lemma find_plain tag l : tag ∈ TAGS -> HASH ∉ l -> find_str (str tag) l = None.
Proof.
  intros T H. unfold TAGS in T. rewrite !elem_of_cons in T.
  destruct T as [-> |[-> |[-> |T]]]; [by apply (find_str_none HASH)..|by apply elem_of_nil in T].
Qed.

Lemma event_no_tag tag noise e : tag ∈ TAGS -> event_ok (noise, e) -> clean_event e ->
  find_str (str tag) (print_event noise e) = None.
Proof.
  intros T [Hn He] Hc. cbn [fst snd] in *.
  assert (S : forall w l, w ∈ ["##xstack-pending##|"; "##xstack-host##|"; "##xstack-end##|"]%string ->
    HASH ∉ l -> find_str (str tag) (noise ++ str w ++ l) = None).
  { intros w l W Hl. pose proof (find_plain tag l T Hl) as F. unfold TAGS in T. rewrite !elem_of_cons, elem_of_nil in T, W.
    apply skip_noise; [done| |].
    - by destruct T as [-> |[-> |[-> |[]]]].
    - apply find_str_passes; [|exact F]. destruct T as [-> |[-> |[-> |[]]]], W as [-> |[-> |[-> |[]]]]; by vm_compute. }
  destruct e as [p|tid|line|tid]; cbn [print_event].
  - apply S; [by apply (bool_decide_unpack _)|]. destruct He as (Hs & Ht & _), Hc as [Hl Hg].
    apply no_hash_bar; [by apply decimal_no_hash|]. do 2 (apply no_hash_bar; [done|]). by apply decimal_no_hash.
  - apply S; [by apply (bool_decide_unpack _)|by apply decimal_no_hash].
  - by apply find_plain; [|apply He].
  - apply S; [by apply (bool_decide_unpack _)|by apply decimal_no_hash].
Qed.

Lemma event_passes noise e t : event_ok (noise, e) -> clean_event e ->
  try_parse_xagg_line (print_event noise e) t = (false, t).
Proof.
  intros He Hc. unfold try_parse_xagg_line. rewrite !strip_marker_find.
  by rewrite !event_no_tag by (done || by apply (bool_decide_unpack _)).
Qed.

Section Totals.
Context {E : Type}.

Lemma dispatch_marker noise m t st : HASH ∉ noise -> marker_ok m ->
  dispatch_line (E:=E) (print_marker noise m) t st = Ret ([], apply_marker m t, st).
Proof.
  intros H Hm. pose proof (try_marker noise m t H Hm) as T. unfold dispatch_line.
  destruct (print_marker noise m) as [|x l] eqn:P; [|by rewrite T].
  apply app_eq_nil in P as [_ P]. by destruct m.
Qed.

Lemma dispatch_tracks ms t st : Forall mixed_ok ms ->
  dispatch_all (E:=E) (map print_mixed ms) t st =
  r ← stitch (print_events (events ms)) st;
  Ret (r.1, fold_left (fun t m => apply_marker m t) (markers ms) t, r.2).
Proof.
  intros H. revert t st. induction H as [|[noise [m|e]] ms Hm H IH]; intros t st; [done|..].
  - destruct Hm as [Hn Hm]. cbn [fst snd] in *. cbn [map dispatch_all]. change (print_mixed (noise, inl m)) with (print_marker noise m).
    rewrite dispatch_marker, bind_Ret by done. rewrite IH. cbn [markers events omap list_omap snd fold_left].
    by destruct (stitch _ st) as [r| |].
  - destruct Hm as [He Hc]. cbn [fst snd] in *. cbn [map dispatch_all]. change (print_mixed (noise, inr e)) with (print_event noise e).
    change (events ((noise, inr e) :: ms)) with ((noise, e) :: events ms). change (markers ((noise, inr e) :: ms)) with (markers ms).
    cbn [print_events map fst snd]. destruct (print_event_cons noise e He) as (x & l & P).
    rewrite stitch_cons by (by rewrite P). unfold dispatch_line. rewrite P, <- P, event_passes by done.
    destruct (try_parse_xstack_line (print_event noise e) st) as [[[c text] st1]| |]; [|done..].
    rewrite !bind_Ret. rewrite IH. unfold print_events. by destruct (stitch _ st1) as [r| |].
Qed.
End Totals.

Lemma row_insert t name key n k v : xagg t = xagg t ->
  row {| xagg := <[(n, k) := v]> (xagg t); quantize_state := quantize_state t |} name key =
  if of_row name key n k then v else row t name key.
Proof.
  intros _. unfold row, of_row. cbn [xagg]. case_bool_decide as D.
  - destruct D as [-> ->]. by rewrite lookup_insert_eq.
  - rewrite lookup_insert_ne; [done|]. intros [= -> ->]. by apply D.
Qed.

Lemma apply_row name key m t :
  row (apply_marker m t) name key =
  match m with
  | M_host n k d => if of_row name key n k
                    then {| host := wrapping_add64 (host (row t name key)) d; guest := guest (row t name key) |}
                    else row t name key
  | M_guest n k v => if of_row name key n k then {| host := host (row t name key); guest := v |} else row t name key
  | M_quantize _ _ _ => row t name key
  end.
Proof.
  destruct m as [n k d|n k d|n b c]; cbn [apply_marker]; [..|done]; rewrite row_insert by done;
    unfold of_row; case_bool_decide as D; (done || by destruct D as [-> ->]).
Qed.

Lemma totals_from name key ms : forall t, 0 <= host (row t name key) < 2 ^ 64 ->
  row (fold_left (fun t m => apply_marker m t) ms t) name key =
  {| host := (host (row t name key) + host_sum name key ms) mod 2 ^ 64;
     guest := guest_last name key ms (guest (row t name key)) |}.
Proof.
  induction ms as [|m ms IH]; intros t Ht.
  - cbn. rewrite Z.add_0_r, Z.mod_small by done. by destruct (row t name key).
  - cbn [fold_left]. rewrite IH, apply_row.
    + cbn [host_sum fold_right guest_last fold_left]. fold (host_sum name key ms).
      destruct m as [n k d|n k d|n b c]; [..|done]; destruct (of_row name key n k); cbn [host guest]; [|done..].
      f_equal. unfold wrapping_add64. by rewrite Zplus_mod_idemp_l, <- Z.add_assoc.
    + rewrite apply_row. destruct m as [n k d|n k d|n b c]; [..|done]; destruct (of_row name key n k); cbn [host]; [|done..].
      apply Z.mod_pos_bound. lia.
Qed.

Lemma buckets_from name b ms : forall t,
  quantize_state (fold_left (fun t m => apply_marker m t) ms t) !! (name, b) =
  bucket_last name b ms (quantize_state t !! (name, b)).
Proof.
  induction ms as [|m ms IH]; intros t; [done|]. cbn [fold_left bucket_last]. rewrite IH.
  destruct m as [n k d|n k d|n b' c]; cbn [apply_marker quantize_state]; [done..|].
  case_bool_decide as D; [destruct D as [-> ->]; by rewrite lookup_insert_eq|].
  rewrite lookup_insert_ne; [done|]. intros [= -> ->]. by apply D.
Qed.

(** the lines of a session, markers of aggregations from both sides, in
    any order, with the fires and stacks of the stitcher and other output in
    between: the stitcher sees its events alone, and the tables hold, for each
    row, the host's increments added up, on 64 bits, and the guest's last
    value, and for each bucket its last count. *)
Theorem dispatch_totals {E} ms st : Forall mixed_ok ms ->
  exists t, dispatch_all (E:=E) (map print_mixed ms) no_tables st =
      (r ← stitch (print_events (events ms)) st; Ret (r.1, t, r.2)) /\
    (forall name key, row t name key =
       {| host := host_sum name key (markers ms) mod 2 ^ 64; guest := guest_last name key (markers ms) 0 |}) /\
    (forall name b, quantize_state t !! (name, b) = bucket_last name b (markers ms) None).
Proof.
  intros H. exists (fold_left (fun t m => apply_marker m t) (markers ms) no_tables). split; [by apply dispatch_tracks|].
  assert (R : forall name key, row no_tables name key = no_value).
  { intros name key. unfold row. cbn [xagg no_tables]. by rewrite lookup_empty. }
  split; intros name key.
  - rewrite totals_from; by rewrite R.
  - rewrite buckets_from. cbn [quantize_state no_tables]. by rewrite lookup_empty.
Qed.

(** * Stubs *)

Lemma bt_insert_member {V} (k x : bytes) (v : V) m : x ∈ map fst (bt_insert k v m) <-> x = k \/ x ∈ map fst m.
Proof.
  induction m as [|[y w] m IH]; cbn [bt_insert map fst].
  - rewrite elem_of_cons. done.
  - destruct (cmp k y) eqn:C; cbn [map fst]; rewrite !elem_of_cons.
    + apply cmp_eq in C as ->. tauto.
    + done.
    + rewrite IH. tauto.
Qed.

Lemma set_of_member x l : x ∈ set_of l <-> x ∈ l.
Proof.
  unfold set_of, bt_collect. induction l as [|y l IH] using rev_ind; [done|].
  rewrite map_app, fold_left_app. cbn [map fold_left]. rewrite bt_insert_member, IH, elem_of_app, list_elem_of_singleton. tauto.
Qed.

(** Names as they can be written. *)
Definition agg_ident (s : bytes) : Prop :=
  match s with x :: s => is_ident_start x = true /\ Forall (fun y => is_ident_byte y = true) s | [] => False end.

Lemma ident_start_byte x : is_ident_start x = true -> is_ident_byte x = true.
Proof. by destruct x. Qed.

Lemma agg_names_ident fuel : forall in_s esc l, Forall agg_ident (agg_names fuel in_s esc l).
Proof.
  induction fuel as [|fuel IH]; intros in_s esc l; [constructor|]. destruct l as [|b l]; [constructor|]. cbn [agg_names].
  destruct in_s; [destruct esc; [|destruct (byte_is b 0x5c)]; apply IH|].
  destruct (byte_is b 0x22); [apply IH|]. destruct (byte_is b 0x40); [|apply IH].
  destruct l as [|x l]; [constructor|]. destruct (is_ident_start x) eqn:X; [|apply IH].
  unfold take_ident. cbn [span]. rewrite (ident_start_byte _ X).
  destruct (span_spec is_ident_byte l) as [_ S]. destruct (span is_ident_byte l) as [a rest]. constructor; [by split|apply IH].
Qed.

Lemma guest_decl_ident cs : Forall agg_ident (guest_decl cs).
Proof.
  unfold guest_decl. induction cs as [|c cs IH]; [constructor|]. cbn [flat_map]. apply list.Forall_app_2; [|done].
  destruct (clause_is_bifrost c); [apply agg_names_ident|constructor].
Qed.

(** A declaration at the front of a body is found. *)
Lemma agg_names_front name x rest : agg_ident name -> is_ident_byte x = false ->
  name ∈ collect_clause_agg_names (u8b 0x40 :: name ++ x :: rest).
Proof.
  destruct name as [|y name]; [done|]. intros [Hy Hn] Hx. unfold collect_clause_agg_names. cbn [length agg_names].
  change (byte_is (u8b 0x40) 0x22) with false. change (byte_is (u8b 0x40) 0x40) with true. cbn iota. cbn [app].
  assert (S : span is_ident_byte ((y :: name) ++ x :: rest) = (y :: name, x :: rest)).
  { apply span_app; [|done]. constructor; [by apply ident_start_byte|done]. }
  rewrite Hy. unfold take_ident. cbn [app] in S. rewrite S. by left.
Qed.

(** ** The mask leaves a stub alone *)

Lemma mask_no_call z text rest fuel : byte_is z 0x28 = false -> z ∉ str "printa" -> no_paren text ->
  (S (length text + length rest) <= fuel)%nat ->
  mask_loop fuel (text ++ z :: rest) = text ++ mask_loop (fuel - length text) (z :: rest).
Proof.
  intros Hz Hw Hp. revert fuel. induction text as [|x text IH]; intros fuel Hf; [by rewrite Nat.sub_0_r|].
  destruct fuel as [|fuel]; [cbn in Hf; lia|].
  pose proof (call_not_in z (str "printa") (x :: text) rest Hz Hp Hw) as C. inversion_clear Hp as [|? ? _ Hp'].
  cbn [app mask_loop] in *. change (str "printa" ++ [u8b 0x28]) with (str "printa(") in C. rewrite C.
  rewrite IH by (done || (cbn in Hf; lia)). done.
Qed.

Lemma dummy_no_paren comp : no_paren (dummy_for comp).
Proof. unfold dummy_for. destruct (one_word _ _); by repeat constructor. Qed.

Lemma join_no_paren sep l : no_paren sep -> Forall no_paren l -> no_paren (Printa.join sep l).
Proof.
  intros Hs. induction 1 as [|x l Hx H IH]; [constructor|]. cbn [Printa.join]. destruct l as [|y l]; [done|].
  by repeat apply list.Forall_app_2.
Qed.

Lemma key_for_no_paren cs name : no_paren (key_for cs name).
Proof.
  unfold key_for. destruct (find_map_clause _ _) as [expr|]; [|by repeat constructor].
  apply join_no_paren; [by repeat constructor|]. apply List.Forall_map, list.Forall_forall. intros x _. apply dummy_no_paren.
Qed.

Lemma ident_no_paren name : agg_ident name -> no_paren name.
Proof.
  destruct name as [|x name]; [done|]. intros [Hx Hn]. constructor; [by destruct x|].
  refine (list.Forall_impl _ _ _ Hn _). intros y Hy. by destruct y.
Qed.

Lemma stub_declares cs name : agg_ident name -> name ∈ collect_clause_agg_names (mask_printa_calls (stub_body name (key_for cs name))).
Proof.
  intros Hn. set (key := key_for cs name).
  set (text := u8b 0x40 :: name ++ u8b 0x5b :: key ++ str "] ").
  assert (B : stub_body name key = text ++ u8b 0x3d :: str " count();").
  { unfold stub_body, text. cbn [app]. rewrite <- app_assoc. cbn [app]. by rewrite <- app_assoc. }
  assert (P : no_paren text).
  { constructor; [done|]. apply list.Forall_app_2; [by apply ident_no_paren|]. constructor; [done|].
    apply list.Forall_app_2; [apply key_for_no_paren|by repeat constructor]. }
  assert (M : mask_printa_calls (stub_body name key) = stub_body name key).
  { rewrite B. unfold mask_printa_calls.
    rewrite mask_no_call; [|done|by apply (bool_decide_unpack _)|done|rewrite length_app; cbn; lia].
    f_equal. rewrite length_app. replace (_ - _)%nat with (length (u8b 0x3d :: str " count();")) by lia. done. }
  rewrite M. unfold stub_body. by apply agg_names_front.
Qed.

Lemma inject_clauses parsed stubs :
  clauses (inject_guest_agg_stubs parsed stubs) =
  rev (map (fun name => stub name (key_for (clauses parsed) name)) stubs) ++ clauses parsed.
Proof.
  unfold inject_guest_agg_stubs. cbn [clauses]. set (k := key_for (clauses parsed)). clearbody k.
  generalize (clauses parsed). induction stubs as [|n stubs IH]; intros cs; [done|]. cbn [fold_left map rev]. by rewrite IH, <- app_assoc.
Qed.

Lemma stubs_host l cs : guest_decl (rev (map (fun n => stub n (key_for cs n)) l)) = [].
Proof.
  induction l as [|n l IH]; [done|]. cbn [map rev]. unfold guest_decl in *. by rewrite flat_map_app, IH.
Qed.

(** the aggregations a host clause refers to but only a guest declares get
    a stub each: in the source with the stubs the guests declare what they
    did, every aggregation that a host clause referred to and a guest declares
    is declared by a host clause too, and the clauses added, in front of those
    of the source, belong to the host and never run. *)
Theorem stubs_declare {E} parsed stubs refs :
  collect_guest_only_aggs_referenced_by_host (E:=E) parsed = Ret stubs -> host_ref (E:=E) (clauses parsed) = Ret refs ->
  let source := clauses (inject_guest_agg_stubs parsed stubs) in
  guest_decl source = guest_decl (clauses parsed) /\
  (forall n, n ∈ refs -> n ∈ guest_decl source -> n ∈ host_decl source) /\
  exists added, source = added ++ clauses parsed /\ len added = len stubs /\
    Forall (fun c => clause_is_bifrost c = false /\ clause_pred c = Some (str "0")) added.
Proof.
  intros Hs Hr source. unfold source. rewrite inject_clauses.
  assert (G : guest_decl (rev (map (fun n => stub n (key_for (clauses parsed) n)) stubs) ++ clauses parsed) = guest_decl (clauses parsed)).
  { unfold guest_decl at 1. rewrite flat_map_app. fold (guest_decl (rev (map (fun n => stub n (key_for (clauses parsed) n)) stubs))).
    by rewrite stubs_host. }
  split; [done|]. split.
  - intros n Hn Hg. rewrite G in Hg. unfold host_decl. rewrite flat_map_app, elem_of_app.
    destruct (decide (n ∈ host_decl (clauses parsed))) as [Hh|Hh]; [by right|left].
    unfold collect_guest_only_aggs_referenced_by_host in Hs. rewrite Hr, bind_Ret in Hs. injection Hs as <-.
    apply list_elem_of_In, in_flat_map. exists (stub n (key_for (clauses parsed) n)). split.
    + apply in_rev. rewrite rev_involutive.
      apply (in_map (fun n => stub n (key_for (clauses parsed) n))). apply list_elem_of_In, set_of_member, list_elem_of_filter.
      split; [|done]. unfold is_member. by rewrite bool_decide_eq_true_2, bool_decide_eq_false_2.
    + apply list_elem_of_In. change (clause_is_bifrost (stub n _)) with false. cbn iota. apply stub_declares.
      pose proof (guest_decl_ident (clauses parsed)) as I. rewrite list.Forall_forall in I. by apply I.
  - eexists. split; [done|]. split; [by unfold len; rewrite length_rev, length_map|].
    apply Forall_rev, List.Forall_map, list.Forall_forall. by intros n _.
Qed.

(** * Bucket labels *)

Lemma num_signed n : I64_MIN <= n <= I64_MAX -> num parse_i64 (signed_decimal n) = n.
Proof.
  intros H. unfold num. pose proof (trim_elem (K_int n) H) as T. cbn [print_elem] in T. by rewrite T, parse_signed.
Qed.

Lemma num_decimal n : 0 <= n <= U64_MAX -> num Printa.parse_u64 (decimal n) = n.
Proof. intros H. unfold num. by rewrite read_trim. Qed.

(** A product of levels and a step that stays within the range of the keys. *)
Lemma steps_fit base upper step k : 0 < step -> base < upper -> upper - base <= I64_MAX -> 0 <= k <= (upper - base) / step ->
  k * to_signed 64 step = k * step /\ 0 <= k * step <= upper - base.
Proof.
  intros Hs Hb Hu Hk. pose proof (Z.mul_div_le (upper - base) step Hs) as D.
  assert (B : 0 <= k * step <= upper - base) by nia. split; [|done].
  destruct (Z.eq_dec k 0) as [->|Hk0]; [done|]. f_equal.
  assert (step <= I64_MAX) by nia. unfold to_signed, I64_MAX in *.
  destruct (Z.ltb_spec step (2 ^ (64 - 1))); lia.
Qed.

(** an [lquantize] of at most 2^32 levels over a range of i64: the scanner
    keeps its base, its step and its number of levels, and every bucket has a
    label: below the base, the lower bound of its step, which is in the range,
    or from the end of the last step on. *)
Theorem lquantize_labels {E} value base upper step :
  I64_MIN <= base -> base < upper <= I64_MAX -> upper - base <= I64_MAX -> 0 < step <= U64_MAX ->
  let levels := (upper - base) / step in
  let p := {| lq_base := base; lq_step := step; lq_levels := levels |} in
  levels < 2 ^ 32 ->
  lquantize_args (E:=E) [value; signed_decimal base; signed_decimal upper; decimal step] = Ret (Some p) /\
  forall b, 0 <= b ->
    lquantize_bucket_label (E:=E) p b = Ret (if b =? 0 then str "< " ++ signed_decimal base
                                             else if levels <? b then str ">= " ++ signed_decimal (base + levels * step)
                                             else signed_decimal (base + (b - 1) * step)) /\
    (1 <= b <= levels -> base <= base + (b - 1) * step < upper).
Proof.
  intros Hb Hu Hr Hs levels p Hl. assert (L0 : 0 <= levels) by (apply Z.div_pos; lia). split.
  - unfold lquantize_args. rewrite !num_signed, num_decimal by lia.
    rewrite (proj2 (Z.eqb_neq step 0)), (proj2 (Z.leb_gt upper base)) by lia. cbn [orb].
    unfold sub_i64, in_span. unfold I64_MIN, I64_MAX in *.
    rewrite (proj2 (Z.leb_le (- 2 ^ 63) _)), (proj2 (Z.leb_le _ (2 ^ 63 - 1))) by lia. cbn [andb]. rewrite bind_Ret.
    unfold p. do 3 f_equal. by rewrite Z.mod_small.
  - intros b Hb0. unfold lquantize_bucket_label. cbn [lq_base lq_step lq_levels p].
    assert (A : forall k, 0 <= k <= levels ->
      (w ← mul_i64 (E:=E) k (to_signed 64 step); add_i64 (E:=E) base w) = Ret (base + k * step)).
    { intros k Hk. unfold mul_i64, add_i64, in_span.
      destruct (steps_fit base upper step k) as [-> B]; [unfold levels in *; lia..|]. unfold I64_MIN, I64_MAX in *.
      rewrite (proj2 (Z.leb_le (- 2 ^ 63) (k * step))), (proj2 (Z.leb_le (k * step) (2 ^ 63 - 1))) by lia.
      cbn [andb]. rewrite bind_Ret.
      by rewrite (proj2 (Z.leb_le (- 2 ^ 63) (base + k * step))), (proj2 (Z.leb_le (base + k * step) (2 ^ 63 - 1))) by lia. }
    assert (B : forall k (f : Z -> bytes), 0 <= k <= levels ->
      (w ← mul_i64 (E:=E) k (to_signed 64 step); hi ← add_i64 (E:=E) base w; Ret (f hi)) = Ret (f (base + k * step))).
    { intros k f Hk. specialize (A k Hk). destruct (mul_i64 k _) as [w| |]; [|done..]. rewrite !bind_Ret in *.
      by rewrite A. }
    split.
    + destruct (Z.eqb_spec b 0); [done|]. destruct (Z.ltb_spec levels b).
      * by rewrite (B levels (fun hi => str ">= " ++ signed_decimal hi)) by lia.
      * by rewrite (B (b - 1) signed_decimal) by lia.
    + intros H1. destruct (steps_fit base upper step (b - 1)) as [_ [? _]]; [unfold levels in *; lia..|].
      destruct (steps_fit base upper step b) as [_ [_ ?]]; [unfold levels in *; lia..|]. nia.
Qed.

(** * Concrete sessions *)

Definition mixed_session : list mixed :=
  [([], inl (M_guest (str "calls") (d_text "`nginx`") 40)); (str "CPU 0: ", inl (M_host (str "calls") (d_text "`nginx`") 1));
   ([], inr (E_fire (fire 1 7001 "vfs_read"))); ([], inl (M_host (str "calls") (d_text "`nginx`") 2));
   ([], inr (E_open 7001)); ([], inl (M_quantize (str "lat") 12 9)); ([], inr (E_text (str "a`f+0x1")));
   ([], inl (M_guest (str "calls") (d_text "`nginx`") 41)); ([], inr (E_close 7001)); ([], inr (E_text (str "done")));
   ([], inl (M_quantize (str "lat") 12 11))].

(** What is left to check of a field, as it is computed. *)
Definition clear (s : bytes) : bool := forallb (fun x => negb (byte_is x 0x7c) && negb (byte_is x 0x23)) s.
Lemma clear_spec s : clear s = true -> Forall (fun x => byte_is x 0x7c = false) s /\ (HASH ∉ s).
Proof.
  unfold clear. rewrite forallb_forall. intros H. split.
  - apply list.Forall_forall. intros x Hx%list_elem_of_In%H. by destruct (byte_is x 0x7c).
  - intros Hx%list_elem_of_In%H. vm_compute in Hx. discriminate Hx.
Qed.

Definition small (n : Z) : bool := in_span 0 100000 n.
Definition mixed_check (m : mixed) : bool :=
  clear m.1 &&
  match m.2 with
  | inl (M_host n k d) | inl (M_guest n k d) =>
      not_empty n && clear n && clear k && bool_decide (trim k = k) && small d
  | inl (M_quantize n b c) => not_empty n && clear n && small b && small c
  | inr (E_fire p) =>
      small (xp_seq p) && small (xp_tid p) && clear (xp_label p) && bool_decide (trim (xp_label p) = xp_label p)
      && clear (xp_gpid p) && bool_decide (trim (xp_gpid p) = xp_gpid p)
  | inr (E_open tid) | inr (E_close tid) => small tid
  | inr (E_text line) => not_empty line && clear line
  end.

Lemma mixed_check_ok m : mixed_check m = true -> mixed_ok m.
Proof.
  assert (U : forall n, small n = true -> 0 <= n <= U64_MAX /\ 0 <= n <= U32_MAX).
  { unfold small, in_span, U64_MAX, U32_MAX. lia. }
  destruct m as [noise [[n k d|n k d|n b c]|[p|tid|line|tid]]]; unfold mixed_check; cbn [fst snd];
    rewrite ?andb_true_iff, ?bool_decide_eq_true; intros H; decompose [and] H; clear H;
    repeat match goal with
    | H : clear _ = true |- _ => apply clear_spec in H as [? ?]
    | H : small _ = true |- _ => apply U in H as [? ?]
    end;
    unfold mixed_ok, marker_ok, name_ok, key_ok, event_ok, fire_ok, field_ok, clean_event; cbn [fst snd]; split_and!;
      try done; try lia; by intros ->.
Qed.

Lemma mixed_session_ok : Forall mixed_ok mixed_session.
Proof.
  apply list.Forall_forall. intros m Hm. apply mixed_check_ok.
  assert (C : forallb mixed_check mixed_session = true) by by vm_compute.
  rewrite forallb_forall in C. by apply C, list_elem_of_In.
Qed.

Lemma dispatch_totals_witness :
  exists text t st1,
    dispatch_all (E:=unit) (map print_mixed mixed_session) no_tables (started None None) = Ret (text, t, st1) /\
    row t (str "calls") (d_text "`nginx`") = {| host := 3; guest := 41 |} /\ quantize_state t !! (str "lat", 12) = Some 11.
Proof.
  destruct (dispatch_totals (E:=unit) mixed_session (started None None) mixed_session_ok) as (t & D & R & Q).
  assert (S : exists r, stitch (E:=unit) (print_events (events mixed_session)) (started None None) = Ret r) by (eexists; vm_compute; reflexivity).
  destruct S as [[text st1] S]. rewrite S in D. exists text, t, st1. split; [exact D|]. split.
  - rewrite R. by vm_compute.
  - rewrite Q. by vm_compute.
Defined.

(** A guest counts, the host prints; and the host truncates too. *)
Definition parsed_text (s : string) : Parsed :=
  match parse_source (d_text s) with Ret p => p | _ => {| preamble := []; clauses := [] |} end.
Definition guest_counts : Parsed :=
  Eval vm_compute in parsed_text "fbt:guest:vfs_read:entry { @calls[execname, pid] = count(); } END { printa(`%s %d %@d\n`, @calls); }".
Definition host_truncates : Parsed :=
  Eval vm_compute in parsed_text "fbt:guest:vfs_read:entry { @calls[pid] = count(); } END { trunc(@calls, 5); printa(`%d %@d\n`, @calls); }".

Lemma lquantize_labels_witness :
  lquantize_args (E:=unit) [str "arg0"; str "-100"; str "1000"; str "100"] =
    Ret (Some {| lq_base := -100; lq_step := 100; lq_levels := 11 |}) /\
  lquantize_bucket_label (E:=unit) {| lq_base := -100; lq_step := 100; lq_levels := 11 |} 3 = Ret (str "100") /\
  lquantize_bucket_label (E:=unit) {| lq_base := -100; lq_step := 100; lq_levels := 11 |} 12 = Ret (str ">= 1000").
Proof.
  pose proof (lquantize_labels (E:=unit) (str "arg0") (-100) 1000 100) as [P L];
    try (unfold I64_MIN, I64_MAX, U64_MAX; lia); [by vm_compute|].
  split; [exact P|]. split; [exact (proj1 (L 3 ltac:(lia)))|exact (proj1 (L 12 ltac:(lia)))].
Defined.

(** The tests of xagg.rs. *)
Example name_tests :
  collect_clause_agg_names (str "@foo[pid] = count();") = [str "foo"] /\
  collect_clause_agg_names (str "@a = count(); @bar[pid] = sum(x); @baz[execname, pid] = count();") = [str "a"; str "bar"; str "baz"] /\
  collect_clause_agg_names (d_text "printf(`@count is high`); @real = count();") = [str "real"].
Proof. by vm_compute. Qed.

Example key_tests :
  split_top_level_commas (str "a, b, c") = [str "a"; str " b"; str " c"] /\
  split_top_level_commas (str "f(a,b), c") = [str "f(a,b)"; str " c"] /\
  split_top_level_commas (str "x[a,b], y") = [str "x[a,b]"; str " y"] /\
  extract_agg_key_expr (str "@foo[execname, pid] = count();") (str "foo") = Some (str "execname, pid") /\
  extract_agg_key_expr (str "@foo = count();") (str "foo") = None /\
  extract_agg_key_expr (str "@foobar[pid] = count();") (str "foo") = None.
Proof. by vm_compute. Qed.

Example label_tests :
  bucket_label 0 = str "0" /\ bucket_label 1 = str "1" /\ bucket_label 11 = str "1024" /\ bucket_label 13 = str "4096" /\
  bucket_label 64 = str "2^63" /\
  llquantize_bucket_label (E:=unit) {| factor := 10; low_mag := 0; high_mag := 6; steps_per_mag := 20 |} 30 = Ret (str "46").
Proof. by vm_compute. Qed.

Example hint_tests :
  render_hint_for (str "calls") (collect_libact_hints host_truncates no_stores) = {| divisor := 0; trunc := Some 5 |} /\
  collect_cross_domain_aggs guest_counts = [] /\
  strip_marker (str "CPU 1: ##xagg-host##|a|b") "##xagg-host##|" = Some (str "a|b") /\ strip_marker (str "nothing") "##xagg-host##|" = None.
Proof. by vm_compute. Qed.

Example table_test :
  dump_xagg_state_force (E:=unit) (fun _ => 0) (register_normalize (str "calls") 2 no_stores)
    [((str "calls", str "idle"), {| host := 0; guest := 3 |}); ((str "calls", str "nginx"), {| host := 4; guest := 41 |})]
    [((str "lat", 1), 2); ((str "lat", 2), 4)] 0 =
  Ret ([NL] ++ str "  @calls (normalize=2)" ++ [NL]
       ++ right 32 (str "key") ++ str "         host        guest        total" ++ [NL]
       ++ right 32 (str "nginx") ++ str "            2           20           22" ++ [NL]
       ++ right 32 (str "idle") ++ str "            0            1            1" ++ [NL]
       ++ [NL] ++ str "  @lat (quantize)" ++ [NL]
       ++ str "               value ------------- Distribution -------------       count" ++ [NL]
       ++ str "                   0 |                                                  0" ++ [NL]
       ++ str "                   1 |@@@@@@@@@@@@@@@@@@@@                              2" ++ [NL]
       ++ str "                   2 |@@@@@@@@@@@@@@@@@@@@@@@@@@@@@@@@@@@@@@@@          4" ++ [NL]
       ++ str "                   4 |                                                  0" ++ [NL], 0).
Proof. by vm_compute. Qed.

(** ** What the code does not mean

    A library action that names an aggregation counts as its declaration, so
    an aggregation that the host truncates gets no stub, although its comment
    says it needs one, and is taken to be shared with the guest; so the clause
    that prints it is made to emit a marker, which counts as a fire. *)
Lemma truncated_gets_no_stub :
  host_ref (E:=unit) (clauses host_truncates) = Ret [str "calls"; str "calls"] /\
  collect_guest_only_aggs_referenced_by_host (E:=unit) host_truncates = Ret [] /\
  collect_cross_domain_aggs host_truncates = [str "calls"].
Proof. by vm_compute. Qed.

Definition shared_printed : Parsed :=
  Eval vm_compute in parsed_text "fbt:guest:f:entry { @n[pid] = count(); } syscall::read:entry { @n[pid] = count(); } END { printa(@n); }".
Lemma printing_counts_as_a_fire :
  collect_cross_domain_aggs shared_printed = [str "n"] /\
  map clause_source (drop 2 (clauses (rewrite_host_clauses_for_cross_aggs shared_printed [str "n"]))) =
    [str "END {" ++ [NL] ++ str "    printa(@n);" ++ SP :: NL :: d_text "    printf(`##xagg-host##|n|%lld|+1\n`, (long long)(0));"
       ++ [NL] ++ str "}"].
Proof. by vm_compute. Qed.

(** A body that ends in [printa(] or in an open call and a wide character, a
    range wider than i64, the last magnitude and large counts are panics. *)
Lemma open_printa_panics :
  collect_printa_agg_names (E:=unit) (str "@n = count(); printa(") = Panic /\
  collect_printa_agg_names (E:=unit) (str "printa(" ++ map u8b [0xc3; 0xa9]) = Panic.
Proof. by vm_compute. Qed.

Definition last_magnitude : LlquantizeParams := {| factor := 10; low_mag := 250; high_mag := 255; steps_per_mag := 1 |}.
Lemma wide_range_panics :
  lquantize_args (E:=unit) [str "arg0"; str "-9223372036854775808"; str "9223372036854775807"; str "1"] = Panic /\
  llquantize_args [str "x"; str "10"; str "250"; str "255"; str "1"] = Some last_magnitude /\
  llquantize_bucket_label (E:=unit) last_magnitude 7 = Panic /\
  quantize_table (E:=unit) no_stores (str "n") [(3, 500000000000000000)] = Panic.
Proof. by vm_compute. Qed.

(** Calls in strings are calls. *)
Lemma quoted_call_counts :
  scan_normalize_calls (d_text "printf(`normalize(@x, 7)`);") = [(str "x", 7)].
Proof. by vm_compute. Qed.
